(* ===== verification/_CoqProject ===== *)
-Q . S2P
Prelude.v
Sshbuf.v
SshbufGetPut.v
SshbufRead.v
Match.v
AddrMatch.v
Misc.v
AuthOptions.v
AuthOptParse.v
AuthOptLaws.v
Auth.v
AuthLaws.v
Monitor.v
MonitorSafe.v
MonitorAuth.v
Io.v
SftpCommon.v
Sftp.v
SftpSafe.v
SftpServe.v
SftpRun.v
SftpLive.v
Agent.v
AgentSafe.v
AgentRun.v
AgentTime.v
Authfd.v
AuthfdAgent.v
AuthfdAdd.v
Bitmap.v
RbTree.v
Krl.v
KrlWire.v
KrlBlob.v
AlgNames.v
Digest.v
Base64.v
Hostfile.v
HostfileLaws.v
HostfileLines.v
HostCheck.v
HostCheckLaws.v
HostTrust.v
HostfileEdit.v
Kex.v
ChaCha.v
Poly1305.v
ChachaPoly.v
Cipher.v
Packet.v
PacketKeep.v
PacketNet.v
PacketStream.v
PacketQueue.v
Dh.v
KexFlow.v
KexHash.v
KexSafe.v
KexUse.v
KexEnd.v
KexPhase.v
KexGen.v
Channels.v
ChannelNet.v
