(* ===== verification/Prelude.v ===== *)
(** * PKIX-SSH: a verification library

    PKIX-SSH 12.5.1 (src/pkixssh-12.5.1) is a fork of OpenSSH with X.509
    certificates: a client (ssh, scp, sftp), a server (sshd, sftp-server) and
    tools for keys.  This library models the parts of its C code that carry the
    security of a connection, and proves what they promise to each other.

    ** The program and its model

    Each file of the library models one component, from the bottom up; a file
    that only holds proofs about another one is named behind it.

    - Prelude (this file): machine integers with their wrap-around ([u8] to
      [u64]), error codes (ssherr.h), results and the state and error monad [SE],
      byte lists with [Z] indices, tactics and the hint databases.
    - Sshbuf, SshbufGetPut; SshbufRead: the dynamic byte buffer (sshbuf.c,
      sshbuf.h) and the reading and writing of typed values
      (sshbuf-getput-basic.c, parts of sshbuf-getput-crypto.c and sshbuf-misc.c).
      A buffer is the structure with its memory as a list of bytes.
    - Match, AddrMatch: patterns, lists and names (match.c), addresses and CIDR
      lists (addrmatch.c).
    - Misc: the parsers of misc.c that the other components use.
    - AuthOptions; AuthOptParse, AuthOptLaws: options of authorized_keys lines
      and of certificates (auth-options.c).
    - Auth; AuthLaws: who may log in, required methods and passwords (auth.c,
      auth2.c, auth-passwd.c, auth-shadow.c, groupaccess.c).
    - Monitor; MonitorSafe, MonitorAuth: the privileged process before
      authentication (monitor.c, messages of monitor_wrap.c).
    - Io: the monad of code that talks to the system and may end the process.
    - SftpCommon, Sftp; SftpSafe, SftpServe, SftpRun, SftpLive: the file transfer
      server (sftp-server.c, sftp-common.c) with its system calls.
    - Agent; AgentSafe, AgentRun, AgentTime: the agent that holds private keys
      (ssh-agent.c), its table of identities, the lock, requests, sockets and loop.
    - Authfd; AuthfdAgent, AuthfdAdd: the client side of the agent protocol
      (authfd.c, atomicio.c), and a client and the agent on the two ends of a
      socket.
    - Bitmap, RbTree, Krl, KrlWire, KrlBlob: bitmaps (bitmap.c), search trees
      (openbsd-compat/sys-tree.h), key revocation lists in memory and as files
      (krl.c).
    - AlgNames, Digest: names of algorithms and their lists (kex.c, cipher.c,
      mac.c), digests, HMAC and packet MACs (digest-openssl.c, hmac.c, mac.c).
    - Base64: base64 and its use on buffers (openbsd-compat/base64.c,
      sshbuf-misc.c).
    - Hostfile; HostfileLaws, HostfileLines, HostfileEdit: known hosts files
      (hostfile.c) and keys as text (sshkey.c), with files as a map from names to
      contents.
    - HostCheck; HostCheckLaws, HostTrust: the check of a server's key by the
      client (check_host_key and verify_host_key of sshconnect.c).
    - Kex: KEXINIT, the choice of algorithms and the derivation of keys (kex.c).
    - ChaCha, Poly1305, ChachaPoly, Cipher: the built-in cipher (chacha.c,
      poly1305.c, cipher-chachapoly.c) and the packet ciphers (cipher.c).
    - Packet; PacketKeep, PacketNet, PacketStream, PacketQueue: the binary packet
      protocol (packet.c).
    - Dh: groups, keys and public values of the group exchange (dh.c,
      kex_dh_compute_key of kexdh.c) and bignums (sshbuf-getput-crypto.c).
    - KexFlow; KexHash, KexSafe, KexUse, KexEnd, KexPhase, KexGen: message dispatch
      (dispatch.c), the messages of the key exchange (kex.c), the one-round methods
      (kexgen.c) and the group exchange (kexgex.c, kexgexc.c, kexgexs.c).
    - Channels; ChannelNet: channels, their windows and the state machine that
      closes them (channels.c, nchan.c).

    State is passed explicitly: a structure of the code is a record with its
    fields, a function that changes it returns the new record, in the monad [SE]
    when it can fail with an error code, in [ST] (Auth) when it can end the
    process and in [io] (Io) when it also talks to the system.  Names are those of
    the code; the manifest gives the lines.

    ** What the theorems show

    - Bytes: the buffer refines a bounded queue; typed fields are read back as
      written and nothing else is accepted; no operation leaves the memory of a
      buffer.
    - Matching: patterns, lists, CIDR masks and user patterns mean what the manual
      says; a negated entry wins; lists of algorithm names are assembled and
      checked as described and a choice is the first common name.
    - Keys: an HMAC is that of RFC 2104, a MAC check is exact; ChaCha20 is the
      exclusive or with its key stream; the limb arithmetic of Poly1305 computes
      the polynomial modulo 2^130 - 5; a sealed packet opens to its text and any
      other tag is refused; derived keys are those of RFC 4253.
    - Connections: both ends choose the same algorithms and derive the same keys;
      the dispatch table accepts only the messages of the current phase, in any
      history in which the handlers of other files (clientloop.c, serverloop.c,
      authentication) only read, write and send packets, start to rekey and
      register handlers of their own; the keys that are put into use in both
      directions are derived from the signed transcript of RFC 4253 or RFC 4419
      that ended the exchange; in a whole one-round exchange the client verifies
      what the server signed and both hold the same keys; what one end
      sends with packet.c the other reads in order and unchanged, under any
      fragmentation, compression and change of keys; during a key exchange
      nothing else is sent.
    - Channels: data arrives in order within the windows, and a channel is closed
      once and completely.
    - Revocation: the check of a key is exact for every sequence of revocations,
      and a list survives being written and read.
    - Authentication: only users who may log in are found; required methods are
      completed in order; options of keys and certificates mean what they say, and
      merging them grants nothing; and whatever the unprivileged child sends, the
      monitor accepts a user only after a password or a signature of an allowed
      key over a request that names the session, the user and the method.
    - File transfer: a read-only server changes nothing, every handle stands for
      an open descriptor, every request gets one reply in order, and a well-formed
      request is answered.
    - Agent: in any run, private keys are used only while the agent is not locked,
      only keys that were added and only with the consent they require; each
      message gets one reply; a locked agent stays locked until the password is
      given; the agent wakes in time for every lifetime.  With a client on the
      other end: a key that a client adds is held with the constraints it asked
      for, and a client of a locked agent gets no list and no signature.  One
      theorem shows a request after which memory is freed twice.
    - Trust in a server: what a known hosts file says about a key is what its lines
      say, for files whose lines all end with a newline, name no distinguished name
      in the place of a key and have no marker that ends with a tab (the code is
      wrong about the others, see the findings of the manifest); with strict checking a key is accepted only if a line vouches for it and
      none revokes it; the check ends; a host that was added is known; replacing
      keys changes only the lines of the host, and no failing call loses the file.
      Base64 is decoded exactly as it is encoded, and hashed names match exactly
      the host they were made for.

    ** Parameters, bounds and fuel

    Code that is not part of the repository is a class: the allocator (with
    [ReliableAllocator] where memory must not run out), OpenSSL's digests and
    ciphers, zlib, random numbers, resolvers, system calls, the system's data
    bases.  What is assumed of them are the fields of the classes named ...Laws,
    [OSLimits] and [KeyCodec], which state their documented behaviour; every
    theorem with such a hypothesis has a witness with concrete functions.  They are
    laws of single calls: the loops around deflate and inflate, for instance, are
    definitions, and that they pass a packet on whole is a theorem.  Parts of the
    repository that are not modelled yet (key formats and signatures of sshkey.c, key
    agreement in fixed groups and on curves, the choice of a group from the moduli,
    the search of authorized keys, Match blocks) are parameters in the same way.

    Loops that are not structural take fuel, and the fuel is part of the
    definition: the length of the string or buffer they consume, since every
    round takes at least one byte (pattern lists, time intervals, options,
    certificates, revocation lists), or the number of steps after which the code
    itself gives up.  The loops around zlib run for up to [2^16] and [2^29] turns
    ([turns]), more than a packet of the largest size can need.  Where the system
    decides the length of a loop the fuel is an argument: for the entries of a
    directory safety holds for any amount and more than the number of entries is
    enough; for [atomicio] one round is enough when the other end is the agent,
    which takes what is written and has its reply ready.  The check of a server's
    key takes two turns, one for a certificate and one for its plain key.  Event
    loops are run for any number of turns.  Theorems never assume that fuel
    suffices; where it would run out the model returns an error that the theorems
    exclude.

    The build is that for Linux with OpenSSL (SHA-2, ECC, GCM, DES) and zlib, no
    FIPS mode, no sntrup, no PAM, Kerberos, GSSAPI or audit.

    ** Not modelled

    Left out because they are outside of what a shallow embedding shows: drivers
    of the operating system (terminals, accounts, sandboxes, sockets), logging,
    user interaction and the main programs.  Left out so far: key formats,
    X.509, public key algorithms and elliptic curve arithmetic (sshkey.c,
    ssh-x509.c, ssh-rsa.c, ed25519.c and others), configuration files
    (readconf.c, servconf.c), the options and the set-up of ssh-agent and the
    opening of a client's socket, the clients sftp and scp, the resolver,
    multiplexing and the forwarding part of channels.c, transfer of a session
    between processes.  The manifest lists every part with the reason. *)

From Stdlib Require Export ZArith Lia.
From stdpp Require Export base list numbers gmap.
#[global] Open Scope Z_scope.

(** * Machine integers *)

(** Unsigned C integers are [Z] values; every operation that may leave the
    range of its type is followed by the wrap of that type. *)
Definition u8 (x : Z) : Z := x mod 2 ^ 8.
Definition u16 (x : Z) : Z := x mod 2 ^ 16.
Definition u32 (x : Z) : Z := x mod 2 ^ 32.
Definition u64 (x : Z) : Z := x mod 2 ^ 64.
Definition SIZE_MAX : Z := 2 ^ 64 - 1.
Definition INT_MAX : Z := 2 ^ 31 - 1.

Lemma u32_small x : 0 <= x < 2 ^ 32 -> u32 x = x.
Proof. apply Z.mod_small. Qed.

Lemma u64_small x : 0 <= x < 2 ^ 64 -> u64 x = x.
Proof. apply Z.mod_small. Qed.

Lemma u64_range x : 0 <= u64 x < 2 ^ 64.
Proof. apply Z.mod_pos_bound; lia. Qed.

Lemma u32_range x : 0 <= u32 x < 2 ^ 32.
Proof. apply Z.mod_pos_bound; lia. Qed.

(** A decidable closed proposition, by evaluation. *)
Ltac compute_dec := apply (bool_decide_unpack _); vm_compute; exact I.

(** [MINIMUM], [MAXIMUM] and [ROUNDUP] of misc.h; the sum of [ROUNDUP] is taken
    at the width of [size_t]. *)
Definition MINIMUM (a b : Z) : Z := if a <? b then a else b.
Definition MAXIMUM (a b : Z) : Z := if a >? b then a else b.
Definition ROUNDUP (x y : Z) : Z := u64 (u64 (x + (y - 1)) / y * y).

Lemma MINIMUM_min a b : MINIMUM a b = Z.min a b.
Proof. unfold MINIMUM. destruct (Z.ltb_spec a b); lia. Qed.

Lemma MAXIMUM_max a b : MAXIMUM a b = Z.max a b.
Proof. unfold MAXIMUM. rewrite Z.gtb_ltb. destruct (Z.ltb_spec b a); lia. Qed.

Lemma ROUNDUP_bounds x y :
  0 <= x -> 0 < y -> x + y < 2 ^ 64 ->
  x <= ROUNDUP x y < x + y /\ ROUNDUP x y mod y = 0.
Proof.
  intros Hx Hy Hlt. unfold ROUNDUP. rewrite (u64_small (x + _)) by lia.
  assert (Hq : (x + (y - 1)) / y * y <= x + (y - 1)).
  { rewrite Z.mul_comm. apply Z.mul_div_le. lia. }
  pose proof (Z.mod_pos_bound (x + (y - 1)) y Hy) as Hm.
  rewrite Z.mod_eq in Hm by lia.
  assert (0 <= (x + (y - 1)) / y) by (apply Z.div_pos; lia).
  rewrite u64_small by nia.
  split; [nia | apply Z.mod_mul; lia].
Qed.

(** * Loops *)

(** Up to [2^k] turns of a loop, each of which goes on with a new state or ends with
    a result.  The number of turns is not built: a loop that ends costs only the
    turns it takes. *)
Fixpoint turns {S R : Type} (k : nat) (turn : S -> S + R) (s : S) : S + R :=
  match k with
  | O => turn s
  | Datatypes.S k => match turns k turn s with inl s => turns k turn s | inr r => inr r end
  end.

(** An invariant of the turns; a variant counts them. *)
Lemma turns_inv {S R} k (turn : S -> S + R) (P : S -> Prop) (Q : R -> Prop) (v : S -> Z) s :
  (forall s, P s -> match turn s with inl s' => P s' /\ v s' < v s | inr r => Q r end) -> P s ->
  match turns k turn s with inl s' => P s' /\ v s' + 2 ^ Z.of_nat k <= v s | inr r => Q r end.
Proof.
  intros Hs. revert s. induction k as [|k IH]; intros s Hp.
  - cbn [turns]. specialize (Hs s Hp). destruct (turn s); [|done]. change (2 ^ Z.of_nat 0) with 1. destruct Hs. split; [done|lia].
  - cbn [turns]. pose proof (IH s Hp) as IH1. destruct (turns k turn s) as [s1|r]; [|done]. destruct IH1 as [Hp1 Hv1]. pose proof (IH s1 Hp1) as IH2. destruct (turns k turn s1) as [s2|r]; [|done].
    destruct IH2 as [Hp2 Hv2]. split; [done|]. replace (Z.of_nat (Datatypes.S k)) with (Z.of_nat k + 1) by lia. rewrite Z.pow_add_r by lia. lia.
Qed.

(** With a variant that is small enough the loop ends. *)
Lemma turns_end {S R} k (turn : S -> S + R) (P : S -> Prop) (Q : R -> Prop) (v : S -> Z) s :
  (forall s, P s -> 0 <= v s /\ match turn s with inl s' => P s' /\ v s' < v s | inr r => Q r end) -> P s -> v s < 2 ^ Z.of_nat k ->
  exists r, turns k turn s = inr r /\ Q r.
Proof.
  intros Hs Hp Hv. pose proof (turns_inv k turn P Q v s (fun s Hp => proj2 (Hs s Hp)) Hp) as Hr. destruct (turns k turn s) as [s'|r]; [|by exists r]. destruct Hr as [Hp' Hle]. destruct (Hs s' Hp') as [? _]. lia.
Qed.

(** * Error codes of ssherr.h *)

Inductive ssherr : Set :=
  | SSH_ERR_INTERNAL_ERROR | SSH_ERR_ALLOC_FAIL | SSH_ERR_MESSAGE_INCOMPLETE
  | SSH_ERR_INVALID_FORMAT | SSH_ERR_BIGNUM_IS_NEGATIVE | SSH_ERR_STRING_TOO_LARGE
  | SSH_ERR_BIGNUM_TOO_LARGE | SSH_ERR_ECPOINT_TOO_LARGE | SSH_ERR_NO_BUFFER_SPACE
  | SSH_ERR_INVALID_ARGUMENT | SSH_ERR_KEY_BITS_MISMATCH | SSH_ERR_EC_CURVE_INVALID
  | SSH_ERR_KEY_TYPE_MISMATCH | SSH_ERR_KEY_TYPE_UNKNOWN | SSH_ERR_EC_CURVE_MISMATCH
  | SSH_ERR_EXPECTED_CERT | SSH_ERR_KEY_LACKS_CERTBLOB | SSH_ERR_KEY_CERT_UNKNOWN_TYPE
  | SSH_ERR_KEY_CERT_INVALID_SIGN_KEY | SSH_ERR_KEY_INVALID_EC_VALUE
  | SSH_ERR_SIGNATURE_INVALID | SSH_ERR_LIBCRYPTO_ERROR | SSH_ERR_UNEXPECTED_TRAILING_DATA
  | SSH_ERR_SYSTEM_ERROR | SSH_ERR_KEY_CERT_INVALID | SSH_ERR_AGENT_COMMUNICATION
  | SSH_ERR_AGENT_FAILURE | SSH_ERR_DH_GEX_OUT_OF_RANGE | SSH_ERR_DISCONNECTED
  | SSH_ERR_MAC_INVALID | SSH_ERR_NO_CIPHER_ALG_MATCH | SSH_ERR_NO_MAC_ALG_MATCH
  | SSH_ERR_NO_COMPRESS_ALG_MATCH | SSH_ERR_NO_KEX_ALG_MATCH | SSH_ERR_NO_HOSTKEY_ALG_MATCH
  | SSH_ERR_NO_HOSTKEY_LOADED | SSH_ERR_PROTOCOL_MISMATCH | SSH_ERR_NO_PROTOCOL_VERSION
  | SSH_ERR_NEED_REKEY | SSH_ERR_PASSPHRASE_TOO_SHORT | SSH_ERR_FILE_CHANGED
  | SSH_ERR_KEY_UNKNOWN_CIPHER | SSH_ERR_KEY_WRONG_PASSPHRASE | SSH_ERR_KEY_BAD_PERMISSIONS
  | SSH_ERR_KEY_CERT_MISMATCH | SSH_ERR_KEY_NOT_FOUND | SSH_ERR_AGENT_NOT_PRESENT
  | SSH_ERR_AGENT_NO_IDENTITIES | SSH_ERR_BUFFER_READ_ONLY | SSH_ERR_KRL_BAD_MAGIC
  | SSH_ERR_KEY_REVOKED | SSH_ERR_CONN_CLOSED | SSH_ERR_CONN_TIMEOUT | SSH_ERR_CONN_CORRUPT
  | SSH_ERR_PROTOCOL_ERROR | SSH_ERR_KEY_LENGTH | SSH_ERR_NUMBER_TOO_LARGE
  | SSH_ERR_SIGN_ALG_UNSUPPORTED.

#[global] Instance ssherr_eq_dec : EqDecision ssherr.
Proof. solve_decision. Defined.

(** The numbers the C code returns. *)
Definition ssherr_code (e : ssherr) : Z :=
  match e with
  | SSH_ERR_INTERNAL_ERROR => -1
  | SSH_ERR_ALLOC_FAIL => -2
  | SSH_ERR_MESSAGE_INCOMPLETE => -3
  | SSH_ERR_INVALID_FORMAT => -4
  | SSH_ERR_BIGNUM_IS_NEGATIVE => -5
  | SSH_ERR_STRING_TOO_LARGE => -6
  | SSH_ERR_BIGNUM_TOO_LARGE => -7
  | SSH_ERR_ECPOINT_TOO_LARGE => -8
  | SSH_ERR_NO_BUFFER_SPACE => -9
  | SSH_ERR_INVALID_ARGUMENT => -10
  | SSH_ERR_KEY_BITS_MISMATCH => -11
  | SSH_ERR_EC_CURVE_INVALID => -12
  | SSH_ERR_KEY_TYPE_MISMATCH => -13
  | SSH_ERR_KEY_TYPE_UNKNOWN => -14
  | SSH_ERR_EC_CURVE_MISMATCH => -15
  | SSH_ERR_EXPECTED_CERT => -16
  | SSH_ERR_KEY_LACKS_CERTBLOB => -17
  | SSH_ERR_KEY_CERT_UNKNOWN_TYPE => -18
  | SSH_ERR_KEY_CERT_INVALID_SIGN_KEY => -19
  | SSH_ERR_KEY_INVALID_EC_VALUE => -20
  | SSH_ERR_SIGNATURE_INVALID => -21
  | SSH_ERR_LIBCRYPTO_ERROR => -22
  | SSH_ERR_UNEXPECTED_TRAILING_DATA => -23
  | SSH_ERR_SYSTEM_ERROR => -24
  | SSH_ERR_KEY_CERT_INVALID => -25
  | SSH_ERR_AGENT_COMMUNICATION => -26
  | SSH_ERR_AGENT_FAILURE => -27
  | SSH_ERR_DH_GEX_OUT_OF_RANGE => -28
  | SSH_ERR_DISCONNECTED => -29
  | SSH_ERR_MAC_INVALID => -30
  | SSH_ERR_NO_CIPHER_ALG_MATCH => -31
  | SSH_ERR_NO_MAC_ALG_MATCH => -32
  | SSH_ERR_NO_COMPRESS_ALG_MATCH => -33
  | SSH_ERR_NO_KEX_ALG_MATCH => -34
  | SSH_ERR_NO_HOSTKEY_ALG_MATCH => -35
  | SSH_ERR_NO_HOSTKEY_LOADED => -36
  | SSH_ERR_PROTOCOL_MISMATCH => -37
  | SSH_ERR_NO_PROTOCOL_VERSION => -38
  | SSH_ERR_NEED_REKEY => -39
  | SSH_ERR_PASSPHRASE_TOO_SHORT => -40
  | SSH_ERR_FILE_CHANGED => -41
  | SSH_ERR_KEY_UNKNOWN_CIPHER => -42
  | SSH_ERR_KEY_WRONG_PASSPHRASE => -43
  | SSH_ERR_KEY_BAD_PERMISSIONS => -44
  | SSH_ERR_KEY_CERT_MISMATCH => -45
  | SSH_ERR_KEY_NOT_FOUND => -46
  | SSH_ERR_AGENT_NOT_PRESENT => -47
  | SSH_ERR_AGENT_NO_IDENTITIES => -48
  | SSH_ERR_BUFFER_READ_ONLY => -49
  | SSH_ERR_KRL_BAD_MAGIC => -50
  | SSH_ERR_KEY_REVOKED => -51
  | SSH_ERR_CONN_CLOSED => -52
  | SSH_ERR_CONN_TIMEOUT => -53
  | SSH_ERR_CONN_CORRUPT => -54
  | SSH_ERR_PROTOCOL_ERROR => -55
  | SSH_ERR_KEY_LENGTH => -56
  | SSH_ERR_NUMBER_TOO_LARGE => -57
  | SSH_ERR_SIGN_ALG_UNSUPPORTED => -58
  end.

(** Every code is negative, so the tests [r < 0] and [r != 0] of the sources
    agree and both are a match on [Err]. *)
Lemma ssherr_code_neg e : ssherr_code e < 0.
Proof. destruct e; reflexivity. Qed.

(** * Memory allocation *)

(** malloc(3): whether an allocation of [n] bytes succeeds. *)
Class Allocator := malloc_ok : Z -> bool.

(** An allocator that does not fail, for the statements that an operation
    succeeds. *)
Class ReliableAllocator (A : Allocator) : Prop := malloc_reliable : forall n, malloc_ok n = true.

(** An allocator that always succeeds. *)
Definition alloc_all : Allocator := fun _ => true.

Lemma alloc_all_reliable : ReliableAllocator alloc_all.
Proof. done. Qed.

(** * Results and the state-and-error monad *)

Inductive result (A : Type) : Type :=
  | Ok (a : A)
  | Err (e : ssherr).
Arguments Ok {A} a.
Arguments Err {A} e.

Lemma ok_inj {A} (a b : A) : Ok a = Ok b -> a = b.
Proof. by intros [= ->]. Qed.

#[global] Instance result_ret : MRet result := fun _ a => Ok a.
#[global] Instance result_bind : MBind result := fun _ _ f m =>
  match m with Ok a => f a | Err e => Err e end.

Definition is_ok {A} (r : result A) : bool :=
  match r with Ok _ => true | Err _ => false end.

(** C functions that mutate an object and return an [int] error code: the state
    left behind is kept on the error paths too. *)
Definition SE (S A : Type) : Type := S -> result A * S.

#[global] Instance se_ret {S} : MRet (SE S) := fun _ a s => (Ok a, s).
#[global] Instance se_bind {S} : MBind (SE S) := fun _ _ f m s =>
  match m s with
  | (Ok a, s') => f a s'
  | (Err e, s') => (Err e, s')
  end.
Definition se_err {S A} (e : ssherr) : SE S A := fun s => (Err e, s).
Definition se_get {S} : SE S S := fun s => (Ok s, s).
Definition se_put {S} (s : S) : SE S unit := fun _ => (Ok tt, s).
Definition se_modify {S} (f : S -> S) : SE S unit := fun s => (Ok tt, f s).
Definition se_lift {S A} (r : result A) : SE S A := fun s => (r, s).

Lemma se_bind_ok {S A B} (m : SE S A) (f : A -> SE S B) s a s' :
  m s = (Ok a, s') -> (m ≫= f) s = f a s'.
Proof. intros H. unfold mbind, se_bind. by rewrite H. Qed.

Lemma se_bind_err {S A B} (m : SE S A) (f : A -> SE S B) s e s' :
  m s = (Err e, s') -> (m ≫= f) s = (Err e, s').
Proof. intros H. unfold mbind, se_bind. by rewrite H. Qed.

Lemma se_bind_inv {S A B} (m : SE S A) (f : A -> SE S B) s r s' :
  (m ≫= f) s = (r, s') ->
  (exists a t, m s = (Ok a, t) /\ f a t = (r, s')) \/
  (exists e, m s = (Err e, s') /\ r = Err e).
Proof.
  unfold mbind, se_bind. destruct (m s) as [[a|e] t] eqn:E; intros H.
  - left. eauto.
  - right. simplify_eq. eauto.
Qed.

(** [m] succeeds from every state that [R] relates to [t], returns [a] and leaves
    a state related to [t']. *)
Definition sim {S T A} (R : S -> T -> Prop) (m : SE S A) (t : T) (a : A) (t' : T) : Prop :=
  forall s, R s t -> exists s', m s = (Ok a, s') /\ R s' t'.

Section sim.
Context {S T : Type} (R : S -> T -> Prop).

Lemma sim_ret {A} (a : A) t : sim R (mret a) t a t.
Proof. intros s Hs. by exists s. Qed.

Lemma sim_bind {A B} (m : SE S A) (f : A -> SE S B) t a t1 b t2 :
  sim R m t a t1 -> sim R (f a) t1 b t2 -> sim R (m ≫= f) t b t2.
Proof.
  intros Hm Hf s Hs. destruct (Hm s Hs) as (s1 & E1 & H1). destruct (Hf s1 H1) as (s2 & E2 & H2).
  exists s2. by rewrite (se_bind_ok _ _ _ _ _ E1).
Qed.

Lemma sim_get {B} (f : S -> SE S B) t b t' :
  (forall s, R s t -> sim R (f s) t b t') -> sim R (se_get ≫= f) t b t'.
Proof. intros Hf s Hs. destruct (Hf s Hs s Hs) as (s' & E & H'). by exists s'. Qed.

Lemma sim_modify (f : S -> S) t t' : (forall s, R s t -> R (f s) t') -> sim R (se_modify f) t tt t'.
Proof. intros Hf s Hs. exists (f s). split; [done|by apply Hf]. Qed.

End sim.

(** * Lists indexed by machine integers *)

Definition zlen {A} (l : list A) : Z := Z.of_nat (length l).
Definition ztake {A} (n : Z) (l : list A) : list A := take (Z.to_nat n) l.
Definition zdrop {A} (n : Z) (l : list A) : list A := drop (Z.to_nat n) l.
(** The [n] elements of [l] from index [o] on. *)
Definition slice {A} (o n : Z) (l : list A) : list A := ztake n (zdrop o l).
Definition zrepeat (n : Z) : list Z := replicate (Z.to_nat n) 0.

(** [l[i]]; the definitions that use it show that the index is in range. *)
Definition znth (l : list Z) (i : Z) : Z := default 0 (l !! Z.to_nat i).

(** [memcpy(m + o, v, zlen v)]. *)
Definition mem_write (m : list Z) (o : Z) (v : list Z) : list Z :=
  ztake o m ++ v ++ zdrop (o + zlen v) m.

(** [l[i] = x]. *)
Definition zset (l : list Z) (i x : Z) : list Z := <[Z.to_nat i := x]> l.

Section zlists.
Context {A : Type}.
Implicit Types l k : list A.

Lemma zlen_nonneg l : 0 <= zlen l.
Proof. unfold zlen. lia. Qed.

Lemma zlen_nil : zlen (@nil A) = 0.
Proof. reflexivity. Qed.

Lemma zlen_cons x l : zlen (x :: l) = 1 + zlen l.
Proof. unfold zlen. cbn [length]. lia. Qed.

Lemma zlen_app l k : zlen (l ++ k) = zlen l + zlen k.
Proof. unfold zlen. rewrite length_app. lia. Qed.

Lemma zlen_ztake n l : 0 <= n <= zlen l -> zlen (ztake n l) = n.
Proof. unfold zlen, ztake. rewrite length_take. lia. Qed.

Lemma zlen_zdrop n l : 0 <= n <= zlen l -> zlen (zdrop n l) = zlen l - n.
Proof. unfold zlen, zdrop. rewrite length_drop. lia. Qed.

Lemma zlen_slice o n l : 0 <= o -> 0 <= n -> o + n <= zlen l -> zlen (slice o n l) = n.
Proof. intros. unfold slice. apply zlen_ztake. rewrite zlen_zdrop; lia. Qed.

Lemma zlen_0_nil l : zlen l = 0 -> l = [].
Proof. destruct l; [done|]. rewrite zlen_cons. pose proof (zlen_nonneg l). lia. Qed.

Lemma ztake_0 l : ztake 0 l = [].
Proof. reflexivity. Qed.

Lemma zdrop_0 l : zdrop 0 l = l.
Proof. apply drop_0. Qed.

Lemma ztake_ge n l : zlen l <= n -> ztake n l = l.
Proof. unfold zlen, ztake. intros. apply take_ge. lia. Qed.

Lemma zdrop_ge n l : zlen l <= n -> zdrop n l = [].
Proof. unfold zlen, zdrop. intros. apply drop_ge. lia. Qed.

Lemma ztake_app_exact n l k : n = zlen l -> ztake n (l ++ k) = l.
Proof. unfold zlen, ztake. intros ->. rewrite Nat2Z.id. apply take_app_length. Qed.

Lemma zdrop_app_exact n l k : n = zlen l -> zdrop n (l ++ k) = k.
Proof. unfold zlen, zdrop. intros ->. rewrite Nat2Z.id. apply drop_app_length. Qed.

Lemma ztake_app_le n l k : n <= zlen l -> ztake n (l ++ k) = ztake n l.
Proof. unfold zlen, ztake. intros. apply take_app_le. lia. Qed.

Lemma ztake_app_add n l k : 0 <= n -> ztake (zlen l + n) (l ++ k) = l ++ ztake n k.
Proof.
  unfold zlen, ztake. intros. rewrite take_app_ge by lia. f_equal. f_equal. lia.
Qed.

Lemma zdrop_app_le n l k : n <= zlen l -> zdrop n (l ++ k) = zdrop n l ++ k.
Proof. unfold zlen, zdrop. intros. apply drop_app_le. lia. Qed.

Lemma zdrop_zdrop m n l : 0 <= m -> 0 <= n -> zdrop n (zdrop m l) = zdrop (m + n) l.
Proof. unfold zdrop. intros. rewrite drop_drop. f_equal. lia. Qed.

Lemma ztake_ztake m n l : n <= m -> ztake n (ztake m l) = ztake n l.
Proof. unfold ztake. intros. rewrite take_take. f_equal. lia. Qed.

Lemma zdrop_ztake m n l : 0 <= m <= n -> zdrop m (ztake n l) = ztake (n - m) (zdrop m l).
Proof.
  unfold zdrop, ztake. intros. rewrite skipn_firstn_comm. f_equal. lia.
Qed.

Lemma ztake_zdrop n l : ztake n l ++ zdrop n l = l.
Proof. apply take_drop. Qed.

Lemma slice_split o n m l :
  0 <= o -> 0 <= n -> 0 <= m -> o + n + m <= zlen l ->
  slice o (n + m) l = slice o n l ++ slice (o + n) m l.
Proof.
  intros. unfold slice. rewrite <- zdrop_zdrop by lia.
  rewrite <- (ztake_zdrop n (zdrop o l)) at 1.
  rewrite <- (zlen_ztake n (zdrop o l)) at 1 by (rewrite zlen_zdrop; lia).
  apply ztake_app_add. lia.
Qed.

Lemma slice_ztake o n l : 0 <= o -> 0 <= n -> slice o n l = zdrop o (ztake (o + n) l).
Proof. intros. unfold slice. rewrite zdrop_ztake by lia. f_equal. lia. Qed.

Lemma ztake_slice o n m l : m <= n -> ztake m (slice o n l) = slice o m l.
Proof. intros. unfold slice. by rewrite ztake_ztake by lia. Qed.

Lemma slice_slice o n p q l :
  0 <= o -> 0 <= p -> 0 <= q -> p + q <= n ->
  slice p q (slice o n l) = slice (o + p) q l.
Proof.
  intros. unfold slice. rewrite zdrop_ztake by lia.
  rewrite ztake_ztake by lia. by rewrite zdrop_zdrop by lia.
Qed.
End zlists.

Lemma zlen_zrepeat n : 0 <= n -> zlen (zrepeat n) = n.
Proof. unfold zlen, zrepeat. rewrite length_replicate. lia. Qed.

Lemma zdrop_zrepeat n m : 0 <= n <= m -> zdrop n (zrepeat m) = zrepeat (m - n).
Proof. intros. unfold zdrop, zrepeat. rewrite drop_replicate. f_equal. lia. Qed.

Lemma mem_write_front m v : mem_write m 0 v = v ++ zdrop (zlen v) m.
Proof. unfold mem_write. by rewrite ztake_0. Qed.

Lemma mem_write_after a m v : mem_write (a ++ m) (zlen a) v = a ++ mem_write m 0 v.
Proof.
  pose proof (zlen_nonneg a). pose proof (zlen_nonneg v). unfold mem_write.
  rewrite ztake_app_exact, ztake_0 by done.
  rewrite <- (zdrop_zdrop (zlen a)), zdrop_app_exact by done. done.
Qed.

Lemma zlen_zset l i x : zlen (zset l i x) = zlen l.
Proof. unfold zlen, zset. by rewrite length_insert. Qed.

Lemma znth_zset_eq l i x : 0 <= i < zlen l -> znth (zset l i x) i = x.
Proof. unfold znth, zset, zlen. intros. rewrite list_lookup_insert_eq; [done|lia]. Qed.

Lemma znth_zset_ne l i j x : 0 <= i -> 0 <= j -> i <> j -> znth (zset l i x) j = znth l j.
Proof. unfold znth, zset. intros. rewrite list_lookup_insert_ne; [done|lia]. Qed.

Lemma znth_app_l l k i : 0 <= i < zlen l -> znth (l ++ k) i = znth l i.
Proof. unfold znth, zlen. intros. rewrite lookup_app_l; [done|lia]. Qed.

Lemma znth_app_r l k i : zlen l <= i -> znth (l ++ k) i = znth k (i - zlen l).
Proof.
  unfold znth, zlen. intros. rewrite lookup_app_r by lia.
  do 2 f_equal. lia.
Qed.

Lemma znth_out l i : zlen l <= i -> znth l i = 0.
Proof. unfold znth, zlen. intros. by rewrite lookup_ge_None_2 by lia. Qed.

Lemma znth_cons x l i : 0 < i -> znth (x :: l) i = znth l (i - 1).
Proof.
  intros. change (x :: l) with ([x] ++ l). rewrite znth_app_r; [done|].
  rewrite zlen_cons, zlen_nil. lia.
Qed.

Lemma znth_zrepeat n i : znth (zrepeat n) i = 0.
Proof.
  unfold znth, zrepeat. destruct (replicate _ _ !! _) eqn:E; [|done].
  apply lookup_replicate in E as [-> _]. done.
Qed.

Section mem_write.
Implicit Types m v : list Z.

Lemma zlen_mem_write m o v :
  0 <= o -> o + zlen v <= zlen m -> zlen (mem_write m o v) = zlen m.
Proof.
  intros. pose proof (zlen_nonneg v). unfold mem_write.
  rewrite !zlen_app, zlen_ztake, zlen_zdrop by lia. lia.
Qed.

(** What is written at [o] is read back there, behind what precedes it. *)
Lemma ztake_mem_write m o v :
  0 <= o -> o + zlen v <= zlen m ->
  ztake (o + zlen v) (mem_write m o v) = ztake o m ++ v.
Proof.
  intros. pose proof (zlen_nonneg v). unfold mem_write. rewrite app_assoc.
  apply ztake_app_exact. rewrite zlen_app, zlen_ztake; lia.
Qed.

Lemma slice_mem_write_end m o s v :
  0 <= o <= s -> s + zlen v <= zlen m ->
  slice o (s - o + zlen v) (mem_write m s v) = slice o (s - o) m ++ v.
Proof.
  intros. pose proof (zlen_nonneg v). rewrite !slice_ztake by lia.
  replace (o + (s - o + zlen v)) with (s + zlen v) by lia.
  replace (o + (s - o)) with s by lia.
  rewrite ztake_mem_write by lia.
  apply zdrop_app_le. rewrite zlen_ztake; lia.
Qed.

Lemma slice_mem_write_before m o n s v :
  0 <= o -> 0 <= n -> o + n <= s -> s <= zlen m ->
  slice o n (mem_write m s v) = slice o n m.
Proof.
  intros. rewrite !slice_ztake by lia. unfold mem_write.
  rewrite ztake_app_le by (rewrite zlen_ztake; lia).
  by rewrite ztake_ztake by lia.
Qed.

Lemma zdrop_mem_write m p v :
  0 <= p -> p + zlen v <= zlen m ->
  zdrop (p + zlen v) (mem_write m p v) = zdrop (p + zlen v) m.
Proof.
  intros. pose proof (zlen_nonneg v). unfold mem_write. rewrite app_assoc.
  apply zdrop_app_exact. rewrite zlen_app, zlen_ztake; lia.
Qed.

(** A write inside a slice. *)
Lemma slice_mem_write_mid m o n p v :
  0 <= o -> 0 <= p -> p + zlen v <= n -> o + n <= zlen m ->
  slice o n (mem_write m (o + p) v) = mem_write (slice o n m) p v.
Proof.
  intros. pose proof (zlen_nonneg v).
  replace n with ((p + zlen v) + (n - (p + zlen v))) at 1 by lia.
  rewrite slice_split by (rewrite ?zlen_mem_write; lia).
  replace (p + zlen v) with (o + p - o + zlen v) at 1 by lia.
  rewrite slice_mem_write_end by lia. rewrite <- app_assoc.
  unfold mem_write at 2. rewrite ztake_slice by lia. f_equal; [f_equal; lia|]. f_equal.
  unfold slice. replace (o + (p + zlen v)) with (o + p + zlen v) by lia.
  rewrite zdrop_mem_write by lia. rewrite zdrop_ztake, zdrop_zdrop by lia.
  do 2 f_equal. lia.
Qed.

(** Two adjacent copies are one copy. *)
Lemma mem_write_app m p u v :
  0 <= p -> p + zlen u + zlen v <= zlen m ->
  mem_write (mem_write m p u) (p + zlen u) v = mem_write m p (u ++ v).
Proof.
  intros Hp Hl. pose proof (zlen_nonneg u). pose proof (zlen_nonneg v). unfold mem_write at 1.
  rewrite ztake_mem_write by lia. unfold mem_write.
  rewrite zlen_app, <- !app_assoc. do 3 f_equal.
  rewrite !app_assoc, <- (zdrop_zdrop (p + zlen u)) by lia.
  rewrite zdrop_app_exact by (rewrite zlen_app, zlen_ztake; lia).
  rewrite zdrop_zdrop by lia. f_equal. lia.
Qed.

Lemma mem_write_nil m p : 0 <= p <= zlen m -> mem_write m p [] = m.
Proof. intros. unfold mem_write. cbn. rewrite Z.add_0_r. apply ztake_zdrop. Qed.
End mem_write.

Lemma znth_ext (l k : list Z) :
  zlen l = zlen k -> (forall i, 0 <= i < zlen l -> znth l i = znth k i) -> l = k.
Proof.
  unfold zlen. intros Hl Hn. apply list_eq. intros i.
  destruct (decide (i < length l)%nat) as [Hi|Hi].
  - specialize (Hn (Z.of_nat i) ltac:(lia)). unfold znth in Hn. rewrite Nat2Z.id in Hn.
    destruct (lookup_lt_is_Some_2 l i Hi) as [x Hx].
    destruct (lookup_lt_is_Some_2 k i ltac:(lia)) as [y Hy].
    rewrite Hx, Hy in Hn. cbn in Hn. congruence.
  - by rewrite !lookup_ge_None_2 by lia.
Qed.

Lemma znth_rev (l : list Z) i : 0 <= i < zlen l -> znth (rev l) i = znth l (zlen l - 1 - i).
Proof.
  unfold zlen. intros Hi. unfold znth. rewrite rev_alt. change (rev_append l []) with (reverse l).
  rewrite reverse_lookup by lia.
  do 2 f_equal. lia.
Qed.

Lemma znth_zdrop (l : list Z) n i : 0 <= n -> 0 <= i -> znth (zdrop n l) i = znth l (n + i).
Proof. intros Hn Hi. unfold znth, zdrop. rewrite lookup_drop. do 2 f_equal. lia. Qed.

Lemma znth_ztake (l : list Z) n i : 0 <= i < n -> znth (ztake n l) i = znth l i.
Proof. intros Hi. unfold znth, ztake. by rewrite lookup_take_lt by lia. Qed.

Lemma znth_slice (l : list Z) o n i : 0 <= o -> 0 <= i < n -> znth (slice o n l) i = znth l (o + i).
Proof. intros Ho Hi. unfold slice. rewrite znth_ztake by done. by rewrite znth_zdrop by lia. Qed.

Lemma Forall_ztake {A} (P : A -> Prop) n l : Forall P l -> Forall P (ztake n l).
Proof. apply Forall_take. Qed.

Lemma Forall_zdrop {A} (P : A -> Prop) n l : Forall P l -> Forall P (zdrop n l).
Proof. apply Forall_drop. Qed.

Lemma Forall_slice {A} (P : A -> Prop) o n l : Forall P l -> Forall P (slice o n l).
Proof. intros. by apply Forall_ztake, Forall_zdrop. Qed.

Lemma zlen_rev {A} (l : list A) : zlen (rev l) = zlen l.
Proof. unfold zlen. by rewrite length_rev. Qed.

#[global] Opaque ztake zdrop slice mem_write.
Create HintDb sshdb discriminated.
#[export] Hint Resolve zlen_nonneg : sshdb.
Create Rewrite HintDb zlist.
#[export] Hint Rewrite @zlen_nil @zlen_cons @zlen_app : zlist.
#[export] Hint Rewrite @zlen_ztake @zlen_zdrop @zlen_slice zlen_zrepeat zlen_mem_write zlen_zset
  using (autorewrite with zlist; lia) : zlist.

(** Adds [0 <= zlen l] for every length that occurs. *)
Ltac zlen_facts :=
  repeat match goal with
  | |- context [zlen ?l] =>
      lazymatch goal with
      | _ : 0 <= zlen l |- _ => fail
      | _ => pose proof (zlen_nonneg l)
      end
  | _ : context [zlen ?l] |- _ =>
      lazymatch goal with
      | _ : 0 <= zlen l |- _ => fail
      | _ => pose proof (zlen_nonneg l)
      end
  end.

(** Linear arithmetic with list lengths. *)
Ltac zlia := zlen_facts; autorewrite with zlist in *; zlen_facts; try done; lia.

(** Case analysis on the innermost test of a conditional. *)
Ltac case_if :=
  match goal with
  | |- context [if ?b then _ else _] => destruct b eqn:?
  | H : context [if ?b then _ else _] |- _ => destruct b eqn:?
  end.

(** Boolean integer comparisons in the context become propositions. *)
Ltac zbool :=
  rewrite ?orb_true_iff, ?orb_false_iff, ?andb_true_iff, ?andb_false_iff,
    ?negb_true_iff, ?negb_false_iff, ?Z.ltb_lt, ?Z.ltb_ge, ?Z.leb_le, ?Z.leb_gt,
    ?Z.gtb_ltb, ?Z.geb_leb, ?Z.eqb_eq, ?Z.eqb_neq in *.
