(* ===== verification/Sshbuf.v ===== *)
(** The dynamic byte buffer of sshbuf.c and sshbuf.h.

    [sshbuf] is the structure with the memory its data pointer refers to as a
    list of bytes; every operation of sshbuf.c that works on one buffer is a
    definition here.  A child buffer ([sshbuf_froms], [sshbuf_fromb])
    is a value of its own that holds the same bytes, and its parent keeps the
    count of references, which makes it read-only; the release of memory is not
    represented.  The allocator is a parameter. *)

From S2P Require Import Prelude.

Definition SSHBUF_SIZE_MAX : Z := 0x8000000.
Definition SSHBUF_REFS_MAX : Z := 0x100000.
Definition SSHBUF_MAX_BIGNUM : Z := 16384 / 8.
Definition SSHBUF_SIZE_INIT : Z := 256.
Definition SSHBUF_SIZE_INC : Z := 256.
Definition SSHBUF_PACK_MIN : Z := 8192.

(** [struct sshbuf].  [cd] is the memory that [cd] (and, when the buffer is
    writable, [d]) points to. *)
Record sshbuf := mk_sshbuf {
  cd : list Z;
  off : Z;
  size : Z;
  max_size : Z;
  alloc : Z;
  readonly : bool;
  refcount : Z;
}.

Definition buf_set_span (b : sshbuf) (m : list Z) (o s : Z) : sshbuf :=
  mk_sshbuf m o s (max_size b) (alloc b) (readonly b) (refcount b).
Definition buf_set_mem (b : sshbuf) (m : list Z) : sshbuf :=
  buf_set_span b m (off b) (size b).
Definition buf_set_alloc (b : sshbuf) (m : list Z) (a : Z) : sshbuf :=
  mk_sshbuf m (off b) (size b) (max_size b) a (readonly b) (refcount b).
Definition buf_set_max (b : sshbuf) (m : Z) : sshbuf :=
  mk_sshbuf (cd b) (off b) (size b) m (alloc b) (readonly b) (refcount b).
Definition buf_set_refcount (b : sshbuf) (n : Z) : sshbuf :=
  mk_sshbuf (cd b) (off b) (size b) (max_size b) (alloc b) (readonly b) n.

(** recallocarray(3) of openbsd-compat with element size 1: the new area holds
    the old bytes, cut or followed by zeros. *)
Definition recallocarray `{Allocator} (m : list Z) (oldn newn : Z) : option (list Z) :=
  if (newn <=? oldn) && (oldn - newn <? oldn / 2) && (oldn - newn <? 4096) then
    Some (ztake newn m)
  else if malloc_ok newn then
    Some (if newn >? oldn then m ++ zrepeat (newn - oldn) else ztake newn m)
  else None.

Definition sshbuf_check_sanity (b : sshbuf) : result unit :=
  if (refcount b <? 1) || (refcount b >? SSHBUF_REFS_MAX)
     || (max_size b >? SSHBUF_SIZE_MAX) || (alloc b >? max_size b)
     || (size b >? alloc b) || (off b >? size b)
  then Err SSH_ERR_INTERNAL_ERROR
  else Ok tt.

Definition locked (b : sshbuf) : bool := readonly b || (refcount b >? 1).

Definition sshbuf_maybe_pack (force : bool) (b : sshbuf) : sshbuf :=
  if (off b =? 0) || readonly b || (refcount b >? 1) then b
  else if force || ((off b >=? SSHBUF_PACK_MIN) && (off b >=? size b / 2)) then
    buf_set_span b
      (mem_write (cd b) 0 (slice (off b) (size b - off b) (cd b)))
      0 (size b - off b)
  else b.

(** [sizeof(struct sshbuf)]: what [calloc] is asked for. *)
Definition SIZEOF_SSHBUF : Z := 72.

Definition sshbuf_new `{Allocator} : option sshbuf :=
  if malloc_ok SIZEOF_SSHBUF && malloc_ok SSHBUF_SIZE_INIT then
    Some (mk_sshbuf (zrepeat SSHBUF_SIZE_INIT) 0 0 SSHBUF_SIZE_MAX SSHBUF_SIZE_INIT false 1)
  else None.

Definition sshbuf_from `{Allocator} (blob : list Z) : option sshbuf :=
  if (zlen blob >? SSHBUF_SIZE_MAX) || negb (malloc_ok SIZEOF_SSHBUF) then None
  else Some (mk_sshbuf blob 0 (zlen blob) (zlen blob) (zlen blob) true 1).

(** The call of [sshbuf_check_sanity], whose result is not used, is left out: it ends
    the process for a damaged buffer and does nothing otherwise. *)
Definition sshbuf_reset `{Allocator} (b : sshbuf) : sshbuf :=
  if locked b then buf_set_span b (cd b) (size b) (size b)
  else
    let b := buf_set_span b (cd b) 0 0 in
    let b :=
      if negb (alloc b =? SSHBUF_SIZE_INIT) then
        match recallocarray (cd b) (alloc b) SSHBUF_SIZE_INIT with
        | Some d => buf_set_alloc b d SSHBUF_SIZE_INIT
        | None => b
        end
      else b in
    buf_set_mem b (mem_write (cd b) 0 (zrepeat SSHBUF_SIZE_INIT)).

(** [sshbuf_set_parent(child, parent)] as it changes the parent. *)
Definition sshbuf_set_parent (child : sshbuf) : SE sshbuf unit :=
  _ ← se_lift (sshbuf_check_sanity child);
  parent ← se_get;
  _ ← se_lift (sshbuf_check_sanity parent);
  se_put (buf_set_refcount parent (refcount parent + 1)).

(** [sshbuf_fromb]: a read-only child that shows the data of the buffer, which
    gains a reference. *)
Definition sshbuf_fromb `{Allocator} (b : sshbuf) : option sshbuf * sshbuf :=
  match sshbuf_check_sanity b with
  | Err _ => (None, b)
  | Ok _ =>
      match sshbuf_from (slice (off b) (size b - off b) (cd b)) with
      | None => (None, b)
      | Some ret =>
          match sshbuf_set_parent ret b with
          | (Err _, b') => (None, b')
          | (Ok _, b') => (Some ret, b')
          end
      end
  end.

(** [sshbuf_free] of a child as it changes the parent: one reference less. *)
Definition sshbuf_unref (b : sshbuf) : sshbuf :=
  match sshbuf_check_sanity b with
  | Err _ => b
  | Ok _ => buf_set_refcount b (refcount b - 1)
  end.

Definition sshbuf_max_size (b : sshbuf) : Z := max_size b.
Definition sshbuf_alloc (b : sshbuf) : Z := alloc b.
Definition sshbuf_refcount (b : sshbuf) : Z := refcount b.

(** The allocation [sshbuf_set_max_size] shrinks to. *)
Definition shrink_len (b : sshbuf) (maxsz : Z) : Z :=
  let rlen := if size b <? SSHBUF_SIZE_INIT then SSHBUF_SIZE_INIT
              else ROUNDUP (size b) SSHBUF_SIZE_INC in
  if rlen >? maxsz then maxsz else rlen.

Definition sshbuf_set_max_size `{Allocator} (maxsz : Z) : SE sshbuf unit :=
  b ← se_get;
  _ ← se_lift (sshbuf_check_sanity b);
  if maxsz =? max_size b then mret tt
  else if locked b then se_err SSH_ERR_BUFFER_READ_ONLY
  else if maxsz >? SSHBUF_SIZE_MAX then se_err SSH_ERR_NO_BUFFER_SPACE
  else
    _ ← se_modify (sshbuf_maybe_pack (maxsz <? size b));
    b ← se_get;
    _ ← (if (maxsz <? alloc b) && (maxsz >? size b) then
           let rlen := shrink_len b maxsz in
           match recallocarray (cd b) (alloc b) rlen with
           | None => se_err SSH_ERR_ALLOC_FAIL
           | Some dp => se_put (buf_set_alloc b dp rlen)
           end
         else mret tt);
    b ← se_get;
    if maxsz <? alloc b then se_err SSH_ERR_NO_BUFFER_SPACE
    else se_put (buf_set_max b maxsz).

Definition sshbuf_len (b : sshbuf) : Z :=
  match sshbuf_check_sanity b with
  | Err _ => 0
  | Ok _ => size b - off b
  end.

Definition sshbuf_avail (b : sshbuf) : Z :=
  match sshbuf_check_sanity b with
  | Err _ => 0
  | Ok _ => if locked b then 0 else max_size b - (size b - off b)
  end.

(** The bytes that [sshbuf_ptr(b)] points to, up to the end of the data; [None]
    for a null pointer. *)
Definition sshbuf_ptr (b : sshbuf) : option (list Z) :=
  match sshbuf_check_sanity b with
  | Err _ => None
  | Ok _ => Some (slice (off b) (size b - off b) (cd b))
  end.

(** [sshbuf_mutable_ptr(b)] as an offset into the memory of the buffer. *)
Definition sshbuf_mutable_ptr (b : sshbuf) : option Z :=
  match sshbuf_check_sanity b with
  | Err _ => None
  | Ok _ => if locked b then None else Some (off b)
  end.

Definition sshbuf_check_reserve (b : sshbuf) (len : Z) : result unit :=
  match sshbuf_check_sanity b with
  | Err e => Err e
  | Ok _ =>
      if locked b then Err SSH_ERR_BUFFER_READ_ONLY
      else if (len >? max_size b) || (max_size b - len <? size b - off b)
      then Err SSH_ERR_NO_BUFFER_SPACE
      else Ok tt
  end.

Definition sshbuf_allocate `{Allocator} (len : Z) : SE sshbuf unit :=
  b ← se_get;
  _ ← se_lift (sshbuf_check_reserve b len);
  _ ← se_modify (sshbuf_maybe_pack (u64 (size b + len) >? max_size b));
  b ← se_get;
  if u64 (len + size b) <=? alloc b then mret tt
  else
    let need := u64 (len + size b - alloc b) in
    let rlen := ROUNDUP (u64 (alloc b + need)) SSHBUF_SIZE_INC in
    let rlen := if rlen >? max_size b then u64 (alloc b + need) else rlen in
    match recallocarray (cd b) (alloc b) rlen with
    | None => se_err SSH_ERR_ALLOC_FAIL
    | Some dp =>
        _ ← se_put (buf_set_alloc b dp rlen);
        b ← se_get;
        se_lift (sshbuf_check_reserve b len)
    end.

(** Returns the offset of the reserved area, [dp - buf->d]. *)
Definition sshbuf_reserve `{Allocator} (len : Z) : SE sshbuf Z :=
  _ ← sshbuf_allocate len;
  b ← se_get;
  _ ← se_put (buf_set_span b (cd b) (off b) (u64 (size b + len)));
  mret (size b).

Definition sshbuf_consume (len : Z) : SE sshbuf unit :=
  b ← se_get;
  _ ← se_lift (sshbuf_check_sanity b);
  if len =? 0 then mret tt
  else if len >? sshbuf_len b then se_err SSH_ERR_MESSAGE_INCOMPLETE
  else
    let o := off b + len in
    if o =? size b then se_put (buf_set_span b (cd b) 0 0)
    else se_put (buf_set_span b (cd b) o (size b)).

Definition sshbuf_consume_end (len : Z) : SE sshbuf unit :=
  b ← se_get;
  _ ← se_lift (sshbuf_check_sanity b);
  if len =? 0 then mret tt
  else if len >? sshbuf_len b then se_err SSH_ERR_MESSAGE_INCOMPLETE
  else se_put (buf_set_span b (cd b) (off b) (size b - len)).

(** * Invariant and abstraction *)

(** The bytes held by the buffer: the abstract state. *)
Definition contents (b : sshbuf) : list Z := slice (off b) (size b - off b) (cd b).

(** The invariant of every live buffer: the conditions of
    [sshbuf_check_sanity], and that the memory has the recorded size. *)
Record buf_wf (b : sshbuf) : Prop := {
  wf_refs : 1 <= refcount b <= SSHBUF_REFS_MAX;
  wf_max : max_size b <= SSHBUF_SIZE_MAX;
  wf_alloc : alloc b <= max_size b;
  wf_size : size b <= alloc b;
  wf_off : 0 <= off b <= size b;
  wf_mem : zlen (cd b) = alloc b;
}.

(** [b'] is a later state of the same buffer: limits and sharing are unchanged. *)
Record buf_ext (b b' : sshbuf) : Prop := {
  ext_wf : buf_wf b';
  ext_max : max_size b' = max_size b;
  ext_ro : readonly b' = readonly b;
  ext_refs : refcount b' = refcount b;
}.

Lemma buf_ext_refl b : buf_wf b -> buf_ext b b.
Proof. by constructor. Qed.

Lemma buf_ext_trans b1 b2 b3 : buf_ext b1 b2 -> buf_ext b2 b3 -> buf_ext b1 b3.
Proof. intros [] []. constructor; congruence. Qed.

Lemma buf_ext_locked b b' : buf_ext b b' -> locked b' = locked b.
Proof. intros []. unfold locked. congruence. Qed.

Ltac buf_unfold :=
  unfold SSHBUF_SIZE_MAX, SSHBUF_REFS_MAX, SSHBUF_SIZE_INIT, SSHBUF_SIZE_INC,
    SSHBUF_PACK_MIN in *.

Lemma check_sanity_wf b : buf_wf b -> sshbuf_check_sanity b = Ok tt.
Proof.
  intros []. unfold sshbuf_check_sanity.
  destruct (_ || _) eqn:E; [|done]. exfalso. zbool. lia.
Qed.

Lemma check_sanity_inv b :
  sshbuf_check_sanity b = Ok tt <->
  1 <= refcount b <= SSHBUF_REFS_MAX /\ max_size b <= SSHBUF_SIZE_MAX /\
  alloc b <= max_size b /\ size b <= alloc b /\ off b <= size b.
Proof.
  unfold sshbuf_check_sanity.
  destruct (_ || _) eqn:E; zbool; split; intros; try done; lia.
Qed.

Lemma contents_len b : buf_wf b -> zlen (contents b) = size b - off b.
Proof. intros []. apply zlen_slice; lia. Qed.

Lemma sshbuf_len_wf b : buf_wf b -> sshbuf_len b = zlen (contents b).
Proof.
  intros Hb. unfold sshbuf_len. rewrite check_sanity_wf by done.
  by rewrite contents_len.
Qed.

Lemma sshbuf_ptr_wf b : buf_wf b -> sshbuf_ptr b = Some (contents b).
Proof. intros Hb. unfold sshbuf_ptr. by rewrite check_sanity_wf by done. Qed.

(** * Growing and packing *)

Lemma recallocarray_spec `{Allocator} m newn m' :
  0 <= newn -> recallocarray m (zlen m) newn = Some m' ->
  zlen m' = newn /\ forall k, k <= zlen m -> k <= newn -> ztake k m' = ztake k m.
Proof.
  intros Hn. unfold recallocarray. zlen_facts.
  destruct (_ && _) eqn:E1.
  { intros [= <-]. zbool. split; [zlia|]. intros. by rewrite ztake_ztake by lia. }
  destruct (malloc_ok newn); [|done]. rewrite Z.gtb_ltb.
  destruct (Z.ltb_spec (zlen m) newn); intros [= <-].
  - split; [zlia|]. intros. by rewrite ztake_app_le by lia.
  - split; [zlia|]. intros. by rewrite ztake_ztake by lia.
Qed.

Lemma recallocarray_fail `{Allocator} m oldn newn :
  recallocarray m oldn newn = None -> malloc_ok newn = false.
Proof. unfold recallocarray. destruct (_ && _); [done|]. by destruct (malloc_ok newn). Qed.

Lemma maybe_pack_spec force b :
  buf_wf b ->
  buf_ext b (sshbuf_maybe_pack force b) /\
  contents (sshbuf_maybe_pack force b) = contents b /\
  alloc (sshbuf_maybe_pack force b) = alloc b /\
  (force = true -> locked b = false -> off (sshbuf_maybe_pack force b) = 0).
Proof.
  intros Hb. pose proof Hb as []. unfold sshbuf_maybe_pack, locked.
  destruct (_ || _ || _) eqn:E.
  { split; [by apply buf_ext_refl|]. split; [done|]. split; [done|].
    intros _ [Hr Hc]%orb_false_iff. zbool. destruct E as [[E|E]|E]; [done|congruence|lia]. }
  destruct (force || _) eqn:F.
  2: { split; [by apply buf_ext_refl|]. split; [done|]. split; [done|]. by intros ->. }
  assert (Hl : zlen (slice (off b) (size b - off b) (cd b)) = size b - off b)
    by (apply zlen_slice; lia).
  split; [|split; [|done]].
  - split; try done. split; cbn; try lia. rewrite zlen_mem_write; lia.
  - pose proof (slice_mem_write_end (cd b) 0 0 (contents b)) as Hw.
    unfold contents in Hw. rewrite Hl in Hw.
    unfold contents. cbn. rewrite Z.sub_0_r. apply Hw; lia.
Qed.

(** Replacing the memory by a larger one with the same prefix. *)
Lemma set_alloc_spec b m n :
  buf_wf b -> size b <= n <= max_size b -> zlen m = n ->
  (forall k, k <= zlen (cd b) -> k <= n -> ztake k m = ztake k (cd b)) ->
  buf_ext b (buf_set_alloc b m n) /\ contents (buf_set_alloc b m n) = contents b.
Proof.
  intros Hb Hn Hm Hk. pose proof Hb as []. split.
  - split; try done. split; cbn; try lia.
  - unfold contents. cbn. rewrite !slice_ztake by lia. f_equal. apply Hk; lia.
Qed.

(** * Space reservation *)

(** When an append of [n] bytes is refused, and with which error. *)
Inductive no_room `{Allocator} (b : sshbuf) (n : Z) : ssherr -> Prop :=
  | no_room_locked : locked b = true -> no_room b n SSH_ERR_BUFFER_READ_ONLY
  | no_room_full :
      locked b = false -> zlen (contents b) + n > max_size b ->
      no_room b n SSH_ERR_NO_BUFFER_SPACE
  | no_room_memory k :
      locked b = false -> zlen (contents b) + n <= max_size b -> malloc_ok k = false ->
      no_room b n SSH_ERR_ALLOC_FAIL.

Lemma check_reserve_spec b n :
  buf_wf b -> 0 <= n ->
  sshbuf_check_reserve b n =
    if locked b then Err SSH_ERR_BUFFER_READ_ONLY
    else if zlen (contents b) + n <=? max_size b then Ok tt
    else Err SSH_ERR_NO_BUFFER_SPACE.
Proof.
  intros Hb Hn. unfold sshbuf_check_reserve. rewrite check_sanity_wf by done.
  destruct (locked b); [done|]. rewrite contents_len by done. pose proof Hb as [].
  destruct (_ || _) eqn:E, (Z.leb_spec (size b - off b + n) (max_size b)); zbool; try done; lia.
Qed.

(** Packing makes the free space of a buffer contiguous. *)
Lemma packed_room b n :
  buf_wf b -> 0 <= n -> locked b = false -> zlen (contents b) + n <= max_size b ->
  size (sshbuf_maybe_pack (u64 (size b + n) >? max_size b) b) + n <= max_size b.
Proof.
  intros Hb Hn Hl Hfit.
  set (force := u64 (size b + n) >? max_size b).
  destruct (maybe_pack_spec force b Hb) as (Hext & Hc & Ha & H0).
  pose proof Hb as []. buf_unfold. rewrite contents_len in Hfit by done.
  destruct force eqn:F.
  - specialize (H0 eq_refl Hl). apply (f_equal zlen) in Hc.
    rewrite !contents_len in Hc by (done || apply Hext). lia.
  - unfold force in F. rewrite u64_small in F by lia. zbool.
    unfold sshbuf_maybe_pack. case_if; [lia|]. case_if; cbn; lia.
Qed.

Lemma sshbuf_allocate_spec `{Allocator} b n r b' :
  buf_wf b -> 0 <= n -> sshbuf_allocate n b = (r, b') ->
  buf_ext b b' /\ contents b' = contents b /\
  match r with
  | Ok _ =>
      locked b = false /\ zlen (contents b) + n <= max_size b /\
      size b' + n <= alloc b'
  | Err e => no_room b n e
  end.
Proof.
  intros Hb Hn. unfold sshbuf_allocate, mbind, se_bind, se_get, se_lift.
  rewrite check_reserve_spec by done.
  destruct (locked b) eqn:Hl.
  { intros [= <- <-]. split; [by apply buf_ext_refl|]. split; [done|]. by constructor. }
  destruct (Z.leb_spec (zlen (contents b) + n) (max_size b)) as [Hfit|Hfit].
  2: { intros [= <- <-]. split; [by apply buf_ext_refl|]. split; [done|].
       constructor; [done|lia]. }
  unfold se_modify, mret, se_ret, se_put.
  pose proof (packed_room b n Hb Hn Hl Hfit) as Hroom.
  destruct (maybe_pack_spec (u64 (size b + n) >? max_size b) b Hb) as (Hext & Hc & Ha & _).
  set (b1 := sshbuf_maybe_pack _ b) in *. pose proof (ext_wf _ _ Hext) as Hb1.
  pose proof Hb1 as []. pose proof (ext_max _ _ Hext) as Hm. buf_unfold.
  zlen_facts. rewrite (u64_small (n + size b1)) by lia.
  destruct (Z.leb_spec (n + size b1) (alloc b1)) as [Hhave|Hneed].
  { intros [= <- <-]. split; [done|]. split; [done|]. split; [done|]. lia. }
  rewrite (u64_small (n + size b1 - alloc b1)) by lia.
  rewrite (u64_small (alloc b1 + _)) by lia.
  replace (alloc b1 + (n + size b1 - alloc b1)) with (n + size b1) by lia.
  destruct (ROUNDUP_bounds (n + size b1) 256) as [Hr _]; [lia..|].
  set (rlen := if _ >? max_size b1 then _ else _).
  assert (Hrl : n + size b1 <= rlen <= max_size b1).
  { subst rlen. case_if; zbool; lia. }
  rewrite <- wf_mem0.
  destruct (recallocarray (cd b1) (zlen (cd b1)) rlen) as [m|] eqn:Er.
  2: { intros [= <- <-]. split; [done|]. split; [done|].
       by apply no_room_memory with rlen; [..|apply recallocarray_fail in Er]. }
  apply recallocarray_spec in Er as [Hml Hmk]; [|lia].
  destruct (set_alloc_spec b1 m rlen Hb1) as [He2 Hc2]; [lia|done|done|].
  rewrite check_reserve_spec by (done || apply He2).
  rewrite (buf_ext_locked _ _ He2), (buf_ext_locked _ _ Hext), Hl, Hc2, Hc.
  rewrite (ext_max _ _ He2), Hm, (proj2 (Z.leb_le _ _) Hfit).
  intros [= <- <-]. split; [by eapply buf_ext_trans|]. split; [congruence|].
  split; [done|]. split; [done|]. cbn. lia.
Qed.

Lemma sshbuf_reserve_spec `{Allocator} b n r b' :
  buf_wf b -> 0 <= n -> sshbuf_reserve n b = (r, b') ->
  match r with
  | Ok p =>
      locked b = false /\ zlen (contents b) + n <= max_size b /\
      buf_ext b b' /\ 0 <= off b' <= p /\ size b' = p + n /\
      slice (off b') (p - off b') (cd b') = contents b
  | Err e => buf_ext b b' /\ contents b' = contents b /\ no_room b n e
  end.
Proof.
  intros Hb Hn H'. unfold sshbuf_reserve in H'.
  apply se_bind_inv in H' as [([] & b1 & Ha & Hr)|(e & Ha & ->)];
    apply sshbuf_allocate_spec in Ha as (He & Hc & Ha); try done.
  destruct Ha as (Hl & Hfit & Hroom). pose proof (ext_wf _ _ He) as Hb1.
  pose proof Hb1 as []. buf_unfold.
  unfold mbind, se_bind, se_get, se_put, mret, se_ret in Hr.
  rewrite u64_small in Hr by lia. simplify_eq. cbn.
  split; [done|]. split; [done|]. split; [|split; [lia|done]].
  destruct He. split; try done. split; cbn; buf_unfold; lia.
Qed.

(** [memcpy(p, v, len)] into the memory of the buffer at offset [p]. *)
Definition buf_write (p : Z) (v : list Z) : SE sshbuf unit :=
  se_modify (fun b => buf_set_mem b (mem_write (cd b) p v)).

(** The pattern of every put operation: reserve, then fill the area. *)
Lemma reserve_write_spec `{Allocator} b v r b' :
  buf_wf b -> (p ← sshbuf_reserve (zlen v); buf_write p v) b = (r, b') ->
  buf_ext b b' /\
  match r with
  | Ok _ =>
      locked b = false /\ zlen (contents b) + zlen v <= max_size b /\
      contents b' = contents b ++ v
  | Err e => contents b' = contents b /\ no_room b (zlen v) e
  end.
Proof.
  intros Hb Hrun. pose proof (zlen_nonneg v) as Hv.
  apply se_bind_inv in Hrun as [(p & b1 & Hr & Hw)|(e & Hr & ->)];
    apply sshbuf_reserve_spec in Hr; try done.
  destruct Hr as (Hl & Hfit & He & Hp & Hs & Hc). pose proof (ext_wf _ _ He) as Hb1.
  pose proof Hb1 as []. unfold buf_write, se_modify in Hw. simplify_eq.
  split; [|split; [done|split; [done|]]].
  - destruct He. split; try done. split; cbn; try lia. rewrite zlen_mem_write; lia.
  - unfold contents at 1. cbn. rewrite Hs.
    replace (p + zlen v - off b1) with (p - off b1 + zlen v) by lia.
    rewrite slice_mem_write_end by lia. by rewrite Hc.
Qed.

(** With a reliable allocator an append succeeds exactly when it fits. *)
Lemma no_room_reliable `{Allocator} `{!ReliableAllocator _} b n e :
  no_room b n e -> locked b = true \/ zlen (contents b) + n > max_size b.
Proof. intros [? | ? ? | k ? ? Hk]; [by left|by right|]. by rewrite malloc_reliable in Hk. Qed.

Lemma reserve_write_ok `{Allocator} `{!ReliableAllocator _} b v :
  buf_wf b -> locked b = false -> zlen (contents b) + zlen v <= max_size b ->
  exists b', (p ← sshbuf_reserve (zlen v); buf_write p v) b = (Ok tt, b') /\
    buf_ext b b' /\ contents b' = contents b ++ v.
Proof.
  intros Hb Hl Hfit.
  destruct ((p ← sshbuf_reserve (zlen v); buf_write p v) b) as [r b'] eqn:E.
  pose proof E as (He & Hr)%reserve_write_spec; [|done].
  destruct r as [[]|e].
  - destruct Hr as (_ & _ & Hc). by exists b'.
  - destruct Hr as [_ Hn]. apply no_room_reliable in Hn as [?|?]; [congruence|lia].
Qed.

(** * Consuming *)

Lemma sshbuf_consume_spec b n :
  buf_wf b -> 0 <= n ->
  if n <=? zlen (contents b) then
    exists b', sshbuf_consume n b = (Ok tt, b') /\ buf_ext b b' /\
      contents b' = zdrop n (contents b) /\ cd b' = cd b
  else sshbuf_consume n b = (Err SSH_ERR_MESSAGE_INCOMPLETE, b).
Proof.
  intros Hb Hn. pose proof Hb as []. pose proof (contents_len b Hb) as Hc.
  unfold sshbuf_consume, mbind, se_bind, se_get, se_lift, se_err, se_put, mret, se_ret.
  rewrite check_sanity_wf by done. rewrite sshbuf_len_wf, Z.gtb_ltb by done.
  destruct (Z.eqb_spec n 0) as [->|Hn0].
  { rewrite (proj2 (Z.leb_le _ _)) by lia. exists b.
    rewrite zdrop_0. split_and!; done. }
  destruct (Z.leb_spec n (zlen (contents b))) as [Hle|Hgt];
    [rewrite (proj2 (Z.ltb_ge _ _)) by lia|by rewrite (proj2 (Z.ltb_lt _ _)) by lia].
  destruct (Z.eqb_spec (off b + n) (size b)); eexists; split; try done; split.
  - split; try done. split; cbn; lia.
  - split; [|done]. rewrite (zdrop_ge n (contents b)) by lia.
    unfold contents. cbn. apply zlen_0_nil, zlen_slice; zlen_facts; lia.
  - split; try done. split; cbn; lia.
  - split; [|done]. unfold contents. cbn. rewrite !slice_ztake by lia.
    rewrite zdrop_zdrop by lia. f_equal. f_equal. lia.
Qed.

Lemma sshbuf_consume_end_spec b n :
  buf_wf b -> 0 <= n ->
  if n <=? zlen (contents b) then
    exists b', sshbuf_consume_end n b = (Ok tt, b') /\ buf_ext b b' /\
      contents b' = ztake (zlen (contents b) - n) (contents b)
  else sshbuf_consume_end n b = (Err SSH_ERR_MESSAGE_INCOMPLETE, b).
Proof.
  intros Hb Hn. pose proof Hb as []. pose proof (contents_len b Hb) as Hc.
  unfold sshbuf_consume_end, mbind, se_bind, se_get, se_lift, se_err, se_put, mret, se_ret.
  rewrite check_sanity_wf by done. rewrite sshbuf_len_wf, Z.gtb_ltb by done.
  destruct (Z.eqb_spec n 0) as [->|Hn0].
  { rewrite (proj2 (Z.leb_le _ _)) by lia. exists b.
    rewrite ztake_ge by lia. split_and!; done. }
  destruct (Z.leb_spec n (zlen (contents b))) as [Hle|Hgt];
    [rewrite (proj2 (Z.ltb_ge _ _)) by lia|by rewrite (proj2 (Z.ltb_lt _ _)) by lia].
  eexists. split; [done|]. split; [split; try done; split; cbn; lia|].
  rewrite Hc. unfold contents. cbn. rewrite ztake_slice by lia. f_equal. lia.
Qed.

(** * Creation, reset and the size limit *)

Lemma sshbuf_new_spec `{Allocator} b :
  sshbuf_new = Some b ->
  buf_wf b /\ contents b = [] /\ locked b = false /\ max_size b = SSHBUF_SIZE_MAX.
Proof.
  unfold sshbuf_new. case_if; [|done]. intros [= <-]. split; [|done].
  split; cbn; buf_unfold; try lia. by rewrite zlen_zrepeat.
Qed.

Lemma sshbuf_new_ok `{Allocator} `{!ReliableAllocator _} : exists b, sshbuf_new = Some b.
Proof. unfold sshbuf_new. rewrite !malloc_reliable. eauto. Qed.

Lemma sshbuf_from_spec `{Allocator} blob b :
  sshbuf_from blob = Some b ->
  buf_wf b /\ contents b = blob /\ locked b = true /\ max_size b = zlen blob.
Proof.
  unfold sshbuf_from. case_if; [done|]. intros [= <-]. zbool. zlen_facts.
  split; [|split; [|done]].
  - split; cbn; buf_unfold; lia.
  - unfold contents. cbn. rewrite slice_ztake by lia. rewrite zdrop_0.
    apply ztake_ge. lia.
Qed.

Lemma sshbuf_from_ok `{Allocator} `{!ReliableAllocator _} blob :
  zlen blob <= SSHBUF_SIZE_MAX -> exists b, sshbuf_from blob = Some b.
Proof.
  intros. unfold sshbuf_from. rewrite malloc_reliable.
  rewrite Z.gtb_ltb, (proj2 (Z.ltb_ge _ _)) by done. eauto.
Qed.

Lemma mem_write_all m v : zlen v = zlen m -> mem_write m 0 v = v.
Proof.
  intros Hl. pose proof (ztake_mem_write m 0 v) as Hw. rewrite ztake_0 in Hw. cbn in Hw.
  etransitivity; [|apply Hw; lia]. symmetry. apply ztake_ge.
  rewrite zlen_mem_write; lia.
Qed.

(** A reset buffer is empty and its whole memory is cleared. *)
Lemma sshbuf_reset_mem `{Allocator} `{!ReliableAllocator _} b :
  buf_wf b -> locked b = false ->
  sshbuf_reset b =
    mk_sshbuf (zrepeat SSHBUF_SIZE_INIT) 0 0 (max_size b) SSHBUF_SIZE_INIT
      (readonly b) (refcount b).
Proof.
  intros Hb Hl. pose proof Hb as []. unfold sshbuf_reset. rewrite Hl. cbn.
  destruct (Z.eqb_spec (alloc b) SSHBUF_SIZE_INIT) as [He|Hne]; cbn.
  - unfold buf_set_mem, buf_set_span. cbn. rewrite He. f_equal.
    apply mem_write_all. rewrite zlen_zrepeat; buf_unfold; lia.
  - rewrite <- wf_mem0.
    destruct (recallocarray _ _ _) as [m|] eqn:Er.
    + apply recallocarray_spec in Er as [Hm _]; [|buf_unfold; lia].
      unfold buf_set_mem, buf_set_span, buf_set_alloc. cbn. f_equal.
      apply mem_write_all. rewrite zlen_zrepeat; buf_unfold; lia.
    + apply recallocarray_fail in Er. by rewrite malloc_reliable in Er.
Qed.

Lemma sshbuf_reset_spec `{Allocator} `{!ReliableAllocator _} b :
  buf_wf b -> locked b = false -> SSHBUF_SIZE_INIT <= max_size b ->
  buf_ext b (sshbuf_reset b) /\ contents (sshbuf_reset b) = [].
Proof.
  intros Hb Hl Hm. rewrite sshbuf_reset_mem by done. pose proof Hb as [].
  split; [by split|done].
Qed.

(** On a shared or read-only buffer [sshbuf_reset] only skips the data. *)
Lemma sshbuf_reset_locked `{Allocator} b :
  buf_wf b -> locked b = true ->
  buf_ext b (sshbuf_reset b) /\ contents (sshbuf_reset b) = [] /\ cd (sshbuf_reset b) = cd b.
Proof.
  intros Hb Hl. pose proof Hb as []. unfold sshbuf_reset. rewrite Hl.
  split; [|split; [|done]].
  - split; try done. split; cbn; lia.
  - unfold contents. cbn. rewrite Z.sub_diag. apply zlen_0_nil, zlen_slice; lia.
Qed.

(** The reallocation inside [sshbuf_set_max_size]. *)
Lemma shrink_len_bounds b maxsz :
  buf_wf b -> size b < maxsz < alloc b ->
  size b <= shrink_len b maxsz <= maxsz.
Proof.
  intros [] Hs. unfold shrink_len. buf_unfold.
  destruct (ROUNDUP_bounds (size b) 256) as [Hr _]; [lia..|].
  cbn zeta. repeat case_if; zbool; lia.
Qed.

Lemma sshbuf_set_max_size_spec `{Allocator} b maxsz r b' :
  buf_wf b -> 0 <= maxsz -> sshbuf_set_max_size maxsz b = (r, b') ->
  buf_wf b' /\ contents b' = contents b /\ readonly b' = readonly b /\
  refcount b' = refcount b /\
  max_size b' = match r with Ok _ => maxsz | Err _ => max_size b end.
Proof.
  intros Hb Hmax. pose proof (check_sanity_wf b Hb) as Hs.
  unfold sshbuf_set_max_size, mbind, se_bind, se_get, se_lift, se_modify, se_err, se_put,
    mret, se_ret.
  rewrite Hs. case_if; [intros [= <- <-]; by zbool|].
  case_if; [by intros [= <- <-]|]. case_if; [by intros [= <- <-]|].
  destruct (maybe_pack_spec (maxsz <? size b) b Hb) as ([Hb1 Hm1 Hro Hrc] & Hc & _ & _).
  set (b1 := sshbuf_maybe_pack _ b) in *. clearbody b1. zbool.
  pose proof Hb1 as []. buf_unfold.
  destruct ((maxsz <? alloc b1) && _) eqn:Hcase.
  - zbool. pose proof (shrink_len_bounds b1 maxsz Hb1 ltac:(lia)) as Hrl. 
    set (rlen := shrink_len b1 maxsz) in *. clearbody rlen.
    rewrite <- wf_mem0.
    destruct (recallocarray _ _ rlen) as [m|] eqn:Er.
    2: { intros [= <- <-]. split_and!; done || congruence. }
    apply recallocarray_spec in Er as [Hml Hmk]; [|lia].
    destruct (set_alloc_spec b1 m rlen Hb1) as [[Hb2 ? ? ?] Hc2]; [lia|done|done|].
    cbn. rewrite (proj2 (Z.ltb_ge _ _)) by lia. intros [= <- <-].
    split; [|by split_and!; cbn; try congruence; rewrite <- Hc].
    split; cbn; buf_unfold; lia.
  - case_if; intros [= <- <-].
    + split_and!; done || congruence.
    + zbool. split; [|split; [exact Hc|by split_and!; cbn]].
      split; cbn; buf_unfold; lia.
Qed.

(** A new buffer with the default limit. *)
Definition demo_buf : sshbuf :=
  mk_sshbuf (zrepeat SSHBUF_SIZE_INIT) 0 0 SSHBUF_SIZE_MAX SSHBUF_SIZE_INIT false 1.

Lemma demo_buf_wf : buf_wf demo_buf.
Proof. split; cbn; buf_unfold; try lia. by rewrite zlen_zrepeat. Qed.

(** A limit below 256 bytes does not survive a reset.  [sshbuf_reset] always
    reallocates to 256 bytes, so on a writable buffer whose maximum size is
    smaller it leaves an allocation above the maximum: every later operation
    fails the sanity check, which terminates the process. *)
Theorem sshbuf_reset_breaks_small_limit `{Allocator} `{!ReliableAllocator _} b :
  buf_wf b -> locked b = false -> max_size b < SSHBUF_SIZE_INIT ->
  sshbuf_check_sanity (sshbuf_reset b) = Err SSH_ERR_INTERNAL_ERROR.
Proof.
  intros Hb Hl Hm. rewrite sshbuf_reset_mem by done.
  destruct (sshbuf_check_sanity _) as [[]|e] eqn:E.
  - apply check_sanity_inv in E. cbn in E. lia.
  - unfold sshbuf_check_sanity in E. case_if; congruence.
Qed.

Lemma sshbuf_reset_breaks_small_limit_witness :
  exists b, @sshbuf_set_max_size alloc_all 100 demo_buf = (Ok tt, b) /\
    buf_wf b /\ max_size b = 100 /\
    sshbuf_check_sanity (@sshbuf_reset alloc_all b) = Err SSH_ERR_INTERNAL_ERROR.
Proof.
  destruct (@sshbuf_set_max_size alloc_all 100 demo_buf) as [r b] eqn:E.
  pose proof (@sshbuf_set_max_size_spec alloc_all demo_buf 100 r b demo_buf_wf ltac:(done) E) as Hs.
  assert (Hr : r = Ok tt) by (apply (f_equal fst) in E; vm_compute in E; done).
  subst r. destruct Hs as (Hb & _ & Hro & Hrc & Hm).
  exists b. split; [done|]. split; [done|]. split; [done|].
  apply (@sshbuf_reset_breaks_small_limit alloc_all alloc_all_reliable b Hb).
  - unfold locked. by rewrite Hro, Hrc.
  - by rewrite Hm.
Defined.
