(* ===== verification/SshbufGetPut.v ===== *)
(** Reading and writing of typed values: sshbuf-getput-basic.c, the byte order
    macros of sshbuf.h, and the string helpers of sshbuf-misc.c.

    A pointer into a buffer that is returned to the caller is the list of bytes
    it points to; a [u_char *] area of known length is a list of bytes; a C
    string is the list of its bytes before the terminating nul. *)

From Stdlib Require Import Btauto.
From S2P Require Import Prelude Sshbuf.

(** Bytes as they occur in memory. *)
Definition is_byte (x : Z) : Prop := 0 <= x < 2 ^ 8.
Definition bytes_ok (l : list Z) : Prop := Forall is_byte l.

(** * Byte order macros *)

Definition PEEK_U64 (p : list Z) : Z :=
  Z.lor (Z.lor (Z.lor (Z.lor (Z.lor (Z.lor (Z.lor
    (Z.shiftl (znth p 0) 56) (Z.shiftl (znth p 1) 48))
    (Z.shiftl (znth p 2) 40)) (Z.shiftl (znth p 3) 32))
    (Z.shiftl (znth p 4) 24)) (Z.shiftl (znth p 5) 16))
    (Z.shiftl (znth p 6) 8)) (znth p 7).

Definition PEEK_U32 (p : list Z) : Z :=
  Z.lor (Z.lor (Z.lor (Z.shiftl (znth p 0) 24) (Z.shiftl (znth p 1) 16))
    (Z.shiftl (znth p 2) 8)) (znth p 3).

Definition PEEK_U16 (p : list Z) : Z := Z.lor (Z.shiftl (znth p 0) 8) (znth p 1).

Definition POKE_U64 (v : Z) : list Z :=
  [Z.land (Z.shiftr v 56) 0xff; Z.land (Z.shiftr v 48) 0xff;
   Z.land (Z.shiftr v 40) 0xff; Z.land (Z.shiftr v 32) 0xff;
   Z.land (Z.shiftr v 24) 0xff; Z.land (Z.shiftr v 16) 0xff;
   Z.land (Z.shiftr v 8) 0xff; Z.land v 0xff].

Definition POKE_U32 (v : Z) : list Z :=
  [Z.land (Z.shiftr v 24) 0xff; Z.land (Z.shiftr v 16) 0xff;
   Z.land (Z.shiftr v 8) 0xff; Z.land v 0xff].

Definition POKE_U16 (v : Z) : list Z := [Z.land (Z.shiftr v 8) 0xff; Z.land v 0xff].

(** * Reading *)

(** Every getter takes [sshbuf_ptr(buf)], consumes, and reads from the pointer. *)
Definition get_bytes (n : Z) : SE sshbuf (list Z) :=
  b ← se_get;
  _ ← sshbuf_consume n;
  mret (ztake n (default [] (sshbuf_ptr b))).

Definition sshbuf_get (len : Z) : SE sshbuf (list Z) := get_bytes len.
Definition sshbuf_get_u64 : SE sshbuf Z := p ← get_bytes 8; mret (PEEK_U64 p).
Definition sshbuf_get_u32 : SE sshbuf Z := p ← get_bytes 4; mret (PEEK_U32 p).
Definition sshbuf_get_u16 : SE sshbuf Z := p ← get_bytes 2; mret (PEEK_U16 p).
Definition sshbuf_get_u8 : SE sshbuf Z := p ← get_bytes 1; mret (znth p 0).

Definition check_offset (b : sshbuf) (wr : bool) (offset len : Z) : result unit :=
  match sshbuf_ptr b with
  | None => Err SSH_ERR_INTERNAL_ERROR
  | Some _ =>
      if offset >=? SIZE_MAX - len then Err SSH_ERR_INVALID_ARGUMENT
      else if u64 (offset + len) >? sshbuf_len b then
        Err (if wr then SSH_ERR_NO_BUFFER_SPACE else SSH_ERR_MESSAGE_INCOMPLETE)
      else Ok tt
  end.

Definition check_roffset (b : sshbuf) (offset len : Z) : result (list Z) :=
  match check_offset b false offset len with
  | Err e => Err e
  | Ok _ => Ok (zdrop offset (default [] (sshbuf_ptr b)))
  end.

Definition sshbuf_peek_u64 (b : sshbuf) (offset : Z) : result Z :=
  p ← check_roffset b offset 8; mret (PEEK_U64 p).
Definition sshbuf_peek_u32 (b : sshbuf) (offset : Z) : result Z :=
  p ← check_roffset b offset 4; mret (PEEK_U32 p).
Definition sshbuf_peek_u16 (b : sshbuf) (offset : Z) : result Z :=
  p ← check_roffset b offset 2; mret (PEEK_U16 p).
Definition sshbuf_peek_u8 (b : sshbuf) (offset : Z) : result Z :=
  p ← check_roffset b offset 1; mret (znth p 0).

Definition sshbuf_peek_string_direct (b : sshbuf) : result (list Z) :=
  let p := default [] (sshbuf_ptr b) in
  if sshbuf_len b <? 4 then Err SSH_ERR_MESSAGE_INCOMPLETE
  else
    let len := PEEK_U32 p in
    if len >? SSHBUF_SIZE_MAX - 4 then Err SSH_ERR_STRING_TOO_LARGE
    else if sshbuf_len b - 4 <? len then Err SSH_ERR_MESSAGE_INCOMPLETE
    else Ok (slice 4 len p).

Definition sshbuf_get_string_direct : SE sshbuf (list Z) :=
  b ← se_get;
  p ← se_lift (sshbuf_peek_string_direct b);
  b ← se_get;
  match sshbuf_consume (zlen p + 4) b with
  | (Ok _, b') => _ ← se_put b'; mret p
  | (Err _, b') => _ ← se_put b'; se_err SSH_ERR_INTERNAL_ERROR
  end.

Definition sshbuf_skip_string : SE sshbuf unit :=
  _ ← sshbuf_get_string_direct; mret tt.

(** The copy that [sshbuf_get_string] makes is allocated with one more byte. *)
Definition sshbuf_get_string `{Allocator} : SE sshbuf (list Z) :=
  val ← sshbuf_get_string_direct;
  if malloc_ok (zlen val + 1) then mret val else se_err SSH_ERR_ALLOC_FAIL.

(** memchr(p, c, zlen p) as an index. *)
Fixpoint memchr (c : Z) (p : list Z) : option Z :=
  match p with
  | [] => None
  | x :: p' => if x =? c then Some 0 else (fun i => i + 1) <$> memchr c p'
  end.

(** The C string at [p]: the bytes before the first nul. *)
Fixpoint cstr (p : list Z) : list Z :=
  match p with
  | [] => []
  | x :: p' => if x =? 0 then [] else x :: cstr p'
  end.

(** The result is the bytes copied to [*valp]; as a C string it is [cstr] of
    them, since a nul may be the last byte. *)
Definition sshbuf_get_cstring `{Allocator} : SE sshbuf (list Z) :=
  b ← se_get;
  p ← se_lift (sshbuf_peek_string_direct b);
  let bad := (zlen p >? 0) &&
    match memchr 0 p with Some z => z <? zlen p - 1 | None => false end in
  if bad then se_err SSH_ERR_INVALID_FORMAT
  else
    b ← se_get;
    match sshbuf_skip_string b with
    | (Err _, b') => _ ← se_put b'; se_err SSH_ERR_INTERNAL_ERROR
    | (Ok _, b') =>
        _ ← se_put b';
        if malloc_ok (zlen p + 1) then mret p else se_err SSH_ERR_ALLOC_FAIL
    end.

(** * Writing *)

Definition sshbuf_put `{Allocator} (v : list Z) : SE sshbuf unit :=
  p ← sshbuf_reserve (zlen v);
  if negb (zlen v =? 0) then buf_write p v else mret tt.

Definition sshbuf_putb `{Allocator} (v : option sshbuf) : SE sshbuf unit :=
  match v with
  | None => mret tt
  | Some v => sshbuf_put (ztake (sshbuf_len v) (default [] (sshbuf_ptr v)))
  end.

Definition sshbuf_put_u64 `{Allocator} (val : Z) : SE sshbuf unit :=
  p ← sshbuf_reserve 8; buf_write p (POKE_U64 val).
Definition sshbuf_put_u32 `{Allocator} (val : Z) : SE sshbuf unit :=
  p ← sshbuf_reserve 4; buf_write p (POKE_U32 val).
Definition sshbuf_put_u16 `{Allocator} (val : Z) : SE sshbuf unit :=
  p ← sshbuf_reserve 2; buf_write p (POKE_U16 val).
Definition sshbuf_put_u8 `{Allocator} (val : Z) : SE sshbuf unit :=
  p ← sshbuf_reserve 1; buf_write p [val].

Definition check_woffset (b : sshbuf) (offset len : Z) : result Z :=
  match check_offset b true offset len with
  | Err e => Err e
  | Ok _ =>
      match sshbuf_mutable_ptr b with
      | None => Err SSH_ERR_BUFFER_READ_ONLY
      | Some p => Ok (p + offset)
      end
  end.

Definition sshbuf_poke (offset : Z) (v : list Z) : SE sshbuf unit :=
  b ← se_get;
  p ← se_lift (check_woffset b offset (zlen v));
  buf_write p v.
Definition sshbuf_poke_u64 (offset val : Z) : SE sshbuf unit :=
  b ← se_get; p ← se_lift (check_woffset b offset 8); buf_write p (POKE_U64 val).
Definition sshbuf_poke_u32 (offset val : Z) : SE sshbuf unit :=
  b ← se_get; p ← se_lift (check_woffset b offset 4); buf_write p (POKE_U32 val).
Definition sshbuf_poke_u16 (offset val : Z) : SE sshbuf unit :=
  b ← se_get; p ← se_lift (check_woffset b offset 2); buf_write p (POKE_U16 val).
Definition sshbuf_poke_u8 (offset val : Z) : SE sshbuf unit :=
  b ← se_get; p ← se_lift (check_woffset b offset 1); buf_write p [val].

Definition sshbuf_put_string `{Allocator} (v : list Z) : SE sshbuf unit :=
  if zlen v >? SSHBUF_SIZE_MAX - 4 then se_err SSH_ERR_NO_BUFFER_SPACE
  else
    d ← sshbuf_reserve (zlen v + 4);
    _ ← buf_write d (POKE_U32 (zlen v));
    if negb (zlen v =? 0) then buf_write (d + 4) v else mret tt.

Definition sshbuf_put_cstring `{Allocator} (v : option (list Z)) : SE sshbuf unit :=
  sshbuf_put_string (match v with None => [] | Some s => cstr s end).

Definition sshbuf_put_stringb `{Allocator} (v : option sshbuf) : SE sshbuf unit :=
  match v with
  | None => sshbuf_put_string []
  | Some v => sshbuf_put_string (ztake (sshbuf_len v) (default [] (sshbuf_ptr v)))
  end.

(** The string is copied from [buf] into [v]; both buffers change. *)
Definition sshbuf_get_stringb `{Allocator} : SE (sshbuf * sshbuf) unit := fun '(b, v) =>
  match sshbuf_peek_string_direct b with
  | Err e => (Err e, (b, v))
  | Ok _ =>
      match sshbuf_get_u32 b with
      | (Err e, b1) => (Err e, (b1, v))
      | (Ok len, b1) =>
          match sshbuf_reserve len v with
          | (Err e, v1) => (Err e, (b1, v1))
          | (Ok p, v1) =>
              match sshbuf_get len b1 with
              | (Err e, b2) => (Err e, (b2, v1))
              | (Ok d, b2) =>
                  (Ok tt, (b2, if negb (len =? 0) then snd (buf_write p d v1) else v1))
              end
          end
      end
  end.

(** [for (; len > 0 && *s == 0; len--, s++);] *)
Fixpoint skip_zeros (s : list Z) : list Z :=
  match s with
  | x :: s' => if x =? 0 then skip_zeros s' else s
  | [] => []
  end.

Definition msb_set (s : list Z) : bool :=
  match s with [] => false | x :: _ => negb (Z.land x 0x80 =? 0) end.

Definition sshbuf_put_bignum2_bytes `{Allocator} (v : list Z) : SE sshbuf unit :=
  if zlen v >? SSHBUF_SIZE_MAX - 5 then se_err SSH_ERR_NO_BUFFER_SPACE
  else
    let s := skip_zeros v in
    let len := zlen s in
    let prepend := if msb_set s then 1 else 0 in
    d ← sshbuf_reserve (len + 4 + prepend);
    _ ← buf_write d (POKE_U32 (len + prepend));
    _ ← (if negb (prepend =? 0) then buf_write (d + 4) [0] else mret tt);
    if negb (len =? 0) then buf_write (d + 4 + prepend) s else mret tt.

Definition sshbuf_get_bignum2_bytes_direct : SE sshbuf (list Z) :=
  b ← se_get;
  d ← se_lift (sshbuf_peek_string_direct b);
  let olen := zlen d in
  if negb (olen =? 0) && negb (Z.land (znth d 0) 0x80 =? 0) then
    se_err SSH_ERR_BIGNUM_IS_NEGATIVE
  else if (olen >? SSHBUF_MAX_BIGNUM + 1)
          || ((olen =? SSHBUF_MAX_BIGNUM + 1) && negb (znth d 0 =? 0)) then
    se_err SSH_ERR_BIGNUM_TOO_LARGE
  else
    b ← se_get;
    match sshbuf_consume (olen + 4) b with
    | (Ok _, b') => _ ← se_put b'; mret (skip_zeros d)
    | (Err _, b') => _ ← se_put b'; se_err SSH_ERR_INTERNAL_ERROR
    end.

Definition sshbuf_froms `{Allocator} : SE sshbuf sshbuf :=
  b ← se_get;
  p ← se_lift (sshbuf_peek_string_direct b);
  match sshbuf_from p with
  | None => se_err SSH_ERR_ALLOC_FAIL
  | Some ret =>
      _ ← sshbuf_consume (zlen p + 4);
      _ ← sshbuf_set_parent ret;
      mret ret
  end.

(** * Helpers of sshbuf-misc.c *)

Definition hex_digit (x : Z) : Z := if x <? 10 then 48 + x else 87 + x.

Definition sshbuf_dtob16 `{Allocator} (b : sshbuf) : option (list Z) :=
  let len := sshbuf_len b in
  let p := default [] (sshbuf_ptr b) in
  if len =? 0 then Some []
  else if (SIZE_MAX / 2 <=? len) || negb (malloc_ok (len * 2 + 1)) then None
  else Some (flat_map (fun x => [hex_digit (Z.land (Z.shiftr x 4) 0xf); hex_digit (Z.land x 0xf)])
               (ztake len p)).

Definition sshbuf_dup_string `{Allocator} (b : sshbuf) : option (list Z) :=
  match sshbuf_ptr b with
  | None => None
  | Some s =>
      let l := sshbuf_len b in
      match (if l >? 0 then memchr 0 s else None) with
      | Some p =>
          if negb (p =? l - 1) then None
          else if malloc_ok l then Some (ztake (l - 1) s) else None
      | None => if malloc_ok (l + 1) then Some (ztake l s) else None
      end
  end.

(** timingsafe_bcmp: the bytes are compared without an early exit. *)
Fixpoint timingsafe_bcmp (p q : list Z) : Z :=
  match p, q with
  | x :: p', y :: q' => Z.lor (Z.lxor x y) (timingsafe_bcmp p' q')
  | _, _ => 0
  end.

Definition sshbuf_cmp (b : sshbuf) (offset : Z) (s : list Z) : result unit :=
  let len := zlen s in
  match sshbuf_ptr b with
  | None => Err SSH_ERR_INTERNAL_ERROR
  | Some p =>
      if (offset >? SSHBUF_SIZE_MAX) || (len >? SSHBUF_SIZE_MAX) || (len =? 0) then
        Err SSH_ERR_INVALID_ARGUMENT
      else if offset + len >? sshbuf_len b then Err SSH_ERR_MESSAGE_INCOMPLETE
      else if negb (timingsafe_bcmp (slice offset len p) s =? 0) then Err SSH_ERR_INVALID_FORMAT
      else Ok tt
  end.

(** memmem: the index of the first occurrence of [s] in [p]. *)
Fixpoint memmem (p s : list Z) : option Z :=
  if bool_decide (ztake (zlen s) p = s) then Some 0
  else match p with
       | [] => None
       | _ :: p' => (fun i => i + 1) <$> memmem p' s
       end.

Definition sshbuf_find (b : sshbuf) (start_offset : Z) (s : list Z) : result Z :=
  let len := zlen s in
  match sshbuf_ptr b with
  | None => Err SSH_ERR_INTERNAL_ERROR
  | Some p =>
      if (start_offset >? SSHBUF_SIZE_MAX) || (len >? SSHBUF_SIZE_MAX) || (len =? 0) then
        Err SSH_ERR_INVALID_ARGUMENT
      else if (start_offset >? sshbuf_len b) || (start_offset + len >? sshbuf_len b) then
        Err SSH_ERR_MESSAGE_INCOMPLETE
      else match memmem (zdrop start_offset p) s with
           | None => Err SSH_ERR_INVALID_FORMAT
           | Some i => Ok (start_offset + i)
           end
  end.

(** * Byte order: the macros are inverse to each other *)

Lemma POKE_U64_le v : POKE_U64 v = rev (Z_to_little_endian 8 8 v).
Proof.
  unfold Z_to_little_endian. cbn -[Z.shiftr Z.land]. rewrite !Z.shiftr_shiftr by lia. reflexivity.
Qed.

Lemma POKE_U32_le v : POKE_U32 v = rev (Z_to_little_endian 4 8 v).
Proof.
  unfold Z_to_little_endian. cbn -[Z.shiftr Z.land]. rewrite !Z.shiftr_shiftr by lia. reflexivity.
Qed.

Lemma POKE_U16_le v : POKE_U16 v = rev (Z_to_little_endian 2 8 v).
Proof. reflexivity. Qed.

(** Evaluates the byte accesses and shift counts, then reorders the
    disjunctions. *)
Ltac peek_le :=
  repeat match goal with
  | |- context [znth ?l ?i] =>
      let v := eval cbv [znth Z.to_nat Pos.to_nat Pos.iter_op Nat.add lookup list_lookup
                         default from_option id] in (znth l i) in
      change (znth l i) with v
  end;
  cbn [little_endian_to_Z rev app];
  rewrite ?Z.shiftl_lor, ?Z.shiftl_shiftl, ?Z.shiftl_0_l by lia;
  repeat match goal with
  | |- context [?a + ?b] => let c := eval vm_compute in (a + b) in change (a + b) with c
  end;
  apply Z.bits_inj; intros i; rewrite ?Z.lor_spec, ?Z.bits_0; btauto.

Lemma PEEK_U64_le p r : zlen p = 8 -> PEEK_U64 (p ++ r) = little_endian_to_Z 8 (rev p).
Proof.
  intros H. unfold zlen in H.
  destruct p as [|? [|? [|? [|? [|? [|? [|? [|? [|]]]]]]]]]; cbn in H; try lia.
  unfold PEEK_U64. cbn [app]. peek_le.
Qed.

Lemma PEEK_U32_le p r : zlen p = 4 -> PEEK_U32 (p ++ r) = little_endian_to_Z 8 (rev p).
Proof.
  intros H. unfold zlen in H. destruct p as [|? [|? [|? [|? [|]]]]]; cbn in H; try lia.
  unfold PEEK_U32. cbn [app]. peek_le.
Qed.

Lemma PEEK_U16_le p r : zlen p = 2 -> PEEK_U16 (p ++ r) = little_endian_to_Z 8 (rev p).
Proof.
  intros H. unfold zlen in H. destruct p as [|? [|? [|]]]; cbn in H; try lia.
  unfold PEEK_U16. cbn [app]. peek_le.
Qed.

Lemma PEEK_POKE_U64 v r : PEEK_U64 (POKE_U64 v ++ r) = u64 v.
Proof.
  rewrite PEEK_U64_le by done. rewrite POKE_U64_le, rev_involutive.
  by rewrite little_endian_to_Z_to_little_endian.
Qed.

Lemma PEEK_POKE_U32 v r : PEEK_U32 (POKE_U32 v ++ r) = u32 v.
Proof.
  rewrite PEEK_U32_le by done. rewrite POKE_U32_le, rev_involutive.
  by rewrite little_endian_to_Z_to_little_endian.
Qed.

Lemma PEEK_POKE_U16 v r : PEEK_U16 (POKE_U16 v ++ r) = u16 v.
Proof.
  rewrite PEEK_U16_le by done. rewrite POKE_U16_le, rev_involutive.
  by rewrite little_endian_to_Z_to_little_endian.
Qed.

Lemma zlen_POKE_U64 v : zlen (POKE_U64 v) = 8.
Proof. reflexivity. Qed.
Lemma zlen_POKE_U32 v : zlen (POKE_U32 v) = 4.
Proof. reflexivity. Qed.
Lemma zlen_POKE_U16 v : zlen (POKE_U16 v) = 2.
Proof. reflexivity. Qed.
#[export] Hint Rewrite zlen_POKE_U64 zlen_POKE_U32 zlen_POKE_U16 : zlist.

Lemma bytes_ok_rev p : bytes_ok p -> bytes_ok (rev p).
Proof. apply List.Forall_rev. Qed.

Lemma POKE_PEEK_U32 p r : bytes_ok p -> zlen p = 4 -> POKE_U32 (PEEK_U32 (p ++ r)) = p.
Proof.
  intros Hp Hl. rewrite PEEK_U32_le, POKE_U32_le by done.
  rewrite Z_to_little_endian_to_Z, rev_involutive; [done|..|by apply bytes_ok_rev]; [|lia].
  unfold zlen in Hl. rewrite length_rev. lia.
Qed.

Lemma PEEK_U32_range p r : bytes_ok p -> zlen p = 4 -> 0 <= PEEK_U32 (p ++ r) < 2 ^ 32.
Proof.
  intros Hp Hl. rewrite PEEK_U32_le by done.
  pose proof (little_endian_to_Z_bound 8 (rev p)) as H. unfold zlen in Hl.
  rewrite length_rev, Hl in H. apply H; [lia|by apply bytes_ok_rev].
Qed.

Lemma POKE_U32_bytes v : bytes_ok (POKE_U32 v).
Proof.
  unfold POKE_U32. change 0xff with (Z.ones 8). rewrite !Z.land_ones by lia.
  repeat (apply Forall_cons; split; [apply Z.mod_pos_bound; lia|]). constructor.
Qed.

(** * What the operations do to the contents *)

(** [m] appends [v], all of it or nothing. *)
Definition appends `{Allocator} (m : SE sshbuf unit) (v : list Z) : Prop :=
  forall b, buf_wf b ->
    let '(r, b') := m b in
    buf_ext b b' /\
    match r with
    | Ok _ =>
        locked b = false /\ zlen (contents b) + zlen v <= max_size b /\
        contents b' = contents b ++ v
    | Err e => contents b' = contents b /\ no_room b (zlen v) e
    end.

(** Filling a reserved area by several copies. *)
Lemma appends_fill `{Allocator} n (fill : Z -> SE sshbuf unit) v :
  zlen v = n ->
  (forall p b, 0 <= p -> p + n <= zlen (cd b) ->
     fill p b = (Ok tt, buf_set_mem b (mem_write (cd b) p v))) ->
  appends (p ← sshbuf_reserve n; fill p) v.
Proof.
  intros <- Hfill b Hb.
  assert (Heq : (p ← sshbuf_reserve (zlen v); fill p) b =
                (p ← sshbuf_reserve (zlen v); buf_write p v) b).
  { unfold mbind, se_bind. destruct (sshbuf_reserve (zlen v) b) as [[p|e] b1] eqn:E; [|done].
    apply sshbuf_reserve_spec in E as (_ & _ & [[] _ _ _] & Hp & Hs & _); [|done|by apply zlen_nonneg].
    apply Hfill; lia. }
  rewrite Heq. destruct ((p ← sshbuf_reserve (zlen v); buf_write p v) b) as [r b'] eqn:E.
  by apply reserve_write_spec in E.
Qed.

Lemma buf_set_mem_twice b m1 m2 : buf_set_mem (buf_set_mem b m1) m2 = buf_set_mem b m2.
Proof. reflexivity. Qed.

Lemma buf_set_mem_nil b p :
  0 <= p <= zlen (cd b) -> buf_set_mem b (mem_write (cd b) p []) = b.
Proof. intros. rewrite mem_write_nil by done. by destruct b. Qed.

Section appends.
Context `{Allocator}.

Lemma sshbuf_put_u64_appends x : appends (sshbuf_put_u64 x) (POKE_U64 x).
Proof. by apply appends_fill. Qed.

Lemma sshbuf_put_u32_appends x : appends (sshbuf_put_u32 x) (POKE_U32 x).
Proof. by apply appends_fill. Qed.

Lemma sshbuf_put_u16_appends x : appends (sshbuf_put_u16 x) (POKE_U16 x).
Proof. by apply appends_fill. Qed.

Lemma sshbuf_put_u8_appends x : appends (sshbuf_put_u8 x) [x].
Proof. by apply appends_fill. Qed.

Lemma sshbuf_put_appends v : appends (sshbuf_put v) v.
Proof.
  apply appends_fill; [done|]. intros p b Hp Hl.
  destruct (Z.eqb_spec (zlen v) 0) as [H0%zlen_0_nil|]; [subst|done].
  cbn in *. by rewrite buf_set_mem_nil by zlia.
Qed.

(** The wire form of a string. *)
Definition enc_string (v : list Z) : list Z := POKE_U32 (zlen v) ++ v.

Lemma sshbuf_put_string_appends v :
  zlen v <= SSHBUF_SIZE_MAX - 4 -> appends (sshbuf_put_string v) (enc_string v).
Proof.
  intros Hv. unfold sshbuf_put_string. rewrite Z.gtb_ltb, (proj2 (Z.ltb_ge _ _)) by done.
  assert (Hle : zlen (enc_string v) = zlen v + 4)
    by (unfold enc_string; zlia).
  apply appends_fill; [done|]. intros p b Hp Hl.
  unfold mbind, se_bind, buf_write, se_modify, mret, se_ret.
  destruct (Z.eqb_spec (zlen v) 0) as [H0%zlen_0_nil|]; cbn [negb].
  - subst. unfold enc_string. by rewrite app_nil_r.
  - rewrite buf_set_mem_twice. cbn [cd buf_set_mem buf_set_span].
    unfold enc_string. by rewrite <- mem_write_app by zlia.
Qed.

(** A positive number is sent without leading zeros and with a zero byte in
    front when its top bit is set. *)
Definition bignum_pad (s : list Z) : list Z := if msb_set s then 0 :: s else s.
Definition enc_bignum (v : list Z) : list Z := enc_string (bignum_pad (skip_zeros v)).

Lemma skip_zeros_len v : zlen (skip_zeros v) <= zlen v.
Proof. induction v as [|x v IH]; cbn; [done|]. case_if; zlia. Qed.

Lemma sshbuf_put_bignum2_bytes_appends v :
  zlen v <= SSHBUF_SIZE_MAX - 5 -> appends (sshbuf_put_bignum2_bytes v) (enc_bignum v).
Proof.
  intros Hv. unfold sshbuf_put_bignum2_bytes.
  rewrite Z.gtb_ltb, (proj2 (Z.ltb_ge _ _)) by done.
  unfold enc_bignum, bignum_pad, enc_string. pose proof (skip_zeros_len v) as Hs.
  remember (skip_zeros v) as s eqn:Es. clear Es.
  destruct s as [|x s].
  { cbn. by apply appends_fill. }
  assert (Hx : (zlen (x :: s) =? 0) = false) by (apply Z.eqb_neq; zlia).
  destruct (msb_set (x :: s)); cbn zeta; rewrite Hx;
    (apply appends_fill; [zlia|]); intros p b Hp Hl;
    unfold mbind, se_bind, buf_write, se_modify, mret, se_ret;
    cbn -[mem_write zlen POKE_U32 Z.add]; unfold buf_set_mem; cbn -[mem_write zlen POKE_U32 Z.add];
    do 2 f_equal.
  - rewrite (zlen_cons 0), (Z.add_comm 1), <- (mem_write_app _ p (POKE_U32 _)) by zlia.
    change (0 :: x :: s) with ([0] ++ x :: s).
    rewrite <- mem_write_app; [done|zlia|].
    rewrite zlen_mem_write; zlia.
  - rewrite Z.add_0_r, <- mem_write_app by zlia.
    f_equal. zlia.
Qed.
End appends.

(** * The interface the clients of the buffer rely on *)

(** [m] appends [v] whenever there is room. *)
Class Puts `{Allocator} {A} (m : SE sshbuf A) (v : list Z) (a : A) : Prop :=
  puts b : buf_wf b -> locked b = false -> zlen (contents b) + zlen v <= max_size b ->
    exists b', m b = (Ok a, b') /\ buf_ext b b' /\ contents b' = contents b ++ v.

(** [m] reads the value [a] from the bytes [e] at the front of the contents and
    leaves what follows them. *)
Class Gets {A} (m : SE sshbuf A) (e : list Z) (a : A) : Prop :=
  gets b rest : buf_wf b -> contents b = e ++ rest ->
    exists b', m b = (Ok a, b') /\ buf_ext b b' /\ contents b' = rest /\ cd b' = cd b.

Lemma appends_puts `{Allocator} `{!ReliableAllocator _} m v : appends m v -> Puts m v tt.
Proof.
  intros Hm b Hb Hl Hfit. specialize (Hm b Hb). destruct (m b) as [[[]|e] b'].
  - destruct Hm as (He & _ & _ & Hc). eauto.
  - destruct Hm as (_ & _ & Hn). apply no_room_reliable in Hn as [?|?]; [congruence|lia].
Qed.

#[export] Instance puts_ret `{Allocator} {A} (a : A) : Puts (mret a) [] a.
Proof.
  intros b Hb Hl _. exists b. rewrite app_nil_r.
  split; [done|]. split; [by apply buf_ext_refl|done].
Qed.

#[export] Instance puts_bind `{Allocator} {A B} (m : SE sshbuf A) (f : A -> SE sshbuf B) v w a c :
  Puts m v a -> Puts (f a) w c -> Puts (m ≫= f) (v ++ w) c.
Proof.
  intros Hm Hf b Hb Hl Hfit. rewrite zlen_app in Hfit. zlen_facts.
  destruct (Hm b Hb Hl) as (b1 & E1 & He1 & Hc1); [lia|].
  destruct (Hf b1 (ext_wf _ _ He1)) as (b2 & E2 & He2 & Hc2).
  - by rewrite (buf_ext_locked _ _ He1).
  - rewrite Hc1, zlen_app, (ext_max _ _ He1). lia.
  - exists b2. rewrite (se_bind_ok _ _ _ _ _ E1). split; [done|].
    split; [by eapply buf_ext_trans|]. by rewrite Hc2, Hc1, app_assoc.
Qed.

#[export] Instance gets_ret {A} (a : A) : Gets (mret a) [] a.
Proof.
  intros b rest Hb Hc. exists b. split; [done|]. split; [by apply buf_ext_refl|done].
Qed.

#[export] Instance gets_bind {A B} (m : SE sshbuf A) (f : A -> SE sshbuf B) e1 e2 a c :
  Gets m e1 a -> Gets (f a) e2 c -> Gets (m ≫= f) (e1 ++ e2) c.
Proof.
  intros Hm Hf b rest Hb Hc. rewrite <- app_assoc in Hc.
  destruct (Hm b _ Hb Hc) as (b1 & E1 & He1 & Hc1 & Hd1).
  destruct (Hf b1 rest (ext_wf _ _ He1) Hc1) as (b2 & E2 & He2 & Hc2 & Hd2).
  exists b2. rewrite (se_bind_ok _ _ _ _ _ E1). split; [done|].
  split; [by eapply buf_ext_trans|]. split; [done|congruence].
Qed.

(** Changing only the value that is read. *)
Lemma gets_map {A B} (m : SE sshbuf A) (f : A -> B) e a :
  Gets m e a -> Gets (x ← m; mret (f x)) e (f a).
Proof. intros. rewrite <- (app_nil_r e). eapply gets_bind; [done|]. apply gets_ret. Qed.

Lemma get_bytes_spec n b :
  buf_wf b -> 0 <= n ->
  if n <=? zlen (contents b) then
    exists b', get_bytes n b = (Ok (ztake n (contents b)), b') /\ buf_ext b b' /\
      contents b' = zdrop n (contents b) /\ cd b' = cd b
  else get_bytes n b = (Err SSH_ERR_MESSAGE_INCOMPLETE, b).
Proof.
  intros Hb Hn. pose proof (sshbuf_consume_spec b n Hb Hn) as Hs.
  unfold get_bytes, mbind, se_bind, se_get, mret, se_ret. rewrite sshbuf_ptr_wf by done. cbn.
  destruct (n <=? zlen (contents b)).
  - destruct Hs as (b' & -> & ?). eauto.
  - by rewrite Hs.
Qed.

#[export] Instance get_bytes_gets v n : TCEq n (zlen v) -> Gets (get_bytes n) v v.
Proof.
  intros ->%TCEq_eq b rest Hb Hc. pose proof (get_bytes_spec (zlen v) b Hb (zlen_nonneg v)) as Hs.
  rewrite Hc in Hs. rewrite (proj2 (Z.leb_le _ _)) in Hs by zlia.
  destruct Hs as (b' & E & He & Hd & Hm). exists b'.
  rewrite ztake_app_exact in E by done. rewrite zdrop_app_exact in Hd by done. done.
Qed.

(** * Integers *)

#[export] Instance get_u64_gets v : Gets sshbuf_get_u64 (POKE_U64 v) (u64 v).
Proof.
  rewrite <- (PEEK_POKE_U64 v []), app_nil_r. apply (gets_map _ PEEK_U64). by apply get_bytes_gets.
Qed.

#[export] Instance get_u32_gets v : Gets sshbuf_get_u32 (POKE_U32 v) (u32 v).
Proof.
  rewrite <- (PEEK_POKE_U32 v []), app_nil_r. apply (gets_map _ PEEK_U32). by apply get_bytes_gets.
Qed.

#[export] Instance get_u16_gets v : Gets sshbuf_get_u16 (POKE_U16 v) (u16 v).
Proof.
  rewrite <- (PEEK_POKE_U16 v []), app_nil_r. apply (gets_map _ PEEK_U16). by apply get_bytes_gets.
Qed.

#[export] Instance get_u8_gets v : Gets sshbuf_get_u8 [v] v.
Proof. apply (gets_map _ (fun p => znth p 0) [v] [v]). by apply get_bytes_gets. Qed.

(** * Strings *)

Definition string_ok (s : list Z) : Prop := zlen s <= SSHBUF_SIZE_MAX - 4.

Lemma enc_string_len s : zlen (enc_string s) = zlen s + 4.
Proof. unfold enc_string. zlia. Qed.
#[export] Hint Rewrite enc_string_len : zlist.

Lemma peek_string_enc b s rest :
  buf_wf b -> contents b = enc_string s ++ rest -> string_ok s ->
  sshbuf_peek_string_direct b = Ok s.
Proof.
  intros Hb Hc Hs. unfold sshbuf_peek_string_direct, string_ok, SSHBUF_SIZE_MAX in *.
  rewrite sshbuf_ptr_wf, sshbuf_len_wf, Hc by done. cbn [from_option id]. zlen_facts.
  rewrite (proj2 (Z.ltb_ge _ _)) by zlia.
  unfold enc_string. rewrite <- app_assoc, PEEK_POKE_U32, u32_small by lia.
  rewrite Z.gtb_ltb, (proj2 (Z.ltb_ge _ _)) by lia.
  rewrite (proj2 (Z.ltb_ge _ _)) by zlia. f_equal.
  rewrite slice_ztake by lia. rewrite app_assoc, ztake_app_exact by zlia.
  by apply zdrop_app_exact.
Qed.

(** The parser accepts nothing else than the wire form of a string. *)
Lemma peek_string_inv b s :
  buf_wf b -> bytes_ok (contents b) -> sshbuf_peek_string_direct b = Ok s ->
  string_ok s /\ exists rest, contents b = enc_string s ++ rest.
Proof.
  intros Hb Hby. unfold sshbuf_peek_string_direct, string_ok.
  rewrite sshbuf_ptr_wf, sshbuf_len_wf by done. cbn [from_option id].
  set (p := contents b) in *. clearbody p. clear Hb b.
  destruct (Z.ltb_spec (zlen p) 4) as [|H4]; [done|].
  assert (exists h t, p = h ++ t /\ zlen h = 4) as (h & t & -> & Hh).
  { exists (ztake 4 p), (zdrop 4 p). split; [by rewrite ztake_zdrop|zlia]. }
  apply Forall_app in Hby as [Hbh _]. pose proof (PEEK_U32_range h t Hbh Hh) as Hr.
  pose proof (POKE_PEEK_U32 h t Hbh Hh) as Hp. set (n := PEEK_U32 (h ++ t)) in *. clearbody n.
  rewrite Z.gtb_ltb. destruct (Z.ltb_spec (SSHBUF_SIZE_MAX - 4) n); [done|].
  destruct (Z.ltb_spec (zlen (h ++ t) - 4) n); [done|]. intros [= <-].
  rewrite zlen_app in *. rewrite slice_ztake by lia.
  replace (4 + n) with (zlen h + n) by lia. rewrite ztake_app_add, zdrop_app_exact by lia.
  assert (zlen (ztake n t) = n) as Hn by (apply zlen_ztake; lia).
  split; [lia|]. exists (zdrop n t). unfold enc_string.
  by rewrite Hn, Hp, <- app_assoc, ztake_zdrop.
Qed.

(** After a successful peek the bytes of the string can be consumed. *)
Lemma consume_string_ok b s rest :
  buf_wf b -> contents b = enc_string s ++ rest ->
  exists b', sshbuf_consume (zlen s + 4) b = (Ok tt, b') /\ buf_ext b b' /\
    contents b' = rest /\ cd b' = cd b.
Proof.
  intros Hb Hc. pose proof (sshbuf_consume_spec b (zlen s + 4) Hb ltac:(zlia)) as Hs.
  rewrite Hc in Hs. rewrite (proj2 (Z.leb_le _ _)) in Hs by zlia.
  destruct Hs as (b' & E & He & Hd & Hm). exists b'.
  rewrite zdrop_app_exact in Hd by zlia. done.
Qed.

Lemma get_string_direct_gets s : string_ok s -> Gets sshbuf_get_string_direct (enc_string s) s.
Proof.
  intros Hs b rest Hb Hc. destruct (consume_string_ok b s rest Hb Hc) as (b' & E & H').
  exists b'. split; [|done].
  unfold sshbuf_get_string_direct, mbind, se_bind, se_get, se_lift.
  by rewrite (peek_string_enc b s rest), E.
Qed.

Lemma skip_string_gets s : string_ok s -> Gets sshbuf_skip_string (enc_string s) tt.
Proof. intros. by eapply (gets_map _ (fun _ => tt)), get_string_direct_gets. Qed.

Lemma get_string_gets `{Allocator} `{!ReliableAllocator _} s :
  string_ok s -> Gets sshbuf_get_string (enc_string s) s.
Proof.
  intros Hs b rest Hb Hc.
  destruct (get_string_direct_gets s Hs b rest Hb Hc) as (b' & E & H').
  exists b'. split; [|done]. unfold sshbuf_get_string.
  rewrite (se_bind_ok _ _ _ _ _ E). by rewrite malloc_reliable.
Qed.

(** C strings: no nul inside. *)
Definition no_nul (s : list Z) : Prop := Forall (fun x => x <> 0) s.

Lemma memchr_no_nul s : no_nul s -> memchr 0 s = None.
Proof.
  induction 1 as [|x s Hx _ IH]; [done|]. cbn. rewrite (proj2 (Z.eqb_neq _ _)) by done.
  by rewrite IH.
Qed.

Lemma cstr_no_nul s : no_nul s -> cstr s = s.
Proof.
  induction 1 as [|x s Hx _ IH]; [done|]. cbn. rewrite (proj2 (Z.eqb_neq _ _)) by done.
  by rewrite IH.
Qed.

Lemma get_cstring_gets `{Allocator} `{!ReliableAllocator _} s :
  string_ok s -> no_nul s -> Gets sshbuf_get_cstring (enc_string s) s.
Proof.
  intros Hs Hn b rest Hb Hc. destruct (skip_string_gets s Hs b rest Hb Hc) as (b' & E & H').
  exists b'. split; [|done].
  unfold sshbuf_get_cstring, mbind, se_bind, se_get, se_lift.
  rewrite (peek_string_enc b s rest) by done. rewrite memchr_no_nul by done.
  rewrite andb_false_r, E. unfold se_put. by rewrite malloc_reliable.
Qed.

(** * Positive numbers *)

(** The writes as [Puts], and skipping as [Gets]. *)
Section puts.
Context `{Allocator} `{!ReliableAllocator _}.

Lemma put_u8_puts x : Puts (sshbuf_put_u8 x) [x] tt.
Proof. apply appends_puts, sshbuf_put_u8_appends. Qed.
Lemma put_u32_puts x : Puts (sshbuf_put_u32 x) (POKE_U32 x) tt.
Proof. apply appends_puts, sshbuf_put_u32_appends. Qed.
Lemma put_u64_puts x : Puts (sshbuf_put_u64 x) (POKE_U64 x) tt.
Proof. apply appends_puts, sshbuf_put_u64_appends. Qed.
Lemma put_string_puts s : string_ok s -> Puts (sshbuf_put_string s) (enc_string s) tt.
Proof. intros Hs. by apply appends_puts, sshbuf_put_string_appends. Qed.
End puts.

Lemma consume_gets v : Gets (sshbuf_consume (zlen v)) v tt.
Proof.
  intros b rest Hb Hc. pose proof (sshbuf_consume_spec b (zlen v) Hb (zlen_nonneg v)) as Hs.
  rewrite (proj2 (Z.leb_le _ _)) in Hs by (rewrite Hc; zlia). destruct Hs as (b' & E & Hx & Hc' & Hcd).
  exists b'. do 2 (split; [done|]). split; [|done]. by rewrite Hc', Hc, zdrop_app_exact.
Qed.

Definition bignum_ok (s : list Z) : Prop := zlen (skip_zeros s) <= SSHBUF_MAX_BIGNUM.

Lemma skip_zeros_pad s : skip_zeros (bignum_pad (skip_zeros s)) = skip_zeros s.
Proof.
  assert (Hi : skip_zeros (skip_zeros s) = skip_zeros s).
  { induction s as [|x s IH]; [done|]. cbn. destruct (x =? 0) eqn:E; [done|]. cbn. by rewrite E. }
  unfold bignum_pad. case_if; [|done]. cbn. done.
Qed.

Lemma bignum_pad_msb s : msb_set (bignum_pad s) = false.
Proof. unfold bignum_pad. case_if; done. Qed.

Lemma bignum_pad_len s : zlen (bignum_pad s) = zlen s + if msb_set s then 1 else 0.
Proof. unfold bignum_pad. case_if; zlia. Qed.

Lemma msb_set_znth s : msb_set s = negb (zlen s =? 0) && negb (Z.land (znth s 0) 0x80 =? 0).
Proof. destruct s as [|x s]; [done|]. by rewrite (proj2 (Z.eqb_neq (zlen (x :: s)) 0)) by zlia. Qed.

Lemma skip_zeros_hd v : skip_zeros v <> [] -> znth (skip_zeros v) 0 <> 0.
Proof.
  induction v as [|x v IH]; [done|]. cbn. destruct (Z.eqb_spec x 0); [done|]. by intros _.
Qed.

(** The reader's length limit, on the padded form. *)
Lemma bignum_limit s :
  (s <> [] -> znth s 0 <> 0) ->
  (zlen (bignum_pad s) >? SSHBUF_MAX_BIGNUM + 1)
  || ((zlen (bignum_pad s) =? SSHBUF_MAX_BIGNUM + 1) && negb (znth (bignum_pad s) 0 =? 0))
  = (zlen s >? SSHBUF_MAX_BIGNUM).
Proof.
  intros Hs. assert (Hm : 0 < SSHBUF_MAX_BIGNUM) by done.
  rewrite bignum_pad_len, !Z.gtb_ltb. unfold bignum_pad. destruct (msb_set s).
  - cbn [znth]. rewrite andb_false_r, orb_false_r.
    destruct (Z.ltb_spec SSHBUF_MAX_BIGNUM (zlen s)); [apply Z.ltb_lt|apply Z.ltb_ge]; lia.
  - rewrite Z.add_0_r. destruct (Z.ltb_spec SSHBUF_MAX_BIGNUM (zlen s)).
    + destruct (Z.eqb_spec (zlen s) (SSHBUF_MAX_BIGNUM + 1)).
      * rewrite (proj2 (Z.eqb_neq (znth s 0) 0)), orb_true_r; [done|].
        apply Hs. intros ->. rewrite zlen_nil in *. lia.
      * rewrite (proj2 (Z.ltb_lt _ _)) by lia. done.
    + rewrite (proj2 (Z.ltb_ge _ _)), (proj2 (Z.eqb_neq _ _)) by lia. done.
Qed.

Lemma get_bignum2_enc b v rest :
  buf_wf b -> contents b = enc_bignum v ++ rest -> zlen v <= SSHBUF_SIZE_MAX - 5 ->
  sshbuf_get_bignum2_bytes_direct b =
    if zlen (skip_zeros v) >? SSHBUF_MAX_BIGNUM then (Err SSH_ERR_BIGNUM_TOO_LARGE, b)
    else match sshbuf_consume (zlen (bignum_pad (skip_zeros v)) + 4) b with
         | (Ok _, b') => (Ok (skip_zeros v), b')
         | (Err _, b') => (Err SSH_ERR_INTERNAL_ERROR, b')
         end.
Proof.
  intros Hb Hc Hl. pose proof (skip_zeros_len v).
  unfold sshbuf_get_bignum2_bytes_direct, mbind, se_bind, se_get, se_lift.
  rewrite (peek_string_enc b (bignum_pad (skip_zeros v)) rest) by
    (done || unfold string_ok; rewrite bignum_pad_len; case_if; lia).
  rewrite <- msb_set_znth, bignum_pad_msb, bignum_limit by apply skip_zeros_hd.
  case_if; [done|]. rewrite skip_zeros_pad.
  by destruct (sshbuf_consume _ b) as [[]].
Qed.

Lemma get_bignum2_gets v :
  zlen v <= SSHBUF_SIZE_MAX - 5 -> bignum_ok v ->
  Gets sshbuf_get_bignum2_bytes_direct (enc_bignum v) (skip_zeros v).
Proof.
  intros Hl Hok b rest Hb Hc. rewrite (get_bignum2_enc b v rest) by done.
  rewrite Z.gtb_ltb, (proj2 (Z.ltb_ge _ _)) by done.
  destruct (consume_string_ok b _ rest Hb Hc) as (b' & -> & H'). eauto.
Qed.

(** A number above the limit is refused and stays in the buffer. *)
Lemma get_bignum2_too_large b v rest :
  buf_wf b -> contents b = enc_bignum v ++ rest -> zlen v <= SSHBUF_SIZE_MAX - 5 ->
  SSHBUF_MAX_BIGNUM < zlen (skip_zeros v) ->
  sshbuf_get_bignum2_bytes_direct b = (Err SSH_ERR_BIGNUM_TOO_LARGE, b).
Proof.
  intros Hb Hc Hl Hbig. rewrite (get_bignum2_enc b v rest) by done.
  by rewrite Z.gtb_ltb, (proj2 (Z.ltb_lt _ _)) by done.
Qed.

(** * Buffers that are read *)

(** A sane buffer that can still be shared. *)
Definition bufr (b : sshbuf) : Prop := buf_wf b /\ refcount b < SSHBUF_REFS_MAX.

Lemma bufr_ext b b' : bufr b -> buf_ext b b' -> bufr b'.
Proof. intros [Hb Hr] Hx. split; [apply Hx|]. by rewrite (ext_refs _ _ Hx). Qed.

(** The child of a buffer, and the buffer after the child is freed. *)
Lemma froms_child `{Allocator} `{!ReliableAllocator _} b s rest :
  bufr b -> contents b = enc_string s ++ rest -> string_ok s ->
  exists child b1, sshbuf_froms b = (Ok child, b1) /\ bufr child /\ contents child = s /\
    buf_ext b (sshbuf_unref b1) /\ contents (sshbuf_unref b1) = rest.
Proof.
  intros [Hb Hr] Hc Hs. unfold sshbuf_froms, mbind, se_bind, se_get, se_lift.
  rewrite (peek_string_enc b s rest) by done.
  destruct (sshbuf_from_ok s) as [child Ec]; [unfold string_ok in Hs; lia|]. rewrite Ec.
  destruct (sshbuf_from_spec _ _ Ec) as (Cw & Cc & _ & _).
  destruct (consume_string_ok b s rest Hb Hc) as (b1 & -> & Hx & Hc1 & _).
  unfold sshbuf_set_parent, mbind, se_bind, se_get, se_lift, se_put, mret, se_ret.
  rewrite !check_sanity_wf by (done || apply Hx). exists child, (buf_set_refcount b1 (refcount b1 + 1)).
  split; [done|]. split; [split; [done|]|split; [done|]].
  { unfold sshbuf_from in Ec. destruct (_ || _); [done|]. by injection Ec as <-. }
  pose proof (ext_wf _ _ Hx) as [W1 W2 W3 W4 W5 W6]. pose proof (ext_refs _ _ Hx) as Er.
  assert (Hw2 : buf_wf (buf_set_refcount b1 (refcount b1 + 1))) by (constructor; cbn; lia || done).
  unfold sshbuf_unref. rewrite check_sanity_wf by done. cbn [refcount buf_set_refcount].
  replace (refcount b1 + 1 - 1) with (refcount b1) by lia. destruct b1. split; [done|]. done.
Qed.

(** [sshbuf_fromb] shows the contents, and freeing the child restores the parent. *)
Lemma fromb_from `{Allocator} `{!ReliableAllocator _} b :
  bufr b ->
  exists copy b1, sshbuf_from (contents b) = Some copy /\ sshbuf_fromb b = (Some copy, b1) /\
    buf_wf b1 /\ contents b1 = contents b /\ sshbuf_unref b1 = b.
Proof.
  intros [Hb Hr]. unfold sshbuf_fromb. rewrite check_sanity_wf by done. fold (contents b).
  destruct (sshbuf_from_ok (contents b)) as [copy Ec].
  { rewrite contents_len by done. pose proof Hb as []. lia. }
  rewrite Ec. destruct (sshbuf_from_spec _ _ Ec) as (Cw & Cc & _ & _).
  unfold sshbuf_set_parent, mbind, se_bind, se_get, se_lift, se_put, mret, se_ret.
  rewrite !check_sanity_wf by done. exists copy, (buf_set_refcount b (refcount b + 1)).
  pose proof Hb as [W1 W2 W3 W4 W5 W6].
  assert (Hw2 : buf_wf (buf_set_refcount b (refcount b + 1))) by (constructor; cbn; lia || done).
  do 4 (split; [done|]). unfold sshbuf_unref. rewrite check_sanity_wf by done.
  cbn [refcount buf_set_refcount]. replace (refcount b + 1 - 1) with (refcount b) by lia. by destruct b.
Qed.

Lemma fromb_copy `{Allocator} `{!ReliableAllocator _} b :
  bufr b ->
  exists copy b1, sshbuf_fromb b = (Some copy, b1) /\ bufr copy /\ contents copy = contents b /\
    sshbuf_len b1 = zlen (contents b) /\ sshbuf_unref b1 = b.
Proof.
  intros Hb. destruct (fromb_from b Hb) as (copy & b1 & Ec & E & Hw & Hc & Hu).
  destruct (sshbuf_from_spec _ _ Ec) as (Cw & Cc & _ & _). exists copy, b1.
  split; [done|]. split; [split; [done|]|split; [done|]].
  - unfold sshbuf_from in Ec. destruct (_ || _); [done|]. by injection Ec as <-.
  - split; [|done]. by rewrite sshbuf_len_wf, Hc.
Qed.

(** * The buffer refines a bounded byte queue *)

(** The primitive operations a client can apply to one buffer. *)
Inductive buf_op : Type :=
  | OpPut (v : list Z)
  | OpGet (n : Z)
  | OpConsume (n : Z)
  | OpConsumeEnd (n : Z)
  | OpPoke (offset : Z) (v : list Z)
  | OpReset.

(** The size arguments are [size_t] values. *)
Definition op_ok (op : buf_op) : Prop :=
  match op with
  | OpPut v => zlen v <= SIZE_MAX
  | OpGet n | OpConsume n | OpConsumeEnd n => 0 <= n <= SIZE_MAX
  | OpPoke offset v => 0 <= offset <= SIZE_MAX /\ zlen v <= SIZE_MAX
  | OpReset => True
  end.

Definition run_op `{Allocator} (op : buf_op) : SE sshbuf (list Z) :=
  match op with
  | OpPut v => _ ← sshbuf_put v; mret []
  | OpGet n => sshbuf_get n
  | OpConsume n => _ ← sshbuf_consume n; mret []
  | OpConsumeEnd n => _ ← sshbuf_consume_end n; mret []
  | OpPoke offset v => _ ← sshbuf_poke offset v; mret []
  | OpReset => _ ← se_modify sshbuf_reset; mret []
  end.

(** The specification: a queue of bytes with a capacity; [lk] says that the
    queue is read-only or shared. *)
Definition spec_op (mx : Z) (lk : bool) (op : buf_op) (q : list Z) : result (list Z) * list Z :=
  match op with
  | OpPut v =>
      if lk then (Err SSH_ERR_BUFFER_READ_ONLY, q)
      else if zlen q + zlen v <=? mx then (Ok [], q ++ v)
      else (Err SSH_ERR_NO_BUFFER_SPACE, q)
  | OpGet n =>
      if n <=? zlen q then (Ok (ztake n q), zdrop n q)
      else (Err SSH_ERR_MESSAGE_INCOMPLETE, q)
  | OpConsume n =>
      if n <=? zlen q then (Ok [], zdrop n q) else (Err SSH_ERR_MESSAGE_INCOMPLETE, q)
  | OpConsumeEnd n =>
      if n <=? zlen q then (Ok [], ztake (zlen q - n) q)
      else (Err SSH_ERR_MESSAGE_INCOMPLETE, q)
  | OpPoke offset v =>
      if offset >=? SIZE_MAX - zlen v then (Err SSH_ERR_INVALID_ARGUMENT, q)
      else if offset + zlen v >? zlen q then (Err SSH_ERR_NO_BUFFER_SPACE, q)
      else if lk then (Err SSH_ERR_BUFFER_READ_ONLY, q)
      else (Ok [], mem_write q offset v)
  | OpReset => (Ok [], [])
  end.

Fixpoint run_ops `{Allocator} (ops : list buf_op) (b : sshbuf) : list (result (list Z)) * sshbuf :=
  match ops with
  | [] => ([], b)
  | op :: ops =>
      let '(r, b1) := run_op op b in
      let '(rs, b2) := run_ops ops b1 in (r :: rs, b2)
  end.

Fixpoint spec_ops (mx : Z) (lk : bool) (ops : list buf_op) (q : list Z) :
    list (result (list Z)) * list Z :=
  match ops with
  | [] => ([], q)
  | op :: ops =>
      let '(r, q1) := spec_op mx lk op q in
      let '(rs, q2) := spec_ops mx lk ops q1 in (r :: rs, q2)
  end.

Lemma sshbuf_poke_spec b offset v :
  buf_wf b -> 0 <= offset <= SIZE_MAX -> zlen v <= SIZE_MAX ->
  exists b', buf_ext b b' /\
    (sshbuf_poke offset v b = (Ok tt, b') \/
     exists e, sshbuf_poke offset v b = (Err e, b')) /\
    (_ ← sshbuf_poke offset v; mret []) b =
      (fst (spec_op (max_size b) (locked b) (OpPoke offset v) (contents b)), b') /\
    contents b' = snd (spec_op (max_size b) (locked b) (OpPoke offset v) (contents b)).
Proof.
  intros Hb Ho Hv. pose proof Hb as []. pose proof (contents_len b Hb) as Hc.
  unfold sshbuf_poke, check_woffset, check_offset, sshbuf_mutable_ptr, mbind, se_bind,
    se_get, se_lift, buf_write, se_modify, mret, se_ret, spec_op.
  rewrite sshbuf_ptr_wf, sshbuf_len_wf, check_sanity_wf by done. zlen_facts.
  case_if; [exists b; split; [by apply buf_ext_refl|]; eauto|].
  assert (u64 (offset + zlen v) = offset + zlen v) as -> by
    (apply u64_small; unfold SIZE_MAX in *; rewrite Z.geb_leb in *; zbool; lia).
  case_if; [exists b; split; [by apply buf_ext_refl|]; eauto|].
  case_if; [exists b; split; [by apply buf_ext_refl|]; eauto|].
  zbool. exists (buf_set_mem b (mem_write (cd b) (off b + offset) v)).
  split; [|split; [by left|split; [done|]]].
  - split; try done. split; cbn; try lia. rewrite zlen_mem_write; lia.
  - unfold contents. cbn. apply slice_mem_write_mid; lia.
Qed.

Lemma run_op_refines `{Allocator} `{!ReliableAllocator _} op b r b' :
  buf_wf b -> SSHBUF_SIZE_INIT <= max_size b -> op_ok op ->
  run_op op b = (r, b') ->
  buf_ext b b' /\ spec_op (max_size b) (locked b) op (contents b) = (r, contents b').
Proof.
  intros Hb Hm Hop. destruct op as [v|n|n|n|o v|]; cbn [run_op spec_op op_ok] in *.
  - pose proof (sshbuf_put_appends v b Hb) as Ha. unfold mbind, se_bind.
    destruct (sshbuf_put v b) as [[[]|e] b1]; intros [= <- <-]; destruct Ha as [He Ha].
    + destruct Ha as (-> & Hfit & ->). by rewrite (proj2 (Z.leb_le _ _)).
    + destruct Ha as [-> Hn]. destruct Hn as [Hl|Hl Hf|k Hl ? Hk]; rewrite Hl; [done|..].
      * by rewrite (proj2 (Z.leb_gt _ _)) by lia.
      * by rewrite malloc_reliable in Hk.
  - pose proof (get_bytes_spec n b Hb ltac:(lia)) as Hs. unfold sshbuf_get.
    case_if; [destruct Hs as (b1 & -> & He & <- & _)|rewrite Hs]; intros [= <- <-];
      by eauto using buf_ext_refl.
  - pose proof (sshbuf_consume_spec b n Hb ltac:(lia)) as Hs. unfold mbind, se_bind.
    case_if; [destruct Hs as (b1 & -> & He & <- & _)|rewrite Hs]; intros [= <- <-];
      by eauto using buf_ext_refl.
  - pose proof (sshbuf_consume_end_spec b n Hb ltac:(lia)) as Hs. unfold mbind, se_bind.
    case_if; [destruct Hs as (b1 & -> & He & <-)|rewrite Hs]; intros [= <- <-];
      by eauto using buf_ext_refl.
  - destruct (sshbuf_poke_spec b o v Hb) as (b1 & He & _ & -> & Hc); [by apply Hop..|].
    intros [= <- <-]. split; [done|]. rewrite Hc. by apply surjective_pairing.
  - unfold mbind, se_bind, se_modify, mret, se_ret. intros [= <- <-].
    destruct (locked b) eqn:El.
    + destruct (sshbuf_reset_locked b Hb El) as (He & -> & _). done.
    + destruct (sshbuf_reset_spec b Hb El Hm) as (He & ->). done.
Qed.

(** C34: sshbuf implements a bounded byte queue.  While memory can be allocated, any
    sequence of put, get, consume, consume-from-the-end, poke and reset calls on a
    well-formed buffer whose maximum size is at least 256 bytes (the size that
    [sshbuf_reset] allocates: [sshbuf_reset_breaks_small_limit] shows that smaller
    limits do not survive it) gives, call by call, the results (values and error
    codes) of the abstract queue, leaves the queue's bytes as contents and keeps the
    buffer's invariant and limits, whatever packing and reallocation happens
    inside. *)
Theorem sshbuf_refines_queue `{Allocator} `{!ReliableAllocator _} ops b :
  buf_wf b -> SSHBUF_SIZE_INIT <= max_size b -> Forall op_ok ops ->
  exists rs b',
    run_ops ops b = (rs, b') /\
    spec_ops (max_size b) (locked b) ops (contents b) = (rs, contents b') /\
    buf_ext b b'.
Proof.
  intros Hb Hm Hops. revert b Hb Hm.
  induction Hops as [|op ops Hop _ IH]; intros b Hb Hm; cbn.
  { exists [], b. split; [done|]. split; [done|]. by apply buf_ext_refl. }
  destruct (run_op op b) as [r b1] eqn:E1.
  destruct (run_op_refines op b r b1 Hb Hm Hop E1) as [He1 ->].
  destruct (IH b1) as (rs & b2 & -> & H2 & He2); [apply He1|by rewrite (ext_max _ _ He1)|].
  rewrite (ext_max _ _ He1), (buf_ext_locked _ _ He1) in H2. rewrite H2.
  exists (r :: rs), b2. split; [done|]. split; [done|]. by eapply buf_ext_trans.
Qed.

Lemma sshbuf_refines_queue_witness :
  let ops := [OpPut [1; 2; 3]; OpGet 2; OpPoke 0 [9]; OpGet 5; OpConsume 1; OpReset] in
  fst (@run_ops alloc_all ops demo_buf) =
    [Ok []; Ok [1; 2]; Ok []; Err SSH_ERR_MESSAGE_INCOMPLETE; Ok []; Ok []] /\
  exists rs b',
    @run_ops alloc_all ops demo_buf = (rs, b') /\
    spec_ops (max_size demo_buf) (locked demo_buf) ops (contents demo_buf) = (rs, contents b') /\
    buf_ext demo_buf b'.
Proof.
  intros ops. split; [vm_compute; reflexivity|].
  apply (@sshbuf_refines_queue alloc_all alloc_all_reliable ops demo_buf demo_buf_wf).
  - done.
  - repeat constructor; done.
Defined.

(** * Messages: sequences of typed values *)

Inductive field : Type :=
  | FU8 (x : Z) | FU16 (x : Z) | FU32 (x : Z) | FU64 (x : Z)
  | FString (s : list Z) | FCstring (s : list Z) | FBignum (s : list Z).

Inductive ftype : Set := TU8 | TU16 | TU32 | TU64 | TString | TCstring | TBignum.

Definition field_type (f : field) : ftype :=
  match f with
  | FU8 _ => TU8 | FU16 _ => TU16 | FU32 _ => TU32 | FU64 _ => TU64
  | FString _ => TString | FCstring _ => TCstring | FBignum _ => TBignum
  end.

(** The values the format can carry: integers of their width, strings below the
    buffer limit, C strings without nul, numbers of at most 16384 bits. *)
Definition field_ok (f : field) : Prop :=
  match f with
  | FU8 x => 0 <= x < 2 ^ 8
  | FU16 x => 0 <= x < 2 ^ 16
  | FU32 x => 0 <= x < 2 ^ 32
  | FU64 x => 0 <= x < 2 ^ 64
  | FString s => string_ok s
  | FCstring s => string_ok s /\ no_nul s
  | FBignum s => zlen s <= SSHBUF_SIZE_MAX - 5 /\ bignum_ok s
  end.

Definition put_field `{Allocator} (f : field) : SE sshbuf unit :=
  match f with
  | FU8 x => sshbuf_put_u8 x
  | FU16 x => sshbuf_put_u16 x
  | FU32 x => sshbuf_put_u32 x
  | FU64 x => sshbuf_put_u64 x
  | FString s => sshbuf_put_string s
  | FCstring s => sshbuf_put_cstring (Some s)
  | FBignum s => sshbuf_put_bignum2_bytes s
  end.

Definition get_field `{Allocator} (t : ftype) : SE sshbuf field :=
  match t with
  | TU8 => x ← sshbuf_get_u8; mret (FU8 x)
  | TU16 => x ← sshbuf_get_u16; mret (FU16 x)
  | TU32 => x ← sshbuf_get_u32; mret (FU32 x)
  | TU64 => x ← sshbuf_get_u64; mret (FU64 x)
  | TString => s ← sshbuf_get_string; mret (FString s)
  | TCstring => s ← sshbuf_get_cstring; mret (FCstring s)
  | TBignum => s ← sshbuf_get_bignum2_bytes_direct; mret (FBignum s)
  end.

Fixpoint put_fields `{Allocator} (fs : list field) : SE sshbuf unit :=
  match fs with
  | [] => mret tt
  | f :: fs => _ ← put_field f; put_fields fs
  end.

Fixpoint get_fields `{Allocator} (ts : list ftype) : SE sshbuf (list field) :=
  match ts with
  | [] => mret []
  | t :: ts => f ← get_field t; fs ← get_fields ts; mret (f :: fs)
  end.

Definition enc_field (f : field) : list Z :=
  match f with
  | FU8 x => [x]
  | FU16 x => POKE_U16 x
  | FU32 x => POKE_U32 x
  | FU64 x => POKE_U64 x
  | FString s | FCstring s => enc_string s
  | FBignum s => enc_bignum s
  end.

(** Numbers are read without their leading zeros. *)
Definition norm_field (f : field) : field :=
  match f with FBignum s => FBignum (skip_zeros s) | f => f end.

Lemma put_field_puts `{Allocator} `{!ReliableAllocator _} f :
  field_ok f -> Puts (put_field f) (enc_field f) tt.
Proof.
  destruct f; intros Hf; apply appends_puts; cbn in *.
  - apply sshbuf_put_u8_appends.
  - apply sshbuf_put_u16_appends.
  - apply sshbuf_put_u32_appends.
  - apply sshbuf_put_u64_appends.
  - by apply sshbuf_put_string_appends.
  - unfold sshbuf_put_cstring. rewrite cstr_no_nul by apply Hf.
    apply sshbuf_put_string_appends, Hf.
  - apply sshbuf_put_bignum2_bytes_appends, Hf.
Qed.

Lemma get_field_gets `{Allocator} `{!ReliableAllocator _} f :
  field_ok f -> Gets (get_field (field_type f)) (enc_field f) (norm_field f).
Proof.
  destruct f as [x|x|x|x|s|s|s]; intros Hf; cbn in *.
  - apply (gets_map _ FU8), get_u8_gets.
  - rewrite <- (Z.mod_small x (2 ^ 16)) at 2 by done. apply (gets_map _ FU16), get_u16_gets.
  - rewrite <- (u32_small x) at 2 by done. apply (gets_map _ FU32), get_u32_gets.
  - rewrite <- (u64_small x) at 2 by done. apply (gets_map _ FU64), get_u64_gets.
  - by apply (gets_map _ FString), get_string_gets.
  - apply (gets_map _ FCstring), get_cstring_gets; apply Hf.
  - apply (gets_map _ FBignum), get_bignum2_gets; apply Hf.
Qed.

Lemma put_fields_puts `{Allocator} `{!ReliableAllocator _} fs :
  Forall field_ok fs -> Puts (put_fields fs) (flat_map enc_field fs) tt.
Proof.
  induction 1 as [|f fs Hf _ IH]; [apply puts_ret|].
  eapply puts_bind; [by apply put_field_puts|apply IH].
Qed.

Lemma get_fields_gets `{Allocator} `{!ReliableAllocator _} fs :
  Forall field_ok fs ->
  Gets (get_fields (field_type <$> fs)) (flat_map enc_field fs) (norm_field <$> fs).
Proof.
  induction 1 as [|f fs Hf _ IH]; [apply gets_ret|].
  eapply gets_bind; [by apply get_field_gets|]. by apply (gets_map _ (cons (norm_field f))).
Qed.

(** What is written is read back.  Any sequence of integers (8 to 64 bits),
    strings, C strings and big numbers put into an empty buffer with room for
    their encoding is accepted, and reading the same sequence of types returns
    the same values (numbers without leading zeros) and empties the buffer. *)
Theorem fields_roundtrip `{Allocator} `{!ReliableAllocator _} fs b :
  buf_wf b -> locked b = false -> contents b = [] -> Forall field_ok fs ->
  zlen (flat_map enc_field fs) <= max_size b ->
  exists b1 b2,
    put_fields fs b = (Ok tt, b1) /\
    get_fields (field_type <$> fs) b1 = (Ok (norm_field <$> fs), b2) /\
    contents b2 = [] /\ buf_ext b b2.
Proof.
  intros Hb Hl Hc Hfs Hfit.
  destruct (put_fields_puts fs Hfs b Hb Hl) as (b1 & E1 & He1 & Hc1); [by rewrite Hc|].
  destruct (get_fields_gets fs Hfs b1 []) as (b2 & E2 & He2 & Hc2 & _); [apply He1| |].
  { by rewrite Hc1, Hc, app_nil_r. }
  eauto 8 using buf_ext_trans.
Qed.

Lemma fields_roundtrip_witness :
  let fs := [FU8 7; FU32 65536; FU64 (2 ^ 63 + 5); FString [0; 1; 2]; FCstring [104; 105];
             FBignum [0; 0; 200; 1]] in
  Forall field_ok fs /\
  exists b1 b2,
    @put_fields alloc_all fs demo_buf = (Ok tt, b1) /\
    @get_fields alloc_all (field_type <$> fs) b1 =
      (Ok [FU8 7; FU32 65536; FU64 (2 ^ 63 + 5); FString [0; 1; 2]; FCstring [104; 105];
           FBignum [200; 1]], b2) /\
    contents b2 = [] /\ buf_ext demo_buf b2.
Proof.
  intros fs. assert (Hfs : Forall field_ok fs)
    by (repeat (constructor; [cbn; repeat split; try done; repeat (constructor; [done|]); constructor|]); constructor).
  split; [done|].
  apply (@fields_roundtrip alloc_all alloc_all_reliable fs demo_buf demo_buf_wf); try done.
Defined.

(** The string parser is exact.  On a buffer of bytes, [sshbuf_get_string]
    returns [s] and leaves [rest] exactly when the contents are the big-endian
    length of [s], [s] and [rest], with the length within the buffer limit: it
    never reads past the data and accepts no other encoding. *)
Theorem get_string_exact `{Allocator} `{!ReliableAllocator _} b s rest :
  buf_wf b -> bytes_ok (contents b) ->
  (exists b', sshbuf_get_string b = (Ok s, b') /\ contents b' = rest) <->
  (string_ok s /\ contents b = enc_string s ++ rest).
Proof.
  intros Hb Hby. split.
  - intros (b' & E & Hr). unfold sshbuf_get_string in E.
    apply se_bind_inv in E as [(s1 & b1 & E & E1)|(e & _ & ?)]; [|done].
    rewrite malloc_reliable in E1. injection E1 as -> ->.
    unfold sshbuf_get_string_direct in E. unfold mbind, se_bind, se_get, se_lift in E.
    destruct (sshbuf_peek_string_direct b) as [s2|] eqn:Ep; [|done].
    apply peek_string_inv in Ep as [Hs [r Hc]]; [|done..].
    destruct (consume_string_ok b s2 r Hb Hc) as (b2 & E2 & _ & Hc2 & _).
    rewrite E2 in E. unfold se_put, mret, se_ret in E. injection E as -> ->.
    split; [done|]. by rewrite Hc, <- Hc2, Hr.
  - intros [Hs Hc]. destruct (get_string_gets s Hs b rest Hb Hc) as (b' & E & _ & Hr & _). eauto.
Qed.

Lemma get_string_exact_witness :
  exists b, buf_wf b /\ bytes_ok (contents b) /\ contents b = enc_string [7; 8] ++ [9] /\
    exists b', @sshbuf_get_string alloc_all b = (Ok [7; 8], b') /\ contents b' = [9].
Proof.
  set (b := mk_sshbuf [0; 0; 0; 2; 7; 8; 9] 0 7 7 7 true 1).
  assert (Hb : buf_wf b) by by split.
  assert (Hc : contents b = [0; 0; 0; 2; 7; 8; 9]) by (vm_compute; reflexivity).
  assert (Hy : bytes_ok (contents b)) by (rewrite Hc; by repeat constructor).
  exists b. split; [done|]. split; [done|]. split; [done|].
  by apply (@get_string_exact alloc_all alloc_all_reliable b [7; 8] [9] Hb Hy).
Defined.
