(* ===== verification/SshbufRead.v ===== *)
(** What a successful read says about the bytes that were in front of a buffer
    (sshbuf-getput-basic.c, read backwards), what a successful write has added to
    it, and that a buffer stays well-formed when they fail.  The requests that a
    program accepts and its replies are described with these lemmas. *)

From S2P Require Import Prelude Sshbuf SshbufGetPut.
Local Open Scope Z_scope.

(** A buffer that holds bytes. *)
Definition readable (b : sshbuf) : Prop := buf_wf b /\ bytes_ok (contents b).

(** When [m] succeeds, the buffer started with an encoding of the result. *)
Definition yields {A} (m : SE sshbuf A) (enc : A -> list Z -> Prop) : Prop :=
  forall b a b', readable b -> m b = (Ok a, b') -> readable b' /\ exists e, enc a e /\ contents b = e ++ contents b'.

Lemma readable_rest b b' e : bytes_ok (contents b) -> buf_wf b' -> contents b = e ++ contents b' -> readable b'.
Proof. intros Hb Hw E. split; [done|]. rewrite E in Hb. by apply Forall_app in Hb as [_ ?]. Qed.

Lemma get_bytes_yields n : 0 <= n -> yields (get_bytes n) (fun a e => e = a /\ zlen a = n).
Proof.
  intros Hn b a b' [Hw Hb] E. pose proof (get_bytes_spec n b Hw Hn) as Hs. destruct (Z.leb_spec n (zlen (contents b))); [|congruence].
  destruct Hs as (b1 & E1 & Hx & Hc & _). rewrite E1 in E. injection E as <- <-.
  assert (contents b = ztake n (contents b) ++ contents b1) as Hsplit by (by rewrite Hc, ztake_zdrop). split; [by eapply readable_rest; [| |exact Hsplit]; [|apply Hx]|].
  exists (ztake n (contents b)). split; [split; [done|]|done]. rewrite zlen_ztake; lia.
Qed.

Lemma get_u8_yields : yields sshbuf_get_u8 (fun a e => e = [a]).
Proof.
  intros b a b' Hr E. unfold sshbuf_get_u8, mbind, se_bind, mret, se_ret in E. destruct (get_bytes 1 b) as [[v|e] b1] eqn:Eg; [|done]. injection E as <- <-.
  destruct (get_bytes_yields 1 ltac:(lia) b v b1 Hr Eg) as (Hr' & e & [-> Hl] & Hc). split; [done|]. exists v. split; [|done].
  destruct v as [|x [|y v]]; [done|done|]. rewrite !zlen_cons in Hl. pose proof (zlen_nonneg v). lia.
Qed.

Lemma get_u32_yields : yields sshbuf_get_u32 (fun a e => e = POKE_U32 a /\ 0 <= a < 2 ^ 32).
Proof.
  intros b a b' Hr E. unfold sshbuf_get_u32, mbind, se_bind, mret, se_ret in E. destruct (get_bytes 4 b) as [[v|e] b1] eqn:Eg; [|done]. injection E as <- <-.
  destruct (get_bytes_yields 4 ltac:(lia) b v b1 Hr Eg) as (Hr' & e & [-> Hl] & Hc). split; [done|]. exists v. split; [|done].
  assert (bytes_ok v) as Hv by (destruct Hr as [_ Hb]; rewrite Hc in Hb; by apply Forall_app in Hb as [? _]).
  rewrite <- (app_nil_r v) at 2 3 4. by rewrite POKE_PEEK_U32; [split; [|apply PEEK_U32_range]|..].
Qed.

Lemma get_u64_yields : yields sshbuf_get_u64 (fun _ _ => True).
Proof.
  intros b a b' Hr E. unfold sshbuf_get_u64, mbind, se_bind, mret, se_ret in E. destruct (get_bytes 8 b) as [[v|e] b1] eqn:Eg; [|done]. injection E as <- <-.
  destruct (get_bytes_yields 8 ltac:(lia) b v b1 Hr Eg) as (Hr' & e & _ & Hc). eauto.
Qed.

Lemma get_string_direct_yields : yields sshbuf_get_string_direct (fun a e => e = enc_string a).
Proof.
  intros b v b' [Hw Hb] E. unfold sshbuf_get_string_direct, mbind, se_bind, se_get, se_lift in E.
  destruct (sshbuf_peek_string_direct b) as [s|] eqn:Ep; [|done]. apply peek_string_inv in Ep as [Hs [r Hc]]; [|done..].
  destruct (consume_string_ok b s r Hw Hc) as (b2 & E2 & Hx & Hc2 & _). rewrite E2 in E. unfold se_put, mret, se_ret in E. injection E as <- <-.
  rewrite <- Hc2 in Hc. split; [by eapply readable_rest; [| |exact Hc]; [|apply Hx]|]. eauto.
Qed.

Lemma skip_string_yields : yields sshbuf_skip_string (fun _ e => exists v, e = enc_string v).
Proof.
  intros b v b' Hr E. unfold sshbuf_skip_string, mbind, se_bind, mret, se_ret in E. destruct (sshbuf_get_string_direct b) as [[s|e] b1] eqn:Eg; [|done].
  injection E as <- <-. destruct (get_string_direct_yields b s b1 Hr Eg) as (Hr' & e & -> & Hc). eauto 6.
Qed.

Lemma get_string_yields `{Allocator} : yields sshbuf_get_string (fun a e => e = enc_string a).
Proof.
  intros b v b' Hr E. unfold sshbuf_get_string, mbind, se_bind in E. destruct (sshbuf_get_string_direct b) as [[s|e] b1] eqn:Eg; [|done].
  destruct (malloc_ok _); [|done]. injection E as <- <-. by apply get_string_direct_yields.
Qed.

Lemma get_cstring_yields `{Allocator} : yields sshbuf_get_cstring (fun a e => e = enc_string a).
Proof.
  intros b v b' Hr E. unfold sshbuf_get_cstring, mbind, se_bind, se_get, se_lift in E. destruct (sshbuf_peek_string_direct b) as [s|] eqn:Ep; [|done].
  destruct (_ && _); [done|]. destruct (sshbuf_skip_string b) as [[[]|e] b1] eqn:Es; unfold se_put in E; [|done]. destruct (malloc_ok _); [|done].
  injection E as <- <-. destruct Hr as [Hw Hb]. destruct (skip_string_yields b tt b1 (conj Hw Hb) Es) as (Hr' & _). split; [done|]. exists (enc_string s). split; [done|].
  apply peek_string_inv in Ep as [Hs [r Hc]]; [|done..]. destruct (skip_string_gets s Hs b r Hw Hc) as (b2 & E2 & _ & Hc2 & _). rewrite Es in E2. injection E2 as ->. congruence.
Qed.

(** Reads in a row. *)
Create HintDb takes discriminated.

Abbreviation takes m := (yields m (fun _ _ => True)).

Lemma yields_takes {A} (m : SE sshbuf A) enc : yields m enc -> takes m.
Proof. intros Hm b a b' Hr E. destruct (Hm b a b' Hr E) as (Hr' & e & _ & Hc). eauto. Qed.

Lemma takes_ret {A} (a : A) : takes (mret a).
Proof. intros b a' b' Hr [= <- <-]. split; [done|]. by exists []. Qed.

Lemma takes_err {A} e : takes (@se_err sshbuf A e).
Proof. by intros b a' b' Hr [= ]. Qed.

Lemma takes_bind {A B} (m : SE sshbuf A) (f : A -> SE sshbuf B) : takes m -> (forall a, takes (f a)) -> takes (m ≫= f).
Proof.
  intros Hm Hf b c b' Hr E. apply se_bind_inv in E as [(a & b1 & E1 & E2)|(e & _ & [=])].
  destruct (Hm _ _ _ Hr E1) as (Hr1 & e1 & _ & Hc1). destruct (Hf a _ _ _ Hr1 E2) as (Hr2 & e2 & _ & Hc2).
  split; [done|]. exists (e1 ++ e2). split; [done|]. by rewrite Hc1, Hc2, app_assoc.
Qed.

Lemma takes_if {A} (c : bool) (m1 m2 : SE sshbuf A) : takes m1 -> takes m2 -> takes (if c then m1 else m2).
Proof. by destruct c. Qed.

Lemma consume_yields n : 0 <= n -> yields (sshbuf_consume n) (fun _ e => zlen e = n).
Proof.
  intros Hn b [] b' [Hw Hb] E. pose proof (sshbuf_consume_spec b n Hw Hn) as Hs. destruct (Z.leb_spec n (zlen (contents b))); [|congruence].
  destruct Hs as (b1 & E1 & Hx & Hc & _). rewrite E1 in E. injection E as <-.
  assert (contents b = ztake n (contents b) ++ contents b1) as Hsplit by (by rewrite Hc, ztake_zdrop).
  split; [by eapply readable_rest; [| |exact Hsplit]; [|apply Hx]|]. exists (ztake n (contents b)). split; [|done]. rewrite zlen_ztake; lia.
Qed.

#[export] Hint Resolve takes_ret takes_err : takes.
#[export] Hint Resolve yields_takes get_u8_yields get_u32_yields get_u64_yields get_string_yields get_cstring_yields : takes.

(** A read that is made of others. *)
Ltac take_all :=
  repeat lazymatch goal with
  | |- yields (mbind _ _) _ => apply takes_bind; [|intros ?]
  | |- yields (if _ then _ else _) _ => apply takes_if
  end; eauto with takes.

(** * Writes *)

(** [m] appends [v] when it succeeds. *)
Definition builds (m : SE sshbuf unit) (v : list Z) : Prop :=
  forall b b', buf_wf b -> m b = (Ok tt, b') -> buf_ext b b' /\ contents b' = contents b ++ v.

Lemma appends_builds `{Allocator} m v : appends m v -> builds m v.
Proof.
  intros Hm b b' Hb E. specialize (Hm b Hb). rewrite E in Hm. by destruct Hm as (Hx & _ & _ & Hc).
Qed.

Lemma builds_wf m v b b' : builds m v -> buf_wf b -> m b = (Ok tt, b') -> buf_wf b' /\ contents b' = contents b ++ v.
Proof. intros Hm Hb E. destruct (Hm _ _ Hb E) as [Hx Hc]. split; [apply Hx|done]. Qed.

Lemma builds_ret : builds (mret tt) [].
Proof. intros b b' Hb [= <-]. rewrite app_nil_r. split; [by apply buf_ext_refl|done]. Qed.

Lemma builds_bind m v (f : unit -> SE sshbuf unit) w : builds m v -> builds (f tt) w -> builds (m ≫= f) (v ++ w).
Proof.
  intros Hm Hf b b' Hb E. apply se_bind_inv in E as [([] & b1 & E1 & E2)|(e & _ & [=])].
  destruct (Hm _ _ Hb E1) as [Hx1 Hc1]. destruct (Hf _ _ (ext_wf _ _ Hx1) E2) as [Hx2 Hc2].
  split; [by eapply buf_ext_trans|]. by rewrite Hc2, Hc1, app_assoc.
Qed.

Lemma put_string_builds `{Allocator} v : builds (sshbuf_put_string v) (enc_string v).
Proof.
  intros b b' Hb E. destruct (Z.gtb_spec (zlen v) (SSHBUF_SIZE_MAX - 4)) as [Hlt|Hle].
  - unfold sshbuf_put_string in E. rewrite (proj2 (Z.gtb_lt _ _)) in E by lia. done.
  - eapply appends_builds; [apply sshbuf_put_string_appends; lia|done..].
Qed.

Lemma put_cstring_builds `{Allocator} v : builds (sshbuf_put_cstring v) (enc_string (match v with None => [] | Some s => cstr s end)).
Proof. apply put_string_builds. Qed.

Lemma put_u8_builds `{Allocator} x : builds (sshbuf_put_u8 x) [x].
Proof. apply appends_builds, sshbuf_put_u8_appends. Qed.
Lemma put_u32_builds `{Allocator} x : builds (sshbuf_put_u32 x) (POKE_U32 x).
Proof. apply appends_builds, sshbuf_put_u32_appends. Qed.
Lemma put_u64_builds `{Allocator} x : builds (sshbuf_put_u64 x) (POKE_U64 x).
Proof. apply appends_builds, sshbuf_put_u64_appends. Qed.

(** What a command appends need not be known exactly. *)
Definition builds_some (m : SE sshbuf unit) : Prop := exists v, builds m v.

Lemma some_bind m (f : unit -> SE sshbuf unit) : builds_some m -> builds_some (f tt) -> builds_some (m ≫= f).
Proof. intros [v Hv] [w Hw]. exists (v ++ w). by apply builds_bind. Qed.
Lemma some_if (c : bool) m1 m2 : builds_some m1 -> builds_some m2 -> builds_some (if c then m1 else m2).
Proof. by destruct c. Qed.
Lemma some_intro m v : builds m v -> builds_some m.
Proof. by exists v. Qed.

Create HintDb builds discriminated.
#[export] Hint Resolve some_intro builds_ret put_string_builds put_cstring_builds put_u8_builds put_u32_builds put_u64_builds : builds.
Ltac build_all :=
  repeat lazymatch goal with
  | |- builds_some (mbind _ _) => apply some_bind
  | |- builds_some (if _ then _ else _) => apply some_if
  end; eauto with builds.

(** * Failures *)

(** A read leaves a buffer that can be read, whatever its outcome. *)
Definition steady {A} (m : SE sshbuf A) : Prop := forall b, readable b -> buf_ext b (snd (m b)) /\ readable (snd (m b)).

Lemma steady_ret {A} (a : A) : steady (mret a).
Proof. intros b Hb. by split; [apply buf_ext_refl, Hb|]. Qed.
Lemma steady_err {A} e : steady (@se_err sshbuf A e).
Proof. intros b Hb. by split; [apply buf_ext_refl, Hb|]. Qed.
Lemma steady_lift {A} (r : result A) : steady (se_lift r).
Proof. intros b Hb. by split; [apply buf_ext_refl, Hb|]. Qed.
Lemma steady_bind {A B} (m : SE sshbuf A) (f : A -> SE sshbuf B) : steady m -> (forall a, steady (f a)) -> steady (m ≫= f).
Proof.
  intros Hm Hf b Hb. specialize (Hm b Hb). unfold mbind, se_bind. destruct (m b) as [[a|e] b1]; [|done].
  destruct Hm as [Hx Hr]. destruct (Hf a b1 Hr) as [Hx' Hr']. split; [by eapply buf_ext_trans|done].
Qed.

Lemma get_bytes_steady n : 0 <= n -> steady (get_bytes n).
Proof.
  intros Hn b Hb. pose proof (get_bytes_spec n b (proj1 Hb) Hn) as Hs. destruct (Z.leb_spec n (zlen (contents b))); [|rewrite Hs; by apply (steady_err SSH_ERR_MESSAGE_INCOMPLETE)].
  destruct Hs as (b' & E & Hx & _). rewrite E. split; [done|by eapply get_bytes_yields].
Qed.
Lemma get_u8_steady : steady sshbuf_get_u8.
Proof. apply steady_bind; [by apply get_bytes_steady|]. intros ?. apply steady_ret. Qed.
Lemma get_u32_steady : steady sshbuf_get_u32.
Proof. apply steady_bind; [by apply get_bytes_steady|]. intros ?. apply steady_ret. Qed.
Lemma get_string_direct_steady : steady sshbuf_get_string_direct.
Proof.
  intros b Hb. pose proof (get_string_direct_yields b) as Hy. unfold sshbuf_get_string_direct, mbind, se_bind, se_get, se_lift in *.
  destruct (sshbuf_peek_string_direct b) as [s|e] eqn:Ep; [|by apply (@steady_err unit e)].
  apply peek_string_inv in Ep as [Hs [r Hc]]; [|apply Hb..]. destruct (consume_string_ok b s r (proj1 Hb) Hc) as (b2 & E2 & Hx & _).
  rewrite E2 in *. cbn in *. split; [done|]. by eapply Hy.
Qed.
Lemma alloc_steady `{Allocator} {A} n (a : A) : steady (if malloc_ok n then mret a else se_err SSH_ERR_ALLOC_FAIL).
Proof. destruct (malloc_ok n); [apply steady_ret|apply steady_err]. Qed.
Lemma get_string_steady `{Allocator} : steady sshbuf_get_string.
Proof. apply steady_bind; [apply get_string_direct_steady|]. intros v. apply alloc_steady. Qed.
Lemma get_cstring_steady `{Allocator} : steady sshbuf_get_cstring.
Proof.
  intros b Hb. unfold sshbuf_get_cstring, mbind, se_bind, se_get, se_lift. destruct (sshbuf_peek_string_direct b) as [s|e]; [|by apply (@steady_err unit e)].
  destruct (_ && _); [by apply (@steady_err unit SSH_ERR_INVALID_FORMAT)|].
  assert (steady sshbuf_skip_string) as Hk by (apply steady_bind; [apply get_string_direct_steady|intros ?; apply steady_ret]).
  specialize (Hk b Hb). destruct (sshbuf_skip_string b) as [[[]|e] b1]; cbn in *; [by destruct (malloc_ok _)|done].
Qed.

Create HintDb steady discriminated.
#[export] Hint Resolve steady_ret steady_err steady_lift get_u8_steady get_u32_steady get_string_direct_steady get_string_steady get_cstring_steady : steady.

(** [sshbuf_reset] empties a buffer when memory of the initial size can be had. *)
Lemma sshbuf_reset_empty `{Allocator} b :
  malloc_ok SSHBUF_SIZE_INIT = true -> buf_wf b -> SSHBUF_SIZE_INIT <= max_size b -> buf_ext b (sshbuf_reset b) /\ contents (sshbuf_reset b) = [].
Proof.
  intros Hok Hb Hm. destruct (locked b) eqn:Hl; [by destruct (sshbuf_reset_locked b Hb Hl) as (? & ? & _)|].
  assert (forall b', buf_ext b b' -> size b' = 0 -> buf_ext b b' /\ contents b' = []) as He.
  { intros b' Hx Hs. split; [done|]. apply zlen_0_nil. destruct Hx as [Hw _ _ _]. rewrite contents_len by done. destruct Hw. lia. }
  pose proof Hb as [? ? ? ? ? Hmem]. unfold sshbuf_reset. rewrite Hl. cbn.
  destruct (Z.eqb_spec (alloc b) SSHBUF_SIZE_INIT) as [Ha|Ha]; cbn; [|destruct (recallocarray _ _ _) as [m|] eqn:Er].
  - apply He; [|done]. split; try done. split; cbn; buf_unfold; try lia. rewrite zlen_mem_write; rewrite ?zlen_zrepeat; lia.
  - rewrite <- Hmem in Er. apply recallocarray_spec in Er as [Hl' _]; [|buf_unfold; lia].
    apply He; [|done]. split; try done. split; cbn; buf_unfold; try lia. rewrite zlen_mem_write; rewrite ?zlen_zrepeat; lia.
  - apply recallocarray_fail in Er. congruence.
Qed.

(** A complete string is moved to another buffer, or there is no room for it. *)
Lemma get_stringb_spec `{Allocator} b v s r b' v' :
  readable b -> buf_wf v -> sshbuf_peek_string_direct b = Ok s -> sshbuf_get_stringb (b, v) = (r, (b', v')) ->
  readable b' /\ buf_ext v v' /\
  match r with
  | Ok _ => contents b = enc_string s ++ contents b' /\ contents v' = contents v ++ s
  | Err e => contents v' = contents v /\ no_room v (zlen s) e
  end.
Proof.
  intros Hb Hv Ep. pose proof Ep as Ep'. apply peek_string_inv in Ep' as [Hs [rest Hc]]; [|apply Hb..]. pose proof (proj1 Hb) as Hbw.
  unfold sshbuf_get_stringb. rewrite Ep. destruct (get_u32_gets (zlen s) b (s ++ rest) Hbw) as (b1 & E1 & Hx1 & Hc1 & _).
  { rewrite Hc. unfold enc_string. by rewrite <- app_assoc. }
  assert (readable b1) as Hr1 by (by eapply get_u32_yields).
  rewrite E1. unfold string_ok, SSHBUF_SIZE_MAX in Hs. rewrite u32_small by (pose proof (zlen_nonneg s); lia).
  destruct ((p ← sshbuf_reserve (zlen s); buf_write p s) v) as [rv v1] eqn:E. pose proof E as Hw. apply reserve_write_spec in Hw as [Hx Hw]; [|done].
  unfold mbind, se_bind in E. destruct (sshbuf_reserve (zlen s) v) as [[p|e] v2] eqn:Er; [|injection E as <- <-; by intros [= <- <- <-]].
  destruct (get_bytes_gets s (zlen s) (TCEq_refl _) b1 rest (proj1 Hr1) Hc1) as (b2 & E2 & Hx2 & Hc2 & _). unfold sshbuf_get. rewrite E2.
  unfold buf_write, se_modify in E. injection E as <- <-. intros [= <- <- <-].
  assert (contents b = enc_string s ++ contents b2) as Hcb by congruence. split; [by eapply readable_rest; [apply Hb|apply Hx2|exact Hcb]|].
  destruct (Z.eqb_spec (zlen s) 0) as [H0|H0]; cbn; [|destruct Hw as (_ & _ & Hw); by split_and!].
  apply zlen_0_nil in H0 as ->. apply sshbuf_reserve_spec in Er as (_ & _ & Hx3 & Hp & Hsz & _); [|done..].
  assert (0 <= p <= zlen (cd v2)) as Hp2 by (pose proof (ext_wf _ _ Hx3) as []; rewrite zlen_nil in *; lia).
  rewrite buf_set_mem_nil in Hx, Hw by done. destruct Hw as (_ & _ & Hw). by split_and!.
Qed.
