(* ===== verification/Match.v ===== *)
(** Pattern and list matching: match.c, with strsep and strlcat of
    openbsd-compat.

    A C string is the list of its bytes before the terminating nul.  The copies
    made with [xstrdup] (which does not return on failure) are the strings
    themselves. *)

From Stdlib Require Import Ascii String.
From S2P Require Import Prelude.
Local Open Scope Z_scope.

Abbreviation cstring := (list Z).

(** String literals. *)
Definition str (s : string) : cstring :=
  map (fun a => Z.of_N (N_of_ascii a)) (list_ascii_of_string s).

Definition ch_star : Z := 42.
Definition ch_qm : Z := 63.
Definition ch_bang : Z := 33.
Definition ch_comma : Z := 44.

(** * match_pattern *)

(** [match_pattern(s, pattern)]; the two inner loops are the [for] loops over
    [s] behind an asterisk. *)
Fixpoint match_pattern (s pattern : cstring) {struct pattern} : bool :=
  match pattern with
  | [] => match s with [] => true | _ => false end
  | c :: pat1 =>
      if c =? ch_star then
        match pat1 with
        | [] => true
        | d :: pat2 =>
            if negb (d =? ch_qm) && negb (d =? ch_star) then
              (fix known s :=
                 match s with
                 | [] => false
                 | x :: s' => if (x =? d) && match_pattern s' pat2 then true else known s'
                 end) s
            else
              (fix any s :=
                 match s with
                 | [] => false
                 | _ :: s' => if match_pattern s pat1 then true else any s'
                 end) s
        end
      else
        match s with
        | [] => false
        | x :: s' =>
            if negb (c =? ch_qm) && negb (c =? x) then false else match_pattern s' pat1
        end
  end.

(** The two loops by name. *)
Fixpoint scan_known (d : Z) (pat2 s : cstring) : bool :=
  match s with
  | [] => false
  | x :: s' => if (x =? d) && match_pattern s' pat2 then true else scan_known d pat2 s'
  end.

Fixpoint scan_any (pat1 s : cstring) : bool :=
  match s with
  | [] => false
  | _ :: s' => if match_pattern s pat1 then true else scan_any pat1 s'
  end.

Lemma match_pattern_star s d pat2 :
  match_pattern s (ch_star :: d :: pat2) =
    if negb (d =? ch_qm) && negb (d =? ch_star) then scan_known d pat2 s
    else scan_any (d :: pat2) s.
Proof.
  cbn [match_pattern]. rewrite Z.eqb_refl. case_if.
  - induction s as [|x s IH]; [done|]. cbn [scan_known]. by rewrite <- IH.
  - induction s as [|x s IH]; [done|]. cbn [scan_any]. rewrite <- IH. done.
Qed.

Lemma match_pattern_char s c pat1 :
  c <> ch_star ->
  match_pattern s (c :: pat1) =
    match s with
    | [] => false
    | x :: s' => if negb (c =? ch_qm) && negb (c =? x) then false else match_pattern s' pat1
    end.
Proof. intros Hc. cbn [match_pattern]. by rewrite (proj2 (Z.eqb_neq _ _)). Qed.

(** * What a pattern means *)

(** [*] stands for any string, [?] for any character, every other character for
    itself. *)
Inductive glob : cstring -> cstring -> Prop :=
  | glob_nil : glob [] []
  | glob_star_none p s : glob p s -> glob (ch_star :: p) s
  | glob_star_more p x s : glob (ch_star :: p) s -> glob (ch_star :: p) (x :: s)
  | glob_qm p x s : glob p s -> glob (ch_qm :: p) (x :: s)
  | glob_char c p s : c <> ch_star -> c <> ch_qm -> glob p s -> glob (c :: p) (c :: s).

Lemma glob_star_app p t s : glob p s -> glob (ch_star :: p) (t ++ s).
Proof. induction t; cbn; eauto using glob. Qed.

Lemma glob_star_inv p s : glob (ch_star :: p) s -> exists t u, s = t ++ u /\ glob p u.
Proof.
  remember (ch_star :: p) as q eqn:Eq. induction 1; simplify_eq.
  - exists [], s. done.
  - destruct IHglob as (t & u & -> & Hu); [done|]. exists (x :: t), u. done.
Qed.

Lemma glob_all s : glob [ch_star] s.
Proof. rewrite <- (app_nil_r s). apply glob_star_app, glob_nil. Qed.

(** No two adjacent asterisks. *)
Fixpoint no_double_star (p : cstring) : bool :=
  match p with
  | c :: (d :: _) as p' => negb ((c =? ch_star) && (d =? ch_star)) && no_double_star p'
  | _ => true
  end.

Lemma scan_known_spec d pat2 s :
  scan_known d pat2 s = true <-> exists t u, s = t ++ d :: u /\ match_pattern u pat2 = true.
Proof.
  induction s as [|x s IH]; cbn.
  { split; [done|]. by intros ([] & u & ? & ?). }
  destruct (_ && _) eqn:E.
  - apply andb_true_iff in E as [->%Z.eqb_eq E]. split; [|done]. intros _. by exists [], s.
  - rewrite IH. split; [intros (t & u & -> & Hu); by exists (x :: t), u|].
    intros ([|y t] & u & Heq & Hu); simplify_eq/=; [by rewrite Z.eqb_refl, Hu in E|eauto].
Qed.

Lemma scan_any_spec pat1 s :
  scan_any pat1 s = true <->
  exists t u, s = t ++ u /\ u <> [] /\ match_pattern u pat1 = true.
Proof.
  induction s as [|x s IH]; cbn [scan_any].
  { split; [done|]. intros (t & u & Heq & Hu & _).
    symmetry in Heq. by apply app_eq_nil in Heq as [_ ->]. }
  destruct (match_pattern (x :: s) pat1) eqn:E.
  - split; [|done]. intros _. by exists [], (x :: s).
  - rewrite IH. split; [intros (t & u & -> & Hu); by exists (x :: t), u|].
    intros ([|y t] & u & Heq & Hne & Hu); simplify_eq/=; [congruence|eauto].
Qed.

Lemma match_pattern_glob s pattern : match_pattern s pattern = true -> glob pattern s.
Proof.
  revert s. induction pattern as [pattern IH] using (induction_ltof1 _ length).
  unfold ltof in IH. intros s. destruct pattern as [|c pat1].
  { destruct s; [intros; apply glob_nil|done]. }
  destruct (Z.eq_dec c ch_star) as [->|Hc].
  - destruct pat1 as [|d pat2]; [intros; apply glob_all|].
    rewrite match_pattern_star. case_if.
    + zbool. intros (t & u & -> & Hu)%scan_known_spec.
      apply glob_star_app, glob_char; [lia..|]. apply IH; [cbn; lia|done].
    + intros (t & u & -> & _ & Hu)%scan_any_spec.
      apply glob_star_app, IH; [cbn; lia|done].
  - rewrite match_pattern_char by done. destruct s as [|x s]; [done|].
    case_if; [done|]. intros Hm%IH; [|cbn; lia]. zbool.
    destruct (Z.eq_dec c ch_qm) as [->|Hq]; [by apply glob_qm|].
    assert (c = x) as <- by lia. by apply glob_char.
Qed.

Lemma no_double_star_tail c p : no_double_star (c :: p) = true -> no_double_star p = true.
Proof. destruct p as [|d p]; [done|]. cbn. by intros [_ H]%andb_true_iff. Qed.

Lemma glob_match_pattern s pattern :
  no_double_star pattern = true -> glob pattern s -> match_pattern s pattern = true.
Proof.
  revert s. induction pattern as [pattern IH] using (induction_ltof1 _ length).
  unfold ltof in IH. intros s Hn Hg. destruct pattern as [|c pat1].
  { by inversion Hg. }
  pose proof (no_double_star_tail _ _ Hn) as Hn1.
  destruct (Z.eq_dec c ch_star) as [->|Hc].
  - destruct pat1 as [|d pat2]; [done|]. rewrite match_pattern_star.
    apply glob_star_inv in Hg as (t & u & -> & Hg). cbn in Hn.
    apply andb_true_iff in Hn as [Hd _]. apply negb_true_iff in Hd. cbn in Hd.
    case_if.
    + zbool. apply scan_known_spec. inversion Hg; subst; [lia|lia|lia|].
      exists t, s. split; [done|]. apply IH; [cbn; lia| |done].
      by apply no_double_star_tail in Hn1.
    + apply scan_any_spec. exists t, u. split; [done|]. split; [|apply IH; [cbn; lia|done|done]].
      rewrite Hd in *. inversion Hg; subst; done.
  - rewrite match_pattern_char by done.
    inversion Hg; subst; [done|done| |].
    + cbn. apply IH; [cbn; lia|done|done].
    + rewrite Z.eqb_refl, andb_false_r. apply IH; [cbn; lia|done|done].
Qed.

(** [match_pattern] decides wildcard matching.  A string it accepts matches
    the pattern, for every pattern; and for a pattern without two adjacent
    asterisks it accepts exactly the strings that match. *)
Theorem match_pattern_correct s pattern :
  (match_pattern s pattern = true -> glob pattern s) /\
  (no_double_star pattern = true -> (match_pattern s pattern = true <-> glob pattern s)).
Proof.
  split; [apply match_pattern_glob|]. intros Hn.
  split; [apply match_pattern_glob|by apply glob_match_pattern].
Qed.

(** A string without wildcards. *)
Definition literal (l : cstring) : Prop := Forall (fun c => c <> ch_star /\ c <> ch_qm) l.

(** Two adjacent asterisks do not match the empty string.  A literal text
    followed by [**] matches that text by the meaning of the pattern, but
    [match_pattern] rejects it: behind the first asterisk the loop over the rest
    of the string is not entered when nothing is left. *)
Theorem match_pattern_double_star l :
  literal l ->
  glob (l ++ [ch_star; ch_star]) l /\ match_pattern l (l ++ [ch_star; ch_star]) = false.
Proof.
  induction 1 as [|c l [Hs Hq] _ [IHg IHm]]; cbn [app].
  - split; [apply glob_star_none, glob_all|done].
  - split; [by apply glob_char|]. rewrite match_pattern_char by done.
    by rewrite Z.eqb_refl, andb_false_r.
Qed.

Lemma match_pattern_double_star_witness :
  glob (str "host**") (str "host") /\ match_pattern (str "host") (str "host**") = false /\
  match_pattern (str "host") (str "host*") = true.
Proof.
  destruct (match_pattern_double_star (str "host")) as [Hg Hm].
  - repeat (constructor; [done|]). constructor.
  - split; [exact Hg|]. split; [exact Hm|reflexivity].
Defined.

(** * match_pattern_list *)

Definition isupper (c : Z) : bool := (65 <=? c) && (c <=? 90).
Definition tolower (c : Z) : Z := if isupper c then c + 32 else c.

(** [sizeof(sub) - 1] *)
Definition SUB_MAX : nat := 1023.

(** The extraction loop: at most [room] characters up to a comma; the result is
    the subpattern and what is left of the pattern. *)
Fixpoint take_sub (dolower : bool) (room : nat) (pattern : cstring) : cstring * cstring :=
  match pattern, room with
  | c :: rest, S room' =>
      if c =? ch_comma then ([], pattern)
      else
        let '(sub, rem) := take_sub dolower room' rest in
        ((if dolower && isupper c then tolower c else c) :: sub, rem)
  | _, _ => ([], pattern)
  end.

(** One round of the loop of [match_pattern_list] per unit of fuel; the length of
    the pattern is enough (see [match_pattern_list_fuel]). *)
Fixpoint pattern_list_loop (fuel : nat) (string pattern : cstring) (dolower : bool)
    (got_positive : Z) : Z :=
  match fuel with
  | O => got_positive
  | S fuel =>
      match pattern with
      | [] => got_positive
      | c :: rest =>
          let '(negated, pat1) := if c =? ch_bang then (true, rest) else (false, pattern) in
          let '(sub, rem) := take_sub dolower SUB_MAX pat1 in
          if Nat.leb SUB_MAX (List.length sub) then 0
          else
            let rem := match rem with
                        | x :: rem' => if x =? ch_comma then rem' else rem
                        | [] => []
                        end in
            if match_pattern string sub then
              if negated then -1 else pattern_list_loop fuel string rem dolower 1
            else pattern_list_loop fuel string rem dolower got_positive
      end
  end.

Definition match_pattern_list (string pattern : cstring) (dolower : bool) : Z :=
  pattern_list_loop (List.length pattern) string pattern dolower 0.

Definition match_usergroup_pattern_list (string pattern : cstring) : Z :=
  match_pattern_list string pattern false.

Definition lowercase (s : cstring) : cstring := map tolower s.

Definition match_hostname (host pattern : cstring) : Z :=
  match_pattern_list (lowercase host) pattern true.

(** * strsep *)

(** [strsep(&s, ",")] on a non-null pointer: the token and the new value of the
    pointer, null when no separator was found. *)
Fixpoint strsep (s : cstring) : cstring * option cstring :=
  match s with
  | [] => ([], None)
  | c :: s' =>
      if c =? ch_comma then ([], Some s')
      else let '(tok, rest) := strsep s' in (c :: tok, rest)
  end.

(** All tokens that repeated calls return. *)
Fixpoint tokens (s : cstring) : list cstring :=
  match s with
  | [] => [[]]
  | c :: s' =>
      if c =? ch_comma then [] :: tokens s'
      else match tokens s' with
           | [] => [[c]]
           | t :: ts => (c :: t) :: ts
           end
  end.

Lemma tokens_strsep s :
  tokens s = fst (strsep s) :: match snd (strsep s) with None => [] | Some r => tokens r end.
Proof.
  induction s as [|c s IH]; [done|]. cbn. case_if; [done|].
  rewrite IH. by destruct (strsep s) as [tok [r|]].
Qed.

(** The string a list of tokens was split from. *)
Fixpoint join_comma (ts : list cstring) : cstring :=
  match ts with
  | [] => []
  | [t] => t
  | t :: ts => t ++ ch_comma :: join_comma ts
  end.

Definition no_comma (t : cstring) : Prop := Forall (fun c => c <> ch_comma) t.

Lemma tokens_no_comma s : Forall no_comma (tokens s).
Proof.
  induction s as [|c s IH]; [by repeat constructor|]. cbn.
  destruct (Z.eqb_spec c ch_comma) as [|Hc]; [by constructor; [constructor|]|].
  destruct (tokens s) as [|t ts]; [by repeat constructor|].
  inversion IH; subst. by repeat constructor.
Qed.

Lemma tokens_nonempty s : tokens s <> [].
Proof. destruct s as [|c s]; cbn; [done|]. case_if; [done|]. by destruct (tokens s). Qed.

Lemma join_tokens s : join_comma (tokens s) = s.
Proof.
  induction s as [|c s IH]; [done|]. cbn [tokens].
  pose proof (tokens_nonempty s) as Hn.
  destruct (Z.eqb_spec c ch_comma) as [->|Hc].
  - destruct (tokens s); [done|]. cbn [join_comma app] in *. by rewrite IH.
  - destruct (tokens s) as [|t [|t' ts]]; [done|..]; cbn [join_comma app]; f_equal; exact IH.
Qed.

Lemma tokens_app_comma t s : no_comma t -> tokens (t ++ ch_comma :: s) = t :: tokens s.
Proof.
  induction 1 as [|c t Hc _ IH]; cbn; [done|].
  rewrite (proj2 (Z.eqb_neq _ _)) by done. by rewrite IH.
Qed.

Lemma tokens_no_sep t : no_comma t -> tokens t = [t].
Proof.
  induction 1 as [|c t Hc _ IH]; cbn; [done|].
  rewrite (proj2 (Z.eqb_neq _ _)) by done. by rewrite IH.
Qed.

Lemma tokens_join ts : ts <> [] -> Forall no_comma ts -> tokens (join_comma ts) = ts.
Proof.
  intros Hne Hts. induction Hts as [|t ts Ht Hts IH]; [done|].
  destruct ts as [|t' ts]; [by apply tokens_no_sep|].
  change (join_comma (t :: t' :: ts)) with (t ++ ch_comma :: join_comma (t' :: ts)).
  rewrite tokens_app_comma by done. by rewrite IH.
Qed.

(** * The meaning of a pattern list *)

(** A comma-separated list, without the empty entry behind a final comma. *)
Fixpoint drop_last_empty (ts : list cstring) : list cstring :=
  match ts with
  | [] => []
  | [[]] => []
  | t :: ts => t :: drop_last_empty ts
  end.

Record pat_entry := mk_entry { pe_neg : bool; pe_pat : cstring }.

Definition lower_if (dolower : bool) (t : cstring) : cstring :=
  if dolower then map tolower t else t.

Definition parse_entry (dolower : bool) (t : cstring) : pat_entry :=
  match t with
  | c :: t' => if c =? ch_bang then mk_entry true (lower_if dolower t')
               else mk_entry false (lower_if dolower t)
  | [] => mk_entry false []
  end.

Definition list_entries (dolower : bool) (pattern : cstring) : list pat_entry :=
  parse_entry dolower <$> drop_last_empty (tokens pattern).

(** Evaluation from left to right. *)
Fixpoint eval_entries (string : cstring) (es : list pat_entry) (got_positive : Z) : Z :=
  match es with
  | [] => got_positive
  | e :: es =>
      if Nat.leb SUB_MAX (List.length (pe_pat e)) then 0
      else if match_pattern string (pe_pat e) then
        if pe_neg e then -1 else eval_entries string es 1
      else eval_entries string es got_positive
  end.

Definition rest_of (r : option cstring) : cstring :=
  match r with None => [] | Some s => ch_comma :: s end.

Lemma take_sub_spec dl n p :
  let '(tok, r) := strsep p in
  if Nat.leb n (List.length tok) then List.length (fst (take_sub dl n p)) = n
  else take_sub dl n p = (lower_if dl tok, rest_of r).
Proof.
  revert n. induction p as [|c p IH]; intros n; cbn.
  { destruct n; cbn; [done|]. by destruct dl. }
  destruct (Z.eqb_spec c ch_comma) as [->|Hc].
  { destruct n; cbn; [done|]. by destruct dl. }
  destruct n as [|n]; cbn.
  { by destruct (strsep p). }
  rewrite (proj2 (Z.eqb_neq _ _) Hc).
  specialize (IH n). destruct (strsep p) as [tok r]. cbn.
  destruct (take_sub dl n p) as [sub rem]. cbn in *.
  destruct (Nat.leb n (List.length tok)); cbn; [by rewrite IH|].
  injection IH as -> ->. f_equal.
  unfold lower_if. destruct dl; cbn; [|done]. unfold tolower. by destruct (isupper c).
Qed.

Lemma strsep_cons_bang p : fst (strsep (ch_bang :: p)) = ch_bang :: fst (strsep p) /\
  snd (strsep (ch_bang :: p)) = snd (strsep p).
Proof. cbn. by destruct (strsep p). Qed.

Lemma strsep_len p : forall r, snd (strsep p) = Some r -> (List.length r < List.length p)%nat.
Proof.
  induction p as [|c p IH]; intros r; cbn; [done|]. case_if; cbn; [intros [= <-]; lia|].
  destruct (strsep p) as [tok r']. cbn in *. intros Hr. specialize (IH _ Hr). lia.
Qed.

Lemma strsep_none p : snd (strsep p) = None -> fst (strsep p) = p.
Proof.
  induction p as [|c p IH]; cbn; [done|]. case_if; cbn; [done|].
  destruct (strsep p) as [tok r']. cbn in *. intros Hr. by rewrite IH.
Qed.

Lemma list_entries_cons dl p :
  p <> [] ->
  list_entries dl p =
    parse_entry dl (fst (strsep p)) ::
      match snd (strsep p) with None => [] | Some r => list_entries dl r end.
Proof.
  intros Hp. unfold list_entries. rewrite tokens_strsep.
  destruct (snd (strsep p)) as [r|] eqn:E.
  - pose proof (tokens_nonempty r). destruct (tokens r) eqn:Er; [done|].
    destruct (fst (strsep p)) as [|c t]; cbn [drop_last_empty fmap list_fmap]; done.
  - rewrite strsep_none by done. by destruct p.
Qed.

(** One round of the loop in terms of [strsep]. *)
Lemma pattern_list_loop_step fuel string p dl got :
  p <> [] ->
  pattern_list_loop (S fuel) string p dl got =
    let e := parse_entry dl (fst (strsep p)) in
    let rem := match snd (strsep p) with None => [] | Some r => r end in
    if Nat.leb SUB_MAX (List.length (pe_pat e)) then 0
    else if match_pattern string (pe_pat e) then
      if pe_neg e then -1 else pattern_list_loop fuel string rem dl 1
    else pattern_list_loop fuel string rem dl got.
Proof.
  intros Hp. destruct p as [|c p]; [done|].
  assert (Hlen : forall t, List.length (lower_if dl t) = List.length t)
    by (intros t; unfold lower_if; destruct dl; [apply length_map|done]).
  cbn [pattern_list_loop]. destruct (Z.eqb_spec c ch_bang) as [->|Hc].
  - pose proof (take_sub_spec dl SUB_MAX p) as Ht. cbn zeta.
    destruct (strsep_cons_bang p) as [-> ->]. destruct (strsep p) as [tok r]. cbn [fst snd].
    unfold parse_entry. rewrite Z.eqb_refl. cbn [pe_pat pe_neg]. rewrite Hlen.
    destruct (Nat.leb SUB_MAX (List.length tok)) eqn:E.
    + destruct (take_sub dl SUB_MAX p) as [sub rem]. cbn [fst] in Ht. by rewrite Ht, Nat.leb_refl.
    + rewrite Ht, Hlen, E. by destruct r as [r|].
  - pose proof (take_sub_spec dl SUB_MAX (c :: p)) as Ht.
    destruct (strsep (c :: p)) as [tok r] eqn:Es. cbn zeta. cbn [fst snd].
    assert (parse_entry dl tok = mk_entry false (lower_if dl tok)) as ->.
    { destruct tok as [|c' tok]; cbn; [by destruct dl|].
      cbn in Es. destruct (c =? ch_comma); [done|]. destruct (strsep p). injection Es as <- <- <-.
      by rewrite (proj2 (Z.eqb_neq _ _)). }
    cbn [pe_pat pe_neg]. rewrite Hlen.
    destruct (Nat.leb SUB_MAX (List.length tok)) eqn:E.
    + destruct (take_sub dl SUB_MAX (c :: p)) as [sub rem]. cbn [fst] in Ht.
      by rewrite Ht, Nat.leb_refl.
    + rewrite Ht, Hlen, E. by destruct r as [r|].
Qed.

(** The fuel is enough: the loop evaluates every entry. *)
Lemma match_pattern_list_fuel fuel string p dl got :
  (List.length p <= fuel)%nat ->
  pattern_list_loop fuel string p dl got = eval_entries string (list_entries dl p) got.
Proof.
  revert p got. induction fuel as [|fuel IH]; intros p got Hf.
  { by destruct p; [|cbn in Hf; lia]. }
  destruct (decide (p = [])) as [->|Hp]; [done|].
  rewrite pattern_list_loop_step, list_entries_cons by done. cbn [eval_entries].
  assert (Hrem : forall g, pattern_list_loop fuel string
      match snd (strsep p) with None => [] | Some r => r end dl g =
    eval_entries string match snd (strsep p) with None => [] | Some r => list_entries dl r end g).
  { intros g. destruct (snd (strsep p)) as [r|] eqn:E.
    - apply IH. apply strsep_len in E. lia.
    - by destruct fuel. }
  cbn zeta. by rewrite !Hrem.
Qed.

Definition entry_matches (string : cstring) (e : pat_entry) : bool :=
  match_pattern string (pe_pat e).

Lemma eval_entries_spec string es got :
  Forall (fun e => (List.length (pe_pat e) < SUB_MAX)%nat) es ->
  eval_entries string es got =
    if existsb (fun e => pe_neg e && entry_matches string e) es then -1
    else if existsb (fun e => negb (pe_neg e) && entry_matches string e) es then 1
    else got.
Proof.
  intros Hes. revert got. induction Hes as [|e es He _ IH]; intros got; [done|]. cbn [eval_entries].
  rewrite (proj2 (Nat.leb_gt _ _) He). cbn [existsb]. unfold entry_matches at 1 3.
  destruct (match_pattern string (pe_pat e)), (pe_neg e); cbn; rewrite ?IH; try done.
  by repeat case_if.
Qed.

(** The meaning of a pattern list does not depend on its order.  When no
    subpattern reaches the 1023 characters the code can hold,
    [match_pattern_list] returns -1 exactly when some negated entry matches, 1
    when no negated entry and some other entry matches, and 0 otherwise; the
    entries are the pieces between the commas, in lower case if asked for. *)
Theorem match_pattern_list_meaning string pattern dolower :
  Forall (fun e => (List.length (pe_pat e) < SUB_MAX)%nat) (list_entries dolower pattern) ->
  match_pattern_list string pattern dolower =
    if existsb (fun e => pe_neg e && entry_matches string e) (list_entries dolower pattern)
    then -1
    else if existsb (fun e => negb (pe_neg e) && entry_matches string e)
              (list_entries dolower pattern)
    then 1 else 0.
Proof.
  intros Hes. unfold match_pattern_list. rewrite match_pattern_list_fuel by done.
  by apply eval_entries_spec.
Qed.

Lemma match_pattern_list_meaning_witness :
  list_entries true (str "*.Example.org,!BAD*") =
    [mk_entry false (str "*.example.org"); mk_entry true (str "bad*")] /\
  match_pattern_list (str "bad.example.org") (str "*.Example.org,!BAD*") true = -1 /\
  match_pattern_list (str "ok.example.org") (str "*.Example.org,!BAD*") true = 1.
Proof.
  split; [reflexivity|]. split.
  - rewrite match_pattern_list_meaning; [reflexivity|]. repeat constructor.
  - reflexivity.
Defined.

(** * match_list *)

Definition MAX_PROP : nat := 40.

Fixpoint take_nonempty (ts : list cstring) : list cstring :=
  match ts with
  | [] => []
  | [] :: _ => []
  | t :: ts => t :: take_nonempty ts
  end.

(** The server loop: the tokens up to the first empty one, at most [MAX_PROP]. *)
Definition sproposals (server : cstring) : list cstring :=
  take MAX_PROP (take_nonempty (tokens server)).

(** The client loop over the tokens that strsep returns.  [pos] is the offset of
    the token in the copy [c]; [clen] is [strlen(c)], which is the length of the
    first token once strsep has overwritten the first comma. *)
Fixpoint client_loop (ts sprops : list cstring) (pos clen : Z) : option cstring * Z :=
  match ts with
  | [] => (None, clen)
  | [] :: _ => (None, clen)
  | p :: ts =>
      if bool_decide (p ∈ sprops) then
        (Some p, match ts with [] => clen | _ => pos + zlen p + 1 end)
      else client_loop ts sprops (pos + zlen p + 1) clen
  end.

(** The chosen name and the value stored through [next]. *)
Definition match_list_next (client server : cstring) : option cstring * Z :=
  client_loop (tokens client) (sproposals server) 0 (zlen (fst (strsep client))).

Definition match_list (client server : cstring) : option cstring :=
  fst (match_list_next client server).

(** * filter_list *)

(** strlcat(dst, src, siz) on strings: at most [siz - 1] characters. *)
Definition strlcat (dst src : cstring) (siz : Z) : cstring :=
  if zlen dst <? siz then ztake (siz - 1) (dst ++ src) else dst.

Fixpoint filter_loop (len : Z) (blacklist : bool) (filter : cstring) (ts : list cstring)
    (fix_prop : cstring) : cstring :=
  match ts with
  | [] => fix_prop
  | cp :: ts =>
      let r := match_pattern_list cp filter false in
      if (blacklist && negb (r =? 1)) || (negb blacklist && (r =? 1)) then
        let fix_prop :=
          match fix_prop with [] => fix_prop | _ => strlcat fix_prop [ch_comma] len end in
        filter_loop len blacklist filter ts (strlcat fix_prop cp len)
      else filter_loop len blacklist filter ts fix_prop
  end.

Definition filter_list `{Allocator} (proposal filter : cstring) (blacklist : bool) :
    option cstring :=
  let len := zlen proposal + 1 in
  if negb (malloc_ok len) then None
  else Some (filter_loop len blacklist filter (tokens proposal) []).

Definition match_filter_blacklist `{Allocator} (proposal filter : cstring) : option cstring :=
  filter_list proposal filter true.
Definition match_filter_whitelist `{Allocator} (proposal filter : cstring) : option cstring :=
  filter_list proposal filter false.

(** * Negotiation picks the client's first choice *)

(** The names of a list as the code sees them: up to an empty token. *)
Definition names (s : cstring) : list cstring := take_nonempty (tokens s).

(** Offset behind the tokens [ts] and their commas. *)
Fixpoint span (ts : list cstring) : Z :=
  match ts with [] => 0 | t :: ts => zlen t + 1 + span ts end.

Lemma take_nonempty_app l1 l2 :
  Forall (fun t => t <> []) l1 -> take_nonempty (l1 ++ l2) = l1 ++ take_nonempty l2.
Proof. induction 1 as [|t l1 Ht _ IH]; [done|]. cbn. destruct t; [done|]. by rewrite IH. Qed.

(** Where the client loop stops. *)
Lemma client_loop_spec ts sprops pos clen :
  (client_loop ts sprops pos clen = (None, clen) /\
   Forall (fun t => t ∉ sprops) (take_nonempty ts)) \/
  exists l1 n l2,
    ts = l1 ++ n :: l2 /\ n <> [] /\ n ∈ sprops /\
    Forall (fun t => t <> [] /\ t ∉ sprops) l1 /\
    client_loop ts sprops pos clen =
      (Some n, match l2 with [] => clen | _ => pos + span l1 + zlen n + 1 end).
Proof.
  revert pos. induction ts as [|p ts IH]; intros pos; [left; split; [done|constructor]|].
  destruct p as [|c p]; [left; split; [done|constructor]|]. cbn [client_loop take_nonempty].
  destruct (bool_decide ((c :: p) ∈ sprops)) eqn:E.
  { right. exists [], (c :: p), ts. apply bool_decide_eq_true in E.
    split; [done|]. split; [done|]. split; [done|]. split; [constructor|].
    cbn [span]. by rewrite Z.add_0_r. }
  apply bool_decide_eq_false in E.
  destruct (IH (pos + zlen (c :: p) + 1)) as [[-> Hf]|(l1 & n & l2 & -> & Hn & Hin & Hl1 & ->)].
  { left. split; [done|]. by constructor. }
  right. exists ((c :: p) :: l1), n, l2. split; [done|]. split; [done|]. split; [done|].
  split; [by constructor|]. cbn [span]. f_equal. destruct l2; [done|]. lia.
Qed.

(** Algorithm negotiation.  [match_list] returns the first name of the
    client's list that is among the server's names (of which the first 40 are
    considered), and nothing when the lists have no name in common; names end at
    an empty entry. *)
Theorem match_list_first client server :
  match match_list client server with
  | Some n =>
      exists l1 l2, names client = l1 ++ n :: l2 /\ n ∈ take MAX_PROP (names server) /\
        Forall (fun t => t ∉ take MAX_PROP (names server)) l1
  | None => Forall (fun t => t ∉ take MAX_PROP (names server)) (names client)
  end.
Proof.
  unfold match_list, match_list_next, names. fold (sproposals server).
  destruct (client_loop_spec (tokens client) (sproposals server) 0 (zlen (fst (strsep client))))
    as [[-> Hf]|(l1 & n & l2 & -> & Hn & Hin & Hl1 & ->)]; [done|].
  cbn [fst]. exists l1, (take_nonempty l2). split.
  - rewrite take_nonempty_app by (eapply Forall_impl; [exact Hl1|]; naive_solver).
    by destruct n.
  - split; [done|]. eapply Forall_impl; [exact Hl1|]. naive_solver.
Qed.

(** * Walking through all common names *)

(** The loop of [authmethod_get]: the list is advanced by [next] after each
    match. *)
Fixpoint common_names (fuel : nat) (client server : cstring) : list cstring :=
  match fuel with
  | O => []
  | S fuel =>
      match match_list_next client server with
      | (None, _) => []
      | (Some n, next) => n :: common_names fuel (zdrop next client) server
      end
  end.

Lemma zdrop_span l1 l2 :
  l2 <> [] -> zdrop (span l1) (join_comma (l1 ++ l2)) = join_comma l2.
Proof.
  intros Hl. induction l1 as [|t l1 IH]; [apply zdrop_0|].
  assert (join_comma ((t :: l1) ++ l2) = (t ++ [ch_comma]) ++ join_comma (l1 ++ l2)) as ->.
  { rewrite <- app_assoc. cbn [app join_comma]. destruct (l1 ++ l2) eqn:E; [|done].
    by apply app_eq_nil in E as [_ ->]. }
  cbn [span]. assert (Hs : 0 <= span l1) by (clear; induction l1; cbn; zlen_facts; lia).
  rewrite <- zdrop_zdrop by zlia. rewrite zdrop_app_exact by zlia. done.
Qed.

Lemma join_comma_cons t l : l <> [] -> join_comma (t :: l) = t ++ ch_comma :: join_comma l.
Proof. by destruct l. Qed.

Lemma fst_strsep t s : no_comma t -> fst (strsep (t ++ ch_comma :: s)) = t.
Proof.
  intros Ht. pose proof (tokens_strsep (t ++ ch_comma :: s)) as E.
  assert (E2 : tokens (t ++ ch_comma :: s) = t :: tokens s).
  { rewrite <- (join_tokens s) at 1. rewrite <- join_comma_cons by apply tokens_nonempty.
    apply tokens_join; [done|]. constructor; [done|apply tokens_no_comma]. }
  rewrite E2 in E. by injection E.
Qed.

(** When the last name matched, the rest of the list starts with a comma or is
    empty, so nothing follows. *)
Lemma names_after_last l1 n :
  Forall no_comma (l1 ++ [n]) ->
  names (zdrop (zlen (fst (strsep (join_comma (l1 ++ [n]))))) (join_comma (l1 ++ [n]))) = [].
Proof.
  intros Hc. destruct l1 as [|t l1].
  - pose proof (tokens_join [n]) as Ht. rewrite tokens_strsep in Ht.
    cbn [app join_comma] in *. specialize (Ht ltac:(done) Hc). injection Ht as -> _.
    by rewrite zdrop_ge by lia.
  - cbn [app]. rewrite join_comma_cons by by destruct l1. inversion Hc; subst.
    rewrite fst_strsep by done. by rewrite zdrop_app_exact.
Qed.

(** What follows a matched name that is not the last. *)
Lemma tokens_after_match l1 n l2 :
  l2 <> [] -> Forall no_comma (l1 ++ n :: l2) ->
  tokens (zdrop (0 + span l1 + zlen n + 1) (join_comma (l1 ++ n :: l2))) = l2.
Proof.
  intros Hl Hc. replace (0 + span l1 + zlen n + 1) with (span (l1 ++ [n])).
  2: { clear. induction l1; cbn in *; lia. }
  replace (l1 ++ n :: l2) with ((l1 ++ [n]) ++ l2) by by rewrite <- app_assoc.
  rewrite zdrop_span by done. apply tokens_join; [done|].
  apply Forall_app in Hc as [_ Hc]. by inversion Hc.
Qed.

Lemma common_names_none fuel client server : names client = [] -> common_names fuel client server = [].
Proof.
  intros Hn. destruct fuel as [|fuel]; [done|]. cbn. unfold match_list_next.
  unfold names in Hn. destruct (tokens client) as [|[|] ts] eqn:E; done.
Qed.

Lemma filter_none (sprops l : list cstring) :
  Forall (fun t => t ∉ sprops) l -> filter (.∈ sprops) l = [].
Proof. induction 1; [done|]. by rewrite filter_cons_False. Qed.

(** The client tries every common method once, in its order of preference.
    Repeating [match_list] and advancing the client's list by the offset it
    stores through [next], as [authmethod_get] does, ends and lists exactly the
    client's names that the server supports, in order. *)
Theorem match_list_next_enumerates client server :
  common_names (List.length (tokens client)) client server =
  filter (.∈ take MAX_PROP (names server)) (names client).
Proof.
  change (take MAX_PROP (names server)) with (sproposals server).
  remember (List.length (tokens client)) as fuel eqn:Ef.
  assert (Hf : (List.length (tokens client) <= fuel)%nat) by lia. clear Ef.
  revert client Hf. induction fuel as [|fuel IH]; intros client Hf.
  { pose proof (tokens_nonempty client). destruct (tokens client); [done|cbn in Hf; lia]. }
  cbn [common_names]. unfold match_list_next at 1.
  destruct (client_loop_spec (tokens client) (sproposals server) 0 (zlen (fst (strsep client))))
    as [[-> Hn]|(l1 & n & l2 & Et & Hn & Hin & Hl1 & ->)].
  { unfold names. by rewrite filter_none. }
  assert (Hne : Forall (fun t => t <> []) l1) by (eapply Forall_impl; [exact Hl1|]; naive_solver).
  pose proof (tokens_no_comma client) as Hc. rewrite Et in Hc.
  pose proof (join_tokens client) as Hj. rewrite Et in Hj.
  assert (Hnames : filter (.∈ sproposals server) (names client) =
                   n :: filter (.∈ sproposals server) (take_nonempty l2)).
  { unfold names. rewrite Et, take_nonempty_app, filter_app by done.
    rewrite filter_none by (eapply Forall_impl; [exact Hl1|]; naive_solver).
    cbn [app]. destruct n; [done|]. cbn [take_nonempty]. by rewrite filter_cons_True. }
  rewrite Hnames. f_equal. destruct l2 as [|t l2].
  - cbn [take_nonempty]. apply common_names_none. rewrite <- Hj. by apply names_after_last.
  - assert (Hd : tokens (zdrop (0 + span l1 + zlen n + 1) client) = t :: l2)
      by (rewrite <- Hj; by apply tokens_after_match).
    rewrite IH; unfold names; rewrite Hd; [done|].
    rewrite Et, length_app in Hf. cbn [List.length] in *. lia.
Qed.

(** * Filtering a proposal *)

Definition keeps (filter : cstring) (blacklist : bool) (n : cstring) : bool :=
  if blacklist then negb (match_pattern_list n filter false =? 1)
  else match_pattern_list n filter false =? 1.

Lemma strlcat_fits dst src siz : zlen dst + zlen src < siz -> strlcat dst src siz = dst ++ src.
Proof.
  intros H. unfold strlcat. zlen_facts. destruct (Z.ltb_spec (zlen dst) siz); [|lia].
  by rewrite ztake_ge by zlia.
Qed.

Lemma zlen_join_cons t l : l <> [] -> zlen (join_comma (t :: l)) = zlen t + 1 + zlen (join_comma l).
Proof. intros Hl. rewrite join_comma_cons by done. zlia. Qed.

Lemma join_comma_snoc l t : l <> [] -> join_comma (l ++ [t]) = join_comma l ++ ch_comma :: t.
Proof.
  induction l as [|x l IH]; [done|]. intros _. destruct l as [|y l]; [done|].
  rewrite <- app_comm_cons, (join_comma_cons x (y :: l)), join_comma_cons by done.
  rewrite IH by done. by rewrite <- app_assoc.
Qed.

Lemma zlen_join l : l <> [] -> zlen (join_comma l) = span l - 1.
Proof.
  induction l as [|t l IH]; [done|]. intros _. destruct (decide (l = [])) as [->|Hl].
  - cbn [join_comma span]. lia.
  - rewrite zlen_join_cons by done. cbn [span]. rewrite IH by done. lia.
Qed.

(** The room left for the rest of the proposal is enough for what is kept. *)
Lemma filter_loop_spec len filter blacklist ts acc :
  Forall (fun t => t <> []) acc -> Forall (fun t => t <> []) ts ->
  zlen (join_comma acc) + 1 + span ts <= len + (if decide (acc = []) then 1 else 0) ->
  filter_loop len blacklist filter ts (join_comma acc) =
  join_comma (acc ++ base.filter (fun n => keeps filter blacklist n) ts).
Proof.
  revert acc. induction ts as [|t ts IH]; intros acc Ha Ht Hl; [by rewrite app_nil_r|].
  inversion_clear Ht as [|? ? Hne Hts]. cbn [filter_loop span] in *.
  assert (Hs : 0 <= span ts) by (clear; induction ts; cbn; zlen_facts; lia).
  assert (((blacklist && negb (match_pattern_list t filter false =? 1)) ||
    (negb blacklist && (match_pattern_list t filter false =? 1)))%bool = keeps filter blacklist t) as ->.
  { unfold keeps. destruct blacklist; cbn; [by rewrite orb_false_r|done]. }
  destruct (keeps filter blacklist t) eqn:K.
  2: { rewrite filter_cons_False by (cbn; rewrite K; by intros []). apply IH; [done|done|]. zlen_facts.
       destruct (decide (acc = [])); lia. }
  rewrite filter_cons_True by (cbn; by rewrite K).
  replace (acc ++ t :: base.filter (fun n => keeps filter blacklist n) ts)
    with ((acc ++ [t]) ++ base.filter (fun n => keeps filter blacklist n) ts)
    by by rewrite <- app_assoc.
  rewrite <- IH.
  - f_equal. destruct (decide (acc = [])) as [->|Hacc].
    + cbn [join_comma app] in *. rewrite strlcat_fits; [done|]. zlen_facts. zlia.
    + rewrite join_comma_snoc by done.
      destruct (join_comma acc) as [|c j] eqn:Ej.
      { destruct acc as [|[|] [|]]; try done. inversion Ha; done. }
      rewrite <- Ej in *. rewrite (strlcat_fits (join_comma acc)) by zlia.
      rewrite strlcat_fits by zlia. by rewrite <- app_assoc.
  - apply Forall_app; split; [done|]. by constructor.
  - done.
  - destruct (decide (acc = [])) as [->|Hacc].
    + cbn [app join_comma] in *. destruct (decide ([t] = [])); [done|]. zlia.
    + rewrite join_comma_snoc by done.
      destruct (decide (acc ++ [t] = [])) as [E|]; [by destruct acc|]. zlia.
Qed.

Lemma filter_list_exact `{Allocator} proposal filter bl :
  malloc_ok (zlen proposal + 1) = true ->
  Forall (fun t => t <> []) (tokens proposal) ->
  filter_list proposal filter bl = Some $
    join_comma (base.filter (fun n => keeps filter bl n) (tokens proposal)).
Proof.
  intros Hm Ht. unfold filter_list. cbn zeta. rewrite Hm. f_equal.
  rewrite (filter_loop_spec _ _ _ _ []); [done|done|done|].
  cbn [join_comma]. destruct (decide _); [|done].
  rewrite <- (join_tokens proposal) at 2. rewrite zlen_join by apply tokens_nonempty. zlia.
Qed.

(** Filtering a name list.  For a proposal without empty entries,
    [match_filter_blacklist] returns exactly the entries that the pattern list
    does not match positively and [match_filter_whitelist] exactly those it
    does, in the original order and comma separated; the fixed-size copy with
    strlcat never truncates. *)
Theorem match_filter_exact `{Allocator} proposal filter :
  malloc_ok (zlen proposal + 1) = true ->
  Forall (fun t => t <> []) (tokens proposal) ->
  match_filter_blacklist proposal filter = Some $
    join_comma (base.filter (fun n => match_pattern_list n filter false <> 1) (tokens proposal)) /\
  match_filter_whitelist proposal filter = Some $
    join_comma (base.filter (fun n => match_pattern_list n filter false = 1) (tokens proposal)).
Proof.
  intros Hm Ht.
  split; [unfold match_filter_blacklist|unfold match_filter_whitelist]; rewrite filter_list_exact by done;
    do 2 f_equal; apply list_filter_iff; intros n; unfold keeps;
    destruct (Z.eqb_spec (match_pattern_list n filter false) 1); cbn; naive_solver.
Qed.

Lemma match_filter_exact_witness :
  @match_filter_blacklist alloc_all (str "ssh-rsa,ssh-ed25519") (str "ssh-r*") =
  Some (str "ssh-ed25519").
Proof.
  rewrite (proj1 (@match_filter_exact alloc_all (str "ssh-rsa,ssh-ed25519") (str "ssh-r*")
    eq_refl ltac:(repeat constructor; discriminate))). reflexivity.
Defined.
