(* ===== verification/AddrMatch.v ===== *)
(** Matching network addresses: addrmatch.c and the host and user matching of
    match.c that is built on it.

    The 128-bit union of [struct xaddr] is a list of four 32-bit words, each the
    [ntohl] of the word in memory, so that the [htonl] and [ntohl] calls and the
    byte view [addr8] need no byte order of the host.  getaddrinfo(3) with
    AI_NUMERICHOST is a parameter. *)

From Stdlib Require Import String.
From S2P Require Import Prelude Match.
Local Open Scope Z_scope.

Inductive sa_family := AF_INET | AF_INET6 | AF_OTHER (n : Z).
#[global] Instance sa_family_eq_dec : EqDecision sa_family.
Proof. solve_decision. Defined.

Record xaddr := mk_xaddr {
  af : sa_family;
  addr32 : list Z;
  scope_id : Z;
}.

(** memset(xa, 0, sizeof *xa) *)
Definition xaddr_zero : xaddr := mk_xaddr (AF_OTHER 0) [0; 0; 0; 0] 0.

Definition set_af (a : xaddr) (f : sa_family) : xaddr := mk_xaddr f (addr32 a) (scope_id a).
Definition set_addr32 (a : xaddr) (w : list Z) : xaddr := mk_xaddr (af a) w (scope_id a).
Definition set_scope_id (a : xaddr) (s : Z) : xaddr := mk_xaddr (af a) (addr32 a) s.
Definition s_addr (a : xaddr) : Z := znth (addr32 a) 0.

(** addr8[i]: byte [i] of the address in network order. *)
Definition addr8 (a : xaddr) (i : Z) : Z :=
  Z.land (Z.shiftr (znth (addr32 a) (i / 4)) (24 - 8 * (i mod 4))) 255.

(** * Addresses and masks *)

Definition addr_unicast_masklen (f : sa_family) : Z :=
  match f with AF_INET => 32 | AF_INET6 => 128 | AF_OTHER _ => -1 end.

(** true for the return value 0. *)
Definition masklen_valid (f : sa_family) (masklen : Z) : bool :=
  match f with
  | AF_INET => masklen <=? 32
  | AF_INET6 => masklen <=? 128
  | AF_OTHER _ => false
  end.

(** A socket address as getaddrinfo returns it, with its [ai_addrlen]. *)
Inductive sockaddr :=
  | Sockaddr_in (sin_addr : Z)
  | Sockaddr_in6 (sin6_addr : list Z) (sin6_scope_id : Z)
  | Sockaddr_other (sa_family : Z).

Definition SIZEOF_SOCKADDR_IN : Z := 16.
Definition SIZEOF_SOCKADDR_IN6 : Z := 28.

Definition addr_sa_to_xaddr (sa : sockaddr) (slen : Z) : option xaddr :=
  let xa := xaddr_zero in
  match sa with
  | Sockaddr_in sin_addr =>
      if slen <? SIZEOF_SOCKADDR_IN then None
      else Some (set_addr32 (set_af xa AF_INET) (zset (addr32 xa) 0 sin_addr))
  | Sockaddr_in6 sin6_addr sin6_scope_id =>
      if slen <? SIZEOF_SOCKADDR_IN6 then None
      else Some (set_scope_id (set_addr32 (set_af xa AF_INET6) sin6_addr) sin6_scope_id)
  | Sockaddr_other _ => None
  end.

(** [(0xffffffff << (32 - l)) & 0xffffffff] *)
Definition mask_shift (l : Z) : Z :=
  Z.land (u32 (Z.shiftl 0xffffffff (32 - l))) 0xffffffff.

(** The loop [for (i = 0; i < 4 && l >= 32; i++, l -= 32)], with the final
    partial word. *)
Fixpoint netmask6_loop (n : nat) (i l : Z) (w : list Z) : list Z :=
  match n with
  | O => w
  | S n =>
      if l >=? 32 then netmask6_loop n (i + 1) (l - 32) (zset w i 0xffffffff)
      else if negb (l =? 0) then zset w i (mask_shift l) else w
  end.

Definition addr_netmask (f : sa_family) (l : Z) : option xaddr :=
  if negb (masklen_valid f l) then None
  else
    let n := xaddr_zero in
    match f with
    | AF_INET =>
        let n := set_af n AF_INET in
        if l =? 0 then Some n
        else Some (set_addr32 n (zset (addr32 n) 0 (mask_shift l)))
    | AF_INET6 =>
        let n := set_af n AF_INET6 in
        Some (set_addr32 n (netmask6_loop 4 0 l (addr32 n)))
    | AF_OTHER _ => None
    end.

Definition addr_and (a b : xaddr) : option xaddr :=
  if negb (bool_decide (af a = af b)) then None
  else
    match af a with
    | AF_INET => Some (set_addr32 a (zset (addr32 a) 0 (Z.land (s_addr a) (s_addr b))))
    | AF_INET6 => Some (set_addr32 a (zip_with Z.land (addr32 a) (addr32 b)))
    | AF_OTHER _ => None
    end.

(** The byte loop of [addr_cmp]. *)
Fixpoint addr_cmp_bytes (n : nat) (i : Z) (a b : xaddr) : Z :=
  match n with
  | O => 0
  | S n =>
      if negb (addr8 a i - addr8 b i =? 0) then
        if addr8 a i >? addr8 b i then 1 else -1
      else addr_cmp_bytes n (i + 1) a b
  end.

Definition addr_cmp (a b : xaddr) : Z :=
  if negb (bool_decide (af a = af b)) then
    if bool_decide (af a = AF_INET6) then 1 else -1
  else
    match af a with
    | AF_INET =>
        if s_addr a =? s_addr b then 0
        else if s_addr a >? s_addr b then 1 else -1
    | AF_INET6 =>
        let r := addr_cmp_bytes 16 0 a b in
        if negb (r =? 0) then r
        else if scope_id a =? scope_id b then 0
        else if scope_id a >? scope_id b then 1 else -1
    | AF_OTHER _ => -1
    end.

Definition addr_invert (n : xaddr) : option xaddr :=
  match af n with
  | AF_INET => Some (set_addr32 n (zset (addr32 n) 0 (Z.lxor (s_addr n) 0xffffffff)))
  | AF_INET6 => Some (set_addr32 n ((fun w => Z.lxor w 0xffffffff) <$> addr32 n))
  | AF_OTHER _ => None
  end.

Definition addr_hostmask (f : sa_family) (l : Z) : option xaddr :=
  m ← addr_netmask f l; addr_invert m.

(** true for the return value 0. *)
Definition addr_is_all0s (a : xaddr) : bool :=
  match af a with
  | AF_INET => s_addr a =? 0
  | AF_INET6 => forallb (fun w => w =? 0) (addr32 a)
  | AF_OTHER _ => false
  end.

Definition addr_host_is_all0s (a : xaddr) (masklen : Z) : bool :=
  match addr_hostmask (af a) masklen with
  | None => false
  | Some tmp_mask =>
      match addr_and a tmp_mask with
      | None => false
      | Some tmp_result => addr_is_all0s tmp_result
      end
  end.

Definition addr_netmatch (host net : xaddr) (masklen : Z) : Z :=
  if negb (bool_decide (af host = af net)) then -1
  else
    match addr_netmask (af host) masklen with
    | None => -1
    | Some tmp_mask =>
        match addr_and host tmp_mask with
        | None => -1
        | Some tmp_result => addr_cmp tmp_result net
        end
    end.

(** * Parsing *)

(** getaddrinfo(3) with AI_NUMERICHOST: [None] for a nonzero return, else the
    first result's address and its length, if there is one. *)
Class Getaddrinfo := getaddrinfo : cstring -> option (option (sockaddr * Z)).

Definition isspace (c : Z) : bool := ((9 <=? c) && (c <=? 13)) || (c =? 32).
Definition isdigit (c : Z) : bool := (48 <=? c) && (c <=? 57).
Definition ULONG_MAX : Z := 2 ^ 64 - 1.

Fixpoint skip_space (s : cstring) : cstring :=
  match s with c :: s' => if isspace c then skip_space s' else s | [] => [] end.

Fixpoint read_digits (s : cstring) (acc : Z) : Z * cstring :=
  match s with
  | c :: s' => if isdigit c then read_digits s' (acc * 10 + (c - 48)) else (acc, s)
  | [] => (acc, [])
  end.

(** strtoul(3) in base 10: the value and the string at [endptr]. *)
Definition strtoul (nptr : cstring) : Z * cstring :=
  let s := skip_space nptr in
  let '(neg, s) :=
    match s with
    | c :: s' => if c =? 45 then (true, s') else if c =? 43 then (false, s') else (false, s)
    | [] => (false, [])
    end in
  match s with
  | c :: _ =>
      if isdigit c then
        let '(v, rest) := read_digits s 0 in
        if v >? ULONG_MAX then (ULONG_MAX, rest)
        else (if neg then u64 (- v) else v, rest)
      else (0, nptr)
  | [] => (0, nptr)
  end.

(** strchr: the parts before and behind the first [c]. *)
Fixpoint strchr_split (c : Z) (s : cstring) : option (cstring * cstring) :=
  match s with
  | [] => None
  | x :: s' =>
      if x =? c then Some ([], s')
      else match strchr_split c s' with
           | None => None
           | Some (l, r) => Some (x :: l, r)
           end
  end.

Definition ch_slash : Z := 47.
Definition ch_at : Z := 64.

Inductive cidr_result :=
  | CidrOk (n : xaddr) (l : Z)   (* 0 *)
  | CidrParse                    (* -1 *)
  | CidrInconsistent.            (* -2 *)

Section parsing.
Context `{Getaddrinfo}.

Definition addr_pton (p : cstring) : option xaddr :=
  match getaddrinfo p with
  | None | Some None => None
  | Some (Some (sa, slen)) => addr_sa_to_xaddr sa slen
  end.

Definition pton_cidr_tail (addrbuf : cstring) (mp : option Z) : cidr_result :=
  match addr_pton addrbuf with
  | None => CidrParse
  | Some tmp =>
      let masklen := match mp with
                     | None => addr_unicast_masklen (af tmp)
                     | Some m => m
                     end in
      if negb (masklen_valid (af tmp) masklen) then CidrInconsistent
      else if negb (addr_host_is_all0s tmp masklen) then CidrInconsistent
      else CidrOk tmp masklen
  end.

Definition addr_pton_cidr (p : cstring) : cidr_result :=
  if zlen p >=? 64 then CidrParse
  else
    match strchr_split ch_slash p with
    | None => pton_cidr_tail p None
    | Some (addrbuf, mp) =>
        let '(masklen, cp) := strtoul mp in
        if (zlen mp =? 0) || negb (zlen cp =? 0) || (masklen >? 128) then CidrParse
        else pton_cidr_tail addrbuf (Some masklen)
    end.

(** * Lists of addresses *)

(** The loop of [addr_match_list] over the strsep tokens; [addr] is absent when
    the list is only checked. *)
Fixpoint addr_match_loop (addr : option (cstring * xaddr)) (ts : list cstring) (ret : Z) : Z :=
  match ts with
  | [] => ret
  | cp :: ts =>
      let '(neg, cp) :=
        match cp with
        | c :: cp' => if c =? ch_bang then (true, cp') else (false, cp)
        | [] => (false, [])
        end in
      match cp with
      | [] => -2
      | _ =>
          let foundit := if neg then -1 else addr_match_loop addr ts 1 in
          match addr_pton_cidr cp with
          | CidrInconsistent => -2
          | CidrOk match_addr masklen =>
              match addr with
              | Some (_, try_addr) =>
                  if addr_netmatch try_addr match_addr masklen =? 0 then foundit
                  else addr_match_loop addr ts ret
              | None => addr_match_loop addr ts ret
              end
          | CidrParse =>
              match addr with
              | Some (addr', _) =>
                  if match_pattern addr' cp then foundit else addr_match_loop addr ts ret
              | None => addr_match_loop addr ts ret
              end
          end
      end
  end.

Definition addr_match_list `{Allocator} (addr : option cstring) (list : cstring) : Z :=
  match addr with
  | None =>
      if negb (malloc_ok (zlen list + 1)) then -1 else addr_match_loop None (tokens list) 0
  | Some a =>
      match addr_pton a with
      | None => 0
      | Some try_addr =>
          if negb (malloc_ok (zlen list + 1)) then -1
          else addr_match_loop (Some (a, try_addr)) (tokens list) 0
      end
  end.

Definition INET6_ADDRSTRLEN : Z := 46.
Definition VALID_CIDR_CHARS : cstring := str "0123456789abcdefABCDEF.:/".

(** [strspn(cp, VALID_CIDR_CHARS) == strlen(cp)] *)
Definition cidr_chars (cp : cstring) : bool :=
  forallb (fun c => bool_decide (c ∈ VALID_CIDR_CHARS)) cp.

Fixpoint addr_match_cidr_loop (addr : option xaddr) (ts : list cstring) (ret : Z) : Z :=
  match ts with
  | [] => ret
  | [] :: _ => -1
  | cp :: ts =>
      if zlen cp >? INET6_ADDRSTRLEN + 3 then -1
      else
        let ret := if negb (cidr_chars cp) then -1 else ret in
        match addr_pton_cidr cp with
        | CidrParse => -1
        | CidrInconsistent => -1
        | CidrOk match_addr masklen =>
            match addr with
            | Some try_addr =>
                let ret := if addr_netmatch try_addr match_addr masklen =? 0 then 1 else ret in
                addr_match_cidr_loop addr ts ret
            | None => addr_match_cidr_loop addr ts ret
            end
        end
  end.

Definition addr_match_cidr_list `{Allocator} (addr : option cstring) (list : cstring) : Z :=
  match addr with
  | None =>
      if negb (malloc_ok (zlen list + 1)) then -1 else addr_match_cidr_loop None (tokens list) 0
  | Some a =>
      match addr_pton a with
      | None => 0
      | Some try_addr =>
          if negb (malloc_ok (zlen list + 1)) then -1
          else addr_match_cidr_loop (Some try_addr) (tokens list) 0
      end
  end.

(** * Hosts and users *)

Definition match_host_and_ip `{Allocator} (host ipaddr : option cstring) (patterns : cstring) : Z :=
  let mip := addr_match_list ipaddr patterns in
  if mip =? -2 then -1
  else
    match host, ipaddr with
    | Some host, Some _ =>
        if mip =? -1 then 0
        else
          let mhost := match_hostname host patterns in
          if mhost =? -1 then 0
          else if (mhost =? 0) && (mip =? 0) then 0
          else 1
    | _, _ => 0
    end.

(** [match_user]; a null [user] with a host or address is not a caller's case
    ([match_pattern] dereferences it) and yields no match. *)
Definition match_user `{Allocator} (user host ipaddr : option cstring) (pattern : cstring) : Z :=
  match user with
  | None =>
      match host, ipaddr with
      | None, None =>
          match strchr_split ch_at pattern with
          | Some (_, p) => if match_host_and_ip None None p <? 0 then -1 else 0
          | None => 0
          end
      | _, _ => 0
      end
  | Some user =>
      match strchr_split ch_at pattern with
      | None => if match_pattern user pattern then 1 else 0
      | Some (pat, p) =>
          if match_pattern user pat then match_host_and_ip host ipaddr p else 0
      end
  end.

End parsing.

(** * Addresses as bit strings *)

(** Bit [k] of the address, counted from the most significant one. *)
Definition addr_bit (a : xaddr) (k : Z) : bool :=
  Z.testbit (znth (addr32 a) (k / 32)) (31 - k mod 32).

Definition is_word (w : Z) : Prop := 0 <= w < 2 ^ 32.

(** Values of [struct xaddr] that the code builds. *)
Definition addr_wf (a : xaddr) : Prop :=
  match af a with AF_OTHER _ => False | _ => True end /\
  length (addr32 a) = 4%nat /\ Forall is_word (addr32 a).

(** [host] lies in the network [net/m]: same family and scope, and the first
    [m] bits agree. *)
Definition in_net (host net : xaddr) (m : Z) : Prop :=
  af host = af net /\ (af net = AF_INET6 -> scope_id host = scope_id net) /\
  forall k, 0 <= k < m -> addr_bit host k = addr_bit net k.

Lemma znth_word l i : Forall is_word l -> is_word (znth l i).
Proof.
  intros Hl. unfold znth. destruct (l !! Z.to_nat i) as [w|] eqn:E; cbn.
  - by eapply Forall_lookup_1 in Hl.
  - unfold is_word. lia.
Qed.

Lemma word_high w t : is_word w -> 32 <= t -> Z.testbit w t = false.
Proof.
  intros [Hl Hu] Ht. destruct (decide (w = 0)) as [->|]; [apply Z.bits_0|].
  apply Z.bits_above_log2; [done|]. apply Z.lt_le_trans with 32; [|done].
  apply Z.log2_lt_pow2; lia.
Qed.

Lemma word_inj w w' :
  is_word w -> is_word w' -> (forall t, 0 <= t < 32 -> Z.testbit w t = Z.testbit w' t) -> w = w'.
Proof.
  intros Hw Hw' Hb. apply Z.bits_inj'. intros t Ht.
  destruct (decide (t < 32)); [apply Hb; lia|]. by rewrite !word_high by (done || lia).
Qed.

(** Bits of word [i]. *)
Lemma addr_bit_word a i t :
  0 <= t < 32 -> Z.testbit (znth (addr32 a) i) t = addr_bit a (32 * i + (31 - t)).
Proof.
  intros Ht. unfold addr_bit. rewrite (Z.mul_comm 32), Z.div_add_l by lia.
  rewrite (Z.div_small (31 - t)) by lia. rewrite Z.add_0_r.
  f_equal. rewrite Z.add_comm, Z_mod_plus_full, Z.mod_small by lia. lia.
Qed.

Lemma word_eq_bits a b i :
  addr_wf a -> addr_wf b ->
  znth (addr32 a) i = znth (addr32 b) i <->
  forall k, 32 * i <= k < 32 * i + 32 -> addr_bit a k = addr_bit b k.
Proof.
  intros (_ & _ & Ha) (_ & _ & Hb). split.
  - intros E k Hk. replace k with (32 * i + (31 - (31 - (k - 32 * i)))) by lia.
    rewrite <- !addr_bit_word by lia. by rewrite E.
  - intros E. apply word_inj; [by apply znth_word..|]. intros t Ht.
    rewrite !addr_bit_word by done. apply E. lia.
Qed.

Definition width (f : sa_family) : Z := addr_unicast_masklen f.

(** The netmask of length [l] has exactly its first [l] bits set; checked for
    every length. *)
Definition netmask_ok (f : sa_family) (l : Z) : bool :=
  match addr_netmask f l with
  | None => false
  | Some n =>
      forallb (fun k => Bool.eqb (addr_bit n k) (k <? l)) (seqZ 0 (width f)) &&
      bool_decide (af n = f) && bool_decide (scope_id n = 0) &&
      bool_decide (length (addr32 n) = 4%nat) &&
      forallb (fun w => (0 <=? w) && (w <? 2 ^ 32)) (addr32 n)
  end.

Lemma netmask_check :
  forallb (netmask_ok AF_INET) (seqZ 0 33) && forallb (netmask_ok AF_INET6) (seqZ 0 129) = true.
Proof. vm_compute. reflexivity. Qed.

Lemma forallb_seqZ P a n k : forallb P (seqZ a n) = true -> a <= k < a + n -> P k = true.
Proof.
  intros Hf Hk. rewrite forallb_forall in Hf. apply Hf, list_elem_of_In, elem_of_seqZ. lia.
Qed.

Lemma addr_netmask_spec f l :
  0 <= l -> masklen_valid f l = true ->
  exists n, addr_netmask f l = Some n /\ af n = f /\ addr_wf n /\
    forall k, 0 <= k < width f -> addr_bit n k = (k <? l).
Proof.
  intros Hl Hv. assert (Hok : netmask_ok f l = true).
  { pose proof netmask_check as C. apply andb_prop in C as [C4 C6].
    destruct f; unfold masklen_valid in Hv; [| |done]; apply Z.leb_le in Hv.
    - apply (forallb_seqZ _ 0 33 l C4). lia.
    - apply (forallb_seqZ _ 0 129 l C6). lia. }
  unfold netmask_ok in Hok. destruct (addr_netmask f l) as [n|]; [|done].
  rewrite !andb_true_iff, !bool_decide_eq_true in Hok. destruct Hok as ((((Hb & Haf) & _) & Hlen) & Hw).
  exists n. split; [done|]. split; [done|]. split.
  - split; [rewrite Haf; by destruct f|]. split; [done|].
    rewrite forallb_forall in Hw. apply Forall_forall. intros w Hin%list_elem_of_In.
    specialize (Hw _ Hin). zbool. unfold is_word. lia.
  - intros k Hk. eapply forallb_seqZ in Hb; [|split; [exact (proj1 Hk)|lia]].
    by apply Bool.eqb_prop in Hb.
Qed.

Lemma addr_netmask_invalid f l : masklen_valid f l = false -> addr_netmask f l = None.
Proof. intros Hv. unfold addr_netmask. by rewrite Hv. Qed.

Lemma word_land w w' : is_word w -> is_word w' -> is_word (Z.land w w').
Proof.
  intros Hw Hw'. unfold is_word in *. split; [apply Z.land_nonneg; lia|].
  destruct (decide (Z.land w w' = 0)) as [->|]; [lia|].
  apply Z.log2_lt_pow2; [pose proof (proj2 (Z.land_nonneg w w')); lia|].
  apply Z.le_lt_trans with (Z.min (Z.log2 w) (Z.log2 w')); [apply Z.log2_land; lia|].
  apply Z.min_lt_iff. left. destruct (decide (w = 0)) as [->|]; [cbn; lia|].
  apply Z.log2_lt_pow2; lia.
Qed.

Lemma znth_zip_land l k i :
  length l = length k -> znth (zip_with Z.land l k) i = Z.land (znth l i) (znth k i).
Proof.
  intros Hl. unfold znth. rewrite lookup_zip_with.
  destruct (l !! Z.to_nat i) as [x|] eqn:E, (k !! Z.to_nat i) as [y|] eqn:E'; cbn; try done.
  by rewrite Z.land_0_r.
Qed.

Lemma width_words f k : 0 <= k < width f -> (f = AF_INET -> k / 32 = 0) /\ 0 <= k / 32 < 4.
Proof.
  destruct f; cbn; intros Hk; [|split; [done|]|lia].
  - rewrite Z.div_small by lia. lia.
  - split; [apply Z.div_pos; lia|apply Z.div_lt_upper_bound; lia].
Qed.

(** [addr_and] is the bitwise conjunction. *)
Lemma addr_and_spec a b :
  addr_wf a -> addr_wf b -> af a = af b ->
  exists r, addr_and a b = Some r /\ af r = af a /\ scope_id r = scope_id a /\ addr_wf r /\
    forall k, 0 <= k < width (af a) -> addr_bit r k = addr_bit a k && addr_bit b k.
Proof.
  intros (Hf & Hla & Hwa) (_ & Hlb & Hwb) E. unfold addr_and.
  rewrite bool_decide_eq_true_2 by done. cbn [negb]. unfold s_addr.
  destruct (af a) eqn:Ea; [| |done]; (eexists; split; [done|]; split; [by cbn|]; split; [done|]; split).
  - unfold addr_wf, set_addr32, zset. cbn. rewrite Ea, length_insert. repeat split; [done|].
    apply Forall_insert; [done|]. apply word_land; by apply znth_word.
  - intros k Hk. apply width_words in Hk as [Hk _]. unfold addr_bit. cbn [addr32 set_addr32].
    rewrite Hk by done. rewrite znth_zset_eq by (unfold zlen; lia). apply Z.land_spec.
  - unfold addr_wf, set_addr32. cbn. rewrite Ea, length_zip_with. repeat split; [lia|].
    apply Forall_lookup_2. intros i x. rewrite lookup_zip_with_Some.
    intros (w & w' & -> & Hi & Hi').
    apply word_land; [by apply (Forall_lookup_1 _ _ _ _ Hwa Hi)|by apply (Forall_lookup_1 _ _ _ _ Hwb Hi')].
  - intros k Hk. unfold addr_bit. cbn [addr32 set_addr32].
    rewrite znth_zip_land by lia. apply Z.land_spec.
Qed.

Lemma word_not w : is_word w -> is_word (Z.lxor w 0xffffffff) /\
  forall t, 0 <= t < 32 -> Z.testbit (Z.lxor w 0xffffffff) t = negb (Z.testbit w t).
Proof.
  intros Hw. assert (Hb : forall t, 0 <= t -> Z.testbit 0xffffffff t = (t <? 32)).
  { intros t Ht. change 0xffffffff with (Z.ones 32). apply Z.testbit_ones_nonneg; lia. }
  split.
  - split; [apply Z.lxor_nonneg; unfold is_word in *; lia|].
    apply Z.nle_gt. intros Hge. pose proof (Z.log2_le_mono _ _ Hge) as Hl.
    rewrite Z.log2_pow2 in Hl by lia.
    assert (Hbit : Z.testbit (Z.lxor w 0xffffffff) (Z.log2 (Z.lxor w 0xffffffff)) = true)
      by (apply Z.bit_log2; lia).
    rewrite Z.lxor_spec, Hb, word_high in Hbit by (done || lia).
    by destruct (Z.ltb_spec (Z.log2 (Z.lxor w 0xffffffff)) 32); [lia|].
  - intros t Ht. rewrite Z.lxor_spec, Hb by lia. rewrite (proj2 (Z.ltb_lt _ _)) by lia.
    apply xorb_true_r.
Qed.

Lemma addr_invert_spec n :
  addr_wf n ->
  exists r, addr_invert n = Some r /\ af r = af n /\ addr_wf r /\
    forall k, 0 <= k < width (af n) -> addr_bit r k = negb (addr_bit n k).
Proof.
  intros (Hf & Hl & Hw). unfold addr_invert, s_addr.
  destruct (af n) eqn:Ea; [| |done]; (eexists; split; [done|]; split; [by cbn|]; split).
  - unfold addr_wf, zset. cbn. rewrite Ea, length_insert. repeat split; [done|].
    apply Forall_insert; [done|]. by apply word_not, znth_word.
  - intros k Hk. apply width_words in Hk as [Hk _]. unfold addr_bit. cbn [addr32 set_addr32].
    rewrite Hk by done. rewrite znth_zset_eq by (unfold zlen; lia).
    apply word_not; [by apply znth_word|]. pose proof (Z.mod_pos_bound k 32). lia.
  - unfold addr_wf. cbn. rewrite Ea, length_fmap. repeat split; [done|].
    apply Forall_fmap. eapply Forall_impl; [exact Hw|]. intros w. by apply word_not.
  - intros k Hk. apply width_words in Hk as [_ Hk]. unfold addr_bit. cbn [addr32 set_addr32].
    assert (znth ((fun w => Z.lxor w 4294967295) <$> addr32 n) (k / 32) =
      Z.lxor (znth (addr32 n) (k / 32)) 4294967295) as ->.
    { unfold znth. rewrite list_lookup_fmap.
      destruct (addr32 n !! Z.to_nat (k / 32)) eqn:E; [done|].
      apply lookup_ge_None in E. lia. }
    apply word_not; [by apply znth_word|]. pose proof (Z.mod_pos_bound k 32). lia.
Qed.

(** All bits of an address of family [f] in terms of its words. *)
Lemma addr_bits_words (P : Z -> Prop) f :
  f = AF_INET \/ f = AF_INET6 ->
  (forall k, 0 <= k < width f -> P k) <->
  (forall i, 0 <= i < width f / 32 -> forall k, 32 * i <= k < 32 * i + 32 -> P k).
Proof.
  intros Hf. assert (Hw : width f = 32 * (width f / 32)) by by destruct Hf as [-> | ->].
  split.
  - intros HP i Hi k Hk. apply HP. nia.
  - intros HP k Hk. apply (HP (k / 32)).
    + split; [apply Z.div_pos; lia|]. apply Z.div_lt_upper_bound; lia.
    + pose proof (Z_div_mod_eq_full k 32). pose proof (Z.mod_pos_bound k 32). lia.
Qed.

Lemma addr_wf_family a : addr_wf a -> af a = AF_INET \/ af a = AF_INET6.
Proof. intros [Hf _]. destruct (af a); auto. done. Qed.

Lemma all_words_zero l :
  length l = 4%nat -> forallb (fun w => w =? 0) l = true <-> forall i, 0 <= i < 4 -> znth l i = 0.
Proof.
  intros Hl. destruct l as [|w0 [|w1 [|w2 [|w3 [|]]]]]; try discriminate Hl. cbn [forallb].
  rewrite !andb_true_iff, !Z.eqb_eq. split.
  - intros (-> & -> & -> & -> & _) i Hi.
    assert (i = 0 \/ i = 1 \/ i = 2 \/ i = 3) as [->|[->|[->| ->]]] by lia; done.
  - intros Hz. repeat split; [apply (Hz 0)|apply (Hz 1)|apply (Hz 2)|apply (Hz 3)]; lia.
Qed.

Lemma addr_is_all0s_spec a :
  addr_wf a -> addr_is_all0s a = true <-> forall k, 0 <= k < width (af a) -> addr_bit a k = false.
Proof.
  intros Ha. pose proof Ha as (_ & Hl & Hw). pose proof (addr_wf_family _ Ha) as Hf.
  set (z := mk_xaddr (af a) [0; 0; 0; 0] 0).
  assert (Hz : addr_wf z) by (split; [by destruct Hf as [E|E]; cbn; rewrite E|];
    split; [done|]; cbn; repeat (constructor; [unfold is_word; lia|]); constructor).
  assert (Hzw : forall i, znth (addr32 z) i = 0).
  { intros i. cbn. unfold znth. destruct (Z.to_nat i) as [|[|[|[|]]]]; done. }
  assert (Hzb : forall k, addr_bit z k = false) by (intros k; unfold addr_bit; by rewrite Hzw, Z.bits_0).
  assert (Hiff : (forall i, 0 <= i < width (af a) / 32 -> znth (addr32 a) i = 0) <->
                 (forall k, 0 <= k < width (af a) -> addr_bit a k = false)).
  { rewrite (addr_bits_words (fun k => addr_bit a k = false)) by done.
    split; intros Hi i Hr.
    - intros k. pose proof (proj1 (word_eq_bits a z i Ha Hz)) as E. rewrite Hzw in E.
      intros Hk. by rewrite (E (Hi i Hr) k Hk).
    - rewrite <- (Hzw i). apply word_eq_bits; [done|done|]. intros k Hk. rewrite Hzb. by apply (Hi i). }
  rewrite <- Hiff. unfold addr_is_all0s, s_addr. destruct Hf as [E|E]; rewrite E.
  - rewrite Z.eqb_eq. change (width AF_INET / 32) with 1. split.
    + intros H0 i Hi. by replace i with 0 by lia.
    + intros Hi. apply Hi. lia.
  - by apply all_words_zero.
Qed.

(** Bytes of word [i]. *)
Lemma addr8_bit a i t :
  0 <= t < 8 -> 0 <= i -> Z.testbit (addr8 a i) t = addr_bit a (8 * i + (7 - t)).
Proof.
  intros Ht Hi. unfold addr8. rewrite Z.land_spec.
  change 255 with (Z.ones 8). rewrite Z.testbit_ones_nonneg by lia.
  rewrite (proj2 (Z.ltb_lt t 8)) by lia. rewrite andb_true_r, Z.shiftr_spec by lia.
  pose proof (Z.mod_pos_bound i 4 ltac:(lia)). rewrite addr_bit_word by lia.
  f_equal. pose proof (Z_div_mod_eq_full i 4). lia.
Qed.

Lemma addr8_eq a b i :
  0 <= i ->
  addr8 a i = addr8 b i <-> forall k, 8 * i <= k < 8 * i + 8 -> addr_bit a k = addr_bit b k.
Proof.
  intros Hi. split.
  - intros E k Hk. replace k with (8 * i + (7 - (7 - (k - 8 * i)))) by lia.
    rewrite <- !addr8_bit by lia. by rewrite E.
  - intros E. apply Z.bits_inj'. intros t Ht. destruct (decide (t < 8)) as [Ht8|Ht8].
    { rewrite !addr8_bit by lia. apply E. lia. }
    unfold addr8. rewrite !Z.land_spec. change 255 with (Z.ones 8).
    rewrite Z.testbit_ones_nonneg by lia. rewrite (proj2 (Z.ltb_ge t 8)) by lia.
    by rewrite !andb_false_r.
Qed.

Lemma addr_cmp_bytes_spec n i a b :
  0 <= i ->
  addr_cmp_bytes n i a b = 0 <->
  forall k, 8 * i <= k < 8 * (i + Z.of_nat n) -> addr_bit a k = addr_bit b k.
Proof.
  revert i. induction n as [|n IH]; intros i Hi; cbn [addr_cmp_bytes].
  { split; [intros _ k Hk; lia|done]. }
  destruct (Z.eqb_spec (addr8 a i - addr8 b i) 0) as [E|E]; cbn [negb].
  - rewrite IH by lia. assert (E' : addr8 a i = addr8 b i) by lia.
    rewrite addr8_eq in E' by done. split.
    + intros Hk k Hr. destruct (decide (k < 8 * i + 8)); [apply E'; lia|apply Hk; lia].
    + intros Hk k Hr. apply Hk. lia.
  - split; [by destruct (_ >? _)|]. intros Hk. exfalso. apply E.
    cut (addr8 a i = addr8 b i); [lia|]. apply addr8_eq; [done|]. intros k Hr. apply Hk. lia.
Qed.

(** [addr_cmp] returns 0 exactly for equal addresses. *)
Lemma addr_cmp_eq a b :
  addr_wf a -> addr_wf b ->
  addr_cmp a b = 0 <->
  af a = af b /\ (af b = AF_INET6 -> scope_id a = scope_id b) /\
  forall k, 0 <= k < width (af b) -> addr_bit a k = addr_bit b k.
Proof.
  intros Ha Hb. unfold addr_cmp. destruct (decide (af a = af b)) as [Eaf|Hne].
  2: { rewrite bool_decide_eq_false_2 by done. cbn. split; [by case_bool_decide|naive_solver]. }
  rewrite bool_decide_eq_true_2 by done. cbn [negb]. rewrite <- Eaf.
  destruct (addr_wf_family _ Ha) as [E|E]; rewrite E.
  - assert (s_addr a = s_addr b <-> forall k, 0 <= k < width AF_INET -> addr_bit a k = addr_bit b k) as <-.
    { unfold s_addr. rewrite word_eq_bits by done. done. }
    destruct (Z.eqb_spec (s_addr a) (s_addr b)) as [E'|E']; [naive_solver|].
    split; [by destruct (_ >? _)|]. naive_solver.
  - assert (addr_cmp_bytes 16 0 a b = 0 <-> forall k, 0 <= k < width AF_INET6 -> addr_bit a k = addr_bit b k) as <-.
    { rewrite addr_cmp_bytes_spec by done. done. }
    generalize (addr_cmp_bytes 16 0 a b). intros r.
    destruct (Z.eqb_spec r 0) as [->|E']; cbn [negb].
    + destruct (Z.eqb_spec (scope_id a) (scope_id b)); [tauto|].
      split; [by destruct (_ >? _)|tauto].
    + tauto.
Qed.

(** The host part of an address is zero. *)
Lemma addr_host_is_all0s_spec a m :
  addr_wf a -> 0 <= m -> masklen_valid (af a) m = true ->
  addr_host_is_all0s a m = true <->
  forall k, m <= k < width (af a) -> addr_bit a k = false.
Proof.
  intros Ha Hm Hv. unfold addr_host_is_all0s, addr_hostmask.
  destruct (addr_netmask_spec _ _ Hm Hv) as (n & -> & Hfn & Hn & Hbn).
  cbn [mbind option_bind]. destruct (addr_invert_spec n Hn) as (i & -> & Hfi & Hi & Hbi).
  destruct (addr_and_spec a i Ha Hi) as (r & -> & Hfr & _ & Hr & Hbr); [congruence|].
  rewrite addr_is_all0s_spec by done. rewrite Hfr.
  assert (Hbit : forall k, 0 <= k < width (af a) -> addr_bit r k = addr_bit a k && negb (k <? m)).
  { intros k Hk. rewrite Hbr, Hbi, Hbn by congruence. done. }
  split; intros H0 k Hk.
  - specialize (H0 k ltac:(lia)). rewrite Hbit in H0 by lia.
    by rewrite (proj2 (Z.ltb_ge k m)), andb_true_r in H0 by lia.
  - rewrite Hbit by done. destruct (Z.ltb_spec k m); [apply andb_false_r|].
    by rewrite H0 by lia.
Qed.

(** [addr_netmatch] compares the masked host address with the network. *)
Lemma addr_netmatch_bits host net m :
  addr_wf host -> addr_wf net -> 0 <= m -> masklen_valid (af net) m = true ->
  addr_netmatch host net m = 0 <->
  af host = af net /\ (af net = AF_INET6 -> scope_id host = scope_id net) /\
  forall k, 0 <= k < width (af net) -> addr_bit net k = addr_bit host k && (k <? m).
Proof.
  intros Hh Hn Hm Hv. unfold addr_netmatch. destruct (decide (af host = af net)) as [Eaf|Hne].
  2: { rewrite bool_decide_eq_false_2 by done. cbn. split; [done|tauto]. }
  rewrite bool_decide_eq_true_2 by done. cbn [negb]. rewrite Eaf.
  destruct (addr_netmask_spec _ _ Hm Hv) as (n & -> & Hfn & Hnw & Hbn).
  destruct (addr_and_spec host n Hh Hnw) as (r & -> & Hfr & Hs & Hr & Hbr); [congruence|].
  rewrite addr_cmp_eq, Hs by done.
  assert (Hbit : forall k, 0 <= k < width (af net) -> addr_bit r k = addr_bit host k && (k <? m)).
  { intros k Hk. rewrite Hbr, Hbn by congruence. done. }
  split; intros (E1 & E2 & E3); (split; [congruence|]; split; [done|]; intros k Hk).
  - by rewrite <- E3, Hbit.
  - by rewrite E3, Hbit.
Qed.

(** * Networks in CIDR notation *)

(** What the code relies on of getaddrinfo: the addresses it returns are in
    range. *)
Definition sockaddr_wf (sa : sockaddr) : Prop :=
  match sa with
  | Sockaddr_in w => is_word w
  | Sockaddr_in6 l _ => length l = 4%nat /\ Forall is_word l
  | Sockaddr_other _ => True
  end.

Class GoodResolver (R : Getaddrinfo) : Prop :=
  resolver_wf : forall p sa slen, getaddrinfo p = Some (Some (sa, slen)) -> sockaddr_wf sa.

Section networks.
Context `{R : Getaddrinfo} `{!GoodResolver R}.

Lemma addr_pton_wf p x : addr_pton p = Some x -> addr_wf x.
Proof.
  unfold addr_pton. destruct (getaddrinfo p) as [[[sa slen]|]|] eqn:E; [|done..].
  apply resolver_wf in E. destruct sa; cbn in *; [destruct (_ <? _)..|]; try done; intros [= <-].
  - split; [done|]. split; [done|]. unfold zset. cbn.
    repeat (constructor; [first [done|unfold is_word; lia]|]). constructor.
  - split; [done|]. done.
Qed.

Lemma read_digits_nonneg s acc : 0 <= acc -> 0 <= fst (read_digits s acc).
Proof.
  revert acc. induction s as [|c s IH]; intros acc Ha; cbn; [done|].
  unfold isdigit. destruct (Z.leb_spec 48 c); cbn; [|done].
  destruct (Z.leb_spec c 57); cbn; [apply IH; lia|done].
Qed.

Lemma strtoul_range s : 0 <= fst (strtoul s) <= ULONG_MAX.
Proof.
  unfold strtoul. assert (HU : ULONG_MAX = 2 ^ 64 - 1) by done.
  destruct (match skip_space s with [] => _ | _ => _ end) as [neg [|c s']]; [cbn; lia|].
  destruct (isdigit c); [|cbn; lia].
  pose proof (read_digits_nonneg (c :: s') 0 ltac:(lia)) as Hd.
  destruct (read_digits (c :: s') 0) as [v rest]. cbn [fst] in Hd.
  destruct (Z.gtb_spec v ULONG_MAX); cbn [fst]; [lia|].
  destruct neg; [|lia]. pose proof (u64_range (- v)). lia.
Qed.

Lemma pton_cidr_tail_inv buf mp net m :
  (forall k, mp = Some k -> 0 <= k) -> pton_cidr_tail buf mp = CidrOk net m ->
  addr_wf net /\ 0 <= m /\ masklen_valid (af net) m = true /\ addr_host_is_all0s net m = true.
Proof.
  unfold pton_cidr_tail. intros Hmp. destruct (addr_pton buf) as [x|] eqn:E; [|done].
  apply addr_pton_wf in E. cbn zeta.
  destruct (masklen_valid _ _) eqn:Hv; cbn [negb]; [|done].
  destruct (addr_host_is_all0s x _) eqn:H0; cbn [negb]; [|done]. intros [= -> <-].
  split; [done|]. split; [|done]. destruct mp; [by apply Hmp|].
  destruct (addr_wf_family _ E) as [-> | ->]; cbn; lia.
Qed.

Lemma addr_pton_cidr_inv p net m :
  addr_pton_cidr p = CidrOk net m ->
  addr_wf net /\ 0 <= m /\ masklen_valid (af net) m = true /\ addr_host_is_all0s net m = true.
Proof.
  unfold addr_pton_cidr. destruct (_ >=? _); [done|].
  destruct (strchr_split _ _) as [[buf mp]|]; [|by apply pton_cidr_tail_inv].
  pose proof (strtoul_range mp) as Hr. destruct (strtoul mp) as [k cp]. cbn in Hr.
  destruct (_ || _); [done|]. apply pton_cidr_tail_inv. intros ? [= <-]. lia.
Qed.

Lemma netmatch_in_net p host net m :
  addr_pton_cidr p = CidrOk net m -> addr_wf host ->
  (addr_netmatch host net m =? 0) = true <-> in_net host net m.
Proof.
  intros (Hn & Hm & Hv & H0)%addr_pton_cidr_inv Hh.
  rewrite Z.eqb_eq, addr_netmatch_bits by done.
  rewrite addr_host_is_all0s_spec in H0 by done.
  assert (Hw : m <= width (af net)) by (destruct (af net); cbn in *; lia || done).
  unfold in_net. split; intros (E1 & E2 & E3); (split; [done|]; split; [done|]; intros k Hk).
  - rewrite E3 by lia. by rewrite (proj2 (Z.ltb_lt k m)), andb_true_r by lia.
  - destruct (Z.ltb_spec k m) as [Hlt|Hge]; [rewrite andb_true_r; symmetry; apply E3; lia|].
    rewrite andb_false_r. apply H0. lia.
Qed.

(** CIDR matching.  When [addr_pton_cidr] accepts "address/len" as a
    network, the length fits the address family and every address bit behind
    the prefix is zero, and [addr_netmatch] accepts exactly the host addresses
    of the same family and scope whose first [len] bits are those of the
    network. *)
Theorem cidr_match_prefix p net m host :
  addr_pton_cidr p = CidrOk net m -> addr_wf host ->
  0 <= m <= width (af net) /\
  (forall k, m <= k < width (af net) -> addr_bit net k = false) /\
  (addr_netmatch host net m = 0 <-> in_net host net m).
Proof.
  intros Hp Hh. pose proof (netmatch_in_net _ _ _ _ Hp Hh) as Hin. rewrite Z.eqb_eq in Hin.
  apply addr_pton_cidr_inv in Hp as (Hn & Hm & Hv & H0).
  split; [destruct (af net); cbn in *; lia || done|]. split; [|done].
  by apply addr_host_is_all0s_spec.
Qed.

(** * The meaning of an address list *)

Definition entry_neg (t : cstring) : bool :=
  match t with c :: _ => c =? ch_bang | [] => false end.
Definition entry_body (t : cstring) : cstring := if entry_neg t then tail t else t.

Definition entry_valid (t : cstring) : Prop :=
  entry_body t <> [] /\ addr_pton_cidr (entry_body t) <> CidrInconsistent.

(** Whether an entry, its negation aside, covers the address [x] written as
    [a]: as a network, or else as a wildcard pattern. *)
Definition entry_hits (a : cstring) (x : xaddr) (t : cstring) : Prop :=
  match addr_pton_cidr (entry_body t) with
  | CidrOk net m => in_net x net m
  | CidrParse => match_pattern a (entry_body t) = true
  | CidrInconsistent => False
  end.

Definition entry_hitsb (a : cstring) (x : xaddr) (t : cstring) : bool :=
  match addr_pton_cidr (entry_body t) with
  | CidrOk net m => addr_netmatch x net m =? 0
  | CidrParse => match_pattern a (entry_body t)
  | CidrInconsistent => false
  end.

Definition entry_validb (t : cstring) : bool :=
  match entry_body t, addr_pton_cidr (entry_body t) with
  | [], _ | _, CidrInconsistent => false
  | _, _ => true
  end.

Lemma entry_hitsb_spec a x t : addr_wf x -> entry_hitsb a x t = true <-> entry_hits a x t.
Proof.
  intros Hx. unfold entry_hits, entry_hitsb.
  destruct (addr_pton_cidr (entry_body t)) eqn:E; [|done..]. by eapply netmatch_in_net.
Qed.

Lemma entry_validb_spec t : entry_validb t = true <-> entry_valid t.
Proof.
  unfold entry_valid, entry_validb.
  destruct (entry_body t), (addr_pton_cidr _); split; (done || by intros [? ?]).
Qed.

(** One round of the loop. *)
Lemma addr_match_loop_step a x t ts ret :
  addr_match_loop (Some (a, x)) (t :: ts) ret =
    if negb (entry_validb t) then -2
    else if entry_hitsb a x t then
      if entry_neg t then -1 else addr_match_loop (Some (a, x)) ts 1
    else addr_match_loop (Some (a, x)) ts ret.
Proof.
  cbn [addr_match_loop]. unfold entry_validb, entry_hitsb, entry_body, entry_neg.
  destruct t as [|c t]; [done|]. destruct (c =? ch_bang); cbn [tail].
  - destruct t; [done|]. by destruct (addr_pton_cidr _).
  - by destruct (addr_pton_cidr _).
Qed.

Lemma addr_match_loop_spec a x ts ret :
  addr_wf x -> 0 <= ret <= 1 ->
  (addr_match_loop (Some (a, x)) ts ret = 1 <->
    Forall (fun t => entry_valid t /\ ~ (entry_neg t = true /\ entry_hits a x t)) ts /\
    (ret = 1 \/ Exists (fun t => entry_neg t = false /\ entry_hits a x t) ts)) /\
  (addr_match_loop (Some (a, x)) ts ret = -1 <->
    exists l1 t l2, ts = l1 ++ t :: l2 /\
      Forall (fun t => entry_valid t /\ ~ (entry_neg t = true /\ entry_hits a x t)) l1 /\
      entry_valid t /\ entry_neg t = true /\ entry_hits a x t).
Proof.
  intros Hx. revert ret. induction ts as [|t ts IH]; intros ret Hret.
  { cbn. split; split; [|intros [_ [->|H]]; [done|inversion H]|lia|].
    - intros ->. split; [constructor|by left].
    - intros ([|] & ? & ? & ? & _); done. }
  rewrite addr_match_loop_step. rewrite Forall_cons, Exists_cons.
  destruct (entry_validb t) eqn:Ev; cbn [negb].
  2: { assert (Hnv : ~ entry_valid t) by (rewrite <- entry_validb_spec; congruence).
       split; split; [done|tauto|done|]. intros ([|t' l1] & u & l2 & [= -> ->] & Hl & Hu & _); [done|].
       inversion Hl; tauto. }
  apply entry_validb_spec in Ev. destruct (entry_hitsb a x t) eqn:Eh.
  - apply entry_hitsb_spec in Eh; [|done]. destruct (entry_neg t) eqn:En.
    + split; split; [done|tauto| |done]. intros _. exists [], t, ts.
      split; [done|]. split; [constructor|done].
    + assert (Hok : entry_valid t /\ ~ (false = true /\ entry_hits a x t)) by (split; [done|by intros [? _]]).
      destruct (IH 1 ltac:(lia)) as [IH1 IH2]. rewrite IH1, IH2. split; split.
      * tauto.
      * tauto.
      * intros (l1 & u & l2 & -> & Hl & Hu). exists (t :: l1), u, l2.
        split; [done|]. split; [|done]. constructor; [by rewrite En|done].
      * intros ([|t' l1] & u & l2 & [= -> ->] & Hl & Hu); [rewrite En in Hu; by destruct Hu as (_ & ? & _)|].
        inversion Hl. exists l1, u, l2. tauto.
  - assert (Hnh : ~ entry_hits a x t) by (rewrite <- entry_hitsb_spec by done; congruence).
    destruct (IH ret Hret) as [IH1 IH2]. rewrite IH1, IH2. split; split.
    + tauto.
    + tauto.
    + intros (l1 & u & l2 & -> & Hl & Hu). exists (t :: l1), u, l2.
      split; [done|]. split; [|done]. constructor; [|done]. tauto.
    + intros ([|t' l1] & u & l2 & [= -> ->] & Hl & Hu); [tauto|].
      inversion Hl. exists l1, u, l2. tauto.
Qed.

(** The meaning of an address list.  For an address that parses, the list
    matches (1) exactly when every entry is well formed, no negated entry covers
    the address and some other entry does; it is a negated match (-1) exactly
    when a negated entry covers the address and no earlier entry is malformed or
    does so.  An entry covers an address as a CIDR network, or as a wildcard
    pattern when it is not one. *)
Theorem addr_match_list_meaning `{Allocator} a x list :
  malloc_ok (zlen list + 1) = true -> addr_pton a = Some x ->
  (addr_match_list (Some a) list = 1 <->
    Forall (fun t => entry_valid t /\ ~ (entry_neg t = true /\ entry_hits a x t)) (tokens list) /\
    Exists (fun t => entry_neg t = false /\ entry_hits a x t) (tokens list)) /\
  (addr_match_list (Some a) list = -1 <->
    exists l1 t l2, tokens list = l1 ++ t :: l2 /\
      Forall (fun t => entry_valid t /\ ~ (entry_neg t = true /\ entry_hits a x t)) l1 /\
      entry_valid t /\ entry_neg t = true /\ entry_hits a x t).
Proof.
  intros Hm Hx. unfold addr_match_list. rewrite Hx, Hm. cbn [negb].
  destruct (addr_match_loop_spec a x (tokens list) 0 (addr_pton_wf _ _ Hx) ltac:(lia)) as [-> ->].
  split; [|done]. naive_solver.
Qed.

(** * Hosts and users *)

(** A nonnegative result: no negated entry covers the address. *)
Lemma addr_match_loop_nonneg a x ts ret :
  addr_wf x -> 0 <= ret <= 1 ->
  -2 <= addr_match_loop (Some (a, x)) ts ret <= 1 /\
  (0 <= addr_match_loop (Some (a, x)) ts ret ->
   Forall (fun t => ~ (entry_neg t = true /\ entry_hits a x t)) ts).
Proof.
  intros Hx. revert ret. induction ts as [|t ts IH]; intros ret Hret; [cbn; split; [lia|constructor]|].
  rewrite addr_match_loop_step. destruct (entry_validb t); cbn [negb]; [|split; [lia|done]].
  pose proof (entry_hitsb_spec a x t Hx) as Hh. destruct (entry_hitsb a x t).
  - destruct (entry_neg t) eqn:En; [split; [lia|done]|].
    destruct (IH 1 ltac:(lia)) as [Hr Hf]. split; [done|]. intros H0.
    constructor; [by intros [? _]; congruence|by apply Hf].
  - destruct (IH ret Hret) as [Hr Hf]. split; [done|]. intros H0.
    constructor; [|by apply Hf]. intros [_ ?%Hh]. done.
Qed.

Lemma addr_match_list_nonneg `{Allocator} a list :
  -2 <= addr_match_list (Some a) list <= 1 /\
  (0 <= addr_match_list (Some a) list -> forall x, addr_pton a = Some x ->
   Forall (fun t => ~ (entry_neg t = true /\ entry_hits a x t)) (tokens list)).
Proof.
  unfold addr_match_list. destruct (addr_pton a) as [x|] eqn:Hx; [|split; [lia|done]].
  destruct (malloc_ok _); cbn [negb]; [|split; [lia|done]].
  destruct (addr_match_loop_nonneg a x (tokens list) 0 (addr_pton_wf _ _ Hx) ltac:(lia)) as [Hr Hf].
  split; [done|]. intros H0 ? [= <-]. by apply Hf.
Qed.

(** Access by user@host patterns.  If [match_user] grants a match for a
    pattern "user@hosts", the user pattern matches the user, no negated entry of
    the host list matches the host name or covers the address, and some positive
    entry matches the host name or covers the address. *)
Theorem match_user_grant `{Allocator} user host ip pat hosts :
  Forall (fun e => (List.length (pe_pat e) < SUB_MAX)%nat) (list_entries true hosts) ->
  Forall (fun c => c <> ch_at) pat ->
  match_user (Some user) (Some host) (Some ip) (pat ++ ch_at :: hosts) = 1 ->
  match_pattern user pat = true /\
  Forall (fun e => ~ (pe_neg e = true /\ entry_matches (lowercase host) e = true))
    (list_entries true hosts) /\
  (forall x, addr_pton ip = Some x ->
    Forall (fun t => ~ (entry_neg t = true /\ entry_hits ip x t)) (tokens hosts)) /\
  (Exists (fun e => pe_neg e = false /\ entry_matches (lowercase host) e = true)
     (list_entries true hosts) \/
   exists x, addr_pton ip = Some x /\
     Exists (fun t => entry_neg t = false /\ entry_hits ip x t) (tokens hosts)).
Proof.
  intros Hes Hpat. unfold match_user.
  assert (strchr_split ch_at (pat ++ ch_at :: hosts) = Some (pat, hosts)) as ->.
  { clear -Hpat. induction Hpat as [|c pat Hc _ IH]; [done|]. cbn [app strchr_split].
    rewrite (proj2 (Z.eqb_neq _ _) Hc). by rewrite IH. }
  destruct (match_pattern user pat); [|done]. unfold match_host_and_ip.
  remember (addr_match_list (Some ip) hosts) as mip eqn:Emip.
  destruct (Z.eqb_spec mip (-2)); [done|]. destruct (Z.eqb_spec mip (-1)); [done|].
  unfold match_hostname, match_pattern_list. rewrite match_pattern_list_fuel, eval_entries_spec by done.
  destruct (existsb (fun e => pe_neg e && _) _) eqn:En; [done|]. intros Hg.
  destruct (addr_match_list_nonneg ip hosts) as [Hr Hf]. rewrite <- Emip in Hr, Hf.
  split; [done|]. split.
  { apply Forall_forall. intros e He [Hn Hm].
    assert (existsb (fun e => pe_neg e && entry_matches (lowercase host) e) (list_entries true hosts) = true)
      as E; [|congruence].
    apply existsb_exists. exists e. split; [by apply list_elem_of_In|]. by rewrite Hn, Hm. }
  split; [apply Hf; lia|].
  destruct (existsb (fun e => negb (pe_neg e) && _) _) eqn:Ep.
  - left. apply existsb_exists in Ep as (e & He%list_elem_of_In & [Hn Hm]%andb_prop).
    apply Exists_exists. exists e. split; [done|]. split; [by destruct (pe_neg e)|done].
  - right. destruct (Z.eqb_spec mip 0) as [|Hm0]; [done|].
    assert (mip = 1) as -> by lia. symmetry in Emip. unfold addr_match_list in Emip.
    destruct (addr_pton ip) as [x|] eqn:Ex; [|done]. exists x. split; [done|].
    destruct (malloc_ok _); cbn [negb] in Emip; [|done].
    apply addr_match_loop_spec in Emip as [_ [?|?]]; [done|done|by eapply addr_pton_wf|lia].
Qed.

(** * CIDR lists *)

(** An entry of a CIDR list that parses as a network. *)
Definition cidr_entry (t : cstring) : Prop :=
  t <> [] /\ zlen t <= INET6_ADDRSTRLEN + 3 /\ exists net m, addr_pton_cidr t = CidrOk net m.

Definition cidr_covers (x : xaddr) (t : cstring) : Prop :=
  exists net m, addr_pton_cidr t = CidrOk net m /\ in_net x net m.

Lemma addr_match_cidr_loop_spec x ts ret :
  addr_wf x -> Forall (fun t => cidr_chars t = true) ts ->
  addr_match_cidr_loop (Some x) ts ret = 1 <->
  Forall cidr_entry ts /\ (ret = 1 \/ Exists (cidr_covers x) ts).
Proof.
  intros Hx Hts. revert ret. induction Hts as [|t ts Hc Hts IH]; intros ret; cbn [addr_match_cidr_loop].
  { split; [intros ->; auto|]. intros [_ [|H]]; [done|inversion H]. }
  rewrite Forall_cons, Exists_cons. destruct t as [|c t].
  { split; [done|]. intros [[(? & _) _] _]. done. }
  unfold cidr_entry at 1, cidr_covers at 1.
  destruct (Z.gtb_spec (zlen (c :: t)) (INET6_ADDRSTRLEN + 3)) as [Hlen|Hlen].
  { split; [done|]. intros [[(_ & ? & _) _] _]. lia. }
  rewrite Hc. cbn [negb]. destruct (addr_pton_cidr (c :: t)) as [net m| |] eqn:E.
  2, 3: split; [done|]; intros [[(_ & _ & ? & ? & ?) _] _]; done.
  rewrite IH. pose proof (netmatch_in_net _ _ _ _ E Hx) as Hin.
  assert (Hn : (exists net' m', CidrOk net m = CidrOk net' m' /\ in_net x net' m') <-> in_net x net m).
  { split; [by intros (? & ? & [= -> ->] & ?)|]. intros Hi. by exists net, m. }
  rewrite Hn. assert (He : c :: t <> [] /\ zlen (c :: t) <= INET6_ADDRSTRLEN + 3 /\
    exists net' m', CidrOk net m = CidrOk net' m') by (split; [done|]; split; [done|]; by exists net, m).
  destruct (addr_netmatch x net m =? 0).
  - pose proof (proj1 Hin eq_refl). tauto.
  - assert (~ in_net x net m) by by rewrite <- Hin. tauto.
Qed.

(** CIDR lists (the source-address restriction of certificates and keys).
    When the entries consist of the permitted characters, an address that parses
    is accepted exactly when every entry is a well-formed network of at most 49
    characters and one of them contains the address. *)
Theorem addr_match_cidr_list_meaning `{Allocator} a x list :
  malloc_ok (zlen list + 1) = true -> addr_pton a = Some x ->
  Forall (fun t => cidr_chars t = true) (tokens list) ->
  addr_match_cidr_list (Some a) list = 1 <->
  Forall cidr_entry (tokens list) /\ Exists (cidr_covers x) (tokens list).
Proof.
  intros Hm Hx Hc. unfold addr_match_cidr_list. rewrite Hx, Hm. cbn [negb].
  rewrite addr_match_cidr_loop_spec by (done || by eapply addr_pton_wf). naive_solver.
Qed.

Lemma in_net_refl x m : in_net x x m.
Proof. by split. Qed.

Lemma tokens_no_comma_single s : no_comma s -> tokens s = [s].
Proof. intros Hs. rewrite <- (tokens_join [s]) by (done || by constructor). done. Qed.

Lemma strchr_split_app c l r :
  Forall (fun x => x <> c) l -> strchr_split c (l ++ c :: r) = Some (l, r).
Proof.
  induction 1 as [|x l Hx _ IH]; cbn [app strchr_split]; [by rewrite Z.eqb_refl|].
  by rewrite (proj2 (Z.eqb_neq _ _) Hx), IH.
Qed.

(** The character check of a CIDR list does not reject.  For every IPv4
    address [a] that the resolver accepts, the entry "a/+32" contains the
    character '+', which is not permitted, and [addr_match_cidr_list] reports it
    as a match. *)
Theorem addr_match_cidr_list_junk `{Allocator} a x :
  malloc_ok (zlen (a ++ str "/+32") + 1) = true ->
  addr_pton a = Some x -> af x = AF_INET ->
  a <> [] -> zlen a <= INET6_ADDRSTRLEN - 1 -> cidr_chars a = true ->
  Forall (fun c => c <> ch_slash) a ->
  cidr_chars (a ++ str "/+32") = false /\
  addr_match_cidr_list (Some a) (a ++ str "/+32") = 1.
Proof.
  intros Hm Hx Hf Ha Hlen Hc Hs. pose proof (addr_pton_wf _ _ Hx) as Hw.
  split; [unfold cidr_chars; rewrite forallb_app; by rewrite andb_false_r|].
  assert (Hcomma : no_comma (a ++ str "/+32")).
  { apply Forall_app. split; [|repeat constructor; done].
    unfold cidr_chars in Hc. rewrite forallb_forall in Hc. apply Forall_forall.
    intros c Hin%list_elem_of_In%Hc ->. done. }
  assert (Hz : addr_host_is_all0s x 32 = true).
  { apply addr_host_is_all0s_spec; [done|done|by rewrite Hf|]. rewrite Hf. cbn. lia. }
  assert (Hcidr : addr_pton_cidr (a ++ str "/+32") = CidrOk x 32).
  { unfold addr_pton_cidr. assert (Hl : zlen (a ++ str "/+32") = zlen a + 4) by zlia.
    rewrite Hl. unfold INET6_ADDRSTRLEN in Hlen. destruct (Z.geb_spec (zlen a + 4) 64); [lia|].
    change (str "/+32") with (ch_slash :: str "+32"). rewrite strchr_split_app by done.
    change (strtoul (str "+32")) with (32, @nil Z).
    change (pton_cidr_tail a (Some 32) = CidrOk x 32). unfold pton_cidr_tail. rewrite Hx, Hf, Hz.
    done. }
  unfold addr_match_cidr_list. rewrite Hx, Hm, tokens_no_comma_single by done. cbn [negb].
  unfold addr_match_cidr_loop. rewrite Hcidr. destruct (a ++ str "/+32") as [|c s] eqn:E; [by destruct a|].
  rewrite <- E. assert (Hl : zlen (a ++ str "/+32") = zlen a + 4) by zlia. rewrite Hl.
  unfold INET6_ADDRSTRLEN in *. destruct (Z.gtb_spec (zlen a + 4) (46 + 3)); [lia|].
  by rewrite (proj2 (netmatch_in_net _ _ _ _ Hcidr Hw) (in_net_refl x 32)).
Qed.

End networks.

(** * A concrete resolver *)

Definition demo_resolver : Getaddrinfo := fun s =>
  if bool_decide (s = str "10.1.2.3") then Some (Some (Sockaddr_in 0x0a010203, 16))
  else if bool_decide (s = str "10.1.0.0") then Some (Some (Sockaddr_in 0x0a010000, 16))
  else if bool_decide (s = str "fe80::") then Some (Some (Sockaddr_in6 [0xfe800000; 0; 0; 0] 0, 28))
  else None.

Lemma demo_resolver_good : GoodResolver demo_resolver.
Proof.
  intros p sa slen. unfold getaddrinfo, demo_resolver.
  repeat case_bool_decide; intros [= <- <-]; cbn; unfold is_word; try lia.
  split; [done|]. repeat (constructor; [lia|]). constructor.
Qed.

Definition demo_addr : xaddr := mk_xaddr AF_INET [0x0a010203; 0; 0; 0] 0.
Definition demo_net : xaddr := mk_xaddr AF_INET [0x0a010000; 0; 0; 0] 0.

Lemma demo_addr_wf : addr_wf demo_addr.
Proof. split; [done|]. split; [done|]. repeat (constructor; [unfold is_word; lia|]). constructor. Qed.

Lemma cidr_match_prefix_witness :
  @addr_pton_cidr demo_resolver (str "10.1.0.0/16") = CidrOk demo_net 16 /\
  (addr_netmatch demo_addr demo_net 16 = 0 <-> in_net demo_addr demo_net 16) /\
  addr_netmatch demo_addr demo_net 16 = 0 /\
  @addr_pton_cidr demo_resolver (str "10.1.2.3/16") = CidrInconsistent.
Proof.
  split; [reflexivity|]. split; [|split; reflexivity].
  apply (@cidr_match_prefix demo_resolver demo_resolver_good (str "10.1.0.0/16") demo_net 16
           demo_addr eq_refl demo_addr_wf).
Defined.

Lemma addr_match_list_meaning_witness :
  Forall (fun t => @entry_valid demo_resolver t /\
    ~ (entry_neg t = true /\ @entry_hits demo_resolver (str "10.1.2.3") demo_addr t))
    [str "!fe80::/10"; str "10.1.0.0/16"].
Proof.
  apply (proj1 (@addr_match_list_meaning demo_resolver demo_resolver_good alloc_all
    (str "10.1.2.3") demo_addr (str "!fe80::/10,10.1.0.0/16") eq_refl eq_refl)).
  vm_compute. reflexivity.
Defined.

Lemma match_user_grant_witness :
  match_pattern (str "root") (str "ro*") = true.
Proof.
  refine (proj1 (@match_user_grant demo_resolver demo_resolver_good alloc_all (str "root")
    (str "a.example.org") (str "10.1.2.3") (str "ro*") (str "10.1.0.0/16") _ _ _)).
  - repeat constructor.
  - repeat constructor; discriminate.
  - vm_compute. reflexivity.
Defined.

Lemma addr_match_cidr_list_meaning_witness :
  Exists (@cidr_covers demo_resolver demo_addr) [str "fe80::/10"; str "10.1.0.0/16"].
Proof.
  refine (proj2 (proj1 (@addr_match_cidr_list_meaning demo_resolver demo_resolver_good alloc_all
    (str "10.1.2.3") demo_addr (str "fe80::/10,10.1.0.0/16") eq_refl eq_refl _) _)).
  - repeat constructor.
  - vm_compute. reflexivity.
Defined.

Lemma addr_match_cidr_list_junk_witness :
  @addr_match_cidr_list demo_resolver alloc_all (Some (str "10.1.2.3")) (str "10.1.2.3/+32") = 1.
Proof.
  refine (proj2 (@addr_match_cidr_list_junk demo_resolver demo_resolver_good alloc_all
    (str "10.1.2.3") demo_addr eq_refl eq_refl eq_refl _ _ _ _)); try discriminate;
    [reflexivity|repeat constructor; discriminate].
Defined.
