(* ===== verification/Misc.v ===== *)
(** Parsing helpers of misc.c: numbers, times, host and port, URIs, and the options
    of an authorized_keys line.

    A C string is the list of its bytes before the NUL.  A function that moves a
    pointer into a string returns the rest of the string; one that cuts a string
    by writing a NUL returns the parts.  Service names (getservbyname) and the
    conversion of calendar times (strptime, mktime) are parameters. *)

From Stdlib Require Import String.
From stdpp Require Import pretty.
From S2P Require Import Prelude Sshbuf SshbufGetPut Match AddrMatch.
Local Open Scope Z_scope.

Definition LONG_MAX : Z := 2 ^ 63 - 1.
Definition LONG_MIN : Z := - 2 ^ 63.

(** The port of a TCP service. *)
Class Services := getservbyname : cstring -> option Z.

(** [strptime] with a format, then [mktime]; [None] when the text does not have the
    format. *)
Class TimeLib := mktime_of : cstring -> cstring -> option Z.

(** * Numbers *)

(** strtol(3) and strtoll(3) in base 10 (both are 64 bits wide): the value, whether
    it was out of range, and the string at [endptr]. *)
Definition strtol (nptr : cstring) : Z * bool * cstring :=
  let s := skip_space nptr in
  let '(neg, s) :=
    match s with
    | c :: s' => if c =? 45 then (true, s') else if c =? 43 then (false, s') else (false, s)
    | [] => (false, [])
    end in
  match s with
  | c :: _ =>
      if isdigit c then
        let '(v, rest) := read_digits s 0 in
        let v := if neg then - v else v in
        if v >? LONG_MAX then (LONG_MAX, true, rest)
        else if v <? LONG_MIN then (LONG_MIN, true, rest)
        else (v, false, rest)
      else (0, false, nptr)
  | [] => (0, false, nptr)
  end.

(** [None] when [errstr] is set. *)
Definition strtonum (numstr : cstring) (minval maxval : Z) : option Z :=
  if minval >? maxval then None
  else
    let '(ll, erange, ep) := strtol numstr in
    if (zlen ep =? zlen numstr) || negb (zlen ep =? 0) then None
    else if ((ll =? LONG_MIN) && erange) || (ll <? minval) then None
    else if ((ll =? LONG_MAX) && erange) || (ll >? maxval) then None
    else Some ll.

Definition a2port `{Services} (s : cstring) : Z :=
  match strtonum s 0 65535 with
  | Some port => port
  | None => match getservbyname s with Some port => port | None => -1 end
  end.

Definition strcasecmp_eq (a b : cstring) : bool := bool_decide (lowercase a = lowercase b).

Definition SSH_TUNID_ANY : Z := 0x7fffffff.
Definition SSH_TUNID_ERR : Z := SSH_TUNID_ANY - 1.
Definition SSH_TUNID_MAX : Z := SSH_TUNID_ANY - 2.

(** [a2tun] with no [remote]. *)
Definition a2tun_local (s : cstring) : Z :=
  if strcasecmp_eq s (str "any") then SSH_TUNID_ANY
  else match strtonum s 0 SSH_TUNID_MAX with Some tun => tun | None => SSH_TUNID_ERR end.

(** The result and [*remote]. *)
Definition a2tun (s : cstring) : Z * Z :=
  match strchr_split 58 s with
  | None => (a2tun_local s, SSH_TUNID_ANY)
  | Some (sp, ep) =>
      let remote := a2tun_local ep in
      (if remote =? SSH_TUNID_ERR then remote else a2tun_local sp, remote)
  end.

(** ** Times *)

Definition MINUTES : Z := 60.
Definition HOURS : Z := MINUTES * 60.
Definition DAYS : Z := HOURS * 24.
Definition WEEKS : Z := DAYS * 7.

(** The multiplier and the string after the qualifier. *)
Definition qualifier (endp : cstring) : option (Z * cstring) :=
  match endp with
  | [] => Some (1, [])
  | c :: p =>
      if (c =? 115) || (c =? 83) then Some (1, p)
      else if (c =? 109) || (c =? 77) then Some (MINUTES, p)
      else if (c =? 104) || (c =? 72) then Some (HOURS, p)
      else if (c =? 100) || (c =? 68) then Some (DAYS, p)
      else if (c =? 119) || (c =? 87) then Some (WEEKS, p)
      else None
  end.

(** Every round takes a digit from the string, so [fuel] is its length. *)
Fixpoint convtime_loop (fuel : nat) (p : cstring) (total : Z) : Z :=
  match fuel with
  | O => total
  | S fuel =>
      if zlen p =? 0 then total
      else
        let '(secs, erange, endp) := strtol p in
        if (zlen endp =? zlen p) || (erange && ((secs =? LONG_MIN) || (secs =? LONG_MAX))) || (secs <? 0) then -1
        else
          match qualifier endp with
          | None => -1
          | Some (multiplier, p) =>
              if secs >=? LONG_MAX / multiplier then -1
              else
                let secs := secs * multiplier in
                if total >=? LONG_MAX - secs then -1
                else if total + secs <? 0 then -1
                else convtime_loop fuel p (total + secs)
          end
  end.
Definition convtime (s : cstring) : Z := if zlen s =? 0 then -1 else convtime_loop (length s) s 0.

(** [0] for success is [Some]; the text is cut into the fields of the format. *)
Definition parse_absolute_time `{TimeLib} (s : cstring) : option Z :=
  let f o n := slice o n s in
  match (if zlen s =? 8 then Some (f 0 4 ++ str "-" ++ f 4 2 ++ str "-" ++ f 6 2, str "%Y-%m-%d")
         else if zlen s =? 12 then
           Some (f 0 4 ++ str "-" ++ f 4 2 ++ str "-" ++ f 6 2 ++ str "T" ++ f 8 2 ++ str ":" ++ f 10 2, str "%Y-%m-%dT%H:%M")
         else if zlen s =? 14 then
           Some (f 0 4 ++ str "-" ++ f 4 2 ++ str "-" ++ f 6 2 ++ str "T" ++ f 8 2 ++ str ":" ++ f 10 2 ++ str ":" ++ f 12 2,
             str "%Y-%m-%dT%H:%M:%S")
         else None) with
  | None => None
  | Some (buf, fmt) =>
      match mktime_of buf fmt with
      | None => None
      | Some t => if t <? 0 then None else Some (u64 t)
      end
  end.

(** * Hosts and ports *)

(** strpbrk with two characters: what is before the first of them, the character
    and what follows. *)
Fixpoint strpbrk2 (a b : Z) (s : cstring) : option (cstring * Z * cstring) :=
  match s with
  | [] => None
  | c :: s' =>
      if (c =? a) || (c =? b) then Some ([], c, s')
      else match strpbrk2 a b s' with None => None | Some (l, d, r) => Some (c :: l, d, r) end
  end.

(** The field before the delimiter, the delimiter and the string that follows it
    ([None] in the last field). *)
Definition hpdelim2 (s : cstring) : option (cstring * option (Z * cstring)) :=
  match s with
  | 91 :: _ =>
      match strchr_split 93 s with
      | None => None
      | Some (host, rest) =>
          match rest with
          | [] => Some (host ++ [93], None)
          | d :: rest => if (d =? 58) || (d =? 47) then Some (host ++ [93], Some (d, rest)) else None
          end
      end
  | _ =>
      match strpbrk2 58 47 s with
      | None => Some (s, None)
      | Some (host, d, rest) => Some (host, Some (d, rest))
      end
  end.
Definition hpdelim (s : cstring) : option (cstring * option cstring) :=
  match hpdelim2 s with None => None | Some (host, r) => Some (host, snd <$> r) end.

Definition cleanhostname (host : cstring) : cstring :=
  match host with
  | 91 :: h => if znth host (zlen host - 1) =? 93 then ztake (zlen host - 2) h else host
  | _ => host
  end.

Definition SSH_DEFAULT_PORT : Z := 22.
Definition put_host_port (host : cstring) (port : Z) : cstring :=
  if (port =? 0) || (port =? SSH_DEFAULT_PORT) then host
  else [91] ++ host ++ [93; 58] ++ str (pretty port).

(** strrchr: the parts before and behind the last [c]. *)
Fixpoint strrchr_split (c : Z) (s : cstring) : option (cstring * cstring) :=
  match s with
  | [] => None
  | x :: s' =>
      match strrchr_split c s' with
      | Some (l, r) => Some (x :: l, r)
      | None => if x =? c then Some ([], s') else None
      end
  end.

(** The position of the colon behind the host in [user@]host:path. *)
Fixpoint colon_loop (flag : bool) (before cp : cstring) : option (cstring * cstring) :=
  match cp with
  | [] => None
  | c :: rest =>
      let next := match rest with d :: _ => d | [] => 0 end in
      let flag := flag || ((c =? 64) && (next =? 91)) in
      if (c =? 93) && (next =? 58) && flag then Some (before ++ [c], tail rest)
      else if (c =? 58) && negb flag then Some (before, rest)
      else if c =? 47 then None
      else colon_loop flag (before ++ [c]) rest
  end.
(** What is before and behind that colon. *)
Definition colon (cp : cstring) : option (cstring * cstring) :=
  match cp with
  | c :: _ => if c =? 58 then None else colon_loop (c =? 91) [] cp
  | [] => None
  end.

(** User, host and path. *)
Definition parse_user_host_path (s : cstring) : option (option cstring * cstring * cstring) :=
  match colon s with
  | None => None
  | Some (sdup, path) =>
      let path := match path with [] => str "." | _ => path end in
      match strrchr_split 64 sdup with
      | Some (user, host) => Some (match user with [] => None | _ => Some user end, cleanhostname host, path)
      | None => Some (None, cleanhostname sdup, path)
      end
  end.

(** User, host and port ([-1] when there is none). *)
Definition parse_user_host_port `{Services} (s : cstring) : option (option cstring * cstring * Z) :=
  match (match strrchr_split 64 s with
         | Some ([], _) => None
         | Some (user, tmp) => Some (Some user, tmp)
         | None => Some (None, s)
         end) with
  | None => None
  | Some (user, tmp) =>
      match hpdelim tmp with
      | None | Some ([], _) => None
      | Some (cp, tmp) =>
          let host := cleanhostname cp in
          match tmp with
          | None | Some [] => Some (user, host, -1)
          | Some tmp => let port := a2port tmp in if port <=? 0 then None else Some (user, host, port)
          end
      end
  end.

(** ** URIs *)

Definition hexdigit (c : Z) : option Z :=
  if (48 <=? c) && (c <=? 57) then Some (c - 48)
  else if (97 <=? c) && (c <=? 102) then Some (c - 97 + 10)
  else if (65 <=? c) && (c <=? 70) then Some (c - 65 + 10)
  else None.
Definition hexchar (a b : Z) : option Z :=
  match hexdigit a, hexdigit b with Some x, Some y => Some (Z.lor (Z.shiftl x 4) y) | _, _ => None end.

(** The bytes that are written; a %00 ends the string for its reader. *)
Fixpoint urldecode_bytes (src : cstring) : option cstring :=
  match src with
  | [] => Some []
  | c :: rest =>
      if c =? 37 then
        match rest with
        | a :: b :: rest =>
            match hexchar a b with
            | Some ch => (fun l => ch :: l) <$> urldecode_bytes rest
            | None => None
            end
        | _ => None
        end
      else (fun l => c :: l) <$> urldecode_bytes rest
  end.
Definition urldecode (src : cstring) : option cstring := cstr <$> urldecode_bytes src.

Definition isalpha (c : Z) : bool := ((65 <=? c) && (c <=? 90)) || ((97 <=? c) && (c <=? 122)).
Definition isalnum (c : Z) : bool := isalpha c || isdigit c.

Fixpoint domain_chars (last : Z) (name : cstring) : bool :=
  match name with
  | [] => true
  | c :: name =>
      let c := tolower c in
      if (last =? 46) && (c =? 46) then false
      else if negb (c =? 46) && negb (c =? 45) && negb (isalnum c) && negb (c =? 95) then false
      else domain_chars c name
  end.

(** The name as it is left in place, for a valid domain. *)
Definition valid_domain (name : cstring) (makelower : bool) : option cstring :=
  match name with
  | [] => None
  | c :: _ =>
      if negb (isalpha c) && negb (isdigit c) then None
      else if negb (domain_chars 0 name) then None
      else
        let name := if makelower then lowercase name else name in
        Some (if znth name (zlen name - 1) =? 46 then ztake (zlen name - 1) name else name)
  end.

Inductive uri_result := UriOther | UriInvalid | UriOk (user : option cstring) (host : cstring) (port : Z) (path : option cstring).

(** The text after the host: port and path. *)
Definition uri_port_path `{Services} (ch : Z) (tmp : cstring) : option (Z * option cstring) :=
  match (if ch =? 58 then
           let '(digits, rest) := match strchr_split 47 tmp with Some (d, r) => (d, Some r) | None => (tmp, None) end in
           let port := a2port digits in
           if port <=? 0 then None else Some (port, rest)
         else Some (-1, Some tmp)) with
  | None => None
  | Some (port, None) | Some (port, Some []) => Some (port, None)
  | Some (port, Some tmp) => match urldecode tmp with None => None | Some path => Some (port, Some path) end
  end.

Definition parse_uri `{Services} (scheme uri : cstring) : uri_result :=
  let len := zlen scheme in
  if negb (bool_decide (ztake len uri = scheme)) || negb (bool_decide (slice len 3 uri = str "://")) then UriOther
  else
    let tmp := zdrop (len + 3) uri in
    match (match strchr_split 64 tmp with
           | Some (info, tmp) =>
               let name := match strchr_split 59 info with Some (n, _) => n | None => info end in
               match name with
               | [] => None
               | _ => match urldecode name with None => None | Some user => Some (Some user, tmp) end
               end
           | None => Some (None, tmp)
           end) with
    | None => UriInvalid
    | Some (user, tmp) =>
        match hpdelim2 tmp with
        | None | Some ([], _) => UriInvalid
        | Some (cp, rest) =>
            match valid_domain (cleanhostname cp) false with
            | None => UriInvalid
            | Some host =>
                match rest with
                | None | Some (_, []) => UriOk user host (-1) None
                | Some (ch, tmp) =>
                    match uri_port_path ch tmp with
                    | None => UriInvalid
                    | Some (port, path) => UriOk user host port path
                    end
                end
            end
        end
    end.

(** * Options of an authorized_keys line *)

Fixpoint env_chars (name : cstring) : bool :=
  match name with [] => true | c :: name => (isalnum c || (c =? 95)) && env_chars name end.
Definition valid_env_name (name : cstring) : bool := match name with [] => false | _ => env_chars name end.

(** [strncasecmp (s, term, strlen (term)) == 0]: what follows the term. *)
Fixpoint after_term (term s : cstring) : option cstring :=
  match term, s with
  | [], _ => Some s
  | t :: term, c :: s => if tolower c =? tolower t then after_term term s else None
  | _ :: _, [] => None
  end.

(** The value ([false] when negated) and what follows; [None] for -1. *)
Definition opt_flag (opt : cstring) (allow_negate : bool) (opts : cstring) : option (bool * cstring) :=
  let '(negate, opts) :=
    match (if allow_negate then after_term (str "no-") opts else None) with
    | Some opts => (true, opts)
    | None => (false, opts)
    end in
  match after_term opt opts with
  | Some opts => Some (negb negate, opts)
  | None => None
  end.

Definition ch_quote : Z := 34.
Definition ch_backslash : Z := 92.

(** The text up to the closing quote, and what follows that; [None] without one. *)
Fixpoint dequote_loop (s : cstring) : option (cstring * cstring) :=
  match s with
  | [] => None
  | c :: rest =>
      if c =? ch_quote then Some ([], rest)
      else
        match rest with
        | d :: rest' =>
            if (c =? ch_backslash) && (d =? ch_quote) then
              match dequote_loop rest' with None => None | Some (l, r) => Some (d :: l, r) end
            else match dequote_loop rest with None => None | Some (l, r) => Some (c :: l, r) end
        | [] => None
        end
  end.

Inductive dequoted := Dequoted (ret rest : cstring) | DequoteFailed (errstr : cstring).

Definition opt_dequote `{Allocator} (s : cstring) : dequoted :=
  match s with
  | c :: s =>
      if negb (c =? ch_quote) then DequoteFailed (str "missing start quote")
      else if negb (malloc_ok (zlen s + 1)) then DequoteFailed (str "memory allocation failed")
      else match dequote_loop s with
           | None => DequoteFailed (str "missing end quote")
           | Some (ret, rest) => Dequoted ret rest
           end
  | [] => DequoteFailed (str "missing start quote")
  end.

Definition opt_match (opts term : cstring) : option cstring :=
  match after_term term opts with
  | Some (c :: rest) => if c =? 61 then Some rest else None
  | _ => None
  end.
