(* ===== verification/AuthOptions.v ===== *)
(** Options of authorized_keys lines and of certificates (auth-options.c).

    [sshauthopt] is the structure of the same name; an array with its length is a
    list.  Parsing threads the rest of the option string and the pointer
    [errstr]. *)

From Stdlib Require Import String.
From S2P Require Import Prelude Sshbuf SshbufGetPut Match AddrMatch Misc.
Local Open Scope Z_scope.

Definition SSH_AUTHOPT_PERMIT_MAX : Z := 4096.
Definition NI_MAXHOST : Z := 1025.
Definition SIZEOF_AUTHOPT : Z := 152.

Record sshauthopt := mk_authopt {
  permit_port_forwarding_flag : Z; permit_agent_forwarding_flag : Z; permit_x11_forwarding_flag : Z;
  permit_pty_flag : Z; permit_user_rc : Z;
  restricted : Z;
  valid_before : Z;
  cert_authority : Z; cert_principals : option cstring;
  force_tun_device : Z; force_command : option cstring;
  env : list cstring; permitopen : list cstring; permitlisten : list cstring;
  required_from_host_cert : option cstring; required_from_host_keys : option cstring
}.

Definition set_flags (pf af xf pty rc : Z) (o : sshauthopt) : sshauthopt :=
  mk_authopt pf af xf pty rc (restricted o) (valid_before o) (cert_authority o) (cert_principals o) (force_tun_device o) (force_command o)
    (env o) (permitopen o) (permitlisten o) (required_from_host_cert o) (required_from_host_keys o).
Definition set_restricted (v : Z) (o : sshauthopt) : sshauthopt :=
  mk_authopt (permit_port_forwarding_flag o) (permit_agent_forwarding_flag o) (permit_x11_forwarding_flag o) (permit_pty_flag o)
    (permit_user_rc o) v (valid_before o) (cert_authority o) (cert_principals o) (force_tun_device o) (force_command o)
    (env o) (permitopen o) (permitlisten o) (required_from_host_cert o) (required_from_host_keys o).
Definition set_port_forwarding (v : Z) (o : sshauthopt) : sshauthopt :=
  set_flags v (permit_agent_forwarding_flag o) (permit_x11_forwarding_flag o) (permit_pty_flag o) (permit_user_rc o) o.
Definition set_agent_forwarding (v : Z) (o : sshauthopt) : sshauthopt :=
  set_flags (permit_port_forwarding_flag o) v (permit_x11_forwarding_flag o) (permit_pty_flag o) (permit_user_rc o) o.
Definition set_x11_forwarding (v : Z) (o : sshauthopt) : sshauthopt :=
  set_flags (permit_port_forwarding_flag o) (permit_agent_forwarding_flag o) v (permit_pty_flag o) (permit_user_rc o) o.
Definition set_pty (v : Z) (o : sshauthopt) : sshauthopt :=
  set_flags (permit_port_forwarding_flag o) (permit_agent_forwarding_flag o) (permit_x11_forwarding_flag o) v (permit_user_rc o) o.
Definition set_user_rc (v : Z) (o : sshauthopt) : sshauthopt :=
  set_flags (permit_port_forwarding_flag o) (permit_agent_forwarding_flag o) (permit_x11_forwarding_flag o) (permit_pty_flag o) v o.
Definition set_strings (principals command from_cert from_keys : option cstring) (o : sshauthopt) : sshauthopt :=
  mk_authopt (permit_port_forwarding_flag o) (permit_agent_forwarding_flag o) (permit_x11_forwarding_flag o) (permit_pty_flag o)
    (permit_user_rc o) (restricted o) (valid_before o) (cert_authority o) principals (force_tun_device o) command
    (env o) (permitopen o) (permitlisten o) from_cert from_keys.
Definition set_principals (v : option cstring) (o : sshauthopt) : sshauthopt :=
  set_strings v (force_command o) (required_from_host_cert o) (required_from_host_keys o) o.
Definition set_command (v : option cstring) (o : sshauthopt) : sshauthopt :=
  set_strings (cert_principals o) v (required_from_host_cert o) (required_from_host_keys o) o.
Definition set_from_cert (v : option cstring) (o : sshauthopt) : sshauthopt :=
  set_strings (cert_principals o) (force_command o) v (required_from_host_keys o) o.
Definition set_from_keys (v : option cstring) (o : sshauthopt) : sshauthopt :=
  set_strings (cert_principals o) (force_command o) (required_from_host_cert o) v o.
Definition set_numbers (before authority tun : Z) (o : sshauthopt) : sshauthopt :=
  mk_authopt (permit_port_forwarding_flag o) (permit_agent_forwarding_flag o) (permit_x11_forwarding_flag o) (permit_pty_flag o)
    (permit_user_rc o) (restricted o) before authority (cert_principals o) tun (force_command o)
    (env o) (permitopen o) (permitlisten o) (required_from_host_cert o) (required_from_host_keys o).
Definition set_valid_before (v : Z) (o : sshauthopt) : sshauthopt := set_numbers v (cert_authority o) (force_tun_device o) o.
Definition set_authority (v : Z) (o : sshauthopt) : sshauthopt := set_numbers (valid_before o) v (force_tun_device o) o.
Definition set_tun (v : Z) (o : sshauthopt) : sshauthopt := set_numbers (valid_before o) (cert_authority o) v o.
Definition set_arrays (e po pl : list cstring) (o : sshauthopt) : sshauthopt :=
  mk_authopt (permit_port_forwarding_flag o) (permit_agent_forwarding_flag o) (permit_x11_forwarding_flag o) (permit_pty_flag o)
    (permit_user_rc o) (restricted o) (valid_before o) (cert_authority o) (cert_principals o) (force_tun_device o) (force_command o)
    e po pl (required_from_host_cert o) (required_from_host_keys o).

(** Success, or failure with the value of [errstr]. *)
Inductive parsed (A : Type) := PDone (a : A) | PFail (errstr : option cstring).
Arguments PDone {A}.
Arguments PFail {A}.

Definition message (s : string) : option cstring := Some (str s).

Section authopt.
Context `{Allocator} `{Getaddrinfo} `{Services} `{TimeLib}.

(** * Creation *)

(** After calloc. *)
Definition authopt_zero : sshauthopt := mk_authopt 0 0 0 0 0 0 0 0 None 0 None [] [] [] None None.

Definition sshauthopt_new : option sshauthopt :=
  if malloc_ok SIZEOF_AUTHOPT then Some (set_tun (-1) authopt_zero) else None.

Definition sshauthopt_new_with_keys_defaults : option sshauthopt := set_flags 1 1 1 1 1 <$> sshauthopt_new.

Definition strdup (s : cstring) : option cstring := if malloc_ok (zlen s + 1) then Some s else None.

(** A pointer that may be NULL. *)
Definition strdup_null (s : option cstring) : option (option cstring) :=
  match s with None => Some None | Some s => Some <$> strdup s end.

Fixpoint dup_all (src : list cstring) : option (list cstring) :=
  match src with
  | [] => Some []
  | s :: src => match strdup s with None => None | Some d => (fun l => d :: l) <$> dup_all src end
  end.
Definition dup_strings (src : list cstring) : option (list cstring) :=
  if zlen src =? 0 then Some [] else if malloc_ok (zlen src * 8) then dup_all src else None.

(** * Certificates *)

(** The parts of a key that are used. *)
Record cert_key := mk_cert_key { is_cert : bool; ck_cert : option (Z * sshbuf * sshbuf) (* type, critical, extensions *) }.
Definition SSH2_CERT_TYPE_USER : Z := 1.

Definition OPTIONS_CRITICAL : Z := 1.
Definition OPTIONS_EXTENSIONS : Z := 2.

(** An extension sets a flag. *)
Definition extension_flag (name : cstring) : option (sshauthopt -> sshauthopt) :=
  if bool_decide (name = str "permit-X11-forwarding") then Some (set_x11_forwarding 1)
  else if bool_decide (name = str "permit-agent-forwarding") then Some (set_agent_forwarding 1)
  else if bool_decide (name = str "permit-port-forwarding") then Some (set_port_forwarding 1)
  else if bool_decide (name = str "permit-pty") then Some (set_pty 1)
  else if bool_decide (name = str "permit-user-rc") then Some (set_user_rc 1)
  else None.

(** A critical option: the options, whether it was found, and what is left of its
    data; [None] to leave the function. *)
Definition critical_option (name : cstring) (opts : sshauthopt) (data : sshbuf) : option (sshauthopt * bool * sshbuf) :=
  if bool_decide (name = str "force-command") then
    match sshbuf_get_cstring data with
    | (Err _, _) => None
    | (Ok command, data) =>
        if bool_decide (is_Some (force_command opts)) then None else Some (set_command (Some (cstr command)) opts, true, data)
    end
  else if bool_decide (name = str "source-address") then
    match sshbuf_get_cstring data with
    | (Err _, _) => None
    | (Ok allowed, data) =>
        if bool_decide (is_Some (required_from_host_cert opts)) then None
        else if addr_match_cidr_list None (cstr allowed) =? -1 then None
        else Some (set_from_cert (Some (cstr allowed)) opts, true, data)
    end
  else Some (opts, false, data).

(** One option of the list. *)
Definition cert_option (which : Z) (crit : bool) (name : cstring) (data : sshbuf) (opts : sshauthopt) : option sshauthopt :=
  let ext := if negb (Z.land which OPTIONS_EXTENSIONS =? 0) then extension_flag name else None in
  match (match ext with
         | Some f => Some (f opts, true, data)
         | None =>
             if negb (Z.land which OPTIONS_CRITICAL =? 0) then critical_option name opts data else Some (opts, false, data)
         end) with
  | None => None
  | Some (opts, found, data) =>
      if negb found then if crit then None else Some opts
      else if negb (sshbuf_len data =? 0) then None
      else Some opts
  end.

(** Every round consumes data, so the length of the buffer is enough [fuel]. *)
Fixpoint cert_option_loop (fuel : nat) (which : Z) (crit : bool) (c : sshbuf) (opts : sshauthopt) : option sshauthopt :=
  if sshbuf_len c >? 0 then
    match fuel with
    | O => None
    | S fuel =>
        match sshbuf_get_cstring c with
        | (Err _, _) => None
        | (Ok name, c) =>
            match sshbuf_froms c with
            | (Err _, _) => None
            | (Ok data, c) =>
                match cert_option which crit (cstr name) data opts with
                | None => None
                | Some opts => cert_option_loop fuel which crit (sshbuf_unref c) opts
                end
            end
        end
    end
  else Some opts.

Definition cert_option_list (opts : sshauthopt) (oblob : sshbuf) (which : Z) (crit : bool) : option sshauthopt :=
  match sshbuf_fromb oblob with
  | (None, _) => None
  | (Some c, _) => cert_option_loop (Z.to_nat (sshbuf_len c)) which crit c opts
  end.

Definition sshauthopt_from_cert (k : cert_key) : option sshauthopt :=
  if negb (is_cert k) then None
  else
    match ck_cert k with
    | None => None
    | Some (type, critical, extensions) =>
        if negb (type =? SSH2_CERT_TYPE_USER) then None
        else
          match sshauthopt_new with
          | None => None
          | Some ret =>
              match cert_option_list ret critical OPTIONS_CRITICAL true with
              | None => None
              | Some ret => cert_option_list ret extensions OPTIONS_EXTENSIONS false
              end
          end
    end.

(** * authorized_keys options *)

(** [handle_permit] with the caller's [errstr]: the rest of the options and the
    new list. *)
Definition handle_permit (opts : cstring) (allow_bare_port : bool) (permits : list cstring) (errstr : option cstring) :
    parsed (cstring * list cstring) :=
  if zlen permits >? SSH_AUTHOPT_PERMIT_MAX then PFail (message "too many permission directives")
  else
    match opt_dequote opts with
    | DequoteFailed _ => PFail errstr
    | Dequoted opt opts =>
        match (if allow_bare_port && bool_decide (strchr_split 58 opt = None) then
                 if malloc_ok (zlen opt + 3) then Some (str "*:" ++ opt) else None
               else Some opt) with
        | None => PFail (message "memory allocation failed")
        | Some opt =>
            match strdup opt with
            | None => PFail (message "memory allocation failed")
            | Some tmp =>
                match hpdelim tmp with
                | None => PFail (message "invalid permission hostname")
                | Some (host, cp) =>
                    if zlen host >=? NI_MAXHOST then PFail (message "invalid permission hostname")
                    else
                      match cp with
                      | None => PFail (message "invalid permission port")
                      | Some cp =>
                          if negb (bool_decide (cp = str "*")) && (a2port cp <=? 0) then PFail (message "invalid permission port")
                          else if negb (malloc_ok ((zlen permits + 1) * 8)) then PFail (message "memory allocation failed")
                          else PDone (opts, permits ++ [opt])
                      end
                end
            end
        end
    end.

(** The flags: [restrict] and those that may be negated. *)
Definition flag_option (opts : cstring) (ret : sshauthopt) : option (cstring * sshauthopt) :=
  let b (r : bool) : Z := if r then 1 else 0 in
  match opt_flag (str "restrict") false opts with
  | Some (_, opts) => Some (opts, set_flags 0 0 0 0 0 (set_restricted 1 ret))
  | None =>
  match opt_flag (str "cert-authority") false opts with
  | Some (r, opts) => Some (opts, set_authority (b r) ret)
  | None =>
  match opt_flag (str "port-forwarding") true opts with
  | Some (r, opts) => Some (opts, set_port_forwarding (b r) ret)
  | None =>
  match opt_flag (str "agent-forwarding") true opts with
  | Some (r, opts) => Some (opts, set_agent_forwarding (b r) ret)
  | None =>
  match opt_flag (str "x11-forwarding") true opts with
  | Some (r, opts) => Some (opts, set_x11_forwarding (b r) ret)
  | None =>
  match opt_flag (str "pty") true opts with
  | Some (r, opts) => Some (opts, set_pty (b r) ret)
  | None =>
  match opt_flag (str "user-rc") true opts with
  | Some (r, opts) => Some (opts, set_user_rc (b r) ret)
  | None => None
  end end end end end end end.

(** A string option that may be given once. *)
Definition once (old : option cstring) (multiple : option cstring) (set : option cstring -> sshauthopt -> sshauthopt) (rest : cstring)
    (ret : sshauthopt) : parsed (cstring * sshauthopt * option cstring) :=
  if bool_decide (is_Some old) then PFail multiple
  else
    match opt_dequote rest with
    | DequoteFailed e => PFail (Some e)
    | Dequoted v rest => PDone (rest, set (Some v) ret, None)
    end.

Definition expiry_option (rest : cstring) (ret : sshauthopt) : parsed (cstring * sshauthopt * option cstring) :=
  match opt_dequote rest with
  | DequoteFailed e => PFail (Some e)
  | Dequoted opt rest =>
      match parse_absolute_time opt with
      | None => PFail (message "invalid expires time")
      | Some t =>
          if t =? 0 then PFail (message "invalid expires time")
          else
            let ret := if (valid_before ret =? 0) || (t <? valid_before ret) then set_valid_before t ret else ret in
            PDone (rest, ret, None)
      end
  end.

Definition environment_option (rest : cstring) (ret : sshauthopt) : parsed (cstring * sshauthopt * option cstring) :=
  if zlen (env ret) >? INT_MAX then PFail (message "too many environment strings")
  else
    match opt_dequote rest with
    | DequoteFailed e => PFail (Some e)
    | Dequoted opt rest =>
        match strchr_split 61 opt with
        | None => PFail (message "invalid environment string")
        | Some (name, _) =>
            if negb (malloc_ok (zlen opt + 1)) then PFail (message "memory allocation failed")
            else if negb (valid_env_name name) then PFail (message "invalid environment string")
            else if negb (malloc_ok ((zlen (env ret) + 1) * 8)) then PFail (message "memory allocation failed")
            else PDone (rest, set_arrays (env ret ++ [opt]) (permitopen ret) (permitlisten ret) ret, None)
        end
    end.

Definition tunnel_option (rest : cstring) (ret : sshauthopt) : parsed (cstring * sshauthopt * option cstring) :=
  match opt_dequote rest with
  | DequoteFailed e => PFail (Some e)
  | Dequoted opt rest =>
      let tun := a2tun_local opt in
      if tun =? SSH_TUNID_ERR then PFail (message "invalid tun device") else PDone (rest, set_tun tun ret, None)
  end.

(** The option at the front of the string; nothing happens for one that is not
    known. *)
Definition one_option (opts : cstring) (ret : sshauthopt) (errstr : option cstring) : parsed (cstring * sshauthopt * option cstring) :=
  match flag_option opts ret with
  | Some (opts, ret) => PDone (opts, ret, errstr)
  | None =>
  match opt_match opts (str "command") with
  | Some rest => once (force_command ret) (Some (str "multiple " ++ [34] ++ str "command" ++ [34] ++ str " clauses")) set_command rest ret
  | None =>
  match opt_match opts (str "principals") with
  | Some rest => once (cert_principals ret) (Some (str "multiple " ++ [34] ++ str "principals" ++ [34] ++ str " clauses")) set_principals rest ret
  | None =>
  match opt_match opts (str "from") with
  | Some rest => once (required_from_host_keys ret) (Some (str "multiple " ++ [34] ++ str "from" ++ [34] ++ str " clauses")) set_from_keys rest ret
  | None =>
  match opt_match opts (str "expiry-time") with
  | Some rest => expiry_option rest ret
  | None =>
  match opt_match opts (str "environment") with
  | Some rest => environment_option rest ret
  | None =>
  match opt_match opts (str "permitopen") with
  | Some rest =>
      match handle_permit rest false (permitopen ret) errstr with
      | PFail e => PFail e
      | PDone (rest, permits) => PDone (rest, set_arrays (env ret) permits (permitlisten ret) ret, errstr)
      end
  | None =>
  match opt_match opts (str "permitlisten") with
  | Some rest =>
      match handle_permit rest true (permitlisten ret) errstr with
      | PFail e => PFail e
      | PDone (rest, permits) => PDone (rest, set_arrays (env ret) (permitopen ret) permits ret, errstr)
      end
  | None =>
  match opt_match opts (str "tunnel") with
  | Some rest => tunnel_option rest ret
  | None => PDone (opts, ret, errstr)
  end end end end end end end end end.

Definition end_of_options (opts : cstring) : bool :=
  match opts with [] => true | c :: _ => (c =? 32) || (c =? 9) end.

(** Every round but the last takes a comma from the string. *)
Fixpoint parse_loop (fuel : nat) (opts : cstring) (ret : sshauthopt) (errstr : option cstring) : parsed sshauthopt :=
  if end_of_options opts then PDone ret
  else
    match fuel with
    | O => PDone ret
    | S fuel =>
        match one_option opts ret errstr with
        | PFail e => PFail e
        | PDone (opts, ret, errstr) =>
            if end_of_options opts then PDone ret
            else
              match opts with
              | 44 :: opts =>
                  match opts with
                  | [] => PFail (message "unexpected end-of-options")
                  | _ => parse_loop fuel opts ret errstr
                  end
              | _ => PFail (message "unknown key option")
              end
        end
    end.

Definition sshauthopt_parse (opts : option cstring) : parsed sshauthopt :=
  match sshauthopt_new_with_keys_defaults with
  | None => PFail (message "memory allocation failed")
  | Some ret =>
      match opts with
      | None => PDone ret
      | Some opts => parse_loop (length opts) opts ret (message "unknown error")
      end
  end.

(** * Merging and copying *)

(** The list of primary, or that of additional when it is empty. *)
Definition merge_array (primary additional : list cstring) : option (list cstring) :=
  if zlen primary >? 0 then dup_strings primary
  else if zlen additional >? 0 then dup_strings additional
  else Some [].

Definition OPTFLAG_AND (p a : Z) : Z := if (p =? 1) && (a =? 1) then 1 else 0.

Definition merge_expiry (p a : Z) : Z :=
  let r := if negb (p =? 0) then p else 0 in
  if negb (a =? 0) && (a <? r) then a else r.

Definition merge_command (p a : option cstring) : parsed (option cstring) :=
  let dup s := match strdup s with Some c => PDone (Some c) | None => PFail (message "memory allocation failed") end in
  match p, a with
  | Some c, Some d => if bool_decide (c = d) then dup c else PFail (message "forced command options do not match")
  | Some c, None => dup c
  | None, Some d => dup d
  | None, None => PDone None
  end.

Definition sshauthopt_merge (primary additional : sshauthopt) : parsed sshauthopt :=
  let first a b := match a with Some x => Some x | None => b end in
  match sshauthopt_new,
    strdup_null (first (required_from_host_cert primary) (required_from_host_cert additional)),
    strdup_null (first (required_from_host_keys primary) (required_from_host_keys additional)),
    merge_array (env primary) (env additional),
    merge_array (permitopen primary) (permitopen additional),
    merge_array (permitlisten primary) (permitlisten additional) with
  | Some ret, Some from_cert, Some from_keys, Some e, Some po, Some pl =>
      let tun := if force_tun_device primary =? -1 then force_tun_device additional else force_tun_device primary in
      let ret := set_arrays e po pl (set_tun tun (set_from_keys from_keys (set_from_cert from_cert ret))) in
      let f (p : sshauthopt -> Z) := OPTFLAG_AND (p primary) (p additional) in
      let ret := set_flags (f permit_port_forwarding_flag) (f permit_agent_forwarding_flag) (f permit_x11_forwarding_flag)
                   (f permit_pty_flag) (f permit_user_rc) ret in
      let ret := set_valid_before (merge_expiry (valid_before primary) (valid_before additional)) ret in
      match merge_command (force_command primary) (force_command additional) with
      | PFail e => PFail e
      | PDone c => PDone (set_command c ret)
      end
  | _, _, _, _, _, _ => PFail (message "memory allocation failed")
  end.

Definition sshauthopt_copy (orig : sshauthopt) : option sshauthopt :=
  match sshauthopt_new, strdup_null (cert_principals orig), strdup_null (force_command orig),
    strdup_null (required_from_host_cert orig), strdup_null (required_from_host_keys orig),
    dup_strings (env orig), dup_strings (permitopen orig), dup_strings (permitlisten orig) with
  | Some ret, Some pr, Some cmd, Some fc, Some fk, Some e, Some po, Some pl =>
      let ret := set_flags (permit_port_forwarding_flag orig) (permit_agent_forwarding_flag orig) (permit_x11_forwarding_flag orig)
                   (permit_pty_flag orig) (permit_user_rc orig) ret in
      let ret := set_numbers (valid_before orig) (cert_authority orig) (force_tun_device orig) (set_restricted (restricted orig) ret) in
      Some (set_arrays e po pl (set_strings pr cmd fc fk ret))
  | _, _, _, _, _, _, _, _ => None
  end.

(** * Serialised form *)

Fixpoint put_cstrings (a : list cstring) : SE sshbuf unit :=
  match a with [] => mret tt | s :: a => _ ← sshbuf_put_cstring (Some s); put_cstrings a end.

Definition serialise_array (a : list cstring) : SE sshbuf unit :=
  if zlen a >? INT_MAX then se_err SSH_ERR_INTERNAL_ERROR
  else
    match sshbuf_new with
    | None => se_err SSH_ERR_ALLOC_FAIL
    | Some b =>
        match put_cstrings a b with
        | (Err e, _) => se_err e
        | (Ok _, b) => _ ← sshbuf_put_u32 (zlen a); sshbuf_put_stringb (Some b)
        end
    end.

Fixpoint get_cstrings (n : nat) : SE sshbuf (list cstring) :=
  match n with O => mret [] | S n => s ← sshbuf_get_cstring; l ← get_cstrings n; mret (cstr s :: l) end.

Definition deserialise_array : SE sshbuf (list cstring) := fun m =>
  match sshbuf_get_u32 m with
  | (Err e, m) => (Err e, m)
  | (Ok n, m) =>
      match sshbuf_froms m with
      | (Err e, m) => (Err e, m)
      | (Ok b, m) =>
          (if n >? INT_MAX then Err SSH_ERR_INVALID_FORMAT
           else if (n >? 0) && negb (malloc_ok (n * 8)) then Err SSH_ERR_ALLOC_FAIL
           else fst (get_cstrings (Z.to_nat n) b), sshbuf_unref m)
      end
  end.

Definition serialise_nullable_string (s : option cstring) : SE sshbuf unit :=
  _ ← sshbuf_put_u8 (match s with None => 1 | Some _ => 0 end); sshbuf_put_cstring s.

(** [sshbuf_get_cstring] that keeps no copy. *)
Definition skip_cstring : SE sshbuf unit :=
  b ← se_get;
  p ← se_lift (sshbuf_peek_string_direct b);
  if (zlen p >? 0) && match memchr 0 p with Some z => z <? zlen p - 1 | None => false end then se_err SSH_ERR_INVALID_FORMAT
  else
    b ← se_get;
    match sshbuf_skip_string b with
    | (Err _, b') => _ ← se_put b'; se_err SSH_ERR_INTERNAL_ERROR
    | (Ok _, b') => se_put b'
    end.

Definition deserialise_nullable_string : SE sshbuf (option cstring) :=
  flag ← sshbuf_get_u8;
  if negb (flag =? 0) then _ ← skip_cstring; mret None else s ← sshbuf_get_cstring; mret (Some (cstr s)).

Definition sshauthopt_serialise (opts : sshauthopt) (untrusted : bool) : SE sshbuf unit :=
  let u {A} (x y : A) : A := if untrusted then x else y in
  _ ← sshbuf_put_u8 (u8 (permit_port_forwarding_flag opts));
  _ ← sshbuf_put_u8 (u8 (permit_agent_forwarding_flag opts));
  _ ← sshbuf_put_u8 (u8 (permit_x11_forwarding_flag opts));
  _ ← sshbuf_put_u8 (u8 (permit_pty_flag opts));
  _ ← sshbuf_put_u8 (u8 (permit_user_rc opts));
  _ ← sshbuf_put_u8 (u8 (restricted opts));
  _ ← sshbuf_put_u8 (u8 (cert_authority opts));
  _ ← sshbuf_put_u64 (valid_before opts);
  _ ← sshbuf_put_u8 (if force_tun_device opts =? -1 then 1 else 0);
  _ ← sshbuf_put_u32 (if force_tun_device opts <? 0 then 0 else force_tun_device opts);
  _ ← serialise_nullable_string (u (message "yes") (cert_principals opts));
  _ ← serialise_nullable_string (u (message "true") (force_command opts));
  _ ← serialise_nullable_string (u None (required_from_host_cert opts));
  _ ← serialise_nullable_string (u None (required_from_host_keys opts));
  _ ← serialise_array (u [] (env opts));
  _ ← serialise_array (u [] (permitopen opts));
  serialise_array (u [] (permitlisten opts)).

(** A 32-bit number as int. *)
Definition int_of (x : Z) : Z := if x >? INT_MAX then x - 2 ^ 32 else x.

Definition sshauthopt_deserialise : SE sshbuf sshauthopt := fun m =>
  if negb (malloc_ok SIZEOF_AUTHOPT) then (Err SSH_ERR_ALLOC_FAIL, m)
  else
    (pf ← sshbuf_get_u8; af ← sshbuf_get_u8; xf ← sshbuf_get_u8; pty ← sshbuf_get_u8; rc ← sshbuf_get_u8;
     re ← sshbuf_get_u8; ca ← sshbuf_get_u8;
     vb ← sshbuf_get_u64;
     f ← sshbuf_get_u8;
     tmp ← sshbuf_get_u32;
     pr ← deserialise_nullable_string;
     cmd ← deserialise_nullable_string;
     fc ← deserialise_nullable_string;
     fk ← deserialise_nullable_string;
     e ← deserialise_array;
     po ← deserialise_array;
     pl ← deserialise_array;
     mret (mk_authopt pf af xf pty rc re vb ca pr (if negb (f =? 0) then -1 else int_of tmp) cmd e po pl fc fk)) m.
End authopt.
