(* ===== verification/AuthOptParse.v ===== *)
(** The parser of authorized_keys options reads what the manual describes: a list of
    options is printed and parsed back to the same settings. *)

From Stdlib Require Import String.
From S2P Require Import Prelude Sshbuf SshbufGetPut Match AddrMatch Misc AuthOptions.
Local Open Scope Z_scope.

(** * Quoted values *)

(** A value in quotes, with the quotes inside it escaped. *)
Definition escape (s : cstring) : cstring := flat_map (fun c => if c =? ch_quote then [ch_backslash; ch_quote] else [c]) s.
Definition quote (s : cstring) : cstring := [ch_quote] ++ escape s ++ [ch_quote].

(** A backslash before the closing quote would escape it. *)
Definition quotable (s : cstring) : Prop := last s <> Some ch_backslash.

Lemma escape_hd c s rest : exists d r, escape (c :: s) ++ rest = d :: r /\ (d = ch_quote -> False).
Proof.
  unfold escape. cbn [flat_map]. destruct (Z.eqb_spec c ch_quote) as [->|Hc]; cbn; [exists ch_backslash|exists c]; eexists; split; done.
Qed.

Lemma dequote_escape s rest : quotable s -> dequote_loop (escape s ++ ch_quote :: rest) = Some (s, rest).
Proof.
  induction s as [|c s IH]; intros Hq; [done|]. assert (quotable s) as Hs.
  { intros E. apply Hq. by destruct s. }
  specialize (IH Hs). unfold escape in *. cbn [flat_map]. destruct (Z.eqb_spec c ch_quote) as [->|Hc].
  - cbn [app dequote_loop]. change (ch_backslash =? ch_quote) with false. change (ch_backslash =? ch_backslash) with true.
    change (ch_quote =? ch_quote) with true. cbn [andb]. by rewrite IH.
  - cbn [app dequote_loop]. rewrite (proj2 (Z.eqb_neq _ _)) by done.
    destruct s as [|d s].
    + cbn [flat_map app] in *. rewrite (proj2 (Z.eqb_neq c ch_backslash)); [|intros ->; by apply Hq]. cbn [andb]. by rewrite IH.
    + destruct (escape_hd d s (ch_quote :: rest)) as (x & r & Ex & Hx). unfold escape in Ex. rewrite Ex in *.
      rewrite (proj2 (Z.eqb_neq x ch_quote)) by done. rewrite andb_false_r. by rewrite IH.
Qed.

(** * Options *)

Inductive flag := FPort | FAgent | FX11 | FPty | FRc.

Inductive option_item :=
| IRestrict | ICertAuthority | IFlag (f : flag) (v : bool)
| ICommand (c : cstring) | IPrincipals (p : cstring) | IFrom (l : cstring) | IExpiry (t : cstring)
| IEnvironment (e : cstring) | IPermitOpen (hp : cstring) | IPermitListen (hp : cstring) | ITunnel (t : cstring).

Definition flag_name (f : flag) : cstring :=
  match f with
  | FPort => str "port-forwarding" | FAgent => str "agent-forwarding" | FX11 => str "x11-forwarding" | FPty => str "pty"
  | FRc => str "user-rc"
  end.

Definition print_item (i : option_item) : cstring :=
  match i with
  | IRestrict => str "restrict"
  | ICertAuthority => str "cert-authority"
  | IFlag f v => (if v then [] else str "no-") ++ flag_name f
  | ICommand c => str "command=" ++ quote c
  | IPrincipals p => str "principals=" ++ quote p
  | IFrom l => str "from=" ++ quote l
  | IExpiry t => str "expiry-time=" ++ quote t
  | IEnvironment e => str "environment=" ++ quote e
  | IPermitOpen hp => str "permitopen=" ++ quote hp
  | IPermitListen hp => str "permitlisten=" ++ quote hp
  | ITunnel t => str "tunnel=" ++ quote t
  end.

Fixpoint print_items (items : list option_item) : cstring :=
  match items with
  | [] => []
  | [i] => print_item i
  | i :: items => print_item i ++ [ch_comma] ++ print_items items
  end.

Definition item_quotable (i : option_item) : Prop :=
  match i with
  | IRestrict | ICertAuthority | IFlag _ _ => True
  | ICommand s | IPrincipals s | IFrom s | IExpiry s | IEnvironment s | IPermitOpen s | IPermitListen s | ITunnel s => quotable s
  end.

(** What an option means for the settings. *)
Section meaning.
Context `{Services} `{TimeLib}.

Definition set_flag (f : flag) (v : Z) (o : sshauthopt) : sshauthopt :=
  match f with
  | FPort => set_port_forwarding v o | FAgent => set_agent_forwarding v o | FX11 => set_x11_forwarding v o | FPty => set_pty v o
  | FRc => set_user_rc v o
  end.

Definition unless (b : bool) (msg : cstring) (o : sshauthopt) : parsed sshauthopt := if b then PFail (Some msg) else PDone o.
Definition multiple (name : string) : cstring := str "multiple " ++ [ch_quote] ++ str name ++ [ch_quote] ++ str " clauses".

(** A host and a port, the port a number from 1, a service or an asterisk. *)
Definition permit_target (hp : cstring) : option cstring :=
  match hpdelim hp with
  | Some (host, cp) =>
      if zlen host >=? NI_MAXHOST then Some (str "invalid permission hostname")
      else
        match cp with
        | Some p => if bool_decide (p = str "*") || (0 <? a2port p) then None else Some (str "invalid permission port")
        | None => Some (str "invalid permission port")
        end
  | None => Some (str "invalid permission hostname")
  end.

Definition add_permit (hp : cstring) (old : list cstring) (set : list cstring -> sshauthopt) : parsed sshauthopt :=
  if zlen old >? SSH_AUTHOPT_PERMIT_MAX then PFail (message "too many permission directives")
  else match permit_target hp with Some e => PFail (Some e) | None => PDone (set (old ++ [hp])) end.

Definition apply_item (i : option_item) (o : sshauthopt) : parsed sshauthopt :=
  match i with
  | IRestrict => PDone (set_flags 0 0 0 0 0 (set_restricted 1 o))
  | ICertAuthority => PDone (set_authority 1 o)
  | IFlag f v => PDone (set_flag f (if v then 1 else 0) o)
  | ICommand c => unless (bool_decide (is_Some (force_command o))) (multiple "command") (set_command (Some c) o)
  | IPrincipals p => unless (bool_decide (is_Some (cert_principals o))) (multiple "principals") (set_principals (Some p) o)
  | IFrom l => unless (bool_decide (is_Some (required_from_host_keys o))) (multiple "from") (set_from_keys (Some l) o)
  | IExpiry t =>
      match parse_absolute_time t with
      | None | Some 0 => PFail (message "invalid expires time")
      | Some t => PDone (set_valid_before (if valid_before o =? 0 then t else Z.min t (valid_before o)) o)
      end
  | IEnvironment e =>
      if zlen (env o) >? INT_MAX then PFail (message "too many environment strings")
      else
        match strchr_split 61 e with
        | Some (name, _) =>
            unless (negb (valid_env_name name)) (str "invalid environment string") (set_arrays (env o ++ [e]) (permitopen o) (permitlisten o) o)
        | None => PFail (message "invalid environment string")
        end
  | IPermitOpen hp => add_permit hp (permitopen o) (fun l => set_arrays (env o) l (permitlisten o) o)
  | IPermitListen hp =>
      let hp := match strchr_split 58 hp with None => str "*:" ++ hp | Some _ => hp end in
      add_permit hp (permitlisten o) (fun l => set_arrays (env o) (permitopen o) l o)
  | ITunnel t => unless (a2tun_local t =? SSH_TUNID_ERR) (str "invalid tun device") (set_tun (a2tun_local t) o)
  end.

Fixpoint apply_items (items : list option_item) (o : sshauthopt) : parsed sshauthopt :=
  match items with
  | [] => PDone o
  | i :: items => match apply_item i o with PDone o => apply_items items o | PFail e => PFail e end
  end.
End meaning.

Section parse.
Context `{Allocator} `{!ReliableAllocator _} `{Getaddrinfo} `{Services} `{TimeLib}.

Lemma dequote_quote s rest : quotable s -> opt_dequote (quote s ++ rest) = Dequoted s rest.
Proof.
  intros Hq. unfold quote, opt_dequote. cbn [app]. change (ch_quote =? ch_quote) with true. cbn [negb]. rewrite malloc_reliable. cbn [negb].
  rewrite <- app_assoc. cbn [app]. by rewrite dequote_escape.
Qed.

(** One option at the front of the string. *)
Definition gives_option (i : option_item) (rest : cstring) : Prop := forall o e, exists e',
  one_option (print_item i ++ rest) o e =
    match apply_item i o with PDone o => PDone (rest, o, e') | PFail m => PFail m end.

Lemma flag_front f v rest : gives_option (IFlag f v) rest.
Proof. intros o e. exists e. destruct f, v; reflexivity. Qed.

Lemma simple_front rest : gives_option IRestrict rest /\ gives_option ICertAuthority rest.
Proof. split; intros o e; exists e; reflexivity. Qed.

Lemma once_quote old mult set v rest ret :
  quotable v -> once old mult set (quote v ++ rest) ret =
    if bool_decide (is_Some old) then PFail mult else PDone (rest, set (Some v) ret, None).
Proof. intros Hq. unfold once. by rewrite dequote_quote. Qed.

Lemma once_front i rest : match i with ICommand _ | IPrincipals _ | IFrom _ => True | _ => False end -> item_quotable i -> gives_option i rest.
Proof.
  intros Hi Hq o e. exists None. destruct i; try done; cbn [item_quotable] in Hq; cbn [print_item apply_item]; rewrite <- app_assoc;
    (etransitivity; [refine (once_quote _ _ _ _ _ _ Hq)|]); unfold unless; by destruct (bool_decide _).
Qed.

Lemma expiry_front t rest : quotable t -> gives_option (IExpiry t) rest.
Proof.
  intros Hq o e. exists None. cbn [print_item apply_item]. rewrite <- app_assoc. transitivity (expiry_option (quote t ++ rest) o); [reflexivity|].
  unfold expiry_option. rewrite dequote_quote by done. destruct (parse_absolute_time t) as [v|]; [|done].
  destruct (Z.eqb_spec v 0) as [->|Hv]; [done|]. assert (match v with 0 => PFail (message "invalid expires time") | _ =>
    PDone (set_valid_before (if valid_before o =? 0 then v else Z.min v (valid_before o)) o) end =
    PDone (set_valid_before (if valid_before o =? 0 then v else Z.min v (valid_before o)) o)) as -> by by destruct v.
  destruct (Z.eqb_spec (valid_before o) 0) as [E0|E0]; cbn [orb]; [done|]. destruct (Z.ltb_spec v (valid_before o)).
  - by rewrite Z.min_l by lia.
  - rewrite Z.min_r by lia. by destruct o.
Qed.

Lemma environment_front v rest : quotable v -> gives_option (IEnvironment v) rest.
Proof.
  intros Hq o e. exists None. cbn [print_item apply_item]. rewrite <- app_assoc. transitivity (environment_option (quote v ++ rest) o); [reflexivity|].
  unfold environment_option. destruct (_ >? _); [done|]. rewrite dequote_quote by done. destruct (strchr_split 61 v) as [[name ?]|]; [|done].
  rewrite !malloc_reliable. cbn [negb]. unfold unless. by destruct (negb _).
Qed.

Lemma tunnel_front t rest : quotable t -> gives_option (ITunnel t) rest.
Proof.
  intros Hq o e. exists None. cbn [print_item apply_item]. rewrite <- app_assoc. transitivity (tunnel_option (quote t ++ rest) o); [reflexivity|].
  unfold tunnel_option, unless. rewrite dequote_quote by done. cbv zeta. by destruct (_ =? _).
Qed.

Lemma permit_quote hp bare old e rest :
  quotable hp ->
  handle_permit (quote hp ++ rest) bare old e =
    let hp := if bare then match strchr_split 58 hp with None => str "*:" ++ hp | Some _ => hp end else hp in
    if zlen old >? SSH_AUTHOPT_PERMIT_MAX then PFail (message "too many permission directives")
    else match permit_target hp with Some m => PFail (Some m) | None => PDone (rest, old ++ [hp]) end.
Proof.
  intros Hq. unfold handle_permit. destruct (_ >? _); [done|]. rewrite dequote_quote by done. unfold strdup. rewrite !malloc_reliable. cbv zeta.
  set (hp' := if bare then _ else hp). assert ((if bare && bool_decide (strchr_split 58 hp = None) then Some (str "*:" ++ hp) else Some hp) = Some hp')
    as -> by (unfold hp'; destruct bare; [|done]; by destruct (strchr_split 58 hp)).
  rewrite ?malloc_reliable. unfold permit_target. destruct (hpdelim hp') as [[host cp]|]; [|done]. destruct (_ >=? _); [done|]. destruct cp as [cp|]; [|done].
  rewrite ?malloc_reliable, Z.leb_antisym. destruct (bool_decide (cp = str "*")); cbn [negb andb orb]; [done|]. destruct (0 <? a2port cp); cbn [negb]; done.
Qed.

Lemma permit_front hp rest : quotable hp -> gives_option (IPermitOpen hp) rest /\ gives_option (IPermitListen hp) rest.
Proof.
  intros Hq. split; intros o e; exists e; cbn [print_item apply_item]; rewrite <- app_assoc.
  - transitivity (match handle_permit (quote hp ++ rest) false (permitopen o) e with PFail e => PFail e
      | PDone (rest, permits) => PDone (rest, set_arrays (env o) permits (permitlisten o) o, e) end); [reflexivity|].
    rewrite permit_quote by done. cbv zeta. unfold add_permit. destruct (_ >? _); [done|]. by destruct (permit_target hp).
  - transitivity (match handle_permit (quote hp ++ rest) true (permitlisten o) e with PFail e => PFail e
      | PDone (rest, permits) => PDone (rest, set_arrays (env o) (permitopen o) permits o, e) end); [reflexivity|].
    rewrite permit_quote by done. cbv zeta. unfold add_permit. destruct (_ >? _); [done|]. by destruct (permit_target _).
Qed.

Lemma item_front i rest : item_quotable i -> gives_option i rest.
Proof.
  destruct i; cbn [item_quotable]; intros Hq; try (by apply once_front); try (by apply permit_front); try apply simple_front.
  - apply flag_front.
  - by apply expiry_front.
  - by apply environment_front.
  - by apply tunnel_front.
Qed.

(** ** The loop *)

Lemma print_not_end i rest : end_of_options (print_item i ++ rest) = false.
Proof. by destruct i as [| |[] []| | | | | | | |]. Qed.

Lemma print_items_cons i items : items <> [] -> print_items (i :: items) = print_item i ++ [ch_comma] ++ print_items items.
Proof. by destruct items. Qed.

Lemma print_items_hd i items rest : exists r, print_items (i :: items) ++ rest = print_item i ++ r.
Proof.
  destruct items as [|j items]; [by exists rest|]. rewrite print_items_cons by done. rewrite <- app_assoc. eauto.
Qed.

Lemma parse_items items : forall fuel tail o e,
  Forall item_quotable items -> end_of_options tail = true -> (length items <= fuel)%nat ->
  parse_loop fuel (print_items items ++ tail) o e = apply_items items o.
Proof.
  induction items as [|i items IH]; intros fuel tail o e Hq Ht Hf.
  { destruct fuel; cbn [print_items app parse_loop apply_items]; by rewrite Ht. }
  inversion Hq as [|? ? Hi Hq']; subst. destruct fuel as [|fuel]; [cbn in Hf; lia|].
  assert (exists r, print_items (i :: items) ++ tail = print_item i ++ r /\
    ((items = [] /\ r = tail) \/ (items <> [] /\ r = ch_comma :: print_items items ++ tail))) as (r & Er & Hr).
  { destruct items as [|j items]; [exists tail; auto|]. rewrite print_items_cons by done. rewrite <- app_assoc. eexists. split; [done|]. right. by split. }
  rewrite Er. cbn [parse_loop apply_items]. rewrite print_not_end. destruct (item_front i r Hi o e) as [e' Ho]. rewrite Ho.
  destruct (apply_item i o) as [o'|m]; [|done]. destruct Hr as [[-> ->]|[Hne ->]]; [by rewrite Ht|].
  cbn [end_of_options]. change ((ch_comma =? 32) || (ch_comma =? 9)) with false. cbv iota. change ch_comma with 44.
  destruct items as [|j items]; [done|]. destruct (print_items_hd j items tail) as [r Ej].
  rewrite <- (IH fuel tail o' e' Hq' Ht) by (cbn in *; lia). rewrite Ej. pose proof (print_not_end j r) as Hn.
  by destruct (print_item j ++ r).
Qed.

Lemma print_items_len items : (length items <= length (print_items items))%nat.
Proof.
  induction items as [|i items IH]; [done|]. assert (1 <= length (print_item i))%nat by (destruct i as [| |[] []| | | | | | | |]; cbn; lia).
  destruct items as [|j items]; [done|]. rewrite print_items_cons by done. rewrite !length_app. cbn [length] in *. lia.
Qed.

(** C38: authorized_keys options.  A list of options, printed with its values
    in quotes and separated by commas and followed by white space or the end of
    the line, is parsed to the settings that the options describe one after the
    other, or to the error of the first one that is not allowed: flags and their
    negation, [restrict], the values that may be given only once, the earliest
    expiry time, and the lists, whose entries are checked. *)
Theorem authopt_parse_print items tail :
  Forall item_quotable items -> end_of_options tail = true ->
  sshauthopt_parse (Some (print_items items ++ tail)) = apply_items items (set_flags 1 1 1 1 1 (set_tun (-1) authopt_zero)).
Proof.
  intros Hq Ht. unfold sshauthopt_parse, sshauthopt_new_with_keys_defaults, sshauthopt_new. rewrite malloc_reliable. cbn [fmap option_fmap option_map].
  apply parse_items; [done|done|]. rewrite length_app. pose proof (print_items_len items). lia.
Qed.
End parse.

(** * An example *)

Definition no_services : Services := fun _ => None.
Definition no_time : TimeLib := fun _ _ => None.

Definition demo_items : list option_item :=
  [IRestrict; IFlag FPty true; ICommand (str "echo " ++ [34; 104; 105; 34]); IPermitOpen (str "localhost:80"); IPermitListen (str "8080")].

Lemma demo_quotable : Forall item_quotable demo_items.
Proof. repeat (apply Forall_cons; split; [by vm_compute|]). by apply Forall_nil. Qed.

Lemma authopt_parse_print_witness :
  exists o, @sshauthopt_parse alloc_all no_services no_time (Some (print_items demo_items ++ str " ssh-ed25519")) = PDone o /\
    permit_pty_flag o = 1 /\ permit_port_forwarding_flag o = 0 /\ force_command o = Some (str "echo " ++ [34; 104; 105; 34]) /\
    permitlisten o = [str "*:8080"].
Proof.
  pose proof (@authopt_parse_print alloc_all alloc_all_reliable no_services no_time demo_items (str " ssh-ed25519")
    demo_quotable eq_refl) as E.
  eexists. split; [etransitivity; [exact E|]; vm_compute; reflexivity|]. vm_compute. repeat split.
Defined.
