(* ===== verification/AuthOptLaws.v ===== *)
(** Properties of key options (auth-options.c): the serialised form, what merging
    preserves, and the options of certificates. *)

From Stdlib Require Import String.
From S2P Require Import Prelude Sshbuf SshbufGetPut Match AddrMatch Misc AuthOptions.
Local Open Scope Z_scope.

Section laws.
Context `{Allocator} `{!ReliableAllocator _} `{Getaddrinfo}.

(** * Serialised form *)

(** As [Gets], for a buffer that may be shared while it is read. *)
Definition reads {A} (m : SE sshbuf A) (e : list Z) (a : A) : Prop :=
  forall b rest, bufr b -> contents b = e ++ rest -> exists b', m b = (Ok a, b') /\ bufr b' /\ contents b' = rest.

Lemma reads_gets {A} (m : SE sshbuf A) e a : Gets m e a -> reads m e a.
Proof. intros Hm b rest Hb Hc. destruct (Hm b rest (proj1 Hb) Hc) as (b' & E & Hx & Hr & _). exists b'. split; [done|]. split; [by eapply bufr_ext|done]. Qed.

Lemma reads_bind {A B} (m : SE sshbuf A) (f : A -> SE sshbuf B) e1 e2 a c : reads m e1 a -> reads (f a) e2 c -> reads (m ≫= f) (e1 ++ e2) c.
Proof.
  intros Hm Hf b rest Hb Hc. rewrite <- app_assoc in Hc. destruct (Hm b _ Hb Hc) as (b1 & E1 & Hb1 & Hc1).
  destruct (Hf b1 rest Hb1 Hc1) as (b2 & E2 & Hb2 & Hc2). exists b2. by rewrite (se_bind_ok _ _ _ _ _ E1).
Qed.

Lemma reads_ret {A} (a : A) : reads (mret a) [] a.
Proof. apply reads_gets, gets_ret. Qed.

(** ** Strings and lists *)

Definition cstring_ok (s : cstring) : Prop := string_ok s /\ no_nul s.

Lemma put_cstring_puts s : cstring_ok s -> Puts (sshbuf_put_cstring (Some s)) (enc_string s) tt.
Proof. intros [Hs Hn]. unfold sshbuf_put_cstring. rewrite cstr_no_nul by done. by apply appends_puts, sshbuf_put_string_appends. Qed.

Definition enc_nullable (s : option cstring) : list Z := match s with None => 1 :: enc_string [] | Some s => 0 :: enc_string s end.
Definition nullable_ok (s : option cstring) : Prop := match s with None => True | Some s => cstring_ok s end.

Lemma nullable_puts s : nullable_ok s -> Puts (serialise_nullable_string s) (enc_nullable s) tt.
Proof.
  intros Hs. unfold serialise_nullable_string. destruct s as [s|].
  - eapply (puts_bind _ _ [0] (enc_string s)); [apply appends_puts, sshbuf_put_u8_appends|]. by apply put_cstring_puts.
  - eapply (puts_bind _ _ [1] (enc_string [])); [apply appends_puts, sshbuf_put_u8_appends|]. by apply appends_puts, sshbuf_put_string_appends.
Qed.

Lemma skip_cstring_gets s : cstring_ok s -> Gets skip_cstring (enc_string s) tt.
Proof.
  intros [Hs Hn] b rest Hb Hc. destruct (skip_string_gets s Hs b rest Hb Hc) as (b' & E & H').
  exists b'. split; [|done]. unfold skip_cstring, mbind, se_bind, se_get, se_lift. rewrite (peek_string_enc b s rest) by done.
  rewrite memchr_no_nul by done. by rewrite andb_false_r, E.
Qed.

Lemma nullable_reads s : nullable_ok s -> reads deserialise_nullable_string (enc_nullable s) s.
Proof.
  intros Hs. unfold deserialise_nullable_string. destruct s as [s|]; cbn [enc_nullable nullable_ok] in *.
  - apply (reads_bind _ _ [0] (enc_string s) 0); [apply reads_gets, get_u8_gets|].
    change (negb (0 =? 0)) with false. cbv iota. rewrite <- (app_nil_r (enc_string s)).
    apply (reads_bind _ _ _ [] s); [destruct Hs; by apply reads_gets, get_cstring_gets|]. destruct Hs as [_ Hn]. rewrite cstr_no_nul by done. apply reads_ret.
  - apply (reads_bind _ _ [1] (enc_string []) 1); [apply reads_gets, get_u8_gets|].
    change (negb (1 =? 0)) with true. cbv iota. rewrite <- (app_nil_r (enc_string [])).
    apply (reads_bind _ _ _ [] tt); [apply reads_gets, skip_cstring_gets; split; [done|by constructor]|]. apply reads_ret.
Qed.

Definition array_ok (a : list cstring) : Prop :=
  Forall cstring_ok a /\ zlen a <= INT_MAX /\ zlen (flat_map enc_string a) <= SSHBUF_SIZE_MAX - 4.
Definition enc_array (a : list cstring) : list Z := POKE_U32 (zlen a) ++ enc_string (flat_map enc_string a).

Lemma put_cstrings_puts a : Forall cstring_ok a -> Puts (put_cstrings a) (flat_map enc_string a) tt.
Proof.
  induction 1 as [|s a Hs _ IH]; [apply puts_ret|]. cbn [put_cstrings flat_map]. by eapply puts_bind; [apply put_cstring_puts|].
Qed.

Lemma array_puts a : array_ok a -> Puts (serialise_array a) (enc_array a) tt.
Proof.
  intros (Ha & Hn & Hl) m Hm Hlk Hfit. unfold serialise_array. rewrite Z.gtb_ltb, (proj2 (Z.ltb_ge _ _)) by lia.
  destruct sshbuf_new_ok as [b Eb]. rewrite Eb. destruct (sshbuf_new_spec b Eb) as (Hw & Hc & Hk & Hx).
  destruct (put_cstrings_puts a Ha b Hw Hk) as (b' & E & He & Hc'); [rewrite Hc, Hx; change (zlen []) with 0; lia|]. rewrite E.
  revert m Hm Hlk Hfit. change (Puts (_ ← sshbuf_put_u32 (zlen a); sshbuf_put_stringb (Some b')) (enc_array a) tt).
  apply (puts_bind _ _ (POKE_U32 (zlen a)) _ tt); [apply appends_puts, sshbuf_put_u32_appends|].
  unfold sshbuf_put_stringb. pose proof (ext_wf _ _ He) as Hw'. rewrite (sshbuf_ptr_wf _ Hw'), sshbuf_len_wf by done. cbn [from_option id].
  rewrite Hc', Hc. cbn [app]. rewrite ztake_ge by lia. by apply appends_puts, sshbuf_put_string_appends.
Qed.

Lemma get_cstrings_gets a : Forall cstring_ok a -> Gets (get_cstrings (length a)) (flat_map enc_string a) a.
Proof.
  induction 1 as [|s a [Hs Hn] _ IH]; [apply gets_ret|]. cbn [get_cstrings flat_map length].
  apply (gets_bind _ _ _ _ s); [by apply get_cstring_gets|]. rewrite <- (app_nil_r (flat_map enc_string a)).
  apply (gets_bind _ _ _ [] a); [done|]. rewrite cstr_no_nul by done. apply gets_ret.
Qed.

Lemma array_reads a : array_ok a -> reads deserialise_array (enc_array a) a.
Proof.
  intros (Ha & Hn & Hl) m rest Hm Hc. unfold enc_array in Hc. rewrite <- app_assoc in Hc.
  destruct (reads_gets _ _ _ (get_u32_gets (zlen a)) m _ Hm Hc) as (m1 & E1 & Hm1 & Hc1). unfold deserialise_array. rewrite E1.
  destruct (froms_child m1 _ rest Hm1 Hc1 Hl) as (child & m2 & E2 & Hch & Hcc & Hx & Hr). rewrite E2. exists (sshbuf_unref m2).
  pose proof (zlen_nonneg a). rewrite u32_small by (unfold INT_MAX in *; lia). rewrite Z.gtb_ltb, (proj2 (Z.ltb_ge _ _)) by lia.
  rewrite malloc_reliable. cbn [negb]. rewrite andb_false_r. split; [|split; [exact (bufr_ext _ _ Hm1 Hx)|done]].
  destruct (get_cstrings_gets a Ha child [] (proj1 Hch)) as (c' & E3 & _); [by rewrite app_nil_r|]. unfold zlen. rewrite Nat2Z.id. by rewrite E3.
Qed.

(** ** The whole structure *)

Record authopt_ok (o : sshauthopt) : Prop := {
  ok_flags : is_byte (permit_port_forwarding_flag o) /\ is_byte (permit_agent_forwarding_flag o) /\ is_byte (permit_x11_forwarding_flag o) /\
    is_byte (permit_pty_flag o) /\ is_byte (permit_user_rc o) /\ is_byte (restricted o) /\ is_byte (cert_authority o);
  ok_expiry : 0 <= valid_before o < 2 ^ 64;
  ok_tun : force_tun_device o = -1 \/ 0 <= force_tun_device o <= INT_MAX;
  ok_strings : nullable_ok (cert_principals o) /\ nullable_ok (force_command o) /\ nullable_ok (required_from_host_cert o) /\
    nullable_ok (required_from_host_keys o);
  ok_arrays : array_ok (env o) /\ array_ok (permitopen o) /\ array_ok (permitlisten o)
}.

(** What an untrusted reader is shown. *)
Definition shown_as (untrusted : bool) (o : sshauthopt) : sshauthopt :=
  if untrusted then set_arrays [] [] [] (set_strings (message "yes") (message "true") None None o) else o.

Definition authopt_wire (o : sshauthopt) : list Z :=
  [permit_port_forwarding_flag o] ++ [permit_agent_forwarding_flag o] ++ [permit_x11_forwarding_flag o] ++ [permit_pty_flag o] ++
  [permit_user_rc o] ++ [restricted o] ++ [cert_authority o] ++ POKE_U64 (valid_before o) ++
  [if force_tun_device o =? -1 then 1 else 0] ++ POKE_U32 (if force_tun_device o <? 0 then 0 else force_tun_device o) ++
  enc_nullable (cert_principals o) ++ enc_nullable (force_command o) ++ enc_nullable (required_from_host_cert o) ++
  enc_nullable (required_from_host_keys o) ++ enc_array (env o) ++ enc_array (permitopen o) ++ enc_array (permitlisten o).

Lemma shown_as_ok o u : authopt_ok o -> authopt_ok (shown_as u o).
Proof.
  intros Ho. destruct u; [|exact Ho]. destruct Ho as [F1 F2 F3 _ _]. split; [exact F1|exact F2|exact F3| |].
  - cbn. split_and!; try done; split; try done; by repeat constructor.
  - cbn. split_and!; (split; [by constructor|done]).
Qed.

Lemma serialise_puts o u : authopt_ok o -> Puts (sshauthopt_serialise o u) (authopt_wire (shown_as u o)) tt.
Proof.
  intros Ho. pose proof (shown_as_ok o u Ho) as [_ _ _ (S1 & S2 & S3 & S4) (A1 & A2 & A3)].
  destruct Ho as [(F1 & F2 & F3 & F4 & F5 & F6 & F7) _ _ _ _]. unfold sshauthopt_serialise, authopt_wire.
  assert (forall x, is_byte x -> u8 x = x) as Hu by (intros x Hx; unfold u8, is_byte in *; by apply Z.mod_small).
  rewrite !Hu by done. assert (forall x, Puts (sshbuf_put_u8 x) [x] tt) as P8 by (intros x; apply appends_puts, sshbuf_put_u8_appends).
  destruct u; cbn [shown_as permit_port_forwarding_flag permit_agent_forwarding_flag permit_x11_forwarding_flag permit_pty_flag permit_user_rc
    restricted cert_authority valid_before force_tun_device cert_principals force_command required_from_host_cert required_from_host_keys
    env permitopen permitlisten set_arrays set_strings] in *.
  all: do 7 (eapply puts_bind; [apply P8|]); (eapply puts_bind; [apply appends_puts, sshbuf_put_u64_appends|]); (eapply puts_bind; [apply P8|]);
    (eapply puts_bind; [apply appends_puts, sshbuf_put_u32_appends|]);
    do 4 (eapply puts_bind; [by apply nullable_puts|]); do 2 (eapply puts_bind; [by apply array_puts|]); by apply array_puts.
Qed.

Lemma deserialise_reads o : authopt_ok o -> reads sshauthopt_deserialise (authopt_wire o) o.
Proof.
  intros Ho. pose proof Ho as [_ E T (S1 & S2 & S3 & S4) (A1 & A2 & A3)]. intros b rest. unfold sshauthopt_deserialise.
  rewrite malloc_reliable. cbn [negb]. revert b rest. unfold authopt_wire.
  assert (forall x, reads sshbuf_get_u8 [x] x) as R8 by (intros x; apply reads_gets, get_u8_gets).
  do 7 (eapply reads_bind; [apply R8|]). eapply reads_bind; [apply reads_gets, get_u64_gets|]. eapply reads_bind; [apply R8|].
  eapply reads_bind; [apply reads_gets, get_u32_gets|]. do 4 (eapply reads_bind; [by apply nullable_reads|]).
  do 2 (eapply reads_bind; [by apply array_reads|]). rewrite <- (app_nil_r (enc_array (permitlisten o))).
  eapply reads_bind; [by apply array_reads|]. rewrite (u64_small (valid_before o)) by done.
  match goal with |- reads (mret ?x) [] o => replace x with o; [apply reads_ret|] end.
  destruct T as [T|T]; destruct o; cbn in *.
  - by rewrite T.
  - rewrite (proj2 (Z.eqb_neq _ (-1))), (proj2 (Z.ltb_ge _ _)) by lia. cbn. rewrite u32_small by (unfold INT_MAX in *; lia).
    unfold int_of. by rewrite Z.gtb_ltb, (proj2 (Z.ltb_ge _ _)) by lia.
Qed.

(** Key options through the monitor.  Options that are written to a buffer
    with room for them are read back unchanged, and what follows them is left; in
    the form for an untrusted reader everything but the flags, the expiry time
    and the tunnel is replaced: a forced command, and no lists. *)
Theorem authopt_roundtrip o untrusted b :
  authopt_ok o -> buf_wf b -> locked b = false -> zlen (contents b) + zlen (authopt_wire (shown_as untrusted o)) <= max_size b ->
  exists b' w, sshauthopt_serialise o untrusted b = (Ok tt, b') /\ contents b' = contents b ++ w /\
    forall m rest, bufr m -> contents m = w ++ rest ->
      exists m', sshauthopt_deserialise m = (Ok (shown_as untrusted o), m') /\ contents m' = rest.
Proof.
  intros Ho Hb Hl Hfit. destruct (serialise_puts o untrusted Ho b Hb Hl Hfit) as (b' & E & _ & Hc). exists b', (authopt_wire (shown_as untrusted o)).
  split; [done|]. split; [done|]. intros m rest Hm Hcm. destruct (deserialise_reads _ (shown_as_ok o untrusted Ho) m rest Hm Hcm) as (m' & Em & _ & Hcm').
  eauto.
Qed.

(** * Merging *)

(** What a key may be used for. *)
Inductive use :=
| UsePortForwarding | UseAgentForwarding | UseX11Forwarding | UsePty | UseRc
| RunCommand (c : cstring) | ConnectTo (hp : cstring) | ListenOn (hp : cstring) | UseTunnel (n : Z).

Definition on_list (l : list cstring) (hp : cstring) : Prop := l = [] \/ In hp l.

(** The use is permitted by the options, apart from their time limit. *)
Definition permits (o : sshauthopt) (q : use) : Prop :=
  match q with
  | UsePortForwarding => permit_port_forwarding_flag o = 1
  | UseAgentForwarding => permit_agent_forwarding_flag o = 1
  | UseX11Forwarding => permit_x11_forwarding_flag o = 1
  | UsePty => permit_pty_flag o = 1
  | UseRc => permit_user_rc o = 1
  | RunCommand c => force_command o = None \/ force_command o = Some c
  | ConnectTo hp => permit_port_forwarding_flag o = 1 /\ on_list (permitopen o) hp
  | ListenOn hp => permit_port_forwarding_flag o = 1 /\ on_list (permitlisten o) hp
  | UseTunnel n => force_tun_device o = -1 \/ force_tun_device o = n
  end.

(** As in [auth_authorise_keyopts]. *)
Definition in_time (o : sshauthopt) (now : Z) : Prop := valid_before o = 0 \/ now <= valid_before o.

(** A use that a flag or the forced command decides. *)
Definition by_flag (q : use) : bool := match q with ConnectTo _ | ListenOn _ | UseTunnel _ => false | _ => true end.

Lemma dup_all_ok l : dup_all l = Some l.
Proof. induction l as [|s l IH]; [done|]. cbn. unfold strdup. rewrite malloc_reliable. by rewrite IH. Qed.
Lemma dup_strings_ok l : dup_strings l = Some l.
Proof. unfold dup_strings. destruct (Z.eqb_spec (zlen l) 0) as [Hl|]; [by destruct l|]. rewrite malloc_reliable. apply dup_all_ok. Qed.
Lemma merge_array_ok p a : merge_array p a = Some (match p with [] => a | _ => p end).
Proof.
  unfold merge_array. destruct p as [|s p].
  - change (zlen [] >? 0) with false. destruct a as [|s a]; [done|]. rewrite zlen_cons, Z.gtb_ltb, (proj2 (Z.ltb_lt _ _)) by (pose proof (zlen_nonneg a); lia). apply dup_strings_ok.
  - rewrite zlen_cons, Z.gtb_ltb, (proj2 (Z.ltb_lt _ _)) by (pose proof (zlen_nonneg p); lia). apply dup_strings_ok.
Qed.
Lemma strdup_null_ok s : strdup_null s = Some s.
Proof. destruct s; [|done]. cbn. unfold strdup. by rewrite malloc_reliable. Qed.
Lemma merge_command_ok p a :
  merge_command p a = if bool_decide (is_Some p /\ is_Some a /\ p <> a) then PFail (message "forced command options do not match")
    else PDone (match p with Some c => Some c | None => a end).
Proof.
  unfold merge_command, strdup. destruct p as [c|], a as [d|]; cbv beta zeta; rewrite ?malloc_reliable.
  - destruct (decide (c = d)) as [->|Hn]; [rewrite bool_decide_true, bool_decide_false by naive_solver; done|].
    rewrite bool_decide_false, bool_decide_true by naive_solver. done.
  - by rewrite bool_decide_false by (intros (_ & [? ?] & _); done).
  - by rewrite bool_decide_false by (intros ([? ?] & _); done).
  - by rewrite bool_decide_false by (intros ([? ?] & _); done).
Qed.

Lemma OPTFLAG_AND_1 p a : OPTFLAG_AND p a = 1 <-> p = 1 /\ a = 1.
Proof. unfold OPTFLAG_AND. destruct (Z.eqb_spec p 1), (Z.eqb_spec a 1); cbn; split; intros E; (done || lia). Qed.

(** The result of a merge. *)
Definition merged (p a : sshauthopt) : sshauthopt :=
  let f (x : sshauthopt -> Z) := OPTFLAG_AND (x p) (x a) in
  let g {A} (x : sshauthopt -> option A) := match x p with Some v => Some v | None => x a end in
  let h {A} (x : sshauthopt -> list A) := match x p with [] => x a | _ => x p end in
  mk_authopt (f permit_port_forwarding_flag) (f permit_agent_forwarding_flag) (f permit_x11_forwarding_flag) (f permit_pty_flag)
    (f permit_user_rc) 0 (merge_expiry (valid_before p) (valid_before a)) 0 None
    (if force_tun_device p =? -1 then force_tun_device a else force_tun_device p) (g force_command)
    (h env) (h permitopen) (h permitlisten) (g required_from_host_cert) (g required_from_host_keys).

Lemma merge_result p a :
  sshauthopt_merge p a =
    if bool_decide (is_Some (force_command p) /\ is_Some (force_command a) /\ force_command p <> force_command a)
    then PFail (message "forced command options do not match") else PDone (merged p a).
Proof.
  unfold sshauthopt_merge, sshauthopt_new. rewrite malloc_reliable, !strdup_null_ok, !merge_array_ok, merge_command_ok.
  destruct (bool_decide _); [done|]. reflexivity.
Qed.

(** C36: merging grants nothing.  The merge of two sets of options fails exactly
    when both force a command and the commands differ.  Whatever the result
    permits, the primary options permit, also their time limit and their lists of
    permitted hosts; and the flags and the forced command of the additional
    options hold as well. *)
Theorem authopt_merge_restricts primary additional :
  match sshauthopt_merge primary additional with
  | PFail _ => is_Some (force_command primary) /\ is_Some (force_command additional) /\ force_command primary <> force_command additional
  | PDone r =>
      (forall q, permits r q -> permits primary q /\ (by_flag q = true -> permits additional q)) /\
      (forall now, valid_before primary <> 0 -> in_time r now -> in_time primary now /\ in_time additional now) /\
      (forall l, required_from_host_cert primary = Some l -> required_from_host_cert r = Some l) /\
      (forall l, required_from_host_keys primary = Some l -> required_from_host_keys r = Some l)
  end.
Proof.
  rewrite merge_result. case_bool_decide as Hcmd; [done|]. split; [|split; [|split]].
  - intros q. destruct q; cbn [permits merged permit_port_forwarding_flag permit_agent_forwarding_flag permit_x11_forwarding_flag permit_pty_flag
      permit_user_rc force_command permitopen permitlisten force_tun_device by_flag]; rewrite ?OPTFLAG_AND_1; try naive_solver.
    + destruct (force_command primary) as [x|] eqn:Ep; [|naive_solver]. intros [?|[= ->]]; [done|]. split; [by right|]. intros _.
      destruct (force_command additional) as [y|] eqn:Ea; [|by left]. right. destruct (decide (c = y)) as [->|Hn]; [done|]. destruct Hcmd. naive_solver.
    + intros [[Hp _] Hl]. split; [split; [done|]|done]. destruct (permitopen primary); [by left|done].
    + intros [[Hp _] Hl]. split; [split; [done|]|done]. destruct (permitlisten primary); [by left|done].
    + destruct (Z.eqb_spec (force_tun_device primary) (-1)) as [E|E]; intros Ht; (split; [|done]); [by left|]. destruct Ht as [?|?]; [done|by right].
  - intros now Hv. unfold in_time. cbn [merged valid_before]. unfold merge_expiry. rewrite (proj2 (Z.eqb_neq (valid_before primary) 0)) by done. cbn [negb].
    destruct (Z.eqb_spec (valid_before additional) 0), (Z.ltb_spec (valid_before additional) (valid_before primary)); cbn [negb andb]; lia.
  - intros l Hl. cbn. by rewrite Hl.
  - intros l Hl. cbn. by rewrite Hl.
Qed.

(** The time limit of the additional options is lost when the primary ones have
    none. *)
Lemma authopt_merge_loses_expiry primary additional r :
  valid_before primary = 0 -> 0 <= valid_before additional -> sshauthopt_merge primary additional = PDone r -> valid_before r = 0.
Proof.
  intros Hp Ha. rewrite merge_result. destruct (bool_decide _); [done|]. intros [= <-]. cbn. unfold merge_expiry. rewrite Hp. cbn [Z.eqb negb].
  rewrite (proj2 (Z.ltb_ge _ _)) by lia. by rewrite andb_false_r.
Qed.

(** * Certificates *)

(** A list of options as it is in a certificate. *)
Definition enc_options (l : list (cstring * list Z)) : list Z := flat_map (fun '(n, d) => enc_string n ++ enc_string d) l.
Definition pair_ok (x : cstring * list Z) : Prop := cstring_ok (fst x) /\ string_ok (snd x) /\ bytes_ok (snd x).

(** The data of an option with a value: one string and nothing else. *)
Definition dec_value (d : list Z) : option cstring :=
  let v := zdrop 4 d in
  if (zlen d >=? 4) && (PEEK_U32 d =? zlen d - 4) &&
     negb ((zlen v >? 0) && match memchr 0 v with Some z => z <? zlen v - 1 | None => false end)
  then Some (cstr v) else None.

Definition bad_nul (v : list Z) : bool := (zlen v >? 0) && match memchr 0 v with Some z => z <? zlen v - 1 | None => false end.

Lemma dec_shape d : bytes_ok d -> zlen d >= 4 -> PEEK_U32 d = zlen d - 4 -> d = enc_string (zdrop 4 d).
Proof.
  intros Hb Hl Hp. assert (zlen (ztake 4 d) = 4) as Hh by (apply zlen_ztake; lia). assert (bytes_ok (ztake 4 d)) as Hbh.
  { rewrite <- (ztake_zdrop 4 d) in Hb. by apply Forall_app in Hb as [? _]. }
  pose proof (POKE_PEEK_U32 (ztake 4 d) (zdrop 4 d) Hbh Hh) as Hpk. rewrite ztake_zdrop, Hp in Hpk. unfold enc_string.
  rewrite zlen_zdrop by lia. rewrite Hpk. by rewrite ztake_zdrop.
Qed.

Lemma dec_value_enc s rest : string_ok s -> dec_value (enc_string s ++ rest) = if (zlen rest =? 0) && negb (bad_nul s) then Some (cstr s) else None.
Proof.
  intros Hs. pose proof (zlen_nonneg s). pose proof (zlen_nonneg rest). unfold dec_value. rewrite zlen_app, enc_string_len, Z.geb_leb, (proj2 (Z.leb_le _ _)) by lia.
  cbn [andb]. unfold enc_string. rewrite <- app_assoc, PEEK_POKE_U32, u32_small by (unfold string_ok, SSHBUF_SIZE_MAX in *; lia).
  rewrite zdrop_app_exact by done. destruct (Z.eqb_spec (zlen rest) 0) as [Hr|Hr].
  - destruct rest as [|x rest]; [|rewrite zlen_cons in Hr; pose proof (zlen_nonneg rest); lia]. rewrite app_nil_r, (proj2 (Z.eqb_eq _ _)) by (change (zlen (@nil Z)) with 0; lia). done.
  - by rewrite (proj2 (Z.eqb_neq _ _)) by lia.
Qed.

Lemma get_value data d :
  buf_wf data -> contents data = d -> string_ok d -> bytes_ok d ->
  match sshbuf_get_cstring data with
  | (Ok raw, data') => dec_value d = if sshbuf_len data' =? 0 then Some (cstr raw) else None
  | (Err _, _) => dec_value d = None
  end.
Proof.
  intros Hw Hc Hs Hb. unfold sshbuf_get_cstring, mbind, se_bind, se_get, se_lift.
  destruct (sshbuf_peek_string_direct data) as [v|e] eqn:Ep.
  - apply peek_string_inv in Ep as (Hv & rest & Hd); [|done|by rewrite Hc]. rewrite Hc in Hd. rewrite Hd, dec_value_enc by done. fold (bad_nul v).
    destruct (bad_nul v); [by rewrite andb_false_r|]. destruct (skip_string_gets v Hv data rest Hw) as (b' & E & Hx & Hr & _); [congruence|].
    rewrite E. unfold se_put. rewrite malloc_reliable. unfold mret, se_ret. cbn [negb]. rewrite andb_true_r, sshbuf_len_wf by apply Hx. by rewrite Hr.
  - unfold dec_value. destruct (Z.geb_spec (zlen d) 4); [|done]. destruct (Z.eqb_spec (PEEK_U32 d) (zlen d - 4)); [|done].
    pose proof (dec_shape d Hb ltac:(lia) ltac:(done)) as Hd. rewrite (peek_string_enc data (zdrop 4 d) []) in Ep; [done|done|by rewrite app_nil_r, Hc|].
    unfold string_ok in *. rewrite zlen_zdrop by lia. lia.
Qed.

(** What a critical option and an extension do. *)
Definition apply_critical (x : cstring * list Z) (o : sshauthopt) : option sshauthopt :=
  let '(n, d) := x in
  if bool_decide (n = str "force-command") then
    match dec_value d, force_command o with Some c, None => Some (set_command (Some c) o) | _, _ => None end
  else if bool_decide (n = str "source-address") then
    match dec_value d, required_from_host_cert o with
    | Some l, None => if addr_match_cidr_list None l =? -1 then None else Some (set_from_cert (Some l) o)
    | _, _ => None
    end
  else None.
Definition apply_extension (x : cstring * list Z) (o : sshauthopt) : option sshauthopt :=
  match extension_flag (fst x) with Some f => if zlen (snd x) =? 0 then Some (f o) else None | None => Some o end.

Fixpoint apply_all (f : cstring * list Z -> sshauthopt -> option sshauthopt) (l : list (cstring * list Z)) (o : sshauthopt) : option sshauthopt :=
  match l with [] => Some o | x :: l => match f x o with Some o => apply_all f l o | None => None end end.

Lemma critical_ok n d data o :
  buf_wf data -> contents data = d -> string_ok d -> bytes_ok d -> cert_option OPTIONS_CRITICAL true n data o = apply_critical (n, d) o.
Proof.
  intros Hw Hc Hs Hb. pose proof (get_value data d Hw Hc Hs Hb) as Hv. unfold cert_option, apply_critical, critical_option.
  change (negb (Z.land OPTIONS_CRITICAL OPTIONS_EXTENSIONS =? 0)) with false. change (negb (Z.land OPTIONS_CRITICAL OPTIONS_CRITICAL =? 0)) with true.
  cbv iota. assert (forall x : option cstring, bool_decide (is_Some x) = match x with Some _ => true | None => false end) as Hsome
    by (intros [x|]; [by apply bool_decide_true|by apply bool_decide_false; intros []]).
  rewrite !Hsome. destruct (bool_decide (n = str "force-command")).
  - destruct (sshbuf_get_cstring data) as [[raw|e] data']; rewrite Hv; [|done].
    destruct (force_command o), (sshbuf_len data' =? 0) eqn:El; cbv iota beta; by rewrite ?El.
  - destruct (bool_decide (n = str "source-address")); [|done]. destruct (sshbuf_get_cstring data) as [[raw|e] data']; rewrite Hv; [|done].
    destruct (required_from_host_cert o), (sshbuf_len data' =? 0) eqn:El; cbv iota beta; try done; destruct (_ =? -1); cbv iota beta; by rewrite ?El.
Qed.

Lemma extension_ok n d data o :
  buf_wf data -> contents data = d -> cert_option OPTIONS_EXTENSIONS false n data o = apply_extension (n, d) o.
Proof.
  intros Hw Hc. unfold cert_option, apply_extension. cbn [fst snd].
  change (negb (Z.land OPTIONS_EXTENSIONS OPTIONS_EXTENSIONS =? 0)) with true. change (negb (Z.land OPTIONS_EXTENSIONS OPTIONS_CRITICAL =? 0)) with false.
  cbv iota. destruct (extension_flag n); [|done]. cbn [negb]. rewrite sshbuf_len_wf, Hc by done. by destruct (zlen d =? 0).
Qed.

Lemma option_loop_ok which crit f l :
  (forall n d data o, buf_wf data -> contents data = d -> string_ok d -> bytes_ok d -> cert_option which crit n data o = f (n, d) o) ->
  forall fuel c o, Forall pair_ok l -> bufr c -> contents c = enc_options l -> (length l <= fuel)%nat -> cert_option_loop fuel which crit c o = apply_all f l o.
Proof.
  intros Hf. induction l as [|[n d] l IH]; intros fuel c o Hl Hb Hc Hfuel.
  - destruct fuel; cbn [cert_option_loop apply_all]; rewrite sshbuf_len_wf, Hc by apply Hb; done.
  - inversion Hl as [|? ? [[Hn1 Hn2] [Hd1 Hd2]] Hl']; subst. cbn [fst snd] in *. destruct fuel as [|fuel]; [cbn in Hfuel; lia|].
    cbn [cert_option_loop apply_all]. cbn [enc_options flat_map] in Hc. rewrite <- app_assoc in Hc.
    rewrite sshbuf_len_wf, Hc by apply Hb. rewrite !zlen_app, enc_string_len. pose proof (zlen_nonneg n).
    pose proof (zlen_nonneg (enc_string d)). pose proof (zlen_nonneg (flat_map (fun '(n, d) => enc_string n ++ enc_string d) l)).
    rewrite Z.gtb_ltb, (proj2 (Z.ltb_lt _ _)) by lia.
    destruct (reads_gets _ _ _ (get_cstring_gets n Hn1 Hn2) c _ Hb Hc) as (c1 & E1 & Hb1 & Hc1). rewrite E1.
    destruct (froms_child c1 d _ Hb1 Hc1 Hd1) as (data & c2 & E2 & Hdb & Hdc & Hx & Hr). rewrite E2.
    rewrite (Hf _ d) by (done || apply Hdb). rewrite cstr_no_nul by done. destruct (f (n, d) o) as [o'|]; [|done].
    apply IH; [done|exact (bufr_ext _ _ Hb1 Hx)|done|cbn in Hfuel; lia].
Qed.

Lemma enc_options_len l : zlen l <= zlen (enc_options l).
Proof.
  induction l as [|[n d] l IH]; [done|]. cbn [enc_options flat_map]. fold (enc_options l). rewrite zlen_cons, !zlen_app, enc_string_len.
  pose proof (zlen_nonneg n). pose proof (zlen_nonneg (enc_string d)). lia.
Qed.

Lemma option_list_ok which crit f l o b :
  (forall n d data o, buf_wf data -> contents data = d -> string_ok d -> bytes_ok d -> cert_option which crit n data o = f (n, d) o) ->
  Forall pair_ok l -> bufr b -> contents b = enc_options l -> cert_option_list o b which crit = apply_all f l o.
Proof.
  intros Hf Hl Hb Hc. unfold cert_option_list. destruct (fromb_from b Hb) as (c & b1 & Ec & E & _). rewrite E.
  destruct (sshbuf_from_spec _ _ Ec) as (Cw & Cc & Cr & _). assert (bufr c) as Hbc.
  { split; [done|]. unfold sshbuf_from in Ec. destruct (_ || _); [done|]. by injection Ec as <-. }
  eapply option_loop_ok; [done|done|done|by rewrite Cc|]. rewrite sshbuf_len_wf, Cc, Hc by done. pose proof (enc_options_len l). unfold zlen in *. lia.
Qed.

Definition fc_name : cstring := str "force-command".
Definition sa_name : cstring := str "source-address".
Lemma names_differ : fc_name <> sa_name.
Proof. by apply (bool_decide_unpack _). Qed.

(** A critical option that is understood. *)
Definition critical_good (x : cstring * list Z) : Prop :=
  (fst x = fc_name /\ is_Some (dec_value (snd x))) \/
  (fst x = sa_name /\ exists l, dec_value (snd x) = Some l /\ addr_match_cidr_list None l <> -1).
(** An extension that is known has no data. *)
Definition extension_good (x : cstring * list Z) : Prop := is_Some (extension_flag (fst x)) -> snd x = [].

(** The options have the value [v] under the name [n]. *)
Definition has_value (n : cstring) (l : list (cstring * list Z)) (v : cstring) : Prop := exists d, In (n, d) l /\ dec_value d = Some v.

Definition flags_of (o : sshauthopt) : list Z :=
  [permit_port_forwarding_flag o; permit_agent_forwarding_flag o; permit_x11_forwarding_flag o; permit_pty_flag o; permit_user_rc o].

Lemma critical_cases x o :
  match apply_critical x o with
  | Some o' => critical_good x /\
      ((fst x = fc_name /\ force_command o = None /\ exists c, dec_value (snd x) = Some c /\ o' = set_command (Some c) o) \/
       (fst x = sa_name /\ required_from_host_cert o = None /\ exists l, dec_value (snd x) = Some l /\ o' = set_from_cert (Some l) o))
  | None => critical_good x -> (fst x = fc_name /\ force_command o <> None) \/ (fst x = sa_name /\ required_from_host_cert o <> None)
  end.
Proof.
  destruct x as [n d]. unfold apply_critical, critical_good. cbn [fst snd]. fold fc_name sa_name. pose proof names_differ as Hd.
  case_bool_decide as Hn; [subst n|].
  - destruct (dec_value d) as [c|]; [|naive_solver]. destruct (force_command o); [naive_solver|]. split; [left; by eauto|left; eauto].
  - case_bool_decide as Hn2; [subst n|naive_solver]. destruct (dec_value d) as [l|]; [|naive_solver].
    destruct (required_from_host_cert o); [naive_solver|]. destruct (Z.eqb_spec (addr_match_cidr_list None l) (-1)); [naive_solver|].
    split; [right; eauto|right; eauto].
Qed.

Lemma has_value_cons n x l v : has_value n (x :: l) v <-> (fst x = n /\ dec_value (snd x) = Some v) \/ has_value n l v.
Proof.
  unfold has_value. destruct x as [m d]. cbn [In fst snd]. split.
  - intros (d' & [[= -> ->]|Hi] & Hv); eauto.
  - intros [[-> Hv]|(d' & Hi & Hv)]; eauto.
Qed.

Lemma critical_all cs : forall o,
  match apply_all apply_critical cs o with
  | Some o' =>
      Forall critical_good cs /\ NoDup (map fst cs) /\ flags_of o' = flags_of o /\
      (In fc_name (map fst cs) -> force_command o = None) /\ (In sa_name (map fst cs) -> required_from_host_cert o = None) /\
      (forall c, force_command o' = Some c <-> force_command o = Some c \/ has_value fc_name cs c) /\
      (forall l, required_from_host_cert o' = Some l <-> required_from_host_cert o = Some l \/ has_value sa_name cs l)
  | None =>
      Forall critical_good cs -> NoDup (map fst cs) ->
      (In fc_name (map fst cs) /\ force_command o <> None) \/ (In sa_name (map fst cs) /\ required_from_host_cert o <> None)
  end.
Proof.
  pose proof names_differ as Hd. induction cs as [|x cs IH]; intros o; cbn [apply_all].
  { split_and!; try done; try (by constructor); intros c; split; try (by left); intros [?|(d & [] & _)]; done. }
  pose proof (critical_cases x o) as Hx. destruct (apply_critical x o) as [o1|].
  - destruct Hx as [Hg Hx]. specialize (IH o1). destruct (apply_all apply_critical cs o1) as [o'|].
    + destruct IH as (I1 & I2 & I3 & I4 & I5 & I6 & I7). destruct Hx as [(En & Ef & c & Ec & ->)|(En & Ef & l & El & ->)];
        cbn [force_command required_from_host_cert set_command set_from_cert set_strings] in *.
      * split_and!; try done; [by constructor|cbn [map]; rewrite En; constructor; [|done]|..].
        -- intros Hin. apply list_elem_of_In in Hin. by specialize (I4 Hin).
        -- cbn [map In]. intros [E|Hin]; [congruence|auto].
        -- intros c'. rewrite I6, has_value_cons, Ef, Ec. intuition congruence.
        -- intros l'. assert (fst x <> sa_name) by congruence. rewrite I7, has_value_cons. tauto.
      * split_and!; try done; [by constructor|cbn [map]; rewrite En; constructor; [|done]|..].
        -- intros Hin. apply list_elem_of_In in Hin. by specialize (I5 Hin).
        -- cbn [map In]. intros [E|Hin]; [congruence|auto].
        -- intros c'. assert (fst x <> fc_name) by congruence. rewrite I6, has_value_cons. tauto.
        -- intros l'. rewrite I7, has_value_cons, Ef, El. intuition congruence.
    + intros Hf Hnd. inversion Hf as [|? ? _ Hf']; subst. inversion Hnd as [|? ? Hni Hnd']; subst. rewrite list_elem_of_In in Hni.
      specialize (IH Hf' Hnd'). destruct Hx as [(En & Ef & c & Ec & ->)|(En & Ef & l & El & ->)]; rewrite En in Hni;
        cbn [force_command required_from_host_cert set_command set_from_cert set_strings] in *; cbn [map In]; tauto.
  - intros Hf Hnd. inversion Hf; subst. destruct Hx as [[E N]|[E N]]; [done|left|right]; by (split; [left|]).
Qed.

(** The extensions and their flags. *)
Definition flag_named : list (cstring * (sshauthopt -> Z)) :=
  [(str "permit-X11-forwarding", permit_x11_forwarding_flag); (str "permit-agent-forwarding", permit_agent_forwarding_flag);
   (str "permit-port-forwarding", permit_port_forwarding_flag); (str "permit-pty", permit_pty_flag); (str "permit-user-rc", permit_user_rc)].

(** What an extension leaves alone. *)
Definition not_flags (o : sshauthopt) : option cstring * option cstring := (force_command o, required_from_host_cert o).

Lemma extension_flag_sets n g o :
  extension_flag n = Some g ->
  not_flags (g o) = not_flags o /\ forall m f, In (m, f) flag_named -> f (g o) = 1 <-> m = n \/ f o = 1.
Proof.
  unfold extension_flag. repeat (case_bool_decide as Hn; [subst n|clear Hn]); intros [= <-]; (split; [done|]);
    intros m f Hin; repeat (destruct Hin as [[= <- <-]|Hin]); try done; cbn -[str];
    (split; [intros Hf; first [by left|by right]|intros [Hf|Hf]; first [done|by vm_compute in Hf]]).
Qed.
Lemma extension_flag_unknown n : extension_flag n = None -> forall m f, In (m, f) flag_named -> m <> n.
Proof.
  unfold extension_flag. repeat (case_bool_decide; [done|]). intros _ m f Hin. repeat (destruct Hin as [[= <- <-]|Hin]; [congruence|]). done.
Qed.

Lemma extension_all es : forall o,
  match apply_all apply_extension es o with
  | Some o' =>
      Forall extension_good es /\ not_flags o' = not_flags o /\
      forall m f, In (m, f) flag_named -> f o' = 1 <-> In m (map fst es) \/ f o = 1
  | None => ~ Forall extension_good es
  end.
Proof.
  induction es as [|[n d] es IH]; intros o; cbn [apply_all]; [split; [constructor|]; split; [done|]; intros; cbn [map In]; tauto|].
  unfold apply_extension at 1. cbn [fst snd map In]. destruct (extension_flag n) as [g|] eqn:Eg.
  - destruct (Z.eqb_spec (zlen d) 0) as [Hd|Hd].
    + assert (d = []) as -> by (destruct d; [done|rewrite zlen_cons in Hd; pose proof (zlen_nonneg d); lia]).
      destruct (extension_flag_sets n g o Eg) as [Hn Hg]. specialize (IH (g o)). destruct (apply_all apply_extension es (g o)).
      * destruct IH as (I1 & I2 & I3). split; [by constructor|]. split; [congruence|]. intros m f Hin. rewrite I3, Hg by done. intuition congruence.
      * intros Hf. inversion Hf; subst. done.
    + intros Hf. inversion Hf as [|? ? Hx _]; subst. unfold extension_good in Hx. cbn [fst snd] in Hx. rewrite Eg in Hx. by rewrite Hx in Hd.
  - specialize (IH o). destruct (apply_all apply_extension es o).
    + destruct IH as (I1 & I2 & I3). split; [constructor; [|done]; unfold extension_good; cbn [fst]; rewrite Eg; by intros []|]. split; [done|].
      intros m f Hin. pose proof (extension_flag_unknown n Eg m f Hin). rewrite I3 by done. intuition congruence.
    + intros Hf. inversion Hf; subst. done.
Qed.

(** C37: the options of a user certificate.  They are accepted exactly when every
    critical option is understood and has a well-formed value, none is given
    twice, and the extensions that are known have no data; unknown extensions are
    ignored.  Then the forced command and the permitted source addresses are the
    values of the critical options, and a permission is granted exactly when its
    extension is listed. *)
Theorem cert_options_meaning cs es critical extensions :
  Forall pair_ok cs -> Forall pair_ok es -> bufr critical -> bufr extensions ->
  contents critical = enc_options cs -> contents extensions = enc_options es ->
  match sshauthopt_from_cert (mk_cert_key true (Some (SSH2_CERT_TYPE_USER, critical, extensions))) with
  | Some o =>
      (Forall critical_good cs /\ NoDup (map fst cs) /\ Forall extension_good es) /\
      (forall c, force_command o = Some c <-> has_value fc_name cs c) /\
      (forall l, required_from_host_cert o = Some l <-> has_value sa_name cs l) /\
      forall m f, In (m, f) flag_named -> f o = 1 <-> In m (map fst es)
  | None => ~ (Forall critical_good cs /\ NoDup (map fst cs) /\ Forall extension_good es)
  end.
Proof.
  intros Hcs Hes Hbc Hbe Hcc Hce. unfold sshauthopt_from_cert. cbn [is_cert ck_cert negb]. change (negb (SSH2_CERT_TYPE_USER =? SSH2_CERT_TYPE_USER)) with false.
  cbv iota. unfold sshauthopt_new. rewrite malloc_reliable. cbv iota.
  match goal with |- context [cert_option_list ?o critical _ _] => set (o0 := o) end.
  rewrite (option_list_ok _ _ apply_critical cs o0 critical critical_ok Hcs Hbc Hcc). pose proof (critical_all cs o0) as Hc.
  destruct (apply_all apply_critical cs o0) as [o1|].
  - destruct Hc as (C1 & C2 & C3 & _ & _ & C4 & C5).
    rewrite (option_list_ok _ _ apply_extension es o1 extensions) by (done || (intros; by apply extension_ok)).
    pose proof (extension_all es o1) as He. destruct (apply_all apply_extension es o1) as [o|]; [|tauto].
    destruct He as (E1 & [= E2 E3] & E4). split; [done|]. rewrite E2, E3. split_and!.
    + intros c. rewrite C4. cbn. intuition congruence.
    + intros l. rewrite C5. cbn. intuition congruence.
    + intros m f Hin. rewrite E4 by done. enough (f o1 <> 1) by tauto. injection C3 as F1 F2 F3 F4 F5.
      repeat (destruct Hin as [[= _ <-]|Hin]; [first [rewrite F1|rewrite F2|rewrite F3|rewrite F4|rewrite F5]; done|]). done.
  - intros (G1 & G2 & _). by destruct (Hc G1 G2) as [[_ Hn]|[_ Hn]].
Qed.
End laws.

(** * Witnesses *)

(** A buffer that holds the bytes. *)
Definition held (e : list Z) : sshbuf := mk_sshbuf e 0 (zlen e) (zlen e) (zlen e) true 1.
Lemma held_ok e : zlen e <= SSHBUF_SIZE_MAX -> bufr (held e) /\ contents (held e) = e.
Proof.
  intros He. destruct (@sshbuf_from_spec alloc_all e (held e)) as (Hw & Hc & _).
  - unfold sshbuf_from. by rewrite Z.gtb_ltb, (proj2 (Z.ltb_ge _ _)) by lia.
  - split; [split; [done|by vm_compute]|done].
Qed.

(** The options of a key that may only run a command. *)
Definition demo_opts (e : Z) (c : option cstring) : sshauthopt :=
  mk_authopt 0 1 0 1 0 0 e 0 None (-1) c [str "LANG=C"] [] [] None (Some (str "192.0.2.0/24")).
Lemma demo_opts_ok : authopt_ok (demo_opts 0 (Some (str "backup"))).
Proof.
  assert (forall s, bool_decide (no_nul s) && (zlen s <=? SSHBUF_SIZE_MAX - 4) = true -> cstring_ok s) as Hs.
  { intros s [Hn Hl]%andb_prop. apply bool_decide_eq_true in Hn. apply Z.leb_le in Hl. split; [exact Hl|exact Hn]. }
  split; cbn [permit_port_forwarding_flag permit_agent_forwarding_flag permit_x11_forwarding_flag permit_pty_flag permit_user_rc restricted
    cert_authority valid_before force_tun_device cert_principals force_command required_from_host_cert required_from_host_keys env permitopen
    permitlisten demo_opts].
  - unfold is_byte. lia.
  - lia.
  - by left.
  - split_and!; [exact I|by apply Hs; vm_compute|exact I|by apply Hs; vm_compute].
  - split_and!; (split; [repeat (apply Forall_cons; split; [by apply Hs; vm_compute|]); apply Forall_nil; exact I|split; by vm_compute]).
Qed.

Lemma authopt_roundtrip_witness : exists b b' w,
  @sshauthopt_serialise alloc_all (demo_opts 0 (Some (str "backup"))) true b = (Ok tt, b') /\
  (forall m, bufr m -> contents m = w ++ [7] -> exists m' o, @sshauthopt_deserialise alloc_all m = (Ok o, m') /\
     force_command o = Some (str "true") /\ env o = [] /\ contents m' = [7]).
Proof.
  destruct (@sshbuf_new_ok alloc_all alloc_all_reliable) as [b Eb]. destruct (@sshbuf_new_spec alloc_all b Eb) as (Hw & Hc & Hk & Hx).
  destruct (@authopt_roundtrip alloc_all alloc_all_reliable (demo_opts 0 (Some (str "backup"))) true b demo_opts_ok Hw Hk) as (b' & w & E & _ & Hr).
  { rewrite Hc, Hx. by vm_compute. }
  exists b, b', w. split; [exact E|]. intros m Hm Hcm. destruct (Hr m [7] Hm Hcm) as (m' & Em & Hm'). eexists m', _.
  split; [exact Em|]. split; [reflexivity|]. split; [reflexivity|exact Hm'].
Defined.

Lemma authopt_merge_restricts_witness : exists r,
  @sshauthopt_merge alloc_all (demo_opts 500 None) (demo_opts 300 (Some (str "backup"))) = PDone r /\ permits r UsePty /\
  (permits r (RunCommand (str "sh")) -> str "backup" = str "sh") /\ (in_time r 400 -> in_time (demo_opts 300 (Some (str "backup"))) 400).
Proof.
  pose proof (@authopt_merge_restricts alloc_all alloc_all_reliable (demo_opts 500 None) (demo_opts 300 (Some (str "backup")))) as M.
  remember (@sshauthopt_merge alloc_all (demo_opts 500 None) (demo_opts 300 (Some (str "backup")))) as res eqn:Er.
  vm_compute in Er. subst res. eexists. split; [reflexivity|]. cbv beta iota in M. destruct M as (M1 & M2 & _). split; [reflexivity|]. split.
  - intros Hp. apply M1 in Hp as [_ Hp]. destruct (Hp eq_refl) as [?|E]; [discriminate|by injection E].
  - intros Ht. apply M2; [by vm_compute|exact Ht].
Defined.

Definition demo_critical : list (cstring * list Z) := [(str "force-command", enc_string (str "backup")); (str "source-address", enc_string (str "10.1.0.0/16"))].
Definition demo_extensions : list (cstring * list Z) := [(str "permit-pty", []); (str "vendor@example.com", [1; 2])].

Lemma cert_options_meaning_witness : exists o,
  @sshauthopt_from_cert alloc_all demo_resolver (mk_cert_key true
    (Some (SSH2_CERT_TYPE_USER, held (enc_options demo_critical), held (enc_options demo_extensions)))) = Some o /\
  (forall c, force_command o = Some c <-> has_value fc_name demo_critical c) /\ (permit_pty_flag o = 1 <-> In (str "permit-pty") (map fst demo_extensions)).
Proof.
  assert (forall l, forallb (fun x => bool_decide (no_nul (fst x)) && (zlen (fst x) <=? SSHBUF_SIZE_MAX - 4) && (zlen (snd x) <=? SSHBUF_SIZE_MAX - 4) &&
    bool_decide (bytes_ok (snd x))) l = true -> Forall pair_ok l) as Hl.
  { intros l Hl. apply List.Forall_forall. intros [n d] Hin. rewrite forallb_forall in Hl. specialize (Hl _ Hin). cbn [fst snd] in Hl.
    rewrite !andb_true_iff, !bool_decide_eq_true, !Z.leb_le in Hl. destruct Hl as [[[A B] C] D]. split; [split; [exact B|exact A]|split; [exact C|exact D]]. }
  pose proof (held_ok (enc_options demo_critical) ltac:(by vm_compute)) as [B1 C1].
  pose proof (held_ok (enc_options demo_extensions) ltac:(by vm_compute)) as [B2 C2].
  pose proof (@cert_options_meaning alloc_all alloc_all_reliable demo_resolver demo_critical demo_extensions _ _
    (Hl demo_critical ltac:(by vm_compute)) (Hl demo_extensions ltac:(by vm_compute)) B1 B2 C1 C2) as M.
  remember (@sshauthopt_from_cert alloc_all demo_resolver (mk_cert_key true
    (Some (SSH2_CERT_TYPE_USER, held (enc_options demo_critical), held (enc_options demo_extensions))))) as r eqn:Er.
  vm_compute in Er. subst r. eexists. split; [reflexivity|]. destruct M as (_ & M2 & _ & M4). split; [exact M2|].
  apply (M4 (str "permit-pty") permit_pty_flag). right. right. right. left. reflexivity.
Defined.
