(* ===== verification/Auth.v ===== *)
(** User authentication (auth.c, auth2.c, auth-passwd.c, auth-shadow.c,
    groupaccess.c): who may log in, the lists of required methods, passwords and
    the options that are active for a session.

    A function that can end the process with [fatal] or that may follow a null
    pointer is a computation in [ST], which keeps these outcomes apart.  What
    the system answers (password and group data base, clock, files, crypt) is in
    the class [World]; a history of requests has one for each request, since the
    answers change.  The build is the one for Linux: shadow passwords with expiry,
    no PAM, Kerberos, GSSAPI, BSD authentication or audit. *)

From Stdlib Require Import String.
From S2P Require Import Prelude Sshbuf SshbufGetPut Match AddrMatch Misc AuthOptions.
From stdpp Require Import pretty.
Local Open Scope Z_scope.

(** * Outcomes *)

Inductive outcome (A : Type) := Done (a : A) | Fatal | Crash.
Arguments Done {A}.
Arguments Fatal {A}.
Arguments Crash {A}.

Definition ST (S A : Type) : Type := S -> outcome (A * S).
#[global] Instance st_ret {S} : MRet (ST S) := fun _ a s => Done (a, s).
#[global] Instance st_bind {S} : MBind (ST S) := fun _ _ f m s =>
  match m s with Done (a, s') => f a s' | Fatal => Fatal | Crash => Crash end.

Definition fatal {S A} : ST S A := fun _ => Fatal.
Definition asks {S A} (f : S -> A) : ST S A := fun s => Done (f s, s).
Definition change {S} (f : S -> S) : ST S unit := fun s => Done (tt, f s).
(** A null pointer is followed. *)
Definition deref {S A} (p : option A) : ST S A := fun s => match p with Some a => Done (a, s) | None => Crash end.
(** A result that must be there. *)
Definition need {S A} (r : result A) : ST S A := fun s => match r with Ok a => Done (a, s) | Err _ => Fatal end.
Definition needs {S A} (p : option A) : ST S A := fun s => match p with Some a => Done (a, s) | None => Fatal end.
(** A function of a buffer that must succeed. *)
Definition with_buf {S A} (b : sshbuf) (m : SE sshbuf A) : ST S (A * sshbuf) := fun s =>
  match m b with (Ok a, b') => Done ((a, b'), s) | (Err _, _) => Fatal end.
Definition given {S A} (o : outcome A) : ST S A := fun s =>
  match o with Done a => Done (a, s) | Fatal => Fatal | Crash => Crash end.

(** * Data *)

Record passwd := mk_passwd { pw_name : cstring; pw_passwd : option cstring; pw_uid : Z; pw_gid : Z; pw_gecos : cstring; pw_dir : cstring; pw_shell : cstring }.
Record spwd := mk_spwd { sp_pwdp : option cstring; sp_lstchg : Z; sp_max : Z; sp_warn : Z; sp_expire : Z }.

Definition PERMIT_NO : Z := 0.
Definition PERMIT_FORCED_ONLY : Z := 1.
Definition PERMIT_NO_PASSWD : Z := 2.
Definition PERMIT_YES : Z := 3.

(** The part of the server's options that authentication reads. *)
Record ServerOptions := mk_options {
  use_pam : bool; permit_root_login : Z; permit_empty_passwd : bool;
  password_authentication : bool; pubkey_authentication : bool; hostbased_authentication : bool; kbd_interactive_authentication : bool;
  deny_users : list cstring; allow_users : list cstring; deny_groups : list cstring; allow_groups : list cstring;
  chroot_directory : option cstring; opt_auth_methods : list cstring;
  hostbased_algorithms : option cstring; pubkey_algorithms : option cstring
}.
Definition set_opt_methods (l : list cstring) (o : ServerOptions) : ServerOptions :=
  mk_options (use_pam o) (permit_root_login o) (permit_empty_passwd o) (password_authentication o) (pubkey_authentication o)
    (hostbased_authentication o) (kbd_interactive_authentication o) (deny_users o) (allow_users o) (deny_groups o) (allow_groups o)
    (chroot_directory o) l (hostbased_algorithms o) (pubkey_algorithms o).

(** Keys (sshkey.c, ssh-xkalg.c). *)
Class KeyLib := {
  sshkey : Type;
  Xkey_from_blob : cstring -> list Z -> result sshkey;
  sshkey_is_rsa : sshkey -> bool;
  sshkey_equal_public : sshkey -> sshkey -> bool;
  sshkey_from_private : sshkey -> result sshkey;
  sshkey_format_text : sshkey -> result (list Z);
  Xkey_verify : cstring -> sshkey -> list Z -> list Z -> bool;
  Xkey_puts : cstring -> sshkey -> result (list Z);
  Xkey_sign : cstring -> sshkey -> Z * Z -> list Z -> result (list Z)
}.

(** The answers of the system during one request. *)
Class World `{KeyLib} := {
  getpwnam : cstring -> option passwd;
  getspnam : cstring -> option spwd;
  time_now : Z;
  stat_mode : cstring -> option Z;
  getgrouplist : cstring -> Z -> list Z;
  getgrgid : Z -> option cstring;
  canonical_hostname : cstring;
  remote_ipaddr : cstring;
  xcrypt : cstring -> option cstring -> option cstring;
  parse_server_match_config : ServerOptions -> cstring -> ServerOptions;
  user_xkey_allowed : ServerOptions -> passwd -> cstring -> sshkey -> Z -> bool * option sshauthopt;
  hostbased_xkey_allowed : ServerOptions -> passwd -> cstring -> sshkey -> cstring -> cstring -> bool;
  auth2_read_banner : option cstring;
  choose_dh : Z -> Z -> Z -> option (list Z * list Z)
}.

(** What the process is started with: the account of the unprivileged child. *)
Class Process := privsep_ids : option (Z * Z).

Section auth.
Context `{Allocator} `{Getaddrinfo} `{KeyLib} `{Process}.

Record Authctxt := mk_authctxt {
  valid : bool; attempt : Z; failures : Z; force_pwchange : bool;
  user : option cstring; service : option cstring; style : option cstring; pw : option passwd;
  auth_methods : list cstring; prev_keys : list sshkey;
  auth_method_key : option sshkey; auth_method_info : option cstring; session_info : option sshbuf
}.

Definition set_counts (a f : Z) (c : Authctxt) : Authctxt :=
  mk_authctxt (valid c) a f (force_pwchange c) (user c) (service c) (style c) (pw c) (auth_methods c) (prev_keys c) (auth_method_key c)
    (auth_method_info c) (session_info c).
Definition set_force_pwchange (c : Authctxt) : Authctxt :=
  mk_authctxt (valid c) (attempt c) (failures c) true (user c) (service c) (style c) (pw c) (auth_methods c) (prev_keys c) (auth_method_key c)
    (auth_method_info c) (session_info c).
Definition set_user (v : bool) (u : option cstring) (p : option passwd) (c : Authctxt) : Authctxt :=
  mk_authctxt v (attempt c) (failures c) (force_pwchange c) u (service c) (style c) p (auth_methods c) (prev_keys c) (auth_method_key c)
    (auth_method_info c) (session_info c).
Definition set_service (sv st : option cstring) (c : Authctxt) : Authctxt :=
  mk_authctxt (valid c) (attempt c) (failures c) (force_pwchange c) (user c) sv st (pw c) (auth_methods c) (prev_keys c) (auth_method_key c)
    (auth_method_info c) (session_info c).
Definition set_methods (l : list cstring) (c : Authctxt) : Authctxt :=
  mk_authctxt (valid c) (attempt c) (failures c) (force_pwchange c) (user c) (service c) (style c) (pw c) l (prev_keys c) (auth_method_key c)
    (auth_method_info c) (session_info c).
Definition set_keys (l : list sshkey) (k : option sshkey) (c : Authctxt) : Authctxt :=
  mk_authctxt (valid c) (attempt c) (failures c) (force_pwchange c) (user c) (service c) (style c) (pw c) (auth_methods c) l k
    (auth_method_info c) (session_info c).
Definition set_info (i : option cstring) (c : Authctxt) : Authctxt :=
  mk_authctxt (valid c) (attempt c) (failures c) (force_pwchange c) (user c) (service c) (style c) (pw c) (auth_methods c) (prev_keys c)
    (auth_method_key c) i (session_info c).
Definition set_session_info (b : option sshbuf) (c : Authctxt) : Authctxt :=
  mk_authctxt (valid c) (attempt c) (failures c) (force_pwchange c) (user c) (service c) (style c) (pw c) (auth_methods c) (prev_keys c)
    (auth_method_key c) (auth_method_info c) b.

(** The variables of the process that authentication uses. *)
Record authst := mk_authst {
  options : ServerOptions; auth_opts : option sshauthopt; loginmsg : sshbuf; ctx : Authctxt; expire_checked : bool; none_enabled : bool
}.
Definition set_options (o : ServerOptions) (s : authst) : authst :=
  mk_authst o (auth_opts s) (loginmsg s) (ctx s) (expire_checked s) (none_enabled s).
Definition set_auth_opts (o : option sshauthopt) (s : authst) : authst :=
  mk_authst (options s) o (loginmsg s) (ctx s) (expire_checked s) (none_enabled s).
Definition set_loginmsg (b : sshbuf) (s : authst) : authst :=
  mk_authst (options s) (auth_opts s) b (ctx s) (expire_checked s) (none_enabled s).
Definition set_ctx (c : Authctxt) (s : authst) : authst :=
  mk_authst (options s) (auth_opts s) (loginmsg s) c (expire_checked s) (none_enabled s).
Definition set_expire_checked (s : authst) : authst :=
  mk_authst (options s) (auth_opts s) (loginmsg s) (ctx s) true (none_enabled s).
Definition change_ctx (f : Authctxt -> Authctxt) : ST authst unit := change (fun s => set_ctx (f (ctx s)) s).

Definition xstrdup {S} (s : cstring) : ST S cstring := if malloc_ok (zlen s + 1) then mret s else fatal.

(** sshbuf_putf with the formatted text. *)
Definition sshbuf_putf (text : list Z) : SE sshbuf unit :=
  if zlen text =? 0 then mret tt
  else
    p ← sshbuf_reserve (zlen text + 1);
    _ ← buf_write p (text ++ [0]);
    sshbuf_consume_end 1.

(** * Groups (groupaccess.c) *)

Definition ga_init `{!World} (name : cstring) (base : Z) : list cstring := omap getgrgid (getgrouplist name base).

Definition ga_match (groups_byname groups : list cstring) : bool :=
  existsb (fun g => existsb (fun p => match_pattern g p) groups) groups_byname.

Fixpoint ga_match_pattern_list (groups_byname : list cstring) (group_pattern : cstring) (found : bool) : bool :=
  match groups_byname with
  | [] => found
  | g :: gs =>
      let r := match_usergroup_pattern_list g group_pattern in
      if r =? -1 then false
      else if r =? 0 then ga_match_pattern_list gs group_pattern found
      else ga_match_pattern_list gs group_pattern (if r =? 1 then true else found)
  end.

(** * Expiry (auth-shadow.c) *)

Definition DAY : Z := 24 * 60 * 60.

Definition login_message (text : list Z) : ST authst unit :=
  b ← asks loginmsg;
  '(_, b) ← with_buf b (sshbuf_putf text);
  change (set_loginmsg b).

Definition expire_text (what : string) (daysleft : Z) : list Z :=
  str "Your " ++ str what ++ str " will expire in " ++ str (pretty daysleft) ++ str " day" ++ (if daysleft =? 1 then [] else str "s") ++ str "." ++ [10].

Definition auth_shadow_acctexpired `{!World} (spw : spwd) : ST authst bool :=
  let today := time_now / DAY in
  let daysleft := int_of (u32 (sp_expire spw - today)) in
  if sp_expire spw =? -1 then mret false
  else if daysleft <? 0 then mret true
  else if daysleft <=? sp_warn spw then _ ← login_message (expire_text "account" daysleft); mret false
  else mret false.

Definition auth_shadow_pwexpired `{!World} : ST authst bool :=
  c ← asks ctx;
  p ← deref (pw c);
  match getspnam (pw_name p) with
  | None => mret false
  | Some spw =>
      let today := time_now / DAY in
      let daysleft := int_of (u32 (sp_lstchg spw + sp_max spw - today)) in
      if sp_lstchg spw =? 0 then mret true
      else if sp_max spw =? -1 then mret false
      else if daysleft <? 0 then mret true
      else if daysleft <=? sp_warn spw then _ ← login_message (expire_text "password" daysleft); mret false
      else mret false
  end.

(** * Who may log in (auth.c) *)

(** The account is locked: the password field starts with an exclamation mark. *)
Definition locked_passwd (passwd : option cstring) : bool := match passwd with Some (33 :: _) => true | _ => false end.

Definition S_IFMT : Z := 0xF000.
Definition S_IFREG : Z := 0x8000.
Definition S_IX : Z := 73.

(** The shell is a regular file that can be executed. *)
Definition shell_ok `{!World} (shell : cstring) : bool :=
  match stat_mode shell with
  | None => false
  | Some mode => (Z.land mode S_IFMT =? S_IFREG) && negb (Z.land mode S_IX =? 0)
  end.

Fixpoint deny_users_loop (name host ip : cstring) (l : list cstring) : outcome bool :=
  match l with
  | [] => Done false
  | p :: l =>
      let r := match_user (Some name) (Some host) (Some ip) p in
      if r <? 0 then Fatal else if negb (r =? 0) then Done true else deny_users_loop name host ip l
  end.
Fixpoint allow_users_loop (name host ip : cstring) (l : list cstring) : outcome bool :=
  match l with
  | [] => Done false
  | p :: l =>
      let r := match_user (Some name) (Some host) (Some ip) p in
      if r <? 0 then Fatal else if r =? 1 then Done true else allow_users_loop name host ip l
  end.

(** The checks of the user and group lists. *)
Definition lists_allow `{!World} (o : ServerOptions) (p : passwd) : outcome bool :=
  let name := pw_name p in let host := canonical_hostname in let ip := remote_ipaddr in
  match deny_users_loop name host ip (deny_users o) with
  | Fatal => Fatal | Crash => Crash
  | Done true => Done false
  | Done false =>
      match (if zlen (allow_users o) >? 0 then allow_users_loop name host ip (allow_users o) else Done true) with
      | Fatal => Fatal | Crash => Crash
      | Done false => Done false
      | Done true =>
          if (zlen (deny_groups o) >? 0) || (zlen (allow_groups o) >? 0) then
            let groups := ga_init name (pw_gid p) in
            if zlen groups =? 0 then Done false
            else if (zlen (deny_groups o) >? 0) && ga_match groups (deny_groups o) then Done false
            else if (zlen (allow_groups o) >? 0) && negb (ga_match groups (allow_groups o)) then Done false
            else Done true
          else Done true
      end
  end.

Definition allowed_user `{!World} (p : passwd) : ST authst bool :=
  o ← asks options;
  let spw := if use_pam o then None else getspnam (pw_name p) in
  expired ← match spw with Some spw => auth_shadow_acctexpired spw | None => mret false end;
  if (expired : bool) then mret false
  else
    let passwd := match spw with Some spw => sp_pwdp spw | None => pw_passwd p end in
    if negb (use_pam o) && locked_passwd passwd then mret false
    else
      shell ← (if match chroot_directory o with None => true | Some d => strcasecmp_eq d (str "none") end
               then shell ← xstrdup (if zlen (pw_shell p) =? 0 then str "/bin/sh" else pw_shell p); mret (shell_ok shell)
               else mret true);
      if negb shell then mret false
      else given (lists_allow o p).

Definition getpwnamallow `{!World} (name : cstring) : ST authst (option passwd) :=
  _ ← change (fun s => set_options (parse_server_match_config (options s) name) s);
  match getpwnam name with
  | None => mret None
  | Some p => ok ← allowed_user p; mret (if ok : bool then Some p else None)
  end.

Definition fakepw : passwd :=
  let ids := default (2 ^ 32 - 1, 2 ^ 32 - 1) privsep_ids in
  mk_passwd (str "NOUSER") (Some (str "$2a$06$r3.juUaHZDlIbQaO2dS9FuYxL1W9M81R1Tc92PoSNmzvpEqLkLGrK")) (fst ids) (snd ids) (str "NOUSER")
    (str "/nonexist") (str "/nonexist").

Definition auth_root_allowed (method : cstring) : ST authst bool :=
  o ← asks options;
  if permit_root_login o =? PERMIT_YES then mret true
  else if permit_root_login o =? PERMIT_NO_PASSWD then
    mret (bool_decide (method = str "publickey") || bool_decide (method = str "hostbased") || bool_decide (method = str "gssapi-with-mic"))
  else if permit_root_login o =? PERMIT_FORCED_ONLY then
    a ← asks auth_opts; a ← deref a; mret (bool_decide (is_Some (force_command a)))
  else mret false.

(** The options stay null when they cannot be merged. *)
Definition auth_activate_options (opts : option sshauthopt) : ST authst bool :=
  old ← asks auth_opts;
  old ← deref old;
  opts ← deref opts;
  match sshauthopt_merge old opts with
  | PFail _ => _ ← change (set_auth_opts None); mret false
  | PDone r => _ ← change (set_auth_opts (Some r)); mret true
  end.

Definition auth_restrict_session : ST authst unit :=
  r ← deref sshauthopt_new;
  ok ← auth_activate_options (Some (set_pty 1 (set_restricted 1 r)));
  if (ok : bool) then mret tt else fatal.

(** * Passwords (auth-passwd.c) *)

Definition MAX_PASSWORD_LEN : Z := 1024.

Definition shadow_pw `{!World} (p : passwd) : option cstring :=
  match getspnam (pw_name p) with Some spw => sp_pwdp spw | None => pw_passwd p end.

Definition sys_auth_passwd `{!World} (password : cstring) : ST authst bool :=
  c ← asks ctx;
  p ← deref (pw c);
  mret (match (if valid c then shadow_pw p else pw_passwd p) with
        | None => false
        | Some pw_password =>
            if (zlen pw_password =? 0) && (zlen password =? 0) then true
            else
              let salt := if valid c && (zlen pw_password >=? 2) then Some pw_password else None in
              match xcrypt password salt with
              | None => false
              | Some encrypted_password => bool_decide (encrypted_password = pw_password)
              end
        end).

Definition auth_password `{!World} (password : cstring) : ST authst bool :=
  c ← asks ctx;
  o ← asks options;
  if zlen password >? MAX_PASSWORD_LEN then mret false
  else
    p ← deref (pw c);
    let ok := valid c && negb ((pw_uid p =? 0) && negb (permit_root_login o =? PERMIT_YES)) in
    if (zlen password =? 0) && negb (permit_empty_passwd o) then mret false
    else
      checked ← asks expire_checked;
      _ ← (if checked : bool then mret tt
           else
             _ ← change set_expire_checked;
             e ← auth_shadow_pwexpired;
             if (e : bool) then change_ctx set_force_pwchange else mret tt);
      result ← sys_auth_passwd password;
      c ← asks ctx;
      _ ← (if force_pwchange c then auth_restrict_session else mret tt);
      mret ((result : bool) && ok).

(** * Lists of required methods (auth2.c) *)

Definition authmethods (o : ServerOptions) (none : bool) : list (cstring * bool) :=
  [(str "none", none); (str "publickey", pubkey_authentication o); (str "password", password_authentication o);
   (str "keyboard-interactive", kbd_interactive_authentication o); (str "hostbased", hostbased_authentication o)].

(** The name of a method without its submethod. *)
Definition method_base (method : cstring) : cstring := match strchr_split 58 method with Some (base, _) => base | None => method end.

Definition method_valid (o : ServerOptions) (none need_enable : bool) (method : cstring) : bool :=
  match find (fun m => bool_decide (method_base method = fst m)) (authmethods o none) with
  | Some m => negb need_enable || snd m
  | None => false
  end.

Definition auth2_methods_valid (o : ServerOptions) (none : bool) (methods : cstring) (need_enable : bool) : bool :=
  match methods with [] => false | _ => forallb (method_valid o none need_enable) (tokens methods) end.

Definition auth2_setup_methods_lists : ST authst bool :=
  _ ← change (fun s => if bool_decide (opt_auth_methods (options s) = [str "any"]) then set_options (set_opt_methods [] (options s)) s else s);
  o ← asks options;
  none ← asks none_enabled;
  if zlen (opt_auth_methods o) =? 0 then mret true
  else
    let l := List.filter (fun m => auth2_methods_valid o none m true) (opt_auth_methods o) in
    _ ← change_ctx (set_methods l);
    mret (negb (zlen l =? 0)).

Inductive list_match := MATCH_NONE | MATCH_METHOD | MATCH_BOTH | MATCH_PARTIAL.

(** The end of a string or a comma. *)
Definition at_end (p : cstring) : bool := match p with [] => true | c :: _ => c =? ch_comma end.

Definition list_starts_with (methods method : cstring) (submethod : option cstring) : list_match :=
  let l := zlen method in
  if negb (bool_decide (ztake l methods = method)) then MATCH_NONE
  else
    let p := zdrop l methods in
    match p with
    | 58 :: p =>
        match submethod with
        | None => MATCH_PARTIAL
        | Some submethod =>
            let l := zlen submethod in
            if negb (bool_decide (ztake l p = submethod)) then MATCH_NONE
            else if at_end (zdrop l p) then MATCH_BOTH else MATCH_NONE
        end
    | _ => if at_end p then MATCH_METHOD else MATCH_NONE
    end.

(** The list without its first method. *)
Definition remove_method (methods method : cstring) (submethod : option cstring) : option cstring :=
  let tail p := match p with 44 :: p => p | _ => p end in
  match list_starts_with methods method submethod with
  | MATCH_METHOD => Some (tail (zdrop (zlen method) methods))
  | MATCH_BOTH => Some (tail (zdrop (zlen method + (match submethod with Some s => 1 + zlen s | None => 0 end)) methods))
  | _ => None
  end.

(** The lists after a method has succeeded: whether one was changed, whether one
    is complete, and the lists; those behind a complete list are not looked at. *)
Fixpoint update_lists (l : list cstring) (method : cstring) (submethod : option cstring) : bool * bool * list cstring :=
  match l with
  | [] => (false, false, [])
  | m :: l =>
      match remove_method m method submethod with
      | None => let '(found, complete, l) := update_lists l method submethod in (found, complete, m :: l)
      | Some [] => (true, true, [] :: l)
      | Some m => let '(_, complete, l) := update_lists l method submethod in (true, complete, m :: l)
      end
  end.

Definition auth2_update_methods_lists (method : cstring) (submethod : option cstring) : ST authst bool :=
  c ← asks ctx;
  let '(found, complete, l) := update_lists (auth_methods c) method submethod in
  _ ← change_ctx (set_methods l);
  if complete then mret true else if negb found then fatal else mret false.

Definition auth2_method_allowed (o : ServerOptions) (c : Authctxt) (method : cstring) (submethod : option cstring) : bool :=
  if zlen (opt_auth_methods o) =? 0 then true
  else existsb (fun m => match list_starts_with m method submethod with MATCH_NONE => false | _ => true end) (auth_methods c).

Definition authmethod_lookup (s : authst) (name : cstring) : option cstring :=
  fst <$> find (fun m => snd m && bool_decide (name = fst m) && auth2_method_allowed (options s) (ctx s) (fst m) None)
    (authmethods (options s) (none_enabled s)).

(** * Details of a method (auth2.c) *)

Definition auth2_authctxt_reset_info : ST authst unit := change_ctx (fun c => set_info None (set_keys (prev_keys c) None c)).

Definition auth2_record_info (text : cstring) : ST authst unit :=
  if malloc_ok (zlen text + 1) then change_ctx (set_info (Some text)) else fatal.

Definition auth2_record_key (authenticated : bool) (key : sshkey) : ST authst unit :=
  dup ← need (sshkey_from_private key);
  _ ← change_ctx (fun c => set_keys (prev_keys c) (Some dup) c);
  if negb authenticated then mret tt
  else
    dup ← need (sshkey_from_private key);
    c ← asks ctx;
    if (zlen (prev_keys c) >=? INT_MAX) || negb (malloc_ok ((zlen (prev_keys c) + 1) * 8)) then fatal
    else change_ctx (fun c => set_keys (prev_keys c ++ [dup]) (auth_method_key c) c).

Definition auth2_key_already_used (c : Authctxt) (key : sshkey) : bool := existsb (sshkey_equal_public key) (prev_keys c).

Definition auth2_update_session_info (method : cstring) (submethod : option cstring) : ST authst unit :=
  c ← asks ctx;
  b ← (match session_info c with Some b => mret b | None => needs sshbuf_new end);
  '(_, b) ← with_buf b (sshbuf_putf (method ++ match submethod with None => [] | Some s => [47] ++ s end));
  b ← (match auth_method_key c with
       | None => mret b
       | Some k =>
           '(_, b) ← with_buf b (sshbuf_put_u8 32);
           text ← need (sshkey_format_text k);
           '(_, b) ← with_buf b (sshbuf_putf text);
           mret b
       end);
  b ← (match auth_method_info c with
       | None => mret b
       | Some info =>
           if bool_decide (10 ∈ info) then fatal
           else
             '(_, b) ← with_buf b (sshbuf_put_u8 32);
             '(_, b) ← with_buf b (sshbuf_putf info);
             mret b
       end);
  '(_, b) ← with_buf b (sshbuf_put_u8 10);
  change_ctx (set_session_info (Some b)).
End auth.
