(* ===== verification/AuthLaws.v ===== *)
(** Properties of user authentication: required methods and who may log in. *)

From Stdlib Require Import String.
From S2P Require Import Prelude Sshbuf SshbufGetPut Match AddrMatch Misc AuthOptions Auth.
Local Open Scope Z_scope.

(** * Required methods *)

Definition auth_step : Type := cstring * option cstring.

(** The method, alone or with its submethod, is what the entry of a list asks for. *)
Definition fulfils (e : cstring) (m : auth_step) : bool :=
  bool_decide (e = fst m) || match snd m with Some sub => bool_decide (e = fst m ++ [58] ++ sub) | None => false end.

(** The entries are fulfilled one after the other, with other methods between. *)
Inductive performed : list cstring -> list auth_step -> Prop :=
| performed_nil ms : performed [] ms
| performed_take e es m ms : fulfils e m = true -> performed es ms -> performed (e :: es) (m :: ms)
| performed_skip es m ms : performed es ms -> performed es (m :: ms).

(** What is left of a list when each method removes the entry in front. *)
Fixpoint remaining (es : list cstring) (ms : list auth_step) : list cstring :=
  match ms, es with
  | m :: ms, e :: es' => if fulfils e m then remaining es' ms else remaining es ms
  | _, _ => es
  end.

Lemma remaining_nil ms : remaining [] ms = [].
Proof. by destruct ms. Qed.

Lemma performed_tail e es ms : performed (e :: es) ms -> performed es ms.
Proof.
  remember (e :: es) as l eqn:El. intros Hp. revert e es El. induction Hp as [ms|e' es' m ms Hf Hp IH|es' m ms Hp IH]; intros e es El; [done| |].
  - injection El as -> ->. by apply performed_skip.
  - apply performed_skip. by eapply IH.
Qed.

Lemma performed_remaining es ms : performed es ms <-> remaining es ms = [].
Proof.
  revert es. induction ms as [|m ms IH]; intros es.
  - destruct es; split; intros Hp; try done; [by constructor|by inversion Hp].
  - destruct es as [|e es]; [split; [done|constructor]|]. cbn [remaining]. destruct (fulfils e m) eqn:Ef; rewrite <- IH; split; intros Hp.
    + inversion Hp; subst; [done|by eapply performed_tail].
    + by apply performed_take.
    + inversion Hp; subst; [congruence|done].
    + by apply performed_skip.
Qed.

Lemma remaining_app es ms ms' : remaining es (ms ++ ms') = remaining (remaining es ms) ms'.
Proof.
  revert es. induction ms as [|m ms IH]; intros es; [done|]. cbn [app]. destruct es as [|e es]; [by rewrite !remaining_nil|].
  cbn [remaining]. by destruct (fulfils e m).
Qed.

(** ** One list *)

(** What follows the first entry of a list. *)
Definition after_entry (rest : cstring) : Prop := rest = [] \/ exists r, rest = ch_comma :: r.

Lemma list_shape s e es : tokens s = e :: es -> exists rest, s = e ++ rest /\ no_comma e /\ after_entry rest /\
  (match rest with 44 :: p => p | _ => rest end) = join_comma es /\ (rest = [] -> es = []).
Proof.
  intros Ht. pose proof (join_tokens s) as Hj. pose proof (tokens_no_comma s) as Hn. rewrite Ht in Hj, Hn. inversion Hn; subst.
  destruct es as [|e' es].
  - exists []. rewrite app_nil_r. split_and!; try done. by left.
  - exists (ch_comma :: join_comma (e' :: es)). split_and!; try done. by right; eauto.
Qed.

Lemma prefix_of_entry m e rest : no_comma m -> after_entry rest -> ztake (zlen m) (e ++ rest) = m <-> exists e', e = m ++ e'.
Proof.
  intros Hm Hr. split.
  - intros Ht. assert (exists q, e ++ rest = m ++ q) as [q Hq] by (exists (zdrop (zlen m) (e ++ rest)); pose proof (ztake_zdrop (zlen m) (e ++ rest)) as E; by rewrite Ht in E).
    clear Ht.
    revert e Hq Hm. induction m as [|c m IH]; intros e Hq Hm; [by exists e|]. inversion Hm as [|? ? Hc Hm']; subst. destruct e as [|c' e].
    + destruct Hr as [->|[r ->]]; [done|]. cbn in Hq. by injection Hq.
    + cbn in Hq. injection Hq as -> Hq. destruct (IH e) as [e' ->]; [done|done|by exists e'].
  - intros [e' ->]. rewrite <- app_assoc. by rewrite ztake_app_exact.
Qed.

Lemma at_end_entry e rest : no_comma e -> after_entry rest -> at_end (e ++ rest) = bool_decide (e = []).
Proof.
  intros He Hr. destruct e as [|c e]; cbn [app at_end].
  - rewrite bool_decide_true by done. by destruct Hr as [->|[r ->]].
  - rewrite bool_decide_false by done. inversion He. by apply Z.eqb_neq.
Qed.

Lemma no_comma_app a b : no_comma (a ++ b) <-> no_comma a /\ no_comma b.
Proof. apply Forall_app. Qed.

Definition step_ok (m : auth_step) : Prop := no_comma (fst m) /\ match snd m with Some sub => no_comma sub | None => True end.

Lemma remove_method_entry s e es m :
  tokens s = e :: es -> step_ok m -> remove_method s (fst m) (snd m) = if fulfils e m then Some (join_comma es) else None.
Proof.
  intros Ht [Hm Hsub]. destruct (list_shape s e es Ht) as (rest & -> & He & Hr & Ht' & _). destruct m as [m sub]. cbn [fst snd] in *.
  unfold remove_method, list_starts_with, fulfils. cbn [fst snd]. destruct (decide (ztake (zlen m) (e ++ rest) = m)) as [Hp|Hp].
  2:{ rewrite bool_decide_false by done. cbn [negb]. rewrite (bool_decide_false (e = m)) by (intros ->; by rewrite ztake_app_exact in Hp).
      destruct sub as [sub|]; [|done]. rewrite bool_decide_false; [done|]. intros ->. apply Hp. rewrite <- app_assoc. by rewrite ztake_app_exact. }
  rewrite bool_decide_true by done. cbn [negb]. apply prefix_of_entry in Hp as [e' ->]; [|done|done]. apply no_comma_app in He as [_ He].
  rewrite <- app_assoc, zdrop_app_exact by done. destruct (decide (e' = [])) as [->|Hne].
  - rewrite app_nil_r, (bool_decide_true (m = m)) by done. cbn [app orb].
    destruct Hr as [->|[r ->]]; [by rewrite <- Ht'|]. cbn. by rewrite <- Ht'.
  - rewrite (bool_decide_false (m ++ e' = m)) by (rewrite <- (app_nil_r m) at 2; by intros ?%app_inv_head). cbn [orb].
    destruct e' as [|c e']; [done|]. cbn [app]. inversion He as [|? ? Hc He']; subst. destruct (decide (c = 58)) as [->|Hc58].
    + destruct sub as [sub|]; [|done]. destruct (decide (ztake (zlen sub) (e' ++ rest) = sub)) as [Hq|Hq].
      * rewrite bool_decide_true by done. cbn [negb]. apply prefix_of_entry in Hq as [e'' ->]; [|done|done]. apply no_comma_app in He' as [_ He'].
        rewrite <- app_assoc, zdrop_app_exact, at_end_entry by done. destruct (decide (e'' = [])) as [->|Hn].
        -- rewrite !bool_decide_true by (by rewrite ?app_nil_r). cbn [app].
           change (m ++ 58 :: sub ++ rest) with (m ++ ([58] ++ sub) ++ rest). rewrite app_assoc, zdrop_app_exact by (rewrite !zlen_app; change (zlen [58]) with 1; lia). by rewrite <- Ht'.
        -- rewrite !bool_decide_false; [done| |done]. intros E%app_inv_head. injection E as E. rewrite <- (app_nil_r sub) in E at 2. by apply app_inv_head in E.
      * rewrite !bool_decide_false; [done| |done]. intros E%app_inv_head. injection E as ->. by rewrite ztake_app_exact in Hq.
    + assert (at_end (c :: e' ++ rest) = false) as Ha by (by apply Z.eqb_neq).
      assert (match sub with Some sub => bool_decide (m ++ c :: e' = m ++ 58 :: sub) | None => false end = false) as ->.
      { destruct sub; [|done]. apply bool_decide_false. intros E%app_inv_head. by injection E. }
      rewrite Ha. repeat (destruct c as [|c|c]; try done; try (destruct c; try done)).
Qed.

(** ** All lists *)

Definition entry_ok (e : cstring) : Prop := e <> [] /\ no_comma e.
(** A list that is not complete. *)
Definition open_list (es : list cstring) : Prop := es <> [] /\ Forall entry_ok es.

Lemma join_comma_open es : Forall entry_ok es -> join_comma es = [] <-> es = [].
Proof.
  intros He. split; [|by intros ->]. destruct es as [|e [|e' es]]; [done| |]; inversion He as [|? ? [Hn _] _]; subst; cbn; [done|].
  by destruct e.
Qed.

Lemma remaining_ok es ms : Forall entry_ok es -> Forall entry_ok (remaining es ms).
Proof.
  revert es. induction ms as [|m ms IH]; intros es He; [by destruct es|]. destruct es as [|e es]; [done|]. cbn [remaining].
  inversion He; subst. destruct (fulfils e m); by apply IH.
Qed.

(** One method, for all lists. *)
Lemma update_lists_spec rs m :
  Forall open_list rs -> step_ok m ->
  match update_lists (join_comma <$> rs) (fst m) (snd m) with
  | (found, complete, l) =>
      (complete = true <-> Exists (fun r => remaining r [m] = []) rs) /\
      (complete = false -> l = join_comma <$> ((fun r => remaining r [m]) <$> rs)) /\
      (found = false -> Forall (fun r => remaining r [m] = r) rs)
  end.
Proof.
  intros Hrs Hm. induction Hrs as [|r rs [Hne Hr] _ IH]; [split; [split; [done|by inversion 1]|done]|]. cbn [fmap list_fmap update_lists].
  destruct r as [|e es]; [done|]. assert (tokens (join_comma (e :: es)) = e :: es) as Ht.
  { apply tokens_join; [done|]. eapply Forall_impl; [exact Hr|]. by intros x [_ ?]. }
  rewrite (remove_method_entry _ e es m Ht Hm). cbn [remaining]. inversion Hr as [|? ? _ Hes]; subst. destruct (fulfils e m) eqn:Ef.
  - destruct (join_comma es) as [|c j] eqn:Ej.
    + apply join_comma_open in Ej as ->; [|done]. split; [split; [|done]|split; done]. intros _. left. cbn [remaining]. by rewrite Ef.
    + assert (es <> []) by (by intros ->). destruct (update_lists (join_comma <$> rs) (fst m) (snd m)) as [[found complete] l].
      destruct IH as (I1 & I2 & _). split; [|split; [|done]].
      * rewrite I1, Exists_cons. cbn [remaining]. rewrite Ef. destruct es; [done|]. naive_solver.
      * intros Hc. rewrite (I2 Hc). by destruct es.
  - destruct (update_lists (join_comma <$> rs) (fst m) (snd m)) as [[found complete] l]. destruct IH as (I1 & I2 & I3). split; [|split].
    + rewrite I1, Exists_cons. cbn [remaining]. rewrite Ef. naive_solver.
    + intros Hc. by rewrite (I2 Hc).
    + intros Hf. constructor; [cbn [remaining]; by rewrite Ef|by apply I3].
Qed.

Section methods.
Context `{Allocator} `{Getaddrinfo} `{KeyLib} `{Process}.

(** Methods succeed one after the other until the lists are satisfied. *)
Fixpoint accept_all (ms : list auth_step) : ST authst bool :=
  match ms with
  | [] => mret false
  | m :: ms => complete ← auth2_update_methods_lists (fst m) (snd m); if (complete : bool) then mret true else accept_all ms
  end.

(** The method is not the next one of any list. *)
Definition unexpected (rs : list (list cstring)) (ms : list auth_step) : Prop :=
  exists ms1 m ms2, ms = ms1 ++ m :: ms2 /\
    Forall (fun r => remaining r ms1 <> [] /\ remaining r (ms1 ++ [m]) = remaining r ms1) rs.

Lemma open_after rs m : Forall open_list rs -> ~ Exists (fun r => remaining r [m] = []) rs -> Forall open_list ((fun r => remaining r [m]) <$> rs).
Proof.
  intros Hrs Hex. apply Forall_fmap. apply List.Forall_forall. intros r Hin. rewrite List.Forall_forall in Hrs. destruct (Hrs r Hin) as [_ He].
  split; [|by apply remaining_ok]. intros E. apply Hex, List.Exists_exists. eauto.
Qed.

Lemma Exists_remaining rs m ms :
  Exists (fun r => remaining r (m :: ms) = []) rs <-> Exists (fun r => remaining r ms = []) ((fun r => remaining r [m]) <$> rs).
Proof.
  rewrite !List.Exists_exists. split.
  - intros (r & Hin & E). exists (remaining r [m]). split; [by apply (in_map (fun r => remaining r [m]))|]. by rewrite <- remaining_app.
  - intros (r' & (r & <- & Hin)%in_map_iff & E). exists r. split; [done|]. change (m :: ms) with ([m] ++ ms). by rewrite remaining_app.
Qed.

Lemma unexpected_later rs m ms :
  ~ Exists (fun r => remaining r [m] = []) rs -> unexpected ((fun r => remaining r [m]) <$> rs) ms -> unexpected rs (m :: ms).
Proof.
  intros Hex (ms1 & x & ms2 & -> & Hf). exists (m :: ms1), x, ms2. split; [done|]. rewrite Forall_fmap in Hf. eapply Forall_impl; [exact Hf|].
  intros r [Hr1 Hr2]. cbn in Hr1, Hr2. change ((m :: ms1) ++ [x]) with ([m] ++ ms1 ++ [x]). change (m :: ms1) with ([m] ++ ms1).
  by rewrite !(remaining_app r [m]).
Qed.

Lemma accept_all_spec ms : Forall step_ok ms -> forall rs s,
  Forall open_list rs -> auth_methods (ctx s) = join_comma <$> rs ->
  match accept_all ms s with
  | Done (r, _) => r = true <-> Exists (fun r => remaining r ms = []) rs
  | Fatal => unexpected rs ms
  | Crash => False
  end.
Proof.
  induction 1 as [|m ms Hm Hms IH]; intros rs s Hrs Hs.
  - cbn. split; [done|]. intros (r & Hin & E)%List.Exists_exists. rewrite List.Forall_forall in Hrs. by destruct (Hrs r Hin) as [? _].
  - cbn [accept_all]. unfold auth2_update_methods_lists, mbind, st_bind, asks, change_ctx, change. rewrite Hs. pose proof (update_lists_spec rs m Hrs Hm) as Hu.
    destruct (update_lists (join_comma <$> rs) (fst m) (snd m)) as [[found complete] l]. destruct Hu as (U1 & U2 & U3). destruct complete.
    + cbn -[remaining]. split; [intros _|done]. eapply Exists_impl; [by apply U1|]. intros r E. cbv beta in *. change (m :: ms) with ([m] ++ ms). rewrite remaining_app, E. apply remaining_nil.
    + assert (~ Exists (fun r => remaining r [m] = []) rs) as Hex by (rewrite <- U1; done). destruct found; cbn -[remaining].
      * specialize (IH ((fun r => remaining r [m]) <$> rs) (set_ctx (set_methods l (ctx s)) s) (open_after rs m Hrs Hex) (U2 eq_refl)).
        destruct (accept_all ms _) as [[r s']| |]; [|by apply unexpected_later|done]. by rewrite Exists_remaining.
      * exists [], m, ms. split; [done|]. specialize (U3 eq_refl). apply List.Forall_forall. intros r Hin. rewrite List.Forall_forall in U3, Hrs.
        destruct (Hrs r Hin) as [Hne _]. cbn [app]. rewrite (U3 r Hin). by destruct r.
Qed.

(** ** The configured lists *)

Lemma method_valid_entry o none e : no_comma e -> method_valid o none true e = true -> entry_ok e.
Proof. intros Hn Hv. split; [|done]. intros ->. revert Hv. by vm_compute. Qed.

Lemma valid_list_open o none l : auth2_methods_valid o none l true = true -> open_list (tokens l).
Proof.
  unfold auth2_methods_valid. intros Hv. assert (forallb (method_valid o none true) (tokens l) = true) as Hv' by (by destruct l). clear Hv. rename Hv' into Hv. split; [apply tokens_nonempty|].
  pose proof (tokens_no_comma l) as Hn. rewrite List.Forall_forall in Hn. rewrite forallb_forall in Hv. apply List.Forall_forall. intros e Hin.
  by eapply method_valid_entry; [apply Hn|apply Hv].
Qed.

(** The list is configured and names only methods that are enabled. *)
Definition required_list (s : authst) (l : cstring) : Prop :=
  In l (opt_auth_methods (options s)) /\ auth2_methods_valid (options s) (none_enabled s) l true = true.

(** Several required methods.  After AuthenticationMethods has been set up,
    methods that succeed one after the other complete the authentication exactly
    when for some configured list, all of whose methods are enabled, they include
    the methods of the list in their order.  A method that is not the next one of
    any list ends the process. *)
Theorem methods_lists_exact ms s :
  Forall step_ok ms -> opt_auth_methods (options s) <> [] -> opt_auth_methods (options s) <> [str "any"] ->
  match (_ ← auth2_setup_methods_lists; accept_all ms) s with
  | Done (r, _) => r = true <-> exists l, required_list s l /\ performed (tokens l) ms
  | Fatal => exists ms1 m ms2, ms = ms1 ++ m :: ms2 /\
      forall l, required_list s l -> ~ performed (tokens l) ms1 /\ remaining (tokens l) (ms1 ++ [m]) = remaining (tokens l) ms1
  | Crash => False
  end.
Proof.
  intros Hms Hne Hany. unfold auth2_setup_methods_lists, mbind, st_bind, asks, change_ctx, change. rewrite bool_decide_false by done.
  rewrite (proj2 (Z.eqb_neq _ 0)) by (destruct (opt_auth_methods (options s)) as [|x l']; [done|rewrite zlen_cons; pose proof (zlen_nonneg l'); lia]). cbv iota.
  set (L := List.filter (fun m => auth2_methods_valid (options s) (none_enabled s) m true) (opt_auth_methods (options s))).
  assert (forall l, In l L <-> required_list s l) as HL by (intros l; by apply filter_In).
  assert (L = join_comma <$> (tokens <$> L)) as EL.
  { clear HL. induction L as [|l L IH]; [done|]. cbn [fmap list_fmap]. rewrite join_tokens. by f_equal. }
  pose proof (accept_all_spec ms Hms (tokens <$> L) (set_ctx (set_methods L (ctx s)) s)) as Ha.
  assert (Forall open_list (tokens <$> L)) as Hop.
  { apply Forall_fmap, List.Forall_forall. intros l [_ Hv]%HL. by eapply valid_list_open. }
  specialize (Ha Hop EL). unfold mret, st_ret in *. cbn [ctx set_ctx] in *. destruct (accept_all ms _) as [[r s']| |]; [|clear -Ha HL|done].
  - rewrite Ha, List.Exists_exists. split.
    + intros (es & (l & <- & Hin)%in_map_iff & E). exists l. split; [by apply HL|by apply performed_remaining].
    + intros (l & Hl%HL & Hp%performed_remaining). exists (tokens l). split; [by apply in_map|done].
  - destruct Ha as (ms1 & m & ms2 & -> & Hf). exists ms1, m, ms2. split; [done|]. intros l Hl%HL. rewrite Forall_fmap, List.Forall_forall in Hf.
    destruct (Hf l Hl) as [H1' H2']. cbn in H1', H2'. by rewrite performed_remaining.
Qed.

(** * Who may log in *)

Section users.
Context `{!World}.

(** A pattern of a user list with a mask that cannot be parsed. *)
Definition malformed (p : passwd) (pat : cstring) : Prop := match_user (Some (pw_name p)) (Some canonical_hostname) (Some remote_ipaddr) pat < 0.
Definition listed (p : passwd) (pat : cstring) : Prop := match_user (Some (pw_name p)) (Some canonical_hostname) (Some remote_ipaddr) pat = 1.
Definition in_groups (p : passwd) (pats : list cstring) : Prop :=
  exists g pat, In g (ga_init (pw_name p) (pw_gid p)) /\ In pat pats /\ match_pattern g pat = true.

Lemma match_user_range u h i pat : match_user u h i pat < 0 \/ match_user u h i pat = 0 \/ match_user u h i pat = 1.
Proof.
  unfold match_user. unfold match_host_and_ip. repeat (case_match; try lia).
Qed.

Lemma deny_users_spec p l :
  match deny_users_loop (pw_name p) canonical_hostname remote_ipaddr l with
  | Done d => (d = true <-> Exists (listed p) l) | Fatal => Exists (malformed p) l | Crash => False
  end.
Proof.
  induction l as [|pat l IH]; cbn [deny_users_loop]; [split; [done|by inversion 1]|]. destruct (Z.ltb_spec (match_user (Some (pw_name p)) (Some canonical_hostname) (Some remote_ipaddr) pat) 0) as [Hm|Hm].
  - by left.
  - destruct (match_user_range (Some (pw_name p)) (Some canonical_hostname) (Some remote_ipaddr) pat) as [?|[E|E]]; [lia| |]; rewrite E; cbn.
    + destruct (deny_users_loop _ _ _ l); [|by right|done]. rewrite Exists_cons. unfold listed at 1. rewrite E. naive_solver.
    + split; [|done]. intros _. by left.
Qed.
Lemma allow_users_same p l : allow_users_loop (pw_name p) canonical_hostname remote_ipaddr l = deny_users_loop (pw_name p) canonical_hostname remote_ipaddr l.
Proof.
  induction l as [|pat l IH]; [done|]. cbn [allow_users_loop deny_users_loop].
  destruct (match_user_range (Some (pw_name p)) (Some canonical_hostname) (Some remote_ipaddr) pat) as [E|[E|E]].
  - by rewrite (proj2 (Z.ltb_lt _ 0)).
  - rewrite E. cbn. done.
  - by rewrite E.
Qed.

Lemma ga_match_spec p pats : ga_match (ga_init (pw_name p) (pw_gid p)) pats = true <-> in_groups p pats.
Proof.
  unfold ga_match, in_groups. rewrite existsb_exists. split.
  - intros (g & Hg & (pat & Hp & Hm)%existsb_exists). eauto.
  - intros (g & pat & Hg & Hp & Hm). exists g. split; [done|]. apply existsb_exists. eauto.
Qed.

(** The days until the account expires. *)
Definition days_left (sp : spwd) : Z := int_of (u32 (sp_expire sp - time_now / DAY)).
Definition account_expired (sp : spwd) : Prop := sp_expire sp <> -1 /\ days_left sp < 0.
(** A warning is due, which has to fit into the login message. *)
Definition expiry_near (o : ServerOptions) (p : passwd) : Prop :=
  use_pam o = false /\ exists sp, getspnam (pw_name p) = Some sp /\ sp_expire sp <> -1 /\ 0 <= days_left sp <= sp_warn sp.

(** The field with the password, from the shadow file when it has an entry. *)
Definition password_field (o : ServerOptions) (p : passwd) : option cstring :=
  match (if use_pam o then None else getspnam (pw_name p)) with Some sp => sp_pwdp sp | None => pw_passwd p end.

(** The user may log in. *)
Record may_log_in (o : ServerOptions) (p : passwd) : Prop := {
  ml_active : use_pam o = false -> forall sp, getspnam (pw_name p) = Some sp -> ~ account_expired sp;
  ml_unlocked : use_pam o = false -> locked_passwd (password_field o p) = false;
  ml_shell : (exists d, chroot_directory o = Some d /\ lowercase d <> lowercase (str "none")) \/
    shell_ok (if zlen (pw_shell p) =? 0 then str "/bin/sh" else pw_shell p) = true;
  ml_not_denied : ~ Exists (listed p) (deny_users o);
  ml_allowed : allow_users o = [] \/ Exists (listed p) (allow_users o);
  ml_groups : (deny_groups o = [] /\ allow_groups o = []) \/
    (ga_init (pw_name p) (pw_gid p) <> [] /\ ~ in_groups p (deny_groups o) /\ (allow_groups o = [] \/ in_groups p (allow_groups o)))
}.

Lemma zlen_pos {A} (l : list A) : (zlen l >? 0) = bool_decide (l <> []).
Proof.
  destruct l as [|x l]; [done|]. rewrite bool_decide_true by done. rewrite zlen_cons. pose proof (zlen_nonneg l). apply Z.gtb_lt. lia.
Qed.

Lemma groups_spec o p (groups := ga_init (pw_name p) (pw_gid p)) :
  (if (zlen (deny_groups o) >? 0) || (zlen (allow_groups o) >? 0) then
     if zlen groups =? 0 then false
     else if (zlen (deny_groups o) >? 0) && ga_match groups (deny_groups o) then false
     else if (zlen (allow_groups o) >? 0) && negb (ga_match groups (allow_groups o)) then false
     else true
   else true) = true <->
  (deny_groups o = [] /\ allow_groups o = []) \/
  (groups <> [] /\ ~ in_groups p (deny_groups o) /\ (allow_groups o = [] \/ in_groups p (allow_groups o))).
Proof.
  rewrite <- !ga_match_spec. fold groups. rewrite !zlen_pos. assert (ga_match groups [] = false) as Hn.
  { unfold ga_match. induction groups as [|g gs IH]; [done|]. cbn. exact IH. }
  destruct groups as [|g gs]; [change (zlen [] =? 0) with true|rewrite (proj2 (Z.eqb_neq _ 0)) by (rewrite zlen_cons; pose proof (zlen_nonneg gs); lia)].
  - destruct (deny_groups o), (allow_groups o); cbn; naive_solver.
  - destruct (deny_groups o) as [|d dl], (allow_groups o) as [|a al]; rewrite ?Hn; cbn [orb andb];
      repeat (rewrite ?(bool_decide_false ([] <> [])), ?(bool_decide_true (_ :: _ <> [])) by naive_solver); cbn [orb andb negb];
      destruct (ga_match (g :: gs) (d :: dl)) || idtac; destruct (ga_match (g :: gs) (a :: al)) || idtac; naive_solver.
Qed.

Lemma lists_allow_spec o p :
  match lists_allow o p with
  | Done b => b = true <-> ~ Exists (listed p) (deny_users o) /\ (allow_users o = [] \/ Exists (listed p) (allow_users o)) /\
      ((deny_groups o = [] /\ allow_groups o = []) \/
       (ga_init (pw_name p) (pw_gid p) <> [] /\ ~ in_groups p (deny_groups o) /\ (allow_groups o = [] \/ in_groups p (allow_groups o))))
  | Fatal => Exists (malformed p) (deny_users o) \/ Exists (malformed p) (allow_users o)
  | Crash => False
  end.
Proof.
  unfold lists_allow. pose proof (groups_spec o p) as Hg. cbv zeta in Hg. pose proof (deny_users_spec p (deny_users o)) as Hd.
  destruct (deny_users_loop _ _ _ (deny_users o)) as [[]| |]; [| |by left|done].
  { split; [done|]. intros [Hn _]. by rewrite <- Hd in Hn. }
  rewrite allow_users_same. pose proof (deny_users_spec p (allow_users o)) as Ha.
  assert (match (if zlen (allow_users o) >? 0 then deny_users_loop (pw_name p) canonical_hostname remote_ipaddr (allow_users o) else Done true) with
    | Done a => a = true <-> allow_users o = [] \/ Exists (listed p) (allow_users o) | Fatal => Exists (malformed p) (allow_users o) | Crash => False end) as Ha'.
  { rewrite zlen_pos. case_bool_decide as Hb; [|split; [|done]; intros _; left; by destruct (allow_users o)].
    destruct (deny_users_loop _ _ _ (allow_users o)); [|done|done]. rewrite Ha. split; [by right|]. intros [?|?]; [done|done]. }
  destruct (if zlen (allow_users o) >? 0 then _ else _) as [[]| |]; [| |by right|done].
  - destruct ((zlen (deny_groups o) >? 0) || _); [|rewrite <- Hg, <- Ha', <- Hd; naive_solver].
    destruct (zlen (ga_init _ _) =? 0); [rewrite <- Hg, <- Ha', <- Hd; naive_solver|].
    destruct (_ && _); [rewrite <- Hg, <- Ha', <- Hd; naive_solver|]. destruct (_ && _); rewrite <- Hg, <- Ha', <- Hd; naive_solver.
  - rewrite <- Ha'. naive_solver.
Qed.

(** Only the login message may have changed. *)
Definition same_but_msg (s s' : authst) : Prop := s' = set_loginmsg (loginmsg s') s.

Lemma login_message_spec text s :
  match login_message text s with Done (_, s') => same_but_msg s s' | Fatal => True | Crash => False end.
Proof. unfold login_message, mbind, st_bind, asks, with_buf, change. by destruct (sshbuf_putf text (loginmsg s)) as [[[]|e] b]. Qed.

Lemma acctexpired_spec sp s :
  match auth_shadow_acctexpired sp s with
  | Done (e, s') => (e = true <-> account_expired sp) /\ same_but_msg s s'
  | Fatal => sp_expire sp <> -1 /\ 0 <= days_left sp <= sp_warn sp
  | Crash => False
  end.
Proof.
  unfold auth_shadow_acctexpired, account_expired. fold (days_left sp). assert (same_but_msg s s) by (by destruct s).
  destruct (Z.eqb_spec (sp_expire sp) (-1)); [by split; [split; [done|intros []]|]|].
  destruct (Z.ltb_spec (days_left sp) 0); [by split|]. destruct (Z.leb_spec (days_left sp) (sp_warn sp)).
  - pose proof (login_message_spec (expire_text "account" (days_left sp)) s) as Hl. unfold mbind, st_bind.
    destruct (login_message _ s) as [[u s']| |]; [|done|done]. split; [split; [done|lia]|done].
  - split; [split; [done|lia]|done].
Qed.

Lemma xstrdup_ok `{!ReliableAllocator _} {S} (t : cstring) (s : S) : xstrdup t s = Done (t, s).
Proof. unfold xstrdup. by rewrite malloc_reliable. Qed.

Lemma allowed_user_spec `{!ReliableAllocator _} p s :
  match allowed_user p s with
  | Done (b, s') => (b = true <-> may_log_in (options s) p) /\ same_but_msg s s'
  | Fatal => expiry_near (options s) p \/ Exists (malformed p) (deny_users (options s)) \/ Exists (malformed p) (allow_users (options s))
  | Crash => False
  end.
Proof.
  unfold allowed_user. unfold mbind at 1, st_bind at 1, asks. set (o := options s). set (spw := if use_pam o then None else getspnam (pw_name p)).
  assert (match (match spw with Some sp => auth_shadow_acctexpired sp | None => mret false end) s with
    | Done (e, s') => (e = true <-> exists sp, spw = Some sp /\ account_expired sp) /\ same_but_msg s s'
    | Fatal => expiry_near o p | Crash => False end) as He.
  { destruct spw as [sp|] eqn:Es; [|split; [split; [done|by intros (? & ? & _)]|by destruct s]]. pose proof (acctexpired_spec sp s) as He.
    destruct (auth_shadow_acctexpired sp s) as [[e s']| |]; [| |done]; [split; [|by apply He]; destruct He as [-> _]; naive_solver|].
    unfold spw in Es. destruct (use_pam o) eqn:Ep; [done|]. split; [done|]. exists sp. by split. }
  unfold mbind at 1, st_bind at 1. destruct (_ s) as [[e s1]| |]; [|by left|done]. destruct He as [He Hs1].
  destruct e.
  { split; [|done]. split; [done|]. intros [Ha _ _ _ _ _]. destruct (proj1 He eq_refl) as (sp & Es & Hex). unfold spw in Es. destruct (use_pam o); [done|]. by destruct (Ha eq_refl sp Es). }
  assert (use_pam o = false -> forall sp, getspnam (pw_name p) = Some sp -> ~ account_expired sp) as Hact.
  { intros Hp sp Hsp Hex. unfold spw in He. rewrite Hp in He. destruct He as [_ He]. by discriminate He; eauto. }
  clear He. fold (password_field o p). change (match spw with Some sp => sp_pwdp sp | None => pw_passwd p end) with (password_field o p).
  destruct (negb (use_pam o) && locked_passwd (password_field o p)) eqn:El.
  { split; [|done]. split; [done|]. intros [_ Hu _ _ _ _]. apply andb_true_iff in El as [Ep El]. rewrite Hu in El; [done|]. by destruct (use_pam o). }
  assert (use_pam o = false -> locked_passwd (password_field o p) = false) as Hlk by (intros Ep; by rewrite Ep in El).
  set (sh := if match chroot_directory o with None => true | Some d => strcasecmp_eq d (str "none") end
             then shell_ok (if zlen (pw_shell p) =? 0 then str "/bin/sh" else pw_shell p) else true).
  match goal with |- context [mbind _ ?m s1] => assert (m s1 = Done (sh, s1)) as Hsh end.
  { unfold sh. destruct (match chroot_directory o with None => true | Some d => _ end); [|done]. unfold mbind, st_bind. by rewrite xstrdup_ok. }
  unfold mbind at 1, st_bind at 1. rewrite Hsh. clear Hsh El.
  assert (sh = true <-> (exists d, chroot_directory o = Some d /\ lowercase d <> lowercase (str "none")) \/
    shell_ok (if zlen (pw_shell p) =? 0 then str "/bin/sh" else pw_shell p) = true) as Hsh.
  { unfold sh, strcasecmp_eq. destruct (chroot_directory o) as [d|]; [|naive_solver]. case_bool_decide; naive_solver. }
  destruct sh; cbn [negb].
  2:{ split; [|done]. split; [done|]. intros [_ _ Hs _ _ _]. by apply Hsh in Hs. }
  pose proof (lists_allow_spec o p) as Hl. unfold given. destruct (lists_allow o p) as [b| |]; [|by right|done]. split; [|done]. rewrite Hl. split.
  - intros (A & B & C). split; try done. by apply Hsh.
  - intros [_ _ _ A B C]. done.
Qed.

(** [getpwnamallow] finds exactly the users that may log in. *)
Lemma getpwnamallow_spec `{!ReliableAllocator _} name s (o := parse_server_match_config (options s) name) :
  match getpwnamallow name s with
  | Done (r, s') => (forall p, r = Some p <-> getpwnam name = Some p /\ may_log_in o p) /\ same_but_msg (set_options o s) s'
  | Fatal => exists p, getpwnam name = Some p /\ (expiry_near o p \/ Exists (malformed p) (deny_users o) \/ Exists (malformed p) (allow_users o))
  | Crash => False
  end.
Proof.
  unfold getpwnamallow, change. unfold mbind at 1, st_bind at 1. fold o. destruct (getpwnam name) as [p|].
  - pose proof (allowed_user_spec p (set_options o s)) as Ha. unfold mbind, st_bind. destruct (allowed_user p _) as [[b s']| |]; [|by eauto|done].
    destruct Ha as [Hb Hs]. cbn [options set_options] in Hb. split; [|done]. intros p'. destruct b.
    + split; [intros [= <-]|intros [[= ->] _]; done]. split; [done|by apply Hb].
    + split; [done|]. intros [[= <-] Hm]. by apply Hb in Hm.
  - split; [|by destruct s]. naive_solver.
Qed.

(** Who may log in.  [getpwnamallow] returns the entry of the user exactly
    when there is one, the account is not expired or locked, its shell can be
    executed (unless the session is confined to a directory), no DenyUsers or
    DenyGroups entry matches and, where they are given, an AllowUsers and an
    AllowGroups entry matches.  The process ends only for a malformed pattern or
    when a warning about the account does not fit into the login message. *)
Theorem login_permitted_exactly `{!ReliableAllocator _} name s (o := parse_server_match_config (options s) name) :
  match getpwnamallow name s with
  | Done (r, s') => (forall p, r = Some p <-> getpwnam name = Some p /\ may_log_in o p) /\ same_but_msg (set_options o s) s'
  | Fatal => exists p, getpwnam name = Some p /\ (expiry_near o p \/ Exists (malformed p) (deny_users o) \/ Exists (malformed p) (allow_users o))
  | Crash => False
  end.
Proof. apply getpwnamallow_spec. Qed.
End users.
End methods.

(** * A small system *)

Definition toy_keys : KeyLib := {|
  sshkey := list Z; Xkey_from_blob := fun _ blob => Ok blob; sshkey_is_rsa := fun _ => false;
  sshkey_equal_public := fun a b => bool_decide (a = b); sshkey_from_private := fun k => Ok k; sshkey_format_text := fun k => Ok k;
  Xkey_verify := fun _ k signature data => bool_decide (signature = k ++ data); Xkey_puts := fun _ k => Ok k;
  Xkey_sign := fun _ k _ data => Ok (k ++ data)
|}.
Definition toy_process : Process := Some (99, 99).
Definition joe : passwd := mk_passwd (str "joe") (Some (str "$secret")) 1000 1000 [] (str "/home/joe") (str "/bin/sh").
(** A system with one user, whose key has the blob 7, 7, 7. *)
Definition toy_world : @World toy_keys := {|
  getpwnam := fun name => if bool_decide (name = str "joe") then Some joe else None; getspnam := fun _ => None; time_now := 0;
  stat_mode := fun _ => Some 0x81ed; getgrouplist := fun _ _ => []; getgrgid := fun _ => None; canonical_hostname := str "client";
  remote_ipaddr := str "192.0.2.1"; xcrypt := fun pass _ => Some (str "$" ++ pass); parse_server_match_config := fun o _ => o;
  user_xkey_allowed := fun _ _ _ (key : @sshkey toy_keys) _ => (bool_decide ((key : list Z) = [7; 7; 7]), @sshauthopt_new_with_keys_defaults alloc_all);
  hostbased_xkey_allowed := fun _ _ _ _ _ _ => false; auth2_read_banner := None; choose_dh := fun _ _ _ => None
|}.
Definition toy_options : ServerOptions :=
  mk_options false PERMIT_NO false true true false false [] [] [] [] None [str "password,publickey"] None None.
Definition toy_state : @authst toy_keys :=
  mk_authst toy_options None (default demo_buf (@sshbuf_new alloc_all)) (mk_authctxt false 0 0 false None None None None [] [] None None None) false true.

Lemma methods_lists_exact_witness :
  exists s', (_ ← @auth2_setup_methods_lists toy_keys; @accept_all toy_keys [(str "password", None); (str "publickey", None)]) toy_state = Done (true, s') /\
    exists l, required_list toy_state l /\ performed (tokens l) [(str "password", None); (str "publickey", None)].
Proof.
  assert (Forall step_ok [(str "password", None); (str "publickey", None)]) as Hs.
  { assert (forall t, bool_decide (no_comma t) = true -> step_ok (t, None)) as Ht by (intros t Ht%bool_decide_eq_true; by split).
    repeat (apply Forall_cons; split; [by apply Ht; vm_compute|]). by apply Forall_nil. }
  pose proof (@methods_lists_exact toy_keys _ toy_state Hs ltac:(done) ltac:(by vm_compute)) as M.
  remember ((_ ← @auth2_setup_methods_lists toy_keys; @accept_all toy_keys [(str "password", None); (str "publickey", None)]) toy_state) as r eqn:Er.
  destruct r as [[b s']| |]; [|vm_compute in Er; discriminate Er..]. assert (b = true) as ->.
  { pose proof (f_equal (fun x => match x with Done (b, _) => b | _ => false end) Er) as Eb. vm_compute in Eb. exact Eb. }
  exists s'. split; [reflexivity|]. by apply M.
Defined.

Lemma login_permitted_exactly_witness :
  exists s', @getpwnamallow alloc_all demo_resolver toy_keys toy_world (str "joe") toy_state = Done (Some joe, s') /\
    @may_log_in alloc_all demo_resolver toy_keys toy_world toy_options joe.
Proof.
  pose proof (@login_permitted_exactly alloc_all demo_resolver toy_keys toy_world alloc_all_reliable (str "joe") toy_state) as M.
  remember (@getpwnamallow alloc_all demo_resolver toy_keys toy_world (str "joe") toy_state) as r eqn:Er.
  destruct r as [[p s']| |]; [|vm_compute in Er; discriminate Er..]. assert (p = Some joe) as ->.
  { pose proof (f_equal (fun x => match x with Done (b, _) => b | _ => None end) Er) as Eb. vm_compute in Eb. exact Eb. }
  exists s'. split; [reflexivity|]. destruct M as [M _]. by apply (M joe).
Defined.
