(* ===== verification/Monitor.v ===== *)
(** The privileged monitor before authentication (monitor.c, with the message
    functions of monitor_wrap.c): the table of requests, the requests of the
    unprivileged child and the loop that decides about authentication.

    The child is not trusted: a request is any sequence of bytes.  The state has
    one field per static variable of monitor.c; [au] is the part shared with
    auth.c and auth2.c.  What the monitor answers is collected in [sent]. *)

From Stdlib Require Import String.
From S2P Require Import Prelude Sshbuf SshbufGetPut Match AddrMatch Misc AuthOptions Auth.
Local Open Scope Z_scope.

Definition MONITOR_REQ_MODULI : Z := 0.
Definition MONITOR_ANS_MODULI : Z := 1.
Definition MONITOR_REQ_AUTHSERV : Z := 4.
Definition MONITOR_REQ_SIGN : Z := 6.
Definition MONITOR_ANS_SIGN : Z := 7.
Definition MONITOR_REQ_PWNAM : Z := 8.
Definition MONITOR_ANS_PWNAM : Z := 9.
Definition MONITOR_REQ_AUTH2_READ_BANNER : Z := 10.
Definition MONITOR_ANS_AUTH2_READ_BANNER : Z := 11.
Definition MONITOR_REQ_AUTHPASSWORD : Z := 12.
Definition MONITOR_ANS_AUTHPASSWORD : Z := 13.
Definition MONITOR_REQ_KEYALLOWED : Z := 22.
Definition MONITOR_ANS_KEYALLOWED : Z := 23.
Definition MONITOR_REQ_KEYVERIFY : Z := 24.
Definition MONITOR_ANS_KEYVERIFY : Z := 25.

Definition MON_ISAUTH : Z := 0x0004.
Definition MON_AUTHDECIDE : Z := 0x0008.
Definition MON_ONCE : Z := 0x0010.
Definition MON_ALOG : Z := 0x0020.
Definition MON_AUTH : Z := Z.lor MON_ISAUTH MON_AUTHDECIDE.
Definition MON_PERMIT : Z := 0x1000.

Definition MM_NOKEY : Z := 0.
Definition MM_HOSTKEY : Z := 1.
Definition MM_USERKEY : Z := 2.

(** The functions of the table. *)
Inductive handler :=
| mm_moduli | mm_sign | mm_pwnamallow | mm_authserv | mm_auth2_read_banner | mm_authpassword | mm_keyallowed | mm_keyverify.

Record mon_table := mk_ent { ent_type : Z; ent_flags : Z; ent_f : handler }.

Definition mon_dispatch_proto20 : list mon_table :=
  [mk_ent MONITOR_REQ_MODULI MON_ONCE mm_moduli; mk_ent MONITOR_REQ_SIGN MON_ONCE mm_sign; mk_ent MONITOR_REQ_PWNAM MON_ONCE mm_pwnamallow;
   mk_ent MONITOR_REQ_AUTHSERV MON_ONCE mm_authserv; mk_ent MONITOR_REQ_AUTH2_READ_BANNER MON_ONCE mm_auth2_read_banner;
   mk_ent MONITOR_REQ_AUTHPASSWORD MON_AUTH mm_authpassword; mk_ent MONITOR_REQ_KEYALLOWED MON_ISAUTH mm_keyallowed;
   mk_ent MONITOR_REQ_KEYVERIFY MON_AUTH mm_keyverify].

(** The flags with the permission set or cleared. *)
Definition permit_flags (flags : Z) (permit : bool) : Z :=
  Z.lor (Z.land flags (Z.lnot MON_PERMIT)) (if permit then MON_PERMIT else 0).
Definition set_flags_of (e : mon_table) (flags : Z) : mon_table := mk_ent (ent_type e) flags (ent_f e).

Fixpoint monitor_permit (ents : list mon_table) (type : Z) (permit : bool) : list mon_table :=
  match ents with
  | [] => []
  | e :: ents => if ent_type e =? type then set_flags_of e (permit_flags (ent_flags e) permit) :: ents else e :: monitor_permit ents type permit
  end.
Definition monitor_permit_authentications (ents : list mon_table) (permit : bool) : list mon_table :=
  map (fun e => if negb (Z.land (ent_flags e) MON_AUTH =? 0) then set_flags_of e (permit_flags (ent_flags e) permit) else e) ents.

(** What is fixed for the process: the bugs of the peer that matter, the host keys
    and the agent that may hold them, and the layout of structures in memory. *)
Class MonitorConfig `{KeyLib} := {
  SSH_OLD_SESSIONID : bool; SSH_BUG_RSASIGMD5 : bool; agent_connected : bool;
  get_hostkey_by_index : Z -> option sshkey; get_hostkey_public_by_index : Z -> option sshkey;
  Xssh_agent_sign : cstring -> sshkey -> Z * Z -> list Z -> result (list Z);
  passwd_image : passwd -> list Z; options_image : ServerOptions -> list Z;
  copied_options : ServerOptions -> list cstring
}.

Section monitor.
Context `{Allocator} `{Getaddrinfo} `{KeyLib} `{Process} `{!MonitorConfig}.

Record mon := mk_mon {
  au : authst; mon_dispatch : list mon_table;
  key_blob : option (list Z); key_blobtype : Z; key_opts : option sshauthopt; hostbased_cuser : option cstring; hostbased_chost : option cstring;
  auth_method : cstring; auth_submethod : option cstring; session_id2 : option (list Z); call_count : Z; sent : list (Z * list Z)
}.
Definition set_au (a : authst) (s : mon) : mon :=
  mk_mon a (mon_dispatch s) (key_blob s) (key_blobtype s) (key_opts s) (hostbased_cuser s) (hostbased_chost s) (auth_method s) (auth_submethod s)
    (session_id2 s) (call_count s) (sent s).
Definition set_dispatch (d : list mon_table) (s : mon) : mon :=
  mk_mon (au s) d (key_blob s) (key_blobtype s) (key_opts s) (hostbased_cuser s) (hostbased_chost s) (auth_method s) (auth_submethod s)
    (session_id2 s) (call_count s) (sent s).
Definition set_key_state (b : option (list Z)) (t : Z) (o : option sshauthopt) (u h : option cstring) (s : mon) : mon :=
  mk_mon (au s) (mon_dispatch s) b t o u h (auth_method s) (auth_submethod s) (session_id2 s) (call_count s) (sent s).
Definition set_method (m : cstring) (sub : option cstring) (s : mon) : mon :=
  mk_mon (au s) (mon_dispatch s) (key_blob s) (key_blobtype s) (key_opts s) (hostbased_cuser s) (hostbased_chost s) m sub
    (session_id2 s) (call_count s) (sent s).
Definition set_session_id2 (i : list Z) (s : mon) : mon :=
  mk_mon (au s) (mon_dispatch s) (key_blob s) (key_blobtype s) (key_opts s) (hostbased_cuser s) (hostbased_chost s) (auth_method s) (auth_submethod s)
    (Some i) (call_count s) (sent s).
Definition set_call_count (n : Z) (s : mon) : mon :=
  mk_mon (au s) (mon_dispatch s) (key_blob s) (key_blobtype s) (key_opts s) (hostbased_cuser s) (hostbased_chost s) (auth_method s) (auth_submethod s)
    (session_id2 s) n (sent s).
Definition add_sent (t : Z) (l : list Z) (s : mon) : mon :=
  mk_mon (au s) (mon_dispatch s) (key_blob s) (key_blobtype s) (key_opts s) (hostbased_cuser s) (hostbased_chost s) (auth_method s) (auth_submethod s)
    (session_id2 s) (call_count s) (sent s ++ [(t, l)]).

(** A function of auth.c or auth2.c. *)
Definition on_auth {A} (m : ST authst A) : ST mon A := fun s =>
  match m (au s) with Done (a, x) => Done (a, set_au x s) | Fatal => Fatal | Crash => Crash end.
Definition permit (type : Z) : ST mon unit := change (fun s => set_dispatch (monitor_permit (mon_dispatch s) type true) s).

(** * Messages (monitor_wrap.c) *)

Definition mm_request_send (type : Z) (m : sshbuf) : ST mon unit :=
  if sshbuf_len m >=? 0xffffffff then fatal else change (add_sent (u8 type) (contents m)).

(** A request as it comes from the socket. *)
Definition mm_request_receive (body : list Z) : ST mon sshbuf :=
  m ← needs sshbuf_new;
  if zlen body >? 256 * 1024 then fatal
  else
    '(_, m) ← with_buf (sshbuf_reset m) (p ← sshbuf_reserve (zlen body); buf_write p body);
    mret m.

Definition sshbuf_get_compat : SE sshbuf (Z * Z) := v1 ← sshbuf_get_u32; v2 ← sshbuf_get_u32; mret (v1, v2).

(** * Requests without a key *)

Definition mm_answer_moduli `{!World} (m : sshbuf) : ST mon Z :=
  '(min, m) ← with_buf m sshbuf_get_u32;
  '(want, m) ← with_buf m sshbuf_get_u32;
  '(max, m) ← with_buf m sshbuf_get_u32;
  if (max <? min) || (want <? min) || (max <? want) || (max >? INT_MAX) || (want >? INT_MAX) || (min >? INT_MAX) then fatal
  else
    let m := sshbuf_reset m in
    match choose_dh min want max with
    | None => '(_, m) ← with_buf m (sshbuf_put_u8 0); mret 0
    | Some (p, g) =>
        '(_, m) ← with_buf m (sshbuf_put_u8 1);
        '(_, m) ← with_buf m (sshbuf_put_bignum2_bytes p);
        '(_, m) ← with_buf m (sshbuf_put_bignum2_bytes g);
        _ ← mm_request_send MONITOR_ANS_MODULI m;
        mret 0
    end.

(** The data of a signature request is a hash of the key exchange or a proof that
    the host key is held: it names the session. *)
Definition hostkey_proof (alg : cstring) (keyid : Z) : ST mon (list Z) :=
  sid ← asks session_id2;
  match sid with
  | None => fatal
  | Some sid =>
      key ← needs (get_hostkey_public_by_index keyid);
      sigbuf ← needs sshbuf_new;
      '(_, sigbuf) ← with_buf sigbuf (sshbuf_put_cstring (Some (str "hostkeys-prove-00@openssh.com")));
      '(_, sigbuf) ← with_buf sigbuf (sshbuf_put_string sid);
      blob ← need (Xkey_puts alg key);
      '(_, sigbuf) ← with_buf sigbuf (sshbuf_put blob);
      mret (contents sigbuf)
  end.

Definition mm_answer_sign (m : sshbuf) : ST mon Z :=
  '(keyid, m) ← with_buf m sshbuf_get_u32;
  '(p, m) ← with_buf m sshbuf_get_string;
  '(alg, m) ← with_buf m sshbuf_get_cstring;
  '(compat, m) ← with_buf m sshbuf_get_compat;
  let alg := cstr alg in
  if keyid >? INT_MAX then fatal
  else
    let datlen := zlen p in
    _ ← (if negb (datlen =? 20) && negb (datlen =? 32) && negb (datlen =? 48) && negb (datlen =? 64) then
           proof ← hostkey_proof alg keyid;
           if bool_decide (p = proof) then mret tt else fatal
         else mret tt);
    _ ← change (fun s => match session_id2 s with None => set_session_id2 p s | Some _ => s end);
    signature ← (match get_hostkey_by_index keyid with
                 | Some key => need (Xkey_sign alg key compat p)
                 | None =>
                     match get_hostkey_public_by_index keyid with
                     | Some key => if agent_connected then need (Xssh_agent_sign alg key compat p) else fatal
                     | None => fatal
                     end
                 end);
    '(_, m) ← with_buf (sshbuf_reset m) (sshbuf_put_string signature);
    _ ← mm_request_send MONITOR_ANS_SIGN m;
    _ ← permit MONITOR_REQ_PWNAM;
    mret 0.

(** The strings of the options that a Match block may change. *)
Fixpoint put_all (m : sshbuf) (l : list cstring) : ST mon sshbuf :=
  match l with [] => mret m | x :: l => '(_, m) ← with_buf m (sshbuf_put_cstring (Some x)); put_all m l end.

Definition mm_answer_pwnamallow `{!World} (m : sshbuf) : ST mon Z :=
  a ← asks (fun s => attempt (ctx (au s)));
  _ ← on_auth (change_ctx (fun c => set_counts (attempt c + 1) (failures c) c));
  if negb (a =? 0) then fatal
  else
    '(username, m) ← with_buf m sshbuf_get_cstring;
    let username := cstr username in
    pwent ← on_auth (getpwnamallow username);
    username ← xstrdup username;
    _ ← on_auth (change_ctx (fun c => set_user (valid c) (Some username) (pw c) c));
    let m := sshbuf_reset m in
    m ← (match pwent with
         | None =>
             '(_, m) ← with_buf m (sshbuf_put_u8 0);
             _ ← on_auth (change_ctx (fun c => set_user (valid c) (user c) (Some fakepw) c));
             mret m
         | Some pwent =>
             _ ← on_auth (change_ctx (fun c => set_user true (user c) (Some pwent) c));
             '(_, m) ← with_buf m (sshbuf_put_u8 1);
             '(_, m) ← with_buf m (sshbuf_put_string (passwd_image pwent));
             put_all m [pw_name pwent; str "*"; pw_gecos pwent; pw_dir pwent; pw_shell pwent]
         end);
    o ← asks (fun s => options (au s));
    '(_, m) ← with_buf m (sshbuf_put_string (options_image o));
    m ← put_all m (default [] (hostbased_algorithms o) :: default [] (pubkey_algorithms o) :: copied_options o);
    _ ← on_auth auth2_setup_methods_lists;
    _ ← mm_request_send MONITOR_ANS_PWNAM m;
    _ ← permit MONITOR_REQ_AUTHSERV;
    _ ← permit MONITOR_REQ_AUTH2_READ_BANNER;
    mret 0.

Definition mm_answer_auth2_read_banner `{!World} (m : sshbuf) : ST mon Z :=
  let m := sshbuf_reset m in
  '(_, m) ← with_buf m (sshbuf_put_cstring (Some (default [] auth2_read_banner)));
  _ ← mm_request_send MONITOR_ANS_AUTH2_READ_BANNER m;
  mret 0.

Definition mm_answer_authserv (m : sshbuf) : ST mon Z :=
  _ ← change (fun s => set_dispatch (monitor_permit_authentications (mon_dispatch s) true) s);
  '(service, m) ← with_buf m sshbuf_get_cstring;
  '(style, m) ← with_buf m sshbuf_get_cstring;
  let style := cstr style in
  _ ← on_auth (change_ctx (set_service (Some (cstr service)) (if zlen style =? 0 then None else Some style)));
  mret 0.

Definition mm_answer_authpassword `{!World} (m : sshbuf) : ST mon Z :=
  o ← asks (fun s => options (au s));
  if negb (password_authentication o) then fatal
  else
    '(passwd, m) ← with_buf m sshbuf_get_cstring;
    authenticated ← on_auth (auth_password (cstr passwd));
    let authenticated := if authenticated : bool then 1 else 0 in
    '(_, m) ← with_buf (sshbuf_reset m) (sshbuf_put_u32 authenticated);
    _ ← mm_request_send MONITOR_ANS_AUTHPASSWORD m;
    n ← asks call_count;
    _ ← change (set_call_count (n + 1));
    _ ← change (fun s => set_method (if (zlen passwd =? 0) && (n + 1 =? 1) then str "none" else str "password") (auth_submethod s) s);
    mret authenticated.

(** * Keys *)

Definition monitor_allowed_key (blob : list Z) (s : mon) : bool := match key_blob s with Some b => bool_decide (b = blob) | None => false end.
Definition monitor_reset_key_state : mon -> mon := set_key_state None MM_NOKEY None None None.

Definition client_info (cuser chost : cstring) : cstring :=
  str "client user " ++ [34] ++ ztake 100 cuser ++ [34] ++ str ", client host " ++ [34] ++ ztake 100 chost ++ [34].

(** Whether the key may be used, and the options that come with it. *)
Definition key_allowed `{!World} (type : Z) (cuser chost pkalg : cstring) (key : sshkey) (attempt : Z) : ST mon (bool * option sshauthopt) :=
  a ← asks au;
  if negb (valid (ctx a)) then mret (false, None)
  else if sshkey_is_rsa key && SSH_BUG_RSASIGMD5 then fatal
  else if type =? MM_USERKEY then
    _ ← change (fun s => set_method (str "publickey") (auth_submethod s) s);
    if negb (pubkey_authentication (options a)) then mret (false, None)
    else if auth2_key_already_used (ctx a) key then mret (false, None)
    else p ← deref (pw (ctx a)); mret (user_xkey_allowed (options a) p pkalg key attempt)
  else if type =? MM_HOSTKEY then
    _ ← change (fun s => set_method (str "hostbased") (auth_submethod s) s);
    if negb (hostbased_authentication (options a)) then mret (false, None)
    else if auth2_key_already_used (ctx a) key then mret (false, None)
    else
      p ← deref (pw (ctx a));
      let allowed := hostbased_xkey_allowed (options a) p pkalg key cuser chost in
      _ ← on_auth (auth2_record_info (client_info cuser chost));
      mret (allowed, None)
  else fatal.

Definition mm_answer_keyallowed `{!World} (m : sshbuf) : ST mon Z :=
  '(type, m) ← with_buf m sshbuf_get_u32;
  '(cuser, m) ← with_buf m sshbuf_get_cstring;
  '(chost, m) ← with_buf m sshbuf_get_cstring;
  '(pkalg, m) ← with_buf m sshbuf_get_cstring;
  '(blob, m) ← with_buf m sshbuf_get_string;
  '(attempt, m) ← with_buf m sshbuf_get_u32;
  let cuser := cstr cuser in let chost := cstr chost in let pkalg := cstr pkalg in
  key ← need (Xkey_from_blob pkalg blob);
  '(allowed, opts) ← key_allowed type cuser chost pkalg key attempt;
  _ ← on_auth (auth2_record_key false key);
  _ ← change monitor_reset_key_state;
  _ ← (if allowed : bool then change (set_key_state (Some blob) type opts (Some cuser) (Some chost)) else mret tt);
  '(_, m) ← with_buf (sshbuf_reset m) (sshbuf_put_u32 (if allowed : bool then 1 else 0));
  m ← (match opts with Some o => '(_, m) ← with_buf m (sshauthopt_serialise o true); mret m | None => mret m end);
  _ ← mm_request_send MONITOR_ANS_KEYALLOWED m;
  mret 0.

(** The start of the signed data: the session, a user authentication request, the
    user and the method; returns whether everything is as it should be. *)
Definition valid_blob_start (old : bool) (method : string) (b : sshbuf) : ST mon (bool * sshbuf) :=
  s ← asks (fun s => s);
  let sid := session_id2 s in let c := ctx (au s) in
  let len := match sid with Some i => zlen i | None => 0 end in
  '(ok1, b) ← (if old then
                 let p := contents b in
                 let ok := match sid with None => false | Some i => (sshbuf_len b >=? zlen i) && bool_decide (ztake (zlen i) p = i) end in
                 '(_, b) ← with_buf b (sshbuf_consume len); mret (ok, b)
               else
                 '(p, b) ← with_buf b sshbuf_get_string_direct;
                 mret (match sid with None => false | Some i => bool_decide (p = i) end, b));
  '(type, b) ← with_buf b sshbuf_get_u8;
  let ok2 := type =? 50 in
  '(cp, b) ← with_buf b sshbuf_get_cstring;
  name ← deref (user c);
  let userstyle := name ++ match style c with Some st => [58] ++ st | None => [] end in
  let ok3 := bool_decide (userstyle = cstr cp) in
  '(_, b) ← with_buf b sshbuf_skip_string;
  '(cp, b) ← with_buf b sshbuf_get_cstring;
  let ok4 := bool_decide (str method = cstr cp) in
  mret ((ok1 : bool) && ok2 && ok3 && ok4, b).

Definition monitor_valid_userblob (data : list Z) : ST mon bool :=
  b ← needs (sshbuf_from data);
  '(ok, b) ← valid_blob_start SSH_OLD_SESSIONID "publickey" b;
  '(type, b) ← with_buf b sshbuf_get_u8;
  '(_, b) ← with_buf b sshbuf_skip_string;
  '(_, b) ← with_buf b sshbuf_skip_string;
  mret ((ok : bool) && negb (type =? 0) && (sshbuf_len b =? 0)).

Definition strip_dot (cp : cstring) : cstring :=
  if (zlen cp >? 0) && (znth cp (zlen cp - 1) =? 46) then ztake (zlen cp - 1) cp else cp.

Definition monitor_valid_hostbasedblob (data : list Z) (cuser chost : cstring) : ST mon bool :=
  b ← needs (sshbuf_from data);
  '(ok, b) ← valid_blob_start false "hostbased" b;
  '(_, b) ← with_buf b sshbuf_skip_string;
  '(_, b) ← with_buf b sshbuf_skip_string;
  '(host, b) ← with_buf b sshbuf_get_cstring;
  '(name, b) ← with_buf b sshbuf_get_cstring;
  mret ((ok : bool) && bool_decide (strip_dot (cstr host) = chost) && bool_decide (cstr name = cuser) && (sshbuf_len b =? 0)).

Definition mm_answer_keyverify (m : sshbuf) : ST mon Z :=
  '(pkalg, m) ← with_buf m sshbuf_get_string;
  '(blob, m) ← with_buf m sshbuf_get_string;
  '(signature, m) ← with_buf m sshbuf_get_string;
  '(data, m) ← with_buf m sshbuf_get_string;
  let pkalg := cstr pkalg in
  s ← asks (fun s => s);
  cuser ← needs (hostbased_cuser s);
  chost ← needs (hostbased_chost s);
  if negb (monitor_allowed_key blob s) then fatal
  else
    key ← need (Xkey_from_blob pkalg blob);
    valid_data ← (if key_blobtype s =? MM_USERKEY then
                    v ← monitor_valid_userblob data;
                    _ ← change (fun s => set_method (str "publickey") (auth_submethod s) s);
                    mret v
                  else if key_blobtype s =? MM_HOSTKEY then
                    v ← monitor_valid_hostbasedblob data cuser chost;
                    _ ← change (fun s => set_method (str "hostbased") (auth_submethod s) s);
                    mret v
                  else mret false);
    if negb valid_data then fatal
    else
      let ok := Xkey_verify pkalg key signature data in
      _ ← on_auth (auth2_record_key ok key);
      _ ← (if key_blobtype s =? MM_USERKEY then _ ← on_auth (auth_activate_options (key_opts s)); mret tt else mret tt);
      _ ← change monitor_reset_key_state;
      '(_, m) ← with_buf (sshbuf_reset m) (sshbuf_put_u32 (if ok then 0 else 1));
      _ ← mm_request_send MONITOR_ANS_KEYVERIFY m;
      mret (if ok then 1 else 0).

(** * The loop *)

Definition answer `{!World} (f : handler) : sshbuf -> ST mon Z :=
  match f with
  | mm_moduli => mm_answer_moduli
  | mm_sign => mm_answer_sign
  | mm_pwnamallow => mm_answer_pwnamallow
  | mm_authserv => mm_answer_authserv
  | mm_auth2_read_banner => mm_answer_auth2_read_banner
  | mm_authpassword => mm_answer_authpassword
  | mm_keyallowed => mm_answer_keyallowed
  | mm_keyverify => mm_answer_keyverify
  end.

(** The flags of an entry, and the table with other flags there. *)
Definition flags_at (i : nat) (d : list mon_table) : Z := match d !! i with Some e => ent_flags e | None => 0 end.
Definition put_flags (i : nat) (flags : Z) (d : list mon_table) : list mon_table := alter (fun e => set_flags_of e flags) i d.

(** A request is received and answered: the result of its function and the flags
    of its entry afterwards. *)
Definition monitor_read `{!World} (body : list Z) : ST mon (Z * Z) :=
  m ← mm_request_receive body;
  '(type, m) ← with_buf m sshbuf_get_u8;
  d ← asks mon_dispatch;
  match list_find (fun e => ent_type e = type) d with
  | None => fatal
  | Some (i, e) =>
      if Z.land (ent_flags e) MON_PERMIT =? 0 then fatal
      else
        ret ← answer (ent_f e) m;
        d ← asks mon_dispatch;
        _ ← (if negb (Z.land (flags_at i d) MON_ONCE =? 0)
             then change (set_dispatch (put_flags i (Z.land (flags_at i d) (Z.lnot MON_PERMIT)) d)) else mret tt);
        d ← asks mon_dispatch;
        mret (ret, flags_at i d)
  end.

(** One round of the loop: whether the user is authenticated. *)
Definition preauth_round `{!World} (body : list Z) : ST mon bool :=
  _ ← change (set_method (str "unknown") None);
  _ ← on_auth auth2_authctxt_reset_info;
  '(ret, flags) ← monitor_read body;
  s ← asks (fun s => s);
  let method := auth_method s in let submethod := auth_submethod s in
  '(authenticated, partial) ←
    (if (ret =? 1) && negb (zlen (opt_auth_methods (options (au s))) =? 0) then
       complete ← on_auth (auth2_update_methods_lists method submethod);
       mret (complete, negb complete)
     else mret (ret =? 1, false));
  authenticated ←
    (if authenticated : bool then
       if Z.land flags MON_AUTHDECIDE =? 0 then fatal
       else
         c ← asks (fun s => ctx (au s));
         p ← deref (pw c);
         if pw_uid p =? 0 then on_auth (auth_root_allowed method) else mret true
     else mret false);
  _ ← (if Z.land flags (Z.lor MON_AUTHDECIDE MON_ALOG) =? 0 then mret tt
       else
         _ ← (if negb partial && negb authenticated then on_auth (change_ctx (fun c => set_counts (attempt c) (failures c + 1) c)) else mret tt);
         if (authenticated : bool) || (partial : bool) then on_auth (auth2_update_session_info method submethod) else mret tt);
  mret authenticated.

(** A request, with what the system answers while it is served. *)
Definition request : Type := World * list Z.

(** Requests are served until the user is authenticated; [false] when there are no
    more of them. *)
Fixpoint preauth_loop (reqs : list request) : ST mon bool :=
  match reqs with
  | [] => mret false
  | (w, body) :: reqs =>
      authenticated ← @preauth_round w body;
      if (authenticated : bool) then mret true else preauth_loop reqs
  end.

Definition authctxt_zero : Authctxt := mk_authctxt false 0 0 false None None None None [] [] None None None.

Definition preauth_start : mon -> mon := fun s =>
  let d := monitor_permit (monitor_permit mon_dispatch_proto20 MONITOR_REQ_MODULI true) MONITOR_REQ_SIGN true in
  set_dispatch d (set_au (set_ctx authctxt_zero (au s)) s).

Definition monitor_child_preauth (reqs : list request) : ST mon bool :=
  _ ← change preauth_start;
  authenticated ← preauth_loop reqs;
  if negb (authenticated : bool) then mret false
  else
    s ← asks (fun s => s);
    if negb (valid (ctx (au s))) then fatal
    else if bool_decide (auth_method s = str "unknown") then fatal
    else mret true.

(** The process as sshd starts it. *)
Definition monitor_init (o : ServerOptions) (keys_defaults : sshauthopt) (loginmsg : sshbuf) : mon :=
  mk_mon (mk_authst o (Some keys_defaults) loginmsg authctxt_zero false true) mon_dispatch_proto20
    None MM_NOKEY None None None (str "unknown") None None 0 [].
End monitor.
