(* ===== verification/MonitorSafe.v ===== *)
(** What the monitor guarantees before it lets a session start. *)

From Stdlib Require Import String.
From S2P Require Import Prelude Sshbuf SshbufGetPut SshbufRead Match AddrMatch Misc AuthOptions Auth AuthLaws Monitor.
Local Open Scope Z_scope.

(** * Symbolic execution *)

(** If the computation returns, the result and the new state satisfy [Q]. *)
Definition wp {S A} (m : ST S A) (Q : A -> S -> Prop) (s : S) : Prop := match m s with Done (a, s') => Q a s' | Fatal | Crash => True end.

Section rules.
Context {S : Type}.
Implicit Types s : S.
Lemma wp_ret {A} (a : A) (Q : A -> S -> Prop) s : Q a s -> wp (mret a) Q s.
Proof. done. Qed.
Lemma wp_bind {A B} (m : ST S A) (f : A -> ST S B) Q s : wp m (fun a => wp (f a) Q) s -> wp (m ≫= f) Q s.
Proof. unfold wp, mbind, st_bind. by destruct (m s) as [[a s']| |]. Qed.
Lemma wp_mono {A} (m : ST S A) (P Q : A -> S -> Prop) s : wp m P s -> (forall a s', P a s' -> Q a s') -> wp m Q s.
Proof. unfold wp. destruct (m s) as [[a s']| |]; auto. Qed.
Lemma wp_fatal {A} (Q : A -> S -> Prop) s : wp fatal Q s.
Proof. done. Qed.
Lemma wp_asks {A} (f : S -> A) (Q : A -> S -> Prop) s : Q (f s) s -> wp (asks f) Q s.
Proof. done. Qed.
Lemma wp_change (f : S -> S) (Q : unit -> S -> Prop) s : Q tt (f s) -> wp (change f) Q s.
Proof. done. Qed.
Lemma wp_deref {A} (p : option A) (Q : A -> S -> Prop) s : (forall a, p = Some a -> Q a s) -> wp (deref p) Q s.
Proof. destruct p; cbn; auto. Qed.
Lemma wp_needs {A} (p : option A) (Q : A -> S -> Prop) s : (forall a, p = Some a -> Q a s) -> wp (needs p) Q s.
Proof. destruct p; cbn; auto. Qed.
Lemma wp_need {A} (r : result A) (Q : A -> S -> Prop) s : (forall a, r = Ok a -> Q a s) -> wp (need r) Q s.
Proof. destruct r; cbn; auto. Qed.
Lemma wp_with_buf {A} b (m : SE sshbuf A) (Q : A * sshbuf -> S -> Prop) s :
  (forall a b', m b = (Ok a, b') -> Q (a, b') s) -> wp (with_buf b m) Q s.
Proof. unfold wp, with_buf. destruct (m b) as [[a|e] b']; auto. Qed.
Lemma wp_xstrdup `{Allocator} t (Q : cstring -> S -> Prop) s : Q t s -> wp (xstrdup t) Q s.
Proof. unfold xstrdup. destruct (malloc_ok _); [done|]. intros _. apply wp_fatal. Qed.
End rules.

(** One step of a computation. *)
Ltac wp_step :=
  lazymatch goal with
  | |- wp (mbind _ _) _ _ => apply wp_bind
  | |- wp (mret _) _ _ => apply wp_ret
  | |- wp fatal _ _ => apply wp_fatal
  | |- wp (asks _) _ _ => apply wp_asks
  | |- wp (change _) _ _ => apply wp_change
  | |- wp (deref _) _ _ => apply wp_deref; intros ? ?
  | |- wp (needs _) _ _ => apply wp_needs; intros ? ?
  | |- wp (need _) _ _ => apply wp_need; intros ? ?
  | |- wp (xstrdup _) _ _ => apply wp_xstrdup
  | |- wp (with_buf _ _) _ _ => apply wp_with_buf; intros ? ? ?
  end.
Ltac wp_steps := repeat (wp_step; cbv beta iota zeta).

(** * What requests say *)

(** The fields of the requests, as they stand after the type; a C string ends at
    its first zero byte. *)
Definition cstring_msg (l : list Z) (v : cstring) : Prop := exists f rest, v = cstr f /\ l = enc_string f ++ rest.
Definition sign_msg (l data : list Z) : Prop := exists keyid rest, l = POKE_U32 keyid ++ enc_string data ++ rest.
Definition authserv_msg (l : list Z) (service style : cstring) : Prop :=
  exists sv st rest, service = cstr sv /\ style = cstr st /\ l = enc_string sv ++ enc_string st ++ rest.
Definition keyallowed_msg (l : list Z) (type : Z) (cuser chost pkalg : cstring) (blob : list Z) (attempt : Z) : Prop :=
  exists cu ch pk rest, cuser = cstr cu /\ chost = cstr ch /\ pkalg = cstr pk /\
    l = POKE_U32 type ++ enc_string cu ++ enc_string ch ++ enc_string pk ++ enc_string blob ++ POKE_U32 attempt ++ rest.
Definition keyverify_msg (l : list Z) (pkalg : cstring) (blob signature data : list Z) : Prop :=
  exists pk rest, pkalg = cstr pk /\ l = enc_string pk ++ enc_string blob ++ enc_string signature ++ enc_string data ++ rest.

(** The fields that have been read are those of the request. *)
Ltac parsed :=
  repeat match goal with
  | Hr : readable ?b, E : sshbuf_get_cstring ?b = (Ok ?v, ?b') |- _ =>
      let C := fresh "C" in destruct (get_cstring_yields b v b' Hr E) as (? & ? & -> & C); clear E
  | Hr : readable ?b, E : sshbuf_get_string ?b = (Ok ?v, ?b') |- _ =>
      let C := fresh "C" in destruct (get_string_yields b v b' Hr E) as (? & ? & -> & C); clear E
  | Hr : readable ?b, E : sshbuf_get_u32 ?b = (Ok ?v, ?b') |- _ =>
      let C := fresh "C" in destruct (get_u32_yields b v b' Hr E) as (? & ? & [-> _] & C); clear E
  end.
Ltac in_fields := repeat match goal with C : contents ?b = _ ++ contents _ |- context [contents ?b] => rewrite C end; done.

Section safe.
Context `{Allocator} `{Getaddrinfo} `{KeyLib} `{Process} `{!MonitorConfig}.

Lemma wp_on_auth {A} (m : ST authst A) (Q : A -> mon -> Prop) s : wp m (fun a x => Q a (set_au x s)) (au s) -> wp (on_auth m) Q s.
Proof. unfold wp, on_auth. by destruct (m (au s)) as [[a x]| |]. Qed.

(** ** What a request leaves alone *)

(** Only the answers that were sent have changed. *)
Definition set_sent (l : list (Z * list Z)) (s : mon) : mon :=
  mk_mon (au s) (mon_dispatch s) (key_blob s) (key_blobtype s) (key_opts s) (hostbased_cuser s) (hostbased_chost s) (auth_method s)
    (auth_submethod s) (session_id2 s) (call_count s) l.

Lemma send_wp type m (Q : unit -> mon -> Prop) s : (forall l, Q tt (set_sent l s)) -> wp (mm_request_send type m) Q s.
Proof. intros HQ. unfold mm_request_send. destruct (_ >=? _); [apply wp_fatal|]. apply wp_change, HQ. Qed.

Lemma moduli_wp `{!World} m s : wp (mm_answer_moduli m) (fun r s' => r = 0 /\ exists l, s' = set_sent l s) s.
Proof.
  unfold mm_answer_moduli. wp_steps. destruct (_ || _); [apply wp_fatal|]. destruct (choose_dh _ _ _) as [[p g]|]; wp_steps.
  - apply send_wp. intros l. wp_steps. eauto.
  - split; [done|]. exists (sent s). by destruct s.
Qed.

Lemma banner_wp `{!World} m s : wp (mm_answer_auth2_read_banner m) (fun r s' => r = 0 /\ exists l, s' = set_sent l s) s.
Proof. unfold mm_answer_auth2_read_banner. wp_steps. apply send_wp. intros l. wp_steps. eauto. Qed.

(** The first signature fixes the session. *)
Definition keep_session (sid : list Z) (s : mon) : mon := match session_id2 s with None => set_session_id2 sid s | Some _ => s end.

Lemma sign_wp m s :
  readable m ->
  wp (mm_answer_sign m) (fun r s' => r = 0 /\ exists sid l, sign_msg (contents m) sid /\
    s' = set_dispatch (monitor_permit (mon_dispatch s) MONITOR_REQ_PWNAM true) (set_sent l (keep_session sid s))) s.
Proof.
  intros Hm. unfold mm_answer_sign. wp_steps. parsed. destruct (_ >? _); [apply wp_fatal|]. wp_steps.
  assert (forall (alg : cstring) keyid (Q : list Z -> mon -> Prop), (forall l, Q l s) -> wp (hostkey_proof alg keyid) Q s) as Hproof.
  { intros alg keyid Q HQ. unfold hostkey_proof. wp_steps. destruct (session_id2 s); wp_steps; apply HQ. }
  assert (forall (Q : unit -> mon -> Prop), Q tt s -> forall c alg keyid (p : list Z),
    wp (if (c : bool) then proof ← hostkey_proof alg keyid; (if bool_decide (p = proof) then mret tt else fatal) else mret tt) Q s) as Hcheck.
  { intros Q HQ c alg keyid p. destruct c; [|by apply wp_ret]. apply wp_bind, Hproof. intros l. case_bool_decide; [by apply wp_ret|apply wp_fatal]. }
  apply Hcheck. wp_steps. assert (forall keyid (alg : cstring) compat (p : list Z) (Q : list Z -> mon -> Prop) x, (forall g, Q g x) ->
    wp (match get_hostkey_by_index keyid with
        | Some key => need (Xkey_sign alg key compat p)
        | None => match get_hostkey_public_by_index keyid with
                  | Some key => if agent_connected then need (Xssh_agent_sign alg key compat p) else fatal | None => fatal end end) Q x) as Hsig.
  { intros keyid alg compat p Q x HQ. destruct (get_hostkey_by_index keyid); [by wp_steps|]. destruct (get_hostkey_public_by_index keyid); [|apply wp_fatal].
    destruct agent_connected; by wp_steps. }
  apply Hsig. intros g. wp_steps. apply send_wp. intros l. unfold permit. wp_steps. split; [done|]. exists a0, l.
  split; [eexists a, _; in_fields|]. change (match session_id2 s with Some _ => s | None => set_session_id2 _ s end) with (keep_session a0 s).
  unfold keep_session. by destruct (session_id2 s).
Qed.

(** The key that may be used next. *)
Definition key_state (s : mon) := (key_blob s, key_blobtype s, key_opts s, hostbased_cuser s, hostbased_chost s).

(** The lists of methods that are still to be completed belong to the configuration. *)
Definition lists_ready (x : authst) : Prop :=
  opt_auth_methods (options x) = [] \/
  auth_methods (ctx x) = List.filter (fun m => auth2_methods_valid (options x) (none_enabled x) m true) (opt_auth_methods (options x)).

Lemma setup_wp x :
  wp auth2_setup_methods_lists (fun _ x' => lists_ready x' /\ exists o l, x' = set_ctx (set_methods l (ctx x)) (set_options o x)) x.
Proof.
  unfold auth2_setup_methods_lists, lists_ready. wp_steps. case_bool_decide as Ha; cbn [options set_options opt_auth_methods set_opt_methods].
  - wp_steps. split; [by left|]. exists (set_opt_methods [] (options x)), (auth_methods (ctx x)). destruct x as [o a b [] e n]. done.
  - destruct (zlen (opt_auth_methods (options x)) =? 0) eqn:Ez; wp_steps.
    + split; [left; by destruct (opt_auth_methods (options x))|]. exists (options x), (auth_methods (ctx x)). destruct x as [o a b [] e n]. done.
    + unfold change_ctx. wp_steps. split; [by right|]. exists (options x). eexists. by destruct x.
Qed.

Lemma put_all_wp l : forall m (Q : sshbuf -> mon -> Prop) s, (forall m', Q m' s) -> wp (put_all m l) Q s.
Proof. induction l as [|t l IH]; intros m Q s HQ; cbn [put_all]; wp_steps; [apply HQ|]. by apply IH. Qed.

(** The user with this name was found and may log in. *)
Definition found_user `{!World} (o : ServerOptions) (name : cstring) (p : passwd) : Prop :=
  getpwnam name = Some p /\ may_log_in (parse_server_match_config o name) p.

Record after_pwnam (w : World) (l : list Z) (s s' : mon) : Prop := {
  ap_first : attempt (ctx (au s)) = 0;
  ap_attempt : attempt (ctx (au s')) = 1;
  ap_dispatch : mon_dispatch s' = monitor_permit (monitor_permit (mon_dispatch s) MONITOR_REQ_AUTHSERV true) MONITOR_REQ_AUTH2_READ_BANNER true;
  ap_session : session_id2 s' = session_id2 s;
  ap_keys : key_state s' = key_state s;
  ap_submethod : auth_submethod s' = auth_submethod s;
  ap_style : style (ctx (au s')) = style (ctx (au s));
  ap_prev : prev_keys (ctx (au s')) = prev_keys (ctx (au s));
  ap_user : exists name p, cstring_msg l name /\ user (ctx (au s')) = Some name /\ pw (ctx (au s')) = Some p /\
    (valid (ctx (au s')) = true -> valid (ctx (au s)) = true \/ @found_user w (options (au s)) name p);
  ap_lists : lists_ready (au s')
}.

Lemma pwnam_wp `{!ReliableAllocator _} (w : World) m s :
  readable m -> wp (@mm_answer_pwnamallow _ _ _ _ _ w m) (fun r s' => r = 0 /\ after_pwnam w (contents m) s s') s.
Proof.
  intros Hm. unfold mm_answer_pwnamallow. wp_steps. apply wp_on_auth. unfold change_ctx. wp_steps. destruct (Z.eqb_spec (attempt (ctx (au s))) 0) as [E0|]; [|apply wp_fatal].
  cbn [negb]. wp_steps. parsed. apply wp_on_auth. pose proof (getpwnamallow_spec (cstr a) (au (set_au (set_ctx (set_counts (attempt (ctx (au s)) + 1) (failures (ctx (au s))) (ctx (au s))) (au s)) s))) as Hg.
  unfold wp at 1. destruct (getpwnamallow _ _) as [[r x]| |]; [|done|done]. destruct Hg as [Hg Hx]. wp_steps. apply wp_on_auth. wp_steps.
  set (name := cstr a) in *. cbn [au set_au options] in Hg. unfold same_but_msg in Hx. rewrite Hx. clear Hx.
  assert (forall (Q : sshbuf -> mon -> Prop) m' x', (forall m'' p v, (v = true -> valid (ctx (au x')) = true \/ found_user (options (au s)) name p) ->
      Q m'' (set_au (set_ctx (set_user v (user (ctx (au x'))) (Some p) (ctx (au x'))) (au x')) x')) ->
    wp (match r with
        | None => '(_, m) ← with_buf m' (sshbuf_put_u8 0);
                  _ ← on_auth (change (fun s => set_ctx (set_user (valid (ctx s)) (user (ctx s)) (Some fakepw) (ctx s)) s)); mret m
        | Some pwent =>
            _ ← on_auth (change (fun s => set_ctx (set_user true (user (ctx s)) (Some pwent) (ctx s)) s));
            '(_, m) ← with_buf m' (sshbuf_put_u8 1);
            '(_, m) ← with_buf m (sshbuf_put_string (passwd_image pwent));
            put_all m [pw_name pwent; str "*"; pw_gecos pwent; pw_dir pwent; pw_shell pwent]
        end) Q x') as Huser.
  { intros Q m' x' HQ. destruct r as [p|]; wp_steps; apply wp_on_auth; wp_steps.
    - apply put_all_wp. intros m''. apply HQ. intros _. right. by apply Hg.
    - apply HQ. by left. }
  apply Huser. intros m1 p v Hv. wp_steps. apply put_all_wp. intros m2. apply wp_bind, wp_on_auth. eapply wp_mono; [apply setup_wp|].
  intros _ x' (Hl & o & l & Ex). wp_steps. apply send_wp. intros sn. unfold permit. wp_steps. split; [done|]. rewrite Ex in *. split; try done; [cbn; lia|].
  exists name, p. split; [|done]. eexists a, _. split; [done|in_fields].
Qed.

Lemma authserv_wp m s :
  readable m ->
  wp (mm_answer_authserv m) (fun r s' => r = 0 /\ exists service style sv st, authserv_msg (contents m) service style /\
    st = (if zlen style =? 0 then None else Some style) /\
    s' = set_dispatch (monitor_permit_authentications (mon_dispatch s) true) (set_au (set_ctx (set_service sv st (ctx (au s))) (au s)) s)) s.
Proof.
  intros Hm. unfold mm_answer_authserv. wp_steps. parsed. apply wp_on_auth. unfold change_ctx. wp_steps. split; [done|].
  exists (cstr a), (cstr a0). eexists _, _. split; [|split; [reflexivity|by destruct s]]. eexists a, a0, _. split; [done|]. split; [done|in_fields].
Qed.

(** ** Passwords *)

(** Who is being authenticated, and how. *)
Definition who (x : authst) :=
  (options x, none_enabled x, (valid (ctx x), attempt (ctx x), user (ctx x), style (ctx x), pw (ctx x), auth_methods (ctx x))).

(** The password is the one of the user. *)
Definition password_ok `{!World} (o : ServerOptions) (p : passwd) (pass : cstring) : Prop :=
  zlen pass <= MAX_PASSWORD_LEN /\ (pass = [] -> permit_empty_passwd o = true) /\ (pw_uid p = 0 -> permit_root_login o = PERMIT_YES) /\
  exists f, shadow_pw p = Some f /\ ((f = [] /\ pass = []) \/ xcrypt pass (if zlen f >=? 2 then Some f else None) = Some f).

Lemma sys_auth_wp `{!World} pass x :
  wp (sys_auth_passwd pass) (fun b x' => x' = x /\ forall p, pw (ctx x) = Some p -> valid (ctx x) = true -> b = true ->
    exists f, shadow_pw p = Some f /\ ((f = [] /\ pass = []) \/ xcrypt pass (if zlen f >=? 2 then Some f else None) = Some f)) x.
Proof.
  unfold sys_auth_passwd. wp_steps. split; [done|]. intros p Hp Hv. assert (a = p) as -> by congruence. rewrite Hv. cbn [andb].
  destruct (shadow_pw p) as [f|]; [|done]. intros Hb. exists f. split; [done|].
  destruct ((zlen f =? 0) && (zlen pass =? 0)) eqn:E0.
  - left. rewrite andb_true_iff, !Z.eqb_eq in E0. destruct E0 as [Ef Ep]. split; [by destruct f|by destruct pass].
  - right. destruct (xcrypt pass _) as [e|]; [|done]. by apply bool_decide_eq_true in Hb as ->.
Qed.

Lemma login_message_wp text (Q : unit -> authst -> Prop) x : (forall b, Q tt (set_loginmsg b x)) -> wp (login_message text) Q x.
Proof. intros HQ. unfold login_message. wp_steps. apply HQ. Qed.

Lemma pwexpired_wp `{!World} x : wp auth_shadow_pwexpired (fun _ x' => who x' = who x /\ ctx x' = ctx x) x.
Proof.
  unfold auth_shadow_pwexpired. wp_steps. destruct (getspnam _); [|by wp_steps]. repeat (destruct (_ =? _); [by wp_steps|]).
  destruct (_ <? _); [by wp_steps|]. destruct (_ <=? _); [|by wp_steps]. wp_steps. apply login_message_wp. intros b. by wp_steps.
Qed.

Lemma activate_wp opts x : wp (auth_activate_options opts) (fun _ x' => exists a, x' = set_auth_opts a x) x.
Proof. unfold auth_activate_options. wp_steps. destruct (sshauthopt_merge _ _); wp_steps; eauto. Qed.

Lemma auth_password_wp `{!World} pass x :
  wp (auth_password pass) (fun b x' => who x' = who x /\ prev_keys (ctx x') = prev_keys (ctx x) /\
    (b = true -> valid (ctx x) = true /\ exists p, pw (ctx x) = Some p /\ password_ok (options x) p pass)) x.
Proof.
  unfold auth_password. wp_steps. destruct (Z.gtb_spec (zlen pass) MAX_PASSWORD_LEN); [by wp_steps|]. wp_steps.
  destruct ((zlen pass =? 0) && negb (permit_empty_passwd (options x))) eqn:Ee; [by wp_steps|]. wp_steps.
  apply (wp_mono _ (fun _ x' => who x' = who x /\ prev_keys (ctx x') = prev_keys (ctx x))).
  { destruct (expire_checked x); [by wp_steps|]. wp_steps. eapply wp_mono; [apply pwexpired_wp|]. intros e x' [Hw Hc].
    assert (who x' = who x) as Hw' by (by rewrite Hw). destruct e; unfold change_ctx; wp_steps; (split; [exact Hw'|by rewrite ?Hc]) || (split; [exact Hw'|by cbn; rewrite Hc]). }
  intros _ x1 [Hw1 Hp1]. eapply wp_bind, wp_mono; [apply sys_auth_wp|]. intros result x2 [-> Hres]. wp_steps.
  apply (wp_mono _ (fun _ x' => exists a, x' = set_auth_opts a x1)).
  { destruct (force_pwchange (ctx x1)); [|wp_steps; exists (auth_opts x1); by destruct x1]. unfold auth_restrict_session. wp_steps.
    eapply wp_mono; [apply activate_wp|]. intros ok x' Hx. destruct ok; [by wp_steps|apply wp_fatal]. }
  intros _ x3 [ao ->]. wp_steps. split; [exact Hw1|]. split; [exact Hp1|]. intros [Hr Hok]%andb_prop. apply andb_prop in Hok as [Hv Hroot].
  split; [done|]. exists a. split; [done|]. injection Hw1 as Ho _ Ev _ _ _ Ep _. split; [lia|]. split; [|split].
  - intros ->. change (zlen [] =? 0) with true in Ee. cbn in Ee. by destruct (permit_empty_passwd (options x)).
  - intros Hu. rewrite Hu in Hroot. cbn in Hroot. apply negb_true_iff, negb_false_iff, Z.eqb_eq in Hroot. done.
  - apply Hres; [congruence|congruence|done].
Qed.

(** The method of a password request. *)
Definition password_step (s' : mon) (pass : cstring) : Prop :=
  auth_method s' = str "password" \/ (auth_method s' = str "none" /\ pass = []).

Lemma authpassword_wp `{!World} m s :
  readable m ->
  wp (mm_answer_authpassword m) (fun r s' =>
    who (au s') = who (au s) /\ prev_keys (ctx (au s')) = prev_keys (ctx (au s)) /\ mon_dispatch s' = mon_dispatch s /\
    session_id2 s' = session_id2 s /\ key_state s' = key_state s /\ auth_submethod s' = auth_submethod s /\ (r = 0 \/ r = 1) /\
    (r = 1 -> valid (ctx (au s)) = true /\ password_authentication (options (au s)) = true /\
       exists pass p, cstring_msg (contents m) pass /\ password_step s' pass /\ pw (ctx (au s)) = Some p /\ password_ok (options (au s)) p pass)) s.
Proof.
  intros Hm. unfold mm_answer_authpassword. wp_steps. destruct (password_authentication _) eqn:Epa; [|apply wp_fatal]. cbn [negb]. wp_steps. parsed.
  eapply wp_on_auth, wp_mono; [apply auth_password_wp|]. intros b x (Hw & Hp & Hok). wp_steps. apply send_wp. intros l. wp_steps.
  split; [exact Hw|]. split; [exact Hp|]. do 4 (split; [done|]). split; [destruct b; auto|]. intros Hb. destruct b; [|done].
  destruct (Hok eq_refl) as (Hv & p & Ep & Hpok). split; [done|]. split; [done|]. exists (cstr a), p. split; [eexists a, _; split; [done|in_fields]|]. split; [|done].
  unfold password_step. cbn. destruct ((zlen a =? 0) && _) eqn:E0; [right|by left]. split; [done|]. apply andb_prop in E0 as [E0 _]. apply Z.eqb_eq in E0. by destruct a.
Qed.

(** ** Keys *)

(** The key may be used to authenticate the user: it is authorized for the user,
    or it is a known key of the host the user comes from. *)
Definition granted `{!World} (o : ServerOptions) (p : passwd) (type : Z) (cuser chost pkalg : cstring) (key : sshkey) (attempt : Z) (opts : option sshauthopt) : Prop :=
  (type = MM_USERKEY /\ pubkey_authentication o = true /\ user_xkey_allowed o p pkalg key attempt = (true, opts)) \/
  (type = MM_HOSTKEY /\ hostbased_authentication o = true /\ hostbased_xkey_allowed o p pkalg key cuser chost = true /\ opts = None).

(** What a request that does not decide leaves alone. *)
Definition unmoved (s s' : mon) : Prop :=
  who (au s') = who (au s) /\ prev_keys (ctx (au s')) = prev_keys (ctx (au s)) /\ mon_dispatch s' = mon_dispatch s /\ session_id2 s' = session_id2 s /\
  auth_submethod s' = auth_submethod s.

Lemma key_allowed_wp `{!World} type cuser chost pkalg key att s :
  wp (key_allowed type cuser chost pkalg key att) (fun '(allowed, opts) s' => unmoved s s' /\
    (allowed = true -> valid (ctx (au s)) = true /\ auth2_key_already_used (ctx (au s)) key = false /\
       exists p, pw (ctx (au s)) = Some p /\ granted (options (au s)) p type cuser chost pkalg key att opts)) s.
Proof.
  assert (forall m, unmoved s (set_method m (auth_submethod s) s)) as Hm by done. assert (unmoved s s) as Hs by done.
  unfold key_allowed. wp_steps. destruct (valid (ctx (au s))); cbn [negb]; [|by wp_steps]. destruct (_ && _); [apply wp_fatal|].
  destruct (Z.eqb_spec type MM_USERKEY) as [Et|].
  - wp_steps. destruct (pubkey_authentication _) eqn:Ep; cbn [negb]; [|by wp_steps]. destruct (auth2_key_already_used _ key) eqn:Eu; [by wp_steps|]. wp_steps.
    destruct (user_xkey_allowed (options (au s)) a pkalg key att) as [allowed opts] eqn:Ea. split; [apply Hm|]. intros ->. split; [done|]. split; [done|].
    exists a. split; [done|]. left. eauto.
  - destruct (Z.eqb_spec type MM_HOSTKEY) as [Et|]; [|apply wp_fatal]. wp_steps. destruct (hostbased_authentication _) eqn:Ep; cbn [negb]; [|by wp_steps].
    destruct (auth2_key_already_used _ key) eqn:Eu; [by wp_steps|]. wp_steps. apply wp_on_auth. unfold auth2_record_info, change_ctx.
    destruct (malloc_ok _); [|apply wp_fatal]. wp_steps. split; [done|]. intros Ha. split; [done|]. split; [done|]. exists a. split; [done|]. right. eauto.
Qed.

Lemma record_key_wp b key x :
  wp (auth2_record_key b key) (fun _ x' => who x' = who x /\ (b = false -> prev_keys (ctx x') = prev_keys (ctx x))) x.
Proof.
  unfold auth2_record_key, change_ctx. wp_steps. destruct b; cbn [negb]; wp_steps; [|done]. destruct (_ || _); [apply wp_fatal|]. by wp_steps.
Qed.

(** The key state holds a key that may be used. *)
Definition key_held (w : World) (l : list Z) (s s' : mon) : Prop :=
  exists blob type cuser chost pkalg key p att opts, keyallowed_msg l type cuser chost pkalg blob att /\ key_state s' = (Some blob, type, opts, Some cuser, Some chost) /\
    valid (ctx (au s)) = true /\ pw (ctx (au s)) = Some p /\ Xkey_from_blob pkalg blob = Ok key /\
    auth2_key_already_used (ctx (au s)) key = false /\ @granted w (options (au s)) p type cuser chost pkalg key att opts.

Lemma keyallowed_wp (w : World) m s :
  readable m ->
  wp (@mm_answer_keyallowed _ _ _ w m) (fun r s' => r = 0 /\ unmoved s s' /\ (key_blob s' = None \/ key_held w (contents m) s s')) s.
Proof.
  intros Hm. unfold mm_answer_keyallowed. wp_steps. parsed. eapply wp_mono; [apply key_allowed_wp|]. intros [allowed opts] s1 [Hu Hok]. cbv iota. wp_steps.
  eapply wp_on_auth, wp_mono; [apply record_key_wp|]. intros _ x [Hw Hp]. wp_steps.
  set (s2 := monitor_reset_key_state (set_au x s1)). assert (unmoved s s2) as Hu2.
  { destruct Hu as (U1 & U2 & U3 & U4). split; [by cbn; rewrite Hw|]. split; [cbn; rewrite Hp by done; done|done]. }
  apply (wp_mono _ (fun _ s3 => unmoved s s3 /\ (key_blob s3 = None \/ key_held w (contents m) s s3))).
  { destruct allowed; wp_steps; [|by split; [|left]]. split; [exact Hu2|]. right. destruct (Hok eq_refl) as (Hv & Hun & p & Ep & Hg).
    exists a3, a, (cstr a0), (cstr a1), (cstr a2), a5, p, a4, opts. split; [|done]. eexists a0, a1, a2, _. do 3 (split; [done|]). in_fields. }
  intros _ s3 [Hu3 Hk3]. wp_steps. assert (forall (b : sshbuf) (Q : sshbuf -> mon -> Prop), (forall b', Q b' s3) ->
    wp (match opts with Some o => '(_, m) ← with_buf b (sshauthopt_serialise o true); mret m | None => mret b end) Q s3) as Hser.
  { intros b Q HQ. destruct opts; wp_steps; apply HQ. }
  apply Hser. intros bb. wp_steps. apply send_wp. intros l. wp_steps. split; [done|]. split; [exact Hu3|exact Hk3].
Qed.

(** ** Signed data *)

(** The user as it is written in a request. *)
Definition userstyle (name : cstring) (st : option cstring) : cstring := name ++ match st with Some st => [58] ++ st | None => [] end.

(** The data starts with the session, the type of a user authentication request,
    the user, a service and the method. *)
Definition signed_start (old : bool) (sid name method data rest : list Z) : Prop :=
  exists cp sv mt, cstr cp = name /\ cstr mt = method /\
    data = (if old then sid else enc_string sid) ++ [50] ++ enc_string cp ++ enc_string sv ++ enc_string mt ++ rest.

Lemma blob_start_wp old method b s :
  readable b ->
  wp (valid_blob_start old method b) (fun '(ok, b') s' => s' = s /\ readable b' /\
    (ok = true -> exists sid name, session_id2 s = Some sid /\ user (ctx (au s)) = Some name /\
       signed_start old sid (userstyle name (style (ctx (au s)))) (str method) (contents b) (contents b'))) s.
Proof.
  intros Hb. unfold valid_blob_start. wp_steps.
  set (start := fun (ok : bool) (b' : sshbuf) => readable b' /\
    (ok = true -> exists sid, session_id2 s = Some sid /\ contents b = (if old then sid else enc_string sid) ++ contents b')).
  apply (wp_mono _ (fun '(ok, b') s' => s' = s /\ start ok b')).
  { destruct old; wp_steps; (split; [done|]).
    - rename a into u, b' into b1, H4 into Econ. destruct Hb as [Hw Hby].
      set (len := match session_id2 s with Some i => zlen i | None => 0 end) in *.
      assert (0 <= len) as Hlen by (unfold len; destruct (session_id2 s); [apply zlen_nonneg|lia]).
      pose proof (sshbuf_consume_spec b len Hw Hlen) as Hc. destruct (len <=? zlen (contents b)); [|by rewrite Hc in Econ].
      destruct Hc as (b2 & E2 & Hx & Hc2 & _). rewrite E2 in Econ. injection Econ as _ <-.
      assert (contents b = ztake len (contents b) ++ contents b2) as Hsp by (by rewrite Hc2, ztake_zdrop).
      split; [by eapply readable_rest; [| |exact Hsp]; [|apply Hx]|]. unfold len in *. destruct (session_id2 s) as [i|]; [|done].
      intros [_ Hi]%andb_prop. apply bool_decide_eq_true in Hi. exists i. split; [done|]. by rewrite Hi in Hsp.
    - destruct (get_string_direct_yields b a b' Hb ltac:(done)) as (Hr & e & -> & Hc). split; [done|]. destruct (session_id2 s) as [i|]; [|done].
      intros Hi%bool_decide_eq_true. subst a. eauto. }
  intros [ok1 b1] s1 [-> [Hr1 Hok1]]. wp_steps. rename a into t, b' into b2, H4 into E2. destruct (get_u8_yields b1 t b2 Hr1 E2) as (Hr2 & e2 & -> & C2).
  rename a0 into cp, b'0 into b3, H5 into E3, a1 into name, H6 into Eu, b'1 into b4, H7 into E4, b'2 into b5, a3 into mt, H8 into E5.
  destruct (get_cstring_yields b2 cp b3 Hr2 E3) as (Hr3 & e3 & -> & C3).
  destruct (skip_string_yields b3 a2 b4 Hr3 E4) as (Hr4 & e4 & [sv ->] & C4).
  destruct (get_cstring_yields b4 mt b5 Hr4 E5) as (Hr5 & e5 & -> & C5). split; [done|]. split; [done|].
  rewrite !andb_true_iff, !bool_decide_eq_true, Z.eqb_eq. intros [[[O1 O2] O3] O4]. destruct (Hok1 O1) as (sid & Es & C1). exists sid, name. split; [done|]. split; [done|].
  exists cp, sv, mt. split; [done|]. split; [done|]. by rewrite C1, C2, C3, C4, C5, O2, <- ?app_assoc.
Qed.

(** A public key authentication request of this user in this session. *)
Definition user_request (sid name data : list Z) : Prop :=
  exists t alg blob, t <> 0 /\ signed_start SSH_OLD_SESSIONID sid name (str "publickey") data ([t] ++ enc_string alg ++ enc_string blob).
(** A host based authentication request of this user in this session, for the user
    [cuser] of the host [chost]. *)
Definition host_request (sid name cuser chost data : list Z) : Prop :=
  exists alg blob h u, strip_dot (cstr h) = chost /\ cstr u = cuser /\
    signed_start false sid name (str "hostbased") data (enc_string alg ++ enc_string blob ++ enc_string h ++ enc_string u).

Lemma from_readable data b : bytes_ok data -> sshbuf_from data = Some b -> readable b /\ contents b = data.
Proof. intros Hb E. destruct (sshbuf_from_spec data b E) as (Hw & Hc & _). split; [split; [done|by rewrite Hc]|done]. Qed.

Lemma empty_contents b : readable b -> (sshbuf_len b =? 0) = true -> contents b = [].
Proof. intros [Hw _] E. rewrite sshbuf_len_wf in E by done. apply Z.eqb_eq in E. by destruct (contents b). Qed.

Lemma userblob_wp data s :
  bytes_ok data ->
  wp (monitor_valid_userblob data) (fun ok s' => s' = s /\ (ok = true -> exists sid name, session_id2 s = Some sid /\ user (ctx (au s)) = Some name /\
    user_request sid (userstyle name (style (ctx (au s)))) data)) s.
Proof.
  intros Hb. unfold monitor_valid_userblob. wp_steps. rename H4 into Ef. destruct (from_readable data a Hb Ef) as [Hr Hc].
  eapply wp_mono; [by apply blob_start_wp|]. intros [ok b1] s1 (-> & Hr1 & Hok). wp_steps.
  destruct (get_u8_yields b1 a0 b' Hr1 ltac:(done)) as (Hr2 & e2 & -> & C2). destruct (skip_string_yields b' a1 b'0 Hr2 ltac:(done)) as (Hr3 & e3 & [alg ->] & C3).
  destruct (skip_string_yields b'0 a2 b'1 Hr3 ltac:(done)) as (Hr4 & e4 & [blob ->] & C4). split; [done|]. rewrite !andb_true_iff, negb_true_iff, Z.eqb_neq.
  intros [[O1 O2] O3]. destruct (Hok O1) as (sid & name & Es & Eu & Hst). exists sid, name. split; [done|]. split; [done|]. exists a0, alg, blob. split; [done|].
  rewrite (empty_contents b'1 Hr4 O3), app_nil_r in C4. rewrite <- C4, <- C3, <- C2. by rewrite Hc in Hst.
Qed.

Lemma hostblob_wp data cuser chost s :
  bytes_ok data ->
  wp (monitor_valid_hostbasedblob data cuser chost) (fun ok s' => s' = s /\ (ok = true -> exists sid name, session_id2 s = Some sid /\
    user (ctx (au s)) = Some name /\ host_request sid (userstyle name (style (ctx (au s)))) cuser chost data)) s.
Proof.
  intros Hb. unfold monitor_valid_hostbasedblob. wp_steps. rename H4 into Ef. destruct (from_readable data a Hb Ef) as [Hr Hc].
  eapply wp_mono; [by apply blob_start_wp|]. intros [ok b1] s1 (-> & Hr1 & Hok). wp_steps.
  destruct (skip_string_yields b1 a0 b' Hr1 ltac:(done)) as (Hr2 & e2 & [alg ->] & C2). destruct (skip_string_yields b' a1 b'0 Hr2 ltac:(done)) as (Hr3 & e3 & [blob ->] & C3).
  destruct (get_cstring_yields b'0 a2 b'1 Hr3 ltac:(done)) as (Hr4 & e4 & -> & C4). destruct (get_cstring_yields b'1 a3 b'2 Hr4 ltac:(done)) as (Hr5 & e5 & -> & C5).
  split; [done|]. rewrite !andb_true_iff, !bool_decide_eq_true. intros [[[O1 O2] O3] O4]. destruct (Hok O1) as (sid & name & Es & Eu & Hst).
  exists sid, name. split; [done|]. split; [done|]. exists alg, blob, a2, a3. split; [done|]. split; [done|].
  rewrite (empty_contents b'2 Hr5 O4), app_nil_r in C5. rewrite <- C5, <- C4, <- C3, <- C2. by rewrite Hc in Hst.
Qed.

(** A key that was allowed before has signed a request of the user. *)
Definition verified (l : list Z) (s s' : mon) : Prop :=
  exists blob type opts cuser chost pkalg key signature data sid name,
    keyverify_msg l pkalg blob signature data /\ key_state s = (Some blob, type, opts, Some cuser, Some chost) /\ session_id2 s = Some sid /\ user (ctx (au s)) = Some name /\
    Xkey_from_blob pkalg blob = Ok key /\ Xkey_verify pkalg key signature data = true /\
    ((type = MM_USERKEY /\ auth_method s' = str "publickey" /\ user_request sid (userstyle name (style (ctx (au s)))) data) \/
     (type = MM_HOSTKEY /\ auth_method s' = str "hostbased" /\ host_request sid (userstyle name (style (ctx (au s)))) cuser chost data)).

Lemma string_bytes b v b' : readable b -> sshbuf_get_string b = (Ok v, b') -> readable b' /\ bytes_ok v.
Proof.
  intros Hr E. destruct (get_string_yields b v b' Hr E) as (Hr' & e & -> & Hc). split; [done|]. destruct Hr as [_ Hb]. rewrite Hc in Hb.
  unfold enc_string in Hb. by apply Forall_app in Hb as [[_ Hb]%Forall_app _].
Qed.

Lemma string_yields4 m pk m1 bl m2 sg m3 dt m4 :
  readable m -> sshbuf_get_string m = (Ok pk, m1) -> sshbuf_get_string m1 = (Ok bl, m2) -> sshbuf_get_string m2 = (Ok sg, m3) ->
  sshbuf_get_string m3 = (Ok dt, m4) -> keyverify_msg (contents m) (cstr pk) bl sg dt.
Proof. intros Hm E1 E2 E3 E4. parsed. exists pk, (contents m4). split; [done|in_fields]. Qed.

Lemma keyverify_wp m s :
  readable m ->
  wp (mm_answer_keyverify m) (fun r s' =>
    who (au s') = who (au s) /\ mon_dispatch s' = mon_dispatch s /\ session_id2 s' = session_id2 s /\ key_blob s' = None /\
    auth_submethod s' = auth_submethod s /\ (r = 0 \/ r = 1) /\ (r = 1 -> verified (contents m) s s')) s.
Proof.
  intros Hm. unfold mm_answer_keyverify. wp_steps.
  match goal with H1 : sshbuf_get_string m = (Ok ?pk, ?m1), H2 : sshbuf_get_string ?m1 = (Ok ?bl, ?m2), H3 : sshbuf_get_string ?m2 = (Ok ?sg, ?m3),
    H4 : sshbuf_get_string ?m3 = (Ok ?dt, ?m4), H5 : hostbased_cuser s = Some ?cu, H6 : hostbased_chost s = Some ?ch |- _ =>
      pose proof (string_yields4 m pk m1 bl m2 sg m3 dt m4 Hm H1 H2 H3 H4) as Hmsg; destruct (string_bytes _ _ _ Hm H1) as [R1 _]; destruct (string_bytes _ _ _ R1 H2) as [R2 _]; destruct (string_bytes _ _ _ R2 H3) as [R3 _];
      destruct (string_bytes _ _ _ R3 H4) as [_ Hdata];
      rename H5 into Ecu, H6 into Ech; set (pkalg := cstr pk) in *; set (blob := bl) in *; set (data := dt) in *; set (sig := sg) in *; set (cuser := cu) in *; set (chost := ch) in * end.
  unfold monitor_allowed_key. destruct (key_blob s) as [kb|] eqn:Ekb; [|apply wp_fatal]. case_bool_decide as Eb; cbn [negb]; [subst kb|apply wp_fatal]. wp_steps.
  match goal with H : Xkey_from_blob _ _ = Ok ?k |- _ => rename H into Ekey; set (key := k) in * end.
  apply (wp_mono _ (fun v s1 => (exists meth, s1 = set_method meth (auth_submethod s) s) /\ (v = true -> exists sid name,
    session_id2 s = Some sid /\ user (ctx (au s)) = Some name /\
    ((key_blobtype s = MM_USERKEY /\ auth_method s1 = str "publickey" /\ user_request sid (userstyle name (style (ctx (au s)))) data) \/
     (key_blobtype s = MM_HOSTKEY /\ auth_method s1 = str "hostbased" /\ host_request sid (userstyle name (style (ctx (au s)))) cuser chost data))))).
  { destruct (Z.eqb_spec (key_blobtype s) MM_USERKEY) as [Et|]; [|destruct (Z.eqb_spec (key_blobtype s) MM_HOSTKEY) as [Et|]].
    - eapply wp_bind, wp_mono; [by apply userblob_wp|]. intros v s1 [-> Hv]. wp_steps. split; [by eauto|]. intros Ev. destruct (Hv Ev) as (sid & name & ? & ? & ?).
      exists sid, name. split; [done|]. split; [done|]. by left.
    - eapply wp_bind, wp_mono; [by apply hostblob_wp|]. intros v s1 [-> Hv]. wp_steps. split; [by eauto|]. intros Ev. destruct (Hv Ev) as (sid & name & ? & ? & ?).
      exists sid, name. split; [done|]. split; [done|]. by right.
    - wp_steps. split; [exists (auth_method s); by destruct s|done]. }
  intros v s1 [[meth ->] Hv]. destruct v; cbn [negb]; [|apply wp_fatal]. destruct (Hv eq_refl) as (sid & name & Es & Eu & Hd). clear Hv. wp_steps.
  eapply wp_on_auth, wp_mono; [apply record_key_wp|]. intros _ x [Hw _]. wp_steps.
  apply (wp_mono _ (fun _ s2 => exists x', s2 = set_au x' (set_method meth (auth_submethod s) s) /\ who x' = who (au s))).
  { destruct (key_blobtype s =? MM_USERKEY); wp_steps; [|by eauto]. eapply wp_on_auth, wp_mono; [apply activate_wp|]. intros _ x' [ao ->]. wp_steps.
    eexists. split; [by destruct s|done]. }
  intros _ s2 (x' & -> & Hx'). wp_steps. apply send_wp. intros l. wp_steps. do 5 (split; [done|]). split; [destruct (Xkey_verify _ _ _ _); auto|].
  intros Hr. destruct (Xkey_verify pkalg key sig data) eqn:Ever; [|done].
  exists blob, (key_blobtype s), (key_opts s), cuser, chost, pkalg, key, sig, data, sid, name. split; [exact Hmsg|]. unfold key_state. rewrite Ekb, Ecu, Ech. done.
Qed.
End safe.
