(* ===== verification/MonitorAuth.v ===== *)
(** The loop of the monitor before authentication: the order of requests and
    what has been proved to it when it accepts a user. *)

From Stdlib Require Import String.
From S2P Require Import Prelude Sshbuf SshbufGetPut SshbufRead Match AddrMatch Misc AuthOptions Auth AuthLaws Monitor MonitorSafe.
Local Open Scope Z_scope.

(** * The table of requests *)

Definition type_of (f : handler) : Z :=
  match f with
  | mm_moduli => MONITOR_REQ_MODULI | mm_sign => MONITOR_REQ_SIGN | mm_pwnamallow => MONITOR_REQ_PWNAM | mm_authserv => MONITOR_REQ_AUTHSERV
  | mm_auth2_read_banner => MONITOR_REQ_AUTH2_READ_BANNER | mm_authpassword => MONITOR_REQ_AUTHPASSWORD
  | mm_keyallowed => MONITOR_REQ_KEYALLOWED | mm_keyverify => MONITOR_REQ_KEYVERIFY
  end.
Definition base_flags (f : handler) : Z :=
  match f with mm_authpassword | mm_keyverify => MON_AUTH | mm_keyallowed => MON_ISAUTH | _ => MON_ONCE end.
Definition index_of (f : handler) : nat :=
  match f with
  | mm_moduli => 0 | mm_sign => 1 | mm_pwnamallow => 2 | mm_authserv => 3 | mm_auth2_read_banner => 4 | mm_authpassword => 5
  | mm_keyallowed => 6 | mm_keyverify => 7
  end.
Definition handlers : list handler :=
  [mm_moduli; mm_sign; mm_pwnamallow; mm_authserv; mm_auth2_read_banner; mm_authpassword; mm_keyallowed; mm_keyverify].

(** The requests that are served only once. *)
Record served := mk_served { did_moduli : bool; did_sign : bool; did_pwnam : bool; did_authserv : bool; did_banner : bool }.

Definition permitted (v : served) (f : handler) : bool :=
  match f with
  | mm_moduli => negb (did_moduli v) | mm_sign => negb (did_sign v) | mm_pwnamallow => did_sign v && negb (did_pwnam v)
  | mm_authserv => did_pwnam v && negb (did_authserv v) | mm_auth2_read_banner => did_pwnam v && negb (did_banner v)
  | mm_authpassword | mm_keyallowed | mm_keyverify => did_authserv v
  end.
Definition entry (v : served) (f : handler) : mon_table :=
  mk_ent (type_of f) (if permitted v f then Z.lor (base_flags f) MON_PERMIT else base_flags f) f.
Definition table (v : served) : list mon_table := entry v <$> handlers.

Definition serve (v : served) (f : handler) : served :=
  match f with
  | mm_moduli => mk_served true (did_sign v) (did_pwnam v) (did_authserv v) (did_banner v)
  | mm_sign => mk_served (did_moduli v) true (did_pwnam v) (did_authserv v) (did_banner v)
  | mm_pwnamallow => mk_served (did_moduli v) (did_sign v) true (did_authserv v) (did_banner v)
  | mm_authserv => mk_served (did_moduli v) (did_sign v) (did_pwnam v) true (did_banner v)
  | mm_auth2_read_banner => mk_served (did_moduli v) (did_sign v) (did_pwnam v) (did_authserv v) true
  | _ => v
  end.
(** The requests come in their order. *)
Definition ordered (v : served) : bool :=
  (negb (did_pwnam v) || did_sign v) && (negb (did_authserv v) || did_pwnam v) && (negb (did_banner v) || did_pwnam v).

(** What the function of a request does to the table. *)
Definition opens (f : handler) (d : list mon_table) : list mon_table :=
  match f with
  | mm_sign => monitor_permit d MONITOR_REQ_PWNAM true
  | mm_pwnamallow => monitor_permit (monitor_permit d MONITOR_REQ_AUTHSERV true) MONITOR_REQ_AUTH2_READ_BANNER true
  | mm_authserv => monitor_permit_authentications d true
  | _ => d
  end.
(** The table after a request that is served once. *)
Definition close_once (i : nat) (d : list mon_table) : list mon_table :=
  if negb (Z.land (flags_at i d) MON_ONCE =? 0) then put_flags i (Z.land (flags_at i d) (Z.lnot MON_PERMIT)) d else d.

Lemma table_find v t i e :
  list_find (fun e => ent_type e = t) (table v) = Some (i, e) -> exists f, t = type_of f /\ i = index_of f /\ e = entry v f.
Proof.
  intros Hf. apply list_find_Some in Hf as (Hi & Ht & _). unfold table in Hi. rewrite list_lookup_fmap in Hi.
  do 8 (destruct i as [|i]; [injection Hi as <-; eexists; split; [symmetry; exact Ht|by split]|]). by destruct i.
Qed.

Lemma entry_permitted v f : (Z.land (ent_flags (entry v f)) MON_PERMIT =? 0) = negb (permitted v f).
Proof. unfold entry. cbn [ent_flags]. destruct (permitted v f); by destruct f. Qed.

Lemma table_step v f : ordered v = true -> permitted v f = true -> close_once (index_of f) (opens f (table v)) = table (serve v f) /\ ordered (serve v f) = true.
Proof. destruct v as [[] [] [] [] []]; intros Ho Hp; try discriminate Ho; destruct f; try discriminate Hp; by vm_compute. Qed.

(** * Lists of methods under attack *)

Lemma performed_more es ms ms' m : performed es (ms ++ ms') -> performed es (ms ++ m :: ms').
Proof.
  revert es. induction ms as [|x ms IH]; intros es Hp; cbn [app] in *; [by apply performed_skip|].
  inversion Hp; subst; [constructor|apply performed_take; auto|apply performed_skip; auto].
Qed.

(** What is left of a list is enough to complete it after the methods [acc]. *)
Definition residue (acc : list auth_step) (l c : cstring) : Prop :=
  exists r, c = join_comma r /\ Forall entry_ok r /\ forall ms, performed r ms -> performed (tokens l) (acc ++ ms).

Lemma residue_more acc m l c : residue acc l c -> residue (acc ++ [m]) l c.
Proof. intros (r & -> & Hr & Hp). exists r. split; [done|]. split; [done|]. intros ms Hm. rewrite <- app_assoc. apply performed_more. auto. Qed.

Lemma update_residue acc m L cs :
  step_ok m -> fst m <> [] -> Forall2 (residue acc) L cs ->
  match update_lists cs (fst m) (snd m) with
  | (_, complete, cs') => Forall2 (residue (acc ++ [m])) L cs' /\ (complete = true -> exists l, In l L /\ performed (tokens l) (acc ++ [m]))
  end.
Proof.
  intros Hm Hne HL. induction HL as [|l c L cs Hlc HL IH]; [done|]. cbn [update_lists]. pose proof Hlc as (r & -> & Hr & Hp). destruct r as [|e es].
  - assert (remove_method (join_comma []) (fst m) (snd m) = None) as ->.
    { rewrite (remove_method_entry (join_comma []) [] [] m) by done. unfold fulfils. rewrite bool_decide_false by done. destruct (snd m); [|done].
      rewrite bool_decide_false; [done|]. by destruct (fst m). }
    destruct (update_lists cs (fst m) (snd m)) as [[found complete] cs']. destruct IH as [I1 I2]. split; [by constructor; [apply residue_more|]|].
    intros Hc. destruct (I2 Hc) as (x & Hin & Hx). exists x. split; [by right|done].
  - assert (tokens (join_comma (e :: es)) = e :: es) as Ht by (apply tokens_join; [done|]; eapply Forall_impl; [exact Hr|]; by intros x [_ ?]).
    rewrite (remove_method_entry _ e es m Ht Hm). inversion Hr as [|? ? _ Hes]; subst. destruct (fulfils e m) eqn:Ef.
    + assert (residue (acc ++ [m]) l (join_comma es)) as Hnew.
      { exists es. split; [done|]. split; [done|]. intros ms Hms. rewrite <- app_assoc. apply Hp. by apply performed_take. }
      destruct (join_comma es) as [|ch j] eqn:Ej.
      * apply join_comma_open in Ej as ->; [|done]. split; [constructor; [done|]; eapply Forall2_impl; [exact HL|]; intros; by apply residue_more|].
        intros _. exists l. split; [by left|]. apply Hp. apply performed_take; [done|constructor].
      * destruct (update_lists cs (fst m) (snd m)) as [[found complete] cs']. destruct IH as [I1 I2]. split; [by constructor|].
        intros Hc. destruct (I2 Hc) as (x & Hin & Hx). exists x. split; [by right|done].
    + destruct (update_lists cs (fst m) (snd m)) as [[found complete] cs']. destruct IH as [I1 I2]. split; [by constructor; [apply residue_more|]|].
      intros Hc. destruct (I2 Hc) as (x & Hin & Hx). exists x. split; [by right|done].
Qed.

Section auth.
Context `{Allocator} `{!ReliableAllocator _} `{Getaddrinfo} `{KeyLib} `{Process} `{!MonitorConfig}.

(** * What has been proved to the monitor *)

(** The identity that requests are checked against. *)
Record ident := mk_ident {
  i_sid : option (list Z); i_opts : ServerOptions; i_none : bool; i_user : option cstring; i_style : option cstring; i_pw : option passwd; i_valid : bool
}.
Definition ident_of (s : mon) : ident :=
  let x := au s in mk_ident (session_id2 s) (options x) (none_enabled x) (user (ctx x)) (style (ctx x)) (pw (ctx x)) (valid (ctx x)).

(** One of the requests [h] has this type and these fields, and was served in [w]. *)
Definition has_request (h : list request) (w : World) (f : handler) (l : list Z) : Prop := In (w, type_of f :: l) h.

(** The key of one of the KEYALLOWED requests, as the request describes it, was
    allowed for the identity. *)
Definition allowed_key (h : list request) (i : ident) (p : passwd) (type : Z) (cuser chost : cstring) (blob : list Z) (opts : option sshauthopt) : Prop :=
  exists w l pkalg key att, has_request h w mm_keyallowed l /\ keyallowed_msg l type cuser chost pkalg blob att /\
    Xkey_from_blob pkalg blob = Ok key /\ @granted _ w (i_opts i) p type cuser chost pkalg key att opts.

(** One of the KEYVERIFY requests has this blob and this data, and the signature in
    it is one of the key over the data. *)
Definition signed_with (h : list request) (blob data : list Z) : Prop :=
  exists w l pkalg key signature, has_request h w mm_keyverify l /\ keyverify_msg l pkalg blob signature data /\
    Xkey_from_blob pkalg blob = Ok key /\ Xkey_verify pkalg key signature data = true.

(** A method has succeeded for the identity [i], by what is in the requests [h]. *)
Inductive evidence (h : list request) (i : ident) : auth_step -> Prop :=
| by_password w l p pass m :
    has_request h w mm_authpassword l -> cstring_msg l pass -> i_pw i = Some p -> password_authentication (i_opts i) = true -> @password_ok _ w (i_opts i) p pass ->
    m = str "password" \/ (m = str "none" /\ pass = []) -> evidence h i (m, None)
| by_userkey p blob cuser chost opts sid name data :
    i_pw i = Some p -> i_sid i = Some sid -> i_user i = Some name ->
    allowed_key h i p MM_USERKEY cuser chost blob opts -> signed_with h blob data -> user_request sid (userstyle name (i_style i)) data ->
    evidence h i (str "publickey", None)
| by_hostkey p blob cuser chost opts sid name data :
    i_pw i = Some p -> i_sid i = Some sid -> i_user i = Some name ->
    allowed_key h i p MM_HOSTKEY cuser chost blob opts -> signed_with h blob data -> host_request sid (userstyle name (i_style i)) cuser chost data ->
    evidence h i (str "hostbased", None).

Lemma allowed_key_more h h' i p type cu ch blob o : incl h h' -> allowed_key h i p type cu ch blob o -> allowed_key h' i p type cu ch blob o.
Proof. intros Hi (w & l & pkalg & key & att & Hin & Hk). exists w, l, pkalg, key, att. split; [by apply Hi|done]. Qed.
Lemma signed_with_more h h' blob data : incl h h' -> signed_with h blob data -> signed_with h' blob data.
Proof. intros Hi (w & l & pkalg & key & sig & Hin & Hk). exists w, l, pkalg, key, sig. split; [by apply Hi|done]. Qed.
Lemma evidence_more h h' i m : incl h h' -> evidence h i m -> evidence h' i m.
Proof.
  intros Hi [w l p pass m' Hin Hl Hp Hpa Hok Hm|p blob cu ch o sid name data Hp Hs Hu Ha Hsg Hr|p blob cu ch o sid name data Hp Hs Hu Ha Hsg Hr].
  - eapply by_password; try done. by apply Hi.
  - eapply by_userkey; try done; [by apply (allowed_key_more h)|by apply (signed_with_more h)].
  - eapply by_hostkey; try done; [by apply (allowed_key_more h)|by apply (signed_with_more h)].
Qed.
Lemma evidence_step h i m : evidence h i m -> step_ok m /\ fst m <> [] /\ snd m = None.
Proof.
  assert (forall t, bool_decide (no_comma t) = true -> t <> [] -> step_ok (t, None) /\ t <> [] /\ @None cstring = None) as Hs.
  { intros t Hn%bool_decide_eq_true Ht. split; [split; [exact Hn|exact I]|done]. }
  intros [? ? ? ? m' _ _ _ _ _ [->|[-> _]]| |]; by apply Hs; vm_compute.
Qed.

(** * The invariant *)

(** The requests so far, as flags. *)
Definition serve_type (v : served) (t : Z) : served := fold_left serve (List.filter (fun f => type_of f =? t) handlers) v.
Definition req_type (r : request) : Z := znth (snd r) 0.
Definition served_by (h : list request) : served := fold_left serve_type (req_type <$> h) (mk_served false false false false false).

Lemma served_by_snoc h r f : req_type r = type_of f -> served_by (h ++ [r]) = serve (served_by h) f.
Proof. intros E. unfold served_by. rewrite fmap_app, fold_left_app. cbn [fmap list_fmap fold_left]. rewrite E. by destruct f. Qed.

(** The lists of methods, after the methods [acc] have succeeded. *)
Definition lists_sound (acc : list auth_step) (x : authst) : Prop :=
  opt_auth_methods (options x) = [] \/
  Forall2 (residue acc) (List.filter (fun m => auth2_methods_valid (options x) (none_enabled x) m true) (opt_auth_methods (options x))) (auth_methods (ctx x)).

(** Where the parts of the identity come from: the session is the data of the SIGN
    request, the user was found by the name in the PWNAM request, the style is
    that of the AUTHSERV request. *)
Definition session_of (h : list request) (sid : list Z) : Prop := exists w l, has_request h w mm_sign l /\ sign_msg l sid.
Definition user_of (h : list request) (o0 : ServerOptions) (name : cstring) (p : passwd) : Prop :=
  exists w l, has_request h w mm_pwnamallow l /\ cstring_msg l name /\ @found_user _ _ _ w o0 name p.
Definition style_of (h : list request) (st : option cstring) : Prop :=
  exists w l service style, has_request h w mm_authserv l /\ authserv_msg l service style /\ st = (if zlen style =? 0 then None else Some style).

(** The key state belongs to a key that was allowed. *)
Definition key_sound (h : list request) (s : mon) : Prop :=
  key_blob s = None \/
  exists p blob type cuser chost opts, key_state s = (Some blob, type, opts, Some cuser, Some chost) /\ pw (ctx (au s)) = Some p /\
    allowed_key h (ident_of s) p type cuser chost blob opts.

Record Facts (o0 : ServerOptions) (h : list request) (s : mon) : Prop := {
  inv_order : ordered (served_by h) = true;
  inv_fresh : did_pwnam (served_by h) = false -> attempt (ctx (au s)) = 0 /\ valid (ctx (au s)) = false /\ options (au s) = o0;
  inv_nosid : did_sign (served_by h) = false -> session_id2 s = None;
  inv_sid : did_sign (served_by h) = true -> exists sid, session_id2 s = Some sid /\ session_of h sid;
  inv_user : did_pwnam (served_by h) = true -> exists name p, user (ctx (au s)) = Some name /\ pw (ctx (au s)) = Some p /\
    (valid (ctx (au s)) = true -> user_of h o0 name p);
  inv_style : did_authserv (served_by h) = true -> style_of h (style (ctx (au s)));
  inv_early : did_authserv (served_by h) = false -> key_blob s = None;
  inv_key : key_sound h s;
  inv_acc : exists acc, Forall (evidence h (ident_of s)) acc /\ (did_authserv (served_by h) = false -> acc = []) /\
    (did_pwnam (served_by h) = true -> lists_sound acc (au s))
}.

Definition Inv (o0 : ServerOptions) (h : list request) (s : mon) : Prop := mon_dispatch s = table (served_by h) /\ Facts o0 h s.

(** The part of the state that the facts are about. *)
Definition view (s : mon) := (who (au s), session_id2 s, key_state s).

Lemma view_ident s s' : view s' = view s -> ident_of s' = ident_of s.
Proof. unfold view, who, ident_of. by intros [= -> -> -> ? -> -> -> _ -> _ _ _ _ _]. Qed.

Lemma view_facts o0 h s s' : view s' = view s -> Facts o0 h s -> Facts o0 h s'.
Proof.
  intros Hv [F1 F2 F0 F3 F4 F8 F5 F6 F7]. pose proof (view_ident s s' Hv) as Hi. unfold view, who, key_state in Hv. cbn in Hv.
  injection Hv as Eo En Ev Ea Eu Est Ep Em Es E1 E2 E3 E4 E5. split; rewrite ?Eo, ?Ev, ?Ea, ?Eu, ?Est, ?Ep, ?Es, ?E1; try done.
  - unfold key_sound, key_state in *. by rewrite Hi, E1, E2, E3, E4, E5, Ep.
  - unfold lists_sound in *. by rewrite Hi, Eo, En, Em.
Qed.

(** One more request, which does not change the flags. *)
Lemma more_facts o0 h r s :
  did_sign (served_by (h ++ [r])) = did_sign (served_by h) -> did_pwnam (served_by (h ++ [r])) = did_pwnam (served_by h) ->
  did_authserv (served_by (h ++ [r])) = did_authserv (served_by h) -> ordered (served_by (h ++ [r])) = true -> Facts o0 h s -> Facts o0 (h ++ [r]) s.
Proof.
  intros Es Ep Ea Ho [F1 F2 F0 F3 F4 F8 F5 F6 F7]. split; rewrite ?Es, ?Ep, ?Ea; try done.
  - intros Hs. destruct (F3 Hs) as (sid & Hsid & w & l & Hin & Hl). exists sid. split; [done|]. exists w, l. split; [apply in_app_iff; by left|done].
  - intros Hp. destruct (F4 Hp) as (name & p & Hu & Hpw & Hf). exists name, p. split; [done|]. split; [done|]. intros Hv.
    destruct (Hf Hv) as (w & l & Hin & Hfu). exists w, l. split; [apply in_app_iff; by left|done].
  - intros Ht. destruct (F8 Ht) as (w & l & sv & st & Hin & Hl). exists w, l, sv, st. split; [apply in_app_iff; by left|done].
  - destruct F6 as [F6|(p & blob & type & cu & ch & o & Hk & Hp & Ha)]; [by left|right]. exists p, blob, type, cu, ch, o. split; [done|]. split; [done|].
    eapply allowed_key_more; [|exact Ha]. by apply incl_appl, incl_refl.
  - destruct F7 as (acc & Hf & Hn & Hl). exists acc. split; [|done]. eapply Forall_impl; [exact Hf|]. intros m. apply evidence_more. by apply incl_appl, incl_refl.
Qed.

(** After the function of a request. *)
Definition answered (o0 : ServerOptions) (h : list request) (r : request) (f : handler) (ret : Z) (s : mon) : Prop :=
  mon_dispatch s = opens f (table (served_by h)) /\ auth_submethod s = None /\ Facts o0 (h ++ [r]) s /\
  (ret = 0 \/ (ret = 1 /\ did_authserv (served_by (h ++ [r])) = true /\ evidence (h ++ [r]) (ident_of s) (auth_method s, None))).

Definition quiet (f : handler) : bool := match f with mm_sign | mm_pwnamallow | mm_authserv => false | _ => true end.

Section request.
Context (o0 : ServerOptions) (h : list request) (w : World) (body : list Z) (f : handler) (m : sshbuf) (s : mon).
Context (Hinv : Inv o0 h s) (Hsub : auth_submethod s = None) (Hp : permitted (served_by h) f = true) (Hm : readable m) (Hbody : body = type_of f :: contents m).

Lemma here : req_type (w, body) = type_of f.
Proof. by rewrite Hbody. Qed.
Local Notation Hr := here.

Lemma facts_serve s' : quiet f = true -> Facts o0 h s' -> Facts o0 (h ++ [(w, body)]) s'.
Proof.
  intros Hq F. pose proof (table_step (served_by h) f (inv_order _ _ _ F) Hp) as [_ Ho].
  apply more_facts; rewrite ?(served_by_snoc h _ f Hr); try done; by destruct f.
Qed.

Lemma sent_answered l : quiet f = true -> answered o0 h (w, body) f 0 (set_sent l s).
Proof.
  intros Hq. destruct Hinv as [Ht F]. split; [cbn; rewrite Ht; by destruct f|]. split; [done|]. split; [|by left].
  apply facts_serve; [done|]. by apply (view_facts o0 h s).
Qed.

Lemma in_here : has_request (h ++ [(w, body)]) w f (contents m).
Proof. apply in_app_iff. right. left. by rewrite Hbody. Qed.

Lemma sign_answered : f = mm_sign -> wp (mm_answer_sign m) (answered o0 h (w, body) f) s.
Proof.
  intros Ef. destruct Hinv as [Ht [F1 F2 F0 F3 F4 F8 F5 F6 F7]]. eapply wp_mono; [by apply sign_wp|]. intros r s' [-> (sid & l & Hmsg & ->)].
  pose proof in_here as Hin.
  pose proof (served_by_snoc h _ f Hr) as Es. pose proof (table_step (served_by h) f F1 Hp) as [_ Ho]. rewrite <- Es in Ho.
  assert (au (keep_session sid s) = au s /\ key_state (keep_session sid s) = key_state s /\ auth_submethod (keep_session sid s) = auth_submethod s /\
    (did_sign (served_by h) = false -> session_id2 (keep_session sid s) = Some sid)) as (Eau & Ek & Esub & Esid).
  { unfold keep_session. destruct (session_id2 s) eqn:E; [|done]. split_and!; try done. intros Hd. specialize (F0 Hd). congruence. }
  rewrite Ef in *. unfold ordered in F1. cbn in Hp. destruct (did_sign (served_by h)); [done|]. destruct (did_pwnam (served_by h)) eqn:Epn; [done|].
  destruct (did_authserv (served_by h)) eqn:Eas; [done|]. split; [cbn; by rewrite Ht|]. split; [cbn; congruence|]. split; [|by left].
  split; [exact Ho|..]; rewrite ?Es; cbn [serve did_sign did_pwnam did_authserv]; rewrite ?Epn, ?Eas; cbn [au set_dispatch set_sent session_id2 key_blob]; rewrite ?Eau; try done.
  - intros _. exists sid. split; [by apply Esid|]. by exists w, (contents m).
  - intros _. unfold key_state in Ek. injection Ek as -> _ _ _ _. by apply F5.
  - left. cbn. unfold key_state in Ek. injection Ek as -> _ _ _ _. by apply F5.
  - exists []. split; [constructor|done].
Qed.

Lemma valid_residue x : lists_ready x -> lists_sound [] x.
Proof.
  intros [Hl|Hl]; [by left|right]. rewrite Hl. set (L := List.filter _ _). assert (Forall (fun l => open_list (tokens l)) L) as HL.
  { apply List.Forall_forall. intros l [_ Hv]%filter_In. by eapply valid_list_open. }
  induction HL as [|l L [_ Hok] HL IH]; constructor; [|done]. exists (tokens l). by rewrite join_tokens.
Qed.

Lemma pwnam_answered : f = mm_pwnamallow -> wp (@mm_answer_pwnamallow _ _ _ _ _ w m) (answered o0 h (w, body) f) s.
Proof.
  intros Ef. destruct Hinv as [Ht [F1 F2 F0 F3 F4 F8 F5 F6 F7]]. eapply wp_mono; [by apply (pwnam_wp w m s)|]. pose proof in_here as Hin. intros r s' [-> [P1 P2 P3 P4 P5 P6 P7 P8 P9 P10]].
  pose proof (served_by_snoc h _ f Hr) as Es. pose proof (table_step (served_by h) f F1 Hp) as [_ Ho]. rewrite <- Es in Ho.
  rewrite Ef in *. unfold ordered in F1. cbn in Hp. destruct (did_sign (served_by h)) eqn:Esg; [|done]. destruct (did_pwnam (served_by h)) eqn:Epn; [done|].
  destruct (did_authserv (served_by h)) eqn:Eas; [done|]. destruct (F2 eq_refl) as (_ & Ev & Eo).
  assert (key_blob s' = None) as Ek by (unfold key_state in P5; injection P5 as -> _ _ _ _; by apply F5).
  split; [by rewrite P3, Ht|]. split; [congruence|]. split; [|by left].
  split; [exact Ho|..]; rewrite ?Es; cbn [serve did_sign did_pwnam did_authserv]; rewrite ?Esg, ?Eas; try done.
  - intros _. rewrite P4. destruct (F3 eq_refl) as (sid & Hsid & w' & l & Hl & Hsm). exists sid. split; [done|]. exists w', l. split; [apply in_app_iff; by left|done].
  - intros _. destruct P9 as (name & p & Hname & Hu & Hpw & Hf). exists name, p. split; [done|]. split; [done|]. intros Hv. destruct (Hf Hv) as [Hv'|Hfu]; [congruence|].
    exists w, (contents m). split; [done|]. split; [done|]. by rewrite <- Eo.
  - by left.
  - exists []. split; [constructor|]. split; [done|]. intros _. by apply valid_residue.
Qed.

Lemma authserv_answered : f = mm_authserv -> wp (mm_answer_authserv m) (answered o0 h (w, body) f) s.
Proof.
  intros Ef. destruct Hinv as [Ht [F1 F2 F0 F3 F4 F8 F5 F6 F7]]. eapply wp_mono; [by apply authserv_wp|]. pose proof in_here as Hin. intros r s' [-> (service & sty & sv & st & Hmsg & Est & ->)].
  pose proof (served_by_snoc h _ f Hr) as Es. pose proof (table_step (served_by h) f F1 Hp) as [_ Ho]. rewrite <- Es in Ho.
  rewrite Ef in *. unfold ordered in F1. cbn in Hp. destruct (did_pwnam (served_by h)) eqn:Epn; [|done]. destruct (did_authserv (served_by h)) eqn:Eas; [done|].
  split; [cbn; by rewrite Ht|]. split; [done|]. split; [|by left].
  split; [exact Ho|..]; rewrite ?Es; cbn [serve did_sign did_pwnam did_authserv]; rewrite ?Epn; try done.
  - intros Hs. destruct (F3 Hs) as (sid & Hsid & w' & l & Hl & Hsm). exists sid. split; [done|]. exists w', l. split; [apply in_app_iff; by left|done].
  - intros _. destruct (F4 eq_refl) as (name & p & Hu & Hpw & Hf). exists name, p. split; [done|]. split; [done|]. intros Hv.
    destruct (Hf Hv) as (w' & l & Hl & Hfu). exists w', l. split; [apply in_app_iff; by left|done].
  - intros _. by exists w, (contents m), service, sty.
  - left. by apply F5.
  - destruct F7 as (acc & _ & Hn & Hl). rewrite (Hn eq_refl) in Hl. exists []. split; [constructor|]. split; [done|]. intros _. by apply Hl.
Qed.

(** A request that leaves the identity and the table alone. *)
Lemma kept_answered s' ret :
  quiet f = true -> who (au s') = who (au s) -> mon_dispatch s' = mon_dispatch s -> session_id2 s' = session_id2 s -> auth_submethod s' = auth_submethod s ->
  did_authserv (served_by h) = true -> key_sound (h ++ [(w, body)]) s' ->
  (ret = 0 \/ (ret = 1 /\ evidence (h ++ [(w, body)]) (ident_of s) (auth_method s', None))) -> answered o0 h (w, body) f ret s'.
Proof.
  intros Hq Hw Hd Hs Hsb Has Hk Hret. destruct Hinv as [Ht F]. assert (ident_of s' = ident_of s) as Hi.
  { unfold ident_of, who in *. rewrite Hs. by injection Hw as -> -> -> _ -> -> -> _. }
  split; [rewrite Hd, Ht; by destruct f|]. split; [congruence|]. rewrite Hi.
  assert (did_authserv (served_by (h ++ [(w, body) : request])) = true) as Has' by (rewrite (served_by_snoc h _ f Hr); by destruct f).
  split; [|naive_solver]. pose proof (facts_serve s Hq F) as [G1 G2 G0 G3 G4 G8 G5 G6 G7]. unfold who in Hw. injection Hw as Eo En Ev Ea Eu Est Ep Em.
  split; rewrite ?Eo, ?Ev, ?Ea, ?Eu, ?Est, ?Ep, ?Hs; try done.
  - by rewrite Has'.
  - rewrite Hi. unfold lists_sound. by rewrite Eo, En, Em.
Qed.

Lemma authpassword_answered : f = mm_authpassword -> wp (@mm_answer_authpassword _ _ w m) (answered o0 h (w, body) f) s.
Proof.
  intros Ef. pose proof in_here as Hin. rewrite Ef in Hin. eapply wp_mono; [by apply authpassword_wp|]. intros r s' (Hw & Hpk & Hd & Hs & Hk & Hsb & Hret & Hev).
  apply kept_answered; try (by subst f).
  - destruct Hinv as [_ F]. pose proof (inv_key _ _ _ (facts_serve s ltac:(by subst f) F)) as Hks. unfold key_sound in *.
    assert (ident_of s' = ident_of s /\ pw (ctx (au s')) = pw (ctx (au s)) /\ key_blob s' = key_blob s) as (-> & -> & ->).
    { unfold ident_of, who, key_state in *. rewrite Hs. injection Hk as -> _ _ _ _. by injection Hw as -> -> -> _ -> -> -> _. }
    by rewrite Hk.
  - destruct Hret as [->| ->]; [by left|right]. split; [done|]. destruct (Hev eq_refl) as (_ & Hpa & pass & p & Hmsg & Hst & Hpw & Hok).
    eapply by_password; [exact Hin|done|done|done|done|]. destruct Hst as [->|[-> ->]]; [by left|by right].
Qed.

Lemma keyallowed_answered : f = mm_keyallowed -> wp (@mm_answer_keyallowed _ _ _ w m) (answered o0 h (w, body) f) s.
Proof.
  intros Ef. pose proof in_here as Hin. rewrite Ef in Hin. eapply wp_mono; [by apply keyallowed_wp|]. intros r s' [-> [(Hw & Hpk & Hd & Hs & Hsb) Hk]].
  apply kept_answered; try (by subst f); [|by left]. destruct Hk as [Hk|(blob & type & cu & ch & pkalg & key & p & att & opts & Hmsg & Hks & Hv & Hpw & Hb & _ & Hg)]; [by left|right].
  unfold who in Hw. injection Hw as Eo _ _ _ _ _ Ep _. exists p, blob, type, cu, ch, opts. split; [done|]. split; [congruence|].
  exists w, (contents m), pkalg, key, att. split; [exact Hin|]. split; [done|]. split; [done|]. cbn. by rewrite Eo.
Qed.

Lemma keyverify_answered : f = mm_keyverify -> wp (mm_answer_keyverify m) (answered o0 h (w, body) f) s.
Proof.
  intros Ef. pose proof in_here as Hin. rewrite Ef in Hin. eapply wp_mono; [by apply keyverify_wp|]. intros r s' (Hw & Hd & Hs & Hk & Hsb & Hret & Hev).
  apply kept_answered; try (by subst f); [by left|]. destruct Hret as [->| ->]; [by left|right]. split; [done|].
  destruct (Hev eq_refl) as (blob & type & opts & cu & ch & pkalg & key & sig & data & sid & name & Hmsg & Hks & Hsid & Hu & Hb & Hver & Hd').
  destruct Hinv as [_ F]. destruct (inv_key _ _ _ (facts_serve s ltac:(by subst f) F)) as [Hn|(p & blob' & type' & cu' & ch' & opts' & Hks' & Hpw & Ha)].
  { unfold key_state in Hks. by rewrite Hn in Hks. }
  rewrite Hks in Hks'. injection Hks' as <- <- <- <- <-. assert (signed_with (h ++ [(w, body)]) blob data) as Hsw by (by exists w, (contents m), pkalg, key, sig).
  destruct Hd' as [(Et & -> & Hreq)|(Et & -> & Hreq)]; rewrite Et in Ha.
  - by eapply by_userkey.
  - by eapply by_hostkey.
Qed.

End request.

Lemma answer_answered o0 h w body f m s :
  Inv o0 h s -> auth_submethod s = None -> permitted (served_by h) f = true -> readable m -> body = type_of f :: contents m ->
  wp (@answer _ _ _ _ _ w f m) (answered o0 h (w, body) f) s.
Proof.
  intros Hinv Hsub Hp Hm Hb. destruct f; cbn [answer].
  - eapply wp_mono; [apply moduli_wp|]. intros r s' [-> [l ->]]. by eapply sent_answered.
  - by apply sign_answered.
  - by apply pwnam_answered.
  - by apply authserv_answered.
  - eapply wp_mono; [apply banner_wp|]. intros r s' [-> [l ->]]. by eapply sent_answered.
  - by apply authpassword_answered.
  - by apply keyallowed_answered.
  - by apply keyverify_answered.
Qed.

(** * The loop *)

Lemma receive_wp body (Q : sshbuf -> mon -> Prop) s :
  bytes_ok body -> (forall m, readable m -> contents m = body -> Q m s) -> wp (mm_request_receive body) Q s.
Proof.
  intros Hb HQ. unfold mm_request_receive. apply wp_bind, wp_needs. intros m Em. destruct (sshbuf_new_spec m Em) as (Hw & Hc & Hlk & Hmax).
  destruct (_ >? _); [apply wp_fatal|]. destruct (sshbuf_reset_spec m Hw Hlk) as [Hx Hc']; [rewrite Hmax; by vm_compute|].
  apply wp_bind, wp_with_buf. intros [] m' E. apply wp_ret.
  pose proof (appends_fill (zlen body) (fun p => buf_write p body) body eq_refl ltac:(done) (sshbuf_reset m) (ext_wf _ _ Hx)) as Ha. cbv beta in Ha. rewrite E in Ha.
  destruct Ha as (Hx' & _ & _ & Hcm). rewrite Hc' in Hcm. apply HQ; [split; [by apply Hx'|by rewrite Hcm]|done].
Qed.

(** The request was permitted. *)
Definition legal_next (h : list request) (r : request) : Prop := exists f, req_type r = type_of f /\ permitted (served_by h) f = true.

(** After a request has been served. *)
Definition read_done (o0 : ServerOptions) (h : list request) (r : request) (ret flags : Z) (s : mon) : Prop :=
  legal_next h r /\ Inv o0 (h ++ [r]) s /\ auth_submethod s = None /\
  (ret = 0 \/ (ret = 1 /\ did_authserv (served_by (h ++ [r])) = true /\ evidence (h ++ [r]) (ident_of s) (auth_method s, None))).

Lemma read_wp o0 h w body s :
  Inv o0 h s -> auth_submethod s = None -> bytes_ok body ->
  wp (@monitor_read _ _ _ _ _ w body) (fun '(ret, flags) s' => read_done o0 h (w, body) ret flags s') s.
Proof.
  intros Hinv Hsub Hb. unfold monitor_read. apply wp_bind, receive_wp; [done|]. intros m Hm Hc. wp_steps.
  match goal with E : sshbuf_get_u8 m = (Ok ?t, ?m1) |- _ => destruct (get_u8_yields m t m1 Hm E) as (Hm1 & e & -> & Hc1); set (type := t) in *; set (m' := m1) in * end.
  pose proof Hinv as [Ht F]. rewrite Ht. destruct (list_find _ _) as [[i e]|] eqn:Ef; [|apply wp_fatal].
  apply table_find in Ef as (f & Et & -> & ->). rewrite entry_permitted. destruct (permitted (served_by h) f) eqn:Hp; [|apply wp_fatal]. cbn [negb].
  assert (body = type_of f :: contents m') as Hbody by (by rewrite <- Hc, Hc1, Et).
  assert (req_type (w, body) = type_of f) as Hr by (by rewrite Hbody).
  destruct (table_step (served_by h) f (inv_order _ _ _ F) Hp) as [Hstep _]. apply wp_bind. cbn [ent_f entry].
  eapply wp_mono; [by apply (answer_answered o0 h w body f m' s)|]. intros ret s1 (Hd & Hsub1 & F1 & Hret). wp_steps.
  apply (wp_mono _ (fun _ s2 => s2 = set_dispatch (table (served_by (h ++ [(w, body) : request]))) s1)).
  { rewrite (served_by_snoc h _ f Hr), <- Hstep, Hd. unfold close_once. destruct (negb _); wp_steps; [done|]. rewrite <- Hd. by destruct s1. }
  intros _ s2 ->. wp_steps. split; [by exists f|]. split; [split; [done|]|done]. by apply (view_facts _ _ s1).
Qed.

(** ** One round *)

Lemma methods_facts o0 h s m l :
  Facts o0 h s -> did_authserv (served_by h) = true -> evidence h (ident_of s) m ->
  (exists found complete, update_lists (auth_methods (ctx (au s))) (fst m) (snd m) = (found, complete, l)) ->
  Facts o0 h (set_au (set_ctx (set_methods l (ctx (au s))) (au s)) s).
Proof.
  intros [F1 F2 F0 F3 F4 F8 F5 F6 F7] Has Hev (found & complete & Hu). split; try done.
  destruct F7 as (acc & Hf & Hn & Hl). exists (acc ++ [m]). split; [apply Forall_app; by split; [|constructor]|]. split; [congruence|]. intros Hp.
  destruct (evidence_step h _ m Hev) as (Hs & Hne & _). destruct (Hl Hp) as [Hl'|Hl']; [by left|right]. cbn.
  pose proof (update_residue acc m _ _ Hs Hne Hl') as Hr. rewrite Hu in Hr. by apply Hr.
Qed.

(** Root is allowed to log in with this method. *)
Definition root_ok (x : authst) (p : passwd) (method : cstring) : Prop :=
  pw_uid p = 0 ->
  permit_root_login (options x) = PERMIT_YES \/
  (permit_root_login (options x) = PERMIT_NO_PASSWD /\ (method = str "publickey" \/ method = str "hostbased" \/ method = str "gssapi-with-mic")) \/
  (permit_root_login (options x) = PERMIT_FORCED_ONLY /\ exists a c, auth_opts x = Some a /\ force_command a = Some c).

Lemma root_wp method x p : pw_uid p = 0 ->
  wp (auth_root_allowed method) (fun b x' => x' = x /\ (b = true -> root_ok x p method)) x.
Proof.
  intros Hu. unfold auth_root_allowed, root_ok. wp_steps. destruct (Z.eqb_spec (permit_root_login (options x)) PERMIT_YES) as [Ey|]; [wp_steps; split; [done|]; by left|].
  destruct (Z.eqb_spec (permit_root_login (options x)) PERMIT_NO_PASSWD) as [En|].
  { wp_steps. split; [done|]. rewrite !orb_true_iff, !bool_decide_eq_true. tauto. }
  destruct (Z.eqb_spec (permit_root_login (options x)) PERMIT_FORCED_ONLY) as [Ef|]; [|by wp_steps]. wp_steps. split; [done|]. intros [c Hc]%bool_decide_eq_true _. right. right. eauto.
Qed.

Lemma session_info_wp method sub x : wp (auth2_update_session_info method sub) (fun _ x' => exists b, x' = set_ctx (set_session_info b (ctx x)) x) x.
Proof.
  unfold auth2_update_session_info, change_ctx. wp_steps. apply (wp_mono _ (fun _ x' => x' = x)).
  { destruct (session_info (ctx x)); by wp_steps. }
  intros b x1 ->. wp_steps. apply (wp_mono _ (fun _ x' => x' = x)); [destruct (auth_method_key (ctx x)); by wp_steps|]. intros b1 x1 ->. wp_steps.
  apply (wp_mono _ (fun _ x' => x' = x)); [destruct (auth_method_info (ctx x)); [case_bool_decide; [apply wp_fatal|]|]; by wp_steps|]. intros b2 x1 ->. wp_steps. eauto.
Qed.

(** The methods that have succeeded are what the configuration requires. *)
Definition completed (h : list request) (s : mon) (method : cstring) : Prop :=
  did_authserv (served_by h) = true /\ evidence h (ident_of s) (method, None) /\
  exists acc, Forall (evidence h (ident_of s)) acc /\
    (opt_auth_methods (options (au s)) = [] \/ exists l, required_list (au s) l /\ performed (tokens l) (acc ++ [(method, None)])).

Lemma update_wp o0 h s ret :
  Inv o0 h s -> auth_submethod s = None ->
  (ret = 0 \/ (ret = 1 /\ did_authserv (served_by h) = true /\ evidence h (ident_of s) (auth_method s, None))) ->
  wp (if (ret =? 1) && negb (zlen (opt_auth_methods (options (au s))) =? 0) then
        complete ← on_auth (auth2_update_methods_lists (auth_method s) (auth_submethod s)); mret (complete, negb complete)
      else mret (ret =? 1, false))
    (fun '(authenticated, _) s' => Inv o0 h s' /\ auth_method s' = auth_method s /\ auth_submethod s' = None /\
       (authenticated = true -> completed h s' (auth_method s))) s.
Proof.
  intros [Ht F] Hsub Hret. destruct Hret as [->|(-> & Has & Hev)]; cbn [Z.eqb Pos.eqb andb]; [by wp_steps|].
  pose proof F as [F1 F2 F0 F3 F4 F8 F5 F6 F7]. destruct F7 as (acc & Hacc & _ & Hl).
  assert (did_pwnam (served_by h) = true) as Hpn.
  { clear -F1 Has. unfold ordered in F1. rewrite Has in F1. by destruct (did_pwnam (served_by h)); rewrite ?andb_false_r in F1. }
  destruct (Z.eqb_spec (zlen (opt_auth_methods (options (au s)))) 0) as [Hz|Hz]; cbn [negb].
  { wp_steps. split; [by split|]. split; [done|]. split; [done|]. intros _. split; [done|]. split; [done|]. exists acc. split; [done|]. left. by destruct (opt_auth_methods (options (au s))). }
  apply wp_bind, wp_on_auth. unfold auth2_update_methods_lists, change_ctx. wp_steps. rewrite Hsub.
  destruct (update_lists (auth_methods (ctx (au s))) (auth_method s) None) as [[found complete] l] eqn:Eu. wp_steps.
  pose proof (methods_facts o0 h s (auth_method s, None) l F Has Hev) as F'. specialize (F' (ex_intro _ found (ex_intro _ complete Eu))).
  destruct complete; wp_steps; [|destruct found; cbn [negb]; wp_steps; by split; [|split; [|split]]].
  split; [by split|]. split; [done|]. split; [done|]. intros _. split; [done|]. split; [exact Hev|]. exists acc. split; [exact Hacc|]. right.
  destruct (Hl Hpn) as [Hl'|Hl']; [by rewrite Hl' in Hz|]. destruct (evidence_step h _ _ Hev) as (Hs & Hne & _).
  pose proof (update_residue acc (auth_method s, None) _ _ Hs Hne Hl') as Hr. cbn [fst snd] in Hr. rewrite Eu in Hr. destruct Hr as [_ Hr].
  destruct (Hr eq_refl) as (x & Hin & Hx). exists x. split; [by apply filter_In in Hin|done].
Qed.

Definition accepted (h : list request) (s : mon) : Prop :=
  completed h s (auth_method s) /\ exists p, pw (ctx (au s)) = Some p /\ root_ok (au s) p (auth_method s).

Lemma completed_view h s s' method : view s' = view s -> completed h s method -> completed h s' method.
Proof.
  intros Hv (Has & He & acc & Hf & Hl). pose proof (view_ident s s' Hv) as Hi. unfold completed. rewrite Hi. split; [done|]. split; [done|]. exists acc. split; [done|].
  unfold view, who in Hv. cbn in Hv. injection Hv as Eo En _ _ _ _ _ _ _ _ _ _ _ _. unfold required_list in *. by rewrite Eo, En.
Qed.

Lemma inv_view o0 h s s' : view s' = view s -> mon_dispatch s' = mon_dispatch s -> Inv o0 h s -> Inv o0 h s'.
Proof. intros Hv Hd [Ht F]. split; [congruence|]. by apply (view_facts _ _ s). Qed.

Lemma round_wp o0 h w body s :
  Inv o0 h s -> bytes_ok body ->
  wp (@preauth_round _ _ _ _ _ w body) (fun b s' => legal_next h (w, body) /\ Inv o0 (h ++ [(w, body) : request]) s' /\ (b = true -> accepted (h ++ [(w, body) : request]) s')) s.
Proof.
  intros Hinv Hb. unfold preauth_round, auth2_authctxt_reset_info, change_ctx. wp_steps. apply wp_on_auth. wp_steps.
  eapply wp_mono; [apply (read_wp o0 h w body); [by apply (inv_view o0 h s)|done|done]|]. intros [ret flags] s1 (Hlegal & Hinv1 & Hsub1 & Hret). wp_steps.
  eapply wp_mono; [by apply update_wp|]. intros [auth partial] s2 (Hinv2 & Hm2 & Hsub2 & Hcomp). wp_steps. set (h' := h ++ [(w, body) : request]) in *.
  apply (wp_mono _ (fun b s3 => s3 = s2 /\ (b = true -> completed h' s2 (auth_method s1) /\ exists p, pw (ctx (au s2)) = Some p /\ root_ok (au s2) p (auth_method s1)))).
  { destruct auth; [|by wp_steps]. destruct (_ =? 0); [apply wp_fatal|]. wp_steps. rename a into p. destruct (Z.eqb_spec (pw_uid p) 0) as [Hu|Hu].
    - apply wp_on_auth. eapply wp_mono; [by apply (root_wp (auth_method s1) (au s2) p)|]. intros b x [-> Hroot]. split; [by destruct s2|]. intros Hbt.
      split; [by apply Hcomp|]. exists p. split; [done|]. by apply Hroot.
    - wp_steps. split; [done|]. intros _. split; [by apply Hcomp|]. exists p. split; [done|]. intros ?. by destruct Hu. }
  intros b s3 [-> Hok]. wp_steps. apply (wp_mono _ (fun _ s4 => exists x, s4 = set_au x s2 /\ who x = who (au s2) /\ auth_opts x = auth_opts (au s2))).
  { destruct (_ =? 0); [wp_steps; exists (au s2); by destruct s2|]. wp_steps.
    apply (wp_mono _ (fun _ s4 => exists x, s4 = set_au x s2 /\ who x = who (au s2) /\ auth_opts x = auth_opts (au s2))).
    { destruct (negb partial && negb b); [apply wp_on_auth|]; wp_steps; [eexists; split; [reflexivity|by split]|exists (au s2); by destruct s2]. }
    intros _ s4 (x & -> & Hw & Ho). destruct (b || partial); [|wp_steps; eauto]. eapply wp_on_auth, wp_mono; [apply session_info_wp|]. intros _ x' [bf ->].
    cbn [au set_au]. eexists. split; [done|]. by split. }
  intros _ s4 (x & -> & Hw & Ho). assert (view (set_au x s2) = view s2) as Hv by (unfold view, key_state; cbn; by rewrite Hw). wp_steps.
  split; [done|]. split; [by apply (inv_view o0 h' s2)|]. intros ->. destruct (Hok eq_refl) as (Hc & p & Hp & Hroot). split; [|exists p].
  - cbn. rewrite Hm2. by apply (completed_view h' s2).
  - unfold who in Hw. injection Hw as Eo En _ _ _ _ Ep _. cbn. rewrite Hm2. split; [congruence|]. unfold root_ok in *. by rewrite Eo, Ho.
Qed.

(** ** All rounds *)

(** Every request was permitted when it came. *)
Inductive legal : list request -> Prop :=
| legal_nil : legal []
| legal_snoc h r : legal h -> legal_next h r -> legal (h ++ [r]).

Lemma loop_wp o0 reqs : Forall (fun r => bytes_ok (snd r)) reqs -> forall h s, Inv o0 h s -> legal h ->
  wp (preauth_loop reqs) (fun b s' => exists h' rest, h ++ reqs = h' ++ rest /\ (b = false -> rest = []) /\ legal h' /\ Inv o0 h' s' /\
    (b = true -> accepted h' s')) s.
Proof.
  induction 1 as [|[w body] reqs Hb Hbs IH]; intros h s Hinv Hleg; cbn [preauth_loop].
  { wp_steps. exists h, []. split; [done|]. split; [done|]. split; [done|]. by split. }
  apply wp_bind. eapply wp_mono; [by apply (round_wp o0 h w body s)|]. intros b s1 (Hl & Hinv1 & Hacc). destruct b.
  - wp_steps. exists (h ++ [(w, body) : request]), reqs. split; [by rewrite <- app_assoc|]. split; [done|]. split; [by constructor|]. split; [done|]. exact Hacc.
  - eapply wp_mono; [apply IH; [done|by constructor]|]. intros b s2 (h' & rest & E & Hrest). exists h', rest. split; [|done]. by rewrite <- E, <- app_assoc.
Qed.

Lemma start_inv o kd lm : Inv o [] (preauth_start (monitor_init o kd lm)).
Proof.
  split; [by vm_compute|]. split; cbn; try done.
  - by left.
  - exists []. split; [constructor|done].
Qed.

(** C2: what a login requires.  Whatever requests the unprivileged child sends,
    and whatever the system answers, the monitor accepts a user only if the user
    named in the PWNAM request was found and may log in, and a method has succeeded:
    an AUTHPASSWORD request has the right password, or a KEYALLOWED request has a key
    that was allowed for the user and a KEYVERIFY request has a signature of that
    key over data which names the session of the SIGN request, this user (with the
    style of the AUTHSERV request) and this method.  If several methods are required,
    each of the methods of one configured list has succeeded in its order.  Root
    is accepted only when the configuration permits it. *)
Theorem monitor_authentication o kd lm reqs s' :
  Forall (fun r => bytes_ok (snd r)) reqs -> monitor_child_preauth reqs (monitor_init o kd lm) = Done (true, s') ->
  exists name p acc,
    user (ctx (au s')) = Some name /\ pw (ctx (au s')) = Some p /\
    user_of reqs o name p /\ (exists sid, session_id2 s' = Some sid /\ session_of reqs sid) /\ style_of reqs (style (ctx (au s'))) /\
    evidence reqs (ident_of s') (auth_method s', None) /\ Forall (evidence reqs (ident_of s')) acc /\
    (opt_auth_methods (options (au s')) = [] \/ exists l, required_list (au s') l /\ performed (tokens l) (acc ++ [(auth_method s', None)])) /\
    root_ok (au s') p (auth_method s').
Proof.
  intros Hb E. unfold monitor_child_preauth in E. pose proof (loop_wp o reqs Hb [] _ (start_inv o kd lm) legal_nil) as Hloop.
  unfold mbind, st_bind, change, wp in E, Hloop. destruct (preauth_loop reqs _) as [[b s1]| |]; [|done|done]. destruct b; cbn in E; [|done].
  destruct (valid (ctx (au s1))) eqn:Ev; cbn in E; [|done]. case_bool_decide; [done|]. injection E as <-.
  destruct Hloop as (h & rest & Er & _ & _ & [Ht F] & Hacc). cbn in Er. subst reqs. destruct (Hacc eq_refl) as [(Has & Hev & acc & Hf & Hl) (p & Hp & Hroot)].
  assert (did_pwnam (served_by h) = true) as Hpn.
  { destruct (did_pwnam (served_by h)) eqn:Epn; [done|]. destruct (inv_fresh _ _ _ F Epn) as (_ & ? & _). congruence. }
  destruct (inv_user _ _ _ F Hpn) as (name & p' & Hu & Hp' & Hfound). assert (p' = p) as -> by congruence. destruct (Hfound Ev) as (w & l & Hin & Hfu).
  assert (incl h (h ++ rest)) as Hincl by (by apply incl_appl, incl_refl).
  exists name, p, acc. split; [done|]. split; [done|]. split; [exists w, l; split; [by apply Hincl|done]|]. split; [|split].
  { destruct (inv_sid _ _ _ F) as (sid & Hs & w1 & l1 & Hin1 & Hl1); [|exists sid; split; [done|]; exists w1, l1; split; [by apply Hincl|done]].
    pose proof (inv_order _ _ _ F) as Ho. unfold ordered in Ho. rewrite Hpn in Ho. by destruct (did_sign (served_by h)). }
  { destruct (inv_style _ _ _ F Has) as (w1 & l1 & sv & st & Hin1 & Hl1). exists w1, l1, sv, st. split; [by apply Hincl|done]. }
  split; [by eapply evidence_more|]. split; [|done].
  eapply Forall_impl; [exact Hf|]. intros m. by apply evidence_more.
Qed.

(** ** The order of requests *)

(** The requests that must and must not have come before. *)
Definition allowed_after (ts : list Z) (f : handler) : Prop :=
  match f with
  | mm_moduli | mm_sign => ~ In (type_of f) ts
  | mm_pwnamallow => In MONITOR_REQ_SIGN ts /\ ~ In (type_of f) ts
  | mm_authserv | mm_auth2_read_banner => In MONITOR_REQ_PWNAM ts /\ ~ In (type_of f) ts
  | mm_authpassword | mm_keyallowed | mm_keyverify => In MONITOR_REQ_AUTHSERV ts
  end.

Definition seen (t : Z) (ts : list Z) : bool := existsb (fun x => x =? t) ts.
Lemma seen_spec t ts : seen t ts = true <-> In t ts.
Proof. unfold seen. rewrite existsb_exists. split; [by intros (x & Hin & ->%Z.eqb_eq)|]. intros Hin. exists t. split; [done|apply Z.eqb_refl]. Qed.

Lemma served_by_seen ts v :
  fold_left serve_type ts v = mk_served (did_moduli v || seen MONITOR_REQ_MODULI ts) (did_sign v || seen MONITOR_REQ_SIGN ts)
    (did_pwnam v || seen MONITOR_REQ_PWNAM ts) (did_authserv v || seen MONITOR_REQ_AUTHSERV ts) (did_banner v || seen MONITOR_REQ_AUTH2_READ_BANNER ts).
Proof.
  revert v. induction ts as [|t ts IH]; intros v; [cbn; rewrite !orb_false_r; by destruct v|]. cbn [fold_left]. rewrite IH. unfold seen. cbn [existsb].
  assert (serve_type v t = mk_served (did_moduli v || (t =? MONITOR_REQ_MODULI)) (did_sign v || (t =? MONITOR_REQ_SIGN)) (did_pwnam v || (t =? MONITOR_REQ_PWNAM))
    (did_authserv v || (t =? MONITOR_REQ_AUTHSERV)) (did_banner v || (t =? MONITOR_REQ_AUTH2_READ_BANNER))) as ->.
  { unfold serve_type. cbn [handlers List.filter type_of]. rewrite !(Z.eqb_sym t).
    repeat match goal with |- context [?a =? t] => destruct (Z.eqb_spec a t); [subst t; by destruct v as [[] [] [] [] []]|] end. by destruct v as [[] [] [] [] []]. }
  cbn [did_moduli did_sign did_pwnam did_authserv did_banner]. by rewrite <- !orb_assoc.
Qed.

Lemma permitted_after h f : permitted (served_by h) f = true -> allowed_after (req_type <$> h) f.
Proof.
  unfold served_by. rewrite served_by_seen. cbn [did_moduli did_sign did_pwnam did_authserv did_banner orb].
  destruct f; cbn [permitted allowed_after did_moduli did_sign did_pwnam did_authserv did_banner type_of]; rewrite ?andb_true_iff, ?negb_true_iff, <- ?seen_spec; try done;
    intros Hs; try split; try (by rewrite Hs); try apply Hs; destruct Hs as [_ Hs] || idtac; by rewrite Hs.
Qed.

(** The order of requests.  Of the requests of the child only those are
    answered that come in their place: the user is named at most once and after
    the key exchange was signed, the service at most once and after that, and
    passwords and keys are looked at only when the service is known; every request
    that is marked so is answered at most once. *)
Theorem monitor_request_order o kd lm reqs b s' :
  Forall (fun r => bytes_ok (snd r)) reqs -> preauth_loop reqs (preauth_start (monitor_init o kd lm)) = Done (b, s') ->
  exists h rest, reqs = h ++ rest /\ (b = false -> rest = []) /\
    forall h1 r h2, h = h1 ++ r :: h2 -> exists f, req_type r = type_of f /\ allowed_after (req_type <$> h1) f.
Proof.
  intros Hb E. pose proof (loop_wp o reqs Hb [] _ (start_inv o kd lm) legal_nil) as Hloop. unfold wp in Hloop. rewrite E in Hloop.
  destruct Hloop as (h & rest & Er & Hrest & Hleg & _). exists h, rest. split; [done|]. split; [done|]. clear -Hleg.
  induction Hleg as [|h r Hleg IH [f [Hr Hp]]]; intros h1 x h2 Eh; [by destruct h1|].
  destruct h2 as [|y h2 _] using rev_ind.
  - apply app_inj_tail in Eh as [<- <-]. exists f. split; [done|]. by apply permitted_after.
  - change (h1 ++ x :: h2 ++ [y]) with (h1 ++ (x :: h2) ++ [y]) in Eh. rewrite app_assoc in Eh. apply app_inj_tail in Eh as [-> _]. by eapply IH.
Qed.
End auth.

(** * A login *)

Definition toy_config : @MonitorConfig toy_keys := {|
  SSH_OLD_SESSIONID := false; SSH_BUG_RSASIGMD5 := false; agent_connected := false;
  get_hostkey_by_index := fun _ => Some ([9] : @sshkey toy_keys); get_hostkey_public_by_index := fun _ => Some ([9] : @sshkey toy_keys); Xssh_agent_sign := fun _ _ _ _ => Err SSH_ERR_AGENT_FAILURE;
  passwd_image := fun _ => []; options_image := fun _ => []; copied_options := fun _ => []
|}.
Definition toy_init : @mon toy_keys :=
  @monitor_init toy_keys toy_options (default authopt_zero (@sshauthopt_new_with_keys_defaults alloc_all)) (default demo_buf (@sshbuf_new alloc_all)).

Definition demo_hash : list Z := replicate 32 5.
Definition demo_data : list Z :=
  enc_string demo_hash ++ [50] ++ enc_string (str "joe") ++ enc_string (str "ssh-connection") ++ enc_string (str "publickey") ++ [1] ++
  enc_string (str "toy") ++ enc_string [7; 7; 7].
(** The key exchange is signed, the user and the service are named; a password and
    a key are accepted. *)
Definition demo_requests : list (@request toy_keys) :=
  (fun body => (toy_world, body)) <$>
  [[MONITOR_REQ_SIGN] ++ POKE_U32 0 ++ enc_string demo_hash ++ enc_string (str "toy") ++ POKE_U32 0 ++ POKE_U32 0;
   [MONITOR_REQ_PWNAM] ++ enc_string (str "joe");
   [MONITOR_REQ_AUTHSERV] ++ enc_string (str "ssh-connection") ++ enc_string [];
   [MONITOR_REQ_AUTHPASSWORD] ++ enc_string (str "secret");
   [MONITOR_REQ_KEYALLOWED] ++ POKE_U32 MM_USERKEY ++ enc_string [] ++ enc_string [] ++ enc_string (str "toy") ++ enc_string [7; 7; 7] ++ POKE_U32 1;
   [MONITOR_REQ_KEYVERIFY] ++ enc_string (str "toy") ++ enc_string [7; 7; 7] ++ enc_string ([7; 7; 7] ++ demo_data) ++ enc_string demo_data].

Lemma demo_bytes n : Forall (fun r : request => bytes_ok (snd r)) (take n demo_requests).
Proof.
  apply Forall_take. apply (Forall_impl (fun r : request => bool_decide (bytes_ok (snd r)) = true)); [|intros r; apply bool_decide_eq_true].
  repeat (apply Forall_cons; split; [vm_compute; reflexivity|]). by apply Forall_nil.
Qed.

Lemma monitor_authentication_witness :
  exists s' name p acc,
    @monitor_child_preauth alloc_all demo_resolver toy_keys toy_process toy_config (take 6 demo_requests) toy_init = Done (true, s') /\
    user (ctx (au s')) = Some name /\ pw (ctx (au s')) = Some p /\
    @user_of alloc_all demo_resolver toy_keys (take 6 demo_requests) toy_options name p /\
    @evidence toy_keys toy_config (take 6 demo_requests) (ident_of s') (auth_method s', None) /\
    exists l, @required_list toy_keys (au s') l /\ performed (tokens l) (acc ++ [(auth_method s', None)]).
Proof.
  destruct (@monitor_child_preauth alloc_all demo_resolver toy_keys toy_process toy_config (take 6 demo_requests) toy_init) as [[b s']| |] eqn:E;
    [|vm_compute in E; discriminate E|vm_compute in E; discriminate E].
  assert (b = true) as ->.
  { pose proof (f_equal (fun x => match x with Done (b, _) => b | _ => false end) E) as Eb. vm_compute in Eb. by rewrite <- Eb. }
  assert (opt_auth_methods (options (au s')) <> []) as Hm.
  { pose proof (f_equal (fun x => match x with Done (_, s) => opt_auth_methods (options (au s)) | _ => [] end) E) as Em. cbv beta iota in Em. intros Hn. rewrite Hn in Em. vm_compute in Em. discriminate Em. }
  destruct (@monitor_authentication alloc_all alloc_all_reliable demo_resolver toy_keys toy_process toy_config toy_options _ _ (take 6 demo_requests) s'
    (demo_bytes 6) E) as (name & p & acc & Hu & Hp & Huser & _ & _ & Hev & _ & [Hl|Hl] & _); [by destruct Hm|].
  exists s', name, p, acc. split; [reflexivity|]. split; [exact Hu|]. split; [exact Hp|]. split; [exact Huser|]. split; [exact Hev|exact Hl].
Defined.

Lemma monitor_request_order_witness :
  exists s', @preauth_loop alloc_all demo_resolver toy_keys toy_process toy_config (take 2 demo_requests) (preauth_start toy_init) = Done (false, s') /\
    exists f, req_type (toy_world, [MONITOR_REQ_PWNAM] ++ enc_string (str "joe")) = type_of f /\ allowed_after (req_type <$> take 1 demo_requests) f.
Proof.
  destruct (@preauth_loop alloc_all demo_resolver toy_keys toy_process toy_config (take 2 demo_requests) (preauth_start toy_init)) as [[b s']| |] eqn:E;
    [|vm_compute in E; discriminate E|vm_compute in E; discriminate E].
  assert (b = false) as ->.
  { pose proof (f_equal (fun x => match x with Done (b, _) => b | _ => true end) E) as Eb. vm_compute in Eb. by rewrite <- Eb. }
  destruct (@monitor_request_order alloc_all alloc_all_reliable demo_resolver toy_keys toy_process toy_config toy_options _ _ (take 2 demo_requests) false s'
    (demo_bytes 2) E) as (h & rest & Er & Hrest & Hord). rewrite (Hrest eq_refl), app_nil_r in Er. subst h.
  exists s'. split; [reflexivity|]. exact (Hord (take 1 demo_requests) _ [] eq_refl).
Defined.
