(* ===== verification/Io.v ===== *)
(** Programs that talk to their environment.

    A computation in [io] ends with a value, with [_exit], by an error of memory
    ([Segv]: an access outside of an array or a pointer that was freed) or, where
    the environment decides the length of a loop, without result because the fuel
    is used up.  The state that it leaves is kept in each case. *)

From S2P Require Import Prelude.
Local Open Scope Z_scope.

Definition EINTR : Z := 4.
Definition EAGAIN : Z := 11.
Definition ENOENT : Z := 2.
Definition ENOTDIR : Z := 20.
Definition EBADF : Z := 9.
Definition ELOOP : Z := 40.
Definition EPERM : Z := 1.
Definition EACCES : Z := 13.
Definition EFAULT : Z := 14.
Definition ENAMETOOLONG : Z := 36.
Definition EINVAL : Z := 22.
Definition ENOSYS : Z := 38.
Definition EOPNOTSUPP : Z := 95.
Definition EXDEV : Z := 18.
Definition EEXIST : Z := 17.
Definition LINK_OPNOTSUPP_ERRNO : Z := EPERM.

Inductive ending (A : Type) := Ret (a : A) | Exit (code : Z) | Segv | NoFuel.
Arguments Ret {A}.
Arguments Exit {A}.
Arguments Segv {A}.
Arguments NoFuel {A}.

Definition io (S A : Type) : Type := S -> ending A * S.
#[global] Instance io_ret {S} : MRet (io S) := fun _ a s => (Ret a, s).
#[global] Instance io_bind {S} : MBind (io S) := fun _ _ f m s =>
  match m s with
  | (Ret a, s') => f a s'
  | (Exit c, s') => (Exit c, s')
  | (Segv, s') => (Segv, s')
  | (NoFuel, s') => (NoFuel, s')
  end.

#[global] Instance io_fmap {S} : FMap (io S) := fun _ _ f m => a ← m; mret (f a).

Definition reads {S A} (f : S -> A) : io S A := fun s => (Ret (f s), s).
Definition updates {S} (f : S -> S) : io S unit := fun s => (Ret tt, f s).
Definition exits {S A} (code : Z) : io S A := fun s => (Exit code, s).
Definition segv {S A} : io S A := fun s => (Segv, s).
Definition no_fuel {S A} : io S A := fun s => (NoFuel, s).
(** [fatal] ends the process with status 255. *)
Definition dies {S A} : io S A := exits 255.
(** A function that returns an error code. *)
Definition attempt {S A} (m : SE S A) : io S (result A) := fun s => let '(r, s') := m s in (Ret r, s').
Definition must {S A} (r : result A) : io S A := match r with Ok a => mret a | Err _ => dies end.


(** A sequence that returns, and a step of one. *)
Lemma io_bind_ret {S A B} (m : io S A) (f : A -> io S B) s b s' : (m ≫= f) s = (Ret b, s') -> exists a s1, m s = (Ret a, s1) /\ f a s1 = (Ret b, s').
Proof. unfold mbind, io_bind. destruct (m s) as [[a|c| |] s1]; [eauto|done..]. Qed.

Lemma bind_run {S A B} (m : io S A) (f : A -> io S B) a s s1 : m s = (Ret a, s1) -> (m ≫= f) s = f a s1.
Proof. unfold mbind, io_bind. by intros ->. Qed.
