(* ===== verification/SftpCommon.v ===== *)
(** What the file transfer programs share (sftp-common.c, sftp.h, xrename of
    misc.c, strmode and fmt_scaled of openbsd-compat): system calls, the form of
    attributes on the wire and the long form of a directory entry.

    The system is the class [OS]: a state and, for each call, an answer and a new
    state.  Nothing is assumed about the answers. *)

From Stdlib Require Import String.
From S2P Require Import Prelude Io Sshbuf SshbufGetPut Match.
From stdpp Require Import pretty.
Local Open Scope Z_scope.

(** * System calls *)

Definition PATH_MAX : Z := 4096.

Record stat_t := mk_stat { st_mode : Z; st_nlink : Z; st_uid : Z; st_gid : Z; st_size : Z; st_atime : Z; st_mtime : Z }.
Record statvfs_t := mk_statvfs {
  f_bsize : Z; f_frsize : Z; f_blocks : Z; f_bfree : Z; f_bavail : Z; f_files : Z; f_ffree : Z; f_favail : Z; f_fsid : Z; f_flag : Z; f_namemax : Z
}.

(** A call and the type of its answer: [inl] is [errno] of a call that failed,
    [None] of a call without result is success.  The streams of the client are
    the last three. *)
Inductive sysE : Type -> Type :=
| sys_open (name : cstring) (flags mode : Z) : sysE (Z + Z)
| sys_close (fd : Z) : sysE (option Z)
| sys_lseek (fd off : Z) : sysE (option Z)
| sys_read (fd len : Z) : sysE (Z + list Z)
| sys_write (fd : Z) (data : list Z) : sysE (Z + Z)
| sys_stat (name : cstring) : sysE (Z + stat_t)
| sys_lstat (name : cstring) : sysE (Z + stat_t)
| sys_fstat (fd : Z) : sysE (Z + stat_t)
| sys_truncate (name : cstring) (size : Z) : sysE (option Z)
| sys_ftruncate (fd size : Z) : sysE (option Z)
| sys_chmod (name : cstring) (mode : Z) : sysE (option Z)
| sys_fchmod (fd mode : Z) : sysE (option Z)
| sys_fchmodat (name : cstring) (mode : Z) : sysE (option Z)
| sys_utimes (name : cstring) (atime mtime : Z) : sysE (option Z)
| sys_futimes (fd atime mtime : Z) : sysE (option Z)
| sys_utimensat (name : cstring) (atime mtime : Z) : sysE (option Z)
| sys_chown (name : cstring) (uid gid : Z) : sysE (option Z)
| sys_fchown (fd uid gid : Z) : sysE (option Z)
| sys_fchownat (name : cstring) (uid gid : Z) : sysE (option Z)
| sys_opendir (name : cstring) : sysE (Z + Z)
| sys_readdir (dirp : Z) : sysE (option cstring)
| sys_closedir (dirp : Z) : sysE (option Z)
| sys_unlink (name : cstring) : sysE (option Z)
| sys_mkdir (name : cstring) (mode : Z) : sysE (option Z)
| sys_rmdir (name : cstring) : sysE (option Z)
| sys_realpath (name : cstring) : sysE (Z + cstring)
| sys_rename (oldpath newpath : cstring) : sysE (option Z)
| sys_link (oldpath newpath : cstring) : sysE (option Z)
| sys_symlink (oldpath newpath : cstring) : sysE (option Z)
| sys_readlink (name : cstring) (len : Z) : sysE (Z + list Z)
| sys_statvfs (name : cstring) : sysE (Z + statvfs_t)
| sys_fstatvfs (fd : Z) : sysE (Z + statvfs_t)
| sys_fsync (fd : Z) : sysE (option Z)
| sys_localtime (t : Z) : sysE (option Z)
| sys_time : sysE Z
| sys_user_from_uid (uid : Z) : sysE (option cstring)
| sys_group_from_gid (gid : Z) : sysE (option cstring)
| sys_select (rd wr : bool) : sysE (Z + bool * bool)
| sys_read_in (len : Z) : sysE (Z + list Z)
| sys_write_out (data : list Z) : sysE (Z + Z).

Class OS := { os : Type; sys : forall T, sysE T -> os -> T * os; strftime : Z -> string -> Z -> cstring }.
Arguments sys {_ T}.

(** A call that was made, with its answer. *)
Inductive event := Ev (T : Type) (e : sysE T) (r : T).
Arguments Ev {T}.

(** * Attributes *)

Definition SSH2_FILEXFER_ATTR_SIZE : Z := 1.
Definition SSH2_FILEXFER_ATTR_UIDGID : Z := 2.
Definition SSH2_FILEXFER_ATTR_PERMISSIONS : Z := 4.
Definition SSH2_FILEXFER_ATTR_ACMODTIME : Z := 8.
Definition SSH2_FILEXFER_ATTR_EXTENDED : Z := 0x80000000.

Definition has (flags bit : Z) : bool := negb (Z.land flags bit =? 0).

Record Attrib := mk_attrib { a_flags : Z; a_size : Z; a_uid : Z; a_gid : Z; a_perm : Z; a_atime : Z; a_mtime : Z }.
Definition attrib_clear : Attrib := mk_attrib 0 0 0 0 0 0 0.

Definition stat_to_attrib (st : stat_t) : Attrib :=
  mk_attrib (Z.lor (Z.lor (Z.lor SSH2_FILEXFER_ATTR_SIZE SSH2_FILEXFER_ATTR_UIDGID) SSH2_FILEXFER_ATTR_PERMISSIONS) SSH2_FILEXFER_ATTR_ACMODTIME)
    (u64 (st_size st)) (u32 (st_uid st)) (u32 (st_gid st)) (u32 (st_mode st)) (u32 (st_atime st)) (u32 (st_mtime st)).

Definition i64 (x : Z) : Z := (x + 2 ^ 63) mod 2 ^ 64 - 2 ^ 63.
Definition i32 (x : Z) : Z := (x + 2 ^ 31) mod 2 ^ 32 - 2 ^ 31.

Definition attrib_to_stat (a : Attrib) : stat_t :=
  let size := if has (a_flags a) SSH2_FILEXFER_ATTR_SIZE then i64 (a_size a) else 0 in
  let '(uid, gid) := if has (a_flags a) SSH2_FILEXFER_ATTR_UIDGID then (a_uid a, a_gid a) else (0, 0) in
  let mode := if has (a_flags a) SSH2_FILEXFER_ATTR_PERMISSIONS then a_perm a else 0 in
  let '(atime, mtime) := if has (a_flags a) SSH2_FILEXFER_ATTR_ACMODTIME then (a_atime a, a_mtime a) else (0, 0) in
  mk_stat mode 0 uid gid size atime mtime.

Section codec.
Context `{Allocator}.

(** The loop over the extended attributes.  A turn that succeeds takes eight
    bytes or more, so the fuel that [decode_attrib] gives is enough. *)
Fixpoint skip_extended (fuel : nat) (count : Z) : SE sshbuf unit :=
  if count <=? 0 then mret tt
  else
    match fuel with
    | O => se_err SSH_ERR_INTERNAL_ERROR
    | S fuel => _ ← sshbuf_get_cstring; _ ← sshbuf_get_string; skip_extended fuel (count - 1)
    end.

(** The fields up to the times, each only when its flag is set. *)
Definition decode_fields : SE sshbuf Attrib :=
  flags ← sshbuf_get_u32;
  size ← (if has flags SSH2_FILEXFER_ATTR_SIZE then sshbuf_get_u64 else mret 0);
  ids ← (if has flags SSH2_FILEXFER_ATTR_UIDGID then uid ← sshbuf_get_u32; gid ← sshbuf_get_u32; mret (uid, gid) else mret (0, 0));
  perm ← (if has flags SSH2_FILEXFER_ATTR_PERMISSIONS then sshbuf_get_u32 else mret 0);
  times ← (if has flags SSH2_FILEXFER_ATTR_ACMODTIME then t1 ← sshbuf_get_u32; t2 ← sshbuf_get_u32; mret (t1, t2) else mret (0, 0));
  mret (mk_attrib flags size ids.1 ids.2 perm times.1 times.2).

(** A missing count of extended attributes is fatal, any other error is returned. *)
Definition decode_attrib : io sshbuf (result Attrib) :=
  r ← attempt decode_fields;
  match r with
  | Err e => mret (Err e)
  | Ok a =>
      if has (a_flags a) SSH2_FILEXFER_ATTR_EXTENDED then
        c ← attempt sshbuf_get_u32;
        count ← must c;
        fuel ← reads (fun b => length (contents b));
        r ← attempt (skip_extended fuel count);
        mret (match r with Ok _ => Ok a | Err e => Err e end)
      else mret (Ok a)
  end.

Definition encode_attrib (a : Attrib) : SE sshbuf unit :=
  _ ← sshbuf_put_u32 (a_flags a);
  _ ← (if has (a_flags a) SSH2_FILEXFER_ATTR_SIZE then sshbuf_put_u64 (a_size a) else mret tt);
  _ ← (if has (a_flags a) SSH2_FILEXFER_ATTR_UIDGID then _ ← sshbuf_put_u32 (a_uid a); sshbuf_put_u32 (a_gid a) else mret tt);
  _ ← (if has (a_flags a) SSH2_FILEXFER_ATTR_PERMISSIONS then sshbuf_put_u32 (a_perm a) else mret tt);
  if has (a_flags a) SSH2_FILEXFER_ATTR_ACMODTIME then _ ← sshbuf_put_u32 (a_atime a); sshbuf_put_u32 (a_mtime a) else mret tt.

End codec.

(** * Messages for a status *)

Definition SSH2_FX_OK : Z := 0.
Definition SSH2_FX_EOF : Z := 1.
Definition SSH2_FX_NO_SUCH_FILE : Z := 2.
Definition SSH2_FX_PERMISSION_DENIED : Z := 3.
Definition SSH2_FX_FAILURE : Z := 4.
Definition SSH2_FX_BAD_MESSAGE : Z := 5.
Definition SSH2_FX_NO_CONNECTION : Z := 6.
Definition SSH2_FX_CONNECTION_LOST : Z := 7.
Definition SSH2_FX_OP_UNSUPPORTED : Z := 8.
Definition SSH2_FX_MAX : Z := 8.

Definition fx2txt (status : Z) : cstring :=
  str (if status =? SSH2_FX_OK then "No error" else if status =? SSH2_FX_EOF then "End of file"
       else if status =? SSH2_FX_NO_SUCH_FILE then "No such file or directory" else if status =? SSH2_FX_PERMISSION_DENIED then "Permission denied"
       else if status =? SSH2_FX_FAILURE then "Failure" else if status =? SSH2_FX_BAD_MESSAGE then "Bad message"
       else if status =? SSH2_FX_NO_CONNECTION then "No connection" else if status =? SSH2_FX_CONNECTION_LOST then "Connection lost"
       else if status =? SSH2_FX_OP_UNSUPPORTED then "Operation unsupported" else "Unknown status").

(** * The long form of a directory entry *)

Definition S_IFMT : Z := 0xf000.
Definition S_ISREG (mode : Z) : bool := Z.land mode S_IFMT =? 0x8000.

(** The letter for execute and a special bit. *)
Definition exec_letter (mode x special : Z) (lower upper : string) : cstring :=
  str (match has mode x, has mode special with
       | false, false => "-" | true, false => "x" | false, true => upper | true, true => lower
       end).
Definition letter (mode bit : Z) (s : string) : cstring := str (if has mode bit then s else "-").

Definition strmode (mode : Z) : cstring :=
  let t := Z.land mode S_IFMT in
  str (if t =? 0x4000 then "d" else if t =? 0x2000 then "c" else if t =? 0x6000 then "b" else if t =? 0x8000 then "-"
       else if t =? 0xa000 then "l" else if t =? 0xc000 then "s" else if t =? 0x1000 then "p" else "?") ++
  letter mode 0x100 "r" ++ letter mode 0x80 "w" ++ exec_letter mode 0x40 0x800 "s" "S" ++
  letter mode 0x20 "r" ++ letter mode 0x10 "w" ++ exec_letter mode 0x8 0x400 "s" "S" ++
  letter mode 0x4 "r" ++ letter mode 0x2 "w" ++ exec_letter mode 0x1 0x200 "t" "T" ++ str " ".

Definition pad_left (n : Z) (s : cstring) : cstring := repeat 32 (Z.to_nat (n - zlen s)) ++ s.
Definition pad_right (n : Z) (s : cstring) : cstring := s ++ repeat 32 (Z.to_nat (n - zlen s)).
Definition decimal (x : Z) : cstring := str (pretty x).

Definition SCALE_LENGTH : nat := 7.
Definition scale_factor (i : nat) : Z := 1024 ^ Z.of_nat i.
Definition FMT_SCALED_STRSIZE : Z := 7.

(** The first scale that fits. *)
Fixpoint find_scale (n i : nat) (abval : Z) : nat :=
  match n with O => i | S n => if Z.quot abval 1024 <? scale_factor i then i else find_scale n (S i) abval end.

(** The size in human-readable form, or nothing when it is too large. *)
Definition fmt_scaled (number : Z) : option cstring :=
  let abval := Z.abs number in
  if (2 ^ 63 <=? abval) || (scale_factor 6 <=? Z.quot abval 1024) then None
  else
    let i := find_scale SCALE_LENGTH 0 abval in
    let fract := match i with O => 0 | S j => Z.quot (Z.rem abval (scale_factor i)) (scale_factor j) end in
    let number := Z.quot number (scale_factor i) in
    let away n := if 0 <=? n then n + 1 else n - 1 in
    let fract := Z.quot (10 * fract + 512) 1024 in
    let '(number, fract) := if 10 <=? fract then (away number, 0) else if fract <? 0 then (number, 0) else (number, fract) in
    let c := match String.get i "BKMGTPE" with Some c => String c EmptyString | None => EmptyString end in
    Some (ztake (FMT_SCALED_STRSIZE - 1)
      (if number =? 0 then str "0B"
       else if (match i with O => true | _ => false end) || (100 <=? number) || (number <=? -100) then
         decimal (if 5 <=? fract then away number else number) ++ str c
       else decimal number ++ str "." ++ decimal fract ++ str c)).
