(* ===== verification/Sftp.v ===== *)
(** The file transfer server (sftp-server.c): the table of requests, the table of
    handles, each request with its system calls and its reply, and the loop that
    moves bytes between the client and the two queues.

    [srv] has one field per static variable; [kernel] is the system and [calls] the
    calls made so far, the last one first.  The temporary buffer of a reply, which
    is freed after it was copied to [oqueue], is local to [reply].  Log messages
    are left out.  The only loop without a bound of its own is the one over a
    directory; [fuel] is the number of its turns. *)

From Stdlib Require Import String.
From S2P Require Import Prelude Io Sshbuf SshbufGetPut Match SftpCommon.
Local Open Scope Z_scope.

Definition SSH2_FILEXFER_VERSION : Z := 3.
Definition SSH2_FXP_INIT : Z := 1.
Definition SSH2_FXP_VERSION : Z := 2.
Definition SSH2_FXP_OPEN : Z := 3.
Definition SSH2_FXP_CLOSE : Z := 4.
Definition SSH2_FXP_READ : Z := 5.
Definition SSH2_FXP_WRITE : Z := 6.
Definition SSH2_FXP_LSTAT : Z := 7.
Definition SSH2_FXP_FSTAT : Z := 8.
Definition SSH2_FXP_SETSTAT : Z := 9.
Definition SSH2_FXP_FSETSTAT : Z := 10.
Definition SSH2_FXP_OPENDIR : Z := 11.
Definition SSH2_FXP_READDIR : Z := 12.
Definition SSH2_FXP_REMOVE : Z := 13.
Definition SSH2_FXP_MKDIR : Z := 14.
Definition SSH2_FXP_RMDIR : Z := 15.
Definition SSH2_FXP_REALPATH : Z := 16.
Definition SSH2_FXP_STAT : Z := 17.
Definition SSH2_FXP_RENAME : Z := 18.
Definition SSH2_FXP_READLINK : Z := 19.
Definition SSH2_FXP_SYMLINK : Z := 20.
Definition SSH2_FXP_STATUS : Z := 101.
Definition SSH2_FXP_HANDLE : Z := 102.
Definition SSH2_FXP_DATA : Z := 103.
Definition SSH2_FXP_NAME : Z := 104.
Definition SSH2_FXP_ATTRS : Z := 105.
Definition SSH2_FXP_EXTENDED : Z := 200.
Definition SSH2_FXP_EXTENDED_REPLY : Z := 201.

Definition SSH2_FXF_READ : Z := 1.
Definition SSH2_FXF_WRITE : Z := 2.
Definition SSH2_FXF_APPEND : Z := 4.
Definition SSH2_FXF_CREAT : Z := 8.
Definition SSH2_FXF_TRUNC : Z := 16.
Definition SSH2_FXF_EXCL : Z := 32.

Definition O_RDONLY : Z := 0.
Definition O_WRONLY : Z := 1.
Definition O_RDWR : Z := 2.
Definition O_ACCMODE : Z := 3.
Definition O_CREAT : Z := 0x40.
Definition O_EXCL : Z := 0x80.
Definition O_TRUNC : Z := 0x200.
Definition O_APPEND : Z := 0x400.

Definition SFTP_MAX_MSG_LENGTH : Z := 256 * 1024.

(** * Error numbers and flags *)

Definition errno_to_portable (unixerrno : Z) : Z :=
  let err e := unixerrno =? e in
  if err 0 then SSH2_FX_OK
  else if err ENOENT || err ENOTDIR || err EBADF || err ELOOP then SSH2_FX_NO_SUCH_FILE
  else if err EPERM || err EACCES || err EFAULT then SSH2_FX_PERMISSION_DENIED
  else if err ENAMETOOLONG || err EINVAL then SSH2_FX_BAD_MESSAGE
  else if err ENOSYS then SSH2_FX_OP_UNSUPPORTED
  else SSH2_FX_FAILURE.

Definition flags_from_portable (pflags : Z) : Z :=
  let flags := if has pflags SSH2_FXF_READ && has pflags SSH2_FXF_WRITE then O_RDWR
               else if has pflags SSH2_FXF_READ then O_RDONLY
               else if has pflags SSH2_FXF_WRITE then O_WRONLY else 0 in
  let flags := if has pflags SSH2_FXF_APPEND then Z.lor flags O_APPEND else flags in
  let flags := if has pflags SSH2_FXF_CREAT then Z.lor flags O_CREAT else flags in
  let flags := if has pflags SSH2_FXF_TRUNC then Z.lor flags O_TRUNC else flags in
  if has pflags SSH2_FXF_EXCL then Z.lor flags O_EXCL else flags.

Definition status_messages : list string :=
  ["Success"; "End of file"; "No such file"; "Permission denied"; "Failure"; "Bad message"; "No connection"; "Connection lost";
   "Operation unsupported"; "Unknown error"]%string.
Definition status_to_message (status : Z) : cstring :=
  str (default EmptyString (status_messages !! Z.to_nat (MINIMUM status SSH2_FX_MAX))).

(** * State *)

Inductive handle_use := HANDLE_UNUSED | HANDLE_DIR | HANDLE_FILE.
#[global] Instance handle_use_eq_dec : EqDecision handle_use.
Proof. solve_decision. Defined.

Record Handle := mk_handle {
  h_use : handle_use; h_dirp : Z; h_fd : Z; h_flags : Z; h_name : cstring; bytes_read : Z; bytes_write : Z; next_unused : Z
}.
(** Memory for a handle before it is used. *)
Definition fresh_handle : Handle := mk_handle HANDLE_UNUSED 0 0 0 [] 0 0 0.
Definition set_unused (next : Z) (h : Handle) : Handle :=
  mk_handle HANDLE_UNUSED (h_dirp h) (h_fd h) (h_flags h) (h_name h) (bytes_read h) (bytes_write h) next.
Definition set_bytes (r w : Z) (h : Handle) : Handle :=
  mk_handle (h_use h) (h_dirp h) (h_fd h) (h_flags h) (h_name h) r w (next_unused h).

(** The arguments of the server that decide what a client may do. *)
Class SftpArgs := { sftp_readonly : bool; request_whitelist : option cstring; request_blacklist : option cstring }.

Record Stat := mk_Stat { s_name : cstring; s_long_name : cstring; s_attrib : Attrib }.

(** The functions of the tables of requests. *)
Inductive request_fn :=
| process_open_ | process_close_ | process_read_ | process_write_ | process_lstat_ | process_fstat_ | process_setstat_ | process_fsetstat_
| process_opendir_ | process_readdir_ | process_remove_ | process_mkdir_ | process_rmdir_ | process_realpath_ | process_stat_ | process_rename_
| process_readlink_ | process_symlink_
| process_extended_posix_rename_ | process_extended_statvfs_ | process_extended_fstatvfs_ | process_extended_hardlink_ | process_extended_fsync_
| process_extended_lsetstat_.

Record sftp_handler := mk_handler { rq_name : string; rq_ext_name : string; rq_type : Z; rq_handler : request_fn; does_write : bool }.

Definition handlers : list sftp_handler := [
  mk_handler "open" "" SSH2_FXP_OPEN process_open_ false;
  mk_handler "close" "" SSH2_FXP_CLOSE process_close_ false;
  mk_handler "read" "" SSH2_FXP_READ process_read_ false;
  mk_handler "write" "" SSH2_FXP_WRITE process_write_ true;
  mk_handler "lstat" "" SSH2_FXP_LSTAT process_lstat_ false;
  mk_handler "fstat" "" SSH2_FXP_FSTAT process_fstat_ false;
  mk_handler "setstat" "" SSH2_FXP_SETSTAT process_setstat_ true;
  mk_handler "fsetstat" "" SSH2_FXP_FSETSTAT process_fsetstat_ true;
  mk_handler "opendir" "" SSH2_FXP_OPENDIR process_opendir_ false;
  mk_handler "readdir" "" SSH2_FXP_READDIR process_readdir_ false;
  mk_handler "remove" "" SSH2_FXP_REMOVE process_remove_ true;
  mk_handler "mkdir" "" SSH2_FXP_MKDIR process_mkdir_ true;
  mk_handler "rmdir" "" SSH2_FXP_RMDIR process_rmdir_ true;
  mk_handler "realpath" "" SSH2_FXP_REALPATH process_realpath_ false;
  mk_handler "stat" "" SSH2_FXP_STAT process_stat_ false;
  mk_handler "rename" "" SSH2_FXP_RENAME process_rename_ true;
  mk_handler "readlink" "" SSH2_FXP_READLINK process_readlink_ false;
  mk_handler "symlink" "" SSH2_FXP_SYMLINK process_symlink_ true].

Definition extended_handlers : list sftp_handler := [
  mk_handler "posix-rename" "posix-rename@openssh.com" 0 process_extended_posix_rename_ true;
  mk_handler "statvfs" "statvfs@openssh.com" 0 process_extended_statvfs_ false;
  mk_handler "fstatvfs" "fstatvfs@openssh.com" 0 process_extended_fstatvfs_ false;
  mk_handler "hardlink" "hardlink@openssh.com" 0 process_extended_hardlink_ true;
  mk_handler "fsync" "fsync@openssh.com" 0 process_extended_fsync_ true;
  mk_handler "lsetstat" "lsetstat@openssh.com" 0 process_extended_lsetstat_ true].

Definition request_permitted `{SftpArgs} (h : sftp_handler) : bool :=
  let listed l := match match_list (str (rq_name h)) l with Some _ => true | None => false end in
  if sftp_readonly && does_write h then false
  else if match request_blacklist with Some l => listed l | None => false end then false
  else match request_whitelist with Some l => listed l | None => true end.

Section server.
Context `{Allocator} `{OS} `{SftpArgs}.

Record srv := mk_srv {
  iqueue : sshbuf; oqueue : sshbuf; version : Z; init_done : bool;
  handles : list Handle; first_unused_handle : Z;
  kernel : os; calls : list event
}.
Definition set_iqueue (b : sshbuf) (s : srv) : srv :=
  mk_srv b (oqueue s) (version s) (init_done s) (handles s) (first_unused_handle s) (kernel s) (calls s).
Definition set_oqueue (b : sshbuf) (s : srv) : srv :=
  mk_srv (iqueue s) b (version s) (init_done s) (handles s) (first_unused_handle s) (kernel s) (calls s).
Definition set_version (v : Z) (s : srv) : srv :=
  mk_srv (iqueue s) (oqueue s) v (init_done s) (handles s) (first_unused_handle s) (kernel s) (calls s).
Definition set_init_done (s : srv) : srv :=
  mk_srv (iqueue s) (oqueue s) (version s) true (handles s) (first_unused_handle s) (kernel s) (calls s).
Definition set_handles (l : list Handle) (first : Z) (s : srv) : srv :=
  mk_srv (iqueue s) (oqueue s) (version s) (init_done s) l first (kernel s) (calls s).
Definition set_kernel (k : os) (tr : list event) (s : srv) : srv :=
  mk_srv (iqueue s) (oqueue s) (version s) (init_done s) (handles s) (first_unused_handle s) k tr.

(** A system call. *)
Definition call {T} (e : sysE T) : io srv T := fun s =>
  let '(r, k) := sys e (kernel s) in (Ret r, set_kernel k (Ev e r :: calls s) s).

(** A function of the input queue, whose failure is fatal. *)
Definition from_in {A} (m : io sshbuf (result A)) : io srv A := fun s =>
  match m (iqueue s) with
  | (Ret (Ok a), b) => (Ret a, set_iqueue b s)
  | (Ret (Err _), b) => (Exit 255, set_iqueue b s)
  | (Exit c, b) => (Exit c, set_iqueue b s)
  | (Segv, b) => (Segv, set_iqueue b s)
  | (NoFuel, b) => (NoFuel, set_iqueue b s)
  end.
Definition get {A} (m : SE sshbuf A) : io srv A := from_in (attempt m).
(** A name is used up to the first nul. *)
Definition get_name : io srv cstring := cstr <$> get sshbuf_get_cstring.
Definition get_attrib : io srv Attrib := from_in decode_attrib.

Definition alloc_or_die (n : Z) : io srv unit := if malloc_ok n then mret tt else dies.
Definition xstrdup_io (s : cstring) : io srv cstring := if malloc_ok (zlen s + 1) then mret s else dies.

(** * Handles *)

Definition SIZEOF_HANDLE : Z := 56.

(** [handles[i]]. *)
Definition handle_at (i : Z) : io srv Handle := fun s =>
  if i <? 0 then (Segv, s) else match handles s !! Z.to_nat i with Some h => (Ret h, s) | None => (Segv, s) end.
Definition store_handle (i : Z) (h : Handle) : io srv unit :=
  updates (fun s => set_handles (<[Z.to_nat i := h]> (handles s)) (first_unused_handle s) s).
Definition set_first_unused (i : Z) : io srv unit := updates (fun s => set_handles (handles s) i s).
Definition num_handles (s : srv) : Z := zlen (handles s).

Definition handle_unused (i : Z) : io srv unit :=
  h ← handle_at i;
  first ← reads first_unused_handle;
  _ ← store_handle i (set_unused first h);
  set_first_unused i.

Definition handle_new (use : handle_use) (name : cstring) (fd flags dirp : Z) : io srv Z :=
  first ← reads first_unused_handle;
  n ← reads num_handles;
  if (first =? -1) && (u32 (n + 1) <=? n) then mret (-1)
  else
    _ ← (if first =? -1 then
           _ ← alloc_or_die ((n + 1) * SIZEOF_HANDLE);
           _ ← updates (fun s => set_handles (handles s ++ [fresh_handle]) (first_unused_handle s) s);
           handle_unused (i32 n)
         else mret tt);
    i ← reads first_unused_handle;
    h ← handle_at i;
    _ ← set_first_unused (next_unused h);
    name ← xstrdup_io name;
    _ ← store_handle i (mk_handle use dirp fd flags name 0 0 (next_unused h));
    mret i.

Definition handle_is_ok (s : srv) (i : Z) (type : handle_use) : bool :=
  (0 <=? i) && (i <? num_handles s) &&
  match handles s !! Z.to_nat i with Some h => bool_decide (h_use h = type) | None => false end.

(** A field of a handle that was checked to be there. *)
Definition field_of {A} (s : srv) (i : Z) (f : Handle -> A) (d : A) : A := match handles s !! Z.to_nat i with Some h => f h | None => d end.

Definition handle_to_string (handle : Z) : list Z := POKE_U32 (u32 handle).
Definition handle_from_string (s : srv) (handle : list Z) : Z :=
  if negb (zlen handle =? 4) then -1
  else
    let val := i32 (PEEK_U32 handle) in
    if handle_is_ok s val HANDLE_FILE || handle_is_ok s val HANDLE_DIR then val else -1.
Definition handle_to_name (s : srv) (handle : Z) : option cstring :=
  if handle_is_ok s handle HANDLE_DIR || handle_is_ok s handle HANDLE_FILE then Some (field_of s handle h_name []) else None.
Definition handle_to_dir (s : srv) (handle : Z) : option Z :=
  if handle_is_ok s handle HANDLE_DIR then Some (field_of s handle h_dirp 0) else None.
Definition handle_to_fd (s : srv) (handle : Z) : Z := if handle_is_ok s handle HANDLE_FILE then field_of s handle h_fd (-1) else -1.
Definition handle_to_flags (s : srv) (handle : Z) : Z := if handle_is_ok s handle HANDLE_FILE then field_of s handle h_flags 0 else 0.

Definition handle_update (handle : Z) (f : Handle -> Handle) (bytes : Z) : io srv unit :=
  ok ← reads (fun s => handle_is_ok s handle HANDLE_FILE);
  if ok && (bytes >? 0) then h ← handle_at handle; store_handle handle (f h) else mret tt.
Definition handle_update_read (handle bytes : Z) : io srv unit :=
  handle_update handle (fun h => set_bytes (u64 (bytes_read h + bytes)) (bytes_write h) h) bytes.
Definition handle_update_write (handle bytes : Z) : io srv unit :=
  handle_update handle (fun h => set_bytes (bytes_read h) (u64 (bytes_write h + bytes)) h) bytes.

(** The result is [errno] of a close that failed. *)
Definition handle_close (handle : Z) : io srv (option Z) :=
  file ← reads (fun s => handle_is_ok s handle HANDLE_FILE);
  dir ← reads (fun s => handle_is_ok s handle HANDLE_DIR);
  if (file : bool) then h ← handle_at handle; ret ← call (sys_close (h_fd h)); _ ← handle_unused handle; mret ret
  else if (dir : bool) then h ← handle_at handle; ret ← call (sys_closedir (h_dirp h)); _ ← handle_unused handle; mret ret
  else mret (Some ENOENT).

Definition get_handle : io srv Z :=
  handle ← get sshbuf_get_string;
  reads (fun s => if zlen handle <? 256 then handle_from_string s handle else -1).

(** * Replies *)

(** A message is built in a buffer of its own and copied to the output queue. *)
Definition reply (m : SE sshbuf unit) : io srv unit :=
  match sshbuf_new with
  | None => dies
  | Some b =>
      match m b with
      | (Err _, _) => dies
      | (Ok _, msg) => fun s =>
          match sshbuf_put_stringb (Some msg) (oqueue s) with
          | (Ok _, o) => (Ret tt, set_oqueue o s)
          | (Err _, o) => (Exit 255, set_oqueue o s)
          end
      end
  end.

Definition send_status (id status : Z) : io srv unit :=
  v ← reads version;
  reply (
    _ ← sshbuf_put_u8 SSH2_FXP_STATUS; _ ← sshbuf_put_u32 id; _ ← sshbuf_put_u32 status;
    if v >=? 3 then _ ← sshbuf_put_cstring (Some (status_to_message status)); sshbuf_put_cstring (Some []) else mret tt).

Definition send_data_or_handle (type id : Z) (data : list Z) : io srv unit :=
  reply (_ ← sshbuf_put_u8 type; _ ← sshbuf_put_u32 id; sshbuf_put_string data).
Definition send_data (id : Z) (data : list Z) : io srv unit := send_data_or_handle SSH2_FXP_DATA id data.
Definition send_handle (id handle : Z) : io srv unit :=
  _ ← alloc_or_die 4; send_data_or_handle SSH2_FXP_HANDLE id (handle_to_string handle).

Fixpoint put_stats (l : list Stat) : SE sshbuf unit :=
  match l with
  | [] => mret tt
  | st :: l =>
      _ ← sshbuf_put_cstring (Some (s_name st)); _ ← sshbuf_put_cstring (Some (s_long_name st)); _ ← encode_attrib (s_attrib st); put_stats l
  end.
Definition send_names (id : Z) (stats : list Stat) : io srv unit :=
  reply (_ ← sshbuf_put_u8 SSH2_FXP_NAME; _ ← sshbuf_put_u32 id; _ ← sshbuf_put_u32 (zlen stats); put_stats stats).
Definition send_attrib (id : Z) (a : Attrib) : io srv unit :=
  reply (_ ← sshbuf_put_u8 SSH2_FXP_ATTRS; _ ← sshbuf_put_u32 id; encode_attrib a).

Definition ST_RDONLY : Z := 1.
Definition ST_NOSUID : Z := 2.
Fixpoint put_u64s (l : list Z) : SE sshbuf unit := match l with [] => mret tt | x :: l => _ ← sshbuf_put_u64 x; put_u64s l end.
Definition send_statvfs (id : Z) (st : statvfs_t) : io srv unit :=
  let flag := Z.lor (if has (f_flag st) ST_RDONLY then 1 else 0) (if has (f_flag st) ST_NOSUID then 2 else 0) in
  reply (_ ← sshbuf_put_u8 SSH2_FXP_EXTENDED_REPLY; _ ← sshbuf_put_u32 id;
         put_u64s [f_bsize st; f_frsize st; f_blocks st; f_bfree st; f_bavail st; f_files st; f_ffree st; f_favail st; f_fsid st; flag; f_namemax st]).
(** The status of a call without result. *)
Definition status_of (r : option Z) : Z := match r with Some e => errno_to_portable e | None => SSH2_FX_OK end.
(** The status is sent when nothing else was. *)
Definition unless_ok (id status : Z) : io srv unit := if status =? SSH2_FX_OK then mret tt else send_status id status.

(** * Requests *)

Definition extensions : list (string * string) :=
  [("posix-rename@openssh.com", "1"); ("statvfs@openssh.com", "2"); ("fstatvfs@openssh.com", "2"); ("hardlink@openssh.com", "1");
   ("fsync@openssh.com", "1"); ("lsetstat@openssh.com", "1")]%string.
Fixpoint put_extensions (l : list (string * string)) : SE sshbuf unit :=
  match l with
  | [] => mret tt
  | (name, v) :: l => _ ← sshbuf_put_cstring (Some (str name)); _ ← sshbuf_put_cstring (Some (str v)); put_extensions l
  end.

Definition process_init : io srv unit :=
  v ← get sshbuf_get_u32;
  _ ← updates (set_version v);
  reply (_ ← sshbuf_put_u8 SSH2_FXP_VERSION; _ ← sshbuf_put_u32 SSH2_FILEXFER_VERSION; put_extensions extensions).

Definition process_open (id : Z) : io srv unit :=
  name ← get_name; pflags ← get sshbuf_get_u32; a ← get_attrib;
  let flags := flags_from_portable pflags in
  let mode := if has (a_flags a) SSH2_FILEXFER_ATTR_PERMISSIONS then a_perm a else 0x1b6 in
  status ←
    (if sftp_readonly && (negb (Z.land flags O_ACCMODE =? O_RDONLY) || has flags (Z.lor O_CREAT O_TRUNC)) then mret SSH2_FX_PERMISSION_DENIED
     else
       r ← call (sys_open name flags mode);
       match r with
       | inl e => mret (errno_to_portable e)
       | inr fd =>
           handle ← handle_new HANDLE_FILE name fd flags 0;
           if handle <? 0 then _ ← call (sys_close fd); mret SSH2_FX_FAILURE
           else _ ← send_handle id handle; mret SSH2_FX_OK
       end);
  unless_ok id status.

Definition process_close (id : Z) : io srv unit :=
  handle ← get_handle;
  ret ← handle_close handle;
  send_status id (status_of ret).

Definition READ_BUF : Z := 64 * 1024.

Definition process_read (id : Z) : io srv unit :=
  handle ← get_handle; off ← get sshbuf_get_u64; len ← get sshbuf_get_u32;
  let len := if len >? READ_BUF then READ_BUF else len in
  fd ← reads (fun s => handle_to_fd s handle);
  status ←
    (if fd >=? 0 then
       r ← call (sys_lseek fd (i64 off));
       match r with
       | Some e => mret (errno_to_portable e)
       | None =>
           r ← call (sys_read fd len);
           match r with
           | inl e => mret (errno_to_portable e)
           | inr [] => mret SSH2_FX_EOF
           | inr data => _ ← send_data id data; _ ← handle_update_read handle (zlen data); mret SSH2_FX_OK
           end
       end
     else mret SSH2_FX_FAILURE);
  unless_ok id status.

(** The seek that a write needs. *)
Definition write_seek (handle fd off : Z) : io srv (option Z) :=
  flags ← reads (fun s => handle_to_flags s handle);
  if has flags O_APPEND then mret None else call (sys_lseek fd (i64 off)).

Definition process_write (id : Z) : io srv unit :=
  handle ← get_handle; off ← get sshbuf_get_u64; data ← get sshbuf_get_string;
  fd ← reads (fun s => handle_to_fd s handle);
  status ←
    (if fd <? 0 then mret SSH2_FX_FAILURE
     else
       r ← write_seek handle fd off;
       match r with
       | Some e => mret (errno_to_portable e)
       | None =>
           r ← call (sys_write fd data);
           match r with
           | inl e => mret (errno_to_portable e)
           | inr ret => if ret =? zlen data then _ ← handle_update_write handle ret; mret SSH2_FX_OK else mret SSH2_FX_FAILURE
           end
       end);
  send_status id status.

Definition process_do_stat (id : Z) (do_lstat : bool) : io srv unit :=
  name ← get_name;
  r ← call (if do_lstat then sys_lstat name else sys_stat name);
  status ←
    match r with
    | inl e => mret (errno_to_portable e)
    | inr st => _ ← send_attrib id (stat_to_attrib st); mret SSH2_FX_OK
    end;
  unless_ok id status.
Definition process_stat (id : Z) : io srv unit := process_do_stat id false.
Definition process_lstat (id : Z) : io srv unit := process_do_stat id true.

Definition process_fstat (id : Z) : io srv unit :=
  handle ← get_handle;
  fd ← reads (fun s => handle_to_fd s handle);
  status ←
    (if fd >=? 0 then
       r ← call (sys_fstat fd);
       match r with
       | inl e => mret (errno_to_portable e)
       | inr st => _ ← send_attrib id (stat_to_attrib st); mret SSH2_FX_OK
       end
     else mret SSH2_FX_FAILURE);
  unless_ok id status.

(** A change that is made when [flag] asks for it; its failure replaces the
    status. *)
Definition when_flag (a : Attrib) (flag : Z) (e : sysE (option Z)) (status : Z) : io srv Z :=
  if has (a_flags a) flag then
    r ← call e;
    mret (match r with Some err => errno_to_portable err | None => status end)
  else mret status.

Definition MODE_MASK : Z := 0xfff.

Definition process_setstat (id : Z) : io srv unit :=
  name ← get_name; a ← get_attrib;
  status ← when_flag a SSH2_FILEXFER_ATTR_SIZE (sys_truncate name (i64 (a_size a))) SSH2_FX_OK;
  status ← when_flag a SSH2_FILEXFER_ATTR_PERMISSIONS (sys_chmod name (Z.land (a_perm a) MODE_MASK)) status;
  status ← when_flag a SSH2_FILEXFER_ATTR_ACMODTIME (sys_utimes name (a_atime a) (a_mtime a)) status;
  status ← when_flag a SSH2_FILEXFER_ATTR_UIDGID (sys_chown name (a_uid a) (a_gid a)) status;
  send_status id status.

Definition process_fsetstat (id : Z) : io srv unit :=
  handle ← get_handle; a ← get_attrib;
  fd ← reads (fun s => handle_to_fd s handle);
  status ←
    (if fd <? 0 then mret SSH2_FX_FAILURE
     else
       status ← when_flag a SSH2_FILEXFER_ATTR_SIZE (sys_ftruncate fd (i64 (a_size a))) SSH2_FX_OK;
       status ← when_flag a SSH2_FILEXFER_ATTR_PERMISSIONS (sys_fchmod fd (Z.land (a_perm a) MODE_MASK)) status;
       status ← when_flag a SSH2_FILEXFER_ATTR_ACMODTIME (sys_futimes fd (a_atime a) (a_mtime a)) status;
       when_flag a SSH2_FILEXFER_ATTR_UIDGID (sys_fchown fd (a_uid a) (a_gid a)) status);
  send_status id status.

Definition process_opendir (id : Z) : io srv unit :=
  path ← get_name;
  r ← call (sys_opendir path);
  status ←
    match r with
    | inl e => mret (errno_to_portable e)
    | inr dirp =>
        handle ← handle_new HANDLE_DIR path 0 0 dirp;
        if handle <? 0 then _ ← call (sys_closedir dirp); mret SSH2_FX_FAILURE
        else _ ← send_handle id handle; mret SSH2_FX_OK
    end;
  unless_ok id status.

(** The long form of a name; the times and names come from the system. *)
Definition ls_file (name : cstring) (st : stat_t) (remote si_units : bool) : io srv cstring :=
  ltime ← call (sys_localtime (st_mtime st));
  names ←
    (if remote then mret (Some (decimal (st_uid st)), Some (decimal (st_gid st)), str "?")
     else
       user ← call (sys_user_from_uid (st_uid st)); group ← call (sys_group_from_gid (st_gid st));
       mret (user, group, ztake 7 (decimal (st_nlink st))));
  tbuf ←
    match ltime with
    | None => mret []
    | Some tm =>
        now ← call sys_time;
        mret (strftime 13 (if (now - Z.quot (365 * 24 * 60 * 60) 2 <? st_mtime st) && (st_mtime st <=? now) then "%b %e %H:%M" else "%b %e  %Y") tm)
    end;
  match names with
  | (Some user, Some group, lc) =>
      let size := if si_units then default [] (fmt_scaled (st_size st)) else decimal (u64 (st_size st)) in
      let buf := strmode (st_mode st) ++ str " " ++ pad_left 3 lc ++ str " " ++ pad_right (MAXIMUM (zlen user) 8) user ++ str " " ++
                 pad_right (MAXIMUM (zlen group) 8) group ++ str " " ++ pad_left 8 size ++ str " " ++ tbuf ++ str " " ++ name in
      xstrdup_io (ztake 1023 buf)
  | _ => segv
  end.

Definition SIZEOF_STAT : Z := 56.

(** The loop over the directory [path].  [nstats] is the size of the array. *)
Fixpoint readdir_loop (fuel : nat) (dirp : Z) (path : cstring) (nstats : Z) (stats : list Stat) : io srv (list Stat) :=
  match fuel with
  | O => no_fuel
  | S fuel =>
      dp ← call (sys_readdir dirp);
      match dp with
      | None => mret stats
      | Some d_name =>
          let grow := zlen stats >=? nstats in
          _ ← (if grow then alloc_or_die (2 * nstats * SIZEOF_STAT) else mret tt);
          let nstats := if grow then 2 * nstats else nstats in
          let pathname := ztake (PATH_MAX - 1) (path ++ (if bool_decide (path = str "/") then [] else str "/") ++ d_name) in
          r ← call (sys_lstat pathname);
          match r with
          | inl _ => readdir_loop fuel dirp path nstats stats
          | inr st =>
              name ← xstrdup_io d_name;
              long ← ls_file d_name st false false;
              let stats := stats ++ [mk_Stat name long (stat_to_attrib st)] in
              if zlen stats =? 100 then mret stats else readdir_loop fuel dirp path nstats stats
          end
      end
  end.

Definition process_readdir (fuel : nat) (id : Z) : io srv unit :=
  handle ← get_handle;
  dirp ← reads (fun s => handle_to_dir s handle);
  path ← reads (fun s => handle_to_name s handle);
  match dirp, path with
  | Some dirp, Some path =>
      _ ← alloc_or_die (10 * SIZEOF_STAT);
      stats ← readdir_loop fuel dirp path 10 [];
      if zlen stats >? 0 then send_names id stats else send_status id SSH2_FX_EOF
  | _, _ => send_status id SSH2_FX_FAILURE
  end.

(** A request with one name and one call that has no result. *)
Definition process_remove (id : Z) : io srv unit := name ← get_name; r ← call (sys_unlink name); send_status id (status_of r).
Definition process_mkdir (id : Z) : io srv unit :=
  name ← get_name; a ← get_attrib;
  let mode := if has (a_flags a) SSH2_FILEXFER_ATTR_PERMISSIONS then Z.land (a_perm a) MODE_MASK else 0x1ff in
  r ← call (sys_mkdir name mode);
  send_status id (status_of r).
Definition process_rmdir (id : Z) : io srv unit := name ← get_name; r ← call (sys_rmdir name); send_status id (status_of r).

Definition process_realpath (id : Z) : io srv unit :=
  path ← get_name;
  path ← match path with [] => xstrdup_io (str ".") | _ => mret path end;
  r ← call (sys_realpath path);
  match r with
  | inl e => send_status id (errno_to_portable e)
  | inr resolvedname => send_names id [mk_Stat resolvedname resolvedname attrib_clear]
  end.

(** xrename: a rename that does not replace a file, by a link where the file
    system has links. *)
Definition xrename (oldpath newpath : cstring) : io srv (option Z) :=
  r ← call (sys_link oldpath newpath);
  match r with
  | Some e =>
      if (e =? EOPNOTSUPP) || (e =? ENOSYS) || (e =? EXDEV) || (e =? LINK_OPNOTSUPP_ERRNO) then
        st ← call (sys_stat newpath);
        match st with inl _ => call (sys_rename oldpath newpath) | inr _ => mret (Some EEXIST) end
      else mret (Some e)
  | None =>
      r ← call (sys_unlink oldpath);
      match r with
      | Some oerrno => _ ← call (sys_unlink newpath); mret (Some oerrno)
      | None => mret None
      end
  end.

Definition process_rename (id : Z) : io srv unit :=
  oldpath ← get_name; newpath ← get_name;
  r ← call (sys_lstat oldpath);
  status ←
    match r with
    | inl e => mret (errno_to_portable e)
    | inr sb =>
        if S_ISREG (st_mode sb) then r ← xrename oldpath newpath; mret (status_of r)
        else
          st ← call (sys_stat newpath);
          match st with
          | inl _ => r ← call (sys_rename oldpath newpath); mret (status_of r)
          | inr _ => mret SSH2_FX_FAILURE
          end
    end;
  send_status id status.

Definition process_readlink (id : Z) : io srv unit :=
  path ← get_name;
  r ← call (sys_readlink path (PATH_MAX - 1));
  match r with
  | inl e => send_status id (errno_to_portable e)
  | inr buf => send_names id [mk_Stat (cstr buf) (cstr buf) attrib_clear]
  end.

Definition process_symlink (id : Z) : io srv unit :=
  oldpath ← get_name; newpath ← get_name; r ← call (sys_symlink oldpath newpath); send_status id (status_of r).
Definition process_extended_posix_rename (id : Z) : io srv unit :=
  oldpath ← get_name; newpath ← get_name; r ← call (sys_rename oldpath newpath); send_status id (status_of r).
Definition process_extended_hardlink (id : Z) : io srv unit :=
  oldpath ← get_name; newpath ← get_name; r ← call (sys_link oldpath newpath); send_status id (status_of r).

Definition process_extended_statvfs (id : Z) : io srv unit :=
  path ← get_name;
  r ← call (sys_statvfs path);
  match r with inl e => send_status id (errno_to_portable e) | inr st => send_statvfs id st end.
Definition process_extended_fstatvfs (id : Z) : io srv unit :=
  handle ← get_handle;
  fd ← reads (fun s => handle_to_fd s handle);
  if fd <? 0 then send_status id SSH2_FX_FAILURE
  else
    r ← call (sys_fstatvfs fd);
    match r with inl e => send_status id (errno_to_portable e) | inr st => send_statvfs id st end.

Definition process_extended_fsync (id : Z) : io srv unit :=
  handle ← get_handle;
  fd ← reads (fun s => handle_to_fd s handle);
  ok ← reads (fun s => handle_is_ok s handle HANDLE_FILE);
  status ←
    (if fd <? 0 then mret SSH2_FX_NO_SUCH_FILE
     else if (ok : bool) then r ← call (sys_fsync fd); mret (status_of r)
     else mret SSH2_FX_OP_UNSUPPORTED);
  send_status id status.

Definition process_extended_lsetstat (id : Z) : io srv unit :=
  name ← get_name; a ← get_attrib;
  status ←
    (if has (a_flags a) SSH2_FILEXFER_ATTR_SIZE then mret SSH2_FX_BAD_MESSAGE
     else
       status ← when_flag a SSH2_FILEXFER_ATTR_PERMISSIONS (sys_fchmodat name (Z.land (a_perm a) MODE_MASK)) SSH2_FX_OK;
       status ← when_flag a SSH2_FILEXFER_ATTR_ACMODTIME (sys_utimensat name (a_atime a) (a_mtime a)) status;
       when_flag a SSH2_FILEXFER_ATTR_UIDGID (sys_fchownat name (a_uid a) (a_gid a)) status);
  send_status id status.

(** * Dispatch *)

Definition run_request (fuel : nat) (f : request_fn) (id : Z) : io srv unit :=
  match f with
  | process_open_ => process_open id | process_close_ => process_close id | process_read_ => process_read id | process_write_ => process_write id
  | process_lstat_ => process_lstat id | process_fstat_ => process_fstat id | process_setstat_ => process_setstat id
  | process_fsetstat_ => process_fsetstat id | process_opendir_ => process_opendir id | process_readdir_ => process_readdir fuel id
  | process_remove_ => process_remove id | process_mkdir_ => process_mkdir id | process_rmdir_ => process_rmdir id
  | process_realpath_ => process_realpath id | process_stat_ => process_stat id | process_rename_ => process_rename id
  | process_readlink_ => process_readlink id | process_symlink_ => process_symlink id
  | process_extended_posix_rename_ => process_extended_posix_rename id | process_extended_statvfs_ => process_extended_statvfs id
  | process_extended_fstatvfs_ => process_extended_fstatvfs id | process_extended_hardlink_ => process_extended_hardlink id
  | process_extended_fsync_ => process_extended_fsync id | process_extended_lsetstat_ => process_extended_lsetstat id
  end.

(** A request of a table, when it is permitted. *)
Definition serve (fuel : nat) (h : sftp_handler) (id : Z) : io srv unit :=
  if request_permitted h then run_request fuel (rq_handler h) id else send_status id SSH2_FX_PERMISSION_DENIED.

Definition process_extended (fuel : nat) (id : Z) : io srv unit :=
  request ← get_name;
  match List.find (fun h => bool_decide (request = str (rq_ext_name h))) extended_handlers with
  | Some h => serve fuel h id
  | None => send_status id SSH2_FX_OP_UNSUPPORTED
  end.

Definition process_default (fuel : nat) (type id : Z) : io srv unit :=
  match List.find (fun h => type =? rq_type h) handlers with
  | Some h => serve fuel h id
  | None => mret tt
  end.

(** A request other than the first one. *)
Definition after_init (f : Z -> io srv unit) : io srv unit :=
  ok ← reads init_done;
  if (ok : bool) then id ← get sshbuf_get_u32; f id else dies.

Definition process (fuel : nat) : io srv unit :=
  buf_len ← reads (fun s => sshbuf_len (iqueue s));
  if buf_len <? 5 then mret tt
  else
    msg_len ← reads (fun s => PEEK_U32 (default [] (sshbuf_ptr (iqueue s))));
    if msg_len >? SFTP_MAX_MSG_LENGTH then exits 11
    else if buf_len <? u32 (msg_len + 4) then mret tt
    else
      _ ← get (sshbuf_consume 4);
      let buf_len := buf_len - 4 in
      type ← get sshbuf_get_u8;
      _ ← (if type =? SSH2_FXP_INIT then _ ← process_init; updates set_init_done
           else if type =? SSH2_FXP_EXTENDED then after_init (process_extended fuel)
           else after_init (process_default fuel type));
      left ← reads (fun s => sshbuf_len (iqueue s));
      if buf_len <? left then exits 255
      else
        let consumed := buf_len - left in
        if msg_len <? consumed then exits 255
        else if msg_len >? consumed then get (sshbuf_consume (msg_len - consumed)) else mret tt.

(** * The loop *)

Definition LOOP_BUF : Z := 4 * 4096.

(** Whether a buffer has room; another error is fatal. *)
Definition has_room (b : sshbuf) (n : Z) : io srv bool :=
  match sshbuf_check_reserve b n with
  | Ok _ => mret true
  | Err SSH_ERR_NO_BUFFER_SPACE => mret false
  | Err _ => dies
  end.

Definition read_input : io srv unit :=
  r ← call (sys_read_in LOOP_BUF);
  match r with
  | inl _ => exits 1
  | inr [] => exits 0
  | inr data => get (sshbuf_put data)
  end.

Definition write_output (olen : Z) : io srv unit :=
  o ← reads oqueue;
  r ← call (sys_write_out (ztake olen (default [] (sshbuf_ptr o))));
  match r with
  | inl _ => exits 1
  | inr len => fun s =>
      match sshbuf_consume len (oqueue s) with
      | (Ok _, o) => (Ret tt, set_oqueue o s)
      | (Err _, o) => (Exit 255, set_oqueue o s)
      end
  end.

(** One turn of the loop of sftp_server_main. *)
Definition server_turn (fuel : nat) : io srv unit :=
  i ← reads iqueue; o ← reads oqueue;
  room_in ← has_room i LOOP_BUF;
  rd ← (if (room_in : bool) then has_room o SFTP_MAX_MSG_LENGTH else mret false);
  let olen := sshbuf_len o in
  r ← call (sys_select rd (olen >? 0));
  match r with
  | inl e => if e =? EINTR then mret tt else exits 2
  | inr (rset, wset) =>
      _ ← (if rd && rset then read_input else mret tt);
      _ ← (if (olen >? 0) && wset then write_output olen else mret tt);
      o ← reads oqueue;
      room ← has_room o SFTP_MAX_MSG_LENGTH;
      if (room : bool) then process fuel else mret tt
  end.

Fixpoint server_turns (fuel n : nat) : io srv unit :=
  match n with O => mret tt | S n => _ ← server_turn fuel; server_turns fuel n end.

Definition server_init (k : os) : option srv :=
  match sshbuf_new, sshbuf_new with
  | Some i, Some o => Some (mk_srv i o 0 false [] (-1) k [])
  | _, _ => None
  end.

End server.
