(* ===== verification/SftpSafe.v ===== *)
(** Safety of the file transfer server, whatever the client sends and whatever the
    system answers: which calls it makes, on which descriptors, and the form of
    its replies.

    [Inv] holds at every moment.  A request is proved from the rules for the
    commands it is made of; [mid] describes the state before its reply and [fin]
    the state after it. *)

From Stdlib Require Import String.
From stdpp Require Import gmultiset.
From S2P Require Import Prelude Io Sshbuf SshbufGetPut SshbufRead Match SftpCommon Sftp.
Local Open Scope Z_scope.

(** * The calls of a run *)

(** A descriptor: of a file, or a stream of a directory. *)
Abbreviation desc := (Z + Z)%type.

(** The descriptor that a call returns. *)
Definition gains (ev : event) : option desc :=
  match ev with
  | Ev e r =>
      match e in sysE T return T -> option desc with
      | sys_open _ _ _ => fun r => match r with inr fd => Some (inl fd) | inl _ => None end
      | sys_opendir _ => fun r => match r with inr dirp => Some (inr dirp) | inl _ => None end
      | _ => fun _ => None
      end r
  end.

(** The descriptor that a call gives back, also when it reports an error. *)
Definition loses {T} (e : sysE T) : option desc :=
  match e with sys_close fd => Some (inl fd) | sys_closedir dirp => Some (inr dirp) | _ => None end.

(** The descriptor that a call works on. *)
Definition works_on {T} (e : sysE T) : option desc :=
  match e with
  | sys_close fd | sys_lseek fd _ | sys_read fd _ | sys_write fd _ | sys_fstat fd | sys_ftruncate fd _ | sys_fchmod fd _
  | sys_futimes fd _ _ | sys_fchown fd _ _ | sys_fstatvfs fd | sys_fsync fd => Some (inl fd)
  | sys_readdir dirp | sys_closedir dirp => Some (inr dirp)
  | _ => None
  end.

(** Calls that may change the file system. *)
Definition modifies {T} (e : sysE T) : bool :=
  match e with
  | sys_open _ flags _ => negb (Z.land flags O_ACCMODE =? O_RDONLY) || has flags O_CREAT || has flags O_TRUNC
  | sys_write _ _ | sys_truncate _ _ | sys_ftruncate _ _ | sys_chmod _ _ | sys_fchmod _ _ | sys_fchmodat _ _ | sys_utimes _ _ _
  | sys_futimes _ _ _ | sys_utimensat _ _ _ | sys_chown _ _ _ | sys_fchown _ _ _ | sys_fchownat _ _ _ | sys_unlink _ | sys_mkdir _ _
  | sys_rmdir _ | sys_rename _ _ | sys_link _ _ | sys_symlink _ _ | sys_fsync _ => true
  | _ => false
  end.
Definition quiet (ev : event) : Prop := match ev with Ev e _ => modifies e = false end.

Definition one (d : option desc) : gmultiset desc := match d with Some d => {[+ d +]} | None => ∅ end.

(** The descriptors that are open after the calls, the last call first. *)
Fixpoint live (tr : list event) : gmultiset desc :=
  match tr with
  | [] => ∅
  | Ev e r :: tr => one (gains (Ev e r)) ⊎ (live tr ∖ one (loses e))
  end.

(** Every call works on a descriptor that is open. *)
Fixpoint disciplined (tr : list event) : Prop :=
  match tr with
  | [] => True
  | Ev e _ :: tr => (forall d, works_on e = Some d -> d ∈ live tr) /\ disciplined tr
  end.

(** What a call took from the client and gave to it. *)
Definition input_of (ev : event) : list Z :=
  match ev with
  | Ev e r =>
      match e in sysE T return T -> list Z with
      | sys_read_in _ => fun r => match r with inr data => data | inl _ => [] end
      | _ => fun _ => []
      end r
  end.
Definition output_of (ev : event) : list Z :=
  match ev with
  | Ev e r =>
      match e in sysE T return T -> list Z with
      | sys_write_out data => fun r => match r with inr n => ztake n data | inl _ => [] end
      | _ => fun _ => []
      end r
  end.
Fixpoint received (tr : list event) : list Z := match tr with [] => [] | ev :: tr => received tr ++ input_of ev end.
Fixpoint sent (tr : list event) : list Z := match tr with [] => [] | ev :: tr => sent tr ++ output_of ev end.
Definition streams (tr : list event) : list Z * list Z := (received tr, sent tr).

(** * The table of handles *)

Definition held (h : Handle) : option desc :=
  match h_use h with HANDLE_UNUSED => None | HANDLE_DIR => Some (inr (h_dirp h)) | HANDLE_FILE => Some (inl (h_fd h)) end.
Definition owned (hs : list Handle) : gmultiset desc := list_to_set_disj (omap held hs).

(** The list of unused entries that starts at [first]. *)
Inductive chain (hs : list Handle) : Z -> list nat -> Prop :=
| chain_end : chain hs (-1) []
| chain_next i h l : hs !! i = Some h -> h_use h = HANDLE_UNUSED -> chain hs (next_unused h) l -> chain hs (Z.of_nat i) (i :: l).

(** The entries of the list are different and they are all that are unused. *)
Definition free_ok (hs : list Handle) (first : Z) : Prop :=
  exists l, chain hs first l /\ NoDup l /\ forall i h, hs !! i = Some h -> h_use h = HANDLE_UNUSED -> i ∈ l.

Lemma chain_insert hs first l i h : chain hs first l -> i ∉ l -> chain (<[i := h]> hs) first l.
Proof.
  induction 1 as [|j h' l Hj Hu Hc IH]; intros Hi; [constructor|]. rewrite not_elem_of_cons in Hi. destruct Hi as [Hne Hi].
  econstructor; [rewrite list_lookup_insert_ne; done|done|by apply IH].
Qed.

Lemma chain_app hs k first l : chain hs first l -> chain (hs ++ k) first l.
Proof. induction 1 as [|j h' l Hj Hu Hc IH]; [constructor|]. econstructor; [|done..]. by apply lookup_app_l_Some. Qed.

Lemma owned_delete hs i h : hs !! i = Some h -> owned hs = one (held h) ⊎ owned (delete i hs).
Proof.
  intros Hi. unfold owned. rewrite (delete_Permutation hs i h Hi) at 1. change (omap held (h :: ?k)) with (match held h with Some y => y :: omap held k | None => omap held k end).
  destruct (held h); cbn [one]; [by rewrite list_to_set_disj_cons|]. by rewrite (left_id_L ∅ (⊎)).
Qed.

Lemma delete_insert_list {A} (l : list A) i x : (i < length l)%nat -> delete i (<[i := x]> l) = delete i l.
Proof.
  revert l. induction i as [|i IH]; intros [|y l] Hi; cbn in *; [lia|done|lia|]. f_equal. apply IH. lia.
Qed.

Lemma owned_insert hs i h h' : hs !! i = Some h -> owned (<[i := h']> hs) ⊎ one (held h) = owned hs ⊎ one (held h').
Proof.
  intros Hi. assert (i < length hs)%nat as Hl by (by eapply lookup_lt_Some).
  rewrite (owned_delete hs i h Hi), (owned_delete (<[i := h']> hs) i h') by (by apply list_lookup_insert_eq).
  rewrite delete_insert_list by done. multiset_solver.
Qed.

Lemma owned_held hs i h d : hs !! i = Some h -> held h = Some d -> d ∈ owned hs.
Proof. intros Hi Hh. rewrite (owned_delete hs i h Hi), Hh. cbn [one]. multiset_solver. Qed.

Lemma owned_app hs h : owned (hs ++ [h]) = owned hs ⊎ one (held h).
Proof. unfold owned. rewrite omap_app, list_to_set_disj_app. f_equal. change (omap held [h]) with (match held h with Some y => [y] | None => [] end).
  destruct (held h) as [d|]; cbn [one]; [|done]. rewrite list_to_set_disj_cons, list_to_set_disj_nil. multiset_solver. Qed.

Lemma ms_shift (X Y : gmultiset desc) d : one (Some d) ⊎ X ⊆ Y -> one None ⊎ (X ⊎ one (Some d)) ⊆ Y.
Proof. cbn [one]. multiset_solver. Qed.

(** An entry becomes unused. *)
Lemma free_ok_unused hs first i h :
  free_ok hs first -> hs !! i = Some h -> h_use h <> HANDLE_UNUSED ->
  free_ok (<[i := set_unused first h]> hs) (Z.of_nat i) /\ owned (<[i := set_unused first h]> hs) ⊎ one (held h) = owned hs.
Proof.
  intros (l & Hc & Hn & Ha) Hi Hu. assert (i < length hs)%nat as Hl by (by eapply lookup_lt_Some).
  assert (i ∉ l) as Hnot.
  { clear Hn Ha. induction Hc as [|j h' l Hj Hu' Hc IH]; [set_solver|]. rewrite not_elem_of_cons. split; [congruence|done]. }
  split.
  - exists (i :: l). split; [|split; [by constructor|]].
    + econstructor; [by apply list_lookup_insert_eq|done|]. by apply chain_insert.
    + intros j h' Hj Hu'. destruct (decide (j = i)) as [->|Hne]; [set_solver|]. rewrite list_lookup_insert_ne in Hj by done. rewrite elem_of_cons. eauto.
  - rewrite (owned_insert hs i h (set_unused first h) Hi). cbn [one held set_unused h_use]. multiset_solver.
Qed.

(** The first unused entry is taken. *)
Lemma free_ok_take hs i h h' :
  free_ok hs (Z.of_nat i) -> hs !! i = Some h -> h_use h' <> HANDLE_UNUSED ->
  free_ok (<[i := h']> hs) (next_unused h) /\ owned (<[i := h']> hs) = owned hs ⊎ one (held h').
Proof.
  intros (l & Hc & Hn & Ha) Hi Hu. assert (i < length hs)%nat as Hl by (by eapply lookup_lt_Some).
  inversion Hc as [E|j h0 l0 Hj Hu0 Hc0 E El]; [lia|]. subst l. assert (j = i) as -> by lia. assert (h0 = h) as -> by congruence.
  apply NoDup_cons in Hn as [Hni Hn]. split.
  - exists l0. split; [by apply chain_insert|]. split; [done|]. intros k hk Hk Hku.
    destruct (decide (k = i)) as [->|Hne]; [rewrite list_lookup_insert_eq in Hk by done; congruence|].
    rewrite list_lookup_insert_ne in Hk by done. specialize (Ha k hk Hk Hku). set_solver.
  - pose proof (owned_insert hs i h h' Hi) as Ho. unfold held in Ho at 1. rewrite Hu0 in Ho. cbn [one] in Ho. multiset_solver.
Qed.

(** A new entry at the end. *)
Lemma free_ok_grow hs h :
  free_ok hs (-1) -> free_ok (hs ++ [set_unused (-1) h]) (Z.of_nat (length hs)) /\ owned (hs ++ [set_unused (-1) h]) = owned hs.
Proof.
  intros (l & Hc & Hn & Ha). inversion Hc as [E|? ? ? ? ? ? E]; [|lia]. subst l. split.
  - exists [length hs]. split; [|split; [apply NoDup_singleton|]].
    + econstructor; [by apply list_lookup_middle|done|constructor].
    + intros j h' Hj Hu. apply lookup_app_Some in Hj as [Hj|[Hle Hj]]; [exfalso; specialize (Ha j h' Hj Hu); set_solver|].
      destruct (j - length hs)%nat as [|m] eqn:Em; [|done]. assert (j = length hs) as -> by lia. set_solver.
  - rewrite owned_app. cbn [one held set_unused h_use]. multiset_solver.
Qed.

(** * Rules *)

Lemma skip_extended_takes `{Allocator} fuel count : takes (skip_extended fuel count).
Proof. revert count. induction fuel as [|fuel IH]; intros count; cbn; take_all. Qed.

Lemma decode_fields_takes : takes decode_fields.
Proof. unfold decode_fields. take_all. Qed.

Lemma decode_attrib_takes `{Allocator} b a b' : readable b -> decode_attrib b = (Ret (Ok a), b') -> readable b' /\ exists e, contents b = e ++ contents b'.
Proof.
  intros Hr. unfold decode_attrib, mbind, io_bind, attempt. destruct (decode_fields b) as [[x|e] b1] eqn:E1; [|done].
  destruct (decode_fields_takes _ _ _ Hr E1) as (Hr1 & e1 & _ & Hc1). destruct (has _ _); [|intros [= <- <-]; eauto].
  destruct (sshbuf_get_u32 b1) as [[count|e] b2] eqn:E2; [|done]. destruct (yields_takes _ _ get_u32_yields _ _ _ Hr1 E2) as (Hr2 & e2 & _ & Hc2). cbn.
  destruct (skip_extended _ _ b2) as [[[]|e] b3] eqn:E3; [|done]. destruct (skip_extended_takes _ _ _ _ _ Hr2 E3) as (Hr3 & e3 & _ & Hc3).
  intros [= <- <-]. split; [done|]. exists (e1 ++ e2 ++ e3). by rewrite Hc1, Hc2, Hc3, <- !app_assoc.
Qed.

Lemma encode_attrib_builds `{Allocator} a : builds_some (encode_attrib a).
Proof. unfold encode_attrib. build_all. Qed.
#[export] Hint Resolve encode_attrib_builds : builds.
Lemma put_stats_builds `{Allocator} l : builds_some (put_stats l).
Proof. induction l; cbn; build_all. Qed.
Lemma put_u64s_builds `{Allocator} l : builds_some (put_u64s l).
Proof. induction l; cbn; build_all. Qed.
Lemma put_extensions_builds `{Allocator} l : builds_some (put_extensions l).
Proof. induction l as [|[n v] l IH]; cbn; build_all. Qed.
#[export] Hint Resolve put_stats_builds put_u64s_builds put_extensions_builds : builds.

(** * What the server relies on *)

(** [errno] of a call that failed. *)
Definition failed (ev : event) : option Z :=
  match ev with
  | Ev e r =>
      match e in sysE T return T -> option Z with
      | sys_open _ _ _ | sys_opendir _ => fun r => match r with inl err => Some err | inr _ => None end
      | sys_read _ _ => fun r => match r with inl err => Some err | inr _ => None end
      | sys_stat _ | sys_lstat _ | sys_fstat _ => fun r => match r with inl err => Some err | inr _ => None end
      | sys_lseek _ _ => fun r => r
      | _ => fun _ => None
      end r
  end.

(** The documented behaviour of the system that the replies depend on: a call that
    fails sets [errno], what is read from the client are bytes and a write does not
    report more than it was given. *)
Class OSLaws `{OS} : Prop := {
  errno_set : forall T (e : sysE T) k, failed (Ev e (sys e k).1) <> Some 0;
  input_bytes : forall n k data k', sys (sys_read_in n) k = (inr data, k') -> bytes_ok data;
  output_count : forall data k n k', sys (sys_write_out data) k = (inr n, k') -> 0 <= n <= zlen data
}.

(** * Weakest preconditions *)

Section safe.
Context `{Allocator} `{OS} `{!OSLaws} `{SftpArgs}.

(** The calls of a run are as promised. *)
Record safe_calls (tr : list event) : Prop := {
  calls_open : disciplined tr;
  calls_quiet : sftp_readonly = true -> Forall quiet tr
}.

(** The accesses outside of an array that the code allows: a table of 2^31
    handles, or a user or group name for which memory was missing. *)
Definition nameless (ev : event) : Prop :=
  match ev with
  | Ev e r =>
      match e in sysE T return T -> Prop with
      | sys_user_from_uid _ | sys_group_from_gid _ => fun r => r = None
      | _ => fun _ => False
      end r
  end.
Definition cause (s : srv) : Prop := 2 ^ 31 <= num_handles s \/ Exists nameless (calls s).

Record Inv (s : srv) : Prop := {
  inv_calls : safe_calls (calls s);
  inv_in : readable (iqueue s);
  inv_out : buf_wf (oqueue s);
  inv_free : free_ok (handles s) (first_unused_handle s);
  inv_owned : owned (handles s) ⊆ live (calls s)
}.

(** If the command returns then the state satisfies [Q]; in any case the calls are
    safe. *)
Definition ends {A} (Q : A -> srv -> Prop) (r : ending A) (s : srv) : Prop :=
  match r with
  | Ret a => Q a s
  | Segv => safe_calls (calls s) /\ cause s
  | Exit _ | NoFuel => safe_calls (calls s)
  end.
Definition wpi {A} (m : io srv A) (Q : A -> srv -> Prop) (s : srv) : Prop := let '(r, s') := m s in ends Q r s'.

Lemma wpi_ret {A} (a : A) (Q : A -> srv -> Prop) s : Q a s -> wpi (mret a) Q s.
Proof. done. Qed.
Lemma wpi_bind {A B} (m : io srv A) (f : A -> io srv B) Q s : wpi m (fun a => wpi (f a) Q) s -> wpi (m ≫= f) Q s.
Proof. unfold wpi, mbind, io_bind. by destruct (m s) as [[a|c| |] s']. Qed.
Lemma wpi_fmap {A B} (f : A -> B) (m : io srv A) Q s : wpi m (fun a => Q (f a)) s -> wpi (f <$> m) Q s.
Proof. intros Hm. apply wpi_bind. exact Hm. Qed.
Lemma wpi_mono {A} (m : io srv A) (P Q : A -> srv -> Prop) s : wpi m P s -> (forall a s', P a s' -> Q a s') -> wpi m Q s.
Proof. unfold wpi. destruct (m s) as [[a|c| |] s']; cbn; auto. Qed.
Lemma wpi_reads {A} (f : srv -> A) (Q : A -> srv -> Prop) s : Q (f s) s -> wpi (reads f) Q s.
Proof. done. Qed.
Lemma wpi_updates f (Q : unit -> srv -> Prop) s : Q tt (f s) -> wpi (updates f) Q s.
Proof. done. Qed.

(** ** States inside of a request *)

(** Before the reply to a request that started in [s0]: [spare] is a descriptor
    that is not in the table [hs] yet. *)
Record mid (s0 : srv) (spare : option desc) (hs : list Handle) (s : srv) : Prop := {
  mid_calls : safe_calls (calls s);
  mid_in : readable (iqueue s);
  mid_out : buf_wf (oqueue s);
  mid_handles : handles s = hs;
  mid_free : free_ok hs (first_unused_handle s);
  mid_owned : one spare ⊎ owned hs ⊆ live (calls s);
  mid_sent : contents (oqueue s) = contents (oqueue s0);
  mid_read : exists e, contents (iqueue s0) = e ++ contents (iqueue s);
  mid_streams : streams (calls s) = streams (calls s0)
}.

(** After the reply [v]. *)
Record fin (s0 : srv) (v : list Z) (s : srv) : Prop := {
  fin_inv : Inv s;
  fin_sent : contents (oqueue s) = contents (oqueue s0) ++ enc_string v;
  fin_read : exists e, contents (iqueue s0) = e ++ contents (iqueue s);
  fin_streams : streams (calls s) = streams (calls s0)
}.

Lemma mid_start s : Inv s -> mid s None (handles s) s.
Proof. intros []. split; try done; [multiset_solver|by exists []]. Qed.

Lemma mid_inv s0 hs s : mid s0 None hs s -> Inv s.
Proof. intros []. subst. split; try done. multiset_solver. Qed.

Lemma wpi_exits {A} s0 sp hs c (Q : A -> srv -> Prop) s : mid s0 sp hs s -> wpi (exits c) Q s.
Proof. intros []. done. Qed.

Lemma wpi_no_fuel {A} s0 sp hs (Q : A -> srv -> Prop) s : mid s0 sp hs s -> wpi no_fuel Q s.
Proof. intros []. done. Qed.

Lemma wpi_alloc s0 sp hs n (Q : unit -> srv -> Prop) s : mid s0 sp hs s -> Q tt s -> wpi (alloc_or_die n) Q s.
Proof. intros Hm Hq. unfold alloc_or_die. destruct (malloc_ok n); [done|by eapply wpi_exits]. Qed.

Lemma wpi_xstrdup_io s0 sp hs t (Q : cstring -> srv -> Prop) s : mid s0 sp hs s -> Q t s -> wpi (xstrdup_io t) Q s.
Proof. intros Hm Hq. unfold xstrdup_io. destruct (malloc_ok _); [done|by eapply wpi_exits]. Qed.

(** A read of the input queue. *)
Lemma wpi_get {A} s0 sp hs (m : SE sshbuf A) enc (Q : A -> srv -> Prop) s :
  yields m enc -> mid s0 sp hs s -> (forall a s', mid s0 sp hs s' -> Q a s') -> wpi (get m) Q s.
Proof.
  intros Hy Hm HQ. unfold wpi, get, from_in, attempt. destruct (m (iqueue s)) as [[a|e] b] eqn:E; cbn; [|apply Hm].
  apply HQ. destruct (Hy _ _ _ (mid_in _ _ _ _ Hm) E) as (Hr & e & _ & Hc). destruct Hm as [? ? ? ? ? ? ? [e0 Hc0] ?]. split; try done.
  exists (e0 ++ e). cbn. by rewrite Hc0, Hc, app_assoc.
Qed.

Lemma wpi_get_name s0 sp hs (Q : cstring -> srv -> Prop) s : mid s0 sp hs s -> (forall a s', mid s0 sp hs s' -> Q a s') -> wpi get_name Q s.
Proof. intros Hm HQ. apply wpi_fmap. eapply wpi_get; [apply get_cstring_yields|done|auto]. Qed.

Lemma wpi_get_attrib s0 sp hs (Q : Attrib -> srv -> Prop) s : mid s0 sp hs s -> (forall a s', mid s0 sp hs s' -> Q a s') -> wpi get_attrib Q s.
Proof.
  intros Hm HQ. unfold wpi, get_attrib, from_in. destruct (decode_attrib (iqueue s)) as [[[a|e]|c| |] b] eqn:E; cbn; try apply Hm.
  - apply HQ. destruct (decode_attrib_takes _ _ _ (mid_in _ _ _ _ Hm) E) as (Hr & e & Hc). destruct Hm as [? ? ? ? ? ? ? [e0 Hc0] ?]. split; try done.
    exists (e0 ++ e). cbn. by rewrite Hc0, Hc, app_assoc.
  - exfalso. revert E. unfold decode_attrib, mbind, io_bind, attempt. destruct (decode_fields _) as [[x|?] b1]; [|done]. destruct (has _ _); [|done].
    destruct (sshbuf_get_u32 b1) as [[?|?] b2]; [|done]. cbn. by destruct (skip_extended _ _ b2) as [[[]|?] b3].
Qed.

Lemma wpi_get_handle s0 sp hs (Q : Z -> srv -> Prop) s : mid s0 sp hs s -> (forall a s', mid s0 sp hs s' -> Q a s') -> wpi get_handle Q s.
Proof. intros Hm HQ. apply wpi_bind. eapply wpi_get; [apply get_string_yields|done|]. intros a s' Hm'. apply wpi_reads. auto. Qed.

(** A call that is not about the client. *)
Lemma streams_private ev tr x : (input_of ev = [] /\ output_of ev = []) -> streams tr = x -> streams (ev :: tr) = x.
Proof. intros [Hi Ho] <-. unfold streams. cbn [received sent]. by rewrite Hi, Ho, !app_nil_r. Qed.

(** A call that gives nothing back. *)
Lemma wpi_call {T} s0 hs (e : sysE T) (Q : T -> srv -> Prop) s :
  mid s0 None hs s -> loses e = None -> (forall d, works_on e = Some d -> d ∈ owned hs) -> (sftp_readonly = true -> modifies e = false) ->
  (forall r, input_of (Ev e r) = [] /\ output_of (Ev e r) = []) ->
  (forall r s', mid s0 (gains (Ev e r)) hs s' -> failed (Ev e r) <> Some 0 -> calls s' = Ev e r :: calls s -> Q r s') -> wpi (call e) Q s.
Proof.
  intros [[Hd Hq] ? ? ? ? Ho ? ? Hst] Hl Hw Hr Hp HQ. unfold wpi, call. pose proof (errno_set T e (kernel s)) as Herr. destruct (sys e (kernel s)) as [r k]. apply HQ; [|exact Herr|done].
  split; try done.
  - split; cbn; [split; [|done]|].
    + intros d Hd'. specialize (Hw d Hd'). multiset_solver.
    + intros Hro. constructor; [by apply Hr|by apply Hq].
  - cbn [live calls set_kernel]. rewrite Hl. cbn [one]. multiset_solver.
  - by apply streams_private.
Qed.

(** The reply. *)
Lemma wpi_reply s0 hs m v (Q : unit -> srv -> Prop) s :
  mid s0 None hs s -> builds m v -> (forall s', fin s0 v s' -> Q tt s') -> wpi (reply m) Q s.
Proof.
  intros Hm Hb HQ. unfold wpi, reply. destruct sshbuf_new as [b|] eqn:En; [|apply Hm]. destruct (sshbuf_new_spec b En) as (Hw & Hc & _).
  destruct (m b) as [[[]|e] msg] eqn:Em; [|apply Hm]. destruct (builds_wf _ _ _ _ Hb Hw Em) as [Hw' Hc']. rewrite Hc, app_nil_l in Hc'.
  unfold sshbuf_put_stringb. rewrite sshbuf_ptr_wf, sshbuf_len_wf by done. cbn [default from_option id]. rewrite ztake_ge by done. rewrite Hc'.
  destruct (sshbuf_put_string v (oqueue s)) as [[[]|e] o] eqn:Eo; cbn; [|apply Hm].
  destruct (builds_wf _ _ _ _ (put_string_builds v) (mid_out _ _ _ _ Hm) Eo) as [Hwo Hco]. apply HQ. pose proof (mid_inv _ _ _ Hm) as []. destruct Hm. split; [by split|..]; cbn; [rewrite Hco; by f_equal|done|done].
Qed.

(** A reply to request [id] of type [t], or a status. *)
Definition reply_ok (t id : Z) (v : list Z) : Prop := exists ty body, v = ty :: POKE_U32 id ++ body /\ (ty = t \/ ty = SSH2_FXP_STATUS).
Definition answered (t id : Z) (s0 s : srv) : Prop := exists v, fin s0 v s /\ reply_ok t id v.

Lemma wpi_answer s0 hs t ty id m (Q : unit -> srv -> Prop) s :
  mid s0 None hs s -> ty = t \/ ty = SSH2_FXP_STATUS -> builds_some m -> (forall s', answered t id s0 s' -> Q tt s') ->
  wpi (reply (_ ← sshbuf_put_u8 ty; _ ← sshbuf_put_u32 id; m)) Q s.
Proof.
  intros Hm Ht [v Hv] HQ. eapply wpi_reply; [exact Hm| |].
  - apply builds_bind; [apply put_u8_builds|]. apply builds_bind; [apply put_u32_builds|exact Hv].
  - intros s' Hf. apply HQ. eexists. split; [exact Hf|]. exists ty, v. done.
Qed.

Lemma wpi_send_status s0 hs t id status (Q : unit -> srv -> Prop) s :
  mid s0 None hs s -> (forall s', answered t id s0 s' -> Q tt s') -> wpi (send_status id status) Q s.
Proof.
  intros Hm HQ. apply wpi_bind, wpi_reads. eapply wpi_answer; [exact Hm|by right| |exact HQ].
  build_all.
Qed.

Lemma wpi_send_data s0 hs id data (Q : unit -> srv -> Prop) s :
  mid s0 None hs s -> (forall s', answered SSH2_FXP_DATA id s0 s' -> Q tt s') -> wpi (send_data id data) Q s.
Proof. intros Hm HQ. eapply wpi_answer; [exact Hm|by left| |exact HQ]. build_all. Qed.

Lemma wpi_send_handle s0 hs id h (Q : unit -> srv -> Prop) s :
  mid s0 None hs s -> (forall s', answered SSH2_FXP_HANDLE id s0 s' -> Q tt s') -> wpi (send_handle id h) Q s.
Proof. intros Hm HQ. apply wpi_bind. eapply wpi_alloc; [exact Hm|]. eapply wpi_answer; [exact Hm|by left| |exact HQ]. build_all. Qed.

Lemma wpi_send_names s0 hs id l (Q : unit -> srv -> Prop) s :
  mid s0 None hs s -> (forall s', answered SSH2_FXP_NAME id s0 s' -> Q tt s') -> wpi (send_names id l) Q s.
Proof. intros Hm HQ. eapply wpi_answer; [exact Hm|by left| |exact HQ]. build_all. Qed.

Lemma wpi_send_attrib s0 hs id a (Q : unit -> srv -> Prop) s :
  mid s0 None hs s -> (forall s', answered SSH2_FXP_ATTRS id s0 s' -> Q tt s') -> wpi (send_attrib id a) Q s.
Proof. intros Hm HQ. eapply wpi_answer; [exact Hm|by left| |exact HQ]. build_all. Qed.

Lemma wpi_send_statvfs s0 hs id st (Q : unit -> srv -> Prop) s :
  mid s0 None hs s -> (forall s', answered SSH2_FXP_EXTENDED_REPLY id s0 s' -> Q tt s') -> wpi (send_statvfs id st) Q s.
Proof. intros Hm HQ. eapply wpi_answer; [exact Hm|by left| |exact HQ]. build_all. Qed.

(** ** Handles *)

Lemma handle_to_fd_owned s handle fd : handle_to_fd s handle = fd -> 0 <= fd -> inl fd ∈ owned (handles s).
Proof.
  unfold handle_to_fd, handle_is_ok, field_of. intros E Hfd. destruct (handles s !! Z.to_nat handle) as [h|] eqn:Eh; [|rewrite andb_false_r in E; lia].
  destruct (_ && _) eqn:Ec; [|lia]. apply andb_prop in Ec as [_ Ec]. apply bool_decide_eq_true in Ec.
  eapply owned_held; [exact Eh|]. unfold held. rewrite Ec. congruence.
Qed.

Lemma handle_to_dir_owned s handle d : handle_to_dir s handle = Some d -> inr d ∈ owned (handles s).
Proof.
  unfold handle_to_dir, handle_is_ok, field_of. intros E. destruct (handles s !! Z.to_nat handle) as [h|] eqn:Eh; [|by rewrite andb_false_r in E].
  destruct (_ && _) eqn:Ec; [|done]. apply andb_prop in Ec as [_ Ec]. apply bool_decide_eq_true in Ec.
  eapply owned_held; [exact Eh|]. unfold held. rewrite Ec. congruence.
Qed.

Lemma handle_is_ok_inv s i u : handle_is_ok s i u = true -> 0 <= i /\ exists h, handles s !! Z.to_nat i = Some h /\ h_use h = u.
Proof.
  unfold handle_is_ok. intros E. destruct (handles s !! Z.to_nat i) as [h|]; [|by rewrite andb_false_r in E].
  apply andb_prop in E as [[E _]%andb_prop E']. apply bool_decide_eq_true in E'. split; [lia|]. eauto.
Qed.

(** A descriptor that the table holds, or a spare one, is closed. *)
Lemma close_step {T} s0 sp hs hs' (e : sysE T) d r s :
  mid s0 sp hs s -> loses e = Some d -> works_on e = Some d -> modifies e = false -> gains (Ev e r) = None ->
  one (Some d) ⊎ owned hs' = one sp ⊎ owned hs ->
  safe_calls (Ev e r :: calls s) /\ owned hs' ⊆ live (Ev e r :: calls s).
Proof.
  intros [[Hd Hq] ? ? ? ? Ho ? ? ?] Hl Hw Hr Hg Heq. rewrite <- Heq in Ho. split; [split|].
  - cbn. rewrite Hw. split; [|done]. intros d' [= <-]. multiset_solver.
  - intros Hro. constructor; [done|by apply Hq].
  - cbn. cbn in Hg. rewrite Hg, Hl. cbn [one] in *. multiset_solver.
Qed.

Lemma wpi_close_spare {T} s0 hs (e : sysE T) d (Q : T -> srv -> Prop) s :
  mid s0 (Some d) hs s -> loses e = Some d -> works_on e = Some d -> modifies e = false -> (forall r, gains (Ev e r) = None) ->
  (forall r, input_of (Ev e r) = [] /\ output_of (Ev e r) = []) -> (forall r s', mid s0 None hs s' -> Q r s') -> wpi (call e) Q s.
Proof.
  intros Hm Hl Hw Hr Hg Hp HQ. unfold wpi, call. destruct (sys e (kernel s)) as [r k]. apply HQ.
  destruct (close_step s0 (Some d) hs hs e d r s Hm Hl Hw Hr (Hg r) eq_refl) as [Hs Ho]. destruct Hm. split; try done; [cbn [one] in *; multiset_solver|by apply streams_private].
Qed.

Lemma wpi_handle_close s0 hs handle (Q : option Z -> srv -> Prop) s :
  mid s0 None hs s -> (forall r hs' s', mid s0 None hs' s' -> Q r s') -> wpi (handle_close handle) Q s.
Proof.
  intros Hm HQ. unfold handle_close. apply wpi_bind, wpi_reads, wpi_bind, wpi_reads.
  assert (forall (e : Handle -> sysE (option Z)) u (d : Handle -> desc),
    (forall h, h_use h = u -> held h = Some (d h)) -> (forall h, loses (e h) = Some (d h) /\ works_on (e h) = Some (d h) /\ modifies (e h) = false /\ forall r, gains (Ev (e h) r) = None /\ input_of (Ev (e h) r) = [] /\ output_of (Ev (e h) r) = []) ->
    u <> HANDLE_UNUSED -> handle_is_ok s handle u = true -> wpi (h ← handle_at handle; ret ← call (e h); _ ← handle_unused handle; mret ret) Q s) as Hclose.
  { intros e u d Hd He Hu Hok. apply handle_is_ok_inv in Hok as (Hi & h & Eh & Eu). destruct (He h) as (Hl & Hw & Hr & Hg).
    unfold wpi, mbind, io_bind, handle_at. rewrite (proj2 (Z.ltb_ge _ _) Hi), Eh. unfold call. destruct (sys (e h) (kernel s)) as [r k].
    unfold handle_unused, mbind, io_bind, handle_at. rewrite (proj2 (Z.ltb_ge _ _) Hi). cbn [handles set_kernel]. rewrite Eh. apply (HQ r (<[Z.to_nat handle:=set_unused (first_unused_handle s) h]> hs)).
    pose proof (mid_handles _ _ _ _ Hm) as Ehs. rewrite Ehs in Eh.
    destruct (free_ok_unused hs _ _ _ (mid_free _ _ _ _ Hm) Eh ltac:(congruence)) as [Hf Ho]. rewrite (Hd h Eu) in Ho.
    destruct (close_step s0 None hs (<[Z.to_nat handle:=set_unused (first_unused_handle s) h]> hs) (e h) (d h) r s Hm Hl Hw Hr (proj1 (Hg r))) as [Hs Hown].
    { cbn [one] in *. multiset_solver. }
    rewrite Z2Nat.id in Hf by lia. rewrite <- Ehs in Hf. rewrite <- Ehs. destruct Hm as [? ? ? ? ? ? ? ? ?]. split; [exact Hs|assumption|assumption|reflexivity|exact Hf| |assumption|assumption|apply streams_private; [apply Hg|done]].
    rewrite Ehs. cbn [one calls set_handles set_kernel]. clear -Hown. multiset_solver. }
  destruct (handle_is_ok s handle HANDLE_FILE) eqn:Ef.
  { eapply (Hclose (fun h => sys_close (h_fd h)) HANDLE_FILE (fun h => inl (h_fd h))); [by intros h E; unfold held; rewrite E|done..]. }
  destruct (handle_is_ok s handle HANDLE_DIR) eqn:Edir; [|apply wpi_ret; by eapply HQ].
  eapply (Hclose (fun h => sys_closedir (h_dirp h)) HANDLE_DIR (fun h => inr (h_dirp h))); [by intros h E; unfold held; rewrite E|done..].
Qed.

Definition grow_table (n : Z) : io srv unit :=
  _ ← alloc_or_die ((n + 1) * SIZEOF_HANDLE);
  _ ← updates (fun s => set_handles (handles s ++ [fresh_handle]) (first_unused_handle s) s);
  handle_unused (i32 n).

Lemma wpi_grow s0 sp hs n (Q : unit -> srv -> Prop) s :
  mid s0 sp hs s -> first_unused_handle s = -1 -> n = zlen hs -> n < 2 ^ 32 - 1 ->
  (forall hs' s', mid s0 sp hs' s' -> first_unused_handle s' <> -1 -> Q tt s') -> wpi (grow_table n) Q s.
Proof.
  intros Hm Hfirst -> Hn HQ. apply wpi_bind. eapply wpi_alloc; [exact Hm|]. apply wpi_bind, wpi_updates.
  pose proof (mid_handles _ _ _ _ Hm) as Ehs. pose proof (zlen_nonneg hs) as Hnn. unfold wpi, handle_unused, mbind, io_bind, handle_at, i32.
  destruct (Z.lt_ge_cases (zlen hs) (2 ^ 31)) as [Hlt|Hge].
  - rewrite Z.mod_small by lia. replace (zlen hs + 2 ^ 31 - 2 ^ 31) with (zlen hs) by lia. rewrite (proj2 (Z.ltb_ge _ _) Hnn). cbn [handles set_handles].
    rewrite Ehs. assert (Z.to_nat (zlen hs) = length hs) as El by (unfold zlen; lia). rewrite El, list_lookup_middle by done.
    pose proof (mid_free _ _ _ _ Hm) as Hf. rewrite Hfirst in Hf. destruct (free_ok_grow hs fresh_handle Hf) as [Hf' Ho].
    apply (HQ (hs ++ [set_unused (-1) fresh_handle])); [|cbn; lia]. cbn. rewrite El, Hfirst, insert_app_r_alt, Nat.sub_diag by lia. cbn [insert list_insert].
    destruct Hm as [? ? ? ? ? Hown ? ? ?]. split; [assumption..|reflexivity|exact Hf'| |assumption|assumption|assumption]. rewrite Ho. exact Hown.
  - replace (zlen hs + 2 ^ 31) with (zlen hs - 2 ^ 31 + 1 * 2 ^ 32) by lia. rewrite Z.mod_add, Z.mod_small by lia.
    rewrite (proj2 (Z.ltb_lt _ _)) by lia. split; [apply Hm|]. left. unfold num_handles. cbn. rewrite Ehs, zlen_app. change (zlen [fresh_handle]) with 1. lia.
Qed.

Definition take_handle (use : handle_use) (name : cstring) (fd flags dirp : Z) : io srv Z :=
  i ← reads first_unused_handle;
  h ← handle_at i;
  _ ← set_first_unused (next_unused h);
  name ← xstrdup_io name;
  _ ← store_handle i (mk_handle use dirp fd flags name 0 0 (next_unused h));
  mret i.

Lemma wpi_take s0 d hs use name fd flags dirp (Q : Z -> srv -> Prop) s :
  mid s0 (Some d) hs s -> first_unused_handle s <> -1 -> use <> HANDLE_UNUSED ->
  (forall nm nx, held (mk_handle use dirp fd flags nm 0 0 nx) = Some d) ->
  (forall i hs' s', 0 <= i -> mid s0 None hs' s' -> Q i s') -> wpi (take_handle use name fd flags dirp) Q s.
Proof.
  intros Hm Hfirst Hu Hd HQ. apply wpi_bind, wpi_reads. pose proof (mid_handles _ _ _ _ Hm) as Ehs. pose proof (mid_free _ _ _ _ Hm) as Hf.
  assert (exists i h, first_unused_handle s = Z.of_nat i /\ hs !! i = Some h) as (i & h & Ei & Eh).
  { destruct Hf as (l & Hc & _). inversion Hc as [E|i h l0 Hi _ _ E]; [congruence|eauto]. }
  rewrite Ei in *. apply wpi_bind. unfold wpi at 1, handle_at. rewrite (proj2 (Z.ltb_ge _ _)), Nat2Z.id, Ehs, Eh by lia. cbn [ends].
  apply wpi_bind, wpi_updates, wpi_bind. unfold xstrdup_io. destruct (malloc_ok _); [|apply Hm]. apply wpi_ret, wpi_bind, wpi_updates, wpi_ret.
  cbn. rewrite Nat2Z.id, Ehs. destruct (free_ok_take hs i h (mk_handle use dirp fd flags name 0 0 (next_unused h)) Hf Eh Hu) as [Hf' Ho].
  apply (HQ _ (<[i := mk_handle use dirp fd flags name 0 0 (next_unused h)]> hs)); [lia|]. destruct Hm as [? ? ? ? ? Hown ? ? ?]. split; [assumption..|reflexivity|exact Hf'| |assumption|assumption|assumption].
  rewrite Ho, Hd. by apply ms_shift.
Qed.

Lemma wpi_handle_new s0 d hs use name fd flags dirp (Q : Z -> srv -> Prop) s :
  mid s0 (Some d) hs s -> use <> HANDLE_UNUSED -> (forall nm nx, held (mk_handle use dirp fd flags nm 0 0 nx) = Some d) ->
  (forall s', mid s0 (Some d) hs s' -> Q (-1) s') -> (forall i hs' s', 0 <= i -> mid s0 None hs' s' -> Q i s') ->
  wpi (handle_new use name fd flags dirp) Q s.
Proof.
  intros Hm Hu Hd Hneg HQ. unfold handle_new. apply wpi_bind, wpi_reads, wpi_bind, wpi_reads. unfold num_handles. rewrite (mid_handles _ _ _ _ Hm).
  destruct (Z.eqb_spec (first_unused_handle s) (-1)) as [Hf|Hf]; [|apply wpi_bind, wpi_ret; by eapply (wpi_take s0 d hs)].
  destruct (Z.leb_spec (u32 (zlen hs + 1)) (zlen hs)) as [Hle|Hgt]; [apply wpi_ret; by apply Hneg|].
  assert (zlen hs < 2 ^ 32 - 1) as Hn.
  { pose proof (u32_range (zlen hs + 1)). unfold u32 in Hgt. destruct (Z.lt_ge_cases (zlen hs) (2 ^ 32 - 1)) as [?|Hge]; [done|].
    destruct (Z.eq_dec (zlen hs) (2 ^ 32 - 1)) as [E|]; [rewrite E in Hgt; vm_compute in Hgt; done|unfold u32 in *; lia]. }
  apply wpi_bind. apply (wpi_grow s0 (Some d) hs (zlen hs)); [done..|]. intros hs' s' Hm' Hf'. by eapply (wpi_take s0 d hs').
Qed.
End safe.
