(* ===== verification/SftpServe.v ===== *)
(** Every request of the file transfer server: the calls it makes are allowed, the
    table of handles stays consistent and, when the request returns, one reply
    with its number was added to the output. *)

From Stdlib Require Import String.
From stdpp Require Import gmultiset.
From S2P Require Import Prelude Io Sshbuf SshbufGetPut SshbufRead Match SftpCommon Sftp SftpSafe.
Local Open Scope Z_scope.

Lemma errno_ok e : errno_to_portable e = SSH2_FX_OK -> e = 0.
Proof. unfold errno_to_portable. destruct (Z.eqb_spec e 0); [done|]. repeat case_match; done. Qed.

(** The access of a file that is opened with portable flags. *)
Lemma bits_lor f a b : has f (Z.lor a b) = has f a || has f b.
Proof.
  unfold has. rewrite Z.land_lor_distr_r. destruct (Z.eqb_spec (Z.land f a) 0) as [->|Ha]; [done|]. cbn.
  destruct (Z.eqb_spec (Z.lor (Z.land f a) (Z.land f b)) 0) as [E|]; [|done]. apply Z.lor_eq_0_iff in E as [? _]. done.
Qed.

Section serve.
Context `{Allocator} `{OS} `{!OSLaws} `{SftpArgs}.

Lemma wpi_unless_ok s0 hs t id status (Q : unit -> srv -> Prop) s :
  mid s0 None hs s -> status <> SSH2_FX_OK -> (forall s', answered t id s0 s' -> Q tt s') -> wpi (unless_ok id status) Q s.
Proof. intros Hm Hs HQ. unfold unless_ok. rewrite (proj2 (Z.eqb_neq _ _) Hs). by eapply wpi_send_status. Qed.

Lemma wpi_sent_ok id (Q : unit -> srv -> Prop) s : Q tt s -> wpi (unless_ok id SSH2_FX_OK) Q s.
Proof. done. Qed.

(** Counting bytes does not change what the table holds. *)
Lemma chain_same hs hs' first l :
  chain hs first l -> (forall i h, hs !! i = Some h -> exists h', hs' !! i = Some h' /\ h_use h' = h_use h /\ next_unused h' = next_unused h) -> chain hs' first l.
Proof.
  intros Hc Hs. induction Hc as [|i h l Hi Hu Hc IH]; [constructor|]. destruct (Hs i h Hi) as (h' & Hi' & Eu & En).
  econstructor; [exact Hi'|congruence|by rewrite En].
Qed.

Lemma table_same hs i h h' first :
  hs !! i = Some h -> h_use h' = h_use h -> next_unused h' = next_unused h -> held h' = held h ->
  free_ok hs first -> free_ok (<[i := h']> hs) first /\ owned (<[i := h']> hs) = owned hs.
Proof.
  intros Eh Fu Fn Fh (l & Hc & Hn & Ha). assert (i < length hs)%nat as Hlt by (by eapply lookup_lt_Some). split.
  - exists l. split; [|split; [done|]].
    + eapply chain_same; [exact Hc|]. intros j x Hj. destruct (decide (j = i)) as [->|Hne].
      * rewrite list_lookup_insert_eq by done. assert (x = h) as -> by congruence. eauto.
      * rewrite list_lookup_insert_ne by done. eauto.
    + intros j x Hj Hu. destruct (decide (j = i)) as [->|Hne].
      * rewrite list_lookup_insert_eq in Hj by done. assert (x = h') as -> by congruence. apply (Ha i h); congruence.
      * rewrite list_lookup_insert_ne in Hj by done. eauto.
  - pose proof (owned_insert hs i h h' Eh) as Hoi. rewrite Fh in Hoi. by apply (inj (.⊎ one (held h))) in Hoi.
Qed.

(** The new table after bytes were counted. *)
Lemma wpi_handle_update handle f bytes (Q : unit -> srv -> Prop) s :
  (forall h, h_use (f h) = h_use h /\ next_unused (f h) = next_unused h /\ held (f h) = held h) -> free_ok (handles s) (first_unused_handle s) ->
  (forall hs', free_ok hs' (first_unused_handle s) -> owned hs' = owned (handles s) -> Q tt (set_handles hs' (first_unused_handle s) s)) ->
  wpi (handle_update handle f bytes) Q s.
Proof.
  intros Hf Hfr HQ. assert (Q tt s) as Hsame by (pose proof (HQ (handles s) Hfr eq_refl) as Hq; by destruct s).
  apply wpi_bind, wpi_reads. destruct (handle_is_ok s handle HANDLE_FILE) eqn:Eok; cbn [andb]; [|by apply wpi_ret].
  destruct (bytes >? 0); [|by apply wpi_ret]. apply handle_is_ok_inv in Eok as (Hh & h & Eh & Eu).
  apply wpi_bind. unfold wpi at 1, handle_at. rewrite (proj2 (Z.ltb_ge _ _) Hh), Eh. apply wpi_updates. destruct (Hf h) as (Fu & Fn & Fh).
  destruct (table_same _ _ _ (f h) _ Eh Fu Fn Fh Hfr) as [? ?]. by apply HQ.
Qed.

Lemma wpi_update_after t id s0 handle f bytes (Q : unit -> srv -> Prop) s :
  (forall h, h_use (f h) = h_use h /\ next_unused (f h) = next_unused h /\ held (f h) = held h) ->
  answered t id s0 s -> (forall s', answered t id s0 s' -> Q tt s') -> wpi (handle_update handle f bytes) Q s.
Proof.
  intros Hf (v & [[Hs Hi Ho Hfr Hown] Hsent Hread Hst] & Hv) HQ. apply wpi_handle_update; [done|done|]. intros hs' Hfr' Ho'. apply HQ.
  exists v. split; [|done]. split; [|done..]. split; [done..|]. cbn [calls handles set_handles]. by rewrite Ho'.
Qed.

Lemma wpi_update_before s0 hs handle f bytes (Q : unit -> srv -> Prop) s :
  (forall h, h_use (f h) = h_use h /\ next_unused (f h) = next_unused h /\ held (f h) = held h) ->
  mid s0 None hs s -> (forall hs' s', mid s0 None hs' s' -> Q tt s') -> wpi (handle_update handle f bytes) Q s.
Proof.
  intros Hf [? ? ? <- ? Hown ? ? ?] HQ. apply wpi_handle_update; [done|done|]. intros hs' Hfr' Ho'. apply (HQ hs').
  split; try done. cbn [calls set_handles]. by rewrite Ho'.
Qed.

Lemma fd_owned s0 sp hs s handle : mid s0 sp hs s -> 0 <= handle_to_fd s handle -> inl (handle_to_fd s handle) ∈ owned hs.
Proof. intros Hm Hfd. rewrite <- (mid_handles _ _ _ _ Hm). by eapply handle_to_fd_owned. Qed.

Lemma dir_owned s0 sp hs s handle d : mid s0 sp hs s -> handle_to_dir s handle = Some d -> inr d ∈ owned hs.
Proof. intros Hm Hd. rewrite <- (mid_handles _ _ _ _ Hm). by eapply handle_to_dir_owned. Qed.

(** One command of a request. *)
Ltac allowed :=
  first [ by intros ? [=] | intros ? [= <-]; eapply fd_owned; [eassumption|lia] | intros ? [= <-]; by eapply dir_owned | by intros _ | by intros; congruence | idtac ].
Ltac rq_step :=
  lazymatch goal with
  | |- wpi (mbind _ _) _ _ => apply wpi_bind
  | |- wpi (mret _) _ _ => apply wpi_ret
  | |- wpi (reads _) _ _ => apply wpi_reads
  | |- wpi get_name _ _ => eapply wpi_get_name; [eassumption|intros ? ? ?]
  | |- wpi get_handle _ _ => eapply wpi_get_handle; [eassumption|intros ? ? ?]
  | |- wpi get_attrib _ _ => eapply wpi_get_attrib; [eassumption|intros ? ? ?]
  | |- wpi (get sshbuf_get_u32) _ _ => eapply wpi_get; [apply get_u32_yields|eassumption|intros ? ? ?]
  | |- wpi (get sshbuf_get_u64) _ _ => eapply wpi_get; [apply get_u64_yields|eassumption|intros ? ? ?]
  | |- wpi (get sshbuf_get_string) _ _ => eapply wpi_get; [apply get_string_yields|eassumption|intros ? ? ?]
  | |- wpi (alloc_or_die _) _ _ => eapply wpi_alloc; [eassumption|]
  | |- wpi (xstrdup_io _) _ _ => eapply wpi_xstrdup_io; [eassumption|]
  | |- wpi (call _) _ _ => eapply wpi_call; [eassumption|reflexivity|allowed|allowed|done|let Hm := fresh "Hm" in intros ? ? Hm ? ?; cbn [gains failed] in *]
  | |- wpi (send_status _ _) _ _ => eapply wpi_send_status; [eassumption|intros ? ?]
  | |- wpi (send_data _ _) _ _ => eapply wpi_send_data; [eassumption|intros ? ?]
  | |- wpi (send_handle _ _) _ _ => eapply wpi_send_handle; [eassumption|intros ? ?]
  | |- wpi (send_names _ _) _ _ => eapply wpi_send_names; [eassumption|intros ? ?]
  | |- wpi (send_attrib _ _) _ _ => eapply wpi_send_attrib; [eassumption|intros ? ?]
  | |- wpi (send_statvfs _ _) _ _ => eapply wpi_send_statvfs; [eassumption|intros ? ?]
  | |- wpi (unless_ok _ SSH2_FX_OK) _ _ => apply wpi_sent_ok
  | |- wpi (unless_ok _ _) _ _ => eapply wpi_unless_ok; [eassumption|try (intros ?%errno_ok; congruence); try done|intros ? ?]
  | |- wpi (no_fuel) _ _ => by eapply wpi_no_fuel
  | |- wpi (match ?x with _ => _ end) _ _ => let E := fresh "E" in destruct x eqn:E
  end.
Ltac rq := repeat (rq_step; cbv beta iota zeta); try eassumption.

(** The specification of a request. *)
Definition spec (t : Z) (f : Z -> io srv unit) : Prop := forall id s, Inv s -> wpi (f id) (fun _ => answered t id s) s.

Lemma process_stat_spec lst : spec SSH2_FXP_ATTRS (fun id => process_do_stat id lst).
Proof. intros id s Hi%mid_start. unfold process_do_stat. destruct lst; rq. Qed.

Lemma process_realpath_spec : spec SSH2_FXP_NAME process_realpath.
Proof. intros id s Hi%mid_start. unfold process_realpath. rq. Qed.

Lemma process_readlink_spec : spec SSH2_FXP_NAME process_readlink.
Proof. intros id s Hi%mid_start. unfold process_readlink. rq. Qed.

Lemma process_fstat_spec : spec SSH2_FXP_ATTRS process_fstat.
Proof. intros id s Hi%mid_start. unfold process_fstat. rq. Qed.

Lemma process_statvfs_spec : spec SSH2_FXP_EXTENDED_REPLY process_extended_statvfs.
Proof. intros id s Hi%mid_start. unfold process_extended_statvfs. rq. Qed.

Lemma process_fstatvfs_spec : spec SSH2_FXP_EXTENDED_REPLY process_extended_fstatvfs.
Proof. intros id s Hi%mid_start. unfold process_extended_fstatvfs. rq. Qed.

Lemma process_close_spec : spec SSH2_FXP_STATUS process_close.
Proof. intros id s Hi%mid_start. unfold process_close. rq. eapply wpi_handle_close; [eassumption|]. intros ? hs' sx Hmx. rq. Qed.

Lemma process_read_spec : spec SSH2_FXP_DATA process_read.
Proof.
  intros id s Hi%mid_start. unfold process_read. rq. eapply (wpi_update_after SSH2_FXP_DATA); [|eassumption|intros ? ?; rq]. by intros h.
Qed.

Lemma process_open_spec : spec SSH2_FXP_HANDLE process_open.
Proof.
  intros id s Hi%mid_start. unfold process_open. rq.
  - intros Hro. rewrite Hro in E. cbn in E. rewrite bits_lor in E. cbn. by rewrite <- orb_assoc, E.
  - eapply wpi_handle_new; [eassumption|done|done| |].
    + intros sx Hmx. change (-1 <? 0) with true. cbv iota. rq. eapply wpi_close_spare; [eassumption|done..|]. intros ? sy Hmy. rq.
    + intros i hs' sx Hge Hmx. rewrite (proj2 (Z.ltb_ge _ _) Hge). rq.
Qed.

Lemma process_opendir_spec : spec SSH2_FXP_HANDLE process_opendir.
Proof.
  intros id s Hi%mid_start. unfold process_opendir. rq. eapply wpi_handle_new; [eassumption|done|done| |].
  - intros sx Hmx. change (-1 <? 0) with true. cbv iota. rq. eapply wpi_close_spare; [eassumption|done..|]. intros ? sy Hmy. rq.
  - intros i hs' sx Hge Hmx. rewrite (proj2 (Z.ltb_ge _ _) Hge). rq.
Qed.

(** The long form of a name fails only when a user or group has no name. *)
Lemma wpi_ls_file s0 hs name st remote si (Q : cstring -> srv -> Prop) s :
  mid s0 None hs s -> (forall x s', mid s0 None hs s' -> Q x s') -> wpi (ls_file name st remote si) Q s.
Proof.
  intros Hm HQ. unfold ls_file. rq; try (by apply HQ); split; try (by eapply mid_calls); right; subst;
    repeat match goal with Hc : calls ?s' = _ |- Exists _ (calls ?s') => rewrite Hc; first [by apply Exists_cons_hd | apply Exists_cons_tl] end.
Qed.

Lemma wpi_readdir_loop s0 hs fuel dirp path nstats stats (Q : list Stat -> srv -> Prop) s :
  inr dirp ∈ owned hs -> mid s0 None hs s -> (forall x s', mid s0 None hs s' -> Q x s') -> wpi (readdir_loop fuel dirp path nstats stats) Q s.
Proof.
  intros Hd Hm HQ. revert nstats stats s Hm. induction fuel as [|fuel IH]; intros nstats stats s Hm; cbn [readdir_loop]; [by eapply wpi_no_fuel|].
  apply wpi_bind. eapply wpi_call; [exact Hm|done|by intros ? [= <-]|done|done|]. intros [d_name|] s1 Hm1 _ _; [|apply wpi_ret; auto]. cbv zeta.
  apply wpi_bind, (wpi_mono _ (fun _ => mid s0 None hs)); [destruct (_ >=? _); [by eapply wpi_alloc|by apply wpi_ret]|].
  intros _ s2 Hm2. apply wpi_bind. eapply wpi_call; [exact Hm2|done|done|done|done|]. intros [e|st] s3 Hm3 _ _; [by apply IH|].
  apply wpi_bind. eapply wpi_xstrdup_io; [exact Hm3|]. apply wpi_bind. eapply wpi_ls_file; [exact Hm3|]. intros long s4 Hm4. cbv zeta.
  destruct (_ =? 100); [apply wpi_ret; auto|by apply IH].
Qed.

Lemma process_readdir_spec fuel : spec SSH2_FXP_NAME (process_readdir fuel).
Proof.
  intros id s Hi%mid_start. unfold process_readdir. rq. eapply wpi_readdir_loop; [by eapply dir_owned|eassumption|]. intros stats sx Hmx. rq.
Qed.

(** Requests that write, which a read-only server refuses. *)
Section writes.
Hypothesis Hrw : sftp_readonly = false.

Lemma wpi_when_flag s0 hs a flag (e : sysE (option Z)) status (Q : Z -> srv -> Prop) s :
  mid s0 None hs s -> loses e = None -> (forall d, works_on e = Some d -> d ∈ owned hs) -> (forall r, gains (Ev e r) = None) ->
  (forall r, input_of (Ev e r) = [] /\ output_of (Ev e r) = []) -> (forall x s', mid s0 None hs s' -> Q x s') -> wpi (when_flag a flag e status) Q s.
Proof.
  intros Hm Hl Hw Hg Hp HQ. unfold when_flag. destruct (has _ _); [|apply wpi_ret; auto]. apply wpi_bind.
  eapply wpi_call; [exact Hm|done|done|congruence|done|]. intros r s' Hm' _ _. rewrite Hg in Hm'. apply wpi_ret. auto.
Qed.

Ltac rqw :=
  repeat (lazymatch goal with
    | |- wpi (when_flag _ _ _ _) _ _ => eapply wpi_when_flag; [eassumption|reflexivity|allowed|done|done|intros ? ? ?]
    | |- _ => rq_step
    end; cbv beta iota zeta); try eassumption.

Lemma process_remove_spec : spec SSH2_FXP_STATUS process_remove.
Proof. intros id s Hi%mid_start. unfold process_remove. rqw. Qed.
Lemma process_mkdir_spec : spec SSH2_FXP_STATUS process_mkdir.
Proof. intros id s Hi%mid_start. unfold process_mkdir. rqw. Qed.
Lemma process_rmdir_spec : spec SSH2_FXP_STATUS process_rmdir.
Proof. intros id s Hi%mid_start. unfold process_rmdir. rqw. Qed.
Lemma process_symlink_spec : spec SSH2_FXP_STATUS process_symlink.
Proof. intros id s Hi%mid_start. unfold process_symlink. rqw. Qed.
Lemma process_posix_rename_spec : spec SSH2_FXP_STATUS process_extended_posix_rename.
Proof. intros id s Hi%mid_start. unfold process_extended_posix_rename. rqw. Qed.
Lemma process_hardlink_spec : spec SSH2_FXP_STATUS process_extended_hardlink.
Proof. intros id s Hi%mid_start. unfold process_extended_hardlink. rqw. Qed.
Lemma process_rename_spec : spec SSH2_FXP_STATUS process_rename.
Proof. intros id s Hi%mid_start. unfold process_rename, xrename. rqw. Qed.
Lemma process_setstat_spec : spec SSH2_FXP_STATUS process_setstat.
Proof. intros id s Hi%mid_start. unfold process_setstat. rqw. Qed.
Lemma process_lsetstat_spec : spec SSH2_FXP_STATUS process_extended_lsetstat.
Proof. intros id s Hi%mid_start. unfold process_extended_lsetstat. rqw. Qed.
Lemma process_fsetstat_spec : spec SSH2_FXP_STATUS process_fsetstat.
Proof. intros id s Hi%mid_start. unfold process_fsetstat. rqw. Qed.
Lemma process_fsync_spec : spec SSH2_FXP_STATUS process_extended_fsync.
Proof. intros id s Hi%mid_start. unfold process_extended_fsync. rqw. Qed.

Lemma process_write_spec : spec SSH2_FXP_STATUS process_write.
Proof. intros id s Hi%mid_start. unfold process_write, write_seek. rqw; (eapply wpi_update_before; [|eassumption|intros ? ? ?; rqw]; by intros h). Qed.
End writes.

(** * Dispatch *)

(** The type of the reply to a request. *)
Definition reply_type (f : request_fn) : Z :=
  match f with
  | process_open_ | process_opendir_ => SSH2_FXP_HANDLE
  | process_read_ => SSH2_FXP_DATA
  | process_readdir_ | process_realpath_ | process_readlink_ => SSH2_FXP_NAME
  | process_stat_ | process_lstat_ | process_fstat_ => SSH2_FXP_ATTRS
  | process_extended_statvfs_ | process_extended_fstatvfs_ => SSH2_FXP_EXTENDED_REPLY
  | _ => SSH2_FXP_STATUS
  end.

(** The functions of the tables that do not write. *)
Definition harmless (f : request_fn) : bool :=
  match f with
  | process_open_ | process_close_ | process_read_ | process_lstat_ | process_fstat_ | process_opendir_ | process_readdir_ | process_realpath_
  | process_stat_ | process_readlink_ | process_extended_statvfs_ | process_extended_fstatvfs_ => true
  | _ => false
  end.

Lemma run_request_spec fuel f : sftp_readonly = false \/ harmless f = true -> spec (reply_type f) (run_request fuel f).
Proof.
  intros Hw. destruct f; cbn [reply_type run_request];
    first [ exact process_open_spec | exact process_close_spec | exact process_read_spec | apply process_stat_spec | exact process_fstat_spec
          | exact process_opendir_spec | apply process_readdir_spec | exact process_realpath_spec | exact process_readlink_spec
          | exact process_statvfs_spec | exact process_fstatvfs_spec | destruct Hw as [Hw|[=]] ];
    first [ by apply process_write_spec | by apply process_setstat_spec | by apply process_fsetstat_spec | by apply process_remove_spec
          | by apply process_mkdir_spec | by apply process_rmdir_spec | by apply process_rename_spec | by apply process_symlink_spec
          | by apply process_posix_rename_spec | by apply process_hardlink_spec | by apply process_fsync_spec | by apply process_lsetstat_spec ].
Qed.

(** The tables mark every function that writes. *)
Lemma tables_marked h : h ∈ handlers ++ extended_handlers -> does_write h = negb (harmless (rq_handler h)).
Proof. intros Hh. unfold handlers, extended_handlers in Hh. cbn in Hh. set_unfold in Hh. repeat (destruct Hh as [->|Hh]; [done|]). done. Qed.

Lemma serve_spec fuel h : h ∈ handlers ++ extended_handlers -> spec (reply_type (rq_handler h)) (serve fuel h).
Proof.
  intros Hh id s Hi. unfold serve, request_permitted. pose proof (tables_marked h Hh) as Hw.
  assert (forall c : bool, wpi (if c then run_request fuel (rq_handler h) id else send_status id SSH2_FX_PERMISSION_DENIED) (fun _ => answered (reply_type (rq_handler h)) id s) s \/ (sftp_readonly && does_write h = true /\ c = true)) as Hc.
  { intros [|]; [|left; apply mid_start in Hi; rq]. destruct (sftp_readonly && does_write h) eqn:Er; [by right|]. left. apply run_request_spec; [|done].
    rewrite Hw in Er. destruct sftp_readonly; [|by left]. right. by destruct (harmless _). }
  destruct (sftp_readonly && does_write h) eqn:Er.
  - destruct (Hc false) as [?|[_ [=]]]. done.
  - match goal with |- wpi (if ?c then _ else _) _ _ => destruct (Hc c) as [?|[[=] _]]; done end.
Qed.


(** The replies to a request, by its type. *)
Inductive answers : list Z -> list (list Z) -> Prop :=
| answers_init body rest : answers (SSH2_FXP_INIT :: body) [SSH2_FXP_VERSION :: rest]
| answers_extended id body v : reply_ok SSH2_FXP_EXTENDED_REPLY id v -> answers (SSH2_FXP_EXTENDED :: POKE_U32 id ++ body) [v]
| answers_known h id body v : h ∈ handlers -> reply_ok (reply_type (rq_handler h)) id v -> answers (rq_type h :: POKE_U32 id ++ body) [v]
| answers_unknown ty id body :
    (forall h, h ∈ handlers -> rq_type h <> ty) -> ty <> SSH2_FXP_INIT -> ty <> SSH2_FXP_EXTENDED -> answers (ty :: POKE_U32 id ++ body) [].

Definition frames (l : list (list Z)) : list Z := concat (enc_string <$> l).

(** A request of type [ty] whose fields were read from [s]. *)
Definition handled (ty : Z) (s s' : srv) : Prop :=
  Inv s' /\ streams (calls s') = streams (calls s) /\ exists e reps, contents (iqueue s) = e ++ contents (iqueue s') /\ contents (oqueue s') = contents (oqueue s) ++ frames reps /\
    forall junk, answers (ty :: e ++ junk) reps.

(** A read that is described exactly. *)
Lemma wpi_get_exact {A} (m : SE sshbuf A) enc (Q : A -> srv -> Prop) s :
  yields m enc -> Inv s ->
  (forall a s' e, Inv s' -> enc a e -> contents (iqueue s) = e ++ contents (iqueue s') -> oqueue s' = oqueue s /\ calls s' = calls s -> Q a s') -> wpi (get m) Q s.
Proof.
  intros Hy [Hs Hr Ho Hf Hown] HQ. unfold wpi, get, from_in, attempt. destruct (m (iqueue s)) as [[a|e] b] eqn:E; cbn; [|done].
  destruct (Hy _ _ _ Hr E) as (Hr' & e & He & Hc). eapply HQ; [|exact He|exact Hc|done]. by split.
Qed.

Lemma frames_one v : frames [v] = enc_string v.
Proof. unfold frames. cbn. by rewrite app_nil_r. Qed.

Lemma answered_handled t ty id s0 s s' e :
  answered t id s s' -> contents (iqueue s0) = e ++ contents (iqueue s) -> oqueue s = oqueue s0 /\ calls s = calls s0 ->
  (forall e' v, reply_ok t id v -> answers (ty :: e ++ e') [v]) -> handled ty s0 s'.
Proof.
  intros (v & [Hi Hsent [e' He'] Hst] & Hv) He [Ho Hcs] Ha. split; [done|]. split; [by rewrite Hst, Hcs|]. exists (e ++ e'), [v]. split_and!.
  - by rewrite He, He', app_assoc.
  - by rewrite Hsent, Ho, frames_one.
  - intros junk. rewrite <- app_assoc. by apply Ha.
Qed.

Lemma answered_weaken t id s s' : answered t id s s' -> t = SSH2_FXP_STATUS \/ t = SSH2_FXP_EXTENDED_REPLY -> answered SSH2_FXP_EXTENDED_REPLY id s s'.
Proof. intros (v & Hf & ty & body & -> & Ht) Ht'. exists (ty :: POKE_U32 id ++ body). split; [done|]. exists ty, body. split; [done|]. intuition congruence. Qed.

Lemma process_init_spec s : Inv s -> wpi process_init (fun _ => handled SSH2_FXP_INIT s) s.
Proof.
  intros Hi. apply wpi_bind. eapply wpi_get_exact; [apply get_u32_yields|done|]. intros v s1 e Hi1 _ Hc [Ho Hcs]. apply wpi_bind, wpi_updates.
  destruct (put_extensions_builds extensions) as [w Hw]. assert (Inv (set_version v s1)) as Hi2 by (destruct Hi1; by split).
  eapply wpi_reply; [by apply mid_start|apply builds_bind; [apply put_u8_builds|apply builds_bind; [apply put_u32_builds|exact Hw]]|].
  intros s' [Hf Hsent [e' He'] Hst]. cbn in Hsent, He', Hst. split; [done|]. split; [by rewrite Hst, Hcs|]. eexists (e ++ e'), [_]. split_and!; [by rewrite Hc, He', app_assoc|by rewrite Hsent, Ho, frames_one|].
  intros junk. apply answers_init.
Qed.

Lemma after_init_spec ty f s :
  (forall id s1, Inv s1 -> wpi (f id) (fun _ s2 => exists t, answered t id s1 s2 /\ forall body v, reply_ok t id v -> answers (ty :: POKE_U32 id ++ body) [v]) s1) ->
  Inv s -> wpi (after_init f) (fun _ => handled ty s) s.
Proof.
  intros Hf Hi. apply wpi_bind, wpi_reads. destruct (init_done s); [|apply Hi]. apply wpi_bind.
  eapply wpi_get_exact; [apply get_u32_yields|done|]. intros id s1 e Hi1 [-> _] Hc Ho. eapply wpi_mono; [by apply Hf|]. intros [] s2 (t & Ha & Hans).
  by eapply answered_handled.
Qed.

Lemma find_handler {P : sftp_handler -> bool} l h : List.find P l = Some h -> h ∈ l /\ P h = true.
Proof. intros E. apply List.find_some in E as [Hin Hp]. split; [by apply list_elem_of_In|done]. Qed.

Lemma answered_from t id s0 hs s s' : mid s0 None hs s -> answered t id s s' -> answered t id s0 s'.
Proof.
  intros [? ? ? ? ? ? Hsent [e0 Hread] Hst0] (v & [Hi Hs [e Hr] Hst] & Hv). exists v. split; [|done]. split; [done|congruence| |congruence]. exists (e0 ++ e). by rewrite Hread, Hr, app_assoc.
Qed.

Lemma process_extended_spec fuel s : Inv s -> wpi (after_init (process_extended fuel)) (fun _ => handled SSH2_FXP_EXTENDED s) s.
Proof.
  apply after_init_spec. intros id s1 Hi%mid_start. apply wpi_bind. eapply wpi_get_name; [exact Hi|]. intros request s2 Hm.
  apply (wpi_mono _ (fun _ s3 => answered SSH2_FXP_EXTENDED_REPLY id s1 s3)).
  - destruct (List.find _ _) as [h|] eqn:Eh; [|rq]. apply find_handler in Eh as [Hh _].
    eapply wpi_mono; [apply serve_spec; [apply elem_of_app; by right|by eapply mid_inv]|]. intros [] s3 Ha. eapply answered_from; [exact Hm|].
    eapply answered_weaken; [exact Ha|]. unfold extended_handlers in Hh. set_unfold in Hh. repeat (destruct Hh as [->|Hh]; [cbn; by auto|]). done.
  - intros [] s3 Ha. exists SSH2_FXP_EXTENDED_REPLY. split; [done|]. intros body v Hv. by apply answers_extended.
Qed.

Lemma process_default_spec fuel ty s :
  ty <> SSH2_FXP_INIT -> ty <> SSH2_FXP_EXTENDED -> Inv s -> wpi (after_init (process_default fuel ty)) (fun _ => handled ty s) s.
Proof.
  intros Hn1 Hn2 Hi. unfold process_default. destruct (List.find _ _) as [h|] eqn:Eh.
  - apply find_handler in Eh as [Hh Ht%Z.eqb_eq]. apply after_init_spec; [|done]. intros id s1 Hi1.
    eapply wpi_mono; [apply serve_spec; [apply elem_of_app; by left|done]|]. intros [] s2 Ha. eexists. split; [exact Ha|]. intros body v Hv. rewrite Ht. by apply answers_known.
  - apply wpi_bind, wpi_reads. destruct (init_done s); [|apply Hi]. apply wpi_bind. eapply wpi_get_exact; [apply get_u32_yields|done|].
    intros id s1 e Hi1 [-> _] Hc [Ho Hcs]. apply wpi_ret. split; [done|]. split; [by rewrite Hcs|]. exists (POKE_U32 id), []. split_and!; [done|by rewrite Ho, app_nil_r|].
    intros junk. apply answers_unknown; [|done..]. intros h Hh E. eapply List.find_none in Eh; [|by apply list_elem_of_In]. cbn in Eh. lia.
Qed.

(** * One message *)

(** A message was taken from the input and answered, or there was none. *)
Definition processed (s s' : srv) : Prop :=
  Inv s' /\ streams (calls s') = streams (calls s) /\ exists reqs reps, contents (iqueue s) = frames reqs ++ contents (iqueue s') /\
    contents (oqueue s') = contents (oqueue s) ++ frames (concat reps) /\ Forall2 answers reqs reps.

Lemma processed_nothing s : Inv s -> processed s s.
Proof. intros Hi. split; [done|]. split; [done|]. exists [], []. split; [done|]. split; [by rewrite app_nil_r|constructor]. Qed.

Lemma process_spec fuel s : Inv s -> wpi (process fuel) (fun _ => processed s) s.
Proof.
  intros Hi. pose proof Hi as [Hs [Hw Hb] Ho Hf Hown]. unfold process. apply wpi_bind, wpi_reads. rewrite sshbuf_len_wf by done.
  destruct (Z.ltb_spec (zlen (contents (iqueue s))) 5) as [|H5]; [by apply wpi_ret, processed_nothing|].
  apply wpi_bind, wpi_reads. rewrite sshbuf_ptr_wf by done. cbn [default from_option id]. set (msg_len := PEEK_U32 (contents (iqueue s))).
  destruct (Z.gtb_spec msg_len SFTP_MAX_MSG_LENGTH) as [|Hmax]; [exact Hs|]. destruct (_ <? u32 _); [by apply wpi_ret, processed_nothing|].
  apply wpi_bind. eapply wpi_get_exact; [by apply consume_yields|done|]. intros [] s1 e4 Hi1 H4 Hc1 [Ho1 Hcs1]. cbv zeta.
  apply wpi_bind. eapply wpi_get_exact; [apply get_u8_yields|done|]. intros ty s2 e Hi2 -> Hc2 [Ho2 Hcs2]. apply wpi_bind, (wpi_mono _ (fun _ => handled ty s2)).
  { destruct (Z.eqb_spec ty SSH2_FXP_INIT) as [->|].
    - apply wpi_bind. eapply wpi_mono; [by apply process_init_spec|]. intros [] s3 ([? ? ? ? ?] & Hh). apply wpi_updates. by split; [split|].
    - destruct (Z.eqb_spec ty SSH2_FXP_EXTENDED) as [->|]; [by apply process_extended_spec|by apply process_default_spec]. }
  intros [] s3 (Hi3 & Hst3 & e3 & reps & Hc3 & Hsent & Hans). apply wpi_bind, wpi_reads. pose proof Hi3 as [Hs3 [Hw3 _] _ _ _]. rewrite sshbuf_len_wf by done.
  assert (e4 = POKE_U32 msg_len) as ->.
  { unfold msg_len. rewrite Hc1, POKE_PEEK_U32; [done| |done]. rewrite Hc1 in Hb. by apply Forall_app in Hb as [? _]. }
  assert (contents (iqueue s) = POKE_U32 msg_len ++ (ty :: e3) ++ contents (iqueue s3)) as Hall by (rewrite Hc1, Hc2, Hc3; done).
  destruct (_ <? _); [exact Hs3|]. replace (zlen (contents (iqueue s)) - 4 - zlen (contents (iqueue s3))) with (zlen (ty :: e3)) by (rewrite Hall; zlia).
  destruct (Z.ltb_spec msg_len (zlen (ty :: e3))) as [|Hge]; [exact Hs3|].
  apply (wpi_mono _ (fun _ s4 => Inv s4 /\ (oqueue s4 = oqueue s3 /\ calls s4 = calls s3) /\ exists r, zlen r = msg_len - zlen (ty :: e3) /\ contents (iqueue s3) = r ++ contents (iqueue s4))).
  { destruct (Z.gtb_spec msg_len (zlen (ty :: e3))) as [Hgt|Hle].
    - eapply wpi_get_exact; [apply consume_yields; lia|done|]. intros [] s4 e Hi4 He Hc4 Ho4. split; [done|]. split; [done|]. by exists e.
    - apply wpi_ret. split; [done|]. split; [done|]. exists []. split; [rewrite zlen_nil; lia|done]. }
  intros [] s4 (Hi4 & [Ho4 Hcs4] & r & Hr & Hc4). split; [done|]. split; [by rewrite Hcs4, Hst3, Hcs2, Hcs1|]. exists [(ty :: e3) ++ r], [reps]. split_and!.
  - rewrite Hall, Hc4, frames_one. unfold enc_string. rewrite zlen_app, Hr. replace (_ + (_ - _)) with msg_len by lia. by rewrite <- !app_assoc.
  - rewrite Ho4, Hsent, Ho2, Ho1. cbn. by rewrite app_nil_r.
  - constructor; [|constructor]. apply (Hans r).
Qed.
End serve.
