(* ===== verification/SftpRun.v ===== *)
(** The file transfer server as a whole: any number of turns of its loop, against
    any client and any system. *)

From Stdlib Require Import String.
From stdpp Require Import gmultiset.
From S2P Require Import Prelude Io Sshbuf SshbufGetPut SshbufRead Match SftpCommon Sftp SftpSafe SftpServe.
Local Open Scope Z_scope.

Section run.
Context `{Allocator} `{OS} `{!OSLaws} `{SftpArgs}.

(** What was read from the client are complete requests and the bytes that wait in
    the input queue; what was written, with the bytes that wait in the output
    queue, are the replies to these requests in the same order. *)
Definition served (s : srv) : Prop :=
  exists reqs reps, received (calls s) = frames reqs ++ contents (iqueue s) /\ sent (calls s) ++ contents (oqueue s) = frames (concat reps) /\ Forall2 answers reqs reps.

Definition good (s : srv) : Prop := Inv s /\ served s.

Lemma frames_app l k : frames (l ++ k) = frames l ++ frames k.
Proof. unfold frames. by rewrite fmap_app, concat_app. Qed.

Lemma wpi_has_room b n (Q : bool -> srv -> Prop) s : Inv s -> (forall c, Q c s) -> wpi (has_room b n) Q s.
Proof. intros Hi HQ. unfold has_room. destruct (sshbuf_check_reserve b n) as [[]|[]]; try apply Hi; by apply wpi_ret. Qed.

(** A call on a stream of the client. *)
Lemma client_call {T} (e : sysE T) r s :
  Inv s -> works_on e = None -> modifies e = false -> gains (Ev e r) = None -> loses e = None ->
  safe_calls (Ev e r :: calls s) /\ owned (handles s) ⊆ live (Ev e r :: calls s).
Proof.
  intros [[Hd Hq] ? ? ? Ho] Hw Hm Hg Hl. split; [split|].
  - cbn. by rewrite Hw.
  - intros Hro. constructor; [done|by apply Hq].
  - cbn. cbn in Hg. rewrite Hg, Hl. cbn [one]. multiset_solver.
Qed.

Lemma read_input_spec s : good s -> wpi read_input (fun _ s' => good s' /\ oqueue s' = oqueue s) s.
Proof.
  intros [Hi (reqs & reps & Hin & Hout & Hans)]. unfold read_input, wpi, mbind, io_bind, call. pose proof (input_bytes LOOP_BUF (kernel s)) as Hb.
  destruct (sys (sys_read_in LOOP_BUF) (kernel s)) as [r k]. destruct (client_call (sys_read_in LOOP_BUF) r s Hi eq_refl eq_refl eq_refl eq_refl) as [Hs Hown].
  destruct r as [e|[|x data]]; [exact Hs..|]. set (d := x :: data) in *. specialize (Hb d k eq_refl). unfold get, from_in, attempt.
  cbn [iqueue set_kernel]. destruct (sshbuf_put d (iqueue s)) as [[[]|e] b] eqn:Ep; [|exact Hs]. cbn.
  destruct Hi as [_ [Hw Hbytes] Ho Hf _]. destruct (builds_wf _ _ _ _ (appends_builds _ _ (sshbuf_put_appends d)) Hw Ep) as [Hw' Hc].
  split; [|done]. split; [split; try done; split; [done|]; cbn; rewrite Hc; by apply Forall_app|].
  exists reqs, reps. split_and!; [|cbn; by rewrite app_nil_r|done]. cbn. by rewrite Hin, Hc, app_assoc.
Qed.

Lemma write_output_spec s : good s -> wpi (write_output (sshbuf_len (oqueue s))) (fun _ => good) s.
Proof.
  intros [Hi (reqs & reps & Hin & Hout & Hans)]. pose proof Hi as [_ Hr Ho Hf _]. unfold write_output, wpi, mbind, io_bind, call, reads. rewrite sshbuf_len_wf, sshbuf_ptr_wf by done.
  cbn [default from_option id]. rewrite ztake_ge by done. set (d := contents (oqueue s)) in *. pose proof (output_count d (kernel s)) as Hn.
  destruct (sys (sys_write_out d) (kernel s)) as [r k]. destruct (client_call (sys_write_out d) r s Hi eq_refl eq_refl eq_refl eq_refl) as [Hs Hown].
  destruct r as [e|n]; [exact Hs|]. destruct (Hn n k eq_refl) as [Hn0 Hn1]. cbn [oqueue set_kernel].
  pose proof (sshbuf_consume_spec (oqueue s) n Ho Hn0) as Hc. fold d in Hc. rewrite (proj2 (Z.leb_le _ _) Hn1) in Hc. destruct Hc as (o & -> & Hx & Hc & _).
  split; [split; try done; apply Hx|]. exists reqs, reps. cbn. split_and!; [by rewrite app_nil_r| |done].
  by rewrite Hc, <- app_assoc, ztake_zdrop.
Qed.

Lemma process_good fuel s : good s -> wpi (process fuel) (fun _ => good) s.
Proof.
  intros [Hi (reqs & reps & Hin & Hout & Hans)]. eapply wpi_mono; [by apply process_spec|]. intros [] s' (Hi' & Hst & reqs' & reps' & Hc & Ho & Hans').
  split; [done|]. injection Hst as Hrec Hsent. exists (reqs ++ reqs'), (reps ++ reps'). split_and!; [| |by apply Forall2_app].
  - by rewrite Hrec, Hin, Hc, frames_app, app_assoc.
  - by rewrite Hsent, Ho, app_assoc, Hout, concat_app, frames_app.
Qed.

Lemma server_turn_good fuel s : good s -> wpi (server_turn fuel) (fun _ => good) s.
Proof.
  intros Hg. unfold server_turn. apply wpi_bind, wpi_reads, wpi_bind, wpi_reads, wpi_bind. eapply wpi_has_room; [apply Hg|]. intros c.
  apply wpi_bind, (wpi_mono _ (fun _ s' => s' = s)); [destruct c; [by eapply wpi_has_room; [apply Hg|]|by apply wpi_ret]|]. intros rd ? ->. cbv zeta.
  apply wpi_bind. set (e := sys_select _ _). unfold wpi at 1, call. destruct (sys e (kernel s)) as [r k].
  assert (good (set_kernel k (Ev e r :: calls s) s)) as Hg1.
  { destruct Hg as [Hi (reqs & reps & Hin & Hout & Hans)]. destruct (client_call e r s Hi eq_refl eq_refl eq_refl eq_refl) as [Hs Hown].
    split; [destruct Hi; by split|]. exists reqs, reps. cbn. by rewrite !app_nil_r. }
  cbn [ends]. destruct r as [err|[rset wset]]; [destruct (err =? EINTR); [by apply wpi_ret|apply Hg1]|].
  set (s1 := set_kernel k _ s) in *. change (oqueue s) with (oqueue s1). clearbody s1.
  apply wpi_bind, (wpi_mono _ (fun _ s' => good s' /\ oqueue s' = oqueue s1)); [destruct (rd && rset); [by apply read_input_spec|by apply wpi_ret]|].
  intros [] s2 [Hg2 Ho2]. rewrite <- Ho2. apply wpi_bind, (wpi_mono _ (fun _ => good)); [destruct (_ && wset); [by apply write_output_spec|by apply wpi_ret]|].
  intros [] s3 Hg3. apply wpi_bind, wpi_reads, wpi_bind. eapply wpi_has_room; [apply Hg3|]. intros [|]; [by apply process_good|by apply wpi_ret].
Qed.

Lemma server_turns_good fuel n s : good s -> wpi (server_turns fuel n) (fun _ => good) s.
Proof.
  revert s. induction n as [|n IH]; intros s Hg; [done|]. cbn [server_turns]. apply wpi_bind. eapply wpi_mono; [by apply server_turn_good|]. intros [] s' Hg'. by apply IH.
Qed.

Lemma server_init_good k s : server_init k = Some s -> good s.
Proof.
  unfold server_init. destruct sshbuf_new as [b|] eqn:En; [|done]. intros [= <-]. destruct (sshbuf_new_spec b En) as (Hw & Hc & _). split.
  - split; cbn; [by split|split; [done|rewrite Hc; constructor]|done| |multiset_solver]. exists []. split; [constructor|]. split; [constructor|]. intros i h Hi. by rewrite lookup_nil in Hi.
  - exists [], []. cbn. rewrite Hc. split_and!; [done|done|constructor].
Qed.

(** [n] turns of the loop from the start, against the system [k]. *)
Definition runs (fuel n : nat) (k : os) (r : ending unit) (s' : srv) : Prop :=
  exists s, server_init k = Some s /\ server_turns fuel n s = (r, s').

(** What holds at the end of a run, however it ends. *)
Lemma run_ends fuel n k r s' : runs fuel n k r s' -> ends (fun _ => good) r s'.
Proof. intros (s & Hk & E). pose proof (server_turns_good fuel n s (server_init_good k s Hk)) as Hw. unfold wpi in Hw. by rewrite E in Hw. Qed.

Lemma ends_safe (r : ending unit) s : ends (fun _ => good) r s -> safe_calls (calls s).
Proof. destruct r as [[]| | |]; cbn; [by intros [[] _]|done|by intros [? _]|done]. Qed.

(** C5: a read-only server does not change the file system (safety).  With the option
    -R no call of a run of any length changes the file system: no file is opened
    for writing, created or truncated and no call that writes is made, whatever
    the client sends, whatever the system answers and also when the run ends by
    an error. *)
Theorem sftp_readonly_safe fuel n k r s' : sftp_readonly = true -> runs fuel n k r s' -> Forall quiet (calls s').
Proof. intros Hro Hr. by apply (calls_quiet _ (ends_safe _ _ (run_ends _ _ _ _ _ Hr))). Qed.

(** C21: handles stand for open files (safety).  Every call of a run works on a
    descriptor or directory stream that an earlier call returned and that was not
    closed since, whatever handles the client sends.  The server leaves an array
    only when the table has 2^31 handles or there was no memory for the name of a
    user or group. *)
Theorem sftp_descriptors_open fuel n k r s' :
  runs fuel n k r s' ->
  disciplined (calls s') /\ (r = Segv -> 2 ^ 31 <= num_handles s' \/ Exists nameless (calls s')) /\
  (r = Ret tt -> free_ok (handles s') (first_unused_handle s') /\ owned (handles s') ⊆ live (calls s')).
Proof.
  intros Hr. pose proof (run_ends _ _ _ _ _ Hr) as He. split; [by apply calls_open, (ends_safe r)|].
  split; intros ->; [apply He|]. destruct He as [Hi _]. split; apply Hi.
Qed.

(** C20: one reply for each request, in order (refinement).  At any moment between two
    turns of the loop the bytes read from the client are complete messages
    followed by the contents of the input queue, and the bytes written with those
    of the output queue are the replies: to each message in turn one reply with
    its number, of the type that belongs to the request or a status; a message of
    an unknown type gets none. *)
Theorem sftp_replies_in_order fuel n k s' :
  runs fuel n k (Ret tt) s' ->
  exists reqs reps, received (calls s') = frames reqs ++ contents (iqueue s') /\ sent (calls s') ++ contents (oqueue s') = frames (concat reps) /\
    Forall2 answers reqs reps.
Proof. intros Hr. by destruct (run_ends _ _ _ _ _ Hr) as [_ Hs]. Qed.
End run.

(** * A run *)

(** A system with one readable file; [toy_os] holds what the client will send. *)
Definition toy_sys (T : Type) (e : sysE T) (k : list (list Z)) : T * list (list Z) :=
  match e in sysE T return T * list (list Z) with
  | sys_open _ _ _ => (inr 5, k)
  | sys_close _ => (None, k)
  | sys_lseek _ _ => (None, k)
  | sys_read _ len => (inr (ztake len [104; 105]), k)
  | sys_write _ data => (inr (zlen data), k)
  | sys_stat _ | sys_lstat _ => (inl ENOENT, k)
  | sys_fstat _ => (inl EBADF, k)
  | sys_opendir _ => (inl ENOENT, k)
  | sys_readdir _ => (None, k)
  | sys_realpath _ => (inr (str "/"), k)
  | sys_readlink _ _ => (inl EINVAL, k)
  | sys_statvfs _ => (inl ENOENT, k)
  | sys_fstatvfs _ => (inl EBADF, k)
  | sys_localtime _ => (None, k)
  | sys_time => (0, k)
  | sys_user_from_uid _ | sys_group_from_gid _ => (Some (str "root"), k)
  | sys_select rd wr => (inr (rd, wr), k)
  | sys_read_in _ => match k with c :: k => (inr (map (fun x => x mod 256) c), k) | [] => (inr [], []) end
  | sys_write_out data => (inr (zlen data), k)
  | sys_truncate _ _ | sys_ftruncate _ _ | sys_chmod _ _ | sys_fchmod _ _ | sys_fchmodat _ _ | sys_utimes _ _ _ | sys_futimes _ _ _
  | sys_utimensat _ _ _ | sys_chown _ _ _ | sys_fchown _ _ _ | sys_fchownat _ _ _ | sys_closedir _ | sys_unlink _ | sys_mkdir _ _ | sys_rmdir _
  | sys_rename _ _ | sys_link _ _ | sys_symlink _ _ | sys_fsync _ => (None, k)
  end.
Definition toy_os : OS := {| os := list (list Z); sys := toy_sys; strftime := fun _ _ _ => [] |}.

Lemma toy_os_laws : @OSLaws toy_os.
Proof.
  split.
  - intros T e k. by destruct e.
  - intros n k data k'. cbn. destruct k as [|c k]; intros [= <- _]; [constructor|]. apply Forall_map, Forall_true. intros x. unfold is_byte. apply Z.mod_pos_bound. lia.
  - intros data k n k' [= <- _]. split; [apply zlen_nonneg|done].
Qed.
#[local] Existing Instances alloc_all toy_os toy_os_laws.

Definition toy_message (ty id : Z) (body : list Z) : list Z := enc_string (ty :: POKE_U32 id ++ body).
Definition toy_handle : list Z := enc_string (POKE_U32 0).
(** INIT, a file is opened and read, a file is removed, an unknown type, and the
    file is closed. *)
Definition toy_session : list (list Z) :=
  [enc_string (SSH2_FXP_INIT :: POKE_U32 3);
   toy_message SSH2_FXP_OPEN 1 (enc_string (str "/f") ++ POKE_U32 SSH2_FXF_READ ++ POKE_U32 0);
   toy_message SSH2_FXP_READ 2 (toy_handle ++ POKE_U64 0 ++ POKE_U32 9);
   toy_message SSH2_FXP_REMOVE 3 (enc_string (str "/f"));
   toy_message 99 4 [];
   toy_message SSH2_FXP_CLOSE 5 toy_handle].

Definition readonly_args : SftpArgs := {| sftp_readonly := true; request_whitelist := None; request_blacklist := None |}.
Definition writable_args : SftpArgs := {| sftp_readonly := false; request_whitelist := None; request_blacklist := None |}.

(** The calls other than those of the loop. *)
Definition on_files (tr : list event) : list event :=
  List.filter (fun ev => match ev with Ev (sys_select _ _) _ | Ev (sys_read_in _) _ | Ev (sys_write_out _) _ => false | Ev _ _ => true end) tr.

Lemma sftp_readonly_safe_witness :
  match @server_init alloc_all toy_os toy_session with
  | Some s =>
      let '(r, s') := @server_turns alloc_all toy_os readonly_args 1 6 s in
      r = Ret tt /\ length (on_files (calls s')) = 4%nat /\ Forall quiet (calls s')
  | None => False
  end.
Proof.
  destruct (@server_init alloc_all toy_os toy_session) as [s|] eqn:Es; [|vm_compute in Es; discriminate Es].
  destruct (@server_turns alloc_all toy_os readonly_args 1 6 s) as [r s'] eqn:E.
  split; [|split; [|exact (@sftp_readonly_safe alloc_all toy_os toy_os_laws readonly_args 1 6 toy_session r s' eq_refl (ex_intro _ s (conj Es E)))]];
    vm_compute in Es; injection Es as <-; vm_compute in E; injection E as <- <-; reflexivity.
Defined.

Lemma sftp_descriptors_open_witness :
  match @server_init alloc_all toy_os toy_session with
  | Some s =>
      let '(r, s') := @server_turns alloc_all toy_os writable_args 1 6 s in
      r = Ret tt /\ length (on_files (calls s')) = 5%nat /\ disciplined (calls s') /\ owned (handles s') ⊆ live (calls s')
  | None => False
  end.
Proof.
  destruct (@server_init alloc_all toy_os toy_session) as [s|] eqn:Es; [|vm_compute in Es; discriminate Es].
  destruct (@server_turns alloc_all toy_os writable_args 1 6 s) as [r s'] eqn:E.
  destruct (@sftp_descriptors_open alloc_all toy_os toy_os_laws writable_args 1 6 toy_session r s' (ex_intro _ s (conj Es E))) as (Hd & _ & Ho).
  assert (r = Ret tt /\ length (on_files (calls s')) = 5%nat) as [Hr Hn]
    by (clear Hd Ho; vm_compute in Es; injection Es as <-; vm_compute in E; injection E as <- <-; split; reflexivity).
  split; [exact Hr|]. split; [exact Hn|]. split; [exact Hd|apply (Ho Hr)].
Defined.

Lemma sftp_replies_in_order_witness :
  match @server_init alloc_all toy_os toy_session with
  | Some s =>
      let s' := (@server_turns alloc_all toy_os writable_args 1 6 s).2 in
      length (sent (calls s') ++ contents (oqueue s')) = 271%nat /\
      exists reqs reps, received (calls s') = frames reqs ++ contents (iqueue s') /\ sent (calls s') ++ contents (oqueue s') = frames (concat reps) /\ Forall2 answers reqs reps
  | None => False
  end.
Proof.
  destruct (@server_init alloc_all toy_os toy_session) as [s|] eqn:Es; [|vm_compute in Es; discriminate Es].
  destruct (@server_turns alloc_all toy_os writable_args 1 6 s) as [r s'] eqn:E. cbn [snd].
  assert (r = Ret tt /\ length (sent (calls s') ++ contents (oqueue s')) = 271%nat) as [Hr Hn]
    by (vm_compute in Es; injection Es as <-; vm_compute in E; injection E as <- <-; vm_compute; split; reflexivity).
  split; [exact Hn|]. rewrite Hr in E. exact (@sftp_replies_in_order alloc_all toy_os toy_os_laws writable_args 1 6 toy_session s' (ex_intro _ s (conj Es E))).
Defined.
