(* ===== verification/SftpLive.v ===== *)
(** The file transfer server answers: a well-formed request is carried out and gets
    its reply, when memory, room in the output queue and the documented limits of
    the system are given.  The form of attributes on the wire is inverted on the
    way. *)

From Stdlib Require Import String.
From S2P Require Import Prelude Io Sshbuf SshbufGetPut SshbufRead Match SftpCommon Sftp SftpSafe SftpServe SftpRun.
Local Open Scope Z_scope.

(** * Attributes on the wire *)

Definition enc_attrib (a : Attrib) : list Z :=
  POKE_U32 (a_flags a) ++
  (if has (a_flags a) SSH2_FILEXFER_ATTR_SIZE then POKE_U64 (a_size a) else []) ++
  (if has (a_flags a) SSH2_FILEXFER_ATTR_UIDGID then POKE_U32 (a_uid a) ++ POKE_U32 (a_gid a) else []) ++
  (if has (a_flags a) SSH2_FILEXFER_ATTR_PERMISSIONS then POKE_U32 (a_perm a) else []) ++
  (if has (a_flags a) SSH2_FILEXFER_ATTR_ACMODTIME then POKE_U32 (a_atime a) ++ POKE_U32 (a_mtime a) else []).

(** The fields at their width. *)
Record attrib_ok (a : Attrib) : Prop := {
  ok_flags : 0 <= a_flags a < 2 ^ 32; ok_size : 0 <= a_size a < 2 ^ 64; ok_uid : 0 <= a_uid a < 2 ^ 32; ok_gid : 0 <= a_gid a < 2 ^ 32;
  ok_perm : 0 <= a_perm a < 2 ^ 32; ok_atime : 0 <= a_atime a < 2 ^ 32; ok_mtime : 0 <= a_mtime a < 2 ^ 32
}.

(** The fields that the flags announce. *)
Definition visible (a : Attrib) : Attrib :=
  let f := a_flags a in
  let on bit x := if has f bit then x else 0 in
  mk_attrib f (on SSH2_FILEXFER_ATTR_SIZE (a_size a)) (on SSH2_FILEXFER_ATTR_UIDGID (a_uid a)) (on SSH2_FILEXFER_ATTR_UIDGID (a_gid a))
    (on SSH2_FILEXFER_ATTR_PERMISSIONS (a_perm a)) (on SSH2_FILEXFER_ATTR_ACMODTIME (a_atime a)) (on SSH2_FILEXFER_ATTR_ACMODTIME (a_mtime a)).

Lemma enc_attrib_len a : zlen (enc_attrib a) <= 32.
Proof. unfold enc_attrib. repeat case_match; autorewrite with zlist; zlia. Qed.

(** A part that is there when its flag is. *)
Lemma gets_if {A} (c : bool) (m : SE sshbuf A) e a d : Gets m e a -> Gets (if c then m else mret d) (if c then e else []) (if c then a else d).
Proof. intros Hm. destruct c; [done|apply gets_ret]. Qed.

Lemma gets_pair m1 e1 m2 e2 (a1 a2 : Z) : Gets m1 e1 a1 -> Gets m2 e2 a2 -> Gets (x ← m1; y ← m2; mret (x, y)) (e1 ++ e2) (a1, a2).
Proof.
  intros H1 H2. eapply gets_bind; [exact H1|]. rewrite <- (app_nil_r e2). eapply gets_bind; [exact H2|]. apply gets_ret.
Qed.

Lemma get_u32_exact v : 0 <= v < 2 ^ 32 -> Gets sshbuf_get_u32 (POKE_U32 v) v.
Proof. intros Hv. rewrite <- (u32_small v Hv) at 2. apply get_u32_gets. Qed.
Lemma get_u64_exact v : 0 <= v < 2 ^ 64 -> Gets sshbuf_get_u64 (POKE_U64 v) v.
Proof. intros Hv. rewrite <- (u64_small v Hv) at 2. apply get_u64_gets. Qed.

Lemma decode_fields_gets a : attrib_ok a -> Gets decode_fields (enc_attrib a) (visible a).
Proof.
  intros [Hf Hs Hu Hg Hp Ha Hm]. unfold decode_fields, enc_attrib, visible. eapply gets_bind; [by apply get_u32_exact|].
  eapply gets_bind; [by apply gets_if, get_u64_exact|]. eapply gets_bind; [by apply gets_if, gets_pair; apply get_u32_exact|].
  eapply gets_bind; [by apply gets_if, get_u32_exact|]. rewrite <- (app_nil_r (if has _ SSH2_FILEXFER_ATTR_ACMODTIME then _ else _)).
  eapply gets_bind; [by apply gets_if, gets_pair; apply get_u32_exact|]. destruct (has _ SSH2_FILEXFER_ATTR_UIDGID), (has _ SSH2_FILEXFER_ATTR_ACMODTIME); apply gets_ret.
Qed.

Section codec.
Context `{Allocator} `{!ReliableAllocator _}.

Lemma puts_if (c : bool) m e : Puts m e tt -> Puts (if c then m else mret tt) (if c then e else []) tt.
Proof. intros Hm. destruct c; [done|apply puts_ret]. Qed.

Lemma put_text_puts v : string_ok (cstr v) -> Puts (sshbuf_put_cstring (Some v)) (enc_string (cstr v)) tt.
Proof. apply put_string_puts. Qed.

Lemma encode_attrib_puts a : Puts (encode_attrib a) (enc_attrib a) tt.
Proof.
  unfold encode_attrib, enc_attrib. eapply puts_bind; [apply put_u32_puts|]. eapply puts_bind; [apply puts_if, put_u64_puts|].
  eapply puts_bind; [apply puts_if; eapply puts_bind; apply put_u32_puts|]. eapply puts_bind; [apply puts_if, put_u32_puts|].
  apply puts_if. eapply puts_bind; apply put_u32_puts.
Qed.

(** Attributes survive the wire (roundtrip).  [encode_attrib] appends bytes from
    which [decode_attrib] reads, in any buffer that starts with them, the fields
    that the flags announce; the other fields are 0 and what follows stays in the
    buffer.  Attributes with the flag for extended ones are left out, since
    [encode_attrib] writes the flag but no list of them. *)
Theorem attrib_roundtrip a b :
  attrib_ok a -> has (a_flags a) SSH2_FILEXFER_ATTR_EXTENDED = false ->
  buf_wf b -> locked b = false -> zlen (contents b) + 32 <= max_size b ->
  exists b' e, encode_attrib a b = (Ok tt, b') /\ contents b' = contents b ++ e /\
    forall b1 rest, buf_wf b1 -> contents b1 = e ++ rest -> exists b2, decode_attrib b1 = (Ret (Ok (visible a)), b2) /\ contents b2 = rest.
Proof.
  intros Ha He Hb Hl Hfit. destruct (encode_attrib_puts a b Hb Hl) as (b' & E & Hx & Hc'); [pose proof (enc_attrib_len a); lia|].
  exists b', (enc_attrib a). split; [done|]. split; [done|]. intros b1 rest Hb1 Hc1. destruct (decode_fields_gets a Ha b1 rest Hb1 Hc1) as (b2 & E2 & _ & Hc2 & _).
  exists b2. split; [|done]. unfold decode_attrib, mbind, io_bind, attempt. rewrite E2. cbn. by rewrite He.
Qed.

(** ** Extended attributes *)

Definition ext_ok (x : list Z * list Z) : Prop := string_ok x.1 /\ no_nul x.1 /\ string_ok x.2.
Definition enc_ext (l : list (list Z * list Z)) : list Z := concat ((fun x => enc_string x.1 ++ enc_string x.2) <$> l).

Lemma enc_ext_len l : 8 * zlen l <= zlen (enc_ext l).
Proof.
  induction l as [|[n d] l IH]; [done|]. change (enc_ext ((n, d) :: l)) with ((enc_string n ++ enc_string d) ++ enc_ext l).
  rewrite !zlen_app, !enc_string_len, zlen_cons. zlen_facts. lia.
Qed.

Lemma skip_extended_gets l fuel : Forall ext_ok l -> (length l <= fuel)%nat -> Gets (skip_extended fuel (zlen l)) (enc_ext l) tt.
Proof.
  revert fuel. induction l as [|[n d] l IH]; intros fuel Hl Hf; [destruct fuel; apply gets_ret|]. destruct fuel as [|fuel]; [cbn in Hf; lia|].
  apply Forall_cons in Hl as [(Hn & Hz & Hd) Hl]. change (enc_ext ((n, d) :: l)) with ((enc_string n ++ enc_string d) ++ enc_ext l). rewrite <- app_assoc.
  cbn [skip_extended]. rewrite zlen_cons. rewrite (proj2 (Z.leb_gt _ _)) by zlia. eapply gets_bind; [by apply get_cstring_gets|].
  eapply gets_bind; [by apply get_string_gets|]. replace (1 + zlen l - 1) with (zlen l) by lia. apply IH; [done|cbn in Hf; lia].
Qed.

(** Attributes as a request carries them. *)
Definition enc_attrs (a : Attrib) (l : list (list Z * list Z)) : list Z :=
  enc_attrib a ++ (if has (a_flags a) SSH2_FILEXFER_ATTR_EXTENDED then POKE_U32 (zlen l) ++ enc_ext l else []).

Lemma decode_attrib_total a l b rest :
  attrib_ok a -> Forall ext_ok l -> zlen l < 2 ^ 32 -> buf_wf b -> contents b = enc_attrs a l ++ rest ->
  exists b', decode_attrib b = (Ret (Ok (visible a)), b') /\ buf_wf b' /\ contents b' = rest.
Proof.
  intros Ha Hl Hn Hb Hc. unfold enc_attrs in Hc. rewrite <- app_assoc in Hc. destruct (decode_fields_gets a Ha b _ Hb Hc) as (b1 & E1 & Hx1 & Hc1 & _).
  unfold decode_attrib, mbind, io_bind, attempt. rewrite E1. cbn [a_flags visible]. destruct (has _ SSH2_FILEXFER_ATTR_EXTENDED); [|exists b1; split; [done|]; split; [apply Hx1|done]].
  rewrite <- app_assoc in Hc1. pose proof (zlen_nonneg l) as Hnn. destruct (get_u32_exact (zlen l) ltac:(lia) b1 _ (ext_wf _ _ Hx1) Hc1) as (b2 & E2 & Hx2 & Hc2 & _).
  rewrite E2. cbn [must mret io_ret reads]. destruct (skip_extended_gets l (length (contents b2)) Hl) with (b := b2) (rest := rest) as (b3 & E3 & Hx3 & Hc3 & _).
  - rewrite Hc2, length_app. pose proof (enc_ext_len l) as Hlen. unfold zlen in Hlen. lia.
  - apply Hx2.
  - done.
  - rewrite E3. exists b3. split; [done|]. split; [apply Hx3|done].
Qed.
End codec.

(** * What the system keeps to *)

(** The limits of the answers: a read is not longer than asked for, names and paths
    have their documented length, and users and groups have names. *)
Definition answer_ok (ev : event) : Prop :=
  match ev with
  | Ev e r =>
      match e in sysE T return T -> Prop with
      | sys_read _ len => fun r => match r with inr data => zlen data <= Z.max 0 len | inl _ => True end
      | sys_readdir _ => fun r => match r with Some name => zlen name <= 255 | None => True end
      | sys_realpath _ => fun r => match r with inr p => zlen p < PATH_MAX | inl _ => True end
      | sys_readlink _ len => fun r => match r with inr p => zlen p <= len | inl _ => True end
      | sys_user_from_uid _ | sys_group_from_gid _ => fun r => r <> None
      | _ => fun _ => True
      end r
  end.

(** The calls that list a directory. *)
Definition looks {T} (e : sysE T) : bool :=
  match e with sys_readdir _ | sys_lstat _ | sys_localtime _ | sys_time | sys_user_from_uid _ | sys_group_from_gid _ => true | _ => false end.

(** [entries k d] is the number of names that the stream [d] has left. *)
Class OSLimits `{OS} (entries : os -> Z -> nat) : Prop := {
  answers_ok : forall T (e : sysE T) k, answer_ok (Ev e (sys e k).1);
  entries_kept : forall T (e : sysE T) k d, looks e = true -> (entries (sys e k).2 d <= entries k d)%nat;
  entries_read : forall k d name k', sys (sys_readdir d) k = (Some name, k') -> (entries k' d < entries k d)%nat
}.

(** * Well-formed requests *)

Inductive kind := KName | KString | KU32 | KU64 | KAttrs.

Inductive encodes : kind -> list Z -> Prop :=
| encodes_name n : string_ok n -> no_nul n -> encodes KName (enc_string n)
| encodes_string v : string_ok v -> encodes KString (enc_string v)
| encodes_u32 v : 0 <= v < 2 ^ 32 -> encodes KU32 (POKE_U32 v)
| encodes_u64 v : 0 <= v < 2 ^ 64 -> encodes KU64 (POKE_U64 v)
| encodes_attrs a l : attrib_ok a -> Forall ext_ok l -> zlen l < 2 ^ 32 -> encodes KAttrs (enc_attrs a l).

(** The fields of a request in a row. *)
Inductive fields : list kind -> list Z -> Prop :=
| fields_nil : fields [] []
| fields_cons k ks e1 e2 : encodes k e1 -> fields ks e2 -> fields (k :: ks) (e1 ++ e2).

(** The fields that follow the number of a request. *)
Definition fields_of (f : request_fn) : list kind :=
  match f with
  | process_open_ => [KName; KU32; KAttrs]
  | process_close_ | process_fstat_ | process_readdir_ | process_extended_fstatvfs_ | process_extended_fsync_ => [KString]
  | process_read_ => [KString; KU64; KU32]
  | process_write_ => [KString; KU64; KString]
  | process_setstat_ | process_mkdir_ | process_extended_lsetstat_ => [KName; KAttrs]
  | process_fsetstat_ => [KString; KAttrs]
  | process_lstat_ | process_stat_ | process_opendir_ | process_remove_ | process_rmdir_ | process_realpath_ | process_readlink_
  | process_extended_statvfs_ => [KName]
  | process_rename_ | process_symlink_ | process_extended_posix_rename_ | process_extended_hardlink_ => [KName; KName]
  end.

(** * Total correctness *)

Section live.
Context `{Allocator} `{!ReliableAllocator _} `{OS} {entries : os -> Z -> nat} `{!OSLimits entries} `{SftpArgs}.

(** The command returns, and then [Q] holds. *)
Definition wpt {A} (m : io srv A) (Q : A -> srv -> Prop) (s : srv) : Prop := exists a s', m s = (Ret a, s') /\ Q a s'.

Lemma wpt_ret {A} (a : A) (Q : A -> srv -> Prop) s : Q a s -> wpt (mret a) Q s.
Proof. intros Hq. by exists a, s. Qed.
Lemma wpt_bind {A B} (m : io srv A) (f : A -> io srv B) Q s : wpt m (fun a => wpt (f a) Q) s -> wpt (m ≫= f) Q s.
Proof. intros (a & s1 & E1 & b & s2 & E2 & Hq). exists b, s2. split; [|done]. unfold mbind, io_bind. by rewrite E1. Qed.
Lemma wpt_mono {A} (m : io srv A) (P Q : A -> srv -> Prop) s : wpt m P s -> (forall a s', P a s' -> Q a s') -> wpt m Q s.
Proof. intros (a & s1 & E1 & Hp) HQ. exists a, s1. auto. Qed.
Lemma wpt_reads {A} (f : srv -> A) (Q : A -> srv -> Prop) s : Q (f s) s -> wpt (reads f) Q s.
Proof. intros Hq. by exists (f s), s. Qed.
Lemma wpt_updates f (Q : unit -> srv -> Prop) s : Q tt (f s) -> wpt (updates f) Q s.
Proof. intros Hq. by exists tt, (f s). Qed.
Lemma wpt_alloc n (Q : unit -> srv -> Prop) s : Q tt s -> wpt (alloc_or_die n) Q s.
Proof. intros Hq. unfold alloc_or_die. rewrite malloc_reliable. by apply wpt_ret. Qed.
Lemma wpt_xstrdup_io t (Q : cstring -> srv -> Prop) s : Q t s -> wpt (xstrdup_io t) Q s.
Proof. intros Hq. unfold xstrdup_io. rewrite malloc_reliable. by apply wpt_ret. Qed.

(** The input starts with the fields [ks] and continues with [q], the output has
    room for a message and, when [tb], the table can take a new handle. *)
Record ready (tb : bool) (ks : list kind) (q : list Z) (s : srv) : Prop := {
  rd_in : buf_wf (iqueue s);
  rd_q : exists e, fields ks e /\ contents (iqueue s) = e ++ q;
  rd_out : buf_wf (oqueue s);
  rd_unlocked : locked (oqueue s) = false;
  rd_room : zlen (contents (oqueue s)) + SFTP_MAX_MSG_LENGTH <= max_size (oqueue s);
  rd_table : tb = true -> free_ok (handles s) (first_unused_handle s) /\ zlen (handles s) < 2 ^ 31
}.
(** After the reply. *)
Definition after (q : list Z) (s : srv) : Prop := contents (iqueue s) = q.

Lemma wpt_from_in {A} (m : io sshbuf (result A)) tb k ks q (Q : A -> srv -> Prop) s :
  (forall e rest b, encodes k e -> buf_wf b -> contents b = e ++ rest -> exists a b', m b = (Ret (Ok a), b') /\ buf_wf b' /\ contents b' = rest) ->
  ready tb (k :: ks) q s -> (forall a s', ready tb ks q s' -> kernel s' = kernel s -> Q a s') -> wpt (from_in m) Q s.
Proof.
  intros Hm [Hi (e & Hf & Hc) ? ? ? ?] HQ. inversion Hf as [|? ? e1 e2 He Hf' E1 E2]; subst. rewrite <- app_assoc in Hc.
  destruct (Hm e1 _ _ He Hi Hc) as (a & b' & E & Hw & Hc'). exists a, (set_iqueue b' s). unfold from_in. rewrite E. split; [done|]. apply HQ; [|done]. split; try done. by exists e2.
Qed.

Lemma wpt_get {A} (m : SE sshbuf A) tb k ks q (Q : A -> srv -> Prop) s :
  (forall e, encodes k e -> exists a, Gets m e a) -> ready tb (k :: ks) q s ->
  (forall a s', ready tb ks q s' -> kernel s' = kernel s -> Q a s') -> wpt (get m) Q s.
Proof.
  intros Hm. apply wpt_from_in. intros e rest b He Hb Hc. destruct (Hm e He) as [a Ha]. destruct (Ha b rest Hb Hc) as (b' & E & Hx & Hc' & _).
  exists a, b'. unfold attempt. rewrite E. split; [done|]. split; [apply Hx|done].
Qed.

Lemma wpt_get_name tb ks q (Q : cstring -> srv -> Prop) s :
  ready tb (KName :: ks) q s -> (forall n s', ready tb ks q s' -> Q n s') -> wpt get_name Q s.
Proof.
  intros Hr HQ. unfold get_name. apply wpt_bind. eapply wpt_get; [|exact Hr|intros n s' Hr' _; apply wpt_ret; by apply HQ].
  intros e He. inversion He; subst. eexists. by apply get_cstring_gets.
Qed.

Lemma wpt_get_attrib tb ks q (Q : Attrib -> srv -> Prop) s :
  ready tb (KAttrs :: ks) q s -> (forall a s', ready tb ks q s' -> Q a s') -> wpt get_attrib Q s.
Proof.
  intros Hr HQ. unfold get_attrib. eapply wpt_from_in; [|exact Hr|by auto].
  intros e rest b He Hb Hc. inversion He; subst. eexists. by eapply decode_attrib_total.
Qed.

Lemma get_string_kind e : encodes KString e -> exists a, Gets sshbuf_get_string e a.
Proof. intros He. inversion He; subst. eexists. by apply get_string_gets. Qed.
Lemma get_u32_kind e : encodes KU32 e -> exists a, Gets sshbuf_get_u32 e a.
Proof. intros He. inversion He; subst. eexists. by apply get_u32_exact. Qed.
Lemma get_u64_kind e : encodes KU64 e -> exists a, Gets sshbuf_get_u64 e a.
Proof. intros He. inversion He; subst. eexists. by apply get_u64_exact. Qed.

Lemma wpt_get_handle tb ks q (Q : Z -> srv -> Prop) s :
  ready tb (KString :: ks) q s -> (forall h s', ready tb ks q s' -> kernel s' = kernel s -> Q h s') -> wpt get_handle Q s.
Proof.
  intros Hr HQ. apply wpt_bind. eapply wpt_get; [apply get_string_kind|exact Hr|]. intros a s' Hr' Hk. apply wpt_reads. by apply HQ.
Qed.

Lemma wpt_call {T} (e : sysE T) tb ks q (Q : T -> srv -> Prop) s :
  ready tb ks q s -> (forall r s', answer_ok (Ev e r) -> ready tb ks q s' -> sys e (kernel s) = (r, kernel s') -> Q r s') -> wpt (call e) Q s.
Proof.
  intros [] HQ. unfold wpt, call. pose proof (answers_ok T e (kernel s)) as Ha. destruct (sys e (kernel s)) as [r k] eqn:E. eexists _, _. split; [done|]. apply HQ; [done| |done]. by split.
Qed.

Lemma wpt_reply tb m v q (Q : unit -> srv -> Prop) s :
  ready tb [] q s -> Puts m v tt -> zlen v + 4 <= SFTP_MAX_MSG_LENGTH -> (forall s', after q s' -> Q tt s') -> wpt (reply m) Q s.
Proof.
  intros [Hi (e & Hf & Hc) Ho Hl Hroom _] Hm Hv HQ. inversion Hf; subst. unfold reply. destruct sshbuf_new_ok as [b En]. rewrite En.
  destruct (sshbuf_new_spec b En) as (Hw & Hcb & Hlb & Hmx). assert (SFTP_MAX_MSG_LENGTH < SSHBUF_SIZE_MAX - 4) as Hlt by done. zlen_facts.
  destruct (Hm b Hw Hlb) as (msg & Em & Hx & Hcm); [rewrite Hcb, Hmx, zlen_nil; lia|]. rewrite Em. rewrite Hcb, app_nil_l in Hcm.
  unfold wpt, sshbuf_put_stringb. rewrite sshbuf_ptr_wf, sshbuf_len_wf by apply Hx. cbn [default from_option id]. rewrite ztake_ge by done. rewrite Hcm.
  destruct (put_string_puts v) with (b := oqueue s) as (o & Eo & _ & _); [unfold string_ok; lia|done|done|rewrite enc_string_len; lia|].
  rewrite Eo. eexists _, _. split; [done|]. apply HQ. done.
Qed.

Lemma wpt_answer tb t id m v q (Q : unit -> srv -> Prop) s :
  ready tb [] q s -> Puts m v tt -> zlen v <= 200000 -> (forall s', after q s' -> Q tt s') ->
  wpt (reply (_ ← sshbuf_put_u8 t; _ ← sshbuf_put_u32 id; m)) Q s.
Proof.
  intros Hr Hm Hv HQ. eapply wpt_reply; [exact Hr| | |exact HQ].
  - eapply puts_bind; [apply put_u8_puts|]. eapply puts_bind; [apply put_u32_puts|exact Hm].
  - change SFTP_MAX_MSG_LENGTH with 262144. rewrite !zlen_app, zlen_POKE_U32. change (zlen [t]) with 1. lia.
Qed.

(** ** Replies *)

Lemma cstr_len v : zlen (cstr v) <= zlen v.
Proof. induction v as [|x v IH]; cbn; [done|]. destruct (x =? 0); rewrite ?zlen_nil, ?zlen_cons; zlia. Qed.

Lemma status_message_len status : zlen (status_to_message status) <= 32.
Proof.
  unfold status_to_message. assert (Forall (fun m => zlen (str m) <= 32) status_messages) as Hall by (repeat constructor; by vm_compute).
  destruct (status_messages !! _) as [m|] eqn:E; [|done]. by apply (Forall_lookup_1 _ _ _ _ Hall E).
Qed.

Lemma short_string v : zlen v <= 65536 -> string_ok v.
Proof. unfold string_ok. change SSHBUF_SIZE_MAX with 134217728. lia. Qed.

Lemma wpt_send_status tb id status q (Q : unit -> srv -> Prop) s :
  ready tb [] q s -> (forall s', after q s' -> Q tt s') -> wpt (send_status id status) Q s.
Proof.
  intros Hr HQ. apply wpt_bind, wpt_reads. pose proof (status_message_len status) as Hl. pose proof (cstr_len (status_to_message status)) as Hl'.
  eapply wpt_answer; [exact Hr| | |exact HQ].
  - eapply puts_bind; [apply put_u32_puts|]. apply puts_if. eapply puts_bind; apply put_text_puts, short_string; [lia|done].
  - rewrite zlen_app, zlen_POKE_U32. destruct (_ >=? 3); rewrite ?zlen_app, ?enc_string_len; change (zlen (cstr [])) with 0; [lia|rewrite zlen_nil; lia].
Qed.

Lemma wpt_send_data tb id data q (Q : unit -> srv -> Prop) s :
  zlen data <= 65536 -> ready tb [] q s -> (forall s', after q s' -> Q tt s') -> wpt (send_data id data) Q s.
Proof.
  intros Hd Hr HQ. eapply wpt_answer; [exact Hr|by apply put_string_puts, short_string| |exact HQ]. rewrite enc_string_len. lia.
Qed.

Lemma wpt_send_handle tb id h q (Q : unit -> srv -> Prop) s :
  ready tb [] q s -> (forall s', after q s' -> Q tt s') -> wpt (send_handle id h) Q s.
Proof.
  intros Hr HQ. apply wpt_bind, wpt_alloc. assert (zlen (handle_to_string h) = 4) as Hl by apply zlen_POKE_U32.
  eapply wpt_answer; [exact Hr|apply put_string_puts, short_string; lia| |exact HQ]. rewrite enc_string_len. lia.
Qed.

Lemma wpt_send_attrib tb id a q (Q : unit -> srv -> Prop) s :
  ready tb [] q s -> (forall s', after q s' -> Q tt s') -> wpt (send_attrib id a) Q s.
Proof. intros Hr HQ. eapply wpt_answer; [exact Hr|apply encode_attrib_puts| |exact HQ]. pose proof (enc_attrib_len a). lia. Qed.

Lemma put_u64s_puts l : Puts (put_u64s l) (concat (POKE_U64 <$> l)) tt.
Proof.
  induction l as [|x l IH]; [apply puts_ret|]. change (concat (POKE_U64 <$> x :: l)) with (POKE_U64 x ++ concat (POKE_U64 <$> l)).
  eapply puts_bind; [apply put_u64_puts|exact IH].
Qed.

Lemma wpt_send_statvfs tb id st q (Q : unit -> srv -> Prop) s :
  ready tb [] q s -> (forall s', after q s' -> Q tt s') -> wpt (send_statvfs id st) Q s.
Proof. intros Hr HQ. eapply wpt_answer; [exact Hr|apply put_u64s_puts| |exact HQ]. cbn [fmap list_fmap concat]. rewrite !zlen_app, !zlen_POKE_U64, zlen_nil. lia. Qed.

(** The limit for one entry of a list of names. *)
Definition entry_ok (n : Z) (st : Stat) : Prop := zlen (s_name st) + zlen (s_long_name st) <= n.

Lemma put_stats_puts n l : 0 <= n <= 65536 -> Forall (entry_ok n) l -> exists v, Puts (put_stats l) v tt /\ zlen v <= zlen l * (n + 40).
Proof.
  intros Hn. induction l as [|st l IH]; intros Hl; cbn [put_stats]; [exists []; split; [apply puts_ret|done]|].
  apply Forall_cons in Hl as [Hst Hl]. destruct (IH Hl) as (v & Hv & Hlen). unfold entry_ok in Hst. pose proof (cstr_len (s_name st)). pose proof (cstr_len (s_long_name st)). zlen_facts.
  eexists. split; [eapply puts_bind; [apply put_text_puts, short_string; lia|]; eapply puts_bind; [apply put_text_puts, short_string; lia|]; eapply puts_bind; [apply encode_attrib_puts|exact Hv]|].
  pose proof (enc_attrib_len (s_attrib st)). rewrite !zlen_app, !enc_string_len, zlen_cons. lia.
Qed.

Lemma wpt_send_names tb id l n q (Q : unit -> srv -> Prop) s :
  0 <= n <= 65536 -> Forall (entry_ok n) l -> zlen l * (n + 40) <= 190000 ->
  ready tb [] q s -> (forall s', after q s' -> Q tt s') -> wpt (send_names id l) Q s.
Proof.
  intros Hn Hl Hsz Hr HQ. destruct (put_stats_puts n l Hn Hl) as (v & Hv & Hlen).
  eapply wpt_answer; [exact Hr|eapply puts_bind; [apply put_u32_puts|exact Hv]| |exact HQ]. rewrite zlen_app, zlen_POKE_U32. lia.
Qed.

Lemma wpt_unless_ok tb id status q (Q : unit -> srv -> Prop) s :
  ready tb [] q s -> (forall s', after q s' -> Q tt s') -> wpt (unless_ok id status) Q s.
Proof.
  intros Hr HQ. unfold unless_ok. destruct (_ =? _); [|by eapply wpt_send_status]. apply wpt_ret, HQ. destruct Hr as [? (e & Hf & Hc) ? ? ? ?]. by inversion Hf; subst.
Qed.

(** ** Handles *)

Lemma wpt_handle_at i h (Q : Handle -> srv -> Prop) s : 0 <= i -> handles s !! Z.to_nat i = Some h -> Q h s -> wpt (handle_at i) Q s.
Proof. intros Hi Hh Hq. exists h, s. unfold handle_at. by rewrite (proj2 (Z.ltb_ge _ _) Hi), Hh. Qed.

Lemma ready_handles tb ks q l f s : ready tb ks q s -> ready false ks q (set_handles l f s).
Proof. intros []. by split. Qed.

Lemma ready_forget tb ks q s : ready tb ks q s -> ready false ks q s.
Proof. intros []. by split. Qed.

Lemma wpt_handle_unused i h tb ks q (Q : unit -> srv -> Prop) s :
  0 <= i -> handles s !! Z.to_nat i = Some h -> ready tb ks q s ->
  (forall s', ready false ks q s' -> handles s' = <[Z.to_nat i := set_unused (first_unused_handle s) h]> (handles s) -> first_unused_handle s' = i -> Q tt s') ->
  wpt (handle_unused i) Q s.
Proof.
  intros Hi Hh Hr HQ. apply wpt_bind. eapply wpt_handle_at; [done..|]. apply wpt_bind, wpt_reads, wpt_bind, wpt_updates, wpt_updates.
  apply HQ; [|done..]. destruct Hr. by split.
Qed.

Lemma wpt_handle_close handle tb q (Q : option Z -> srv -> Prop) s :
  ready tb [] q s -> (forall r s', ready false [] q s' -> Q r s') -> wpt (handle_close handle) Q s.
Proof.
  intros Hr HQ. unfold handle_close. apply wpt_bind, wpt_reads, wpt_bind, wpt_reads.
  assert (forall u (e : Handle -> sysE (option Z)), handle_is_ok s handle u = true -> wpt (h ← handle_at handle; ret ← call (e h); _ ← handle_unused handle; mret ret) Q s) as Hclose.
  { intros u e Hok. apply handle_is_ok_inv in Hok as (Hi & h & Eh & _). apply wpt_bind. eapply wpt_handle_at; [done..|]. apply wpt_bind.
    assert (handles s !! Z.to_nat handle = Some h) as Eh' by done. destruct (sys (e h) (kernel s)) as [r k] eqn:Es. exists r, (set_kernel k (Ev (e h) r :: calls s) s).
    unfold call. rewrite Es. split; [done|]. apply wpt_bind. eapply wpt_handle_unused; [done|exact Eh'|destruct Hr; split; done|]. intros s' Hr' _ _. apply wpt_ret. by apply HQ. }
  destruct (handle_is_ok s handle HANDLE_FILE) eqn:Ef; [by apply (Hclose HANDLE_FILE (fun h => sys_close (h_fd h)))|].
  destruct (handle_is_ok s handle HANDLE_DIR) eqn:Ed; [by apply (Hclose HANDLE_DIR (fun h => sys_closedir (h_dirp h)))|].
  apply wpt_ret, HQ. by eapply ready_forget.
Qed.

Lemma wpt_take use name fd flags dirp tb q (Q : Z -> srv -> Prop) s i h :
  first_unused_handle s = Z.of_nat i -> handles s !! i = Some h -> ready tb [] q s -> (forall j s', ready false [] q s' -> Q j s') ->
  wpt (take_handle use name fd flags dirp) Q s.
Proof.
  intros Ei Eh Hr HQ. unfold take_handle. apply wpt_bind, wpt_reads. rewrite Ei. apply wpt_bind. eapply wpt_handle_at; [lia|by rewrite Nat2Z.id|].
  apply wpt_bind, wpt_updates, wpt_bind, wpt_xstrdup_io, wpt_bind, wpt_updates, wpt_ret, HQ. by eapply ready_handles, ready_handles.
Qed.

Lemma wpt_handle_new use name fd flags dirp q (Q : Z -> srv -> Prop) s :
  ready true [] q s -> (forall i s', ready false [] q s' -> Q i s') -> wpt (handle_new use name fd flags dirp) Q s.
Proof.
  intros Hr HQ. destruct (rd_table _ _ _ _ Hr eq_refl) as [(l & Hc & _) Hn]. unfold handle_new. apply wpt_bind, wpt_reads, wpt_bind, wpt_reads. unfold num_handles.
  destruct (Z.eqb_spec (first_unused_handle s) (-1)) as [Hf|Hf].
  - destruct (_ <=? _); [apply wpt_ret, HQ; by eapply ready_forget|]. pose proof (zlen_nonneg (handles s)). cbn [andb].
    apply wpt_bind, wpt_bind, wpt_alloc, wpt_bind, wpt_updates. unfold i32. rewrite Z.mod_small by lia. replace (zlen (handles s) + 2 ^ 31 - 2 ^ 31) with (zlen (handles s)) by lia.
    assert (Z.to_nat (zlen (handles s)) = length (handles s)) as El by (unfold zlen; lia).
    eapply (wpt_handle_unused _ fresh_handle); [done|cbn; rewrite El; by apply list_lookup_middle|by eapply ready_handles|]. intros s' Hr' Hh' Hf'.
    eapply (wpt_take _ _ _ _ _ _ _ _ _ (length (handles s))); [rewrite Hf'; unfold zlen; lia| |exact Hr'|exact HQ].
    rewrite Hh', El. cbn. apply list_lookup_insert_eq. rewrite length_app. cbn. lia.
  - cbn [andb]. apply wpt_bind, wpt_ret. inversion Hc as [E|i h l0 Hi _ _ E]; [congruence|]. by eapply (wpt_take _ _ _ _ _ _ _ _ _ i).
Qed.

Lemma wpt_handle_update handle f bytes (P : srv -> Prop) (Q : unit -> srv -> Prop) s :
  P s -> (forall l, P s -> P (set_handles l (first_unused_handle s) s)) -> (forall s', P s' -> Q tt s') -> wpt (handle_update handle f bytes) Q s.
Proof.
  intros Hp Hs HQ. apply wpt_bind, wpt_reads. destruct (handle_is_ok s handle HANDLE_FILE) eqn:Ef; cbn [andb]; [|by apply wpt_ret, HQ].
  destruct (_ >? 0); [|by apply wpt_ret, HQ]. apply handle_is_ok_inv in Ef as (Hi & h & Eh & _). apply wpt_bind. eapply wpt_handle_at; [done..|]. by apply wpt_updates, HQ, Hs.
Qed.

(** ** Directories *)

Lemma ztake_short {A} n (l : list A) : 0 <= n -> zlen (ztake n l) <= n.
Proof. intros Hn. destruct (Z.le_gt_cases (zlen l) n); [by rewrite ztake_ge|rewrite zlen_ztake; lia]. Qed.

Lemma wpt_ls_file name st remote si tb ks q (Q : cstring -> srv -> Prop) s :
  ready tb ks q s ->
  (forall x s', ready tb ks q s' -> zlen x <= 1023 -> (forall d, (entries (kernel s') d <= entries (kernel s) d)%nat) -> Q x s') -> wpt (ls_file name st remote si) Q s.
Proof.
  intros Hr HQ. unfold ls_file. apply wpt_bind. eapply wpt_call; [exact Hr|]. intros ltime s1 _ Hr1 E1.
  assert (forall T (e : sysE T) (s0 s' : srv) r, sys e (kernel s0) = (r, kernel s') -> looks e = true -> forall d, (entries (kernel s') d <= entries (kernel s0) d)%nat) as Hle.
  { intros T e s0 s' r E He d. pose proof (entries_kept T e (kernel s0) d He) as Hk. by rewrite E in Hk. }
  pose proof (Hle _ _ _ _ _ E1 eq_refl) as L1.
  apply wpt_bind, (wpt_mono _ (fun x s' => ready tb ks q s' /\ (forall d, (entries (kernel s') d <= entries (kernel s) d)%nat) /\ exists u g lc, x = (Some u, Some g, lc))).
  { destruct remote; [apply wpt_ret; split; [done|]; split; [done|]; eauto|]. apply wpt_bind. eapply wpt_call; [exact Hr1|]. intros [u|] s2 Hu Hr2 E2; [|done].
    apply wpt_bind. eapply wpt_call; [exact Hr2|]. intros [g|] s3 Hg Hr3 E3; [|done]. apply wpt_ret. split; [done|]. split; [|eauto].
    intros d. pose proof (Hle _ _ _ _ _ E2 eq_refl d). pose proof (Hle _ _ _ _ _ E3 eq_refl d). specialize (L1 d). lia. }
  intros x s2 (Hr2 & L2 & u & g & lc & ->).
  apply wpt_bind, (wpt_mono _ (fun _ s' => ready tb ks q s' /\ (forall d, (entries (kernel s') d <= entries (kernel s) d)%nat))).
  { destruct ltime; [|by apply wpt_ret]. apply wpt_bind. eapply wpt_call; [exact Hr2|]. intros now s3 _ Hr3 E3. apply wpt_ret. split; [done|].
    intros d. pose proof (Hle _ _ _ _ _ E3 eq_refl d). specialize (L2 d). lia. }
  intros tbuf s3 (Hr3 & L3). cbv beta iota zeta. apply wpt_xstrdup_io. apply HQ; [done| |done]. by apply ztake_short.
Qed.

Lemma wpt_readdir_loop fuel dirp path nstats stats tb q (Q : list Stat -> srv -> Prop) s :
  (entries (kernel s) dirp < fuel)%nat -> ready tb [] q s -> zlen stats < 100 -> Forall (entry_ok 1278) stats ->
  (forall l s', ready tb [] q s' -> zlen l <= 100 -> Forall (entry_ok 1278) l -> Q l s') -> wpt (readdir_loop fuel dirp path nstats stats) Q s.
Proof.
  revert nstats stats s. induction fuel as [|fuel IH]; intros nstats stats s Hf Hr Hn Hl HQ; [lia|]. cbn [readdir_loop]. apply wpt_bind.
  eapply wpt_call; [exact Hr|]. intros [d_name|] s1 Hd Hr1 E1; [|apply wpt_ret, HQ; [done|lia|done]]. apply entries_read in E1. cbn in Hd. cbv zeta.
  apply wpt_bind. assert (forall m, (if (zlen stats >=? nstats) then alloc_or_die m else mret tt) s1 = (Ret tt, s1)) as Ealloc.
  { intros m. unfold alloc_or_die. rewrite malloc_reliable. by destruct (_ >=? _). }
  exists tt, s1. split; [apply Ealloc|]. apply wpt_bind. eapply wpt_call; [exact Hr1|]. intros r s2 _ Hr2 E2.
  pose proof (entries_kept _ (sys_lstat (ztake (PATH_MAX - 1) (path ++ (if bool_decide (path = str "/") then [] else str "/") ++ d_name))) (kernel s1) dirp eq_refl) as L2. rewrite E2 in L2. cbn in L2.
  destruct r as [e|st]; [apply IH; [lia|done..]|]. apply wpt_bind, wpt_xstrdup_io, wpt_bind. eapply wpt_ls_file; [exact Hr2|]. intros long s3 Hr3 Hlong L3. specialize (L3 dirp).
  assert (Forall (entry_ok 1278) (stats ++ [mk_Stat d_name long (stat_to_attrib st)])) as Hl' by (apply Forall_app; split; [done|]; constructor; [unfold entry_ok; cbn; lia|constructor]).
  assert (zlen (stats ++ [mk_Stat d_name long (stat_to_attrib st)]) = zlen stats + 1) as En by (rewrite zlen_app; done).
  destruct (Z.eqb_spec (zlen (stats ++ [mk_Stat d_name long (stat_to_attrib st)])) 100) as [E|E]; [apply wpt_ret, HQ; [done|lia|done]|].
  apply IH; [lia|done|lia|done|done].
Qed.

(** ** Requests *)

Ltac live_step :=
  lazymatch goal with
  | |- wpt (mbind _ _) _ _ => apply wpt_bind
  | |- wpt (mret _) _ _ => apply wpt_ret
  | |- wpt (reads _) _ _ => apply wpt_reads
  | |- wpt get_name _ _ => eapply wpt_get_name; [eassumption|intros ? ? ?]
  | |- wpt get_attrib _ _ => eapply wpt_get_attrib; [eassumption|intros ? ? ?]
  | |- wpt get_handle _ _ => eapply wpt_get_handle; [eassumption|intros ? ? ? ?]
  | |- wpt (get sshbuf_get_u32) _ _ => eapply wpt_get; [apply get_u32_kind|eassumption|intros ? ? ? ?]
  | |- wpt (get sshbuf_get_u64) _ _ => eapply wpt_get; [apply get_u64_kind|eassumption|intros ? ? ? ?]
  | |- wpt (get sshbuf_get_string) _ _ => eapply wpt_get; [apply get_string_kind|eassumption|intros ? ? ? ?]
  | |- wpt (alloc_or_die _) _ _ => apply wpt_alloc
  | |- wpt (xstrdup_io _) _ _ => apply wpt_xstrdup_io
  | |- wpt (call _) _ _ => eapply wpt_call; [eassumption|intros ? ? ? ? ?]
  | |- wpt (send_status _ _) _ _ => eapply wpt_send_status; [eassumption|intros ? ?]
  | |- wpt (send_handle _ _) _ _ => eapply wpt_send_handle; [eassumption|intros ? ?]
  | |- wpt (send_attrib _ _) _ _ => eapply wpt_send_attrib; [eassumption|intros ? ?]
  | |- wpt (send_statvfs _ _) _ _ => eapply wpt_send_statvfs; [eassumption|intros ? ?]
  | |- wpt (unless_ok _ SSH2_FX_OK) _ _ => apply wpt_ret
  | |- wpt (unless_ok _ _) _ _ => eapply wpt_unless_ok; [eassumption|intros ? ?]
  | |- wpt (handle_close _) _ _ => eapply wpt_handle_close; [eassumption|intros ? ? ?]
  | |- wpt (handle_new _ _ _ _ _) _ _ => eapply wpt_handle_new; [eassumption|intros ? ? ?]
  | |- wpt (when_flag _ _ _ _) _ _ => unfold when_flag at 1
  | |- wpt (match ?x with _ => _ end) _ _ => let E := fresh "E" in destruct x eqn:E
  end.
Ltac live := repeat (live_step; cbv beta iota zeta); try eassumption.

(** The command carries out a request whose fields are [ks]. *)
Definition total (ks : list kind) (f : Z -> io srv unit) : Prop := forall id q s, ready true ks q s -> wpt (f id) (fun _ => after q) s.

Lemma process_read_total : total [KString; KU64; KU32] process_read.
Proof.
  intros id q s Hr. unfold process_read. live. eapply wpt_send_data; [|eassumption|].
  - cbn in *. destruct (Z.gtb_spec a0 READ_BUF) as [|Hle]; unfold READ_BUF in *; lia.
  - intros sx Hx. live. eapply (wpt_handle_update _ _ _ (after q)); [done|done|]. intros sy Hy. live.
Qed.

Lemma process_write_total : total [KString; KU64; KString] process_write.
Proof.
  intros id q s Hr. unfold process_write, write_seek. live;
    (eapply (wpt_handle_update _ _ _ (ready false [] q)); [by eapply ready_forget|intros; by eapply ready_handles|]; intros sy Hy; live).
Qed.

Lemma process_readdir_total fuel id q s :
  (forall d, (entries (kernel s) d < fuel)%nat) -> ready true [KString] q s -> wpt (process_readdir fuel id) (fun _ => after q) s.
Proof.
  intros Hf Hr. unfold process_readdir. live. eapply wpt_readdir_loop; [|eassumption|done|constructor|].
  - match goal with Hk : kernel _ = kernel s |- _ => rewrite Hk end. apply Hf.
  - intros names sx Hx Hn Hl. live. eapply (wpt_send_names _ _ _ 1278); [lia|done|lia|eassumption|done].
Qed.

Lemma process_names_total : total [KName] process_realpath /\ total [KName] process_readlink.
Proof.
  split; intros id q s Hr; [unfold process_realpath|unfold process_readlink]; live;
    (eapply (wpt_send_names _ _ _ (2 * 4095)); [lia|apply Forall_singleton; unfold entry_ok; cbn [s_name s_long_name]|rewrite zlen_cons, zlen_nil; lia|eassumption|done]).
  - cbn in *. unfold PATH_MAX in *. lia.
  - cbn in *. unfold PATH_MAX in *. lia.
  - match goal with |- context [cstr ?b] => pose proof (cstr_len b) end. cbn in *. unfold PATH_MAX in *. lia.
Qed.

Lemma run_request_total fuel f id q s :
  (forall d, (entries (kernel s) d < fuel)%nat) -> ready true (fields_of f) q s -> wpt (run_request fuel f id) (fun _ => after q) s.
Proof.
  intros Hf Hr. destruct f; cbn [fields_of run_request] in *;
    first [ by apply process_read_total | by apply process_write_total | by apply process_readdir_total
          | by apply (proj1 process_names_total) | by apply (proj2 process_names_total)
          | unfold process_open, process_close, process_stat, process_lstat, process_do_stat, process_fstat, process_setstat, process_fsetstat, process_opendir,
              process_remove, process_mkdir, process_rmdir, process_rename, xrename, process_symlink, process_extended_posix_rename,
              process_extended_statvfs, process_extended_fstatvfs, process_extended_hardlink, process_extended_fsync, process_extended_lsetstat; live ].
Qed.

(** * One message *)

Context `{!OSLaws}.

(** A request that returns does what every request does. *)
Lemma wpt_and {A} (m : io srv A) (P Q : A -> srv -> Prop) s : wpt m P s -> wpi m Q s -> wpt m (fun a s' => P a s' /\ Q a s') s.
Proof. intros (a & s' & E & Hp) Hq. exists a, s'. unfold wpi in Hq. by rewrite E in Hq. Qed.

(** The type and the contents of a message for the request [h] with number [id]. *)
Inductive request (h : sftp_handler) (id : Z) : Z -> list Z -> Prop :=
| plain_request body extra : h ∈ handlers -> fields (fields_of (rq_handler h)) body -> request h id (rq_type h) (POKE_U32 id ++ body ++ extra)
| extended_request body extra :
    h ∈ extended_handlers -> fields (fields_of (rq_handler h)) body ->
    request h id SSH2_FXP_EXTENDED (POKE_U32 id ++ enc_string (str (rq_ext_name h)) ++ body ++ extra).

(** A refused request leaves its fields in the queue. *)
Lemma serve_total fuel h id q s :
  (forall d, (entries (kernel s) d < fuel)%nat) -> ready true (fields_of (rq_handler h)) q s ->
  wpt (serve fuel h id) (fun _ s' => exists e1 e2, contents (iqueue s) = e1 ++ e2 ++ q /\ contents (iqueue s') = e2 ++ q) s.
Proof.
  intros Hf Hr. destruct (rd_q _ _ _ _ Hr) as (e & He & Hc). unfold serve. destruct (request_permitted h).
  - eapply wpt_mono; [by apply run_request_total|]. intros [] s' Ha. exists e, []. by split.
  - assert (ready false [] (e ++ q) s) as Hr' by (destruct Hr; split; try done; exists []; by split; [constructor|]).
    eapply wpt_send_status; [exact Hr'|]. intros s' Ha. exists [], e. by split.
Qed.

Lemma plain_found h : h ∈ handlers -> List.find (fun h' => rq_type h =? rq_type h') handlers = Some h /\ rq_type h <> SSH2_FXP_INIT /\ rq_type h <> SSH2_FXP_EXTENDED.
Proof. intros Hh. unfold handlers in Hh. set_unfold in Hh. repeat (destruct Hh as [->|Hh]; [by vm_compute|]). done. Qed.

Lemma extended_found h :
  h ∈ extended_handlers -> List.find (fun h' => bool_decide (cstr (str (rq_ext_name h)) = str (rq_ext_name h'))) extended_handlers = Some h /\
  string_ok (str (rq_ext_name h)) /\ no_nul (str (rq_ext_name h)).
Proof.
  intros Hh. unfold extended_handlers in Hh. set_unfold in Hh.
  repeat (destruct Hh as [->|Hh]; [split; [by vm_compute|]; split; [by vm_compute|]; repeat (apply Forall_cons; split; [done|]); apply Forall_nil_2|]). done.
Qed.

Lemma wpt_get_exact {A} (m : SE sshbuf A) e a q (Q : A -> srv -> Prop) s :
  Gets m e a -> Inv s -> contents (iqueue s) = e ++ q ->
  (forall b, contents b = q -> Inv (set_iqueue b s) -> Q a (set_iqueue b s)) -> wpt (get m) Q s.
Proof.
  intros Hm [Hs [Hw Hb] Ho Hf Hown] Hc HQ. destruct (Hm _ _ Hw Hc) as (b & E & Hx & Hc' & _). exists a, (set_iqueue b s). unfold get, from_in, attempt. rewrite E.
  split; [done|]. apply HQ; [done|]. split; [done| |done..]. rewrite <- Hc' in Hc. by eapply readable_rest; [exact Hb|apply Hx|exact Hc].
Qed.

Lemma answered_before t id e b s s' : contents (iqueue s) = e ++ contents b -> answered t id (set_iqueue b s) s' -> answered t id s s'.
Proof. intros Hc (v & [Hi Hsent [e' He] Hst] & Hv). exists v. split; [|done]. split; [done..| |done]. exists (e ++ e'). cbn in He. by rewrite Hc, He, app_assoc. Qed.

(** The rest of the state that a request needs. *)
Record serving (fuel : nat) (s : srv) : Prop := {
  sv_inv : Inv s;
  sv_init : init_done s = true;
  sv_unlocked : locked (oqueue s) = false;
  sv_room : zlen (contents (oqueue s)) + SFTP_MAX_MSG_LENGTH <= max_size (oqueue s);
  sv_table : zlen (handles s) < 2 ^ 31;
  sv_dirs : forall d, (entries (kernel s) d < fuel)%nat
}.

Lemma serving_ready fuel ks e q s : serving fuel s -> fields ks e -> contents (iqueue s) = e ++ q -> ready true ks q s.
Proof. intros [[? [? ?] ? ? ?] ? ? ? ? ?] Hf Hc. split; try done. by exists e. Qed.

Lemma serve_answers fuel h id e q s :
  h ∈ handlers ++ extended_handlers -> serving fuel s -> fields (fields_of (rq_handler h)) e -> contents (iqueue s) = e ++ q ->
  wpt (serve fuel h id) (fun _ s' => answered (reply_type (rq_handler h)) id s s' /\ exists e1 e2, e = e1 ++ e2 /\ contents (iqueue s') = e2 ++ q) s.
Proof.
  intros Hh Hsv Hf Hc. eapply wpt_mono; [apply wpt_and; [eapply serve_total; [apply Hsv|by eapply serving_ready]|apply serve_spec; [done|apply Hsv]]|].
  intros [] s' [(e1 & e2 & Hc1 & Hc2) Ha]. split; [done|]. exists e1, e2. split; [|done]. rewrite Hc, app_assoc in Hc1. by apply app_inv_tail in Hc1.
Qed.

Lemma dispatch_total fuel h id ty e q s :
  request h id ty e -> 0 <= id < 2 ^ 32 -> serving fuel s -> contents (iqueue s) = e ++ q ->
  wpt (if ty =? SSH2_FXP_INIT then _ ← process_init; updates set_init_done
       else if ty =? SSH2_FXP_EXTENDED then after_init (process_extended fuel) else after_init (process_default fuel ty))
    (fun _ s' => answered (reply_type (rq_handler h)) id s s' /\ exists e1 e2, e = e1 ++ e2 /\ contents (iqueue s') = e2 ++ q) s.
Proof.
  intros Hq Hid Hsv Hc. destruct Hq as [body extra Hh Hf|body extra Hh Hf].
  - destruct (plain_found h Hh) as (Hfind & Hn1 & Hn2). rewrite (proj2 (Z.eqb_neq _ _) Hn1), (proj2 (Z.eqb_neq _ _) Hn2).
    unfold after_init. apply wpt_bind, wpt_reads. rewrite (sv_init _ _ Hsv). apply wpt_bind. rewrite <- !app_assoc in Hc.
    eapply wpt_get_exact; [by apply get_u32_exact|apply Hsv|exact Hc|]. intros b Hb Hi. unfold process_default. rewrite Hfind.
    eapply wpt_mono; [eapply (serve_answers fuel h id body (extra ++ q)); [apply elem_of_app; by left|destruct Hsv; by split|done|done]|].
    intros [] s' [Ha (e1 & e2 & -> & Hc')]. split; [eapply answered_before; [rewrite Hb; exact Hc|exact Ha]|].
    exists (POKE_U32 id ++ e1), (e2 ++ extra). by rewrite <- !app_assoc in *.
  - destruct (extended_found h Hh) as (Hfind & Hok & Hnul). change (SSH2_FXP_EXTENDED =? SSH2_FXP_INIT) with false. rewrite Z.eqb_refl.
    unfold after_init. apply wpt_bind, wpt_reads. rewrite (sv_init _ _ Hsv). apply wpt_bind. rewrite <- !app_assoc in Hc.
    eapply wpt_get_exact; [by apply get_u32_exact|apply Hsv|exact Hc|]. intros b Hb Hi. unfold process_extended, get_name. apply wpt_bind, wpt_bind.
    eapply wpt_get_exact; [by apply get_cstring_gets|done|exact Hb|]. intros b2 Hb2 Hi2. apply wpt_ret. rewrite Hfind.
    eapply wpt_mono; [eapply (serve_answers fuel h id body (extra ++ q)); [apply elem_of_app; by right|destruct Hsv; by split|done|done]|].
    intros [] s' [Ha (e1 & e2 & -> & Hc')]. split.
    + eapply (answered_before _ _ (POKE_U32 id) b); [by rewrite Hc, Hb|]. eapply (answered_before _ _ (enc_string (str (rq_ext_name h))) b2); [cbn; by rewrite Hb, Hb2|exact Ha].
    + exists (POKE_U32 id ++ enc_string (str (rq_ext_name h)) ++ e1), (e2 ++ extra). by rewrite <- !app_assoc in *.
Qed.

(** C22: the server answers (liveness).  When the input starts with a complete message
    that holds a well-formed request, there is memory, the output queue has the
    room that the loop checks for, the table has fewer than 2^31 handles and
    directories are finite, then [process] returns: it takes exactly this message
    from the input and adds exactly one message to the output, a reply to this
    request with its number. *)
Theorem sftp_request_answered fuel h id ty e rest s :
  request h id ty e -> 0 <= id < 2 ^ 32 -> zlen (ty :: e) <= SFTP_MAX_MSG_LENGTH -> serving fuel s -> contents (iqueue s) = enc_string (ty :: e) ++ rest ->
  exists s' v, process fuel s = (Ret tt, s') /\ contents (iqueue s') = rest /\ contents (oqueue s') = contents (oqueue s) ++ enc_string v /\
    reply_ok (reply_type (rq_handler h)) id v /\ Inv s'.
Proof.
  intros Hq Hid Hlen Hsv Hc.
  assert (wpt (process fuel) (fun _ s' => answered (reply_type (rq_handler h)) id s s' /\ contents (iqueue s') = rest) s) as ([] & s' & E & (v & Hfin & Hv) & Hrest);
    [|exists s', v; by destruct Hfin].
  assert (4 <= zlen e) as H4 by (destruct Hq; rewrite zlen_app, zlen_POKE_U32; zlia).
  pose proof (sv_inv _ _ Hsv) as Hi. pose proof Hi as [_ [Hw _] _ _ _]. unfold enc_string in Hc. set (n := zlen (ty :: e)) in *. assert (n = 1 + zlen e) as Hn by apply zlen_cons.
  rewrite <- app_assoc in Hc. assert (zlen (contents (iqueue s)) = 4 + n + zlen rest) as Htot by (rewrite Hc, !zlen_app, zlen_POKE_U32; fold n; lia).
  change SFTP_MAX_MSG_LENGTH with 262144 in Hlen. zlen_facts. unfold process. apply wpt_bind, wpt_reads. rewrite sshbuf_len_wf by done. rewrite (proj2 (Z.ltb_ge _ _)) by lia.
  apply wpt_bind, wpt_reads. rewrite sshbuf_ptr_wf by done. change (default [] (Some ?l)) with l. assert (PEEK_U32 (contents (iqueue s)) = n) as -> by (rewrite Hc, PEEK_POKE_U32; apply u32_small; lia).
  change SFTP_MAX_MSG_LENGTH with 262144. rewrite Z.gtb_ltb, (u32_small (n + 4)), !(proj2 (Z.ltb_ge _ _)) by lia. cbv zeta.
  apply wpt_bind. eapply wpt_get_exact; [change 4 with (zlen (POKE_U32 n)); apply consume_gets|done|exact Hc|]. intros b1 Hb1 Hi1.
  apply wpt_bind. eapply wpt_get_exact; [apply (get_u8_gets ty)|done|exact Hb1|]. intros b2 Hb2 Hi2.
  apply wpt_bind. eapply wpt_mono; [apply (dispatch_total fuel h id ty e rest); [done|done|destruct Hsv; by split|done]|].
  intros [] s3 [Ha (e1 & e2 & -> & Hc3)].
  assert (answered (reply_type (rq_handler h)) id s s3) as Ha'.
  { apply (answered_before _ _ (POKE_U32 n) b1); [by rewrite Hc, Hb1|]. apply (answered_before _ _ [ty] b2); [cbn; by rewrite Hb1, Hb2|done]. }
  destruct Ha' as (v & Hfin & Hv). pose proof (fin_inv _ _ _ Hfin) as Hi3. pose proof Hi3 as [_ [Hw3 _] _ _ _].
  apply wpt_bind, wpt_reads. rewrite sshbuf_len_wf, Hc3, zlen_app by done. rewrite zlen_app in Hn.
  pose proof (zlen_nonneg e1). pose proof (zlen_nonneg e2). pose proof (zlen_nonneg rest).
  destruct (Z.ltb_spec (zlen (contents (iqueue s)) - 4) (zlen e2 + zlen rest)) as [|_]; [lia|]. replace (zlen (contents (iqueue s)) - 4 - (zlen e2 + zlen rest)) with (n - zlen e2) by lia.
  destruct (Z.ltb_spec n (n - zlen e2)) as [|_]; [lia|].
  destruct (Z.gtb_spec n (n - zlen e2)) as [Hgt|Hle].
  - eapply wpt_get_exact; [replace (n - (n - zlen e2)) with (zlen e2) by lia; apply consume_gets|done|exact Hc3|]. intros b4 Hb4 Hi4. split; [|done]. exists v. split; [|done]. destruct Hfin as [_ Hsent [e' He'] Hst].
    split; [done|done| |done]. exists (e' ++ e2). cbn. by rewrite He', Hc3, Hb4, app_assoc.
  - apply wpt_ret. split; [by exists v|]. assert (e2 = []) as -> by (apply zlen_0_nil; lia). done.
Qed.
End live.

(** * Examples *)

Lemma toy_os_limits : @OSLimits toy_os (fun _ _ => 0%nat).
Proof.
  split; [|done|].
  - intros T e k. destruct e; cbn; try done.
    destruct (Z.le_gt_cases 0 len) as [Hl|Hl]; [pose proof (ztake_short len [104; 105] Hl); lia|]. rewrite Z.max_l by lia. by destruct len.
  - by intros k d name k' [=].
Qed.

Definition full_buf (l : list Z) : sshbuf := mk_sshbuf l 0 (zlen l) SSHBUF_SIZE_MAX (zlen l) false 1.
Lemma full_buf_wf l : zlen l <= SSHBUF_SIZE_MAX -> buf_wf (full_buf l) /\ contents (full_buf l) = l.
Proof.
  intros Hl. pose proof (zlen_nonneg l). split; [split; cbn; buf_unfold; lia|]. unfold contents, full_buf. cbn [off size cd]. rewrite Z.sub_0_r.
  rewrite slice_ztake by lia. by rewrite zdrop_0, ztake_ge.
Qed.

Definition toy_body : list Z := enc_string (str "/f") ++ POKE_U32 SSH2_FXF_READ ++ enc_attrs attrib_clear [].
Definition toy_open : list Z := POKE_U32 7 ++ toy_body ++ [].
Definition toy_server : @srv toy_os := @mk_srv toy_os (full_buf (enc_string (SSH2_FXP_OPEN :: toy_open) ++ [1; 2])) (full_buf []) 3 true [] (-1) [] [].

Lemma sftp_request_answered_witness :
  exists s' v, @process alloc_all toy_os readonly_args 1 toy_server = (Ret tt, s') /\ contents (iqueue s') = [1; 2] /\
    contents (oqueue s') = enc_string v /\ reply_ok SSH2_FXP_HANDLE 7 v.
Proof.
  destruct (full_buf_wf (enc_string (SSH2_FXP_OPEN :: toy_open) ++ [1; 2])) as [Hwi Hci]; [by vm_compute|].
  destruct (full_buf_wf []) as [Hwo Hco]; [by vm_compute|].
  assert (fields [KName; KU32; KAttrs] toy_body) as Hf.
  { unfold toy_body. rewrite <- (app_nil_r (enc_attrs attrib_clear [])). repeat apply fields_cons; [| | |constructor].
    - apply encodes_name; [by vm_compute|]. repeat (apply Forall_cons; split; [done|]). apply Forall_nil_2.
    - by apply encodes_u32.
    - apply encodes_attrs; [by split|constructor|done]. }
  destruct (@sftp_request_answered alloc_all alloc_all_reliable toy_os (fun _ _ => 0%nat) toy_os_limits readonly_args toy_os_laws 1
    (mk_handler "open" "" SSH2_FXP_OPEN process_open_ false) 7 SSH2_FXP_OPEN toy_open [1; 2] toy_server) as (s' & v & E & Hrest & Hsent & Hv & _).
  - apply (plain_request (mk_handler "open" "" SSH2_FXP_OPEN process_open_ false) 7 toy_body []); [by left|exact Hf].
  - lia.
  - by vm_compute.
  - split; [|done|done|cbn [oqueue toy_server]; by rewrite Hco|done|by intros; lia]. split; [done| |exact Hwo| |].
    + split; [exact Hwi|]. cbn [iqueue toy_server]. rewrite Hci. apply (bool_decide_unpack _). by vm_compute.
    + exists []. split; [constructor|]. split; [constructor|]. intros i h Hi. by destruct i.
    + done.
  - exact Hci.
  - exists s', v. split; [exact E|]. split; [exact Hrest|]. split; [|exact Hv]. rewrite Hsent. cbn [oqueue toy_server]. by rewrite Hco.
Defined.

Lemma attrib_roundtrip_witness :
  let a := mk_attrib (Z.lor SSH2_FILEXFER_ATTR_SIZE SSH2_FILEXFER_ATTR_PERMISSIONS) 5000000000 0 0 0x1ff 7 8 in
  exists b' e, @encode_attrib alloc_all a demo_buf = (Ok tt, b') /\ contents b' = contents demo_buf ++ e /\
    forall b1 rest, buf_wf b1 -> contents b1 = e ++ rest ->
      exists b2, @decode_attrib alloc_all b1 = (Ret (Ok (mk_attrib 5 5000000000 0 0 0x1ff 0 0)), b2) /\ contents b2 = rest.
Proof.
  exact (@attrib_roundtrip alloc_all alloc_all_reliable
    (mk_attrib (Z.lor SSH2_FILEXFER_ATTR_SIZE SSH2_FILEXFER_ATTR_PERMISSIONS) 5000000000 0 0 0x1ff 7 8) demo_buf
    ltac:(split; by vm_compute) eq_refl demo_buf_wf eq_refl ltac:(by vm_compute)).
Defined.
