(* ===== verification/Agent.v ===== *)
(** The authentication agent (ssh-agent.c): the table of identities with their
    lifetimes and constraints, the lock, every request, the sockets and the loop.

    [agent] has one field per static variable.  Keys (sshkey.c, ssh-xkalg.c) are the
    class [AgentKeys]; what happens outside of the process, also the use of a
    private key, is a call of [agE] that [AgentEnv] answers, and [alog] holds the
    calls made so far, the last one first.  The pointers that one request frees in
    more than one place are [ptr] values, so that a second release is seen. *)

From Stdlib Require Import String.
From S2P Require Import Prelude Io Sshbuf SshbufGetPut Match.
Local Open Scope Z_scope.

Definition AGENT_MAX_LEN : Z := 256 * 1024.
Definition AGENT_RBUF_LEN : Z := 4096.

Definition SSH_AGENT_FAILURE : Z := 5.
Definition SSH_AGENT_SUCCESS : Z := 6.
Definition SSH_AGENTC_REMOVE_ALL_RSA_IDENTITIES : Z := 9.
Definition SSH2_AGENTC_REQUEST_IDENTITIES : Z := 11.
Definition SSH2_AGENT_IDENTITIES_ANSWER : Z := 12.
Definition SSH2_AGENTC_SIGN_REQUEST : Z := 13.
Definition SSH2_AGENT_SIGN_RESPONSE : Z := 14.
Definition SSH2_AGENTC_ADD_IDENTITY : Z := 17.
Definition SSH2_AGENTC_REMOVE_IDENTITY : Z := 18.
Definition SSH2_AGENTC_REMOVE_ALL_IDENTITIES : Z := 19.
Definition SSH_AGENTC_ADD_SMARTCARD_KEY : Z := 20.
Definition SSH_AGENTC_REMOVE_SMARTCARD_KEY : Z := 21.
Definition SSH_AGENTC_LOCK : Z := 22.
Definition SSH_AGENTC_UNLOCK : Z := 23.
Definition SSH2_AGENTC_ADD_ID_CONSTRAINED : Z := 25.
Definition SSH_AGENTC_ADD_SMARTCARD_KEY_CONSTRAINED : Z := 26.
Definition SSH_AGENT_CONSTRAIN_LIFETIME : Z := 1.
Definition SSH_AGENT_CONSTRAIN_CONFIRM : Z := 2.
Definition SSH_AGENT_CONSTRAIN_MAXSIGN : Z := 3.
Definition SSH_AGENT_CONSTRAIN_EXTENSION : Z := 255.
Definition SSH_AGENT_RSA_SHA2_256 : Z := 2.
Definition SSH_AGENT_RSA_SHA2_512 : Z := 4.
Definition SSH_AGENT_RFC6187_OPAQUE_ECDSA_SIGNATURE : Z := 0x40000000.

Definition LOCK_SIZE : Z := 32.
Definition LOCK_SALT_SIZE : Z := 16.

(** * Environment *)

(** The messages of the log that tell what was done with the lock and with an
    extension. *)
Inductive amessage := LOG_LOCKED | LOG_UNLOCKED | LOG_CONSTRAINT_EXT (name : cstring).

Class AgentKeys := {
  akey : Type;
  parse_key_from_blob : list Z -> result (akey * cstring);
  sshkey_private_deserialize : SE sshbuf akey;
  Akey_gets : SE sshbuf akey;
  Akey_puts_opts : akey -> SE sshbuf unit;
  sshkey_is_x509 : akey -> bool;
  sshkey_equal : akey -> akey -> bool;
  sshkey_equal_pub : akey -> akey -> bool;
  sshkey_fingerprint : akey -> option cstring;
  sshkey_enable_maxsign : akey -> Z -> result akey;
  bcrypt_pbkdf : list Z -> list Z -> option (list Z)
}.

Inductive agE `{AgentKeys} : Type -> Type :=
| ag_monotime : agE Z
| ag_debug (m : amessage) : agE unit
| ag_ask (comment : option cstring) (fp : cstring) : agE bool
| ag_shield (key : akey) : agE (result akey)
| ag_sign (alg : cstring) (key : akey) (opaque : bool) (data : list Z) : agE (result (list Z))
| ag_random (n : Z) : agE (list Z)
| ag_usleep (n : Z) : agE unit
| ag_realpath (path : cstring) : agE (option cstring)
| ag_pkcs11_add (path pin : cstring) : agE (option (list (akey * option cstring)))
| ag_pkcs11_del (path : cstring) : agE bool
| ag_accept (fd : Z) : agE (option Z)
| ag_nonblock (fd : Z) : agE unit
| ag_getpeereid (fd : Z) : agE (option Z)
| ag_getuid : agE Z
| ag_getpid : agE Z
| ag_getppid : agE Z
| ag_unlink (path : cstring) : agE unit
| ag_rmdir (path : cstring) : agE unit
| ag_close (fd : Z) : agE unit
| ag_read (fd len : Z) : agE (Z + list Z)
| ag_write (fd : Z) (data : list Z) : agE (Z + Z)
| ag_poll (pfd : list (Z * Z)) (timeout : Z) : agE (Z + list Z).

Class AgentEnv `{AgentKeys} := { aenv : Type; ag_answer : forall T, agE T -> aenv -> T * aenv }.
Arguments ag_answer {_ _ T}.

Inductive aevent `{AgentKeys} := AEv (T : Type) (e : agE T) (r : T).
Arguments AEv {_ T}.

Class AgentConfig := {
  lifetime : Z; provider_whitelist : cstring; maxfds : Z; parent_pid : Z; parent_alive_interval : Z;
  cleanup_pid : Z; socket_name : cstring; socket_dir : cstring
}.

(** * State *)

Inductive sock_type := AUTH_UNUSED | AUTH_SOCKET | AUTH_CONNECTION.
#[global] Instance sock_type_eq_dec : EqDecision sock_type.
Proof. solve_decision. Defined.

(** The buffers of an entry; there are none before it is used and after it was
    closed. *)
Record bufs := mk_conn { c_input : sshbuf; c_output : sshbuf; c_request : sshbuf }.
Record SocketEntry := mk_sock { s_fd : Z; s_type : sock_type; s_conn : option bufs }.
Definition unused_socket : SocketEntry := mk_sock (-1) AUTH_UNUSED None.

Record pollfd := mk_pollfd { p_fd : Z; p_events : Z; p_revents : Z }.
Definition POLLIN : Z := 1.
Definition POLLOUT : Z := 4.
Definition POLLERR : Z := 8.
Definition POLLHUP : Z := 16.

Section agent.
Context `{Allocator} `{AgentKeys} `{!AgentEnv} `{AgentConfig}.

Record Identity := mk_identity { i_key : akey; i_comment : option cstring; i_provider : option cstring; i_death : Z; i_confirm : bool }.

Record agent := mk_agent {
  idlist : list Identity; nentries : Z;
  alocked : bool; lock_pwhash : list Z; lock_salt : list Z; fail_count : Z;
  sockets : list SocketEntry; pfd : list pollfd;
  world : aenv; alog : list aevent
}.
Definition set_idtab (l : list Identity) (n : Z) (s : agent) : agent :=
  mk_agent l n (alocked s) (lock_pwhash s) (lock_salt s) (fail_count s) (sockets s) (pfd s) (world s) (alog s).
Definition set_lock (b : bool) (h salt : list Z) (n : Z) (s : agent) : agent :=
  mk_agent (idlist s) (nentries s) b h salt n (sockets s) (pfd s) (world s) (alog s).
Definition set_sockets (l : list SocketEntry) (s : agent) : agent :=
  mk_agent (idlist s) (nentries s) (alocked s) (lock_pwhash s) (lock_salt s) (fail_count s) l (pfd s) (world s) (alog s).
Definition set_pfd (l : list pollfd) (s : agent) : agent :=
  mk_agent (idlist s) (nentries s) (alocked s) (lock_pwhash s) (lock_salt s) (fail_count s) (sockets s) l (world s) (alog s).
Definition set_world (w : aenv) (l : list aevent) (s : agent) : agent :=
  mk_agent (idlist s) (nentries s) (alocked s) (lock_pwhash s) (lock_salt s) (fail_count s) (sockets s) (pfd s) w l.

Definition ask {T} (e : agE T) : io agent T := fun s =>
  let '(r, w) := ag_answer e (world s) in (Ret r, set_world w (AEv e r :: alog s) s).

Definition acalloc (n : Z) : io agent unit := if malloc_ok n then mret tt else dies.

(** ** Buffers of a socket *)

Definition set_conn (c : option bufs) (e : SocketEntry) : SocketEntry := mk_sock (s_fd e) (s_type e) c.

(** A function of the buffers of the socket [e]. *)
Definition on_conn {A} (e : nat) (f : bufs -> ending A * bufs) : io agent A := fun s =>
  match sockets s !! e with
  | Some se =>
      match s_conn se with
      | Some c => let '(r, c') := f c in (r, set_sockets (<[e := set_conn (Some c') se]> (sockets s)) s)
      | None => (Segv, s)
      end
  | None => (Segv, s)
  end.

Definition on_request {A} (e : nat) (m : SE sshbuf A) : io agent (result A) :=
  on_conn e (fun c => let '(r, b) := m (c_request c) in (Ret r, mk_conn (c_input c) (c_output c) b)).
(** A write to the output, whose failure is fatal. *)
Definition on_output (e : nat) (m : SE sshbuf unit) : io agent unit :=
  on_conn e (fun c => let '(r, b) := m (c_output c) in
    (match r with Ok _ => Ret tt | Err _ => Exit 255 end, mk_conn (c_input c) b (c_request c))).
Definition reset_request (e : nat) : io agent unit :=
  on_conn e (fun c => (Ret tt, mk_conn (c_input c) (c_output c) (sshbuf_reset (c_request c)))).
Definition request_len (e : nat) : io agent Z := on_conn e (fun c => (Ret (sshbuf_len (c_request c)), c)).

(** A message is built in a buffer of its own. *)
Definition send_message (e : nat) (m : sshbuf -> result unit * sshbuf) : io agent unit :=
  match sshbuf_new with
  | None => dies
  | Some b => match m b with (Ok _, msg) => on_output e (sshbuf_put_stringb (Some msg)) | (Err _, _) => dies end
  end.

Definition send_status (e : nat) (success : bool) : io agent unit :=
  on_output e (_ ← sshbuf_put_u32 1; sshbuf_put_u8 (if success then SSH_AGENT_SUCCESS else SSH_AGENT_FAILURE)).

(** * Identities *)

Definition key_match (key found : akey) : bool := if sshkey_is_x509 found then sshkey_equal_pub key found else sshkey_equal key found.
Definition lookup_identity (key : akey) (l : list Identity) : option (nat * Identity) := list_find (fun id => key_match key (i_key id)) l.

(** The result is whether the user allows the use. *)
Definition confirm_key (id : Identity) : io agent bool :=
  match sshkey_fingerprint (i_key id) with
  | Some p => ask (ag_ask (i_comment id) p)
  | None => mret false
  end.

(** An identity whose key or comment cannot be written is skipped, with what was
    written of it left in the message. *)
Fixpoint put_identities (l : list Identity) (msg : sshbuf) : sshbuf :=
  match l with
  | [] => msg
  | id :: l => put_identities l (snd ((_ ← Akey_puts_opts (i_key id); sshbuf_put_cstring (i_comment id)) msg))
  end.

Definition process_request_identities (e : nat) : io agent unit :=
  l ← reads idlist; n ← reads nentries;
  send_message e (fun msg =>
    match (_ ← sshbuf_put_u8 SSH2_AGENT_IDENTITIES_ANSWER; sshbuf_put_u32 n) msg with
    | (Ok _, msg) => (Ok tt, put_identities l msg)
    | (Err err, msg) => (Err err, msg)
    end).

Definition agent_recode_alg (pkalg : cstring) (flags : Z) : cstring :=
  if bool_decide (pkalg = str "ssh-rsa") then
    if negb (Z.land flags SSH_AGENT_RSA_SHA2_256 =? 0) then str "rsa-sha2-256"
    else if negb (Z.land flags SSH_AGENT_RSA_SHA2_512 =? 0) then str "rsa-sha2-512" else pkalg
  else pkalg.

(** The fields of a request to sign. *)
Definition sign_fields : SE sshbuf (akey * cstring * list Z * Z) :=
  blob ← sshbuf_get_string;
  kp ← se_lift (parse_key_from_blob blob);
  data ← sshbuf_get_string_direct;
  flags ← sshbuf_get_u32;
  mret (kp, data, flags).

(** The signature, when there is one. *)
Definition sign_body (e : nat) : io agent (option (list Z)) :=
  r ← on_request e sign_fields;
  match r with
  | Err _ => mret None
  | Ok (key, pkalg, data, flags) =>
      l ← reads idlist;
      match lookup_identity key l with
      | None => mret None
      | Some (_, id) =>
          ok ← (if i_confirm id then confirm_key id else mret true);
          if (ok : bool) then
            r ← ask (ag_sign (agent_recode_alg pkalg flags) (i_key id) (negb (Z.land flags SSH_AGENT_RFC6187_OPAQUE_ECDSA_SIGNATURE =? 0)) data);
            mret (match r with Ok signature => Some signature | Err _ => None end)
          else mret None
      end
  end.

Definition process_sign_request2 (e : nat) : io agent unit :=
  signature ← sign_body e;
  send_message e (match signature with
    | Some s => _ ← sshbuf_put_u8 SSH2_AGENT_SIGN_RESPONSE; sshbuf_put_string s
    | None => sshbuf_put_u8 SSH_AGENT_FAILURE
    end).

Definition process_remove_identity (e : nat) : io agent unit :=
  r ← on_request e Akey_gets;
  match r with
  | Err _ => send_status e false
  | Ok key =>
      l ← reads idlist; n ← reads nentries;
      match lookup_identity key l with
      | None => send_status e false
      | Some (i, _) =>
          if n <? 1 then dies
          else _ ← updates (set_idtab (delete i l) (n - 1)); send_status e true
      end
  end.

Definition process_remove_all_identities (e : nat) : io agent unit :=
  _ ← updates (set_idtab [] 0);
  send_status e true.

(** The identities that are kept, the number of those removed and the earliest
    time at which one of the kept ones ends. *)
Fixpoint reap (now : Z) (l : list Identity) (deadline : Z) : list Identity * Z * Z :=
  match l with
  | [] => ([], 0, deadline)
  | id :: l =>
      if i_death id =? 0 then let '(k, n, d) := reap now l deadline in (id :: k, n, d)
      else if now >=? i_death id then let '(k, n, d) := reap now l deadline in (k, n + 1, d)
      else
        let '(k, n, d) := reap now l (if deadline =? 0 then i_death id else MINIMUM deadline (i_death id)) in (id :: k, n, d)
  end.

Definition reaper : io agent Z :=
  now ← ask ag_monotime;
  l ← reads idlist; n ← reads nentries;
  let '(k, gone, deadline) := reap now l 0 in
  _ ← updates (set_idtab k (n - gone));
  mret (if (deadline =? 0) || (deadline <=? now) then 0 else deadline - now).

(** ** Addition of a key *)

(** A pointer to a string of the heap. *)
Inductive ptr := PNull | PLive | PFreed.
(** [free]: nothing for a null pointer, an error for one that was freed before. *)
Definition release (p : ptr) : io agent unit := match p with PFreed => segv | _ => mret tt end.

(** The variables of [process_add_identity] that the constraints change. *)
Record pending := mk_pending { q_key : akey; q_death : Z; q_confirm : bool; q_ext_name : ptr; q_sk_provider : ptr }.

(** The constraints; the result is [true] at the end of the request and [false] at
    [goto err].  A byte at least is taken in each turn. *)
Fixpoint add_constraints (fuel : nat) (e : nat) (q : pending) : io agent (bool * pending) :=
  len ← request_len e;
  if len =? 0 then mret (true, q)
  else match fuel with
  | O => no_fuel
  | S fuel =>
      r ← on_request e sshbuf_get_u8;
      match r with
      | Err _ => mret (false, q)
      | Ok ctype =>
          if ctype =? SSH_AGENT_CONSTRAIN_LIFETIME then
            r ← on_request e sshbuf_get_u32;
            match r with
            | Err _ => mret (false, q)
            | Ok seconds =>
                now ← ask ag_monotime;
                add_constraints fuel e (mk_pending (q_key q) (now + seconds) (q_confirm q) (q_ext_name q) (q_sk_provider q))
            end
          else if ctype =? SSH_AGENT_CONSTRAIN_CONFIRM then
            add_constraints fuel e (mk_pending (q_key q) (q_death q) true (q_ext_name q) (q_sk_provider q))
          else if ctype =? SSH_AGENT_CONSTRAIN_MAXSIGN then
            r ← on_request e sshbuf_get_u32;
            match r with
            | Err _ => mret (false, q)
            | Ok maxsign =>
                match sshkey_enable_maxsign (q_key q) maxsign with
                | Err _ => mret (false, q)
                | Ok k => add_constraints fuel e (mk_pending k (q_death q) (q_confirm q) (q_ext_name q) (q_sk_provider q))
                end
            end
          else if ctype =? SSH_AGENT_CONSTRAIN_EXTENSION then
            r ← on_request e sshbuf_get_cstring;
            match r with
            | Err _ => mret (false, mk_pending (q_key q) (q_death q) (q_confirm q) PNull (q_sk_provider q))
            | Ok ext_name =>
                let q := mk_pending (q_key q) (q_death q) (q_confirm q) PLive (q_sk_provider q) in
                _ ← ask (ag_debug (LOG_CONSTRAINT_EXT (cstr ext_name)));
                if bool_decide (cstr ext_name = str "sk-provider@openssh.com") then
                  match q_sk_provider q with
                  | PNull =>
                      r ← on_request e sshbuf_get_cstring;
                      match r with
                      | Err _ => mret (false, q)
                      | Ok _ => add_constraints fuel e (mk_pending (q_key q) (q_death q) (q_confirm q) PFreed PLive)
                      end
                  | _ => mret (false, q)
                  end
                else mret (false, q)
            end
          else mret (false, q)
      end
  end.

(** The code after the label [err]. *)
Definition add_err (e : nat) (ext_name sk_provider : ptr) : io agent unit :=
  _ ← release sk_provider;
  _ ← release ext_name;
  _ ← reset_request e;
  send_status e false.

Definition add_fields : SE sshbuf (akey * cstring) :=
  k ← sshkey_private_deserialize;
  comment ← sshbuf_get_cstring;
  mret (k, comment).

Definition SIZEOF_IDENTITY : Z := 56.

(** The key is new, or replaces one that is equal to it. *)
Definition store_identity (k : akey) (comment : option cstring) (death : Z) (confirm : bool) : io agent unit :=
  l ← reads idlist; n ← reads nentries;
  match lookup_identity k l with
  | None =>
      _ ← acalloc SIZEOF_IDENTITY;
      updates (set_idtab (l ++ [mk_identity k comment None death confirm]) (n + 1))
  | Some (i, id) => updates (set_idtab (<[i := mk_identity k comment (i_provider id) death confirm]> l) n)
  end.

Definition default_death (death : Z) : io agent Z :=
  if negb (lifetime =? 0) && (death =? 0) then now ← ask ag_monotime; mret (now + lifetime) else mret death.

Definition process_add_identity (e : nat) : io agent unit :=
  r ← on_request e add_fields;
  match r with
  | Err _ => add_err e PNull PNull
  | Ok (k, comment) =>
      len ← request_len e;
      x ← add_constraints (Z.to_nat len) e (mk_pending k 0 false PNull PNull);
      let '(parsed, q) := x in
      if (parsed : bool) then
        r ← ask (ag_shield (q_key q));
        match r with
        | Err _ => add_err e (q_ext_name q) (q_sk_provider q)
        | Ok k =>
            death ← default_death (q_death q);
            _ ← store_identity k (Some (cstr comment)) death (q_confirm q);
            _ ← release (q_sk_provider q);
            send_status e true
        end
      else add_err e (q_ext_name q) (q_sk_provider q)
  end.

(** ** Lock *)

Definition process_lock_agent (e : nat) (lock : bool) : io agent unit :=
  r ← on_request e sshbuf_get_cstring;
  match r with
  | Err _ => dies
  | Ok passwd =>
      locked ← reads alocked; salt ← reads lock_salt; pwhash ← reads lock_pwhash; n ← reads fail_count;
      success ← (if zlen passwd =? 0 then mret false
        else if (locked : bool) && negb lock then
          match bcrypt_pbkdf passwd salt with
          | None => dies
          | Some passwdhash =>
              if bool_decide (passwdhash = pwhash) then
                _ ← ask (ag_debug LOG_UNLOCKED);
                _ ← updates (set_lock false (zrepeat LOCK_SIZE) salt 0);
                mret true
              else
                let n := if n <? 100 then n + 1 else n in
                _ ← updates (set_lock true pwhash salt n);
                _ ← ask (ag_usleep (100000 * n));
                mret false
          end
        else if negb locked && lock then
          _ ← ask (ag_debug LOG_LOCKED);
          _ ← updates (set_lock true pwhash salt n);
          salt ← ask (ag_random LOCK_SALT_SIZE);
          _ ← updates (set_lock true pwhash salt n);
          match bcrypt_pbkdf passwd salt with
          | None => dies
          | Some h => _ ← updates (set_lock true h salt n); mret true
          end
        else mret false);
      send_status e success
  end.

Definition no_identities (e : nat) : io agent unit :=
  send_message e (_ ← sshbuf_put_u8 SSH2_AGENT_IDENTITIES_ANSWER; sshbuf_put_u32 0).

(** ** Keys of tokens *)

(** [None]: an error that goes to the label [send]. *)
Fixpoint smartcard_constraints (fuel : nat) (e : nat) (death : Z) (confirm : bool) : io agent (option (Z * bool)) :=
  len ← request_len e;
  if len =? 0 then mret (Some (death, confirm))
  else match fuel with
  | O => no_fuel
  | S fuel =>
      r ← on_request e sshbuf_get_u8;
      match r with
      | Err _ => mret None
      | Ok type =>
          if type =? SSH_AGENT_CONSTRAIN_LIFETIME then
            r ← on_request e sshbuf_get_u32;
            match r with
            | Err _ => mret None
            | Ok seconds => now ← ask ag_monotime; smartcard_constraints fuel e (now + seconds) confirm
            end
          else if type =? SSH_AGENT_CONSTRAIN_CONFIRM then smartcard_constraints fuel e death true
          else mret None
      end
  end.

(** The keys that are not in the table yet; the result is whether there was one. *)
Fixpoint add_token_keys (provider : cstring) (death : Z) (confirm : bool) (keys : list (akey * option cstring)) (success : bool) : io agent bool :=
  match keys with
  | [] => mret success
  | (k, comment) :: keys =>
      l ← reads idlist; n ← reads nentries;
      match lookup_identity k l with
      | Some _ => add_token_keys provider death confirm keys success
      | None =>
          _ ← acalloc SIZEOF_IDENTITY;
          _ ← acalloc (zlen provider + 1);
          _ ← updates (set_idtab (l ++ [mk_identity k comment (Some provider) death confirm]) (n + 1));
          add_token_keys provider death confirm keys true
      end
  end.

Definition provider_fields : SE sshbuf (cstring * cstring) :=
  provider ← sshbuf_get_cstring;
  pin ← sshbuf_get_cstring;
  mret (cstr provider, cstr pin).

(** [pkcs11_add_provider] returns without setting the pointers to the keys and
    comments when its helper cannot be started (the answer [None]); they are
    freed then without a value. *)
Definition smartcard_body (e : nat) : io agent bool :=
  r ← on_request e provider_fields;
  match r with
  | Err _ => mret false
  | Ok (provider, pin) =>
      len ← request_len e;
      c ← smartcard_constraints (Z.to_nat len) e 0 false;
      match c with
      | None => mret false
      | Some (death, confirm) =>
          p ← ask (ag_realpath provider);
          match p with
          | None => mret false
          | Some canonical_provider =>
              if negb (match_pattern_list canonical_provider provider_whitelist false =? 1) then mret false
              else
                death ← default_death death;
                keys ← ask (ag_pkcs11_add canonical_provider pin);
                match keys with
                | None => segv
                | Some keys => add_token_keys canonical_provider death confirm keys false
                end
          end
      end
  end.
Definition process_add_smartcard_key (e : nat) : io agent unit := success ← smartcard_body e; send_status e success.

Definition of_provider (provider : cstring) (id : Identity) : bool := bool_decide (i_provider id = Some provider).

Definition process_remove_smartcard_key (e : nat) : io agent unit :=
  r ← on_request e provider_fields;
  match r with
  | Err _ => send_status e false
  | Ok (provider, _) =>
      p ← ask (ag_realpath provider);
      match p with
      | None => send_status e false
      | Some canonical_provider =>
          l ← reads idlist; n ← reads nentries;
          _ ← updates (set_idtab (filter (fun id => negb (of_provider canonical_provider id)) l)
                         (n - zlen (filter (fun id => of_provider canonical_provider id) l)));
          success ← ask (ag_pkcs11_del canonical_provider);
          send_status e success
      end
  end.

(** * Requests *)

(** The start of [process_message]: the type of the request, once all of it is
    there. *)
Definition next_request (e : nat) : io agent (option Z) :=
  on_conn e (fun c =>
    if sshbuf_len (c_input c) <? 5 then (Ret None, c)
    else
      let msg_len := PEEK_U32 (default [] (sshbuf_ptr (c_input c))) in
      if msg_len >? AGENT_MAX_LEN then (Ret None, c)
      else if sshbuf_len (c_input c) <? msg_len + 4 then (Ret None, c)
      else
        match sshbuf_get_stringb (c_input c, sshbuf_reset (c_request c)) with
        | (Err r, (i, q)) => (if bool_decide (r = SSH_ERR_MESSAGE_INCOMPLETE) || bool_decide (r = SSH_ERR_STRING_TOO_LARGE) then Ret None else Exit 255, mk_conn i (c_output c) q)
        | (Ok _, (i, q)) =>
            match sshbuf_get_u8 q with
            | (Err r, q) => (if bool_decide (r = SSH_ERR_MESSAGE_INCOMPLETE) || bool_decide (r = SSH_ERR_STRING_TOO_LARGE) then Ret None else Exit 255, mk_conn i (c_output c) q)
            | (Ok type, q) => (Ret (Some type), mk_conn i (c_output c) q)
            end
        end).

Definition dispatch (e : nat) (type : Z) : io agent unit :=
  if type =? SSH_AGENTC_LOCK then process_lock_agent e true
  else if type =? SSH_AGENTC_UNLOCK then process_lock_agent e false
  else if type =? SSH_AGENTC_REMOVE_ALL_RSA_IDENTITIES then process_remove_all_identities e
  else if type =? SSH2_AGENTC_SIGN_REQUEST then process_sign_request2 e
  else if type =? SSH2_AGENTC_REQUEST_IDENTITIES then process_request_identities e
  else if (type =? SSH2_AGENTC_ADD_IDENTITY) || (type =? SSH2_AGENTC_ADD_ID_CONSTRAINED) then process_add_identity e
  else if type =? SSH2_AGENTC_REMOVE_IDENTITY then process_remove_identity e
  else if type =? SSH2_AGENTC_REMOVE_ALL_IDENTITIES then process_remove_all_identities e
  else if (type =? SSH_AGENTC_ADD_SMARTCARD_KEY) || (type =? SSH_AGENTC_ADD_SMARTCARD_KEY_CONSTRAINED) then process_add_smartcard_key e
  else if type =? SSH_AGENTC_REMOVE_SMARTCARD_KEY then process_remove_smartcard_key e
  else _ ← reset_request e; send_status e false.

(** The value that [process_message] returns is not used by its caller. *)
Definition process_message (e : nat) : io agent unit :=
  t ← next_request e;
  match t with
  | None => mret tt
  | Some type =>
      locked ← reads alocked;
      if (locked : bool) && negb (type =? SSH_AGENTC_UNLOCK) then
        _ ← reset_request e;
        if type =? SSH2_AGENTC_REQUEST_IDENTITIES then no_identities e else send_status e false
      else dispatch e type
  end.

(** * Sockets *)

Definition socket_fd (e : nat) : io agent Z := fun s =>
  match sockets s !! e with Some se => (Ret (s_fd se), s) | None => (Segv, s) end.

Definition new_conn : option bufs :=
  match sshbuf_new, sshbuf_new, sshbuf_new with Some i, Some o, Some q => Some (mk_conn i o q) | _, _, _ => None end.

Definition SIZEOF_SOCKET_ENTRY : Z := 32.
Definition is_unused (se : SocketEntry) : bool := bool_decide (s_type se = AUTH_UNUSED).

(** The first unused entry, or one of ten new ones. *)
Definition new_socket (type : sock_type) (fd : Z) : io agent unit :=
  _ ← ask (ag_nonblock fd);
  l ← reads sockets;
  match list_find is_unused l with
  | Some (i, _) =>
      match new_conn with
      | None => dies
      | Some c => updates (set_sockets (<[i := mk_sock fd type (Some c)]> l))
      end
  | None =>
      _ ← acalloc ((zlen l + 10) * SIZEOF_SOCKET_ENTRY);
      match new_conn with
      | None => dies
      | Some c => updates (set_sockets (l ++ mk_sock fd type (Some c) :: replicate 9 unused_socket))
      end
  end.

Definition close_socket (e : nat) : io agent unit :=
  fd ← socket_fd e;
  _ ← ask (ag_close fd);
  l ← reads sockets;
  updates (set_sockets (<[e := unused_socket]> l)).

(** These return 0 ([true]) or -1 ([false]). *)
Definition handle_socket_read (e : nat) : io agent bool :=
  sock ← socket_fd e;
  r ← ask (ag_accept sock);
  match r with
  | None => mret false
  | Some fd =>
      r ← ask (ag_getpeereid fd);
      match r with
      | None => _ ← ask (ag_close fd); mret false
      | Some euid =>
          ok ← (if euid =? 0 then mret true else uid ← ask ag_getuid; mret (uid =? euid));
          if (ok : bool) then _ ← new_socket AUTH_CONNECTION fd; mret true
          else _ ← ask ag_getuid; _ ← ask (ag_close fd); mret false
      end
  end.

Definition again (errno : Z) : bool := (errno =? EAGAIN) || (errno =? EINTR).

Definition put_input (e : nat) (data : list Z) : io agent unit :=
  on_conn e (fun c => let '(r, b) := sshbuf_put data (c_input c) in
    (match r with Ok _ => Ret tt | Err _ => Exit 255 end, mk_conn b (c_output c) (c_request c))).

Definition handle_conn_read (e : nat) : io agent bool :=
  fd ← socket_fd e;
  r ← ask (ag_read fd AGENT_RBUF_LEN);
  match r with
  | inl errno => mret (again errno)
  | inr [] => mret false
  | inr data =>
      _ ← put_input e data;
      _ ← process_message e;
      mret true
  end.

Definition pending_output (e : nat) : io agent (list Z) := on_conn e (fun c => (Ret (ztake (sshbuf_len (c_output c)) (default [] (sshbuf_ptr (c_output c)))), c)).

Definition handle_conn_write (e : nat) : io agent bool :=
  out ← pending_output e;
  if zlen out =? 0 then mret true
  else
    fd ← socket_fd e;
    r ← ask (ag_write fd out);
    match r with
    | inl errno => mret (again errno)
    | inr len =>
        if len <=? 0 then mret false
        else _ ← on_output e (sshbuf_consume len); mret true
    end.

(** * The loop *)

Definition has_events (revents mask : Z) : bool := negb (Z.land revents mask =? 0).

Definition find_socket (fd : Z) (l : list SocketEntry) : option (nat * SocketEntry) :=
  list_find (fun se => negb (is_unused se) && (fd =? s_fd se)) l.

(** The number of descriptors in use is returned. *)
Definition close_sock (e : nat) (activefds : Z) : io agent Z :=
  if activefds =? 0 then dies else _ ← close_socket e; mret (activefds - 1).

Definition after_event (npfd : Z) (p : pollfd) (activefds : Z) : io agent Z :=
  if p_revents p =? 0 then mret activefds
  else
    l ← reads sockets;
    match find_socket (p_fd p) l with
    | None => mret activefds
    | Some (e, se) =>
        match s_type se with
        | AUTH_SOCKET =>
            if negb (has_events (p_revents p) (Z.lor POLLIN POLLERR)) then mret activefds
            else if npfd >? maxfds then mret activefds
            else ok ← handle_socket_read e; mret (if (ok : bool) then activefds + 1 else activefds)
        | AUTH_CONNECTION =>
            ok ← (if has_events (p_revents p) (Z.lor POLLIN POLLERR) then handle_conn_read e else mret true);
            if negb ok then close_sock e activefds
            else
              ok ← (if has_events (p_revents p) (Z.lor POLLOUT POLLHUP) then handle_conn_write e else mret true);
              if negb ok then close_sock e activefds else mret activefds
        | AUTH_UNUSED => mret activefds
        end
    end.

Fixpoint after_events (npfd : Z) (l : list pollfd) (activefds : Z) : io agent unit :=
  match l with
  | [] => mret tt
  | p :: l => a ← after_event npfd p activefds; after_events npfd l a
  end.
Definition after_poll : io agent unit := l ← reads pfd; after_events (zlen l) l (zlen l).

Definition arm (j : nat) (fd events : Z) : io agent unit := fun s =>
  match pfd s !! j with
  | None => (Segv, s)
  | Some _ => (Ret tt, set_pfd (<[j := mk_pollfd fd events 0]> (pfd s)) s)
  end.

(** The events of a connection: those of the last turn stay in the entry when there
    is no room for more input. *)
Definition conn_events (c : bufs) (old : Z) : option Z :=
  let r := match sshbuf_check_reserve (c_input c) AGENT_RBUF_LEN with
           | Ok _ => sshbuf_check_reserve (c_output c) AGENT_MAX_LEN
           | Err r => Err r
           end in
  let with_output ev := if sshbuf_len (c_output c) >? 0 then Z.lor ev POLLOUT else ev in
  match r with
  | Ok _ => Some (with_output POLLIN)
  | Err r => if bool_decide (r = SSH_ERR_NO_BUFFER_SPACE) then Some (with_output old) else None
  end.

Fixpoint arm_sockets (npfd : Z) (l : list SocketEntry) (j : nat) : io agent unit :=
  match l with
  | [] => mret tt
  | se :: l =>
      match s_type se with
      | AUTH_SOCKET =>
          if npfd >? maxfds then arm_sockets npfd l j
          else _ ← arm j (s_fd se) POLLIN; arm_sockets npfd l (S j)
      | AUTH_CONNECTION =>
          p ← reads (fun s => pfd s !! j);
          match p, s_conn se with
          | Some p, Some c =>
              match conn_events c (p_events p) with
              | Some ev => _ ← arm j (s_fd se) ev; arm_sockets npfd l (S j)
              | None => dies
              end
          | _, _ => segv
          end
      | AUTH_UNUSED => arm_sockets npfd l j
      end
  end.

Definition active (l : list SocketEntry) : Z := zlen (filter (fun se => negb (is_unused se)) l).
Definition SIZEOF_POLLFD : Z := 8.

(** [recallocarray]: what fits is kept, the rest is zero. *)
Definition resize_pfd (npfd : Z) (old : list pollfd) : list pollfd :=
  take (Z.to_nat npfd) old ++ replicate (Z.to_nat npfd - length old) (mk_pollfd 0 0 0).

Definition poll_timeout (deadline : Z) : Z :=
  let deadline := if negb (parent_alive_interval =? 0) then
      if deadline =? 0 then parent_alive_interval else MINIMUM deadline parent_alive_interval
    else deadline in
  if deadline =? 0 then -1 else if deadline >? INT_MAX ÷ 1000 then INT_MAX ÷ 1000 else deadline * 1000.

(** The result is the timeout. *)
Definition prepare_poll : io agent Z :=
  l ← reads sockets; old ← reads pfd;
  let npfd := active l in
  _ ← (if npfd =? zlen old then mret tt else _ ← acalloc (npfd * SIZEOF_POLLFD); updates (set_pfd (resize_pfd npfd old)));
  _ ← arm_sockets npfd l 0;
  deadline ← reaper;
  mret (poll_timeout deadline).

Definition cleanup_socket : io agent unit :=
  other ← (if cleanup_pid =? 0 then mret false else pid ← ask ag_getpid; mret (negb (pid =? cleanup_pid)));
  if (other : bool) then mret tt
  else
    _ ← (if bool_decide (socket_name = []) then mret tt else ask (ag_unlink socket_name));
    if bool_decide (socket_dir = []) then mret tt else ask (ag_rmdir socket_dir).

Definition check_parent_exists : io agent unit :=
  if parent_pid =? -1 then mret tt
  else
    ppid ← ask ag_getppid;
    if ppid =? parent_pid then mret tt else _ ← cleanup_socket; exits 2.

Definition set_revents (l : list pollfd) (revents : list Z) : list pollfd := zip_with (fun p r => mk_pollfd (p_fd p) (p_events p) r) l revents.

Definition main_turn : io agent unit :=
  timeout ← prepare_poll;
  l ← reads pfd;
  result ← ask (ag_poll ((fun p => (p_fd p, p_events p)) <$> l) timeout);
  _ ← match result with inr revents => updates (set_pfd (set_revents l revents)) | inl _ => mret tt end;
  _ ← (if negb (parent_alive_interval =? 0) then check_parent_exists else mret tt);
  _ ← reaper;
  match result with
  | inl errno => if errno =? EINTR then mret tt else dies
  | inr revents => if existsb (fun r => negb (r =? 0)) revents then after_poll else mret tt
  end.

(** The first [n] turns of the loop, which does not end by itself. *)
Fixpoint main_loop (n : nat) : io agent unit :=
  match n with
  | O => mret tt
  | S n => _ ← main_turn; main_loop n
  end.

Definition agent_init (w : aenv) : agent := mk_agent [] 0 false (zrepeat LOCK_SIZE) (zrepeat LOCK_SALT_SIZE) 0 [] [] w [].
Definition agent_main (sock : Z) (n : nat) : io agent unit := _ ← new_socket AUTH_SOCKET sock; main_loop n.
End agent.
