(* ===== verification/AgentSafe.v ===== *)
(** Safety of the agent, whatever its clients send and whatever the system answers.

    The log of the calls says when the agent was locked ([locked_in]) and which
    keys it was given ([added]); [Inv] relates them to the state.  The requests are
    proved from rules for the commands they are made of; [during] relates the state
    at the start of a request to a state in the middle or at the end of it. *)

From Stdlib Require Import String.
From S2P Require Import Prelude Io Sshbuf SshbufGetPut SshbufRead Match Agent.
Local Open Scope Z_scope.

(** * The log *)

Section log.
Context `{AgentKeys}.

(** Whether the agent is locked after the calls, the last one first. *)
Fixpoint locked_in (tr : list aevent) : bool :=
  match tr with
  | [] => false
  | AEv (ag_debug LOG_LOCKED) _ :: _ => true
  | AEv (ag_debug LOG_UNLOCKED) _ :: _ => false
  | _ :: tr => locked_in tr
  end.

(** The keys that a call gives to the agent. *)
Definition gives (ev : aevent) : list akey :=
  match ev with
  | AEv e r =>
      match e in agE T return T -> list akey with
      | ag_shield _ => fun r => match r with Ok k => [k] | Err _ => [] end
      | ag_pkcs11_add _ _ => fun r => match r with Some l => l.*1 | None => [] end
      | _ => fun _ => []
      end r
  end.
Definition added (tr : list aevent) : list akey := tr ≫= gives.

(** A private key is only used while the agent is not locked, and it is one that
    was added before. *)
Definition sign_ok (ev : aevent) (tr : list aevent) : Prop :=
  match ev with AEv (ag_sign _ key _ _) _ => locked_in tr = false /\ key ∈ added tr | _ => True end.
Fixpoint signs_ok (tr : list aevent) : Prop :=
  match tr with [] => True | ev :: tr => sign_ok ev tr /\ signs_ok tr end.

(** What a crash needs: the extension of [process_add_identity] whose name is freed
    twice, or a helper that does not start. *)
Definition culprit (ev : aevent) : Prop :=
  match ev with
  | AEv e r =>
      match e in agE T return T -> Prop with
      | ag_debug (LOG_CONSTRAINT_EXT name) => fun _ => name = str "sk-provider@openssh.com"
      | ag_pkcs11_add _ _ => fun r => r = None
      | _ => fun _ => False
      end r
  end.

(** Calls after which the agent is locked as before and that do not sign. *)
Definition plain {T} (e : agE T) : Prop :=
  match e with ag_debug LOG_LOCKED | ag_debug LOG_UNLOCKED | ag_sign _ _ _ _ => False | _ => True end.

Lemma plain_locked {T} (e : agE T) r tr : plain e -> locked_in (AEv e r :: tr) = locked_in tr.
Proof. destruct e; try done. by destruct m. Qed.
Lemma plain_sign {T} (e : agE T) r tr : plain e -> sign_ok (AEv e r) tr.
Proof. by destruct e. Qed.
Lemma added_cons ev tr k : k ∈ added tr -> k ∈ added (ev :: tr).
Proof. intros Hk. unfold added. rewrite bind_cons. set_solver. Qed.
End log.

(** * Invariant *)

Class AgentLaws `{Allocator} `{AgentKeys} `{!AgentEnv} : Prop := {
  deserialize_steady : steady sshkey_private_deserialize;
  Akey_gets_steady : steady Akey_gets;
  Akey_gets_takes : takes Akey_gets;
  deserialize_takes : takes sshkey_private_deserialize;
  Akey_puts_adds k b : buf_wf b -> buf_wf (snd (Akey_puts_opts k b)) /\ exists v, contents (snd (Akey_puts_opts k b)) = contents b ++ v;
  read_bytes fd n w data w' : ag_answer (ag_read fd n) w = (inr data, w') -> bytes_ok data
}.

Section safe.
Context `{Allocator} `{AgentKeys} `{!AgentEnv} `{AgentConfig} `{!AgentLaws}.

Record conn_ok (c : bufs) : Prop := {
  ok_input : readable (c_input c);
  ok_output : buf_wf (c_output c);
  ok_request : readable (c_request c);
  ok_room : SSHBUF_SIZE_INIT <= max_size (c_request c);
  ok_memory : malloc_ok SSHBUF_SIZE_INIT = true
}.
Definition sock_ok (se : SocketEntry) : Prop := s_type se = AUTH_UNUSED \/ exists c, s_conn se = Some c /\ conn_ok c.

Record Inv (s : agent) : Prop := {
  inv_count : nentries s = zlen (idlist s);
  inv_lock : alocked s = locked_in (alog s);
  inv_fail : 0 <= fail_count s <= 100;
  inv_signs : signs_ok (alog s);
  inv_keys : Forall (fun id => i_key id ∈ added (alog s)) (idlist s);
  inv_socks : Forall sock_ok (sockets s)
}.

Definition ends {A} (Q : A -> agent -> Prop) (r : ending A) (s : agent) : Prop :=
  match r with
  | Ret a => Q a s
  | Exit _ => signs_ok (alog s)
  | Segv => signs_ok (alog s) /\ Exists culprit (alog s)
  | NoFuel => False
  end.
Definition wpa {A} (m : io agent A) (Q : A -> agent -> Prop) (s : agent) : Prop := let '(r, s') := m s in ends Q r s'.

Lemma wpa_ret {A} (a : A) (Q : A -> agent -> Prop) s : Q a s -> wpa (mret a) Q s.
Proof. done. Qed.
Lemma wpa_bind {A B} (m : io agent A) (f : A -> io agent B) Q s : wpa m (fun a => wpa (f a) Q) s -> wpa (m ≫= f) Q s.
Proof. unfold wpa, mbind, io_bind. destruct (m s) as [[a|c| |] s']; cbn; [done| |done..]. by intros. Qed.
Lemma wpa_mono {A} (m : io agent A) (P Q : A -> agent -> Prop) s : wpa m P s -> (forall a s', P a s' -> Q a s') -> wpa m Q s.
Proof. unfold wpa. destruct (m s) as [[a|c| |] s']; cbn; eauto. Qed.
Lemma wpa_reads {A} (f : agent -> A) (Q : A -> agent -> Prop) s : Q (f s) s -> wpa (reads f) Q s.
Proof. done. Qed.
Lemma wpa_updates f (Q : unit -> agent -> Prop) s : Q tt (f s) -> wpa (updates f) Q s.
Proof. done. Qed.
Lemma wpa_dies {A} c (Q : A -> agent -> Prop) s : Inv s -> wpa (exits c) Q s.
Proof. intros []. done. Qed.
Lemma wpa_acalloc n (Q : unit -> agent -> Prop) s : Inv s -> Q tt s -> wpa (acalloc n) Q s.
Proof. intros Hi Hq. unfold acalloc. destruct (malloc_ok n); [done|by apply wpa_dies]. Qed.

(** ** Calls *)

Lemma inv_log s ev w : Inv s -> locked_in (ev :: alog s) = locked_in (alog s) -> sign_ok ev (alog s) -> Inv (set_world w (ev :: alog s) s).
Proof. intros [] Hl Hs. split; cbn -[locked_in]; [done|congruence|done|done| |done]. eapply Forall_impl; [done|]. intros id Hid. by apply added_cons. Qed.

Lemma wpa_ask {T} (x : agE T) (Q : T -> agent -> Prop) s :
  Inv s -> plain x -> (forall r w, Inv (set_world w (AEv x r :: alog s) s) -> Q r (set_world w (AEv x r :: alog s) s)) -> wpa (ask x) Q s.
Proof.
  intros Hi Hx Hq. unfold wpa, ask. destruct (ag_answer x (world s)) as [r w]. cbn. apply Hq, inv_log; [done|by apply plain_locked|by apply plain_sign].
Qed.

(** ** In the middle of a request *)

(** The user agreed to the use of a key that is constrained; [pre] are the calls
    before. *)
Definition consent (l : list Identity) (ev : aevent) (pre : list aevent) : Prop :=
  match ev with
  | AEv (ag_sign _ key _ _) _ =>
      exists id, id ∈ l /\ i_key id = key /\
        (i_confirm id = true -> exists fp, sshkey_fingerprint key = Some fp /\ AEv (ag_ask (i_comment id) fp) true ∈ pre)
  | _ => True
  end.
Fixpoint consented (l : list Identity) (new : list aevent) : Prop :=
  match new with [] => True | ev :: pre => consent l ev pre /\ consented l pre end.

(** From [s0] to [s] only the buffers of the socket [e] have changed, and [v] was
    added to its output. *)
Record during (e : nat) (v : list Z) (s0 s : agent) : Prop := {
  d_inv : Inv s;
  d_socks : exists se c0 c, sockets s0 !! e = Some se /\ s_conn se = Some c0 /\ sockets s = <[e := set_conn (Some c) se]> (sockets s0) /\ conn_ok c /\
    contents (c_input c) = contents (c_input c0) /\ contents (c_output c) = contents (c_output c0) ++ v;
  d_pfd : pfd s = pfd s0;
  d_log : exists new, alog s = new ++ alog s0 /\ consented (idlist s0) new
}.

(** The request that the socket [e] holds. *)
Definition req (e : nat) (s : agent) : list Z :=
  match sockets s !! e ≫= s_conn with Some c => contents (c_request c) | None => [] end.

(** The state without the sockets. *)
Definition core (s : agent) := (idlist s, nentries s, alocked s, lock_pwhash s, lock_salt s, fail_count s, alog s).

Lemma during_start e s se c : Inv s -> sockets s !! e = Some se -> s_conn se = Some c -> conn_ok c -> during e [] s s.
Proof.
  intros Hi He Hc Hok. split; [done| |done|by exists []]. exists se, c, c. rewrite app_nil_r, list_insert_id; [done|]. rewrite He. by destruct se as [? ? ?]; cbn in *; subst.
Qed.

Lemma inv_sockets s l : Inv s -> Forall sock_ok l -> Inv (set_sockets l s).
Proof. intros [] Hl. by split. Qed.

Lemma wpa_conn {A} e v s0 s (f : bufs -> ending A * bufs) (Q : A -> agent -> Prop) :
  during e v s0 s ->
  (forall c r c', conn_ok c -> f c = (r, c') -> contents (c_request c) = req e s ->
     match r with
     | Ret a => conn_ok c' /\ contents (c_input c') = contents (c_input c) /\
         exists w, contents (c_output c') = contents (c_output c) ++ w /\
           forall s', during e (v ++ w) s0 s' -> core s' = core s -> req e s' = contents (c_request c') -> Q a s'
     | Exit _ => True
     | _ => False
     end) -> wpa (on_conn e f) Q s.
Proof.
  intros [Hi (se & c0 & c & He & Hc0 & Hs & Hok & Hin & Hout) Hp Hl] Hf. unfold wpa, on_conn. assert (e < length (sockets s0))%nat as Hlt by (by eapply lookup_lt_Some).
  assert (sockets s !! e = Some (set_conn (Some c) se)) as Hse by (rewrite Hs; by apply list_lookup_insert_eq).
  rewrite Hse. cbn. destruct (f c) as [r c'] eqn:Ef. specialize (Hf c r c' Hok Ef). destruct r as [a|code| |]; cbn; [| |exfalso; apply Hf; by unfold req; rewrite Hse..]; [|apply Hi].
  destruct Hf as (Hok' & Hin' & w & Hw & Hq); [by unfold req; rewrite Hse|]. apply Hq; [|done|].
  - split; cbn; [|..|done|done].
    + apply inv_sockets; [done|]. apply Forall_insert; [apply Hi|]. right. by exists c'.
    + exists se, c0, c'. split_and!; [done|done| |done|congruence|by rewrite Hw, Hout, app_assoc]. by rewrite Hs, list_insert_insert_eq.
  - unfold req. cbn. by rewrite list_lookup_insert_eq by (rewrite Hs, length_insert; done).
Qed.

Lemma wpa_request {A} e v s0 s (m : SE sshbuf A) enc (Q : result A -> agent -> Prop) :
  during e v s0 s -> steady m -> yields m enc ->
  (forall r s', during e v s0 s' -> core s' = core s -> (forall a, r = Ok a -> exists x, enc a x /\ req e s = x ++ req e s') -> Q r s') ->
  wpa (on_request e m) Q s.
Proof.
  intros Hd Hm He Hq. eapply wpa_conn; [done|]. intros c r c' Hok Ef Hr. destruct Hok as [? ? Hreq Hroom ?]. specialize (Hm _ Hreq). destruct (m (c_request c)) as [r' b] eqn:Em.
  injection Ef as <- <-. cbn in *. destruct Hm as [Hx Hrd]. split_and!; [split; cbn; [done..| |done]; by rewrite (ext_max _ _ Hx)|done|]. exists []. rewrite !app_nil_r. split; [done|].
  intros s' Hd' Hc Hr'. apply Hq; [done..|]. intros a ->. destruct (He _ _ _ Hreq Em) as (_ & x & Hx' & Hcx). exists x. by rewrite <- Hr, Hr'.
Qed.

Lemma wpa_output e v s0 s m w (Q : unit -> agent -> Prop) :
  during e v s0 s -> builds m w -> (forall s', during e (v ++ w) s0 s' -> core s' = core s -> Q tt s') -> wpa (on_output e m) Q s.
Proof.
  intros Hd Hm Hq. eapply wpa_conn; [done|]. intros c r c' [] Ef Hr. destruct (m (c_output c)) as [[[]|err] b] eqn:Em; injection Ef as <- <-; [|done].
  destruct (builds_wf _ _ _ _ Hm ok_output0 Em) as [Hb Hc]. split_and!; [by split|done|]. exists w. split; [done|]. intros s' Hd' Hcore _. by apply Hq.
Qed.

Lemma wpa_reset e v s0 s (Q : unit -> agent -> Prop) :
  during e v s0 s -> (forall s', during e v s0 s' -> core s' = core s -> Q tt s') -> wpa (reset_request e) Q s.
Proof.
  intros Hd Hq. eapply wpa_conn; [done|]. intros c r c' [Hi Ho [Hw Hb] Hroom Hmem] Ef Hr. injection Ef as <- <-. cbn.
  destruct (sshbuf_reset_empty (c_request c) Hmem Hw Hroom) as [Hx Hc].
  split_and!; [split; cbn; [done..| | |done]|done|].
  - split; [apply Hx|]. rewrite Hc. constructor.
  - by rewrite (ext_max _ _ Hx).
  - exists []. rewrite !app_nil_r. split; [done|]. intros s' Hd' Hcore _. by apply Hq.
Qed.

Lemma wpa_request_len e v s0 s (Q : Z -> agent -> Prop) :
  during e v s0 s -> (forall s', during e v s0 s' -> core s' = core s -> req e s' = req e s -> Q (zlen (req e s)) s') -> wpa (request_len e) Q s.
Proof.
  intros Hd Hq. eapply wpa_conn; [done|]. intros c r c' Hok Ef Hr. injection Ef as <- <-. split_and!; [done..|]. exists []. rewrite !app_nil_r. split; [done|].
  intros s' Hd' Hcore Hr'. rewrite sshbuf_len_wf by apply Hok. rewrite Hr. apply Hq; [done..|congruence].
Qed.

(** A call during a request. *)
Lemma during_log e v s0 s ev w :
  during e v s0 s -> Inv (set_world w (ev :: alog s) s) -> (forall new, alog s = new ++ alog s0 -> consent (idlist s0) ev new) ->
  during e v s0 (set_world w (ev :: alog s) s).
Proof. intros [Hi Hs Hp [new [Hn Hc]]] Hi' Hev. split; cbn; [done..|]. exists (ev :: new). rewrite Hn. split; [done|]. split; [by apply Hev|done]. Qed.

Lemma wpa_call {T} e v s0 s (x : agE T) (Q : T -> agent -> Prop) :
  during e v s0 s -> plain x -> (forall r w, during e v s0 (set_world w (AEv x r :: alog s) s) -> Q r (set_world w (AEv x r :: alog s) s)) -> wpa (ask x) Q s.
Proof. intros Hd Hx Hq. apply wpa_ask; [apply Hd|done|]. intros r w Hi. apply Hq. apply during_log; [done..|]. intros new _. by destruct x. Qed.

(** A change of the table. *)
Lemma during_table e v s0 s l n : during e v s0 s -> n = zlen l -> Forall (fun id => i_key id ∈ added (alog s)) l -> during e v s0 (set_idtab l n s).
Proof. intros [[] Hs Hp Hl] Hn Hk. by split; [split|..]. Qed.

(** ** Replies *)

Lemma wpa_status e s0 s (ok : bool) (Q : unit -> agent -> Prop) :
  during e [] s0 s -> (forall s', during e (enc_string [if ok then SSH_AGENT_SUCCESS else SSH_AGENT_FAILURE]) s0 s' -> core s' = core s -> Q tt s') ->
  wpa (send_status e ok) Q s.
Proof. intros Hd Hq. eapply wpa_output; [exact Hd| |exact Hq]. apply (builds_bind _ (POKE_U32 1)); eauto with builds. Qed.

Lemma wpa_message e s0 s m (P : list Z -> Prop) (Q : unit -> agent -> Prop) :
  during e [] s0 s -> (forall b msg, buf_wf b -> contents b = [] -> m b = (Ok tt, msg) -> buf_wf msg /\ P (contents msg)) ->
  (forall w s', P w -> during e (enc_string w) s0 s' -> core s' = core s -> Q tt s') -> wpa (send_message e m) Q s.
Proof.
  intros Hd Hm Hq. unfold send_message. destruct sshbuf_new as [b|] eqn:En; [|apply wpa_dies, Hd]. apply sshbuf_new_spec in En as (Hb & Hc & _).
  destruct (m b) as [[[]|err] msg] eqn:Em; [|apply wpa_dies, Hd]. destruct (Hm b msg Hb Hc Em) as [Hw HP].
  eapply wpa_output; [exact Hd| |intros s'; by apply Hq]. unfold sshbuf_put_stringb. rewrite sshbuf_len_wf, sshbuf_ptr_wf by done. cbn [default from_option id].
  rewrite ztake_ge by done. apply put_string_builds.
Qed.

(** A message of known form. *)
Lemma wpa_built e s0 s m w (Q : unit -> agent -> Prop) :
  during e [] s0 s -> builds m w -> (forall s', during e (enc_string w) s0 s' -> core s' = core s -> Q tt s') -> wpa (send_message e m) Q s.
Proof.
  intros Hd Hm Hq. apply (wpa_message e s0 s m (eq w)); [done| |intros ? s' <-; apply Hq]. intros b msg Hb Hc Em. destruct (builds_wf _ _ _ _ Hm Hb Em) as [Hw Hc']. by rewrite Hc', Hc.
Qed.

(** The request is answered. *)
Definition replied (e : nat) (s0 s : agent) : Prop := exists t body, during e (enc_string (t :: body)) s0 s.

Lemma status_replied e s0 s ok : during e [] s0 s -> wpa (send_status e ok) (fun _ => replied e s0) s.
Proof. intros Hd. apply wpa_status with (s0 := s0); [done|]. intros s' Hd' _. eexists _, []. done. Qed.

(** * Requests *)

Lemma lookup_identity_in k l i id : lookup_identity k l = Some (i, id) -> l !! i = Some id /\ key_match k (i_key id) = true.
Proof. intros Hl. apply list_find_Some in Hl as (Hi & Hm & _). split; [done|]. by apply Is_true_true. Qed.

Lemma sshbuf_put_string_adds v b : buf_wf b -> buf_wf (snd (sshbuf_put_string v b)) /\ exists w, contents (snd (sshbuf_put_string v b)) = contents b ++ w.
Proof.
  intros Hb. destruct (Z.gtb_spec (zlen v) (SSHBUF_SIZE_MAX - 4)) as [Hlt|Hle].
  - unfold sshbuf_put_string. rewrite (proj2 (Z.gtb_lt _ _)) by lia. cbn. split; [done|]. exists []. by rewrite app_nil_r.
  - pose proof (sshbuf_put_string_appends v ltac:(lia) b Hb) as Hs. destruct (sshbuf_put_string v b) as [[[]|err] b1]; destruct Hs as [Hx Hs]; cbn; (split; [apply Hx|]).
    + exists (enc_string v). apply Hs.
    + exists []. rewrite app_nil_r. apply Hs.
Qed.

Lemma put_identities_adds l msg : buf_wf msg -> buf_wf (put_identities l msg) /\ exists v, contents (put_identities l msg) = contents msg ++ v.
Proof.
  revert msg. induction l as [|id l IH]; intros msg Hm; cbn [put_identities]; [split; [done|]; exists []; by rewrite app_nil_r|].
  assert (exists b, snd ((_ ← Akey_puts_opts (i_key id); sshbuf_put_cstring (i_comment id)) msg) = b /\ buf_wf b /\ exists v, contents b = contents msg ++ v) as (b & -> & Hb & v & Hv).
  { eexists. split; [done|]. unfold mbind, se_bind. destruct (Akey_puts_adds (i_key id) msg Hm) as [Hw [v Hv]]. destruct (Akey_puts_opts (i_key id) msg) as [[[]|e] b1]; cbn in *; [|by eauto].
    destruct (sshbuf_put_string_adds (match i_comment id with None => [] | Some c => cstr c end) b1 Hw) as [Hw2 [v2 Hv2]]. split; [done|]. exists (v ++ v2). rewrite app_assoc, <- Hv. exact Hv2. }
  destruct (IH b Hb) as [Hw [v2 Hv2]]. split; [done|]. exists (v ++ v2). by rewrite Hv2, Hv, app_assoc.
Qed.

Lemma request_identities_spec e s0 s : during e [] s0 s -> wpa (process_request_identities e) (fun _ => replied e s0) s.
Proof.
  intros Hd. apply wpa_bind, wpa_reads, wpa_bind, wpa_reads.
  apply (wpa_message e s0 s _ (fun w => exists body, w = SSH2_AGENT_IDENTITIES_ANSWER :: body)); [done| |intros w s' [body ->] Hd' _; by exists SSH2_AGENT_IDENTITIES_ANSWER, body].
  intros b msg Hb Hc Em. destruct ((_ ← sshbuf_put_u8 _; _) b) as [[[]|err] b1] eqn:E1; [|done]. injection Em as <-.
  apply (builds_wf _ ([SSH2_AGENT_IDENTITIES_ANSWER] ++ POKE_U32 (nentries s))) in E1 as [Hw1 Hc1]; [|apply builds_bind; eauto with builds|done].
  destruct (put_identities_adds (idlist s) b1 Hw1) as [Hw [v Hv]]. split; [done|]. rewrite Hv, Hc1, Hc. by eexists.
Qed.

Lemma no_identities_spec e s0 s :
  during e [] s0 s -> wpa (no_identities e) (fun _ s' => during e (enc_string [SSH2_AGENT_IDENTITIES_ANSWER; 0; 0; 0; 0]) s0 s' /\ core s' = core s) s.
Proof. intros Hd. eapply wpa_built; [exact Hd| |by split]. apply (builds_bind _ [_] _ (POKE_U32 0)); eauto with builds. Qed.

Lemma remove_identity_spec e s0 s : during e [] s0 s -> wpa (process_remove_identity e) (fun _ => replied e s0) s.
Proof.
  intros Hd. apply wpa_bind. eapply wpa_request; [done|apply Akey_gets_steady|apply Akey_gets_takes|]. intros [key|err] s1 Hd1 Hc1 _; [|by apply status_replied].
  apply wpa_bind, wpa_reads, wpa_bind, wpa_reads. destruct (lookup_identity key (idlist s1)) as [[i id]|] eqn:El; [|by apply status_replied].
  apply lookup_identity_in in El as [Hi _]. destruct (Z.ltb_spec (nentries s1) 1); [apply wpa_dies, Hd1|]. apply wpa_bind, wpa_updates, status_replied, during_table; [done| |].
  - rewrite (inv_count _ (d_inv _ _ _ _ Hd1)). unfold zlen. rewrite length_delete by (by eexists). apply lookup_lt_Some in Hi. lia.
  - apply Forall_delete, Hd1.
Qed.

Lemma remove_all_spec e s0 s : during e [] s0 s -> wpa (process_remove_all_identities e) (fun _ => replied e s0) s.
Proof. intros Hd. apply wpa_bind, wpa_updates, status_replied, during_table; [done..|constructor]. Qed.

(** ** Signatures *)

Lemma sign_fields_steady : steady sign_fields.
Proof. unfold sign_fields. repeat (apply steady_bind; [auto with steady|intros ?]). apply steady_ret. Qed.
Lemma lift_takes {A} (r : result A) : takes (se_lift r).
Proof. intros b a b' Hr [= -> <-]. split; [done|]. by exists []. Qed.
Lemma sign_fields_takes : takes sign_fields.
Proof. unfold sign_fields. take_all; [apply lift_takes|eapply yields_takes, get_string_direct_yields]. Qed.

(** The call that makes a signature. *)
Lemma wpa_sign e v s0 s alg id opaque data (Q : result (list Z) -> agent -> Prop) :
  during e v s0 s -> alocked s = false -> id ∈ idlist s -> id ∈ idlist s0 ->
  (forall new, alog s = new ++ alog s0 -> i_confirm id = true -> exists fp, sshkey_fingerprint (i_key id) = Some fp /\ AEv (ag_ask (i_comment id) fp) true ∈ new) ->
  (forall r s', during e v s0 s' -> Q r s') -> wpa (ask (ag_sign alg (i_key id) opaque data)) Q s.
Proof.
  intros Hd Hl Hid Hid0 Hc Hq. unfold wpa, ask. destruct (ag_answer _ (world s)) as [r w]. cbn. apply Hq. destruct Hd as [Hi Hs Hp Hlog]. apply during_log; [done| |].
  - apply inv_log; [done..|]. cbn. rewrite <- (inv_lock _ Hi). split; [done|]. by apply (proj1 (Forall_forall _ _) (inv_keys _ Hi)).
  - intros new Hn. exists id. eauto.
Qed.

Lemma sign_body_spec e s0 s :
  during e [] s0 s -> alocked s = false -> idlist s = idlist s0 -> wpa (sign_body e) (fun _ s' => during e [] s0 s') s.
Proof.
  intros Hd Hl Ht. apply wpa_bind. eapply wpa_request; [done|apply sign_fields_steady|apply sign_fields_takes|]. intros [[[[key pkalg] data] flags]|err] s1 Hd1 Hc1 _; [|by apply wpa_ret].
  injection Hc1 as Ht1 _ Hl1 _ _ _ Hlog. apply wpa_bind, wpa_reads. destruct (lookup_identity key (idlist s1)) as [[i id]|] eqn:El; [|by apply wpa_ret].
  apply lookup_identity_in in El as [Hi _]. apply list_elem_of_lookup_2 in Hi. apply wpa_bind.
  assert (forall s2, during e [] s0 s2 -> alocked s2 = false -> idlist s2 = idlist s1 ->
    (forall new, alog s2 = new ++ alog s0 -> i_confirm id = true -> exists fp, sshkey_fingerprint (i_key id) = Some fp /\ AEv (ag_ask (i_comment id) fp) true ∈ new) ->
    wpa (r ← ask (ag_sign (agent_recode_alg pkalg flags) (i_key id) (negb (Z.land flags SSH_AGENT_RFC6187_OPAQUE_ECDSA_SIGNATURE =? 0)) data);
         mret (match r with Ok signature => Some signature | Err _ => None end)) (fun _ s' => during e [] s0 s') s2) as Hsign.
  { intros s2 Hd2 Hl2 Ht2 Hc. apply wpa_bind. apply (wpa_sign e [] s0); [done|done| | |done|by intros r s' Hd'; apply wpa_ret]; congruence. }
  destruct (i_confirm id) eqn:Eid; [|apply wpa_ret, Hsign; [done|congruence|done|done]].
  unfold confirm_key. destruct (sshkey_fingerprint (i_key id)) as [fp|] eqn:Efp; [|by apply wpa_ret, wpa_ret].
  apply (wpa_call e [] s0); [done..|]. intros [] w Hd2; [|by apply wpa_ret]. apply Hsign; [done|cbn; congruence|done|].
  intros new Hn _. exists fp. split; [done|]. destruct (d_log _ _ _ _ Hd1) as (n1 & Hn1 & _). cbn in Hn. rewrite Hn1, app_comm_cons in Hn. apply app_inv_tail in Hn as <-. by left.
Qed.

Lemma sign_request_spec e s0 s : during e [] s0 s -> alocked s = false -> idlist s = idlist s0 -> wpa (process_sign_request2 e) (fun _ => replied e s0) s.
Proof.
  intros Hd Hl Ht. apply wpa_bind. eapply wpa_mono; [by apply sign_body_spec|]. intros [signature|] s1 Hd1.
  - eapply wpa_built; [exact Hd1|apply (builds_bind _ [SSH2_AGENT_SIGN_RESPONSE]); eauto with builds|]. intros s2 Hd2 _. by eexists _, _.
  - eapply wpa_built; [exact Hd1|eauto with builds|]. intros s2 Hd2 _. by eexists _, _.
Qed.

(** ** Addition of keys *)

Lemma add_fields_steady : steady add_fields.
Proof. unfold add_fields. apply steady_bind; [apply deserialize_steady|intros k]. apply steady_bind; [auto with steady|intros c]. apply steady_ret. Qed.
Lemma add_fields_takes : takes add_fields.
Proof. unfold add_fields. take_all. apply deserialize_takes. Qed.

(** A dangling pointer comes from the extension. *)
Definition dangling (q : pending) (s : agent) : Prop :=
  (q_ext_name q = PFreed -> Exists culprit (alog s)) /\ q_sk_provider q <> PFreed.


(** The state in the constraints of a key. *)
Definition adding (e : nat) (s0 : agent) (q : pending) (s : agent) : Prop := during e [] s0 s /\ dangling q s /\ alocked s = false.

Lemma adding_core e s0 q s s' : adding e s0 q s -> during e [] s0 s' -> core s' = core s -> adding e s0 q s'.
Proof. intros (_ & Hq & Hl) Hd [= _ _ Hl' _ _ _ Hlog]. unfold adding, dangling. rewrite Hl', Hlog. done. Qed.

Lemma adding_request {A} e s0 q s (m : SE sshbuf A) enc (Q : result A -> agent -> Prop) :
  adding e s0 q s -> steady m -> yields m enc ->
  (forall r s', adding e s0 q s' -> alog s' = alog s -> (forall a, r = Ok a -> exists x, enc a x /\ length (req e s) = length x + length (req e s'))%nat -> Q r s') ->
  wpa (on_request e m) Q s.
Proof.
  intros Ha Hm He Hq. eapply wpa_request; [apply Ha|done..|]. intros r s' Hd Hc Hr. apply Hq; [by eapply adding_core| |].
  - by injection Hc.
  - intros a Er. destruct (Hr a Er) as (x & Hx & Hreq). exists x. split; [done|]. by rewrite Hreq, length_app.
Qed.

Lemma adding_call {T} e s0 q s (x : agE T) (Q : T -> agent -> Prop) :
  adding e s0 q s -> plain x -> (forall r w, adding e s0 q (set_world w (AEv x r :: alog s) s) -> Q r (set_world w (AEv x r :: alog s) s)) -> wpa (ask x) Q s.
Proof.
  intros (Hd & [Hf Hs] & Hl) Hx Hq. apply (wpa_call e [] s0); [done..|]. intros r w Hd'. apply Hq. split_and!; [done| |done]. split; [|done]. intros Hp. right. auto.
Qed.

Lemma adding_change e s0 q q' s : adding e s0 q s -> (q_ext_name q' = PFreed -> q_ext_name q = PFreed) -> q_sk_provider q' = q_sk_provider q -> adding e s0 q' s.
Proof. intros (Hd & [Hf Hs] & Hl) He Hsk. split_and!; [done| |done]. split; [auto|congruence]. Qed.

Lemma add_constraints_spec fuel e s0 q s :
  adding e s0 q s -> (length (req e s) <= fuel)%nat -> wpa (add_constraints fuel e q) (fun x s' => adding e s0 x.2 s') s.
Proof.
  revert q s. induction fuel as [|fuel IH]; intros q s Ha Hf; cbn [add_constraints]; apply wpa_bind; (eapply wpa_request_len; [apply Ha|]); intros s1 Hd1 Hc1 Hr1.
  all: apply (adding_core _ _ _ _ s1) in Ha; [|done..]; destruct (Z.eqb_spec (zlen (req e s)) 0) as [Hz|Hz]; [by apply wpa_ret|]; unfold zlen in Hz.
  1: lia.
  apply wpa_bind. eapply adding_request; [done|apply get_u8_steady|apply get_u8_yields|]. intros r s2 Ha2 _ Hr2. destruct r as [ctype|err]; [|by apply wpa_ret].
  destruct (Hr2 _ eq_refl) as (x & -> & Hx). rewrite Hr1 in Hx. cbn in Hx.
  destruct (ctype =? SSH_AGENT_CONSTRAIN_LIFETIME).
  { apply wpa_bind. eapply adding_request; [done|apply get_u32_steady|apply get_u32_yields|]. intros r s3 Ha3 _ Hr3. destruct r as [seconds|err]; [|by apply wpa_ret].
    destruct (Hr3 _ eq_refl) as (y & _ & Hy). apply wpa_bind. eapply adding_call; [done..|]. intros now w Ha4. apply IH; [by eapply adding_change|].
    change (req e (set_world _ _ s3)) with (req e s3). lia. }
  destruct (ctype =? SSH_AGENT_CONSTRAIN_CONFIRM); [apply IH; [by eapply adding_change|lia]|].
  destruct (ctype =? SSH_AGENT_CONSTRAIN_MAXSIGN).
  { apply wpa_bind. eapply adding_request; [done|apply get_u32_steady|apply get_u32_yields|]. intros r s3 Ha3 _ Hr3. destruct r as [maxsign|err]; [|by apply wpa_ret].
    destruct (Hr3 _ eq_refl) as (y & _ & Hy). destruct (sshkey_enable_maxsign _ _) as [k|err]; [|by apply wpa_ret]. apply IH; [by eapply adding_change|lia]. }
  destruct (ctype =? SSH_AGENT_CONSTRAIN_EXTENSION); [|by apply wpa_ret].
  apply wpa_bind. eapply adding_request; [done|apply get_cstring_steady|apply get_cstring_yields|]. intros r s3 Ha3 _ Hr3. destruct r as [name|err]; [|apply wpa_ret; by eapply adding_change].
  destruct (Hr3 _ eq_refl) as (y & _ & Hy). apply wpa_bind. eapply adding_call; [by eapply (adding_change _ _ q (mk_pending _ _ _ PLive _))|done|]. intros [] w Ha4.
  destruct (bool_decide_reflect (cstr name = str "sk-provider@openssh.com")) as [Hn|Hn]; [|by apply wpa_ret]. cbn [q_sk_provider]. destruct (q_sk_provider q); [|by apply wpa_ret..].
  apply wpa_bind. eapply adding_request; [done|apply get_cstring_steady|apply get_cstring_yields|]. intros r s5 Ha5 Hlog Hr5. destruct r as [sk|err]; [|by apply wpa_ret].
  destruct (Hr5 _ eq_refl) as (z & _ & Hz'). change (req e (set_world _ _ s3)) with (req e s3) in Hz'. apply IH; [|lia].
  split_and!; [apply Ha5| |apply Ha5]. split; [|done]. intros _. rewrite Hlog. by left.
Qed.

Lemma release_spec p e s0 s (Q : unit -> agent -> Prop) : during e [] s0 s -> (p = PFreed -> Exists culprit (alog s)) -> Q tt s -> wpa (release p) Q s.
Proof. intros Hd Hp Hq. destruct p; [done..|]. split; [apply Hd|by apply Hp]. Qed.

Lemma add_err_spec e s0 s p p' : during e [] s0 s -> (p = PFreed -> Exists culprit (alog s)) -> (p' = PFreed -> Exists culprit (alog s)) -> wpa (add_err e p p') (fun _ => replied e s0) s.
Proof.
  intros Hd Hp Hp'. apply wpa_bind. eapply release_spec; [done..|]. apply wpa_bind. eapply release_spec; [done..|].
  apply wpa_bind. eapply wpa_reset; [done|]. intros s1 Hd1 _. by apply status_replied.
Qed.

Lemma default_death_spec e v s0 s d (Q : Z -> agent -> Prop) :
  during e v s0 s -> (forall d' s', during e v s0 s' -> (exists new, alog s' = new ++ alog s /\ idlist s' = idlist s /\ alocked s' = alocked s) -> Q d' s') -> wpa (default_death d) Q s.
Proof.
  intros Hd Hq. unfold default_death. destruct (_ && _); [|apply wpa_ret, Hq; [done|by exists []]].
  apply wpa_bind, (wpa_call e v s0); [done..|]. intros now w Hd'. apply wpa_ret, Hq; [done|]. by exists [AEv ag_monotime now].
Qed.

Lemma added_app new tr k : k ∈ added tr -> k ∈ added (new ++ tr).
Proof. intros Hk. induction new; [done|]. by apply added_cons. Qed.

Lemma store_identity_spec e v s0 s k comment death confirm (Q : unit -> agent -> Prop) :
  during e v s0 s -> k ∈ added (alog s) -> (forall l n, during e v s0 (set_idtab l n s) -> Q tt (set_idtab l n s)) -> wpa (store_identity k comment death confirm) Q s.
Proof.
  intros Hd Hk Hq. pose proof (d_inv _ _ _ _ Hd) as []. apply wpa_bind, wpa_reads, wpa_bind, wpa_reads. destruct (lookup_identity k (idlist s)) as [[i id]|] eqn:El.
  - apply wpa_updates, Hq, during_table; [done| |].
    + rewrite inv_count0. unfold zlen. by rewrite length_insert.
    + by apply Forall_insert.
  - apply wpa_bind, wpa_acalloc; [done|]. apply wpa_updates, Hq, during_table; [done| |].
    + rewrite inv_count0. unfold zlen. rewrite length_app. cbn. lia.
    + apply Forall_app. split; [done|]. by constructor.
Qed.

Lemma add_identity_spec e s0 s : during e [] s0 s -> alocked s = false -> wpa (process_add_identity e) (fun _ => replied e s0) s.
Proof.
  intros Hd Hl. apply wpa_bind. eapply wpa_request; [done|apply add_fields_steady|apply add_fields_takes|]. intros r s1 Hd1 Hc1 _.
  destruct r as [[k comment]|err]; [|by apply add_err_spec]. apply wpa_bind. eapply wpa_request_len; [done|]. intros s2 Hd2 Hc2 Hr2.
  apply wpa_bind. eapply wpa_mono.
  { apply (add_constraints_spec _ e s0); [|rewrite <- Hr2; unfold zlen; lia]. split_and!; [done|by split|]. injection Hc2; injection Hc1; congruence. }
  intros [[] q] s3 Ha3; cbn [snd] in Ha3; [|destruct Ha3 as (Hd3 & [Hf Hs] & _); by apply add_err_spec].
  apply wpa_bind. eapply adding_call; [done..|]. intros r w (Hd4 & [Hf Hs] & _). destruct r as [k'|err]; [|by apply add_err_spec].
  apply wpa_bind. eapply default_death_spec; [done|]. intros d s5 Hd5 (new & Hlog & _). apply wpa_bind. eapply store_identity_spec; [done| |].
  { rewrite Hlog. apply added_app. cbn. by left. }
  intros l n Hd6. apply wpa_bind. eapply release_spec; [done|by intros|]. by apply status_replied.
Qed.

(** ** Lock *)

Lemma during_lock e v s0 s (m : amessage) w b h salt n :
  during e v s0 s -> (m = LOG_LOCKED /\ b = true \/ m = LOG_UNLOCKED /\ b = false) -> 0 <= n <= 100 ->
  during e v s0 (set_lock b h salt n (set_world w (AEv (ag_debug m) tt :: alog s) s)).
Proof.
  intros [[] Hs Hp [new [Hn Hc]]] Hm Hb. split; [|done|done|].
  - split; cbn -[locked_in added]; [done| |done|done| |done]; [by destruct Hm as [[-> ->]|[-> ->]]|]. eapply Forall_impl; [done|]. intros id. apply added_cons.
  - exists (AEv (ag_debug m) tt :: new). cbn. by rewrite Hn.
Qed.
Lemma during_relock e v s0 s h salt n : during e v s0 s -> 0 <= n <= 100 -> during e v s0 (set_lock (alocked s) h salt n s).
Proof. intros [[] Hs Hp Hl] Hb. by split; [split|..]. Qed.

Lemma wpa_lock_call {A} e v s0 s m b h salt n (k : io agent A) (Q : A -> agent -> Prop) :
  during e v s0 s -> (m = LOG_LOCKED /\ b = true \/ m = LOG_UNLOCKED /\ b = false) -> 0 <= n <= 100 ->
  (forall w, let s' := set_lock b h salt n (set_world w (AEv (ag_debug m) tt :: alog s) s) in during e v s0 s' -> wpa k Q s') ->
  wpa (_ ← ask (ag_debug m); _ ← updates (set_lock b h salt n); k) Q s.
Proof.
  intros Hd Hm Hn Hk. unfold wpa, mbind, io_bind, ask, updates. destruct (ag_answer _ _) as [[] w]. cbn. apply Hk. by apply during_lock.
Qed.

(** The outcome of a request to unlock while the agent is locked. *)
Definition unlock_result (e : nat) (s0 s s' : agent) : Prop :=
  idlist s' = idlist s /\ nentries s' = nentries s /\
  ((alocked s' = true /\ lock_pwhash s' = lock_pwhash s /\ lock_salt s' = lock_salt s /\ during e (enc_string [SSH_AGENT_FAILURE]) s0 s' /\
    (alog s' = alog s \/ exists n, alog s' = AEv (ag_usleep n) tt :: alog s)) \/
   (alocked s' = false /\ during e (enc_string [SSH_AGENT_SUCCESS]) s0 s' /\ alog s' = AEv (ag_debug LOG_UNLOCKED) tt :: alog s /\
    exists passwd rest, req e s = enc_string passwd ++ rest /\ passwd <> [] /\ bcrypt_pbkdf passwd (lock_salt s) = Some (lock_pwhash s))).

Lemma unlock_spec e s0 s : during e [] s0 s -> alocked s = true -> wpa (process_lock_agent e false) (fun _ s' => unlock_result e s0 s s') s.
Proof.
  intros Hd Hl. apply wpa_bind. eapply wpa_request; [done|apply get_cstring_steady|apply get_cstring_yields|]. intros r s1 Hd1 Hc1 Hr1.
  destruct r as [passwd|err]; [|apply wpa_dies, Hd1]. destruct (Hr1 _ eq_refl) as (x & -> & Hx). injection Hc1 as Ht Hn Hl1 Hh Hs Hf Hlog.
  do 4 (apply wpa_bind, wpa_reads). apply wpa_bind. rewrite Hl1, Hl. cbn [negb andb].
  destruct (Z.eqb_spec (zlen passwd) 0) as [Hz|Hz].
  { apply wpa_ret, (wpa_status e s0); [done|]. intros s2 Hd2 Hc2. injection Hc2 as ? ? ? ? ? ? ?. split_and!; [congruence..|]. left. split_and!; [congruence..|done|left; congruence]. }
  destruct (bcrypt_pbkdf passwd (lock_salt s1)) as [h|] eqn:Eb; [|apply wpa_dies, Hd1]. pose proof (inv_fail _ (d_inv _ _ _ _ Hd1)) as Hfc.
  destruct (bool_decide_reflect (h = lock_pwhash s1)) as [->|Hne].
  - apply (wpa_lock_call e [] s0); [done|by right|lia|]. intros w s2 Hd2. apply wpa_ret, (wpa_status e s0); [done|]. intros s3 Hd3 Hc3. injection Hc3 as ? ? ? ? ? ? Hlog3. cbn in *.
    split_and!; [congruence..|]. right. split_and!; [done|done|by rewrite Hlog3, Hlog|]. exists passwd, (req e s1). split_and!; [done|by intros ->|congruence].
  - apply wpa_bind, wpa_updates, wpa_bind.
    assert (0 <= (if fail_count s1 <? 100 then fail_count s1 + 1 else fail_count s1) <= 100) as Hfn by (destruct (Z.ltb_spec (fail_count s1) 100); lia).
    pose proof (during_relock e [] s0 s1 (lock_pwhash s1) (lock_salt s1) _ Hd1 Hfn) as Hd2. rewrite Hl1, Hl in Hd2.
    apply (wpa_call e [] s0); [done..|]. intros [] w Hd3. apply wpa_ret, (wpa_status e s0); [done|]. intros s4 Hd4 Hc4. injection Hc4 as ? ? ? ? ? ? Hlog4. cbn in *.
    split_and!; [congruence..|]. left. split_and!; [congruence..|done|right]. eexists. by rewrite Hlog4, Hlog.
Qed.

Lemma lock_agent_spec e s0 s lock : during e [] s0 s -> alocked s = false -> wpa (process_lock_agent e lock) (fun _ => replied e s0) s.
Proof.
  intros Hd Hl. apply wpa_bind. eapply wpa_request; [done|apply get_cstring_steady|apply get_cstring_yields|]. intros r s1 Hd1 Hc1 _.
  destruct r as [passwd|err]; [|apply wpa_dies, Hd1]. injection Hc1 as _ _ Hl1 _ _ _ _. pose proof (inv_fail _ (d_inv _ _ _ _ Hd1)) as Hfc.
  do 4 (apply wpa_bind, wpa_reads). apply wpa_bind. rewrite Hl1, Hl. cbn [negb andb].
  destruct (zlen passwd =? 0); [by apply wpa_ret, status_replied|]. destruct lock; [|by apply wpa_ret, status_replied].
  apply (wpa_lock_call e [] s0); [done|by left|done|]. intros w s2 Hd2. apply wpa_bind, (wpa_call e [] s0); [done..|]. intros salt w2 Hd3.
  apply wpa_bind, wpa_updates. pose proof (during_relock e [] s0 _ (lock_pwhash s1) salt _ Hd3 Hfc) as Hd4.
  destruct (bcrypt_pbkdf passwd salt) as [h|]; [|apply wpa_dies, Hd4].
  apply wpa_bind, wpa_updates, wpa_ret, status_replied. exact (during_relock e [] s0 _ h salt _ Hd4 Hfc).
Qed.

(** ** Keys of tokens *)

Lemma smartcard_constraints_spec fuel e s0 death confirm s :
  during e [] s0 s -> (length (req e s) <= fuel)%nat -> wpa (smartcard_constraints fuel e death confirm) (fun _ s' => during e [] s0 s') s.
Proof.
  revert death confirm s. induction fuel as [|fuel IH]; intros death confirm s Hd Hf; cbn [smartcard_constraints]; apply wpa_bind; (eapply wpa_request_len; [apply Hd|]); intros s1 Hd1 Hc1 Hr1.
  all: destruct (Z.eqb_spec (zlen (req e s)) 0) as [Hz|Hz]; [by apply wpa_ret|]; unfold zlen in Hz.
  1: lia.
  apply wpa_bind. eapply wpa_request; [done|apply get_u8_steady|apply get_u8_yields|]. intros r s2 Hd2 _ Hr2. destruct r as [ctype|err]; [|by apply wpa_ret].
  destruct (Hr2 _ eq_refl) as (x & -> & Hx). rewrite Hr1 in Hx. rewrite Hx in Hf. cbn in Hf.
  destruct (ctype =? SSH_AGENT_CONSTRAIN_LIFETIME).
  { apply wpa_bind. eapply wpa_request; [done|apply get_u32_steady|apply get_u32_yields|]. intros r s3 Hd3 _ Hr3. destruct r as [seconds|err]; [|by apply wpa_ret].
    destruct (Hr3 _ eq_refl) as (y & _ & Hy). apply wpa_bind, (wpa_call e [] s0); [done..|]. intros now w Hd4. apply IH; [done|].
    change (req e (set_world _ _ s3)) with (req e s3). rewrite Hy, length_app in Hf. lia. }
  destruct (ctype =? SSH_AGENT_CONSTRAIN_CONFIRM); [apply IH; [done|lia]|by apply wpa_ret].
Qed.

Lemma add_token_keys_spec e s0 provider death confirm keys success s :
  during e [] s0 s -> Forall (fun k => k.1 ∈ added (alog s)) keys -> wpa (add_token_keys provider death confirm keys success) (fun _ s' => during e [] s0 s') s.
Proof.
  revert success s. induction keys as [|[k comment] keys IH]; intros success s Hd Hk; [by apply wpa_ret|]. apply Forall_cons in Hk as [Hk Hks].
  apply wpa_bind, wpa_reads, wpa_bind, wpa_reads. destruct (lookup_identity k (idlist s)) as [?|]; [by apply IH|].
  apply wpa_bind, wpa_acalloc; [apply Hd|]. apply wpa_bind, wpa_acalloc; [apply Hd|]. apply wpa_bind, wpa_updates, IH; [|done]. pose proof (d_inv _ _ _ _ Hd) as [].
  apply during_table; [done| |by apply Forall_app; split; [|constructor]]. rewrite inv_count0. unfold zlen. rewrite length_app. cbn. lia.
Qed.

Lemma provider_fields_steady : steady provider_fields.
Proof. unfold provider_fields. do 2 (apply steady_bind; [auto with steady|intros ?]). apply steady_ret. Qed.
Lemma provider_fields_takes : takes provider_fields.
Proof. unfold provider_fields. take_all. Qed.

Lemma add_smartcard_spec e s0 s : during e [] s0 s -> wpa (process_add_smartcard_key e) (fun _ => replied e s0) s.
Proof.
  intros Hd. apply wpa_bind. apply wpa_mono with (P := fun _ s' => during e [] s0 s'); [|intros success s' Hd'; by apply status_replied].
  apply wpa_bind. eapply wpa_request; [done|apply provider_fields_steady|apply provider_fields_takes|]. intros [[provider pin]|err] s1 Hd1 _ _; [|by apply wpa_ret].
  apply wpa_bind. eapply wpa_request_len; [done|]. intros s2 Hd2 _ Hr2. apply wpa_bind. eapply wpa_mono; [apply (smartcard_constraints_spec _ e s0); [done|rewrite <- Hr2; unfold zlen; lia]|].
  intros [[death confirm]|] s3 Hd3; [|by apply wpa_ret]. apply wpa_bind, (wpa_call e [] s0); [done..|]. intros [canon|] w Hd4; [|by apply wpa_ret].
  destruct (negb _); [by apply wpa_ret|]. apply wpa_bind. eapply default_death_spec; [done|]. intros d s5 Hd5 _. apply wpa_bind, (wpa_call e [] s0); [done..|].
  intros [keys|] w' Hd6.
  - apply (add_token_keys_spec e s0); [done|]. apply Forall_forall. intros k Hk. cbn. apply elem_of_app. left. by apply list_elem_of_fmap_2.
  - split; [apply Hd6|]. by left.
Qed.

Lemma partition_count {A} (f : A -> bool) (l : list A) : zlen l - zlen (filter (fun x => f x) l) = zlen (filter (fun x => negb (f x)) l).
Proof. induction l as [|x l IH]; [done|]. rewrite !filter_cons, zlen_cons. destruct (f x); cbn [negb]; repeat case_decide; try done; rewrite ?zlen_cons; lia. Qed.

Lemma remove_smartcard_spec e s0 s : during e [] s0 s -> wpa (process_remove_smartcard_key e) (fun _ => replied e s0) s.
Proof.
  intros Hd. apply wpa_bind. eapply wpa_request; [done|apply provider_fields_steady|apply provider_fields_takes|]. intros [[provider pin]|err] s1 Hd1 _ _; [|by apply status_replied].
  apply wpa_bind, (wpa_call e [] s0); [done..|]. intros [canon|] w Hd2; [|by apply status_replied]. apply wpa_bind, wpa_reads, wpa_bind, wpa_reads, wpa_bind, wpa_updates.
  pose proof (d_inv _ _ _ _ Hd2) as []. apply wpa_bind, (wpa_call e [] s0); [apply during_table; [done| |]|done|].
  - rewrite inv_count0. cbn -[filter zlen]. apply partition_count.
  - apply Forall_forall. intros id Hid. apply list_elem_of_filter in Hid as [_ Hid]. by apply (proj1 (Forall_forall _ _) inv_keys0).
  - intros ok w' Hd3. by apply status_replied.
Qed.

(** * Messages *)

Lemma dispatch_spec e s0 s type : during e [] s0 s -> alocked s = false -> idlist s = idlist s0 -> wpa (dispatch e type) (fun _ => replied e s0) s.
Proof.
  intros Hd Hl Ht. unfold dispatch. repeat (case_match; [eauto using lock_agent_spec, remove_all_spec, sign_request_spec, request_identities_spec, add_identity_spec, remove_identity_spec, add_smartcard_spec, remove_smartcard_spec|]).
  apply wpa_bind. eapply wpa_reset; [done|]. intros s1 Hd1 _. by apply status_replied.
Qed.
End safe.
