(* ===== verification/AgentRun.v ===== *)
(** Runs of the agent: what one message does, what the sockets and the loop do, and
    the properties of whole runs. *)

From Stdlib Require Import String.
From S2P Require Import Prelude Io Sshbuf SshbufGetPut SshbufRead Match Agent AgentSafe.
Local Open Scope Z_scope.

(** * One message *)

(** The message in front of the input of a connection, when it is complete. *)
Definition next_message (input : list Z) : option (list Z) :=
  if zlen input <? 5 then None
  else if PEEK_U32 input >? AGENT_MAX_LEN then None
  else if zlen input <? PEEK_U32 input + 4 then None
  else Some (slice 4 (PEEK_U32 input) input).

Section run.
Context `{Allocator} `{AgentKeys} `{!AgentEnv} `{AgentConfig} `{!AgentLaws}.

Lemma next_message_peek b : readable b ->
  match next_message (contents b) with
  | Some msg => 5 <= zlen (contents b) /\ PEEK_U32 (contents b) <= AGENT_MAX_LEN /\ PEEK_U32 (contents b) + 4 <= zlen (contents b) /\ sshbuf_peek_string_direct b = Ok msg
  | None => zlen (contents b) < 5 \/ PEEK_U32 (contents b) > AGENT_MAX_LEN \/ zlen (contents b) < PEEK_U32 (contents b) + 4
  end.
Proof.
  intros [Hw Hb]. unfold next_message, sshbuf_peek_string_direct. rewrite sshbuf_len_wf, sshbuf_ptr_wf by done. cbn [default from_option id].
  destruct (Z.ltb_spec (zlen (contents b)) 5); [lia|]. destruct (Z.gtb_spec (PEEK_U32 (contents b)) AGENT_MAX_LEN); [lia|].
  destruct (Z.ltb_spec (zlen (contents b)) (PEEK_U32 (contents b) + 4)); [lia|]. split_and!; [lia..|].
  rewrite (proj2 (Z.ltb_ge _ _)) by lia. rewrite Z.gtb_ltb, (proj2 (Z.ltb_ge _ _)) by (unfold SSHBUF_SIZE_MAX, AGENT_MAX_LEN in *; lia).
  by rewrite (proj2 (Z.ltb_ge _ _)) by lia.
Qed.

(** The buffers of the socket [e] are [c0] in [s] and [c] in [s'], which differ in
    nothing else. *)
Definition swapped (e : nat) (se : SocketEntry) (c0 c : bufs) (s s' : agent) : Prop :=
  sockets s !! e = Some se /\ s_conn se = Some c0 /\ conn_ok c /\ s' = set_sockets (<[e := set_conn (Some c) se]> (sockets s)) s.

(** The outcome of [next_request]: the message is taken from the input. *)
Definition taken (e : nat) (se : SocketEntry) (c0 : bufs) (s : agent) (t : option Z) (s' : agent) : Prop :=
  exists c, swapped e se c0 c s s' /\ c_output c = c_output c0 /\
    match next_message (contents (c_input c0)) with
    | None => t = None /\ c = c0
    | Some msg => contents (c_input c0) = enc_string msg ++ contents (c_input c) /\
        match msg with [] => t = None | ty :: body => t = Some ty /\ contents (c_request c) = body end
    end.

Lemma next_request_spec e se c0 s :
  Inv s -> sockets s !! e = Some se -> s_conn se = Some c0 -> conn_ok c0 -> wpa (next_request e) (taken e se c0 s) s.
Proof.
  intros Hi He Hc Hok. unfold wpa, next_request, on_conn. rewrite He, Hc. destruct Hok as [Hin Hout Hreq Hroom Hmem].
  pose proof (next_message_peek _ Hin) as Hn. rewrite sshbuf_len_wf, sshbuf_ptr_wf by apply Hin. cbn [default from_option id].
  assert (next_message (contents (c_input c0)) = None -> taken e se c0 s None (set_sockets (<[e := set_conn (Some c0) se]> (sockets s)) s)) as Hnone.
  { intros Hm. exists c0. split; [by split_and!|]. by rewrite Hm. }
  destruct (Z.ltb_spec (zlen (contents (c_input c0))) 5); [apply Hnone; destruct (next_message _); [lia|done]|].
  destruct (Z.gtb_spec (PEEK_U32 (contents (c_input c0))) AGENT_MAX_LEN); [apply Hnone; destruct (next_message _); [lia|done]|].
  destruct (Z.ltb_spec (zlen (contents (c_input c0))) (PEEK_U32 (contents (c_input c0)) + 4)); [apply Hnone; destruct (next_message _); [lia|done]|].
  clear Hnone. unfold taken. destruct (next_message (contents (c_input c0))) as [msg|]; [|lia]. destruct Hn as (_ & _ & _ & Hp).
  destruct (sshbuf_reset_empty (c_request c0) Hmem (proj1 Hreq) Hroom) as [Hx Hrc].
  destruct (sshbuf_get_stringb _) as [r [i q]] eqn:Eg. destruct (get_stringb_spec _ _ _ _ _ _ Hin (ext_wf _ _ Hx) Hp Eg) as (Hri & Hxq & Hg).
  destruct r as [[]|err]; [|destruct Hg as [_ Hg]; by destruct Hg; cbn; apply Hi]. destruct Hg as [Hci Hcq]. rewrite Hrc in Hcq. cbn in Hcq.
  assert (readable q) as Hrq.
  { split; [apply Hxq|]. rewrite Hcq. destruct Hin as [_ Hby]. rewrite Hci in Hby. unfold enc_string in Hby. rewrite <- app_assoc in Hby. by apply Forall_app in Hby as [_ [? _]%Forall_app]. }
  assert (SSHBUF_SIZE_INIT <= max_size q) as Hrm by (rewrite (ext_max _ _ Hxq), (ext_max _ _ Hx); done).
  pose proof (get_u8_steady q Hrq) as [Hxu Hru]. destruct (sshbuf_get_u8 q) as [[ty|err] q'] eqn:Eu; cbn [snd] in *.
  - destruct (get_u8_yields _ _ _ Hrq Eu) as (_ & x & -> & Hx8). exists (mk_conn i (c_output c0) q').
    split; [split_and!; [done..| |done]; split; cbn; [done..| |done]; by rewrite (ext_max _ _ Hxu)|]. split; [done|]. split; [done|]. by rewrite <- Hcq, Hx8.
  - assert (msg = [] /\ err = SSH_ERR_MESSAGE_INCOMPLETE) as [-> ->].
    { unfold sshbuf_get_u8, mbind, se_bind in Eu. pose proof (get_bytes_spec 1 q (proj1 Hrq) ltac:(lia)) as Hgb. destruct (Z.leb_spec 1 (zlen (contents q))) as [Hz|Hz].
      - by destruct Hgb as (b' & Egb & _); rewrite Egb in Eu.
      - rewrite Hgb in Eu. injection Eu as <- _. split; [|done]. rewrite <- Hcq. apply zlen_0_nil. pose proof (zlen_nonneg (contents q)). lia. }
    exists (mk_conn i (c_output c0) q'). split; [split_and!; [done..| |done]; split; cbn; [done..| |done]; by rewrite (ext_max _ _ Hxu)|]. by split.
Qed.

Lemma swapped_core e se c0 c s s' : swapped e se c0 c s s' -> Inv s -> Inv s' /\ core s' = core s /\ pfd s' = pfd s /\ during e [] s' s'.
Proof.
  intros (He & Hc & Hok & ->) Hi. assert (Inv (set_sockets (<[e := set_conn (Some c) se]> (sockets s)) s)) as Hi'.
  { apply inv_sockets; [done|]. apply Forall_insert; [apply Hi|]. right. by exists c. }
  split_and!; [done..|]. apply (during_start e _ (set_conn (Some c) se) c); [done| |done|done]. cbn. apply list_lookup_insert_eq. by eapply lookup_lt_Some.
Qed.

Lemma swapped_req e se c0 c s s' : swapped e se c0 c s s' -> req e s' = contents (c_request c).
Proof. intros (He & Hc & Hok & ->). unfold req. cbn. rewrite list_lookup_insert_eq by (by eapply lookup_lt_Some). done. Qed.

(** From the start of a message to its end. *)
Lemma swapped_during e se c0 c1 v s s1 s' :
  swapped e se c0 c1 s s1 -> during e v s1 s' ->
  Inv s' /\ pfd s' = pfd s /\ (exists new, alog s' = new ++ alog s /\ consented (idlist s) new) /\
  exists c, sockets s' = <[e := set_conn (Some c) se]> (sockets s) /\ conn_ok c /\ contents (c_input c) = contents (c_input c1) /\ contents (c_output c) = contents (c_output c1) ++ v.
Proof.
  intros (He & Hc & Hok & ->) [Hi (se' & c1' & c & He' & Hc' & Hs & Hokc & Hin & Hout) Hp Hl]. cbn in *. rewrite list_lookup_insert_eq in He' by (by eapply lookup_lt_Some). injection He' as <-. injection Hc' as <-.
  rewrite list_insert_insert_eq in Hs. split_and!; [done..|]. by exists c.
Qed.

(** What a message does: one reply for each that is not empty. *)
Definition message_done (e : nat) (s s' : agent) : Prop :=
  Inv s' /\ pfd s' = pfd s /\ (exists new, alog s' = new ++ alog s /\ consented (idlist s) new) /\
  exists se c0 c, sockets s !! e = Some se /\ s_conn se = Some c0 /\ sockets s' = <[e := set_conn (Some c) se]> (sockets s) /\ conn_ok c /\
    match next_message (contents (c_input c0)) with
    | None => c = c0 /\ core s' = core s
    | Some msg => contents (c_input c0) = enc_string msg ++ contents (c_input c) /\
        match msg with
        | [] => c_output c = c_output c0 /\ core s' = core s
        | _ :: _ => exists t body, contents (c_output c) = contents (c_output c0) ++ enc_string (t :: body)
        end
    end.

(** The calls while the agent is locked. *)
Definition sleeps (ev : aevent) : Prop := match ev with AEv (ag_usleep _) _ => True | _ => False end.

(** What a message does while the agent is locked; [out] is added to the output. *)
Definition still_locked (s s' : agent) (out : list Z) : Prop :=
  alocked s' = true /\ lock_pwhash s' = lock_pwhash s /\ lock_salt s' = lock_salt s /\ (exists new, alog s' = new ++ alog s /\ Forall sleeps new) /\
  (out = [] \/ out = enc_string [SSH_AGENT_FAILURE] \/ out = enc_string [SSH2_AGENT_IDENTITIES_ANSWER; 0; 0; 0; 0]).
Definition now_unlocked (s s' : agent) (msg : option (list Z)) (out : list Z) : Prop :=
  alocked s' = false /\ alog s' = AEv (ag_debug LOG_UNLOCKED) tt :: alog s /\ out = enc_string [SSH_AGENT_SUCCESS] /\
  exists passwd rest, msg = Some (SSH_AGENTC_UNLOCK :: enc_string passwd ++ rest) /\ passwd <> [] /\ bcrypt_pbkdf passwd (lock_salt s) = Some (lock_pwhash s).
Definition locked_effect (e : nat) (s s' : agent) : Prop :=
  idlist s' = idlist s /\ nentries s' = nentries s /\
  exists se c0 c out, sockets s !! e = Some se /\ s_conn se = Some c0 /\ sockets s' = <[e := set_conn (Some c) se]> (sockets s) /\
    contents (c_output c) = contents (c_output c0) ++ out /\ (still_locked s s' out \/ now_unlocked s s' (next_message (contents (c_input c0))) out).

Lemma sock_conn s e se : Inv s -> sockets s !! e = Some se -> s_type se <> AUTH_UNUSED -> exists c, s_conn se = Some c /\ conn_ok c.
Proof. intros Hi He Hu. by destruct (proj1 (Forall_lookup _ _) (inv_socks _ Hi) e se He). Qed.

(** A message that is answered. *)
Lemma answered_done e se c0 c1 s s1 ty body t r s' :
  swapped e se c0 c1 s s1 -> next_message (contents (c_input c0)) = Some (ty :: body) -> contents (c_input c0) = enc_string (ty :: body) ++ contents (c_input c1) ->
  c_output c1 = c_output c0 -> during e (enc_string (t :: r)) s1 s' -> message_done e s s'.
Proof.
  intros Hsw Hm Hin Ho Hd. destruct (swapped_during _ _ _ _ _ _ _ _ Hsw Hd) as (Hi & Hp & Hl & c & Hs & Hok & Hc & Hout). split_and!; [done..|].
  exists se, c0, c. destruct Hsw as (He & Hc0 & _). rewrite Hm. split_and!; [done..|congruence|]. exists t, r. congruence.
Qed.

(** A message that the locked agent refuses. *)
Lemma refused_effect e se c0 c1 s s1 s' out :
  swapped e se c0 c1 s s1 -> c_output c1 = c_output c0 -> alocked s = true -> during e out s1 s' -> core s' = core s1 ->
  (out = [] \/ out = enc_string [SSH_AGENT_FAILURE] \/ out = enc_string [SSH2_AGENT_IDENTITIES_ANSWER; 0; 0; 0; 0]) -> locked_effect e s s'.
Proof.
  intros Hsw Ho Hl Hd Hcore Hout. destruct (swapped_during _ _ _ _ _ _ _ _ Hsw Hd) as (_ & _ & _ & c & Hs & _ & _ & Hc).
  destruct Hsw as (He & Hc0 & _ & ->). injection Hcore as Ht Hn Hl' Hh Hsa _ Hlog. cbn in *.
  split_and!; [done..|]. exists se, c0, c, out. split_and!; [done..|congruence|]. left. split_and!; [congruence|done|done| |done]. by exists [].
Qed.

Lemma unlock_effect e se c0 c1 s s1 s' body :
  swapped e se c0 c1 s s1 -> c_output c1 = c_output c0 -> next_message (contents (c_input c0)) = Some (SSH_AGENTC_UNLOCK :: body) -> contents (c_request c1) = body ->
  unlock_result e s1 s1 s' -> locked_effect e s s'.
Proof.
  intros Hsw Ho Hm Hb (Ht & Hn & Hu). pose proof (swapped_req _ _ _ _ _ _ Hsw) as Hreq. pose proof Hsw as (He & Hc0 & _ & Es1).
  assert (core s1 = core s) as [= Ht1 Hn1 Hl1 Hh1 Hs1 _ Hlog1] by by rewrite Es1. split; [congruence|]. split; [congruence|].
  destruct Hu as [(Hl & Hh & Hsa & Hd & Hlog)|(Hl & Hd & Hlog & passwd & rest & Hr & Hne & Hbc)].
  - destruct (swapped_during _ _ _ _ _ _ _ _ Hsw Hd) as (_ & _ & _ & c & Hs & _ & _ & Hc). exists se, c0, c, (enc_string [SSH_AGENT_FAILURE]). split_and!; [done..|congruence|].
    left. split_and!; [done|congruence|congruence| |by right; left]. rewrite Hlog1 in Hlog. destruct Hlog as [->|[n ->]]; [by exists []|]. exists [AEv (ag_usleep n) tt]. split; [done|]. by constructor.
  - destruct (swapped_during _ _ _ _ _ _ _ _ Hsw Hd) as (_ & _ & _ & c & Hs & _ & _ & Hc). exists se, c0, c, (enc_string [SSH_AGENT_SUCCESS]). split_and!; [done..|congruence|].
    right. split_and!; [done|congruence|done|]. exists passwd, rest. split_and!; [|done|congruence]. rewrite Hm. congruence.
Qed.

Lemma process_message_spec e se s :
  Inv s -> sockets s !! e = Some se -> s_type se <> AUTH_UNUSED ->
  wpa (process_message e) (fun _ s' => message_done e s s' /\ (alocked s = true -> locked_effect e s s')) s.
Proof.
  intros Hi He Hu. destruct (sock_conn s e se Hi He Hu) as (c0 & Hc0 & Hok0). apply wpa_bind. eapply wpa_mono; [by apply (next_request_spec e se c0)|].
  intros t s1 (c1 & Hsw & Ho & Hm). destruct (swapped_core _ _ _ _ _ _ Hsw Hi) as (Hi1 & Hcore1 & Hp1 & Hd1). pose proof Hcore1 as [= Ht1 _ Hl1 _ _ _ _].
  assert (t = None -> match next_message (contents (c_input c0)) with Some (_ :: _) => False | _ => True end -> message_done e s s1 /\ (alocked s = true -> locked_effect e s s1)) as Hnone.
  { intros Ht Hn. split; [|intros Hl; eapply (refused_effect e se c0 c1 s s1 s1 []); by eauto]. destruct (swapped_during _ _ _ _ _ _ _ _ Hsw Hd1) as (_ & _ & Hlog & c & Hs & Hok & Hin & Hout).
    destruct Hsw as (_ & _ & Hok1 & ->). split_and!; [done..|]. exists se, c0, c1. split_and!; [done..|]. destruct (next_message _) as [[|? ?]|]; [destruct Hm; by split_and!|done|destruct Hm; by split]. }
  destruct (next_message (contents (c_input c0))) as [[|ty body]|] eqn:En; [by destruct Hm as [_ ->]; apply wpa_ret, Hnone| |by destruct Hm as [-> _]; apply wpa_ret, Hnone].
  clear Hnone. destruct Hm as (Hin & -> & Hbody). apply wpa_bind, wpa_reads. rewrite Hl1. destruct (alocked s) eqn:El; cbn [andb].
  - destruct (Z.eqb_spec ty SSH_AGENTC_UNLOCK) as [->|Hne]; cbn [negb].
    + change (dispatch e SSH_AGENTC_UNLOCK) with (process_lock_agent e false). eapply wpa_mono; [apply (unlock_spec e s1); [done|congruence]|]. intros [] s2 Hu2. split.
      * destruct Hu2 as (_ & _ & [(_ & _ & _ & Hd2 & _)|(_ & Hd2 & _)]); by eapply answered_done.
      * intros _. by eapply unlock_effect.
    + apply wpa_bind. eapply wpa_reset; [done|]. intros s2 Hd2 Hcore2. destruct (ty =? SSH2_AGENTC_REQUEST_IDENTITIES).
      * eapply wpa_mono; [by apply (no_identities_spec e s1)|]. intros [] s3 [Hd3 Hcore3]. split; [by eapply answered_done|]. intros _. eapply refused_effect; [done..|congruence|auto].
      * apply (wpa_status e s1); [done|]. intros s3 Hd3 Hcore3. split; [by eapply answered_done|]. intros _. eapply refused_effect; [done..|congruence|auto].
  - eapply wpa_mono; [by apply (dispatch_spec e s1)|]. intros [] s2 (t & r & Hd2). split; [by eapply answered_done|done].
Qed.

(** * From one state of a run to a later one *)

(** The identities that have not expired at [now]. *)
Definition alive (now : Z) (id : Identity) : bool := (i_death id =? 0) || (now <? i_death id).
Definition alive_at (now : Z) (l : list Identity) : list Identity := filter (fun id => alive now id) l.

Lemma alive_at_cons now id l : alive_at now (id :: l) = if alive now id then id :: alive_at now l else alive_at now l.
Proof. unfold alive_at. rewrite filter_cons. destruct (alive now id); by case_decide. Qed.

Lemma reap_alive now l d : (reap now l d).1.1 = alive_at now l /\ (reap now l d).1.2 = zlen l - zlen (alive_at now l).
Proof.
  revert d. induction l as [|id l IH]; intros d; [done|]. cbn [reap]. rewrite alive_at_cons, zlen_cons. unfold alive. rewrite Z.geb_leb.
  destruct (Z.eqb_spec (i_death id) 0) as [Hz|Hz]; cbn [orb]; [|destruct (Z.leb_spec (i_death id) now) as [Hle|Hgt]; [rewrite (proj2 (Z.ltb_ge _ _)) by lia|rewrite (proj2 (Z.ltb_lt _ _)) by lia]].
  all: match goal with |- context [reap _ _ ?x] => specialize (IH x); destruct (reap _ _ x) as [[k n] d'] end.
  all: cbn in IH; destruct IH as [-> ->]; cbn [fst snd]; rewrite ?zlen_cons; split; [done|lia].
Qed.

Lemma alive_at_twice a b l : alive_at b (alive_at a l) = alive_at (Z.max a b) l.
Proof.
  unfold alive_at. rewrite list_filter_filter. apply list_filter_iff. intros id. unfold alive. rewrite !Is_true_true, !orb_true_iff, !Z.eqb_eq, !Z.ltb_lt. lia.
Qed.

(** Calls that do not have to do with keys or the lock. *)
Definition idle (ev : aevent) : Prop :=
  match ev with
  | AEv (ag_debug _) _ | AEv (ag_ask _ _) _ | AEv (ag_sign _ _ _ _) _ | AEv (ag_shield _) _ | AEv (ag_random _) _ | AEv (ag_realpath _) _
  | AEv (ag_pkcs11_add _ _) _ | AEv (ag_pkcs11_del _) _ => False
  | _ => True
  end.
Definition unlocks (ev : aevent) : Prop := match ev with AEv (ag_debug LOG_UNLOCKED) _ => True | _ => False end.

(** The table after the calls [new] that may only have removed expired keys. *)
Definition reaped (new : list aevent) (l l' : list Identity) : Prop := l' = l \/ exists now, AEv ag_monotime now ∈ new /\ l' = alive_at now l.

Record asleep (s s' : agent) (new : list aevent) : Prop := {
  as_locked : alocked s' = true;
  as_hash : lock_pwhash s' = lock_pwhash s;
  as_salt : lock_salt s' = lock_salt s;
  as_table : reaped new (idlist s) (idlist s');
  as_calls : Forall idle new
}.

(** A locked agent that was not unlocked is as it was, but for keys that expired. *)
Definition follows (s s' : agent) : Prop :=
  Inv s' /\ exists new, alog s' = new ++ alog s /\ (alocked s = true -> ~ Exists unlocks new -> asleep s s' new).

Lemma follows_refl s : Inv s -> follows s s.
Proof. intros Hi. split; [done|]. exists []. split; [done|]. intros Hl _. split; [done..|by left|constructor]. Qed.

Lemma reaped_trans n1 n2 l l1 l2 : reaped n1 l l1 -> reaped n2 l1 l2 -> reaped (n2 ++ n1) l l2.
Proof.
  intros [->|(a & Ha & ->)] [->|(b & Hb & ->)]; [by left|right..]; [exists b|exists a|exists (Z.max a b)]; rewrite elem_of_app; [auto..|].
  split; [|apply alive_at_twice]. destruct (Z.max_spec a b) as [[_ ->]|[_ ->]]; auto.
Qed.

Lemma follows_trans s1 s2 s3 : follows s1 s2 -> follows s2 s3 -> follows s1 s3.
Proof.
  intros [Hi1 (n1 & Hl1 & Ha1)] [Hi2 (n2 & Hl2 & Ha2)]. split; [done|]. exists (n2 ++ n1). rewrite Hl2, Hl1, app_assoc. split; [done|].
  intros Hl Hn. rewrite Exists_app in Hn. destruct (Ha1 Hl ltac:(tauto)) as [Hl' Hh Hs Ht Hc]. destruct (Ha2 Hl' ltac:(tauto)) as [? ? ? Ht2 Hc2].
  split; [done|congruence|congruence| |by apply Forall_app]. by eapply reaped_trans.
Qed.

Lemma wpa_then {A B} s0 s (m : io agent A) (f : A -> io agent B) (Q : B -> agent -> Prop) (P : A -> agent -> Prop) :
  follows s0 s -> wpa m (fun a s' => follows s s' /\ P a s') s -> (forall a s', follows s0 s' -> P a s' -> wpa (f a) Q s') -> wpa (m ≫= f) Q s.
Proof. intros Hs0 Hm Hf. apply wpa_bind. eapply wpa_mono; [done|]. intros a s' [Hs HP]. apply Hf; [by eapply follows_trans|done]. Qed.

(** A call in the loop. *)
Lemma follows_call {T} s (x : agE T) r w : Inv s -> plain x -> idle (AEv x r) -> follows s (set_world w (AEv x r :: alog s) s).
Proof.
  intros Hi Hp Hx. split; [apply inv_log; [done|by apply plain_locked|by apply plain_sign]|]. exists [AEv x r]. split; [done|]. intros Hl _. split; [done..|by left|]. by constructor.
Qed.

Lemma wpa_world {T} s0 s (x : agE T) (Q : T -> agent -> Prop) :
  follows s0 s -> plain x -> (forall r, idle (AEv x r)) -> (forall r w, follows s0 (set_world w (AEv x r :: alog s) s) -> Q r (set_world w (AEv x r :: alog s) s)) -> wpa (ask x) Q s.
Proof. intros Hf Hp Hx Hq. apply wpa_ask; [apply Hf|done|]. intros r w _. apply Hq. eapply follows_trans; [done|]. apply follows_call; [apply Hf|done|done]. Qed.

(** A change of the sockets. *)
Lemma follows_sockets s0 s l : follows s0 s -> Forall sock_ok l -> follows s0 (set_sockets l s).
Proof.
  intros Hf Hl. eapply follows_trans; [done|]. split; [apply inv_sockets; [apply Hf|done]|]. exists []. split; [done|]. intros Hk _. split; [done..|by left|constructor].
Qed.
Lemma follows_pfd s0 s l : follows s0 s -> follows s0 (set_pfd l s).
Proof.
  intros Hf. eapply follows_trans; [done|]. destruct Hf as [[] _]. split; [by split|]. exists []. split; [done|]. intros Hk _. split; [done..|by left|constructor].
Qed.

Lemma reaper_spec s0 s (Q : Z -> agent -> Prop) :
  follows s0 s -> (forall d s', follows s0 s' -> sockets s' = sockets s -> pfd s' = pfd s -> Q d s') -> wpa reaper Q s.
Proof.
  intros Hf Hq. apply wpa_bind, wpa_ask; [apply Hf|done|]. intros now w Hi. apply wpa_bind, wpa_reads, wpa_bind, wpa_reads. cbn [idlist nentries set_world].
  pose proof (reap_alive now (idlist s) 0) as [Hk Hn]. destruct (reap now (idlist s) 0) as [[k gone] deadline]. cbn in Hk, Hn. subst k gone.
  apply wpa_bind, wpa_updates, wpa_ret, Hq; [|done..]. eapply follows_trans; [done|]. destruct Hi as [Hcnt ? ? ? Hkeys ?]. cbn in Hcnt. split.
  - split; cbn -[locked_in added]; [lia|done..| |done]. apply Forall_forall. intros id Hid. apply list_elem_of_filter in Hid as [_ Hid]. by apply (proj1 (Forall_forall _ _) Hkeys).
  - exists [AEv ag_monotime now]. split; [done|]. intros Hl _. split; [done..| |by constructor]. right. exists now. split; [by left|done].
Qed.

(** * Sockets *)

Definition in_use (e : nat) (s : agent) : Prop := exists se, sockets s !! e = Some se /\ s_type se <> AUTH_UNUSED.

Lemma unused_ok : sock_ok unused_socket.
Proof. by left. Qed.

Lemma new_conn_ok c : new_conn = Some c -> conn_ok c.
Proof.
  unfold new_conn. destruct sshbuf_new as [b|] eqn:En; [|done]. intros [= <-]. pose proof (sshbuf_new_spec _ En) as (Hb & Hc & _ & Hm). assert (readable b) as Hr by (split; [done|]; rewrite Hc; constructor).
  split; cbn; [done..|rewrite Hm; done|]. unfold sshbuf_new in En. destruct (malloc_ok SIZEOF_SSHBUF && malloc_ok SSHBUF_SIZE_INIT) eqn:E; [|done]. by apply andb_true_iff in E as [_ ?].
Qed.

Lemma new_socket_spec s0 s type fd : follows s0 s -> wpa (new_socket type fd) (fun _ s' => follows s0 s') s.
Proof.
  intros Hf. apply wpa_bind. eapply wpa_world; [done..|]. intros [] w Hf1. apply wpa_bind, wpa_reads. destruct (list_find is_unused _) as [[i se]|].
  - destruct new_conn as [c|] eqn:Ec; [|apply wpa_dies, Hf1]. apply wpa_updates, follows_sockets; [done|]. apply Forall_insert; [apply Hf1|]. right. exists c. split; [done|by apply new_conn_ok].
  - apply wpa_bind, wpa_acalloc; [apply Hf1|]. destruct new_conn as [c|] eqn:Ec; [|apply wpa_dies, Hf1]. apply wpa_updates, follows_sockets; [done|]. apply Forall_app. split; [apply Hf1|].
    constructor; [right; exists c; split; [done|by apply new_conn_ok]|]. apply Forall_replicate, unused_ok.
Qed.

Lemma socket_fd_spec e s (Q : Z -> agent -> Prop) : in_use e s -> (forall fd, Q fd s) -> wpa (socket_fd e) Q s.
Proof. intros (se & He & _) Hq. unfold wpa, socket_fd. rewrite He. apply Hq. Qed.

Lemma close_socket_spec s0 s e : follows s0 s -> in_use e s -> wpa (close_socket e) (fun _ s' => follows s0 s') s.
Proof.
  intros Hf Hu. apply wpa_bind, socket_fd_spec; [done|]. intros fd. apply wpa_bind. eapply wpa_world; [done..|]. intros [] w Hf1.
  apply wpa_bind, wpa_reads, wpa_updates, follows_sockets; [done|]. apply Forall_insert; [apply Hf1|apply unused_ok].
Qed.

Lemma close_sock_spec s0 s e a : follows s0 s -> in_use e s -> wpa (close_sock e a) (fun _ s' => follows s0 s') s.
Proof. intros Hf Hu. unfold close_sock. destruct (a =? 0); [apply wpa_dies, Hf|]. apply wpa_bind. eapply wpa_mono; [by apply close_socket_spec|]. done. Qed.

Lemma handle_socket_read_spec s0 s e : follows s0 s -> in_use e s -> wpa (handle_socket_read e) (fun _ s' => follows s0 s') s.
Proof.
  intros Hf Hu. apply wpa_bind, socket_fd_spec; [done|]. intros sock. apply wpa_bind. eapply wpa_world; [done..|]. intros [fd|] w1 Hf1; [|done].
  apply wpa_bind. eapply wpa_world; [done..|]. intros [euid|] w2 Hf2; [|apply wpa_bind; eapply wpa_world; by eauto].
  apply wpa_bind. assert (forall (ok : bool) s', follows s0 s' -> wpa (if ok then _ ← new_socket AUTH_CONNECTION fd; mret true else _ ← ask ag_getuid; _ ← ask (ag_close fd); mret false) (fun _ s' => follows s0 s') s') as Hk.
  { intros [] s3 Hf3; apply wpa_bind; [eapply wpa_mono; [by apply new_socket_spec|done]|]. eapply wpa_world; [done..|]. intros u w3 Hf4. apply wpa_bind. eapply wpa_world; by eauto. }
  destruct (euid =? 0); [apply wpa_ret; by apply (Hk true)|]. apply wpa_bind. eapply wpa_world; [done..|]. intros uid w3 Hf3. apply wpa_ret. by apply (Hk (uid =? euid)).
Qed.

(** A message in the loop. *)
Lemma message_follows e s s' : Inv s -> message_done e s s' -> (alocked s = true -> locked_effect e s s') -> in_use e s -> follows s s' /\ in_use e s'.
Proof.
  intros Hi (Hi' & _ & (new & Hlog & _) & se & c0 & c & He & _ & Hs & _) Hlk (se' & He' & Hu). rewrite He in He'. injection He' as <-. split; [split; [done|]|].
  - exists new. split; [done|]. intros Hl Hn. destruct (Hlk Hl) as (Ht & _ & _ & _ & _ & out & _ & _ & _ & _ & [(Hl' & Hh & Hsa & (new' & Hlog' & Hsl) & _)|(_ & Hlog' & _)]).
    + rewrite Hlog in Hlog'. apply app_inv_tail in Hlog' as <-. split; [done..|by left|]. eapply Forall_impl; [done|]. intros [T ev r] Hev. by destruct ev.
    + rewrite Hlog in Hlog'. apply (app_inv_tail _ _ [_]) in Hlog' as ->. exfalso. apply Hn. by left.
  - exists (set_conn (Some c) se). rewrite Hs. split; [apply list_lookup_insert_eq; by eapply lookup_lt_Some|done].
Qed.

(** A change of the buffers of a socket in the loop. *)
Lemma follows_conn {A} s0 s e (f : bufs -> ending A * bufs) (Q : A -> agent -> Prop) :
  follows s0 s -> in_use e s ->
  (forall c r c', conn_ok c -> f c = (r, c') -> match r with Ret a => conn_ok c' /\ forall s', follows s0 s' -> in_use e s' -> Q a s' | Exit _ => True | _ => False end) ->
  wpa (on_conn e f) Q s.
Proof.
  intros Hf (se & He & Hu) Hc. destruct (sock_conn s e se (proj1 Hf) He Hu) as (c & Hcs & Hok). unfold wpa, on_conn. rewrite He, Hcs. destruct (f c) as [r c'] eqn:Ef.
  specialize (Hc c r c' Hok Ef). destruct r; cbn; [|apply Hf|done..]. destruct Hc as [Hok' Hq]. apply Hq.
  - apply follows_sockets; [done|]. apply Forall_insert; [apply Hf|]. right. by exists c'.
  - exists (set_conn (Some c') se). cbn. split; [apply list_lookup_insert_eq; by eapply lookup_lt_Some|done].
Qed.

Lemma handle_conn_read_spec s0 s e : follows s0 s -> in_use e s -> wpa (handle_conn_read e) (fun _ s' => follows s0 s' /\ in_use e s') s.
Proof.
  intros Hf Hu. apply wpa_bind, socket_fd_spec; [done|]. intros fd. apply wpa_bind. unfold wpa, ask. destruct (ag_answer (ag_read fd AGENT_RBUF_LEN) (world s)) as [r w] eqn:Er. cbn [ends].
  assert (follows s0 (set_world w (AEv (ag_read fd AGENT_RBUF_LEN) r :: alog s) s)) as Hf1 by (eapply follows_trans; [done|]; by apply follows_call; [apply Hf|..]).
  destruct r as [errno|data]; [by split|]. pose proof (read_bytes _ _ _ _ _ Er) as Hby. destruct data as [|x data]; [by split|].
  apply wpa_bind. apply (follows_conn s0); [done|done|]. intros c r c' [Hin Hout Hreq Hroom Hmem] Ef. destruct (sshbuf_put (x :: data) (c_input c)) as [[[]|err] b] eqn:Ep; injection Ef as <- <-; [|done].
  pose proof (sshbuf_put_appends (x :: data) (c_input c) (proj1 Hin)) as Ha. rewrite Ep in Ha. destruct Ha as (Hx & _ & _ & Hc). split.
  { split; cbn; [|done..]. split; [apply Hx|]. rewrite Hc. apply Forall_app. split; [apply Hin|done]. }
  intros s2 Hf2 Hu2. apply wpa_bind. destruct Hu2 as (se & He & Hty). eapply wpa_mono; [by apply (process_message_spec e se); [apply Hf2|..]|].
  intros [] s3 [Hd Hlk]. apply wpa_ret. destruct (message_follows e s2 s3) as [Hf3 Hu3]; [apply Hf2|done|done|by exists se|]. split; [by eapply follows_trans|done].
Qed.

Lemma handle_conn_write_spec s0 s e : follows s0 s -> in_use e s -> wpa (handle_conn_write e) (fun _ s' => follows s0 s' /\ in_use e s') s.
Proof.
  intros Hf Hu. apply wpa_bind. apply (follows_conn s0); [done|done|]. intros c r c' Hok Ef. injection Ef as <- <-. split; [done|]. intros s1 Hf1 Hu1.
  destruct (_ =? 0); [by split|]. apply wpa_bind, socket_fd_spec; [done|]. intros fd. apply wpa_bind. eapply wpa_world; [done..|]. intros [errno|len] w Hf2; [by split|].
  destruct (Z.leb_spec len 0); [by split|]. apply wpa_bind. apply (follows_conn s0); [done|done|]. intros c2 r c2' [Hin Hout Hreq Hroom Hmem] Ef. pose proof (sshbuf_consume_spec (c_output c2) len Hout ltac:(lia)) as Hs.
  destruct (sshbuf_consume len (c_output c2)) as [[[]|err] b]; injection Ef as <- <-; [|done]. split; [split; cbn; try done|by split].
  destruct (len <=? _); [|done]. destruct Hs as (b' & [= ->] & Hx & _). apply Hx.
Qed.

(** * The loop *)

Lemma after_event_spec s0 s npfd p a : follows s0 s -> wpa (after_event npfd p a) (fun _ s' => follows s0 s') s.
Proof.
  intros Hf. unfold after_event. destruct (_ =? 0); [done|]. apply wpa_bind, wpa_reads. destruct (find_socket (p_fd p) (sockets s)) as [[e se]|] eqn:Ef; [|done].
  apply list_find_Some in Ef as (He & Hm & _). apply andb_prop_elim in Hm as [Hm _]. assert (in_use e s) as Hu.
  { exists se. split; [done|]. intros Ht. unfold is_unused in Hm. by rewrite Ht in Hm. }
  destruct (s_type se); [done| |].
  - destruct (has_events _ _); cbn [negb]; [|done]. destruct (npfd >? maxfds); [done|]. apply wpa_bind. eapply wpa_mono; [by apply handle_socket_read_spec|]. by intros [] s' Hf'.
  - apply wpa_bind. apply wpa_mono with (P := fun _ s' => follows s0 s' /\ in_use e s'); [destruct (has_events _ _); [by apply handle_conn_read_spec|by apply wpa_ret]|].
    intros [] s1 [Hf1 Hu1]; cbn [negb]; [|by apply close_sock_spec].
    apply wpa_bind. apply wpa_mono with (P := fun _ s' => follows s0 s' /\ in_use e s'); [destruct (has_events _ _); [by apply handle_conn_write_spec|by apply wpa_ret]|].
    intros [] s2 [Hf2 Hu2]; cbn [negb]; [done|by apply close_sock_spec].
Qed.

Lemma after_events_spec s0 npfd l a s : follows s0 s -> wpa (after_events npfd l a) (fun _ s' => follows s0 s') s.
Proof.
  revert a s. induction l as [|p l IH]; intros a s Hf; [done|]. cbn [after_events]. apply wpa_bind. eapply wpa_mono; [by apply after_event_spec|]. intros a' s' Hf'. by apply IH.
Qed.

Lemma active_cons se l : active (se :: l) = match s_type se with AUTH_UNUSED => 0 | _ => 1 end + active l.
Proof.
  unfold active, is_unused. rewrite filter_cons. destruct (s_type se); [rewrite bool_decide_true by done|rewrite bool_decide_false by done..]; case_decide; try done; rewrite zlen_cons; lia.
Qed.

Lemma arm_spec s0 s j fd ev (Q : unit -> agent -> Prop) :
  follows s0 s -> (j < length (pfd s))%nat -> (forall s', follows s0 s' -> sockets s' = sockets s -> length (pfd s') = length (pfd s) -> Q tt s') -> wpa (arm j fd ev) Q s.
Proof.
  intros Hf Hj Hq. unfold wpa, arm. destruct (lookup_lt_is_Some_2 _ _ Hj) as [p ->]. cbn. apply Hq; [by apply follows_pfd|done|]. cbn. by rewrite length_insert.
Qed.

Lemma arm_sockets_spec s0 npfd l j s :
  follows s0 s -> Forall sock_ok l -> Z.of_nat j + active l <= zlen (pfd s) -> wpa (arm_sockets npfd l j) (fun _ s' => follows s0 s' /\ sockets s' = sockets s) s.
Proof.
  revert j s. induction l as [|se l IH]; intros j s Hf Hl Hj; [by split|]. apply Forall_cons in Hl as [Hse Hl]. rewrite active_cons in Hj. cbn [arm_sockets].
  assert (0 <= active l) as Ha by apply zlen_nonneg. destruct (s_type se) eqn:Et; [by apply IH| |].
  - destruct (npfd >? maxfds); [apply IH; [done..|lia]|]. apply wpa_bind. eapply arm_spec; [done|unfold zlen in Hj; lia|]. intros s1 Hf1 Hs1 Hp1. eapply wpa_mono; [apply IH; [done..|unfold zlen in *; lia]|].
    intros [] s2 [Hf2 Hs2]. split; [done|congruence].
  - apply wpa_bind, wpa_reads. destruct (lookup_lt_is_Some_2 (pfd s) j) as [p ->]; [unfold zlen in Hj; lia|]. destruct Hse as [?|(c & -> & Hok)]; [congruence|].
    destruct (conn_events c (p_events p)) as [ev|]; [|apply wpa_dies, Hf]. apply wpa_bind. eapply arm_spec; [done|unfold zlen in Hj; lia|]. intros s1 Hf1 Hs1 Hp1.
    eapply wpa_mono; [apply IH; [done..|unfold zlen in *; lia]|]. intros [] s2 [Hf2 Hs2]. split; [done|congruence].
Qed.

Lemma resize_pfd_length n l : 0 <= n -> zlen (resize_pfd n l) = n.
Proof. intros Hn. unfold resize_pfd, zlen. rewrite length_app, length_take, length_replicate. lia. Qed.

Lemma prepare_poll_spec s0 s : follows s0 s -> wpa prepare_poll (fun _ s' => follows s0 s') s.
Proof.
  intros Hf. apply wpa_bind, wpa_reads, wpa_bind, wpa_reads. cbn zeta. apply wpa_bind. assert (0 <= active (sockets s)) as Ha by apply zlen_nonneg.
  apply wpa_mono with (P := fun _ s' => follows s0 s' /\ sockets s' = sockets s /\ zlen (pfd s') = active (sockets s)).
  { destruct (Z.eqb_spec (active (sockets s)) (zlen (pfd s))) as [E|E]; [apply wpa_ret; split_and!; [done..|by symmetry]|].
    apply wpa_bind, wpa_acalloc; [apply Hf|]. apply wpa_updates. split_and!; [by apply follows_pfd|done|]. by apply resize_pfd_length. }
  intros [] s1 (Hf1 & Hs1 & Hp1). apply wpa_bind. eapply wpa_mono; [apply (arm_sockets_spec s0); [done|apply Hf|lia]|]. intros [] s2 [Hf2 _].
  apply wpa_bind. eapply reaper_spec; [done|]. intros d s3 Hf3 _ _. by apply wpa_ret.
Qed.

Lemma check_parent_spec s0 s : follows s0 s -> wpa check_parent_exists (fun _ s' => follows s0 s') s.
Proof.
  intros Hf. unfold check_parent_exists. destruct (_ =? -1); [done|]. apply wpa_bind. eapply wpa_world; [done..|]. intros ppid w Hf1. destruct (_ =? _); [done|].
  apply wpa_bind. apply wpa_mono with (P := fun _ s' => follows s0 s'); [|intros [] s' Hf'; apply wpa_dies, Hf'].
  apply wpa_bind. apply wpa_mono with (P := fun _ s' => follows s0 s'); [destruct (_ =? 0); [done|]; apply wpa_bind; eapply wpa_world; [done..|]; by intros pid w' Hf2|].
  intros [] s2 Hf2; [done|]. apply wpa_bind. apply wpa_mono with (P := fun _ s' => follows s0 s'); [case_bool_decide; [done|]; eapply wpa_world; [done..|]; by intros [] w' Hf3|].
  intros [] s3 Hf3. case_bool_decide; [done|]. eapply wpa_world; [done..|]. by intros [] w' Hf4.
Qed.

Lemma main_turn_spec s0 s : follows s0 s -> wpa main_turn (fun _ s' => follows s0 s') s.
Proof.
  intros Hf. apply wpa_bind. eapply wpa_mono; [by apply prepare_poll_spec|]. intros timeout s1 Hf1. apply wpa_bind, wpa_reads, wpa_bind. apply (wpa_world s0); [done..|]. intros result w Hf2.
  apply wpa_bind. apply wpa_mono with (P := fun _ s' => follows s0 s'); [destruct result; [done|]; by apply wpa_updates, follows_pfd|]. intros [] s3 Hf3.
  apply wpa_bind. apply wpa_mono with (P := fun _ s' => follows s0 s'); [destruct (negb _); [by apply check_parent_spec|done]|]. intros [] s4 Hf4.
  apply wpa_bind. eapply reaper_spec; [done|]. intros d s5 Hf5 _ _. destruct result as [errno|revents]; [destruct (_ =? _); [done|apply wpa_dies, Hf5]|].
  destruct (existsb _ revents); [|done]. apply wpa_bind, wpa_reads. by apply after_events_spec.
Qed.

Lemma main_loop_spec s0 n s : follows s0 s -> wpa (main_loop n) (fun _ s' => follows s0 s') s.
Proof. revert s. induction n as [|n IH]; intros s Hf; [done|]. cbn [main_loop]. apply wpa_bind. eapply wpa_mono; [by apply main_turn_spec|]. intros [] s' Hf'. by apply IH. Qed.

Lemma init_inv w : Inv (agent_init w).
Proof. by split. Qed.

Lemma agent_main_spec sock n w : wpa (agent_main sock n) (fun _ s' => follows (agent_init w) s') (agent_init w).
Proof. apply wpa_bind. eapply wpa_mono; [apply new_socket_spec, follows_refl, init_inv|]. intros [] s Hf. by apply main_loop_spec. Qed.
End run.

(** * Theorems *)

Section theorems.
Context `{Allocator} `{AgentKeys} `{!AgentEnv} `{AgentConfig} `{!AgentLaws}.

Lemma wpa_elim {A} (m : io agent A) Q s r s' : wpa m Q s -> m s = (r, s') -> ends Q r s'.
Proof. unfold wpa. intros Hw E. by rewrite E in Hw. Qed.

(** C3: Whatever the clients send and the system answers, in any number of turns
    of the loop from its start: every loop over a request ends (the fuel is enough);
    a private key is used only while the agent is not locked, and only a key that
    was given to the agent before; the agent fails with an error of memory only
    after it was sent the constraint whose name is freed twice or after the token
    helper did not start; and while it runs, the count of the identities is that of
    the table and the lock is as the last lock or unlock left it. *)
Theorem agent_run_safe sock n w r s :
  agent_main sock n (agent_init w) = (r, s) ->
  r <> NoFuel /\ signs_ok (alog s) /\ (r = Segv -> Exists culprit (alog s)) /\ (r = Ret tt -> Inv s).
Proof.
  intros E. pose proof (wpa_elim _ _ _ _ _ (agent_main_spec sock n w) E) as He. destruct r as [[]|c| |]; cbn in He; [|done|by destruct He|done].
  split_and!; [done|apply He|done|by intros _; apply He].
Qed.

(** C13: From a locked state of a run to a later one: as long as the log does not say
    that the agent was unlocked, it stays locked with the same password, no call
    that has to do with a key was made (no signature, no question to the user, no
    addition), and the table of identities is the same but for those that have
    expired. *)
Theorem agent_locked_run sock n w s m s' :
  agent_main sock n (agent_init w) = (Ret tt, s) -> alocked s = true -> main_loop m s = (Ret tt, s') ->
  exists new, alog s' = new ++ alog s /\ (~ Exists unlocks new -> asleep s s' new).
Proof.
  intros E Hl Em. pose proof (wpa_elim _ _ _ _ _ (agent_main_spec sock n w) E) as [Hi _].
  destruct (wpa_elim _ _ _ _ _ (main_loop_spec s m s (follows_refl s Hi)) Em) as [_ (new & Hlog & Ha)]. eauto.
Qed.

(** C15: A message to a locked agent changes no identity and makes no call but a
    delay; its reply, if any, is a failure or an empty list of identities, unless
    it is the request to unlock with a password, not empty, whose hash with the
    salt is the one that was stored: then the agent is unlocked and says so. *)
Theorem agent_locked_message e se s s' :
  Inv s -> sockets s !! e = Some se -> s_type se <> AUTH_UNUSED -> alocked s = true -> process_message e s = (Ret tt, s') -> locked_effect e s s'.
Proof. intros Hi He Hu Hl E. by apply (wpa_elim _ _ _ _ _ (process_message_spec e se s Hi He Hu) E). Qed.

(** C14: A message of a client takes exactly its own bytes from the input and is
    answered by exactly one reply, nothing is done before it is complete and an
    empty one is dropped; the other sockets are not touched; and each signature it
    made was made with the key of an identity of the table, after the user agreed
    when the identity is constrained to that. *)
Theorem agent_message_answered e se s s' :
  Inv s -> sockets s !! e = Some se -> s_type se <> AUTH_UNUSED -> process_message e s = (Ret tt, s') -> message_done e s s'.
Proof. intros Hi He Hu E. by apply (wpa_elim _ _ _ _ _ (process_message_spec e se s Hi He Hu) E). Qed.
End theorems.

(** * An instance *)

Module Toy.
#[local] Existing Instance alloc_all.

(** Keys are bytes. *)
#[global] Instance keys : AgentKeys := {|
  akey := Z;
  parse_key_from_blob blob := match blob with [k] => Ok (k, str "ssh-rsa") | _ => Err SSH_ERR_INVALID_FORMAT end;
  sshkey_private_deserialize := sshbuf_get_u8;
  Akey_gets := sshbuf_get_u8;
  Akey_puts_opts k := @sshbuf_put_string alloc_all [k];
  sshkey_is_x509 _ := false;
  sshkey_equal := Z.eqb;
  sshkey_equal_pub := Z.eqb;
  sshkey_fingerprint k := Some [k];
  sshkey_enable_maxsign k _ := Ok k;
  bcrypt_pbkdf pw salt := Some (pw ++ salt)
|}.

(** One client connects and sends the given data, a piece in each turn. *)
Definition answer (T : Type) (e : agE T) : list (list Z) -> T * list (list Z) :=
  match e in agE T return list (list Z) -> T * list (list Z) with
  | ag_monotime => fun w => (100, w)
  | ag_debug _ => fun w => (tt, w)
  | ag_ask _ _ => fun w => (true, w)
  | ag_shield k => fun w => (Ok k, w)
  | ag_sign _ k _ data => fun w => (Ok (k :: data), w)
  | ag_random n => fun w => (zrepeat n, w)
  | ag_usleep _ => fun w => (tt, w)
  | ag_realpath p => fun w => (Some p, w)
  | ag_pkcs11_add _ _ => fun w => (Some [], w)
  | ag_pkcs11_del _ => fun w => (true, w)
  | ag_accept _ => fun w => (Some 7, w)
  | ag_nonblock _ => fun w => (tt, w)
  | ag_getpeereid _ => fun w => (Some 0, w)
  | ag_getuid | ag_getpid | ag_getppid => fun w => (1, w)
  | ag_unlink _ | ag_rmdir _ | ag_close _ => fun w => (tt, w)
  | ag_read _ _ => fun w => match w with [] => (inl EAGAIN, []) | data :: w => (inr (map (fun x => x mod 256) data), w) end
  | ag_write _ data => fun w => (inr (zlen data), w)
  | ag_poll l _ => fun w => (inr (match l with [_] => [POLLIN] | _ => 0 :: map (fun _ => Z.lor POLLIN POLLOUT) (tail l) end), w)
  end.
#[global] Instance env : AgentEnv := {| aenv := list (list Z); ag_answer := answer |}.
#[global] Instance config : AgentConfig := {|
  lifetime := 0; provider_whitelist := []; maxfds := 100; parent_pid := -1; parent_alive_interval := 0; cleanup_pid := 0; socket_name := []; socket_dir := [] |}.

Lemma mod_byte x : is_byte (x mod 256).
Proof. unfold is_byte. pose proof (Z.mod_pos_bound x 256). lia. Qed.

#[global] Instance laws : @AgentLaws alloc_all keys env.
Proof.
  split.
  - apply get_u8_steady.
  - apply get_u8_steady.
  - eapply yields_takes, get_u8_yields.
  - eapply yields_takes, get_u8_yields.
  - intros k b Hb. apply (sshbuf_put_string_adds (H := alloc_all)). done.
  - intros fd n w data w'. destruct w as [|d w]; [done|]. intros [= <- <-]. apply Forall_map, Forall_true. intros x. apply mod_byte.
Qed.

Definition add_message (constraints : list Z) : list Z := enc_string (SSH2_AGENTC_ADD_ID_CONSTRAINED :: 9 :: enc_string [99] ++ constraints).
Definition sign_message : list Z := enc_string (SSH2_AGENTC_SIGN_REQUEST :: enc_string [9] ++ enc_string [1; 2; 3] ++ POKE_U32 0).
Definition lock_message : list Z := enc_string (SSH_AGENTC_LOCK :: enc_string [112; 119]).
Definition unlock_message : list Z := enc_string (SSH_AGENTC_UNLOCK :: enc_string [112; 119]).

(** The state after [n] turns of the loop in which the client sends [data]. *)
Abbreviation after n data := (@agent_main alloc_all keys env config 3 n (@agent_init keys env data)).

Lemma after_inv n data s : after n data = (Ret tt, s) -> Inv s.
Proof. intros E. exact (proj1 (wpa_elim _ _ _ _ _ (@agent_main_spec alloc_all keys env config laws 3 n data) E)). Qed.

(** A key is added and used. *)
Lemma agent_run_safe_witness : exists s, after 3 [add_message [2]; sign_message] = (Ret tt, s) /\ length (added (alog s)) = 1%nat /\ signs_ok (alog s).
Proof.
  assert ((after 3 [add_message [2]; sign_message]).1 = Ret tt /\ length (added (alog (after 3 [add_message [2]; sign_message]).2)) = 1%nat) as [Hr Ha] by (split; vm_compute; reflexivity).
  destruct (after 3 [add_message [2]; sign_message]) as [r s] eqn:E. cbn [fst snd] in Hr, Ha. subst r.
  exists s. split; [done|]. split; [done|]. exact (proj1 (proj2 (@agent_run_safe alloc_all keys env config laws 3 3 _ _ _ E))).
Defined.

(** The agent is locked, and then asked for a signature. *)
Lemma agent_locked_run_witness : exists s s', after 3 [add_message []; lock_message; sign_message] = (Ret tt, s) /\ alocked s = true /\ main_loop 1 s = (Ret tt, s') /\
  exists new, alog s' = new ++ alog s /\ (~ Exists unlocks new -> asleep s s' new).
Proof.
  assert (let x := after 3 [add_message []; lock_message; sign_message] in x.1 = Ret tt /\ alocked x.2 = true /\ (@main_loop alloc_all keys env config 1 x.2).1 = Ret tt) as (Hr & Hl & Hr') by (split_and!; vm_compute; reflexivity).
  destruct (after 3 [add_message []; lock_message; sign_message]) as [r s] eqn:E. cbn [fst snd] in Hr, Hl, Hr'. subst r. destruct (@main_loop alloc_all keys env config 1 s) as [r' s'] eqn:E'. cbn [fst] in Hr'. subst r'.
  exists s, s'. split_and!; [done..|]. exact (@agent_locked_run alloc_all keys env config laws 3 3 _ s 1 s' E Hl E').
Defined.

(** The request to sign came together with the one to lock. *)
Lemma agent_locked_message_witness : exists s s', after 3 [add_message []; lock_message ++ sign_message] = (Ret tt, s) /\ process_message 1 s = (Ret tt, s') /\ locked_effect 1 s s'.
Proof.
  assert (let x := after 3 [add_message []; lock_message ++ sign_message] in
    x.1 = Ret tt /\ alocked x.2 = true /\ (@process_message alloc_all keys env config 1 x.2).1 = Ret tt /\ s_type <$> sockets x.2 !! 1%nat = Some AUTH_CONNECTION) as (Hr & Hl & Hr' & Ht) by (split_and!; vm_compute; reflexivity).
  destruct (after 3 [add_message []; lock_message ++ sign_message]) as [r s] eqn:E. cbn [fst snd] in Hr, Hl, Hr', Ht. subst r. destruct (@process_message alloc_all keys env config 1 s) as [r' s'] eqn:E'. cbn [fst] in Hr'. subst r'.
  exists s, s'. split_and!; [done..|]. destruct (sockets s !! 1%nat) as [se|] eqn:Es; [|done]. injection Ht as Ht.
  apply (@agent_locked_message alloc_all keys env config laws 1%nat se s s'); [by eapply after_inv|done|congruence|done|done].
Defined.

(** The request to sign came together with the one to add the key. *)
Lemma agent_message_answered_witness : exists s s', after 2 [add_message [2] ++ sign_message] = (Ret tt, s) /\ process_message 1 s = (Ret tt, s') /\
  length (alog s') = S (S (length (alog s))) /\ message_done 1 s s'.
Proof.
  assert (let x := after 2 [add_message [2] ++ sign_message] in let y := @process_message alloc_all keys env config 1 x.2 in
    x.1 = Ret tt /\ y.1 = Ret tt /\ length (alog y.2) = S (S (length (alog x.2))) /\ s_type <$> sockets x.2 !! 1%nat = Some AUTH_CONNECTION) as (Hr & Hr' & Hn & Ht) by (split_and!; vm_compute; reflexivity).
  destruct (after 2 [add_message [2] ++ sign_message]) as [r s] eqn:E. cbn [fst snd] in Hr, Hr', Hn, Ht. subst r. destruct (@process_message alloc_all keys env config 1 s) as [r' s'] eqn:E'. cbn [fst snd] in Hr', Hn. subst r'.
  exists s, s'. split_and!; [done..|]. destruct (sockets s !! 1%nat) as [se|] eqn:Es; [|done]. injection Ht as Ht.
  apply (@agent_message_answered alloc_all keys env config laws 1%nat se s s'); [by eapply after_inv|done|congruence|done].
Defined.
End Toy.
