(* ===== verification/AgentTime.v ===== *)
(** Lifetimes of identities, and the constraint of [process_add_identity] whose name
    is freed twice. *)

From Stdlib Require Import String.
From S2P Require Import Prelude Io Sshbuf SshbufGetPut SshbufRead Match Agent AgentSafe AgentRun.
Local Open Scope Z_scope.

Section time.
Context `{Allocator} `{AgentKeys} `{!AgentEnv} `{AgentConfig}.

(** [d] is the earliest end of an identity of [l], 0 when none ends. *)
Definition earliest (l : list Identity) (d : Z) : Prop :=
  (d = 0 /\ Forall (fun id => i_death id = 0) l) \/
  (d <> 0 /\ Exists (fun id => i_death id = d) l /\ Forall (fun id => i_death id = 0 \/ d <= i_death id) l).

Lemma reap_earliest now l d0 :
  let d := (reap now l d0).2 in
  (d = d0 /\ Forall (fun id => i_death id = 0 \/ (d0 <> 0 /\ d0 <= i_death id)) (alive_at now l)) \/
  (d <> 0 /\ (d0 = 0 \/ d <= d0) /\ Exists (fun id => i_death id = d) (alive_at now l) /\ Forall (fun id => i_death id = 0 \/ d <= i_death id) (alive_at now l)).
Proof.
  cbn zeta. revert d0. induction l as [|id l IH]; intros d0; [by left|]. cbn [reap]. rewrite alive_at_cons. unfold alive. rewrite Z.geb_leb.
  destruct (Z.eqb_spec (i_death id) 0) as [Hz|Hz]; cbn [orb]; [|destruct (Z.leb_spec (i_death id) now) as [Hle|Hgt]; [rewrite (proj2 (Z.ltb_ge _ _)) by lia|rewrite (proj2 (Z.ltb_lt _ _)) by lia]].
  1, 2: specialize (IH d0); destruct (reap _ _ d0) as [[k n] d]; cbn [snd] in *.
  - destruct IH as [[-> Hf]|(Hd & Hm & He & Hf)]; [left|right]; split_and!; try done; try (constructor; [by left|done]). by right.
  - done.
  - set (d1 := if d0 =? 0 then _ else _). assert (d1 <> 0 /\ d1 <= i_death id /\ (d0 = 0 \/ d1 <= d0) /\ (d1 = i_death id \/ (d1 = d0 /\ d0 <> 0))) as (J1 & J2 & J3 & J4).
    { unfold d1. destruct (Z.eqb_spec d0 0); [lia|]. rewrite MINIMUM_min. lia. }
    specialize (IH d1). destruct (reap _ _ d1) as [[k n] d]; cbn [snd] in *. destruct IH as [[-> Hf]|(Hd & Hm & He & Hf)].
    + destruct J4 as [J4|[J4 J5]].
      * right. split_and!; [done|done|by left|]. constructor; [by right|]. eapply Forall_impl; [done|]. intros ? [?|[? ?]]; auto.
      * left. split; [done|]. rewrite J4 in *. constructor; [by right|]. eapply Forall_impl; [done|]. intros ? [?|[? ?]]; auto.
    + right. split_and!; [done|lia|by right|]. constructor; [right; lia|done].
Qed.

(** The part of the state that the timeout depends on. *)
Lemma reaper_exact s d s' :
  reaper s = (Ret d, s') -> exists now, alog s' = AEv ag_monotime now :: alog s /\ idlist s' = alive_at now (idlist s) /\
    exists m, earliest (idlist s') m /\ d = if m =? 0 then 0 else m - now.
Proof.
  unfold reaper, mbind, io_bind, ask, reads, updates. destruct (ag_answer ag_monotime (world s)) as [now w]. cbn [idlist nentries set_world].
  pose proof (reap_alive now (idlist s) 0) as [Hk _]. pose proof (reap_earliest now (idlist s) 0) as He. destruct (reap now (idlist s) 0) as [[k gone] m]. cbn [fst snd] in *. subst k.
  intros E. injection E as <- <-. exists now. split; [done|]. split; [done|]. cbn [idlist set_idtab]. exists m. assert (earliest (alive_at now (idlist s)) m) as Hm.
  { destruct He as [[-> Hf]|(Hd & _ & Hx & Hf)]; [left|by right]. split; [done|]. eapply Forall_impl; [done|]. intros id [?|[? _]]; done. }
  split; [done|]. destruct (Z.eqb_spec m 0); cbn [orb]; [done|]. destruct Hm as [[? _]|(_ & Hx & _)]; [done|]. apply Exists_exists in Hx as (id & Hid & Hdeath).
  apply list_elem_of_filter in Hid as [Ha _]. unfold alive in Ha. rewrite Is_true_true, orb_true_iff, Z.eqb_eq, Z.ltb_lt in Ha. rewrite (proj2 (Z.leb_gt _ _)) by lia. done.
Qed.

(** What the timeout [t] of a turn promises, made at [now]. *)
Definition wakes_in_time (now t : Z) (l : list Identity) : Prop :=
  (forall id, id ∈ l -> i_death id <> 0 -> now < i_death id /\ 0 < t <= 1000 * (i_death id - now)) /\
  (parent_alive_interval <> 0 -> 0 < t <= 1000 * parent_alive_interval) /\
  (t = -1 <-> parent_alive_interval = 0 /\ Forall (fun id => i_death id = 0) l).

Lemma poll_timeout_spec now l m :
  0 <= parent_alive_interval -> Forall (fun id => alive now id) l -> earliest l m -> wakes_in_time now (poll_timeout (if m =? 0 then 0 else m - now)) l.
Proof.
  intros Hp Ha He. assert (forall id, id ∈ l -> i_death id <> 0 -> now < i_death id) as Hal.
  { intros id Hid Hd. apply (proj1 (Forall_forall _ _) Ha) in Hid. unfold alive in Hid. rewrite Is_true_true, orb_true_iff, Z.eqb_eq, Z.ltb_lt in Hid. lia. }
  assert (exists d, (if m =? 0 then 0 else m - now) = d /\ 0 <= d /\ (d = 0 <-> Forall (fun id => i_death id = 0) l) /\ (forall id, id ∈ l -> i_death id <> 0 -> 0 < d <= i_death id - now)) as (d & -> & Hd0 & Hd & Hmin).
  { eexists. split; [done|]. destruct He as [[-> Hf]|(Hm & Hx & Hf)]; cbn.
    - split_and!; [done|done|]. intros id Hid Hne. by apply (proj1 (Forall_forall _ _) Hf) in Hid.
    - rewrite (proj2 (Z.eqb_neq m 0)) by done. apply Exists_exists in Hx as (id & Hid & <-). specialize (Hal id Hid Hm). split_and!; [lia| |].
      + split; [lia|]. intros Hz. by apply (proj1 (Forall_forall _ _) Hz) in Hid.
      + intros id' Hid' Hne. destruct (proj1 (Forall_forall _ _) Hf id' Hid'); [done|lia]. }
  unfold poll_timeout, wakes_in_time. rewrite MINIMUM_min, Z.gtb_ltb. change (INT_MAX ÷ 1000) with 2147483.
  destruct (Z.eqb_spec parent_alive_interval 0) as [Hp0|Hp0]; cbn [negb]; destruct (Z.eqb_spec d 0) as [Hz|Hz].
  - split_and!; [|done|tauto]. intros id Hid Hne. specialize (Hmin id Hid Hne). lia.
  - split_and!; [|done|].
    + intros id Hid Hne. specialize (Hmin id Hid Hne). specialize (Hal id Hid Hne). destruct (Z.ltb_spec 2147483 d); lia.
    + destruct (Z.ltb_spec 2147483 d); (split; [lia|tauto]).
  - rewrite (proj2 (Z.eqb_neq parent_alive_interval 0)) by done. split_and!; [|intros _; destruct (Z.ltb_spec 2147483 parent_alive_interval); lia|].
    + intros id Hid Hne. specialize (Hmin id Hid Hne). lia.
    + destruct (Z.ltb_spec 2147483 parent_alive_interval); (split; [lia|tauto]).
  - rewrite (proj2 (Z.eqb_neq (Z.min d parent_alive_interval) 0)) by lia. split_and!.
    + intros id Hid Hne. specialize (Hmin id Hid Hne). specialize (Hal id Hid Hne). destruct (Z.ltb_spec 2147483 (Z.min d parent_alive_interval)); lia.
    + intros _. destruct (Z.ltb_spec 2147483 (Z.min d parent_alive_interval)); lia.
    + destruct (Z.ltb_spec 2147483 (Z.min d parent_alive_interval)); (split; [lia|tauto]).
Qed.

Lemma arm_core j fd ev s s' : arm j fd ev s = (Ret tt, s') -> core s' = core s.
Proof. unfold arm. destruct (_ !! j); [|done]. by intros [= <-]. Qed.

Lemma arm_sockets_core npfd l j s s' : arm_sockets npfd l j s = (Ret tt, s') -> core s' = core s.
Proof.
  revert j s. induction l as [|se l IH]; intros j s; [by intros [= <-]|]. cbn [arm_sockets]. destruct (s_type se); [apply IH| |].
  - destruct (npfd >? maxfds); [apply IH|]. intros ([] & s1 & E1 & E2)%io_bind_ret. apply arm_core in E1. apply IH in E2. congruence.
  - intros (p & s1 & [= <- <-] & E2)%io_bind_ret. destruct (pfd s !! j), (s_conn se); try done. destruct (conn_events _ _); [|done].
    apply io_bind_ret in E2 as ([] & s2 & E1 & E2). apply arm_core in E1. apply IH in E2. congruence.
Qed.

(** C17: The timeout of each call of poll is short enough: the keys that have
    expired when it is computed are removed then, and poll returns no later than
    the end of the first of the others, and no later than the next check of the
    parent; it waits without limit only when no key has a lifetime and there is no
    parent to check. *)
Theorem agent_wakes_for_expiry s t s' :
  0 <= parent_alive_interval -> prepare_poll s = (Ret t, s') ->
  exists now, alog s' = AEv ag_monotime now :: alog s /\ idlist s' = alive_at now (idlist s) /\ wakes_in_time now t (idlist s').
Proof.
  intros Hp E. unfold prepare_poll in E. apply io_bind_ret in E as (l & ? & [= <- <-] & E). apply io_bind_ret in E as (old & ? & [= <- <-] & E). cbn zeta in E.
  apply io_bind_ret in E as ([] & s1 & E1 & E). assert (core s1 = core s) as Hc1.
  { destruct (active (sockets s) =? zlen (pfd s)); [by injection E1 as <-|]. apply io_bind_ret in E1 as ([] & s2 & E2 & [= <-]). unfold acalloc in E2. destruct (malloc_ok _); [|done]. by injection E2 as <-. }
  apply io_bind_ret in E as ([] & s2 & E2 & E). apply arm_sockets_core in E2. apply io_bind_ret in E as (d & s3 & E3 & [= <- <-]).
  destruct (reaper_exact _ _ _ E3) as (now & Hlog & Hid & m & Hm & ->). injection Hc1 as Hi1 _ _ _ _ _ Hl1. injection E2 as Hi2 _ _ _ _ _ Hl2. exists now.
  split_and!; [congruence..|]. apply poll_timeout_spec; [done| |done]. apply Forall_forall. rewrite Hid. intros id Hin. by apply list_elem_of_filter in Hin as [? _].
Qed.

(** * The double release *)

(** The socket [e] holds the buffers [c]. *)
Definition holds (e : nat) (c : bufs) (s : agent) : Prop := exists se, sockets s !! e = Some se /\ s_conn se = Some c.

Definition with_request (b : sshbuf) (c : bufs) : bufs := mk_conn (c_input c) (c_output c) b.

Lemma on_request_run {A} e c s (m : SE sshbuf A) r b : holds e c s -> m (c_request c) = (r, b) -> exists s', on_request e m s = (Ret r, s') /\ holds e (with_request b c) s'.
Proof.
  intros (se & He & Hc) Em. unfold on_request, on_conn. rewrite He, Hc, Em. eexists. split; [done|]. exists (set_conn (Some (with_request b c)) se). cbn.
  split; [apply list_lookup_insert_eq; by eapply lookup_lt_Some|done].
Qed.

Lemma request_len_run e c s : holds e c s -> buf_wf (c_request c) -> exists s', request_len e s = (Ret (zlen (contents (c_request c))), s') /\ holds e c s'.
Proof.
  intros (se & He & Hc) Hw. unfold request_len, on_conn. rewrite He, Hc. rewrite sshbuf_len_wf by done. eexists. split; [done|]. exists (set_conn (Some c) se). cbn.
  split; [apply list_lookup_insert_eq; by eapply lookup_lt_Some|done].
Qed.

Lemma ask_run {T} e c s (x : agE T) : holds e c s -> exists r s', ask x s = (Ret r, s') /\ holds e c s'.
Proof. intros (se & He & Hc). unfold ask. destruct (ag_answer x (world s)) as [r w]. exists r. eexists. split; [done|]. by exists se. Qed.

(** The constraints of a request: the extension with its parameter, and then a type
    that is not known. *)
Definition sk_constraints (provider : list Z) (x : Z) : list Z := SSH_AGENT_CONSTRAIN_EXTENSION :: enc_string (str "sk-provider@openssh.com") ++ enc_string provider ++ [x].

Lemma unknown_constraint_run fuel e q c s x :
  holds e c s -> buf_wf (c_request c) -> contents (c_request c) = [x] -> x ∉ [1; 2; 3; 255] -> exists s' c', add_constraints (S fuel) e q s = (Ret (false, q), s') /\ holds e c' s'.
Proof.
  intros Hh Hw Hc Hx. cbn [add_constraints]. destruct (request_len_run e c s Hh Hw) as (s1 & E1 & Hh1). rewrite (bind_run _ _ _ _ _ E1), Hc. cbn [zlen length Z.of_nat Z.eqb Pos.of_succ_nat].
  destruct (get_u8_gets x (c_request c) [] Hw Hc) as (b & E2 & _). destruct (on_request_run e c s1 _ _ _ Hh1 E2) as (s2 & E3 & Hh2). change (?x =? 0) with false. cbn iota. rewrite (bind_run _ _ _ _ _ E3).
  rewrite !not_elem_of_cons in Hx. destruct Hx as (X1 & X2 & X3 & X4 & _). unfold SSH_AGENT_CONSTRAIN_LIFETIME, SSH_AGENT_CONSTRAIN_CONFIRM, SSH_AGENT_CONSTRAIN_MAXSIGN, SSH_AGENT_CONSTRAIN_EXTENSION.
  rewrite !(proj2 (Z.eqb_neq _ _)) by done. eauto.
Qed.

Lemma sk_constraints_run `{!ReliableAllocator _} fuel e k c s provider x :
  holds e c s -> buf_wf (c_request c) -> contents (c_request c) = sk_constraints provider x -> string_ok provider -> no_nul provider -> x ∉ [1; 2; 3; 255] ->
  exists s' c' q, add_constraints (S (S fuel)) e (mk_pending k 0 false PNull PNull) s = (Ret (false, q), s') /\ q_ext_name q = PFreed /\ q_sk_provider q = PLive /\ holds e c' s'.
Proof.
  intros Hh Hw Hc Hs Hn Hx. cbn [add_constraints]. destruct (request_len_run e c s Hh Hw) as (s1 & E1 & Hh1). rewrite (bind_run _ _ _ _ _ E1).
  assert (zlen (contents (c_request c)) =? 0 = false) as -> by (rewrite Hc; unfold sk_constraints; rewrite zlen_cons; apply Z.eqb_neq; pose proof (zlen_nonneg (enc_string (str "sk-provider@openssh.com") ++ enc_string provider ++ [x])); lia).
  cbn iota. destruct (get_u8_gets SSH_AGENT_CONSTRAIN_EXTENSION (c_request c) _ Hw Hc) as (b1 & G1 & X1 & C1 & _).
  destruct (on_request_run e c s1 _ _ _ Hh1 G1) as (s2 & E2 & Hh2). rewrite (bind_run _ _ _ _ _ E2). cbn [Z.eqb SSH_AGENT_CONSTRAIN_EXTENSION SSH_AGENT_CONSTRAIN_LIFETIME SSH_AGENT_CONSTRAIN_CONFIRM SSH_AGENT_CONSTRAIN_MAXSIGN Pos.eqb].
  destruct (get_cstring_gets (str "sk-provider@openssh.com") ltac:(done) ltac:(repeat constructor; done) b1 _ (ext_wf _ _ X1) C1) as (b2 & G2 & X2 & C2 & _).
  destruct (on_request_run e _ s2 _ _ _ Hh2 G2) as (s3 & E3 & Hh3). rewrite (bind_run _ _ _ _ _ E3). cbn zeta.
  destruct (ask_run e _ s3 (ag_debug (LOG_CONSTRAINT_EXT (cstr (str "sk-provider@openssh.com")))) Hh3) as ([] & s4 & E4 & Hh4). rewrite (bind_run _ _ _ _ _ E4).
  rewrite bool_decide_true by done. cbn [q_sk_provider].
  destruct (get_cstring_gets provider Hs Hn b2 _ (ext_wf _ _ X2) C2) as (b3 & G3 & X3 & C3 & _). destruct (on_request_run e _ s4 _ _ _ Hh4 G3) as (s5 & E5 & Hh5). rewrite (bind_run _ _ _ _ _ E5).
  destruct (unknown_constraint_run fuel e (mk_pending k 0 false PFreed PLive) _ s5 x Hh5 (ext_wf _ _ X3) C3 Hx) as (s6 & c6 & E6 & Hh6). exists s6, c6, (mk_pending k 0 false PFreed PLive). by split.
Qed.

(** C40: A request to add a key that gives the name of a provider of a security key
    and then a constraint that the agent does not know makes it release the name of
    the extension twice, whatever the key, the name of the provider and the
    constraint. *)
Theorem agent_double_free `{!ReliableAllocator _} e c s k comment b provider x :
  holds e c s -> add_fields (c_request c) = (Ok (k, comment), b) -> buf_wf b -> contents b = sk_constraints provider x ->
  string_ok provider -> no_nul provider -> x ∉ [1; 2; 3; 255] -> (process_add_identity e s).1 = Segv.
Proof.
  intros Hh Ea Hw Hc Hs Hn Hx. unfold process_add_identity. destruct (on_request_run e c s _ _ _ Hh Ea) as (s1 & E1 & Hh1). rewrite (bind_run _ _ _ _ _ E1).
  destruct (request_len_run e _ s1 Hh1 Hw) as (s2 & E2 & Hh2). rewrite (bind_run _ _ _ _ _ E2). cbn [with_request c_request].
  assert (exists n, Z.to_nat (zlen (contents b)) = S (S n)) as [n Hnn].
  { exists (length (contents b) - 2)%nat. rewrite Hc. unfold zlen. rewrite Nat2Z.id. unfold sk_constraints, enc_string. cbn [length]. rewrite !length_app. cbn [length]. lia. }
  rewrite Hnn. destruct (sk_constraints_run n e k _ s2 provider x Hh2 Hw Hc Hs Hn Hx) as (s3 & c3 & q & E3 & Hq1 & Hq2 & Hh3). rewrite (bind_run _ _ _ _ _ E3).
  cbn iota beta. unfold add_err. rewrite Hq1, Hq2. done.
Qed.
End time.

(** * Examples *)

Import Toy.
#[local] Existing Instance alloc_all.

(** A key with a lifetime of ten seconds. *)
Lemma agent_wakes_for_expiry_witness :
  exists s t s' now, after 2 [add_message (SSH_AGENT_CONSTRAIN_LIFETIME :: POKE_U32 10)] = (Ret tt, s) /\ @prepare_poll alloc_all keys env config s = (Ret t, s') /\ t = 10000 /\
    idlist s' = alive_at now (idlist s) /\ wakes_in_time now t (idlist s').
Proof.
  assert (let x := after 2 [add_message (SSH_AGENT_CONSTRAIN_LIFETIME :: POKE_U32 10)] in x.1 = Ret tt /\ (@prepare_poll alloc_all keys env config x.2).1 = Ret 10000) as [Hr Hr'] by (split; vm_compute; reflexivity).
  destruct (after 2 [add_message (SSH_AGENT_CONSTRAIN_LIFETIME :: POKE_U32 10)]) as [r s] eqn:E. cbn [fst snd] in Hr, Hr'. subst r. destruct (@prepare_poll alloc_all keys env config s) as [r' s'] eqn:E'. cbn [fst] in Hr'. subst r'.
  destruct (@agent_wakes_for_expiry alloc_all keys env config s 10000 s' ltac:(vm_compute; discriminate) E') as (now & _ & Hi & Hw). exists s, 10000, s', now. exact (conj eq_refl (conj E' (conj eq_refl (conj Hi Hw)))).
Defined.

(** The state in which the request of an addition with the extension is read. *)
Lemma agent_double_free_witness : exists c s, holds 1 c s /\ contents (c_request c) = 9 :: enc_string [99] ++ sk_constraints [115] 7 /\ (@process_add_identity alloc_all keys env config 1 s).1 = Segv.
Proof.
  destruct (@sshbuf_put alloc_all (9 :: enc_string [99] ++ sk_constraints [115] 7) (default (mk_sshbuf [] 0 0 0 0 true 0) (@sshbuf_new alloc_all))) as [r q] eqn:Eq.
  set (c := mk_conn (default q (@sshbuf_new alloc_all)) (default q (@sshbuf_new alloc_all)) q).
  set (s := set_sockets [unused_socket; mk_sock 7 AUTH_CONNECTION (Some c)] (@agent_init keys env (@nil (list Z)))).
  exists c, s. assert (holds 1 c s) as Hh by (by exists (mk_sock 7 AUTH_CONNECTION (Some c))).
  pose proof (@sshbuf_put_appends alloc_all (9 :: enc_string [99] ++ sk_constraints [115] 7) _ (proj1 (@sshbuf_new_spec alloc_all _ eq_refl))) as Ha.
  change (default (mk_sshbuf [] 0 0 0 0 true 0) (@sshbuf_new alloc_all)) with (mk_sshbuf (zrepeat SSHBUF_SIZE_INIT) 0 0 SSHBUF_SIZE_MAX SSHBUF_SIZE_INIT false 1) in Eq.
  rewrite Eq in Ha. destruct r as [[]|err]; [|vm_compute in Eq; discriminate]. destruct Ha as ([Hw _ _ _] & _ & _ & Hc). change (contents _) with (@nil Z) in Hc at 2. cbn [app] in Hc.
  split; [done|]. split; [done|].
  destruct (get_u8_gets 9 q _ Hw Hc) as (b1 & G1 & X1 & C1 & _).
  destruct (@get_cstring_gets alloc_all ltac:(by intros n) [99] ltac:(done) ltac:(by repeat constructor) b1 _ (ext_wf _ _ X1) C1) as (b2 & G2 & X2 & C2 & _).
  apply (@agent_double_free alloc_all keys env config ltac:(by intros n) 1%nat c s 9 [99] b2 [115] 7); [done| |apply X2|done|done|by repeat constructor|].
  - unfold add_fields, mbind, se_bind. cbn [sshkey_private_deserialize keys c_request c]. rewrite G1, G2. done.
  - rewrite !not_elem_of_cons. split_and!; try done. apply not_elem_of_nil.
Defined.
