(* ===== verification/Authfd.v ===== *)
(** The client side of the agent protocol (authfd.c, atomicio.c): requests, replies
    and the exchange over the socket.

    The socket is the class [Peer]: a write returns an error or the number of bytes
    taken, a read an error or some bytes.  A function of authfd.c is a computation
    in [io] over the state of the peer that returns an error code or its result. *)

From Stdlib Require Import String.
From S2P Require Import Prelude Io Sshbuf SshbufGetPut Match Agent.
Local Open Scope Z_scope.

Definition MAX_AGENT_IDENTITIES : Z := 2048.
Definition MAX_AGENT_REPLY_LEN : Z := 256 * 1024.
Definition SSH_COM_AGENT2_FAILURE : Z := 102.
Definition SSH2_AGENT_FAILURE : Z := 30.
Definition SSH_KEY_MAX_SIGN_DATA_SIZE : Z := 2 ^ 20.

Definition agent_failed (x : Z) : bool := (x =? SSH_AGENT_FAILURE) || (x =? SSH_COM_AGENT2_FAILURE) || (x =? SSH2_AGENT_FAILURE).

Definition decode_reply (type : Z) : result unit :=
  if agent_failed type then Err SSH_ERR_AGENT_FAILURE
  else if type =? SSH_AGENT_SUCCESS then Ok tt
  else Err SSH_ERR_INVALID_FORMAT.

(** The socket: [write], [read] and the [poll] that waits for it. *)
Class Peer := {
  peer : Type;
  p_write : list Z -> peer -> (Z + Z) * peer;
  p_read : Z -> peer -> (Z + list Z) * peer;
  p_wait : peer -> peer
}.

(** Keys on the side of the client. *)
Class ClientKeys `{AgentKeys} := {
  sendable : akey -> bool;
  is_unspec : akey -> bool;
  is_rsa : akey -> bool;
  Akey_from_blob : list Z -> result akey;
  Akey_to_blob : akey -> result (list Z);
  Xkey_puts : cstring -> akey -> SE sshbuf unit;
  sshkey_private_serialize_maxsign : akey -> Z -> SE sshbuf unit;
  Xkey_check_sigalg : cstring -> akey -> list Z -> result unit
}.

Section client.
Context `{Allocator} `{AgentKeys} `{!ClientKeys} `{Peer}.

Definition sys_write (data : list Z) : io peer (Z + Z) := fun s => let '(r, s') := p_write data s in (Ret r, s').
Definition sys_read (n : Z) : io peer (Z + list Z) := fun s => let '(r, s') := p_read n s in (Ret r, s').
Definition sys_wait : io peer unit := updates p_wait.

(** [atomicio(vwrite, ...)]: the number of bytes written, 0 after an error. *)
Fixpoint atomic_write (fuel : nat) (data : list Z) (pos : Z) : io peer Z :=
  if zlen data >? pos then
    match fuel with
    | O => no_fuel
    | S fuel =>
        res ← sys_write (zdrop pos data);
        match res with
        | inl errno =>
            if errno =? EINTR then atomic_write fuel data pos
            else if errno =? EAGAIN then _ ← sys_wait; atomic_write fuel data pos
            else mret 0
        | inr n => if n =? 0 then mret pos else atomic_write fuel data (pos + n)
        end
    end
  else mret pos.

(** [atomicio(read, ...)]: the bytes read; none after an error. *)
Fixpoint atomic_read (fuel : nat) (n : Z) (got : list Z) : io peer (list Z) :=
  if n >? zlen got then
    match fuel with
    | O => no_fuel
    | S fuel =>
        res ← sys_read (n - zlen got);
        match res with
        | inl errno =>
            if errno =? EINTR then atomic_read fuel n got
            else if errno =? EAGAIN then _ ← sys_wait; atomic_read fuel n got
            else mret []
        | inr [] => mret got
        | inr data => atomic_read fuel n (got ++ data)
        end
    end
  else mret got.

Variable fuel : nat.

(** The rest of a reply, in pieces of the size of the buffer on the stack. *)
Fixpoint read_reply (turns : nat) (len : Z) (reply : sshbuf) : io peer (result unit * sshbuf) :=
  if len >? 0 then
    match turns with
    | O => no_fuel
    | S turns =>
        let l := if len >? 1024 then 1024 else len in
        data ← atomic_read fuel l [];
        if negb (zlen data =? l) then mret (Err SSH_ERR_AGENT_COMMUNICATION, reply)
        else
          match sshbuf_put data reply with
          | (Err r, reply) => mret (Err r, reply)
          | (Ok _, reply) => read_reply turns (len - l) reply
          end
    end
  else mret (Ok tt, reply).

(** In every call the reply goes to the buffer of the request. *)
Definition ssh_request_reply (msg : sshbuf) : io peer (result unit * sshbuf) :=
  let len := sshbuf_len msg in
  n ← atomic_write fuel (POKE_U32 len) 0;
  if negb (n =? 4) then mret (Err SSH_ERR_AGENT_COMMUNICATION, msg)
  else
    n ← atomic_write fuel (ztake len (default [] (sshbuf_ptr msg))) 0;
    if negb (n =? len) then mret (Err SSH_ERR_AGENT_COMMUNICATION, msg)
    else
      h ← atomic_read fuel 4 [];
      if negb (zlen h =? 4) then mret (Err SSH_ERR_AGENT_COMMUNICATION, msg)
      else
        let len := PEEK_U32 h in
        if len >? MAX_AGENT_REPLY_LEN then mret (Err SSH_ERR_INVALID_FORMAT, msg)
        else read_reply (Z.to_nat len) len (sshbuf_reset msg).

(** The part that the calls have in common: a new message is built by [m], sent,
    and the reply is read by [f]. *)
Definition transaction {A} (m : SE sshbuf unit) (f : SE sshbuf A) : io peer (result A) :=
  match sshbuf_new with
  | None => mret (Err SSH_ERR_ALLOC_FAIL)
  | Some msg =>
      match m msg with
      | (Err r, _) => mret (Err r)
      | (Ok _, msg) =>
          x ← ssh_request_reply msg;
          mret (match x with (Err r, _) => Err r | (Ok _, msg) => fst (f msg) end)
      end
  end.

Definition status_reply : SE sshbuf unit := type ← sshbuf_get_u8; se_lift (decode_reply type).

Definition ssh_lock_agent (lock : bool) (password : cstring) : io peer (result unit) :=
  transaction (_ ← sshbuf_put_u8 (if lock then SSH_AGENTC_LOCK else SSH_AGENTC_UNLOCK); sshbuf_put_cstring (Some password)) status_reply.

Definition deserialise_identity2 : SE sshbuf (akey * cstring) :=
  blob ← sshbuf_get_string_direct;
  comment ← sshbuf_get_cstring;
  key ← se_lift (Akey_from_blob blob);
  mret (key, cstr comment).

(** [rest] (num - i) identities are still to be read. *)
Fixpoint read_identities (rest : nat) : SE sshbuf (list (akey * cstring)) := fun msg =>
  match rest with
  | O => (Ok [], msg)
  | S rest =>
      match deserialise_identity2 msg with
      | (Ok id, msg) => (l ← read_identities rest; mret (id :: l)) msg
      | (Err r, msg) => if bool_decide (r = SSH_ERR_KEY_TYPE_UNKNOWN) then read_identities rest msg else (Err r, msg)
      end
  end.

Definition SIZEOF_IDENTITYLIST : Z := 24.

Definition identities_reply : SE sshbuf (list (akey * cstring)) :=
  type ← sshbuf_get_u8;
  if agent_failed type then se_err SSH_ERR_AGENT_FAILURE
  else if negb (type =? SSH2_AGENT_IDENTITIES_ANSWER) then se_err SSH_ERR_INVALID_FORMAT
  else
    num ← sshbuf_get_u32;
    if num >? MAX_AGENT_IDENTITIES then se_err SSH_ERR_INVALID_FORMAT
    else if num =? 0 then se_err SSH_ERR_AGENT_NO_IDENTITIES
    else if negb (malloc_ok SIZEOF_IDENTITYLIST && malloc_ok (num * 8)) then se_err SSH_ERR_ALLOC_FAIL
    else read_identities (Z.to_nat num).

Definition ssh_fetch_identitylist : io peer (result (list (akey * cstring))) :=
  transaction (sshbuf_put_u8 SSH2_AGENTC_REQUEST_IDENTITIES) identities_reply.

Definition agent_encode_alg (key : akey) (alg : option cstring) : Z :=
  match alg with
  | None => 0
  | Some alg =>
      if negb (is_rsa key) then 0
      else if bool_decide (alg = str "rsa-sha2-256") then SSH_AGENT_RSA_SHA2_256
      else if bool_decide (alg = str "rsa-sha2-512") then SSH_AGENT_RSA_SHA2_512
      else if bool_decide (alg = str "rsa-sha2-256-cert-v01@openssh.com") then SSH_AGENT_RSA_SHA2_256
      else if bool_decide (alg = str "rsa-sha2-512-cert-v01@openssh.com") then SSH_AGENT_RSA_SHA2_512
      else 0
  end.

Definition sign_reply (alg : cstring) (key : akey) : SE sshbuf (list Z) :=
  type ← sshbuf_get_u8;
  if agent_failed type then se_err SSH_ERR_AGENT_FAILURE
  else if negb (type =? SSH2_AGENT_SIGN_RESPONSE) then se_err SSH_ERR_INVALID_FORMAT
  else
    sig ← sshbuf_get_string;
    _ ← se_lift (Xkey_check_sigalg alg key sig);
    mret sig.

Definition Xssh_agent_sign (alg : cstring) (key : akey) (opaque : bool) (data : list Z) : io peer (result (list Z)) :=
  if zlen data >? SSH_KEY_MAX_SIGN_DATA_SIZE then mret (Err SSH_ERR_INVALID_ARGUMENT)
  else
    let flags := Z.lor (if opaque then SSH_AGENT_RFC6187_OPAQUE_ECDSA_SIGNATURE else 0) (agent_encode_alg key (Some alg)) in
    transaction (_ ← sshbuf_put_u8 SSH2_AGENTC_SIGN_REQUEST; _ ← Xkey_puts alg key; _ ← sshbuf_put_string data; sshbuf_put_u32 flags) (sign_reply alg key).

Definition put_if (c : bool) (m : SE sshbuf unit) : SE sshbuf unit := if c then m else mret tt.

Definition encode_constraints (life : Z) (confirm : bool) (maxsign : Z) (provider : option cstring) : SE sshbuf unit :=
  _ ← put_if (negb (life =? 0)) (_ ← sshbuf_put_u8 SSH_AGENT_CONSTRAIN_LIFETIME; sshbuf_put_u32 life);
  _ ← put_if confirm (sshbuf_put_u8 SSH_AGENT_CONSTRAIN_CONFIRM);
  _ ← put_if (negb (maxsign =? 0)) (_ ← sshbuf_put_u8 SSH_AGENT_CONSTRAIN_MAXSIGN; sshbuf_put_u32 maxsign);
  match provider with
  | None => mret tt
  | Some provider =>
      _ ← sshbuf_put_u8 SSH_AGENT_CONSTRAIN_EXTENSION;
      _ ← sshbuf_put_cstring (Some (str "sk-provider@openssh.com"));
      sshbuf_put_cstring (Some provider)
  end.

Definition is_some_provider (provider : option cstring) : bool := match provider with Some _ => true | None => false end.

Definition ssh_add_identity_constrained (key : akey) (comment : cstring) (life : Z) (confirm : bool) (maxsign : Z) (provider : option cstring) : io peer (result unit) :=
  let constrained := negb (life =? 0) || confirm || negb (maxsign =? 0) || is_some_provider provider in
  transaction
    (if sendable key then
       _ ← sshbuf_put_u8 (if constrained then SSH2_AGENTC_ADD_ID_CONSTRAINED else SSH2_AGENTC_ADD_IDENTITY);
       _ ← sshkey_private_serialize_maxsign key maxsign;
       _ ← sshbuf_put_cstring (Some comment);
       put_if constrained (encode_constraints life confirm maxsign provider)
     else se_err SSH_ERR_INVALID_ARGUMENT)
    status_reply.

Definition ssh_remove_identity (key : akey) : io peer (result unit) :=
  transaction
    (if is_unspec key then se_err SSH_ERR_INVALID_ARGUMENT
     else
       blob ← se_lift (Akey_to_blob key);
       _ ← sshbuf_put_u8 SSH2_AGENTC_REMOVE_IDENTITY;
       sshbuf_put_string blob)
    status_reply.

Definition ssh_update_card (add : bool) (reader_id pin : cstring) (life : Z) (confirm : bool) : io peer (result unit) :=
  let constrained := negb (life =? 0) || confirm in
  let type := if add then if constrained then SSH_AGENTC_ADD_SMARTCARD_KEY_CONSTRAINED else SSH_AGENTC_ADD_SMARTCARD_KEY else SSH_AGENTC_REMOVE_SMARTCARD_KEY in
  transaction
    (_ ← sshbuf_put_u8 type;
     _ ← sshbuf_put_cstring (Some reader_id);
     _ ← sshbuf_put_cstring (Some pin);
     put_if constrained (encode_constraints life confirm 0 None))
    status_reply.

Definition ssh_remove_all_identities (version : Z) : io peer (result unit) :=
  transaction (sshbuf_put_u8 (if version =? 1 then SSH_AGENTC_REMOVE_ALL_RSA_IDENTITIES else SSH2_AGENTC_REMOVE_ALL_IDENTITIES)) status_reply.
End client.
