(* ===== verification/AuthfdAgent.v ===== *)
(** A client and the agent together: authfd.c on one end of the socket and
    ssh-agent.c on the other.

    The data that the client writes reaches the agent in pieces of any size, and
    each piece is handled as by [handle_conn_read]; the client reads what the agent
    has put into its output.  A client that reads when there is nothing waits. *)

From Stdlib Require Import String.
From S2P Require Import Prelude Io Sshbuf SshbufGetPut SshbufRead Match Agent AgentSafe AgentRun Authfd.
Local Open Scope Z_scope.

Definition EPIPE : Z := 32.

(** The agent at the other end, or that it has ended. *)
Inductive far `{AgentKeys} `{!AgentEnv} := Alive (s : agent) | Gone.

(** How the system cuts what is written into pieces. *)
Class Pieces := { pieces : list Z -> list (list Z); pieces_all d : concat (pieces d) = d }.

(** The messages while they arrive. *)
Lemma next_message_partial msg p rest :
  enc_string msg = p ++ rest -> rest <> [] -> zlen msg <= AGENT_MAX_LEN -> next_message p = None.
Proof.
  intros E Hr Hl. unfold next_message. destruct (Z.ltb_spec (zlen p) 5) as [|Hp]; [done|].
  assert (exists p', p = POKE_U32 (zlen msg) ++ p') as [p' ->].
  { unfold enc_string in E. exists (drop 4 p). assert (take 4 (POKE_U32 (zlen msg) ++ msg) = take 4 (p ++ rest)) as E4 by by rewrite E. rewrite take_app_le in E4 by done.
    rewrite (take_app_le p) in E4 by (unfold zlen in Hp; lia). rewrite <- (take_drop 4 p) at 1. by rewrite <- E4. }
  pose proof (zlen_nonneg msg) as Hm. rewrite PEEK_POKE_U32, u32_small by (unfold AGENT_MAX_LEN in *; lia).
  rewrite Z.gtb_ltb, (proj2 (Z.ltb_ge _ _)) by done. apply (f_equal zlen) in E. unfold enc_string in E. rewrite !zlen_app in E.
  assert (0 < zlen rest) by (destruct rest; [done|rewrite zlen_cons; pose proof (zlen_nonneg rest); lia]). rewrite zlen_app. change (zlen (POKE_U32 (zlen msg))) with 4 in *.
  by rewrite (proj2 (Z.ltb_lt _ _)) by lia.
Qed.

Lemma next_message_whole msg rest : msg <> [] -> zlen msg <= AGENT_MAX_LEN -> next_message (enc_string msg ++ rest) = Some msg.
Proof.
  intros Hn Hl. unfold next_message, enc_string. pose proof (zlen_nonneg msg) as Hm. pose proof (zlen_nonneg rest). assert (0 < zlen msg) by (destruct msg; [done|rewrite zlen_cons; pose proof (zlen_nonneg msg); lia]).
  rewrite !zlen_app. change (zlen (POKE_U32 (zlen msg))) with 4. rewrite (proj2 (Z.ltb_ge _ _)) by lia. rewrite <- app_assoc, PEEK_POKE_U32, u32_small by (unfold AGENT_MAX_LEN in *; lia).
  rewrite Z.gtb_ltb, (proj2 (Z.ltb_ge _ _)) by done. rewrite (proj2 (Z.ltb_ge _ _)) by lia. f_equal.
  rewrite slice_ztake by lia. rewrite app_assoc, ztake_app_exact by zlia. by apply zdrop_app_exact.
Qed.

Section pair.
Context `{Allocator} `{AgentKeys} `{!AgentEnv} `{AgentConfig} `{!AgentLaws} `{!ClientKeys} `{Pieces}.
Variable e : nat.

(** The agent receives pieces of data. *)
Fixpoint feed (l : list (list Z)) : io agent unit :=
  match l with
  | [] => mret tt
  | d :: l => _ ← put_input e d; _ ← process_message e; feed l
  end.

Definition output_of (s : agent) : list Z := match sockets s !! e ≫= s_conn with Some c => contents (c_output c) | None => [] end.

#[export] Instance agent_peer : Peer := {|
  peer := far;
  p_write d w := match w with
    | Gone => (inl EPIPE, Gone)
    | Alive s => (inr (zlen d), match feed (pieces d) s with (Ret _, s') => Alive s' | _ => Gone end)
    end;
  p_read n w := match w with
    | Gone => (inr [], Gone)
    | Alive s =>
        let d := ztake n (output_of s) in
        match d with
        | [] => (inl EAGAIN, Alive s)
        | _ => (inr d, match on_output e (sshbuf_consume (zlen d)) s with (Ret _, s') => Alive s' | _ => Gone end)
        end
    end;
  p_wait w := w
|}.

(** The socket [e] holds the input [i] and the output [o]. *)
Definition link (i o : list Z) (s : agent) : Prop :=
  Inv s /\ exists se c, sockets s !! e = Some se /\ s_type se <> AUTH_UNUSED /\ s_conn se = Some c /\ conn_ok c /\ contents (c_input c) = i /\ contents (c_output c) = o.

Lemma link_output i o s : link i o s -> output_of s = o.
Proof. intros (_ & se & c & He & _ & Hc & _ & _ & Ho). unfold output_of. rewrite He. cbn. by rewrite Hc. Qed.

(** A step that changes the buffers of the socket. *)
Lemma link_conn {A} i o s (f : bufs -> ending A * bufs) r s' :
  link i o s -> on_conn e f s = (r, s') ->
  exists c c', conn_ok c /\ contents (c_input c) = i /\ contents (c_output c) = o /\ f c = (r, c') /\ core s' = core s /\
    (conn_ok c' -> link (contents (c_input c')) (contents (c_output c')) s').
Proof.
  intros (Hi & se & c & He & Hu & Hc & Hok & Hin & Hout) E. unfold on_conn in E. rewrite He, Hc in E. destruct (f c) as [r' c'] eqn:Ef. injection E as <- <-.
  exists c, c'. split_and!; [done..|]. intros Hok'. split; [|exists (set_conn (Some c') se), c'].
  - apply inv_sockets; [done|]. apply Forall_insert; [apply Hi|]. right. by exists c'.
  - split_and!; [|done..]. cbn. apply list_lookup_insert_eq. by eapply lookup_lt_Some.
Qed.

Lemma put_input_link i o s d s' : link i o s -> bytes_ok d -> put_input e d s = (Ret tt, s') -> link (i ++ d) o s' /\ core s' = core s.
Proof.
  intros Hl Hd E. destruct (link_conn _ _ _ _ _ _ Hl E) as (c & c' & [Hin Hout Hreq Hroom Hmem] & <- & <- & Ef & Hcore & Hl'). split; [|done].
  pose proof (sshbuf_put_appends d (c_input c) (proj1 Hin)) as Ha. destruct (sshbuf_put d (c_input c)) as [[[]|err] b]; [|done]. injection Ef as <-. destruct Ha as (Hx & _ & _ & Hc).
  rewrite <- Hc. apply Hl'. split; cbn; [|done..]. split; [apply Hx|]. rewrite Hc. apply Forall_app. split; [apply Hin|done].
Qed.

Lemma consume_link i o s n : link i o s -> 0 <= n <= zlen o -> exists s', on_output e (sshbuf_consume n) s = (Ret tt, s') /\ link i (zdrop n o) s' /\ core s' = core s.
Proof.
  intros Hl Hn. destruct (on_output e (sshbuf_consume n) s) as [r s'] eqn:E. destruct (link_conn _ _ _ _ _ _ Hl E) as (c & c' & [Hin Hout Hreq Hroom Hmem] & <- & <- & Ef & Hcore & Hl').
  pose proof (sshbuf_consume_spec (c_output c) n Hout ltac:(lia)) as Hs. rewrite (proj2 (Z.leb_le _ _)) in Hs by lia. destruct Hs as (b & Eb & Hx & Hc & _). rewrite Eb in Ef. injection Ef as <- <-.
  exists s'. split; [done|]. split; [|done]. rewrite <- Hc. apply Hl'. split; cbn; try done. apply Hx.
Qed.

(** A message that is not complete, and one that is. *)
Lemma message_none i o s s' : link i o s -> next_message i = None -> process_message e s = (Ret tt, s') -> link i o s' /\ core s' = core s.
Proof.
  intros (Hi & se & c & He & Hu & Hc & Hok & <- & <-) Hn E. destruct (wpa_elim _ _ _ _ _ (process_message_spec e se s Hi He Hu) E) as [(Hi' & _ & _ & se' & c0 & c' & He' & Hc' & Hs & Hok' & Hm) _].
  rewrite He in He'. injection He' as <-. rewrite Hc in Hc'. injection Hc' as <-. rewrite Hn in Hm. destruct Hm as [-> Hcore]. split; [|done].
  split; [done|]. exists (set_conn (Some c) se), c. split_and!; try done. rewrite Hs. apply list_lookup_insert_eq. by eapply lookup_lt_Some.
Qed.

Lemma message_some msg s s' :
  link (enc_string msg) [] s -> msg <> [] -> zlen msg <= AGENT_MAX_LEN -> process_message e s = (Ret tt, s') -> exists t r, link [] (enc_string (t :: r)) s'.
Proof.
  intros (Hi & se & c & He & Hu & Hc & Hok & Hin & Hout) Hne Hlen E. destruct (wpa_elim _ _ _ _ _ (process_message_spec e se s Hi He Hu) E) as [(Hi' & _ & _ & se' & c0 & c' & He' & Hc' & Hs & Hok' & Hm) _].
  rewrite He in He'. injection He' as <-. rewrite Hc in Hc'. injection Hc' as <-. rewrite Hin, <- (app_nil_r (enc_string msg)), next_message_whole, app_nil_r in Hm by done.
  destruct Hm as [Hm Hr]. destruct msg as [|ty body]; [done|]. destruct Hr as (t & r & Hr). exists t, r. split; [done|]. exists (set_conn (Some c') se), c'.
  split_and!; try done; [rewrite Hs; apply list_lookup_insert_eq; by eapply lookup_lt_Some| |by rewrite Hr, Hout]. by apply (app_inv_head (enc_string (ty :: body))); rewrite app_nil_r.
Qed.

(** The pieces of a message arrive. *)
Lemma feed_partial msg l p rest s s' :
  enc_string msg = p ++ concat l ++ rest -> rest <> [] -> zlen msg <= AGENT_MAX_LEN -> bytes_ok (concat l) -> link p [] s -> feed l s = (Ret tt, s') ->
  link (p ++ concat l) [] s' /\ core s' = core s.
Proof.
  revert p s. induction l as [|d l IH]; intros p s E Hr Hl Hb Hk Ef; cbn [concat] in *; [injection Ef as <-; by rewrite app_nil_r|]. apply Forall_app in Hb as [Hd Hb].
  cbn [feed] in Ef. apply io_bind_ret in Ef as ([] & s1 & E1 & Ef). apply io_bind_ret in Ef as ([] & s2 & E2 & Ef).
  destruct (put_input_link _ _ _ _ _ Hk Hd E1) as [Hk1 Hc1]. rewrite <- !app_assoc in E.
  destruct (message_none (p ++ d) [] s1 s2 Hk1) as [Hk2 Hc2]; [eapply next_message_partial; [by rewrite E, app_assoc| |done]; intros Hn; by apply app_nil in Hn as [_ ?]|done|].
  destruct (IH (p ++ d) s2) as [Hk3 Hc3]; [by rewrite E, <- app_assoc|done..|]. rewrite <- app_assoc in Hk3. split; [done|congruence].
Qed.

(** Where the message becomes complete it is processed. *)
Definition served (msg : list Z) (s s' : agent) : Prop :=
  exists s1, core s1 = core s /\ link (enc_string msg) [] s1 /\ process_message e s1 = (Ret tt, s').

Lemma feed_nothing l o s s' : concat l = [] -> link [] o s -> feed l s = (Ret tt, s') -> link [] o s' /\ core s' = core s.
Proof.
  revert s. induction l as [|d l IH]; intros s Hc Hk Ef; [by injection Ef as <-|]. cbn in Hc. apply app_nil in Hc as [-> Hc].
  cbn [feed] in Ef. apply io_bind_ret in Ef as ([] & s1 & E1 & Ef). apply io_bind_ret in Ef as ([] & s2 & E2 & Ef).
  destruct (put_input_link _ _ _ _ _ Hk ltac:(constructor) E1) as [Hk1 Hc1]. destruct (message_none [] o s1 s2 Hk1) as [Hk2 Hc2]; [done|done|].
  destruct (IH s2) as [Hk3 Hc3]; [done..|]. split; [done|congruence].
Qed.

Lemma feed_whole msg l p s s' :
  enc_string msg = p ++ concat l -> concat l <> [] -> msg <> [] -> zlen msg <= AGENT_MAX_LEN -> bytes_ok (concat l) -> link p [] s -> feed l s = (Ret tt, s') ->
  exists s1 t r, served msg s s1 /\ link [] (enc_string (t :: r)) s1 /\ link [] (enc_string (t :: r)) s' /\ core s' = core s1.
Proof.
  revert p s. induction l as [|d l IH]; intros p s E Hne Hm Hl Hb Hk Ef; cbn [concat] in *; [done|]. apply Forall_app in Hb as [Hd Hb].
  cbn [feed] in Ef. apply io_bind_ret in Ef as ([] & s1 & E1 & Ef). apply io_bind_ret in Ef as ([] & s2 & E2 & Ef).
  destruct (put_input_link _ _ _ _ _ Hk Hd E1) as [Hk1 Hc1]. destruct (decide (concat l = [])) as [Hn|Hn].
  - rewrite Hn, app_nil_r in E. rewrite <- E in Hk1. destruct (message_some msg s1 s2 Hk1 Hm Hl E2) as (t & r & Hk2). exists s2, t, r.
    destruct (feed_nothing l (enc_string (t :: r)) s2 s' Hn Hk2 Ef) as [Hk3 Hc3]. split; [by exists s1|]. done.
  - destruct (message_none (p ++ d) [] s1 s2 Hk1) as [Hk2 Hc2]; [eapply next_message_partial; [by rewrite E, app_assoc|done|done]|done|].
    destruct (IH (p ++ d) s2) as (s3 & t & r & (s4 & Hc4 & Hk4 & E4) & Hr); [by rewrite E, <- app_assoc|done..|]. exists s3, t, r. split; [|done]. exists s4. split_and!; [congruence|done..].
Qed.

(** ** The client *)

Definition after_write (d : list Z) (s : agent) : far := match feed (pieces d) s with (Ret _, s') => Alive s' | _ => Gone end.

Lemma atomic_write_alive n d s : d <> [] -> atomic_write (S n) d 0 (Alive s) = (Ret (zlen d), after_write d s).
Proof.
  intros Hd. assert (0 < zlen d) as Hz by (destruct d; [done|]; rewrite zlen_cons; pose proof (zlen_nonneg d); lia). cbn [atomic_write]. rewrite Z.gtb_ltb, (proj2 (Z.ltb_lt _ _)) by done.
  unfold mbind, io_bind, sys_write. cbn [p_write agent_peer]. rewrite zdrop_0. rewrite (proj2 (Z.eqb_neq _ _)) by lia. fold (after_write d s). cbn [Z.add]. destruct n; cbn [atomic_write]; by rewrite Z.gtb_ltb, Z.ltb_irrefl.
Qed.
Lemma atomic_write_gone n d : d <> [] -> atomic_write (S n) d 0 Gone = (Ret 0, Gone).
Proof. intros Hd. cbn [atomic_write]. assert (0 < zlen d) as Hz by (destruct d; [done|]; rewrite zlen_cons; pose proof (zlen_nonneg d); lia). by rewrite Z.gtb_ltb, (proj2 (Z.ltb_lt _ _)) by done. Qed.

Lemma atomic_read_alive n m i o s :
  link i o s -> 0 < m <= zlen o -> exists s', atomic_read (S n) m [] (Alive s) = (Ret (ztake m o), Alive s') /\ link i (zdrop m o) s' /\ core s' = core s.
Proof.
  intros Hk Hm. cbn [atomic_read]. rewrite Z.gtb_ltb, zlen_nil, (proj2 (Z.ltb_lt _ _)) by lia. unfold mbind, io_bind, sys_read. cbn [p_read agent_peer]. rewrite (link_output _ _ _ Hk), Z.sub_0_r.
  assert (zlen (ztake m o) = m) as Hz by (rewrite zlen_ztake; lia). destruct (consume_link i o s m Hk ltac:(lia)) as (s' & E & Hk' & Hc). rewrite Hz, E.
  destruct (ztake m o) as [|x d] eqn:Et; [rewrite zlen_nil in Hz; lia|]. exists s'. split; [|done]. cbn [app]. destruct n; cbn [atomic_read]; by rewrite Hz, Z.gtb_ltb, Z.ltb_irrefl.
Qed.
Lemma atomic_read_gone n m : 0 < m -> atomic_read (S n) m [] Gone = (Ret [], Gone).
Proof. intros Hm. cbn [atomic_read]. by rewrite Z.gtb_ltb, zlen_nil, (proj2 (Z.ltb_lt _ _)) by lia. Qed.

(** The reply is read to the end, or there is no room for it. *)
Lemma read_reply_alive n turns i o s reply :
  link i o s -> zlen o <= Z.of_nat turns -> buf_wf reply ->
  exists r reply' s', read_reply (S n) turns (zlen o) reply (Alive s) = (Ret (r, reply'), Alive s') /\ core s' = core s /\
    match r with Ok _ => link i [] s' /\ buf_wf reply' /\ contents reply' = contents reply ++ o | Err err => err <> SSH_ERR_AGENT_COMMUNICATION end.
Proof.
  revert o s reply. induction turns as [|turns IH]; intros o s reply Hk Ht Hw; cbn [read_reply]; rewrite Z.gtb_ltb; pose proof (zlen_nonneg o) as Hz.
  all: destruct (Z.ltb_spec 0 (zlen o)) as [Hlt|Hle]; [|assert (o = []) as -> by (apply zlen_0_nil; lia); eexists _, _, _; split; [done|]; by rewrite app_nil_r].
  1: lia.
  cbn zeta. set (l := if zlen o >? 1024 then 1024 else zlen o). assert (0 < l <= zlen o) as Hl by (unfold l; rewrite Z.gtb_ltb; destruct (Z.ltb_spec 1024 (zlen o)); lia).
  destruct (atomic_read_alive n l i o s Hk Hl) as (s1 & E1 & Hk1 & Hc1). rewrite (bind_run _ _ _ _ _ E1). rewrite zlen_ztake by lia. rewrite Z.eqb_refl. cbn [negb].
  pose proof (sshbuf_put_appends (ztake l o) reply Hw) as Ha. destruct (sshbuf_put (ztake l o) reply) as [[[]|err] reply1]; destruct Ha as [Hx Ha].
  - destruct Ha as (_ & _ & Hcr). assert (zlen o - l = zlen (zdrop l o)) as -> by (rewrite zlen_zdrop; lia).
    destruct (IH (zdrop l o) s1 reply1 Hk1 ltac:(rewrite zlen_zdrop; lia) (ext_wf _ _ Hx)) as (r & reply' & s' & E & Hc & Hr). exists r, reply', s'. split; [done|]. split; [congruence|].
    destruct r; [|done]. destruct Hr as (Hk' & Hw' & Hc'). split_and!; [done..|]. by rewrite Hc', Hcr, <- app_assoc, ztake_zdrop.
  - exists (Err err), reply1, s1. split; [done|]. split; [done|]. destruct Ha as [_ Ha]. by destruct Ha.
Qed.

(** The outcome of an exchange. *)
Definition exchanged (m : list Z) (s : agent) (r : result unit) (msg : sshbuf) (w : far) : Prop :=
  (r = Err SSH_ERR_AGENT_COMMUNICATION /\ w = Gone) \/
  exists s1 t rep s', served m s s1 /\ link [] (enc_string (t :: rep)) s1 /\ w = Alive s' /\ core s' = core s1 /\
    match r with Ok _ => buf_wf msg /\ contents msg = t :: rep /\ link [] [] s' | Err err => err <> SSH_ERR_AGENT_COMMUNICATION end.

Lemma link_bound i o s : link i o s -> zlen o <= SSHBUF_SIZE_MAX.
Proof. intros (_ & se & c & _ & _ & _ & [_ Hw _ _ _] & _ & <-). rewrite contents_len by done. destruct Hw. lia. Qed.

Lemma request_reply_run n msg s :
  buf_wf msg -> SSHBUF_SIZE_INIT <= max_size msg -> contents msg <> [] -> bytes_ok (contents msg) -> zlen (contents msg) <= AGENT_MAX_LEN -> link [] [] s ->
  exists r msg' w, ssh_request_reply (S n) msg (Alive s) = (Ret (r, msg'), w) /\ exchanged (contents msg) s r msg' w.
Proof.
  intros Hw Hmx Hne Hb Hlen Hk. set (m := contents msg) in *. unfold ssh_request_reply. rewrite sshbuf_len_wf, sshbuf_ptr_wf by done. cbn [default from_option id]. fold m. cbn zeta.
  pose proof (atomic_write_alive n (POKE_U32 (zlen m)) s ltac:(done)) as E1. rewrite (bind_run _ _ _ _ _ E1). rewrite zlen_POKE_U32. cbn [negb Z.eqb Pos.eqb]. rewrite ztake_ge by done.
  assert (forall x : far, x = Gone -> exists r msg' w,
    (n0 ← atomic_write (S n) m 0; if negb (n0 =? zlen m) then mret (Err SSH_ERR_AGENT_COMMUNICATION, msg) else
      h ← atomic_read (S n) 4 []; if negb (zlen h =? 4) then mret (Err SSH_ERR_AGENT_COMMUNICATION, msg) else
      if PEEK_U32 h >? MAX_AGENT_REPLY_LEN then mret (Err SSH_ERR_INVALID_FORMAT, msg) else read_reply (S n) (Z.to_nat (PEEK_U32 h)) (PEEK_U32 h) (sshbuf_reset msg)) x = (Ret (r, msg'), w) /\ exchanged m s r msg' w) as Hgone.
  { intros x ->. rewrite (bind_run _ _ _ _ _ (atomic_write_gone n m Hne)). assert (0 =? zlen m = false) as -> by (apply Z.eqb_neq; intros Hz; symmetry in Hz; by apply zlen_0_nil in Hz).
    eexists _, _, _. split; [done|]. by left. }
  unfold after_write at 1. destruct (feed (pieces (POKE_U32 (zlen m))) s) as [[[]|c| |] s1] eqn:Ef; [|by apply Hgone..]. clear Hgone.
  assert (link (POKE_U32 (zlen m)) [] s1 /\ core s1 = core s) as [Hk1 Hc1].
  { rewrite <- (pieces_all (POKE_U32 (zlen m))) at 1. apply (feed_partial m _ [] m s s1); rewrite ?pieces_all; [done|done|done|apply POKE_U32_bytes|done|done]. }
  rewrite (bind_run _ _ _ _ _ (atomic_write_alive n m s1 Hne)), Z.eqb_refl. cbn [negb]. unfold after_write. destruct (feed (pieces m) s1) as [[[]|c| |] s2] eqn:Ef2.
  2-4: rewrite (bind_run _ _ _ _ _ (atomic_read_gone n 4 ltac:(lia))); eexists _, _, _; split; [done|by left].
  destruct (feed_whole m (pieces m) (POKE_U32 (zlen m)) s1 s2) as (s3 & t & rep & (s4 & Hc4 & Hk4 & E4) & Hk3 & Hk2 & Hc2); rewrite ?pieces_all; [done..|].
  assert (served m s s3) as Hsv by (exists s4; split_and!; [congruence|done..]). pose proof (link_bound _ _ _ Hk2) as Hbd. unfold enc_string in Hbd. rewrite zlen_app, zlen_POKE_U32 in Hbd. pose proof (zlen_nonneg (t :: rep)) as Hrz.
  destruct (atomic_read_alive n 4 _ _ _ Hk2 ltac:(unfold enc_string; rewrite zlen_app, zlen_POKE_U32; lia)) as (s5 & E5 & Hk5 & Hc5). rewrite (bind_run _ _ _ _ _ E5).
  unfold enc_string in Hk5 |- *. rewrite ztake_app_exact, zlen_POKE_U32 by done. rewrite zdrop_app_exact in Hk5 by done. cbn [negb Z.eqb Pos.eqb].
  rewrite <- (app_nil_r (POKE_U32 (zlen (t :: rep)))), PEEK_POKE_U32, u32_small by (unfold SSHBUF_SIZE_MAX in *; lia). destruct (zlen (t :: rep) >? MAX_AGENT_REPLY_LEN).
  { eexists _, _, _. split; [done|]. right. exists s3, t, rep, s5. split_and!; [done..|congruence|done]. }
  assert (malloc_ok SSHBUF_SIZE_INIT = true) as Hmem by (destruct Hk as (_ & ? & ? & _ & _ & _ & [] & _); done).
  destruct (sshbuf_reset_empty msg Hmem Hw Hmx) as [Hxr Hcr].
  destruct (read_reply_alive n (Z.to_nat (zlen (t :: rep))) [] (t :: rep) s5 (sshbuf_reset msg) Hk5 ltac:(lia) (ext_wf _ _ Hxr)) as (r & msg' & s6 & E6 & Hc6 & Hr).
  exists r, msg', (Alive s6). split; [done|]. right. exists s3, t, rep, s6. split_and!; [done..|congruence|]. destruct r; [|done]. rewrite Hcr in Hr. cbn in Hr. tauto.
Qed.

(** The outcome [r] of a call that sends [v] and reads the reply by [f]: it fails
    before anything is sent, the agent ends, or the message is served and the result
    is that of [f] on the reply, unless the client cannot hold it. *)
Definition transacted {A} (v : list Z) (f : SE sshbuf A) (s : agent) (r : result A) (w : far) : Prop :=
  (w = Alive s /\ exists err, r = Err err) \/ (r = Err SSH_ERR_AGENT_COMMUNICATION /\ w = Gone) \/
  exists s1 t rep s', served v s s1 /\ link [] (enc_string (t :: rep)) s1 /\ w = Alive s' /\ core s' = core s1 /\
    ((exists msg, buf_wf msg /\ contents msg = t :: rep /\ r = fst (f msg) /\ link [] [] s') \/ exists err, r = Err err /\ err <> SSH_ERR_AGENT_COMMUNICATION).

Lemma transaction_run {A} n m v (f : SE sshbuf A) s :
  builds m v -> v <> [] -> bytes_ok v -> zlen v <= AGENT_MAX_LEN -> link [] [] s ->
  exists r w, transaction (S n) m f (Alive s) = (Ret r, w) /\ transacted v f s r w.
Proof.
  intros Hm Hne Hb Hl Hk. unfold transaction. destruct sshbuf_new as [b|] eqn:En; [|eexists _, _; split; [done|left; eauto]].
  destruct (sshbuf_new_spec b En) as (Hw & Hc & _ & Hmx). destruct (m b) as [[[]|err] msg] eqn:Em; [|eexists _, _; split; [done|left; eauto]].
  destruct (Hm b msg Hw Em) as [Hx Hcm]. rewrite Hc in Hcm. cbn in Hcm.
  destruct (request_reply_run n msg s (ext_wf _ _ Hx)) as (r & msg' & w & E & Hr); [rewrite (ext_max _ _ Hx), Hmx; done|by rewrite Hcm..|done|].
  rewrite (bind_run _ _ _ _ _ E). eexists _, w. split; [done|]. right. rewrite Hcm in Hr. destruct Hr as [[-> ->]|(s1 & t & rep & s' & Hs & Hk1 & -> & Hc1 & Hr)]; [by left|right].
  exists s1, t, rep, s'. split_and!; [done..|]. destruct r as [[]|err]; [left; exists msg'; tauto|right; by exists err].
Qed.

(** The wire form of a string is a prefix code. *)
Lemma enc_string_prefix a b x y : zlen a < 2 ^ 32 -> zlen b < 2 ^ 32 -> enc_string a ++ x = enc_string b ++ y -> a = b /\ x = y.
Proof.
  intros Ha Hb E. unfold enc_string in E. rewrite <- !app_assoc in E. pose proof (zlen_nonneg a). pose proof (zlen_nonneg b).
  assert (zlen a = zlen b) as Hz by (pose proof (f_equal PEEK_U32 E) as E'; rewrite !PEEK_POKE_U32, !u32_small in E' by lia; done).
  rewrite Hz in E. apply app_inv_head in E. apply app_inj_1 in E; [done|]. unfold zlen in Hz. lia.
Qed.
Lemma enc_string_eq a b : zlen a < 2 ^ 32 -> zlen b < 2 ^ 32 -> enc_string a = enc_string b -> a = b.
Proof. intros Ha Hb E. apply (enc_string_prefix a b [] []); [done..|]. by rewrite E. Qed.

Lemma status_reply_value msg t rep : buf_wf msg -> contents msg = t :: rep -> fst (status_reply msg) = decode_reply t.
Proof. intros Hw Hc. unfold status_reply, mbind, se_bind. destruct (get_u8_gets t msg rep Hw Hc) as (b & -> & _). done. Qed.

(** What a locked agent answers, and its state then. *)
Lemma served_locked v s s1 t rep :
  link [] [] s -> alocked s = true -> v <> [] -> zlen v <= AGENT_MAX_LEN -> served v s s1 -> link [] (enc_string (t :: rep)) s1 ->
  idlist s1 = idlist s /\ 
  ((alocked s1 = true /\ (exists new, alog s1 = new ++ alog s /\ Forall sleeps new) /\ (t :: rep = [SSH_AGENT_FAILURE] \/ t :: rep = [SSH2_AGENT_IDENTITIES_ANSWER; 0; 0; 0; 0])) \/
   (alocked s1 = false /\ t :: rep = [SSH_AGENT_SUCCESS] /\
    exists passwd rest, v = SSH_AGENTC_UNLOCK :: enc_string passwd ++ rest /\ passwd <> [] /\ bcrypt_pbkdf passwd (lock_salt s) = Some (lock_pwhash s))).
Proof.
  intros Hk Hl Hne Hlen (s0 & Hc0 & Hk0 & E) Hk1. pose proof (link_bound _ _ _ Hk1) as Hbd. pose proof Hk0 as (Hi & se & c & He & Hu & Hc & Hok & Hin & Hout). injection Hc0 as Ht0 _ Hl0 Hh0 Hs0 _ Hlog0.
  destruct (wpa_elim _ _ _ _ _ (process_message_spec e se s0 Hi He Hu) E) as [_ Hlk]. destruct (Hlk ltac:(congruence)) as (Ht & _ & se' & c0 & c' & out & He' & Hc' & Hs & Ho & Hcase).
  rewrite He in He'. injection He' as <-. rewrite Hc in Hc'. injection Hc' as <-. rewrite Hin, <- (app_nil_r (enc_string v)), next_message_whole in Hcase by done.
  assert (out = enc_string (t :: rep)) as ->.
  { rewrite <- (link_output _ _ _ Hk1). unfold output_of. rewrite Hs, list_lookup_insert_eq by (by eapply lookup_lt_Some). cbn. by rewrite Ho, Hout. }
  assert (zlen (t :: rep) < 2 ^ 32) as Hz by (unfold enc_string in Hbd; rewrite zlen_app, zlen_POKE_U32 in Hbd; unfold SSHBUF_SIZE_MAX in Hbd; lia).
  split; [congruence|]. destruct Hcase as [(Hl1 & _ & _ & (new & Hn & Hsl) & Hout1)|(Hl1 & _ & Hout1 & passwd & rest & [= Hv] & Hp & Hb)].
  - left. split; [done|]. split; [exists new; split; [congruence|done]|]. destruct Hout1 as [Hx|[Hx|Hx]]; [done|left|right]; by apply enc_string_eq in Hx.
  - right. split; [done|]. apply enc_string_eq in Hout1; [|done..]. split; [done|]. exists passwd, rest. split_and!; [done..|congruence].
Qed.

(** ** A locked agent *)

(** Readers of a reply that refuse what a locked agent sends. *)
Definition refuses {A} (f : SE sshbuf A) : Prop :=
  forall msg, buf_wf msg -> contents msg = [SSH_AGENT_FAILURE] \/ contents msg = [SSH2_AGENT_IDENTITIES_ANSWER; 0; 0; 0; 0] -> exists err, fst (f msg) = Err err.

Lemma sign_reply_refuses alg key : refuses (sign_reply alg key).
Proof. intros msg Hw Hc. unfold sign_reply, mbind, se_bind. destruct Hc as [Hc|Hc]; destruct (get_u8_gets _ msg _ Hw Hc) as (b & -> & _); by eexists. Qed.
Lemma identities_reply_refuses : refuses identities_reply.
Proof.
  intros msg Hw Hc. unfold identities_reply, mbind, se_bind. destruct Hc as [Hc|Hc]; destruct (get_u8_gets _ msg _ Hw Hc) as (b & -> & Hx & Hcb & _); [by eexists|].
  destruct (get_u32_gets 0 b [] (ext_wf _ _ Hx)) as (b' & E' & _); [by rewrite Hcb|]. cbn -[sshbuf_get_u32]. rewrite E'. by eexists.
Qed.
Lemma status_reply_refuses : refuses status_reply.
Proof. intros msg Hw [Hc|Hc]; rewrite (status_reply_value _ _ _ Hw Hc); by eexists. Qed.

(** A call that fails and leaves the agent locked. *)
Definition locked_out {A} (r : result A) (w : far) (s : agent) : Prop :=
  (exists err, r = Err err) /\ forall s', w = Alive s' -> alocked s' = true /\ idlist s' = idlist s /\ exists new, alog s' = new ++ alog s /\ Forall sleeps new.

Lemma locked_call {A} n m ty v (f : SE sshbuf A) s :
  link [] [] s -> alocked s = true -> builds m (ty :: v) -> ty <> SSH_AGENTC_UNLOCK -> bytes_ok (ty :: v) -> zlen (ty :: v) <= AGENT_MAX_LEN -> refuses f ->
  exists r w, transaction (S n) m f (Alive s) = (Ret r, w) /\ locked_out r w s.
Proof.
  intros Hk Hl Hm Ht Hb Hlen Hf. destruct (transaction_run n m (ty :: v) f s Hm ltac:(done) Hb Hlen Hk) as (r & w & E & Hr). exists r, w. split; [done|].
  destruct Hr as [[-> [err ->]]|[[-> ->]|(s1 & t & rep & s' & Hs & Hk1 & -> & Hc & Hr)]].
  - split; [eauto|]. intros s' [= <-]. split_and!; [done..|]. by exists [].
  - split; [eauto|]. done.
  - destruct (served_locked (ty :: v) s s1 t rep Hk Hl ltac:(done) Hlen Hs Hk1) as (Hid & [(Hl1 & Hlog & Hout)|(_ & _ & passwd & rest & [= ? _] & _)]); [|done]. injection Hc as Hi' _ Hl' _ _ _ Hlog'. split.
    + destruct Hr as [(msg & Hw & Hcm & -> & _)|(err & -> & _)]; [|eauto]. apply Hf; [done|]. by rewrite Hcm.
    + intros s2 [= <-]. split_and!; [congruence..|]. destruct Hlog as (new & Hn & Hsl). exists new. split; [congruence|done].
Qed.

(** With a locked agent, a client that asks for a signature or for the list of
    identities gets an error, whatever the key and the data; the agent stays locked,
    keeps its identities and has made no call but delays. *)
Theorem agent_locked_client n s alg key opaque data kv :
  link [] [] s -> alocked s = true -> builds (Xkey_puts alg key) kv -> bytes_ok kv -> bytes_ok data -> zlen kv + zlen data + 9 <= AGENT_MAX_LEN ->
  (exists r w, Xssh_agent_sign (S n) alg key opaque data (Alive s) = (Ret r, w) /\ locked_out r w s) /\
  (exists r w, ssh_fetch_identitylist (S n) (Alive s) = (Ret r, w) /\ locked_out r w s).
Proof.
  intros Hk Hl Hkv Hbk Hbd Hlen. pose proof (zlen_nonneg kv). pose proof (zlen_nonneg data). split.
  - unfold Xssh_agent_sign. rewrite Z.gtb_ltb, (proj2 (Z.ltb_ge _ _)) by (unfold SSH_KEY_MAX_SIGN_DATA_SIZE, AGENT_MAX_LEN in *; lia). cbn zeta.
    eapply (locked_call n _ SSH2_AGENTC_SIGN_REQUEST (kv ++ enc_string data ++ POKE_U32 _)); [done|done| |done| | |apply sign_reply_refuses].
    + apply (builds_bind _ [SSH2_AGENTC_SIGN_REQUEST]); [eauto with builds|]. apply builds_bind; [done|]. apply builds_bind; eauto with builds.
    + constructor; [done|]. apply Forall_app. split; [done|]. unfold enc_string. rewrite !Forall_app. split_and!; [apply POKE_U32_bytes|done|apply POKE_U32_bytes].
    + unfold enc_string. zlia.
  - apply (locked_call n _ SSH2_AGENTC_REQUEST_IDENTITIES []); [done|done|eauto with builds|done|by repeat constructor|done|apply identities_reply_refuses].
Qed.

(** A client that asks a locked agent to unlock succeeds only if the agent is
    unlocked then, and the agent is unlocked only by the password whose hash it
    holds; its identities are the same. *)
Theorem agent_unlocked_by_client n passwd s :
  link [] [] s -> alocked s = true -> no_nul passwd -> bytes_ok passwd -> zlen passwd + 5 <= AGENT_MAX_LEN ->
  exists r w, ssh_lock_agent (S n) false passwd (Alive s) = (Ret r, w) /\
    (r = Ok tt -> exists s', w = Alive s' /\ link [] [] s' /\ alocked s' = false) /\
    (forall s', w = Alive s' -> idlist s' = idlist s /\ (alocked s' = false -> passwd <> [] /\ bcrypt_pbkdf passwd (lock_salt s) = Some (lock_pwhash s))).
Proof.
  intros Hk Hl Hn Hb Hlen. pose proof (zlen_nonneg passwd). unfold ssh_lock_agent.
  destruct (transaction_run n (_ ← sshbuf_put_u8 SSH_AGENTC_UNLOCK; sshbuf_put_cstring (Some passwd)) (SSH_AGENTC_UNLOCK :: enc_string passwd) status_reply s) as (r & w & E & Hr).
  { assert (enc_string passwd = enc_string (cstr passwd)) as -> by by rewrite cstr_no_nul. apply (builds_bind _ [SSH_AGENTC_UNLOCK]); eauto with builds. }
  { done. }
  { constructor; [done|]. unfold enc_string. apply Forall_app. split; [apply POKE_U32_bytes|done]. }
  { unfold enc_string. zlia. }
  { done. }
  exists r, w. split; [done|]. destruct Hr as [[-> [err ->]]|[[-> ->]|(s1 & t & rep & s' & Hs & Hk1 & -> & Hc & Hr)]].
  - split; [done|]. intros s' [= <-]. split; [done|]. congruence.
  - done.
  - injection Hc as Hi' _ Hl' _ _ _ _. destruct (served_locked (SSH_AGENTC_UNLOCK :: enc_string passwd) s s1 t rep Hk Hl ltac:(done) ltac:(unfold enc_string; zlia) Hs Hk1) as (Hid & Hcase). split.
    + intros ->. destruct Hr as [(msg & Hw & Hcm & Hr & Hk')|(err & Hr & _)]; [|done]. exists s'. split; [done|]. split; [done|]. rewrite Hl'.
      destruct Hcase as [(_ & _ & Hout)|(Hl1 & _)]; [|done]. destruct (status_reply_refuses msg Hw) as [err Herr]; [by rewrite Hcm|congruence].
    + intros s2 [= <-]. split; [congruence|]. intros Hl2. destruct Hcase as [(Hl1 & _)|(_ & _ & pw & rest & Hv & Hne & Hbc)]; [congruence|].
      apply (f_equal tail) in Hv. change (tail (?x :: ?l)) with l in Hv. rewrite <- (app_nil_r (enc_string passwd)) in Hv. apply enc_string_prefix in Hv as [-> _]; [done|unfold AGENT_MAX_LEN in *; lia|].
      apply (f_equal zlen) in Hv. rewrite !zlen_app in Hv. unfold enc_string in Hv. rewrite !zlen_app, !zlen_POKE_U32, zlen_nil in Hv. pose proof (zlen_nonneg rest). unfold AGENT_MAX_LEN in *. lia.
Qed.
End pair.

(** * Examples *)

Module ToyClient.
Import Toy.
#[local] Existing Instance alloc_all.

#[global] Instance client_keys : ClientKeys := {|
  sendable k := (0 <=? k) && (k <? 256);
  is_unspec _ := false;
  is_rsa _ := true;
  Akey_from_blob blob := match blob with [k] => Ok (k : @akey keys) | _ => Err SSH_ERR_INVALID_FORMAT end;
  Akey_to_blob k := Ok [k : Z];
  Xkey_puts _ k := @sshbuf_put_string alloc_all [k : Z];
  sshkey_private_serialize_maxsign k _ := @sshbuf_put_u8 alloc_all (k : Z);
  Xkey_check_sigalg _ _ _ := Ok tt
|}.

(** The data arrives byte by byte. *)
#[global] Program Instance bytewise : Pieces := {| pieces d := map (fun x => [x]) d |}.
Next Obligation. induction d as [|x d IH]; [done|]. cbn. by rewrite IH. Qed.

Definition buffers (s : agent) : option (sock_type * list Z * list Z) :=
  se ← sockets s !! 1%nat; c ← s_conn se; Some (s_type se, contents (c_input c), contents (c_output c)).

Lemma buffers_link s : Inv s -> buffers s = Some (AUTH_CONNECTION, [], []) -> link 1 [] [] s.
Proof.
  intros Hi Hb. unfold buffers in Hb. destruct (sockets s !! 1%nat) as [se|] eqn:Es; [|done]. cbn in Hb. destruct (s_conn se) as [c|] eqn:Ec; [|done]. injection Hb as Ht Hin Hout.
  split; [done|]. destruct (sock_conn s 1 se Hi Es ltac:(congruence)) as (c' & Ec' & Hok). exists se, c. rewrite Ec in Ec'. injection Ec' as <-. split_and!; [done|congruence|done..].
Qed.

(** The agent after it was locked. *)
Lemma locked_state : exists s, after 3 [add_message []; lock_message] = (Ret tt, s) /\ link 1 [] [] s /\ alocked s = true /\
  fst (@ssh_lock_agent alloc_all (agent_peer 1) 1 false [112; 119] (Alive s)) = Ret (Ok tt).
Proof.
  assert (let x := after 3 [add_message []; lock_message] in x.1 = Ret tt /\ alocked x.2 = true /\ buffers x.2 = Some (AUTH_CONNECTION, [], []) /\
    fst (@ssh_lock_agent alloc_all (agent_peer 1) 1 false [112; 119] (Alive x.2)) = Ret (Ok tt)) as (Hr & Hl & Hb & Hu) by (split_and!; vm_compute; reflexivity).
  destruct (after 3 [add_message []; lock_message]) as [r s] eqn:E. cbn [fst snd] in Hr, Hl, Hb, Hu. subst r. exists s. split; [reflexivity|]. split; [|exact (conj Hl Hu)]. exact (buffers_link s (after_inv 3 _ s E) Hb).
Qed.

Lemma agent_locked_client_witness : exists s, link 1 [] [] s /\ alocked s = true /\
  (exists r w, @Xssh_agent_sign alloc_all keys client_keys (agent_peer 1) 1 (str "ssh-rsa") 9 false [1; 2; 3] (Alive s) = (Ret r, w) /\ locked_out r w s).
Proof.
  destruct locked_state as (s & _ & Hk & Hl & _). exists s. split; [done|]. split; [done|].
  apply (fun H1 H2 H3 H4 => proj1 (@agent_locked_client alloc_all keys env config laws client_keys bytewise 1 0 s (str "ssh-rsa") 9 false [1; 2; 3] (enc_string [9]) Hk Hl H1 H2 H3 H4)).
  - apply put_string_builds.
  - by repeat constructor.
  - by repeat constructor.
  - done.
Defined.

Lemma agent_unlocked_by_client_witness : exists s s', link 1 [] [] s /\ alocked s = true /\
  @ssh_lock_agent alloc_all (agent_peer 1) 1 false [112; 119] (Alive s) = (Ret (Ok tt), Alive s') /\ alocked s' = false.
Proof.
  destruct locked_state as (s & _ & Hk & Hl & Hu).
  destruct (@agent_unlocked_by_client alloc_all keys env config laws bytewise 1 0 [112; 119] s Hk Hl) as (r & w & E & Hok & _); [by repeat constructor|by repeat constructor|done|].
  rewrite E in Hu. cbn in Hu. injection Hu as ->. destruct (Hok eq_refl) as (s' & -> & _ & Hl'). exists s, s'. done.
Defined.
End ToyClient.
