(* ===== verification/AuthfdAdd.v ===== *)
(** A key that a client adds to the agent is stored with the comment and the
    constraints that the client gave ([encode_constraints] of authfd.c against
    [process_add_identity] of ssh-agent.c). *)

From Stdlib Require Import String.
From S2P Require Import Prelude Io Sshbuf SshbufGetPut SshbufRead Match Agent AgentSafe AgentRun Authfd AuthfdAgent.
Local Open Scope Z_scope.

(** The form of a private key in a message, and that it can be read back. *)
Class KeyCodec `{Allocator} `{AgentKeys} `{!ClientKeys} := {
  private_form : akey -> Z -> list Z;
  serialize_builds k maxsign : builds (sshkey_private_serialize_maxsign k maxsign) (private_form k maxsign);
  private_form_bytes k maxsign : sendable k = true -> bytes_ok (private_form k maxsign);
  deserialize_inverts b k maxsign rest k' b' :
    sendable k = true -> readable b -> contents b = private_form k maxsign ++ rest -> sshkey_private_deserialize b = (Ok k', b') -> k' = k /\ contents b' = rest
}.

(** * The bytes of the constraints *)

Definition life_bytes (life : Z) : list Z := if life =? 0 then [] else SSH_AGENT_CONSTRAIN_LIFETIME :: POKE_U32 life.
Definition confirm_bytes (confirm : bool) : list Z := if confirm then [SSH_AGENT_CONSTRAIN_CONFIRM] else [].
Definition maxsign_bytes (maxsign : Z) : list Z := if maxsign =? 0 then [] else SSH_AGENT_CONSTRAIN_MAXSIGN :: POKE_U32 maxsign.
Definition provider_bytes (provider : option cstring) : list Z :=
  match provider with None => [] | Some p => SSH_AGENT_CONSTRAIN_EXTENSION :: enc_string (str "sk-provider@openssh.com") ++ enc_string p end.
Definition constraint_bytes (life : Z) (confirm : bool) (maxsign : Z) (provider : option cstring) : list Z :=
  life_bytes life ++ confirm_bytes confirm ++ maxsign_bytes maxsign ++ provider_bytes provider.

Lemma encode_constraints_builds `{Allocator} life confirm maxsign provider :
  (forall p, provider = Some p -> no_nul p) -> builds (encode_constraints life confirm maxsign provider) (constraint_bytes life confirm maxsign provider).
Proof.
  intros Hp. unfold encode_constraints, constraint_bytes. apply builds_bind; [|apply builds_bind; [|apply builds_bind]].
  - unfold put_if, life_bytes. destruct (life =? 0); cbn [negb]; [apply builds_ret|]. apply (builds_bind _ [_]); eauto with builds.
  - unfold put_if, confirm_bytes. destruct confirm; eauto with builds.
  - unfold put_if, maxsign_bytes. destruct (maxsign =? 0); cbn [negb]; [apply builds_ret|]. apply (builds_bind _ [_]); eauto with builds.
  - destruct provider as [p|]; cbn [provider_bytes]; [|apply builds_ret]. apply (builds_bind _ [_]); [eauto with builds|]. apply builds_bind; [apply put_cstring_builds|].
    rewrite <- (cstr_no_nul p) at 2 by auto. apply put_cstring_builds.
Qed.

Section add.
Context `{Allocator} `{AgentKeys} `{!AgentEnv} `{AgentConfig} `{!AgentLaws}.

(** * Reading the constraints *)

(** What is read from the request is known. *)
Lemma adding_get {A} e s0 q s (m : SE sshbuf A) (Q : result A -> agent -> Prop) :
  adding e s0 q s -> steady m ->
  (forall r s' b b', adding e s0 q s' -> core s' = core s -> readable b -> contents b = req e s -> m b = (r, b') -> req e s' = contents b' -> Q r s') ->
  wpa (on_request e m) Q s.
Proof.
  intros Ha Hm Hq. eapply wpa_conn; [apply Ha|]. intros c r c' Hok Ef Hr. pose proof Hok as [? ? Hreq Hroom ?]. specialize (Hm _ Hreq). destruct (m (c_request c)) as [r' b] eqn:Em.
  injection Ef as <- <-. cbn in *. destruct Hm as [Hx Hrd]. split_and!; [split; cbn; [done..| |done]; by rewrite (ext_max _ _ Hx)|done|]. exists []. rewrite !app_nil_r. split; [done|].
  intros s' Hd' Hc Hr'. eapply Hq; [by eapply adding_core| |exact Hreq|done|exact Em|done]. done.
Qed.

Lemma u8_known b x rest y b' : readable b -> contents b = x :: rest -> sshbuf_get_u8 b = (Ok y, b') -> y = x /\ contents b' = rest.
Proof. intros Hr Hc E. destruct (get_u8_yields _ _ _ Hr E) as (_ & e & -> & Hx). rewrite Hc in Hx. by injection Hx as -> ->. Qed.
Lemma u32_known b x rest y b' : readable b -> 0 <= x < 2 ^ 32 -> contents b = POKE_U32 x ++ rest -> sshbuf_get_u32 b = (Ok y, b') -> y = x /\ contents b' = rest.
Proof. intros Hr Hx Hc E. destruct (get_u32_gets x b rest (proj1 Hr) Hc) as (b2 & E2 & _ & Hc2 & _). rewrite E in E2. injection E2 as -> ->. by rewrite u32_small. Qed.
Lemma cstring_known b x rest y b' : readable b -> zlen x < 2 ^ 32 -> contents b = enc_string x ++ rest -> sshbuf_get_cstring b = (Ok y, b') -> y = x /\ contents b' = rest.
Proof.
  intros Hr Hx Hc E. destruct (get_cstring_yields _ _ _ Hr E) as (_ & e & -> & He). rewrite Hc in He. symmetry in He. apply enc_string_prefix in He as [-> ->]; [done| |done].
  apply (f_equal zlen) in He. rewrite !zlen_app in He. pose proof (contents_len b (proj1 Hr)) as Hl. rewrite Hc, zlen_app in Hl. destruct Hr as [[] _]. unfold enc_string in *.
  rewrite !zlen_app, !zlen_POKE_U32 in *. pose proof (zlen_nonneg (contents b')). pose proof (zlen_nonneg rest). unfold SSHBUF_SIZE_MAX in *. lia.
Qed.

(** The pending values after a constraint. *)
Definition with_death (d : Z) (q : pending) : pending := mk_pending (q_key q) d (q_confirm q) (q_ext_name q) (q_sk_provider q).
Definition with_confirm (q : pending) : pending := mk_pending (q_key q) (q_death q) true (q_ext_name q) (q_sk_provider q).
Definition with_key (k : akey) (q : pending) : pending := mk_pending k (q_death q) (q_confirm q) (q_ext_name q) (q_sk_provider q).

(** The state [s'] after calls of the clock. *)
Definition clocked (s s' : agent) (new : list aevent) : Prop := alog s' = new ++ alog s.

Section steps.
Variables (e : nat) (s0 : agent) (Q : bool * pending -> agent -> Prop).
Hypothesis Hfail : forall q s, adding e s0 q s -> Q (false, q) s.

(** Up to the type of a constraint. *)
Lemma constraint_type fuel q s x rest (k : nat -> Z -> io agent (bool * pending)) :
  adding e s0 q s -> req e s = x :: rest -> (length (req e s) <= fuel)%nat ->
  (forall fuel s', add_constraints (S fuel) e q s' = (len ← request_len e; if len =? 0 then mret (true, q) else r ← on_request e sshbuf_get_u8; match r with Err _ => mret (false, q) | Ok ctype => k fuel ctype end) s') ->
  (forall fuel s', (length rest <= fuel)%nat -> adding e s0 q s' -> core s' = core s -> req e s' = rest -> wpa (k fuel x) Q s') ->
  wpa (add_constraints fuel e q) Q s.
Proof.
  intros Ha Hr Hf Hk Hq. destruct fuel as [|fuel]; [rewrite Hr in Hf; cbn in Hf; lia|]. unfold wpa. rewrite Hk. change (wpa (len ← request_len e; if len =? 0 then mret (true, q) else r ← on_request e sshbuf_get_u8; match r with Err _ => mret (false, q) | Ok ctype => k fuel ctype end) Q s).
  apply wpa_bind. eapply wpa_request_len; [apply Ha|]. intros s1 Hd1 Hc1 Hr1. apply (adding_core _ _ _ _ s1) in Ha; [|done..]. rewrite Hr, zlen_cons. pose proof (zlen_nonneg rest).
  rewrite (proj2 (Z.eqb_neq _ _)) by lia. apply wpa_bind. eapply adding_get; [done|apply get_u8_steady|]. intros [ctype|err] s2 b b' Ha2 Hc2 Hrd Hcb Eb Hr2; [|by apply wpa_ret, Hfail].
  destruct (u8_known b x rest ctype b') as [-> Hcb']; [done|congruence|done|]. apply Hq; [rewrite Hr in Hf; cbn in Hf; lia|done|congruence|congruence].
Qed.

Lemma step_end fuel q s : adding e s0 q s -> req e s = [] -> (forall s', adding e s0 q s' -> core s' = core s -> Q (true, q) s') -> wpa (add_constraints fuel e q) Q s.
Proof.
  intros Ha Hr Hq. destruct fuel; cbn [add_constraints]; apply wpa_bind; (eapply wpa_request_len; [apply Ha|]); intros s1 Hd1 Hc1 Hr1; rewrite Hr, zlen_nil; cbn; apply Hq; [by eapply adding_core|done|by eapply adding_core|done].
Qed.

Lemma step_life fuel q s life rest :
  adding e s0 q s -> req e s = life_bytes life ++ rest -> (length (req e s) <= fuel)%nat -> 0 <= life < 2 ^ 32 ->
  (forall fuel q' s' new, (length rest <= fuel)%nat -> adding e s0 q' s' -> req e s' = rest -> clocked s s' new ->
     (if life =? 0 then q' = q else exists now, AEv ag_monotime now ∈ new /\ q' = with_death (now + life) q) -> wpa (add_constraints fuel e q') Q s') ->
  wpa (add_constraints fuel e q) Q s.
Proof.
  intros Ha Hr Hf Hl Hq. unfold life_bytes in Hr. destruct (life =? 0); [apply (Hq fuel q s []); [by rewrite Hr in Hf|done..]|].
  eapply (constraint_type fuel q s SSH_AGENT_CONSTRAIN_LIFETIME (POKE_U32 life ++ rest) (fun fuel ctype => _)); [done|exact Hr|done|reflexivity|]. intros fuel' s1 Hf1 Ha1 Hc1 Hr1. cbn [Z.eqb SSH_AGENT_CONSTRAIN_LIFETIME Pos.eqb].
  apply wpa_bind. eapply adding_get; [done|apply get_u32_steady|]. intros [seconds|err] s2 b b' Ha2 Hc2 Hrd Hcb Eb Hr2; [|by apply wpa_ret, Hfail].
  destruct (u32_known b life rest seconds b') as [-> Hcb']; [done|done|by rewrite Hcb, Hr1|done|]. apply wpa_bind. eapply adding_call; [done..|]. intros now w Ha3.
  apply (Hq fuel' _ _ [AEv ag_monotime now]); [rewrite length_app in Hf1; lia|by eapply adding_change|by rewrite Hcb' in Hr2| |exists now; split; [by left|done]].
  unfold clocked. cbn. injection Hc2 as _ _ _ _ _ _ ->. by injection Hc1 as _ _ _ _ _ _ ->.
Qed.

Lemma step_confirm fuel q s confirm rest :
  adding e s0 q s -> req e s = confirm_bytes confirm ++ rest -> (length (req e s) <= fuel)%nat ->
  (forall fuel s', (length rest <= fuel)%nat -> adding e s0 (if confirm then with_confirm q else q) s' -> req e s' = rest -> clocked s s' [] ->
     wpa (add_constraints fuel e (if confirm then with_confirm q else q)) Q s') ->
  wpa (add_constraints fuel e q) Q s.
Proof.
  intros Ha Hr Hf Hq. destruct confirm; [|apply Hq; [by rewrite Hr in Hf|done..]].
  eapply (constraint_type fuel q s _ _ (fun fuel ctype => _)); [done|exact Hr|done|reflexivity|]. intros fuel' s1 Hf1 Ha1 Hc1 Hr1.
  apply Hq; [done|by eapply adding_change|done|]. unfold clocked. by injection Hc1 as _ _ _ _ _ _ ->.
Qed.

Lemma step_maxsign fuel q s maxsign rest :
  adding e s0 q s -> req e s = maxsign_bytes maxsign ++ rest -> (length (req e s) <= fuel)%nat -> 0 <= maxsign < 2 ^ 32 ->
  (forall fuel k s', (length rest <= fuel)%nat -> adding e s0 (with_key k q) s' -> req e s' = rest -> clocked s s' [] ->
     (if maxsign =? 0 then k = q_key q else sshkey_enable_maxsign (q_key q) maxsign = Ok k) -> wpa (add_constraints fuel e (with_key k q)) Q s') ->
  wpa (add_constraints fuel e q) Q s.
Proof.
  intros Ha Hr Hf Hl Hq. unfold maxsign_bytes in Hr. destruct (maxsign =? 0); [assert (with_key (q_key q) q = q) as Eq by (by destruct q); rewrite <- Eq; apply Hq; [by rewrite Hr in Hf|by rewrite Eq|done..]|].
  eapply (constraint_type fuel q s SSH_AGENT_CONSTRAIN_MAXSIGN (POKE_U32 maxsign ++ rest) (fun fuel ctype => _)); [done|exact Hr|done|reflexivity|]. intros fuel' s1 Hf1 Ha1 Hc1 Hr1. cbn [Z.eqb SSH_AGENT_CONSTRAIN_LIFETIME SSH_AGENT_CONSTRAIN_CONFIRM SSH_AGENT_CONSTRAIN_MAXSIGN Pos.eqb].
  apply wpa_bind. eapply adding_get; [done|apply get_u32_steady|]. intros [n|err] s2 b b' Ha2 Hc2 Hrd Hcb Eb Hr2; [|by apply wpa_ret, Hfail].
  destruct (u32_known b maxsign rest n b') as [-> Hcb']; [done|done|by rewrite Hcb, Hr1|done|]. destruct (sshkey_enable_maxsign (q_key q) maxsign) as [k|err]; [|by apply wpa_ret, Hfail].
  apply Hq; [rewrite length_app in Hf1; lia|by eapply adding_change|by rewrite Hcb' in Hr2| |done].
  unfold clocked. injection Hc2 as _ _ _ _ _ _ ->. by injection Hc1 as _ _ _ _ _ _ ->.
Qed.

Lemma step_provider fuel q s provider rest :
  adding e s0 q s -> req e s = provider_bytes provider ++ rest -> (length (req e s) <= fuel)%nat -> q_sk_provider q = PNull -> (forall p, provider = Some p -> zlen p < 2 ^ 32) ->
  (forall fuel q' s' new, (length rest <= fuel)%nat -> adding e s0 q' s' -> req e s' = rest -> clocked s s' new -> q_key q' = q_key q /\ q_death q' = q_death q /\ q_confirm q' = q_confirm q ->
     wpa (add_constraints fuel e q') Q s') ->
  wpa (add_constraints fuel e q) Q s.
Proof.
  intros Ha Hr Hf Hsk Hl Hq. destruct provider as [p|]; [|apply (Hq fuel q s []); [by rewrite Hr in Hf|done..]]. specialize (Hl p eq_refl). cbn [provider_bytes] in Hr.
  eapply (constraint_type fuel q s SSH_AGENT_CONSTRAIN_EXTENSION ((enc_string (str "sk-provider@openssh.com") ++ enc_string p) ++ rest) (fun fuel ctype => _)); [done|exact Hr|done|reflexivity|].
  intros fuel' s1 Hf1 Ha1 Hc1 Hr1. cbn [Z.eqb SSH_AGENT_CONSTRAIN_LIFETIME SSH_AGENT_CONSTRAIN_CONFIRM SSH_AGENT_CONSTRAIN_MAXSIGN SSH_AGENT_CONSTRAIN_EXTENSION Pos.eqb].
  apply wpa_bind. eapply adding_get; [done|apply get_cstring_steady|]. intros [name|err] s2 b b' Ha2 Hc2 Hrd Hcb Eb Hr2; [|apply wpa_ret, Hfail; by eapply adding_change].
  destruct (cstring_known b (str "sk-provider@openssh.com") (enc_string p ++ rest) name b') as [-> Hcb']; [done|done|by rewrite Hcb, Hr1, <- app_assoc|done|]. cbn zeta.
  apply wpa_bind. eapply adding_call; [by eapply (adding_change _ _ q (mk_pending _ _ _ PLive _))|done|]. intros [] w Ha3. rewrite bool_decide_true by done. cbn [q_sk_provider]. rewrite Hsk in *.
  apply wpa_bind. eapply adding_get; [done|apply get_cstring_steady|]. intros [sk|err] s4 b4 b4' Ha4 Hc4 Hrd4 Hcb4 Eb4 Hr4; [|by apply wpa_ret, Hfail].
  change (req e (set_world _ _ s2)) with (req e s2) in Hcb4. destruct (cstring_known b4 p rest sk b4') as [-> Hcb4']; [done|done|by rewrite Hcb4, Hr2|done|].
  injection Hc4 as _ _ _ _ _ _ Hlog4. cbn in Hlog4. injection Hc2 as _ _ _ _ _ _ Hlog2. injection Hc1 as _ _ _ _ _ _ Hlog1.
  eapply (Hq fuel' _ s4 [_]); [rewrite !length_app in Hf1; lia| |congruence| |done].
  - split_and!; [apply Ha4| |apply Ha4]. split; [|done]. intros _. rewrite Hlog4. by left.
  - unfold clocked. rewrite Hlog4, Hlog2, Hlog1. reflexivity.
Qed.
End steps.

(** ** The whole request *)

(** The pending values are those that the client asked for. *)
Definition parsed_as (k : akey) (life : Z) (confirm : bool) (maxsign : Z) (q : pending) (new : list aevent) : Prop :=
  (if maxsign =? 0 then q_key q = k else sshkey_enable_maxsign k maxsign = Ok (q_key q)) /\ q_confirm q = confirm /\
  (if life =? 0 then q_death q = 0 else exists now, AEv ag_monotime now ∈ new /\ q_death q = now + life).

Lemma constraints_parsed fuel e s0 s k life confirm maxsign provider :
  adding e s0 (mk_pending k 0 false PNull PNull) s -> req e s = constraint_bytes life confirm maxsign provider -> (length (req e s) <= fuel)%nat ->
  0 <= life < 2 ^ 32 -> 0 <= maxsign < 2 ^ 32 -> (forall p, provider = Some p -> zlen p < 2 ^ 32) ->
  wpa (add_constraints fuel e (mk_pending k 0 false PNull PNull))
    (fun x s' => adding e s0 x.2 s' /\ (x.1 = true -> exists new, clocked s s' new /\ parsed_as k life confirm maxsign x.2 new)) s.
Proof.
  intros Ha Hr Hf Hl Hm Hp. set (Q := fun (x : bool * pending) s' => adding e s0 x.2 s' /\ (x.1 = true -> exists new, clocked s s' new /\ parsed_as k life confirm maxsign x.2 new)).
  assert (forall q s, adding e s0 q s -> Q (false, q) s) as Hfail by (intros q s1 Ha1; by split). unfold constraint_bytes in Hr.
  eapply step_life; [done..|]. intros fuel1 q1 s1 n1 Hf1 Ha1 Hr1 Hc1 Hq1. eapply step_confirm; [done|done|done|by rewrite Hr1|]. intros fuel2 s2 Hf2 Ha2 Hr2 Hc2.
  eapply step_maxsign; [done|done|done|by rewrite Hr2|done|]. intros fuel3 k3 s3 Hf3 Ha3 Hr3 Hc3 Hk3. rewrite <- (app_nil_r (provider_bytes provider)) in Hr3.
  assert (q_key q1 = k /\ q_confirm q1 = false /\ q_sk_provider q1 = PNull) as (Hk1 & Hcf1 & Hsk1) by (destruct (life =? 0); [by subst|by destruct Hq1 as (? & _ & ->)]).
  eapply step_provider; [done|done|done|by rewrite Hr3, app_nil_r|by destruct confirm|done|]. intros fuel4 q4 s4 n4 Hf4 Ha4 Hr4 Hc4 (Hk4 & Hd4 & Hcf4).
  eapply step_end; [done..|]. intros s5 Ha5 Hcore. split; [done|]. intros _. exists (n4 ++ n1). unfold clocked in *. split.
  { injection Hcore as _ _ _ _ _ _ ->. by rewrite Hc4, Hc3, Hc2, Hc1, <- app_assoc. }
  unfold parsed_as. cbn [snd]. split_and!.
  - rewrite Hk4. cbn [q_key with_key]. destruct confirm; cbn [with_confirm q_key] in Hk3; rewrite Hk1 in Hk3; done.
  - rewrite Hcf4. by destruct confirm.
  - assert (q_death q4 = q_death q1) as -> by (rewrite Hd4; by destruct confirm). destruct (life =? 0); [by subst|]. destruct Hq1 as (now & Hn & ->). exists now. rewrite elem_of_app. by split; [right|].
Qed.

(** The identity [id] is as the client asked for; [new] are the calls made. *)
Record as_asked (k : akey) (comment : cstring) (life : Z) (confirm : bool) (maxsign : Z) (new : list aevent) (id : Identity) : Prop := {
  aa_comment : i_comment id = Some comment;
  aa_confirm : i_confirm id = confirm;
  aa_key : exists k1, (if maxsign =? 0 then k1 = k else sshkey_enable_maxsign k maxsign = Ok k1) /\ AEv (ag_shield k1) (Ok (i_key id)) ∈ new;
  aa_life : life <> 0 -> exists now, AEv ag_monotime now ∈ new /\ (now + life <> 0 -> i_death id = now + life);
  aa_forever : life = 0 -> lifetime = 0 -> i_death id = 0;
  aa_default : life = 0 -> lifetime <> 0 -> exists now, AEv ag_monotime now ∈ new /\ i_death id = now + lifetime
}.

Lemma store_identity_stores e v s0 s k comment death confirm (Q : unit -> agent -> Prop) :
  during e v s0 s -> k ∈ added (alog s) ->
  (forall l n id, during e v s0 (set_idtab l n s) -> id ∈ l -> i_key id = k -> i_comment id = comment -> i_death id = death -> i_confirm id = confirm -> Q tt (set_idtab l n s)) ->
  wpa (store_identity k comment death confirm) Q s.
Proof.
  intros Hd Hk Hq. pose proof (d_inv _ _ _ _ Hd) as [Hcnt ? ? ? Hkeys ?]. apply wpa_bind, wpa_reads, wpa_bind, wpa_reads. destruct (lookup_identity k (idlist s)) as [[i id]|] eqn:El.
  - apply lookup_identity_in in El as [Hi _]. eapply wpa_updates, Hq; [apply during_table; [done| |by apply Forall_insert]|by apply list_elem_of_insert; eapply lookup_lt_Some|done..].
    rewrite Hcnt. unfold zlen. by rewrite length_insert.
  - apply wpa_bind, wpa_acalloc; [apply Hd|]. eapply wpa_updates, Hq; [apply during_table; [done| |]|apply elem_of_app; right; by left|done..].
    + rewrite Hcnt. unfold zlen. rewrite length_app. cbn. lia.
    + apply Forall_app. split; [done|]. by constructor.
Qed.

Lemma default_death_value e v s0 s d (Q : Z -> agent -> Prop) :
  during e v s0 s -> (forall d' s' new, during e v s0 s' -> alog s' = new ++ alog s ->
    (d' = d /\ (lifetime = 0 \/ d <> 0) \/ d = 0 /\ lifetime <> 0 /\ exists now, AEv ag_monotime now ∈ new /\ d' = now + lifetime) -> Q d' s') -> wpa (default_death d) Q s.
Proof.
  intros Hd Hq. unfold default_death. destruct (Z.eqb_spec lifetime 0) as [Hl|Hl]; cbn [negb andb]; [apply wpa_ret, (Hq d s []); [done|done|tauto]|].
  destruct (Z.eqb_spec d 0) as [Hz|Hz]; [|apply wpa_ret, (Hq d s []); [done|done|tauto]]. apply wpa_bind, (wpa_call e v s0); [done..|]. intros now w Hd'.
  apply wpa_ret, (Hq _ _ [AEv ag_monotime now]); [done..|]. right. split_and!; [done..|]. exists now. split; [by left|done].
Qed.

(** The request is refused, or the identity is stored and that is said. *)
Definition add_result (e : nat) (k : akey) (comment : cstring) (life : Z) (confirm : bool) (maxsign : Z) (s0 s' : agent) : Prop :=
  during e (enc_string [SSH_AGENT_FAILURE]) s0 s' \/
  during e (enc_string [SSH_AGENT_SUCCESS]) s0 s' /\ exists new id, alog s' = new ++ alog s0 /\ id ∈ idlist s' /\ as_asked k comment life confirm maxsign new id.

Lemma add_err_result e s0 s p p' :
  during e [] s0 s -> (p = PFreed -> Exists culprit (alog s)) -> (p' = PFreed -> Exists culprit (alog s)) -> wpa (add_err e p p') (fun _ s' => during e (enc_string [SSH_AGENT_FAILURE]) s0 s') s.
Proof.
  intros Hd Hp Hp'. apply wpa_bind. eapply release_spec; [done..|]. apply wpa_bind. eapply release_spec; [done..|].
  apply wpa_bind. eapply wpa_reset; [done|]. intros s1 Hd1 _. by apply (wpa_status e s0).
Qed.

Lemma add_identity_stores `{!ClientKeys} `{!KeyCodec} e s k comment life confirm maxsign provider :
  sendable k = true -> during e [] s s -> alocked s = false -> req e s = private_form k maxsign ++ enc_string comment ++ constraint_bytes life confirm maxsign provider ->
  no_nul comment -> zlen comment < 2 ^ 32 -> 0 <= life < 2 ^ 32 -> 0 <= maxsign < 2 ^ 32 -> (forall p, provider = Some p -> zlen p < 2 ^ 32) ->
  wpa (process_add_identity e) (fun _ s' => add_result e k comment life confirm maxsign s s') s.
Proof.
  intros Hsend Hd Hl Hr Hnc Hlc Hlf Hms Hlp. assert (adding e s (mk_pending k 0 false PNull PNull) s) as Ha by (split_and!; [done|by split|done]).
  apply wpa_bind. eapply adding_get; [done|apply add_fields_steady|]. intros [[k1 c1]|err] s1 b b' Ha1 Hc1 Hrd Hcb Eb Hr1; [|eapply wpa_mono; [by apply (add_err_result e s); [apply Ha1|..]|by left]].
  assert (k1 = k /\ c1 = comment /\ contents b' = constraint_bytes life confirm maxsign provider) as (-> & -> & Hcb').
  { unfold add_fields in Eb. apply se_bind_inv in Eb as [(k2 & b2 & E2 & Eb)|(? & _ & [=])]. apply se_bind_inv in Eb as [(c2 & b3 & E3 & [= <- <- <-])|(? & _ & [=])].
    destruct (deserialize_inverts b k maxsign _ k2 b2 Hsend Hrd ltac:(by rewrite Hcb, Hr) E2) as [-> Hc2]. destruct (deserialize_takes b k b2 Hrd E2) as [Hrd2 _].
    by destruct (cstring_known b2 comment _ c2 b3 Hrd2 Hlc Hc2 E3) as [-> ->]. }
  apply wpa_bind. eapply wpa_request_len; [apply Ha1|]. intros s2 Hd2 Hc2 Hr2. apply (adding_core _ _ _ _ s2) in Ha1; [|done..]. apply wpa_bind. eapply wpa_mono.
  { eapply (constraints_parsed _ e s s2 k); [done|by rewrite Hr2, Hr1, Hcb'|rewrite <- Hr2; unfold zlen; lia|done..]. }
  intros [parsed q] s3 [Ha3 Hq]. cbn [fst snd] in Ha3, Hq. destruct parsed; [|destruct Ha3 as (Hd3 & [? ?] & _); eapply wpa_mono; [by apply (add_err_result e s)|by left]].
  destruct (Hq eq_refl) as (n3 & Hlog3 & Hpk & Hpc & Hpd). apply wpa_bind. eapply adding_call; [done..|]. intros r w (Hd4 & [Hf Hs] & _). destruct r as [k4|err]; [|eapply wpa_mono; [by apply (add_err_result e s)|by left]].
  apply wpa_bind. eapply default_death_value; [done|]. intros d s5 n5 Hd5 Hlog5 Hdd. apply wpa_bind. eapply store_identity_stores; [done|rewrite Hlog5; apply added_app; cbn; by left|].
  intros l n id Hd6 Hin Hik Hic Hid Hicf. apply wpa_bind. eapply release_spec; [done|by intros|]. apply (wpa_status e s); [done|]. intros s7 Hd7 Hc7. right. split; [done|].
  injection Hc7 as Hi7 _ _ _ _ _ Hlog7. cbn in Hi7, Hlog7, Hlog5. exists (n5 ++ AEv (ag_shield (q_key q)) (Ok k4) :: n3), id. split_and!.
  - unfold clocked in Hlog3. rewrite Hlog7, Hlog5, Hlog3. injection Hc2 as _ _ _ _ _ _ ->. injection Hc1 as _ _ _ _ _ _ ->. by rewrite <- app_assoc.
  - congruence.
  - split.
    + rewrite Hic. by rewrite cstr_no_nul.
    + congruence.
    + exists (q_key q). split; [destruct (maxsign =? 0); done|]. apply elem_of_app. right. rewrite Hik. by left.
    + intros Hl0. rewrite (proj2 (Z.eqb_neq life 0)) in Hpd by done. destruct Hpd as (now & Hn & Hqd). exists now. split; [apply elem_of_app; right; by right|]. intros Hne. destruct Hdd as [[-> _]|(Hz & _)]; congruence.
    + intros -> Hlt. cbn in Hpd. destruct Hdd as [[-> _]|(_ & ? & _)]; congruence.
    + intros -> Hlt. cbn in Hpd. destruct Hdd as [[_ [?|?]]|(_ & _ & now & Hn & ->)]; [congruence..|]. exists now. split; [apply elem_of_app; by left|done].
Qed.
End add.

Section client_add.
Context `{Allocator} `{AgentKeys} `{!AgentEnv} `{AgentConfig} `{!AgentLaws} `{!ClientKeys} `{!KeyCodec} `{Pieces}.
Variable e : nat.

(** A message to an agent that is not locked is dispatched. *)
Lemma served_dispatch v ty body s s1 t rep (P : agent -> agent -> Prop) :
  v = ty :: body -> zlen v <= AGENT_MAX_LEN -> alocked s = false -> served e v s s1 -> link e [] (enc_string (t :: rep)) s1 ->
  (forall s2, during e [] s2 s2 -> core s2 = core s -> req e s2 = body -> wpa (dispatch e ty) (fun _ s' => P s2 s') s2) ->
  exists s2, core s2 = core s /\ P s2 s1 /\ (forall out, during e out s2 s1 -> out = enc_string (t :: rep)).
Proof.
  intros -> Hlen Hl (s0 & Hc0 & Hk0 & E) Hk1 HP. pose proof Hk0 as (Hi & se & c & He & Hu & Hc & Hok & Hin & Hout). pose proof Hc0 as [= _ _ Hl0 _ _ _ _].
  assert (wpa (process_message e) (fun _ s' => exists s2, core s2 = core s /\ P s2 s' /\ (forall out, during e out s2 s' -> out = output_of e s')) s0) as Hw.
  { apply wpa_bind. eapply wpa_mono; [by apply (next_request_spec e se c)|]. intros t1 s2 (c2 & Hsw & Ho & Hm). rewrite Hin, <- (app_nil_r (enc_string (ty :: body))), next_message_whole in Hm by done.
    destruct Hm as (_ & -> & Hb). destruct (swapped_core _ _ _ _ _ _ Hsw Hi) as (_ & Hcore & _ & Hd2). apply wpa_bind, wpa_reads. pose proof Hcore as [= _ _ Hl2 _ _ _ _]. rewrite Hl2, Hl0, Hl. cbn [andb].
    eapply wpa_mono; [apply HP; [done|congruence|by rewrite (swapped_req _ _ _ _ _ _ Hsw)]|]. intros [] s3 HP3. exists s2. split; [congruence|]. split; [done|]. intros out Hd3.
    destruct (swapped_during _ _ _ _ _ _ _ _ Hsw Hd3) as (_ & _ & _ & c3 & Hs3 & _ & _ & Ho3). unfold output_of. rewrite Hs3, list_lookup_insert_eq by (by eapply lookup_lt_Some). cbn. by rewrite Ho3, Ho, Hout. }
  destruct (wpa_elim _ _ _ _ _ Hw E) as (s2 & Hcore & HP2 & Hout2). exists s2. split_and!; [done..|]. intros out Hd. rewrite (Hout2 out Hd). by apply (link_output e []).
Qed.

(** The message of an addition. *)
Definition constrained (life : Z) (confirm : bool) (maxsign : Z) (provider : option cstring) : bool :=
  negb (life =? 0) || confirm || negb (maxsign =? 0) || is_some_provider provider.
Definition add_type (life : Z) (confirm : bool) (maxsign : Z) (provider : option cstring) : Z :=
  if constrained life confirm maxsign provider then SSH2_AGENTC_ADD_ID_CONSTRAINED else SSH2_AGENTC_ADD_IDENTITY.
Definition add_body (k : akey) (comment : cstring) (life : Z) (confirm : bool) (maxsign : Z) (provider : option cstring) : list Z :=
  private_form k maxsign ++ enc_string comment ++ constraint_bytes life confirm maxsign provider.

Lemma unconstrained_bytes life confirm maxsign provider : constrained life confirm maxsign provider = false -> constraint_bytes life confirm maxsign provider = [].
Proof. unfold constrained, constraint_bytes, life_bytes, maxsign_bytes. destruct (life =? 0), confirm, (maxsign =? 0), provider; done. Qed.

Lemma constraint_bytes_ok life confirm maxsign provider : (forall p, provider = Some p -> bytes_ok p) -> bytes_ok (constraint_bytes life confirm maxsign provider).
Proof.
  intros Hp. unfold constraint_bytes, life_bytes, confirm_bytes, maxsign_bytes. apply Forall_app; split; [|apply Forall_app; split; [|apply Forall_app; split]].
  - destruct (life =? 0); [constructor|]. constructor; [done|apply POKE_U32_bytes].
  - destruct confirm; by repeat constructor.
  - destruct (maxsign =? 0); [constructor|]. constructor; [done|apply POKE_U32_bytes].
  - destruct provider as [p|]; [|constructor]. cbn [provider_bytes]. unfold enc_string. constructor; [done|]. rewrite !Forall_app. split_and!; [apply POKE_U32_bytes|by repeat constructor|apply POKE_U32_bytes|by apply Hp].
Qed.

(** C16: When [ssh_add_identity_constrained] of a client reports success, the agent
    holds an identity with the comment and the confirmation that were asked for,
    whose key is the one that was sent (limited to the number of signatures that was
    given), and that ends after the given number of seconds, counted from when the
    agent read the request; without a lifetime it ends after the default lifetime of
    the agent or never.  The socket is ready for the next call. *)
Theorem agent_add_roundtrip n s k comment life confirm maxsign provider :
  link e [] [] s -> alocked s = false -> sendable k = true -> no_nul comment -> bytes_ok comment ->
  (forall p, provider = Some p -> no_nul p /\ bytes_ok p /\ zlen p < 2 ^ 32) -> 0 <= life < 2 ^ 32 -> 0 <= maxsign < 2 ^ 32 ->
  zlen (add_body k comment life confirm maxsign provider) + 1 <= AGENT_MAX_LEN ->
  exists r w, @ssh_add_identity_constrained _ _ _ (agent_peer e) (S n) k comment life confirm maxsign provider (Alive s) = (Ret r, w) /\
    (r = Ok tt -> exists s' new id, w = Alive s' /\ link e [] [] s' /\ alog s' = new ++ alog s /\ id ∈ idlist s' /\ as_asked k comment life confirm maxsign new id).
Proof.
  intros Hk Hl Hsend Hnc Hbc Hp Hlf Hms Hlen. set (ty := add_type life confirm maxsign provider). set (body := add_body k comment life confirm maxsign provider) in *.
  unfold ssh_add_identity_constrained. fold (constrained life confirm maxsign provider). cbn zeta. rewrite Hsend. fold ty.
  destruct (transaction_run e n (_ ← sshbuf_put_u8 ty; _ ← sshkey_private_serialize_maxsign k maxsign; _ ← sshbuf_put_cstring (Some comment);
      put_if (constrained life confirm maxsign provider) (encode_constraints life confirm maxsign provider)) (ty :: body) status_reply s) as (r & w & E & Hr).
  { apply (builds_bind _ [ty]); [eauto with builds|]. unfold body, add_body. apply builds_bind; [apply serialize_builds|]. assert (enc_string comment = enc_string (cstr comment)) as -> by by rewrite cstr_no_nul.
    apply builds_bind; [apply put_cstring_builds|]. unfold put_if. destruct (constrained _ _ _ _) eqn:Ec; [apply encode_constraints_builds; intros p Ep; by apply Hp|]. rewrite unconstrained_bytes by done. apply builds_ret. }
  { done. }
  { constructor; [by unfold ty, add_type; destruct (constrained _ _ _ _)|]. unfold body, add_body, enc_string. rewrite !Forall_app. split_and!; [by apply private_form_bytes|apply POKE_U32_bytes|done|apply constraint_bytes_ok; intros p Ep; by apply Hp]. }
  { rewrite zlen_cons. lia. }
  { done. }
  exists r, w. split; [done|]. intros ->. destruct Hr as [[_ [err [=]]]|[[[=] _]|(s1 & t & rep & s' & Hs & Hk1 & -> & Hc & Hr)]]. destruct Hr as [(msg & Hw & Hcm & Hr & Hk')|(err & [=] & _)].
  rewrite (status_reply_value _ _ _ Hw Hcm) in Hr.
  destruct (served_dispatch (ty :: body) ty body s s1 t rep (add_result e k comment life confirm maxsign)) as (s2 & Hc2 & Hadd & Hout); [done|rewrite zlen_cons; lia|done..| |].
  { intros s2 Hd2 Hc2 Hr2. assert (dispatch e ty = process_add_identity e) as -> by (unfold ty, add_type; by destruct (constrained _ _ _ _)).
    apply (add_identity_stores e s2 k comment life confirm maxsign provider); [done|done|injection Hc2; congruence|done|done| |done|done|intros p Ep; by apply Hp].
    unfold body, add_body, enc_string in Hlen. pose proof (zlen_nonneg (private_form k maxsign)). pose proof (zlen_nonneg (constraint_bytes life confirm maxsign provider)). rewrite !zlen_app, zlen_POKE_U32 in Hlen. unfold AGENT_MAX_LEN in Hlen. lia. }
  pose proof (link_bound _ _ _ _ Hk1) as Hbd. destruct Hadd as [Hd|(Hd & new & id & Hlog & Hin & Haa)].
  - apply Hout in Hd. apply enc_string_eq in Hd; [injection Hd as <- _; done|done|]. unfold enc_string in Hbd. rewrite zlen_app, zlen_POKE_U32 in Hbd. unfold SSHBUF_SIZE_MAX in Hbd. lia.
  - injection Hc as Hi' _ _ _ _ _ Hlog'. exists s', new, id. split_and!; [done|done| |congruence|done]. rewrite Hlog', Hlog. by injection Hc2 as _ _ _ _ _ _ ->.
Qed.
End client_add.

(** * Example *)

Import Toy ToyClient.
#[local] Existing Instance alloc_all.

#[global] Program Instance toy_codec : @KeyCodec alloc_all keys client_keys := {| private_form k _ := [k : Z] |}.
Next Obligation. intros k maxsign. apply put_u8_builds. Qed.
Next Obligation. intros k maxsign Hk. apply andb_true_iff in Hk as [H1%Z.leb_le H2%Z.ltb_lt]. constructor; [|constructor]. by split. Qed.
Next Obligation. intros b k maxsign rest k' b' _ Hr Hc E. by apply (u8_known b k rest k' b'). Qed.

(** A key with a lifetime of ten seconds that has to be confirmed. *)
Lemma agent_add_roundtrip_witness : exists s s' new id, link 1 [] [] s /\
  @ssh_add_identity_constrained alloc_all keys client_keys (agent_peer 1) 1 9 [99] 10 true 0 None (Alive s) = (Ret (Ok tt), Alive s') /\
  alog s' = new ++ alog s /\ id ∈ idlist s' /\ as_asked 9 [99] 10 true 0 new id.
Proof.
  assert (let x := after 1 [] in x.1 = Ret tt /\ alocked x.2 = false /\ buffers x.2 = Some (AUTH_CONNECTION, [], []) /\
    fst (@ssh_add_identity_constrained alloc_all keys client_keys (agent_peer 1) 1 9 [99] 10 true 0 None (Alive x.2)) = Ret (Ok tt)) as (Hr & Hl & Hb & Hu) by (split_and!; vm_compute; reflexivity).
  destruct (after 1 []) as [r s] eqn:E. cbn [fst snd] in Hr, Hl, Hb, Hu. subst r. pose proof (buffers_link s (after_inv 1 _ s E) Hb) as Hk. exists s.
  destruct (@agent_add_roundtrip alloc_all keys env config laws client_keys toy_codec bytewise 1 0 s 9 [99] 10 true 0 None Hk Hl) as (r & w & E' & Hok);
    [reflexivity|by repeat constructor|by repeat constructor|discriminate|lia|lia|vm_compute; discriminate|].
  rewrite E' in Hu. cbn [fst] in Hu. injection Hu as ->. destruct (Hok eq_refl) as (s' & new & id & -> & _ & Hlog & Hin & Ha). exists s', new, id. exact (conj Hk (conj E' (conj Hlog (conj Hin Ha)))).
Defined.
