(* ===== verification/Bitmap.v ===== *)
(** The growable bitmap of bitmap.c.

    [struct bitmap] is an array of 32-bit words with its length and the index of
    the highest word in use.  Its abstract value is the natural number with the
    same bits; every operation is shown to act on that number. *)

From S2P Require Import Prelude.

Definition BITMAP_MAX : Z := Z.shiftl 1 24.
Definition BITMAP_BYTES : Z := 4.
Definition BITMAP_BITS : Z := BITMAP_BYTES * 8.
Definition BITMAP_WMASK : Z := BITMAP_BITS - 1.

Record bitmap := mk_bitmap { bm_d : list Z; bm_len : Z; bm_top : Z }.

Definition bitmap_new `{Allocator} : option bitmap :=
  if malloc_ok 24 && malloc_ok BITMAP_BYTES then Some (mk_bitmap (zrepeat 1) 1 0) else None.

Definition bitmap_zero (b : bitmap) : bitmap := mk_bitmap (zrepeat (bm_len b)) (bm_len b) 0.

Definition bitmap_test_bit (b : bitmap) (n : Z) : bool :=
  if bm_top b >=? bm_len b then false
  else if (bm_len b =? 0) || (n / BITMAP_BITS >? bm_top b) then false
  else Z.land (Z.shiftr (znth (bm_d b) (n / BITMAP_BITS)) (Z.land n BITMAP_WMASK)) 1 =? 1.

(** [reserve]; the result is false for the return value -1.  recallocarray only
    grows the array here, and fills it up with zero words. *)
Definition reserve `{Allocator} (b : bitmap) (n : Z) : bool * bitmap :=
  if (bm_top b >=? bm_len b) || (n >? BITMAP_MAX) then (false, b)
  else
    let nlen := n / BITMAP_BITS + 1 in
    if bm_len b <? nlen then
      if malloc_ok (nlen * BITMAP_BYTES)
      then (true, mk_bitmap (bm_d b ++ zrepeat (nlen - bm_len b)) nlen (bm_top b))
      else (false, b)
    else (true, b).

Definition bitmap_set_bit `{Allocator} (b : bitmap) (n : Z) : bool * bitmap :=
  let '(r, b) := reserve b n in
  if negb r then (r, b)
  else
    let offset := n / BITMAP_BITS in
    let top := if offset >? bm_top b then offset else bm_top b in
    (true, mk_bitmap
             (zset (bm_d b) offset
                (Z.lor (znth (bm_d b) offset) (u32 (Z.shiftl 1 (Z.land n BITMAP_WMASK)))))
             (bm_len b) top).

(** [while (b->top > 0 && b->d[b->top] == 0) b->top--] *)
Fixpoint retop_loop (fuel : nat) (d : list Z) (top : Z) : Z :=
  match fuel with
  | O => top
  | S fuel => if (top >? 0) && (znth d top =? 0) then retop_loop fuel d (top - 1) else top
  end.

Definition retop (b : bitmap) : bitmap :=
  if bm_top b >=? bm_len b then b
  else mk_bitmap (bm_d b) (bm_len b) (retop_loop (Z.to_nat (bm_top b)) (bm_d b) (bm_top b)).

Definition bitmap_clear_bit (b : bitmap) (n : Z) : bitmap :=
  if (bm_top b >=? bm_len b) || (n >? BITMAP_MAX) then b
  else
    let offset := n / BITMAP_BITS in
    if offset >? bm_top b then b
    else
      retop (mk_bitmap
        (zset (bm_d b) offset
           (Z.land (znth (bm_d b) offset)
              (Z.lxor (u32 (Z.shiftl 1 (Z.land n BITMAP_WMASK))) (2 ^ 32 - 1))))
        (bm_len b) (bm_top b)).

(** The search for the most significant bit set in [w]. *)
Fixpoint msb_loop (fuel : nat) (w bits : Z) : Z :=
  match fuel with
  | O => bits
  | S fuel =>
      if Z.land w (Z.shiftl 1 (BITMAP_BITS - 1)) =? 0
      then msb_loop fuel (u32 (Z.shiftl w 1)) (bits - 1)
      else bits
  end.

(** [bitmap_nbits] also moves [top]. *)
Definition bitmap_nbits (b : bitmap) : Z * bitmap :=
  let b := retop b in
  if bm_top b >=? bm_len b then (0, b)
  else if (bm_len b =? 0) || ((bm_top b =? 0) && (znth (bm_d b) 0 =? 0)) then (0, b)
  else (msb_loop 32 (znth (bm_d b) (bm_top b)) ((bm_top b + 1) * BITMAP_BITS), b).

Definition bitmap_nbytes (b : bitmap) : Z * bitmap :=
  let '(n, b) := bitmap_nbits b in ((n + 7) / 8, b).

(** The inner loop of [bitmap_to_string] over the bytes of one word: [n] rounds
    left, byte [j] next. *)
Fixpoint to_string_word (n : nat) (w j need l k : Z) (s : list Z) : Z * list Z :=
  match n with
  | O => (k, s)
  | S n =>
      if k >=? l then (k, s)
      else to_string_word n w (j + 1) need l (k + 1)
             (zset s (need - 1 - k) (Z.land (Z.shiftr w (j * 8)) 255))
  end.

Fixpoint to_string_loop (ws : list Z) (need l k : Z) (s : list Z) : list Z :=
  match ws with
  | [] => s
  | w :: ws =>
      let '(k, s) := to_string_word 4 w 0 need l k s in to_string_loop ws need l k s
  end.

(** [bitmap_to_string(b, p, l)]: [p] is the caller's memory of [l] bytes; [None]
    is the return value -1. *)
Definition bitmap_to_string (b : bitmap) (p : list Z) : option (list Z) * bitmap :=
  let '(need, b) := bitmap_nbytes b in
  let l := zlen p in
  if (l <? need) || (bm_top b >=? bm_len b) then (None, b)
  else
    let l := if l >? need then need else l in
    (Some (to_string_loop (ztake (bm_top b + 1) (bm_d b)) need l 0 p), b).

Fixpoint from_string_loop (s : list Z) (offset shift : Z) (ws : list Z) : list Z :=
  match s with
  | [] => ws
  | c :: s =>
      let ws := zset ws offset (Z.lor (znth ws offset) (u32 (Z.shiftl c shift))) in
      if shift =? 0 then from_string_loop s (u64 (offset - 1)) (BITMAP_BITS - 8) ws
      else from_string_loop s offset (shift - 8) ws
  end.

Definition bitmap_from_string `{Allocator} (b : bitmap) (s : list Z) : bool * bitmap :=
  let l := zlen s in
  if l >? BITMAP_MAX / 8 then (false, b)
  else
    let '(r, b) := reserve b (l * 8) in
    if negb r then (r, b)
    else
      let b := bitmap_zero b in
      if l =? 0 then (true, b)
      else
        let offset := (l + (BITMAP_BYTES - 1)) / BITMAP_BYTES - 1 in
        let shift := ((l + (BITMAP_BYTES - 1)) mod BITMAP_BYTES) * 8 in
        (true, retop (mk_bitmap (from_string_loop s offset shift (bm_d b)) (bm_len b) offset)).

(** * The number a bitmap stands for *)

Definition word32 (w : Z) : Prop := 0 <= w < 2 ^ 32.

(** Words above [top] are zero. *)
Definition bitmap_wf (b : bitmap) : Prop :=
  zlen (bm_d b) = bm_len b /\ 0 <= bm_top b < bm_len b /\ bm_len b <= BITMAP_MAX / BITMAP_BITS + 1 /\
  Forall word32 (bm_d b) /\ forall i, bm_top b < i -> znth (bm_d b) i = 0.

Definition bitmap_value (b : bitmap) : Z := little_endian_to_Z 32 (bm_d b).

(** Bits of a little-endian list of digits. *)
Lemma le_testbit n bs i :
  0 < n -> Forall (fun b => 0 <= b < 2 ^ n) bs -> 0 <= i ->
  Z.testbit (little_endian_to_Z n bs) i = Z.testbit (znth bs (i / n)) (i mod n).
Proof.
  intros Hn Hbs. revert i. induction Hbs as [|b bs Hb Hbs IH]; intros i Hi; cbn [little_endian_to_Z].
  { rewrite znth_out; [by rewrite !Z.bits_0|]. rewrite zlen_nil. by apply Z.div_pos. }
  rewrite Z.lor_spec, Z.shiftl_spec by done. destruct (decide (i < n)) as [Hlt|Hge].
  - rewrite Z.div_small, Z.mod_small by lia. rewrite (Z.testbit_neg_r _ (i - n)) by lia.
    rewrite orb_false_r. done.
  - rewrite IH by lia. replace (Z.testbit b i) with false.
    2: { symmetry. eapply (proj1 (Z.bounded_iff_bits_nonneg' n b ltac:(lia) ltac:(lia))); lia. }
    cbn [orb]. replace i with ((i - n) + 1 * n) at 3 4 by lia.
    rewrite Z.div_add, Z.mod_add by lia. rewrite znth_cons by (pose proof (Z.div_pos (i - n) n); lia).
    do 2 f_equal. lia.
Qed.

Lemma bitmap_testbit b n :
  bitmap_wf b -> 0 <= n ->
  Z.testbit (bitmap_value b) n = Z.testbit (znth (bm_d b) (n / 32)) (n mod 32).
Proof. intros (_ & _ & _ & Hw & _) Hn. by apply le_testbit. Qed.

Lemma land_wmask n : Z.land n BITMAP_WMASK = n mod 32.
Proof. change BITMAP_WMASK with (Z.ones 5). by rewrite Z.land_ones. Qed.

Lemma u32_bit k : 0 <= k < 32 -> u32 (Z.shiftl 1 k) = 2 ^ k.
Proof.
  intros Hk. rewrite Z.shiftl_1_l. apply u32_small. split; [apply Z.pow_nonneg; lia|].
  apply Z.pow_lt_mono_r; lia.
Qed.

Lemma mod32_range n : 0 <= n mod 32 < 32.
Proof. apply Z.mod_pos_bound. lia. Qed.

Lemma word32_bits w : 0 <= w -> (forall t, 32 <= t -> Z.testbit w t = false) <-> w < 2 ^ 32.
Proof.
  intros Hw. split.
  - intros Ht. eapply (proj2 (Z.bounded_iff_bits_nonneg' 32 w ltac:(lia) Hw)). intros; apply Ht; lia.
  - intros Hlt t Ht. eapply (proj1 (Z.bounded_iff_bits_nonneg' 32 w ltac:(lia) Hw)); lia.
Qed.

Lemma znth_word32 l i : Forall word32 l -> word32 (znth l i).
Proof.
  intros Hl. unfold znth. destruct (l !! Z.to_nat i) eqn:E; cbn; [|unfold word32; lia].
  exact (Forall_lookup_1 _ _ _ _ Hl E).
Qed.

Lemma zset_word32 l i w : Forall word32 l -> word32 w -> Forall word32 (zset l i w).
Proof. intros Hl Hw. unfold zset. by apply Forall_insert. Qed.

Lemma word32_lor w v : word32 w -> word32 v -> word32 (Z.lor w v).
Proof.
  intros [Hw Hw'] [Hv Hv']. assert (0 <= Z.lor w v) by by apply Z.lor_nonneg.
  split; [done|]. apply word32_bits; [done|]. intros t Ht. rewrite Z.lor_spec.
  by rewrite (proj2 (word32_bits w Hw) Hw'), (proj2 (word32_bits v Hv) Hv').
Qed.

Lemma word32_land_l w v : word32 w -> word32 (Z.land w v).
Proof.
  intros [Hw Hw']. assert (0 <= Z.land w v) by (apply Z.land_nonneg; by left).
  split; [done|]. apply word32_bits; [done|]. intros t Ht. rewrite Z.land_spec.
  by rewrite (proj2 (word32_bits w Hw) Hw').
Qed.

Lemma word32_pow k : 0 <= k < 32 -> word32 (2 ^ k).
Proof. intros Hk. split; [apply Z.pow_nonneg; lia|]. apply Z.pow_lt_mono_r; lia. Qed.

Lemma div32_split n m : n / 32 = m / 32 -> n mod 32 = m mod 32 -> n = m.
Proof. intros Hd Hm. rewrite (Z_div_mod_eq_full n 32), (Z_div_mod_eq_full m 32). congruence. Qed.

Lemma value_nonneg b : bitmap_wf b -> 0 <= bitmap_value b.
Proof. intros (_ & _ & _ & Hw & _). by apply little_endian_to_Z_bound. Qed.

(** The bits above the array are zero. *)
Lemma value_eq_bits b v :
  bitmap_wf b -> 0 <= v ->
  (forall n, 0 <= n -> Z.testbit (znth (bm_d b) (n / 32)) (n mod 32) = Z.testbit v n) ->
  bitmap_value b = v.
Proof.
  intros Hb Hv He. apply Z.bits_inj'. intros n Hn. rewrite bitmap_testbit by done. by apply He.
Qed.

Lemma testbit_land1 x t : 0 <= t -> (Z.land (Z.shiftr x t) 1 =? 1) = Z.testbit x t.
Proof.
  intros Ht. change 1 with (Z.ones 1) at 1. rewrite Z.land_ones by lia.
  change (2 ^ 1) with 2. rewrite <- Z.bit0_mod, Z.shiftr_spec by lia. rewrite Z.add_0_l.
  by destruct (Z.testbit x t).
Qed.

Lemma bitmap_test_bit_spec b n :
  bitmap_wf b -> 0 <= n -> bitmap_test_bit b n = Z.testbit (bitmap_value b) n.
Proof.
  intros Hb Hn. pose proof Hb as (Hl & Ht & Hm & Hw & Hz). unfold bitmap_test_bit.
  destruct (Z.geb_spec (bm_top b) (bm_len b)); [lia|]. destruct (Z.eqb_spec (bm_len b) 0); [lia|].
  rewrite bitmap_testbit by done. change BITMAP_BITS with 32. cbn [orb].
  destruct (Z.gtb_spec (n / 32) (bm_top b)) as [Hgt|Hle].
  - rewrite Hz by lia. by rewrite Z.bits_0.
  - rewrite land_wmask. apply testbit_land1. apply mod32_range.
Qed.

Lemma znth_grow l n i : znth (l ++ zrepeat n) i = znth l i.
Proof.
  destruct (decide (i < zlen l)) as [Hlt|Hge].
  - destruct (decide (0 <= i)); [by rewrite znth_app_l by lia|].
    unfold znth. replace (Z.to_nat i) with 0%nat by lia. destruct l as [|x l]; [|done].
    unfold zlen in Hlt. cbn in Hlt. cbn. change (znth (zrepeat n) 0 = 0). apply znth_zrepeat.
  - rewrite znth_app_r by lia. by rewrite znth_zrepeat, znth_out by lia.
Qed.

Lemma zrepeat_word32 n : Forall word32 (zrepeat n).
Proof. apply Forall_replicate. unfold word32. lia. Qed.

Lemma reserve_spec `{Allocator} b n r b' :
  bitmap_wf b -> 0 <= n -> reserve b n = (r, b') ->
  bitmap_wf b' /\ bitmap_value b' = bitmap_value b /\ bm_top b' = bm_top b /\
  (r = true -> n <= BITMAP_MAX /\ n / 32 < bm_len b').
Proof.
  intros Hb Hn. pose proof Hb as (Hl & Ht & Hm & Hw & Hz). unfold reserve.
  destruct (Z.geb_spec (bm_top b) (bm_len b)); [lia|]. cbn [orb].
  destruct (Z.gtb_spec n BITMAP_MAX) as [Hgt|Hle]; [by intros [= <- <-]|].
  assert (Hd : 0 <= n / 32 <= BITMAP_MAX / 32) by (split; [by apply Z.div_pos|by apply Z.div_le_mono]).
  change BITMAP_BITS with 32. destruct (Z.ltb_spec (bm_len b) (n / 32 + 1)) as [Hlt|Hge].
  2: { intros [= <- <-]. split; [done|]. split; [done|]. split; [done|]. intros _. lia. }
  destruct (malloc_ok _); intros [= <- <-]; [|done].
  assert (Hwf : bitmap_wf (mk_bitmap (bm_d b ++ zrepeat (n / 32 + 1 - bm_len b)) (n / 32 + 1) (bm_top b))).
  { split; [cbn; rewrite zlen_app, zlen_zrepeat; lia|]. cbn. split; [lia|]. split; [change BITMAP_BITS with 32; lia|].
    split; [apply Forall_app; split; [done|apply zrepeat_word32]|].
    intros i Hi. rewrite znth_grow. by apply Hz. }
  split; [done|]. split; [|split; [done|cbn; lia]].
  apply value_eq_bits; [done|by apply value_nonneg|]. intros k Hk.
  rewrite bitmap_testbit by done. cbn. by rewrite znth_grow.
Qed.

(** Writing one word. *)
Lemma value_zset b i w v tp :
  bitmap_wf b -> 0 <= i < bm_len b -> word32 w -> 0 <= v ->
  bm_top b <= tp < bm_len b -> i <= tp ->
  (forall t, 0 <= t < 32 -> Z.testbit w t = Z.testbit v (32 * i + t)) ->
  (forall n, 0 <= n -> n / 32 <> i -> Z.testbit v n = Z.testbit (bitmap_value b) n) ->
  bitmap_wf (mk_bitmap (zset (bm_d b) i w) (bm_len b) tp) /\
  bitmap_value (mk_bitmap (zset (bm_d b) i w) (bm_len b) tp) = v.
Proof.
  intros Hb Hi Hw Hv Htp Hit Hbit Hrest. pose proof Hb as (Hl & Ht & Hm & Hws & Hz).
  assert (Hwf : bitmap_wf (mk_bitmap (zset (bm_d b) i w) (bm_len b) tp)).
  { split; [cbn; by rewrite zlen_zset|]. cbn. split; [lia|]. split; [done|].
    split; [by apply zset_word32|]. intros j Hj. rewrite znth_zset_ne by lia. apply Hz. lia. }
  split; [done|]. apply value_eq_bits; [done|done|]. intros n Hn. cbn.
  pose proof (mod32_range n). pose proof (Z.div_pos n 32). destruct (decide (n / 32 = i)) as [<-|Hne].
  - rewrite znth_zset_eq by lia. rewrite Hbit by done. f_equal. pose proof (Z_div_mod_eq_full n 32). lia.
  - rewrite znth_zset_ne by lia. rewrite Hrest by done. by rewrite bitmap_testbit.
Qed.

Lemma split32 i t : 0 <= t < 32 -> (32 * i + t) / 32 = i /\ (32 * i + t) mod 32 = t.
Proof.
  intros Ht. rewrite (Z.mul_comm 32), Z.div_add_l, (Z.div_small t) by lia.
  rewrite (Z.add_comm (i * 32)), Z.mod_add, Z.mod_small by lia. lia.
Qed.

Lemma bit_of n i t : 0 <= t < 32 -> n / 32 = i -> (32 * i + t =? n) = (t =? n mod 32).
Proof.
  intros Ht <-. pose proof (Z_div_mod_eq_full n 32).
  destruct (Z.eqb_spec t (n mod 32)), (Z.eqb_spec (32 * (n / 32) + t) n); lia.
Qed.

Lemma bitmap_set_bit_spec `{Allocator} b n r b' :
  bitmap_wf b -> 0 <= n -> bitmap_set_bit b n = (r, b') ->
  bitmap_wf b' /\
  bitmap_value b' = (if r then Z.setbit (bitmap_value b) n else bitmap_value b) /\
  (r = true -> n <= BITMAP_MAX).
Proof.
  intros Hb Hn. unfold bitmap_set_bit. destruct (reserve b n) as [r1 b1] eqn:Er.
  destruct (reserve_spec _ _ _ _ Hb Hn Er) as (Hb1 & Hv & Ht & Hr).
  destruct r1; cbn [negb]; [|by intros [= <- <-]]. intros [= <- <-].
  destruct (Hr eq_refl) as [Hmax Hlen]. pose proof Hb1 as (Hl & Htop & _ & Hws & _).
  rewrite land_wmask, u32_bit by apply mod32_range. change BITMAP_BITS with 32.
  pose proof (Z.div_pos n 32 Hn ltac:(lia)). pose proof (value_nonneg _ Hb).
  assert (Hset : forall k, 0 <= k ->
    Z.testbit (Z.setbit (bitmap_value b) n) k = (n =? k) || Z.testbit (bitmap_value b) k)
    by (intros; apply Z.setbit_eqb; done).
  destruct (value_zset b1 (n / 32) (Z.lor (znth (bm_d b1) (n / 32)) (2 ^ (n mod 32)))
    (Z.setbit (bitmap_value b) n) (if n / 32 >? bm_top b1 then n / 32 else bm_top b1)) as [Hwf Hval].
  - done.
  - lia.
  - apply word32_lor; [by apply znth_word32|apply word32_pow, mod32_range].
  - unfold Z.setbit. apply Z.lor_nonneg. split; [done|]. rewrite Z.shiftl_1_l. by apply Z.pow_nonneg.
  - destruct (Z.gtb_spec (n / 32) (bm_top b1)); lia.
  - destruct (Z.gtb_spec (n / 32) (bm_top b1)); lia.
  - intros t Hbt. rewrite Hset by lia. rewrite Z.lor_spec, Z.pow2_bits_eqb by apply mod32_range.
    rewrite <- Hv, bitmap_testbit by (done || lia).
    destruct (split32 (n / 32) t Hbt) as [-> ->].
    rewrite orb_comm. f_equal. rewrite (Z.eqb_sym n), (Z.eqb_sym (n mod 32)).
    symmetry. by apply bit_of.
  - intros k Hk Hne. rewrite Hset, Hv by done. destruct (Z.eqb_spec n k); [congruence|done].
  - split; [done|]. by split.
Qed.

(** [retop] leaves the number alone and makes the top word nonzero. *)
Lemma retop_loop_spec ds tp fuel :
  0 <= tp -> (Z.to_nat tp <= fuel)%nat -> (forall i, tp < i -> znth ds i = 0) ->
  let tp' := retop_loop fuel ds tp in
  0 <= tp' <= tp /\ (forall i, tp' < i -> znth ds i = 0) /\ (tp' = 0 \/ znth ds tp' <> 0).
Proof.
  revert tp. induction fuel as [|fuel IH]; intros tp Htp Hf Hz; cbn [retop_loop].
  { split; [lia|]. split; [done|]. left. lia. }
  destruct (Z.gtb_spec tp 0) as [Hgt|Hle]; cbn [andb].
  2: { split; [lia|]. split; [done|]. left. lia. }
  destruct (Z.eqb_spec (znth ds tp) 0) as [E|E].
  2: { split; [lia|]. split; [done|]. by right. }
  destruct (IH (tp - 1)) as (H1 & H2 & H3); [lia|lia| |by split; [lia|]].
  intros i Hi. destruct (decide (i = tp)) as [->|]; [done|]. apply Hz. lia.
Qed.

Lemma retop_spec b :
  bitmap_wf b ->
  bitmap_wf (retop b) /\ bitmap_value (retop b) = bitmap_value b /\
  (bm_top (retop b) = 0 \/ znth (bm_d (retop b)) (bm_top (retop b)) <> 0).
Proof.
  intros Hb. pose proof Hb as (Hl & Ht & Hm & Hw & Hz). unfold retop.
  destruct (Z.geb_spec (bm_top b) (bm_len b)); [lia|].
  destruct (retop_loop_spec (bm_d b) (bm_top b) (Z.to_nat (bm_top b))) as (H1 & H2 & H3); [lia|lia|done|].
  cbn. split; [|split; [done|done]]. split; [done|]. cbn. split; [lia|]. done.
Qed.

Lemma bitmap_clear_bit_spec b n :
  bitmap_wf b -> 0 <= n <= BITMAP_MAX ->
  bitmap_wf (bitmap_clear_bit b n) /\
  bitmap_value (bitmap_clear_bit b n) = Z.clearbit (bitmap_value b) n.
Proof.
  intros Hb Hn. pose proof Hb as (Hl & Ht & Hm & Hw & Hz). unfold bitmap_clear_bit.
  destruct (Z.geb_spec (bm_top b) (bm_len b)); [lia|]. destruct (Z.gtb_spec n BITMAP_MAX); [lia|].
  cbn [orb]. change BITMAP_BITS with 32. pose proof (value_nonneg _ Hb) as Hv.
  pose proof (Z.div_pos n 32 ltac:(lia) ltac:(lia)).
  assert (Hclr : forall k, 0 <= k ->
    Z.testbit (Z.clearbit (bitmap_value b) n) k = Z.testbit (bitmap_value b) k && negb (n =? k))
    by (intros; apply Z.clearbit_eqb; done).
  destruct (Z.gtb_spec (n / 32) (bm_top b)) as [Hgt|Hle].
  { split; [done|]. apply Z.bits_inj'. intros k Hk. rewrite Hclr by done.
    destruct (Z.eqb_spec n k) as [<-|]; [|by rewrite andb_true_r]. rewrite bitmap_testbit by (done || lia).
    rewrite Hz by lia. by rewrite Z.bits_0. }
  rewrite land_wmask, u32_bit by apply mod32_range.
  destruct (value_zset b (n / 32) (Z.land (znth (bm_d b) (n / 32)) (Z.lxor (2 ^ (n mod 32)) (2 ^ 32 - 1)))
    (Z.clearbit (bitmap_value b) n) (bm_top b)) as [Hwf Hval]; [done|lia| | |lia|lia| | |].
  - apply word32_land_l. by apply znth_word32.
  - unfold Z.clearbit. apply Z.ldiff_nonneg. by left.
  - intros t Hbt. rewrite Hclr by lia. rewrite Z.land_spec, Z.lxor_spec, Z.pow2_bits_eqb by apply mod32_range.
    rewrite bitmap_testbit by (done || lia). destruct (split32 (n / 32) t Hbt) as [-> ->].
    f_equal. change (2 ^ 32 - 1) with (Z.ones 32). rewrite Z.testbit_ones_nonneg by lia.
    rewrite (proj2 (Z.ltb_lt t 32)) by lia. rewrite xorb_true_r. f_equal.
    rewrite (Z.eqb_sym n), (Z.eqb_sym (n mod 32)). symmetry. by apply bit_of.
  - intros k Hk Hne. rewrite Hclr by done. destruct (Z.eqb_spec n k); [congruence|apply andb_true_r].
  - destruct (retop_spec _ Hwf) as (Hr1 & Hr2 & _). split; [done|congruence].
Qed.

Lemma msb_loop_spec fuel w bits :
  word32 w -> w <> 0 -> 31 - Z.log2 w < Z.of_nat fuel ->
  msb_loop fuel w bits = bits - (31 - Z.log2 w).
Proof.
  revert w bits. induction fuel as [|fuel IH]; intros w bits [Hw Hw'] Hnz Hf; cbn [msb_loop].
  { assert (Z.log2 w < 32) by (apply Z.log2_lt_pow2; lia). lia. }
  assert (Hlog : 0 <= Z.log2 w < 32) by (split; [apply Z.log2_nonneg|apply Z.log2_lt_pow2; lia]).
  assert (Htest : (Z.land w (Z.shiftl 1 (BITMAP_BITS - 1)) =? 0) = negb (Z.testbit w 31)).
  { change (Z.shiftl 1 (BITMAP_BITS - 1)) with (2 ^ 31). destruct (Z.eqb_spec (Z.land w (2 ^ 31)) 0) as [E|E].
    - assert (Ht : Z.testbit (Z.land w (2 ^ 31)) 31 = false) by by rewrite E, Z.bits_0.
      rewrite Z.land_spec, Z.pow2_bits_true, andb_true_r in Ht by lia. by rewrite Ht.
    - destruct (Z.testbit w 31) eqn:T; [done|]. exfalso. apply E. apply Z.bits_inj'. intros k Hk.
      rewrite Z.land_spec, Z.pow2_bits_eqb, Z.bits_0 by lia.
      destruct (Z.eqb_spec 31 k) as [<-|]; [by rewrite T|apply andb_false_r]. }
  rewrite Htest. destruct (Z.testbit w 31) eqn:T; cbn [negb].
  - assert (~ Z.log2 w < 31); [|lia]. intros Hlt. by rewrite Z.bits_above_log2 in T by lia.
  - assert (Hl31 : Z.log2 w <> 31).
    { intros E. pose proof (Z.bit_log2 w ltac:(lia)) as Hb. rewrite E in Hb. congruence. }
    assert (Hsh : u32 (Z.shiftl w 1) = w * 2).
    { rewrite Z.shiftl_mul_pow2 by lia. apply u32_small.
      assert (w < 2 ^ 31) by (apply Z.log2_lt_pow2; lia). lia. }
    rewrite Hsh. assert (Hd : Z.log2 (w * 2) = Z.log2 w + 1) by (rewrite Z.mul_comm; apply Z.log2_double; lia).
    rewrite IH; [lia| |lia|lia]. assert (w < 2 ^ 31) by (apply Z.log2_lt_pow2; lia).
    unfold word32. lia.
Qed.

(** Number of significant bits. *)
Definition nbits (v : Z) : Z := if v =? 0 then 0 else Z.log2 v + 1.

Lemma bitmap_nbits_spec b :
  bitmap_wf b ->
  exists b', bitmap_nbits b = (nbits (bitmap_value b), b') /\
    bitmap_wf b' /\ bitmap_value b' = bitmap_value b /\ bm_len b' = bm_len b.
Proof.
  intros Hb. unfold bitmap_nbits. destruct (retop_spec b Hb) as (Hwf & Hv & Htop).
  assert (Hlen : bm_len (retop b) = bm_len b) by (unfold retop; by destruct (_ >=? _)).
  remember (retop b) as b' eqn:E. clear E. exists b'.
  pose proof Hwf as (Hl & Ht & Hm & Hw & Hz). rewrite <- Hv. clear Hv.
  destruct (Z.geb_spec (bm_top b') (bm_len b')); [lia|]. destruct (Z.eqb_spec (bm_len b') 0); [lia|].
  cbn [orb]. assert (Hb0 : forall n, 0 <= n -> bm_top b' < n / 32 -> Z.testbit (bitmap_value b') n = false).
  { intros n1 Hn1 Hgt. rewrite bitmap_testbit by done. rewrite Hz by done. apply Z.bits_0. }
  destruct (decide (znth (bm_d b') (bm_top b') = 0)) as [E0|Hnz].
  - destruct Htop as [Et|]; [|done]. rewrite Et in *. rewrite E0. cbn [Z.eqb andb]. split; [|done].
    assert (bitmap_value b' = 0) as ->; [|done]. apply Z.bits_inj'. intros k Hk.
    rewrite Z.bits_0. destruct (decide (0 < k / 32)); [by apply Hb0|].
    rewrite bitmap_testbit by done. replace (k / 32) with 0 by (pose proof (Z.div_pos k 32); lia).
    by rewrite E0, Z.bits_0.
  - assert ((bm_top b' =? 0) && (znth (bm_d b') 0 =? 0) = false) as ->.
    { destruct (Z.eqb_spec (bm_top b') 0) as [Et|]; [|done]. rewrite Et in Hnz. cbn.
      by apply Z.eqb_neq. }
    split; [|done]. f_equal. pose proof (znth_word32 (bm_d b') (bm_top b') Hw) as Hww.
    set (w := znth (bm_d b') (bm_top b')) in *.
    assert (Hlog : 0 <= Z.log2 w < 32)
      by (split; [apply Z.log2_nonneg|apply Z.log2_lt_pow2; unfold word32 in Hww; lia]).
    rewrite msb_loop_spec by (done || lia). change BITMAP_BITS with 32.
    assert (Hv : Z.log2 (bitmap_value b') = 32 * bm_top b' + Z.log2 w).
    { apply Z.log2_bits_unique.
      - rewrite bitmap_testbit by (done || lia).
        destruct (split32 (bm_top b') (Z.log2 w) Hlog) as [-> ->]. apply Z.bit_log2. unfold word32 in Hww. lia.
      - intros m Hmg. destruct (decide (bm_top b' < m / 32)) as [Hd|Hd]; [apply Hb0; [lia|done]|].
        rewrite bitmap_testbit by (done || lia).
        assert (m / 32 = bm_top b') as Em.
        { apply Z.le_antisymm; [lia|]. apply Z.div_le_lower_bound; lia. }
        rewrite Em. fold w. apply Z.bits_above_log2; [unfold word32 in Hww; lia|].
        pose proof (Z_div_mod_eq_full m 32). lia. }
    unfold nbits. destruct (Z.eqb_spec (bitmap_value b') 0) as [E|]; [|lia].
    exfalso. rewrite E in Hv. cbn in Hv. assert (Hlt : bm_top b' = 0 /\ Z.log2 w = 0) by lia.
    destruct Hlt as [Et El]. pose proof (bitmap_testbit b' 0 Hwf ltac:(lia)) as Hbit.
    rewrite E, Z.bits_0 in Hbit. change (0 / 32) with 0 in Hbit. change (0 mod 32) with 0 in Hbit.
    subst w. rewrite Et in *. rewrite <- El in Hbit at 2. rewrite Z.bit_log2 in Hbit; [done|].
    unfold word32 in Hww. lia.
Qed.

(** * Strings *)

(** Byte [q] of a number, from the least significant. *)
Definition byte_of (v q : Z) : Z := Z.land (Z.shiftr v (8 * q)) 255.

Lemma byte_of_testbit v q t : 0 <= q -> 0 <= t -> Z.testbit (byte_of v q) t = Z.testbit v (8 * q + t) && (t <? 8).
Proof.
  intros Hq Ht. unfold byte_of. rewrite Z.land_spec, Z.shiftr_spec by done.
  change 255 with (Z.ones 8). rewrite Z.testbit_ones_nonneg by lia. f_equal. f_equal. lia.
Qed.

Lemma word_byte b i j :
  bitmap_wf b -> 0 <= i -> 0 <= j < 4 ->
  Z.land (Z.shiftr (znth (bm_d b) i) (j * 8)) 255 = byte_of (bitmap_value b) (4 * i + j).
Proof.
  intros Hb Hi Hj. rewrite (Z.mul_comm j). change (byte_of (znth (bm_d b) i) j = byte_of (bitmap_value b) (4 * i + j)).
  apply Z.bits_inj'. intros t Ht. rewrite !byte_of_testbit by lia.
  destruct (Z.ltb_spec t 8); [|by rewrite !andb_false_r]. rewrite !andb_true_r.
  rewrite bitmap_testbit by (done || lia).
  replace (8 * (4 * i + j) + t) with (32 * i + (8 * j + t)) by lia.
  by destruct (split32 i (8 * j + t) ltac:(lia)) as [-> ->].
Qed.

Section to_string.
Context (v need : Z) (p : list Z) (Hneed : 0 <= need <= zlen p).

(** The last [k] bytes of the result are in place. *)
Definition filled (k : Z) (s : list Z) : Prop :=
  zlen s = zlen p /\ (forall q, 0 <= q < k -> znth s (need - 1 - q) = byte_of v q) /\
  (forall i, need <= i -> znth s i = znth p i).

Lemma filled_step k s :
  0 <= k < need -> filled k s -> filled (k + 1) (zset s (need - 1 - k) (byte_of v k)).
Proof.
  intros Hk (Hl & Hq & Hi). split; [by rewrite zlen_zset|]. split.
  - intros q Hr. destruct (decide (q = k)) as [->|Hne]; [by rewrite znth_zset_eq by lia|].
    rewrite znth_zset_ne by lia. apply Hq. lia.
  - intros i Hr. rewrite znth_zset_ne by lia. by apply Hi.
Qed.

Lemma to_string_word_spec n w i k s :
  0 <= i -> (n <= 4)%nat ->
  (forall j, 0 <= j < 4 -> Z.land (Z.shiftr w (j * 8)) 255 = byte_of v (4 * i + j)) ->
  0 <= k <= need -> (k < need -> k = 4 * i + (4 - Z.of_nat n)) -> filled k s ->
  let '(k', s') := to_string_word n w (4 - Z.of_nat n) need need k s in
  0 <= k' <= need /\ (k' < need -> k' = 4 * (i + 1)) /\ filled k' s'.
Proof.
  intros Hi Hn Hw. revert k s Hn. induction n as [|n IH]; intros k s Hn Hk Hki Hf; cbn [to_string_word].
  { split; [done|]. split; [|done]. lia. }
  destruct (Z.geb_spec k need) as [Hge|Hlt]; [split; [done|]; split; [lia|done]|].
  replace (4 - Z.of_nat (S n) + 1) with (4 - Z.of_nat n) by lia.
  rewrite Hw by lia. replace (4 * i + (4 - Z.of_nat (S n))) with k by lia.
  apply IH; [lia|lia|lia|]. apply filled_step; [lia|done].
Qed.

Lemma to_string_loop_spec ws i k s :
  0 <= i ->
  (forall o j, 0 <= o < zlen ws -> 0 <= j < 4 ->
     Z.land (Z.shiftr (znth ws o) (j * 8)) 255 = byte_of v (4 * (i + o) + j)) ->
  0 <= k <= need -> (k < need -> k = 4 * i) -> filled k s -> need <= 4 * (i + zlen ws) ->
  filled need (to_string_loop ws need need k s).
Proof.
  revert i k s. induction ws as [|w ws IH]; intros i k s Hi Hw Hk Hki Hf Hn; cbn [to_string_loop].
  { rewrite zlen_nil in Hn. assert (need = k) as -> by lia. done. }
  pose proof (to_string_word_spec 4 w i k s Hi ltac:(lia)) as Hs. cbn [Z.of_nat Pos.of_succ_nat] in Hs.
  change (4 - Z.of_nat 4) with 0 in Hs. rewrite zlen_cons in *. pose proof (zlen_nonneg ws).
  destruct (to_string_word 4 w 0 need need k s) as [k' s'].
  destruct Hs as (Hk' & Hki' & Hf').
  - intros j Hj. specialize (Hw 0 j ltac:(lia) Hj). by rewrite Z.add_0_r in Hw.
  - done.
  - lia.
  - done.
  - apply (IH (i + 1)); [lia| |done|done|done|lia].
    intros o j Ho Hj. specialize (Hw (o + 1) j ltac:(lia) Hj).
    rewrite znth_cons in Hw by lia. replace (o + 1 - 1) with o in Hw by lia. rewrite Hw. f_equal. lia.
Qed.

End to_string.

(** The big-endian bytes of [v], as many as needed. *)
Definition nbytes (v : Z) : Z := (nbits v + 7) / 8.
Definition to_bytes (v : Z) : list Z := rev (Z_to_little_endian (nbytes v) 8 v).

Lemma nbits_nonneg v : 0 <= nbits v.
Proof. unfold nbits. destruct (v =? 0); [done|]. pose proof (Z.log2_nonneg v). lia. Qed.

Lemma nbytes_nonneg v : 0 <= nbytes v.
Proof. pose proof (nbits_nonneg v). apply Z.div_pos; lia. Qed.

Lemma zlen_to_bytes v : zlen (to_bytes v) = nbytes v.
Proof.
  unfold to_bytes. rewrite zlen_rev. unfold zlen. apply length_Z_to_little_endian. apply nbytes_nonneg.
Qed.

Lemma znth_to_bytes v q : 0 <= q < nbytes v -> znth (to_bytes v) (nbytes v - 1 - q) = byte_of v q.
Proof.
  intros Hq. pose proof (zlen_to_bytes v) as Hl. unfold to_bytes in *. rewrite zlen_rev in Hl.
  rewrite znth_rev by lia. rewrite Hl. replace (nbytes v - 1 - (nbytes v - 1 - q)) with q by lia.
  unfold znth. destruct (_ !! Z.to_nat q) as [x|] eqn:E.
  - apply Z_to_little_endian_lookup_Some in E as [_ ->]; [|lia..]. cbn. unfold byte_of.
    do 2 f_equal. lia.
  - apply lookup_ge_None in E. unfold zlen in Hl. lia.
Qed.

Lemma nbits_top b : bitmap_wf b -> nbits (bitmap_value b) <= 32 * (bm_top b + 1).
Proof.
  intros Hb. pose proof Hb as (_ & Ht & _ & _ & Hz). unfold nbits.
  destruct (Z.eqb_spec (bitmap_value b) 0) as [|Hnz]; [lia|].
  pose proof (value_nonneg _ Hb). pose proof (Z.log2_nonneg (bitmap_value b)).
  pose proof (Z.bit_log2 (bitmap_value b) ltac:(lia)) as Hbit.
  destruct (decide (32 * (bm_top b + 1) <= Z.log2 (bitmap_value b))) as [Hge|]; [|lia].
  rewrite bitmap_testbit, Hz, Z.bits_0 in Hbit; [done| |done|done].
  apply Z.lt_le_trans with (bm_top b + 1); [lia|]. apply Z.div_le_lower_bound; lia.
Qed.

Lemma bitmap_to_string_spec b p :
  bitmap_wf b ->
  let v := bitmap_value b in
  exists b', bitmap_wf b' /\ bitmap_value b' = v /\
    bitmap_to_string b p =
      (if zlen p <? nbytes v then None else Some (to_bytes v ++ zdrop (nbytes v) p), b').
Proof.
  intros Hb v. destruct (bitmap_nbits_spec b Hb) as (b' & Hn & Hb' & Hv' & _).
  exists b'. split; [done|]. split; [done|]. unfold bitmap_to_string, bitmap_nbytes. rewrite Hn.
  fold v. change ((nbits v + 7) / 8) with (nbytes v).
  pose proof Hb' as (Hl & Ht & _ & _ & _). destruct (Z.geb_spec (bm_top b') (bm_len b')); [lia|].
  rewrite orb_false_r. destruct (Z.ltb_spec (zlen p) (nbytes v)) as [|Hge]; [done|]. do 2 f_equal.
  assert ((if zlen p >? nbytes v then nbytes v else zlen p) = nbytes v) as ->.
  { destruct (Z.gtb_spec (zlen p) (nbytes v)); lia. }
  pose proof (nbytes_nonneg v) as Hnn.
  assert (Hf : filled v (nbytes v) p (nbytes v)
    (to_string_loop (ztake (bm_top b' + 1) (bm_d b')) (nbytes v) (nbytes v) 0 p)).
  { apply (to_string_loop_spec v (nbytes v) p ltac:(lia) _ 0); [lia| |lia|lia| |].
    - rewrite zlen_ztake by lia. intros o j Ho Hj.
      assert (znth (ztake (bm_top b' + 1) (bm_d b')) o = znth (bm_d b') o) as ->.
      { rewrite <- (ztake_zdrop (bm_top b' + 1) (bm_d b')) at 2.
        rewrite znth_app_l; [done|]. rewrite zlen_ztake; lia. }
      rewrite word_byte by (done || lia). by rewrite Hv'.
    - split; [done|]. split; [lia|done].
    - rewrite zlen_ztake by lia. pose proof (nbits_top b' Hb') as Htop. rewrite Hv' in Htop. fold v in Htop.
      unfold nbytes.
      apply Z.lt_succ_r, Z.div_lt_upper_bound; lia. }
  destruct Hf as (Hlen & Hq & Hi). apply znth_ext.
  - rewrite Hlen, zlen_app, zlen_to_bytes, zlen_zdrop by lia. lia.
  - intros i Hr. destruct (decide (i < nbytes v)) as [Hlt|Hge'].
    + rewrite znth_app_l by (rewrite zlen_to_bytes; lia).
      replace i with (nbytes v - 1 - (nbytes v - 1 - i)) by lia. rewrite Hq, znth_to_bytes by lia. done.
    + rewrite Hi, znth_app_r by (rewrite ?zlen_to_bytes; lia). rewrite zlen_to_bytes, znth_zdrop by lia.
      f_equal. lia.
Qed.

Definition is_byte (c : Z) : Prop := 0 <= c < 2 ^ 8.

(** Bit [n] of an array of words. *)
Definition words_bit (ws : list Z) (n : Z) : bool := Z.testbit (znth ws (n / 32)) (n mod 32).

Lemma split8 q t : 0 <= t < 8 -> (8 * q + t) / 8 = q /\ (8 * q + t) mod 8 = t.
Proof.
  intros Ht. rewrite (Z.mul_comm 8), Z.div_add_l, (Z.div_small t) by lia.
  rewrite (Z.add_comm (q * 8)), Z.mod_add, Z.mod_small by lia. lia.
Qed.

(** Position of byte [q] in the array. *)
Lemma byte_pos q n :
  0 <= q -> 0 <= n ->
  (n / 8 = q <-> n / 32 = q / 4 /\ 8 * (q mod 4) <= n mod 32 < 8 * (q mod 4) + 8).
Proof.
  intros Hq Hn. pose proof (Z_div_mod_eq_full n 32). pose proof (mod32_range n).
  pose proof (Z_div_mod_eq_full n 8). pose proof (Z.mod_pos_bound n 8 ltac:(lia)).
  pose proof (Z_div_mod_eq_full q 4). pose proof (Z.mod_pos_bound q 4 ltac:(lia)). split; lia.
Qed.

(** Or-ing a byte into its place. *)
Lemma place_byte ws c q :
  0 <= q -> q / 4 < zlen ws -> Forall word32 ws -> is_byte c ->
  let ws' := zset ws (q / 4) (Z.lor (znth ws (q / 4)) (u32 (Z.shiftl c (8 * (q mod 4))))) in
  Forall word32 ws' /\
  forall n, 0 <= n ->
    words_bit ws' n = words_bit ws n || (bool_decide (n / 8 = q) && Z.testbit c (n mod 8)).
Proof.
  intros Hq Hlen Hws [Hc Hc']. pose proof (Z.mod_pos_bound q 4 ltac:(lia)) as Hm.
  pose proof (Z.div_pos q 4 Hq ltac:(lia)).
  assert (Hsh : u32 (Z.shiftl c (8 * (q mod 4))) = Z.shiftl c (8 * (q mod 4)) /\
                word32 (Z.shiftl c (8 * (q mod 4)))).
  { rewrite Z.shiftl_mul_pow2 by lia.
    assert (2 ^ (8 * (q mod 4)) <= 2 ^ 24) by (apply Z.pow_le_mono_r; lia).
    assert (0 < 2 ^ (8 * (q mod 4))) by (apply Z.pow_pos_nonneg; lia).
    assert (0 <= c * 2 ^ (8 * (q mod 4)) < 2 ^ 32) by nia. split; [by apply u32_small|done]. }
  destruct Hsh as [-> Hsw]. split.
  { apply zset_word32; [done|]. apply word32_lor; [by apply znth_word32|done]. }
  intros n Hn. unfold words_bit. pose proof (mod32_range n).
  pose proof (byte_pos q n Hq Hn) as Hp. destruct (decide (n / 32 = q / 4)) as [E|E].
  - rewrite E, znth_zset_eq by lia. rewrite Z.lor_spec, Z.shiftl_spec by lia. f_equal.
    destruct (decide (n / 8 = q)) as [Eq|Eq].
    + rewrite bool_decide_eq_true_2 by done. cbn [andb]. f_equal.
      pose proof (Z_div_mod_eq_full n 32). pose proof (Z_div_mod_eq_full n 8). pose proof (Z_div_mod_eq_full q 4). lia.
    + rewrite bool_decide_eq_false_2 by done. cbn [andb].
      destruct (decide (n mod 32 < 8 * (q mod 4))); [apply Z.testbit_neg_r; lia|].
      eapply (proj1 (Z.bounded_iff_bits_nonneg' 8 c ltac:(lia) ltac:(lia))); [lia|].
      destruct (decide (8 <= n mod 32 - 8 * (q mod 4))); [done|]. exfalso. apply Eq, Hp. lia.
  - rewrite znth_zset_ne by (pose proof (Z.div_pos n 32); lia).
    rewrite bool_decide_eq_false_2 by tauto. by rewrite orb_false_r.
Qed.

Lemma from_string_loop_spec s ws :
  Forall is_byte s -> s <> [] -> zlen s <= 2 ^ 32 -> Forall word32 ws -> (zlen s - 1) / 4 < zlen ws ->
  let ws' := from_string_loop s ((zlen s - 1) / 4) (8 * ((zlen s - 1) mod 4)) ws in
  zlen ws' = zlen ws /\ Forall word32 ws' /\
  forall n, 0 <= n -> words_bit ws' n = words_bit ws n || Z.testbit (znth (rev s) (n / 8)) (n mod 8).
Proof.
  intros Hs. revert ws. induction Hs as [|c s Hc Hs IH]; intros ws Hne Hmax Hws Hlen; [done|].
  rewrite zlen_cons in *. replace (1 + zlen s - 1) with (zlen s) in * by lia. pose proof (zlen_nonneg s) as Hs0.
  destruct (place_byte ws c (zlen s) Hs0 Hlen Hws Hc) as [Hw' Hb']. cbn zeta in *. cbn [from_string_loop].
  set (ws1 := zset ws _ _) in *. assert (Hl1 : zlen ws1 = zlen ws) by apply zlen_zset.
  assert (Hrev : forall n, 0 <= n -> Z.testbit (znth (rev (c :: s)) (n / 8)) (n mod 8) =
    (bool_decide (n / 8 = zlen s) && Z.testbit c (n mod 8)) || Z.testbit (znth (rev s) (n / 8)) (n mod 8)).
  { intros n Hn. cbn [rev]. pose proof (Z.div_pos n 8 Hn ltac:(lia)).
    destruct (decide (n / 8 < zlen s)) as [Hlt|Hge].
    - rewrite znth_app_l by (rewrite zlen_rev; lia). rewrite bool_decide_eq_false_2 by lia. done.
    - rewrite znth_app_r by (rewrite zlen_rev; lia). rewrite zlen_rev.
      rewrite (znth_out (rev s)) by (rewrite zlen_rev; lia). rewrite Z.bits_0, orb_false_r.
      destruct (decide (n / 8 = zlen s)) as [->|E]; [rewrite bool_decide_eq_true_2 by done|
        rewrite bool_decide_eq_false_2 by done; rewrite znth_out, Z.bits_0; [done|rewrite zlen_cons, zlen_nil; lia]].
      by rewrite Z.sub_diag. }
  destruct (decide (s = [])) as [->|Hns].
  { rewrite zlen_nil in *. cbn [from_string_loop]. change (8 * (0 mod 4) =? 0) with true. cbn iota.
    split; [done|]. split; [done|]. intros n Hn. rewrite Hb', Hrev by done.
    cbn [rev]. by rewrite znth_out, Z.bits_0, orb_false_r by (rewrite zlen_nil; by apply Z.div_pos). }
  assert (Hpos : 0 < zlen s) by (destruct s; [done|rewrite zlen_cons; pose proof (zlen_nonneg s); lia]).
  assert (Hgoal : (if 8 * (zlen s mod 4) =? 0
      then from_string_loop s (u64 (zlen s / 4 - 1)) (BITMAP_BITS - 8) ws1
      else from_string_loop s (zlen s / 4) (8 * (zlen s mod 4) - 8) ws1) =
    from_string_loop s ((zlen s - 1) / 4) (8 * ((zlen s - 1) mod 4)) ws1).
  { pose proof (Z_div_mod_eq_full (zlen s) 4). pose proof (Z.mod_pos_bound (zlen s) 4 ltac:(lia)).
    pose proof (Z_div_mod_eq_full (zlen s - 1) 4). pose proof (Z.mod_pos_bound (zlen s - 1) 4 ltac:(lia)).
    destruct (Z.eqb_spec (8 * (zlen s mod 4)) 0).
    - rewrite u64_small by lia. change (BITMAP_BITS - 8) with 24. f_equal; lia.
    - f_equal; lia. }
  rewrite Hgoal. destruct (IH ws1 Hns ltac:(lia) Hw') as (R1 & R2 & R3).
  { rewrite Hl1. apply Z.le_lt_trans with (zlen s / 4); [|done]. apply Z.div_le_mono; lia. }
  split; [lia|]. split; [done|]. intros n Hn. rewrite R3, Hb', Hrev by done.
  by rewrite orb_assoc.
Qed.

(** Big-endian value of a string. *)
Definition of_bytes (s : list Z) : Z := little_endian_to_Z 8 (rev s).

Lemma bitmap_zero_spec b : bitmap_wf b -> bitmap_wf (bitmap_zero b) /\ bitmap_value (bitmap_zero b) = 0.
Proof.
  intros (Hl & Ht & Hm & Hw & Hz).
  assert (Hwf : bitmap_wf (bitmap_zero b)).
  { split; [cbn; apply zlen_zrepeat; lia|]. cbn. split; [lia|]. split; [done|].
    split; [apply zrepeat_word32|]. intros i _. apply znth_zrepeat. }
  split; [done|]. apply value_eq_bits; [done|done|]. intros n Hn. cbn.
  by rewrite znth_zrepeat, !Z.bits_0.
Qed.

Lemma bytes_rev_ok s : Forall is_byte s -> Forall is_byte (rev s).
Proof. intros Hs. by apply Forall_rev. Qed.

Lemma bitmap_from_string_spec `{Allocator} b s r b' :
  bitmap_wf b -> Forall is_byte s -> bitmap_from_string b s = (r, b') ->
  bitmap_wf b' /\ bitmap_value b' = (if r then of_bytes s else bitmap_value b).
Proof.
  intros Hb Hs. unfold bitmap_from_string. pose proof (zlen_nonneg s) as Hs0.
  destruct (Z.gtb_spec (zlen s) (BITMAP_MAX / 8)) as [|Hmax]; [by intros [= <- <-]|].
  destruct (reserve b (zlen s * 8)) as [r1 b1] eqn:Er.
  destruct (reserve_spec b (zlen s * 8) _ _ Hb ltac:(lia) Er) as (Hb1 & Hv1 & Ht1 & Hr1).
  destruct r1; cbn [negb]; [|by intros [= <- <-]]. destruct (Hr1 eq_refl) as [_ Hlen].
  destruct (bitmap_zero_spec b1 Hb1) as [Hz Hvz].
  destruct (Z.eqb_spec (zlen s) 0) as [E0|Hne]; intros [= <- <-].
  { split; [done|]. apply zlen_0_nil in E0. by subst s. }
  change (BITMAP_MAX / 8) with 2097152 in Hmax.
  assert (Hoff : (zlen s + (BITMAP_BYTES - 1)) / BITMAP_BYTES - 1 = (zlen s - 1) / 4).
  { change BITMAP_BYTES with 4. replace (zlen s + (4 - 1)) with (zlen s - 1 + 1 * 4) by lia.
    rewrite Z.div_add by lia. lia. }
  assert (Hshift : (zlen s + (BITMAP_BYTES - 1)) mod BITMAP_BYTES * 8 = 8 * ((zlen s - 1) mod 4)).
  { change BITMAP_BYTES with 4. replace (zlen s + (4 - 1)) with (zlen s - 1 + 1 * 4) by lia.
    rewrite Z.mod_add by lia. lia. }
  rewrite Hoff, Hshift. pose proof Hz as (Hzl & _ & Hzm & Hzw & _).
  assert (Hlt : (zlen s - 1) / 4 < bm_len (bitmap_zero b1)).
  { cbn. apply Z.le_lt_trans with (zlen s * 8 / 32); [|done].
    change 32 with (8 * 4). rewrite (Z.mul_comm (zlen s)), Z.div_mul_cancel_l by lia.
    apply Z.div_le_mono; lia. }
  destruct (from_string_loop_spec s (bm_d (bitmap_zero b1)) Hs) as (Fl & Fw & Fb);
    [by intros ->|lia|done|by rewrite Hzl|].
  set (ws := from_string_loop s _ _ _) in *.
  assert (Hbits : forall n, 0 <= n -> words_bit ws n = Z.testbit (of_bytes s) n).
  { intros n Hn. rewrite Fb by done. unfold of_bytes. rewrite le_testbit by (done || lia || by apply bytes_rev_ok).
    unfold words_bit. cbn. by rewrite znth_zrepeat, Z.bits_0. }
  assert (Hwf : bitmap_wf (mk_bitmap ws (bm_len (bitmap_zero b1)) ((zlen s - 1) / 4))).
  { split; [cbn; by rewrite Fl|]. cbn -[ws]. split; [split; [apply Z.div_pos; lia|done]|]. split; [done|].
    split; [done|]. intros i Hi. apply Z.bits_inj'. intros t Ht. rewrite Z.bits_0.
    destruct (decide (t < 32)) as [Hlt32|Hge].
    2: { pose proof (znth_word32 ws i Fw) as [Hw0 Hw1]. by apply (proj2 (word32_bits _ Hw0)); [|lia]. }
    specialize (Hbits (32 * i + t)). unfold words_bit in Hbits.
    pose proof (Z.div_pos (zlen s - 1) 4).
    destruct (split32 i t ltac:(lia)) as [E1 E2]. rewrite E1, E2 in Hbits. rewrite Hbits by lia.
    unfold of_bytes. rewrite le_testbit by (done || lia || by apply bytes_rev_ok).
    rewrite znth_out; [apply Z.bits_0|]. rewrite zlen_rev.
    apply Z.div_le_lower_bound; [lia|]. pose proof (Z_div_mod_eq_full (zlen s - 1) 4).
    pose proof (Z.mod_pos_bound (zlen s - 1) 4 ltac:(lia)). lia. }
  destruct (retop_spec _ Hwf) as (Hw1 & Hv & _). split; [done|]. cbn [bitmap_zero bm_len] in *. rewrite Hv.
  apply value_eq_bits; [done| |done].
  unfold of_bytes. by apply little_endian_to_Z_bound; [lia|apply bytes_rev_ok].
Qed.

(** * Refinement and round trip *)

Inductive bm_op := BSet (n : Z) | BClear (n : Z) | BTest (n : Z) | BNbits | BZero.
Inductive bm_res := RBool (r : bool) | RNum (n : Z) | RUnit.

Definition run_op `{Allocator} (o : bm_op) (b : bitmap) : bm_res * bitmap :=
  match o with
  | BSet n => let '(r, b) := bitmap_set_bit b n in (RBool r, b)
  | BClear n => (RUnit, bitmap_clear_bit b n)
  | BTest n => (RBool (bitmap_test_bit b n), b)
  | BNbits => let '(n, b) := bitmap_nbits b in (RNum n, b)
  | BZero => (RUnit, bitmap_zero b)
  end.

Fixpoint run_bitmap `{Allocator} (os : list bm_op) (b : bitmap) : list bm_res * bitmap :=
  match os with
  | [] => ([], b)
  | o :: os => let '(r, b) := run_op o b in let '(rs, b) := run_bitmap os b in (r :: rs, b)
  end.

(** The same calls on a number. *)
Definition spec_op (o : bm_op) (v : Z) : bm_res * Z :=
  match o with
  | BSet n => if n <=? BITMAP_MAX then (RBool true, Z.setbit v n) else (RBool false, v)
  | BClear n => (RUnit, if n <=? BITMAP_MAX then Z.clearbit v n else v)
  | BTest n => (RBool (Z.testbit v n), v)
  | BNbits => (RNum (if v =? 0 then 0 else Z.log2 v + 1), v)
  | BZero => (RUnit, 0)
  end.

Fixpoint spec_bitmap (os : list bm_op) (v : Z) : list bm_res * Z :=
  match os with
  | [] => ([], v)
  | o :: os => let '(r, v) := spec_op o v in let '(rs, v) := spec_bitmap os v in (r :: rs, v)
  end.

Definition op_ok (o : bm_op) : Prop :=
  match o with BSet n | BClear n | BTest n => 0 <= n < 2 ^ 32 | _ => True end.

Lemma set_bit_reliable `{Allocator} `{!ReliableAllocator _} b n :
  bitmap_wf b -> fst (bitmap_set_bit b n) = (n <=? BITMAP_MAX).
Proof.
  intros (_ & Ht & _). unfold bitmap_set_bit, reserve.
  destruct (Z.geb_spec (bm_top b) (bm_len b)); [lia|]. cbn [orb].
  destruct (Z.gtb_spec n BITMAP_MAX), (Z.leb_spec n BITMAP_MAX); try lia; [done|].
  destruct (_ <? _); [|done]. by rewrite malloc_reliable.
Qed.

Lemma bitmap_op_refines `{Allocator} `{!ReliableAllocator _} o b :
  bitmap_wf b -> op_ok o ->
  bitmap_wf (snd (run_op o b)) /\
  spec_op o (bitmap_value b) = (fst (run_op o b), bitmap_value (snd (run_op o b))).
Proof.
  intros Hb Ho. destruct o as [n|n|n| |]; cbn [op_ok] in Ho; cbn [run_op spec_op].
  - pose proof (set_bit_reliable b n Hb) as Hr. destruct (bitmap_set_bit b n) as [r b'] eqn:E.
    cbn in Hr |- *. destruct (bitmap_set_bit_spec b n _ _ Hb ltac:(lia) E) as (Hb' & Hv & _).
    rewrite <- Hr. split; [done|]. destruct r; by rewrite Hv.
  - cbn. destruct (Z.leb_spec n BITMAP_MAX) as [Hle|Hgt].
    + destruct (bitmap_clear_bit_spec b n Hb ltac:(lia)) as [Hb' ->]. done.
    + unfold bitmap_clear_bit. destruct (Z.gtb_spec n BITMAP_MAX); [|lia]. by rewrite orb_true_r.
  - cbn. by rewrite bitmap_test_bit_spec by (done || lia).
  - destruct (bitmap_nbits_spec b Hb) as (b' & -> & Hb' & Hv & _). cbn. by rewrite Hv.
  - cbn [fst snd]. destruct (bitmap_zero_spec b Hb) as [Hz ->]. done.
Qed.

(** A bitmap behaves as a number.  Any sequence of set, clear, test, size
    and zero calls on a well-formed bitmap (for bit numbers of type u_int)
    returns what the bit operations on a natural number give, refuses exactly
    the bits above BITMAP_MAX, and preserves the invariant that the words above
    [top] are zero. *)
Theorem bitmap_refines_number `{Allocator} `{!ReliableAllocator _} os b :
  bitmap_wf b -> Forall op_ok os ->
  bitmap_wf (snd (run_bitmap os b)) /\
  spec_bitmap os (bitmap_value b) = (fst (run_bitmap os b), bitmap_value (snd (run_bitmap os b))).
Proof.
  intros Hb Hos. revert b Hb. induction Hos as [|o os Ho Hos IH]; intros b Hb; cbn; [done|].
  destruct (bitmap_op_refines o b Hb Ho) as [Hb1 E]. destruct (run_op o b) as [r b1].
  cbn in Hb1, E. destruct (IH b1 Hb1) as [Hb2 E2]. destruct (run_bitmap os b1) as [rs b2].
  cbn in *. rewrite E, E2. done.
Qed.

Definition demo_bitmap : bitmap := mk_bitmap [0] 1 0.

Lemma demo_bitmap_wf : bitmap_wf demo_bitmap.
Proof.
  split; [done|]. split; [cbn; lia|]. split; [done|].
  split; [constructor; [unfold word32; lia|constructor]|]. intros i Hi.
  cbn [demo_bitmap bm_top] in Hi. apply znth_out. change (zlen (bm_d demo_bitmap)) with 1. lia.
Qed.

Lemma bitmap_refines_number_witness :
  let os := [BSet 70; BSet 3; BTest 70; BNbits; BClear 70; BNbits; BSet (2 ^ 25)] in
  fst (@run_bitmap alloc_all os demo_bitmap) =
    [RBool true; RBool true; RBool true; RNum 71; RUnit; RNum 4; RBool false] /\
  bitmap_wf (snd (@run_bitmap alloc_all os demo_bitmap)).
Proof.
  intros os. split; [vm_compute; reflexivity|].
  apply (@bitmap_refines_number alloc_all alloc_all_reliable os demo_bitmap demo_bitmap_wf).
  repeat (constructor; [cbn; lia || exact I|]). constructor.
Defined.

Lemma of_to_bytes v : 0 <= v -> of_bytes (to_bytes v) = v.
Proof.
  intros Hv. unfold of_bytes, to_bytes. rewrite rev_involutive.
  rewrite little_endian_to_Z_to_little_endian by (lia || apply nbytes_nonneg).
  apply Z.mod_small. split; [done|]. destruct (decide (v = 0)) as [->|Hnz].
  { apply Z.pow_pos_nonneg; [lia|]. pose proof (nbytes_nonneg 0). lia. }
  apply Z.log2_lt_pow2; [lia|]. unfold nbytes, nbits. rewrite (proj2 (Z.eqb_neq _ _) Hnz).
  pose proof (Z_div_mod_eq_full (Z.log2 v + 1 + 7) 8). pose proof (Z.mod_pos_bound (Z.log2 v + 1 + 7) 8). lia.
Qed.

Lemma from_string_reliable `{Allocator} `{!ReliableAllocator _} b s :
  bitmap_wf b -> fst (bitmap_from_string b s) = (zlen s <=? BITMAP_MAX / 8).
Proof.
  intros (_ & Ht & _). unfold bitmap_from_string, reserve.
  destruct (Z.gtb_spec (zlen s) (BITMAP_MAX / 8)) as [Hgt|Hle], (Z.leb_spec (zlen s) (BITMAP_MAX / 8));
    try lia; [done|]. destruct (Z.geb_spec (bm_top b) (bm_len b)); [lia|]. cbn [orb].
  destruct (Z.gtb_spec (zlen s * 8) BITMAP_MAX) as [Hm|Hm].
  { change (BITMAP_MAX / 8) with 2097152 in Hle. change BITMAP_MAX with 16777216 in Hm. lia. }
  destruct (_ <? _); rewrite ?malloc_reliable; cbn [negb]; by destruct (_ =? _).
Qed.

(** Strings.  [bitmap_to_string] fails exactly when the memory is shorter
    than [bitmap_nbytes] and otherwise writes the big-endian bytes of the bitmap
    to its start, leaving the rest alone.  [bitmap_from_string] accepts these
    bytes exactly when they are at most BITMAP_MAX / 8 many (so not when bit
    BITMAP_MAX itself is set), and then gives any other bitmap the same bits. *)
Theorem bitmap_string_roundtrip `{Allocator} `{!ReliableAllocator _} b p b2 :
  bitmap_wf b -> bitmap_wf b2 ->
  let v := bitmap_value b in
  let out := to_bytes v in
  (fst (bitmap_to_string b p) = None <-> zlen p < fst (bitmap_nbytes b)) /\
  (fst (bitmap_nbytes b) <= zlen p ->
     fst (bitmap_to_string b p) = Some (out ++ zdrop (zlen out) p)) /\
  bitmap_value (snd (bitmap_to_string b p)) = v /\
  (fst (bitmap_from_string b2 out) = true <-> zlen out <= BITMAP_MAX / 8) /\
  (zlen out <= BITMAP_MAX / 8 ->
     let b2' := snd (bitmap_from_string b2 out) in
     bitmap_wf b2' /\ forall n, 0 <= n -> bitmap_test_bit b2' n = bitmap_test_bit b n).
Proof.
  intros Hb Hb2 v out. destruct (bitmap_to_string_spec b p Hb) as (b' & Hb' & Hv' & ->).
  fold v in Hv' |- *. cbn [fst snd].
  assert (fst (bitmap_nbytes b) = nbytes v) as ->.
  { unfold bitmap_nbytes. by destruct (bitmap_nbits_spec b Hb) as (b0 & -> & _). }
  pose proof (from_string_reliable b2 out Hb2) as Hr.
  unfold out in *. rewrite zlen_to_bytes in *. split; [|split; [|split; [|split]]].
  - destruct (Z.ltb_spec (zlen p) (nbytes v)); split; done || lia.
  - intros Hle. destruct (Z.ltb_spec (zlen p) (nbytes v)); [lia|done].
  - done.
  - rewrite Hr. apply Z.leb_le.
  - intros Hle. rewrite (proj2 (Z.leb_le _ _) Hle) in Hr.
    destruct (bitmap_from_string b2 (to_bytes v)) as [r b2'] eqn:Hf. cbn in Hr |- *. subst r.
    apply bitmap_from_string_spec in Hf as [Hw Hval]; [|done|].
    + split; [done|]. intros n Hn. rewrite !bitmap_test_bit_spec by done. rewrite Hval.
      rewrite of_to_bytes; [done|]. by apply value_nonneg.
    + unfold to_bytes. apply bytes_rev_ok. apply Z_to_little_endian_bound; [lia|apply nbytes_nonneg].
Qed.

Lemma bitmap_string_roundtrip_witness :
  let b := mk_bitmap [0x102; 0x1; 0] 3 1 in
  bitmap_value (snd (bitmap_to_string b [9; 9; 9; 9; 9; 9])) = 0x100000102 /\
  fst (bitmap_to_string b [9; 9; 9; 9; 9; 9]) = Some [1; 0; 0; 1; 2; 9].
Proof.
  intros b. assert (Hb : bitmap_wf b).
  { split; [done|]. split; [cbn; lia|]. split; [done|].
    split; [repeat (constructor; [unfold word32; lia|]); constructor|].
    intros i Hi. cbn in Hi. destruct (decide (i = 2)) as [->|]; [done|]. apply znth_out.
    change (zlen (bm_d b)) with 3. lia. }
  destruct (@bitmap_string_roundtrip alloc_all alloc_all_reliable b [9; 9; 9; 9; 9; 9] demo_bitmap
              Hb demo_bitmap_wf) as (_ & _ & Hv & _).
  split; [exact Hv|vm_compute; reflexivity].
Defined.
