(* ===== verification/RbTree.v ===== *)
(** Searching and inserting in the binary search trees of
    openbsd-compat/sys-tree.h.

    A tree is given by the list of its elements in order.  Its shape is a
    parameter: [tree_root l] is the position of the root of the (sub)tree whose
    elements are [l], and every shape, whatever rotations produced it, is given by
    some such function.  The searches walk from the root exactly as RB_FIND,
    RB_NFIND and RB_INSERT do, so that what holds for every shape holds whatever
    the rebalancing of the tree did; the rebalancing itself is not modelled. *)

From stdpp Require Export sorting.
From S2P Require Import Prelude.

Class TreeShape := tree_root : forall {A : Type}, list A -> nat.

Section search.
Context `{TreeShape} {A : Type} (cmp : A -> A -> Z).

(** The root of a nonempty tree with its left and right subtrees. *)
Definition rb_split (l : list A) : option (list A * A * list A) :=
  let i := (tree_root l mod length l)%nat in
  match l !! i with
  | None => None
  | Some t => Some (take i l, t, drop (S i) l)
  end.

Fixpoint rb_find_from (fuel : nat) (l : list A) (elm : A) : option A :=
  match fuel with
  | O => None
  | S fuel =>
      match rb_split l with
      | None => None
      | Some (lt, tmp, rt) =>
          let comp := cmp elm tmp in
          if comp <? 0 then rb_find_from fuel lt elm
          else if comp >? 0 then rb_find_from fuel rt elm
          else Some tmp
      end
  end.

Definition RB_FIND (l : list A) (elm : A) : option A := rb_find_from (length l) l elm.

(** RB_NFIND; the node is given by its position, [base] is the position of the
    subtree's first element. *)
Fixpoint rb_nfind_from (fuel : nat) (l : list A) (base : nat) (elm : A) (res : option nat) :
    option nat :=
  match fuel with
  | O => res
  | S fuel =>
      match rb_split l with
      | None => res
      | Some (lt, tmp, rt) =>
          let comp := cmp elm tmp in
          if comp <? 0 then rb_nfind_from fuel lt base elm (Some (base + length lt)%nat)
          else if comp >? 0 then rb_nfind_from fuel rt (base + S (length lt))%nat elm res
          else Some (base + length lt)%nat
      end
  end.

Definition RB_NFIND (l : list A) (elm : A) : option nat := rb_nfind_from (length l) l 0 elm None.

(** RB_INSERT: the node with an equal key, or the position where the new node
    goes. *)
Fixpoint rb_insert_from (fuel : nat) (l : list A) (base : nat) (elm : A) : A + nat :=
  match fuel with
  | O => inr base
  | S fuel =>
      match rb_split l with
      | None => inr base
      | Some (lt, tmp, rt) =>
          let comp := cmp elm tmp in
          if comp <? 0 then rb_insert_from fuel lt base elm
          else if comp >? 0 then rb_insert_from fuel rt (base + S (length lt))%nat elm
          else inl tmp
      end
  end.

(** The existing node, if any, and the tree afterwards. *)
Definition RB_INSERT (l : list A) (elm : A) : option A * list A :=
  match rb_insert_from (length l) l 0 elm with
  | inl tmp => (Some tmp, l)
  | inr i => (None, take i l ++ elm :: drop i l)
  end.

(** * What the searches find *)

(** The elements are ordered with respect to the key: first those the key is
    greater than, then the equal ones, then the greater ones. *)
Definition ordered_for (elm : A) (l : list A) : Prop :=
  StronglySorted (fun a b => Z.sgn (cmp elm b) <= Z.sgn (cmp elm a)) l.

Lemma rb_split_spec l lt t rt :
  rb_split l = Some (lt, t, rt) -> l = lt ++ t :: rt.
Proof.
  unfold rb_split. destruct (l !! _) eqn:E; [|done]. intros [= <- <- <-].
  symmetry. by apply take_drop_middle.
Qed.

Lemma rb_split_none l : rb_split l = None -> l = [].
Proof.
  unfold rb_split. destruct (l !! _) eqn:E; [done|]. intros _.
  apply lookup_ge_None in E. destruct l; [done|].
  pose proof (Nat.mod_upper_bound (tree_root (a :: l)) (length (a :: l))). cbn [length] in *. lia.
Qed.

Lemma ordered_split elm lt t rt :
  ordered_for elm (lt ++ t :: rt) ->
  ordered_for elm lt /\ ordered_for elm rt /\
  (cmp elm t <= 0 -> Forall (fun u => cmp elm u <= 0) rt) /\
  (cmp elm t < 0 -> Forall (fun u => cmp elm u < 0) rt) /\
  (0 <= cmp elm t -> Forall (fun u => 0 <= cmp elm u) lt) /\
  (0 < cmp elm t -> Forall (fun u => 0 < cmp elm u) lt).
Proof.
  unfold ordered_for. rewrite StronglySorted_app. intros (Hlr & Hl & Hr).
  apply StronglySorted_inv in Hr as [Hr Ht]. split; [done|]. split; [done|].
  split; [|split; [|split]]; intros Hs.
  - eapply Forall_impl; [exact Ht|]. cbn. lia.
  - eapply Forall_impl; [exact Ht|]. cbn. lia.
  - apply Forall_forall. intros u Hu. specialize (Hlr u t Hu ltac:(constructor)). cbn in Hlr. lia.
  - apply Forall_forall. intros u Hu. specialize (Hlr u t Hu ltac:(constructor)). cbn in Hlr. lia.
Qed.

Lemma rb_find_from_spec fuel l elm :
  (length l <= fuel)%nat -> ordered_for elm l ->
  match rb_find_from fuel l elm with
  | Some t => t ∈ l /\ cmp elm t = 0
  | None => Forall (fun u => cmp elm u <> 0) l
  end.
Proof.
  revert l. induction fuel as [|fuel IH]; intros l Hf Ho.
  { destruct l; [constructor|cbn in Hf; lia]. }
  cbn [rb_find_from]. destruct (rb_split l) as [[[lt t] rt]|] eqn:E.
  2: { apply rb_split_none in E as ->. constructor. }
  apply rb_split_spec in E as ->. rewrite length_app in Hf. cbn in Hf.
  apply ordered_split in Ho as (Hl & Hr & Hr1 & Hr2 & Hl1 & Hl2).
  destruct (Z.ltb_spec (cmp elm t) 0) as [Hlt|Hge].
  - specialize (IH lt ltac:(lia) Hl). destruct (rb_find_from fuel lt elm).
    + split; [|apply IH]. apply elem_of_app. left. apply IH.
    + apply Forall_app. split; [done|]. constructor; [lia|].
      eapply Forall_impl; [apply Hr2; lia|]. cbn. lia.
  - destruct (Z.gtb_spec (cmp elm t) 0) as [Hgt|Hle].
    + specialize (IH rt ltac:(lia) Hr). destruct (rb_find_from fuel rt elm).
      * split; [|apply IH]. apply elem_of_app. right. constructor. apply IH.
      * apply Forall_app. split; [|constructor; [lia|done]].
        eapply Forall_impl; [apply Hl2; lia|]. cbn. lia.
    + split; [|lia]. apply elem_of_app. right. constructor.
Qed.

Lemma RB_FIND_spec l elm :
  ordered_for elm l ->
  match RB_FIND l elm with
  | Some t => t ∈ l /\ cmp elm t = 0
  | None => Forall (fun u => cmp elm u <> 0) l
  end.
Proof. by apply rb_find_from_spec. Qed.

(** The place of a key that no element equals. *)
Definition gap_at (elm : A) (l1 l2 : list A) : Prop :=
  Forall (fun u => 0 < cmp elm u) l1 /\ Forall (fun u => cmp elm u < 0) l2.

Lemma rb_nfind_from_spec fuel l base elm res :
  (length l <= fuel)%nat -> ordered_for elm l ->
  (exists l1 t l2, l = l1 ++ t :: l2 /\ cmp elm t = 0 /\
     rb_nfind_from fuel l base elm res = Some (base + length l1)%nat) \/
  (exists l1 l2, l = l1 ++ l2 /\ gap_at elm l1 l2 /\
     rb_nfind_from fuel l base elm res =
       match l2 with [] => res | _ => Some (base + length l1)%nat end).
Proof.
  revert l base res. induction fuel as [|fuel IH]; intros l base res Hf Ho.
  { destruct l; [|cbn in Hf; lia]. right. by exists [], []. }
  cbn [rb_nfind_from]. destruct (rb_split l) as [[[lt t] rt]|] eqn:E.
  2: { apply rb_split_none in E as ->. right. by exists [], []. }
  apply rb_split_spec in E as ->. rewrite length_app in Hf. cbn in Hf.
  apply ordered_split in Ho as (Hl & Hr & _ & Hr2 & _ & Hl2).
  destruct (Z.ltb_spec (cmp elm t) 0) as [Hlt|Hge].
  - destruct (IH lt base (Some (base + length lt)%nat) ltac:(lia) Hl)
      as [(l1 & u & l2 & -> & Hu & ->)|(l1 & l2 & -> & [Hg1 Hg2] & ->)].
    + left. exists l1, u, (l2 ++ t :: rt). by rewrite <- app_assoc.
    + right. exists l1, (l2 ++ t :: rt). split; [by rewrite <- app_assoc|].
      split; [split; [done|apply Forall_app; split; [done|constructor; [lia|by apply Hr2]]]|].
      destruct l2; cbn; [by rewrite app_nil_r|done].
  - destruct (Z.gtb_spec (cmp elm t) 0) as [Hgt|Hle].
    + destruct (IH rt (base + S (length lt))%nat res ltac:(lia) Hr)
        as [(l1 & u & l2 & -> & Hu & ->)|(l1 & l2 & -> & [Hg1 Hg2] & ->)].
      * left. exists (lt ++ t :: l1), u, l2. rewrite <- app_assoc. split; [done|]. split; [done|].
        rewrite length_app. cbn. f_equal. lia.
      * right. exists (lt ++ t :: l1), l2. rewrite <- app_assoc. split; [done|].
        split; [split; [apply Forall_app; split; [by apply Hl2|by constructor]|done]|].
        rewrite length_app. cbn. destruct l2; [done|]. f_equal. lia.
    + left. exists lt, t, rt. split; [done|]. split; [lia|done].
Qed.

Lemma RB_NFIND_spec l elm :
  ordered_for elm l ->
  (exists l1 t l2, l = l1 ++ t :: l2 /\ cmp elm t = 0 /\ RB_NFIND l elm = Some (length l1)) \/
  (exists l1 l2, l = l1 ++ l2 /\ gap_at elm l1 l2 /\
     RB_NFIND l elm = match l2 with [] => None | _ => Some (length l1) end).
Proof. intros Ho. by apply (rb_nfind_from_spec (length l) l 0 elm None). Qed.

Lemma rb_insert_from_spec fuel l base elm :
  (length l <= fuel)%nat -> ordered_for elm l ->
  match rb_insert_from fuel l base elm with
  | inl t => t ∈ l /\ cmp elm t = 0
  | inr p => exists l1 l2, l = l1 ++ l2 /\ p = (base + length l1)%nat /\ gap_at elm l1 l2
  end.
Proof.
  revert l base. induction fuel as [|fuel IH]; intros l base Hf Ho.
  { destruct l; [|cbn in Hf; lia]. exists [], []. split; [done|]. split; [cbn; lia|done]. }
  cbn [rb_insert_from]. destruct (rb_split l) as [[[lt t] rt]|] eqn:E.
  2: { apply rb_split_none in E as ->. exists [], []. split; [done|]. split; [cbn; lia|done]. }
  apply rb_split_spec in E as ->. rewrite length_app in Hf. cbn in Hf.
  apply ordered_split in Ho as (Hl & Hr & _ & Hr2 & _ & Hl2).
  destruct (Z.ltb_spec (cmp elm t) 0) as [Hlt|Hge].
  - specialize (IH lt base ltac:(lia) Hl). destruct (rb_insert_from fuel lt base elm).
    + split; [|apply IH]. apply elem_of_app. left. apply IH.
    + destruct IH as (l1 & l2 & -> & -> & [Hg1 Hg2]). exists l1, (l2 ++ t :: rt).
      split; [by rewrite <- app_assoc|]. split; [done|]. split; [done|].
      apply Forall_app. split; [done|]. constructor; [lia|by apply Hr2].
  - destruct (Z.gtb_spec (cmp elm t) 0) as [Hgt|Hle].
    + specialize (IH rt (base + S (length lt))%nat ltac:(lia) Hr). destruct (rb_insert_from fuel rt _ elm).
      * split; [|apply IH]. apply elem_of_app. right. constructor. apply IH.
      * destruct IH as (l1 & l2 & -> & -> & [Hg1 Hg2]). exists (lt ++ t :: l1), l2.
        rewrite <- app_assoc. split; [done|]. rewrite length_app. cbn. split; [lia|].
        split; [|done]. apply Forall_app. split; [by apply Hl2|by constructor].
    + split; [|lia]. apply elem_of_app. right. constructor.
Qed.

Lemma RB_INSERT_spec l elm :
  ordered_for elm l ->
  (exists t, t ∈ l /\ cmp elm t = 0 /\ RB_INSERT l elm = (Some t, l)) \/
  (exists l1 l2, l = l1 ++ l2 /\ gap_at elm l1 l2 /\ RB_INSERT l elm = (None, l1 ++ elm :: l2)).
Proof.
  intros Ho. pose proof (rb_insert_from_spec (length l) l 0 elm ltac:(lia) Ho) as Hs.
  unfold RB_INSERT. destruct (rb_insert_from _ _ _ _) as [t|p].
  - left. exists t. by destruct Hs.
  - destruct Hs as (l1 & l2 & -> & -> & Hg). right. exists l1, l2. split; [done|]. split; [done|].
    cbn [Nat.add]. by rewrite take_app_length, drop_app_length.
Qed.

End search.

(** * Sets kept in a tree with a total order *)

Class TotalCmp {A} (cmp : A -> A -> Z) : Prop := {
  cmp_eq : forall x y, cmp x y = 0 <-> x = y;
  cmp_flip : forall x y, cmp x y < 0 <-> 0 < cmp y x;
  cmp_trans : forall x y z, cmp x y < 0 -> cmp y z < 0 -> cmp x z < 0;
}.

Definition tree_sorted {A} (cmp : A -> A -> Z) : list A -> Prop :=
  StronglySorted (fun a b => cmp a b < 0).

Section sets.
Context `{TreeShape} {A : Type} (cmp : A -> A -> Z) `{!TotalCmp cmp}.

Lemma tree_sorted_ordered elm l : tree_sorted cmp l -> ordered_for cmp elm l.
Proof.
  intros Hs. induction Hs as [|a l Hs IH Ha]; constructor; [done|].
  eapply Forall_impl; [exact Ha|]. intros b Hab. cbn in Hab.
  destruct (Z.lt_trichotomy (cmp elm a) 0) as [Hlt|[Heq|Hgt]].
  - pose proof (cmp_trans _ _ _ Hlt Hab). lia.
  - apply cmp_eq in Heq as ->. lia.
  - lia.
Qed.

Lemma RB_FIND_set elm l : tree_sorted cmp l -> (RB_FIND cmp l elm <> None <-> elm ∈ l).
Proof.
  intros Hs. pose proof (RB_FIND_spec cmp l elm (tree_sorted_ordered elm l Hs)) as Hf.
  destruct (RB_FIND cmp l elm) as [t|].
  - destruct Hf as [Ht E]. apply cmp_eq in E as ->. done.
  - split; [done|]. intros Hin. exfalso. rewrite Forall_forall in Hf. apply (Hf _ Hin). by apply cmp_eq.
Qed.

Lemma RB_INSERT_set elm l :
  tree_sorted cmp l ->
  tree_sorted cmp (snd (RB_INSERT cmp l elm)) /\
  forall x, x ∈ snd (RB_INSERT cmp l elm) <-> x = elm \/ x ∈ l.
Proof.
  intros Hs. destruct (RB_INSERT_spec cmp l elm (tree_sorted_ordered elm l Hs))
    as [(t & Ht & E & ->)|(l1 & l2 & -> & [Hg1 Hg2] & ->)]; cbn [snd].
  - apply cmp_eq in E as <-. split; [done|]. intros x. split; [by right|]. by intros [->|].
  - unfold tree_sorted in *. rewrite StronglySorted_app in Hs |- *. destruct Hs as (H12 & H1 & H2). split.
    + split; [|split; [done|]].
      * intros a b Ha Hb. apply elem_of_cons in Hb as [->|Hb]; [|by apply H12].
        rewrite Forall_forall in Hg1. apply cmp_flip. by apply Hg1.
      * constructor; [done|]. eapply Forall_impl; [exact Hg2|]. done.
    + intros x. rewrite !elem_of_app, elem_of_cons. tauto.
Qed.

End sets.

(** * String and memory comparison *)

(** strcmp(3): only the sign of the result is used.  A string that ends first is
    smaller, the terminating nul being less than any character. *)
Fixpoint strcmp (a b : list Z) : Z :=
  match a, b with
  | [], [] => 0
  | [], _ :: _ => -1
  | _ :: _, [] => 1
  | x :: a, y :: b => if x =? y then strcmp a b else x - y
  end.

(** memcmp(3) of [n] bytes. *)
Fixpoint memcmp (a b : list Z) (n : nat) : Z :=
  match n, a, b with
  | S n, x :: a, y :: b => if x =? y then memcmp a b n else x - y
  | _, _, _ => 0
  end.

#[global] Instance strcmp_total : TotalCmp strcmp.
Proof.
  constructor.
  - induction x as [|c x IH]; intros [|c' y]; cbn; try done.
    destruct (Z.eqb_spec c c') as [->|Hne].
    + rewrite IH. naive_solver.
    + split; [lia|]. intros [= ? _]. done.
  - induction x as [|c x IH]; intros [|c' y]; cbn; try lia.
    destruct (Z.eqb_spec c c') as [->|Hne]; [rewrite Z.eqb_refl; apply IH|].
    rewrite (proj2 (Z.eqb_neq c' c)) by done. lia.
  - induction x as [|c x IH]; intros [|c' y] [|c'' z]; cbn; try lia.
    destruct (Z.eqb_spec c c') as [->|]; destruct (Z.eqb_spec c' c'') as [->|].
    + apply IH.
    + lia.
    + rewrite (proj2 (Z.eqb_neq c c'')) by done. lia.
    + destruct (Z.eqb_spec c c''); lia.
Qed.

(** The shape of a perfectly balanced tree, as an example. *)
Definition balanced : TreeShape := fun _ l => Nat.div (length l) 2.
