(* ===== verification/Krl.v ===== *)
(** Key revocation lists: the in-memory structure of krl.c, its revocation
    requests and the check of a key.

    The serial, key-id and blob trees are the in-order lists of their elements
    (RbTree); the TAILQ of CAs is a list.  Keys are an interface, [SshKey], which
    sshkey.c implements. *)

From S2P Require Import Prelude Match RbTree.
Local Open Scope Z_scope.

(** * Keys *)

Inductive digest_alg := SSH_DIGEST_SHA1 | SSH_DIGEST_SHA256.

Record sshkey_cert (K : Type) := mk_cert {
  cert_serial : Z;
  cert_key_id : cstring;
  cert_signature_key : K;
}.
Arguments mk_cert {K}.
Arguments cert_serial {K}.
Arguments cert_key_id {K}.
Arguments cert_signature_key {K}.

(** What krl.c calls of sshkey.c.  [sshkey_cert_of] is the certificate of a key
    for which [sshkey_is_cert] holds. *)
Class SshKey := {
  sshkey : Type;
  sshkey_equal : sshkey -> sshkey -> bool;
  sshkey_from_private : sshkey -> result sshkey;
  sshkey_cert_of : sshkey -> option (sshkey_cert sshkey);
  sshkey_drop_cert : sshkey -> result sshkey;
  sshkey_to_blob : sshkey -> result (list Z);
  sshkey_fingerprint_raw : sshkey -> digest_alg -> result (list Z);
}.

Definition sshkey_is_cert `{SshKey} (k : sshkey) : bool :=
  match sshkey_cert_of k with Some _ => true | None => false end.

(** Promises of sshkey.c: key equality is an equivalence, and the public copy of
    a key equals it. *)
Class SshKeyLaws (SK : SshKey) : Prop := {
  key_equal_refl : forall k, sshkey_equal k k = true;
  key_equal_sym : forall j k, sshkey_equal j k = sshkey_equal k j;
  key_equal_trans : forall i j k,
    sshkey_equal i j = true -> sshkey_equal j k = true -> sshkey_equal i k = true;
  key_copy_equal : forall k k', sshkey_from_private k = Ok k' -> sshkey_equal k' k = true;
}.

(** * Data *)

Record revoked_serial := mk_rs { lo : Z; hi : Z }.

Record revoked_certs `{SshKey} := mk_rc {
  ca_key : option sshkey;
  revoked_serials : list revoked_serial;
  revoked_key_ids : list cstring;
}.

Record ssh_krl `{SshKey} := mk_krl {
  krl_version : Z;
  generated_date : Z;
  flags : Z;
  comment : option cstring;
  revoked_keys : list (list Z);
  revoked_sha1s : list (list Z);
  revoked_sha256s : list (list Z);
  certs : list revoked_certs;
}.

Arguments mk_rc {_}.
Arguments mk_krl {_}.

(** Sizes of the structures (LP64). *)
Definition SIZEOF_KRL : Z := 72.
Definition SIZEOF_REVOKED_CERTS : Z := 40.
Definition SIZEOF_REVOKED_SERIAL : Z := 48.
Definition SIZEOF_REVOKED_KEY_ID : Z := 40.
Definition SIZEOF_REVOKED_BLOB : Z := 48.

(** Equal when the ranges overlap. *)
Definition serial_cmp (a b : revoked_serial) : Z :=
  if (hi a >=? lo b) && (lo a <=? hi b) then 0
  else if lo a <? lo b then -1 else 1.

Definition key_id_cmp (a b : cstring) : Z := strcmp a b.

Definition blob_cmp (a b : list Z) : Z :=
  if negb (Nat.eqb (length a) (length b)) then
    let r := memcmp a b (Nat.min (length a) (length b)) in
    if negb (r =? 0) then r
    else if Nat.ltb (length b) (length a) then 1 else -1
  else memcmp a b (length a).

(** * Serial ranges *)

(** The loop over the predecessors of [ers], nearest first. *)
Fixpoint coalesce_pred (pre : list revoked_serial) (ers : revoked_serial) :
    list revoked_serial * revoked_serial :=
  match pre with
  | [] => ([], ers)
  | crs :: pre' =>
      if negb (lo ers =? 0) && (hi crs <? u64 (lo ers - 1)) then (pre, ers)
      else coalesce_pred pre' (if lo crs <? lo ers then mk_rs (lo crs) (hi ers) else ers)
  end.

Fixpoint coalesce_succ (post : list revoked_serial) (ers : revoked_serial) :
    list revoked_serial * revoked_serial :=
  match post with
  | [] => ([], ers)
  | crs :: post' =>
      if negb (hi ers =? 2 ^ 64 - 1) && (lo crs >? u64 (hi ers + 1)) then (post, ers)
      else coalesce_succ post' (if hi crs >? hi ers then mk_rs (lo ers) (hi crs) else ers)
  end.

(** Both loops around the element [ers] between [pre] and [post]. *)
Definition coalesce (pre : list revoked_serial) (ers : revoked_serial) (post : list revoked_serial) :
    list revoked_serial :=
  let '(rpre, ers) := coalesce_pred (rev pre) ers in
  let '(post, ers) := coalesce_succ post ers in
  rev rpre ++ ers :: post.

Section operations.
Context `{TreeShape} `{Allocator} `{SK : SshKey}.

Definition insert_serial_range (rt : list revoked_serial) (l h : Z) :
    result unit * list revoked_serial :=
  let rs := mk_rs l h in
  let found :=
    match RB_NFIND serial_cmp rt rs with
    | None => None
    | Some i =>
        match rt !! i with
        | None => None
        | Some ers => if serial_cmp ers rs =? 0 then Some (i, ers) else None
        end
    end in
  match found with
  | None =>
      if negb (malloc_ok SIZEOF_REVOKED_SERIAL) then (Err SSH_ERR_ALLOC_FAIL, rt)
      else
        match rb_insert_from serial_cmp (length rt) rt 0 rs with
        | inl _ => (Err SSH_ERR_INTERNAL_ERROR, rt)
        | inr i => (Ok tt, coalesce (take i rt) rs (drop i rt))
        end
  | Some (i, ers) =>
      let ers := if lo ers >? l then mk_rs l (hi ers) else ers in
      let ers := if hi ers <? h then mk_rs (lo ers) h else ers in
      (Ok tt, coalesce (take i rt) ers (drop (S i) rt))
  end.

(** * CAs *)

Definition ca_matches (ca : option sshkey) (rc : revoked_certs) : bool :=
  match ca, ca_key rc with
  | None, None => true
  | Some k, Some k' => sshkey_equal k' k
  | _, _ => false
  end.

Fixpoint find_ca (ca : option sshkey) (l : list revoked_certs) (i : nat) : option nat :=
  match l with
  | [] => None
  | rc :: l => if ca_matches ca rc then Some i else find_ca ca l (S i)
  end.

Definition set_certs (krl : ssh_krl) (l : list revoked_certs) : ssh_krl :=
  mk_krl (krl_version krl) (generated_date krl) (flags krl) (comment krl)
    (revoked_keys krl) (revoked_sha1s krl) (revoked_sha256s krl) l.

(** [revoked_certs_for_ca_key]: the position of the structure, if there is
    one. *)
Definition revoked_certs_for_ca_key (ca : option sshkey) (allow_create : bool) :
    SE ssh_krl (option nat) :=
  krl ← se_get;
  match find_ca ca (certs krl) 0 with
  | Some i => mret (Some i)
  | None =>
      if negb allow_create then mret None
      else if negb (malloc_ok SIZEOF_REVOKED_CERTS) then se_err SSH_ERR_ALLOC_FAIL
      else
        k ← match ca with
            | None => mret None
            | Some ca => k ← se_lift (sshkey_from_private ca); mret (Some k)
            end;
        _ ← se_put (set_certs krl (certs krl ++ [mk_rc k [] []]));
        mret (Some (length (certs krl)))
  end.

(** Work on the structure at position [i]. *)
Definition with_rc {A} (i : option nat) (f : revoked_certs -> result A * revoked_certs) :
    SE ssh_krl A :=
  krl ← se_get;
  match i with
  | None => se_err SSH_ERR_INTERNAL_ERROR
  | Some i =>
      match certs krl !! i with
      | None => se_err SSH_ERR_INTERNAL_ERROR
      | Some rc =>
          let '(r, rc) := f rc in
          _ ← se_put (set_certs krl (<[i := rc]> (certs krl))); se_lift r
      end
  end.

(** * Revoking *)

Definition ssh_krl_init : option ssh_krl :=
  if malloc_ok SIZEOF_KRL then Some (mk_krl 0 0 0 None [] [] [] []) else None.

Definition ssh_krl_set_version (version : Z) : SE ssh_krl unit :=
  se_modify (fun krl => mk_krl version (generated_date krl) (flags krl) (comment krl)
    (revoked_keys krl) (revoked_sha1s krl) (revoked_sha256s krl) (certs krl)).

Definition ssh_krl_set_comment (c : cstring) : SE ssh_krl unit :=
  let ok := malloc_ok (zlen c + 1) in
  _ ← se_modify (fun krl => mk_krl (krl_version krl) (generated_date krl) (flags krl)
    (if ok then Some c else None) (revoked_keys krl) (revoked_sha1s krl) (revoked_sha256s krl)
    (certs krl));
  if ok then mret tt else se_err SSH_ERR_ALLOC_FAIL.

Definition ssh_krl_revoke_cert_by_serial_range (ca : option sshkey) (l h : Z) : SE ssh_krl unit :=
  if (l >? h) || (l =? 0) then se_err SSH_ERR_INVALID_ARGUMENT
  else
    i ← revoked_certs_for_ca_key ca true;
    with_rc i (fun rc =>
      let '(r, rt) := insert_serial_range (revoked_serials rc) l h in
      (r, mk_rc (ca_key rc) rt (revoked_key_ids rc))).

Definition ssh_krl_revoke_cert_by_serial (ca : option sshkey) (serial : Z) : SE ssh_krl unit :=
  ssh_krl_revoke_cert_by_serial_range ca serial serial.

Definition ssh_krl_revoke_cert_by_key_id (ca : option sshkey) (key_id : cstring) : SE ssh_krl unit :=
  i ← revoked_certs_for_ca_key ca true;
  with_rc i (fun rc =>
    if negb (malloc_ok SIZEOF_REVOKED_KEY_ID && malloc_ok (zlen key_id + 1))
    then (Err SSH_ERR_ALLOC_FAIL, rc)
    else (Ok tt, mk_rc (ca_key rc) (revoked_serials rc)
                   (snd (RB_INSERT key_id_cmp (revoked_key_ids rc) key_id)))).

Definition plain_key_blob (key : sshkey) : result (list Z) :=
  kcopy ← sshkey_from_private key;
  kcopy ← (if sshkey_is_cert kcopy then sshkey_drop_cert kcopy else Ok kcopy);
  sshkey_to_blob kcopy.

Definition revoke_blob (rbt : list (list Z)) (blob : list Z) : result unit * list (list Z) :=
  if negb (malloc_ok SIZEOF_REVOKED_BLOB) then (Err SSH_ERR_ALLOC_FAIL, rbt)
  else (Ok tt, snd (RB_INSERT blob_cmp rbt blob)).

Definition set_keys (krl : ssh_krl) (t : list (list Z)) : ssh_krl :=
  mk_krl (krl_version krl) (generated_date krl) (flags krl) (comment krl) t
    (revoked_sha1s krl) (revoked_sha256s krl) (certs krl).
Definition set_sha1s (krl : ssh_krl) (t : list (list Z)) : ssh_krl :=
  mk_krl (krl_version krl) (generated_date krl) (flags krl) (comment krl) (revoked_keys krl)
    t (revoked_sha256s krl) (certs krl).
Definition set_sha256s (krl : ssh_krl) (t : list (list Z)) : ssh_krl :=
  mk_krl (krl_version krl) (generated_date krl) (flags krl) (comment krl) (revoked_keys krl)
    (revoked_sha1s krl) t (certs krl).

Definition ssh_krl_revoke_key_explicit (key : sshkey) : SE ssh_krl unit :=
  blob ← se_lift (plain_key_blob key);
  krl ← se_get;
  let '(r, t) := revoke_blob (revoked_keys krl) blob in
  _ ← se_put (set_keys krl t); se_lift r.

Definition revoke_by_hash (target : list (list Z)) (p : list Z) : result unit * list (list Z) :=
  if negb (malloc_ok (zlen p)) then (Err SSH_ERR_SYSTEM_ERROR, target)
  else revoke_blob target p.

Definition ssh_krl_revoke_key_sha1 (p : list Z) : SE ssh_krl unit := fun krl =>
  if negb (zlen p =? 20) then (Err SSH_ERR_INVALID_FORMAT, krl)
  else let '(r, t) := revoke_by_hash (revoked_sha1s krl) p in (r, set_sha1s krl t).

Definition ssh_krl_revoke_key_sha256 (p : list Z) : SE ssh_krl unit := fun krl =>
  if negb (zlen p =? 32) then (Err SSH_ERR_INVALID_FORMAT, krl)
  else let '(r, t) := revoke_by_hash (revoked_sha256s krl) p in (r, set_sha256s krl t).

Definition ssh_krl_revoke_key (key : sshkey) : SE ssh_krl unit :=
  match sshkey_cert_of key with
  | None => ssh_krl_revoke_key_explicit key
  | Some cert =>
      if cert_serial cert =? 0
      then ssh_krl_revoke_cert_by_key_id (Some (cert_signature_key cert)) (cert_key_id cert)
      else ssh_krl_revoke_cert_by_serial (Some (cert_signature_key cert)) (cert_serial cert)
  end.

(** * Checking *)

(** Return value 0 is [Ok tt]. *)
Definition is_cert_revoked (cert : sshkey_cert sshkey) (rc : revoked_certs) : result unit :=
  match RB_FIND key_id_cmp (revoked_key_ids rc) (cert_key_id cert) with
  | Some _ => Err SSH_ERR_KEY_REVOKED
  | None =>
      if cert_serial cert =? 0 then Ok tt
      else
        match RB_FIND serial_cmp (revoked_serials rc) (mk_rs (cert_serial cert) (cert_serial cert)) with
        | Some _ => Err SSH_ERR_KEY_REVOKED
        | None => Ok tt
        end
  end.

(** The two lookups of [is_key_revoked] for a certificate. *)
Definition check_ca (krl : ssh_krl) (ca : option sshkey) (cert : sshkey_cert sshkey) : result unit :=
  match find_ca ca (certs krl) 0 with
  | None => Ok tt
  | Some i =>
      match certs krl !! i with
      | None => Ok tt
      | Some rc => is_cert_revoked cert rc
      end
  end.

Definition is_key_revoked (krl : ssh_krl) (key : sshkey) : result unit :=
  h1 ← sshkey_fingerprint_raw key SSH_DIGEST_SHA1;
  match RB_FIND blob_cmp (revoked_sha1s krl) h1 with
  | Some _ => Err SSH_ERR_KEY_REVOKED
  | None =>
      h2 ← sshkey_fingerprint_raw key SSH_DIGEST_SHA256;
      match RB_FIND blob_cmp (revoked_sha256s krl) h2 with
      | Some _ => Err SSH_ERR_KEY_REVOKED
      | None =>
          blob ← plain_key_blob key;
          match RB_FIND blob_cmp (revoked_keys krl) blob with
          | Some _ => Err SSH_ERR_KEY_REVOKED
          | None =>
              match sshkey_cert_of key with
              | None => Ok tt
              | Some cert =>
                  _ ← check_ca krl (Some (cert_signature_key cert)) cert;
                  check_ca krl None cert
              end
          end
      end
  end.

Definition ssh_krl_check_key (krl : ssh_krl) (key : sshkey) : result unit :=
  _ ← is_key_revoked krl key;
  match sshkey_cert_of key with
  | None => Ok tt
  | Some cert => is_key_revoked krl (cert_signature_key cert)
  end.

End operations.

(** * Serial ranges as sets *)

Definition rs_ok (r : revoked_serial) : Prop := 0 <= lo r <= hi r /\ hi r < 2 ^ 64.
Definition in_range (s : Z) (r : revoked_serial) : Prop := lo r <= s <= hi r.
Definition covered (l : list revoked_serial) (s : Z) : Prop := Exists (in_range s) l.

(** Ranges in order, with at least one number between neighbours. *)
Definition apart (a b : revoked_serial) : Prop := hi a + 1 < lo b.
Definition serials_wf (l : list revoked_serial) : Prop := Forall rs_ok l /\ StronglySorted apart l.

Lemma serial_cmp_cases a b :
  rs_ok a -> rs_ok b ->
  (serial_cmp a b = 0 /\ lo b <= hi a /\ lo a <= hi b) \/
  (serial_cmp a b = -1 /\ hi a < lo b) \/ (serial_cmp a b = 1 /\ hi b < lo a).
Proof.
  unfold rs_ok, serial_cmp. intros Ha Hb.
  destruct (Z.geb_spec (hi a) (lo b)), (Z.leb_spec (lo a) (hi b)); cbn; [lia|..];
    destruct (Z.ltb_spec (lo a) (lo b)); lia.
Qed.

Lemma serials_ordered rs l : rs_ok rs -> serials_wf l -> ordered_for serial_cmp rs l.
Proof.
  intros Hrs [Hok Hs]. induction Hs as [|a l Hs IH Ha]; [constructor|].
  inversion_clear Hok as [|? ? Hoka Hokl]. constructor; [by apply IH|].
  rewrite Forall_forall in Ha, Hokl |- *. intros b Hb. specialize (Ha b Hb). unfold apart in Ha.
  pose proof (serial_cmp_cases rs a Hrs Hoka). pose proof (serial_cmp_cases rs b Hrs (Hokl b Hb)).
  pose proof (Hokl b Hb). unfold rs_ok in *. cbn beta. lia.
Qed.

Lemma coalesce_pred_spec rpre ers :
  rs_ok ers -> Forall rs_ok rpre -> StronglySorted (flip apart) rpre ->
  Forall (fun r => hi r <= hi ers) rpre ->
  let '(rpre', ers') := coalesce_pred rpre ers in
  rs_ok ers' /\ hi ers' = hi ers /\ lo ers' <= lo ers /\ (exists gone, rpre = gone ++ rpre') /\
  Forall (fun r => apart r ers') rpre' /\
  forall s, covered rpre s \/ in_range s ers <-> covered rpre' s \/ in_range s ers'.
Proof.
  intros Hers Hok Hs. revert ers Hers. induction Hs as [|crs rpre Hs IH Ha]; intros ers Hers Hhi.
  { cbn. split; [done|]. split; [done|]. split; [lia|]. split; [by exists []|]. by split. }
  inversion_clear Hok as [|? ? Hc Hokr]. inversion_clear Hhi as [|? ? Hch Hhir].
  cbn [coalesce_pred]. destruct (negb (lo ers =? 0) && (hi crs <? u64 (lo ers - 1))) eqn:E.
  - apply andb_prop in E as [E1 E2]. apply negb_true_iff, Z.eqb_neq in E1. apply Z.ltb_lt in E2.
    unfold rs_ok in *. rewrite u64_small in E2 by lia.
    split; [done|]. split; [done|]. split; [lia|]. split; [by exists []|]. split; [|done].
    constructor; [unfold apart; lia|]. rewrite Forall_forall in Ha, Hokr |- *.
    intros r Hr. specialize (Ha r Hr). specialize (Hokr r Hr). unfold flip, apart in *. lia.
  - assert (Hadj : lo ers - 1 <= hi crs).
    { apply andb_false_iff in E as [E|E].
      - apply negb_false_iff, Z.eqb_eq in E. unfold rs_ok in *. lia.
      - apply Z.ltb_ge in E. unfold rs_ok in *. destruct (decide (lo ers = 0)) as [->|]; [lia|].
        rewrite u64_small in E by lia. lia. }
    set (e := if lo crs <? lo ers then _ else _).
    assert (He : hi e = hi ers /\ lo e = Z.min (lo crs) (lo ers)).
    { unfold e. destruct (Z.ltb_spec (lo crs) (lo ers)); cbn; lia. }
    destruct He as [Ehi Elo]. specialize (IH Hokr e).
    destruct (coalesce_pred rpre e) as [rpre' ers'].
    destruct IH as (R1 & R2 & R3 & (gone & R4) & R5 & R6).
    { unfold rs_ok in *. lia. }
    { by rewrite Ehi. }
    split; [done|]. split; [lia|]. split; [lia|]. split; [exists (crs :: gone); by rewrite R4|].
    split; [done|]. intros s. rewrite <- R6. unfold covered. rewrite Exists_cons.
    unfold in_range at 1 3 5. unfold rs_ok in *. split; [|intros [|]]; [|tauto|].
    + intros [[|]|]; [right; lia|tauto|right; lia].
    + destruct (decide (lo ers <= s)); [right; lia|left; left; lia].
Qed.

Lemma coalesce_succ_spec post ers :
  rs_ok ers -> Forall rs_ok post -> StronglySorted apart post ->
  Forall (fun r => lo ers <= lo r) post ->
  let '(post', ers') := coalesce_succ post ers in
  rs_ok ers' /\ lo ers' = lo ers /\ (exists gone, post = gone ++ post') /\
  Forall (fun r => apart ers' r) post' /\
  forall s, covered post s \/ in_range s ers <-> covered post' s \/ in_range s ers'.
Proof.
  intros Hers Hok Hs. revert ers Hers. induction Hs as [|crs post Hs IH Ha]; intros ers Hers Hlo.
  { cbn. split; [done|]. split; [done|]. split; [by exists []|]. by split. }
  inversion_clear Hok as [|? ? Hc Hokr]. inversion_clear Hlo as [|? ? Hcl Hlor].
  cbn [coalesce_succ]. destruct (negb (hi ers =? 2 ^ 64 - 1) && (lo crs >? u64 (hi ers + 1))) eqn:E.
  - apply andb_prop in E as [E1 E2]. apply negb_true_iff, Z.eqb_neq in E1. apply Z.gtb_lt in E2.
    unfold rs_ok in *. rewrite u64_small in E2 by lia.
    split; [done|]. split; [done|]. split; [by exists []|]. split; [|done].
    constructor; [unfold apart; lia|]. rewrite Forall_forall in Ha, Hokr |- *.
    intros r Hr. specialize (Ha r Hr). specialize (Hokr r Hr). unfold apart in *. lia.
  - assert (Hadj : lo crs <= hi ers + 1).
    { apply andb_false_iff in E as [E|E].
      - apply negb_false_iff, Z.eqb_eq in E. unfold rs_ok in *. lia.
      - rewrite Z.gtb_ltb in E. apply Z.ltb_ge in E. unfold rs_ok in *.
        destruct (decide (hi ers = 2 ^ 64 - 1)); [lia|]. rewrite u64_small in E by lia. lia. }
    set (e := if hi crs >? hi ers then _ else _).
    assert (He : lo e = lo ers /\ hi e = Z.max (hi crs) (hi ers)).
    { unfold e. destruct (Z.gtb_spec (hi crs) (hi ers)); cbn; lia. }
    destruct He as [Elo Ehi]. specialize (IH Hokr e).
    destruct (coalesce_succ post e) as [post' ers'].
    destruct IH as (R1 & R2 & (gone & R4) & R5 & R6).
    { unfold rs_ok in *. lia. }
    { by rewrite Elo. }
    split; [done|]. split; [lia|]. split; [exists (crs :: gone); by rewrite R4|].
    split; [done|]. intros s. rewrite <- R6. unfold covered. rewrite Exists_cons.
    unfold in_range at 1 3 5. unfold rs_ok in *. split; [|intros [|]]; [|tauto|].
    + intros [[|]|]; [right; lia|tauto|right; lia].
    + destruct (decide (s <= hi ers)); [right; lia|left; left; lia].
Qed.

Lemma StronglySorted_rev {A} (R : A -> A -> Prop) l :
  StronglySorted R l -> StronglySorted (flip R) (rev l).
Proof.
  induction 1 as [|a l Hs IH Ha]; [constructor|]. cbn. apply StronglySorted_app.
  split; [|split; [done|by repeat constructor]]. intros x y Hx%list_elem_of_In%in_rev Hy.
  apply elem_of_cons in Hy as [->|Hy]; [|by apply elem_of_nil in Hy].
  rewrite Forall_forall in Ha. apply Ha. by apply list_elem_of_In.
Qed.

Lemma covered_app l k s : covered (l ++ k) s <-> covered l s \/ covered k s.
Proof. apply Exists_app. Qed.

Lemma covered_rev l s : covered (rev l) s <-> covered l s.
Proof.
  unfold covered. rewrite !Exists_exists. setoid_rewrite list_elem_of_In. by setoid_rewrite <- in_rev.
Qed.

Lemma coalesce_spec pre ers post :
  serials_wf (pre ++ post) -> rs_ok ers ->
  Forall (fun r => hi r <= hi ers) pre -> Forall (fun r => lo ers <= lo r) post ->
  serials_wf (coalesce pre ers post) /\
  forall s, covered (coalesce pre ers post) s <-> covered pre s \/ in_range s ers \/ covered post s.
Proof.
  intros [Hok Hs] Hers Hpre Hpost. apply Forall_app in Hok as [Hok1 Hok2].
  apply StronglySorted_app in Hs as (_ & Hs1 & Hs2). unfold coalesce.
  pose proof (coalesce_pred_spec (rev pre) ers Hers) as HP.
  destruct (coalesce_pred (rev pre) ers) as [rpre e1].
  destruct HP as (P1 & P2 & P3 & (gone & P4) & P5 & P6);
    [by apply Forall_rev|by apply StronglySorted_rev|by apply Forall_rev|].
  pose proof (coalesce_succ_spec post e1 P1 Hok2 Hs2) as HS.
  destruct (coalesce_succ post e1) as [post' e2].
  destruct HS as (S1 & S2 & (gone' & S4) & S5 & S6).
  { eapply Forall_impl; [exact Hpost|]. cbn. lia. }
  assert (Hrp : rev rpre ++ rev gone = pre) by (rewrite <- rev_app_distr, <- P4; apply rev_involutive).
  assert (Hrok : Forall rs_ok (rev rpre)) by (rewrite <- Hrp in Hok1; by apply Forall_app in Hok1 as [? _]).
  assert (Hpok : Forall rs_ok post') by (rewrite S4 in Hok2; by apply Forall_app in Hok2 as [_ ?]).
  assert (Hlt : Forall (fun r => apart r e2) (rev rpre)).
  { apply Forall_rev. eapply Forall_impl; [exact P5|]. unfold apart. cbn. intros; lia. }
  split; [split|].
  - apply Forall_app. split; [done|]. by constructor.
  - apply StronglySorted_app. split; [|split].
    + intros a b Ha Hb. rewrite Forall_forall in Hlt, S5. specialize (Hlt a Ha).
      apply elem_of_cons in Hb as [->|Hb]; [done|]. specialize (S5 b Hb).
      unfold apart, rs_ok in *. lia.
    + rewrite <- Hrp in Hs1. by apply StronglySorted_app in Hs1 as (_ & ? & _).
    + constructor; [|done]. rewrite S4 in Hs2. by apply StronglySorted_app in Hs2 as (_ & _ & ?).
  - intros s. rewrite covered_app, covered_rev. specialize (P6 s). rewrite covered_rev in P6.
    specialize (S6 s). unfold covered at 2. rewrite Exists_cons. fold (covered post' s). tauto.
Qed.

Lemma lookup_middle {A} (l1 : list A) t l2 : (l1 ++ t :: l2) !! length l1 = Some t.
Proof. by rewrite lookup_app_r, Nat.sub_diag by lia. Qed.

Lemma drop_middle {A} (l1 : list A) t l2 : drop (S (length l1)) (l1 ++ t :: l2) = l2.
Proof. rewrite drop_app_ge by lia. by replace (S (length l1) - length l1)%nat with 1%nat by lia. Qed.

Lemma insert_serial_range_spec `{TreeShape} `{Allocator} rt l h r rt' :
  serials_wf rt -> 0 <= l <= h -> h < 2 ^ 64 -> insert_serial_range rt l h = (r, rt') ->
  serials_wf rt' /\
  ((r = Ok tt /\ forall s, covered rt' s <-> covered rt s \/ l <= s <= h) \/
   (r = Err SSH_ERR_ALLOC_FAIL /\ rt' = rt /\ malloc_ok SIZEOF_REVOKED_SERIAL = false)).
Proof.
  intros Hwf Hl Hh. assert (Hrs : rs_ok (mk_rs l h)) by (split; cbn; lia).
  pose proof (serials_ordered _ _ Hrs Hwf) as Ho. unfold insert_serial_range.
  destruct (RB_NFIND_spec serial_cmp rt (mk_rs l h) Ho)
    as [(l1 & t & l2 & -> & Hcmp & ->)|(l1 & l2 & -> & [Hg1 Hg2] & Hnf)].
  - rewrite lookup_middle. pose proof Hwf as [Hok Hs]. apply Forall_app in Hok as [Hok1 Hok2].
    inversion_clear Hok2 as [|? ? Hokt Hokl2].
    apply StronglySorted_app in Hs as (H12 & Hs1 & Hs2). apply StronglySorted_inv in Hs2 as [Hs2 Ht].
    destruct (serial_cmp_cases _ _ Hrs Hokt) as [(_ & O1 & O2)|[[? ?]|[? ?]]]; [|lia..].
    destruct (serial_cmp_cases _ _ Hokt Hrs) as [(-> & _ & _)|[[? ?]|[? ?]]]; cbn in *; [|lia..].
    rewrite take_app_length, drop_middle. intros [= <- <-].
    set (e1 := if lo t >? l then _ else _). set (e2 := if hi e1 <? h then _ else _).
    assert (He : lo e2 = Z.min (lo t) l /\ hi e2 = Z.max (hi t) h).
    { unfold e2, e1. destruct (Z.gtb_spec (lo t) l); cbn; destruct (Z.ltb_spec (hi t) h); cbn; lia. }
    destruct He as [E1 E2]. destruct (coalesce_spec l1 e2 l2) as [Hw Hc].
    + split; [by apply Forall_app|]. apply StronglySorted_app. split; [|done].
      intros a b Ha Hb. apply H12; [done|by constructor].
    + unfold rs_ok in *. cbn in *. lia.
    + apply Forall_forall. intros a Ha. specialize (H12 a t Ha ltac:(constructor)).
      unfold apart, rs_ok in *. cbn beta. lia.
    + eapply Forall_impl; [exact Ht|]. intros b Hb. unfold apart, rs_ok in *. cbn beta. lia.
    + split; [done|]. left. split; [done|]. intros s. rewrite Hc, covered_app. unfold covered at 4.
      rewrite Exists_cons. fold (covered l2 s). unfold in_range, rs_ok in *.
      assert (lo e2 <= s <= hi e2 <-> lo t <= s <= hi t \/ l <= s <= h) as -> by lia. tauto.
  - assert (match match l2 with [] => None | _ => Some (length l1) end with
            | None => None
            | Some i => match (l1 ++ l2) !! i with
                        | None => None
                        | Some ers => if serial_cmp ers (mk_rs l h) =? 0 then Some (i, ers) else None
                        end
            end = @None (nat * revoked_serial)) as E.
    { destruct l2 as [|t l2]; [done|]. rewrite lookup_middle. inversion_clear Hg2 as [|? ? Hlt _].
      destruct Hwf as [Hok _]. apply Forall_app in Hok as [_ Hok]. inversion_clear Hok as [|? ? Hokt _].
      pose proof (serial_cmp_cases _ _ Hrs Hokt). pose proof (serial_cmp_cases _ _ Hokt Hrs).
      unfold rs_ok in *. cbn in *. destruct (Z.eqb_spec (serial_cmp t (mk_rs l h)) 0); [lia|done]. }
    rewrite Hnf, E. clear E Hnf. destruct (malloc_ok SIZEOF_REVOKED_SERIAL) eqn:Em; cbn [negb].
    2: { intros [= <- <-]. split; [done|]. by right. }
    pose proof (rb_insert_from_spec serial_cmp (length (l1 ++ l2)) (l1 ++ l2) 0 _ ltac:(lia) Ho) as Hi.
    destruct (rb_insert_from _ _ _ _ _) as [t|i].
    { exfalso. destruct Hi as [Ht E]. rewrite Forall_forall in Hg1, Hg2.
      apply elem_of_app in Ht as [Ht|Ht]; [specialize (Hg1 t Ht)|specialize (Hg2 t Ht)]; lia. }
    destruct Hi as (k1 & k2 & E & -> & [Hk1 Hk2]). rewrite E in *. cbn [Nat.add].
    rewrite take_app_length, drop_app_length. intros [= <- <-].
    pose proof Hwf as [Hok _]. apply Forall_app in Hok as [Hok1 Hok2].
    destruct (coalesce_spec k1 (mk_rs l h) k2 Hwf Hrs) as [Hw Hc].
    + rewrite Forall_forall in Hk1, Hok1 |- *. intros a Ha. specialize (Hk1 a Ha).
      pose proof (serial_cmp_cases _ _ Hrs (Hok1 a Ha)). unfold rs_ok in *. cbn in *. lia.
    + rewrite Forall_forall in Hk2, Hok2 |- *. intros a Ha. specialize (Hk2 a Ha).
      pose proof (serial_cmp_cases _ _ Hrs (Hok2 a Ha)). unfold rs_ok in *. cbn in *. lia.
    + split; [done|]. left. split; [done|]. intros s. rewrite Hc, covered_app.
      unfold in_range. cbn. tauto.
Qed.

(** * Blob trees *)

Lemma memcmp_strcmp a b :
  length a = length b -> memcmp a b (length a) = strcmp a b.
Proof.
  revert b. induction a as [|x a IH]; intros [|y b] Hl; cbn in *; try lia.
  rewrite IH by lia. done.
Qed.

Lemma memcmp_prefix a b :
  length a <> length b ->
  Z.sgn (strcmp a b) =
    let r := memcmp a b (Nat.min (length a) (length b)) in
    if negb (r =? 0) then Z.sgn r else if Nat.ltb (length b) (length a) then 1 else -1.
Proof.
  revert b. induction a as [|x a IH]; intros [|y b] Hl; cbn in *; [lia|done|done|].
  destruct (Z.eqb_spec x y) as [->|Hne].
  - rewrite IH by lia. cbn zeta. destruct (negb _); [done|].
    destruct (Nat.ltb_spec (length b) (length a)), (Nat.ltb_spec (S (length b)) (S (length a))); lia.
  - destruct (Z.eqb_spec (x - y) 0); [lia|done].
Qed.

Lemma blob_cmp_sgn a b : Z.sgn (blob_cmp a b) = Z.sgn (strcmp a b).
Proof.
  unfold blob_cmp. destruct (Nat.eqb_spec (length a) (length b)) as [E|E]; cbn [negb].
  - by rewrite memcmp_strcmp.
  - rewrite memcmp_prefix by done. cbn zeta. destruct (negb _); [done|]. by destruct (Nat.ltb _ _).
Qed.

#[global] Instance blob_cmp_total : TotalCmp blob_cmp.
Proof.
  constructor.
  - intros x y. rewrite <- (cmp_eq (cmp := strcmp)). pose proof (blob_cmp_sgn x y). lia.
  - intros x y. pose proof (cmp_flip (cmp := strcmp) x y).
    pose proof (blob_cmp_sgn x y). pose proof (blob_cmp_sgn y x). lia.
  - intros x y z. pose proof (cmp_trans (cmp := strcmp) x y z).
    pose proof (blob_cmp_sgn x y). pose proof (blob_cmp_sgn y z). pose proof (blob_cmp_sgn x z). lia.
Qed.

#[global] Instance key_id_cmp_total : TotalCmp key_id_cmp.
Proof. exact strcmp_total. Qed.

(** * What a KRL says *)

Section meaning.
Context `{TreeShape} `{Allocator} `{SK : SshKey} `{!SshKeyLaws SK}.

(** One elementary revocation; a CA of [None] is any CA. *)
Inductive fact :=
  | FSerial (ca : option sshkey) (s : Z)
  | FKeyId (ca : option sshkey) (id : cstring)
  | FKey (blob : list Z)
  | FSha1 (h : list Z)
  | FSha256 (h : list Z).

Definition ca_eq (a b : option sshkey) : bool :=
  match a, b with
  | None, None => true
  | Some j, Some k => sshkey_equal j k
  | _, _ => false
  end.

Definition some_rc (krl : ssh_krl) (ca : option sshkey) (P : revoked_certs -> Prop) : Prop :=
  exists rc, rc ∈ certs krl /\ ca_eq (ca_key rc) ca = true /\ P rc.

Definition holds (krl : ssh_krl) (f : fact) : Prop :=
  match f with
  | FSerial ca s => some_rc krl ca (fun rc => covered (revoked_serials rc) s)
  | FKeyId ca id => some_rc krl ca (fun rc => id ∈ revoked_key_ids rc)
  | FKey blob => blob ∈ revoked_keys krl
  | FSha1 h => h ∈ revoked_sha1s krl
  | FSha256 h => h ∈ revoked_sha256s krl
  end.

Definition rc_wf (rc : revoked_certs) : Prop :=
  serials_wf (revoked_serials rc) /\ tree_sorted key_id_cmp (revoked_key_ids rc).

Definition distinct_cas (l : list revoked_certs) : Prop :=
  forall i j rc rc', l !! i = Some rc -> l !! j = Some rc' ->
    ca_eq (ca_key rc) (ca_key rc') = true -> i = j.

Definition krl_wf (krl : ssh_krl) : Prop :=
  Forall rc_wf (certs krl) /\ distinct_cas (certs krl) /\
  tree_sorted blob_cmp (revoked_keys krl) /\ tree_sorted blob_cmp (revoked_sha1s krl) /\
  tree_sorted blob_cmp (revoked_sha256s krl).

Lemma ca_eq_refl a : ca_eq a a = true.
Proof. destruct a; [apply key_equal_refl|done]. Qed.

Lemma ca_eq_sym a b : ca_eq a b = ca_eq b a.
Proof. destruct a, b; [apply key_equal_sym|done..]. Qed.

Lemma ca_eq_trans a b c : ca_eq a b = true -> ca_eq b c = true -> ca_eq a c = true.
Proof. destruct a, b, c; cbn; try done. apply key_equal_trans. Qed.

Lemma ca_matches_eq ca rc : ca_matches ca rc = ca_eq (ca_key rc) ca.
Proof. unfold ca_matches. by destruct ca, (ca_key rc). Qed.

Lemma find_ca_spec ca l base :
  match find_ca ca l base with
  | Some i => exists rc, (base <= i)%nat /\ l !! (i - base)%nat = Some rc /\ ca_eq (ca_key rc) ca = true
  | None => Forall (fun rc => ca_eq (ca_key rc) ca = false) l
  end.
Proof.
  revert base. induction l as [|rc l IH]; intros base; cbn [find_ca]; [constructor|].
  rewrite ca_matches_eq. destruct (ca_eq (ca_key rc) ca) eqn:E.
  - exists rc. split; [done|]. by rewrite Nat.sub_diag.
  - specialize (IH (S base)). destruct (find_ca ca l (S base)) as [i|]; [|by constructor].
    destruct IH as (rc' & Hi & Hl & He). exists rc'. split; [lia|]. split; [|done].
    by replace (i - base)%nat with (S (i - S base)) by lia.
Qed.

(** The structure of a CA is unique. *)
Lemma some_rc_unique krl ca i rc P :
  distinct_cas (certs krl) -> certs krl !! i = Some rc -> ca_eq (ca_key rc) ca = true ->
  some_rc krl ca P <-> P rc.
Proof.
  intros Hd Hi He. split.
  - intros (rc' & (j & Hj)%list_elem_of_lookup & He' & HP).
    assert (i = j) as <-; [|congruence]. apply (Hd i j rc rc'); [done|done|].
    eapply ca_eq_trans; [exact He|]. by rewrite ca_eq_sym.
  - intros HP. exists rc. split; [by apply list_elem_of_lookup_2 in Hi|done].
Qed.

Lemma ca_eq_congr a b c : ca_eq a b = true -> ca_eq a c = ca_eq b c.
Proof.
  intros Hab. destruct (ca_eq b c) eqn:E; [by eapply ca_eq_trans|].
  destruct (ca_eq a c) eqn:E'; [|done]. rewrite <- E. symmetry.
  eapply ca_eq_trans; [|exact E']. by rewrite ca_eq_sym.
Qed.

(** Replacing the structure at position [i]. *)
Lemma insert_rc krl i rc rc' ca :
  krl_wf krl -> certs krl !! i = Some rc -> ca_eq (ca_key rc) ca = true ->
  ca_key rc' = ca_key rc -> rc_wf rc' ->
  krl_wf (set_certs krl (<[i := rc']> (certs krl))) /\
  forall ca' P, some_rc (set_certs krl (<[i := rc']> (certs krl))) ca' P <->
    if ca_eq ca ca' then P rc' else some_rc krl ca' P.
Proof.
  intros (Hf & Hd & Hb) Hi He Hk Hrc. pose proof (lookup_lt_Some _ _ _ Hi) as Hlen.
  assert (Hd' : distinct_cas (<[i := rc']> (certs krl))).
  { intros a b ra rb Ha Hb' Heq. apply (Hd a b (if decide (a = i) then rc else ra)
      (if decide (b = i) then rc else rb)).
    - destruct (decide (a = i)) as [->|]; [done|]. by rewrite list_lookup_insert_ne in Ha by congruence.
    - destruct (decide (b = i)) as [->|]; [done|]. by rewrite list_lookup_insert_ne in Hb' by congruence.
    - destruct (decide (a = i)) as [->|]; destruct (decide (b = i)) as [->|]; try done.
      + apply ca_eq_refl.
      + rewrite list_lookup_insert_eq in Ha by done. injection Ha as <-. congruence.
      + rewrite list_lookup_insert_eq in Hb' by done. injection Hb' as <-. congruence. }
  split; [split; [by apply Forall_insert|done]|]. intros ca' P.
  destruct (ca_eq ca ca') eqn:E.
  - apply (some_rc_unique (set_certs krl (<[i := rc']> (certs krl))) ca' i); [done| |].
    + cbn. by apply list_lookup_insert_eq.
    + rewrite Hk. by eapply ca_eq_trans.
  - unfold some_rc. cbn. split; intros (r & (j & Hj)%list_elem_of_lookup & Hr & HP).
    + destruct (decide (i = j)) as [<-|Hne].
      * rewrite list_lookup_insert_eq in Hj by done. injection Hj as <-. rewrite Hk in Hr.
        rewrite <- (ca_eq_congr _ _ ca' He) in E. congruence.
      * rewrite list_lookup_insert_ne in Hj by done. exists r. split; [|done]. by eapply list_elem_of_lookup_2.
    + destruct (decide (i = j)) as [<-|Hne].
      * rewrite <- (ca_eq_congr _ _ ca' He) in E. congruence.
      * exists r. split; [|done]. apply (list_elem_of_lookup_2 _ j). by rewrite list_lookup_insert_ne.
Qed.

(** [revoked_certs_for_ca_key] with creation finds or makes the structure and
    does not change what the KRL says. *)
Lemma for_ca_key_spec ca krl r krl' :
  krl_wf krl -> revoked_certs_for_ca_key ca true krl = (r, krl') ->
  krl_wf krl' /\ (forall f, holds krl' f <-> holds krl f) /\
  (forall o, r = Ok o -> exists i rc, o = Some i /\ certs krl' !! i = Some rc /\
     ca_eq (ca_key rc) ca = true).
Proof.
  intros Hwf. pose proof Hwf as (Hf & Hd & Hb). unfold revoked_certs_for_ca_key.
  unfold mbind, se_bind, se_get, mret, se_ret, se_err, se_put, se_lift. cbn beta iota. pose proof (find_ca_spec ca (certs krl) 0) as Hfind.
  destruct (find_ca ca (certs krl) 0) as [i|].
  { destruct Hfind as (rc & _ & Hi & He). rewrite Nat.sub_0_r in Hi.
    intros [= <- <-].
    split; [done|]. split; [done|]. intros o [= <-]. by exists i, rc. }
  cbn [negb]. destruct (malloc_ok SIZEOF_REVOKED_CERTS); cbn [negb];
    [|intros [= <- <-]; split; [done|]; split; [done|]; discriminate].
  assert (Hnew : forall k, ca_eq k ca = true ->
    let krl1 := set_certs krl (certs krl ++ [mk_rc k [] []]) in
    krl_wf krl1 /\ (forall f, holds krl1 f <-> holds krl f) /\
    (forall o, Ok (Some (length (certs krl))) = Ok o -> exists i rc, o = Some i /\
       certs krl1 !! i = Some rc /\ ca_eq (ca_key rc) ca = true)).
  { intros k Hk krl1. split; [split; [|split; [|done]]|split].
    - cbn. apply Forall_app. split; [done|]. constructor; [|constructor]. repeat constructor.
    - cbn. intros a b ra rb Ha Hb' Heq. rewrite Forall_forall in Hfind.
      apply lookup_app_Some in Ha as [Ha|[Ha1 Ha]]; apply lookup_app_Some in Hb' as [Hb'|[Hb1 Hb']].
      + by apply (Hd a b ra rb).
      + apply list_lookup_singleton_Some in Hb' as [Hb2 <-].
        apply list_elem_of_lookup_2, Hfind in Ha. pose proof (ca_eq_trans _ _ _ Heq Hk). congruence.
      + apply list_lookup_singleton_Some in Ha as [Ha2 <-]. cbn in Heq.
        apply list_elem_of_lookup_2, Hfind in Hb'. rewrite ca_eq_sym in Heq.
        pose proof (ca_eq_trans _ _ _ Heq Hk). congruence.
      + apply list_lookup_singleton_Some in Ha as [Ha2 _]. apply list_lookup_singleton_Some in Hb' as [Hb2 _]. lia.
    - assert (Hs : forall ca' P, ~ P (mk_rc k [] []) -> some_rc krl1 ca' P <-> some_rc krl ca' P).
      { intros ca' P HP. unfold some_rc. cbn. setoid_rewrite elem_of_app. setoid_rewrite list_elem_of_singleton.
        split; [intros (rc & [Hin| ->] & ? & ?); [by exists rc|done]|].
        intros (rc & ? & ? & ?). exists rc. auto. }
      intros [ca' s|ca' id|?|?|?]; cbn; [| |done..]; apply Hs; cbn.
      + intros Hc. inversion Hc.
      + intros Hc. by apply elem_of_nil in Hc.
    - intros o [= <-]. exists (length (certs krl)), (mk_rc k [] []). split; [done|]. split; [|done].
      apply lookup_middle. }
  destruct ca as [ca|].
  - destruct (sshkey_from_private ca) as [k|e] eqn:Ec.
    + cbn. intros [= <- <-]. apply (Hnew (Some k)). cbn. by apply key_copy_equal.
    + cbn. intros [= <- <-]. split; [done|]. by split.
  - cbn. intros [= <- <-]. by apply (Hnew None).
Qed.

(** * Requests *)

Inductive request :=
  | RevSerialRange (ca : option sshkey) (l h : Z)
  | RevSerial (ca : option sshkey) (s : Z)
  | RevKeyId (ca : option sshkey) (id : cstring)
  | RevExplicit (key : sshkey)
  | RevSha1 (h : list Z)
  | RevSha256 (h : list Z)
  | RevKey (key : sshkey).

Definition run_request (q : request) : SE ssh_krl unit :=
  match q with
  | RevSerialRange ca l h => ssh_krl_revoke_cert_by_serial_range ca l h
  | RevSerial ca s => ssh_krl_revoke_cert_by_serial ca s
  | RevKeyId ca id => ssh_krl_revoke_cert_by_key_id ca id
  | RevExplicit key => ssh_krl_revoke_key_explicit key
  | RevSha1 h => ssh_krl_revoke_key_sha1 h
  | RevSha256 h => ssh_krl_revoke_key_sha256 h
  | RevKey key => ssh_krl_revoke_key key
  end.

(** The revocations a successful request stands for. *)
Definition adds_serials (ca : option sshkey) (l h : Z) (f : fact) : Prop :=
  match f with FSerial ca' s => ca_eq ca ca' = true /\ l <= s <= h | _ => False end.
Definition adds_key_id (ca : option sshkey) (id : cstring) (f : fact) : Prop :=
  match f with FKeyId ca' id' => ca_eq ca ca' = true /\ id' = id | _ => False end.
Definition adds_key (key : sshkey) (f : fact) : Prop :=
  match f with FKey blob => plain_key_blob key = Ok blob | _ => False end.

Definition request_adds (q : request) (f : fact) : Prop :=
  match q with
  | RevSerialRange ca l h => adds_serials ca l h f
  | RevSerial ca s => adds_serials ca s s f
  | RevKeyId ca id => adds_key_id ca id f
  | RevExplicit key => adds_key key f
  | RevSha1 h => f = FSha1 h
  | RevSha256 h => f = FSha256 h
  | RevKey key =>
      match sshkey_cert_of key with
      | None => adds_key key f
      | Some c =>
          if cert_serial c =? 0 then adds_key_id (Some (cert_signature_key c)) (cert_key_id c) f
          else adds_serials (Some (cert_signature_key c)) (cert_serial c) (cert_serial c) f
      end
  end.

(** Serial numbers are 64-bit. *)
Definition key_ok (key : sshkey) : Prop :=
  match sshkey_cert_of key with None => True | Some c => 0 <= cert_serial c < 2 ^ 64 end.

Definition request_ok (q : request) : Prop :=
  match q with
  | RevSerialRange _ l h => 0 <= l < 2 ^ 64 /\ 0 <= h < 2 ^ 64
  | RevSerial _ s => 0 <= s < 2 ^ 64
  | RevKey key => key_ok key
  | _ => True
  end.

Definition step_ok (q : SE ssh_krl unit) (adds : fact -> Prop) : Prop :=
  forall krl r krl', krl_wf krl -> q krl = (r, krl') ->
    krl_wf krl' /\ forall f, holds krl' f <-> holds krl f \/ (r = Ok tt /\ adds f).

(** A change of one CA's structure, after the CA was looked up. *)
Lemma with_rc_step ca (g : revoked_certs -> result unit * revoked_certs) adds :
  (forall rc r rc', rc_wf rc -> g rc = (r, rc') ->
     rc_wf rc' /\ ca_key rc' = ca_key rc /\
     (forall s, covered (revoked_serials rc') s <->
        covered (revoked_serials rc) s \/ (r = Ok tt /\ adds (FSerial ca s))) /\
     (forall id, id ∈ revoked_key_ids rc' <->
        id ∈ revoked_key_ids rc \/ (r = Ok tt /\ adds (FKeyId ca id)))) ->
  (forall ca' s, adds (FSerial ca' s) <-> ca_eq ca ca' = true /\ adds (FSerial ca s)) ->
  (forall ca' id, adds (FKeyId ca' id) <-> ca_eq ca ca' = true /\ adds (FKeyId ca id)) ->
  (forall b, ~ adds (FKey b)) -> (forall b, ~ adds (FSha1 b)) -> (forall b, ~ adds (FSha256 b)) ->
  step_ok (i ← revoked_certs_for_ca_key ca true; with_rc i g) adds.
Proof.
  intros Hg Has Hai H1 H2 H3 krl r krl' Hwf. unfold mbind, se_bind.
  destruct (revoked_certs_for_ca_key ca true krl) as [r1 krl1] eqn:E.
  destruct (for_ca_key_spec _ _ _ _ Hwf E) as (Hwf1 & Hh1 & Ho).
  destruct r1 as [o|e]; cycle 1.
  { intros [= <- <-]. split; [done|]. intros f. rewrite Hh1. split; [by left|]. by intros [|[? _]]. }
  destruct (Ho o eq_refl) as (i & rc & -> & Hi & He). unfold with_rc, mbind, se_bind, se_get.
  cbn beta iota. rewrite Hi. destruct (g rc) as [r2 rc'] eqn:Eg.
  pose proof Hwf1 as (Hf & Hd & _). pose proof (proj1 (Forall_lookup _ _) Hf i rc Hi) as Hrc.
  destruct (Hg _ _ _ Hrc Eg) as (Hrc' & Hk & Hs & Hid).
  destruct (insert_rc krl1 i rc rc' ca Hwf1 Hi He Hk Hrc') as [Hwf' Hsome].
  unfold se_put, se_lift. cbn beta iota. intros [= <- <-]. split; [done|].
  assert (Hold : forall ca' P, ca_eq ca ca' = true -> some_rc krl1 ca' P <-> P rc).
  { intros ca' P Hc. apply (some_rc_unique krl1 ca' i); [done|done|]. by eapply ca_eq_trans. }
  intros f. rewrite <- Hh1. destruct f as [ca' s|ca' id|b|b|b]; cbn [holds]; rewrite ?Hsome.
  - rewrite Has. destruct (ca_eq ca ca') eqn:Ec; [|split; [tauto|]; intros [|(_ & ? & _)]; done].
    rewrite Hold, Hs by done. tauto.
  - rewrite Hai. destruct (ca_eq ca ca') eqn:Ec; [|split; [tauto|]; intros [|(_ & ? & _)]; done].
    rewrite Hold, Hid by done. tauto.
  - specialize (H1 b). cbn. tauto.
  - specialize (H2 b). cbn. tauto.
  - specialize (H3 b). cbn. tauto.
Qed.

Lemma serial_range_step ca l h :
  0 <= l < 2 ^ 64 -> 0 <= h < 2 ^ 64 ->
  step_ok (ssh_krl_revoke_cert_by_serial_range ca l h) (adds_serials ca l h).
Proof.
  intros Hl Hh. unfold ssh_krl_revoke_cert_by_serial_range.
  destruct (Z.gtb_spec l h) as [Hgt|Hle]; cbn [orb].
  { intros krl r krl' Hwf [= <- <-]. split; [done|]. intros f. split; [by left|]. by intros [|[? _]]. }
  destruct (Z.eqb_spec l 0) as [E0|Hn0].
  { intros krl r krl' Hwf [= <- <-]. split; [done|]. intros f. split; [by left|]. by intros [|[? _]]. }
  apply with_rc_step; cbn [adds_serials]; try done.
  - intros rc r rc' [Hs Hi]. destruct (insert_serial_range _ l h) as [r1 rt] eqn:E. intros [= <- <-].
    destruct (insert_serial_range_spec (revoked_serials rc) l h _ _ Hs ltac:(lia) ltac:(lia) E) as [Hrt Hc].
    split; [done|]. split; [done|]. split.
    + intros s. cbn. rewrite ca_eq_refl. destruct Hc as [[-> Hc]|(-> & -> & _)]; [rewrite Hc; tauto|].
      split; [by left|]. by intros [|[? _]].
    + intros id. cbn. tauto.
  - intros ca' s. rewrite ca_eq_refl. tauto.
  - intros ca' id. tauto.
  - auto.
  - auto.
  - auto.
Qed.

Lemma key_id_step ca id : step_ok (ssh_krl_revoke_cert_by_key_id ca id) (adds_key_id ca id).
Proof.
  apply with_rc_step; cbn [adds_key_id]; try done.
  - intros rc r rc' [Hs Hi]. destruct (negb _).
    { intros [= <- <-]. split; [done|]. split; [done|].
      split; intros; (split; [by left|]; by intros [|[? _]]). }
    intros [= <- <-]. destruct (RB_INSERT_set key_id_cmp id (revoked_key_ids rc) Hi) as [Hi' Hin].
    split; [done|]. split; [done|]. split; [intros s; cbn; tauto|].
    intros id'. cbn. rewrite Hin, ca_eq_refl. tauto.
  - intros ca' s. tauto.
  - intros ca' id'. rewrite ca_eq_refl. tauto.
  - auto.
  - auto.
  - auto.
Qed.

Lemma revoke_blob_spec rbt blob r rbt' :
  tree_sorted blob_cmp rbt -> revoke_blob rbt blob = (r, rbt') ->
  tree_sorted blob_cmp rbt' /\ forall b, b ∈ rbt' <-> b ∈ rbt \/ (r = Ok tt /\ b = blob).
Proof.
  intros Hs. unfold revoke_blob. destruct (malloc_ok _); cbn [negb]; intros [= <- <-].
  - destruct (RB_INSERT_set blob_cmp blob rbt Hs) as [Hs' Hin]. split; [done|].
    intros b. rewrite Hin. tauto.
  - split; [done|]. intros b. split; [by left|]. by intros [|[? _]].
Qed.

Lemma explicit_step key : step_ok (ssh_krl_revoke_key_explicit key) (adds_key key).
Proof.
  intros krl r krl' Hwf. pose proof Hwf as (Hf & Hd & Hk & Hs1 & Hs2).
  unfold ssh_krl_revoke_key_explicit, mbind, se_bind, se_lift, se_get, se_put. cbn beta iota.
  destruct (plain_key_blob key) as [blob|e] eqn:E; cycle 1.
  { intros [= <- <-]. split; [done|]. intros f. split; [by left|]. by intros [|[? _]]. }
  destruct (revoke_blob (revoked_keys krl) blob) as [r1 t] eqn:Er. intros [= <- <-].
  destruct (revoke_blob_spec _ _ _ _ Hk Er) as [Ht Hin]. split; [done|].
  intros [ca s|ca id|b|b|b]; cbn [holds adds_key set_keys revoked_keys revoked_sha1s revoked_sha256s];
    unfold some_rc; cbn [set_keys certs]; rewrite ?Hin; [tauto|tauto| |tauto|tauto].
  rewrite E. split; (intros [?|[? ?]]; [by left|right]); split; congruence.
Qed.

Lemma hash_step (sha256 : bool) h :
  step_ok (if sha256 then ssh_krl_revoke_key_sha256 h else ssh_krl_revoke_key_sha1 h)
    (fun f => f = if sha256 then FSha256 h else FSha1 h).
Proof.
  intros krl r krl' Hwf. pose proof Hwf as (Hf & Hd & Hk & Hs1 & Hs2).
  assert (Hno : forall (r : result unit) f (P : Prop), r <> Ok tt ->
    holds krl f <-> holds krl f \/ (r = Ok tt /\ P)) by (intros; tauto).
  unfold ssh_krl_revoke_key_sha256, ssh_krl_revoke_key_sha1, revoke_by_hash.
  destruct sha256; (destruct (negb _); [intros [= <- <-]; split; [done|]; intros f; by apply Hno|]);
    (destruct (negb _); [intros [= <- <-]; split; [by destruct krl|]; intros f; destruct krl; by apply Hno|]).
  - destruct (revoke_blob (revoked_sha256s krl) h) as [r1 t] eqn:Er. intros [= <- <-].
    destruct (revoke_blob_spec _ _ _ _ Hs2 Er) as [Ht Hin]. split; [done|].
    intros [ca s|ca id|b|b|b]; cbn [holds set_sha256s revoked_keys revoked_sha1s revoked_sha256s];
      unfold some_rc; cbn [set_sha256s certs]; rewrite ?Hin; (split; [|intros [?|[? ?]]; try done; tauto || naive_solver]);
      naive_solver.
  - destruct (revoke_blob (revoked_sha1s krl) h) as [r1 t] eqn:Er. intros [= <- <-].
    destruct (revoke_blob_spec _ _ _ _ Hs1 Er) as [Ht Hin]. split; [done|].
    intros [ca s|ca id|b|b|b]; cbn [holds set_sha1s revoked_keys revoked_sha1s revoked_sha256s];
      unfold some_rc; cbn [set_sha1s certs]; rewrite ?Hin; (split; [|intros [?|[? ?]]; try done; tauto || naive_solver]);
      naive_solver.
Qed.

Lemma request_step q : request_ok q -> step_ok (run_request q) (request_adds q).
Proof.
  destruct q as [ca l h|ca s|ca id|key|h|h|key]; intros Hq; cbn [run_request].
  - destruct Hq. by apply serial_range_step.
  - by apply serial_range_step.
  - apply key_id_step.
  - apply explicit_step.
  - apply (hash_step false).
  - apply (hash_step true).
  - unfold ssh_krl_revoke_key. cbn [request_ok] in Hq. unfold key_ok in Hq.
    intros krl r krl' Hwf Hr. cbn [request_adds]. destruct (sshkey_cert_of key) as [c|].
    + destruct (cert_serial c =? 0); [by eapply key_id_step|].
      eapply serial_range_step; [done|done|done|exact Hr].
    + by eapply explicit_step.
Qed.

(** * The check *)

Definition revoked_if (P : Prop) (r : result unit) : Prop :=
  (r = Err SSH_ERR_KEY_REVOKED /\ P) \/ (r = Ok tt /\ ~ P).

Lemma covered_find l s :
  serials_wf l -> 0 <= s < 2 ^ 64 -> RB_FIND serial_cmp l (mk_rs s s) <> None <-> covered l s.
Proof.
  intros Hwf Hs. assert (Hrs : rs_ok (mk_rs s s)) by (unfold rs_ok; cbn; lia).
  pose proof (RB_FIND_spec serial_cmp l _ (serials_ordered _ _ Hrs Hwf)) as Hf.
  destruct Hwf as [Hok _]. rewrite Forall_forall in Hok. unfold covered. rewrite Exists_exists.
  destruct (RB_FIND serial_cmp l (mk_rs s s)) as [t|].
  - destruct Hf as [Ht E]. split; [|done]. intros _. exists t. split; [done|].
    pose proof (serial_cmp_cases _ _ Hrs (Hok t Ht)). unfold in_range, rs_ok in *. cbn in *. lia.
  - split; [done|]. intros (t & Ht & Hin). exfalso. rewrite Forall_forall in Hf. apply (Hf t Ht).
    pose proof (serial_cmp_cases _ _ Hrs (Hok t Ht)). unfold in_range, rs_ok in *. cbn in *. lia.
Qed.

Lemma is_cert_revoked_spec cert rc :
  rc_wf rc -> 0 <= cert_serial cert < 2 ^ 64 ->
  revoked_if (cert_key_id cert ∈ revoked_key_ids rc \/
              (cert_serial cert <> 0 /\ covered (revoked_serials rc) (cert_serial cert)))
    (is_cert_revoked cert rc).
Proof.
  intros [Hs Hi] Hr. unfold is_cert_revoked, revoked_if.
  pose proof (RB_FIND_set key_id_cmp (cert_key_id cert) (revoked_key_ids rc) Hi) as Hid.
  pose proof (covered_find _ _ Hs Hr) as Hc.
  destruct (RB_FIND key_id_cmp _ _); [left; split; [done|]; left; by apply Hid|].
  assert (Hnid : cert_key_id cert ∉ revoked_key_ids rc) by (rewrite <- Hid; tauto).
  destruct (Z.eqb_spec (cert_serial cert) 0); [right; split; [done|tauto]|].
  destruct (RB_FIND serial_cmp _ _).
  - left. split; [done|]. right. split; [done|]. by apply Hc.
  - right. split; [done|]. rewrite <- Hc. tauto.
Qed.

(** The facts that revoke certificate [c] when its CA is looked up as [ca]. *)
Definition cert_facts (ca : option sshkey) (c : sshkey_cert sshkey) : list fact :=
  FKeyId ca (cert_key_id c) :: if cert_serial c =? 0 then [] else [FSerial ca (cert_serial c)].

Lemma check_ca_spec krl ca c :
  krl_wf krl -> 0 <= cert_serial c < 2 ^ 64 ->
  revoked_if (Exists (holds krl) (cert_facts ca c)) (check_ca krl ca c).
Proof.
  intros (Hf & Hd & _) Hr. unfold check_ca. pose proof (find_ca_spec ca (certs krl) 0) as Hfind.
  assert (Hex : Exists (holds krl) (cert_facts ca c) <->
    some_rc krl ca (fun rc => cert_key_id c ∈ revoked_key_ids rc) \/
    (cert_serial c <> 0 /\ some_rc krl ca (fun rc => covered (revoked_serials rc) (cert_serial c)))).
  { unfold cert_facts. rewrite Exists_cons. cbn [holds].
    destruct (Z.eqb_spec (cert_serial c) 0); [rewrite Exists_nil; tauto|].
    rewrite Exists_cons, Exists_nil. cbn [holds]. tauto. }
  unfold revoked_if. rewrite Hex. destruct (find_ca ca (certs krl) 0) as [i|].
  - destruct Hfind as (rc & _ & Hi & He). rewrite Nat.sub_0_r in Hi. rewrite Hi.
    rewrite !(some_rc_unique krl ca i rc) by done.
    apply is_cert_revoked_spec; [|done]. exact (proj1 (Forall_lookup _ _) Hf i rc Hi).
  - right. split; [done|]. rewrite Forall_forall in Hfind.
    intros [(rc & Hin & He & _)|(_ & rc & Hin & He & _)]; specialize (Hfind rc Hin); congruence.
Qed.

(** The facts that revoke a key, when its digests and blob can be computed. *)
Definition key_facts (key : sshkey) : result (list fact) :=
  h1 ← sshkey_fingerprint_raw key SSH_DIGEST_SHA1;
  h2 ← sshkey_fingerprint_raw key SSH_DIGEST_SHA256;
  blob ← plain_key_blob key;
  Ok ([FSha1 h1; FSha256 h2; FKey blob] ++
      match sshkey_cert_of key with
      | None => []
      | Some c => cert_facts (Some (cert_signature_key c)) c ++ cert_facts None c
      end).

Lemma is_key_revoked_spec krl key fs :
  krl_wf krl -> key_ok key -> key_facts key = Ok fs ->
  revoked_if (Exists (holds krl) fs) (is_key_revoked krl key).
Proof.
  intros Hwf Hkey. pose proof Hwf as (_ & _ & Hk & Hs1 & Hs2). unfold key_facts, is_key_revoked.
  unfold mbind, result_bind. destruct (sshkey_fingerprint_raw key SSH_DIGEST_SHA1) as [h1|]; [|done].
  destruct (sshkey_fingerprint_raw key SSH_DIGEST_SHA256) as [h2|]; [|done].
  destruct (plain_key_blob key) as [blob|]; [|done]. intros <-%ok_inj. unfold revoked_if.
  rewrite Exists_app, 3!Exists_cons, Exists_nil. cbn [holds].
  pose proof (RB_FIND_set blob_cmp h1 _ Hs1) as F1. pose proof (RB_FIND_set blob_cmp h2 _ Hs2) as F2.
  pose proof (RB_FIND_set blob_cmp blob _ Hk) as F3.
  destruct (RB_FIND blob_cmp (revoked_sha1s krl) h1); [left; split; [done|]; left; left; by apply F1|].
  destruct (RB_FIND blob_cmp (revoked_sha256s krl) h2); [left; split; [done|]; left; right; left; by apply F2|].
  destruct (RB_FIND blob_cmp (revoked_keys krl) blob); [left; split; [done|]; left; right; right; left; by apply F3|].
  rewrite <- F1, <- F2, <- F3. unfold key_ok in Hkey.
  destruct (sshkey_cert_of key) as [c|]; [|right; split; [done|]; rewrite Exists_nil; tauto].
  rewrite Exists_app.
  destruct (check_ca_spec krl (Some (cert_signature_key c)) c Hwf Hkey) as [[-> Hc]|[-> Hc]]; [tauto|].
  destruct (check_ca_spec krl None c Hwf Hkey) as [[-> Hc']|[-> Hc']]; tauto.
Qed.

(** The facts that revoke a key or, for a certificate, the key of its CA. *)
Definition all_facts (key : sshkey) : result (list fact) :=
  fs ← key_facts key;
  match sshkey_cert_of key with
  | None => Ok fs
  | Some c => fs' ← key_facts (cert_signature_key c); Ok (fs ++ fs')
  end.

Definition keys_ok (key : sshkey) : Prop :=
  key_ok key /\ match sshkey_cert_of key with None => True | Some c => key_ok (cert_signature_key c) end.

Lemma check_key_spec krl key fs :
  krl_wf krl -> keys_ok key -> all_facts key = Ok fs ->
  revoked_if (Exists (holds krl) fs) (ssh_krl_check_key krl key).
Proof.
  intros Hwf [Hk1 Hk2]. unfold all_facts, ssh_krl_check_key, mbind, result_bind.
  destruct (key_facts key) as [f1|] eqn:E1; [|done].
  pose proof (is_key_revoked_spec krl key f1 Hwf Hk1 E1) as H1. unfold revoked_if in *.
  destruct (sshkey_cert_of key) as [c|].
  - destruct (key_facts (cert_signature_key c)) as [f2|] eqn:E2; [|done]. intros [= <-].
    pose proof (is_key_revoked_spec krl _ f2 Hwf Hk2 E2) as H2. unfold revoked_if in H2.
    rewrite Exists_app. destruct H1 as [[-> ?]|[-> ?]]; [tauto|]. destruct H2 as [[-> ?]|[-> ?]]; tauto.
  - intros [= <-]. destruct H1 as [[-> ?]|[-> ?]]; tauto.
Qed.

(** * Sequences of requests *)

Fixpoint run_requests (qs : list request) (krl : ssh_krl) : list (result unit) * ssh_krl :=
  match qs with
  | [] => ([], krl)
  | q :: qs => let '(r, krl) := run_request q krl in
               let '(rs, krl) := run_requests qs krl in (r :: rs, krl)
  end.

(** Some request that returned 0 covers the fact. *)
Definition requested (qs : list request) (rs : list (result unit)) (f : fact) : Prop :=
  Exists (fun '(q, r) => r = Ok tt /\ request_adds q f) (zip qs rs).

Lemma run_requests_spec qs krl rs krl' :
  krl_wf krl -> Forall request_ok qs -> run_requests qs krl = (rs, krl') ->
  krl_wf krl' /\ forall f, holds krl' f <-> holds krl f \/ requested qs rs f.
Proof.
  intros Hwf Hq. revert krl rs Hwf. induction Hq as [|q qs Hq Hqs IH]; intros krl rs Hwf; cbn.
  { intros [= <- <-]. split; [done|]. intros f. unfold requested. cbn. rewrite Exists_nil. tauto. }
  destruct (run_request q krl) as [r krl1] eqn:E1. destruct (run_requests qs krl1) as [rs1 krl2] eqn:E2.
  intros [= <- <-]. destruct (request_step q Hq _ _ _ Hwf E1) as [Hwf1 H1].
  destruct (IH krl1 rs1 Hwf1 E2) as [Hwf2 H2]. split; [done|]. intros f.
  rewrite H2, H1. unfold requested. cbn. rewrite Exists_cons. tauto.
Qed.

Lemma init_wf krl : ssh_krl_init = Some krl -> krl_wf krl /\ forall f, ~ holds krl f.
Proof.
  unfold ssh_krl_init. destruct (malloc_ok _); [|done]. intros [= <-]. split.
  - split; [constructor|]. split; [intros i j rc rc' Hi; done|]. repeat split; constructor.
  - intros [ca s|ca id|b|b|b]; cbn; [intros (rc & Hin & _)..| | |]; by intros ?%elem_of_nil || by apply elem_of_nil in Hin.
Qed.

(** C33: a KRL revokes exactly what was requested.  After any sequence of
    revocation requests on a fresh KRL (failed ones included), and whatever the
    shapes of its trees, [ssh_krl_check_key] reports a key as revoked exactly
    when some successful request covers the key or the key of its CA: by
    fingerprint, by plain key blob, or for a certificate by key id or nonzero
    serial number in a requested range under its CA or under any CA; otherwise
    it returns 0.  (For keys whose digests and blobs can be computed.) *)
Theorem krl_revokes_exactly qs krl0 rs krl key fs :
  ssh_krl_init = Some krl0 -> Forall request_ok qs -> run_requests qs krl0 = (rs, krl) ->
  keys_ok key -> all_facts key = Ok fs ->
  (ssh_krl_check_key krl key = Err SSH_ERR_KEY_REVOKED <-> Exists (requested qs rs) fs) /\
  (ssh_krl_check_key krl key = Ok tt <-> ~ Exists (requested qs rs) fs).
Proof.
  intros Hi Hq Hr Hk Hf. destruct (init_wf _ Hi) as [Hwf0 Hno].
  destruct (run_requests_spec _ _ _ _ Hwf0 Hq Hr) as [Hwf Hh].
  assert (Hiff : Exists (holds krl) fs <-> Exists (requested qs rs) fs).
  { rewrite !Exists_exists. setoid_rewrite Hh. split; intros (f & Hin & Hx); exists f; (split; [done|]).
    - destruct Hx as [Hx|]; [by apply Hno in Hx|done].
    - by right. }
  destruct (check_key_spec _ _ _ Hwf Hk Hf) as [[-> Hx]|[-> Hx]]; rewrite Hiff in Hx;
    split; split; done || tauto.
Qed.

End meaning.

(** * Canonical ranges *)

Fixpoint insert_ranges `{TreeShape} `{Allocator} (rs : list (Z * Z)) (rt : list revoked_serial) :
    list revoked_serial :=
  match rs with
  | [] => rt
  | (l, h) :: rs => insert_ranges rs (snd (insert_serial_range rt l h))
  end.

Definition range_ok (p : Z * Z) : Prop := 0 <= fst p <= snd p /\ snd p < 2 ^ 64.

Lemma insert_ranges_spec `{TreeShape} `{Allocator} `{!ReliableAllocator _} rs rt :
  Forall range_ok rs -> serials_wf rt ->
  serials_wf (insert_ranges rs rt) /\
  forall s, covered (insert_ranges rs rt) s <-> covered rt s \/ Exists (fun p => fst p <= s <= snd p) rs.
Proof.
  intros Hrs. revert rt. induction Hrs as [|[l h] rs [H1 H2] Hrs IH]; intros rt Hwf; cbn [insert_ranges].
  { split; [done|]. intros s. rewrite Exists_nil. tauto. }
  destruct (insert_serial_range rt l h) as [r rt'] eqn:E. cbn [snd].
  destruct (insert_serial_range_spec rt l h r rt' Hwf H1 H2 E) as [Hwf' [[_ Hc]|(_ & _ & Hm)]].
  - destruct (IH rt' Hwf') as [Hw Hs]. split; [done|]. intros s. rewrite Hs, Hc, Exists_cons. cbn. tauto.
  - by rewrite malloc_reliable in Hm.
Qed.

(** Canonical form: two well-formed lists that cover the same numbers are
    equal. *)
Lemma serials_canonical l k :
  serials_wf l -> serials_wf k -> (forall s, covered l s <-> covered k s) -> l = k.
Proof.
  intros [Hl1 Hl2]. revert k. induction Hl2 as [|a l Hs IH Ha]; intros k [Hk1 Hk2] Hc.
  { destruct k as [|b k]; [done|]. inversion_clear Hk1 as [|? ? Hb _].
    assert (Hx : covered [] (lo b)) by (apply Hc; left; unfold in_range, rs_ok in *; lia). inversion Hx. }
  inversion_clear Hl1 as [|? ? Hoa Hol].
  destruct Hk2 as [|b k Hks Hb].
  { assert (Hx : covered [] (lo a)) by (apply Hc; left; unfold in_range, rs_ok in *; lia). inversion Hx. }
  inversion_clear Hk1 as [|? ? Hob Hok].
  assert (Hgt : forall x m, rs_ok x -> Forall rs_ok m -> Forall (apart x) m -> forall s,
    covered (x :: m) s -> lo x <= s /\ (s <= hi x + 1 -> s <= hi x)).
  { intros x m Hx Hm Hap s Hcov. unfold covered in Hcov. apply Exists_cons in Hcov as [Hin|Hin].
    - unfold in_range in Hin. lia.
    - apply Exists_exists in Hin as (y & Hy & Hin). rewrite Forall_forall in Hap.
      specialize (Hap y Hy). unfold apart, in_range, rs_ok in *. lia. }
  assert (Hin : forall x m s, in_range s x -> covered (x :: m) s) by (intros; by left).
  assert (Hab : a = b).
  { assert (Hlo : lo a = lo b).
    { pose proof (proj1 (Hc (lo a)) ltac:(apply Hin; unfold in_range, rs_ok in *; lia)) as C1.
      pose proof (proj2 (Hc (lo b)) ltac:(apply Hin; unfold in_range, rs_ok in *; lia)) as C2.
      apply (Hgt b k Hob Hok Hb) in C1. apply (Hgt a l Hoa Hol Ha) in C2. lia. }
    assert (Hhi : hi a = hi b).
    { destruct (Z.lt_trichotomy (hi a) (hi b)) as [Hlt|[|Hlt]]; [|done|].
      - pose proof (proj2 (Hc (hi a + 1)) ltac:(apply Hin; unfold in_range, rs_ok in *; lia)) as C.
        apply (Hgt a l Hoa Hol Ha) in C. lia.
      - pose proof (proj1 (Hc (hi b + 1)) ltac:(apply Hin; unfold in_range, rs_ok in *; lia)) as C.
        apply (Hgt b k Hob Hok Hb) in C. lia. }
    destruct a, b. cbn in *. congruence. }
  subst b. f_equal. apply IH; [done|by split|]. intros s.
  assert (Hsep : forall m, Forall rs_ok m -> Forall (apart a) m -> covered m s -> hi a < s).
  { intros m Hm Hap Hcov. apply Exists_exists in Hcov as (y & Hy & Hyin). rewrite Forall_forall in Hap.
    specialize (Hap y Hy). unfold apart, in_range in *. lia. }
  assert (Hout : forall m, hi a < s -> covered (a :: m) s -> covered m s).
  { intros m Hgt' Hcov. unfold covered in Hcov. apply Exists_cons in Hcov as [Hx|Hx]; [unfold in_range in Hx; lia|done]. }
  split; intros Hcov.
  - apply Hout; [by apply (Hsep l)|]. apply Hc. by right.
  - apply Hout; [by apply (Hsep k)|]. apply Hc. by right.
Qed.

(** Serial ranges.  Inserting ranges of 64-bit serial numbers one after the
    other keeps the tree canonical: ranges in order, disjoint and not adjacent,
    covering exactly the union of the inserted ranges; the result does not
    depend on the order of insertion, nor on the shape of the tree. *)
Theorem serial_ranges_canonical (S1 S2 : TreeShape) `{Allocator} `{!ReliableAllocator _} rs rs' :
  Forall range_ok rs -> rs ≡ₚ rs' ->
  let rt := @insert_ranges S1 _ rs [] in
  serials_wf rt /\
  (forall s, covered rt s <-> Exists (fun p => fst p <= s <= snd p) rs) /\
  @insert_ranges S2 _ rs' [] = rt.
Proof.
  intros Hrs Hp rt. assert (Hnil : serials_wf []) by (split; constructor).
  assert (Hrs' : Forall range_ok rs') by by rewrite <- Hp.
  destruct (@insert_ranges_spec S1 _ _ rs [] Hrs Hnil) as [W1 C1].
  destruct (@insert_ranges_spec S2 _ _ rs' [] Hrs' Hnil) as [W2 C2].
  assert (Hno : forall s, ~ covered [] s) by (intros s Hc; inversion Hc).
  unfold rt. split; [done|]. split; [intros s; rewrite C1; specialize (Hno s); tauto|].
  apply serials_canonical; [done|done|]. intros s. rewrite C1, C2. by rewrite Hp.
Qed.

Lemma serial_ranges_canonical_witness :
  @insert_ranges balanced alloc_all [(20, 30); (5, 9); (10, 12); (31, 31); (1, 1)] [] =
    [mk_rs 1 1; mk_rs 5 12; mk_rs 20 31] /\
  @insert_ranges balanced alloc_all [(1, 1); (5, 9); (10, 12); (20, 30); (31, 31)] [] =
    [mk_rs 1 1; mk_rs 5 12; mk_rs 20 31].
Proof.
  split; [vm_compute; reflexivity|].
  rewrite (proj2 (proj2 (@serial_ranges_canonical balanced balanced alloc_all alloc_all_reliable
    [(20, 30); (5, 9); (10, 12); (31, 31); (1, 1)]
    [(1, 1); (5, 9); (10, 12); (20, 30); (31, 31)]
    ltac:(repeat (constructor; [split; cbn; lia|]); constructor)
    ltac:(apply (bool_decide_unpack _); vm_compute; exact I)))).
  vm_compute. reflexivity.
Defined.

(** * Concrete keys *)

(** A plain key with a number, or a certificate for it with serial, key id and
    the number of the CA key. *)
Inductive demo_key := DPlain (n : Z) | DCert (n serial : Z) (id : cstring) (ca : Z).
#[global] Instance demo_key_eq_dec : EqDecision demo_key.
Proof. solve_decision. Defined.

Definition demo_num (k : demo_key) : Z := match k with DPlain n | DCert n _ _ _ => n end.

Definition demo_keys : SshKey := {|
  sshkey := demo_key;
  sshkey_equal := fun j k => bool_decide (j = k);
  sshkey_from_private := Ok;
  sshkey_cert_of := fun k =>
    match k with DPlain _ => None | DCert _ s id ca => Some (mk_cert s id (DPlain ca)) end;
  sshkey_drop_cert := fun k => Ok (DPlain (demo_num k));
  sshkey_to_blob := fun k => Ok [demo_num k];
  sshkey_fingerprint_raw := fun k d =>
    Ok [match d with SSH_DIGEST_SHA1 => 1 | SSH_DIGEST_SHA256 => 2 end; demo_num k];
|}.

Lemma demo_keys_laws : SshKeyLaws demo_keys.
Proof.
  constructor; cbn; intros.
  - by apply bool_decide_eq_true_2.
  - apply bool_decide_ext. split; congruence.
  - match goal with H : _ = true, H' : _ = true |- _ =>
      apply bool_decide_eq_true in H, H'; subst end. by apply bool_decide_eq_true_2.
  - match goal with H : Ok _ = _ |- _ => injection H as -> end. by apply bool_decide_eq_true_2.
Qed.

Lemma krl_revokes_exactly_witness :
  let ca : @sshkey demo_keys := DPlain 100 in
  let qs : list (@request demo_keys) :=
    [RevSerialRange (Some ca) 5 9; RevSerialRange (Some ca) 12 3; RevSerial (Some ca) 10] in
  let key : @sshkey demo_keys := DCert 1 7 [65] 100 in
  let krl0 := @mk_krl demo_keys 0 0 0 None [] [] [] [] in
  let '(rs, krl) := @run_requests balanced alloc_all demo_keys qs krl0 in
  rs = [Ok tt; Err SSH_ERR_INVALID_ARGUMENT; Ok tt] /\
  exists fs, @all_facts demo_keys key = Ok fs /\
    Exists (@requested demo_keys qs rs) fs.
Proof.
  intros ca qs key krl0. destruct (run_requests qs krl0) as [rs krl] eqn:E.
  split; [vm_compute in E; injection E as <- _; reflexivity|].
  destruct (@all_facts demo_keys key) as [fs|] eqn:Ef; [|discriminate Ef]. exists fs. split; [reflexivity|].
  assert (Hck : @ssh_krl_check_key balanced demo_keys krl key = Err SSH_ERR_KEY_REVOKED).
  { vm_compute in E. injection E as _ <-. vm_compute. reflexivity. }
  apply (@krl_revokes_exactly balanced alloc_all demo_keys demo_keys_laws qs krl0 rs krl key fs).
  - reflexivity.
  - repeat (constructor; [cbn; lia|]). constructor.
  - exact E.
  - split; cbn; [lia|exact I].
  - exact Ef.
  - exact Hck.
Defined.
