(* ===== verification/KrlWire.v ===== *)
(** Key revocation lists: the serialised form of krl.c, written by
    [ssh_krl_to_blob] and read by [ssh_krl_from_blob].

    The functions work on the modelled sshbuf, bitmap and KRL.  Loading,
    signing and verifying keys are an interface that sshkey.c implements.  This
    file holds both directions and the proof that the writer produces the wire
    form of its plan of sections; KrlBlob.v reads it back. *)

From S2P Require Import Prelude Sshbuf SshbufGetPut Match Bitmap RbTree Krl.
Local Open Scope Z_scope.

(** * Keys on the wire *)

Class SshKeyWire (SK : SshKey) := {
  sshkey_from_blob : list Z -> result sshkey;
  sshkey_sign : sshkey -> list Z -> result (list Z);
  sshkey_verify : sshkey -> list Z -> list Z -> result unit;
}.

Definition KRL_MAGIC : list Z := [83; 83; 72; 75; 82; 76; 10; 0].
Definition KRL_FORMAT_VERSION : Z := 1.
Definition KRL_SECTION_CERTIFICATES : Z := 1.
Definition KRL_SECTION_EXPLICIT_KEY : Z := 2.
Definition KRL_SECTION_FINGERPRINT_SHA1 : Z := 3.
Definition KRL_SECTION_SIGNATURE : Z := 4.
Definition KRL_SECTION_FINGERPRINT_SHA256 : Z := 5.
Definition KRL_SECTION_CERT_SERIAL_LIST : Z := 0x20.
Definition KRL_SECTION_CERT_SERIAL_RANGE : Z := 0x21.
Definition KRL_SECTION_CERT_SERIAL_BITMAP : Z := 0x22.
Definition KRL_SECTION_CERT_KEY_ID : Z := 0x23.
Definition INT_MAX : Z := 2 ^ 31 - 1.

(** * Choosing the kind of section *)

(** The new state and whether a new section is forced.  The three minima keep
    all sums below 2^64. *)
Definition choose_next_state (current_state contig : Z) (final : bool) (last_gap next_gap : Z) : Z * bool :=
  let contig := MINIMUM contig (Z.shiftl 1 31) in
  let last_gap := MINIMUM last_gap (Z.shiftl 1 31) in
  let next_gap := MINIMUM next_gap (Z.shiftl 1 31) in
  let '(cost_list, cost_bitmap, cost_bitmap_restart) :=
    if current_state =? KRL_SECTION_CERT_SERIAL_LIST then (0, 8 + 64, 8 + 64)
    else if current_state =? KRL_SECTION_CERT_SERIAL_BITMAP then (8, 0, 8 + 64)
    else if (current_state =? KRL_SECTION_CERT_SERIAL_RANGE) || (current_state =? 0) then (8, 8 + 64, 8 + 64)
    else (0, 0, 0) in
  let cost_range := 8 in
  let cost_list := cost_list + (64 * contig + if final then 0 else 8 + 64) in
  let cost_range := cost_range + (2 * 64 + if final then 0 else 8 + 64) in
  let cost_bitmap := cost_bitmap + (last_gap + contig + if final then 0 else MINIMUM next_gap (8 + 64)) in
  let cost_bitmap_restart := cost_bitmap_restart + (contig + if final then 0 else MINIMUM next_gap (8 + 64)) in
  let cost_list := (cost_list + 7) / 8 in
  let cost_bitmap := (cost_bitmap + 7) / 8 in
  let cost_bitmap_restart := (cost_bitmap_restart + 7) / 8 in
  let cost_range := (cost_range + 7) / 8 in
  let '(new_state, cost) := (KRL_SECTION_CERT_SERIAL_BITMAP, cost_bitmap) in
  let '(new_state, cost) := if cost_range <? cost then (KRL_SECTION_CERT_SERIAL_RANGE, cost_range) else (new_state, cost) in
  let '(new_state, cost) := if cost_list <? cost then (KRL_SECTION_CERT_SERIAL_LIST, cost_list) else (new_state, cost) in
  if cost_bitmap_restart <? cost then (KRL_SECTION_CERT_SERIAL_BITMAP, true) else (new_state, false).

(** * Writing *)

(** The locals of [revoked_certs_generate]. *)
Record gen := mk_gen {
  g_buf : sshbuf;
  g_sect : sshbuf;
  g_bitmap : option bitmap;
  g_state : Z;
  g_last : Z;
  g_start : Z;
}.

Definition on_buf {A} (m : SE sshbuf A) : SE gen A := fun g =>
  let '(r, b) := m (g_buf g) in (r, mk_gen b (g_sect g) (g_bitmap g) (g_state g) (g_last g) (g_start g)).
Definition on_sect {A} (m : SE sshbuf A) : SE gen A := fun g =>
  let '(r, b) := m (g_sect g) in (r, mk_gen (g_buf g) b (g_bitmap g) (g_state g) (g_last g) (g_start g)).
Definition set_bitmap (o : option bitmap) : SE gen unit :=
  se_modify (fun g => mk_gen (g_buf g) (g_sect g) o (g_state g) (g_last g) (g_start g)).
Definition set_state (s : Z) : SE gen unit :=
  se_modify (fun g => mk_gen (g_buf g) (g_sect g) (g_bitmap g) s (g_last g) (g_start g)).
Definition set_last (s : Z) : SE gen unit :=
  se_modify (fun g => mk_gen (g_buf g) (g_sect g) (g_bitmap g) (g_state g) s (g_start g)).
Definition set_start (s : Z) : SE gen unit :=
  se_modify (fun g => mk_gen (g_buf g) (g_sect g) (g_bitmap g) (g_state g) (g_last g) s).

Section krl_wire.
Context `{TreeShape} `{Allocator} `{SK : SshKey} `{!SshKeyWire SK}.

Definition put_bitmap (bm : bitmap) : SE sshbuf unit :=
  let '(len, bm) := bitmap_nbytes bm in
  if negb (malloc_ok len) then se_err SSH_ERR_ALLOC_FAIL
  else
    match fst (bitmap_to_string bm (zrepeat len)) with
    | None => se_err SSH_ERR_INTERNAL_ERROR
    | Some blob => sshbuf_put_bignum2_bytes blob
    end.

(** The switch that ends a section, and its output. *)
Definition finish_section : SE gen unit :=
  g ← se_get;
  _ ← (if g_state g =? KRL_SECTION_CERT_SERIAL_BITMAP then
         match g_bitmap g with
         | None => se_err SSH_ERR_INTERNAL_ERROR
         | Some bm => _ ← on_sect (put_bitmap bm); set_bitmap None
         end
       else mret tt);
  g ← se_get;
  _ ← on_buf (sshbuf_put_u8 (g_state g));
  on_buf (sshbuf_put_stringb (Some (g_sect g))).

Definition start_section (rs : revoked_serial) (next_state : Z) : SE gen unit :=
  _ ← set_state next_state;
  _ ← on_sect (se_modify sshbuf_reset);
  if next_state =? KRL_SECTION_CERT_SERIAL_BITMAP then
    match bitmap_new with
    | None => se_err SSH_ERR_ALLOC_FAIL
    | Some bm =>
        _ ← set_bitmap (Some bm);
        _ ← set_start (lo rs);
        on_sect (sshbuf_put_u64 (lo rs))
    end
  else mret tt.

(** [for (i = 0; i < contig; i++)] with [n] rounds left. *)
Fixpoint put_serials (n : nat) (rs : revoked_serial) (i : Z) : SE sshbuf unit :=
  match n with
  | O => mret tt
  | S n => _ ← sshbuf_put_u64 (u64 (lo rs + i)); put_serials n rs (i + 1)
  end.

Fixpoint set_serials (n : nat) (first i : Z) (bm : bitmap) : bool * bitmap :=
  match n with
  | O => (true, bm)
  | S n =>
      let '(r, bm) := bitmap_set_bit bm (u32 (first + i)) in
      if r then set_serials n first (i + 1) bm else (false, bm)
  end.

(** The section-specific processing; false is the jump to [out] with [r] still
    zero. *)
Definition put_range (rs : revoked_serial) (contig : Z) : SE gen bool :=
  g ← se_get;
  if g_state g =? KRL_SECTION_CERT_SERIAL_LIST then
    _ ← on_sect (put_serials (Z.to_nat contig) rs 0); mret true
  else if g_state g =? KRL_SECTION_CERT_SERIAL_RANGE then
    _ ← on_sect (sshbuf_put_u64 (lo rs)); _ ← on_sect (sshbuf_put_u64 (hi rs)); mret true
  else if g_state g =? KRL_SECTION_CERT_SERIAL_BITMAP then
    if u64 (lo rs - g_start g) >? INT_MAX then mret false
    else
      match g_bitmap g with
      | None => se_err SSH_ERR_INTERNAL_ERROR
      | Some bm =>
          let '(r, bm) := set_serials (Z.to_nat contig) (u64 (lo rs - g_start g)) 0 bm in
          _ ← set_bitmap (Some bm);
          if r then mret true else se_err SSH_ERR_ALLOC_FAIL
      end
  else mret true.

(** One round of the loop over the serials; [nrs] is the next range. *)
Definition generate_round (rs : revoked_serial) (nrs : option revoked_serial) : SE gen bool :=
  g ← se_get;
  let final := match nrs with None => true | Some _ => false end in
  let gap := match nrs with None => 0 | Some nrs => u64 (lo nrs - hi rs) end in
  let contig := u64 (1 + (hi rs - lo rs)) in
  let state := g_state g in
  let '(next_state, force_new_sect) :=
    choose_next_state state contig final (if state =? 0 then 0 else u64 (lo rs - g_last g)) gap in
  _ ← (if negb (state =? 0) && (force_new_sect || negb (next_state =? state) ||
            (state =? KRL_SECTION_CERT_SERIAL_RANGE))
       then _ ← finish_section; on_sect (se_modify sshbuf_reset)
       else mret tt);
  _ ← (if negb (next_state =? state) || force_new_sect then start_section rs next_state else mret tt);
  go ← put_range rs contig;
  if go : bool then _ ← set_last (hi rs); mret true else mret false.

Fixpoint generate_serials (l : list revoked_serial) : SE gen bool :=
  match l with
  | [] => mret true
  | rs :: l => go ← generate_round rs (head l); if go : bool then generate_serials l else mret false
  end.

Fixpoint put_key_ids (ids : list cstring) : SE sshbuf unit :=
  match ids with
  | [] => mret tt
  | id :: ids => _ ← sshbuf_put_cstring (Some id); put_key_ids ids
  end.

Definition sshkey_puts (k : sshkey) : SE sshbuf unit :=
  match sshbuf_new with
  | None => se_err SSH_ERR_ALLOC_FAIL
  | Some _ => blob ← se_lift (sshkey_to_blob k); sshbuf_put_string blob
  end.

Definition put_section (type : Z) (sect : sshbuf) : SE sshbuf unit :=
  if negb (sshbuf_len sect =? 0) then
    _ ← sshbuf_put_u8 type; sshbuf_put_stringb (Some sect)
  else mret tt.

Definition revoked_certs_generate (rc : revoked_certs) : SE sshbuf unit := fun buf =>
  match sshbuf_new with
  | None => (Err SSH_ERR_ALLOC_FAIL, buf)
  | Some sect =>
      let '(r, g) :=
        (_ ← on_buf (match ca_key rc with None => sshbuf_put_string [] | Some k => sshkey_puts k end);
         _ ← on_buf (sshbuf_put_string []);
         go ← generate_serials (revoked_serials rc);
         if go : bool then
           g ← se_get;
           _ ← (if negb (g_state g =? 0) then finish_section else mret tt);
           _ ← on_sect (se_modify sshbuf_reset);
           _ ← on_sect (put_key_ids (revoked_key_ids rc));
           g ← se_get;
           on_buf (put_section KRL_SECTION_CERT_KEY_ID (g_sect g))
         else mret tt) (mk_gen buf sect None 0 0 0) in
      (r, g_buf g)
  end.

(** A section for the blobs of a tree, in the reset buffer [sect]. *)
Fixpoint put_blobs (l : list (list Z)) : SE sshbuf unit :=
  match l with
  | [] => mret tt
  | b :: l => _ ← sshbuf_put_string b; put_blobs l
  end.

(** State: the output and the section buffer. *)
Definition on_fst {S T A} (m : SE S A) : SE (S * T) A := fun '(s, t) => let '(r, s) := m s in (r, (s, t)).
Definition on_snd {S T A} (m : SE T A) : SE (S * T) A := fun '(s, t) => let '(r, t) := m t in (r, (s, t)).

Definition blobs_section (type : Z) (l : list (list Z)) : SE (sshbuf * sshbuf) unit :=
  _ ← on_snd (se_modify sshbuf_reset);
  _ ← on_snd (put_blobs l);
  s ← se_get;
  on_fst (put_section type (snd s)).

Fixpoint certs_sections (l : list revoked_certs) : SE (sshbuf * sshbuf) unit :=
  match l with
  | [] => mret tt
  | rc :: l =>
      _ ← on_snd (se_modify sshbuf_reset);
      _ ← on_snd (revoked_certs_generate rc);
      s ← se_get;
      _ ← on_fst (sshbuf_put_u8 KRL_SECTION_CERTIFICATES);
      _ ← on_fst (sshbuf_put_stringb (Some (snd s)));
      certs_sections l
  end.

Fixpoint put_signatures (keys : list sshkey) : SE sshbuf unit :=
  match keys with
  | [] => mret tt
  | k :: keys =>
      _ ← sshbuf_put_u8 KRL_SECTION_SIGNATURE;
      _ ← sshkey_puts k;
      b ← se_get;
      sblob ← se_lift (sshkey_sign k (ztake (sshbuf_len b) (default [] (sshbuf_ptr b))));
      _ ← sshbuf_put_string sblob;
      put_signatures keys
  end.

Definition set_date (krl : ssh_krl) (t : Z) : ssh_krl :=
  mk_krl (krl_version krl) t (flags krl) (comment krl) (revoked_keys krl) (revoked_sha1s krl)
    (revoked_sha256s krl) (certs krl).

(** [now] is the result of time(NULL). *)
Definition ssh_krl_to_blob (now : Z) (sign_keys : list sshkey) : SE (ssh_krl * sshbuf) unit := fun '(krl, buf) =>
  let krl := if generated_date krl =? 0 then set_date krl now else krl in
  match sshbuf_new with
  | None => (Err SSH_ERR_ALLOC_FAIL, (krl, buf))
  | Some sect =>
      let '(r, (buf, _)) :=
        (_ ← on_fst (
           _ ← sshbuf_put KRL_MAGIC;
           _ ← sshbuf_put_u32 KRL_FORMAT_VERSION;
           _ ← sshbuf_put_u64 (krl_version krl);
           _ ← sshbuf_put_u64 (generated_date krl);
           _ ← sshbuf_put_u64 (flags krl);
           _ ← sshbuf_put_string [];
           sshbuf_put_cstring (comment krl));
         _ ← certs_sections (certs krl);
         _ ← blobs_section KRL_SECTION_EXPLICIT_KEY (revoked_keys krl);
         _ ← blobs_section KRL_SECTION_FINGERPRINT_SHA1 (revoked_sha1s krl);
         _ ← blobs_section KRL_SECTION_FINGERPRINT_SHA256 (revoked_sha256s krl);
         on_fst (put_signatures sign_keys)) (buf, sect) in
      (r, (krl, buf))
  end.

(** * Reading *)

(** [while (sshbuf_len(b) > 0)] on the first component; every round consumes
    data, so [sshbuf_len] rounds are enough. *)
Fixpoint while_data {S} (fuel : nat) (body : SE (sshbuf * S) unit) : SE (sshbuf * S) unit := fun s =>
  if sshbuf_len (fst s) >? 0 then
    match fuel with
    | O => (Err SSH_ERR_INTERNAL_ERROR, s)
    | S fuel => (_ ← body; while_data fuel body) s
    end
  else (Ok tt, s).
Definition while_buf {S} (body : SE (sshbuf * S) unit) : SE (sshbuf * S) unit := fun s =>
  while_data (Z.to_nat (sshbuf_len (fst s))) body s.

(** sshbuf_froms, work on the child, sshbuf_free of the child. *)
Definition with_child {S A} (m : SE (sshbuf * S) A) : SE (sshbuf * S) A := fun '(b, s) =>
  match sshbuf_froms b with
  | (Err e, b) => (Err e, (b, s))
  | (Ok child, b) => let '(r, (_, s)) := m (child, s) in (r, (sshbuf_unref b, s))
  end.

(** [for (serial = 0; serial < nbits; serial++)] with [n] rounds left. *)
Fixpoint revoke_bits (n : nat) (ca : option sshkey) (serial_lo serial : Z) (bm : bitmap) : SE ssh_krl unit :=
  match n with
  | O => mret tt
  | S n =>
      if (serial >? 0) && (u64 (serial_lo + serial) =? 0) then se_err SSH_ERR_INVALID_FORMAT
      else if negb (bitmap_test_bit bm (u32 serial)) then revoke_bits n ca serial_lo (serial + 1) bm
      else
        _ ← ssh_krl_revoke_cert_by_serial ca (u64 (serial_lo + serial));
        revoke_bits n ca serial_lo (serial + 1) bm
  end.

Definition parse_cert_section (ca : option sshkey) (type : Z) : SE (sshbuf * ssh_krl) unit :=
  if type =? KRL_SECTION_CERT_SERIAL_LIST then
    while_buf (serial ← on_fst sshbuf_get_u64; on_snd (ssh_krl_revoke_cert_by_serial ca serial))
  else if type =? KRL_SECTION_CERT_SERIAL_RANGE then
    serial_lo ← on_fst sshbuf_get_u64;
    serial_hi ← on_fst sshbuf_get_u64;
    on_snd (ssh_krl_revoke_cert_by_serial_range ca serial_lo serial_hi)
  else if type =? KRL_SECTION_CERT_SERIAL_BITMAP then
    match bitmap_new with
    | None => se_err SSH_ERR_ALLOC_FAIL
    | Some bm =>
        serial_lo ← on_fst sshbuf_get_u64;
        blob ← on_fst sshbuf_get_bignum2_bytes_direct;
        let '(r, bm) := bitmap_from_string bm blob in
        if negb r then se_err SSH_ERR_INVALID_FORMAT
        else
          let '(nbits, bm) := bitmap_nbits bm in
          on_snd (revoke_bits (Z.to_nat nbits) ca serial_lo 0 bm)
    end
  else if type =? KRL_SECTION_CERT_KEY_ID then
    while_buf (key_id ← on_fst sshbuf_get_cstring; on_snd (ssh_krl_revoke_cert_by_key_id ca key_id))
  else se_err SSH_ERR_INVALID_FORMAT.

(** The check after each section. *)
Definition no_rest {S} : SE (sshbuf * S) unit :=
  s ← se_get; if sshbuf_len (fst s) >? 0 then se_err SSH_ERR_INVALID_FORMAT else mret tt.

Definition parse_revoked_certs : SE (sshbuf * ssh_krl) unit :=
  match sshbuf_new with
  | None => se_err SSH_ERR_ALLOC_FAIL
  | Some _ =>
      blob ← on_fst sshbuf_get_string_direct;
      _ ← on_fst sshbuf_skip_string;
      ca ← (if negb (zlen blob =? 0) then k ← se_lift (sshkey_from_blob blob); mret (Some k) else mret None);
      while_buf (
        type ← on_fst sshbuf_get_u8;
        with_child (_ ← parse_cert_section ca type; no_rest))
  end.

Definition blob_section (expected_len : Z) : SE (sshbuf * list (list Z)) unit :=
  while_buf (
    rdata ← on_fst sshbuf_get_string;
    if negb (expected_len =? 0) && negb (zlen rdata =? expected_len) then se_err SSH_ERR_INVALID_FORMAT
    else on_snd (fun t => revoke_blob t rdata)).

(** [blob_section] on one of the trees of the KRL. *)
Definition on_tree (get : ssh_krl -> list (list Z)) (set : ssh_krl -> list (list Z) -> ssh_krl)
    (m : SE (sshbuf * list (list Z)) unit) : SE (sshbuf * ssh_krl) unit := fun '(b, krl) =>
  let '(r, (b, t)) := m (b, get krl) in (r, (b, set krl t)).

Definition parse_section (type : Z) : SE (sshbuf * ssh_krl) unit :=
  if type =? KRL_SECTION_CERTIFICATES then parse_revoked_certs
  else if type =? KRL_SECTION_EXPLICIT_KEY then on_tree revoked_keys set_keys (blob_section 0)
  else if type =? KRL_SECTION_FINGERPRINT_SHA1 then on_tree revoked_sha1s set_sha1s (blob_section 20)
  else if type =? KRL_SECTION_FINGERPRINT_SHA256 then on_tree revoked_sha256s set_sha256s (blob_section 32)
  else se_err SSH_ERR_INVALID_FORMAT.

(** The second pass over the sections. *)
Definition parse_sections : SE (sshbuf * ssh_krl) unit :=
  while_buf (
    type ← on_fst sshbuf_get_u8;
    _ ← with_child (if type =? KRL_SECTION_SIGNATURE then mret tt else _ ← parse_section type; no_rest);
    if type =? KRL_SECTION_SIGNATURE then on_fst sshbuf_skip_string else mret tt).

(** The first pass: the keys that signed.  [data] is the whole blob; the state
    is the copy, whether a signature was seen and the keys so far. *)
Definition signature_round (data : list Z) : SE (sshbuf * (bool * list sshkey)) unit :=
  type ← on_fst sshbuf_get_u8;
  blob ← on_fst sshbuf_get_string_direct;
  s ← se_get;
  let '(copy, (sig_seen, ca_used)) := s in
  if negb (type =? KRL_SECTION_SIGNATURE) then
    if sig_seen : bool then se_err SSH_ERR_INVALID_FORMAT else mret tt
  else
    match sshkey_from_blob blob with
    | Err _ => se_err SSH_ERR_INVALID_FORMAT
    | Ok key =>
        if zlen data <? sshbuf_len copy then se_err SSH_ERR_INTERNAL_ERROR
        else
          let sig_off := zlen data - sshbuf_len copy in
          match sshbuf_get_string_direct copy with
          | (Err _, copy) => _ ← se_put (copy, (true, ca_used)); se_err SSH_ERR_INVALID_FORMAT
          | (Ok sig, copy) =>
              _ ← se_put (copy, (true, ca_used));
              _ ← se_lift (sshkey_verify key sig (ztake sig_off data));
              if existsb (fun k => sshkey_equal k key) ca_used then se_err SSH_ERR_INVALID_FORMAT
              else if negb (malloc_ok (8 * (zlen ca_used + 1))) then se_err SSH_ERR_ALLOC_FAIL
              else se_put (copy, (true, ca_used ++ [key]))
          end
    end.

Definition parse_signatures (data : list Z) : SE (sshbuf * (bool * list sshkey)) unit :=
  while_buf (signature_round data).

(** The last two checks of [ssh_krl_from_blob]. *)
Definition check_signers (krl : ssh_krl) (ca_used sign_ca_keys : list sshkey) : result unit :=
  let valid := List.filter (fun k => is_ok (ssh_krl_check_key krl k)) ca_used in
  let sig_seen := match valid with [] => false | _ => true end in
  if negb (zlen ca_used =? 0) && negb sig_seen then Err SSH_ERR_KEY_REVOKED
  else if sig_seen && negb (zlen sign_ca_keys =? 0) then
    if existsb (fun t => existsb (fun k => sshkey_equal k t) valid) sign_ca_keys then Ok tt
    else Err SSH_ERR_SIGNATURE_INVALID
  else Ok tt.

(** The header fields after the magic. *)
Definition parse_header : SE (sshbuf * ssh_krl) unit :=
  format_version ← on_fst sshbuf_get_u32;
  if negb (format_version =? KRL_FORMAT_VERSION) then se_err SSH_ERR_INVALID_FORMAT
  else
    version ← on_fst sshbuf_get_u64;
    date ← on_fst sshbuf_get_u64;
    fl ← on_fst sshbuf_get_u64;
    _ ← on_fst sshbuf_skip_string;
    c ← on_fst sshbuf_get_cstring;
    on_snd (se_modify (fun krl => mk_krl version date fl (Some c) (revoked_keys krl) (revoked_sha1s krl)
      (revoked_sha256s krl) (certs krl))).

(** [ssh_krl_from_blob]: the return value and [*krlp]; the blob is left as it
    was once the copy is freed. *)
Definition ssh_krl_from_blob (sign_ca_keys : list sshkey) : SE sshbuf (option ssh_krl) := fun buf =>
  let data := ztake (sshbuf_len buf) (default [] (sshbuf_ptr buf)) in
  if (sshbuf_len buf <? zlen KRL_MAGIC) || negb (memcmp data KRL_MAGIC (length KRL_MAGIC) =? 0)
  then (Err SSH_ERR_KRL_BAD_MAGIC, buf)
  else
    match sshbuf_fromb buf with
    | (None, buf) => (Err SSH_ERR_ALLOC_FAIL, buf)
    | (Some copy, buf1) =>
        match sshbuf_consume (zlen KRL_MAGIC) copy with
        | (Err e, _) => (Err e, sshbuf_unref buf1)
        | (Ok _, copy) =>
            match ssh_krl_init with
            | None => (Ok None, sshbuf_unref buf1)
            | Some krl =>
                match parse_header (copy, krl) with
                | (Err e, _) => (Err e, sshbuf_unref buf1)
                | (Ok _, (copy, krl)) =>
                    if sshbuf_len buf1 <? sshbuf_len copy then (Err SSH_ERR_INTERNAL_ERROR, sshbuf_unref buf1)
                    else
                      let sects_off := sshbuf_len buf1 - sshbuf_len copy in
                      match parse_signatures data (copy, (false, [])) with
                      | (Err e, _) => (Err e, sshbuf_unref buf1)
                      | (Ok _, (copy, (_, ca_used))) =>
                          if negb (sshbuf_len copy =? 0) then (Err SSH_ERR_INTERNAL_ERROR, sshbuf_unref buf1)
                          else
                            match sshbuf_fromb (sshbuf_unref buf1) with
                            | (None, buf) => (Err SSH_ERR_ALLOC_FAIL, buf)
                            | (Some copy, buf2) =>
                                match sshbuf_consume sects_off copy with
                                | (Err e, _) => (Err e, sshbuf_unref buf2)
                                | (Ok _, copy) =>
                                    match parse_sections (copy, krl) with
                                    | (Err e, _) => (Err e, sshbuf_unref buf2)
                                    | (Ok _, (_, krl)) =>
                                        match check_signers krl ca_used sign_ca_keys with
                                        | Err e => (Err e, sshbuf_unref buf2)
                                        | Ok _ => (Ok (Some krl), sshbuf_unref buf2)
                                        end
                                    end
                                end
                            end
                      end
                end
            end
        end
    end.

End krl_wire.

(** * The sections of the serial numbers of a CA *)

(** A finished section: single serials, one range, or a bitmap (as the number
    with these bits) from a first serial on. *)
Inductive csect :=
  | CList (l : list Z)
  | CRange (l h : Z)
  | CBitmap (start v : Z).

Definition csect_type (c : csect) : Z :=
  match c with
  | CList _ => KRL_SECTION_CERT_SERIAL_LIST
  | CRange _ _ => KRL_SECTION_CERT_SERIAL_RANGE
  | CBitmap _ _ => KRL_SECTION_CERT_SERIAL_BITMAP
  end.

Definition enc_serials (l : list Z) : list Z := concat (POKE_U64 <$> l).

Definition csect_body (c : csect) : list Z :=
  match c with
  | CList l => enc_serials l
  | CRange l h => POKE_U64 l ++ POKE_U64 h
  | CBitmap start v => POKE_U64 start ++ enc_bignum (to_bytes v)
  end.

Definition enc_section (type : Z) (body : list Z) : list Z := type :: enc_string body.
Definition enc_csect (c : csect) : list Z := enc_section (csect_type c) (csect_body c).

(** What a bitmap reader accepts. *)
Definition narrow (c : csect) : Prop :=
  match c with CBitmap _ v => 0 <= v /\ nbits v <= 8 * SSHBUF_MAX_BIGNUM | _ => True end.

(** The serials [first], ..., [first + n - 1], and their bits. *)
Fixpoint run_from (n : nat) (first : Z) : list Z :=
  match n with O => [] | S n => first :: run_from n (first + 1) end.
Fixpoint set_run (n : nat) (first v : Z) : Z :=
  match n with O => v | S n => set_run n (first + 1) (Z.setbit v first) end.

Definition width (rs : revoked_serial) : nat := Z.to_nat (u64 (1 + (hi rs - lo rs))).

Definition fresh_section (state : Z) (rs : revoked_serial) : csect :=
  if state =? KRL_SECTION_CERT_SERIAL_LIST then CList (run_from (width rs) (lo rs))
  else if state =? KRL_SECTION_CERT_SERIAL_RANGE then CRange (lo rs) (hi rs)
  else CBitmap (lo rs) (set_run (width rs) 0 0).

Definition extend_section (c : csect) (rs : revoked_serial) : csect :=
  match c with
  | CList l => CList (l ++ run_from (width rs) (lo rs))
  | CRange _ _ => CRange (lo rs) (hi rs)
  | CBitmap start v => CBitmap start (set_run (width rs) (lo rs - start) v)
  end.

Definition cur_state (cur : option csect) : Z := match cur with None => 0 | Some c => csect_type c end.

(** The choice of one round. *)
Definition choice (cur : option csect) (last : Z) (rs : revoked_serial) (nrs : option revoked_serial) : Z * bool :=
  choose_next_state (cur_state cur) (u64 (1 + (hi rs - lo rs)))
    (match nrs with None => true | Some _ => false end)
    (if cur_state cur =? 0 then 0 else u64 (lo rs - last))
    (match nrs with None => 0 | Some nrs => u64 (lo nrs - hi rs) end).

(** Sections finished by a round, and the section it leaves open. *)
Definition plan_round (cur : option csect) (last : Z) (rs : revoked_serial) (nrs : option revoked_serial) :
    list csect * csect :=
  let '(next, force) := choice cur last rs nrs in
  match cur with
  | None => ([], fresh_section next rs)
  | Some c =>
      if force || negb (next =? csect_type c) || (csect_type c =? KRL_SECTION_CERT_SERIAL_RANGE)
      then ([c], fresh_section next rs)
      else ([], extend_section c rs)
  end.

Fixpoint plan (cur : option csect) (last : Z) (l : list revoked_serial) : list csect :=
  match l with
  | [] => match cur with None => [] | Some c => [c] end
  | rs :: l => let '(out, c) := plan_round cur last rs (head l) in out ++ plan (Some c) (hi rs) l
  end.

Lemma choose_kinds st ct fin lg ng :
  fst (choose_next_state st ct fin lg ng) = KRL_SECTION_CERT_SERIAL_LIST \/
  fst (choose_next_state st ct fin lg ng) = KRL_SECTION_CERT_SERIAL_RANGE \/
  fst (choose_next_state st ct fin lg ng) = KRL_SECTION_CERT_SERIAL_BITMAP.
Proof.
  unfold choose_next_state. cbn zeta.
  destruct (if st =? KRL_SECTION_CERT_SERIAL_LIST then _ else _) as [[a b] c].
  destruct (_ <? _); destruct (_ <? _); destruct (_ <? _); auto.
Qed.

(** The cost model keeps the writer's loops short.  However large a range of
    serial numbers is, single serials are written only for ranges of at most two
    numbers and bits are set only for ranges of at most 208, so the loops over the
    serials of a range are bounded; everything else is written as a range. *)
Theorem choose_next_state_bounded st contig fin last_gap next_gap :
  0 <= contig -> 0 <= last_gap -> 0 <= next_gap ->
  let state := fst (choose_next_state st contig fin last_gap next_gap) in
  (state = KRL_SECTION_CERT_SERIAL_LIST -> contig <= 2) /\
  (state = KRL_SECTION_CERT_SERIAL_BITMAP -> contig <= 208).
Proof.
  intros Hc Hl Hg ns. subst ns. unfold choose_next_state. cbn zeta.
  rewrite !MINIMUM_min. change (Z.shiftl 1 31) with 2147483648.
  destruct (if st =? KRL_SECTION_CERT_SERIAL_LIST then _ else _) as [[a b] c] eqn:E.
  assert (0 <= a /\ 0 <= b /\ 0 <= c) by (repeat case_match; simplify_eq; lia).
  set (m := if fin then 0 else Z.min _ _). assert (0 <= m) by (unfold m; destruct fin; lia).
  set (f := if fin then 0 else 8 + 64). assert (0 <= f <= 72) by (unfold f; destruct fin; lia).
  repeat match goal with |- context [?x / 8] => let q := fresh "q" in
    pose proof (Z.div_mod x 8 ltac:(lia)); pose proof (Z.mod_pos_bound x 8 ltac:(lia)); set (q := x / 8) in * end.
  repeat match goal with |- context [?x <? ?y] => destruct (Z.ltb_spec x y) end; cbn [fst]; split; intros; try done; lia.
Qed.

Lemma choose_next_state_bounded_witness :
  let state := fst (choose_next_state KRL_SECTION_CERT_SERIAL_BITMAP 5 false 3 4) in
  state = KRL_SECTION_CERT_SERIAL_BITMAP /\
  (state = KRL_SECTION_CERT_SERIAL_LIST -> 5 <= 2) /\ (state = KRL_SECTION_CERT_SERIAL_BITMAP -> 5 <= 208).
Proof.
  intros state. split; [reflexivity|].
  apply (choose_next_state_bounded KRL_SECTION_CERT_SERIAL_BITMAP 5 false 3 4); lia.
Defined.

(** ** Bits *)

Lemma land_le v w : 0 <= v -> Z.land v w <= v.
Proof.
  intros Hv. apply Z.ldiff_le; [lia|]. apply Z.bits_inj'. intros k Hk.
  rewrite Z.ldiff_spec, Z.land_spec, Z.bits_0. by destruct (Z.testbit v k), (Z.testbit w k).
Qed.

Lemma setbit_mono v n : 0 <= v -> 0 <= n -> v <= Z.setbit v n.
Proof.
  intros Hv Hn. rewrite Z.setbit_spec'. pose proof (Z.add_lor_land v (2 ^ n)) as E.
  assert (0 < 2 ^ n) by (apply Z.pow_pos_nonneg; lia).
  pose proof (land_le (2 ^ n) v ltac:(lia)) as Hl. rewrite Z.land_comm in Hl. lia.
Qed.

Lemma set_run_mono n first v : 0 <= first -> 0 <= v -> v <= set_run n first v.
Proof.
  revert first v. induction n as [|n IH]; intros first v Hf Hv; cbn; [done|].
  pose proof (setbit_mono v first Hv Hf). specialize (IH (first + 1) (Z.setbit v first)). lia.
Qed.

Lemma set_run_testbit n first v k :
  0 <= first -> 0 <= k ->
  Z.testbit (set_run n first v) k = Z.testbit v k || ((first <=? k) && (k <? first + Z.of_nat n)).
Proof.
  revert first v. induction n as [|n IH]; intros first v Hf Hk; cbn [set_run].
  { destruct (Z.leb_spec first k), (Z.ltb_spec k (first + Z.of_nat 0)); cbn; try lia; by rewrite orb_false_r. }
  rewrite IH, Z.setbit_eqb by lia.
  destruct (Z.eqb_spec first k), (Z.testbit v k), (Z.leb_spec (first + 1) k),
    (Z.ltb_spec k (first + 1 + Z.of_nat n)), (Z.leb_spec first k), (Z.ltb_spec k (first + Z.of_nat (S n)));
    cbn; try done; lia.
Qed.

Lemma nbits_mono v w : 0 <= v <= w -> nbits v <= nbits w.
Proof.
  intros Hv. unfold nbits. destruct (Z.eqb_spec v 0), (Z.eqb_spec w 0); try lia.
  - pose proof (Z.log2_nonneg w). lia.
  - pose proof (Z.log2_le_mono v w). lia.
Qed.

Lemma nbits_setbit v n : 0 <= v -> 0 <= n -> n < nbits (Z.setbit v n).
Proof.
  intros Hv Hn. assert (H2 : 2 ^ n <= Z.setbit v n).
  { rewrite Z.setbit_spec'. pose proof (Z.add_lor_land v (2 ^ n)). pose proof (land_le v (2 ^ n) Hv). lia. }
  assert (0 < 2 ^ n) by (apply Z.pow_pos_nonneg; lia). unfold nbits.
  destruct (Z.eqb_spec (Z.setbit v n) 0); [lia|].
  pose proof (Z.log2_le_mono _ _ H2) as Hl. rewrite Z.log2_pow2 in Hl by done. lia.
Qed.

Lemma nbits_run n first v : 0 <= first -> 0 <= v -> (n <> 0)%nat -> first + Z.of_nat n <= nbits (set_run n first v).
Proof.
  revert first v. induction n as [|n IH]; intros first v Hf Hv Hn; [done|]. cbn [set_run].
  pose proof (setbit_mono v first Hv Hf). destruct n as [|n].
  - cbn. pose proof (nbits_setbit v first Hv Hf). lia.
  - specialize (IH (first + 1) (Z.setbit v first)). lia.
Qed.

(** ** The writer follows the plan *)

(** A writable buffer with limit [mx] and contents [c]. *)
Definition buf_is (mx : Z) (b : sshbuf) (c : list Z) : Prop :=
  buf_wf b /\ locked b = false /\ max_size b = mx /\ contents b = c.

Lemma puts_is `{Allocator} {A} (m : SE sshbuf A) v a mx c :
  Puts m v a -> zlen c + zlen v <= mx -> sim (buf_is mx) m c a (c ++ v).
Proof.
  intros Hp Hz b (Hb & Hl & Hm & Hc). destruct (Hp b Hb Hl) as (b' & E & Hx & Hc'); [by rewrite Hc, Hm|].
  exists b'. split; [done|]. split; [apply Hx|]. split; [by rewrite (buf_ext_locked _ _ Hx)|].
  split; [by rewrite (ext_max _ _ Hx)|]. by rewrite Hc', Hc.
Qed.

Lemma reset_is `{Allocator} `{!ReliableAllocator _} mx c :
  SSHBUF_SIZE_INIT <= mx -> sim (buf_is mx) (se_modify sshbuf_reset) c tt [].
Proof.
  intros Hm. apply sim_modify. intros b (Hb & Hl & Hx & Hc).
  destruct (sshbuf_reset_spec b Hb Hl) as [He Hn]; [by rewrite Hx|].
  split; [apply He|]. split; [by rewrite (buf_ext_locked _ _ He)|]. split; [by rewrite (ext_max _ _ He)|done].
Qed.

Lemma len_is mx b c : buf_is mx b c -> sshbuf_len b = zlen c /\ ztake (sshbuf_len b) (default [] (sshbuf_ptr b)) = c.
Proof.
  intros (Hb & Hl & Hm & Hc). rewrite sshbuf_len_wf, sshbuf_ptr_wf by done. cbn [default]. rewrite Hc.
  split; [done|]. by apply ztake_ge.
Qed.

(** What the locals of the writer stand for. *)
Record gs := mk_gs {
  s_buf : list Z; s_sect : list Z; s_bm : option Z; s_state : Z; s_last : Z; s_start : Z }.

Definition bm_is (o : option bitmap) (v : option Z) : Prop :=
  match o, v with
  | None, None => True
  | Some bm, Some v => bitmap_wf bm /\ bitmap_value bm = v
  | _, _ => False
  end.

Definition gen_rel (mx : Z) (g : gen) (a : gs) : Prop :=
  buf_is mx (g_buf g) (s_buf a) /\ buf_is SSHBUF_SIZE_MAX (g_sect g) (s_sect a) /\
  bm_is (g_bitmap g) (s_bm a) /\ g_state g = s_state a /\ g_last g = s_last a /\ g_start g = s_start a.

Section writer.
Context `{TreeShape} `{Allocator} `{!ReliableAllocator _} `{SK : SshKey} `{!SshKeyWire SK}.
Context (mx : Z).
Notation does := (sim (gen_rel mx)).

Lemma does_buf {A} (m : SE sshbuf A) v x B T o st la sa :
  Puts m v x -> zlen B + zlen v <= mx ->
  does (on_buf m) (mk_gs B T o st la sa) x (mk_gs (B ++ v) T o st la sa).
Proof.
  intros Hp Hz g (G1 & G2). destruct (puts_is m v x mx B Hp Hz _ G1) as (b' & E & Hb).
  unfold on_buf. rewrite E. eexists. split; [done|]. by split.
Qed.

Lemma does_sect {A} (m : SE sshbuf A) v x B T o st la sa :
  Puts m v x -> zlen T + zlen v <= SSHBUF_SIZE_MAX ->
  does (on_sect m) (mk_gs B T o st la sa) x (mk_gs B (T ++ v) o st la sa).
Proof.
  intros Hp Hz g (G1 & G2 & G3). destruct (puts_is m v x _ T Hp Hz _ G2) as (b' & E & Hb).
  unfold on_sect. rewrite E. eexists. split; [done|]. by split.
Qed.

Lemma does_reset B T o st la sa :
  does (on_sect (se_modify sshbuf_reset)) (mk_gs B T o st la sa) tt (mk_gs B [] o st la sa).
Proof.
  intros g (G1 & G2 & G3). destruct (reset_is SSHBUF_SIZE_MAX T ltac:(done) _ G2) as (b' & E & Hb).
  unfold on_sect. rewrite E. eexists. split; [done|]. by split.
Qed.

Lemma put_stringb_puts mx' b s : string_ok s -> buf_is mx' b s -> Puts (sshbuf_put_stringb (Some b)) (enc_string s) tt.
Proof. intros Hs Hb. cbn. destruct (len_is _ _ _ Hb) as [_ ->]. by apply put_string_puts. Qed.

Lemma zlen_enc_bignum v : zlen v <= SSHBUF_MAX_BIGNUM -> zlen (enc_bignum v) <= SSHBUF_MAX_BIGNUM + 5.
Proof.
  intros Hv. unfold enc_bignum. rewrite enc_string_len, bignum_pad_len. pose proof (skip_zeros_len v).
  destruct (msb_set _); lia.
Qed.

Lemma nbytes_narrow v : nbits v <= 8 * SSHBUF_MAX_BIGNUM -> nbytes v <= SSHBUF_MAX_BIGNUM.
Proof. unfold nbytes. intros. assert ((nbits v + 7) / 8 < SSHBUF_MAX_BIGNUM + 1); [apply Z.div_lt_upper_bound; lia|lia]. Qed.

Lemma put_bitmap_puts bm :
  bitmap_wf bm -> nbits (bitmap_value bm) <= 8 * SSHBUF_MAX_BIGNUM ->
  Puts (put_bitmap bm) (enc_bignum (to_bytes (bitmap_value bm))) tt.
Proof.
  intros Hw Hn. unfold put_bitmap, bitmap_nbytes. destruct (bitmap_nbits_spec bm Hw) as (bm' & -> & Hw' & Hv & _).
  rewrite malloc_reliable. cbn [negb]. fold (nbytes (bitmap_value bm)).
  pose proof (nbytes_nonneg (bitmap_value bm)). pose proof (nbytes_narrow _ Hn) as Hb.
  destruct (bitmap_to_string_spec bm' (zrepeat (nbytes (bitmap_value bm))) Hw') as (b2 & _ & _ & ->).
  rewrite Hv, zlen_zrepeat by done. destruct (Z.ltb_spec (nbytes (bitmap_value bm)) (nbytes (bitmap_value bm))); [lia|].
  cbn [fst]. rewrite zdrop_ge; [|rewrite zlen_zrepeat; [done|done]]. rewrite app_nil_r.
  apply appends_puts, sshbuf_put_bignum2_bytes_appends. rewrite zlen_to_bytes.
  change SSHBUF_MAX_BIGNUM with 2048 in *. unfold SSHBUF_SIZE_MAX. lia.
Qed.

(** The section buffer, the bitmap and the state for an open section. *)
Definition open_sect (c : csect) : list Z :=
  match c with CBitmap start _ => POKE_U64 start | _ => csect_body c end.
Definition open_bm (c : csect) : option Z := match c with CBitmap _ v => Some v | _ => None end.
Definition start_ok (c : csect) (sa : Z) : Prop := match c with CBitmap start _ => sa = start | _ => True end.
Definition open_gs (B : list Z) (c : csect) (la sa : Z) : gs :=
  mk_gs B (open_sect c) (open_bm c) (csect_type c) la sa.

Definition fits (c : csect) : Prop := narrow c /\ zlen (csect_body c) <= SSHBUF_SIZE_MAX - 4.

Lemma does_finish B c la sa :
  fits c -> zlen B + zlen (enc_csect c) <= mx ->
  does finish_section (open_gs B c la sa) tt
    (mk_gs (B ++ enc_csect c) (csect_body c) None (csect_type c) la sa).
Proof.
  intros [Hn Hf] Hz. unfold enc_csect, enc_section in Hz. rewrite zlen_cons in Hz. unfold finish_section.
  apply sim_get. intros g0 G0. eapply (sim_bind _ _ _ _ tt (mk_gs B (csect_body c) None (csect_type c) la sa)).
  - pose proof G0 as (_ & _ & Gb & Gs & _). cbn [open_gs s_state s_bm] in Gs, Gb. rewrite Gs.
    destruct c as [l|l h|start v]; [apply sim_ret..|]. cbn [csect_type Z.eqb Pos.eqb KRL_SECTION_CERT_SERIAL_BITMAP].
    destruct (g_bitmap g0) as [bm|]; [|done]. destruct Gb as [Hw Hv]. cbn [narrow] in Hn.
    unfold open_gs. cbn [open_sect open_bm csect_type csect_body] in *. rewrite zlen_app in Hf.
    eapply sim_bind; [apply does_sect; [apply put_bitmap_puts; [done|rewrite Hv; apply Hn]|rewrite Hv; lia]|].
    apply sim_modify. intros g (G1 & G2 & G3 & G4). rewrite Hv in G2. exact (conj G1 (conj G2 (conj I G4))).
  - apply sim_get. intros g1 (G1 & G2 & _ & G4 & _). cbn in G4, G2. rewrite G4.
    eapply sim_bind; [apply does_buf; [apply put_u8_puts|]|].
    { change (zlen [csect_type c]) with 1. pose proof (zlen_nonneg (enc_string (csect_body c))). lia. }
    unfold enc_csect, enc_section.
    replace (B ++ csect_type c :: enc_string (csect_body c)) with ((B ++ [csect_type c]) ++ enc_string (csect_body c))
      by by rewrite <- app_assoc.
    apply does_buf; [by eapply put_stringb_puts|]. rewrite zlen_app. change (zlen [csect_type c]) with 1. lia.
Qed.

(** *** One range *)

Definition range_in (rs : revoked_serial) : Prop := 1 <= lo rs <= hi rs /\ hi rs < 2 ^ 64.

Lemma width_val rs : range_in rs -> Z.of_nat (width rs) = hi rs - lo rs + 1 /\ u64 (1 + (hi rs - lo rs)) = hi rs - lo rs + 1.
Proof. intros [Hl Hh]. unfold width. rewrite u64_small by lia. lia. Qed.

Lemma put_serials_puts n rs i :
  0 <= lo rs + i -> lo rs + i + Z.of_nat n <= 2 ^ 64 ->
  Puts (put_serials n rs i) (enc_serials (run_from n (lo rs + i))) tt.
Proof.
  revert i. induction n as [|n IH]; intros i Hi0 Hn; cbn [put_serials run_from]; [apply puts_ret|].
  rewrite u64_small by lia. unfold enc_serials. rewrite fmap_cons. cbn [concat].
  eapply puts_bind; [apply put_u64_puts|]. rewrite <- Z.add_assoc. apply IH; lia.
Qed.

Lemma set_serials_run n first i bm :
  bitmap_wf bm -> 0 <= first + i -> first + i + Z.of_nat n <= BITMAP_MAX ->
  exists bm', set_serials n first i bm = (true, bm') /\ bitmap_wf bm' /\
    bitmap_value bm' = set_run n (first + i) (bitmap_value bm).
Proof.
  revert i bm. induction n as [|n IH]; intros i bm Hw Hi0 Hn; cbn [set_serials set_run]; [by exists bm|].
  rewrite u32_small by (change BITMAP_MAX with 16777216 in Hn; lia).
  destruct (bitmap_set_bit bm (first + i)) as [r bm1] eqn:E.
  destruct (bitmap_set_bit_spec _ _ _ _ Hw Hi0 E) as (Hw1 & Hv1 & _).
  pose proof (set_bit_reliable bm (first + i) Hw) as Hr. rewrite E in Hr. cbn [fst] in Hr.
  destruct (Z.leb_spec (first + i) BITMAP_MAX); [|lia]. subst r.
  destruct (IH (i + 1) bm1 Hw1) as (bm2 & E2 & Hw2 & Hv2); [lia|lia|]. rewrite E2. exists bm2.
  rewrite Hv2, Hv1. split_and!; try done. f_equal. lia.
Qed.

Lemma does_extend B c rs la sa :
  range_in rs -> csect_type c <> KRL_SECTION_CERT_SERIAL_RANGE -> start_ok c sa ->
  match c with CBitmap start v => 0 <= v /\ start <= lo rs /\ 0 <= start | _ => True end ->
  fits (extend_section c rs) ->
  does (put_range rs (u64 (1 + (hi rs - lo rs)))) (open_gs B c la sa) true (open_gs B (extend_section c rs) la sa).
Proof.
  intros Hr Ht Hs Hc [Hn Hf]. destruct (width_val rs Hr) as [Hw Hw']. destruct Hr as [Hr1 Hr2].
  unfold put_range. apply sim_get. intros g0 (_ & _ & Gb & Gs & _ & Ga). cbn [open_gs s_state s_start s_bm] in Gs, Gb, Ga.
  rewrite Gs, Ga. destruct c as [l|l h|start v]; [|done|].
  - cbn [csect_type Z.eqb KRL_SECTION_CERT_SERIAL_LIST Pos.eqb]. eapply sim_bind; [|apply sim_ret].
    unfold open_gs. cbn [open_sect csect_body extend_section open_bm csect_type].
    assert (enc_serials (l ++ run_from (width rs) (lo rs)) = enc_serials l ++ enc_serials (run_from (width rs) (lo rs + 0))) as ->.
    { unfold enc_serials. by rewrite fmap_app, concat_app, Z.add_0_r. }
    cbn [extend_section csect_body] in Hf. unfold enc_serials in Hf. rewrite fmap_app, concat_app, zlen_app in Hf.
    apply does_sect; [apply put_serials_puts; fold (width rs); lia|].
    rewrite Z.add_0_r. unfold enc_serials. lia.
  - cbn [csect_type Z.eqb KRL_SECTION_CERT_SERIAL_LIST KRL_SECTION_CERT_SERIAL_RANGE KRL_SECTION_CERT_SERIAL_BITMAP Pos.eqb].
    cbn [start_ok] in Hs. subst sa. cbn [extend_section narrow] in Hn.
    assert (Hb : lo rs - start + Z.of_nat (width rs) <= 16384).
    { pose proof (nbits_run (width rs) (lo rs - start) v). change (8 * SSHBUF_MAX_BIGNUM) with 16384 in Hn. lia. }
    rewrite (u64_small (lo rs - start)) by lia. destruct (Z.gtb_spec (lo rs - start) INT_MAX); [unfold INT_MAX in *; lia|].
    destruct (g_bitmap g0) as [bm|]; [|done]. destruct Gb as [Hw1 Hv1].
    destruct (set_serials_run (width rs) (lo rs - start) 0 bm Hw1) as (bm' & Es & Hw2 & Hv2);
      [lia|change BITMAP_MAX with 16777216; lia|]. fold (width rs). rewrite Es.
    eapply sim_bind; [|apply sim_ret]. apply sim_modify. intros g (G1 & G2 & G3 & G4).
    unfold open_gs. cbn [extend_section open_bm].
    assert (bm_is (Some bm') (Some (set_run (width rs) (lo rs - start) v))) as Hbm.
    { split; [done|]. by rewrite Hv2, Hv1, Z.add_0_r. }
    exact (conj G1 (conj G2 (conj Hbm G4))).
Qed.

(** A section is started, or a range section goes on with a new range. *)
Definition opened (B : list Z) (ns : Z) (rs : revoked_serial) (la sa : Z) : gs :=
  if ns =? KRL_SECTION_CERT_SERIAL_BITMAP then mk_gs B (POKE_U64 (lo rs)) (Some 0) ns la (lo rs)
  else mk_gs B [] None ns la sa.

Lemma does_start B T st ns rs la sa :
  does (start_section rs ns) (mk_gs B T None st la sa) tt (opened B ns rs la sa).
Proof.
  unfold start_section, opened.
  eapply (sim_bind _ _ _ _ tt (mk_gs B T None ns la sa)).
  { apply sim_modify. intros g (G1 & G2 & G3 & G4 & G5). exact (conj G1 (conj G2 (conj G3 (conj eq_refl G5)))). }
  eapply sim_bind; [apply does_reset|]. destruct (ns =? KRL_SECTION_CERT_SERIAL_BITMAP); [|apply sim_ret].
  unfold bitmap_new. rewrite !malloc_reliable. cbn [andb].
  eapply (sim_bind _ _ _ _ tt (mk_gs B [] (Some 0) ns la sa)).
  { apply sim_modify. intros g (G1 & G2 & G3 & G4). exact (conj G1 (conj G2 (conj (conj demo_bitmap_wf eq_refl) G4))). }
  eapply (sim_bind _ _ _ _ tt (mk_gs B [] (Some 0) ns la (lo rs))).
  { apply sim_modify. intros g (G1 & G2 & G3 & G4 & G5 & G6).
    exact (conj G1 (conj G2 (conj G3 (conj G4 (conj G5 eq_refl))))). }
  apply (does_sect _ (POKE_U64 (lo rs)) tt B []); [apply put_u64_puts|done].
Qed.

Lemma does_fresh B ns rs la sa :
  range_in rs -> ns = KRL_SECTION_CERT_SERIAL_LIST \/ ns = KRL_SECTION_CERT_SERIAL_RANGE \/ ns = KRL_SECTION_CERT_SERIAL_BITMAP ->
  fits (fresh_section ns rs) ->
  exists sa', start_ok (fresh_section ns rs) sa' /\
    does (put_range rs (u64 (1 + (hi rs - lo rs)))) (opened B ns rs la sa) true (open_gs B (fresh_section ns rs) la sa').
Proof.
  intros Hr [->|[->| ->]] Hf.
  - exists sa. split; [done|]. by apply (does_extend B (CList [])).
  - exists sa. split; [done|]. unfold put_range. apply sim_get. intros g0 (_ & _ & _ & Gs & _).
    cbn [opened Z.eqb KRL_SECTION_CERT_SERIAL_BITMAP KRL_SECTION_CERT_SERIAL_RANGE Pos.eqb s_state] in Gs. rewrite Gs.
    cbn [Z.eqb KRL_SECTION_CERT_SERIAL_LIST KRL_SECTION_CERT_SERIAL_RANGE Pos.eqb].
    eapply sim_bind; [apply does_sect; [apply put_u64_puts|done]|].
    eapply sim_bind; [apply does_sect; [apply put_u64_puts|done]|apply sim_ret].
  - exists (lo rs). split; [done|].
    replace (fresh_section KRL_SECTION_CERT_SERIAL_BITMAP rs) with (extend_section (CBitmap (lo rs) 0) rs) in *
      by (cbn; by rewrite Z.sub_diag).
    destruct Hr as [? ?]. apply (does_extend B (CBitmap (lo rs) 0)); try done; lia.
Qed.

(** *** The loop *)

Definition enc_csects (l : list csect) : list Z := concat (enc_csect <$> l).

Lemma enc_csects_app l k : enc_csects (l ++ k) = enc_csects l ++ enc_csects k.
Proof. unfold enc_csects. by rewrite fmap_app, concat_app. Qed.

Lemma enc_csects_one c : enc_csects [c] = enc_csect c.
Proof. apply app_nil_r. Qed.

Definition cur_gs (B : list Z) (cur : option csect) (la sa : Z) : gs :=
  match cur with None => mk_gs B [] None 0 la sa | Some c => open_gs B c la sa end.

Definition cur_ok (cur : option csect) (sa : Z) (l : list revoked_serial) : Prop :=
  match cur with
  | Some (CBitmap start v) => sa = start /\ 0 <= v /\ 0 <= start /\ Forall (fun rs => start <= lo rs) l
  | _ => True
  end.

Lemma csect_type_pos c : csect_type c =? 0 = false.
Proof. by destruct c. Qed.

Lemma does_last B c la sa h :
  does (_ ← set_last h; mret true) (open_gs B c la sa) true (open_gs B c h sa).
Proof.
  eapply sim_bind; [|apply sim_ret]. apply sim_modify. intros g (G1 & G2 & G3 & G4 & G5 & G6).
  exact (conj G1 (conj G2 (conj G3 (conj G4 (conj eq_refl G6))))).
Qed.

(** Starting a section after the last one was finished. *)
Lemma does_start_fresh B st (force : bool) ns rs la sa :
  range_in rs -> ns = KRL_SECTION_CERT_SERIAL_LIST \/ ns = KRL_SECTION_CERT_SERIAL_RANGE \/ ns = KRL_SECTION_CERT_SERIAL_BITMAP ->
  fits (fresh_section ns rs) -> (ns = st -> force = false -> st = KRL_SECTION_CERT_SERIAL_RANGE) ->
  exists sa', start_ok (fresh_section ns rs) sa' /\
    does (_ ← (if negb (ns =? st) || force then start_section rs ns else mret tt);
          go ← put_range rs (u64 (1 + (hi rs - lo rs)));
          if go : bool then _ ← set_last (hi rs); mret true else mret false)
      (mk_gs B [] None st la sa) true (open_gs B (fresh_section ns rs) (hi rs) sa').
Proof.
  intros Hr Hk Hf Hst. destruct (does_fresh B ns rs la sa Hr Hk Hf) as (sa' & Hs & Hd). exists sa'. split; [done|].
  eapply sim_bind; [|eapply sim_bind; [exact Hd|apply does_last]].
  destruct (Z.eqb_spec ns st) as [->|]; cbn [negb orb]; [|apply does_start].
  destruct force; [apply does_start|]. rewrite (Hst eq_refl eq_refl). apply sim_ret.
Qed.

Lemma does_round B cur la sa rs l out c :
  range_in rs -> cur_ok cur sa (rs :: l) -> plan_round cur la rs (head l) = (out, c) ->
  Forall fits out -> fits c -> zlen B + zlen (enc_csects out) <= mx ->
  exists sa', start_ok c sa' /\
    does (generate_round rs (head l)) (cur_gs B cur la sa) true (open_gs (B ++ enc_csects out) c (hi rs) sa').
Proof.
  intros Hr Hc Hp Ho Hf Hz. unfold plan_round in Hp. destruct (choice cur la rs (head l)) as [ns force] eqn:Ech.
  assert (Hk : ns = KRL_SECTION_CERT_SERIAL_LIST \/ ns = KRL_SECTION_CERT_SERIAL_RANGE \/ ns = KRL_SECTION_CERT_SERIAL_BITMAP).
  { change ns with (fst (ns, force)). rewrite <- Ech. apply choose_kinds. }
  assert (Hg : forall g, gen_rel mx g (cur_gs B cur la sa) -> g_state g = cur_state cur /\ g_last g = la).
  { intros g (_ & _ & _ & G4 & G5 & _). by destruct cur. }
  assert (Hrun : forall sa' X,
    does (let state := cur_state cur in
          _ ← (if negb (state =? 0) && (force || negb (ns =? state) || (state =? KRL_SECTION_CERT_SERIAL_RANGE))
               then _ ← finish_section; on_sect (se_modify sshbuf_reset) else mret tt);
          _ ← (if negb (ns =? state) || force then start_section rs ns else mret tt);
          go ← put_range rs (u64 (1 + (hi rs - lo rs)));
          if go : bool then _ ← set_last (hi rs); mret true else mret false)
      (cur_gs B cur la sa) true (open_gs X c (hi rs) sa') ->
    does (generate_round rs (head l)) (cur_gs B cur la sa) true (open_gs X c (hi rs) sa')).
  { intros sa' X Hd. unfold generate_round. apply sim_get. intros g0 G0. destruct (Hg g0 G0) as [-> ->].
    cbn zeta. fold (choice cur la rs (head l)). rewrite Ech. exact Hd. }
  destruct cur as [c0|].
  - cbn [cur_state] in *. destruct (force || _ || _) eqn:Ec; injection Hp as <- <-.
    + destruct (does_start_fresh (B ++ enc_csects [c0]) (csect_type c0) force ns rs la sa Hr Hk Hf) as (sa' & Hs & Hd).
      { intros -> ->. rewrite Z.eqb_refl in Ec. by apply Z.eqb_eq. }
      exists sa'. split; [done|]. apply Hrun. cbn zeta. cbn [cur_state]. rewrite csect_type_pos. cbn [negb andb].
      apply Forall_cons in Ho as [Ho _]. rewrite enc_csects_one in *.
      eapply sim_bind; [|exact Hd]. eapply sim_bind; [by apply does_finish|apply does_reset].
    + apply orb_false_iff in Ec as [Ec Et]. apply orb_false_iff in Ec as [-> En]. apply negb_false_iff in En.
      assert (start_ok (extend_section c0 rs) sa /\ start_ok c0 sa) as [Hs Hs0] by (destruct c0; cbn in *; tauto).
      exists sa. split; [done|]. apply Hrun. cbn zeta. cbn [cur_state]. rewrite csect_type_pos, En. cbn [negb andb orb].
      rewrite app_nil_r. eapply sim_bind; [apply sim_ret|]. eapply sim_bind; [apply sim_ret|].
      eapply (sim_bind _ _ _ _ true (open_gs B (extend_section c0 rs) la sa)); [|apply does_last]. apply does_extend; try done; [by apply Z.eqb_neq|].
      destruct c0; try done. destruct Hc as (_ & ? & ? & Hl). apply Forall_cons in Hl as [? _]. done.
  - injection Hp as <- <-. destruct (does_start_fresh B 0 force ns rs la sa Hr Hk Hf) as (sa' & Hs & Hd).
    { intros -> _. by destruct Hk as [?|[?|?]]. }
    exists sa'. split; [done|]. apply Hrun. cbn [cur_state Z.eqb negb andb enc_csects fmap list_fmap concat].
    rewrite app_nil_r. eapply sim_bind; [apply sim_ret|exact Hd].
Qed.

Lemma narrow_fits start v : narrow (CBitmap start v) -> fits (CBitmap start v).
Proof.
  intros Hn. split; [done|]. destruct Hn as [_ Hn]. cbn [csect_body]. rewrite zlen_app, zlen_POKE_U64.
  pose proof (zlen_enc_bignum (to_bytes v)) as He. rewrite zlen_to_bytes in He. specialize (He (nbytes_narrow _ Hn)).
  change SSHBUF_MAX_BIGNUM with 2048 in He. unfold SSHBUF_SIZE_MAX. lia.
Qed.

Lemma extend_fits c rs sa l :
  cur_ok (Some c) sa (rs :: l) -> csect_type c <> KRL_SECTION_CERT_SERIAL_RANGE -> fits (extend_section c rs) -> fits c.
Proof.
  intros Hc Ht [Hn Hf]. destruct c as [k|a b|start v]; [|done|].
  - split; [done|]. cbn in *. unfold enc_serials in *. rewrite fmap_app, concat_app, zlen_app in Hf.
    pose proof (zlen_nonneg (concat (POKE_U64 <$> run_from (width rs) (lo rs)))). lia.
  - apply narrow_fits. cbn [extend_section narrow cur_ok] in *. destruct Hc as (_ & Hv & _ & Hl).
    apply Forall_cons in Hl as [Hl _]. split; [done|].
    pose proof (set_run_mono (width rs) (lo rs - start) v ltac:(lia) Hv).
    pose proof (nbits_mono v (set_run (width rs) (lo rs - start) v)). lia.
Qed.

Lemma cur_ok_next cur la rs l out c sa sa' :
  cur_ok cur sa (rs :: l) -> range_in rs -> Forall (apart rs) l -> start_ok c sa' ->
  plan_round cur la rs (head l) = (out, c) -> cur_ok (Some c) sa' l.
Proof.
  intros Hc [Hr _] Hs Hst. unfold plan_round. destruct (choice cur la rs (head l)) as [ns force].
  assert (Hfr : start_ok (fresh_section ns rs) sa' -> cur_ok (Some (fresh_section ns rs)) sa' l).
  { unfold fresh_section. destruct (_ =? _); [done|]. destruct (_ =? _); [done|]. intros E. split; [done|].
    pose proof (set_run_mono (width rs) 0 0). split; [lia|]. split; [lia|].
    eapply Forall_impl; [exact Hs|]. unfold apart. cbn. lia. }
  destruct cur as [c0|]; [|intros [= <- <-]; by apply Hfr].
  destruct (_ || _); intros [= <- <-]; [by apply Hfr|]. destruct c0 as [k|a b|start v]; [done..|].
  cbn in *. destruct Hc as (-> & Hv & Hs0 & Hl). apply Forall_cons in Hl as [Hl Hl'].
  pose proof (set_run_mono (width rs) (lo rs - start) v). split_and!; done || lia.
Qed.

Lemma plan_cur_fits l c la sa :
  cur_ok (Some c) sa l -> Forall range_in l -> StronglySorted apart l -> Forall fits (plan (Some c) la l) -> fits c.
Proof.
  revert c la. induction l as [|rs l IH]; intros c la Hc Hr Hs; cbn [plan]; [by intros [? _]%Forall_cons|].
  apply Forall_cons in Hr as [Hr Hr']. apply StronglySorted_inv in Hs as [Hs Ha].
  destruct (plan_round (Some c) la rs (head l)) as [out c'] eqn:Ep. intros [Ho Hf]%Forall_app.
  unfold plan_round in Ep. destruct (choice _ _ _ _) as [ns force].
  destruct (_ || _) eqn:Ec; injection Ep as <- <-; [by apply Forall_cons in Ho as [? _]|].
  apply orb_false_iff in Ec as [_ Et]. apply Z.eqb_neq in Et.
  apply (extend_fits c rs sa l Hc Et). apply (IH _ (hi rs)); try done.
  destruct c as [k|a b|start v]; [done..|]. destruct Hc as (-> & Hv & Hs0 & Hl).
  apply Forall_cons in Hl as [Hl Hl']. cbn. pose proof (set_run_mono (width rs) (lo rs - start) v). destruct Hr.
  split_and!; done || lia.
Qed.

Lemma does_serials l B cur la sa :
  Forall range_in l -> StronglySorted apart l -> cur_ok cur sa l ->
  Forall fits (plan cur la l) -> zlen B + zlen (enc_csects (plan cur la l)) <= mx ->
  exists B' cur' la' sa',
    does (generate_serials l) (cur_gs B cur la sa) true (cur_gs B' cur' la' sa') /\
    Forall fits (match cur' with None => [] | Some c => [c] end) /\
    B ++ enc_csects (plan cur la l) = B' ++ enc_csects (match cur' with None => [] | Some c => [c] end).
Proof.
  intros Hr Hs. revert B cur la sa. induction l as [|rs l IH]; intros B cur la sa Hc Hf Hz.
  { exists B, cur, la, sa. split; [apply sim_ret|]. done. }
  apply Forall_cons in Hr as [Hr Hr']. apply StronglySorted_inv in Hs as [Hs Ha]. cbn [plan] in *.
  destruct (plan_round cur la rs (head l)) as [out c] eqn:Ep. apply Forall_app in Hf as [Hf1 Hf2].
  rewrite enc_csects_app, zlen_app in Hz. pose proof (zlen_nonneg (enc_csects (plan (Some c) (hi rs) l))).
  assert (Hfc : fits c).
  { set (sa0 := match c with CBitmap start _ => start | _ => 0 end).
    assert (Hc0 : cur_ok (Some c) sa0 l).
    { eapply cur_ok_next; [exact Hc|done|done| |exact Ep]. by destruct c. }
    by apply (plan_cur_fits l c (hi rs) sa0). }
  destruct (does_round B cur la sa rs l out c Hr Hc Ep Hf1 Hfc ltac:(lia)) as (sa' & Hst & Hd).
  destruct (IH Hr' Hs (B ++ enc_csects out) (Some c) (hi rs) sa') as (B' & cur' & la' & sa2 & Hd2 & Hf' & E).
  - by eapply cur_ok_next.
  - done.
  - rewrite zlen_app. lia.
  - exists B', cur', la', sa2. split; [|split; [done|]].
    + cbn [generate_serials]. eapply sim_bind; [exact Hd|exact Hd2].
    + by rewrite enc_csects_app, app_assoc.
Qed.

End writer.

(** ** The wire form of a KRL *)

Definition enc_strings (l : list (list Z)) : list Z := concat (enc_string <$> l).
(** Empty sections are left out. *)
Definition opt_section (type : Z) (body : list Z) : list Z :=
  match body with [] => [] | _ => enc_section type body end.

Section wire.
Context `{SK : SshKey}.

Definition ca_blob (ca : option sshkey) : list Z :=
  match ca with
  | None => []
  | Some k => match sshkey_to_blob k with Ok b => b | Err _ => [] end
  end.

Definition rc_wire (rc : revoked_certs) : list Z :=
  enc_string (ca_blob (ca_key rc)) ++ enc_string [] ++ enc_csects (plan None 0 (revoked_serials rc)) ++
  opt_section KRL_SECTION_CERT_KEY_ID (enc_strings (revoked_key_ids rc)).

Definition certs_wire (l : list revoked_certs) : list Z :=
  concat ((fun rc => enc_section KRL_SECTION_CERTIFICATES (rc_wire rc)) <$> l).

Definition header_wire (krl : ssh_krl) : list Z :=
  KRL_MAGIC ++ POKE_U32 KRL_FORMAT_VERSION ++ POKE_U64 (krl_version krl) ++ POKE_U64 (generated_date krl) ++
  POKE_U64 (flags krl) ++ enc_string [] ++ enc_string (default [] (comment krl)).

Definition sections_wire (krl : ssh_krl) : list Z :=
  certs_wire (certs krl) ++
  opt_section KRL_SECTION_EXPLICIT_KEY (enc_strings (revoked_keys krl)) ++
  opt_section KRL_SECTION_FINGERPRINT_SHA1 (enc_strings (revoked_sha1s krl)) ++
  opt_section KRL_SECTION_FINGERPRINT_SHA256 (enc_strings (revoked_sha256s krl)).

Definition krl_wire (krl : ssh_krl) : list Z := header_wire krl ++ sections_wire krl.

(** What can be written and read again: serials are positive, the key of a CA
    has a blob, strings hold no NUL, and no bitmap is wider than a number that
    sshbuf reads. *)
Definition rc_storable (rc : revoked_certs) : Prop :=
  Forall range_in (revoked_serials rc) /\ Forall narrow (plan None 0 (revoked_serials rc)) /\
  Forall no_nul (revoked_key_ids rc) /\
  match ca_key rc with None => True | Some k => exists b, sshkey_to_blob k = Ok b end.

End wire.

Lemma zlen_concat_elem {A} (f : A -> list Z) (l : list A) x : x ∈ l -> zlen (f x) <= zlen (concat (f <$> l)).
Proof.
  intros Hx. induction Hx as [x l|x y l Hx IH]; cbn; rewrite zlen_app.
  - pose proof (zlen_nonneg (concat (f <$> l))). lia.
  - pose proof (zlen_nonneg (f y)). lia.
Qed.

Lemma strings_ok l : zlen (enc_strings l) <= SSHBUF_SIZE_MAX -> Forall string_ok l.
Proof.
  intros Hl. apply Forall_forall. intros x Hx. pose proof (zlen_concat_elem enc_string l x Hx).
  unfold string_ok. unfold enc_strings in Hl. rewrite enc_string_len in *. lia.
Qed.

Lemma plan_fits l : Forall narrow l -> zlen (enc_csects l) <= SSHBUF_SIZE_MAX -> Forall fits l.
Proof.
  intros Hn Hl. rewrite Forall_forall in *. intros c Hc. split; [by apply Hn|].
  pose proof (zlen_concat_elem enc_csect l c Hc) as He. unfold enc_csects in Hl.
  change (enc_csect c) with (csect_type c :: enc_string (csect_body c)) in He.
  rewrite zlen_cons, enc_string_len in He. lia.
Qed.

Lemma opt_section_len ty body : zlen body <= zlen (opt_section ty body).
Proof.
  destruct body as [|x b]; [done|]. cbn [opt_section]. unfold enc_section. rewrite (zlen_cons ty), enc_string_len. lia.
Qed.

Lemma opt_section_ok ty body : zlen (opt_section ty body) <= SSHBUF_SIZE_MAX -> string_ok body.
Proof.
  unfold string_ok. destruct body as [|x b]; [done|]. cbn [opt_section]. unfold enc_section.
  rewrite (zlen_cons ty), enc_string_len. lia.
Qed.

Section writer2.
Context `{TreeShape} `{Allocator} `{!ReliableAllocator _} `{SK : SshKey} `{!SshKeyWire SK}.

(** A simulation from every contents is the interface of the buffer. *)
Lemma sim_puts {A} (m : SE sshbuf A) v a :
  (forall mx c, zlen c + zlen v <= mx -> mx <= SSHBUF_SIZE_MAX -> sim (buf_is mx) m c a (c ++ v)) -> Puts m v a.
Proof.
  intros Hs b Hb Hl Hz. destruct (Hs (max_size b) (contents b) Hz (wf_max _ Hb) b) as (b' & E & Hw & Hl' & Hm & Hc); [done|].
  exists b'. split; [done|]. split; [|done]. pose proof (wf_refs _ Hb). pose proof (wf_refs _ Hw).
  unfold locked in Hl, Hl'. apply orb_false_iff in Hl as [R1 C1]. apply orb_false_iff in Hl' as [R2 C2].
  rewrite Z.gtb_ltb, Z.ltb_ge in C1, C2. constructor; [done|done|congruence|lia].
Qed.

Lemma put_strings_puts l : Forall string_ok l -> Puts (put_blobs l) (enc_strings l) tt.
Proof.
  induction 1 as [|x l Hx Hl IH]; [apply puts_ret|]. unfold enc_strings. cbn [fmap list_fmap concat put_blobs].
  eapply puts_bind; [by apply put_string_puts|exact IH].
Qed.

Lemma put_key_ids_puts l : Forall string_ok l -> Forall no_nul l -> Puts (put_key_ids l) (enc_strings l) tt.
Proof.
  induction 1 as [|x l Hx Hl IH]; intros Hn; [apply puts_ret|]. apply Forall_cons in Hn as [Hn Hn'].
  unfold enc_strings. cbn [fmap list_fmap concat put_key_ids]. unfold sshbuf_put_cstring. rewrite cstr_no_nul by done.
  eapply puts_bind; [by apply put_string_puts|by apply IH].
Qed.

Lemma put_section_puts mx ty sect body :
  buf_is mx sect body -> string_ok body -> Puts (put_section ty sect) (opt_section ty body) tt.
Proof.
  intros Hs Hok. unfold put_section. destruct (len_is _ _ _ Hs) as [-> _].
  destruct body as [|x body]; [apply puts_ret|].
  destruct (Z.eqb_spec (zlen (x :: body)) 0) as [E|_]; [pose proof (zlen_nonneg body); rewrite zlen_cons in E; lia|].
  cbn [negb opt_section]. unfold enc_section. change (ty :: enc_string (x :: body)) with ([ty] ++ enc_string (x :: body)).
  eapply puts_bind; [apply put_u8_puts|by eapply put_stringb_puts].
Qed.

Lemma sshkey_puts_puts k b : sshkey_to_blob k = Ok b -> string_ok b -> Puts (sshkey_puts k) (enc_string b) tt.
Proof.
  intros E Hb. unfold sshkey_puts. destruct sshbuf_new_ok as [b0 ->]. rewrite E.
  intros c. by apply put_string_puts.
Qed.

Lemma rc_generate_puts rc : rc_wf rc -> rc_storable rc -> Puts (revoked_certs_generate rc) (rc_wire rc) tt.
Proof.
  intros [[_ Hss] _] (Hr & Hn & Hi & Hk). apply sim_puts. intros mx c Hz Hmx b Hb.
  unfold revoked_certs_generate. destruct sshbuf_new_ok as [sect Es]. rewrite Es.
  destruct (sshbuf_new_spec _ Es) as (Sw & Sc & Sl & Sm).
  assert (G0 : gen_rel mx (mk_gen b sect None 0 0 0) (cur_gs c None 0 0)) by by split_and!.
  unfold rc_wire in *. rewrite !zlen_app in Hz. set (p := plan None 0 (revoked_serials rc)) in *.
  set (ids := enc_strings (revoked_key_ids rc)) in *. pose proof (zlen_nonneg c) as N1.
  pose proof (zlen_nonneg (enc_string (ca_blob (ca_key rc)))) as N2. pose proof (zlen_nonneg (enc_csects p)) as N3.
  pose proof (zlen_nonneg (opt_section KRL_SECTION_CERT_KEY_ID ids)) as N4.
  pose proof (opt_section_len KRL_SECTION_CERT_KEY_ID ids) as N5. change (zlen (enc_string [])) with 4 in *.
  assert (Hfit : Forall fits p) by (apply plan_fits; [done|lia]).
  set (B1 := (c ++ enc_string (ca_blob (ca_key rc))) ++ enc_string []).
  assert (Z1 : zlen B1 = zlen c + zlen (enc_string (ca_blob (ca_key rc))) + 4) by (unfold B1; rewrite !zlen_app; done).
  destruct (does_serials mx (revoked_serials rc) B1 None 0 0) as (B2 & cur & la & sa & Hd & Hfc & EB); try done;
    [fold p; lia|].
  fold p in EB. assert (Z2 : zlen B1 + zlen (enc_csects p) = zlen B2 + zlen (enc_csects (match cur with None => [] | Some c => [c] end)))
    by (rewrite <- !zlen_app; by rewrite EB).
  assert (Hsim : sim (gen_rel mx) (
         _ ← on_buf (match ca_key rc with None => sshbuf_put_string [] | Some k => sshkey_puts k end);
         _ ← on_buf (sshbuf_put_string []);
         go ← generate_serials (revoked_serials rc);
         if go : bool then
           g ← se_get;
           _ ← (if negb (g_state g =? 0) then finish_section else mret tt);
           _ ← on_sect (se_modify sshbuf_reset);
           _ ← on_sect (put_key_ids (revoked_key_ids rc));
           g ← se_get;
           on_buf (put_section KRL_SECTION_CERT_KEY_ID (g_sect g))
         else mret tt) (cur_gs c None 0 0) tt
      (mk_gs (B2 ++ enc_csects (match cur with None => [] | Some c => [c] end) ++ opt_section KRL_SECTION_CERT_KEY_ID ids)
         ids None (cur_state cur) la sa)).
  { eapply sim_bind; [apply (does_buf mx _ (enc_string (ca_blob (ca_key rc))) tt); [|lia]|].
    { unfold ca_blob. destruct (ca_key rc) as [k|]; [|by apply put_string_puts].
      destruct Hk as [bl Hk]. unfold ca_blob in Hz, N2. rewrite Hk in *. apply sshkey_puts_puts; [done|].
      unfold string_ok. rewrite enc_string_len in *. lia. }
    eapply sim_bind; [apply (does_buf mx _ (enc_string []) tt); [by apply put_string_puts|rewrite zlen_app; change (zlen (enc_string [])) with 4; lia]|].
    eapply sim_bind; [exact Hd|]. apply sim_get. intros g (_ & _ & _ & Gs & _).
    assert (g_state g = cur_state cur) as -> by by destruct cur. clear Gs.
    eapply (sim_bind _ _ _ _ tt (mk_gs (B2 ++ enc_csects (match cur with None => [] | Some c => [c] end))
              (match cur with None => [] | Some c => csect_body c end) None (cur_state cur) la sa)).
    { destruct cur as [c0|]; [|cbn; rewrite app_nil_r; apply sim_ret]. cbn [cur_state]. rewrite csect_type_pos. cbn [negb].
      apply Forall_cons in Hfc as [Hfc _]. rewrite enc_csects_one in *. apply does_finish; [done|lia]. }
    eapply sim_bind; [apply does_reset|].
    eapply sim_bind; [apply (does_sect mx _ ids tt _ []); [apply put_key_ids_puts; [apply strings_ok; fold ids; lia|done]|]|].
    { change (zlen (@nil Z)) with 0. lia. }
    apply sim_get. intros g2 (_ & Gs2 & _). cbn [s_sect app] in Gs2. rewrite app_assoc.
    apply does_buf; [eapply put_section_puts; [exact Gs2|apply (opt_section_ok KRL_SECTION_CERT_KEY_ID); lia]|]. rewrite zlen_app. lia. }
  destruct (Hsim _ G0) as (g' & E & G1 & _). rewrite E. exists (g_buf g'). split; [done|].
  cbn [s_buf] in G1. rewrite app_assoc, <- EB in G1. unfold B1 in G1. by rewrite !app_assoc in *.
Qed.

(** *** The whole KRL *)

Definition pair_is (mx : Z) (s : sshbuf * sshbuf) (c : list Z * list Z) : Prop :=
  buf_is mx s.1 c.1 /\ buf_is SSHBUF_SIZE_MAX s.2 c.2.

Lemma pair_fst mx {A} (m : SE sshbuf A) v a B T :
  Puts m v a -> zlen B + zlen v <= mx -> sim (pair_is mx) (on_fst m) (B, T) a (B ++ v, T).
Proof.
  intros Hp Hz [b t] [Hb Ht]. destruct (puts_is m v a mx B Hp Hz b Hb) as (b' & E & Hb').
  exists (b', t). unfold on_fst. rewrite E. done.
Qed.

Lemma pair_snd mx {A} (m : SE sshbuf A) v a B :
  Puts m v a -> zlen v <= SSHBUF_SIZE_MAX -> sim (pair_is mx) (on_snd m) (B, []) a (B, v).
Proof.
  intros Hp Hz [b t] [Hb Ht]. destruct (puts_is m v a SSHBUF_SIZE_MAX [] Hp Hz t Ht) as (t' & E & Ht').
  exists (b, t'). unfold on_snd. rewrite E. done.
Qed.

Lemma pair_reset mx B T : sim (pair_is mx) (on_snd (se_modify sshbuf_reset)) (B, T) tt (B, []).
Proof.
  intros [b t] [Hb Ht]. destruct (reset_is SSHBUF_SIZE_MAX T ltac:(done) t Ht) as (t' & E & Ht').
  exists (b, t'). unfold on_snd. rewrite E. done.
Qed.

Lemma blobs_section_does mx ty l B T :
  zlen B + zlen (opt_section ty (enc_strings l)) <= mx -> mx <= SSHBUF_SIZE_MAX ->
  exists T', sim (pair_is mx) (blobs_section ty l) (B, T) tt (B ++ opt_section ty (enc_strings l), T').
Proof.
  intros Hz Hm. pose proof (zlen_nonneg B). pose proof (opt_section_len ty (enc_strings l)).
  exists (enc_strings l). unfold blobs_section. eapply sim_bind; [apply pair_reset|].
  eapply sim_bind; [apply (pair_snd mx _ (enc_strings l)); [apply put_strings_puts, strings_ok; lia|lia]|].
  apply sim_get. intros [b t] [Hb Ht]. cbn [fst snd] in *.
  apply pair_fst; [eapply put_section_puts; [exact Ht|apply (opt_section_ok ty); lia]|done].
Qed.

Lemma certs_sections_does mx l B T :
  Forall rc_wf l -> Forall rc_storable l -> zlen B + zlen (certs_wire l) <= mx -> mx <= SSHBUF_SIZE_MAX ->
  exists T', sim (pair_is mx) (certs_sections l) (B, T) tt (B ++ certs_wire l, T').
Proof.
  intros Hw Hs. revert B T. induction Hw as [|rc l Hw Hl IH]; intros B T Hz Hm.
  { exists T. unfold certs_wire. cbn. rewrite app_nil_r. apply sim_ret. }
  apply Forall_cons in Hs as [Hs Hs']. unfold certs_wire in *. cbn [fmap list_fmap concat certs_sections] in *.
  fold (certs_wire l) in *. unfold enc_section in *. rewrite zlen_app, zlen_cons, enc_string_len in Hz.
  pose proof (zlen_nonneg B). pose proof (zlen_nonneg (certs_wire l)). pose proof (zlen_nonneg (rc_wire rc)).
  set (B1 := (B ++ [KRL_SECTION_CERTIFICATES]) ++ enc_string (rc_wire rc)).
  destruct (IH Hs' B1 (rc_wire rc)) as (T' & Hd); [unfold B1; rewrite !zlen_app, enc_string_len; change (zlen [_]) with 1; lia|done|].
  exists T'. replace (B ++ (_ :: _) ++ certs_wire l) with (B1 ++ certs_wire l) by (unfold B1; by rewrite <- !app_assoc).
  eapply sim_bind; [apply pair_reset|].
  eapply sim_bind; [apply (pair_snd mx _ (rc_wire rc)); [by apply rc_generate_puts|lia]|].
  apply sim_get. intros [b t] [Hb Ht]. cbn [fst snd] in *.
  eapply sim_bind; [apply (pair_fst mx _ [KRL_SECTION_CERTIFICATES] tt); [apply put_u8_puts|change (zlen [_]) with 1; lia]|].
  eapply sim_bind; [apply (pair_fst mx _ (enc_string (rc_wire rc)) tt)|exact Hd].
  - eapply put_stringb_puts; [|exact Ht]. unfold string_ok. lia.
  - rewrite zlen_app, enc_string_len. change (zlen [_]) with 1. lia.
Qed.

Lemma header_puts krl :
  string_ok (default [] (comment krl)) -> no_nul (default [] (comment krl)) ->
  Puts (_ ← sshbuf_put KRL_MAGIC;
        _ ← sshbuf_put_u32 KRL_FORMAT_VERSION;
        _ ← sshbuf_put_u64 (krl_version krl);
        _ ← sshbuf_put_u64 (generated_date krl);
        _ ← sshbuf_put_u64 (flags krl);
        _ ← sshbuf_put_string [];
        sshbuf_put_cstring (comment krl)) (header_wire krl) tt.
Proof.
  intros Hs Hn. unfold header_wire.
  eapply puts_bind; [apply appends_puts, sshbuf_put_appends|].
  eapply puts_bind; [apply put_u32_puts|].
  do 3 (eapply puts_bind; [apply put_u64_puts|]).
  eapply puts_bind; [by apply put_string_puts|].
  unfold sshbuf_put_cstring. destruct (comment krl) as [c|]; cbn in *; [rewrite cstr_no_nul by done|]; by apply put_string_puts.
Qed.

(** The KRL that is written: its date is set. *)
Definition dated (now : Z) (krl : ssh_krl) : ssh_krl :=
  if generated_date krl =? 0 then set_date krl now else krl.

Lemma dated_wire_parts now krl :
  certs (dated now krl) = certs krl /\ comment (dated now krl) = comment krl /\
  sections_wire (dated now krl) = sections_wire krl.
Proof. unfold dated. by destruct (_ =? _). Qed.

(** The sections, without signatures. *)
Lemma sections_do mx krl B T :
  Forall rc_wf (certs krl) -> Forall rc_storable (certs krl) ->
  zlen B + zlen (sections_wire krl) <= mx -> mx <= SSHBUF_SIZE_MAX ->
  exists T', sim (pair_is mx) (
    _ ← certs_sections (certs krl);
    _ ← blobs_section KRL_SECTION_EXPLICIT_KEY (revoked_keys krl);
    _ ← blobs_section KRL_SECTION_FINGERPRINT_SHA1 (revoked_sha1s krl);
    _ ← blobs_section KRL_SECTION_FINGERPRINT_SHA256 (revoked_sha256s krl);
    on_fst (put_signatures [])) (B, T) tt (B ++ sections_wire krl, T').
Proof.
  intros Hw Hs Hz Hm. unfold sections_wire in *. rewrite !zlen_app in Hz.
  set (w1 := certs_wire (certs krl)) in *.
  set (w2 := opt_section KRL_SECTION_EXPLICIT_KEY (enc_strings (revoked_keys krl))) in *.
  set (w3 := opt_section KRL_SECTION_FINGERPRINT_SHA1 (enc_strings (revoked_sha1s krl))) in *.
  set (w4 := opt_section KRL_SECTION_FINGERPRINT_SHA256 (enc_strings (revoked_sha256s krl))) in *.
  pose proof (zlen_nonneg w1). pose proof (zlen_nonneg w2). pose proof (zlen_nonneg w3). pose proof (zlen_nonneg w4).
  destruct (certs_sections_does mx (certs krl) B T) as (T1 & D1); try done; [fold w1; lia|].
  destruct (blobs_section_does mx KRL_SECTION_EXPLICIT_KEY (revoked_keys krl) (B ++ w1) T1) as (T2 & D2);
    [fold w2; rewrite !zlen_app; lia|done|].
  destruct (blobs_section_does mx KRL_SECTION_FINGERPRINT_SHA1 (revoked_sha1s krl) ((B ++ w1) ++ w2) T2) as (T3 & D3);
    [fold w3; rewrite !zlen_app; lia|done|].
  destruct (blobs_section_does mx KRL_SECTION_FINGERPRINT_SHA256 (revoked_sha256s krl) (((B ++ w1) ++ w2) ++ w3) T3)
    as (T4 & D4); [fold w4; rewrite !zlen_app; lia|done|].
  exists T4. rewrite !app_assoc. eapply sim_bind; [exact D1|]. eapply sim_bind; [exact D2|].
  eapply sim_bind; [exact D3|]. eapply sim_bind; [exact D4|]. fold w4.
  rewrite <- (app_nil_r ((((B ++ w1) ++ w2) ++ w3) ++ w4)) at 2.
  apply pair_fst; [apply puts_ret|]. rewrite !zlen_app, zlen_nil. lia.
Qed.

Lemma to_blob_writes now krl buf :
  krl_wf krl -> Forall rc_storable (certs krl) -> no_nul (default [] (comment krl)) ->
  buf_wf buf -> locked buf = false ->
  zlen (contents buf) + zlen (krl_wire (dated now krl)) <= max_size buf ->
  exists buf', ssh_krl_to_blob now [] (krl, buf) = (Ok tt, (dated now krl, buf')) /\
    buf_is (max_size buf) buf' (contents buf ++ krl_wire (dated now krl)).
Proof.
  intros (Hw & _) Hs Hc Hb Hl Hz. unfold ssh_krl_to_blob. fold (dated now krl).
  destruct (dated_wire_parts now krl) as (Ec & Ecm & _). destruct sshbuf_new_ok as [sect Es]. rewrite Es.
  destruct (sshbuf_new_spec _ Es) as (Sw & Sc & Sl & Sm). rewrite <- Ec in *. rewrite <- Ecm in *.
  set (k := dated now krl) in *. pose proof (wf_max _ Hb) as Hmx.
  unfold krl_wire in *. rewrite zlen_app in Hz. pose proof (zlen_nonneg (contents buf)).
  pose proof (zlen_nonneg (sections_wire k)).
  assert (Hco : string_ok (default [] (comment k))).
  { unfold header_wire in Hz. rewrite !zlen_app, !enc_string_len, !zlen_POKE_U64, zlen_POKE_U32 in Hz.
    change (zlen KRL_MAGIC) with 8 in Hz. change (zlen (@nil Z)) with 0 in Hz. unfold string_ok. lia. }
  destruct (sections_do (max_size buf) k (contents buf ++ header_wire k) []) as (T' & D); try done; [rewrite zlen_app; lia|].
  assert (Hh : sim (pair_is (max_size buf)) (on_fst _) (contents buf, []) tt (contents buf ++ header_wire k, []))
    by (apply pair_fst; [exact (header_puts k Hco Hc)|lia]).
  assert (Hp : pair_is (max_size buf) (buf, sect) (contents buf, [])) by (by split; split_and!).
  match goal with |- context [(?m ≫= ?f) (buf, sect)] =>
    destruct (sim_bind _ m f _ _ _ _ _ Hh D _ Hp) as ([b' t'] & E & Hb' & _) end.
  cbn [fst] in Hb'. rewrite E. exists b'. split; [done|]. by rewrite app_assoc.
Qed.

End writer2.
