(* ===== verification/KrlBlob.v ===== *)
(** Reading back a serialised KRL: [ssh_krl_from_blob] on what
    [ssh_krl_to_blob] writes, and its signature checks. *)

From S2P Require Import Prelude Sshbuf SshbufGetPut Match Bitmap RbTree Krl KrlWire.
Local Open Scope Z_scope.

(** * Functions that read a buffer and change a state *)

(** From a state with [I], [m] reads [e] and changes the state by [Q]. *)
Definition eats {S A} (I : S -> Prop) (m : SE (sshbuf * S) A) (e : list Z) (a : A) (Q : S -> S -> Prop) : Prop :=
  forall b s rest, bufr b -> contents b = e ++ rest -> I s ->
    exists b' s', m (b, s) = (Ok a, (b', s')) /\ buf_ext b b' /\ contents b' = rest /\ I s' /\ Q s s'.

(** The same on a buffer that holds nothing else. *)
Definition eats_all {S} (I : S -> Prop) (m : SE (sshbuf * S) unit) (e : list Z) (Q : S -> S -> Prop) : Prop :=
  forall b s, bufr b -> contents b = e -> I s ->
    exists b' s', m (b, s) = (Ok tt, (b', s')) /\ buf_ext b b' /\ contents b' = [] /\ I s' /\ Q s s'.

Section eats.
Context {S : Type} (I : S -> Prop).

Lemma eats_eats_all (m : SE (sshbuf * S) unit) e Q : eats I m e tt Q -> eats_all I m e Q.
Proof. intros Hm b s Hb Hc Hs. apply (Hm b s []); [done| |done]. by rewrite app_nil_r. Qed.

Lemma eats_get {A B} (m : SE sshbuf A) (f : A -> SE (sshbuf * S) B) e1 e2 a x Q :
  Gets m e1 a -> eats I (f a) e2 x Q -> eats I (y ← on_fst m; f y) (e1 ++ e2) x Q.
Proof.
  intros Hg Hf b s rest Hb Hc Hs. rewrite <- app_assoc in Hc.
  destruct (Hg b _ (proj1 Hb) Hc) as (b1 & E & Hx & Hc1 & _).
  destruct (Hf b1 s rest (bufr_ext _ _ Hb Hx) Hc1 Hs) as (b2 & s2 & E2 & Hx2 & R).
  exists b2, s2. unfold mbind, se_bind, on_fst. rewrite E. cbn beta iota. rewrite E2.
  split; [done|]. split; [by eapply buf_ext_trans|done].
Qed.

Lemma eats_all_get {A} (m : SE sshbuf A) (f : A -> SE (sshbuf * S) unit) e1 e2 a Q :
  Gets m e1 a -> eats_all I (f a) e2 Q -> eats_all I (y ← on_fst m; f y) (e1 ++ e2) Q.
Proof.
  intros Hg Hf b s Hb Hc Hs. destruct (Hg b _ (proj1 Hb) Hc) as (b1 & E & Hx & Hc1 & _).
  destruct (Hf b1 s (bufr_ext _ _ Hb Hx) Hc1 Hs) as (b2 & s2 & E2 & Hx2 & R).
  exists b2, s2. unfold mbind, se_bind, on_fst. rewrite E. cbn beta iota. rewrite E2.
  split; [done|]. split; [by eapply buf_ext_trans|done].
Qed.

Lemma eats_snd (q : SE S unit) (Q : S -> S -> Prop) :
  (forall s, I s -> exists s', q s = (Ok tt, s') /\ I s' /\ Q s s') -> eats I (on_snd q) [] tt Q.
Proof.
  intros Hq b s rest Hb Hc Hs. destruct (Hq s Hs) as (s' & E & R). exists b, s'. unfold on_snd. rewrite E.
  split; [done|]. split; [apply buf_ext_refl, Hb|done].
Qed.

(** A loop over encoded items. *)
Lemma while_eats {X} (body : SE (sshbuf * S) unit) (enc : X -> list Z) (Q : X -> S -> S -> Prop)
    (QQ : list X -> S -> S -> Prop) items :
  (forall x, x ∈ items -> enc x <> [] /\ eats I body (enc x) tt (Q x)) ->
  (forall s, QQ [] s s) ->
  (forall x l s s1 s2, Q x s s1 -> QQ l s1 s2 -> QQ (x :: l) s s2) ->
  eats_all I (while_buf body) (concat (enc <$> items)) (QQ items).
Proof.
  intros Hx Hnil Hcons b s Hb Hc Hs. unfold while_buf.
  assert (Hfuel : forall fuel, (length items <= fuel)%nat ->
    exists b' s', while_data fuel body (b, s) = (Ok tt, (b', s')) /\ buf_ext b b' /\ contents b' = [] /\ I s' /\ QQ items s s').
  { clear -Hx Hnil Hcons Hb Hc Hs. revert b s Hb Hc Hs. induction items as [|x l IH]; intros b s Hb Hc Hs fuel Hf.
    - exists b, s. unfold while_data. destruct fuel; cbn [fst]; rewrite sshbuf_len_wf, Hc by apply Hb;
        (split; [done|]; split; [apply buf_ext_refl, Hb|done]).
    - destruct fuel as [|fuel]; [cbn in Hf; lia|]. destruct (Hx x) as [Hne He]; [apply elem_of_cons; by left|].
      cbn [fmap list_fmap concat] in Hc.
      destruct (He b s _ Hb Hc Hs) as (b1 & s1 & E1 & Hx1 & Hc1 & Hs1 & HQ).
      destruct (IH ltac:(intros y Hy; apply Hx, elem_of_cons; by right) b1 s1 (bufr_ext _ _ Hb Hx1) Hc1 Hs1 fuel)
        as (b2 & s2 & E2 & Hx2 & Hc2 & Hs2 & HQQ); [cbn in Hf; lia|].
      exists b2, s2. split; [|split; [by eapply buf_ext_trans|]; split; [done|]; split; [done|by eapply Hcons]].
      cbn [while_data fst]. rewrite sshbuf_len_wf, Hc, zlen_app by apply Hb.
      pose proof (zlen_nonneg (concat (enc <$> l))). pose proof (zlen_nonneg (enc x)).
      assert (zlen (enc x) <> 0) by (intros ?%zlen_0_nil; done).
      destruct (Z.gtb_spec (zlen (enc x) + zlen (concat (enc <$> l))) 0); [|lia].
      by rewrite (se_bind_ok _ _ _ _ _ E1). }
  apply Hfuel. cbn [fst]. rewrite sshbuf_len_wf, Hc by apply Hb. clear -Hx.
  induction items as [|x l IH]; [done|]. destruct (Hx x) as [Hne _]; [apply elem_of_cons; by left|].
  cbn [fmap list_fmap concat length]. rewrite zlen_app.
  assert (zlen (enc x) <> 0) by (intros ?%zlen_0_nil; done). pose proof (zlen_nonneg (enc x)).
  pose proof (zlen_nonneg (concat (enc <$> l))).
  specialize (IH ltac:(intros y Hy; apply Hx, elem_of_cons; by right)). lia.
Qed.

Lemma child_eats `{Allocator} `{!ReliableAllocator _} (m : SE (sshbuf * S) unit) body Q :
  string_ok body -> eats_all I m body Q -> eats I (with_child m) (enc_string body) tt Q.
Proof.
  intros Hs Hm b s rest Hb Hc HI. destruct (froms_child b body rest Hb Hc Hs) as (ch & b1 & E & Hch & Hcc & Hx & Hc1).
  destruct (Hm ch s Hch Hcc HI) as (ch' & s' & E2 & _ & _ & Hs' & HQ).
  exists (sshbuf_unref b1), s'. unfold with_child. rewrite E, E2. done.
Qed.

Lemma no_rest_after (m : SE (sshbuf * S) unit) e Q : eats_all I m e Q -> eats_all I (_ ← m; no_rest) e Q.
Proof.
  intros Hm b s Hb Hc Hs. destruct (Hm b s Hb Hc Hs) as (b' & s' & E & Hx & Hc' & R). exists b', s'.
  split; [|done]. rewrite (se_bind_ok _ _ _ _ _ E). unfold no_rest, mbind, se_bind, se_get.
  cbn [fst]. by rewrite sshbuf_len_wf, Hc' by apply Hx.
Qed.

End eats.

(** * Revocations while reading *)

(** Promises of sshkey.c about key blobs: the blob of a key is not empty and is
    read as an equal key, and a key that was read can be copied. *)
Class SshKeyWireLaws (SK : SshKey) (SW : SshKeyWire SK) : Prop := {
  key_blob_back : forall k b, sshkey_to_blob k = Ok b ->
    b <> [] /\ exists k', sshkey_from_blob b = Ok k' /\ sshkey_equal k' k = true;
  key_read_copies : forall b k, sshkey_from_blob b = Ok k -> exists k', sshkey_from_private k = Ok k';
}.

(** * What the plan covers *)

Definition csect_has (c : csect) (s : Z) : Prop :=
  match c with
  | CList l => s ∈ l
  | CRange l h => l <= s <= h
  | CBitmap start v => start <= s /\ Z.testbit v (s - start) = true
  end.

(** Serials are positive and below 2^64. *)
Definition csect_pre (c : csect) : Prop :=
  (forall s, csect_has c s -> 1 <= s < 2 ^ 64) /\
  match c with CRange l h => l <= h | CBitmap start v => 1 <= start /\ 0 < v | _ => True end.

Lemma run_from_has n first s : s ∈ run_from n first <-> first <= s < first + Z.of_nat n.
Proof.
  revert first. induction n as [|n IH]; intros first; cbn [run_from]; [rewrite elem_of_nil; lia|].
  rewrite elem_of_cons, IH. lia.
Qed.

Lemma nbits_pos v : 0 <= v -> 0 < nbits v -> 0 < v.
Proof. unfold nbits. destruct (Z.eqb_spec v 0); lia. Qed.

Lemma fresh_has ns rs s :
  range_in rs -> csect_has (fresh_section ns rs) s <-> in_range s rs.
Proof.
  intros Hr. destruct (width_val rs Hr) as [Hw _]. unfold fresh_section, in_range.
  destruct (_ =? _); [cbn; rewrite run_from_has; lia|]. destruct (_ =? _); [done|]. cbn. split.
  - intros [Hl Ht]. rewrite set_run_testbit, Z.bits_0 in Ht by lia. cbn [orb] in Ht.
    apply andb_true_iff in Ht as [_ Ht%Z.ltb_lt]. lia.
  - intros Hs. split; [lia|]. rewrite set_run_testbit by lia. apply orb_true_iff. right.
    apply andb_true_iff. split; [apply Z.leb_le|apply Z.ltb_lt]; lia.
Qed.

Lemma extend_has c rs sa l s :
  range_in rs -> cur_ok (Some c) sa (rs :: l) -> csect_type c <> KRL_SECTION_CERT_SERIAL_RANGE ->
  csect_has (extend_section c rs) s <-> csect_has c s \/ in_range s rs.
Proof.
  intros Hr Hc Ht. destruct (width_val rs Hr) as [Hw _]. unfold in_range. destruct c as [k|a b|start v]; [|done|].
  - cbn. rewrite elem_of_app, run_from_has. split; (intros [?|?]; [by left|right; lia]).
  - cbn in *. destruct Hc as (_ & Hv & Hs0 & Hl). apply Forall_cons in Hl as [Hl _]. split.
    + intros [Hs Hb]. rewrite set_run_testbit in Hb by lia. apply orb_true_iff in Hb as [Hb|Hb]; [by left|].
      apply andb_true_iff in Hb as [?%Z.leb_le ?%Z.ltb_lt]. right. lia.
    + intros [[Hs Hb]|Hs]; (split; [lia|]); rewrite set_run_testbit by lia; apply orb_true_iff; [by left|right].
      apply andb_true_iff. split; [apply Z.leb_le|apply Z.ltb_lt]; lia.
Qed.

Lemma fresh_pre ns rs : range_in rs -> csect_pre (fresh_section ns rs).
Proof.
  intros Hr. split.
  - intros s Hs. apply fresh_has in Hs; [|done]. unfold in_range, range_in in *. lia.
  - destruct (width_val rs Hr) as [Hw _]. destruct Hr as [Hr1 Hr2]. unfold fresh_section.
    destruct (_ =? _); [done|]. destruct (_ =? _); [cbn; lia|]. split; [lia|].
    pose proof (nbits_run (width rs) 0 0). pose proof (set_run_mono (width rs) 0 0).
    apply nbits_pos; lia.
Qed.

Lemma extend_pre c rs sa l :
  range_in rs -> cur_ok (Some c) sa (rs :: l) -> csect_type c <> KRL_SECTION_CERT_SERIAL_RANGE ->
  csect_pre c -> csect_pre (extend_section c rs).
Proof.
  intros Hr Hc Ht [Hh Hp]. split.
  - intros s Hs. rewrite extend_has in Hs by done. destruct Hs as [Hs|Hs]; [by apply Hh|].
    unfold in_range, range_in in *. lia.
  - destruct c as [k|a b|start v]; [done..|]. cbn in *. destruct Hc as (_ & Hv & Hs0 & Hl).
    apply Forall_cons in Hl as [Hl _]. pose proof (set_run_mono (width rs) (lo rs - start) v). lia.
Qed.

Lemma plan_covers l cur la sa :
  Forall range_in l -> StronglySorted apart l -> cur_ok cur sa l -> Forall csect_pre (match cur with None => [] | Some c => [c] end) ->
  Forall csect_pre (plan cur la l) /\
  forall s, Exists (fun c => csect_has c s) (plan cur la l) <->
    Exists (fun c => csect_has c s) (match cur with None => [] | Some c => [c] end) \/ covered l s.
Proof.
  intros Hr. revert cur la sa. induction Hr as [|rs l Hr Hl IH]; intros cur la sa Hs Hc Hp.
  { split; [done|]. intros s. unfold covered. rewrite Exists_nil. destruct cur; tauto. }
  apply StronglySorted_inv in Hs as [Hs Ha]. cbn [plan].
  destruct (plan_round cur la rs (head l)) as [out c] eqn:Ep.
  set (sa' := match c with CBitmap start _ => start | _ => 0 end).
  assert (Hc' : cur_ok (Some c) sa' l) by (eapply cur_ok_next; [exact Hc|done|done| |exact Ep]; by destruct c).
  assert (Hstep : csect_pre c /\ Forall csect_pre out /\
    forall s, Exists (fun c => csect_has c s) out \/ csect_has c s <->
      Exists (fun c => csect_has c s) (match cur with None => [] | Some c => [c] end) \/ in_range s rs).
  { unfold plan_round in Ep. destruct (choice cur la rs (head l)) as [ns force].
    destruct cur as [c0|]; [|injection Ep as <- <-; split; [by apply fresh_pre|]; split; [done|];
      intros s; by rewrite fresh_has by done].
    destruct (_ || _) eqn:Ec; injection Ep as <- <-.
    - split; [by apply fresh_pre|]. split; [done|]. intros s. by rewrite fresh_has by done.
    - apply orb_false_iff in Ec as [_ Et]. apply Z.eqb_neq in Et. apply Forall_cons in Hp as [Hp _].
      split; [by eapply extend_pre|]. split; [done|]. intros s. rewrite (extend_has c0 rs sa l) by done.
      rewrite Exists_nil, Exists_cons, Exists_nil. tauto. }
  destruct Hstep as (Hpc & Hpo & Hh). destruct (IH (Some c) (hi rs) sa' Hs Hc') as [Hp2 Hh2]; [by constructor|].
  split; [by apply Forall_app|]. intros s. rewrite Exists_app, Hh2. unfold covered. rewrite !Exists_cons, Exists_nil.
  specialize (Hh s). tauto.
Qed.

Section reader.
Context `{TreeShape} `{Allocator} `{!ReliableAllocator _} `{SK : SshKey} `{!SshKeyLaws SK}.
Context `{SW : !SshKeyWire SK} `{!SshKeyWireLaws SK SW}.

Definition same_head (k k' : ssh_krl) : Prop :=
  krl_version k' = krl_version k /\ generated_date k' = generated_date k /\ flags k' = flags k /\ comment k' = comment k.

(** [k'] revokes what [k] does and what [P] says. *)
Definition extends (P : fact -> Prop) (k k' : ssh_krl) : Prop :=
  same_head k k' /\ forall f, holds k' f <-> holds k f \/ P f.

Lemma extends_trans P Q k1 k2 k3 : extends P k1 k2 -> extends Q k2 k3 -> extends (fun f => P f \/ Q f) k1 k3.
Proof.
  intros [(A1 & A2 & A3 & A4) A] [(B1 & B2 & B3 & B4) B]. split; [split_and!; congruence|].
  intros f. rewrite B, A. tauto.
Qed.

Lemma extends_iff P Q k k' : (forall f, P f <-> Q f) -> extends P k k' -> extends Q k k'.
Proof. intros HPQ [A B]. split; [done|]. intros f. by rewrite B, HPQ. Qed.

Lemma extends_refl P k : (forall f, ~ P f) -> extends P k k.
Proof. intros HP. split; [done|]. intros f. specialize (HP f). tauto. Qed.

Definition copies (ca : option sshkey) : Prop :=
  match ca with None => True | Some k => exists k', sshkey_from_private k = Ok k' end.

Lemma for_ca_key_run ca k :
  copies ca -> exists i k', revoked_certs_for_ca_key ca true k = (Ok (Some i), k') /\ same_head k k'.
Proof.
  intros Hc. unfold revoked_certs_for_ca_key, mbind, se_bind, se_get, mret, se_ret, se_put, se_lift. cbn beta iota.
  destruct (find_ca ca (certs k) 0) as [i|]; [by exists i, k|]. rewrite malloc_reliable. cbn [negb].
  destruct ca as [ca|]; cbn beta iota; [|by eexists _, _].
  destruct Hc as [ca' Hc]. rewrite Hc. by eexists _, _.
Qed.

Lemma with_rc_extends ca g adds k :
  copies ca -> krl_wf k -> (forall rc, rc_wf rc -> fst (g rc) = Ok tt) ->
  step_ok (i ← revoked_certs_for_ca_key ca true; with_rc i g) adds ->
  exists k', (i ← revoked_certs_for_ca_key ca true; with_rc i g) k = (Ok tt, k') /\ krl_wf k' /\ extends adds k k'.
Proof.
  intros Hc Hk Hg Hst. destruct (for_ca_key_run ca k Hc) as (i & k1 & E & (A1 & A2 & A3 & A4)).
  destruct (for_ca_key_spec _ _ _ _ Hk E) as (Hk1 & _ & Ho). destruct (Ho _ eq_refl) as (j & rc & Ej & Hi & _).
  injection Ej as <-. pose proof (proj1 (Forall_lookup _ _) (proj1 Hk1) _ _ Hi) as Hrc.
  destruct (g rc) as [r rc'] eqn:Eg. pose proof (Hg rc Hrc) as Hr. rewrite Eg in Hr. cbn in Hr. subst r.
  assert (Er : (i ← revoked_certs_for_ca_key ca true; with_rc i g) k = (Ok tt, set_certs k1 (<[i:=rc']> (certs k1)))).
  { rewrite (se_bind_ok _ _ _ _ _ E). unfold with_rc, mbind, se_bind, se_get, se_put, se_lift. cbn beta iota.
    by rewrite Hi, Eg. }
  eexists. split; [exact Er|]. destruct (Hst _ _ _ Hk Er) as [Hw Hh]. split; [done|]. split; [done|].
  intros f. rewrite Hh. tauto.
Qed.

Lemma serials_extends ca l h k :
  copies ca -> krl_wf k -> 1 <= l <= h -> h < 2 ^ 64 ->
  exists k', ssh_krl_revoke_cert_by_serial_range ca l h k = (Ok tt, k') /\ krl_wf k' /\ extends (adds_serials ca l h) k k'.
Proof.
  intros Hc Hk Hl Hh. pose proof (serial_range_step ca l h ltac:(lia) ltac:(lia)) as Hst.
  unfold ssh_krl_revoke_cert_by_serial_range in *. destruct (Z.gtb_spec l h); [lia|].
  destruct (Z.eqb_spec l 0); [lia|]. cbn [orb] in *. apply with_rc_extends; try done.
  intros rc [Hs _]. destruct (insert_serial_range _ l h) as [r rt] eqn:E. cbn [fst].
  destruct (insert_serial_range_spec (revoked_serials rc) l h r rt Hs ltac:(lia) Hh E) as [_ [[-> _]|(_ & _ & Hm)]]; [done|].
  by rewrite malloc_reliable in Hm.
Qed.

Lemma key_id_extends ca id k :
  copies ca -> krl_wf k ->
  exists k', ssh_krl_revoke_cert_by_key_id ca id k = (Ok tt, k') /\ krl_wf k' /\ extends (adds_key_id ca id) k k'.
Proof.
  intros Hc Hk. apply with_rc_extends; try done; [|apply key_id_step].
  intros rc _. by rewrite !malloc_reliable.
Qed.

(** ** Sections of a CA *)

Definition adds_in (ca : option sshkey) (P : Z -> Prop) (f : fact) : Prop :=
  match f with FSerial ca' s => ca_eq ca ca' = true /\ P s | _ => False end.

Definition csect_ok (c : csect) : Prop :=
  match c with
  | CList l => Forall (fun s => 1 <= s < 2 ^ 64) l
  | CRange l h => 1 <= l <= h /\ h < 2 ^ 64
  | CBitmap start v => 1 <= start /\ 0 < v /\ start + nbits v <= 2 ^ 64 /\ nbits v <= 8 * SSHBUF_MAX_BIGNUM
  end.

Lemma adds_serials_in ca l h f : adds_serials ca l h f <-> adds_in ca (fun s => l <= s <= h) f.
Proof. by destruct f. Qed.

(** The list of serials. *)
Lemma list_section_eats ca l :
  copies ca -> Forall (fun s => 1 <= s < 2 ^ 64) l ->
  eats_all krl_wf (parse_cert_section ca KRL_SECTION_CERT_SERIAL_LIST) (enc_serials l) (extends (adds_in ca (.∈ l))).
Proof.
  intros Hc Hl. unfold parse_cert_section.
  apply (while_eats krl_wf _ POKE_U64 (fun s => extends (adds_in ca (fun x => x = s))) (fun l => extends (adds_in ca (.∈ l)))).
  - intros s Hs. rewrite Forall_forall in Hl. specialize (Hl s Hs). split; [done|].
    rewrite <- (app_nil_r (POKE_U64 s)). eapply eats_get; [apply get_u64_gets|]. rewrite u64_small by lia.
    apply eats_snd. intros k Hk. destruct (serials_extends ca s s k Hc Hk) as (k' & E & Hw & Hx); [lia|lia|].
    exists k'. split; [done|]. split; [done|]. eapply extends_iff; [|exact Hx].
    intros [ca' x| | | |]; cbn; try done. split; intros [? ?]; split; done || lia.
  - intros k. apply extends_refl. intros [ca' x| | | |]; cbn; try tauto. rewrite elem_of_nil. tauto.
  - intros x xs k k1 k2 H1 H2. eapply extends_iff; [|eapply extends_trans; [exact H1|exact H2]].
    intros [ca' y| | | |]; cbn; try tauto. rewrite elem_of_cons. tauto.
Qed.

Lemma range_section_eats ca l h :
  copies ca -> 1 <= l <= h -> h < 2 ^ 64 ->
  eats_all krl_wf (parse_cert_section ca KRL_SECTION_CERT_SERIAL_RANGE) (POKE_U64 l ++ POKE_U64 h)
    (extends (adds_serials ca l h)).
Proof.
  intros Hc Hl Hh. apply eats_eats_all. unfold parse_cert_section. cbn [Z.eqb KRL_SECTION_CERT_SERIAL_LIST KRL_SECTION_CERT_SERIAL_RANGE Pos.eqb].
  eapply eats_get; [apply get_u64_gets|]. rewrite <- (app_nil_r (POKE_U64 h)).
  eapply eats_get; [apply get_u64_gets|]. rewrite !u64_small by lia.
  apply eats_snd. intros k Hk. by apply serials_extends.
Qed.

Lemma revoke_bits_extends ca start bm n i k :
  copies ca -> krl_wf k -> bitmap_wf bm -> 1 <= start -> 0 <= i -> start + i + Z.of_nat n <= 2 ^ 64 ->
  i + Z.of_nat n <= 2 ^ 32 ->
  exists k', revoke_bits n ca start i bm k = (Ok tt, k') /\ krl_wf k' /\
    extends (adds_in ca (fun s => start + i <= s < start + i + Z.of_nat n /\ Z.testbit (bitmap_value bm) (s - start) = true)) k k'.
Proof.
  intros Hc Hk Hb Hs. revert i k Hk. induction n as [|n IH]; intros i k Hk Hi Hn Hn2; cbn [revoke_bits].
  { exists k. split; [done|]. split; [done|]. apply extends_refl. intros [ca' s| | | |]; cbn; try tauto. lia. }
  assert ((i >? 0) && (u64 (start + i) =? 0) = false) as ->.
  { rewrite u64_small by lia. destruct (Z.eqb_spec (start + i) 0); [lia|]. apply andb_false_r. }
  rewrite u32_small, bitmap_test_bit_spec by done || lia.
  assert (Hsplit : forall s, start + i <= s < start + i + Z.of_nat (S n) <-> s = start + i \/ start + (i + 1) <= s < start + (i + 1) + Z.of_nat n)
    by (intros s; lia).
  destruct (Z.testbit (bitmap_value bm) i) eqn:Et; cbn [negb].
  - rewrite u64_small by lia. destruct (serials_extends ca (start + i) (start + i) k Hc Hk) as (k1 & E1 & Hk1 & Hx1); [lia|lia|].
    unfold ssh_krl_revoke_cert_by_serial. rewrite (se_bind_ok _ _ _ _ _ E1).
    destruct (IH (i + 1) k1 Hk1) as (k2 & E2 & Hk2 & Hx2); [lia..|]. exists k2. split; [done|]. split; [done|].
    eapply extends_iff; [|eapply extends_trans; [exact Hx1|exact Hx2]].
    intros [ca' s| | | |]; cbn; try tauto. rewrite Hsplit. split.
    + intros [[? Hs1]|[? [? ?]]]; [|tauto]. assert (s = start + i) as -> by lia.
      replace (start + i - start) with i by lia. tauto.
    + intros [? [[->|?] ?]]; [left; split; [done|lia]|tauto].
  - destruct (IH (i + 1) k Hk) as (k2 & E2 & Hk2 & Hx2); [lia..|]. exists k2. split; [done|]. split; [done|].
    eapply extends_iff; [|exact Hx2]. intros [ca' s| | | |]; cbn; try tauto. rewrite Hsplit. split; [tauto|].
    intros [? [[->|?] Ht]]; [|tauto]. replace (start + i - start) with i in Ht by lia. congruence.
Qed.

Lemma skip_zeros_to_bytes v : 0 <= v -> skip_zeros (to_bytes v) = to_bytes v.
Proof.
  intros Hv. destruct (Z.eq_dec v 0) as [->|Hnz]; [done|].
  assert (Hb : 0 < nbytes v).
  { unfold nbytes, nbits. destruct (Z.eqb_spec v 0); [done|]. pose proof (Z.log2_nonneg v).
    apply Z.div_str_pos. lia. }
  assert (Hn : znth (to_bytes v) 0 <> 0).
  { replace 0 with (nbytes v - 1 - (nbytes v - 1)) at 1 by lia. rewrite znth_to_bytes by lia. intros E.
    pose proof (Z.log2_nonneg v) as Hlog.
    assert (Ht : Z.testbit (byte_of v (nbytes v - 1)) (Z.log2 v - 8 * (nbytes v - 1)) = true).
    { unfold nbytes, nbits in *. destruct (Z.eqb_spec v 0); [done|].
      pose proof (Z.div_mod (Z.log2 v + 1 + 7) 8 ltac:(lia)). pose proof (Z.mod_pos_bound (Z.log2 v + 1 + 7) 8 ltac:(lia)).
      rewrite byte_of_testbit by lia.
      replace (8 * ((Z.log2 v + 1 + 7) / 8 - 1) + (Z.log2 v - 8 * ((Z.log2 v + 1 + 7) / 8 - 1))) with (Z.log2 v) by lia.
      rewrite Z.bit_log2 by lia. cbn. apply Z.ltb_lt. lia. }
    by rewrite E, Z.bits_0 in Ht. }
  destruct (to_bytes v) as [|x l]; [done|]. cbn in *. by destruct (Z.eqb_spec x 0).
Qed.

Lemma to_bytes_bytes v : Forall Bitmap.is_byte (to_bytes v).
Proof.
  apply bytes_rev_ok, Forall_forall. intros x Hx.
  by apply (proj1 (Forall_forall _ _) (Z_to_little_endian_bound (nbytes v) 8 v ltac:(lia) (nbytes_nonneg v))).
Qed.

Lemma bitmap_section_eats ca start v :
  copies ca -> csect_ok (CBitmap start v) ->
  eats_all krl_wf (parse_cert_section ca KRL_SECTION_CERT_SERIAL_BITMAP) (csect_body (CBitmap start v))
    (extends (adds_in ca (csect_has (CBitmap start v)))).
Proof.
  intros Hc (Hs & Hv & Hn & Hw). apply eats_eats_all. unfold parse_cert_section.
  cbn [Z.eqb KRL_SECTION_CERT_SERIAL_LIST KRL_SECTION_CERT_SERIAL_RANGE KRL_SECTION_CERT_SERIAL_BITMAP Pos.eqb csect_body].
  unfold bitmap_new. rewrite !malloc_reliable. cbn [andb].
  pose proof (nbytes_narrow v Hw) as Hb. assert (Hnn : 0 < nbits v).
  { unfold nbits. destruct (Z.eqb_spec v 0); [lia|]. pose proof (Z.log2_nonneg v). lia. }
  eapply eats_get; [apply get_u64_gets|]. rewrite <- (app_nil_r (enc_bignum (to_bytes v))).
  eapply eats_get.
  { apply get_bignum2_gets; [|unfold bignum_ok; pose proof (skip_zeros_len (to_bytes v))]; rewrite zlen_to_bytes in *;
      change SSHBUF_MAX_BIGNUM with 2048 in *; unfold SSHBUF_SIZE_MAX; lia. }
  rewrite skip_zeros_to_bytes, u64_small by lia.
  destruct (bitmap_from_string _ (to_bytes v)) as [r bm] eqn:E.
  destruct (bitmap_from_string_spec _ _ _ _ demo_bitmap_wf (to_bytes_bytes v) E) as (Hbw & Hbv).
  pose proof (from_string_reliable demo_bitmap (to_bytes v) demo_bitmap_wf) as Hr.
  change (mk_bitmap (zrepeat 1) 1 0) with demo_bitmap in E. rewrite E, zlen_to_bytes in Hr. cbn [fst] in Hr.
  destruct (Z.leb_spec (nbytes v) (BITMAP_MAX / 8));
    [|change (BITMAP_MAX / 8) with 2097152 in *; change SSHBUF_MAX_BIGNUM with 2048 in *; lia].
  subst r. cbn [negb]. rewrite of_to_bytes in Hbv by lia.
  destruct (bitmap_nbits_spec bm Hbw) as (bm' & En & Hbw' & Hbv' & _). rewrite En, Hbv in *.
  apply eats_snd. intros k Hk.
  destruct (revoke_bits_extends ca start bm' (Z.to_nat (nbits v)) 0 k) as (k' & Er & Hk' & Hx); try done; try lia.
  { change SSHBUF_MAX_BIGNUM with 2048 in Hw. lia. }
  exists k'. split; [done|]. split; [done|]. eapply extends_iff; [|exact Hx].
  intros [ca' s| | | |]; cbn; try tauto. rewrite Hbv', Z2Nat.id by lia. split; [intros [? [? ?]]; split; [done|]; split; [lia|done]|].
  intros [? [? Ht]]. split; [done|]. split; [|done]. split; [lia|].
  destruct (decide (nbits v <= s - start)) as [Hge|]; [|lia]. unfold nbits in Hge.
  destruct (Z.eqb_spec v 0); [lia|]. rewrite Z.bits_above_log2 in Ht by lia. done.
Qed.

Lemma csect_eats ca c :
  copies ca -> csect_ok c ->
  eats_all krl_wf (parse_cert_section ca (csect_type c)) (csect_body c) (extends (adds_in ca (csect_has c))).
Proof.
  intros Hc Ho. destruct c as [l|l h|start v].
  - by apply list_section_eats.
  - intros b k Hb He Hk. destruct Ho. destruct (range_section_eats ca l h Hc ltac:(done) ltac:(done) b k Hb He Hk)
      as (b' & k' & E & ? & ? & ? & Hx). exists b', k'. do 4 (split; [done|]).
    eapply extends_iff; [|exact Hx]. intros f. apply adds_serials_in.
  - by apply bitmap_section_eats.
Qed.

Lemma csect_pre_ok c : csect_pre c -> narrow c -> csect_ok c.
Proof.
  intros [Hh Hp] Hn. destruct c as [l|l h|start v]; cbn in *.
  - apply Forall_forall. intros s Hs. by apply Hh.
  - pose proof (Hh l). pose proof (Hh h). lia.
  - destruct Hp as [Hs Hv]. split_and!; try done; [|apply Hn].
    pose proof (Z.log2_nonneg v). unfold nbits. destruct (Z.eqb_spec v 0); [lia|].
    specialize (Hh (start + Z.log2 v)). replace (start + Z.log2 v - start) with (Z.log2 v) in Hh by lia.
    rewrite Z.bit_log2 in Hh by done. assert (1 <= start + Z.log2 v < 2 ^ 64) by (apply Hh; split; [lia|done]). lia.
Qed.

(** A loop in which every item adds its revocations. *)
Lemma while_extends {X} body (enc : X -> list Z) (P : X -> fact -> Prop) items :
  (forall x, x ∈ items -> enc x <> [] /\ eats krl_wf body (enc x) tt (extends (P x))) ->
  eats_all krl_wf (while_buf body) (concat (enc <$> items)) (extends (fun f => Exists (fun x => P x f) items)).
Proof.
  intros Hx. apply (while_eats krl_wf body enc (fun x => extends (P x)) (fun l => extends (fun f => Exists (fun x => P x f) l))); try done.
  - intros k. apply extends_refl. intros f. rewrite Exists_nil. tauto.
  - intros x l k k1 k2 H1 H2. eapply extends_iff; [|eapply extends_trans; [exact H1|exact H2]].
    intros f. by rewrite Exists_cons.
Qed.

Lemma key_ids_eats ca ids :
  copies ca -> Forall no_nul ids -> Forall string_ok ids ->
  eats_all krl_wf (parse_cert_section ca KRL_SECTION_CERT_KEY_ID) (enc_strings ids)
    (extends (fun f => Exists (fun id => adds_key_id ca id f) ids)).
Proof.
  intros Hc Hn Hs. unfold parse_cert_section.
  cbn [Z.eqb KRL_SECTION_CERT_SERIAL_LIST KRL_SECTION_CERT_SERIAL_RANGE KRL_SECTION_CERT_SERIAL_BITMAP KRL_SECTION_CERT_KEY_ID Pos.eqb].
  apply while_extends. intros id Hid. rewrite Forall_forall in Hn, Hs. split; [done|].
  rewrite <- (app_nil_r (enc_string id)). eapply eats_get; [apply get_cstring_gets; [by apply Hs|by apply Hn]|].
  apply eats_snd. intros k Hk. by apply key_id_extends.
Qed.

(** What the section of a CA adds. *)
Definition rc_adds (rc : revoked_certs) (f : fact) : Prop :=
  match f with
  | FSerial ca s => ca_eq (ca_key rc) ca = true /\ covered (revoked_serials rc) s
  | FKeyId ca id => ca_eq (ca_key rc) ca = true /\ id ∈ revoked_key_ids rc
  | _ => False
  end.

(** The sections inside the section of a CA: serials, then key ids. *)
Definition item_wire (ids : list cstring) (x : option csect) : list Z :=
  match x with Some c => enc_csect c | None => enc_section KRL_SECTION_CERT_KEY_ID (enc_strings ids) end.
Definition item_adds (ca : option sshkey) (ids : list cstring) (x : option csect) (f : fact) : Prop :=
  match x with Some c => adds_in ca (csect_has c) f | None => Exists (fun id => adds_key_id ca id f) ids end.
Definition rc_items (rc : revoked_certs) : list (option csect) :=
  (Some <$> plan None 0 (revoked_serials rc)) ++ match revoked_key_ids rc with [] => [] | _ => [None] end.

Lemma rc_items_wire rc :
  concat (item_wire (revoked_key_ids rc) <$> rc_items rc) =
  enc_csects (plan None 0 (revoked_serials rc)) ++ opt_section KRL_SECTION_CERT_KEY_ID (enc_strings (revoked_key_ids rc)).
Proof.
  unfold rc_items. rewrite fmap_app, concat_app. f_equal.
  - unfold enc_csects. by rewrite <- list_fmap_compose.
  - destruct (revoked_key_ids rc) as [|id ids]; [done|]. cbn [fmap list_fmap concat item_wire]. by rewrite app_nil_r.
Qed.

Lemma rc_items_adds rc ca f :
  rc_wf rc -> rc_storable rc -> ca_eq ca (ca_key rc) = true ->
  Exists (fun x => item_adds ca (revoked_key_ids rc) x f) (rc_items rc) <-> rc_adds rc f.
Proof.
  intros [[_ Hss] _] (Hr & _) Hca. destruct (plan_covers (revoked_serials rc) None 0 0 Hr Hss I ltac:(constructor)) as [_ Hcov].
  pose proof (ca_eq_congr ca (ca_key rc)) as Hcg. unfold rc_items. rewrite Exists_app, Exists_fmap.
  assert (Hid : Exists (fun x => item_adds ca (revoked_key_ids rc) x f) (match revoked_key_ids rc with [] => [] | _ => [None] end)
    <-> Exists (fun id => adds_key_id ca id f) (revoked_key_ids rc)).
  { destruct (revoked_key_ids rc) as [|id ids]; [by rewrite !Exists_nil|]. rewrite Exists_cons, Exists_nil. cbn. tauto. }
  rewrite Hid. destruct f as [ca' s|ca' id|b|b|b]; cbn [rc_adds].
  - rewrite <- (Hcg ca' Hca).
    specialize (Hcov s). rewrite Exists_nil in Hcov. split.
    + intros [Hx|Hx]; [|apply Exists_exists in Hx as (? & _ & [])].
      apply Exists_exists in Hx as (c & Hin & [He Hs]). split; [done|].
      assert (Hex : Exists (fun c => csect_has c s) (plan None 0 (revoked_serials rc))) by (apply Exists_exists; eauto).
      apply Hcov in Hex as [[]|?]. done.
    + intros [He Hs]. left. assert (Hex : Exists (fun c => csect_has c s) (plan None 0 (revoked_serials rc))) by (apply Hcov; by right).
      apply Exists_exists in Hex as (c & Hin & Hh). apply Exists_exists. by exists c.
  - rewrite <- (Hcg ca' Hca). split.
    + intros [Hx|Hx]; apply Exists_exists in Hx as (x & Hin & Hx); [done|]. destruct Hx as [? ->]. done.
    + intros [He Hi]. right. apply Exists_exists. exists id. done.
  - split; [|done]. by intros [Hx|Hx]; apply Exists_exists in Hx as (x & _ & ?).
  - split; [|done]. by intros [Hx|Hx]; apply Exists_exists in Hx as (x & _ & ?).
  - split; [|done]. by intros [Hx|Hx]; apply Exists_exists in Hx as (x & _ & ?).
Qed.

(** The key of a CA is read back as an equal key. *)
Lemma ca_back rc :
  rc_storable rc ->
  exists ca, (if negb (zlen (ca_blob (ca_key rc)) =? 0)
              then k ← sshkey_from_blob (ca_blob (ca_key rc)); Ok (Some k) else Ok None) = Ok ca /\
    copies ca /\ ca_eq ca (ca_key rc) = true.
Proof.
  intros (_ & _ & _ & Hk). destruct (ca_key rc) as [k|]; [|by exists None].
  destruct Hk as [b Hb]. destruct (key_blob_back _ _ Hb) as (Hne & k' & Hk' & He). unfold ca_blob. rewrite Hb.
  destruct (Z.eqb_spec (zlen b) 0) as [E%zlen_0_nil|_]; [done|]. cbn [negb]. rewrite Hk'. exists (Some k').
  split; [done|]. split; [by eapply key_read_copies|done].
Qed.

Definition cert_round (ca : option sshkey) : SE (sshbuf * ssh_krl) unit :=
  type ← on_fst sshbuf_get_u8; with_child (_ ← parse_cert_section ca type; no_rest).

Lemma rc_item_eats rc ca x :
  rc_wf rc -> rc_storable rc -> copies ca ->
  zlen (enc_csects (plan None 0 (revoked_serials rc))) <= SSHBUF_SIZE_MAX ->
  zlen (opt_section KRL_SECTION_CERT_KEY_ID (enc_strings (revoked_key_ids rc))) <= SSHBUF_SIZE_MAX ->
  x ∈ rc_items rc ->
  eats krl_wf (cert_round ca) (item_wire (revoked_key_ids rc) x) tt (extends (item_adds ca (revoked_key_ids rc) x)).
Proof.
  intros [[_ Hss] _] (Hr & Hn & Hi & _) Hcp Z1 Z2 Hx. unfold cert_round.
  destruct (plan_covers (revoked_serials rc) None 0 0 Hr Hss I ltac:(constructor)) as [Hpre _].
  pose proof (plan_fits _ Hn Z1) as Hfit. rewrite Forall_forall in Hpre, Hn, Hfit. unfold rc_items in Hx.
  apply elem_of_app in Hx as [(c & -> & Hc)%list_elem_of_fmap|Hx].
  - cbn [item_wire]. unfold enc_csect, enc_section.
    change (csect_type c :: enc_string (csect_body c)) with ([csect_type c] ++ enc_string (csect_body c)).
    eapply eats_get; [apply get_u8_gets|]. apply child_eats; [apply _|apply (proj2 (Hfit c Hc))|].
    apply no_rest_after, csect_eats; [done|]. apply csect_pre_ok; [by apply Hpre|by apply Hn].
  - assert (x = None) as -> by (destruct (revoked_key_ids rc); [by apply elem_of_nil in Hx|by apply list_elem_of_singleton in Hx]).
    cbn [item_wire]. unfold enc_section. set (e := enc_string _).
    change (KRL_SECTION_CERT_KEY_ID :: e) with ([KRL_SECTION_CERT_KEY_ID] ++ e).
    eapply eats_get; [apply get_u8_gets|]. apply child_eats; [apply _|by apply (opt_section_ok KRL_SECTION_CERT_KEY_ID)|].
    apply no_rest_after, key_ids_eats; [done|done|]. apply strings_ok.
    pose proof (opt_section_len KRL_SECTION_CERT_KEY_ID (enc_strings (revoked_key_ids rc))). lia.
Qed.

Lemma eats_all_iff m e P Q :
  (forall f, P f <-> Q f) -> eats_all krl_wf m e (extends P) -> eats_all krl_wf m e (extends Q).
Proof.
  intros Hpq Hm b k Hb Hc Hk. destruct (Hm b k Hb Hc Hk) as (b' & k' & E & R1 & R2 & R3 & Hx).
  exists b', k'. do 4 (split; [done|]). by eapply extends_iff.
Qed.

Lemma rc_eats rc :
  rc_wf rc -> rc_storable rc -> zlen (rc_wire rc) <= SSHBUF_SIZE_MAX ->
  eats_all krl_wf parse_revoked_certs (rc_wire rc) (extends (rc_adds rc)).
Proof.
  intros Hw Hs Hz. unfold parse_revoked_certs. destruct sshbuf_new_ok as [b0 ->].
  unfold rc_wire in *. rewrite !zlen_app, !enc_string_len in Hz. change (zlen (@nil Z)) with 0 in Hz.
  pose proof (zlen_nonneg (enc_csects (plan None 0 (revoked_serials rc)))) as N1.
  pose proof (zlen_nonneg (opt_section KRL_SECTION_CERT_KEY_ID (enc_strings (revoked_key_ids rc)))) as N2.
  pose proof (zlen_nonneg (ca_blob (ca_key rc))) as N4.
  eapply eats_all_get; [apply get_string_direct_gets; unfold string_ok; lia|].
  eapply eats_all_get; [by apply skip_string_gets|]. destruct (ca_back rc Hs) as (ca & Eca & Hcp & Hceq).
  assert (Hloop : eats_all krl_wf (while_buf (cert_round ca))
      (concat (item_wire (revoked_key_ids rc) <$> rc_items rc)) (extends (rc_adds rc))).
  { eapply eats_all_iff; [intros f; by apply rc_items_adds|]. apply while_extends. intros x Hx.
    split; [by destruct x|]. apply rc_item_eats; done || lia. }
  rewrite rc_items_wire in Hloop. intros b k Hb Hc Hk. destruct (Hloop b k Hb Hc Hk) as (b' & k' & E & R).
  exists b', k'. split; [|done].
  destruct (negb _); [|injection Eca as <-; exact E].
  unfold mbind, result_bind in Eca. destruct (sshkey_from_blob _) as [kk|] eqn:Ek; [|done]. injection Eca as <-.
  unfold mbind, se_bind, se_lift. rewrite ?Ek. exact E.
Qed.

(** ** Sections of keys and fingerprints *)

Inductive tree_kind := TKeys | TSha1 | TSha256.
Definition tree_get (t : tree_kind) : ssh_krl -> list (list Z) :=
  match t with TKeys => revoked_keys | TSha1 => revoked_sha1s | TSha256 => revoked_sha256s end.
Definition tree_set (t : tree_kind) : ssh_krl -> list (list Z) -> ssh_krl :=
  match t with TKeys => set_keys | TSha1 => set_sha1s | TSha256 => set_sha256s end.
Definition tree_fact (t : tree_kind) : list Z -> fact :=
  match t with TKeys => FKey | TSha1 => FSha1 | TSha256 => FSha256 end.
Definition tree_len (t : tree_kind) : Z := match t with TKeys => 0 | TSha1 => 20 | TSha256 => 32 end.
Definition tree_type (t : tree_kind) : Z :=
  match t with
  | TKeys => KRL_SECTION_EXPLICIT_KEY
  | TSha1 => KRL_SECTION_FINGERPRINT_SHA1
  | TSha256 => KRL_SECTION_FINGERPRINT_SHA256
  end.
(** Fingerprints have the length of the digest. *)
Definition tree_ok (t : tree_kind) (l : list (list Z)) : Prop :=
  t = TKeys \/ Forall (fun b => zlen b = tree_len t) l.

Lemma blob_section_eats n l :
  Forall string_ok l -> n = 0 \/ Forall (fun b => zlen b = n) l ->
  eats_all (tree_sorted blob_cmp) (blob_section n) (enc_strings l) (fun t t' => forall b, b ∈ t' <-> b ∈ t \/ b ∈ l).
Proof.
  intros Hs Hn. unfold blob_section.
  apply (while_eats _ _ enc_string (fun x t t' => forall b, b ∈ t' <-> b ∈ t \/ b = x)
    (fun l t t' => forall b, b ∈ t' <-> b ∈ t \/ b ∈ l)).
  - intros x Hx. split; [done|]. rewrite <- (app_nil_r (enc_string x)). rewrite Forall_forall in Hs.
    eapply eats_get; [apply get_string_gets, Hs, Hx|].
    assert (negb (n =? 0) && negb (zlen x =? n) = false) as ->.
    { destruct Hn as [->|Hn]; [done|]. rewrite Forall_forall in Hn. rewrite (Hn x Hx), Z.eqb_refl. apply andb_false_r. }
    apply eats_snd. intros t Ht. destruct (revoke_blob t x) as [r t'] eqn:E. exists t'.
    destruct (revoke_blob_spec t x r t' Ht E) as [Ht' Hin].
    assert (r = Ok tt) as -> by (unfold revoke_blob in E; rewrite malloc_reliable in E; by injection E as <- _).
    split; [done|]. split; [done|]. intros b. rewrite Hin. tauto.
  - intros t b. rewrite elem_of_nil. tauto.
  - intros x xs t t1 t2 H1 H2 b. rewrite H2, H1, elem_of_cons. tauto.
Qed.

Lemma tree_eats t l :
  Forall string_ok l -> tree_ok t l ->
  eats_all krl_wf (on_tree (tree_get t) (tree_set t) (blob_section (tree_len t))) (enc_strings l)
    (extends (fun f => Exists (fun b => f = tree_fact t b) l)).
Proof.
  intros Hs Hl b k Hb Hc Hk. pose proof Hk as (K1 & K2 & K3 & K4 & K5).
  assert (Ht : tree_sorted blob_cmp (tree_get t k)) by by destruct t.
  destruct (blob_section_eats (tree_len t) l Hs) with (b := b) (s := tree_get t k) as (b' & t' & E & Hx & Hc' & Ht' & Hin); try done.
  { destruct Hl as [->|Hl]; [by left|by right]. }
  exists b', (tree_set t k t'). unfold on_tree. rewrite E. do 3 (split; [done|]).
  assert (Hex : forall f, Exists (fun b => f = tree_fact t b) l <-> exists b, f = tree_fact t b /\ b ∈ l).
  { intros f. rewrite Exists_exists. naive_solver. }
  split; [by destruct t|]. split; [by destruct t|]. intros f. rewrite Hex.
  destruct t, f as [ca s|ca id|x|x|x]; cbn [holds tree_set tree_fact tree_get] in *; unfold some_rc;
    cbn [set_keys set_sha1s set_sha256s certs revoked_keys revoked_sha1s revoked_sha256s];
    first [rewrite Hin; naive_solver|naive_solver].
Qed.

(** ** The sections of a KRL *)

Inductive section_item := ICerts (rc : revoked_certs) | ITree (t : tree_kind) (l : list (list Z)).

Definition section_type (x : section_item) : Z :=
  match x with ICerts _ => KRL_SECTION_CERTIFICATES | ITree t _ => tree_type t end.
Definition section_body (x : section_item) : list Z :=
  match x with ICerts rc => rc_wire rc | ITree _ l => enc_strings l end.
Definition section_wire (x : section_item) : list Z := enc_section (section_type x) (section_body x).
Definition section_adds (x : section_item) (f : fact) : Prop :=
  match x with ICerts rc => rc_adds rc f | ITree t l => Exists (fun b => f = tree_fact t b) l end.
Definition tree_item (t : tree_kind) (l : list (list Z)) : list section_item :=
  match l with [] => [] | _ => [ITree t l] end.
Definition krl_items (krl : ssh_krl) : list section_item :=
  (ICerts <$> certs krl) ++ tree_item TKeys (revoked_keys krl) ++ tree_item TSha1 (revoked_sha1s krl) ++
  tree_item TSha256 (revoked_sha256s krl).

Lemma tree_item_wire t l : concat (section_wire <$> tree_item t l) = opt_section (tree_type t) (enc_strings l).
Proof. destruct l as [|b l]; [done|]. cbn [tree_item fmap list_fmap concat]. by rewrite app_nil_r. Qed.

Lemma krl_items_wire krl : concat (section_wire <$> krl_items krl) = sections_wire krl.
Proof.
  unfold krl_items, sections_wire. rewrite !fmap_app, !concat_app, !tree_item_wire. f_equal.
  unfold certs_wire. by rewrite <- list_fmap_compose.
Qed.

Lemma tree_item_adds t l f : Exists (fun x => section_adds x f) (tree_item t l) <-> exists b, f = tree_fact t b /\ b ∈ l.
Proof.
  destruct l as [|b l]; cbn [tree_item].
  - rewrite Exists_nil. split; [done|]. by intros (x & _ & ?%elem_of_nil).
  - rewrite Exists_cons, Exists_nil. cbn [section_adds]. rewrite Exists_exists. naive_solver.
Qed.

Lemma krl_items_adds krl f : Exists (fun x => section_adds x f) (krl_items krl) <-> holds krl f.
Proof.
  unfold krl_items. rewrite !Exists_app, !tree_item_adds, Exists_fmap, Exists_exists.
  destruct f as [ca s|ca id|b|b|b]; cbn [holds]; unfold some_rc; cbn; naive_solver.
Qed.

(** What can be written and read again. *)
Definition krl_storable (krl : ssh_krl) : Prop :=
  Forall rc_storable (certs krl) /\ no_nul (default [] (comment krl)) /\
  tree_ok TSha1 (revoked_sha1s krl) /\ tree_ok TSha256 (revoked_sha256s krl) /\
  0 <= krl_version krl < 2 ^ 64 /\ 0 <= generated_date krl < 2 ^ 64 /\ 0 <= flags krl < 2 ^ 64.

Definition item_ok (x : section_item) : Prop :=
  zlen (section_wire x) <= SSHBUF_SIZE_MAX /\
  match x with ICerts rc => rc_wf rc /\ rc_storable rc | ITree t l => tree_ok t l end.

Lemma krl_items_ok krl :
  krl_wf krl -> krl_storable krl -> zlen (sections_wire krl) <= SSHBUF_SIZE_MAX -> Forall item_ok (krl_items krl).
Proof.
  intros (Hw & _) (Hs & _ & H1 & H2 & _) Hz. apply Forall_forall. intros x Hx. split.
  - pose proof (zlen_concat_elem section_wire _ x Hx). rewrite krl_items_wire in *. lia.
  - unfold krl_items in Hx. rewrite Forall_forall in Hw, Hs.
    assert (Ht : forall t l, tree_ok t l -> x ∈ tree_item t l -> match x with ICerts _ => False | ITree t l => tree_ok t l end).
    { intros t [|b l] Ht Hin; [by apply elem_of_nil in Hin|]. by apply list_elem_of_singleton in Hin as ->. }
    rewrite !elem_of_app in Hx. destruct Hx as [(rc & -> & Hr)%list_elem_of_fmap|[Hx|[Hx|Hx]]]; [by auto|..].
    + specialize (Ht TKeys _ (or_introl eq_refl) Hx). by destruct x.
    + specialize (Ht TSha1 _ H1 Hx). by destruct x.
    + specialize (Ht TSha256 _ H2 Hx). by destruct x.
Qed.

Lemma item_body_ok x : item_ok x -> string_ok (section_body x) /\ zlen (section_body x) <= SSHBUF_SIZE_MAX.
Proof.
  intros [Hz _]. unfold section_wire, enc_section in Hz. rewrite zlen_cons, enc_string_len in Hz. unfold string_ok. lia.
Qed.

Lemma section_eats x :
  item_ok x -> eats_all krl_wf (parse_section (section_type x)) (section_body x) (extends (section_adds x)).
Proof.
  intros Hx. destruct (item_body_ok x Hx) as [_ Hz]. destruct Hx as [_ Hx]. destruct x as [rc|t l].
  - destruct Hx. by apply rc_eats.
  - cbn [section_body] in *. pose proof (strings_ok l Hz) as Hs. pose proof (tree_eats t l Hs Hx) as He. by destruct t.
Qed.

Lemma section_type_not_sig x : section_type x =? KRL_SECTION_SIGNATURE = false.
Proof. by destruct x as [|[]]. Qed.

Lemma sections_eat krl :
  Forall item_ok (krl_items krl) ->
  eats_all krl_wf parse_sections (sections_wire krl) (extends (holds krl)).
Proof.
  intros Hok. rewrite <- krl_items_wire. unfold parse_sections.
  eapply eats_all_iff; [intros f; apply krl_items_adds|]. apply while_extends. intros x Hx. split; [done|].
  rewrite Forall_forall in Hok. specialize (Hok x Hx). unfold section_wire, enc_section.
  change (section_type x :: enc_string (section_body x)) with ([section_type x] ++ enc_string (section_body x)).
  eapply eats_get; [apply get_u8_gets|]. rewrite section_type_not_sig.
  intros b k rest Hb Hc Hk.
  destruct (child_eats krl_wf (_ ← parse_section (section_type x); no_rest) (section_body x) _ (proj1 (item_body_ok x Hok))
    (no_rest_after _ _ _ _ (section_eats x Hok)) b k rest Hb Hc Hk) as (b' & k' & E & R).
  exists b', k'. split; [|done]. by rewrite (se_bind_ok _ _ _ _ _ E).
Qed.

(** Without signature sections the first pass finds no signers. *)
Lemma signatures_eat krl data :
  Forall item_ok (krl_items krl) ->
  eats_all (fun s => s = (false, [])) (parse_signatures data) (sections_wire krl) (fun _ _ => True).
Proof.
  intros Hok. rewrite <- krl_items_wire. unfold parse_signatures.
  apply (while_eats _ _ section_wire (fun _ _ _ => True) (fun _ _ _ => True)); [|done|done].
  intros x Hx. split; [done|]. rewrite Forall_forall in Hok. specialize (Hok x Hx). unfold section_wire, enc_section, signature_round.
  change (section_type x :: enc_string (section_body x)) with ([section_type x] ++ enc_string (section_body x)).
  eapply eats_get; [apply get_u8_gets|]. rewrite <- (app_nil_r (enc_string (section_body x))).
  eapply eats_get; [apply get_string_direct_gets, (item_body_ok x Hok)|].
  intros b s rest Hb Hc ->. exists b, (false, []). unfold mbind, se_bind, se_get. cbn beta iota.
  rewrite section_type_not_sig. cbn [negb]. do 2 (split; [done || apply buf_ext_refl, Hb|]). done.
Qed.

(** The header after the magic. *)
Lemma header_eats krl :
  0 <= krl_version krl < 2 ^ 64 -> 0 <= generated_date krl < 2 ^ 64 -> 0 <= flags krl < 2 ^ 64 ->
  string_ok (default [] (comment krl)) -> no_nul (default [] (comment krl)) ->
  eats (fun k => krl_wf k /\ forall f, ~ holds k f) parse_header (zdrop 8 (header_wire krl)) tt
    (fun _ k' => krl_version k' = krl_version krl /\ generated_date k' = generated_date krl /\
       flags k' = flags krl /\ comment k' = Some (default [] (comment krl))).
Proof.
  intros Hv Hd Hf Hs Hn. unfold header_wire. rewrite zdrop_app_exact by done. unfold parse_header.
  eapply eats_get; [apply get_u32_gets|]. change (u32 KRL_FORMAT_VERSION) with 1. cbn [Z.eqb Pos.eqb KRL_FORMAT_VERSION negb].
  do 3 (eapply eats_get; [apply get_u64_gets|]). eapply eats_get; [by apply skip_string_gets|].
  rewrite <- (app_nil_r (enc_string (default [] (comment krl)))).
  eapply eats_get; [by apply get_cstring_gets|]. rewrite !u64_small by lia.
  apply eats_snd. intros k [Hk Hno]. eexists. split; [done|]. split; [|done]. split; [done|].
  intros f Hf'. apply (Hno f). by destruct f.
Qed.

(** ** The whole blob *)

Lemma magic_ok rest :
  (zlen (KRL_MAGIC ++ rest) <? zlen KRL_MAGIC) || negb (memcmp (KRL_MAGIC ++ rest) KRL_MAGIC (length KRL_MAGIC) =? 0) = false.
Proof.
  rewrite zlen_app. pose proof (zlen_nonneg rest). destruct (Z.ltb_spec (zlen KRL_MAGIC + zlen rest) (zlen KRL_MAGIC)); [lia|]. by destruct rest.
Qed.

Lemma from_blob_reads krl b trusted :
  bufr b -> contents b = krl_wire krl -> krl_wf krl -> krl_storable krl ->
  exists krl2, ssh_krl_from_blob trusted b = (Ok (Some krl2), b) /\ krl_wf krl2 /\
    krl_version krl2 = krl_version krl /\ generated_date krl2 = generated_date krl /\ flags krl2 = flags krl /\
    comment krl2 = Some (default [] (comment krl)) /\ forall f, holds krl2 f <-> holds krl f.
Proof.
  intros Hb Hc Hw Hs. pose proof Hs as (_ & Hnn & _ & _ & Hv & Hd & Hf).
  assert (Hz : zlen (krl_wire krl) <= SSHBUF_SIZE_MAX).
  { rewrite <- Hc, contents_len by apply Hb. destruct Hb as [[] _]. lia. }
  set (hdr := zdrop 8 (header_wire krl)) in *.
  assert (Hw1 : krl_wire krl = KRL_MAGIC ++ hdr ++ sections_wire krl).
  { unfold krl_wire, hdr, header_wire. rewrite zdrop_app_exact by done. by rewrite <- !app_assoc. }
  assert (Hco : string_ok (default [] (comment krl))).
  { unfold krl_wire, header_wire in Hz. rewrite !zlen_app, !enc_string_len, !zlen_POKE_U64, zlen_POKE_U32 in Hz.
    pose proof (zlen_nonneg (sections_wire krl)). pose proof (zlen_nonneg KRL_MAGIC). change (zlen (@nil Z)) with 0 in Hz.
    unfold string_ok. lia. }
  assert (Hok : Forall item_ok (krl_items krl)).
  { apply krl_items_ok; try done. rewrite Hw1, !zlen_app in Hz. pose proof (zlen_nonneg KRL_MAGIC). pose proof (zlen_nonneg hdr). lia. }
  unfold ssh_krl_from_blob. rewrite sshbuf_len_wf, sshbuf_ptr_wf by apply Hb. cbn [default id]. rewrite ztake_ge by done.
  rewrite Hc, Hw1, magic_ok. destruct (fromb_copy b Hb) as (copy & b1 & E1 & Hcp & Hcc & Hl1 & Hu1). rewrite E1.
  rewrite Hc, Hw1 in Hcc. pose proof (sshbuf_consume_spec copy (zlen KRL_MAGIC) (proj1 Hcp) ltac:(done)) as Hcons.
  rewrite Hcc, zlen_app in Hcons. pose proof (zlen_nonneg (hdr ++ sections_wire krl)).
  destruct (Z.leb_spec (zlen KRL_MAGIC) (zlen KRL_MAGIC + zlen (hdr ++ sections_wire krl))); [|lia].
  destruct Hcons as (copy1 & -> & Hx1 & Hcc1 & _). rewrite zdrop_app_exact in Hcc1 by done.
  unfold ssh_krl_init. rewrite malloc_reliable. set (k0 := mk_krl 0 0 0 None [] [] [] []).
  destruct (init_wf k0) as [Hk0 Hno]; [unfold ssh_krl_init; by rewrite malloc_reliable|].
  destruct (header_eats krl Hv Hd Hf Hco Hnn copy1 k0 (sections_wire krl) (bufr_ext _ _ Hcp Hx1) Hcc1 (conj Hk0 Hno))
    as (copy2 & k1 & -> & Hx2 & Hcc2 & [Hk1 Hno1] & Hh1 & Hh2 & Hh3 & Hh4).
  assert (Hl2 : sshbuf_len copy2 = zlen (sections_wire krl)) by (rewrite sshbuf_len_wf, Hcc2; [done|apply Hx2]).
  rewrite Hl1, Hl2, Hc, Hw1. destruct (Z.ltb_spec (zlen (KRL_MAGIC ++ hdr ++ sections_wire krl)) (zlen (sections_wire krl)));
    [rewrite !zlen_app in *; pose proof (zlen_nonneg KRL_MAGIC); pose proof (zlen_nonneg hdr); lia|].
  destruct (signatures_eat krl (KRL_MAGIC ++ hdr ++ sections_wire krl) Hok copy2 (false, [])
    (bufr_ext _ _ (bufr_ext _ _ Hcp Hx1) Hx2) Hcc2 eq_refl) as (copy3 & s3 & -> & Hx3 & Hcc3 & -> & _).
  rewrite (sshbuf_len_wf copy3), Hcc3 by apply Hx3. cbn [Z.eqb negb zlen length Z.of_nat].
  rewrite Hu1. destruct (fromb_copy b Hb) as (copy4 & b4 & E4 & Hcp4 & Hcc4 & _ & Hu4). rewrite E4.
  rewrite Hc, Hw1 in Hcc4. set (off := zlen (KRL_MAGIC ++ hdr ++ sections_wire krl) - zlen (sections_wire krl)).
  assert (Hoff : off = zlen (KRL_MAGIC ++ hdr)) by (unfold off; rewrite !zlen_app; lia).
  pose proof (sshbuf_consume_spec copy4 off (proj1 Hcp4) ltac:(rewrite Hoff; apply zlen_nonneg)) as Hcons4.
  rewrite Hcc4, app_assoc in Hcons4. destruct (Z.leb_spec off (zlen ((KRL_MAGIC ++ hdr) ++ sections_wire krl)));
    [|rewrite Hoff in *; rewrite !zlen_app in *; pose proof (zlen_nonneg (sections_wire krl)); lia].
  destruct Hcons4 as (copy5 & -> & Hx5 & Hcc5 & _). rewrite zdrop_app_exact in Hcc5 by done.
  destruct (sections_eat krl Hok copy5 k1 (bufr_ext _ _ Hcp4 Hx5) Hcc5 Hk1) as (copy6 & k2 & -> & _ & _ & Hk2 & (S1 & S2 & S3 & S4) & Hh).
  cbn [check_signers List.filter zlen length Z.of_nat Z.eqb negb andb]. rewrite Hu4. exists k2. split; [done|].
  split; [done|]. split_and!; try congruence. intros f. rewrite Hh. specialize (Hno1 f). tauto.
Qed.

Lemma check_key_same k1 k2 key fs :
  krl_wf k1 -> krl_wf k2 -> (forall f, holds k1 f <-> holds k2 f) -> keys_ok key -> all_facts key = Ok fs ->
  ssh_krl_check_key k1 key = ssh_krl_check_key k2 key.
Proof.
  intros Hw1 Hw2 Hh Hk Hf. assert (He : Exists (holds k1) fs <-> Exists (holds k2) fs).
  { rewrite !Exists_exists. by setoid_rewrite Hh. }
  destruct (check_key_spec _ _ _ Hw1 Hk Hf) as [[-> H1]|[-> H1]],
    (check_key_spec _ _ _ Hw2 Hk Hf) as [[-> H2]|[-> H2]]; done || tauto.
Qed.

Lemma dated_wf now krl : krl_wf krl -> krl_wf (dated now krl) /\ forall f, holds (dated now krl) f <-> holds krl f.
Proof. intros Hw. unfold dated. destruct (_ =? _); [|done]. split; [done|]. by intros []. Qed.

(** What is written without a signature is read, also by a reader that trusts some
    keys: the check of the signer is made only when there is a signature. *)
Lemma krl_unsigned_read now krl buf trusted :
  krl_wf krl -> krl_storable (dated now krl) ->
  buf_wf buf -> locked buf = false -> contents buf = [] ->
  zlen (krl_wire (dated now krl)) <= max_size buf ->
  exists buf1 krl2,
    ssh_krl_to_blob now [] (krl, buf) = (Ok tt, (dated now krl, buf1)) /\
    ssh_krl_from_blob trusted buf1 = (Ok (Some krl2), buf1) /\
    krl_version krl2 = krl_version krl /\ flags krl2 = flags krl /\
    generated_date krl2 = generated_date (dated now krl) /\ comment krl2 = Some (default [] (comment krl)) /\
    forall key fs, keys_ok key -> all_facts key = Ok fs ->
      ssh_krl_check_key krl2 key = ssh_krl_check_key krl key.
Proof.
  intros Hw Hs Hb Hl Hc Hz. destruct (dated_wf now krl Hw) as [Hwd Hhd].
  destruct (dated_wire_parts now krl) as (Ec & Ecm & _). pose proof Hs as (Hrc & Hnn & _).
  rewrite Ec in Hrc. rewrite Ecm in Hnn.
  destruct (to_blob_writes now krl buf Hw Hrc Hnn Hb Hl) as (buf1 & E1 & Hb1 & Hl1 & _ & Hc1); [by rewrite Hc|].
  rewrite Hc in Hc1. cbn [app] in Hc1.
  assert (Hbr : bufr buf1).
  { split; [done|]. unfold locked in Hl1. apply orb_false_iff in Hl1 as [_ Hr].
    rewrite Z.gtb_ltb, Z.ltb_ge in Hr. unfold SSHBUF_REFS_MAX. lia. }
  destruct (from_blob_reads (dated now krl) buf1 trusted Hbr Hc1 Hwd Hs) as (krl2 & E2 & Hw2 & V1 & V2 & V3 & V4 & Hh).
  exists buf1, krl2. split; [done|]. split; [done|].
  assert (krl_version (dated now krl) = krl_version krl /\ flags (dated now krl) = flags krl) as [F1 F2]
    by (unfold dated; by destruct (_ =? _)).
  split_and!; try congruence. intros key fs Hk Hf. apply (check_key_same krl2 krl key fs); try done.
  intros f. by rewrite Hh, Hhd.
Qed.

(** C32: a KRL survives being written and read.  A KRL whose serial numbers are
    positive, whose strings hold no NUL and whose bitmap sections are at most
    16384 bits wide, written without signature by [ssh_krl_to_blob] into an empty
    buffer with room for it, is read again by [ssh_krl_from_blob] for a reader that
    asks for no signer (no CA keys): the version, date and flags are the same, the
    comment too (a missing one comes back empty), and the loaded KRL gives the same
    answer as the original for every key, whatever sections (lists, ranges,
    bitmaps) the writer chose. *)
Theorem krl_blob_roundtrip now krl buf :
  krl_wf krl -> krl_storable (dated now krl) ->
  buf_wf buf -> locked buf = false -> contents buf = [] ->
  zlen (krl_wire (dated now krl)) <= max_size buf ->
  exists buf1 krl2,
    ssh_krl_to_blob now [] (krl, buf) = (Ok tt, (dated now krl, buf1)) /\
    ssh_krl_from_blob [] buf1 = (Ok (Some krl2), buf1) /\
    krl_version krl2 = krl_version krl /\ flags krl2 = flags krl /\
    generated_date krl2 = (if generated_date krl =? 0 then now else generated_date krl) /\
    (forall c, comment krl = Some c -> comment krl2 = Some c) /\ (comment krl = None -> comment krl2 = Some []) /\
    forall key fs, keys_ok key -> all_facts key = Ok fs ->
      ssh_krl_check_key krl2 key = ssh_krl_check_key krl key.
Proof.
  intros Hw Hs Hb Hl Hc Hz. destruct (krl_unsigned_read now krl buf [] Hw Hs Hb Hl Hc Hz) as (buf1 & krl2 & E1 & E2 & V & F & D & C & Hck).
  exists buf1, krl2. split_and!; try done.
  - rewrite D. unfold dated. by destruct (generated_date krl =? 0).
  - intros c E. by rewrite C, E.
  - intros E. by rewrite C, E.
Qed.

End reader.

(** * Concrete keys *)

(** Keys that are numbers, and certificates; a blob starts with the kind. *)
Definition wire_blob (k : demo_key) : list Z :=
  match k with DPlain n => [0; n] | DCert n s id ca => [1; n; s; ca] ++ id end.
Definition wire_read (b : list Z) : result demo_key :=
  match b with
  | [0; n] => Ok (DPlain n)
  | 1 :: n :: s :: ca :: id => Ok (DCert n s id ca)
  | _ => Err SSH_ERR_INVALID_FORMAT
  end.

Definition wire_keys : SshKey := {|
  sshkey := demo_key;
  sshkey_equal := fun j k => bool_decide (j = k);
  sshkey_from_private := Ok;
  sshkey_cert_of := fun k =>
    match k with DPlain _ => None | DCert _ s id ca => Some (mk_cert s id (DPlain ca)) end;
  sshkey_drop_cert := fun k => Ok (DPlain (demo_num k));
  sshkey_to_blob := fun k => Ok (wire_blob k);
  sshkey_fingerprint_raw := fun k d =>
    Ok (replicate (match d with SSH_DIGEST_SHA1 => 20 | SSH_DIGEST_SHA256 => 32 end) (demo_num k));
|}.

Lemma wire_keys_laws : SshKeyLaws wire_keys.
Proof.
  constructor; cbn; intros.
  - by apply bool_decide_eq_true_2.
  - apply bool_decide_ext. split; congruence.
  - match goal with H : _ = true, H' : _ = true |- _ =>
      apply bool_decide_eq_true in H, H'; subst end. by apply bool_decide_eq_true_2.
  - match goal with H : Ok _ = _ |- _ => injection H as -> end. by apply bool_decide_eq_true_2.
Qed.

Definition wire_io : SshKeyWire wire_keys :=
  @Build_SshKeyWire wire_keys wire_read (fun k d => Ok [demo_num k; zlen d])
    (fun k s d => if bool_decide (s = [demo_num k; zlen d]) then Ok tt else Err SSH_ERR_SIGNATURE_INVALID).

Lemma wire_io_laws : SshKeyWireLaws wire_keys wire_io.
Proof.
  constructor; cbn.
  - intros k b [= <-]. split; [by destruct k|]. exists k. split; [by destruct k|by apply bool_decide_eq_true_2].
  - intros b k _. by exists k.
Qed.

Definition demo_krl : @ssh_krl wire_keys :=
  @mk_krl wire_keys 7 0 0 (Some [65; 66]) [[0; 5]] [] []
    [@mk_rc wire_keys (Some (DPlain 9)) [mk_rs 5 9; mk_rs 11 11; mk_rs 100 100000] [[65]; [66; 67]];
     @mk_rc wire_keys None [mk_rs 1 (2 ^ 63)] []].

Lemma krl_blob_roundtrip_witness :
  exists buf1 krl2,
    @ssh_krl_to_blob alloc_all wire_keys wire_io 1234 [] (demo_krl, demo_buf) = (Ok tt, (dated 1234 demo_krl, buf1)) /\
    @ssh_krl_from_blob balanced alloc_all wire_keys wire_io [] buf1 = (Ok (Some krl2), buf1) /\
    krl_version krl2 = 7 /\
    @ssh_krl_check_key balanced wire_keys krl2 (DCert 1 7 [90] 9) = Err SSH_ERR_KEY_REVOKED.
Proof.
  destruct (@krl_blob_roundtrip balanced alloc_all alloc_all_reliable wire_keys wire_keys_laws wire_io wire_io_laws
    1234 demo_krl demo_buf) as (buf1 & krl2 & E1 & E2 & V & _ & _ & _ & _ & Hck).
  - split; [|split; [|split_and!; repeat constructor]].
    + repeat constructor; cbn; lia.
    + intros [|[|i]] [|[|j]] rc rc' Hi Hj He; cbn in Hi, Hj; simplify_eq; done.
  - split; [|split; [by repeat constructor|split; [by right; constructor|split; [by right; constructor|cbn; lia]]]].
    apply Forall_cons; split; [|apply Forall_cons; split; [|by constructor]];
      (split; [repeat constructor; cbn; lia|]); (split; [vm_compute; repeat constructor; discriminate|]);
      (split; [by repeat constructor|]); [by eexists|done].
  - apply demo_buf_wf.
  - done.
  - done.
  - vm_compute. discriminate.
  - exists buf1, krl2. split; [exact E1|]. split; [exact E2|]. split; [exact V|].
    rewrite (Hck (DCert 1 7 [90] 9) _ ltac:(split; cbn; [lia|exact I]) eq_refl). vm_compute. reflexivity.
Defined.

(** ** Too wide a bitmap *)

(** Single serials at a distance of 70: cheaper to keep in one bitmap than to
    start a new section. *)
Definition spread (n : nat) : list (@request wire_keys) :=
  (fun i => @RevSerial wire_keys None (1 + 70 * Z.of_nat i)) <$> seq 0 n.

(** A KRL that cannot be read back.  240 certificate serial numbers (1, 71,
    141, ...) are revoked without error and [ssh_krl_to_blob] writes the KRL
    without error, but as one bitmap of more than 16384 bits, which
    [ssh_krl_from_blob] refuses: the revocations are lost to the readers. *)
Theorem krl_wide_bitmap_unreadable :
  let '(rs, krl) := @run_requests balanced alloc_all wire_keys (spread 240) (@mk_krl wire_keys 1 0 0 None [] [] [] []) in
  rs = replicate 240 (Ok tt) /\
  let '(r, (_, blob)) := @ssh_krl_to_blob alloc_all wire_keys wire_io 1234 [] (krl, demo_buf) in
  r = Ok tt /\
  fst (@ssh_krl_from_blob balanced alloc_all wire_keys wire_io [] blob) = Err SSH_ERR_BIGNUM_TOO_LARGE.
Proof. vm_compute. repeat split. Qed.
