(* ===== verification/AlgNames.v ===== *)
(** Algorithm names: the tables of key exchange methods (kex.c), MACs (mac.c),
    ciphers (cipher.c) and digests (digest-openssl.c), the checks of name lists,
    and the composition of a list from a default and the user's configuration
    ([kex_names_cat], [kex_assemble_names]).

    The build modelled has OpenSSL with SHA-2, ECC, GCM and DES, zlib, no FIPS
    mode and no sntrup. *)

From Stdlib Require Import String.
From S2P Require Import Prelude Match.
Local Open Scope Z_scope.

(** * Digests (digest-openssl.c) *)

Definition SSH_DIGEST_MD5 : Z := 0.
Definition SSH_DIGEST_SHA1 : Z := 1.
Definition SSH_DIGEST_SHA256 : Z := 2.
Definition SSH_DIGEST_SHA384 : Z := 3.
Definition SSH_DIGEST_SHA512 : Z := 4.
Definition SSH_DIGEST_MAX : Z := 5.
Definition SSH_DIGEST_MAX_LENGTH : Z := 64.

Record ssh_digest := mk_digest { dg_id : Z; dg_name : cstring; digest_len : Z }.

Definition digests : list ssh_digest :=
  [mk_digest SSH_DIGEST_MD5 (str "MD5") 16; mk_digest SSH_DIGEST_SHA1 (str "SHA1") 20;
   mk_digest SSH_DIGEST_SHA256 (str "SHA256") 32; mk_digest SSH_DIGEST_SHA384 (str "SHA384") 48;
   mk_digest SSH_DIGEST_SHA512 (str "SHA512") 64].

Definition ssh_digest_by_alg (alg : Z) : option ssh_digest :=
  if (alg <? 0) || (alg >=? SSH_DIGEST_MAX) then None
  else match digests !! Z.to_nat alg with
       | Some d => if negb (dg_id d =? alg) then None else Some d
       | None => None
       end.

(** strcasecmp(a, b) == 0 *)
Definition strcaseeq (a b : cstring) : bool := bool_decide (lowercase a = lowercase b).

Definition ssh_digest_alg_by_name (name : cstring) : Z :=
  match List.find (fun d => strcaseeq name (dg_name d)) digests with
  | Some d => dg_id d
  | None => -1
  end.

Definition ssh_digest_alg_name (alg : Z) : option cstring := dg_name <$> ssh_digest_by_alg alg.

Definition ssh_digest_bytes (alg : Z) : Z :=
  match ssh_digest_by_alg alg with None => 0 | Some d => digest_len d end.

(** * Key exchange methods (kex.c) *)

Inductive kex_exchange : Set :=
  | KEX_DH_GRP1_SHA1 | KEX_DH_GRP14_SHA1 | KEX_DH_GRP14_SHA256 | KEX_DH_GRP16_SHA512
  | KEX_DH_GRP18_SHA512 | KEX_DH_GEX_SHA1 | KEX_DH_GEX_SHA256 | KEX_ECDH_SHA2
  | KEX_C25519_SHA256 | KEX_KEM_SNTRUP4591761X25519_SHA512.

#[global] Instance kex_exchange_eq_dec : EqDecision kex_exchange.
Proof. solve_decision. Defined.

(** Object identifiers of OpenSSL. *)
Definition NID_X9_62_prime256v1 : Z := 415.
Definition NID_secp384r1 : Z := 715.
Definition NID_secp521r1 : Z := 716.

Record kexalg := mk_kexalg { ka_name : cstring; ka_type : kex_exchange; ka_nid : Z; ka_hash : Z }.

Definition kexalgs : list kexalg :=
  [mk_kexalg (str "diffie-hellman-group1-sha1") KEX_DH_GRP1_SHA1 0 SSH_DIGEST_SHA1;
   mk_kexalg (str "diffie-hellman-group14-sha1") KEX_DH_GRP14_SHA1 0 SSH_DIGEST_SHA1;
   mk_kexalg (str "diffie-hellman-group14-sha256") KEX_DH_GRP14_SHA256 0 SSH_DIGEST_SHA256;
   mk_kexalg (str "diffie-hellman-group16-sha512") KEX_DH_GRP16_SHA512 0 SSH_DIGEST_SHA512;
   mk_kexalg (str "diffie-hellman-group18-sha512") KEX_DH_GRP18_SHA512 0 SSH_DIGEST_SHA512;
   mk_kexalg (str "diffie-hellman-group-exchange-sha1") KEX_DH_GEX_SHA1 0 SSH_DIGEST_SHA1;
   mk_kexalg (str "diffie-hellman-group-exchange-sha256") KEX_DH_GEX_SHA256 0 SSH_DIGEST_SHA256;
   mk_kexalg (str "ecdh-sha2-nistp256") KEX_ECDH_SHA2 NID_X9_62_prime256v1 SSH_DIGEST_SHA256;
   mk_kexalg (str "ecdh-sha2-nistp384") KEX_ECDH_SHA2 NID_secp384r1 SSH_DIGEST_SHA384;
   mk_kexalg (str "ecdh-sha2-nistp521") KEX_ECDH_SHA2 NID_secp521r1 SSH_DIGEST_SHA512;
   mk_kexalg (str "curve25519-sha256") KEX_C25519_SHA256 0 SSH_DIGEST_SHA256;
   mk_kexalg (str "curve25519-sha256@libssh.org") KEX_C25519_SHA256 0 SSH_DIGEST_SHA256].

(** The loop of the three *_alg_list functions over the names of a table. *)
Fixpoint alg_list_loop `{Allocator} (sep : Z) (ns : list cstring) (ret : option cstring) : option cstring :=
  match ns with
  | [] => ret
  | n :: ns =>
      let r := match ret with Some r => r ++ [sep] | None => [] end in
      if malloc_ok (zlen r + zlen n + 2) then alg_list_loop sep ns (Some (r ++ n)) else None
  end.

Definition kex_alg_list `{Allocator} (sep : Z) : option cstring :=
  alg_list_loop sep (map ka_name kexalgs) None.

Definition kex_alg_by_name (name : cstring) : option kexalg :=
  List.find (fun k => bool_decide (ka_name k = name)) kexalgs.

(** The loop of the *_valid functions: the tokens up to an empty one. *)
Fixpoint valid_loop (ok : cstring -> bool) (ts : list cstring) : bool :=
  match ts with
  | [] => true
  | [] :: _ => true
  | p :: ts => if negb (ok p) then false else valid_loop ok ts
  end.

Definition list_valid `{Allocator} (ok : cstring -> bool) (names : option cstring) : bool :=
  match names with
  | None | Some [] => false
  | Some names => if negb (malloc_ok (zlen names + 1)) then false else valid_loop ok (tokens names)
  end.

Definition kex_names_valid `{Allocator} : option cstring -> bool :=
  list_valid (fun p => bool_decide (is_Some (kex_alg_by_name p))).

(** * Ciphers (cipher.c) *)

Definition CFLAG_CBC : Z := Z.shiftl 1 0.
Definition CFLAG_CHACHAPOLY : Z := Z.shiftl 1 1.
Definition CFLAG_AESCTR : Z := Z.shiftl 1 2.
Definition CFLAG_NONE : Z := Z.shiftl 1 3.
Definition CFLAG_INTERNAL : Z := CFLAG_NONE.

Record sshcipher := mk_cipher {
  c_name : cstring; c_block_size : Z; c_key_len : Z; c_iv_len : Z; c_auth_len : Z; c_flags : Z
}.

#[global] Instance sshcipher_eq_dec : EqDecision sshcipher.
Proof. solve_decision. Defined.

Definition ciphers : list sshcipher :=
  [mk_cipher (str "3des-cbc") 8 24 0 0 CFLAG_CBC;
   mk_cipher (str "aes128-cbc") 16 16 0 0 CFLAG_CBC;
   mk_cipher (str "aes192-cbc") 16 24 0 0 CFLAG_CBC;
   mk_cipher (str "aes256-cbc") 16 32 0 0 CFLAG_CBC;
   mk_cipher (str "rijndael-cbc@lysator.liu.se") 16 32 0 0 CFLAG_CBC;
   mk_cipher (str "aes128-ctr") 16 16 0 0 0;
   mk_cipher (str "aes192-ctr") 16 24 0 0 0;
   mk_cipher (str "aes256-ctr") 16 32 0 0 0;
   mk_cipher (str "aes128-gcm@openssh.com") 16 16 12 16 0;
   mk_cipher (str "aes256-gcm@openssh.com") 16 32 12 16 0;
   mk_cipher (str "chacha20-poly1305@openssh.com") 8 64 0 16 CFLAG_CHACHAPOLY;
   mk_cipher (str "none") 8 0 0 0 CFLAG_NONE].

Definition c_flag (f : Z) (c : sshcipher) : bool := negb (Z.land (c_flags c) f =? 0).

Definition cipher_alg_list `{Allocator} (sep : Z) (auth_only : bool) : option cstring :=
  alg_list_loop sep
    (map c_name (List.filter (fun c => negb (c_flag CFLAG_INTERNAL c) &&
                                  negb (auth_only && (c_auth_len c =? 0))) ciphers)) None.

Definition compression_alg_list (compression : bool) : cstring :=
  if compression then str "zlib@openssh.com,zlib,none" else str "none,zlib@openssh.com,zlib".

Definition cipher_blocksize (c : sshcipher) : Z := c_block_size c.
Definition cipher_keylen (c : sshcipher) : Z := c_key_len c.
Definition cipher_seclen (c : sshcipher) : Z :=
  if bool_decide (str "3des-cbc" = c_name c) then 14 else cipher_keylen c.
Definition cipher_authlen (c : sshcipher) : Z := c_auth_len c.
Definition cipher_ivlen (c : sshcipher) : Z :=
  if negb (c_iv_len c =? 0) || c_flag CFLAG_CHACHAPOLY c then c_iv_len c else c_block_size c.
Definition cipher_is_cbc (c : sshcipher) : bool := c_flag CFLAG_CBC c.

Definition cipher_by_name (name : cstring) : option sshcipher :=
  List.find (fun c => bool_decide (c_name c = name)) ciphers.

Definition cipher_none : option sshcipher :=
  List.find (fun c => bool_decide (c_name c = str "none")) ciphers.

Definition ciphers_valid `{Allocator} : option cstring -> bool :=
  list_valid (fun p => match cipher_by_name p with
                       | None => false
                       | Some c => negb (c_flag CFLAG_INTERNAL c)
                       end).

(** * MACs (mac.c) *)

Definition SSH_DIGEST : Z := 1.
Definition SSH_UMAC : Z := 2.
Definition SSH_UMAC128 : Z := 3.

Record macalg := mk_macalg {
  ma_name : cstring; ma_type : Z; ma_alg : Z; truncatebits : Z; ma_key_len : Z; ma_len : Z; ma_etm : bool
}.

Definition macs : list macalg :=
  [mk_macalg (str "hmac-sha1") SSH_DIGEST SSH_DIGEST_SHA1 0 0 0 false;
   mk_macalg (str "hmac-sha1-96") SSH_DIGEST SSH_DIGEST_SHA1 96 0 0 false;
   mk_macalg (str "hmac-sha2-256") SSH_DIGEST SSH_DIGEST_SHA256 0 0 0 false;
   mk_macalg (str "hmac-sha2-512") SSH_DIGEST SSH_DIGEST_SHA512 0 0 0 false;
   mk_macalg (str "hmac-md5") SSH_DIGEST SSH_DIGEST_MD5 0 0 0 false;
   mk_macalg (str "hmac-md5-96") SSH_DIGEST SSH_DIGEST_MD5 96 0 0 false;
   mk_macalg (str "umac-64@openssh.com") SSH_UMAC 0 0 128 64 false;
   mk_macalg (str "umac-128@openssh.com") SSH_UMAC128 0 0 128 128 false;
   mk_macalg (str "hmac-sha1-etm@openssh.com") SSH_DIGEST SSH_DIGEST_SHA1 0 0 0 true;
   mk_macalg (str "hmac-sha1-96-etm@openssh.com") SSH_DIGEST SSH_DIGEST_SHA1 96 0 0 true;
   mk_macalg (str "hmac-sha2-256-etm@openssh.com") SSH_DIGEST SSH_DIGEST_SHA256 0 0 0 true;
   mk_macalg (str "hmac-sha2-512-etm@openssh.com") SSH_DIGEST SSH_DIGEST_SHA512 0 0 0 true;
   mk_macalg (str "hmac-md5-etm@openssh.com") SSH_DIGEST SSH_DIGEST_MD5 0 0 0 true;
   mk_macalg (str "hmac-md5-96-etm@openssh.com") SSH_DIGEST SSH_DIGEST_MD5 96 0 0 true;
   mk_macalg (str "umac-64-etm@openssh.com") SSH_UMAC 0 0 128 64 true;
   mk_macalg (str "umac-128-etm@openssh.com") SSH_UMAC128 0 0 128 128 true].

Definition mac_alg_list `{Allocator} (sep : Z) : option cstring :=
  alg_list_loop sep (map ma_name macs) None.

Definition mac_by_name (name : cstring) : option macalg :=
  List.find (fun m => bool_decide (name = ma_name m)) macs.

Definition mac_valid `{Allocator} : option cstring -> bool :=
  list_valid (fun p => bool_decide (is_Some (mac_by_name p))).

(** * Composing lists (kex.c) *)

(** The value strlcat(dst, src, siz) returns. *)
Definition strlcat_len (dst src : cstring) (siz : Z) : Z := MINIMUM siz (zlen dst) + zlen src.

Fixpoint names_cat_loop (len : Z) (ts : list cstring) (ret : cstring) : option cstring :=
  match ts with
  | [] => Some ret
  | [] :: _ => Some ret
  | p :: ts =>
      match match_list ret p with
      | Some _ => names_cat_loop len ts ret
      | None =>
          if strlcat_len ret [ch_comma] len >=? len then None
          else
            let ret1 := strlcat ret [ch_comma] len in
            if strlcat_len ret1 p len >=? len then None
            else names_cat_loop len ts (strlcat ret1 p len)
      end
  end.

(** strdup(3) *)
Definition strdup `{Allocator} (s : cstring) : option cstring :=
  if malloc_ok (zlen s + 1) then Some s else None.

(** No caller passes a null [b]. *)
Definition kex_names_cat `{Allocator} (a : option cstring) (b : cstring) : option cstring :=
  match a with
  | None | Some [] => strdup b
  | Some a =>
      match b with
      | [] => strdup a
      | _ =>
          if zlen b >? 1024 * 1024 then None
          else
            let len := zlen a + zlen b + 2 in
            match strdup b with
            | None => None
            | Some cp =>
                if negb (malloc_ok len) then None
                else names_cat_loop len (tokens cp) (ztake (len - 1) a)
            end
      end
  end.

Definition ch_plus : Z := 43.
Definition ch_minus : Z := 45.
Definition ch_caret : Z := 94.

Definition is_negated (cp : cstring) : bool := match cp with c :: _ => c =? ch_bang | [] => false end.

(** The loop over the patterns: the names of [all] that each one selects are
    appended to [ret]. *)
Fixpoint assemble_loop `{Allocator} (all : cstring) (ts : list cstring) (ret : option cstring) :
    result (option cstring) :=
  match ts with
  | [] => Ok ret
  | cp :: ts =>
      if is_negated cp then Err SSH_ERR_INVALID_ARGUMENT
      else
        match match_filter_whitelist all cp with
        | None => Err SSH_ERR_ALLOC_FAIL
        | Some matching =>
            match kex_names_cat ret matching with
            | None => Err SSH_ERR_ALLOC_FAIL
            | Some tmp => assemble_loop all ts (Some tmp)
            end
        end
  end.

(** The part after the prefix was handled: the patterns of [list] are applied. *)
Definition assemble_patterns `{Allocator} (all list : cstring) : result cstring :=
  match strdup list with
  | None => Err SSH_ERR_ALLOC_FAIL
  | Some patterns =>
      match assemble_loop all (tokens patterns) None with
      | Err e => Err e
      | Ok None | Ok (Some []) => Err SSH_ERR_INVALID_ARGUMENT
      | Ok (Some ret) => Ok ret
      end
  end.

(** [*listp] is the state; it is null after an error. *)
Definition kex_assemble_names `{Allocator} (def all : option cstring) : SE (option cstring) unit := fun listp =>
  match def, all with
  | Some def, Some all =>
      match listp with
      | None | Some [] =>
          match strdup def with
          | Some d => (Ok tt, Some d)
          | None => (Err SSH_ERR_ALLOC_FAIL, None)
          end
      | Some ((c :: rest) as list) =>
          let finish list :=
            match assemble_patterns all list with
            | Ok ret => (Ok tt, Some ret)
            | Err e => (Err e, None)
            end in
          if c =? ch_plus then
            match kex_names_cat (Some def) rest with
            | None => (Err SSH_ERR_ALLOC_FAIL, None)
            | Some tmp => finish tmp
            end
          else if c =? ch_minus then
            match match_filter_blacklist def rest with
            | None => (Err SSH_ERR_ALLOC_FAIL, None)
            | Some r => (Ok tt, Some r)
            end
          else if c =? ch_caret then
            match kex_names_cat (Some rest) def with
            | None => (Err SSH_ERR_ALLOC_FAIL, None)
            | Some tmp => finish tmp
            end
          else finish list
      end
  | _, _ => (Err SSH_ERR_INVALID_ARGUMENT, listp)
  end.

(** * What the composition does *)

(** A list of names with no empty entry. *)
Definition proper (s : cstring) : Prop := Forall (fun t => t <> []) (tokens s).

#[global] Instance proper_dec s : Decision (proper s).
Proof. unfold proper. apply _. Defined.

(** Appending the names that are not there yet. *)
Fixpoint add_names (l ps : list cstring) : list cstring :=
  match ps with
  | [] => l
  | p :: ps => add_names (if bool_decide (p ∈ l) then l else l ++ [p]) ps
  end.

Definition name_ok (t : cstring) : Prop := t <> [] /\ no_comma t.

#[global] Instance name_ok_dec t : Decision (name_ok t).
Proof. unfold name_ok, no_comma. apply _. Defined.

Lemma take_nonempty_all ts : Forall (fun t => t <> []) ts -> take_nonempty ts = ts.
Proof. intros H. rewrite <- (app_nil_r ts) at 1. rewrite take_nonempty_app by done. by rewrite app_nil_r. Qed.

Lemma names_proper s : proper s -> names s = tokens s.
Proof. apply take_nonempty_all. Qed.

Lemma take_nonempty_ok ts : Forall no_comma ts -> Forall name_ok (take_nonempty ts).
Proof. induction 1 as [|t ts Ht _ IH]; [constructor|]. destruct t; [constructor|]. by constructor. Qed.

Lemma names_ok s : Forall name_ok (names s).
Proof. apply take_nonempty_ok, tokens_no_comma. Qed.

Lemma names_join l : Forall name_ok l -> names (join_comma l) = l.
Proof.
  intros Hl. destruct l as [|t l]; [done|]. unfold names. rewrite tokens_join.
  - apply take_nonempty_all. eapply Forall_impl; [exact Hl|]. by intros ? [].
  - done.
  - eapply Forall_impl; [exact Hl|]. by intros ? [].
Qed.

Lemma proper_join l : l <> [] -> Forall name_ok l -> proper (join_comma l).
Proof.
  intros Hn Hl. unfold proper. rewrite tokens_join; [|done|eapply Forall_impl; [exact Hl|]; by intros ? []].
  eapply Forall_impl; [exact Hl|]. by intros ? [].
Qed.

(** A list with one name is a membership test. *)
Lemma match_list_single ret p : name_ok p -> match_list ret p = if bool_decide (p ∈ names ret) then Some p else None.
Proof.
  intros [Hp Hc]. unfold match_list, match_list_next.
  assert (sproposals p = [p]) as -> by (unfold sproposals; rewrite tokens_no_sep by done; by destruct p).
  destruct (client_loop_spec (tokens ret) [p] 0 (zlen (fst (strsep ret))))
    as [[-> Hf]|(l1 & n & l2 & Ht & Hn & Hin & Hl1 & ->)]; cbn [fst].
  - rewrite bool_decide_eq_false_2; [done|]. unfold names. intros Hin.
    rewrite Forall_forall in Hf. apply (Hf p Hin). by apply list_elem_of_singleton.
  - apply list_elem_of_singleton in Hin as ->. rewrite bool_decide_eq_true_2; [done|].
    unfold names. rewrite Ht, take_nonempty_app by (eapply Forall_impl; [exact Hl1|]; naive_solver).
    destruct p; [done|]. cbn. apply elem_of_app. right. by left.
Qed.

Lemma add_names_spec l ps n : n ∈ add_names l ps <-> n ∈ l \/ n ∈ ps.
Proof.
  revert l. induction ps as [|p ps IH]; intros l; cbn [add_names]; [set_solver|].
  rewrite IH. case_bool_decide; set_solver.
Qed.

Lemma add_names_NoDup l ps : NoDup l -> NoDup (add_names l ps).
Proof.
  revert l. induction ps as [|p ps IH]; intros l Hl; cbn [add_names]; [done|].
  apply IH. case_bool_decide; [done|]. apply NoDup_app. split; [done|].
  split; [set_solver|]. apply NoDup_singleton.
Qed.

Lemma add_names_nil ps : NoDup ps -> add_names [] ps = ps.
Proof.
  assert (forall l, NoDup (l ++ ps) -> add_names l ps = l ++ ps) as H; [|intros; by apply (H [])].
  induction ps as [|p ps IH]; intros l Hd; cbn [add_names]; [by rewrite app_nil_r|].
  rewrite bool_decide_eq_false_2.
  - rewrite IH; by rewrite <- app_assoc.
  - apply NoDup_app in Hd as (_ & Hd & _). intros Hin. apply (Hd p Hin). by left.
Qed.

Lemma add_names_ok l ps : Forall name_ok l -> Forall name_ok ps -> Forall name_ok (add_names l ps).
Proof. rewrite !Forall_forall. intros Hl Hp n Hn. apply add_names_spec in Hn as []; auto. Qed.

Lemma join_comma_nil_inv l : Forall name_ok l -> join_comma l = [] -> l = [].
Proof.
  intros Hl E. destruct l as [|t l]; [done|]. inversion_clear Hl as [|? ? [Hn _] _].
  destruct l; cbn in E; [done|]. by destruct t.
Qed.

Lemma strlcat_step dst src siz :
  zlen dst + zlen src < siz -> strlcat_len dst src siz >=? siz = false /\ strlcat dst src siz = dst ++ src.
Proof.
  intros H. split; [|by apply strlcat_fits]. unfold strlcat_len. rewrite MINIMUM_min. zlen_facts. lia.
Qed.

Lemma span_nonneg ts : 0 <= span ts.
Proof. induction ts; cbn [span]; zlen_facts; lia. Qed.

(** The buffer of [kex_names_cat] is large enough. *)
Lemma names_cat_loop_spec len ts l :
  l <> [] -> Forall name_ok l -> Forall no_comma ts ->
  zlen (join_comma l) + span (take_nonempty ts) < len ->
  names_cat_loop len ts (join_comma l) = Some (join_comma (add_names l (take_nonempty ts))).
Proof.
  intros Hne Hl Hts. revert l Hne Hl. induction Hts as [|t ts Ht _ IH]; intros l Hne Hl Hlen; [done|].
  destruct t as [|c t]; [done|]. cbn [names_cat_loop take_nonempty add_names span] in *.
  assert (Hok : name_ok (c :: t)) by done. pose proof (span_nonneg (take_nonempty ts)).
  rewrite match_list_single, names_join by done. case_bool_decide as Hin.
  { apply IH; [done|done|]. zlen_facts. lia. }
  destruct (strlcat_step (join_comma l) [ch_comma] len) as [-> ->]; [zlia|].
  destruct (strlcat_step (join_comma l ++ [ch_comma]) (c :: t) len) as [-> ->]; [zlia|].
  assert ((join_comma l ++ [ch_comma]) ++ c :: t = join_comma (l ++ [c :: t])) as ->.
  { rewrite join_comma_snoc by done. by rewrite <- app_assoc. }
  apply IH.
  - by destruct l.
  - apply Forall_app_2; [done|]. by apply Forall_singleton.
  - rewrite join_comma_snoc by done. zlia.
Qed.

Lemma span_take_nonempty ts : span (take_nonempty ts) <= span ts.
Proof.
  induction ts as [|[|c t] ts IH]; cbn [take_nonempty span]; [done| |lia].
  pose proof (span_nonneg ts). zlen_facts. lia.
Qed.

Section compose.
Context `{Allocator} `{!ReliableAllocator _}.

Lemma strdup_ok s : strdup s = Some s.
Proof. unfold strdup. by rewrite malloc_reliable. Qed.

Lemma names_cat_spec l b :
  l <> [] -> Forall name_ok l -> zlen b <= 1024 * 1024 ->
  kex_names_cat (Some (join_comma l)) b = Some (join_comma (add_names l (names b))).
Proof.
  intros Hne Hl Hb. unfold kex_names_cat.
  destruct (join_comma l) as [|c j] eqn:Ej; [by apply join_comma_nil_inv in Ej|]. rewrite <- Ej.
  destruct b as [|d b]; [by rewrite strdup_ok|].
  destruct (Z.gtb_spec (zlen (d :: b)) (1024 * 1024)); [lia|]. cbn zeta.
  rewrite strdup_ok, malloc_reliable. cbn [negb].
  rewrite ztake_ge by (zlen_facts; lia). apply names_cat_loop_spec; [done|done|apply tokens_no_comma|].
  pose proof (span_take_nonempty (tokens (d :: b))).
  pose proof (zlen_join (tokens (d :: b)) (tokens_nonempty _)) as Hj. rewrite join_tokens in Hj. lia.
Qed.

(** The names that a list of patterns selects from [all], in the order of the
    patterns. *)
Definition selects (pat n : cstring) : bool := match_pattern_list n pat false =? 1.

Fixpoint select (all pats l : list cstring) : list cstring :=
  match pats with
  | [] => l
  | p :: pats => select all pats (add_names l (base.filter (fun n => selects p n) all))
  end.

Lemma select_spec all pats l n :
  n ∈ select all pats l <-> n ∈ l \/ (n ∈ all /\ exists p, p ∈ pats /\ selects p n).
Proof.
  revert l. induction pats as [|p pats IH]; intros l; cbn [select]; [set_solver|].
  rewrite IH, add_names_spec, list_elem_of_filter. split.
  - intros [[|[]]|(? & q & ? & ?)]; [by left| |]; right; (split; [done|]); [exists p|exists q]; set_solver.
  - intros [|(? & q & Hq & ?)]; [by do 2 left|]. apply elem_of_cons in Hq as [->|]; [left; by right|].
    right. split; [done|]. by exists q.
Qed.

Lemma select_NoDup all pats l : NoDup l -> NoDup (select all pats l).
Proof. revert l. induction pats; intros l Hl; cbn [select]; [done|]. by apply IHpats, add_names_NoDup. Qed.

Lemma tokens_ok all : proper all -> Forall name_ok (tokens all).
Proof. intros Hp. rewrite <- (names_proper all Hp). apply names_ok. Qed.

Lemma filter_join_len (P : cstring -> bool) l : Forall name_ok l -> zlen (join_comma (base.filter (fun n => P n) l)) <= span l.
Proof.
  intros Hl. destruct (decide (base.filter (fun n => P n) l = [])) as [->|Hn];
    [pose proof (span_nonneg l); by cbn|].
  rewrite zlen_join by done. clear. enough (span (base.filter (fun n => P n) l) <= span l) by lia.
  induction l as [|t l IH]; [done|]. rewrite filter_cons. pose proof (span_nonneg l).
  destruct (decide _); cbn [span]; zlen_facts; lia.
Qed.

(** [ret] as the loop holds it: null or a string. *)
Definition ret_ok (ret : option cstring) (l : list cstring) : Prop :=
  (ret = None /\ l = []) \/ ret = Some (join_comma l).

Lemma names_cat_ret ret l m :
  ret_ok ret l -> Forall name_ok l -> Forall name_ok m -> NoDup m -> zlen (join_comma m) <= 1024 * 1024 ->
  kex_names_cat ret (join_comma m) = Some (join_comma (add_names l m)).
Proof.
  intros Hr Hl Hm Hd Hlen. destruct (decide (l = [])) as [->|Hn].
  - rewrite add_names_nil by done. destruct Hr as [[-> _]| ->]; cbn; by rewrite strdup_ok.
  - destruct Hr as [[_ ?]| ->]; [done|]. rewrite names_cat_spec by done. by rewrite names_join.
Qed.

Lemma assemble_loop_spec all ts ret l :
  proper all -> NoDup (tokens all) -> zlen all < 1024 * 1024 -> ret_ok ret l -> Forall name_ok l ->
  assemble_loop all ts ret =
  if existsb is_negated ts then Err SSH_ERR_INVALID_ARGUMENT
  else Ok (if ts is [] then ret else Some (join_comma (select (tokens all) ts l))).
Proof.
  intros Hp Hd Hlen. revert ret l. induction ts as [|cp ts IH]; intros ret l Hr Hl; [done|].
  cbn [assemble_loop existsb select]. destruct (is_negated cp); [done|]. cbn [orb].
  unfold match_filter_whitelist. rewrite filter_list_exact by (done || apply malloc_reliable).
  set (m := base.filter (fun n => keeps cp false n) (tokens all)).
  assert (Hm : Forall name_ok m) by (pose proof (tokens_ok _ Hp) as Hok; rewrite Forall_forall in *;
    intros n Hn; apply list_elem_of_filter in Hn as []; auto).
  rewrite (names_cat_ret ret l m); [|done|done|done|by apply NoDup_filter|].
  - rewrite (IH _ (add_names l m)); [|by right|by apply add_names_ok].
    destruct (existsb is_negated ts); [done|]. by destruct ts.
  - pose proof (filter_join_len (keeps cp false) (tokens all) (tokens_ok _ Hp)) as Hj. fold m in Hj.
    pose proof (zlen_join (tokens all) (tokens_nonempty _)) as Ht. rewrite join_tokens in Ht. lia.
Qed.

Lemma select_ok all pats l : Forall name_ok all -> Forall name_ok l -> Forall name_ok (select all pats l).
Proof.
  rewrite !Forall_forall. intros Ha Hl n Hn. apply select_spec in Hn as [|[]]; auto.
Qed.

Lemma assemble_patterns_spec all list :
  proper all -> NoDup (tokens all) -> zlen all < 1024 * 1024 ->
  assemble_patterns all list =
  if existsb is_negated (tokens list) then Err SSH_ERR_INVALID_ARGUMENT
  else match select (tokens all) (tokens list) [] with
       | [] => Err SSH_ERR_INVALID_ARGUMENT
       | r => Ok (join_comma r)
       end.
Proof.
  intros Hp Hd Hlen. unfold assemble_patterns. rewrite strdup_ok.
  rewrite (assemble_loop_spec _ _ _ []); [|done|done|done|by left|done].
  destruct (existsb _ _); [done|]. pose proof (tokens_nonempty list).
  destruct (tokens list) as [|t ts] eqn:E; [done|].
  pose proof (select_ok (tokens all) (t :: ts) [] (tokens_ok _ Hp) (Forall_nil_2 _)) as Hok.
  destruct (select _ _ _) as [|x l]; [done|].
  destruct (join_comma (x :: l)) as [|c j] eqn:Ej; [by apply join_comma_nil_inv in Ej|done].
Qed.

(** The patterns that a configuration string stands for. *)
Definition conf_patterns (def conf : cstring) : list cstring :=
  match conf with
  | [] => []
  | c :: rest =>
      if c =? ch_plus then add_names (tokens def) (names rest)
      else if c =? ch_caret then add_names (tokens rest) (tokens def)
      else tokens conf
  end.

Definition removes (conf : cstring) : bool := match conf with c :: _ => c =? ch_minus | [] => false end.

Lemma tokens_names_cat a b :
  proper a -> zlen b <= 1024 * 1024 ->
  exists s, kex_names_cat (Some a) b = Some s /\ tokens s = add_names (tokens a) (names b).
Proof.
  intros Ha Hb. pose proof (tokens_ok _ Ha) as Hok.
  exists (join_comma (add_names (tokens a) (names b))). split.
  - rewrite <- names_cat_spec by (done || apply tokens_nonempty). by rewrite join_tokens.
  - apply tokens_join.
    + pose proof (tokens_nonempty a) as Hn. destruct (tokens a) as [|t ts]; [done|]. intros E.
      enough (t ∈ @nil cstring) by set_solver. rewrite <- E. apply add_names_spec. left. by left.
    + pose proof (add_names_ok _ _ Hok (names_ok b)) as Hf. eapply Forall_impl; [exact Hf|]. by intros ? [].
Qed.

(** The configuration of algorithm lists.  For a default list and a list of
    supported names without empty entries, [kex_assemble_names] turns the
    configured string into: for "-list", the default without the names the
    pattern list matches; otherwise the supported names that are selected by a
    pattern of the string ("+list" puts the default in front, "^list" behind),
    in the order of the patterns and without duplicates.  A negated pattern and
    an empty selection are refused, leaving a null list. *)
Theorem assemble_names_meaning def all conf :
  proper def -> proper all -> NoDup (tokens all) ->
  zlen def <= 1024 * 1024 -> zlen all < 1024 * 1024 -> zlen conf <= 1024 * 1024 -> conf <> [] ->
  (forall rest, conf = ch_caret :: rest -> proper rest) ->
  let pats := conf_patterns def conf in
  let r := select (tokens all) pats [] in
  kex_assemble_names (Some def) (Some all) (Some conf) =
    (if removes conf then
       (Ok tt, Some (join_comma
          (base.filter (fun n => match_pattern_list n (drop 1 conf) false <> 1) (tokens def))))
     else if existsb is_negated pats || bool_decide (r = []) then (Err SSH_ERR_INVALID_ARGUMENT, None)
     else (Ok tt, Some (join_comma r))) /\
  NoDup r /\
  (forall n, n ∈ r <-> n ∈ tokens all /\ exists p, p ∈ pats /\ match_pattern_list n p false = 1).
Proof.
  intros Hdef Hall Hnd Ld La Lc Hc Hcaret pats r. split; [|split].
  2: { apply select_NoDup. constructor. }
  2: { intros n. unfold r. rewrite select_spec. unfold selects.
       split; [intros [Hn|(? & p & ? & Hp)]; [set_solver|]; split; [done|]; exists p; split; [done|];
         by apply Z.eqb_eq, Is_true_true_1|].
       intros (? & p & ? & Hp). right. split; [done|]. exists p. split; [done|].
       by rewrite Hp. }
  destruct conf as [|c rest]; [done|]. subst r pats. unfold kex_assemble_names. cbn [removes conf_patterns drop].
  assert (Lr : zlen rest <= 1024 * 1024) by (rewrite zlen_cons in Lc; lia).
  assert (Hfin : forall list, (match assemble_patterns all list with
      | Ok ret => (Ok tt, Some ret) | Err e => (Err e, None) end : result unit * option cstring) =
    if existsb is_negated (tokens list) || bool_decide (select (tokens all) (tokens list) [] = [])
    then (Err SSH_ERR_INVALID_ARGUMENT, None)
    else (Ok tt, Some (join_comma (select (tokens all) (tokens list) [])))).
  { intros list. rewrite assemble_patterns_spec by done. destruct (existsb _ _); [done|].
    by destruct (select _ _ _). }
  destruct (Z.eqb_spec c ch_plus) as [->|Hplus].
  { destruct (tokens_names_cat def rest Hdef Lr) as (s & -> & <-). apply Hfin. }
  destruct (Z.eqb_spec c ch_minus) as [->|Hminus].
  { unfold match_filter_blacklist. rewrite filter_list_exact by (done || apply malloc_reliable).
    do 3 f_equal. apply list_filter_iff. intros n. unfold keeps.
    destruct (Z.eqb_spec (match_pattern_list n rest false) 1); cbn; naive_solver. }
  destruct (Z.eqb_spec c ch_caret) as [->|Hcar].
  { destruct (tokens_names_cat rest def (Hcaret _ eq_refl) Ld) as (s & -> & E).
    rewrite <- (names_proper def Hdef), <- E. apply Hfin. }
  apply Hfin.
Qed.

(** ** Assembled lists hold supported names only *)

Lemma alg_list_comma ns r :
  Forall name_ok (r ++ ns) -> r ++ ns <> [] ->
  alg_list_loop ch_comma ns (if r is [] then None else Some (join_comma r)) = Some (join_comma (r ++ ns)).
Proof.
  revert r. induction ns as [|n ns IH]; intros r Hok Hn; [rewrite app_nil_r in *; by destruct r|].
  cbn [alg_list_loop]. rewrite malloc_reliable.
  rewrite cons_middle, app_assoc in *. rewrite <- (IH (r ++ [n])) by done. f_equal.
  destruct r as [|x r]; [done|]. transitivity (Some (join_comma ((x :: r) ++ [n]))); [|done].
  rewrite join_comma_snoc by done. by rewrite <- app_assoc.
Qed.

Lemma valid_loop_forall ok ts : valid_loop ok ts = true <-> Forall (fun n => ok n = true) (take_nonempty ts).
Proof.
  induction ts as [|[|c t] ts IH]; cbn [valid_loop take_nonempty]; [done|done|].
  rewrite Forall_cons, <- IH. destruct (ok (c :: t)); cbn; naive_solver.
Qed.

Lemma list_valid_forall ok s :
  s <> [] -> list_valid ok (Some s) = true <-> Forall (fun n => ok n = true) (names s).
Proof. intros Hs. destruct s; [done|]. cbn [list_valid]. rewrite malloc_reliable. apply valid_loop_forall. Qed.

(** Whatever is configured, the result names entries of the two given lists. *)
Lemma assemble_names_incl ok ns def conf r :
  ns <> [] -> Forall name_ok ns -> NoDup ns -> zlen (join_comma ns) < 1024 * 1024 ->
  Forall (fun n => ok n = true) ns -> proper def -> list_valid ok (Some def) = true ->
  kex_assemble_names (Some def) (Some (join_comma ns)) conf = (Ok tt, Some r) ->
  r = [] \/ list_valid ok (Some r) = true.
Proof.
  intros Hn Hok Hnd Hlen Hv Hdef Hdv. assert (Hd0 : def <> []) by (intros ->; done).
  assert (Ht : tokens (join_comma ns) = ns).
  { apply tokens_join; [done|]. eapply Forall_impl; [exact Hok|]. by intros ? []. }
  assert (Hfin : forall list r, match assemble_patterns (join_comma ns) list with
      | Ok ret => (Ok tt, Some ret) | Err e => (Err e, None) end = (Ok tt, Some r) ->
      r = [] \/ list_valid ok (Some r) = true).
  { intros list r'. rewrite assemble_patterns_spec, Ht by (try rewrite Ht; done || by apply proper_join).
    destruct (existsb _ _); [done|].
    pose proof (select_ok ns (tokens list) [] Hok (Forall_nil_2 _)) as Hs.
    pose proof (fun n => proj1 (select_spec ns (tokens list) [] n)) as Hm.
    destruct (select _ _ _) as [|x l] eqn:E; [done|]. rewrite <- E in *.
    intros [= <-]. right. apply list_valid_forall.
    { intros Ej. apply join_comma_nil_inv in Ej; [|done]. by rewrite E in Ej. }
    rewrite names_join by done. rewrite Forall_forall in *. intros n [Hx|[Hx _]]%Hm; [set_solver|auto]. }
  unfold kex_assemble_names. intros E. destruct conf as [[|c rest]|].
  1, 3: rewrite strdup_ok in E; injection E as <-; by right.
  destruct (c =? ch_plus); [destruct (kex_names_cat _ _); [by eapply Hfin|done]|].
  destruct (c =? ch_minus).
  2: { destruct (c =? ch_caret); [destruct (kex_names_cat _ _); [by eapply Hfin|done]|by eapply Hfin]. }
  unfold match_filter_blacklist in E. rewrite filter_list_exact in E by (done || apply malloc_reliable).
  injection E as <-. apply list_valid_forall in Hdv; [|done]. rewrite names_proper in Hdv by done.
  set (l := base.filter _ _). destruct (decide (l = [])) as [->|Hl]; [by left|]. right.
  assert (Hlok : Forall name_ok l).
  { pose proof (tokens_ok _ Hdef) as Hx. rewrite Forall_forall in *. intros n Hin. apply Hx.
    by apply list_elem_of_filter in Hin as []. }
  apply list_valid_forall; [intros Ej; by apply join_comma_nil_inv in Ej|].
  rewrite names_join by done. rewrite Forall_forall in *. intros n Hin. apply Hdv.
  by apply list_elem_of_filter in Hin as [].
Qed.

(** Assembled lists are valid.  Whatever the user configures, when the
    default list is valid, a non-empty cipher list that [kex_assemble_names]
    accepts with the list of supported ciphers passes [ciphers_valid], so the
    internal cipher "none" is never offered; the same holds for the MACs and the
    key exchange methods. *)
Theorem assembled_lists_valid def conf r :
  proper def ->
  (ciphers_valid (Some def) = true ->
   kex_assemble_names (Some def) (cipher_alg_list ch_comma false) conf = (Ok tt, Some r) ->
   r = [] \/ ciphers_valid (Some r) = true /\ str "none" ∉ names r) /\
  (mac_valid (Some def) = true ->
   kex_assemble_names (Some def) (mac_alg_list ch_comma) conf = (Ok tt, Some r) ->
   r = [] \/ mac_valid (Some r) = true) /\
  (kex_names_valid (Some def) = true ->
   kex_assemble_names (Some def) (kex_alg_list ch_comma) conf = (Ok tt, Some r) ->
   r = [] \/ kex_names_valid (Some r) = true).
Proof.
  intros Hdef. unfold cipher_alg_list, mac_alg_list, kex_alg_list.
  rewrite !(alg_list_comma _ []) by compute_dec.
  split; [|split]; intros Hv E; eapply assemble_names_incl in E; try exact Hv; try done.
  2-10: compute_dec.
  destruct E as [->|E]; [by left|]. destruct (decide (r = [])) as [|Hr]; [by left|]. right. split; [done|].
  apply list_valid_forall in E; [|done]. rewrite Forall_forall in E. intros Hin. by apply E in Hin.
Qed.

End compose.

Lemma assemble_names_meaning_witness :
  @kex_assemble_names alloc_all (Some (str "aes128-ctr,aes256-ctr")) (Some (str "aes128-cbc,aes128-ctr,aes256-ctr"))
    (Some (str "^aes*-cbc")) = (Ok tt, Some (str "aes128-cbc,aes128-ctr,aes256-ctr")).
Proof.
  rewrite (proj1 (@assemble_names_meaning alloc_all alloc_all_reliable
    (str "aes128-ctr,aes256-ctr") (str "aes128-cbc,aes128-ctr,aes256-ctr") (str "^aes*-cbc")
    ltac:(compute_dec) ltac:(compute_dec) ltac:(compute_dec) ltac:(by vm_compute) ltac:(by vm_compute)
    ltac:(by vm_compute) ltac:(discriminate)
    (fun rest E => eq_ind (str "aes*-cbc") proper ltac:(compute_dec) rest ltac:(by injection E)))).
  reflexivity.
Defined.

Lemma assembled_lists_valid_witness :
  @ciphers_valid alloc_all (Some (str "aes256-ctr,aes128-ctr")) = true /\
  str "none" ∉ names (str "aes256-ctr,aes128-ctr").
Proof.
  destruct (proj1 (@assembled_lists_valid alloc_all alloc_all_reliable
    (str "aes256-ctr") (Some (str "+aes128-ctr")) (str "aes256-ctr,aes128-ctr") ltac:(compute_dec))
    eq_refl eq_refl) as [E|R]; [discriminate E|exact R].
Defined.
