(* ===== verification/Digest.v ===== *)
(** Message digests, HMAC and packet MACs: digest-openssl.c, hmac.c and mac.c.

    The hash functions of OpenSSL and the UMAC functions are parameters.  A
    digest context is modelled by the bytes fed into it. *)

From Stdlib Require Import String.
From S2P Require Import Prelude Match Sshbuf SshbufGetPut AlgNames.
Local Open Scope Z_scope.

(** * Digest contexts (digest-openssl.c) *)

(** OpenSSL's EVP digests: the digest of a message (none when one of the calls
    fails) and the block size of an algorithm. *)
Class EvpDigest := {
  evp_md : Z -> list Z -> option (list Z);
  evp_block_size : Z -> Z
}.

(** What OpenSSL documents: digests have the length of the algorithm, and
    consist of bytes; a digest fits into a block. *)
Class EvpDigestLaws (E : EvpDigest) : Prop := {
  evp_md_len : forall alg m d, evp_md alg m = Some d -> zlen d = ssh_digest_bytes alg;
  evp_md_bytes : forall alg m d, evp_md alg m = Some d -> bytes_ok d;
  evp_block : forall alg, 0 <= alg < SSH_DIGEST_MAX -> ssh_digest_bytes alg <= evp_block_size alg < 2 ^ 32
}.

Record digest_ctx := mk_dctx { dx_alg : Z; dx_data : list Z }.

Definition SIZEOF_DIGEST_CTX : Z := 16.

Section digest.
Context `{Allocator} `{EvpDigest}.

Definition ssh_digest_start (alg : Z) : option digest_ctx :=
  match ssh_digest_by_alg alg with
  | None => None
  | Some _ => if malloc_ok SIZEOF_DIGEST_CTX then Some (mk_dctx alg []) else None
  end.

(** [to] becomes a copy of [from]. *)
Definition ssh_digest_copy_state (from to : digest_ctx) : result digest_ctx :=
  if negb (dx_alg from =? dx_alg to) then Err SSH_ERR_INVALID_ARGUMENT else Ok from.

Definition ssh_digest_update (ctx : digest_ctx) (m : list Z) : digest_ctx :=
  mk_dctx (dx_alg ctx) (dx_data ctx ++ m).

Definition ssh_digest_final (ctx : digest_ctx) (dlen : Z) : result (list Z) :=
  match ssh_digest_by_alg (dx_alg ctx) with
  | None => Err SSH_ERR_INVALID_ARGUMENT
  | Some digest =>
      if dlen >? 2 ^ 32 - 1 then Err SSH_ERR_INVALID_ARGUMENT
      else if dlen <? digest_len digest then Err SSH_ERR_INVALID_ARGUMENT
      else
        match evp_md (dx_alg ctx) (dx_data ctx) with
        | None => Err SSH_ERR_LIBCRYPTO_ERROR
        | Some d => if negb (zlen d =? digest_len digest) then Err SSH_ERR_INTERNAL_ERROR else Ok d
        end
  end.

Definition ssh_digest_memory (alg : Z) (m : list Z) (dlen : Z) : result (list Z) :=
  match ssh_digest_by_alg alg with
  | None => Err SSH_ERR_INVALID_ARGUMENT
  | Some digest =>
      if dlen >? 2 ^ 32 - 1 then Err SSH_ERR_INVALID_ARGUMENT
      else if dlen <? digest_len digest then Err SSH_ERR_INVALID_ARGUMENT
      else match evp_md alg m with None => Err SSH_ERR_LIBCRYPTO_ERROR | Some d => Ok d end
  end.

Definition ssh_digest_buffer (alg : Z) (b : sshbuf) (dlen : Z) : result (list Z) :=
  ssh_digest_memory alg (default [] (sshbuf_ptr b)) dlen.

(** * HMAC (hmac.c) *)

Record ssh_hmac_ctx := mk_hmac {
  hm_alg : Z; ictx : digest_ctx; octx : digest_ctx; hm_digest : digest_ctx; hm_buf : list Z
}.

Definition SIZEOF_HMAC_CTX : Z := 48.

Definition ssh_hmac_bytes (alg : Z) : Z := ssh_digest_bytes alg.

Definition ssh_hmac_start (alg : Z) : option ssh_hmac_ctx :=
  if negb (malloc_ok SIZEOF_HMAC_CTX) then None
  else
    match ssh_digest_start alg, ssh_digest_start alg, ssh_digest_start alg with
    | Some ictx, Some octx, Some digest =>
        let buf_len := evp_block_size alg in
        if malloc_ok buf_len then Some (mk_hmac alg ictx octx digest (zrepeat buf_len)) else None
    | _, _, _ => None
    end.

(** The bytes of [ctx->buf] xored with a constant. *)
Definition xor_buf (c : Z) (buf : list Z) : list Z := map (fun x => Z.lxor x c) buf.

(** The functions return -1 on every error.  Setting the key: the inner and the outer context absorb the padded key. *)
Definition hmac_set_key (ctx : ssh_hmac_ctx) (key : list Z) : result ssh_hmac_ctx :=
  let buf_len := zlen (hm_buf ctx) in
  let buf :=
    if zlen key <=? buf_len then Ok (mem_write (hm_buf ctx) 0 key)
    else match ssh_digest_memory (hm_alg ctx) key buf_len with
         | Ok d => Ok (mem_write (hm_buf ctx) 0 d)
         | Err _ => Err SSH_ERR_INTERNAL_ERROR
         end in
  match buf with
  | Err _ => Err SSH_ERR_INTERNAL_ERROR
  | Ok buf =>
      let buf := xor_buf 0x36 buf in
      let i := ssh_digest_update (ictx ctx) buf in
      let buf := xor_buf (Z.lxor 0x36 0x5c) buf in
      let o := ssh_digest_update (octx ctx) buf in
      Ok (mk_hmac (hm_alg ctx) i o (hm_digest ctx) (zrepeat buf_len))
  end.

Definition ssh_hmac_init (ctx : ssh_hmac_ctx) (key : option (list Z)) : result ssh_hmac_ctx :=
  match (match key with None => Ok ctx | Some key => hmac_set_key ctx key end) with
  | Err _ => Err SSH_ERR_INTERNAL_ERROR
  | Ok ctx =>
      match ssh_digest_copy_state (ictx ctx) (hm_digest ctx) with
      | Err _ => Err SSH_ERR_INTERNAL_ERROR
      | Ok d => Ok (mk_hmac (hm_alg ctx) (ictx ctx) (octx ctx) d (hm_buf ctx))
      end
  end.

Definition ssh_hmac_update (ctx : ssh_hmac_ctx) (m : list Z) : ssh_hmac_ctx :=
  mk_hmac (hm_alg ctx) (ictx ctx) (octx ctx) (ssh_digest_update (hm_digest ctx) m) (hm_buf ctx).

(** The result and the context; [ctx->buf] keeps the inner digest. *)
Definition ssh_hmac_final (ctx : ssh_hmac_ctx) (dlen : Z) : result (list Z) * ssh_hmac_ctx :=
  let len := ssh_digest_bytes (hm_alg ctx) in
  if dlen <? len then (Err SSH_ERR_INTERNAL_ERROR, ctx)
  else
    match ssh_digest_final (hm_digest ctx) len with
    | Err _ => (Err SSH_ERR_INTERNAL_ERROR, ctx)
    | Ok inner =>
        let buf := mem_write (hm_buf ctx) 0 inner in
        match ssh_digest_copy_state (octx ctx) (hm_digest ctx) with
        | Err _ => (Err SSH_ERR_INTERNAL_ERROR, mk_hmac (hm_alg ctx) (ictx ctx) (octx ctx) (hm_digest ctx) buf)
        | Ok d =>
            let d := ssh_digest_update d (ztake len buf) in
            (match ssh_digest_final d dlen with Ok r => Ok r | Err _ => Err SSH_ERR_INTERNAL_ERROR end,
             mk_hmac (hm_alg ctx) (ictx ctx) (octx ctx) d buf)
        end
    end.

(** The HMAC of one message given in pieces, as mac.c computes it: the context
    is reset to the key it holds, absorbs the pieces and is finished. *)
Definition hmac_message (ctx : ssh_hmac_ctx) (parts : list (list Z)) (dlen : Z) : result (list Z) * ssh_hmac_ctx :=
  match ssh_hmac_init ctx None with
  | Err e => (Err e, ctx)
  | Ok ctx => ssh_hmac_final (fold_left ssh_hmac_update parts ctx) dlen
  end.

(** * Packet MACs (mac.c) *)

(** The UMAC functions: the tag of a message under a key and a nonce; finishing
    a tag resets the context. *)
Class Umac := {
  umac : list Z -> list Z -> list Z -> list Z;
  umac128 : list Z -> list Z -> list Z -> list Z
}.

Record sshmac := mk_mac {
  mac_name : option cstring; mac_enabled : bool; mac_len : Z; mac_key : option (list Z); mac_key_len : Z;
  mac_type : Z; mac_etm : bool; hmac_ctx : option ssh_hmac_ctx; umac_ctx : option (list Z)
}.

(** After calloc. *)
Definition mac_zero : sshmac := mk_mac None false 0 None 0 0 false None None.

Definition mac_set_hmac (c : ssh_hmac_ctx) (m : sshmac) : sshmac :=
  mk_mac (mac_name m) (mac_enabled m) (mac_len m) (mac_key m) (mac_key_len m) (mac_type m) (mac_etm m)
    (Some c) (umac_ctx m).
Definition mac_set_umac (k : option (list Z)) (m : sshmac) : sshmac :=
  mk_mac (mac_name m) (mac_enabled m) (mac_len m) (mac_key m) (mac_key_len m) (mac_type m) (mac_etm m)
    (hmac_ctx m) k.

Definition mac_setup_by_alg (a : macalg) : SE sshmac unit := fun m =>
  let trunc len := if negb (truncatebits a =? 0) then truncatebits a / 8 else len in
  if ma_type a =? SSH_DIGEST then
    match ssh_hmac_start (ma_alg a) with
    | None => (Err SSH_ERR_ALLOC_FAIL,
        mk_mac (mac_name m) (mac_enabled m) (mac_len m) (mac_key m) (mac_key_len m) (ma_type a) (mac_etm m)
          None (umac_ctx m))
    | Some c =>
        let len := ssh_hmac_bytes (ma_alg a) in
        (Ok tt, mk_mac (mac_name m) (mac_enabled m) (trunc len) (mac_key m) len (ma_type a) (ma_etm a)
          (Some c) (umac_ctx m))
    end
  else
    (Ok tt, mk_mac (mac_name m) (mac_enabled m) (trunc (ma_len a / 8)) (mac_key m) (ma_key_len a / 8)
       (ma_type a) (ma_etm a) (hmac_ctx m) None).

Definition mac_setup (name : cstring) : SE sshmac unit := fun m =>
  match mac_by_name name with
  | Some a => mac_setup_by_alg a m
  | None => (Err SSH_ERR_INVALID_ARGUMENT, m)
  end.

(** umac_new allocates with xcalloc (so it does not fail) and reads the first 16
    bytes of the key. *)
Definition UMAC_KEY_LEN : Z := 16.

Definition mac_init : SE sshmac unit := fun m =>
  match mac_key m with
  | None => (Err SSH_ERR_INVALID_ARGUMENT, m)
  | Some key =>
      if mac_type m =? SSH_DIGEST then
        match hmac_ctx m with
        | None => (Err SSH_ERR_INVALID_ARGUMENT, m)
        | Some c =>
            match ssh_hmac_init c (Some (ztake (mac_key_len m) key)) with
            | Ok c => (Ok tt, mac_set_hmac c m)
            | Err _ => (Err SSH_ERR_INVALID_ARGUMENT, m)
            end
        end
      else if (mac_type m =? SSH_UMAC) || (mac_type m =? SSH_UMAC128) then
        (Ok tt, mac_set_umac (Some (ztake UMAC_KEY_LEN key)) m)
      else (Err SSH_ERR_INVALID_ARGUMENT, m)
  end.

(** The tag, cut to [dlen] and [mac_len] bytes.  [mac_init] has set the context
    of the type. *)
Definition mac_compute `{Umac} (seqno : Z) (data : list Z) (dlen : Z) : SE sshmac (list Z) := fun m =>
  let cut tag := ztake (if dlen >? mac_len m then mac_len m else dlen) tag in
  if mac_len m >? SSH_DIGEST_MAX_LENGTH then (Err SSH_ERR_INTERNAL_ERROR, m)
  else if mac_type m =? SSH_DIGEST then
    match hmac_ctx m with
    | None => (Err SSH_ERR_LIBCRYPTO_ERROR, m)
    | Some c =>
        match hmac_message c [POKE_U32 seqno; data] SSH_DIGEST_MAX_LENGTH with
        | (Ok tag, c) => (Ok (cut tag), mac_set_hmac c m)
        | (Err _, c) => (Err SSH_ERR_LIBCRYPTO_ERROR, mac_set_hmac c m)
        end
    end
  else
    match umac_ctx m with
    | None => (Err SSH_ERR_INVALID_ARGUMENT, m)
    | Some k =>
        if mac_type m =? SSH_UMAC then (Ok (cut (umac k data (POKE_U64 seqno))), m)
        else if mac_type m =? SSH_UMAC128 then (Ok (cut (umac128 k data (POKE_U64 seqno))), m)
        else (Err SSH_ERR_INVALID_ARGUMENT, m)
    end.

Definition mac_check `{Umac} (seqno : Z) (data theirmac : list Z) (mlen : Z) : SE sshmac unit := fun m =>
  if mac_len m >? mlen then (Err SSH_ERR_INVALID_ARGUMENT, m)
  else
    match mac_compute seqno data SSH_DIGEST_MAX_LENGTH m with
    | (Err e, m) => (Err e, m)
    | (Ok ourmac, m) =>
        if negb (timingsafe_bcmp (ztake (mac_len m) ourmac) (ztake (mac_len m) theirmac) =? 0)
        then (Err SSH_ERR_MAC_INVALID, m) else (Ok tt, m)
    end.

(** ** RFC 2104 *)

(** The key as a block, and the definition of the RFC. *)
Definition key_block (alg : Z) (key : list Z) : option (list Z) :=
  let b := evp_block_size alg in
  let pad k := k ++ zrepeat (b - zlen k) in
  if zlen key <=? b then Some (pad key) else pad <$> evp_md alg key.

Definition hmac_spec (alg : Z) (key m : list Z) : option (list Z) :=
  k ← key_block alg key;
  inner ← evp_md alg (xor_buf 0x36 k ++ m);
  evp_md alg (xor_buf 0x5c k ++ inner).

(** A context that holds a key. *)
Record hmac_keyed (alg : Z) (key : list Z) (ctx : ssh_hmac_ctx) : Prop := {
  hk_block : exists k, key_block alg key = Some k /\
    ictx ctx = mk_dctx alg (xor_buf 0x36 k) /\ octx ctx = mk_dctx alg (xor_buf 0x5c k);
  hk_alg : hm_alg ctx = alg;
  hk_digest : dx_alg (hm_digest ctx) = alg;
  hk_buf : zlen (hm_buf ctx) = evp_block_size alg
}.

Lemma xor_buf_twice a c l : xor_buf (Z.lxor a c) (xor_buf a l) = xor_buf c l.
Proof.
  unfold xor_buf. rewrite map_map. apply map_ext. intros x.
  by rewrite Z.lxor_assoc, <- (Z.lxor_assoc a a c), Z.lxor_nilpotent, Z.lxor_0_l.
Qed.

Lemma digest_by_alg_ok alg : 0 <= alg < SSH_DIGEST_MAX ->
  exists d, ssh_digest_by_alg alg = Some d /\ digest_len d = ssh_digest_bytes alg /\ 0 < digest_len d <= 64.
Proof.
  intros H1. unfold SSH_DIGEST_MAX in H1. unfold ssh_digest_bytes.
  assert (alg = 0 \/ alg = 1 \/ alg = 2 \/ alg = 3 \/ alg = 4) as [-> | [-> | [-> | [-> | ->]]]] by lia;
    vm_compute ssh_digest_by_alg; eexists; (split; [done|]); cbn; lia.
Qed.

Context `{!ReliableAllocator _} `{!EvpDigestLaws _}.

Lemma digest_final_ok alg m dlen :
  0 <= alg < SSH_DIGEST_MAX -> ssh_digest_bytes alg <= dlen < 2 ^ 32 ->
  ssh_digest_final (mk_dctx alg m) dlen = match evp_md alg m with Some d => Ok d | None => Err SSH_ERR_LIBCRYPTO_ERROR end.
Proof.
  intros Ha Hd. destruct (digest_by_alg_ok alg Ha) as (d & E & El & _). unfold ssh_digest_final. cbn [dx_alg dx_data].
  rewrite E. destruct (Z.gtb_spec dlen (2 ^ 32 - 1)); [lia|]. destruct (Z.ltb_spec dlen (digest_len d)); [lia|].
  destruct (evp_md alg m) as [x|] eqn:Ex; [|done]. apply evp_md_len in Ex.
  by rewrite (proj2 (Z.eqb_eq _ _)) by lia.
Qed.

(** Starting a context and setting its key. *)
Lemma hmac_start_ok alg : 0 <= alg < SSH_DIGEST_MAX ->
  ssh_hmac_start alg = Some (mk_hmac alg (mk_dctx alg []) (mk_dctx alg []) (mk_dctx alg []) (zrepeat (evp_block_size alg))).
Proof.
  intros Ha. unfold ssh_hmac_start, ssh_digest_start. destruct (digest_by_alg_ok alg Ha) as (d & -> & _).
  by rewrite !malloc_reliable.
Qed.

(** The context after the key was set from the block [k]. *)
Definition keyed_ctx (alg : Z) (k : list Z) : ssh_hmac_ctx :=
  mk_hmac alg (mk_dctx alg (xor_buf 0x36 k)) (mk_dctx alg (xor_buf 0x5c k)) (mk_dctx alg (xor_buf 0x36 k))
    (zrepeat (evp_block_size alg)).

Lemma keyed_ctx_ok alg key k :
  0 <= evp_block_size alg -> key_block alg key = Some k -> hmac_keyed alg key (keyed_ctx alg k).
Proof. intros Hb Hk. constructor; [by exists k|done|done|]. by apply zlen_zrepeat. Qed.

Lemma hmac_init_key alg key c :
  0 <= alg < SSH_DIGEST_MAX -> ssh_hmac_start alg = Some c ->
  ssh_hmac_init c (Some key) =
  match key_block alg key with Some k => Ok (keyed_ctx alg k) | None => Err SSH_ERR_INTERNAL_ERROR end.
Proof.
  intros Ha Hs. rewrite hmac_start_ok in Hs by done. injection Hs as <-.
  destruct (digest_by_alg_ok alg Ha) as (d & Ed & El & Hr). pose proof (evp_block alg Ha) as Hb.
  unfold ssh_hmac_init, hmac_set_key, key_block. cbn [hm_buf hm_alg ictx octx hm_digest].
  rewrite zlen_zrepeat by lia.
  assert (Hset : forall k, zlen k <= evp_block_size alg ->
    mem_write (zrepeat (evp_block_size alg)) 0 k = k ++ zrepeat (evp_block_size alg - zlen k)).
  { intros k Hk. rewrite mem_write_front. by rewrite zdrop_zrepeat by (zlen_facts; lia). }
  unfold ssh_digest_update, ssh_digest_copy_state.
  destruct (Z.leb_spec (zlen key) (evp_block_size alg)) as [Hk|Hk].
  - rewrite Hset by done. cbn [dx_alg dx_data ictx octx hm_digest hm_alg hm_buf app].
    rewrite Z.eqb_refl. cbn [negb]. by rewrite xor_buf_twice.
  - unfold ssh_digest_memory. rewrite Ed. destruct (Z.gtb_spec (evp_block_size alg) (2 ^ 32 - 1)); [lia|].
    destruct (Z.ltb_spec (evp_block_size alg) (digest_len d)); [lia|].
    destruct (evp_md alg key) as [h|] eqn:Eh; cbn [fmap option_fmap option_map]; [|done].
    pose proof (evp_md_len _ _ _ Eh). rewrite Hset by lia.
    cbn [dx_alg dx_data ictx octx hm_digest hm_alg hm_buf app].
    rewrite Z.eqb_refl. cbn [negb]. by rewrite xor_buf_twice.
Qed.

Lemma hmac_updates alg i o d buf parts :
  fold_left ssh_hmac_update parts (mk_hmac alg i o d buf) =
  mk_hmac alg i o (mk_dctx (dx_alg d) (dx_data d ++ concat parts)) buf.
Proof.
  revert d. induction parts as [|m parts IH]; intros d; cbn [fold_left concat].
  - rewrite app_nil_r. by destruct d.
  - unfold ssh_hmac_update at 2. cbn [hm_alg ictx octx hm_digest hm_buf]. rewrite IH.
    unfold ssh_digest_update. cbn [dx_alg dx_data]. by rewrite app_assoc.
Qed.

(** One message with a keyed context. *)
Lemma hmac_message_ok alg key ctx parts dlen :
  0 <= alg < SSH_DIGEST_MAX -> hmac_keyed alg key ctx -> ssh_digest_bytes alg <= dlen < 2 ^ 32 ->
  exists ctx', hmac_keyed alg key ctx' /\
    hmac_message ctx parts dlen =
      (match hmac_spec alg key (concat parts) with Some d => Ok d | None => Err SSH_ERR_INTERNAL_ERROR end, ctx').
Proof.
  intros Ha [(k & Hk & Hi & Ho) Halg Hd Hb] Hdl. destruct ctx as [calg ci co cd0 buf]; cbn in *. subst calg ci co.
  destruct (digest_by_alg_ok alg Ha) as (dg & Ed & El & Hr). pose proof (evp_block alg Ha) as Hbl.
  unfold hmac_message, ssh_hmac_init, ssh_digest_copy_state. cbn [ictx hm_digest dx_alg octx hm_alg hm_buf].
  rewrite Hd, Z.eqb_refl. cbn [negb]. rewrite hmac_updates. cbn [dx_alg dx_data].
  unfold ssh_hmac_final, ssh_digest_copy_state. cbn [hm_alg hm_digest hm_buf octx ictx dx_alg].
  destruct (Z.ltb_spec dlen (ssh_digest_bytes alg)); [lia|].
  rewrite digest_final_ok by (done || lia). unfold hmac_spec. rewrite Hk. cbn [mbind option_bind].
  destruct (evp_md alg (xor_buf 54 k ++ concat parts)) as [inner|] eqn:Ei.
  2: { eexists. split; [|done]. constructor; [by exists k|done..]. }
  pose proof (evp_md_len _ _ _ Ei) as Hil. rewrite Z.eqb_refl. cbn [negb]. unfold ssh_digest_update. cbn [dx_alg dx_data].
  rewrite mem_write_front, ztake_app_exact by done. rewrite digest_final_ok by done.
  cbn [mbind option_bind]. destruct (evp_md alg (xor_buf 92 k ++ inner)); eexists; (split; [|reflexivity]).
  all: constructor; cbn [hm_alg ictx octx hm_digest hm_buf dx_alg]; try done; [by exists k|].
  all: rewrite zlen_app, zlen_zdrop by (zlen_facts; lia); lia.
Qed.

(** The answers of a context to a sequence of messages. *)
Fixpoint hmac_run (ctx : ssh_hmac_ctx) (msgs : list (list (list Z))) (dlen : Z) : list (result (list Z)) :=
  match msgs with
  | [] => []
  | parts :: msgs => let '(r, ctx) := hmac_message ctx parts dlen in r :: hmac_run ctx msgs dlen
  end.

(** HMAC.  A context that was started and given a key of any length answers
    every message of any sequence, in whatever pieces it is fed, with the HMAC
    of RFC 2104: H(K xor opad, H(K xor ipad, m)) with the key padded to a block,
    or hashed first when it is longer; the use for one message leaves no trace
    in the next. *)
Theorem hmac_rfc2104 alg key c msgs dlen :
  0 <= alg < SSH_DIGEST_MAX -> ssh_digest_bytes alg <= dlen < 2 ^ 32 ->
  ssh_hmac_start alg = Some c ->
  match ssh_hmac_init c (Some key) with
  | Ok c =>
      hmac_run c msgs dlen =
      map (fun parts => match hmac_spec alg key (concat parts) with
                        | Some d => Ok d
                        | None => Err SSH_ERR_INTERNAL_ERROR
                        end) msgs
  | Err _ => evp_md alg key = None
  end.
Proof.
  intros Ha Hdl Hs. rewrite (hmac_init_key alg key c Ha Hs). pose proof (evp_block alg Ha) as Hb.
  destruct (key_block alg key) as [k|] eqn:Hk.
  2: { unfold key_block in Hk. destruct (_ <=? _); [done|]. by destruct (evp_md alg key). }
  destruct (digest_by_alg_ok alg Ha) as (dg & _ & El & Hr).
  assert (hmac_keyed alg key (keyed_ctx alg k)) as Hc by (apply keyed_ctx_ok; [lia|done]).
  revert Hc. generalize (keyed_ctx alg k). induction msgs as [|parts msgs IH]; intros ctx Hc; [done|].
  destruct (hmac_message_ok alg key ctx parts dlen Ha Hc Hdl) as (ctx' & Hc' & E).
  cbn [hmac_run map]. rewrite E. f_equal. by apply IH.
Qed.

(** ** The MAC of a packet *)

(** The length and the tag of an algorithm of the table. *)
Definition alg_mac_len (a : macalg) : Z :=
  if negb (truncatebits a =? 0) then truncatebits a / 8
  else if ma_type a =? SSH_DIGEST then ssh_digest_bytes (ma_alg a) else ma_len a / 8.

Definition alg_key_len (a : macalg) : Z :=
  if ma_type a =? SSH_DIGEST then ssh_digest_bytes (ma_alg a) else ma_key_len a / 8.

Definition mac_tag `{Umac} (a : macalg) (key : list Z) (seqno : Z) (data : list Z) : option (list Z) :=
  ztake (alg_mac_len a) <$>
    if ma_type a =? SSH_DIGEST then hmac_spec (ma_alg a) (ztake (alg_key_len a) key) (POKE_U32 seqno ++ data)
    else if ma_type a =? SSH_UMAC then Some (umac (ztake UMAC_KEY_LEN key) data (POKE_U64 seqno))
    else Some (umac128 (ztake UMAC_KEY_LEN key) data (POKE_U64 seqno)).

(** A MAC that [mac_init] has prepared. *)
Record mac_ready (a : macalg) (key : list Z) (m : sshmac) : Prop := {
  mr_alg : a ∈ macs;
  mr_type : mac_type m = ma_type a;
  mr_len : mac_len m = alg_mac_len a;
  mr_etm : mac_etm m = ma_etm a;
  mr_hmac : ma_type a = SSH_DIGEST ->
    exists c, hmac_ctx m = Some c /\ hmac_keyed (ma_alg a) (ztake (alg_key_len a) key) c;
  mr_umac : ma_type a <> SSH_DIGEST -> umac_ctx m = Some (ztake UMAC_KEY_LEN key)
}.

Lemma macs_ok a : a ∈ macs ->
  0 <= ma_alg a < SSH_DIGEST_MAX /\ 0 < alg_mac_len a <= 64 /\
  (ma_type a = SSH_DIGEST \/ ma_type a = SSH_UMAC \/ ma_type a = SSH_UMAC128).
Proof.
  assert (Forall (fun a => 0 <= ma_alg a < SSH_DIGEST_MAX /\
    0 < alg_mac_len a <= 64 /\
    (ma_type a = SSH_DIGEST \/ ma_type a = SSH_UMAC \/ ma_type a = SSH_UMAC128)) macs) as Hf by compute_dec.
  rewrite Forall_forall in Hf. apply Hf.
Qed.

Lemma mac_by_name_elem name a : mac_by_name name = Some a -> a ∈ macs.
Proof. intros E. apply find_some in E as [E _]. by apply list_elem_of_In. Qed.

(** Choosing the algorithm, setting the key and initialising gives a ready MAC. *)
Lemma mac_ready_setup name a key m0 m1 :
  mac_by_name name = Some a ->
  mac_setup name m0 = (Ok tt, m1) -> alg_key_len a <= evp_block_size (ma_alg a) ->
  exists m2, mac_init (mk_mac (Some name) (mac_enabled m1) (mac_len m1) (Some key) (mac_key_len m1) (mac_type m1)
      (mac_etm m1) (hmac_ctx m1) (umac_ctx m1)) = (Ok tt, m2) /\ mac_ready a key m2.
Proof.
  intros En Es Hkl. pose proof (mac_by_name_elem _ _ En) as Hin. destruct (macs_ok a Hin) as (Ha & Hl & Ht).
  unfold mac_setup in Es. rewrite En in Es. unfold mac_setup_by_alg in Es. unfold mac_init.
  destruct (Z.eqb_spec (ma_type a) SSH_DIGEST) as [Hty|Hty].
  - rewrite hmac_start_ok in Es by done. injection Es as <-.
    cbn [mac_key mac_type hmac_ctx mac_key_len mac_enabled mac_len mac_etm umac_ctx]. rewrite Hty, Z.eqb_refl.
    rewrite (hmac_init_key (ma_alg a)) by (done || by apply hmac_start_ok).
    assert (Hkey : key_block (ma_alg a) (ztake (ssh_hmac_bytes (ma_alg a)) key) <> None).
    { unfold key_block. rewrite (proj2 (Z.leb_le _ _)); [done|]. unfold alg_key_len in Hkl. rewrite Hty, Z.eqb_refl in Hkl.
      unfold ssh_hmac_bytes. destruct (Z.le_gt_cases (zlen key) (ssh_digest_bytes (ma_alg a))).
      - rewrite ztake_ge by done. lia.
      - rewrite zlen_ztake; [done|]. destruct (digest_by_alg_ok _ Ha) as (? & _ & ? & ?). lia. }
    destruct (key_block _ _) as [k|] eqn:Ek; [|done]. eexists. split; [done|].
    constructor; cbn [mac_type mac_len mac_etm hmac_ctx umac_ctx mac_set_hmac]; try done.
    + unfold alg_mac_len, ssh_hmac_bytes. by rewrite Hty.
    + intros _. eexists. split; [done|]. unfold alg_key_len. rewrite Hty, Z.eqb_refl.
      apply keyed_ctx_ok; [|done]. pose proof (evp_block _ Ha).
      destruct (digest_by_alg_ok _ Ha) as (? & _ & ? & ?). lia.
  - injection Es as <-. cbn [mac_key mac_type hmac_ctx mac_key_len mac_enabled mac_len mac_etm umac_ctx].
    rewrite (proj2 (Z.eqb_neq _ _)) by done. destruct Ht as [?|Ht]; [done|].
    assert ((ma_type a =? SSH_UMAC) || (ma_type a =? SSH_UMAC128) = true)%bool as ->.
    { destruct Ht as [-> | ->]; done. }
    eexists. split; [done|]. constructor; cbn [mac_type mac_len mac_etm hmac_ctx umac_ctx mac_set_umac]; try done.
    unfold alg_mac_len. by rewrite (proj2 (Z.eqb_neq (ma_type a) SSH_DIGEST)) by done.
Qed.

Lemma mac_compute_ready `{Umac} a key m seqno data dlen :
  mac_ready a key m -> mac_len m <= dlen ->
  exists m', mac_ready a key m' /\ mac_len m' = mac_len m /\
    mac_compute seqno data dlen m =
      (match mac_tag a key seqno data with Some t => Ok t | None => Err SSH_ERR_LIBCRYPTO_ERROR end, m').
Proof.
  intros [Hin Ht Hl He Hh Hu] Hd. destruct (macs_ok a Hin) as (Ha & Hlen & Hty).
  unfold mac_compute, mac_tag. rewrite Ht, Hl in *.
  assert (Hcut : forall t : list Z, ztake (if dlen >? alg_mac_len a then alg_mac_len a else dlen) t = ztake (alg_mac_len a) t).
  { intros t. destruct (Z.gtb_spec dlen (alg_mac_len a)); [done|]. by replace dlen with (alg_mac_len a) by lia. }
  destruct (Z.gtb_spec (alg_mac_len a) SSH_DIGEST_MAX_LENGTH); [unfold SSH_DIGEST_MAX_LENGTH in *; lia|].
  destruct (Z.eqb_spec (ma_type a) SSH_DIGEST) as [Hd1|Hd1].
  - destruct (Hh Hd1) as (c & -> & Hk).
    destruct (hmac_message_ok (ma_alg a) _ c [POKE_U32 seqno; data] SSH_DIGEST_MAX_LENGTH Ha Hk) as (c' & Hk' & ->).
    { destruct (digest_by_alg_ok _ Ha) as (? & _ & ? & ?). unfold SSH_DIGEST_MAX_LENGTH. lia. }
    cbn [concat]. rewrite app_nil_r. 
    exists (mac_set_hmac c' m). split; [|split; [done|]].
    + constructor; cbn [mac_type mac_len mac_etm hmac_ctx umac_ctx mac_set_hmac]; try done. intros _. by exists c'.
    + by destruct (hmac_spec _ _ _); cbn; rewrite ?Hcut.
  - rewrite (Hu Hd1). destruct Hty as [?|Hty]; [done|]. exists m. split; [by constructor|]. split; [done|].
    destruct (Z.eqb_spec (ma_type a) SSH_UMAC); [by cbn; rewrite Hcut|]. destruct Hty as [?|Hty]; [done|].
    rewrite Hty. cbn. by rewrite Hcut.
Qed.

Lemma timingsafe_bcmp_nonneg p q : bytes_ok p -> bytes_ok q -> 0 <= timingsafe_bcmp p q.
Proof.
  intros Hp. revert q. induction Hp as [|x p Hx _ IH]; intros q Hq; [done|]. destruct Hq as [|y q Hy Hq]; [done|].
  cbn. apply Z.lor_nonneg. split; [|by apply IH]. apply Z.lxor_nonneg. unfold is_byte in *. lia.
Qed.

Lemma timingsafe_bcmp_eq p q :
  zlen p = zlen q -> bytes_ok p -> bytes_ok q -> timingsafe_bcmp p q = 0 <-> p = q.
Proof.
  intros Hl Hp. revert q Hl. induction Hp as [|x p Hx Hp IH]; intros q Hl Hq.
  - by rewrite (zlen_0_nil q) by (rewrite <- Hl; done).
  - destruct Hq as [|y q Hy Hq]; [rewrite zlen_cons, zlen_nil in Hl; zlen_facts; lia|].
    rewrite !zlen_cons in Hl. cbn [timingsafe_bcmp]. rewrite Z.lor_eq_0_iff, Z.lxor_eq_0_iff, IH by (done || lia).
    naive_solver.
Qed.

Lemma mac_tag_len `{Umac} a key seqno data t :
  a ∈ macs -> (forall k d n, zlen (umac k d n) = 8) -> (forall k d n, zlen (umac128 k d n) = 16) ->
  mac_tag a key seqno data = Some t -> zlen t = alg_mac_len a.
Proof.
  intros Hin H8 H16 E.
  assert (Hf : Forall (fun a => (ma_type a = SSH_DIGEST /\ alg_mac_len a <= ssh_digest_bytes (ma_alg a)) \/
    (ma_type a = SSH_UMAC /\ alg_mac_len a = 8) \/ (ma_type a = SSH_UMAC128 /\ alg_mac_len a = 16)) macs) by compute_dec.
  rewrite Forall_forall in Hf. pose proof (Hf a Hin) as Hc. destruct (macs_ok a Hin) as (_ & Hl & _).
  unfold mac_tag in E. apply fmap_Some in E as (x & E & ->). apply zlen_ztake.
  destruct Hc as [[Ht Hle]|[[Ht Hle]|[Ht Hle]]]; rewrite Ht in E; cbn in E.
  - unfold hmac_spec in E. destruct (key_block _ _); [|done]. cbn [mbind option_bind] in E.
    destruct (evp_md _ (_ ++ _)) as [i|]; [|done]. cbn [mbind option_bind] in E. apply evp_md_len in E. lia.
  - injection E as <-. rewrite H8. lia.
  - injection E as <-. rewrite H16. lia.
Qed.

(** The MAC check is exact.  For a MAC that [mac_init] has prepared,
    [mac_check] accepts a packet exactly when the received bytes start with the
    tag of the algorithm (the truncated HMAC over the sequence number and the
    data, or the UMAC with the sequence number as nonce), which is also what
    [mac_compute] returns; any other bytes give SSH_ERR_MAC_INVALID, and the MAC
    stays ready for the next packet. *)
Theorem mac_check_exact `{Umac} a key m seqno data tag theirs mlen :
  mac_ready a key m -> (forall k d n, zlen (umac k d n) = 8) -> (forall k d n, zlen (umac128 k d n) = 16) ->
  mac_tag a key seqno data = Some tag -> bytes_ok tag -> bytes_ok theirs -> zlen theirs = mlen ->
  exists m', mac_ready a key m' /\
    mac_check seqno data theirs mlen m =
      (if bool_decide (mlen < mac_len m) then Err SSH_ERR_INVALID_ARGUMENT
       else if bool_decide (ztake (mac_len m) theirs = tag) then Ok tt else Err SSH_ERR_MAC_INVALID, m') /\
    fst (mac_compute seqno data SSH_DIGEST_MAX_LENGTH m) = Ok tag.
Proof.
  intros Hm H8 H16 Ht Hb Hb' <-. destruct (macs_ok a (mr_alg _ _ _ Hm)) as (_ & Hl & _).
  pose proof (mr_len _ _ _ Hm) as El. pose proof (mac_tag_len _ _ _ _ _ (mr_alg _ _ _ Hm) H8 H16 Ht) as Hlen.
  destruct (mac_compute_ready a key m seqno data SSH_DIGEST_MAX_LENGTH Hm) as (m' & Hm' & Elen & E).
  { unfold SSH_DIGEST_MAX_LENGTH. lia. }
  rewrite Ht in E. unfold mac_check. rewrite E. cbn [fst].
  destruct (Z.gtb_spec (mac_len m) (zlen theirs)).
  - exists m. split; [done|]. by rewrite bool_decide_eq_true_2 by lia.
  - exists m'. split; [done|]. split; [|done]. rewrite bool_decide_eq_false_2 by lia.
    rewrite Elen, (ztake_ge _ tag) by lia.
    assert (Hx : timingsafe_bcmp tag (ztake (mac_len m) theirs) = 0 <-> tag = ztake (mac_len m) theirs).
    { apply timingsafe_bcmp_eq; [rewrite zlen_ztake; lia|done|].
      rewrite <- (ztake_zdrop (mac_len m) theirs) in Hb'. by apply Forall_app in Hb' as [? _]. }
    destruct (Z.eqb_spec (timingsafe_bcmp tag (ztake (mac_len m) theirs)) 0) as [E0|E0]; cbn [negb].
    + rewrite bool_decide_eq_true_2 by (symmetry; by apply Hx). done.
    + rewrite bool_decide_eq_false_2 by (intros Ex; apply E0, Hx; done). done.
Qed.
End digest.

(** A stand-in for the hash functions and UMAC: checksums of the right lengths. *)
Definition toy_sum (m : list Z) : Z := fold_left (fun a x => u8 (a * 31 + x + 7)) m 5.
Definition toy_digest : EvpDigest := {|
  evp_md alg m := Some (replicate (Z.to_nat (ssh_digest_bytes alg)) (toy_sum m));
  evp_block_size _ := 128
|}.
Definition toy_umac : Umac := {|
  umac k d n := replicate 8 (toy_sum (k ++ d ++ n));
  umac128 k d n := replicate 16 (toy_sum (k ++ d ++ n))
|}.

Lemma toy_sum_byte m : is_byte (toy_sum m).
Proof.
  unfold toy_sum. assert (is_byte 5) as H by (unfold is_byte; lia). revert H. generalize 5.
  induction m as [|x m IH]; intros a Ha; [done|]. cbn. apply IH. unfold is_byte, u8. apply Z.mod_pos_bound. lia.
Qed.

Lemma toy_digest_laws : EvpDigestLaws toy_digest.
Proof.
  split.
  - intros alg m d [= <-]. unfold zlen. rewrite length_replicate.
    assert (0 <= ssh_digest_bytes alg); [|lia]. unfold ssh_digest_bytes, ssh_digest_by_alg.
    destruct (_ || _); [done|]. destruct (digests !! Z.to_nat alg) as [d|] eqn:E; [|done].
    apply list_elem_of_lookup_2 in E. assert (Forall (fun d => 0 <= digest_len d) digests) as Hf by compute_dec.
    rewrite Forall_forall in Hf. specialize (Hf d E). by destruct (negb _).
  - intros alg m d [= <-]. apply Forall_replicate, toy_sum_byte.
  - intros alg Ha. destruct (digest_by_alg_ok alg Ha) as (d & _ & E & Hd). cbn. lia.
Qed.

Lemma hmac_rfc2104_witness :
  match @ssh_hmac_start alloc_all toy_digest SSH_DIGEST_SHA256 with
  | Some c =>
      match @ssh_hmac_init toy_digest c (Some [1; 2; 3]) with
      | Ok c =>
          @hmac_run toy_digest c [[[104]; [105]]; [[111; 107]]] 64 =
          map (fun parts => match @hmac_spec toy_digest SSH_DIGEST_SHA256 [1; 2; 3] (concat parts) with
                            | Some d => Ok d | None => Err SSH_ERR_INTERNAL_ERROR end) [[[104]; [105]]; [[111; 107]]]
      | Err _ => False
      end
  | None => False
  end.
Proof.
  destruct (@ssh_hmac_start alloc_all toy_digest SSH_DIGEST_SHA256) as [c|] eqn:E; [|discriminate E].
  pose proof (@hmac_rfc2104 alloc_all toy_digest alloc_all_reliable toy_digest_laws SSH_DIGEST_SHA256 [1; 2; 3] c
    [[[104]; [105]]; [[111; 107]]] 64 ltac:(vm_compute; split; congruence) ltac:(vm_compute; split; congruence) E) as R.
  destruct (@ssh_hmac_init toy_digest c (Some [1; 2; 3])); [exact R|discriminate R].
Defined.

Definition demo_key : list Z := replicate 16 9.
Definition demo_macalg : macalg := mk_macalg (str "umac-64@openssh.com") SSH_UMAC 0 0 128 64 false.
Definition demo_mac : sshmac :=
  mk_mac (Some (ma_name demo_macalg)) false 8 (Some demo_key) 16 SSH_UMAC false None (Some demo_key).

Lemma demo_mac_ready : @mac_ready toy_digest demo_macalg demo_key demo_mac.
Proof. split; try done. unfold macs. do 6 right. by left. Qed.

Lemma mac_check_exact_witness :
  exists m', @mac_check toy_digest toy_umac 3 [1; 2] (replicate 8 7) 8 demo_mac =
    (if bool_decide (replicate 8 7 = @umac toy_umac demo_key [1; 2] (POKE_U64 3)) then Ok tt else Err SSH_ERR_MAC_INVALID, m').
Proof.
  destruct (@mac_check_exact toy_digest toy_digest_laws toy_umac demo_macalg demo_key demo_mac 3 [1; 2]
    (@umac toy_umac demo_key [1; 2] (POKE_U64 3)) (replicate 8 7) 8 demo_mac_ready (fun _ _ _ => eq_refl)
    (fun _ _ _ => eq_refl) ltac:(reflexivity) ltac:(repeat constructor; unfold is_byte; vm_compute; done)
    ltac:(repeat constructor; done) eq_refl) as (m' & _ & E & _).
  exists m'. rewrite E. reflexivity.
Defined.
