(* ===== verification/Base64.v ===== *)
(** Base64: openbsd-compat/base64.c and its use on buffers (sshbuf-misc.c).

    A source or target of characters is a C string.  The target of the decoder is
    the memory it writes to, whose length is the size that is passed with it. *)

From Stdlib Require Import String.
From S2P Require Import Prelude Sshbuf SshbufGetPut SshbufRead Match AddrMatch.
Local Open Scope Z_scope.

Definition Base64 : cstring := str "ABCDEFGHIJKLMNOPQRSTUVWXYZabcdefghijklmnopqrstuvwxyz0123456789+/".
Definition Pad64 : Z := 61.

(** [Base64[i]] *)
Definition B64 (i : Z) : Z := znth Base64 i.

(** The loop over the input: [target] holds the characters written so far. *)
Fixpoint ntop_from (src target : list Z) (targsize : Z) : option (list Z) :=
  match src with
  | i0 :: i1 :: i2 :: src =>
      let o0 := Z.shiftr i0 2 in
      let o1 := Z.shiftl (Z.land i0 3) 4 + Z.shiftr i1 4 in
      let o2 := Z.shiftl (Z.land i1 15) 2 + Z.shiftr i2 6 in
      let o3 := Z.land i2 63 in
      if zlen target + 4 >? targsize then None
      else ntop_from src (target ++ [B64 o0; B64 o1; B64 o2; B64 o3]) targsize
  | [] => if zlen target >=? targsize then None else Some target
  | i0 :: rest =>
      let i1 := match rest with i1 :: _ => i1 | [] => 0 end in
      let o0 := Z.shiftr i0 2 in
      let o1 := Z.shiftl (Z.land i0 3) 4 + Z.shiftr i1 4 in
      let o2 := Z.shiftl (Z.land i1 15) 2 + Z.shiftr 0 6 in
      if zlen target + 4 >? targsize then None
      else
        let target := target ++ [B64 o0; B64 o1; match rest with [] => Pad64 | _ => B64 o2 end; Pad64] in
        if zlen target >=? targsize then None else Some target
  end.

(** The string without its nul, or [None] for -1. *)
Definition b64_ntop (src : list Z) (targsize : Z) : option (list Z) := ntop_from src [] targsize.

(** The loop over the characters: what follows a pad character (nothing at the end
    of the string), the index, the state and the target. *)
Fixpoint pton_loop (src : cstring) (tarindex state : Z) (target : list Z) : option (option cstring * Z * Z * list Z) :=
  match src with
  | [] => Some (None, tarindex, state, target)
  | ch :: src =>
      if isspace ch then pton_loop src tarindex state target
      else if ch =? Pad64 then Some (Some src, tarindex, state, target)
      else
        match memchr ch Base64 with
        | None => None
        | Some pos =>
            if state =? 0 then
              if tarindex >=? zlen target then None
              else pton_loop src tarindex 1 (zset target tarindex (u8 (Z.shiftl pos 2)))
            else if state =? 1 then
              if tarindex + 1 >=? zlen target then None
              else
                let target := zset target tarindex (Z.lor (znth target tarindex) (Z.shiftr pos 4)) in
                pton_loop src (tarindex + 1) 2 (zset target (tarindex + 1) (u8 (Z.shiftl (Z.land pos 15) 4)))
            else if state =? 2 then
              if tarindex + 1 >=? zlen target then None
              else
                let target := zset target tarindex (Z.lor (znth target tarindex) (Z.shiftr pos 2)) in
                pton_loop src (tarindex + 1) 3 (zset target (tarindex + 1) (u8 (Z.shiftl (Z.land pos 3) 6)))
            else
              if tarindex >=? zlen target then None
              else pton_loop src (tarindex + 1) 0 (zset target tarindex (Z.lor (znth target tarindex) pos))
        end
  end.

(** The number of bytes and the target, or [None] for -1. *)
Definition b64_pton (src : cstring) (target : list Z) : option (Z * list Z) :=
  match pton_loop src 0 0 target with
  | None => None
  | Some (None, tarindex, state, target) => if negb (state =? 0) then None else Some (tarindex, target)
  | Some (Some src, tarindex, state, target) =>
      if (state =? 0) || (state =? 1) then None
      else
        match (if state =? 2 then match skip_space src with ch :: src => if ch =? Pad64 then Some src else None | [] => None end else Some src) with
        | None => None
        | Some src =>
            match skip_space src with
            | _ :: _ => None
            | [] => if negb (znth target tarindex =? 0) then None else Some (tarindex, target)
            end
        end
  end.

Section buffers.
Context `{Allocator}.

(** The lines of 70 characters. *)
Fixpoint put_wrapped (s : cstring) (i : Z) : SE sshbuf unit :=
  match s with
  | [] => if negb ((i - 1) mod 70 =? 69) then sshbuf_put_u8 10 else mret tt
  | c :: s =>
      _ ← sshbuf_put_u8 c;
      _ ← (if i mod 70 =? 69 then sshbuf_put_u8 10 else mret tt);
      put_wrapped s (i + 1)
  end.

Definition sshbuf_dtob64 (d : sshbuf) (wrap : bool) : SE sshbuf unit := fun b64 =>
  if sshbuf_len d >=? SIZE_MAX / 2 then (Err SSH_ERR_INVALID_ARGUMENT, b64)
  else if sshbuf_len d =? 0 then (Ok tt, b64)
  else
    let slen := (sshbuf_len d + 2) / 3 * 4 + 1 in
    if negb (malloc_ok slen) then (Err SSH_ERR_ALLOC_FAIL, b64)
    else
      match b64_ntop (default [] (sshbuf_ptr d)) slen with
      | None => (Err SSH_ERR_INTERNAL_ERROR, b64)
      | Some s => (if wrap then put_wrapped s 0 else sshbuf_put s) b64
      end.

Definition sshbuf_dtob64_string (buf : sshbuf) (wrap : bool) : option cstring :=
  match sshbuf_new with
  | None => None
  | Some tmp => match sshbuf_dtob64 buf wrap tmp with (Err _, _) => None | (Ok _, tmp) => sshbuf_dup_string tmp end
  end.

Definition sshbuf_b64tod (b64 : cstring) : SE sshbuf unit := fun buf =>
  let plen := zlen b64 in
  if plen =? 0 then (Ok tt, buf)
  else if negb (malloc_ok plen) then (Err SSH_ERR_ALLOC_FAIL, buf)
  else
    match b64_pton b64 (zrepeat plen) with
    | None => (Err SSH_ERR_INVALID_FORMAT, buf)
    | Some (nlen, p) => sshbuf_put (ztake nlen p) buf
    end.
End buffers.

(** * The encoding *)

(** The characters for a list of bytes (RFC 4648, section 4). *)
Definition quantum (a b c : Z) : list Z :=
  [Z.shiftr a 2; Z.shiftl (Z.land a 3) 4 + Z.shiftr b 4; Z.shiftl (Z.land b 15) 2 + Z.shiftr c 6; Z.land c 63].
Fixpoint base64 (d : list Z) : cstring :=
  match d with
  | a :: b :: c :: d => map B64 (quantum a b c) ++ base64 d
  | [a; b] => map B64 (take 3 (quantum a b 0)) ++ [Pad64]
  | [a] => map B64 (take 2 (quantum a 0 0)) ++ [Pad64; Pad64]
  | [] => []
  end.

(** The characters that are not white space. *)
Definition dense (s : cstring) : cstring := filter (fun c => isspace c = false) s.

(** The bytes that four digits stand for. *)
Definition three (x y z w : Z) : list Z :=
  [Z.lor (u8 (Z.shiftl x 2)) (Z.shiftr y 4); Z.lor (u8 (Z.shiftl (Z.land y 15) 4)) (Z.shiftr z 2); Z.lor (u8 (Z.shiftl (Z.land z 3) 6)) w].
Definition digit (v : Z) : Prop := 0 <= v < 64.

(** Induction in steps of three. *)
Lemma list_ind3 {A} (P : list A -> Prop) :
  P [] -> (forall a, P [a]) -> (forall a b, P [a; b]) -> (forall a b c l, P l -> P (a :: b :: c :: l)) -> forall l, P l.
Proof.
  intros H0 H1 H2 H3. fix IH 1. intros [|a [|b [|c l]]]; [exact H0|apply H1|apply H2|apply H3, IH].
Qed.

(** What holds for each of the first [n] numbers, by evaluation. *)
Lemma all_below (P : Z -> bool) n : forallb P (map Z.of_nat (seq 0 (Z.to_nat n))) = true -> forall x, 0 <= x < n -> P x = true.
Proof.
  intros H x Hx. rewrite List.forallb_forall in H. apply H, List.in_map_iff. exists (Z.to_nat x). split; [lia|]. apply List.in_seq. lia.
Qed.
Lemma all_below2 (P : Z -> Z -> bool) n m :
  forallb (fun x => forallb (P x) (map Z.of_nat (seq 0 (Z.to_nat m)))) (map Z.of_nat (seq 0 (Z.to_nat n))) = true -> forall x y, 0 <= x < n -> 0 <= y < m -> P x y = true.
Proof. intros H x y Hx Hy. apply (all_below (P x) m); [|done]. exact (all_below _ n H x Hx). Qed.

Lemma B64_digit v : digit v -> memchr (B64 v) Base64 = Some v /\ isspace (B64 v) = false /\ (B64 v =? Pad64) = false.
Proof.
  intros Hv. pose proof (all_below (fun v => match memchr (B64 v) Base64 with Some u => u =? v | None => false end && negb (isspace (B64 v)) && negb (B64 v =? Pad64)) 64 ltac:(vm_compute; reflexivity) v Hv) as E.
  cbv beta in E. rewrite !andb_true_iff, !negb_true_iff in E. destruct E as [[E ?] ?]. split_and!; [|done..]. destruct (memchr _ _) as [u|]; [|done]. apply Z.eqb_eq in E. by subst.
Qed.

Lemma memchr_znth c l v : memchr c l = Some v -> 0 <= v < zlen l /\ znth l v = c.
Proof.
  revert v. induction l as [|x l IH]; intros v E; [done|]. cbn in E. rewrite zlen_cons. pose proof (zlen_nonneg l). destruct (Z.eqb_spec x c) as [->|Hx]; [injection E as <-; split; [lia|done]|].
  destruct (memchr c l) as [u|]; [|done]. injection E as <-. destruct (IH u eq_refl) as [Hu Hc]. split; [lia|]. rewrite znth_cons by lia. by replace (u + 1 - 1) with u by lia.
Qed.

(** Digits and bytes determine each other. *)
Lemma quantum_three x y z w : digit x -> digit y -> digit z -> digit w ->
  exists a b c, three x y z w = [a; b; c] /\ is_byte a /\ is_byte b /\ is_byte c /\ quantum a b c = [x; y; z; w].
Proof.
  intros Hx Hy Hz Hw. eexists _, _, _. split; [done|]. unfold is_byte, quantum.
  set (P1 := fun x y => let a := Z.lor (u8 (Z.shiftl x 2)) (Z.shiftr y 4) in (0 <=? a) && (a <? 256) && (Z.shiftr a 2 =? x) && (Z.shiftl (Z.land a 3) 4 + Z.land y 15 =? y)).
  set (P2 := fun y z => let b := Z.lor (u8 (Z.shiftl (Z.land y 15) 4)) (Z.shiftr z 2) in (0 <=? b) && (b <? 256) && (Z.shiftr b 4 =? Z.land y 15) && (Z.shiftl (Z.land b 15) 2 + Z.land z 3 =? z)).
  set (P3 := fun z w => let c := Z.lor (u8 (Z.shiftl (Z.land z 3) 6)) w in (0 <=? c) && (c <? 256) && (Z.shiftr c 6 =? Z.land z 3) && (Z.land c 63 =? w)).
  pose proof (all_below2 P1 64 64 ltac:(vm_compute; reflexivity) x y Hx Hy) as E1. pose proof (all_below2 P2 64 64 ltac:(vm_compute; reflexivity) y z Hy Hz) as E2.
  pose proof (all_below2 P3 64 64 ltac:(vm_compute; reflexivity) z w Hz Hw) as E3. unfold P1, P2, P3 in *. cbn zeta in *. rewrite !andb_true_iff, !Z.leb_le, !Z.ltb_lt, !Z.eqb_eq in *.
  destruct E1 as [[[? ?] Ea] Ea']. destruct E2 as [[[? ?] Eb] Eb']. destruct E3 as [[[? ?] Ec] Ec']. split_and!; try lia. by rewrite Ea, Eb, Ec, Ec', Ea', Eb'.
Qed.

Lemma three_quantum a b c : is_byte a -> is_byte b -> is_byte c ->
  exists x y z w, quantum a b c = [x; y; z; w] /\ digit x /\ digit y /\ digit z /\ digit w /\ three x y z w = [a; b; c].
Proof.
  intros Ha Hb Hc. eexists _, _, _, _. split; [done|]. unfold is_byte, digit, three in *.
  assert (0 <= Z.shiftr b 4 < 16) as Hb4 by (rewrite Z.shiftr_div_pow2 by lia; split; [apply Z.div_pos|apply Z.div_lt_upper_bound]; lia).
  assert (0 <= Z.shiftr c 6 < 4) as Hc6 by (rewrite Z.shiftr_div_pow2 by lia; split; [apply Z.div_pos|apply Z.div_lt_upper_bound]; lia).
  set (P1 := fun a t => let x := Z.shiftr a 2 in let y := Z.shiftl (Z.land a 3) 4 + t in (x <? 64) && (0 <=? x) && (y <? 64) && (0 <=? y) && (Z.lor (u8 (Z.shiftl x 2)) (Z.shiftr y 4) =? a) && (Z.land y 15 =? t)).
  set (P2 := fun b t => let z := Z.shiftl (Z.land b 15) 2 + t in (z <? 64) && (0 <=? z) && (Z.lor (u8 (Z.shiftl (Z.shiftr b 4) 4)) (Z.shiftr z 2) =? b) && (Z.land z 3 =? t)).
  set (P3 := fun c => let w := Z.land c 63 in (w <? 64) && (0 <=? w) && (Z.lor (u8 (Z.shiftl (Z.shiftr c 6) 6)) w =? c)).
  pose proof (all_below2 P1 256 16 ltac:(vm_compute; reflexivity) a _ Ha Hb4) as E1. pose proof (all_below2 P2 256 4 ltac:(vm_compute; reflexivity) b _ Hb Hc6) as E2. pose proof (all_below P3 256 ltac:(vm_compute; reflexivity) c Hc) as E3.
  unfold P1, P2, P3 in *. cbn zeta in *. rewrite !andb_true_iff, !Z.leb_le, !Z.ltb_lt, !Z.eqb_eq in *. destruct E1 as [[[[[? ?] ?] ?] Ea] Ea']. destruct E2 as [[[? ?] Eb] Eb']. destruct E3 as [[? ?] Ec].
  split_and!; try lia. by rewrite Ea, Ea', Eb, Eb', Ec.
Qed.

(** ** The encoder *)

Lemma ntop_from_spec src target size :
  ntop_from src target size = if zlen target + zlen (base64 src) <? size then Some (target ++ base64 src) else None.
Proof.
  revert target. induction src as [|a|a b|a b c src IH] using list_ind3; intros target; pose proof (zlen_nonneg target) as Ht.
  - cbn. rewrite Z.geb_leb, zlen_nil, Z.add_0_r, app_nil_r. destruct (Z.ltb_spec (zlen target) size); [by rewrite (proj2 (Z.leb_gt _ _))|by rewrite (proj2 (Z.leb_le _ _))].
  - cbn [ntop_from]. cbv zeta. rewrite Z.gtb_ltb, Z.geb_leb, zlen_app. change (zlen (base64 [a])) with 4. change (zlen [_; _; _; _]) with 4.
    destruct (Z.ltb_spec size (zlen target + 4)); [by rewrite (proj2 (Z.ltb_ge _ _)) by lia|]. destruct (Z.leb_spec size (zlen target + 4)); [by rewrite (proj2 (Z.ltb_ge _ _)) by lia|]. by rewrite (proj2 (Z.ltb_lt _ _)) by lia.
  - cbn [ntop_from]. cbv zeta. rewrite Z.gtb_ltb, Z.geb_leb, zlen_app. change (zlen (base64 [a; b])) with 4. change (zlen [_; _; _; _]) with 4.
    destruct (Z.ltb_spec size (zlen target + 4)); [by rewrite (proj2 (Z.ltb_ge _ _)) by lia|]. destruct (Z.leb_spec size (zlen target + 4)); [by rewrite (proj2 (Z.ltb_ge _ _)) by lia|]. by rewrite (proj2 (Z.ltb_lt _ _)) by lia.
  - cbn [ntop_from base64]. cbv zeta. rewrite IH. pose proof (zlen_nonneg (base64 src)). rewrite !zlen_app, Z.gtb_ltb, <- app_assoc. change (zlen (map B64 (quantum a b c))) with 4. change (zlen [_; _; _; _]) with 4.
    destruct (Z.ltb_spec size (zlen target + 4)); [by rewrite (proj2 (Z.ltb_ge _ _)) by lia|]. by rewrite Z.add_assoc.
Qed.

(** ** The decoder *)

(** Whole groups of digits and their bytes. *)
Inductive quanta : list Z -> list Z -> Prop :=
  | quanta_nil : quanta [] []
  | quanta_cons x y z w vs D : digit x -> digit y -> digit z -> digit w -> quanta vs D -> quanta (x :: y :: z :: w :: vs) (three x y z w ++ D).

Lemma quanta_snoc vs D x y z w : quanta vs D -> digit x -> digit y -> digit z -> digit w -> quanta (vs ++ [x; y; z; w]) (D ++ three x y z w).
Proof. intros Hq ? ? ? ?. induction Hq as [|x' y' z' w' vs D ? ? ? ? Hq IH]; cbn [app]; [rewrite <- (app_nil_r (three x y z w)); apply quanta_cons; [done..|constructor]|]. rewrite <- app_assoc. by apply quanta_cons. Qed.

Lemma quanta_base64 vs D tail : quanta vs D -> bytes_ok D /\ base64 (D ++ tail) = map B64 vs ++ base64 tail.
Proof.
  induction 1 as [|x y z w vs D Hx Hy Hz Hw Hq [Hb IH]]; [by split; [constructor|]|]. destruct (quantum_three x y z w Hx Hy Hz Hw) as (a & b & c & -> & Ha & Hb' & Hc & Eq).
  split; [apply Forall_app; split; [rewrite !Forall_cons; split_and!; [done..|constructor]|done]|]. cbn [app base64]. by rewrite IH, Eq.
Qed.

(** The bytes of an incomplete group, and which of them is being filled. *)
Definition pend (p : list Z) : list Z :=
  match p with
  | [x] => [u8 (Z.shiftl x 2)]
  | [x; y] => [Z.lor (u8 (Z.shiftl x 2)) (Z.shiftr y 4); u8 (Z.shiftl (Z.land y 15) 4)]
  | [x; y; z] => [Z.lor (u8 (Z.shiftl x 2)) (Z.shiftr y 4); Z.lor (u8 (Z.shiftl (Z.land y 15) 4)) (Z.shiftr z 2); u8 (Z.shiftl (Z.land z 3) 6)]
  | _ => []
  end.
Definition filling (p : list Z) : Z := match p with [] | [_] => 0 | [_; _] => 1 | _ => 2 end.

(** The loop after the digits [vs ++ p], with [junk] behind what was written. *)
Definition pton_at (src : cstring) (D p junk : list Z) : option (option cstring * Z * Z * list Z) :=
  pton_loop src (zlen D + filling p) (zlen p) (D ++ pend p ++ junk).

Lemma zset_at D a l x i : i = zlen D -> zset (D ++ a :: l) i x = D ++ x :: l.
Proof. intros ->. unfold zset, zlen. rewrite Nat2Z.id, insert_app_r_alt by lia. by rewrite Nat.sub_diag. Qed.
Lemma znth_at D a l i : i = zlen D -> znth (D ++ a :: l) i = a.
Proof. intros ->. unfold znth, zlen. rewrite Nat2Z.id, lookup_app_r by lia. by rewrite Nat.sub_diag. Qed.

Lemma pton_digit v src vs D p junk :
  digit v -> quanta vs D -> Forall digit p -> (length p < 4)%nat ->
  (junk = [] /\ (length p < 3)%nat /\ pton_at (B64 v :: src) D p junk = None) \/
  exists vs' D' p' junk', pton_at (B64 v :: src) D p junk = pton_at src D' p' junk' /\ quanta vs' D' /\ Forall digit p' /\ (length p' < 4)%nat /\
    vs' ++ p' = (vs ++ p) ++ [v] /\ zlen D' + zlen (pend p') + zlen junk' = zlen D + zlen (pend p) + zlen junk.
Proof.
  intros Hv Hq Hp Hl. destruct (B64_digit v Hv) as (Em & Es & Ep). unfold pton_at. cbn [pton_loop]. rewrite Em, Es, Ep.
  assert (forall (l : list Z), 0 <= zlen l) as Hz by apply zlen_nonneg.
  destruct p as [|x [|y [|z [|? ?]]]]; cbn [length] in Hl; try lia; cbn [filling pend app].
  - change (zlen (@nil Z)) with 0. cbn [Z.eqb]. rewrite Z.geb_leb, zlen_app. destruct junk as [|j junk].
    { left. rewrite (proj2 (Z.leb_le _ (zlen D + 0))) by done. split_and!; [done|cbn; lia|done]. }
    right. exists vs, D, [v], junk. specialize (Hz junk). rewrite zlen_cons, (proj2 (Z.leb_gt _ (zlen D + 0))), zset_at by lia.
    split_and!; [done..|by apply Forall_singleton|cbn; lia|by rewrite app_nil_r|]. cbn [pend]. change (zlen [_]) with 1. lia.
  - change (zlen [x]) with 1. change (1 =? 0) with false. change (1 =? 1) with true. cbv iota. rewrite Z.geb_leb, zlen_app, zlen_cons, Z.add_0_r. destruct junk as [|j junk].
    { left. rewrite (proj2 (Z.leb_le _ (zlen D + 1))) by done. split_and!; [done|cbn; lia|done]. }
    right. exists vs, D, [x; v], junk. specialize (Hz junk). rewrite zlen_cons, (proj2 (Z.leb_gt _ (zlen D + 1))) by lia. rewrite znth_at, zset_at by done.
    rewrite (cons_middle _ D), app_assoc, zset_at by (rewrite zlen_app; done). rewrite <- app_assoc. split_and!; [done..| |cbn; lia|by rewrite <- app_assoc|].
    + apply (Forall_app_2 _ [x]); [done|by apply Forall_singleton].
    + cbn [pend]. change (zlen [_; _]) with 2. rewrite ?zlen_cons. change (zlen (@nil Z)) with 0. lia.
  - change (zlen [x; y]) with 2. change (2 =? 0) with false. change (2 =? 1) with false. change (2 =? 2) with true. cbv iota. rewrite Z.geb_leb, zlen_app, !zlen_cons. destruct junk as [|j junk].
    { left. rewrite (proj2 (Z.leb_le _ (zlen D + 1 + 1))) by (change (zlen (@nil Z)) with 0; lia). split_and!; [done|cbn; lia|done]. }
    right. exists vs, D, [x; y; v], junk. specialize (Hz junk). rewrite zlen_cons, (proj2 (Z.leb_gt _ (zlen D + 1 + 1))) by lia. rewrite (cons_middle _ D), app_assoc. rewrite znth_at, zset_at by (rewrite zlen_app; done).
    rewrite (cons_middle _ (D ++ _)), app_assoc, zset_at by (rewrite !zlen_app; done). rewrite <- !app_assoc, <- Z.add_assoc. split_and!; [done..| |cbn; lia|done|].
    + apply (Forall_app_2 _ [x; y]); [done|by apply Forall_singleton].
    + cbn [pend]. change (zlen [_; _; _]) with 3. rewrite ?zlen_cons. change (zlen (@nil Z)) with 0. lia.
  - right. exists (vs ++ [x; y; z; v]), (D ++ three x y z v), [], junk. specialize (Hz junk). change (zlen [x; y; z]) with 3. change (3 =? 0) with false. change (3 =? 1) with false. change (3 =? 2) with false. cbv iota.
    rewrite Z.geb_leb, zlen_app, !zlen_cons, (proj2 (Z.leb_gt _ (zlen D + 2))) by lia. rewrite (cons_middle _ D), app_assoc, (cons_middle _ (D ++ _)), app_assoc. rewrite znth_at, zset_at by (rewrite !zlen_app, <- Z.add_assoc; done).
    rewrite <- !app_assoc. split_and!; [|by rewrite !Forall_cons in Hp; apply quanta_snoc; try apply Hp|constructor|cbn; lia|by rewrite app_nil_r|].
    + f_equal. rewrite zlen_app. change (zlen (three x y z v)) with 3. cbn [filling]. lia.
    + rewrite zlen_app. change (zlen (three x y z v)) with 3. cbn [pend]. rewrite ?zlen_cons. change (zlen (@nil Z)) with 0. lia.
Qed.

(** What the loop accepts. *)
Lemma pton_loop_sound src vs D p junk rest ti st t :
  pton_at src D p junk = Some (rest, ti, st, t) -> quanta vs D -> Forall digit p -> (length p < 4)%nat ->
  exists vs' D' p' junk', quanta vs' D' /\ Forall digit p' /\ (length p' < 4)%nat /\ ti = zlen D' + filling p' /\ st = zlen p' /\ t = D' ++ pend p' ++ junk' /\
    zlen t = zlen D + zlen (pend p) + zlen junk /\ map B64 (vs ++ p) ++ dense src = map B64 (vs' ++ p') ++ match rest with None => [] | Some r => Pad64 :: dense r end.
Proof.
  revert vs D p junk. induction src as [|ch src IH]; intros vs D p junk E Hq Hp Hl.
  - injection E as <- <- <- <-. exists vs, D, p, junk. rewrite !zlen_app. split_and!; [done..|lia|done].
  - unfold dense. rewrite filter_cons. destruct (isspace ch) eqn:Es; [rewrite decide_False by done; unfold pton_at in E; cbn [pton_loop] in E; rewrite Es in E; by apply IH|rewrite decide_True by done].
    destruct (ch =? Pad64) eqn:Ep.
    { unfold pton_at in E. cbn [pton_loop] in E. rewrite Es, Ep in E. injection E as <- <- <- <-. apply Z.eqb_eq in Ep as ->. exists vs, D, p, junk. rewrite !zlen_app. split_and!; [done..|lia|done]. }
    destruct (memchr ch Base64) as [v|] eqn:Em; [|unfold pton_at in E; cbn [pton_loop] in E; by rewrite Es, Ep, Em in E].
    destruct (memchr_znth _ _ _ Em) as [Hv Hc]. fold (B64 v) in Hc. subst ch. destruct (pton_digit v src vs D p junk) as [(_ & _ & En)|(vs1 & D1 & p1 & junk1 & E1 & Hq1 & Hp1 & Hl1 & Hd & Hz)]; [done..| |].
    { by rewrite En in E. }
    rewrite E1 in E. destruct (IH _ _ _ _ E Hq1 Hp1 Hl1) as (vs' & D' & p' & junk' & ? & ? & ? & ? & ? & ? & Hz' & Hd'). exists vs', D', p', junk'. split_and!; [done..|lia|].
    etransitivity; [|exact Hd']. by rewrite Hd, (map_app B64 (vs ++ p)), <- app_assoc.
Qed.

(** The size that a number of digits needs in the target. *)
Definition room_for (n : Z) : Z := 3 * (n / 4) + n mod 4.

Lemma quanta_len vs D : quanta vs D -> 4 * zlen D = 3 * zlen vs /\ zlen vs mod 4 = 0.
Proof. induction 1 as [|x y z w vs D ? ? ? ? _ [IH Hm]]; [done|]. rewrite zlen_app, !zlen_cons. change (zlen (three x y z w)) with 3. split; [lia|]. Z.to_euclidean_division_equations; lia. Qed.
Lemma pend_len p : (length p < 4)%nat -> zlen (pend p) = zlen p.
Proof. destruct p as [|x [|y [|z [|? ?]]]]; cbn; intros; [done..|lia]. Qed.

Lemma pton_loop_complete src vs D p junk us tail :
  quanta vs D -> Forall digit p -> (length p < 4)%nat -> Forall digit us -> dense src = map B64 us ++ tail -> (tail = [] \/ exists q, tail = Pad64 :: q) ->
  room_for (zlen (vs ++ p ++ us)) <= zlen D + zlen (pend p) + zlen junk ->
  exists rest vs' D' p' junk', pton_at src D p junk = Some (rest, zlen D' + filling p', zlen p', D' ++ pend p' ++ junk') /\ quanta vs' D' /\ Forall digit p' /\ (length p' < 4)%nat /\
    vs' ++ p' = vs ++ p ++ us /\ tail = match rest with None => [] | Some r => Pad64 :: dense r end.
Proof.
  revert vs D p junk us. induction src as [|ch src IH]; intros vs D p junk us Hq Hp Hl Hu Ed Ht Hr.
  - destruct us as [|u us]; [|done]. cbn in Ed. subst tail. exists None, vs, D, p, junk. by rewrite app_nil_r.
  - unfold dense in Ed. rewrite filter_cons in Ed. unfold pton_at. cbn [pton_loop]. destruct (isspace ch) eqn:Es; [rewrite decide_False in Ed by done; by apply (IH vs D p junk us)|rewrite decide_True in Ed by done].
    destruct us as [|u us].
    + destruct Ht as [->|[q ->]]; [done|]. injection Ed as -> Eq. rewrite Z.eqb_refl. exists (Some src), vs, D, p, junk. split_and!; [done..|by rewrite app_nil_r|]. by rewrite <- Eq.
    + injection Ed as -> Ed. apply Forall_cons in Hu as [Hu0 Hu]. destruct (B64_digit u Hu0) as (Em & _ & Ep). rewrite Ep. fold (dense src) in Ed.
      destruct (pton_digit u src vs D p junk) as [(-> & Hl3 & _)|(vs1 & D1 & p1 & junk1 & E1 & Hq1 & Hp1 & Hl1 & Hd & Hz)]; [done..| |].
      { exfalso. destruct (quanta_len _ _ Hq) as [Hz Hm]. rewrite pend_len in Hr by done. rewrite !zlen_app, zlen_cons, zlen_nil in Hr. pose proof (zlen_nonneg us). unfold room_for in Hr. assert (zlen p < 3) by (unfold zlen; lia). pose proof (zlen_nonneg p). Z.to_euclidean_division_equations; lia. }
      unfold pton_at in E1 at 1. cbn [pton_loop] in E1. rewrite Es, Ep in E1. rewrite E1. assert (vs ++ p ++ u :: us = vs1 ++ p1 ++ us) as Ev by by rewrite (app_assoc vs1), Hd, <- !app_assoc.
      rewrite Ev in *. apply (IH vs1 D1 p1 junk1 us); [done..|lia].
Qed.

(** ** Ends *)

(** The digits behind the last whole group, the padding and the bytes they give. *)
Inductive finish : list Z -> cstring -> list Z -> Prop :=
  | finish0 : finish [] [] []
  | finish2 x y a : pend [x; y] = [a; 0] -> finish [x; y] [Pad64; Pad64] [a]
  | finish3 x y z a b : pend [x; y; z] = [a; b; 0] -> finish [x; y; z] [Pad64] [a; b].

Lemma digit0 : digit 0.
Proof. done. Qed.

Lemma finish_base64 p pads e vs D : finish p pads e -> Forall digit p -> quanta vs D -> bytes_ok (D ++ e) /\ base64 (D ++ e) = map B64 (vs ++ p) ++ pads.
Proof.
  intros Hf Hp Hq. destruct (quanta_base64 vs D e Hq) as [Hb ->]. rewrite map_app, <- app_assoc. destruct Hf as [|x y a E|x y z a b E].
  - split; [by rewrite app_nil_r|done].
  - rewrite !Forall_cons in Hp. destruct Hp as (Hx & Hy & _). destruct (quantum_three x y 0 0 Hx Hy digit0 digit0) as (a' & b' & c' & E3 & Ha & _ & _ & Eq). injection E as Ea Eb. unfold three in E3. rewrite Ea, Eb in E3. injection E3 as <- Eb' Ec'. assert (b' = 0 /\ c' = 0) as [-> ->] by (by rewrite <- Eb', <- Ec').
    split; [apply Forall_app; split; [done|by apply Forall_singleton]|]. cbn [base64]. by rewrite Eq.
  - rewrite !Forall_cons in Hp. destruct Hp as (Hx & Hy & Hz & _). destruct (quantum_three x y z 0 Hx Hy Hz digit0) as (a' & b' & c' & E3 & Ha & Hb' & _ & Eq). injection E as Ea Eb Ec. unfold three in E3. rewrite Ea, Eb, Ec in E3. injection E3 as <- <- Ec'. assert (c' = 0) as -> by (by rewrite <- Ec').
    split; [apply Forall_app; split; [done|by repeat (apply Forall_cons; split); [..|constructor]]|]. cbn [base64]. by rewrite Eq.
Qed.

Lemma base64_finish d : bytes_ok d -> exists vs D p pads e, quanta vs D /\ Forall digit p /\ (length p < 4)%nat /\ finish p pads e /\ d = D ++ e.
Proof.
  induction d as [|a|a b|a b c d IH] using list_ind3; intros Hd; unfold bytes_ok in Hd; rewrite ?Forall_cons in Hd.
  - exists [], [], [], [], []. split_and!; [constructor|done|cbn; lia|constructor|done].
  - destruct Hd as [Ha _]. destruct (three_quantum a 0 0 Ha ltac:(done) ltac:(done)) as (x & y & z & w & Eq & Hx & Hy & Hz & Hw & E3). assert (0 = z /\ 0 = w) as [<- <-] by exact (conj (f_equal (fun l => nth 2 l 1) Eq) (f_equal (fun l => nth 3 l 1) Eq)). exists [], [], [x; y], [Pad64; Pad64], [a].
    split_and!; [constructor|by repeat (apply Forall_cons; split); [..|constructor]|cbn; lia| |done]. constructor. unfold three in E3. injection E3 as Ea Eb. cbn [pend]. change (Z.shiftr 0 2) with 0 in Eb. rewrite Z.lor_0_r in Eb. by rewrite Ea, Eb.
  - destruct Hd as (Ha & Hb & _). destruct (three_quantum a b 0 Ha Hb ltac:(done)) as (x & y & z & w & Eq & Hx & Hy & Hz & Hw & E3). assert (0 = w) as <- by exact (f_equal (fun l => nth 3 l 1) Eq). exists [], [], [x; y; z], [Pad64], [a; b].
    split_and!; [constructor|by repeat (apply Forall_cons; split); [..|constructor]|cbn; lia| |done]. constructor. unfold three in E3. injection E3 as Ea Eb Ec. cbn [pend]. rewrite Z.lor_0_r in Ec. by rewrite Ea, Eb, Ec.
  - destruct Hd as (Ha & Hb & Hc & Hd). destruct (IH Hd) as (vs & D & p & pads & e & Hq & Hp & Hl & Hf & ->). destruct (three_quantum a b c Ha Hb Hc) as (x & y & z & w & Eq & Hx & Hy & Hz & Hw & E3).
    exists (x :: y :: z :: w :: vs), (three x y z w ++ D), p, pads, e. split_and!; [by apply quanta_cons|done..|]. by rewrite E3.
Qed.

Lemma quanta_fun vs D D' : quanta vs D -> quanta vs D' -> D = D'.
Proof. intros Hq. revert D'. induction Hq as [|x y z w vs D ? ? ? ? Hq IH]; intros D' Hq'; inversion Hq'; subst; [done|]. f_equal. by apply IH. Qed.

Lemma quanta_split vs vs' D D' p p' : quanta vs D -> quanta vs' D' -> (length p < 4)%nat -> (length p' < 4)%nat -> vs ++ p = vs' ++ p' -> D = D' /\ p = p'.
Proof.
  intros Hq Hq' Hl Hl' E. assert (length vs = length vs') as Hn.
  { destruct (quanta_len _ _ Hq) as [_ H1], (quanta_len _ _ Hq') as [_ H2]. apply (f_equal (@length Z)) in E. rewrite !length_app in E. unfold zlen in *. Z.to_euclidean_division_equations; lia. }
  destruct (app_inj_1 _ _ _ _ Hn E) as [-> ->]. split; [by eapply quanta_fun|done].
Qed.

(** White space. *)
Lemma skip_space_nil s : skip_space s = [] <-> dense s = [].
Proof. induction s as [|c s IH]; [done|]. unfold dense. rewrite filter_cons. cbn. destruct (isspace c) eqn:Es; [by rewrite decide_False by done|by rewrite decide_True by done]. Qed.

Lemma skip_space_cons s : match skip_space s with [] => dense s = [] | c :: s' => dense s = c :: dense s' end.
Proof. induction s as [|c s IH]; [done|]. unfold dense in *. rewrite filter_cons. cbn. destruct (isspace c) eqn:Es; [by rewrite decide_False by done|by rewrite decide_True by done]. Qed.

Lemma pton_start s target : pton_loop s 0 0 target = pton_at s [] [] target.
Proof. reflexivity. Qed.

Lemma znth_filling D p junk a l : pend p = l ++ [a] -> (2 <= length p < 4)%nat -> znth (D ++ pend p ++ junk) (zlen D + filling p) = a.
Proof.
  intros E Hl. rewrite E, <- app_assoc, app_assoc. apply znth_at. rewrite zlen_app. f_equal. destruct p as [|x [|y [|z [|? ?]]]]; cbn [length] in Hl; try lia; cbn [pend] in E.
  - destruct l as [|? [|? [|? ?]]]; done.
  - destruct l as [|? [|? [|? [|? ?]]]]; done.
Qed.

Lemma b64_pton_sound s target n t :
  b64_pton s target = Some (n, t) -> exists d, bytes_ok d /\ zlen d = n /\ zlen t = zlen target /\ ztake n t = d /\ dense s = base64 d.
Proof.
  unfold b64_pton. rewrite pton_start. destruct (pton_at s [] [] target) as [[[[rest ti] st] t']|] eqn:E; [|done].
  destruct (pton_loop_sound _ [] _ _ _ _ _ _ _ E quanta_nil (List.Forall_nil _) ltac:(cbn; lia)) as (vs & D & p & junk & Hq & Hp & Hl & -> & -> & -> & Hz & Hd). cbn [app map] in Hd.
  intros Ha. assert (exists pads e, finish p pads e /\ n = zlen (D ++ e) /\ t = D ++ pend p ++ junk /\ match rest with None => [] | Some r => Pad64 :: dense r end = pads) as (pads & e & Hf & -> & -> & Hr).
  2: { destruct (finish_base64 p pads e vs D Hf Hp Hq) as [Hb Hbase]. exists (D ++ e). split_and!; [done..| |by rewrite Hbase, <- Hr].
    assert (exists k, pend p = e ++ k) as [k ->] by (destruct Hf as [|x y a ->|x y z a b ->]; [by exists []|by exists [0]|by exists [0]]). by rewrite <- app_assoc, app_assoc, ztake_app_exact. }
  destruct rest as [r|].
  - destruct p as [|x [|y [|z [|? ?]]]]; cbn [length] in Hl; try lia; try done.
    + change (zlen [x; y]) with 2 in Ha. cbn [Z.eqb Pos.eqb orb] in Ha. pose proof (skip_space_cons r) as Hr. destruct (skip_space r) as [|c r']; [done|]. destruct (Z.eqb_spec c Pad64) as [->|]; [|done]. pose proof (skip_space_nil r') as [Hr' _]. destruct (skip_space r'); [|done]. rewrite (Hr' eq_refl) in Hr.
      rewrite (znth_filling D [x; y] junk _ [_] eq_refl) in Ha by (cbn; lia).
      destruct (Z.eqb_spec (u8 (Z.shiftl (Z.land y 15) 4)) 0) as [E0|]; [|done]. injection Ha as <- <-. eexists _, _. split; [apply finish2; cbn [pend]; by rewrite E0|]. rewrite Hr. split_and!; [by rewrite zlen_app|done..].
    + change (zlen [x; y; z]) with 3 in Ha. cbn [Z.eqb Pos.eqb orb] in Ha. pose proof (skip_space_nil r) as [Hr _]. destruct (skip_space r); [|done].
      rewrite (znth_filling D [x; y; z] junk _ [_; _] eq_refl) in Ha by (cbn; lia).
      destruct (Z.eqb_spec (u8 (Z.shiftl (Z.land z 3) 6)) 0) as [E0|]; [|done]. injection Ha as <- <-. eexists _, _. split; [apply finish3; cbn [pend]; by rewrite E0|]. rewrite (Hr eq_refl). split_and!; [by rewrite zlen_app|done..].
  - destruct p as [|x p]; [|rewrite zlen_cons in Ha; pose proof (zlen_nonneg p); by rewrite (proj2 (Z.eqb_neq _ 0)) in Ha by lia]. injection Ha as <- <-. exists [], []. split_and!; [constructor|by rewrite zlen_app|done..].
Qed.

Lemma b64_pton_complete s target d :
  bytes_ok d -> dense s = base64 d -> zlen d < zlen target -> exists t, b64_pton s target = Some (zlen d, t) /\ ztake (zlen d) t = d.
Proof.
  intros Hb Hs Hz. destruct (base64_finish d Hb) as (vs & D & p & pads & e & Hq & Hp & Hl & Hf & ->). destruct (finish_base64 p pads e vs D Hf Hp Hq) as [_ Hbase]. rewrite Hbase in Hs.
  assert (Forall digit (vs ++ p)) as Hv by (apply Forall_app; split; [clear -Hq; induction Hq; [constructor|repeat (apply Forall_cons; split); done]|done]).
  destruct (pton_loop_complete s [] [] [] target (vs ++ p) pads quanta_nil (List.Forall_nil _) ltac:(cbn; lia) Hv Hs) as (rest & vs' & D' & p' & junk & E & Hq' & _ & Hl' & Ev & Ht).
  { destruct Hf; [by left|by right; eexists|by right; eexists]. }
  { destruct (quanta_len _ _ Hq) as [H4 Hm]. cbn [app pend]. unfold room_for. change (zlen (@nil Z)) with 0. rewrite !zlen_app in *. assert (zlen p <= zlen e + 1 /\ zlen p < 4) as [Hpe Hp4] by (destruct Hf; [done..|]; done). pose proof (zlen_nonneg p). Z.to_euclidean_division_equations; lia. }
  cbn [app] in Ev. destruct (quanta_split _ _ _ _ _ _ Hq' Hq Hl' Hl Ev) as [-> ->]. unfold b64_pton. rewrite pton_start, E. exists (D ++ pend p ++ junk).
  assert (exists k, pend p = e ++ k) as [k Ek] by (destruct Hf as [|x y a ->|x y z a b ->]; [by exists []|by exists [0]|by exists [0]]).
  split; [|by rewrite Ek, <- app_assoc, app_assoc, ztake_app_exact].
  destruct Hf as [|x y a Ep|x y z a b Ep]; destruct rest as [r|]; try done.
  - cbn [filling]. by rewrite app_nil_r, Z.add_0_r.
  - injection Ht as Ht. change (zlen [x; y]) with 2. cbn [Z.eqb Pos.eqb orb]. pose proof (skip_space_cons r) as Hr. destruct (skip_space r) as [|c r']; [congruence|]. rewrite <- Ht in Hr. injection Hr as <- Hr. rewrite Z.eqb_refl.
    rewrite (proj2 (skip_space_nil r') (eq_sym Hr)), (znth_filling D [x; y] junk 0 [a] Ep) by (cbn; lia). cbn [Z.eqb negb filling]. by rewrite zlen_app.
  - injection Ht as Ht. change (zlen [x; y; z]) with 3. cbn [Z.eqb Pos.eqb orb]. rewrite (proj2 (skip_space_nil r) (eq_sym Ht)), (znth_filling D [x; y; z] junk 0 [a; b] Ep) by (cbn; lia). cbn [Z.eqb negb filling]. by rewrite zlen_app.
Qed.

Lemma base64_dense d : bytes_ok d -> dense (base64 d) = base64 d.
Proof.
  intros Hb. destruct (base64_finish d Hb) as (vs & D & p & pads & e & Hq & Hp & Hl & Hf & ->). destruct (finish_base64 p pads e vs D Hf Hp Hq) as [_ ->].
  assert (Forall digit (vs ++ p)) as Hv by (apply Forall_app; split; [clear -Hq; induction Hq; [constructor|repeat (apply Forall_cons; split); done]|done]).
  unfold dense. rewrite filter_app. f_equal; [|by destruct Hf]. clear -Hv. induction Hv as [|v l Hv _ IH]; [done|]. cbn [map]. rewrite filter_cons, decide_True by apply (B64_digit v Hv). by f_equal.
Qed.

Lemma base64_alphabet d : bytes_ok d -> Forall (fun c => c ∈ Pad64 :: Base64) (base64 d).
Proof.
  intros Hb. destruct (base64_finish d Hb) as (vs & D & p & pads & e & Hq & Hp & Hl & Hf & ->). destruct (finish_base64 p pads e vs D Hf Hp Hq) as [_ ->].
  assert (Forall digit (vs ++ p)) as Hv by (apply Forall_app; split; [clear -Hq; induction Hq; [constructor|repeat (apply Forall_cons; split); done]|done]).
  apply Forall_app. split; [|destruct Hf; [constructor|..]; repeat (apply Forall_cons; split); try constructor; apply list_elem_of_here].
  clear -Hv. induction Hv as [|v l Hv _ IH]; [constructor|]. cbn [map]. constructor; [|done]. apply list_elem_of_further. unfold B64, znth.
  destruct (Base64 !! Z.to_nat v) as [c|] eqn:E; [by eapply list_elem_of_lookup_2|]. apply lookup_ge_None in E. change (length Base64) with 64%nat in E. unfold digit in Hv. lia.
Qed.

Lemma zlen_base64 d : zlen (base64 d) = (zlen d + 2) / 3 * 4.
Proof.
  induction d as [|a|a b|a b c d IH] using list_ind3; [done..|]. cbn [base64]. rewrite zlen_app, IH, !zlen_cons. change (zlen (map B64 (quantum a b c))) with 4.
  replace (1 + (1 + (1 + zlen d)) + 2) with (zlen d + 2 + 1 * 3) by lia. rewrite Z.div_add by lia. lia.
Qed.

Lemma b64_ntop_spec src size : b64_ntop src size = if zlen (base64 src) <? size then Some (base64 src) else None.
Proof. unfold b64_ntop. by rewrite ntop_from_spec. Qed.

(** C18: The base64 functions are inverse to each other.  The encoder writes the
    encoding of RFC 4648 exactly when it and a nul fit into the target; the decoder
    accepts exactly the strings that, without white space, are such an encoding (so
    padding and unused bits are checked), gives the bytes it stands for, and never
    needs more of the target than one byte beyond them. *)
Theorem b64_roundtrip src s target size :
  bytes_ok src ->
  b64_ntop src size = (if zlen (base64 src) <? size then Some (base64 src) else None) /\
  (forall n t, b64_pton s target = Some (n, t) -> zlen t = zlen target /\ zlen (ztake n t) = n /\ bytes_ok (ztake n t) /\ dense s = base64 (ztake n t)) /\
  (dense s = base64 src -> zlen src < zlen target -> exists t, b64_pton s target = Some (zlen src, t) /\ ztake (zlen src) t = src) /\
  (zlen src < zlen target -> exists t, b64_pton (base64 src) target = Some (zlen src, t) /\ ztake (zlen src) t = src).
Proof.
  intros Hb. split_and!.
  - apply b64_ntop_spec.
  - intros n t E. destruct (b64_pton_sound s target n t E) as (d & Hd & <- & Hz & -> & Hs). done.
  - by apply b64_pton_complete.
  - apply b64_pton_complete; [done|by apply base64_dense].
Qed.

Lemma b64_roundtrip_witness :
  b64_ntop (str "any carnal") 17 = Some (str "YW55IGNhcm5hbA==") /\ b64_ntop (str "any carnal") 16 = None /\
  fst <$> b64_pton (str "YW55 IGNhcm5hbA = =") (zrepeat 20) = Some 10 /\ b64_pton (str "YW55IGNhcm5hbB==") (zrepeat 20) = None /\
  (exists t, b64_pton (str "YW55IGNhcm5hbA==") (zrepeat 11) = Some (10, t) /\ ztake 10 t = str "any carnal").
Proof.
  split_and!; try (vm_compute; reflexivity).
  destruct (b64_roundtrip (str "any carnal") [] (zrepeat 11) 0 ltac:(compute_dec)) as (_ & _ & _ & Hr). exact (Hr ltac:(vm_compute; reflexivity)).
Defined.
