(* ===== verification/Hostfile.v ===== *)
(** Known hosts: hostfile.c, with the reading and writing of keys as text
    (sshkey.c).

    A pointer into a line is the memory from there on, up to the end of what
    getline(3) stored: the line, its nul and nothing behind it, so that a pointer
    that has moved further has no memory left and reading it is an error of memory
    ([Segv]).  Files are a map from names to contents; each call of the system
    takes the next of a list of faults (0, or the error it fails with). *)

From Stdlib Require Import String.
From stdpp Require Import gmap.
From S2P Require Import Prelude Io Sshbuf SshbufGetPut SshbufRead Match AddrMatch AlgNames Digest Base64.
Local Open Scope Z_scope.

(** * Keys *)

Definition KEY_ECDSA : Z := 2.
Definition KEY_UNSPEC : Z := 10.

(** Keys and what sshkey.c and ssh-x509.c do with them. *)
Class KnownKeys := {
  hkey : Type;
  k_type : hkey -> Z;
  k_nid : hkey -> Z;
  sshkey_size : hkey -> Z;
  sshkey_is_x509 : hkey -> bool;
  (** the key that signed a certificate *)
  signature_key : hkey -> option hkey;
  sshkey_equal : hkey -> hkey -> bool;
  sshkey_equal_public : hkey -> hkey -> bool;
  sshkey_type_plain : Z -> Z;
  sshkey_types_from_name : cstring -> Z * Z;
  sshkey_type_from_name : cstring -> Z;
  X509key_from_subject : cstring -> cstring -> option hkey;
  parse_key_from_blob : list Z -> result hkey;
  (** the rest of [sshkey_read_pkalg]: a key of the type with the contents of another *)
  fill_key : Z -> hkey -> result hkey;
  sshkey_ssh_name : hkey -> cstring;
  sshkey_putb : hkey -> SE sshbuf unit;
  (** what [Xkey_write_subject] prints *)
  subject_text : hkey -> option cstring;
  (** [x509key_subject] or [sshkey_fingerprint] do not fail *)
  printable : hkey -> bool
}.

(** * The system *)

Record world := mk_world { files : gmap cstring (list Z); faults : list Z; drawn : nat }.

Class HostEnv := {
  (** the random bytes that the n-th call gives *)
  arc4random_buf : nat -> Z -> list Z;
  (** the name that mkstemp(3) chooses for a template *)
  temp_name : cstring -> gmap cstring (list Z) -> cstring
}.

Definition next_fault : io world Z := fun w =>
  match faults w with
  | [] => (Ret 0, w)
  | e :: l => (Ret e, mk_world (files w) l (drawn w))
  end.
Definition set_files (f : gmap cstring (list Z) -> gmap cstring (list Z)) : io world unit := updates (fun w => mk_world (f (files w)) (faults w) (drawn w)).

(** A call that changes the files, if it does not fail; [errno] if it does. *)
Definition sys_call (check : gmap cstring (list Z) -> Z) (f : gmap cstring (list Z) -> gmap cstring (list Z)) : io world Z :=
  e ← next_fault;
  if negb (e =? 0) then mret e
  else
    e ← reads (fun w => check (files w));
    if negb (e =? 0) then mret e else _ ← set_files f; mret 0.

Definition present (p : cstring) (fs : gmap cstring (list Z)) : bool := bool_decide (is_Some (fs !! p)).
Definition content (p : cstring) (fs : gmap cstring (list Z)) : list Z := default [] (fs !! p).

Definition sys_unlink (p : cstring) : io world Z := sys_call (fun fs => if present p fs then 0 else ENOENT) (delete p).
Definition sys_link (a b : cstring) : io world Z :=
  sys_call (fun fs => if negb (present a fs) then ENOENT else if present b fs then EEXIST else 0) (fun fs => <[b := content a fs]> fs).
Definition sys_rename (a b : cstring) : io world Z :=
  sys_call (fun fs => if present a fs then 0 else ENOENT) (fun fs => <[b := content a fs]> (delete a fs)).
Definition sys_stat (p : cstring) : io world Z := sys_call (fun fs => if present p fs then 0 else ENOENT) (fun fs => fs).

(** [fopen] for reading: the contents. *)
Definition fopen_read (p : cstring) : io world (option (list Z)) :=
  e ← next_fault;
  if negb (e =? 0) then mret None else reads (fun w => files w !! p).

(** [fclose] of a file that was written to: the text is appended; when there is no
    room for it, only a part is. *)
Definition fclose_text (p : cstring) (text : list Z) : io world unit :=
  e ← next_fault;
  set_files (fun fs => <[p := content p fs ++ (if e =? 0 then text else ztake (e - 1) text)]> fs).

Definition xrename (oldpath newpath : cstring) : io world Z :=
  e ← sys_link oldpath newpath;
  if negb (e =? 0) then
    if (e =? EOPNOTSUPP) || (e =? ENOSYS) || (e =? EXDEV) || (e =? LINK_OPNOTSUPP_ERRNO) then
      st ← sys_stat newpath;
      if negb (st =? 0) then sys_rename oldpath newpath else mret EEXIST
    else mret e
  else
    e ← sys_unlink oldpath;
    if negb (e =? 0) then _ ← sys_unlink newpath; mret e else mret 0.

(** The lines that getline(3) returns. *)
Fixpoint getlines (data : list Z) : list (list Z) :=
  match data with
  | [] => []
  | c :: data =>
      if c =? 10 then [c] :: getlines data
      else match getlines data with [] => [[c]] | l :: ls => (c :: l) :: ls end
  end.

(** * Text *)

Definition is_blank (c : Z) : bool := (c =? 32) || (c =? 9).
Definition ends_word (c : Z) : bool := (c =? 0) || is_blank c.

(** The loops over blanks, and over a word: the word and the pointer behind it. *)
Fixpoint skip_blanks (cp : list Z) : list Z :=
  match cp with c :: cp' => if is_blank c then skip_blanks cp' else cp | [] => [] end.
Fixpoint word (cp : list Z) : cstring * list Z :=
  match cp with
  | c :: cp' => if ends_word c then ([], cp) else let '(w, rest) := word cp' in (c :: w, rest)
  | [] => ([], [])
  end.

(** The character that a pointer points to. *)
Definition at_ {S} (cp : list Z) : io S Z := match cp with c :: _ => mret c | [] => segv end.

Section hostfile.
Context `{Allocator} `{EvpDigest} `{KnownKeys} `{HostEnv}.

Definition SIZEOF_SSHKEY : Z := 152.

(** The end of [sshkey_read_pkalg]. *)
Definition read_filled (type : Z) (k : hkey) (cp : list Z) : io world (result (hkey * list Z)) :=
  let cp := skip_blanks cp in
  _ ← at_ cp;
  match fill_key type k with
  | Err r => mret (Err r)
  | Ok ret => mret (Ok (ret, cp))
  end.

Definition blob_key (type curve_nid : Z) (b64 : cstring) : result hkey :=
  match sshbuf_new with
  | None => Err SSH_ERR_ALLOC_FAIL
  | Some blob =>
      if negb (malloc_ok (zlen b64 + 1)) then Err SSH_ERR_ALLOC_FAIL
      else
        match sshbuf_b64tod b64 blob with
        | (Err r, _) => Err r
        | (Ok _, blob) =>
            match parse_key_from_blob (default [] (sshbuf_ptr blob)) with
            | Err r => Err r
            | Ok k =>
                if negb (k_type k =? type) then Err SSH_ERR_KEY_TYPE_MISMATCH
                else if (sshkey_type_plain type =? KEY_ECDSA) && negb (curve_nid =? k_nid k) then Err SSH_ERR_EC_CURVE_MISMATCH
                else Ok k
            end
        end
  end.

(** [sshkey_read] into a new key: the key and the pointer behind it.  Behind a
    subject the length of the name of the algorithm is added to the pointer. *)
Definition sshkey_read (cp : list Z) : io world (result (hkey * list Z)) :=
  let '(pkname, cp') := word cp in
  let space := zlen pkname in
  if space =? zlen (cstr cp) then mret (Err SSH_ERR_INVALID_FORMAT)
  else if (space <? 1) || (space >=? 64) then mret (Err SSH_ERR_INVALID_FORMAT)
  else
    let '(type, curve_nid) := sshkey_types_from_name pkname in
    if type =? KEY_UNSPEC then mret (Err SSH_ERR_INVALID_FORMAT)
    else
      let cp := skip_blanks cp' in
      c ← at_ cp;
      if c =? 0 then mret (Err SSH_ERR_INVALID_FORMAT)
      else
        match X509key_from_subject pkname (cstr cp) with
        | Some k =>
            let ep := zdrop (zlen (cstr cp)) cp in
            read_filled type k (zdrop space ep)
        | None =>
            let '(b64, cp) := word cp in
            match blob_key type curve_nid b64 with
            | Err r => mret (Err r)
            | Ok k => read_filled type k cp
            end
        end.

(** * Hashed names *)

Definition HASH_MAGIC : cstring := str "|1|".
Definition HASH_DELIM : Z := 124.

Definition extract_salt (s : cstring) : option (list Z) :=
  let l := zlen s in
  if l <? zlen HASH_MAGIC then None
  else if negb (bool_decide (ztake (zlen HASH_MAGIC) s = HASH_MAGIC)) then None
  else
    let s := zdrop (zlen HASH_MAGIC) s in
    match memchr HASH_DELIM s with
    | None => None
    | Some b64len =>
        if (b64len =? 0) || (b64len >? 1024) then None
        else
          match b64_pton (ztake b64len s) (zrepeat 256) with
          | None => None
          | Some (ret, salt) => if negb (ret =? ssh_hmac_bytes SSH_DIGEST_SHA1) then None else Some salt
          end
    end.

(** The HMAC of the name; an error ends the program. *)
Definition hmac_host (salt host : list Z) : io world (list Z) :=
  match ssh_hmac_start SSH_DIGEST_SHA1 with
  | None => dies
  | Some ctx =>
      match ssh_hmac_init ctx (Some salt) with
      | Err _ => dies
      | Ok ctx => match ssh_hmac_final (ssh_hmac_update ctx host) 256 with (Ok result, _) => mret result | (Err _, _) => dies end
      end
  end.

Definition new_salt (len : Z) : io world (list Z) := fun w => (Ret (arc4random_buf (drawn w) len), mk_world (files w) (faults w) (S (drawn w))).

Definition host_hash (host : cstring) (name_from_hostfile : option cstring) : io world (option cstring) :=
  let len := ssh_digest_bytes SSH_DIGEST_SHA1 in
  salt ← match name_from_hostfile with None => s ← new_salt len; mret (Some s) | Some name => mret (extract_salt name) end;
  match salt with
  | None => mret None
  | Some salt =>
      let salt := ztake len salt in
      result ← hmac_host salt host;
      match b64_ntop salt 512, b64_ntop (ztake len result) 512 with
      | Some uu_salt, Some uu_result => mret (Some (ztake 1023 (HASH_MAGIC ++ uu_salt ++ [HASH_DELIM] ++ uu_result)))
      | _, _ => dies
      end
  end.

(** 1, 0 or -1 ([None]), and whether the name is hashed. *)
Definition match_maybe_hashed (host names : cstring) : io world (option bool * bool) :=
  let hashed := match names with c :: _ => c =? HASH_DELIM | [] => false end in
  if hashed then
    h ← host_hash host (Some names);
    mret (match h with None => None | Some hashed_host => Some (bool_decide (hashed_host = names)) end, hashed)
  else mret (Some (match_hostname host names =? 1), hashed).

(** * Lines *)

Inductive HostStatus := HOST_OK | HOST_NEW | HOST_CHANGED | HOST_REVOKED | HOST_FOUND.
Inductive HostkeyMarker := MRK_ERROR | MRK_NONE | MRK_REVOKE | MRK_CA.
#[global] Instance HostStatus_eq_dec : EqDecision HostStatus.
Proof. solve_decision. Defined.
#[global] Instance HostkeyMarker_eq_dec : EqDecision HostkeyMarker.
Proof. solve_decision. Defined.

Definition CA_MARKER : cstring := str "@cert-authority".
Definition REVOKE_MARKER : cstring := str "@revoked".

(** [sp]: the first space of the string or, without one, the first tab. *)
Definition marker_end (cp : list Z) : option cstring :=
  match strchr_split 32 (cstr cp) with
  | Some (marker, _) => Some marker
  | None => match strchr_split 9 (cstr cp) with Some (marker, _) => Some marker | None => None end
  end.

(** The marker and the pointer behind it.  In its second round the loop can only
    fail. *)
Definition check_markers (cp : list Z) : io world (HostkeyMarker * list Z) :=
  c ← at_ cp;
  if negb (c =? ch_at) then mret (MRK_NONE, cp)
  else
    match marker_end cp with
    | None => mret (MRK_ERROR, cp)
    | Some marker =>
        if (zlen marker <=? 1) || (zlen marker >=? 32) then mret (MRK_ERROR, cp)
        else
          let ret := if bool_decide (marker = CA_MARKER) then MRK_CA else if bool_decide (marker = REVOKE_MARKER) then MRK_REVOKE else MRK_ERROR in
          if bool_decide (ret = MRK_ERROR) then mret (MRK_ERROR, cp)
          else
            let cp' := skip_blanks (zdrop (zlen marker) cp) in
            c ← at_ cp';
            if c =? ch_at then mret (MRK_ERROR, cp) else mret (ret, cp')
    end.

(** The key and the pointer behind it, [None] for 0. *)
Definition hostfile_read_key (cp : list Z) : io world (option (hkey * list Z)) :=
  x ← sshkey_read (skip_blanks cp);
  match x with
  | Err _ => mret None
  | Ok (k, cp) =>
      let cp := skip_blanks cp in
      _ ← at_ cp;
      if sshkey_size k <=? 0 then mret (if sshkey_is_x509 k then Some (k, cp) else None) else mret (Some (k, cp))
  end.

Definition HKF_WANT_MATCH : Z := 1.
Definition HKF_WANT_PARSE_KEY : Z := 2.
Definition HKF_STATUS_OK : Z := 0.
Definition HKF_STATUS_INVALID : Z := 1.
Definition HKF_STATUS_COMMENT : Z := 2.
Definition HKF_STATUS_MATCHED : Z := 3.
Definition HKF_MATCH_HOST : Z := 1.
Definition HKF_MATCH_IP : Z := 2.
Definition HKF_MATCH_HOST_HASHED : Z := 4.
Definition HKF_MATCH_IP_HASHED : Z := 8.

Record hostkey_foreach_line := mk_line {
  l_path : cstring; l_linenum : Z; l_status : Z; l_match : Z; l_line : cstring; l_marker : HostkeyMarker;
  l_hosts : option cstring; l_rawkey : option cstring; l_keytype : Z; l_key : option hkey; l_comment : option cstring
}.
Definition set_status (st : Z) (l : hostkey_foreach_line) : hostkey_foreach_line :=
  mk_line (l_path l) (l_linenum l) st (l_match l) (l_line l) (l_marker l) (l_hosts l) (l_rawkey l) (l_keytype l) (l_key l) (l_comment l).
Definition set_matched (m : Z) (l : hostkey_foreach_line) : hostkey_foreach_line :=
  mk_line (l_path l) (l_linenum l) HKF_STATUS_MATCHED (Z.lor (l_match l) m) (l_line l) (l_marker l) (l_hosts l) (l_rawkey l) (l_keytype l) (l_key l) (l_comment l).
Definition set_marker (m : HostkeyMarker) (l : hostkey_foreach_line) : hostkey_foreach_line :=
  mk_line (l_path l) (l_linenum l) (l_status l) (l_match l) (l_line l) m (l_hosts l) (l_rawkey l) (l_keytype l) (l_key l) (l_comment l).
Definition set_hosts (h : cstring) (l : hostkey_foreach_line) : hostkey_foreach_line :=
  mk_line (l_path l) (l_linenum l) (l_status l) (l_match l) (l_line l) (l_marker l) (Some h) (l_rawkey l) (l_keytype l) (l_key l) (l_comment l).
Definition set_rawkey (r : cstring) (l : hostkey_foreach_line) : hostkey_foreach_line :=
  mk_line (l_path l) (l_linenum l) (l_status l) (l_match l) (l_line l) (l_marker l) (l_hosts l) (Some r) (l_keytype l) (l_key l) (l_comment l).
Definition set_parsed (k : hkey) (comment : cstring) (l : hostkey_foreach_line) : hostkey_foreach_line :=
  mk_line (l_path l) (l_linenum l) (l_status l) (l_match l) (l_line l) (l_marker l) (l_hosts l) (l_rawkey l) (k_type k) (Some k) (Some comment).
Definition set_keytype (t : Z) (l : hostkey_foreach_line) : hostkey_foreach_line :=
  mk_line (l_path l) (l_linenum l) (l_status l) (l_match l) (l_line l) (l_marker l) (l_hosts l) (l_rawkey l) t (l_key l) (l_comment l).
(** At [bad]. *)
Definition set_bad (l : hostkey_foreach_line) : hostkey_foreach_line :=
  mk_line (l_path l) (l_linenum l) HKF_STATUS_INVALID (l_match l) (l_line l) (l_marker l) (l_hosts l) (l_rawkey l) (l_keytype l) None (l_comment l).

Definition has_option (o options : Z) : bool := negb (Z.land options o =? 0).

Section foreach.
Context {C : Type}.
Variable callback : hostkey_foreach_line -> C -> io world (result unit * C).
Variables (path : cstring) (host ip : option cstring) (options : Z).

(** Matching one name; [inl] leads to [bad]. *)
Definition match_name (name : option cstring) (bit hashed_bit : Z) (l : hostkey_foreach_line) : io world (hostkey_foreach_line + hostkey_foreach_line) :=
  match name with
  | None => mret (inr l)
  | Some name =>
      x ← match_maybe_hashed name (default [] (l_hosts l));
      match x with
      | (None, _) => mret (inl l)
      | (Some false, _) => mret (inr l)
      | (Some true, hashed) => mret (inr (set_matched (Z.lor bit (if hashed : bool then hashed_bit else 0)) l))
      end
  end.
Definition match_names (l : hostkey_foreach_line) : io world (hostkey_foreach_line + hostkey_foreach_line) :=
  match host with
  | None => mret (inr l)
  | Some _ =>
      x ← match_name host HKF_MATCH_HOST HKF_MATCH_HOST_HASHED l;
      match x with inl l => mret (inl l) | inr l => match_name ip HKF_MATCH_IP HKF_MATCH_IP_HASHED l end
  end.

(** The test of the type when the key is not parsed: [cp2] is at the raw key. *)
Definition check_keytype (cp2 : list Z) (l : hostkey_foreach_line) : io world (hostkey_foreach_line + hostkey_foreach_line) :=
  let '(ktype, cp) := word cp2 in
  let n := zlen ktype in
  c ← at_ cp;
  if (n <=? 1) || (n >=? 128) || (c =? 0) then mret (inl l)
  else
    let l := set_keytype (sshkey_type_from_name ktype) l in
    if (l_keytype l =? KEY_UNSPEC) && (n <? 8) && forallb isdigit ktype then mret (inl l)
    else
      c ← at_ (skip_blanks cp);
      let l := if (c =? 0) || (c =? 35) then set_keytype KEY_UNSPEC l else l in
      mret (if l_keytype l =? KEY_UNSPEC then inl l else inr l).

(** [line[strcspn(line, "\n")] = '\0'] *)
Fixpoint cut_line (m : list Z) : list Z :=
  match m with
  | [] => []
  | c :: m => if (c =? 10) || (c =? 0) then 0 :: m else c :: cut_line m
  end.

(** The part of a turn behind the host names, [cp2] pointing there. *)
Definition foreach_key (cp2 : list Z) (l : hostkey_foreach_line) (ctx : C) : io world (result unit * C) :=
  let cp2 := skip_blanks cp2 in
  c ← at_ cp2;
  if (c =? 0) || (c =? 35) then callback (set_bad l) ctx
  else
    let l := set_rawkey (cstr cp2) l in
    if has_option HKF_WANT_PARSE_KEY options then
      if negb (malloc_ok SIZEOF_SSHKEY) then mret (Err SSH_ERR_ALLOC_FAIL, ctx)
      else
        x ← hostfile_read_key cp2;
        match x with
        | None => callback (set_bad l) ctx
        | Some (key, cp) => callback (set_parsed key (cstr cp) l) ctx
        end
    else
      x ← check_keytype cp2 l;
      match x with inl l => callback (set_bad l) ctx | inr l => callback l ctx end.

(** One turn of the loop: an error ends it. *)
Definition foreach_line (linenum : Z) (line : list Z) (ctx : C) : io world (result unit * C) :=
  let mem := cut_line (line ++ [0]) in
  let l := mk_line path linenum HKF_STATUS_OK 0 (cstr mem) MRK_NONE None None KEY_UNSPEC None None in
  let cp := skip_blanks mem in
  c ← at_ cp;
  if (c =? 0) || (c =? 35) || (c =? 10) then
    if has_option HKF_WANT_MATCH options then mret (Ok tt, ctx) else callback (set_status HKF_STATUS_COMMENT l) ctx
  else
    m ← check_markers cp;
    let '(marker, cp) := m in
    let l := set_marker marker l in
    if bool_decide (marker = MRK_ERROR) then
      if has_option HKF_WANT_MATCH options then mret (Ok tt, ctx) else callback (set_bad l) ctx
    else
      let '(hosts, cp2) := word cp in
      _ ← at_ cp2;
      x ← match_names (set_hosts hosts l);
      match x with
      | inl l => callback (set_bad l) ctx
      | inr l =>
          if match host with Some _ => has_option HKF_WANT_MATCH options && negb (l_status l =? HKF_STATUS_MATCHED) | None => false end then mret (Ok tt, ctx)
          else foreach_key (zdrop 1 cp2) l ctx
      end.

Fixpoint foreach_lines (linenum : Z) (lines : list (list Z)) (ctx : C) : io world (result unit * C) :=
  match lines with
  | [] => mret (Ok tt, ctx)
  | line :: lines =>
      x ← foreach_line linenum line ctx;
      match x with
      | (Err r, ctx) => mret (Err r, ctx)
      | (Ok _, ctx) => foreach_lines (linenum + 1) lines ctx
      end
  end.

Definition hostkeys_foreach (ctx : C) : io world (result unit * C) :=
  if match host with None => has_option HKF_WANT_MATCH options | Some _ => false end then mret (Err SSH_ERR_INVALID_ARGUMENT, ctx)
  else
    f ← fopen_read path;
    match f with
    | None => mret (Err SSH_ERR_SYSTEM_ERROR, ctx)
    | Some data => foreach_lines 1 (getlines data) ctx
    end.
End foreach.

(** * The keys of a host *)

Record hostkey_entry := mk_entry { e_host : cstring; e_file : cstring; e_line : Z; e_key : hkey; e_marker : HostkeyMarker }.
Definition SIZEOF_HOSTKEY_ENTRY : Z := 40.

(** The entries are [struct hostkeys]. *)
Definition init_hostkeys : list hostkey_entry := [].

Definition record_hostkey (host : cstring) (l : hostkey_foreach_line) (hostkeys : list hostkey_entry) : io world (result unit * list hostkey_entry) :=
  if l_status l =? HKF_STATUS_INVALID then mret (Ok tt, hostkeys)
  else
    match l_key l with
    | None => segv
    | Some key =>
        if negb (malloc_ok ((zlen hostkeys + 1) * SIZEOF_HOSTKEY_ENTRY)) then mret (Err SSH_ERR_ALLOC_FAIL, hostkeys)
        else mret (Ok tt, hostkeys ++ [mk_entry host (l_path l) (l_linenum l) key (l_marker l)])
    end.

Definition load_hostkeys (host path : cstring) (hostkeys : list hostkey_entry) : io world (list hostkey_entry) :=
  x ← hostkeys_foreach (record_hostkey host) path (Some host) None (Z.lor HKF_WANT_MATCH HKF_WANT_PARSE_KEY) hostkeys;
  mret (snd x).

Definition is_cert (k : hkey) : bool := match signature_key k with Some _ => true | None => false end.
Definition equal_ca (k other : hkey) : bool := match signature_key k with Some ca => sshkey_equal_public ca other | None => false end.

(** Whether -1 is returned; nothing equals a null pointer. *)
Definition revoked_entry (k : hkey) (e : hostkey_entry) : bool :=
  bool_decide (e_marker e = MRK_REVOKE) && (sshkey_equal_public k (e_key e) || equal_ca k (e_key e)).
Definition check_key_not_revoked (hostkeys : list hostkey_entry) (k : option hkey) : bool :=
  match k with None => false | Some k => existsb (revoked_entry k) hostkeys end.

Definition hostkey_match (key found : hkey) : bool :=
  if sshkey_is_x509 key || sshkey_is_x509 found then sshkey_equal_public key found else sshkey_equal key found.

(** The loop: the status, the entry found and the key. *)
Fixpoint check_entries (entries : list hostkey_entry) (k : option hkey) (keytype subtype : Z) (end_return : HostStatus) (found : option hostkey_entry) :
    HostStatus * option hostkey_entry * option hkey :=
  match entries with
  | [] => (end_return, found, k)
  | e :: entries =>
      let want_cert := match k with Some k => is_cert k | None => false end in
      if negb (bool_decide (e_marker e = if want_cert then MRK_CA else MRK_NONE)) then check_entries entries k keytype subtype end_return found
      else
        match k with
        | None =>
            if negb (k_type (e_key e) =? keytype) then check_entries entries k keytype subtype end_return found
            else if negb (subtype =? -1) && negb (subtype =? k_nid (e_key e)) then check_entries entries k keytype subtype end_return found
            else (HOST_FOUND, Some e, Some (e_key e))
        | Some key =>
            if want_cert then
              if equal_ca key (e_key e) then (HOST_OK, Some e, k) else check_entries entries k keytype subtype end_return found
            else if hostkey_match key (e_key e) then (HOST_OK, Some e, k)
            else check_entries entries k keytype subtype HOST_CHANGED (Some e)
        end
  end.

Definition check_hostkeys_by_key_or_types (hostkeys : list hostkey_entry) (k : option hkey) (keytype subtype : Z) : HostStatus * option hostkey_entry :=
  let '(end_return, found, k) := check_entries hostkeys k keytype subtype HOST_NEW None in
  if check_key_not_revoked hostkeys k then (HOST_REVOKED, None) else (end_return, found).

Definition check_key_in_hostkeys (hostkeys : list hostkey_entry) (key : hkey) : HostStatus * option hostkey_entry :=
  check_hostkeys_by_key_or_types hostkeys (Some key) 0 (-1).
Definition lookup_key_in_hostkeys_by_types (hostkeys : list hostkey_entry) (keytype subtype : Z) : bool * option hostkey_entry :=
  let '(st, found) := check_hostkeys_by_key_or_types hostkeys None keytype subtype in
  (bool_decide (st = HOST_FOUND), found).

(** * Writing *)

(** [sshkey_write] of a key that is not an X.509 certificate: the text. *)
Definition sshkey_to_base64 (key : hkey) : result cstring :=
  match sshbuf_new with
  | None => Err SSH_ERR_ALLOC_FAIL
  | Some b =>
      match sshkey_putb key b with
      | (Err r, _) => Err r
      | (Ok _, b) => match sshbuf_dtob64_string b false with None => Err SSH_ERR_ALLOC_FAIL | Some uu => Ok uu end
      end
  end.
Definition sshkey_write (key : hkey) : result cstring :=
  match sshbuf_new with
  | None => Err SSH_ERR_ALLOC_FAIL
  | Some b =>
      uu ← sshkey_to_base64 key;
      match sshbuf_put (sshkey_ssh_name key ++ [32] ++ uu) b with
      | (Err r, _) => Err r
      | (Ok _, b) => Ok (default [] (sshbuf_ptr b))
      end
  end.

(** Whether it succeeded, and the text that was written. *)
Definition write_host_entry (host : cstring) (ip : option cstring) (key : hkey) (store_hash : bool) : io world (bool * cstring) :=
  let lhost := lowercase host in
  names ← (if store_hash then host_hash lhost None
           else mret (Some (match ip with Some ip => lhost ++ [ch_comma] ++ ip | None => lhost end)));
  match names with
  | None => mret (false, [])
  | Some names =>
      let written := if sshkey_is_x509 key then subject_text key else match sshkey_write key with Ok t => Some t | Err _ => None end in
      mret (match written with Some _ => true | None => false end, names ++ [32] ++ default [] written ++ [10])
  end.

(** [fopen] to append: the file exists then. *)
Definition fopen_append (p : cstring) : io world Z := sys_call (fun _ => 0) (fun fs => <[p := content p fs]> fs).

Definition add_host_to_hostfile (filename host : cstring) (key : option hkey) (store_hash : bool) : io world bool :=
  match key with
  | None => mret true
  | Some key =>
      e ← fopen_append filename;
      if negb (e =? 0) then mret false
      else
        x ← write_host_entry host None key store_hash;
        _ ← fclose_text filename (snd x);
        mret (fst x)
  end.

(** What is written to the new file, which keys it has already, and whether it
    differs from the old one. *)
Record host_delete_ctx := mk_delete { d_out : cstring; d_skip : list bool; d_modified : bool }.

Definition host_delete (keys : list hkey) (l : hostkey_foreach_line) (ctx : host_delete_ctx) : io world (result unit * host_delete_ctx) :=
  let keep skip := (Ok tt, mk_delete (d_out ctx ++ l_line l ++ [10]) skip (d_modified ctx)) in
  if l_status l =? HKF_STATUS_MATCHED then
    if negb (bool_decide (l_marker l = MRK_NONE)) then mret (keep (d_skip ctx))
    else
      match l_key l with
      | None => segv
      | Some k =>
          match list_find (fun key => sshkey_equal key k = true) keys with
          | Some (i, _) => mret (keep (<[i := true]> (d_skip ctx)))
          | None => mret (Ok tt, mk_delete (d_out ctx) (d_skip ctx) true)
          end
      end
  else mret (keep (d_skip ctx)).

Fixpoint add_keys (host : cstring) (ip : option cstring) (store_hash : bool) (keys : list hkey) (skip : list bool) (ctx : host_delete_ctx) : io world (result unit * host_delete_ctx) :=
  match keys, skip with
  | key :: keys, s :: skip =>
      if s : bool then add_keys host ip store_hash keys skip ctx
      else if negb (printable key) then mret (Err SSH_ERR_ALLOC_FAIL, ctx)
      else
        x ← write_host_entry host ip key store_hash;
        let ctx := mk_delete (d_out ctx ++ snd x) (d_skip ctx) (d_modified ctx) in
        if negb (fst x) then mret (Err SSH_ERR_INTERNAL_ERROR, ctx)
        else add_keys host ip store_hash keys skip (mk_delete (d_out ctx) (d_skip ctx) true)
  | _, _ => mret (Ok tt, ctx)
  end.

(** mkstemp(3): the name of a new file, or the error. *)
Definition mkstemp (template : cstring) : io world (Z + cstring) :=
  e ← next_fault;
  if negb (e =? 0) then mret (inl e)
  else
    name ← reads (fun w => temp_name template (files w));
    _ ← set_files (fun fs => <[name := []]> fs);
    mret (inr name).

Definition temp_template (filename : cstring) : cstring := filename ++ str ".XXXXXXXXXX".
Definition backup_name (filename : cstring) : cstring := filename ++ str ".old".

(** The new file takes the place of the old one. *)
Definition install (filename back temp : cstring) : io world (result unit) :=
  e ← sys_unlink back;
  if negb (e =? 0) && negb (e =? ENOENT) then mret (Err SSH_ERR_SYSTEM_ERROR)
  else
    e ← xrename filename back;
    if negb (e =? 0) then mret (Err SSH_ERR_SYSTEM_ERROR)
    else
      e ← sys_rename temp filename;
      mret (if negb (e =? 0) then Err SSH_ERR_SYSTEM_ERROR else Ok tt).

(** The part between [mkstemp] and [fail]: the file [temp] is open. *)
Definition replace_body (filename temp host : cstring) (ip : option cstring) (keys : list hkey) (store_hash : bool) : io world (result unit) :=
  e ← next_fault;
  if negb (e =? 0) then mret (Err SSH_ERR_SYSTEM_ERROR)
  else
    x ← hostkeys_foreach (host_delete keys) filename (Some host) ip HKF_WANT_PARSE_KEY (mk_delete [] (replicate (length keys) false) false);
    match x with
    | (Err r, _) => mret (Err r)
    | (Ok _, ctx) =>
        x ← add_keys host ip store_hash keys (d_skip ctx) ctx;
        match x with
        | (Err r, _) => mret (Err r)
        | (Ok _, ctx) =>
            _ ← fclose_text temp (d_out ctx);
            if d_modified ctx then install filename (backup_name filename) temp
            else _ ← sys_unlink temp; mret (Ok tt)
        end
    end.

Definition hostfile_replace_entries (filename host : cstring) (ip : option cstring) (keys : list hkey) (store_hash : bool) : io world (result unit) :=
  if negb (malloc_ok (zlen keys * 4)) then mret (Err SSH_ERR_ALLOC_FAIL)
  else if negb (malloc_ok (zlen (temp_template filename) + 1)) then mret (Err SSH_ERR_ALLOC_FAIL)
  else if negb (malloc_ok (zlen (backup_name filename) + 1)) then
    _ ← sys_unlink (temp_template filename); mret (Err SSH_ERR_ALLOC_FAIL)
  else
    t ← mkstemp (temp_template filename);
    match t with
    | inl _ => _ ← sys_unlink (temp_template filename); mret (Err SSH_ERR_SYSTEM_ERROR)
    | inr temp =>
        r ← replace_body filename temp host ip keys store_hash;
        match r with
        | Ok _ => mret (Ok tt)
        | Err r => _ ← sys_unlink temp; mret (Err r)
        end
    end.
End hostfile.
