(* ===== verification/HostfileLaws.v ===== *)
(** Known hosts: hashed names, and what the check of a key answers. *)

From Stdlib Require Import String.
From S2P Require Import Prelude Io Sshbuf SshbufGetPut SshbufRead Match AddrMatch AlgNames Digest Base64 Hostfile.
Local Open Scope Z_scope.

Section laws.
Context `{Allocator} `{EvpDigest} `{KnownKeys} `{HostEnv} `{!ReliableAllocator _} `{!EvpDigestLaws _}.

(** * Hashed names *)

Lemma sha1_ok : 0 <= SSH_DIGEST_SHA1 < SSH_DIGEST_MAX.
Proof. done. Qed.

(** The HMAC of a name, if OpenSSL computes it. *)
Definition host_tag (salt host : list Z) : option (list Z) := hmac_spec SSH_DIGEST_SHA1 salt host.

Lemma host_tag_ok salt host tag : host_tag salt host = Some tag -> zlen tag = 20 /\ bytes_ok tag.
Proof.
  unfold host_tag, hmac_spec. destruct (key_block SSH_DIGEST_SHA1 salt) as [k|]; cbn [mbind option_bind]; [|done]. destruct (evp_md SSH_DIGEST_SHA1 (xor_buf 0x36 k ++ host)) as [inner|]; cbn; [|done].
  intros E. split; [exact (evp_md_len _ _ _ E)|exact (evp_md_bytes _ _ _ E)].
Qed.

Lemma hmac_host_run salt host w : hmac_host salt host w = match host_tag salt host with Some tag => (Ret tag, w) | None => (Exit 255, w) end.
Proof.
  unfold hmac_host, host_tag. destruct (ssh_hmac_start SSH_DIGEST_SHA1) as [c|] eqn:Ec; [|by rewrite hmac_start_ok in Ec by apply sha1_ok]. rewrite (hmac_init_key _ salt c sha1_ok Ec). unfold hmac_spec.
  destruct (key_block SSH_DIGEST_SHA1 salt) as [k|] eqn:Ek; [|done]. pose proof (evp_block SSH_DIGEST_SHA1 sha1_ok) as Hb.
  assert (0 <= evp_block_size SSH_DIGEST_SHA1) as Hb0 by (change (ssh_digest_bytes SSH_DIGEST_SHA1) with 20 in Hb; lia).
  destruct (hmac_message_ok SSH_DIGEST_SHA1 salt (keyed_ctx SSH_DIGEST_SHA1 k) [host] 256 sha1_ok (keyed_ctx_ok _ _ _ Hb0 Ek) ltac:(done)) as (ctx' & _ & E).
  unfold hmac_message in E. cbn [concat] in E. rewrite app_nil_r in E. unfold hmac_spec in E. rewrite Ek in E.
  change (ssh_hmac_init (keyed_ctx SSH_DIGEST_SHA1 k) None) with (Ok (keyed_ctx SSH_DIGEST_SHA1 k)) in E. cbn [fold_left] in E. rewrite E. by destruct (k ← Some k; _).
Qed.

(** The name as it is stored. *)
Definition hashed_form (salt tag : list Z) : cstring := HASH_MAGIC ++ base64 salt ++ HASH_DELIM :: base64 tag.

Lemma base64_no_delim d : bytes_ok d -> memchr HASH_DELIM (base64 d) = None.
Proof.
  intros Hb. pose proof (base64_alphabet d Hb) as Ha. induction Ha as [|c l Hc _ IH]; [done|]. cbn [memchr]. destruct (Z.eqb_spec c HASH_DELIM) as [->|]; [|by rewrite IH].
  assert (~ HASH_DELIM ∈ Pad64 :: Base64) as Hn by compute_dec. done.
Qed.

Lemma memchr_app c l r : memchr c l = None -> memchr c (l ++ c :: r) = Some (zlen l).
Proof.
  induction l as [|x l IH]; intros E; cbn in *; [by rewrite Z.eqb_refl|]. destruct (Z.eqb_spec x c); [done|]. destruct (memchr c l); [done|]. rewrite IH by done. cbn. rewrite zlen_cons. f_equal. lia.
Qed.

Lemma extract_salt_form salt rest : bytes_ok salt -> zlen salt = 20 -> exists t, extract_salt (HASH_MAGIC ++ base64 salt ++ HASH_DELIM :: rest) = Some t /\ ztake 20 t = salt.
Proof.
  intros Hb Hz. unfold extract_salt. assert (zlen (base64 salt) = 28) as Hl by (by rewrite zlen_base64, Hz). rewrite !zlen_app, !zlen_cons. pose proof (zlen_nonneg rest). change (zlen HASH_MAGIC) with 3. rewrite (proj2 (Z.ltb_ge _ _)) by lia.
  rewrite ztake_app_exact, bool_decide_eq_true_2, zdrop_app_exact by done. cbn [negb]. rewrite memchr_app, Hl by by apply base64_no_delim. cbn [Z.eqb orb Z.gtb Z.compare Pos.compare Pos.compare_cont].
  rewrite ztake_app_exact by done. destruct (b64_pton_complete (base64 salt) (zrepeat 256) salt Hb (base64_dense _ Hb)) as (t & -> & Ht); [by rewrite Hz|]. rewrite Hz in *. change (ssh_hmac_bytes SSH_DIGEST_SHA1) with 20. cbn. by exists t.
Qed.

Lemma extract_salt_ok names t : extract_salt names = Some t -> bytes_ok (ztake 20 t) /\ zlen (ztake 20 t) = 20.
Proof.
  unfold extract_salt. destruct (_ <? _); [done|]. destruct (negb _); [done|]. destruct (memchr _ _) as [n|]; [|done]. destruct (_ || _); [done|]. destruct (b64_pton _ _) as [[ret salt]|] eqn:E; [|done].
  change (ssh_hmac_bytes SSH_DIGEST_SHA1) with 20. destruct (Z.eqb_spec ret 20) as [->|]; [|done]. intros [= ->]. destruct (b64_pton_sound _ _ _ _ E) as (d & Hd & Hz & _ & -> & _). done.
Qed.

Lemma hash_with_salt salt tag : bytes_ok salt -> zlen salt = 20 -> zlen tag = 20 ->
  match b64_ntop salt 512, b64_ntop (ztake 20 tag) 512 with
  | Some uu_salt, Some uu_result => ztake 1023 (HASH_MAGIC ++ uu_salt ++ [HASH_DELIM] ++ uu_result) = hashed_form salt tag
  | _, _ => False
  end.
Proof.
  intros Hb Hz Ht. rewrite !b64_ntop_spec, (ztake_ge 20 tag) by lia. rewrite !zlen_base64, Hz, Ht. change ((20 + 2) / 3 * 4 <? 512) with true. cbv iota. change (hashed_form salt tag) with (HASH_MAGIC ++ base64 salt ++ [HASH_DELIM] ++ base64 tag). apply ztake_ge. rewrite !zlen_app, !zlen_base64, Hz, Ht. done.
Qed.

(** A new hash, and the test of a stored one. *)
Lemma host_hash_new host w salt tag :
  arc4random_buf (drawn w) 20 = salt -> bytes_ok salt -> zlen salt = 20 -> host_tag salt host = Some tag ->
  host_hash host None w = (Ret (Some (hashed_form salt tag)), mk_world (files w) (faults w) (S (drawn w))).
Proof.
  intros <- Hb Hz Ht. unfold host_hash. change (ssh_digest_bytes SSH_DIGEST_SHA1) with 20. unfold mbind, io_bind, new_salt. cbn [mret io_ret]. rewrite ztake_ge, hmac_host_run, Ht by lia.
  pose proof (hash_with_salt _ tag Hb Hz (proj1 (host_tag_ok _ _ _ Ht))) as Hf. destruct (b64_ntop _ _); [|done]. destruct (b64_ntop _ _); [|done]. by rewrite Hf.
Qed.

Lemma match_hashed_run host names w :
  (exists rest, names = HASH_DELIM :: rest) ->
  match_maybe_hashed host names w =
    match extract_salt names with
    | None => (Ret (None, true), w)
    | Some t => match host_tag (ztake 20 t) host with Some tag => (Ret (Some (bool_decide (hashed_form (ztake 20 t) tag = names)), true), w) | None => (Exit 255, w) end
    end.
Proof.
  intros [rest ->]. unfold match_maybe_hashed, host_hash. rewrite Z.eqb_refl. generalize (HASH_DELIM :: rest). intros names. change (ssh_digest_bytes SSH_DIGEST_SHA1) with 20. unfold mbind, io_bind at 1 2. cbn [mret io_ret].
  destruct (extract_salt names) as [t|] eqn:Et; [|done]. destruct (extract_salt_ok _ _ Et) as [Hb Hz]. unfold io_bind. rewrite hmac_host_run. destruct (host_tag (ztake 20 t) host) as [tag|] eqn:Ht; [|done].
  pose proof (hash_with_salt _ tag Hb Hz (proj1 (host_tag_ok _ _ _ Ht))) as Hf. destruct (b64_ntop (ztake 20 t) 512); [|done]. destruct (b64_ntop (ztake 20 tag) 512); [|done]. by rewrite Hf.
Qed.

(** A name that is matched by its hash. *)
Definition hash_of (host names : cstring) : Prop := exists salt tag, bytes_ok salt /\ zlen salt = 20 /\ host_tag salt host = Some tag /\ names = hashed_form salt tag.

Lemma match_hash_of host names w : hash_of host names -> match_maybe_hashed host names w = (Ret (Some true, true), w).
Proof.
  intros (salt & tag & Hb & Hz & Ht & ->). rewrite match_hashed_run by by eexists. unfold hashed_form at 1. destruct (extract_salt_form salt (base64 tag) Hb Hz) as (t & -> & ->). by rewrite Ht, bool_decide_eq_true_2.
Qed.

Lemma match_hashed_exact host names w :
  (forall salt, is_Some (host_tag salt host)) -> (exists rest, names = HASH_DELIM :: rest) ->
  exists r, match_maybe_hashed host names w = (Ret (r, true), w) /\ (r = Some true <-> hash_of host names).
Proof.
  intros Hd Hn. destruct (extract_salt names) as [t|] eqn:Et.
  - destruct (Hd (ztake 20 t)) as [tag Ht]. eexists. split; [by rewrite match_hashed_run, Et, Ht|]. destruct (extract_salt_ok _ _ Et) as [Hb Hz]. split.
    + intros E. injection E as E. apply bool_decide_eq_true_1 in E. by exists (ztake 20 t), tag.
    + intros Hh. pose proof (match_hash_of host names w Hh) as E. rewrite match_hashed_run, Et, Ht in E by done. by injection E as ->.
  - eexists. split; [by rewrite match_hashed_run, Et|]. split; [done|]. intros Hh. pose proof (match_hash_of host names w Hh) as E. by rewrite match_hashed_run, Et in E by done.
Qed.

(** C19: A hashed name in a known hosts file matches a host exactly when it is, in
    full, the encoding of a salt of 20 bytes and of the HMAC of the host under that
    salt; the name that is written for a host with a fresh salt matches it. *)
Theorem hashed_name_exact host names w :
  (forall salt, is_Some (host_tag salt host)) -> (exists rest, names = HASH_DELIM :: rest) ->
  (exists r, match_maybe_hashed host names w = (Ret (r, true), w) /\
    (r = Some true <-> exists salt tag, bytes_ok salt /\ zlen salt = 20 /\ host_tag salt host = Some tag /\ names = hashed_form salt tag)) /\
  (let salt := arc4random_buf (drawn w) 20 in
   bytes_ok salt -> zlen salt = 20 ->
   exists h w', host_hash host None w = (Ret (Some h), w') /\ files w' = files w /\ match_maybe_hashed host h w' = (Ret (Some true, true), w')).
Proof.
  intros Hd Hn. split; [by apply match_hashed_exact|]. cbn zeta. intros Hb Hz. destruct (Hd (arc4random_buf (drawn w) 20)) as [tag Ht]. eexists _, _. split; [by apply host_hash_new|].
  split; [done|]. apply match_hash_of. by eexists _, tag.
Qed.

End laws.

(** * The check of a key *)

Section check.
Context `{KnownKeys}.

(** The entries that count for a key, and those that vouch for it. *)
Definition counts (key : hkey) (e : hostkey_entry) : Prop := e_marker e = if is_cert key then MRK_CA else MRK_NONE.
Definition vouches (key : hkey) (e : hostkey_entry) : Prop := counts key e /\ (if is_cert key then equal_ca key (e_key e) else hostkey_match key (e_key e)) = true.

(** What the status of a key says about the entries. *)
Definition status_meaning (entries : list hostkey_entry) (key : hkey) (st : HostStatus) (found : option hostkey_entry) : Prop :=
  match st with
  | HOST_REVOKED => found = None /\ exists e, e ∈ entries /\ revoked_entry key e = true
  | HOST_OK => (forall e, e ∈ entries -> revoked_entry key e = false) /\ exists e, found = Some e /\ e ∈ entries /\ vouches key e
  | HOST_CHANGED => (forall e, e ∈ entries -> revoked_entry key e = false /\ ~ vouches key e) /\ is_cert key = false /\ exists e, found = Some e /\ e ∈ entries /\ counts key e
  | HOST_NEW => (forall e, e ∈ entries -> revoked_entry key e = false /\ ~ vouches key e) /\ found = None /\ (is_cert key = false -> forall e, e ∈ entries -> ~ counts key e)
  | HOST_FOUND => False
  end.

(** The loop, where [seen] was passed. *)
Lemma check_entries_meaning entries key keytype subtype seen st found :
  (forall e, e ∈ seen -> ~ vouches key e) ->
  (st = HOST_NEW /\ found = None /\ (is_cert key = false -> forall e, e ∈ seen -> ~ counts key e) \/ st = HOST_CHANGED /\ is_cert key = false /\ exists e, found = Some e /\ e ∈ seen /\ counts key e) ->
  exists st' found', check_entries entries (Some key) keytype subtype st found = (st', found', Some key) /\
    ((st' = HOST_OK /\ exists e, found' = Some e /\ e ∈ seen ++ entries /\ vouches key e) \/
     ((forall e, e ∈ seen ++ entries -> ~ vouches key e) /\
       (st' = HOST_NEW /\ found' = None /\ (is_cert key = false -> forall e, e ∈ seen ++ entries -> ~ counts key e) \/ st' = HOST_CHANGED /\ is_cert key = false /\ exists e, found' = Some e /\ e ∈ seen ++ entries /\ counts key e))).
Proof.
  revert seen st found. induction entries as [|e entries IH]; intros seen st found Hv Hst; cbn [check_entries].
  - exists st, found. rewrite app_nil_r. split; [done|]. right. done.
  - rewrite (cons_middle e), app_assoc. case_bool_decide as Hm; cbn [negb].
    + destruct (is_cert key) eqn:Ec.
      * destruct (equal_ca key (e_key e)) eqn:Ev.
        { exists HOST_OK, (Some e). split; [done|]. left. split; [done|]. exists e. split_and!; [done|set_solver|]. unfold vouches, counts. by rewrite Ec. }
        apply IH; [|destruct Hst as [(-> & -> & _)|(_ & [=] & _)]; left; done].
        intros x [Hx|Hx%list_elem_of_singleton]%elem_of_app; [by apply Hv|]. subst x. unfold vouches. rewrite Ec. intros [_ ?]. congruence.
      * destruct (hostkey_match key (e_key e)) eqn:Ev.
        { exists HOST_OK, (Some e). split; [done|]. left. split; [done|]. exists e. split_and!; [done|set_solver|]. unfold vouches, counts. by rewrite Ec. }
        apply IH; [|right; split_and!; [done..|]; exists e; split_and!; [done|set_solver|unfold counts; by rewrite Ec]].
        intros x [Hx|Hx%list_elem_of_singleton]%elem_of_app; [by apply Hv|]. subst x. unfold vouches. rewrite Ec. intros [_ ?]. congruence.
    + apply IH.
      * intros x [Hx|Hx%list_elem_of_singleton]%elem_of_app; [by apply Hv|]. subst x. by intros [? _].
      * destruct Hst as [(-> & -> & Hc)|(-> & Hc & x & -> & Hx & Hcx)]; [left|right].
        { split_and!; [done..|]. intros Hk x [Hx|Hx%list_elem_of_singleton]%elem_of_app; [by apply Hc|]. by subst x. }
        { split_and!; [done..|]. exists x. split_and!; [done|set_solver|done]. }
Qed.

Lemma check_key_meaning hostkeys key : let '(st, found) := check_key_in_hostkeys hostkeys key in status_meaning hostkeys key st found.
Proof.
  unfold check_key_in_hostkeys, check_hostkeys_by_key_or_types. destruct (check_entries_meaning hostkeys key 0 (-1) [] HOST_NEW None) as (st & found & -> & Hr).
  { intros e He. set_solver. }
  { left. split_and!; [done..|]. intros _ e He. set_solver. }
  cbn [app check_key_not_revoked] in *. destruct (existsb (revoked_entry key) hostkeys) eqn:Ex.
  - split; [done|]. apply existsb_exists in Ex as (e & He & Hx). exists e. by rewrite list_elem_of_In.
  - assert (forall e, e ∈ hostkeys -> revoked_entry key e = false) as Hn.
    { intros e He. destruct (revoked_entry key e) eqn:E; [|done]. rewrite <- Ex. symmetry. apply existsb_exists. exists e. by rewrite <- list_elem_of_In. }
    destruct Hr as [(-> & Hr)|(Hv & [(-> & -> & Hc)|(-> & Hc & Hf)])]; [done| |].
    + split_and!; [|done..]. intros e He. split; [by apply Hn|by apply Hv].
    + split_and!; [|done..]. intros e He. split; [by apply Hn|by apply Hv].
Qed.
End check.
