(* ===== verification/HostfileLines.v ===== *)
(** Known hosts: what a line means.

    [line_entry] says which lines of a file give a key to a host, as the manual of
    sshd describes the format; [load_hostkeys] finds exactly these. *)

From Stdlib Require Import String.
From S2P Require Import Prelude Io Sshbuf SshbufGetPut SshbufRead Match AddrMatch AlgNames Digest Base64 Hostfile HostfileLaws.
Local Open Scope Z_scope.

(** * Words *)

Definition blanks (b : cstring) : Prop := Forall (fun c => is_blank c = true) b.
Definition unblank (x : cstring) : Prop := Forall (fun c => ends_word c = false) x.
Definition blank_head (t : cstring) : Prop := match t with c :: _ => is_blank c = true | [] => True end.
Definition word_head (t : cstring) : Prop := match t with c :: _ => is_blank c = false | [] => True end.

(** The memory of a line that getline(3) read: its text, the nul in place of the
    newline and the one behind it. *)
Definition nuls : list Z := [0; 0].

Lemma cut_line_text t : Forall (fun c => c <> 0 /\ c <> 10) t -> cut_line ((t ++ [10]) ++ [0]) = t ++ nuls.
Proof. induction 1 as [|c t [H0 H1] _ IH]; [done|]. cbn. rewrite (proj2 (Z.eqb_neq c 10)), (proj2 (Z.eqb_neq c 0)) by done. cbn. by rewrite <- IH. Qed.

Lemma cstr_text t z : no_nul t -> cstr (t ++ 0 :: z) = t.
Proof. induction 1 as [|c t Hc _ IH]; [done|]. cbn. rewrite (proj2 (Z.eqb_neq _ _)) by done. by rewrite IH. Qed.

Lemma skip_blanks_run b t z : blanks b -> word_head t -> skip_blanks (b ++ t ++ 0 :: z) = t ++ 0 :: z.
Proof. intros Hb Ht. induction Hb as [|c b Hc _ IH]; [|cbn; by rewrite Hc]. destruct t as [|c t]; [done|]. cbn in *. by rewrite Ht. Qed.

Lemma word_run x t z : unblank x -> blank_head t -> word (x ++ t ++ 0 :: z) = (x, t ++ 0 :: z).
Proof.
  intros Hx Ht. induction Hx as [|c x Hc _ IH]; [|cbn in *; by rewrite Hc, IH]. destruct t as [|c t]; [done|]. cbn in *. unfold ends_word. by rewrite Ht, orb_true_r.
Qed.

(** Every text is blanks and the rest, or a word and the rest. *)
Lemma blanks_split t : exists b t', t = b ++ t' /\ blanks b /\ word_head t'.
Proof.
  induction t as [|c t (b & t' & -> & Hb & Ht)]; [by exists [], []; repeat constructor|]. destruct (is_blank c) eqn:E; [exists (c :: b), t'; repeat split; [by constructor|done]|]. exists [], (c :: b ++ t'). repeat split; [constructor|done].
Qed.
Lemma word_split t : no_nul t -> exists x t', t = x ++ t' /\ unblank x /\ blank_head t'.
Proof.
  induction 1 as [|c t Hc _ (x & t' & -> & Hx & Ht)]; [by exists [], []; repeat constructor|]. destruct (is_blank c) eqn:E; [exists [], (c :: x ++ t'); repeat split; [constructor|done]|].
  exists (c :: x), t'. repeat split; [|done]. constructor; [|done]. unfold ends_word. by rewrite E, (proj2 (Z.eqb_neq _ _)).
Qed.

Lemma no_nul_app a b : no_nul (a ++ b) <-> no_nul a /\ no_nul b.
Proof. apply Forall_app. Qed.

Section lines.
Context `{Allocator} `{EvpDigest} `{KnownKeys} `{HostEnv} `{!ReliableAllocator _} `{!EvpDigestLaws _}.

(** * Keys *)

(** A text that is read as a key: the name of an algorithm, the key in base64 and
    perhaps a comment. *)
Definition reads_as (t : cstring) (k : hkey) : Prop :=
  exists name gap b64 comment type nid k0,
    t = name ++ gap ++ b64 ++ comment /\ unblank name /\ 1 <= zlen name < 64 /\ blanks gap /\ gap <> [] /\ unblank b64 /\ b64 <> [] /\ blank_head comment /\
    sshkey_types_from_name name = (type, nid) /\ type <> KEY_UNSPEC /\ blob_key type nid b64 = Ok k0 /\ fill_key type k0 = Ok k /\ (0 < sshkey_size k \/ sshkey_is_x509 k = true).

(** No part of the text is read as a key with a distinguished name. *)
Definition subject_free (t : cstring) : Prop := forall a name gap tail, t = a ++ name ++ gap ++ tail -> X509key_from_subject name tail = None.

Lemma subject_free_app a b : subject_free (a ++ b) -> subject_free b.
Proof. intros Hf a' name gap tail ->. apply (Hf (a ++ a') name gap). by rewrite <- app_assoc. Qed.

Lemma skip_nuls t : exists c cp, skip_blanks (t ++ nuls) = c :: cp.
Proof. destruct (blanks_split t) as (b & t' & -> & Hb & Ht). rewrite <- app_assoc. unfold nuls. rewrite skip_blanks_run by done. destruct t'; eauto. Qed.

Lemma skip_blanks_twice m : skip_blanks (skip_blanks m) = skip_blanks m.
Proof. induction m as [|c m IH]; [done|]. cbn. destruct (is_blank c) eqn:E; [done|]. cbn. by rewrite E. Qed.

Lemma read_filled_run type k comment w :
  read_filled type k (comment ++ nuls) w = match fill_key type k with Err r => (Ret (Err r), w) | Ok ret => (Ret (Ok (ret, skip_blanks (comment ++ nuls))), w) end.
Proof. unfold read_filled. destruct (skip_nuls comment) as (c & cp & ->). unfold mbind, io_bind. cbn. by destruct (fill_key type k). Qed.

(** The words of a key. *)
Lemma sshkey_read_words name gap b64 comment type nid w :
  unblank name -> 1 <= zlen name < 64 -> blanks gap -> gap <> [] -> unblank b64 -> b64 <> [] -> blank_head comment -> no_nul (name ++ gap ++ b64 ++ comment) ->
  X509key_from_subject name (b64 ++ comment) = None -> sshkey_types_from_name name = (type, nid) -> type <> KEY_UNSPEC ->
  sshkey_read ((name ++ gap ++ b64 ++ comment) ++ nuls) w =
    match blob_key type nid b64 with
    | Err r => (Ret (Err r), w)
    | Ok k0 => match fill_key type k0 with Err r => (Ret (Err r), w) | Ok k => (Ret (Ok (k, skip_blanks (comment ++ nuls))), w) end
    end.
Proof.
  intros Hn Hz Hg Hg0 Hb Hb0 Hc Hnul Hx Ht Hu. unfold sshkey_read. unfold nuls at 1 2. rewrite cstr_text by done. rewrite <- !app_assoc. rewrite !no_nul_app in Hnul. destruct Hnul as (_ & _ & Hnb & Hnc).
  destruct gap as [|g gap]; [done|].
  replace (name ++ (g :: gap) ++ b64 ++ comment ++ [0; 0]) with (name ++ ((g :: gap) ++ b64 ++ comment) ++ [0; 0]) by by rewrite <- !app_assoc. rewrite word_run by (try done; apply Forall_cons in Hg; apply Hg).
  rewrite !zlen_app, zlen_cons. pose proof (zlen_nonneg gap). pose proof (zlen_nonneg b64). pose proof (zlen_nonneg comment). rewrite (proj2 (Z.eqb_neq _ _)) by lia. rewrite Z.geb_leb, (proj2 (Z.ltb_ge _ _)), (proj2 (Z.leb_gt _ _)) by lia. cbn [orb].
  rewrite Ht, (proj2 (Z.eqb_neq _ _)) by done. destruct b64 as [|b b64]; [done|]. apply Forall_cons in Hb as [Hbh Hb]. assert (is_blank b = false) as Hbb by (by apply orb_false_iff in Hbh as [_ ?]).
  replace (((g :: gap) ++ (b :: b64) ++ comment) ++ [0; 0]) with ((g :: gap) ++ ((b :: b64) ++ comment) ++ [0; 0]) by by rewrite <- !app_assoc. rewrite skip_blanks_run by done.
  unfold mbind, io_bind. cbn [at_ app mret io_ret]. apply Forall_cons in Hnb as [Hb0' Hnb]. rewrite (proj2 (Z.eqb_neq _ _)) by done.
  change (b :: (b64 ++ comment) ++ [0; 0]) with ((b :: b64 ++ comment) ++ [0; 0]). rewrite (cstr_text (b :: b64 ++ comment) [0]) by (constructor; [done|by apply no_nul_app]). cbn [app] in Hx. rewrite Hx.
  replace ((b :: b64 ++ comment) ++ [0; 0]) with ((b :: b64) ++ comment ++ [0; 0]) by by rewrite app_assoc. rewrite word_run by (try done; by constructor).
  destruct (blob_key type nid (b :: b64)) as [k0|]; [|done]. apply (read_filled_run type k0 comment w).
Qed.

Lemma read_key_complete t k w : reads_as t k -> no_nul t -> subject_free t -> exists cp, hostfile_read_key (t ++ nuls) w = (Ret (Some (k, cp)), w).
Proof.
  intros (name & gap & b64 & comment & type & nid & k0 & -> & Hn & Hz & Hg & Hg0 & Hb & Hb0 & Hc & Ht & Hu & Hbk & Hf & Hs) Hnul Hx. unfold hostfile_read_key.
  assert (skip_blanks ((name ++ gap ++ b64 ++ comment) ++ nuls) = (name ++ gap ++ b64 ++ comment) ++ nuls) as ->.
  { destruct name as [|c name]; [unfold zlen in Hz; cbn in Hz; lia|]. apply Forall_cons in Hn as [Hn _]. unfold ends_word in Hn. apply orb_false_iff in Hn as [_ Hn]. cbn. by rewrite Hn. }
  unfold mbind, io_bind. rewrite (sshkey_read_words name gap b64 comment type nid) by (try done; by apply (Hx [] name gap)). rewrite Hbk, Hf. destruct (skip_nuls comment) as (c & cp & E).
  rewrite skip_blanks_twice.
  rewrite E. cbn. exists (c :: cp). destruct (Z.leb_spec (sshkey_size k) 0); [|done]. destruct Hs as [?| ->]; [lia|done].
Qed.

(** Any text is read without an error of memory. *)
Lemma sshkey_read_total t w : no_nul t -> subject_free t ->
  (exists r, sshkey_read (t ++ nuls) w = (Ret (Err r), w)) \/
  (exists name gap b64 comment type nid, t = name ++ gap ++ b64 ++ comment /\ unblank name /\ 1 <= zlen name < 64 /\ blanks gap /\ gap <> [] /\ unblank b64 /\ b64 <> [] /\ blank_head comment /\
    sshkey_types_from_name name = (type, nid) /\ type <> KEY_UNSPEC).
Proof.
  intros Hn Hx. destruct (word_split t Hn) as (name & t1 & -> & Hname & Hd1). destruct (blanks_split t1) as (gap & t2 & -> & Hgap & Hd2). rewrite !no_nul_app in Hn. destruct Hn as (Hn0 & Hn1 & Hn2).
  destruct (word_split t2 Hn2) as (b64 & comment & -> & Hb & Hc). pose proof (zlen_nonneg gap). pose proof (zlen_nonneg (b64 ++ comment)).
  unfold sshkey_read, nuls. rewrite cstr_text by by rewrite !no_nul_app in *. rewrite <- app_assoc, (word_run name (gap ++ b64 ++ comment)) by done. rewrite !zlen_app.
  destruct (Z.eqb_spec (zlen name) (zlen name + (zlen gap + (zlen b64 + zlen comment)))) as [|Hne]; [left; by eexists|]. destruct (Z.ltb_spec (zlen name) 1); [left; by eexists|]. rewrite Z.geb_leb. destruct (Z.leb_spec 64 (zlen name)); [left; by eexists|]. cbn [orb].
  destruct (sshkey_types_from_name name) as [type nid] eqn:Et. destruct (Z.eqb_spec type KEY_UNSPEC); [left; by eexists|]. rewrite <- app_assoc, skip_blanks_run by done.
  assert (gap <> []) as Hg0 by (intros ->; cbn [app] in *; destruct (b64 ++ comment) as [|c l] eqn:E; [apply app_nil in E as [-> ->]; apply Hne; change (zlen (@nil Z)) with 0; lia|]; cbn in Hd1, Hd2; congruence).
  destruct b64 as [|b b64].
  - assert (comment = []) as -> by (destruct comment as [|c l]; [done|]; cbn in Hc, Hd2; congruence). left. by eexists.
  - right. exists name, gap, (b :: b64), comment, type, nid. done.
Qed.

Lemma read_key_total t w : no_nul t -> subject_free t -> word_head t ->
  exists x, hostfile_read_key (t ++ nuls) w = (Ret x, w) /\ forall k cp, x = Some (k, cp) -> reads_as t k.
Proof.
  intros Hn Hx Hw. unfold hostfile_read_key. assert (skip_blanks (t ++ nuls) = t ++ nuls) as -> by exact (skip_blanks_run [] t [0] (List.Forall_nil _) Hw). unfold mbind, io_bind.
  destruct (sshkey_read_total t w Hn Hx) as [(r & ->)|(name & gap & b64 & comment & type & nid & -> & Hname & Hz & Hg & Hg0 & Hb & Hb0 & Hc & Ht & Hu)]; [by exists None|].
  rewrite (sshkey_read_words name gap b64 comment type nid) by (try done; by apply (Hx [] name gap)). destruct (blob_key type nid b64) as [k0|] eqn:Hbk; [|by exists None]. destruct (fill_key type k0) as [k|] eqn:Hf; [|by exists None].
  destruct (skip_nuls comment) as (c & cp & E).
  rewrite skip_blanks_twice.
  rewrite E. cbn. destruct (Z.leb_spec (sshkey_size k) 0) as [|Hs]; [destruct (sshkey_is_x509 k) eqn:Ex; [|by exists None]|]; (eexists; split; [done|]; intros k' cp' [= <- <-]; exists name, gap, b64, comment, type, nid, k0; split_and!; try (done || lia); first [by left|by right]).
Qed.

(** * Markers *)

Definition marker_text (mk : HostkeyMarker) : option cstring := match mk with MRK_CA => Some CA_MARKER | MRK_REVOKE => Some REVOKE_MARKER | _ => None end.
Definition no_at (t : cstring) : Prop := match t with c :: _ => c <> ch_at | [] => True end.

(** A line with its marker, which white space ends, and the line behind the marker. *)
Inductive marked : HostkeyMarker -> cstring -> cstring -> Prop :=
  | marked_none t : no_at t -> marked MRK_NONE t t
  | marked_some mk m c b tail :
      marker_text mk = Some m -> is_blank c = true -> blanks b -> word_head tail -> no_at tail ->
      marked mk (m ++ c :: b ++ tail) tail.

(** The code looks for a space first: a tab ends a marker for it only if no space
    follows in the line. *)
Definition spaced (t : cstring) : Prop :=
  forall lead mk m u, t = lead ++ m ++ 9 :: u -> blanks lead -> marker_text mk = Some m -> Forall (fun x => x <> 32) u.

Lemma strchr_split_spec c s : match strchr_split c s with Some (l, r) => s = l ++ c :: r | None => Forall (fun x => x <> c) s end.
Proof. induction s as [|x s IH]; cbn; [constructor|]. destruct (Z.eqb_spec x c) as [->|]; [done|]. destruct (strchr_split c s) as [[l r]|]; [by subst|by constructor]. Qed.

Lemma strchr_split_none c s : Forall (fun x => x <> c) s -> strchr_split c s = None.
Proof. induction 1 as [|x s Hx _ IH]; [done|]. cbn. by rewrite (proj2 (Z.eqb_neq _ _) Hx), IH. Qed.

Lemma marker_text_ok mk m : marker_text mk = Some m ->
  Forall (fun x => x <> 32 /\ x <> 9) m /\ 1 < zlen m < 32 /\ (exists r, m = ch_at :: r) /\ mk <> MRK_ERROR /\
  (if bool_decide (m = CA_MARKER) then MRK_CA else if bool_decide (m = REVOKE_MARKER) then MRK_REVOKE else MRK_ERROR) = mk.
Proof. destruct mk; intros [= <-]; (split_and!; [compute_dec|done|done|by eexists|done|by vm_compute]). Qed.

Lemma marker_end_spec mk m c b tail :
  marker_text mk = Some m -> is_blank c = true -> (c = 32 \/ Forall (fun x => x <> 32) (b ++ tail)) -> no_nul (m ++ c :: b ++ tail) -> marker_end ((m ++ c :: b ++ tail) ++ nuls) = Some m.
Proof.
  intros Hm Hc Hs Hn. destruct (marker_text_ok mk m Hm) as (Hf & _). unfold marker_end, nuls. rewrite cstr_text by done. unfold is_blank in Hc. apply orb_true_iff in Hc as [->%Z.eqb_eq| ->%Z.eqb_eq].
  - by rewrite strchr_split_app by (eapply Forall_impl; [exact Hf|by intros x [? _]]).
  - destruct Hs as [|Hs]; [done|]. rewrite strchr_split_none by (apply Forall_app; split; [eapply Forall_impl; [exact Hf|by intros x [? _]]|by constructor]). by rewrite strchr_split_app by (eapply Forall_impl; [exact Hf|by intros x [_ ?]]).
Qed.

Lemma check_markers_complete mk t tail w : marked mk t tail -> no_nul t -> spaced t -> check_markers (t ++ nuls) w = (Ret (mk, tail ++ nuls), w).
Proof.
  intros Hm Hn Hsp. destruct Hm as [t Ha|mk m c b tail Hm Hc Hb Hw Ha].
  - unfold check_markers. destruct t as [|c t]; [done|]. unfold mbind, io_bind. cbn. by rewrite (proj2 (Z.eqb_neq _ _)) by done.
  - destruct (marker_text_ok mk m Hm) as (Hf & Hl & [r Er] & Hmk & Emk). assert (c = 32 \/ Forall (fun x => x <> 32) (b ++ tail)) as Hs.
    { unfold is_blank in Hc. apply orb_true_iff in Hc as [->%Z.eqb_eq| ->%Z.eqb_eq]; [by left|right]. exact (Hsp [] mk m _ eq_refl (List.Forall_nil _) Hm). }
    unfold check_markers. rewrite (marker_end_spec mk) by done. unfold mbind, io_bind at 1. rewrite Er at 1. cbn [app at_ mret io_ret]. rewrite Z.eqb_refl. cbn [negb].
    rewrite Z.geb_leb, (proj2 (Z.leb_gt _ 1)), (proj2 (Z.leb_gt 32 _)) by lia. cbn [orb]. cbn zeta. rewrite Emk, bool_decide_eq_false_2 by done. rewrite <- app_assoc, zdrop_app_exact by done.
    replace ((c :: b ++ tail) ++ nuls) with ((c :: b) ++ tail ++ nuls) by by rewrite app_assoc. unfold nuls. rewrite skip_blanks_run by (try done; by constructor).
    unfold io_bind. destruct tail as [|x tail]; [done|]. cbn. by rewrite (proj2 (Z.eqb_neq _ _)) by done.
Qed.

Lemma spaced_no_at t : word_head t -> no_at t -> spaced t.
Proof.
  intros Hw Ha lead mk m u -> Hl Hm. destruct (marker_text_ok mk m Hm) as (_ & _ & [r ->] & _). destruct Hl as [|c lead Hc _]; [done|]. cbn in Hw. congruence.
Qed.

Lemma spaced_no_tab t : Forall (fun c => c <> 9) t -> spaced t.
Proof. intros Ht lead mk m u -> _ _. apply Forall_app in Ht as [_ Ht]. apply Forall_app in Ht as [_ Ht]. by apply Forall_cons in Ht as [? _]. Qed.

Lemma check_markers_total t w : no_nul t -> exists mk cp, check_markers (t ++ nuls) w = (Ret (mk, cp), w) /\ (mk <> MRK_ERROR -> exists tail, cp = tail ++ nuls /\ marked mk t tail).
Proof.
  intros Hn. destruct t as [|c t]; [by exists MRK_NONE, nuls; split; [done|]; exists []; split; [done|]; constructor|]. destruct (decide (c = ch_at)) as [->|Hc].
  2: { exists MRK_NONE, ((c :: t) ++ nuls). split; [unfold check_markers, mbind, io_bind; cbn; rewrite (proj2 (Z.eqb_neq _ _)) by done; done|]. intros _. exists (c :: t). split; [done|by constructor]. }
  unfold check_markers. change (at_ ((ch_at :: t) ++ nuls)) with (mret ch_at : io world Z). unfold mbind, io_bind at 1. cbn [mret io_ret]. rewrite Z.eqb_refl. cbn [negb]. unfold marker_end. rewrite (cstr_text (ch_at :: t) [0] Hn : cstr ((ch_at :: t) ++ nuls) = ch_at :: t).
  assert (forall marker sep rest, ch_at :: t = marker ++ sep :: rest -> is_blank sep = true -> (sep = 32 \/ Forall (fun x => x <> 32) rest) -> exists mk cp,
    (if (zlen marker <=? 1) || (zlen marker >=? 32) then mret (MRK_ERROR, (ch_at :: t) ++ nuls) else
     let ret := if bool_decide (marker = CA_MARKER) then MRK_CA else if bool_decide (marker = REVOKE_MARKER) then MRK_REVOKE else MRK_ERROR in
     if bool_decide (ret = MRK_ERROR) then mret (MRK_ERROR, (ch_at :: t) ++ nuls) else
     let cp' := skip_blanks (zdrop (zlen marker) ((ch_at :: t) ++ nuls)) in c ← at_ cp'; if c =? ch_at then mret (MRK_ERROR, (ch_at :: t) ++ nuls) else mret (ret, cp')) w = (Ret (mk, cp), w) /\
    (mk <> MRK_ERROR -> exists tail, cp = tail ++ nuls /\ marked mk (ch_at :: t) tail)) as Hmark.
  { intros marker sep rest Et Hsep Hs. destruct (_ || _); [by eexists _, _|]. cbn zeta. set (ret := if bool_decide (marker = CA_MARKER) then _ else _). case_bool_decide as Hret; [by eexists _, _|].
    rewrite Et, <- app_assoc, zdrop_app_exact by done. destruct (blanks_split rest) as (b & tail & -> & Hb & Hw). replace ((sep :: b ++ tail) ++ nuls) with ((sep :: b) ++ tail ++ nuls) by by rewrite app_assoc. unfold nuls. rewrite skip_blanks_run by (try done; by constructor).
    assert (marker_text ret = Some marker) as Hmt by (unfold ret in *; repeat case_bool_decide; subst; done). unfold mbind, io_bind.
    destruct tail as [|x tail]; cbn [app at_ mret io_ret].
    - eexists _, _. split; [done|]. intros _. exists []. split; [done|]. by apply (marked_some ret marker sep b).
    - destruct (Z.eqb_spec x ch_at); [by eexists _, _|]. eexists _, _. split; [done|]. intros _. exists (x :: tail). split; [done|]. by apply (marked_some ret marker sep b). }
  pose proof (strchr_split_spec 32 (ch_at :: t)) as H32. destruct (strchr_split 32 (ch_at :: t)) as [[marker rest]|]; [apply (Hmark marker 32 rest); [done|done|by left]|].
  pose proof (strchr_split_spec 9 (ch_at :: t)) as H9. destruct (strchr_split 9 (ch_at :: t)) as [[marker rest]|]; [|by eexists _, _].
  apply (Hmark marker 9 rest); [done|done|right]. rewrite H9 in H32. apply Forall_app in H32 as [_ H32]. by apply Forall_cons in H32 as [_ ?].
Qed.

(** * Lines *)

(** The host is one of the names: by a pattern or by a hash. *)
Definition listed (host hosts : cstring) : Prop :=
  (match hosts with c :: _ => c <> HASH_DELIM | [] => True end /\ match_hostname host hosts = 1) \/ hash_of host hosts.

Definition line_entry (host t : cstring) (mk : HostkeyMarker) (k : hkey) : Prop :=
  exists lead line hosts gap ktext,
    t = lead ++ line /\ blanks lead /\ (match line with c :: _ => c <> 35 | [] => True end) /\ marked mk line (hosts ++ gap ++ ktext) /\
    unblank hosts /\ listed host hosts /\ blanks gap /\ gap <> [] /\ (match ktext with c :: _ => c <> 35 | [] => True end) /\ reads_as ktext k.

Lemma listed_nonempty host hosts : listed host hosts -> hosts <> [].
Proof. intros [[_ Hm]|(salt & tag & _ & _ & _ & ->)]; [by intros ->|done]. Qed.

(** The text of a line. *)
Definition line_text (t : cstring) : Prop := Forall (fun c => c <> 0 /\ c <> 10) t.
Lemma line_text_nul t : line_text t -> no_nul t.
Proof. intros Ht. eapply Forall_impl; [exact Ht|]. by intros c [? _]. Qed.

Lemma unblank_head x t : unblank x -> x <> [] -> word_head (x ++ t).
Proof. intros Hx Hn. destruct x as [|c x]; [done|]. apply Forall_cons in Hx as [Hc _]. by apply orb_false_iff in Hc as [_ ?]. Qed.

Lemma reads_as_head ktext k : reads_as ktext k -> word_head ktext /\ ktext <> [].
Proof.
  intros (name & gap & b64 & comment & type & nid & k0 & -> & Hn & Hz & _). assert (name <> []) as Hne by (intros ->; change (zlen (@nil Z)) with 0 in Hz; lia).
  split; [by apply unblank_head|]. by destruct name.
Qed.

Section turns.
Context {C : Type}.
Variable callback : hostkey_foreach_line -> C -> io world (result unit * C).
Variables (path host : cstring) (ip : option cstring) (options : Z).
Hypothesis digest_works : forall h salt, h = host \/ ip = Some h -> is_Some (host_tag salt h).
Hypothesis parse : has_option HKF_WANT_PARSE_KEY options = true.

Lemma match_listed h hosts w : (forall salt, is_Some (host_tag salt h)) -> exists r hashed, match_maybe_hashed h hosts w = (Ret (r, hashed), w) /\ (r = Some true <-> listed h hosts).
Proof.
  intros Hd. assert ((exists rest, hosts = HASH_DELIM :: rest) \/ ~ exists rest, hosts = HASH_DELIM :: rest) as [Hh|Hh].
  { destruct hosts as [|c rest]; [right; by intros [? [=]]|]. destruct (decide (c = HASH_DELIM)) as [->|]; [left; by eexists|right; by intros [? [= ? _]]]. }
  - destruct (match_hashed_exact h hosts w Hd Hh) as (r & E & Hr). exists r, true. split; [done|]. rewrite Hr. split; [by right|]. intros [[Hn _]|?]; [|done]. by destruct Hh as [rest ->].
  - exists (Some (match_hostname h hosts =? 1)), false. assert (match hosts with c :: _ => c <> HASH_DELIM | [] => True end) as Hc by (destruct hosts as [|c rest]; [done|]; intros ->; apply Hh; by eexists). split.
    + unfold match_maybe_hashed. destruct hosts as [|c rest]; [done|]. by rewrite (proj2 (Z.eqb_neq _ _)) by done.
    + split; [intros [= E%Z.eqb_eq]; by left|]. intros [[_ ->]|(salt & tag & _ & _ & _ & ->)]; [done|]. by destruct Hh; eexists.
Qed.

(** A name of the host or the address is in the list. *)
Definition either_listed (hosts : cstring) : Prop := listed host hosts \/ match ip with Some ip => listed ip hosts | None => False end.

(** The lines of the loop differ in what is not of interest here. *)
Definition same_line (l l' : hostkey_foreach_line) : Prop := l_path l' = l_path l /\ l_linenum l' = l_linenum l /\ l_line l' = l_line l /\ l_marker l' = l_marker l.

(** What leads to [bad] is a hashed name that is malformed. *)
Lemma bad_hash h hosts hashed w w' : match_maybe_hashed h hosts w = (Ret (None, hashed), w') -> forall h', ~ listed h' hosts.
Proof.
  intros E h'. assert (exists rest, hosts = HASH_DELIM :: rest) as Hh.
  { unfold match_maybe_hashed in E. destruct hosts as [|c rest]; [done|]. destruct (Z.eqb_spec c HASH_DELIM) as [->|]; [by eexists|done]. }
  rewrite match_hashed_run in E by done. destruct (extract_salt hosts) as [t|] eqn:Et; [by destruct (host_tag _ _)|]. intros [[Hn _]|Hl]; [by destruct Hh as [rest ->]|].
  pose proof (match_hash_of h' hosts w Hl) as E'. by rewrite match_hashed_run, Et in E' by done.
Qed.

Lemma match_name_run h bit hbit l w : (forall salt, is_Some (host_tag salt h)) ->
  exists x, match_name (Some h) bit hbit l w = (Ret x, w) /\
    match x with
    | inl l' => l' = l /\ forall h', ~ listed h' (default [] (l_hosts l))
    | inr l' => same_line l l' /\ l_hosts l' = l_hosts l /\ (l_status l' = HKF_STATUS_MATCHED /\ listed h (default [] (l_hosts l)) \/ l' = l /\ ~ listed h (default [] (l_hosts l)))
    end.
Proof.
  intros Hd. destruct (match_listed h (default [] (l_hosts l)) w Hd) as (r & hashed & E & Hr). unfold match_name. rewrite (bind_run _ _ _ _ _ E). destruct r as [[|]|].
  - eexists. split; [done|]. split_and!; [done..|]. left. split; [done|by apply Hr].
  - eexists. split; [done|]. split_and!; [done..|]. right. split; [done|]. intros Hl. apply Hr in Hl. congruence.
  - eexists. split; [done|]. split; [done|]. exact (bad_hash _ _ _ _ _ E).
Qed.

Lemma match_names_run l w : l_status l = HKF_STATUS_OK ->
  exists x, match_names (Some host) ip l w = (Ret x, w) /\
    match x with
    | inl l' => same_line l l' /\ ~ either_listed (default [] (l_hosts l))
    | inr l' => same_line l l' /\ (l_status l' = HKF_STATUS_MATCHED /\ either_listed (default [] (l_hosts l)) \/ l_status l' = HKF_STATUS_OK /\ ~ either_listed (default [] (l_hosts l)))
    end.
Proof.
  intros Hs. unfold either_listed, match_names. destruct (match_name_run host HKF_MATCH_HOST HKF_MATCH_HOST_HASHED l w (fun salt => digest_works host salt (or_introl eq_refl))) as (x & E & Hx). rewrite (bind_run _ _ _ _ _ E). destruct x as [l1|l1].
  { destruct Hx as [-> Hn]. eexists. split; [done|]. split; [done|]. intros [?|?]; [by eapply Hn|]. destruct ip; [by eapply Hn|done]. }
  destruct Hx as (Hsame & Hhosts & Hx). destruct ip as [a|].
  2: { eexists. split; [done|]. split; [done|]. destruct Hx as [[? ?]|[-> ?]]; [left; auto|right]. split; [done|]. tauto. }
  destruct (match_name_run a HKF_MATCH_IP HKF_MATCH_IP_HASHED l1 w (fun salt => digest_works a salt (or_intror eq_refl))) as (y & Ey & Hy). rewrite Ey, Hhosts in *. eexists. split; [done|]. destruct y as [l2|l2].
  { destruct Hy as [-> Hn]. split; [done|]. intros [?|?]; by eapply Hn. }
  destruct Hy as (Hsame2 & _ & Hy). split; [unfold same_line in *; intuition congruence|]. destruct Hy as [[? ?]|[-> ?]]; [left; auto|]. destruct Hx as [[? ?]|[-> ?]]; [left; auto|right; tauto].
Qed.

(** The text behind the names starts with a key. *)
Definition key_in (u : cstring) (k : hkey) : Prop := exists gap ktext, u = gap ++ ktext /\ blanks gap /\ (match ktext with c :: _ => c <> 35 | [] => True end) /\ reads_as ktext k.

Lemma foreach_key_complete u k l ctx w : key_in u k -> no_nul u -> subject_free u ->
  exists raw comment, foreach_key callback options (u ++ nuls) l ctx w = callback (set_parsed k comment (set_rawkey raw l)) ctx w.
Proof.
  intros (gap & ktext & -> & Hg & Hh & Hr) Hn Hx. destruct (reads_as_head _ _ Hr) as [Hw Hne]. apply no_nul_app in Hn as [_ Hn]. unfold foreach_key. rewrite <- app_assoc, !(skip_blanks_run gap ktext [0] Hg Hw : skip_blanks (gap ++ ktext ++ nuls) = ktext ++ nuls).
  destruct (read_key_complete ktext k w Hr Hn (subject_free_app _ _ Hx)) as (cp & E). destruct ktext as [|c ktext]; [done|]. unfold mbind, io_bind at 1. cbn [app at_ mret io_ret]. apply Forall_cons in Hn as [Hc _].
  rewrite (proj2 (Z.eqb_neq c 0)), (proj2 (Z.eqb_neq c 35)) by done. cbn [orb]. cbn zeta. rewrite parse, malloc_reliable. cbn [negb]. unfold io_bind. cbn [app] in E. rewrite E. by eexists _, _.
Qed.

Lemma foreach_key_total u l ctx w : no_nul u -> subject_free u ->
  (exists k, key_in u k) \/ (exists l', same_line l l' /\ foreach_key callback options (u ++ nuls) l ctx w = callback (set_bad l') ctx w).
Proof.
  intros Hn Hx. destruct (blanks_split u) as (gap & ktext & -> & Hg & Hw). apply no_nul_app in Hn as [_ Hn]. apply subject_free_app in Hx.
  unfold foreach_key. rewrite <- app_assoc, !(skip_blanks_run gap ktext [0] Hg Hw : skip_blanks (gap ++ ktext ++ nuls) = ktext ++ nuls).
  destruct ktext as [|c ktext]; [right; by exists l|]. destruct (decide (c = 35)) as [->|Hc]; [right; by exists l|].
  destruct (read_key_total (c :: ktext) w Hn Hx Hw) as (r & E & Hr). destruct r as [[k cp]|]; [left; exists k, gap, (c :: ktext); split_and!; [done..|by apply (Hr k cp)]|right].
  unfold mbind, io_bind at 1. cbn [app at_ mret io_ret]. apply Forall_cons in Hn as [Hc0 _]. rewrite (proj2 (Z.eqb_neq c 0)), (proj2 (Z.eqb_neq c 35)) by done. cbn [orb]. cbn zeta. rewrite parse, malloc_reliable. cbn [negb]. unfold io_bind. cbn [app] in E. rewrite E. by eexists (set_rawkey _ l).
Qed.

Lemma marked_prefix mk line tail : marked mk line tail -> exists pre, line = pre ++ tail.
Proof. intros [t _|mk' m c b t _ _ _ _ _]; [by exists []|]. exists (m ++ c :: b). by rewrite <- app_assoc. Qed.
Lemma marked_head mk line tail : marked mk line tail -> word_head tail -> tail <> [] -> word_head line /\ line <> [].
Proof. intros [t _|mk' m c b t Hm _ _ _ _] Hw Hn; [done|]. destruct (marker_text_ok mk' m Hm) as (_ & _ & [r ->] & _). done. Qed.

Abbreviation turn := (foreach_line callback path (Some host) ip options).

(** A turn up to the host names. *)
Lemma turn_marked t lead line mk hosts rest n ctx w :
  t = lead ++ line -> line_text t -> spaced t -> blanks lead -> word_head line -> line <> [] -> (match line with c :: _ => c <> 35 | [] => True end) -> marked mk line (hosts ++ rest) -> unblank hosts -> blank_head rest ->
  exists l, l_path l = path /\ l_linenum l = n /\ l_line l = t /\ l_marker l = mk /\
    ((either_listed hosts /\ l_status l = HKF_STATUS_MATCHED /\ turn n (t ++ [10]) ctx w = foreach_key callback options (zdrop 1 (rest ++ nuls)) l ctx w) \/
     (~ either_listed hosts /\ turn n (t ++ [10]) ctx w = callback (set_bad l) ctx w) \/
     (~ either_listed hosts /\ l_status l = HKF_STATUS_OK /\ turn n (t ++ [10]) ctx w = if has_option HKF_WANT_MATCH options then (Ret (Ok tt, ctx), w) else foreach_key callback options (zdrop 1 (rest ++ nuls)) l ctx w)).
Proof.
  intros -> Ht Hsp Hlead Hw Hne Hh Hm Hu Hb. assert (mk <> MRK_ERROR) as Hmk by (destruct Hm as [|mk0 ? ? ? ? Hmt]; [done|by destruct mk0]).
  set (l0 := mk_line path n HKF_STATUS_OK 0 (lead ++ line) mk (Some hosts) None KEY_UNSPEC None None). destruct (match_names_run l0 w eq_refl) as (x & E & Hx).
  assert (turn n ((lead ++ line) ++ [10]) ctx w = match x with inl l => callback (set_bad l) ctx w | inr l => if has_option HKF_WANT_MATCH options && negb (l_status l =? HKF_STATUS_MATCHED) then (Ret (Ok tt, ctx), w) else foreach_key callback options (zdrop 1 (rest ++ nuls)) l ctx w end) as Et.
  { unfold foreach_line. rewrite cut_line_text by done. assert (cstr ((lead ++ line) ++ nuls) = lead ++ line) as -> by (apply cstr_text; by apply line_text_nul). rewrite <- (app_assoc lead), (skip_blanks_run lead line [0] Hlead Hw : skip_blanks (lead ++ line ++ nuls) = line ++ nuls).
    apply Forall_app in Ht as [_ Ht]. assert (spaced line) as Hspl by (intros lead' mk' m u Eu Hl'; apply (Hsp (lead ++ lead')); [by rewrite Eu, <- app_assoc|by apply Forall_app_2]).
    pose proof (check_markers_complete mk line _ w Hm (line_text_nul _ Ht) Hspl) as Ec.
    destruct line as [|c line]; [done|]. apply Forall_cons in Ht as [[Hc0 Hc10] _]. erewrite bind_run by reflexivity. rewrite (proj2 (Z.eqb_neq c 0)), (proj2 (Z.eqb_neq c 35)), (proj2 (Z.eqb_neq c 10)) by done. cbn [orb].
    rewrite (bind_run _ _ _ _ _ Ec). cbn zeta. rewrite bool_decide_eq_false_2 by done. rewrite <- app_assoc, (word_run hosts rest [0] Hu Hb : word (hosts ++ rest ++ nuls) = (hosts, rest ++ nuls)).
    assert (exists d, at_ (rest ++ nuls) w = (Ret d, w)) as (d & Ed) by (destruct rest; by eexists). rewrite (bind_run _ _ _ _ _ Ed). unfold l0 in E. cbn [set_hosts set_marker l_path l_linenum l_status l_match l_line l_marker l_hosts l_rawkey l_keytype l_key l_comment]. rewrite (bind_run _ _ _ _ _ E). by destruct x as [l|l]; [|destruct (_ && _)]. }
  destruct x as [l|l].
  - destruct Hx as [(? & ? & ? & ?) Hn]. exists l. split_and!; [done..|]. right. left. done.
  - destruct Hx as [(? & ? & ? & ?) [[Hs Hin]|[Hs Hn]]]; exists l; (split_and!; [done..|]); rewrite Hs in Et.
    + left. split_and!; [done..|]. by rewrite Et, andb_false_r.
    + right. right. split_and!; [done..|]. by rewrite Et, andb_true_r.
Qed.

(** The line is an entry for the host or the address. *)
Definition entry_for (t : cstring) (mk : HostkeyMarker) (k : hkey) : Prop := line_entry host t mk k \/ match ip with Some ip => line_entry ip t mk k | None => False end.

Lemma turn_entry t mk k n ctx w : line_text t -> subject_free t -> spaced t -> entry_for t mk k ->
  exists l, l_path l = path /\ l_linenum l = n /\ l_line l = t /\ l_marker l = mk /\ l_status l = HKF_STATUS_MATCHED /\ l_key l = Some k /\ turn n (t ++ [10]) ctx w = callback l ctx w.
Proof.
  intros Ht Hx Hsp He. assert (exists lead line hosts gap ktext, t = lead ++ line /\ blanks lead /\ (match line with c :: _ => c <> 35 | [] => True end) /\ marked mk line (hosts ++ gap ++ ktext) /\
    unblank hosts /\ (either_listed hosts /\ hosts <> []) /\ blanks gap /\ gap <> [] /\ (match ktext with c :: _ => c <> 35 | [] => True end) /\ reads_as ktext k) as
    (lead & line & hosts & gap & ktext & Et & Hlead & Hh & Hm & Hu & [Hl Hne] & Hg & Hg0 & Hk & Hr).
  { unfold entry_for, either_listed in *. destruct He as [He|He]; [|destruct ip as [a|]; [|done]]; destruct He as (lead & line & hosts & gap & ktext & ? & ? & ? & ? & ? & Hl & ? & ? & ? & ?); pose proof (listed_nonempty _ _ Hl); exists lead, line, hosts, gap, ktext; tauto. }
  assert (word_head line /\ line <> []) as [Hw Hln] by (apply (marked_head _ _ _ Hm); [by apply unblank_head|by destruct hosts]).
  destruct gap as [|g gap]; [done|]. destruct (turn_marked t lead line mk hosts ((g :: gap) ++ ktext) n ctx w) as (l & Hp & Hn & Hline & Hmk & [(_ & Hs & E)|[(? & _)|(? & _)]]); try done; [by apply Forall_cons in Hg as [? _]|].
  cbn [app] in E. change (zdrop 1 (g :: (gap ++ ktext) ++ nuls)) with ((gap ++ ktext) ++ nuls) in E. apply Forall_cons in Hg as [_ Hg].
  assert (exists pre, t = pre ++ gap ++ ktext) as [pre Epre].
  { destruct (marked_prefix _ _ _ Hm) as [pre Ep]. exists (lead ++ pre ++ hosts ++ [g]). by rewrite Et, Ep, <- !app_assoc. }
  destruct (foreach_key_complete (gap ++ ktext) k l ctx w) as (raw & comment & Ek).
  - by exists gap, ktext.
  - apply line_text_nul in Ht. rewrite Epre in Ht. by apply no_nul_app in Ht as [_ ?].
  - rewrite Epre in Hx. by apply subject_free_app in Hx.
  - exists (set_parsed k comment (set_rawkey raw l)). split_and!; try done. by rewrite E, Ek.
Qed.

(** What follows the names goes to the callback, with the key if there is one. *)
Lemma behind_names rest l ctx w : no_nul rest -> subject_free rest ->
  exists l', same_line l l' /\ foreach_key callback options (zdrop 1 (rest ++ nuls)) l ctx w = callback l' ctx w /\
    (l_status l' = HKF_STATUS_INVALID \/ l_status l' = l_status l /\ exists g u k, rest = g :: u /\ key_in u k).
Proof.
  intros Hn Hx. destruct rest as [|g u]; [exists (set_bad l); split_and!; [done..|by left]|]. change (zdrop 1 ((g :: u) ++ nuls)) with (u ++ nuls). apply Forall_cons in Hn as [_ Hn]. apply (subject_free_app [g]) in Hx.
  destruct (foreach_key_total u l ctx w Hn Hx) as [[k Hk]|(l' & Hs & ->)].
  - destruct (foreach_key_complete u k l ctx w Hk Hn Hx) as (raw & comment & ->). exists (set_parsed k comment (set_rawkey raw l)). split_and!; [done..|]. right. split; [done|]. by exists g, u, k.
  - exists (set_bad l'). split_and!; [done..|by left].
Qed.

(** The start of a turn. *)
Lemma turn_start t lead line n ctx w : t = lead ++ line -> line_text t -> blanks lead -> word_head line -> (match line with c :: _ => c = 35 | [] => True end) ->
  exists l, l_line l = t /\ l_status l = HKF_STATUS_COMMENT /\ turn n (t ++ [10]) ctx w = if has_option HKF_WANT_MATCH options then (Ret (Ok tt, ctx), w) else callback l ctx w.
Proof.
  intros Et Ht Hlead Hw Hc. unfold foreach_line. rewrite cut_line_text by done. assert (cstr (t ++ nuls) = t) as -> by (apply cstr_text; by apply line_text_nul). assert (skip_blanks (t ++ nuls) = line ++ nuls) as -> by (rewrite Et, <- app_assoc; by apply skip_blanks_run).
  exists (set_status HKF_STATUS_COMMENT (mk_line path n HKF_STATUS_OK 0 t MRK_NONE None None KEY_UNSPEC None None)). split_and!; [done..|]. destruct line as [|c line]; [|subst c]; (erewrite bind_run by reflexivity); cbn; by destruct (has_option HKF_WANT_MATCH options).
Qed.
Lemma turn_marker_error t lead c line n cp ctx w : t = lead ++ c :: line -> line_text t -> blanks lead -> word_head (c :: line) -> c <> 35 -> check_markers ((c :: line) ++ nuls) w = (Ret (MRK_ERROR, cp), w) ->
  exists l, l_line l = t /\ turn n (t ++ [10]) ctx w = if has_option HKF_WANT_MATCH options then (Ret (Ok tt, ctx), w) else callback (set_bad l) ctx w.
Proof.
  intros Et Ht Hlead Hw Hc Ec. unfold foreach_line. rewrite cut_line_text by done. assert (cstr (t ++ nuls) = t) as -> by (apply cstr_text; by apply line_text_nul). assert (skip_blanks (t ++ nuls) = (c :: line) ++ nuls) as -> by (rewrite Et, <- app_assoc; by apply skip_blanks_run).
  rewrite Et in Ht. apply Forall_app in Ht as [_ Ht]. apply Forall_cons in Ht as [[Hc0 Hc10] _]. exists (mk_line path n HKF_STATUS_OK 0 t MRK_ERROR None None KEY_UNSPEC None None).
  split; [done|]. erewrite bind_run by reflexivity. rewrite (proj2 (Z.eqb_neq c 0)), (proj2 (Z.eqb_neq c 35)), (proj2 (Z.eqb_neq c 10)) by done. cbn [orb]. rewrite (bind_run _ _ _ _ _ Ec). cbn. by destruct (has_option HKF_WANT_MATCH options).
Qed.

(** A line that is no entry is skipped or given to the callback as not matched. *)
Lemma turn_total t n ctx w : line_text t -> subject_free t -> spaced t ->
  (exists mk k, entry_for t mk k) \/
  ((has_option HKF_WANT_MATCH options = true /\ turn n (t ++ [10]) ctx w = (Ret (Ok tt, ctx), w)) \/
   exists l, l_line l = t /\ l_status l <> HKF_STATUS_MATCHED /\ (has_option HKF_WANT_MATCH options = true -> l_status l = HKF_STATUS_INVALID) /\ turn n (t ++ [10]) ctx w = callback l ctx w).
Proof.
  intros Ht Hx Hsp. destruct (blanks_split t) as (lead & line & Et & Hlead & Hw).
  assert (match line with c :: _ => c = 35 | [] => True end \/ exists c rest, line = c :: rest /\ c <> 35) as [Hcomment|(c & line' & -> & Hc)].
  { destruct line as [|c line]; [by left|]. destruct (decide (c = 35)) as [->|]; [by left|right; by exists c, line]. }
  { right. destruct (turn_start t lead line n ctx w Et Ht Hlead Hw Hcomment) as (l & Hl & Hs & ->). destruct (has_option HKF_WANT_MATCH options); [by left|right]. exists l. by rewrite Hs. }
  assert (line_text (c :: line')) as Htl by (rewrite Et in Ht; by apply Forall_app in Ht as [_ ?]). destruct (check_markers_total (c :: line') w (line_text_nul _ Htl)) as (mk & cp & Ec & Hmk).
  destruct (decide (mk = MRK_ERROR)) as [->|Hne].
  { right. destruct (turn_marker_error t lead c line' n cp ctx w Et Ht Hlead Hw Hc Ec) as (l & Hl & ->). destruct (has_option HKF_WANT_MATCH options); [by left|right]. by exists (set_bad l). }
  destruct (Hmk Hne) as (tail & -> & Hm). destruct (marked_prefix _ _ _ Hm) as [pre Epre]. assert (no_nul tail) as Hnt by (apply line_text_nul in Htl; rewrite Epre in Htl; by apply no_nul_app in Htl as [_ ?]).
  destruct (word_split tail Hnt) as (hosts & rest & -> & Hu & Hb). apply no_nul_app in Hnt as [_ Hnt]. assert (subject_free rest) as Hxr by (apply (subject_free_app (lead ++ pre ++ hosts)); replace ((lead ++ pre ++ hosts) ++ rest) with t by (by rewrite Et, Epre, <- !app_assoc); done).
  destruct (turn_marked t lead (c :: line') mk hosts rest n ctx w) as (l & Hp & Hn & Hline & Hk & Hcase); try done. destruct (behind_names rest l ctx w Hnt Hxr) as (l' & (_ & _ & Hline' & _) & Eb & Hb').
  destruct Hcase as [(Hl & Hs & E)|[(_ & E)|(_ & Hs & E)]].
  - destruct Hb' as [Hi|(_ & g & u & k & -> & gap & ktext & -> & Hg & Hh & Hr)]; [right; right; exists l'; rewrite Hi, E, Eb; split_and!; [congruence|done..]|left].
    exists mk, k. assert (forall h, listed h hosts -> line_entry h t mk k) as Hentry by (intros h Hin; exists lead, (c :: line'), hosts, (g :: gap), ktext; split_and!; try done; by constructor).
    unfold entry_for. destruct Hl as [?|Hl]; [left; auto|right]. destruct ip; [auto|done].
  - right. right. by exists (set_bad l).
  - right. destruct (has_option HKF_WANT_MATCH options); [by left|right]. exists l'. rewrite E, Eb. split_and!; [congruence| |done..]. destruct Hb' as [->|[-> _]]; [done|by rewrite Hs].
Qed.
End turns.

(** The turns of [load_hostkeys]. *)
Section load.
Variables host path : cstring.
Hypothesis digest_works : forall salt, is_Some (host_tag salt host).

Abbreviation opts := (Z.lor HKF_WANT_MATCH HKF_WANT_PARSE_KEY).
Abbreviation turn := (foreach_line (record_hostkey host) path (Some host) None opts).

Lemma one_name h salt : h = host \/ None = Some h -> is_Some (host_tag salt h).
Proof. by intros [->|[=]]. Qed.
Lemma one_entry t mk k : entry_for host None t mk k <-> line_entry host t mk k.
Proof. unfold entry_for. tauto. Qed.

Lemma load_turn_complete t mk k n hk w :
  line_text t -> subject_free t -> spaced t -> line_entry host t mk k -> turn n (t ++ [10]) hk w = (Ret (Ok tt, hk ++ [mk_entry host path n k mk]), w).
Proof.
  intros Ht Hx Hsp He. destruct (turn_entry (record_hostkey host) path host None opts one_name eq_refl t mk k n hk w Ht Hx Hsp (proj2 (one_entry t mk k) He)) as (l & Hp & Hn & _ & Hmk & Hs & Hk & ->).
  unfold record_hostkey. by rewrite Hs, Hk, Hp, Hn, Hmk, malloc_reliable.
Qed.

Lemma load_turn_total t n hk w : line_text t -> subject_free t -> spaced t ->
  exists x, turn n (t ++ [10]) hk w = (Ret (Ok tt, hk ++ x), w) /\ (x = [] \/ exists mk k, x = [mk_entry host path n k mk] /\ line_entry host t mk k).
Proof.
  intros Ht Hx Hsp. destruct (turn_total (record_hostkey host) path host None opts one_name eq_refl t n hk w Ht Hx Hsp) as [(mk & k & He%one_entry)|[[_ ->]|(l & _ & _ & Hs & ->)]].
  - eexists. split; [by apply load_turn_complete|]. right. by exists mk, k.
  - exists []. rewrite app_nil_r. split; [done|by left].
  - exists []. rewrite app_nil_r. split; [|by left]. unfold record_hostkey. by rewrite Hs.
Qed.
End load.

(** * Files *)

(** A plain file: text in which each line ends with a newline, no line has a
    distinguished name in the place of a key, and markers are followed by a space
    (or the line has no space). *)
Definition file_of (ts : list cstring) : list Z := concat (map (fun t => t ++ [10]) ts).
Record plain_lines (ts : list cstring) : Prop :=
  { lines_text : Forall line_text ts; lines_subject : Forall subject_free ts; lines_spaced : Forall spaced ts }.

Lemma getlines_line t data : line_text t -> getlines (t ++ 10 :: data) = (t ++ [10]) :: getlines data.
Proof. induction 1 as [|c t [_ Hc] _ IH]; [done|]. cbn. rewrite (proj2 (Z.eqb_neq _ _)) by done. by rewrite IH. Qed.
Lemma getlines_file ts : Forall line_text ts -> getlines (file_of ts) = map (fun t => t ++ [10]) ts.
Proof. induction 1 as [|t ts Ht _ IH]; [done|]. unfold file_of. cbn [map concat]. rewrite <- app_assoc. cbn [app]. rewrite getlines_line by done. by f_equal. Qed.

(** The entries of one file. *)
Definition entry_at (host path : cstring) (ts : list cstring) (n : Z) (e : hostkey_entry) : Prop :=
  exists i t mk k, ts !! i = Some t /\ line_entry host t mk k /\ e = mk_entry host path (n + Z.of_nat i) k mk.

Lemma foreach_lines_run host path ts n hk w :
  (forall salt, is_Some (host_tag salt host)) -> plain_lines ts ->
  exists es, foreach_lines (record_hostkey host) path (Some host) None (Z.lor HKF_WANT_MATCH HKF_WANT_PARSE_KEY) n (map (fun t => t ++ [10]) ts) hk w = (Ret (Ok tt, hk ++ es), w) /\
    forall e, e ∈ es <-> entry_at host path ts n e.
Proof.
  intros Hd [Ht Hx Hsp]. revert n hk. induction ts as [|t ts IH]; intros n hk.
  - exists []. rewrite app_nil_r. split; [done|]. intros e. split; [set_solver|]. by intros (i & t & mk & k & ? & _).
  - apply Forall_cons in Ht as [Ht0 Ht]. apply Forall_cons in Hx as [Hx0 Hx]. apply Forall_cons in Hsp as [Hs0 Hsp]. destruct (load_turn_total host path Hd t n hk w Ht0 Hx0 Hs0) as (x & Ex & Hxe). cbn [map foreach_lines]. rewrite (bind_run _ _ _ _ _ Ex).
    destruct (IH Ht Hx Hsp (n + 1) (hk ++ x)) as (es & E & He). exists (x ++ es). rewrite app_assoc. split; [done|]. intros e. rewrite elem_of_app, He. split.
    + intros [Hin|(i & t' & mk & k & Hi & Hl & ->)].
      * destruct Hxe as [->|(mk & k & -> & Hl)]; [set_solver|]. apply list_elem_of_singleton in Hin as ->. exists 0%nat, t, mk, k. split_and!; [done..|]. f_equal. lia.
      * exists (S i), t', mk, k. split_and!; [done..|]. f_equal. lia.
    + intros ([|i] & t' & mk & k & Hi & Hl & ->).
      * injection Hi as ->. left. rewrite (load_turn_complete host path Hd t' mk k n hk w Ht0 Hx0 Hs0 Hl) in Ex. injection Ex as Ex. apply app_inv_head in Ex as <-. apply list_elem_of_singleton. f_equal. lia.
      * right. exists i, t', mk, k. split_and!; [done..|]. f_equal. lia.
Qed.

Lemma load_hostkeys_run host path ts hk w :
  (forall salt, is_Some (host_tag salt host)) -> faults w = [] -> plain_lines ts -> files w !! path = Some (file_of ts) ->
  exists es, load_hostkeys host path hk w = (Ret (hk ++ es), w) /\ forall e, e ∈ es <-> entry_at host path ts 1 e.
Proof.
  intros Hd Hq Hr Hf. destruct (foreach_lines_run host path ts 1 hk w Hd Hr) as (es & E & He). exists es. split; [|done]. unfold load_hostkeys, hostkeys_foreach, fopen_read, next_fault, mbind, io_bind. rewrite Hq. cbn [mret io_ret]. change (negb (0 =? 0)) with false. unfold reads. rewrite Hf.
  rewrite getlines_file by apply Hr. by rewrite E.
Qed.

Lemma load_hostkeys_none host path hk w : faults w = [] -> files w !! path = None -> load_hostkeys host path hk w = (Ret hk, w).
Proof. intros Hq Hf. unfold load_hostkeys, hostkeys_foreach, fopen_read, next_fault, mbind, io_bind. rewrite Hq. cbn [mret io_ret]. change (negb (0 =? 0)) with false. unfold reads. by rewrite Hf. Qed.
End lines.
