(* ===== verification/HostCheck.v ===== *)
(** The check of a server's key by the client (sshconnect.c).

    The state of the client is the world of hostfile.c, the options that the check
    reads and changes, the answers that the user gives to questions, and the key
    that was accepted before.  [true] stands for the return value 0. *)

From Stdlib Require Import String.
From S2P Require Import Prelude Io Sshbuf SshbufGetPut SshbufRead Match AddrMatch Misc AlgNames Digest Base64 Hostfile HostfileLaws HostfileLines.
Local Open Scope Z_scope.

Definition SSH_STRICT_HOSTKEY_OFF : Z := 0.
Definition SSH_STRICT_HOSTKEY_NEW : Z := 1.
Definition SSH_STRICT_HOSTKEY_YES : Z := 2.
Definition SSH_STRICT_HOSTKEY_ASK : Z := 3.
Definition SSH_TUNMODE_NO : Z := 0.
Definition DNS_VERIFY_FOUND : Z := 1.
Definition DNS_VERIFY_MATCH : Z := 2.
Definition DNS_VERIFY_SECURE : Z := 4.

Record client_options := mk_opts {
  strict_host_key_checking : Z; check_host_ip : bool; no_host_authentication_for_localhost : bool; host_key_alias : option cstring; proxy_command : bool;
  hash_known_hosts : bool; batch_mode : bool; visual_host_key : bool; dns_mode : Z; revoked_host_keys : bool; o_port : Z;
  user_hostfiles : list cstring; system_hostfiles : list cstring;
  password_authentication : bool; kbd_interactive_authentication : bool; challenge_response_authentication : bool; forward_agent : bool; forward_x11 : bool;
  num_local_forwards : Z; num_remote_forwards : Z; tun_open : Z; exit_on_forward_failure : bool; update_hostkeys : bool
}.

Definition set_check_host_ip (b : bool) (o : client_options) : client_options :=
  mk_opts (strict_host_key_checking o) b (no_host_authentication_for_localhost o) (host_key_alias o) (proxy_command o) (hash_known_hosts o) (batch_mode o) (visual_host_key o) (dns_mode o) (revoked_host_keys o) (o_port o)
    (user_hostfiles o) (system_hostfiles o) (password_authentication o) (kbd_interactive_authentication o) (challenge_response_authentication o) (forward_agent o) (forward_x11 o)
    (num_local_forwards o) (num_remote_forwards o) (tun_open o) (exit_on_forward_failure o) (update_hostkeys o).
Definition set_update_hostkeys (b : bool) (o : client_options) : client_options :=
  mk_opts (strict_host_key_checking o) (check_host_ip o) (no_host_authentication_for_localhost o) (host_key_alias o) (proxy_command o) (hash_known_hosts o) (batch_mode o) (visual_host_key o) (dns_mode o) (revoked_host_keys o) (o_port o)
    (user_hostfiles o) (system_hostfiles o) (password_authentication o) (kbd_interactive_authentication o) (challenge_response_authentication o) (forward_agent o) (forward_x11 o)
    (num_local_forwards o) (num_remote_forwards o) (tun_open o) (exit_on_forward_failure o) b.

(** At [continue_unsafe]: everything that an attacker could use is switched off. *)
Definition restricted (o : client_options) : client_options :=
  mk_opts (strict_host_key_checking o) (check_host_ip o) (no_host_authentication_for_localhost o) (host_key_alias o) (proxy_command o) (hash_known_hosts o) (batch_mode o) (visual_host_key o) (dns_mode o) (revoked_host_keys o) (o_port o)
    (user_hostfiles o) (system_hostfiles o) false false false false false 0 0 SSH_TUNMODE_NO (exit_on_forward_failure o) (update_hostkeys o).
Definition cancelled_forwarding (o : client_options) : bool :=
  password_authentication o || kbd_interactive_authentication o || challenge_response_authentication o || forward_agent o || forward_x11 o ||
  (num_local_forwards o >? 0) || (num_remote_forwards o >? 0) || negb (tun_open o =? SSH_TUNMODE_NO).

(** The address of the server: whether it is a local one, and as text. *)
Record host_addr := mk_addr { sockaddr_is_local : bool; numeric_host : option cstring }.

(** What is used of sshkey.c, ssh-x509.c, dns.c and authfile.c besides. *)
Class CheckKeys `{KnownKeys} := {
  check_host_cert : cstring -> hkey -> bool;
  sshkey_from_private : hkey -> result hkey;
  sshkey_drop_cert : hkey -> result hkey;
  xkey_validate_cert : hkey -> bool;
  sshkey_check_revoked : hkey -> result unit;
  (** the text of [sshkey_fingerprint], for a key that has one *)
  fingerprint_text : hkey -> cstring;
  (** the flags, if the lookup succeeds *)
  verify_host_key_dns : cstring -> host_addr -> hkey -> option Z
}.

Section hostcheck.
Context `{Allocator} `{EvpDigest} `{KnownKeys} `{HostEnv} `{!CheckKeys}.

Record client := mk_client { c_world : world; c_opts : client_options; c_answers : list (option cstring); previous_host_key : option hkey; matching_host_key_dns : bool }.

Definition in_world {A} (m : io world A) : io client A := fun c =>
  let '(r, w) := m (c_world c) in (r, mk_client w (c_opts c) (c_answers c) (previous_host_key c) (matching_host_key_dns c)).
Definition opts : io client client_options := reads c_opts.
Definition change_opts (f : client_options -> client_options) : io client unit :=
  updates (fun c => mk_client (c_world c) (f (c_opts c)) (c_answers c) (previous_host_key c) (matching_host_key_dns c)).

(** The word of an answer: what precedes white space, after leading blanks. *)
Fixpoint until_space (p : cstring) : cstring :=
  match p with [] => [] | c :: p => if (c =? 32) || (c =? 9) || (c =? 10) then [] else c :: until_space p end.
Definition answer_word (p : cstring) : cstring := until_space (skip_blanks p).
Definition says_no (p : cstring) : bool := (zlen (answer_word p) =? 0) || strcasecmp_eq (answer_word p) (str "no").
Definition says_yes (fingerprint : option cstring) (p : cstring) : bool :=
  strcasecmp_eq (answer_word p) (str "yes") || match fingerprint with Some fp => strcasecmp_eq (answer_word p) fp | None => false end.

(** The loop of [confirm] over what read_passphrase(3) returns ([None] for NULL): the
    result and the answers that have not been read.  When there are no more,
    read_passphrase returns the empty string. *)
Fixpoint confirm_loop (fingerprint : option cstring) (answers : list (option cstring)) : bool * list (option cstring) :=
  match answers with
  | [] => (false, [])
  | None :: l => (false, l)
  | Some p :: l => if says_no p then (false, l) else if says_yes fingerprint p then (true, l) else confirm_loop fingerprint l
  end.
Definition confirm (fingerprint : option cstring) : io client bool := fun c =>
  if batch_mode (c_opts c) then (Ret false, c)
  else
    let '(a, l) := confirm_loop fingerprint (c_answers c) in
    (Ret a, mk_client (c_world c) (c_opts c) l (previous_host_key c) (matching_host_key_dns c)).

(** A fingerprint that cannot be computed ends the program. *)
Definition fingerprint (key : hkey) : io client unit := if printable key then mret tt else dies.

Definition get_hostfile_hostname_ipaddr (hostname : cstring) (hostaddr : host_addr) (port : Z) : io client (cstring * cstring) :=
  o ← opts;
  ip ← (if proxy_command o then mret (str "<no hostip for proxy command>")
        else match numeric_host hostaddr with None => dies | Some ntop => mret (put_host_port ntop port) end);
  mret (match host_key_alias o with Some alias => alias | None => put_host_port hostname port end, ip).

Fixpoint load_files (host : cstring) (paths : list cstring) (hostkeys : list hostkey_entry) : io world (list hostkey_entry) :=
  match paths with
  | [] => mret hostkeys
  | path :: paths => hostkeys ← load_hostkeys host path hostkeys; load_files host paths hostkeys
  end.

Definition RDRW : Z := 0.
Definition RDONLY : Z := 1.
Definition ROQUIET : Z := 2.

Definition KEY_RSA : Z := 0.
Definition KEY_DSA : Z := 1.
Definition KEY_ED25519 : Z := 3.
Definition KEY_XMSS : Z := 8.
Definition other_types : list (Z * Z) := [(KEY_RSA, -1); (KEY_DSA, -1); (KEY_ECDSA, 415); (KEY_ECDSA, 715); (KEY_ECDSA, 716); (KEY_ED25519, -1); (KEY_XMSS, -1)].

Fixpoint show_other_keys_from (l : list (Z * Z)) (hostkeys : list hostkey_entry) (key : hkey) (ret : bool) : io client bool :=
  match l with
  | [] => mret ret
  | (type, subtype) :: l =>
      if (type =? k_type key) && (subtype =? k_nid key) then show_other_keys_from l hostkeys key ret
      else
        match lookup_key_in_hostkeys_by_types hostkeys type subtype with
        | (true, Some found) => _ ← fingerprint (e_key found); show_other_keys_from l hostkeys key true
        | (true, None) => segv
        | (false, _) => show_other_keys_from l hostkeys key ret
        end
  end.
Definition show_other_keys (hostkeys : list hostkey_entry) (key : hkey) : io client bool := show_other_keys_from other_types hostkeys key false.
Definition warn_changed_key (key : hkey) : io client unit := fingerprint key.

(** [user_hostfiles[0]] *)
Definition first_hostfile : io client cstring := o ← opts; match user_hostfiles o with f :: _ => mret f | [] => segv end.

(** The key of a new host is added to the first file. *)
Definition add_new_host (host ip : cstring) (ip_status : HostStatus) (key : hkey) : io client bool :=
  o ← opts;
  file ← first_hostfile;
  if check_host_ip o && bool_decide (ip_status = HOST_NEW) then
    if hash_known_hosts o then
      r ← in_world (add_host_to_hostfile file host (Some key) true);
      if r : bool then in_world (add_host_to_hostfile file ip (Some key) true) else mret false
    else in_world (add_host_to_hostfile file (ztake 999 (host ++ [ch_comma] ++ ip)) (Some key) false)
  else in_world (add_host_to_hostfile file host (Some key) (hash_known_hosts o)).

Definition continue_unsafe : io client unit :=
  o ← opts;
  _ ← change_opts restricted;
  if exit_on_forward_failure o && cancelled_forwarding o then dies else mret tt.

(** What the check found: the status and the entry for the name, those for the
    address, and whether they differ. *)
Record findings := mk_find { host_status : HostStatus; host_found : option hostkey_entry; ip_status : HostStatus; ip_found : option hostkey_entry; host_ip_differ : bool }.

Definition look_up (key : hkey) (host_hostkeys : list hostkey_entry) (ip_hostkeys : option (list hostkey_entry)) : io client findings :=
  let '(hs, hf) := check_key_in_hostkeys host_hostkeys key in
  match ip_hostkeys with
  | Some ip_hostkeys =>
      if is_cert key then mret (mk_find hs hf hs None false)
      else
        let '(is_, if_) := check_key_in_hostkeys ip_hostkeys key in
        if bool_decide (hs = HOST_CHANGED) && bool_decide (is_ = HOST_CHANGED) then
          match if_, hf with
          | Some i, Some h => mret (mk_find hs hf is_ if_ (negb (sshkey_equal (e_key i) (e_key h))))
          | Some _, None => segv
          | None, _ => mret (mk_find hs hf is_ if_ false)
          end
        else mret (mk_find hs hf is_ if_ (bool_decide (hs = HOST_CHANGED)))
  | None => mret (mk_find hs hf hs None false)
  end.

Definition deref (e : option hostkey_entry) : io client unit := match e with Some _ => mret tt | None => segv end.

(** The part of the switch for each status: [None] leads to [fail], [Some b] to what
    follows, with [hostkey_trusted]. *)
Definition case_ok (hostname host ip : cstring) (key : hkey) (readonly : Z) (f : findings) : io client (option bool) :=
  o ← opts;
  _ ← deref (host_found f);
  if is_cert key && negb (check_host_cert (default hostname (host_key_alias o)) key) then mret None
  else if check_host_ip o && bool_decide (ip_status f = HOST_NEW) then
    if negb (readonly =? 0) || is_cert key then mret (Some true)
    else file ← first_hostfile; _ ← in_world (add_host_to_hostfile file ip (Some key) (hash_known_hosts o)); mret (Some true)
  else if visual_host_key o then _ ← fingerprint key; mret (Some true)
  else mret (Some true).

Definition case_new (without_port : hkey -> io client bool) (host ip : cstring) (port : Z) (key : hkey) (readonly : Z) (host_hostkeys : list hostkey_entry) (f : findings) : io client (option bool) :=
  o ← opts;
  known ← (if match host_key_alias o with None => negb (port =? 0) && negb (port =? SSH_DEFAULT_PORT) | Some _ => false end then without_port key else mret false);
  o ← opts;
  if known : bool then mret (Some false)
  else if negb (readonly =? 0) || is_cert key then mret None
  else if strict_host_key_checking o =? SSH_STRICT_HOSTKEY_YES then mret None
  else if strict_host_key_checking o =? SSH_STRICT_HOSTKEY_ASK then
    _ ← show_other_keys host_hostkeys key;
    _ ← fingerprint key;
    confirmed ← confirm (Some (fingerprint_text key));
    if negb confirmed then mret None else _ ← add_new_host host ip (ip_status f) key; mret (Some true)
  else _ ← add_new_host host ip (ip_status f) key; mret (Some false).

Definition case_revoked : io client (option bool) :=
  o ← opts;
  if negb (strict_host_key_checking o =? SSH_STRICT_HOSTKEY_OFF) then mret None else _ ← continue_unsafe; mret (Some false).

Definition case_changed (key : hkey) (readonly : Z) (f : findings) : io client (option bool) :=
  o ← opts;
  if is_cert key then _ ← deref (host_found f); mret None
  else if readonly =? ROQUIET then mret None
  else
    _ ← (if check_host_ip o && host_ip_differ f && negb (bool_decide (ip_status f = HOST_NEW)) then deref (ip_found f) else mret tt);
    _ ← warn_changed_key key;
    _ ← first_hostfile;
    _ ← deref (host_found f);
    if negb (strict_host_key_checking o =? SSH_STRICT_HOSTKEY_OFF) then mret None else _ ← continue_unsafe; mret (Some false).

(** What follows the switch. *)
Definition after_switch (f : findings) (hostkey_trusted : bool) : io client bool :=
  o ← opts;
  ok ← (if check_host_ip o && negb (bool_decide (host_status f = HOST_CHANGED)) && bool_decide (ip_status f = HOST_CHANGED) then
          _ ← deref (ip_found f);
          _ ← (if bool_decide (host_status f = HOST_OK) then deref (host_found f) else mret tt);
          if strict_host_key_checking o =? SSH_STRICT_HOSTKEY_ASK then confirm None
          else mret (strict_host_key_checking o =? SSH_STRICT_HOSTKEY_OFF)
        else mret true);
  if negb ok then mret false
  else _ ← (if negb hostkey_trusted && update_hostkeys o then change_opts (set_update_hostkeys false) else mret tt); mret true.

(** From [retry] on, for a key; a certificate that is not accepted is tried again as
    a plain key, which needs one more turn. *)
Fixpoint check_turns (turns : nat) (without_port : hkey -> io client bool) (hostname host ip : cstring) (port : Z) (key : hkey) (readonly : Z) (host_hostkeys : list hostkey_entry) (ip_hostkeys : option (list hostkey_entry)) : io client bool :=
  match turns with
  | O => no_fuel
  | S turns =>
      f ← look_up key host_hostkeys ip_hostkeys;
      x ← match host_status f with
          | HOST_OK => case_ok hostname host ip key readonly f
          | HOST_NEW => case_new without_port host ip port key readonly host_hostkeys f
          | HOST_REVOKED => case_revoked
          | HOST_CHANGED => case_changed key readonly f
          | HOST_FOUND => dies
          end;
      ok ← match x with None => mret false | Some trusted => after_switch f trusted end;
      if ok : bool then mret true
      else if is_cert key && negb (bool_decide (host_status f = HOST_REVOKED)) then
        match sshkey_from_private key with
        | Err _ => dies
        | Ok raw =>
            match sshkey_drop_cert raw with
            | Err _ => dies
            | Ok raw_key => check_turns turns without_port hostname host ip port raw_key readonly host_hostkeys ip_hostkeys
            end
        end
      else mret false
  end.

(** [check_host_key], given the call without port that it makes. *)
Definition check_host_key_with (without_port : hkey -> io client bool) (hostname : cstring) (hostaddr : host_addr) (port : Z) (host_key : hkey) (readonly : Z) : io client bool :=
  o ← opts;
  if no_host_authentication_for_localhost o && sockaddr_is_local hostaddr && negb (bool_decide (is_Some (host_key_alias o))) then mret true
  else
    names ← get_hostfile_hostname_ipaddr hostname hostaddr port;
    let '(host, ip) := names in
    _ ← (if check_host_ip o && (sockaddr_is_local hostaddr || bool_decide (hostname = ip) || proxy_command o) then change_opts (set_check_host_ip false) else mret tt);
    host_hostkeys ← in_world (load_files host (user_hostfiles o ++ system_hostfiles o) init_hostkeys);
    o ← opts;
    ip_hostkeys ← (if negb (is_cert host_key) && check_host_ip o then l ← in_world (load_files ip (user_hostfiles o ++ system_hostfiles o) init_hostkeys); mret (Some l) else mret None);
    check_turns 2 without_port hostname host ip port host_key readonly host_hostkeys ip_hostkeys.

(** The call for port 0 makes no further one. *)
Definition check_host_key (hostname : cstring) (hostaddr : host_addr) (port : Z) (host_key : hkey) (readonly : Z) : io client bool :=
  check_host_key_with (fun key => check_host_key_with (fun _ => no_fuel) hostname hostaddr 0 key ROQUIET) hostname hostaddr port host_key readonly.

Definition set_dns_match : io client unit := updates (fun c => mk_client (c_world c) (c_opts c) (c_answers c) (previous_host_key c) true).

(** The lookup in the DNS: whether it settles the check, or the error. *)
Definition check_dns (host : cstring) (hostaddr : host_addr) (host_key : hkey) : io client (result bool) :=
  o ← opts;
  if dns_mode o =? 0 then mret (Ok false)
  else
    match sshkey_from_private host_key with
    | Err r => mret (Err r)
    | Ok plain =>
        let plain := if is_cert plain then match sshkey_drop_cert plain with Ok k => k | Err _ => plain end else plain in
        match verify_host_key_dns host hostaddr plain with
        | None => mret (Ok false)
        | Some flags =>
            let has b := negb (Z.land flags b =? 0) in
            if negb (has DNS_VERIFY_FOUND) then mret (Ok false)
            else if (dns_mode o =? 1) && has DNS_VERIFY_MATCH && has DNS_VERIFY_SECURE then mret (Ok true)
            else if has DNS_VERIFY_MATCH then _ ← set_dns_match; mret (Ok false)
            else _ ← warn_changed_key plain; mret (Ok false)
        end
    end.

(** Up to [out]. *)
Definition verify_key (host : cstring) (hostaddr : host_addr) (host_key : hkey) : io client bool :=
  if sshkey_is_x509 host_key && negb (xkey_validate_cert host_key) then mret false
  else if negb (printable host_key) then mret false
  else if match signature_key host_key with Some ca => negb (printable ca) | None => false end then mret false
  else
    previous ← reads previous_host_key;
    if match previous with Some p => sshkey_equal p host_key | None => false end then mret true
    else
      o ← opts;
      if revoked_host_keys o && match sshkey_check_revoked host_key with Ok _ => false | Err _ => true end then mret false
      else
        d ← check_dns host hostaddr host_key;
        match d with
        | Err _ => mret false
        | Ok true => mret true
        | Ok false => check_host_key host hostaddr (o_port o) host_key RDRW
        end.

Definition set_previous (k : option hkey) : io client unit := updates (fun c => mk_client (c_world c) (c_opts c) (c_answers c) k (matching_host_key_dns c)).

Definition verify_host_key (host : cstring) (hostaddr : host_addr) (host_key : hkey) : io client bool :=
  r ← verify_key host hostaddr host_key;
  if negb r then mret false
  else
    match sshkey_from_private host_key with
    | Err _ => _ ← set_previous None; mret false
    | Ok k => _ ← set_previous (Some k); mret true
    end.
End hostcheck.
