(* ===== verification/HostCheckLaws.v ===== *)
(** The check of a server's key: when it accepts, and that it ends. *)

From Stdlib Require Import String.
From S2P Require Import Prelude Io Sshbuf SshbufGetPut SshbufRead Match AddrMatch Misc AlgNames Digest Base64 Hostfile HostfileLaws HostfileLines HostCheck.
Local Open Scope Z_scope.

(** * Computations that end *)

(** A computation that does not run out of fuel and relates the states by [P]. *)
Definition tame {S A} (P : S -> S -> Prop) (m : io S A) : Prop := forall s, match m s with (NoFuel, _) => False | (_, s') => P s s' end.

Section tame.
Context {S : Type} (P : S -> S -> Prop) `{!PreOrder P}.

Lemma tame_ret {A} (a : A) : tame P (mret a).
Proof. intros s. cbn. reflexivity. Qed.
Lemma tame_segv {A} : tame P (@segv S A).
Proof. intros s. cbn. reflexivity. Qed.
Lemma tame_dies {A} : tame P (@dies S A).
Proof. intros s. cbn. reflexivity. Qed.
Lemma tame_reads {A} (f : S -> A) : tame P (reads f).
Proof. intros s. cbn. reflexivity. Qed.
Lemma tame_bind {A B} (m : io S A) (f : A -> io S B) : tame P m -> (forall a, tame P (f a)) -> tame P (m ≫= f).
Proof.
  intros Hm Hf s. specialize (Hm s). unfold mbind, io_bind. destruct (m s) as [[a|c| |] s1]; try done. specialize (Hf a s1). destruct (f a s1) as [[b|c| |] s2]; try done; by etransitivity.
Qed.
End tame.

Create HintDb tame.
#[export] Hint Resolve tame_ret tame_segv tame_dies tame_reads tame_bind : tame.
(** Case analysis on what a computation depends on. *)
Ltac tame_cases := repeat match goal with |- tame _ (match ?x with _ => _ end) => destruct x | |- tame _ (let '(_, _) := ?x in _) => destruct x end.
Ltac tame := repeat (cbn zeta; lazymatch goal with
  | |- forall _, _ => intro
  | |- tame _ (mbind _ _) => apply tame_bind; [apply _|..]
  | |- tame _ (match _ with _ => _ end) => tame_cases
  | |- tame _ _ => solve [eauto with tame typeclass_instances]
  end).

(** The files stay the same, and the system does not begin to fail. *)
Definition same_files (w w' : world) : Prop := files w' = files w /\ (faults w = [] -> faults w' = []).
#[global] Instance same_files_pre : PreOrder same_files.
Proof. split; [by intros w|]. intros a b c [E1 Q1] [E2 Q2]. split; [congruence|auto]. Qed.
Definition any_world (w w' : world) : Prop := True.
#[global] Instance any_world_pre : PreOrder any_world.
Proof. done. Qed.

Section world.
Context `{Allocator} `{EvpDigest} `{KnownKeys} `{HostEnv}.

Lemma tame_any {A} (P : world -> world -> Prop) (m : io world A) : tame P m -> tame any_world m.
Proof. intros Hm w. specialize (Hm w). by destruct (m w) as [[] ?]. Qed.

Lemma at_tame cp : tame same_files (at_ cp).
Proof. unfold at_. tame. Qed.
Lemma fault_tame : tame same_files next_fault.
Proof. intros w. unfold next_fault. by destruct (faults w) eqn:Ef; split; cbn; rewrite ?Ef. Qed.
Lemma salt_tame len : tame same_files (new_salt len).
Proof. intros w. cbn. by split. Qed.
#[local] Hint Resolve at_tame fault_tame salt_tame : tame.

Lemma sshkey_read_tame cp : tame same_files (sshkey_read cp).
Proof. unfold sshkey_read, read_filled. tame. Qed.
#[local] Hint Resolve sshkey_read_tame : tame.
Lemma read_key_tame cp : tame same_files (hostfile_read_key cp).
Proof. unfold hostfile_read_key. tame. Qed.
Lemma hmac_host_tame salt host : tame same_files (hmac_host salt host).
Proof. unfold hmac_host. tame. Qed.
#[local] Hint Resolve read_key_tame hmac_host_tame : tame.
Lemma host_hash_tame host name : tame same_files (host_hash host name).
Proof. unfold host_hash. tame. Qed.
#[local] Hint Resolve host_hash_tame : tame.
Lemma match_maybe_hashed_tame host names : tame same_files (match_maybe_hashed host names).
Proof. unfold match_maybe_hashed. tame. Qed.
Lemma check_markers_tame cp : tame same_files (check_markers cp).
Proof. unfold check_markers. tame. Qed.
#[local] Hint Resolve match_maybe_hashed_tame check_markers_tame : tame.
Lemma match_names_tame host ip l : tame same_files (match_names host ip l).
Proof. unfold match_names, match_name. tame. Qed.
Lemma record_tame host l hk : tame same_files (record_hostkey host l hk).
Proof. unfold record_hostkey. tame. Qed.
#[local] Hint Resolve match_names_tame record_tame : tame.
Section foreach.
Context {C : Type} (callback : hostkey_foreach_line -> C -> io world (result unit * C)) (path : cstring) (host ip : option cstring) (options : Z).
Hypothesis callback_tame : forall l ctx, tame same_files (callback l ctx).
#[local] Hint Resolve callback_tame : tame.

Lemma check_keytype_tame cp l : tame same_files (check_keytype cp l).
Proof. unfold check_keytype. tame. Qed.
#[local] Hint Resolve check_keytype_tame : tame.
Lemma foreach_key_tame cp l ctx : tame same_files (foreach_key callback options cp l ctx).
Proof. unfold foreach_key. tame. Qed.
#[local] Hint Resolve foreach_key_tame : tame.
Lemma foreach_line_tame n line ctx : tame same_files (foreach_line callback path host ip options n line ctx).
Proof. unfold foreach_line. tame. Qed.
#[local] Hint Resolve foreach_line_tame : tame.
Lemma foreach_lines_tame n lines ctx : tame same_files (foreach_lines callback path host ip options n lines ctx).
Proof. revert n ctx. induction lines as [|line lines IH]; intros n ctx; cbn [foreach_lines]; tame. Qed.
#[local] Hint Resolve foreach_lines_tame : tame.
Lemma hostkeys_foreach_tame ctx : tame same_files (hostkeys_foreach callback path host ip options ctx).
Proof. unfold hostkeys_foreach, fopen_read. tame. Qed.
End foreach.
#[local] Hint Resolve hostkeys_foreach_tame : tame.

Lemma load_hostkeys_tame host path hk : tame same_files (load_hostkeys host path hk).
Proof. unfold load_hostkeys. tame. Qed.
#[local] Hint Resolve load_hostkeys_tame : tame.
Lemma load_files_tame host paths hk : tame same_files (load_files host paths hk).
Proof. revert hk. induction paths as [|path paths IH]; intros hk; cbn [load_files]; tame. Qed.

Lemma add_host_tame filename host key store_hash : tame any_world (add_host_to_hostfile filename host key store_hash).
Proof.
  pose proof (tame_any same_files _ fault_tame) as Hf. assert (forall f, tame any_world (set_files f)) as Hs by done. assert (forall h n, tame any_world (host_hash h n)) as Hh by (intros; eapply tame_any, host_hash_tame).
  unfold add_host_to_hostfile, fopen_append, sys_call, write_host_entry, fclose_text. tame.
Qed.
End world.

(** * The client *)

(** [m] ends from [s], and what it returns satisfies [Q]. *)
Definition ends {S A} (m : io S A) (s : S) (Q : A -> S -> Prop) : Prop := match m s with (Ret a, s') => Q a s' | (NoFuel, _) => False | _ => True end.

Section ends.
Context {S : Type}.
Lemma ends_ret {A} (a : A) (s : S) (Q : A -> S -> Prop) : Q a s -> ends (mret a) s Q.
Proof. done. Qed.
Lemma ends_bind {A B} (m : io S A) (f : A -> io S B) s Q : ends m s (fun a s' => ends (f a) s' Q) -> ends (m ≫= f) s Q.
Proof. unfold ends, mbind, io_bind. by destruct (m s) as [[a|c| |] s1]. Qed.
Lemma ends_mono {A} (m : io S A) s (Q Q' : A -> S -> Prop) : ends m s Q -> (forall a s', Q a s' -> Q' a s') -> ends m s Q'.
Proof. unfold ends. intros Hm HQ. destruct (m s) as [[a|c| |] s1]; try done. by apply HQ. Qed.
Lemma ends_and {A} (m : io S A) s (Q Q' : A -> S -> Prop) : ends m s Q -> ends m s Q' -> ends m s (fun a s' => Q a s' /\ Q' a s').
Proof. unfold ends. by destruct (m s) as [[a|c| |] s1]. Qed.
Lemma ends_tame {A} (P : S -> S -> Prop) (m : io S A) s : tame P m -> ends m s (fun _ s' => P s s').
Proof. intros Hm. specialize (Hm s). unfold ends. by destruct (m s) as [[a|c| |] s1]. Qed.
(** A step that only matters for the relation. *)
Lemma ends_step {A B} (P : S -> S -> Prop) (m : io S A) (f : A -> io S B) s Q : tame P m -> (forall a s', P s s' -> ends (f a) s' Q) -> ends (m ≫= f) s Q.
Proof. intros Hm Hf. apply ends_bind. eapply ends_mono; [by apply ends_tame|]. intros a s' HP. by apply Hf. Qed.
Lemma ends_reads {A B} (g : S -> A) (f : A -> io S B) s Q : ends (f (g s)) s Q -> ends (reads g ≫= f) s Q.
Proof. done. Qed.
End ends.

(** All that could be used against a user whose server is not known is off. *)
Definition locked_down (o : client_options) : Prop :=
  password_authentication o = false /\ kbd_interactive_authentication o = false /\ challenge_response_authentication o = false /\ forward_agent o = false /\ forward_x11 o = false /\
  num_local_forwards o = 0 /\ num_remote_forwards o = 0 /\ tun_open o = SSH_TUNMODE_NO.

(** The options that decide about a key. *)
Definition policy (o : client_options) : Z * option cstring * (list cstring * list cstring) * (bool * bool) :=
  (strict_host_key_checking o, host_key_alias o, (user_hostfiles o, system_hostfiles o), (batch_mode o, no_host_authentication_for_localhost o)).

Section client.
Context `{Allocator} `{EvpDigest} `{KnownKeys} `{HostEnv} `{!CheckKeys}.

Record kept (c c' : client) : Prop := {
  kept_policy : policy (c_opts c') = policy (c_opts c);
  kept_locked : locked_down (c_opts c) -> locked_down (c_opts c');
  kept_answers : exists l, c_answers c = l ++ c_answers c'
}.
Definition kept_files (c c' : client) : Prop := kept c c' /\ same_files (c_world c) (c_world c').

#[export] Instance kept_pre : PreOrder kept.
Proof.
  split; [intros c; split; [done|done|by exists []]|]. intros a b c [P1 L1 (l1 & A1)] [P2 L2 (l2 & A2)]. split; [congruence|auto|]. exists (l1 ++ l2). by rewrite A1, A2, app_assoc.
Qed.
#[export] Instance kept_files_pre : PreOrder kept_files.
Proof. split; [intros c; by split|]. intros a b c [K1 F1] [K2 F2]. split; by etransitivity. Qed.

Lemma tame_kept {A} (m : io client A) : tame kept_files m -> tame kept m.
Proof. intros Hm c. specialize (Hm c). destruct (m c) as [[] ?]; try done; apply Hm. Qed.

Lemma in_world_kept {A} (m : io world A) : tame any_world m -> tame kept (in_world m).
Proof. intros Hm c. specialize (Hm (c_world c)). unfold in_world. destruct (m (c_world c)) as [[] w]; try done; split; try done; by exists []. Qed.
Lemma in_world_files {A} (m : io world A) : tame same_files m -> tame kept_files (in_world m).
Proof. intros Hm c. specialize (Hm (c_world c)). unfold in_world. destruct (m (c_world c)) as [[] w]; try done; (split; [split; try done; by exists []|exact Hm]). Qed.
Lemma opts_kept : tame kept_files opts.
Proof. apply tame_reads. apply _. Qed.
Lemma change_opts_kept f : (forall o, policy (f o) = policy o /\ (locked_down o -> locked_down (f o))) -> tame kept_files (change_opts f).
Proof. intros Hf c. cbn. split; [|done]. destruct (Hf (c_opts c)) as [Hp Hl]. split; cbn; try done. by exists []. Qed.
Lemma confirm_loop_rest fp l : exists l1, l = l1 ++ snd (confirm_loop fp l).
Proof.
  induction l as [|[p|] l [l1 IH]]; [by exists []| |by exists [None]]. cbn. destruct (says_no p); [by exists [Some p]|]. destruct (says_yes fp p); [by exists [Some p]|]. exists (Some p :: l1). by rewrite IH at 1.
Qed.
Lemma confirm_kept fp : tame kept_files (confirm fp).
Proof.
  intros c. unfold confirm. destruct (batch_mode _); [cbn; reflexivity|]. destruct (confirm_loop_rest fp (c_answers c)) as [l1 E]. destruct (confirm_loop fp (c_answers c)) as [a l].
  split; [|done]. split; cbn; try done. by exists l1.
Qed.
Lemma fingerprint_kept key : tame kept_files (fingerprint key).
Proof. unfold fingerprint. tame. Qed.
Lemma set_check_host_ip_kept b : tame kept_files (change_opts (set_check_host_ip b)).
Proof. by apply change_opts_kept. Qed.
Lemma set_update_hostkeys_kept b : tame kept_files (change_opts (set_update_hostkeys b)).
Proof. by apply change_opts_kept. Qed.
Lemma restricted_kept : tame kept_files (change_opts restricted).
Proof. apply change_opts_kept. intros o. by split. Qed.
Lemma deref_kept e : tame kept_files (deref e).
Proof. unfold deref. tame. Qed.
#[local] Hint Resolve opts_kept confirm_kept fingerprint_kept set_check_host_ip_kept set_update_hostkeys_kept restricted_kept deref_kept : tame.

Lemma first_hostfile_kept : tame kept_files first_hostfile.
Proof. unfold first_hostfile. tame. Qed.
Lemma show_other_keys_kept hk key : tame kept_files (show_other_keys hk key).
Proof.
  unfold show_other_keys. generalize false. induction other_types as [|[type subtype] l IH]; intros b; cbn [show_other_keys_from]; tame.
Qed.
Lemma continue_unsafe_kept : tame kept_files continue_unsafe.
Proof. unfold continue_unsafe. tame. Qed.
Lemma look_up_kept key hk ip_hk : tame kept_files (look_up key hk ip_hk).
Proof. unfold look_up. tame. Qed.
Lemma after_switch_kept f b : tame kept_files (after_switch f b).
Proof. unfold after_switch. tame. Qed.
Lemma names_kept hostname hostaddr port : tame kept_files (get_hostfile_hostname_ipaddr hostname hostaddr port).
Proof. unfold get_hostfile_hostname_ipaddr. tame. Qed.
Lemma case_changed_kept key readonly f : tame kept_files (case_changed key readonly f).
Proof. pose proof first_hostfile_kept. pose proof continue_unsafe_kept. unfold case_changed, warn_changed_key. tame. Qed.
Lemma add_new_host_kept host ip st key : tame kept (add_new_host host ip st key).
Proof.
  assert (forall f h k b, tame kept (in_world (add_host_to_hostfile f h k b))) as Ha by (intros; apply in_world_kept, add_host_tame). pose proof (tame_kept _ first_hostfile_kept). pose proof (tame_kept _ opts_kept). unfold add_new_host. tame.
Qed.

(** * Acceptance *)

(** The user was asked, and an answer that was read between [c] and [c'] says yes
    (or is the fingerprint, if the question shows it). *)
Definition asked (fp : option cstring) (c c' : client) : Prop :=
  batch_mode (c_opts c) = false /\
  exists before p later, c_answers c = before ++ Some p :: later ++ c_answers c' /\ says_no p = false /\ says_yes fp p = true.

Lemma confirm_loop_yes fp l l' : confirm_loop fp l = (true, l') -> exists before p, l = before ++ Some p :: l' /\ says_no p = false /\ says_yes fp p = true.
Proof.
  induction l as [|[p|] l IH]; cbn; [done| |done]. destruct (says_no p) eqn:En; [done|]. destruct (says_yes fp p) eqn:Ey; [intros [= <-]; by exists [], p|].
  intros E. destruct (IH E) as (before & q & -> & Hq). by exists (Some p :: before), q.
Qed.

Lemma confirm_asked fp c : ends (confirm fp) c (fun a c' => a = true -> asked fp c c').
Proof.
  unfold ends, confirm, asked. destruct (batch_mode _); [done|]. destruct (confirm_loop fp (c_answers c)) as [a l] eqn:E. intros ->. split; [done|].
  destruct (confirm_loop_yes _ _ _ E) as (before & p & -> & Hp). by exists before, p, [].
Qed.

Lemma asked_kept fp c0 c c' c1 : kept c0 c -> kept c' c1 -> asked fp c c' -> asked fp c0 c1.
Proof.
  intros [Hp _ (l & Hl)] [_ _ (l' & Hl')] [Hb (before & p & later & Ha & Hy)]. unfold policy in Hp. injection Hp as _ _ _ _ Hb' _. split; [congruence|].
  exists (l ++ before), p, (later ++ l'). split; [|done]. by rewrite Hl, Ha, Hl', <- !app_assoc.
Qed.

(** The entries vouch for a key, or do not know its host. *)
Definition trusted (entries : list hostkey_entry) (name : cstring) (k : hkey) : Prop :=
  (forall e, e ∈ entries -> revoked_entry k e = false) /\ (exists e, e ∈ entries /\ vouches k e) /\ (is_cert k = true -> check_host_cert name k = true).
Definition unknown (entries : list hostkey_entry) (k : hkey) : Prop := is_cert k = false /\ forall e, e ∈ entries -> revoked_entry k e = false /\ ~ counts k e.

Lemma look_up_status key hk ip_hk c : ends (look_up key hk ip_hk) c (fun f c' => kept_files c c' /\ status_meaning hk key (host_status f) (host_found f)).
Proof.
  apply ends_and; [apply ends_tame, look_up_kept|]. pose proof (check_key_meaning hk key) as Hm. unfold look_up. destruct (check_key_in_hostkeys hk key) as [hs hf]. destruct ip_hk as [ip_hk|]; [|done]. destruct (is_cert key); [done|].
  destruct (check_key_in_hostkeys ip_hk key) as [is_ if_]. destruct (_ && _); [|done]. destruct if_; [|done]. by destruct hf.
Qed.

Section turn.
Variables (c0 : client) (hostname host ip : cstring) (port readonly : Z) (hk : list hostkey_entry) (ip_hk : option (list hostkey_entry)).
Variables (without_port : hkey -> io client bool) (W : hkey -> client -> Prop).
Abbreviation strict := (strict_host_key_checking (c_opts c0)).
Abbreviation name := (default hostname (host_key_alias (c_opts c0))).
Hypothesis W_kept : forall k c c', kept c c' -> W k c -> W k c'.
Hypothesis without_port_spec : forall k c, kept_files c0 c -> host_key_alias (c_opts c0) = None -> port <> 0 -> port <> SSH_DEFAULT_PORT -> ends (without_port k) c (fun a c' => kept_files c c' /\ (a = true -> W k c')).

(** How a key is accepted. *)
Definition accepts (key : hkey) (c' : client) : Prop :=
  trusted hk name key \/ W key c' \/ (readonly = 0 /\ strict <> SSH_STRICT_HOSTKEY_YES /\ (strict = SSH_STRICT_HOSTKEY_ASK -> asked (Some (fingerprint_text key)) c0 c') /\ unknown hk key) \/ (strict = SSH_STRICT_HOSTKEY_OFF /\ locked_down (c_opts c')).

Lemma kept_fields c : kept c0 c -> strict_host_key_checking (c_opts c) = strict /\ host_key_alias (c_opts c) = host_key_alias (c_opts c0).
Proof. intros [Hp _ _]. unfold policy in Hp. by injection Hp as -> -> _ _ _ _. Qed.

Lemma case_ok_spec key f c : kept_files c0 c ->
  ends (case_ok hostname host ip key readonly f) c (fun x c' => kept c c' /\ (readonly <> 0 \/ is_cert key = true -> kept_files c c') /\ forall b, x = Some b -> is_cert key = true -> check_host_cert name key = true).
Proof.
  intros Hk. destruct (kept_fields c (proj1 Hk)) as [_ Ha]. unfold case_ok. apply ends_reads. eapply ends_step; [apply deref_kept|]. intros _ c1 K1.
  assert (forall b : bool, (is_cert key = true -> check_host_cert name key = true) -> kept c c1 /\ (readonly <> 0 \/ is_cert key = true -> kept_files c c1) /\ forall b', Some b = Some b' -> is_cert key = true -> check_host_cert name key = true) as Hret by (intros b Hc; split; [apply K1|done]).
  rewrite Ha. destruct (is_cert key && _) eqn:Ec; [split; [apply K1|done]|]. assert (is_cert key = true -> check_host_cert name key = true) as Hc by (intros E; rewrite E in Ec; by apply negb_false_iff in Ec).
  destruct (_ && bool_decide _); [destruct (negb (readonly =? 0) || is_cert key) eqn:Er; [by apply ends_ret, Hret|]|].
  - apply orb_false_iff in Er as [Er1 Er2]. apply negb_false_iff, Z.eqb_eq in Er1. eapply ends_step; [apply first_hostfile_kept|]. intros file c2 K2. eapply ends_step; [apply in_world_kept, add_host_tame|]. intros _ c3 K3. apply ends_ret.
    split; [transitivity c1; [apply K1|]; transitivity c2; [apply K2|done]|]. split; [intros [?|?]; congruence|]. intros b' _. exact Hc.
  - destruct (visual_host_key _); [|by apply ends_ret, Hret]. eapply ends_step; [apply fingerprint_kept|]. intros _ c2 K2. apply ends_ret. split; [transitivity c1; [apply K1|apply K2]|]. split; [intros _; by transitivity c1|done].
Qed.

Lemma case_new_spec key f c : kept_files c0 c ->
  ends (case_new without_port host ip port key readonly hk f) c (fun x c' => kept c c' /\ (readonly <> 0 \/ is_cert key = true -> kept_files c c') /\
    forall b, x = Some b -> W key c' \/ (readonly = 0 /\ is_cert key = false /\ strict <> SSH_STRICT_HOSTKEY_YES /\ (strict = SSH_STRICT_HOSTKEY_ASK -> asked (Some (fingerprint_text key)) c0 c'))).
Proof.
  intros Hk. destruct (kept_fields c (proj1 Hk)) as [_ Ha]. unfold case_new. apply ends_reads. rewrite Ha.
  assert (ends (if match host_key_alias (c_opts c0) with None => negb (port =? 0) && negb (port =? SSH_DEFAULT_PORT) | Some _ => false end then without_port key else mret false) c (fun a c' => kept_files c c' /\ (a = true -> W key c'))) as Hw.
  { destruct (host_key_alias (c_opts c0)) eqn:Ea; [by apply ends_ret|]. destruct (Z.eqb_spec port 0); [by apply ends_ret|]. destruct (Z.eqb_spec port SSH_DEFAULT_PORT); [by apply ends_ret|]. by apply without_port_spec. }
  apply ends_bind. eapply ends_mono; [exact Hw|]. intros known c1 [K1 Hkn]. apply ends_reads. assert (kept_files c0 c1) as K01 by (by transitivity c). destruct (kept_fields c1 (proj1 K01)) as [-> _]. destruct known; [apply ends_ret; split; [apply K1|]; split; [done|]; intros b _; left; auto|].
  destruct (negb (readonly =? 0) || is_cert key) eqn:Er; [apply ends_ret; split; [apply K1|done]|]. apply orb_false_iff in Er as [Er1 Er2]. apply negb_false_iff, Z.eqb_eq in Er1.
  destruct (Z.eqb_spec strict SSH_STRICT_HOSTKEY_YES) as [|Hy]; [apply ends_ret; split; [apply K1|done]|]. destruct (Z.eqb_spec strict SSH_STRICT_HOSTKEY_ASK) as [Hask|Hask].
  - eapply ends_step; [apply show_other_keys_kept|]. intros _ c2 K2. eapply ends_step; [apply fingerprint_kept|]. intros _ c3 K3. apply ends_bind. eapply ends_mono; [apply ends_and; [apply ends_tame, confirm_kept|apply confirm_asked]|].
    intros confirmed c4 [K4 Hc]. assert (kept_files c c4) as K by (transitivity c1; [done|]; transitivity c2; [done|]; by transitivity c3). destruct confirmed; cbn [negb]; [|apply ends_ret; split; [apply K|done]].
    eapply ends_step; [apply add_new_host_kept|]. intros _ c5 K5. apply ends_ret. split; [transitivity c4; [apply K|done]|]. split; [intros [?|?]; congruence|]. intros b _. right. split_and!; [done..|]. intros _. apply (asked_kept _ c0 c3 c4); [|done|by apply Hc].
    transitivity c1; [apply K01|]. transitivity c2; [apply K2|apply K3].
  - eapply ends_step; [apply add_new_host_kept|]. intros _ c5 K5. apply ends_ret. split; [transitivity c1; [apply K1|done]|]. split; [intros [?|?]; congruence|]. intros b _. right. by split_and!.
Qed.

Lemma continue_unsafe_locks c : ends continue_unsafe c (fun _ c' => kept_files c c' /\ locked_down (c_opts c')).
Proof. apply ends_and; [apply ends_tame, continue_unsafe_kept|]. unfold continue_unsafe. apply ends_reads. unfold ends, mbind, io_bind. cbn. by destruct (_ && _). Qed.

(** The end of the two unsafe cases. *)
Lemma unsafe_spec c c1 : kept_files c c1 ->
  ends (if negb (strict =? SSH_STRICT_HOSTKEY_OFF) then mret None else _ ← continue_unsafe; mret (Some false)) c1 (fun x c' => kept_files c c' /\ forall b : bool, x = Some b -> strict = SSH_STRICT_HOSTKEY_OFF /\ locked_down (c_opts c')).
Proof.
  intros K1. destruct (Z.eqb_spec strict SSH_STRICT_HOSTKEY_OFF) as [E|]; [|by apply ends_ret]. cbn [negb]. apply ends_bind. eapply ends_mono; [apply continue_unsafe_locks|]. intros _ c' [K Hl]. apply ends_ret. split; [by transitivity c1|]. by intros b _.
Qed.

Lemma case_revoked_spec c : kept_files c0 c -> ends case_revoked c (fun x c' => kept_files c c' /\ forall b, x = Some b -> strict = SSH_STRICT_HOSTKEY_OFF /\ locked_down (c_opts c')).
Proof. intros Hk. unfold case_revoked. apply ends_reads. destruct (kept_fields c (proj1 Hk)) as [-> _]. by apply unsafe_spec. Qed.

Lemma case_changed_spec key f c : kept_files c0 c -> ends (case_changed key readonly f) c (fun x c' => kept_files c c' /\ forall b, x = Some b -> strict = SSH_STRICT_HOSTKEY_OFF /\ locked_down (c_opts c')).
Proof.
  intros Hk. unfold case_changed, warn_changed_key. apply ends_reads. destruct (kept_fields c (proj1 Hk)) as [-> _]. destruct (is_cert key).
  { eapply ends_step; [apply deref_kept|]. intros _ c1 K1. by apply ends_ret. }
  destruct (readonly =? ROQUIET); [by apply ends_ret|]. eapply (ends_step kept_files); [destruct (_ && _ && _); [apply deref_kept|apply tame_ret; apply _]|]. intros _ c1 K1. eapply ends_step; [apply fingerprint_kept|]. intros _ c2 K2.
  eapply ends_step; [apply first_hostfile_kept|]. intros _ c3 K3. eapply ends_step; [apply deref_kept|]. intros _ c4 K4. apply unsafe_spec. transitivity c1; [done|]. transitivity c2; [done|]. by transitivity c3.
Qed.

Lemma after_switch_spec f b c : ends (after_switch f b) c (fun _ c' => kept_files c c').
Proof. apply ends_tame, after_switch_kept. Qed.

Lemma accepts_kept key c c' : kept c c' -> accepts key c -> accepts key c'.
Proof. intros K [?|[Hw|[(Hr & Hy & Ha & Hu)|[Hs Hl]]]]; [by left|right; left; by eapply W_kept|right; right; left|right; right; right].
  { split_and!; [done..| |done]. intros E. apply (asked_kept _ c0 c0 c); [done|done|auto]. }
  split; [done|]. by apply (kept_locked _ _ K). Qed.

(** The part of a turn up to what [fail] does. *)
Lemma turn_body n key c Q :
  kept_files c0 c ->
  (forall c', kept c c' -> (readonly <> 0 \/ is_cert key = true -> kept_files c c') -> accepts key c' -> Q true c') ->
  (forall f c', kept c c' -> (readonly <> 0 \/ is_cert key = true -> kept_files c c') ->
    ends (if is_cert key && negb (bool_decide (host_status f = HOST_REVOKED)) then
            match sshkey_from_private key with
            | Err _ => dies
            | Ok raw => match sshkey_drop_cert raw with Err _ => dies | Ok raw_key => check_turns n without_port hostname host ip port raw_key readonly hk ip_hk end
            end
          else mret false) c' Q) ->
  ends (check_turns (S n) without_port hostname host ip port key readonly hk ip_hk) c Q.
Proof.
  intros Hk Ht Hf. cbn [check_turns]. apply ends_bind. eapply ends_mono; [apply look_up_status|]. intros f c1 [K1 Hm]. assert (kept_files c0 c1) as K01 by by transitivity c.
  assert (ends match host_status f with HOST_OK => case_ok hostname host ip key readonly f | HOST_NEW => case_new without_port host ip port key readonly hk f | HOST_CHANGED => case_changed key readonly f | HOST_REVOKED => case_revoked | HOST_FOUND => dies end c1
    (fun x c' => kept c1 c' /\ (readonly <> 0 \/ is_cert key = true -> kept_files c1 c') /\ forall b, x = Some b -> accepts key c')) as Hcase.
  { destruct (host_status f); cbn [status_meaning] in Hm.
    - eapply ends_mono; [by apply case_ok_spec|]. intros x c2 (K2 & F2 & Hx). split_and!; [done..|]. intros b E. left. destruct Hm as (Hr & e & _ & He & Hv). split_and!; [done|by exists e|]. by apply (Hx b).
    - eapply ends_mono; [by apply case_new_spec|]. intros x c2 (K2 & F2 & Hx). split_and!; [done..|]. intros b E. destruct (Hx b E) as [Hw|(Hro & Hc & Hy & Ha)]; [by right; left|right; right; left]. split_and!; [done..|]. destruct Hm as (Hr & _ & Hn). split; [done|].
      intros e He. split; [by apply Hr|by apply Hn].
    - eapply ends_mono; [by apply case_changed_spec|]. intros x c2 (F2 & Hx). split_and!; [apply F2|done|]. intros b E. right; right; right. by apply (Hx b).
    - eapply ends_mono; [by apply case_revoked_spec|]. intros x c2 (F2 & Hx). split_and!; [apply F2|done|]. intros b E. right; right; right. by apply (Hx b).
    - done. }
  apply ends_bind. eapply ends_mono; [exact Hcase|]. intros x c2 (K2 & F2 & Hx). assert (kept c c2) as K by (transitivity c1; [apply K1|done]). assert (readonly <> 0 \/ is_cert key = true -> kept_files c c2) as F by (intros Hro; transitivity c1; [done|by apply F2]).
  destruct x as [b|].
  - apply ends_bind. eapply ends_mono; [apply after_switch_spec|]. intros ok c3 K3. destruct ok; [apply ends_ret, Ht|apply Hf]; try (transitivity c2; [done|apply K3]); try (intros Hro; transitivity c2; [by apply F|done]). apply (accepts_kept _ c2); [apply K3|by apply (Hx b)].
  - apply ends_bind, ends_ret. by apply Hf.
Qed.

(** The keys that are looked up for a key. *)
Definition derived (key k : hkey) : Prop := k = key \/ (is_cert key = true /\ exists raw, sshkey_from_private key = Ok raw /\ sshkey_drop_cert raw = Ok k).

Hypothesis dropped_plain : forall raw k, sshkey_drop_cert raw = Ok k -> is_cert k = false.

Lemma check_turns_spec key c : kept_files c0 c ->
  ends (check_turns 2 without_port hostname host ip port key readonly hk ip_hk) c (fun a c' => (readonly <> 0 -> kept_files c c') /\ (a = true -> exists k, derived key k /\ accepts k c')).
Proof.
  intros Hk. apply turn_body; [done|intros c' K F Ha; split; [auto|]; intros _; exists key; split; [by left|done]|]. intros f c1 K1 F1. destruct (is_cert key) eqn:Ec; cbn [andb]; [|apply ends_ret; split; [auto|done]]. destruct (negb _); [|apply ends_ret; split; [auto|done]].
  destruct (sshkey_from_private key) as [raw|] eqn:Er; [|done]. destruct (sshkey_drop_cert raw) as [raw_key|] eqn:Ed; [|done]. specialize (F1 (or_intror eq_refl)). pose proof (dropped_plain raw raw_key Ed) as Hp. apply turn_body; [by transitivity c| |].
  - intros c' K F Ha. split; [intros Hro; transitivity c1; [done|auto]|]. intros _. exists raw_key. split; [|done]. right. split; [done|]. by exists raw.
  - intros f' c' K F. rewrite Hp. cbn [andb]. apply ends_ret. split; [intros Hro; transitivity c1; [done|auto]|done].
Qed.
End turn.

(** * The whole check *)

(** The name under which a host is looked up. *)
Definition hostfile_name (o : client_options) (hostname : cstring) (port : Z) : cstring := match host_key_alias o with Some alias => alias | None => put_host_port hostname port end.
Definition hostfiles (o : client_options) : list cstring := user_hostfiles o ++ system_hostfiles o.

Definition exempt (c : client) (hostaddr : host_addr) : Prop := no_host_authentication_for_localhost (c_opts c) = true /\ sockaddr_is_local hostaddr = true /\ host_key_alias (c_opts c) = None.

(** The entries that are loaded from the files as they are in [c]. *)
Definition loads (c : client) (host : cstring) (entries : list hostkey_entry) : Prop :=
  exists w w', same_files (c_world c) w /\ load_files host (hostfiles (c_opts c)) [] w = (Ret entries, w').

Definition known_key (c : client) (hostname : cstring) (port : Z) (key : hkey) : Prop :=
  exists entries k, loads c (hostfile_name (c_opts c) hostname port) entries /\ derived key k /\ trusted entries (default hostname (host_key_alias (c_opts c))) k.

Definition new_key (c : client) (hostname : cstring) (port : Z) (key : hkey) (c' : client) : Prop :=
  strict_host_key_checking (c_opts c) <> SSH_STRICT_HOSTKEY_YES /\
  exists entries k, loads c (hostfile_name (c_opts c) hostname port) entries /\ derived key k /\ unknown entries k /\
    (strict_host_key_checking (c_opts c) = SSH_STRICT_HOSTKEY_ASK -> asked (Some (fingerprint_text k)) c c').

Lemma in_world_run {A} (m : io world A) c : tame same_files m -> ends (in_world m) c (fun a c' => kept_files c c' /\ m (c_world c) = (Ret a, c_world c')).
Proof. intros Hm. apply ends_and; [by apply ends_tame, in_world_files|]. specialize (Hm (c_world c)). unfold ends, in_world. by destruct (m (c_world c)) as [[] w]. Qed.

Lemma names_run hostname hostaddr port c : ends (get_hostfile_hostname_ipaddr hostname hostaddr port) c (fun x c' => kept_files c c' /\ fst x = hostfile_name (c_opts c) hostname port).
Proof.
  apply ends_and; [apply ends_tame, names_kept|]. unfold get_hostfile_hostname_ipaddr. apply ends_reads. unfold ends, mbind, io_bind. destruct (proxy_command _); [done|]. by destruct (numeric_host hostaddr).
Qed.

Lemma policy_fields o o' : policy o' = policy o -> strict_host_key_checking o' = strict_host_key_checking o /\ host_key_alias o' = host_key_alias o /\ hostfiles o' = hostfiles o /\ batch_mode o' = batch_mode o /\ no_host_authentication_for_localhost o' = no_host_authentication_for_localhost o.
Proof. unfold policy, hostfiles. intros E. by injection E as -> -> -> -> -> ->. Qed.

Section whole.
Hypothesis dropped_plain : forall raw k, sshkey_drop_cert raw = Ok k -> is_cert k = false.

Lemma check_with_spec c0 hostname hostaddr port key readonly without_port W :
  (forall k c c', kept c c' -> W k c -> W k c') ->
  (forall k c, kept_files c0 c -> host_key_alias (c_opts c0) = None -> port <> 0 -> port <> SSH_DEFAULT_PORT -> ends (without_port k) c (fun a c' => kept_files c c' /\ (a = true -> W k c'))) ->
  ends (check_host_key_with without_port hostname hostaddr port key readonly) c0 (fun a c' => (readonly <> 0 -> kept_files c0 c') /\
    (a = true -> exempt c0 hostaddr \/ exists entries k, loads c0 (hostfile_name (c_opts c0) hostname port) entries /\ derived key k /\ accepts c0 hostname readonly entries W k c')).
Proof.
  intros HW Hwp. unfold check_host_key_with. apply ends_reads. destruct (_ && _ && _) eqn:Ex.
  { apply ends_ret. split; [done|]. intros _. left. rewrite !andb_true_iff, negb_true_iff in Ex. destruct Ex as [[E1 E2] E3]. apply bool_decide_eq_false_1 in E3. split_and!; [done..|]. by apply eq_None_not_Some. }
  apply ends_bind. eapply ends_mono; [apply names_run|]. intros [host ip] c1 [K1 Eh]. cbn [fst] in Eh. eapply (ends_step kept_files); [tame|]. intros _ c2 K2.
  apply ends_bind. eapply ends_mono; [apply in_world_run, load_files_tame|]. intros hk c3 [K3 El]. apply ends_reads. eapply (ends_step kept_files).
  { pose proof (in_world_files _ (load_files_tame ip (user_hostfiles (c_opts c3) ++ system_hostfiles (c_opts c3)) init_hostkeys)) as Hip. tame. }
  intros ip_hk c4 K4. assert (kept_files c0 c2) as K02 by by transitivity c1. assert (kept_files c0 c4) as K04 by (transitivity c2; [done|]; by transitivity c3).
  eapply ends_mono; [by apply (check_turns_spec c0 hostname host ip port readonly hk ip_hk without_port W)|]. intros a c' [F Ha]. split; [intros Hro; transitivity c4; [done|auto]|]. intros E. right. destruct (Ha E) as (k & Hd & Hk). exists hk, k. split_and!; [|done..].
  exists (c_world c2), (c_world c3). split; [by destruct K02|]. rewrite <- Eh. exact El.
Qed.

Lemma derived_trans key k k' : derived key k -> derived k k' -> derived key k'.
Proof.
  intros [->|(Hc & raw & Er & Ed)] Hk; [done|]. destruct Hk as [->|(Hc' & _)]; [right; split; [done|by exists raw]|]. by rewrite (dropped_plain raw k Ed) in Hc'.
Qed.

Lemma loads_kept c c' host entries : kept_files c c' -> loads c' host entries -> loads c host entries.
Proof. intros [[Hp _ _] Hf] (w & w' & Ew & El). destruct (policy_fields _ _ Hp) as (_ & _ & Hh & _). exists w, w'. split; [by etransitivity|]. by rewrite <- Hh. Qed.

(** The check without a port. *)
Lemma without_port_spec c0 c hostname hostaddr key : kept_files c0 c -> host_key_alias (c_opts c0) = None ->
  ends (check_host_key_with (fun _ => no_fuel) hostname hostaddr 0 key ROQUIET) c (fun a c' => kept_files c c' /\
    (a = true -> exempt c0 hostaddr \/ known_key c0 hostname 0 key \/ (strict_host_key_checking (c_opts c0) = SSH_STRICT_HOSTKEY_OFF /\ locked_down (c_opts c')))).
Proof.
  intros K Ha. pose proof K as K'. destruct K as [[Hp _ _] _]. destruct (policy_fields _ _ Hp) as (Es & Ea & Eh & _ & Eb). eapply ends_mono; [apply (check_with_spec c hostname hostaddr 0 key ROQUIET (fun _ => no_fuel) (fun _ _ => False)); [done|]; intros k1 c1 _ _ Hz; done|].
  intros a c' [F Hacc]. split; [by apply F|]. intros E. destruct (Hacc E) as [(E1 & E2 & E3)|(entries & k & Hl & Hd & Hk)]; [left; unfold exempt; split_and!; congruence|right]. destruct Hk as [Ht|[[]|[[? _]|[Ho Hk]]]]; [left|done|right; split; [congruence|done]].
  exists entries, k. rewrite Ea in Ht. split_and!; [|done..]. unfold hostfile_name in *. rewrite Ea in Hl. by apply (loads_kept _ c).
Qed.

(** How [check_host_key] comes to accept a key. *)
Definition accepted (c : client) (hostname : cstring) (hostaddr : host_addr) (port : Z) (key : hkey) (readonly : Z) (c' : client) : Prop :=
  exempt c hostaddr \/ known_key c hostname port key \/ (host_key_alias (c_opts c) = None /\ known_key c hostname 0 key) \/ (readonly = 0 /\ new_key c hostname port key c') \/
  (strict_host_key_checking (c_opts c) = SSH_STRICT_HOSTKEY_OFF /\ locked_down (c_opts c')).

Lemma check_host_key_spec c0 hostname hostaddr port key readonly :
  ends (check_host_key hostname hostaddr port key readonly) c0 (fun a c' => a = true -> accepted c0 hostname hostaddr port key readonly c').
Proof.
  set (W := fun k c' => host_key_alias (c_opts c0) = None /\ (exempt c0 hostaddr \/ known_key c0 hostname 0 k \/ (strict_host_key_checking (c_opts c0) = SSH_STRICT_HOSTKEY_OFF /\ locked_down (c_opts c')))).
  unfold check_host_key. eapply ends_mono; [apply (check_with_spec c0 hostname hostaddr port key readonly _ W)|].
  - intros k c c' Hk [Ha [?|[?|[Hs Hl]]]]; (split; [done|]); [by left|by right; left|right; right]. split; [done|]. by apply (kept_locked _ _ Hk).
  - intros k c K Ha _ _. eapply ends_mono; [by apply (without_port_spec c0)|]. intros a c' [K' Hacc]. split; [done|]. intros E. split; [done|]. by apply Hacc.
  - intros a c' [_ Hacc] E. destruct (Hacc E) as [?|(entries & k & Hl & Hd & Hk)]; [by left|]. destruct Hk as [Ht|[(Ha & [?|[(entries' & k' & Hl' & Hd' & Ht')|?]])|[(Hro & Hy & Hask & Hu)|?]]].
    + right; left. by exists entries, k.
    + by left.
    + right; right; left. split; [done|]. exists entries', k'. split_and!; [done|by apply (derived_trans _ k)|done].
    + by right; right; right; right.
    + right; right; right; left. split; [done|]. split; [done|]. by exists entries, k.
    + by right; right; right; right.
Qed.
End whole.
End client.
