(* ===== verification/HostTrust.v ===== *)
(** Trust in a server: the check of its key against the lines of the known hosts
    files. *)

From Stdlib Require Import String.
From S2P Require Import Prelude Io Sshbuf SshbufGetPut SshbufRead Match AddrMatch Misc AlgNames Digest Base64 Hostfile HostfileLaws HostfileLines HostCheck HostCheckLaws.
Local Open Scope Z_scope.

Section trust.
Context `{Allocator} `{EvpDigest} `{KnownKeys} `{HostEnv} `{!CheckKeys} `{!ReliableAllocator _} `{!EvpDigestLaws _}.

(** * Several files *)

Lemma file_of_inj ts ts' : Forall line_text ts -> Forall line_text ts' -> file_of ts = file_of ts' -> ts = ts'.
Proof.
  intros Ht Ht' E. apply (f_equal getlines) in E. rewrite !getlines_file in E by done. clear Ht Ht'. revert ts' E. induction ts as [|t ts IH]; intros [|t' ts'] E; try done. injection E as E1 E2. apply app_inj_tail in E1 as [-> _]. f_equal. by apply IH.
Qed.

Definition plain_file (fs : gmap cstring (list Z)) (path : cstring) : Prop := fs !! path = None \/ exists ts, fs !! path = Some (file_of ts) /\ plain_lines ts.

(** The entries that some of the files have for a host. *)
Definition entry_in (fs : gmap cstring (list Z)) (paths : list cstring) (host : cstring) (e : hostkey_entry) : Prop :=
  exists path ts, path ∈ paths /\ fs !! path = Some (file_of ts) /\ plain_lines ts /\ entry_at host path ts 1 e.

Lemma load_files_run host paths hk w :
  (forall salt, is_Some (host_tag salt host)) -> faults w = [] -> (forall path, path ∈ paths -> plain_file (files w) path) ->
  exists es, load_files host paths hk w = (Ret (hk ++ es), w) /\ forall e, e ∈ es <-> entry_in (files w) paths host e.
Proof.
  intros Hd Hq Hp. revert hk. induction paths as [|path paths IH]; intros hk.
  - exists []. rewrite app_nil_r. split; [done|]. intros e. split; [set_solver|]. intros (p & ts & Hin & _). set_solver.
  - assert (exists es, load_hostkeys host path hk w = (Ret (hk ++ es), w) /\ forall e, e ∈ es <-> exists ts, files w !! path = Some (file_of ts) /\ plain_lines ts /\ entry_at host path ts 1 e) as (es1 & E1 & He1).
    { destruct (Hp path) as [Hn|(ts & Hf & Hr)]; [set_solver|exists []|].
      - rewrite app_nil_r. split; [by apply load_hostkeys_none|]. intros e. split; [set_solver|]. intros (ts & Hf & _). congruence.
      - destruct (load_hostkeys_run host path ts hk w Hd Hq Hr Hf) as (es & E & He). exists es. split; [done|]. intros e. rewrite He. split; [by exists ts|]. intros (ts' & Hf' & Hr' & Hin). rewrite Hf in Hf'. injection Hf' as Hf'.
        by rewrite (file_of_inj ts ts') by (done || apply Hr || apply Hr'). }
    cbn [load_files]. rewrite (bind_run _ _ _ _ _ E1). destruct (IH ltac:(intros p Hin; apply Hp; set_solver) (hk ++ es1)) as (es2 & E2 & He2). exists (es1 ++ es2). rewrite app_assoc. split; [done|]. intros e. rewrite elem_of_app, He1, He2. split.
    + intros [(ts & Hf & Hr & Hin)|(p & ts & Hin & Hx)]; [exists path, ts; split_and!; [set_solver|done..]|exists p, ts; split_and!; [set_solver|by destruct Hx as (? & ? & ?)..]].
    + intros (p & ts & Hin & Hf & Hr & Hx). apply elem_of_cons in Hin as [->|Hin]; [left; by exists ts|right; by exists p, ts].
Qed.

(** * The answer of the check, in terms of the lines *)

Definition line_in (fs : gmap cstring (list Z)) (paths : list cstring) (host : cstring) (mk : HostkeyMarker) (k : hkey) : Prop :=
  exists path ts t, path ∈ paths /\ fs !! path = Some (file_of ts) /\ plain_lines ts /\ t ∈ ts /\ line_entry host t mk k.

Lemma entry_line fs paths host e : entry_in fs paths host e -> line_in fs paths host (e_marker e) (e_key e).
Proof. intros (path & ts & Hin & Hf & Hr & i & t & mk & k & Hi & Hl & ->). exists path, ts, t. split_and!; try done. by eapply list_elem_of_lookup_2. Qed.
Lemma line_entry_in fs paths host mk k : line_in fs paths host mk k -> exists e, entry_in fs paths host e /\ e_marker e = mk /\ e_key e = k.
Proof. intros (path & ts & t & Hin & Hf & Hr & Ht & Hl). apply list_elem_of_lookup_1 in Ht as [i Hi]. eexists. split; [exists path, ts; split_and!; [done..|]; by exists i, t, mk, k|done]. Qed.

(** A line vouches for a key, or revokes it. *)
Definition vouching_line (fs : gmap cstring (list Z)) (paths : list cstring) (host : cstring) (k : hkey) : Prop :=
  exists k', line_in fs paths host (if is_cert k then MRK_CA else MRK_NONE) k' /\ (if is_cert k then equal_ca k k' else hostkey_match k k') = true.
Definition revoking_line (fs : gmap cstring (list Z)) (paths : list cstring) (host : cstring) (k : hkey) : Prop :=
  exists k', line_in fs paths host MRK_REVOKE k' /\ (sshkey_equal_public k k' || equal_ca k k') = true.
Definition plain_line (fs : gmap cstring (list Z)) (paths : list cstring) (host : cstring) : Prop := exists k', line_in fs paths host MRK_NONE k'.

(** C7: What the known hosts files say about a key.  If the files can be read, are
    text in which every line ends with a newline, have no line with a distinguished
    name in the place of a key, and no marker followed by a tab in a line that also
    has a space, and memory can be allocated, then each file is read to its end
    without an error of memory, and the key of a host is answered to be: revoked
    exactly when a line with the marker for revoked keys names the host and the
    key or its certification authority; else known exactly when a line
    without marker (for a certificate: with the marker for authorities) names the
    host and the key; else changed when a line without marker names the host, and
    otherwise new. *)
Theorem known_hosts_answer host paths key w :
  (forall salt, is_Some (host_tag salt host)) -> faults w = [] -> (forall path, path ∈ paths -> plain_file (files w) path) ->
  exists entries, load_files host paths init_hostkeys w = (Ret entries, w) /\
    match fst (check_key_in_hostkeys entries key) with
    | HOST_REVOKED => revoking_line (files w) paths host key
    | HOST_OK => ~ revoking_line (files w) paths host key /\ vouching_line (files w) paths host key
    | HOST_CHANGED => ~ revoking_line (files w) paths host key /\ ~ vouching_line (files w) paths host key /\ is_cert key = false /\ plain_line (files w) paths host
    | HOST_NEW => ~ revoking_line (files w) paths host key /\ ~ vouching_line (files w) paths host key /\ (is_cert key = true \/ ~ plain_line (files w) paths host)
    | HOST_FOUND => False
    end.
Proof.
  intros Hd Hq Hp. destruct (load_files_run host paths init_hostkeys w Hd Hq Hp) as (es & E & He). exists es. split; [exact E|].
  assert (forall e, e ∈ es -> line_in (files w) paths host (e_marker e) (e_key e)) as Hline by (intros e Hin; by apply entry_line, He).
  assert (forall mk k, line_in (files w) paths host mk k -> exists e, e ∈ es /\ e_marker e = mk /\ e_key e = k) as Hentry by (intros mk k Hl; destruct (line_entry_in _ _ _ _ _ Hl) as (e & Hin & Hm); exists e; split; [by apply He|done]).
  assert ((forall e, e ∈ es -> revoked_entry key e = false) -> ~ revoking_line (files w) paths host key) as Hrev.
  { intros Hn (k' & Hl & Hk). destruct (Hentry _ _ Hl) as (e & Hin & Hm & Ek). specialize (Hn e Hin). unfold revoked_entry in Hn. rewrite Hm, Ek, Hk in Hn. done. }
  assert ((forall e, e ∈ es -> ~ vouches key e) -> ~ vouching_line (files w) paths host key) as Hvou.
  { intros Hn (k' & Hl & Hk). destruct (Hentry _ _ Hl) as (e & Hin & Hm & Ek). apply (Hn e Hin). split; [done|]. by rewrite Ek. }
  pose proof (check_key_meaning es key) as Hm. destruct (check_key_in_hostkeys es key) as [st found]. destruct st; cbn [fst status_meaning] in *.
  - destruct Hm as (Hn & e & _ & Hin & Hc & Hv). split; [by apply Hrev|]. exists (e_key e). split; [|done]. rewrite <- Hc. by apply Hline.
  - destruct Hm as (Hn & _ & Hc). split_and!; [apply Hrev; intros e Hin; by apply Hn|apply Hvou; intros e Hin; by apply Hn|]. destruct (is_cert key) eqn:Ec; [by left|right]. intros [k' Hl]. destruct (Hentry _ _ Hl) as (e & Hin & Hmk & _).
    apply (Hc eq_refl e Hin). unfold counts. by rewrite Ec.
  - destruct Hm as (Hn & Hc & e & _ & Hin & Hcount). split_and!; [apply Hrev; intros e' Hin'; by apply Hn|apply Hvou; intros e' Hin'; by apply Hn|done|]. unfold counts in Hcount. rewrite Hc in Hcount. exists (e_key e). rewrite <- Hcount. by apply Hline.
  - destruct Hm as (_ & e & Hin & Hr). unfold revoked_entry in Hr. apply andb_true_iff in Hr as [Hmk Hr]. apply bool_decide_eq_true_1 in Hmk. exists (e_key e). split; [|done]. rewrite <- Hmk. by apply Hline.
  - done.
Qed.

(** * The client *)

(** The plain form of a key: without its certificate, if that can be dropped. *)
Definition plain_form (key plain : hkey) : Prop :=
  exists p, sshkey_from_private key = Ok p /\ plain = if is_cert p then match sshkey_drop_cert p with Ok k => k | Err _ => p end else p.

(** The DNS has a signed record of the key: of its plain form. *)
Definition dns_secure (o : client_options) (host : cstring) (hostaddr : host_addr) (key : hkey) : Prop :=
  dns_mode o = 1 /\ exists plain flags, plain_form key plain /\ verify_host_key_dns host hostaddr plain = Some flags /\
    Z.land flags DNS_VERIFY_FOUND <> 0 /\ Z.land flags DNS_VERIFY_MATCH <> 0 /\ Z.land flags DNS_VERIFY_SECURE <> 0.

Lemma check_dns_spec host hostaddr key c :
  ends (check_dns host hostaddr key) c (fun r c' => kept_files c c' /\ c_opts c' = c_opts c /\ (r = Ok true -> dns_secure (c_opts c) host hostaddr key)).
Proof.
  assert (tame kept_files set_dns_match) as Hset by (intros c1; cbn; split; [split; [done|done|by exists []]|done]).
  unfold check_dns. apply ends_reads. destruct (dns_mode (c_opts c) =? 0); [by apply ends_ret|]. destruct (sshkey_from_private key) as [p|] eqn:Ep; [|by apply ends_ret]. cbn zeta.
  set (plain := if is_cert p then _ else p). destruct (verify_host_key_dns host hostaddr plain) as [flags|] eqn:Ev; [|by apply ends_ret]. destruct (negb (negb (Z.land flags DNS_VERIFY_FOUND =? 0))) eqn:Ef; [by apply ends_ret|].
  destruct (_ && _ && _) eqn:Ed.
  - apply ends_ret. split_and!; [done..|]. intros _. rewrite !andb_true_iff, !negb_true_iff in Ed. destruct Ed as [[E1 E2] E3]. apply Z.eqb_eq in E1. apply negb_false_iff, negb_true_iff in Ef. apply Z.eqb_neq in E2, E3, Ef. split; [done|]. exists plain, flags. split; [by exists p|done].
  - destruct (negb (Z.land flags DNS_VERIFY_MATCH =? 0)); unfold ends, mbind, io_bind, warn_changed_key, fingerprint; [cbn; by split_and!; [split; [split; [done|done|by exists []]|]|..]|]. destruct (printable plain); [|done]. by cbn.
Qed.

Section verify.
Variables (host : cstring) (hostaddr : host_addr) (key : hkey) (c : client).
Hypothesis dropped_plain : forall raw k, sshkey_drop_cert raw = Ok k -> is_cert k = false.

(** How [verify_host_key] comes to accept a key. *)
Definition verified (c' : client) : Prop :=
  (sshkey_is_x509 key = true -> xkey_validate_cert key = true) /\
  ((exists p, previous_host_key c = Some p /\ sshkey_equal p key = true) \/
   ((revoked_host_keys (c_opts c) = true -> sshkey_check_revoked key = Ok tt) /\ (dns_secure (c_opts c) host hostaddr key \/ accepted c host hostaddr (o_port (c_opts c)) key RDRW c'))).

Lemma accepted_kept c1 port readonly c' : kept_files c c1 -> accepted c1 host hostaddr port key readonly c' -> accepted c host hostaddr port key readonly c'.
Proof.
  intros K Ha. pose proof K as K'. destruct K as [[Hp Hl _] Hf]. destruct (policy_fields _ _ Hp) as (Es & Ea & Eh & Eb & Ex). unfold accepted, exempt, known_key, new_key, hostfile_name in *. rewrite Es, Ea, Ex in Ha.
  destruct Ha as [?|[(en & k & Hlo & ?)|[(? & en & k & Hlo & ?)|[(? & ? & en & k & Hlo & ? & ? & Hask)|?]]]]; [by left|right; left|right; right; left|right; right; right; left|by right; right; right; right].
  - exists en, k. split; [by apply (loads_kept _ c1)|done].
  - split; [done|]. exists en, k. split; [by apply (loads_kept _ c1)|done].
  - split_and!; [done..|]. exists en, k. split_and!; [by apply (loads_kept _ c1)|done..|]. intros E. apply (asked_kept _ c c1 c'); [apply K'|done|auto].
Qed.

Lemma verify_key_spec : ends (verify_key host hostaddr key) c (fun r c' => r = true -> verified c').
Proof.
  unfold verify_key. destruct (sshkey_is_x509 key && negb (xkey_validate_cert key)) eqn:Ex; [by apply ends_ret|]. assert (sshkey_is_x509 key = true -> xkey_validate_cert key = true) as Hx by (intros E; rewrite E in Ex; by apply negb_false_iff in Ex).
  destruct (negb (printable key)); [by apply ends_ret|]. destruct (match signature_key key with Some ca => _ | None => _ end); [by apply ends_ret|]. apply ends_reads.
  destruct (match previous_host_key c with Some p => sshkey_equal p key | None => false end) eqn:Ep; [apply ends_ret; intros _; split; [done|]; left; destruct (previous_host_key c) as [p|]; [by exists p|done]|]. apply ends_reads.
  destruct (revoked_host_keys (c_opts c) && _) eqn:Er; [by apply ends_ret|]. assert (revoked_host_keys (c_opts c) = true -> sshkey_check_revoked key = Ok tt) as Hr by (intros E; rewrite E in Er; by destruct (sshkey_check_revoked key) as [[]|]).
  apply ends_bind. eapply ends_mono; [apply check_dns_spec|]. intros d c1 (K & Eo & Hdns). destruct d as [[]|]; [apply ends_ret; intros _; split; [done|]; right; auto| |by apply ends_ret].
  eapply ends_mono; [by apply check_host_key_spec|]. intros a c' Ha E. split; [done|]. right. split; [done|]. right. apply (accepted_kept c1); [done|]. by apply Ha.
Qed.

Lemma verified_opts c1 c2 : c_opts c2 = c_opts c1 -> c_answers c2 = c_answers c1 -> verified c1 -> verified c2.
Proof. intros E Ea. unfold verified, accepted, new_key, asked. by rewrite E, Ea. Qed.

Lemma verify_host_key_spec : ends (verify_host_key host hostaddr key) c (fun r c' => r = true -> verified c').
Proof.
  unfold verify_host_key. apply ends_bind. eapply ends_mono; [apply verify_key_spec|]. intros r c1 Hv. destruct r; cbn [negb]; [|by apply ends_ret]. destruct (sshkey_from_private key); [|done]. unfold ends, mbind, io_bind. cbn. intros _. by apply (verified_opts c1); [..|apply Hv].
Qed.

(** C12: The check of a server's key always ends: the second attempt for a
    certificate and the check without a port are made at most once. *)
Theorem host_key_check_ends : fst (verify_host_key host hostaddr key c) <> NoFuel.
Proof. pose proof verify_host_key_spec as Hs. unfold ends in Hs. by destruct (verify_host_key host hostaddr key c) as [[] ?]. Qed.

(** C11: When a client accepts the key of a server, a certificate of X.509 was
    validated, and the key is the one accepted before in this connection, or it is
    not in the file of revoked keys and: the DNS has a signed record of its plain
    form for this host and address, or the server is exempt as a local one, or the
    entries loaded from the known hosts files vouch for it, or for the key of its
    certificate (under the name with or without port), and do not revoke it, or
    they do not know the host and the policy lets it in (the user, asked with the
    fingerprint of that key, has answered yes or the fingerprint, if it is to ask),
    or checking is off, and then passwords and all forwarding are off too. *)
Theorem host_key_accepted c' : verify_host_key host hostaddr key c = (Ret true, c') -> verified c'.
Proof. intros E. pose proof verify_host_key_spec as Hs. unfold ends in Hs. rewrite E in Hs. by apply Hs. Qed.

Hypothesis digest_works : forall h salt, is_Some (host_tag salt h).

Lemma loads_lines name entries k : faults (c_world c) = [] -> (forall path, path ∈ hostfiles (c_opts c) -> plain_file (files (c_world c)) path) -> loads c name entries -> trusted entries (default host (host_key_alias (c_opts c))) k ->
  vouching_line (files (c_world c)) (hostfiles (c_opts c)) name k /\ ~ revoking_line (files (c_world c)) (hostfiles (c_opts c)) name k.
Proof.
  intros Hq Hp (w & w' & [Hf Hqw] & El) (Hr & (e & Hin & Hc & Hv) & _). rewrite <- Hf in *. destruct (load_files_run name (hostfiles (c_opts c)) [] w (digest_works name) (Hqw Hq) Hp) as (es & E & He). rewrite El in E. injection E as -> _. split.
  - exists (e_key e). split; [|done]. rewrite <- Hc. by apply entry_line, He.
  - intros (k' & Hl & Hk). destruct (line_entry_in _ _ _ _ _ Hl) as (e' & Hin' & Hm & Ek). apply He in Hin'. specialize (Hr e' Hin'). unfold revoked_entry in Hr. rewrite Hm, Ek, Hk in Hr. done.
Qed.

(** C6: With strict checking, and known hosts files that can be read and are plain
    (text in which every line ends with a newline, without distinguished names in
    the place of keys, and without markers followed by a tab in a line that also
    has a space), a server's key that is not accepted because the DNS has a signed
    record of its plain form for this host and address, because it was accepted
    before or because the server is local, is accepted only if a line of the files
    names the server and vouches for the key, or for the plain key of its
    certificate, and no line revokes it. *)
Theorem strict_host_key_checking_sound c' :
  strict_host_key_checking (c_opts c) = SSH_STRICT_HOSTKEY_YES -> faults (c_world c) = [] -> (forall path, path ∈ hostfiles (c_opts c) -> plain_file (files (c_world c)) path) ->
  verify_host_key host hostaddr key c = (Ret true, c') ->
  (exists p, previous_host_key c = Some p /\ sshkey_equal p key = true) \/ dns_secure (c_opts c) host hostaddr key \/ exempt c hostaddr \/
  exists name k, (name = hostfile_name (c_opts c) host (o_port (c_opts c)) \/ (host_key_alias (c_opts c) = None /\ name = host)) /\ derived key k /\
    vouching_line (files (c_world c)) (hostfiles (c_opts c)) name k /\ ~ revoking_line (files (c_world c)) (hostfiles (c_opts c)) name k.
Proof.
  intros Hs Hq Hp E. pose proof verify_host_key_spec as Hspec. unfold ends in Hspec. rewrite E in Hspec. destruct (Hspec eq_refl) as [_ [?|[_ [?|Ha]]]]; [by left|by right; left|right; right].
  destruct Ha as [?|[(en & k & Hl & Hd & Ht)|[(Ha & en & k & Hl & Hd & Ht)|[(_ & Hn & _)|[Ho _]]]]]; [by left|right|right|congruence|by rewrite Hs in Ho].
  - exists (hostfile_name (c_opts c) host (o_port (c_opts c))), k. split; [by left|]. split; [done|]. by apply (loads_lines _ en).
  - exists host, k. split; [by right|]. split; [done|]. apply (loads_lines _ en); [done..| |done]. unfold hostfile_name in Hl. by rewrite Ha in Hl.
Qed.
End verify.
End trust.

(** * An example *)

Module ToyHosts.
(** Keys are numbers; from 100 on they are certificates. *)
Definition keys : KnownKeys := {|
  hkey := Z; k_type _ := KEY_RSA; k_nid _ := -1; sshkey_size _ := 1024; sshkey_is_x509 _ := false;
  signature_key k := if k <? 100 then None else Some (k - 100);
  sshkey_equal := Z.eqb; sshkey_equal_public := Z.eqb; sshkey_type_plain t := t;
  sshkey_types_from_name n := if bool_decide (n = str "ssh-rsa") then (KEY_RSA, -1) else (KEY_UNSPEC, -1);
  sshkey_type_from_name n := if bool_decide (n = str "ssh-rsa") then KEY_RSA else KEY_UNSPEC;
  X509key_from_subject _ _ := None;
  parse_key_from_blob d := match d with [x] => Ok x | _ => Err SSH_ERR_INVALID_FORMAT end;
  fill_key _ k := Ok k; sshkey_ssh_name _ := str "ssh-rsa"; sshkey_putb k := @sshbuf_put_u8 alloc_all k; subject_text _ := None; printable _ := true
|}.
Definition env : HostEnv := {| arc4random_buf n len := map (fun i => (Z.of_nat (n + i)) mod 256) (seq 0 (Z.to_nat len)); temp_name t _ := t |}.
Definition checks : @CheckKeys keys := @Build_CheckKeys keys (fun _ _ => true) (fun k => Ok k) (fun k => Ok (k mod 100)) (fun _ => true) (fun _ => Ok tt) (fun k => [k])
  (fun _ _ k => if k =? 9 then Some 7 else None).

Lemma digest_total h salt : is_Some (@host_tag toy_digest salt h).
Proof. unfold host_tag, hmac_spec, key_block. destruct (_ <=? _); by eexists. Qed.
Lemma drop_plain raw k : @sshkey_drop_cert keys checks raw = Ok k -> @is_cert keys k = false.
Proof. intros [= <-]. unfold is_cert. cbn. pose proof (Z.mod_pos_bound raw 100 ltac:(lia)). by rewrite (proj2 (Z.ltb_lt _ _)) by lia. Qed.

Definition lines : list cstring := [str "# hosts"; str "example.org,10.0.0.1 ssh-rsa Bw== a comment"; str "@revoked * ssh-rsa CA=="].
Definition known : cstring := str "/home/u/known".
Definition start : world := mk_world {[known := file_of lines]} [] 0.

Lemma lines_plain : @plain_lines keys lines.
Proof.
  split; [compute_dec|repeat (apply Forall_cons; split); try constructor; done|].
  apply (Forall_impl (Forall (fun c => c <> 9))); [compute_dec|apply spaced_no_tab].
Qed.
Lemma start_text path : path ∈ [known] -> @plain_file keys (files start) path.
Proof. intros Hin. apply list_elem_of_singleton in Hin as ->. right. exists lines. split; [by vm_compute|apply lines_plain]. Qed.

Lemma known_hosts_answer_witness :
  @vouching_line alloc_all toy_digest keys (files start) [known] (str "example.org") 7 /\ ~ @revoking_line alloc_all toy_digest keys (files start) [known] (str "example.org") 7.
Proof.
  destruct (@known_hosts_answer alloc_all toy_digest keys env alloc_all_reliable toy_digest_laws (str "example.org") [known] 7 start (digest_total _) eq_refl start_text) as (entries & E & Hm).
  assert (match @load_files alloc_all toy_digest keys env (str "example.org") [known] (@init_hostkeys keys) start with (Ret l, _) => fst (@check_key_in_hostkeys keys l 7) | _ => HOST_FOUND end = HOST_OK) as Ec by (vm_compute; reflexivity).
  rewrite E in Ec. rewrite Ec in Hm. destruct Hm as [Hr Hv]. exact (conj Hv Hr).
Defined.

Definition demo_opts (strict dns : Z) : client_options :=
  mk_opts strict true false None false true false false dns true 22 [known] [] true true true true false 1 0 SSH_TUNMODE_NO false true.
Definition demo_client (strict : Z) (dns : Z) (answers : list (option cstring)) : @client keys := mk_client start (demo_opts strict dns) answers None false.
Definition addr : host_addr := mk_addr false (Some (str "10.0.0.1")).
Abbreviation verify strict answers key := (@verify_host_key alloc_all toy_digest keys env checks (str "example.org") addr key (demo_client strict 0 answers)).

Lemma host_key_check_ends_witness : fst (verify SSH_STRICT_HOSTKEY_YES [] 107) = Ret true /\ fst (verify SSH_STRICT_HOSTKEY_YES [] 107) <> NoFuel.
Proof.
  split; [vm_compute; reflexivity|]. exact (@host_key_check_ends alloc_all toy_digest keys env checks (str "example.org") addr 107 (demo_client SSH_STRICT_HOSTKEY_YES 0 []) drop_plain).
Defined.

(** A certificate whose plain key is in the DNS, and, for a user that is asked, the key
    of a new host: the first answer is neither yes nor no. *)
Abbreviation verify_dns key := (@verify_host_key alloc_all toy_digest keys env checks (str "example.org") addr key (demo_client SSH_STRICT_HOSTKEY_YES 1 [])).
Definition asking : @client keys := demo_client SSH_STRICT_HOSTKEY_ASK 0 [Some (str "perhaps"); Some (str "  YES ")].
Abbreviation verify_new key := (@verify_host_key alloc_all toy_digest keys env checks (str "new.org") (mk_addr false (Some (str "10.0.0.2"))) key asking).

Lemma host_key_accepted_witness :
  (exists c', verify_dns 209 = (Ret true, c') /\
     @verified alloc_all toy_digest keys env checks (str "example.org") addr 209 (demo_client SSH_STRICT_HOSTKEY_YES 1 []) c') /\
  (exists c', verify_new 9 = (Ret true, c') /\ c_answers c' = [] /\
     @verified alloc_all toy_digest keys env checks (str "new.org") (mk_addr false (Some (str "10.0.0.2"))) 9 asking c').
Proof.
  assert (fst (verify_dns 209) = Ret true) as Hr by (vm_compute; reflexivity). assert (fst (verify_new 9) = Ret true /\ c_answers (snd (verify_new 9)) = []) as [Hn Ha] by (split; vm_compute; reflexivity). split.
  - destruct (verify_dns 209) as [r c'] eqn:E. cbn [fst] in Hr. subst r. exists c'. split; [reflexivity|].
    exact (@host_key_accepted alloc_all toy_digest keys env checks (str "example.org") addr 209 (demo_client SSH_STRICT_HOSTKEY_YES 1 []) drop_plain c' E).
  - destruct (verify_new 9) as [r c'] eqn:E. cbn [fst snd] in Hn, Ha. subst r. exists c'. split; [reflexivity|]. split; [exact Ha|].
    exact (@host_key_accepted alloc_all toy_digest keys env checks (str "new.org") (mk_addr false (Some (str "10.0.0.2"))) 9 asking drop_plain c' E).
Defined.

Lemma strict_host_key_checking_sound_witness : exists c', verify SSH_STRICT_HOSTKEY_YES [] 7 = (Ret true, c') /\ fst (verify SSH_STRICT_HOSTKEY_YES [] 9) = Ret false /\
  exists name k, @derived keys checks 7 k /\ @vouching_line alloc_all toy_digest keys (files start) [known] name k.
Proof.
  assert (fst (verify SSH_STRICT_HOSTKEY_YES [] 7) = Ret true /\ fst (verify SSH_STRICT_HOSTKEY_YES [] 9) = Ret false) as [Hr H9] by (split; vm_compute; reflexivity).
  destruct (verify SSH_STRICT_HOSTKEY_YES [] 7) as [r c'] eqn:E. cbn [fst] in Hr. subst r. exists c'. split; [reflexivity|]. split; [exact H9|].
  destruct (@strict_host_key_checking_sound alloc_all toy_digest keys env checks alloc_all_reliable toy_digest_laws (str "example.org") addr 7 (demo_client SSH_STRICT_HOSTKEY_YES 0 []) drop_plain digest_total c' eq_refl eq_refl start_text E) as [(p & [=] & _)|[([=] & _)|[([=] & _)|(name & k & _ & Hd & Hv & _)]]].
  exists name, k. exact (conj Hd Hv).
Defined.
End ToyHosts.
