(* ===== verification/HostfileEdit.v ===== *)
(** Known hosts: adding a host to a file, and replacing the keys of a host. *)

From Stdlib Require Import String.
From S2P Require Import Prelude Io Sshbuf SshbufGetPut SshbufRead Match AddrMatch Misc AlgNames Digest Base64 Hostfile HostfileLaws HostfileLines HostCheck HostCheckLaws HostTrust.
Local Open Scope Z_scope.

(** * Names of hosts *)

(** A name without characters that have a meaning in a list of patterns or in a
    line. *)
Definition plain_char (c : Z) : Prop := c ∉ [0; 9; 10; 32; ch_star; ch_qm; ch_comma].
Definition plain_head (c : Z) : Prop := c ∉ [ch_bang; 35; ch_at; HASH_DELIM].
Record plain_name (h : cstring) : Prop := {
  plain_chars : Forall plain_char h;
  plain_start : match h with c :: _ => plain_head c | [] => False end;
  plain_len : (length h < SUB_MAX)%nat
}.

Lemma tolower_plain c : plain_char c -> plain_char (tolower c).
Proof. unfold plain_char, tolower, isupper. destruct (_ && _) eqn:E; [|done]. intros _. apply andb_true_iff in E as [?%Z.leb_le ?%Z.leb_le]. rewrite !not_elem_of_cons. unfold ch_star, ch_qm, ch_comma. repeat split; try lia. by intros ?%elem_of_nil. Qed.
Lemma tolower_head c : plain_head c -> plain_head (tolower c).
Proof. unfold plain_head, tolower, isupper. destruct (_ && _) eqn:E; [|done]. intros _. apply andb_true_iff in E as [?%Z.leb_le ?%Z.leb_le]. rewrite !not_elem_of_cons. unfold ch_bang, ch_at, HASH_DELIM. repeat split; try lia. by intros ?%elem_of_nil. Qed.
Lemma tolower_twice c : tolower (tolower c) = tolower c.
Proof. unfold tolower at 2 3, isupper. destruct (_ && _) eqn:E; unfold tolower, isupper; [|by rewrite E]. apply andb_true_iff in E as [?%Z.leb_le ?%Z.leb_le]. by rewrite (proj2 (Z.leb_gt (c + 32) 90)), andb_false_r by lia. Qed.
Lemma lowercase_twice h : lowercase (lowercase h) = lowercase h.
Proof. unfold lowercase. rewrite map_map. apply map_ext, tolower_twice. Qed.
Lemma lowercase_plain h : plain_name h -> plain_name (lowercase h).
Proof. intros [Hc Hs Hl]. split; [|destruct h as [|c h]; [done|by apply tolower_head]|unfold lowercase; by rewrite length_map]. apply Forall_forall. intros c Hin. apply list_elem_of_fmap in Hin as (d & -> & Hin). apply tolower_plain. by eapply Forall_forall in Hin; [|exact Hc]. Qed.

Lemma match_pattern_self p : literal p -> match_pattern p p = true.
Proof. induction 1 as [|c p [Hs Hq] _ IH]; [done|]. rewrite match_pattern_char by done. by rewrite Z.eqb_refl, (proj2 (Z.eqb_neq c ch_qm)) by done. Qed.

Lemma plain_literal h : plain_name h -> literal h.
Proof. intros [Hc _ _]. eapply Forall_impl; [exact Hc|]. unfold plain_char. intros c. rewrite !not_elem_of_cons. tauto. Qed.
Lemma plain_no_comma h : plain_name h -> no_comma h.
Proof. intros [Hc _ _]. eapply Forall_impl; [exact Hc|]. unfold plain_char. intros c. rewrite !not_elem_of_cons. tauto. Qed.

Lemma drop_last_plain l : Forall plain_name l -> drop_last_empty l = l.
Proof. induction 1 as [|h l Hh _ IH]; [done|]. cbn [drop_last_empty]. destruct h; [by destruct Hh|]. by rewrite IH. Qed.

(** The entries of a list of plain names. *)
Lemma entries_plain l : l <> [] -> Forall plain_name l -> list_entries true (join_comma l) = (fun h => Match.mk_entry false (lowercase h)) <$> l.
Proof.
  intros Hn Hl. unfold list_entries. assert (Forall no_comma l) as Hc by (eapply Forall_impl; [exact Hl|apply plain_no_comma]). rewrite tokens_join, drop_last_plain by done. apply list_fmap_ext. intros i h Hi. eapply Forall_lookup in Hi; [|exact Hl]. destruct Hi as [_ Hs _].
  destruct h as [|c h]; [done|]. cbn. unfold plain_head in Hs. rewrite !not_elem_of_cons in Hs. by rewrite (proj2 (Z.eqb_neq c ch_bang)) by tauto.
Qed.

Lemma match_plain h l : Forall plain_name l -> lowercase h ∈ map lowercase l -> match_hostname h (join_comma l) = 1.
Proof.
  intros Hl Hin. assert (l <> []) as Hn by (intros ->; by apply elem_of_nil in Hin). unfold match_hostname, match_pattern_list. rewrite match_pattern_list_fuel, entries_plain by done.
  rewrite eval_entries_spec by (apply Forall_fmap; eapply Forall_impl; [exact Hl|]; intros x [_ _ Hx]; cbn; unfold lowercase; by rewrite length_map).
  assert (existsb (fun e => pe_neg e && entry_matches (lowercase h) e) ((fun h => Match.mk_entry false (lowercase h)) <$> l) = false) as -> by (clear; induction l; [done|by cbn]).
  assert (existsb (fun e => negb (pe_neg e) && entry_matches (lowercase h) e) ((fun h => Match.mk_entry false (lowercase h)) <$> l) = true) as ->; [|done].
  apply list_elem_of_fmap in Hin as (g & Eg & Hg). apply existsb_exists. exists (Match.mk_entry false (lowercase g)). split; [apply list_elem_of_In, list_elem_of_fmap; by exists g|]. cbn. unfold entry_matches. cbn. rewrite Eg.
  apply match_pattern_self, plain_literal, lowercase_plain. by eapply Forall_forall in Hg; [|exact Hl].
Qed.

(** The list of names as it is in a line. *)
Lemma join_plain l : l <> [] -> Forall plain_name l -> unblank (join_comma l) /\ line_text (join_comma l) /\ match join_comma l with c :: _ => plain_head c | [] => False end.
Proof.
  intros Hn Hl. assert (forall h, plain_name h -> unblank h /\ line_text h) as Hone.
  { intros h [Hc _ _]. split; (eapply Forall_impl; [exact Hc|]); unfold plain_char; intros c; rewrite !not_elem_of_cons; intros (? & ? & ? & ? & _); [unfold ends_word, is_blank; by rewrite !(proj2 (Z.eqb_neq _ _))|done]. }
  assert (unblank (join_comma l) /\ line_text (join_comma l)) as [Hu Ht].
  { clear Hn. induction Hl as [|h l Hh Hl IH]; [split; constructor|]. destruct l as [|g l]; [by apply Hone|]. rewrite join_comma_cons by done. destruct (Hone h Hh), IH. split; (apply Forall_app; split; [done|]; constructor; done). }
  split_and!; [done..|]. destruct l as [|h l]; [done|]. apply Forall_cons in Hl as [[_ Hs _] _]. destruct h as [|c h]; [done|]. by destruct l.
Qed.

Lemma lowercase_join l : lowercase (join_comma l) = join_comma (map lowercase l).
Proof. induction l as [|h l IH]; [done|]. destruct l as [|g l]; [done|]. rewrite join_comma_cons by done. unfold lowercase at 1. rewrite map_app. cbn [map]. rewrite (join_comma_cons (lowercase h)) by done. unfold lowercase in IH at 1. by rewrite IH. Qed.

Section edit.
Context `{Allocator} `{EvpDigest} `{KnownKeys} `{HostEnv} `{!ReliableAllocator _} `{!EvpDigestLaws _}.

(** * Keys as text *)

(** The key library writes a plain key as some bytes, and reads them as the key
    [k']. *)
Record key_text (k k' : hkey) (blob : list Z) : Prop := {
  kt_plain : sshkey_is_x509 k = false;
  kt_puts : appends (sshkey_putb k) blob;
  kt_bytes : bytes_ok blob;
  kt_size : 0 < zlen blob <= 0x1000000;
  kt_name : unblank (sshkey_ssh_name k) /\ line_text (sshkey_ssh_name k) /\ 1 <= zlen (sshkey_ssh_name k) < 64;
  kt_head : match sshkey_ssh_name k with c :: _ => c <> 35 | [] => True end;
  kt_reads : exists type nid k0, sshkey_types_from_name (sshkey_ssh_name k) = (type, nid) /\ type <> KEY_UNSPEC /\ parse_key_from_blob blob = Ok k0 /\ k_type k0 = type /\
    (sshkey_type_plain type = KEY_ECDSA -> nid = k_nid k0) /\ fill_key type k0 = Ok k' /\ (0 < sshkey_size k' \/ sshkey_is_x509 k' = true)
}.
Definition text_of (k : hkey) (blob : list Z) : cstring := sshkey_ssh_name k ++ [32] ++ base64 blob.

Lemma base64_plain d : bytes_ok d -> Forall (fun c => c ∉ [0; 9; 10; 32; 35]) (base64 d).
Proof.
  intros Hb. eapply Forall_impl; [exact (base64_alphabet d Hb)|]. intros c Hc. assert (Forall (fun c => c ∉ [0; 9; 10; 32; 35]) (Pad64 :: Base64)) as Hall by compute_dec. by eapply Forall_forall in Hc; [|exact Hall].
Qed.
Lemma base64_text d : bytes_ok d -> unblank (base64 d) /\ line_text (base64 d).
Proof.
  intros Hb. pose proof (base64_plain d Hb) as Hp. split; (eapply Forall_impl; [exact Hp|]); intros c; rewrite !not_elem_of_cons; intros (? & ? & ? & ? & _); [unfold ends_word, is_blank; by rewrite !(proj2 (Z.eqb_neq _ _))|done].
Qed.
Lemma memchr_none c l : Forall (fun x => x <> c) l -> memchr c l = None.
Proof. induction 1 as [|x l Hx _ IH]; [done|]. cbn. by rewrite (proj2 (Z.eqb_neq _ _) Hx), IH. Qed.

Lemma base64_size d : 0 < zlen d <= 0x1000000 -> zlen d < zlen (base64 d) <= 0x1800000.
Proof. rewrite zlen_base64. intros Hz. split; Z.to_euclidean_division_equations; lia. Qed.

Lemma put_new b v : sshbuf_new = Some b -> zlen v <= SSHBUF_SIZE_MAX -> exists b', sshbuf_put v b = (Ok tt, b') /\ buf_wf b' /\ contents b' = v.
Proof.
  intros Eb Hv. destruct (sshbuf_new_spec b Eb) as (Hw & Hc & Hl & Hm). destruct (appends_puts _ _ (sshbuf_put_appends v) b Hw Hl) as (b' & E & He & Hc'); [rewrite Hc, Hm; change (zlen (@nil Z)) with 0; lia|]. exists b'. split_and!; [done|apply He|]. by rewrite Hc', Hc.
Qed.

Lemma dtob64_written d : bytes_ok (contents d) -> buf_wf d -> 0 < zlen (contents d) <= 0x1000000 -> sshbuf_dtob64_string d false = Some (base64 (contents d)).
Proof.
  intros Hb Hw Hz. unfold sshbuf_dtob64_string, sshbuf_dtob64. destruct sshbuf_new_ok as [b Eb]. rewrite Eb, sshbuf_len_wf, sshbuf_ptr_wf by done. assert (SIZE_MAX / 2 = 0x7fffffffffffffff) as Hmax by done.
  rewrite Z.geb_leb, (proj2 (Z.leb_gt _ _)), (proj2 (Z.eqb_neq _ _)) by lia. rewrite malloc_reliable. cbn [negb default from_option id].
  rewrite b64_ntop_spec, zlen_base64, (proj2 (Z.ltb_lt _ _)) by lia. pose proof (base64_size (contents d) Hz) as Hl.
  destruct (put_new b (base64 (contents d)) Eb) as (b' & -> & Hw' & Hc); [unfold SSHBUF_SIZE_MAX; lia|]. unfold sshbuf_dup_string. rewrite sshbuf_ptr_wf, sshbuf_len_wf, Hc by done.
  rewrite memchr_none by (eapply Forall_impl; [exact (proj2 (base64_text _ Hb))|]; by intros c [? _]). assert ((if zlen (base64 (contents d)) >? 0 then None else None) = @None Z) as -> by by destruct (_ >? _). by rewrite ztake_ge, malloc_reliable by lia.
Qed.

Lemma key_written k k' blob : key_text k k' blob -> sshkey_write k = Ok (text_of k blob).
Proof.
  intros [_ Hp Hb Hz (_ & _ & Hn) _ _]. unfold sshkey_write, sshkey_to_base64. destruct sshbuf_new_ok as [b Eb]. rewrite Eb. destruct (sshbuf_new_spec b Eb) as (Hw & Hc & Hl & Hm).
  destruct (appends_puts _ _ Hp b Hw Hl) as (b1 & -> & He & Hc1); [rewrite Hc, Hm; change (zlen (@nil Z)) with 0; unfold SSHBUF_SIZE_MAX; lia|]. rewrite Hc in Hc1. cbn [app] in Hc1. rewrite dtob64_written by (rewrite ?Hc1; try done; apply He). rewrite Hc1. cbn [mbind result_bind].
  destruct (put_new b (text_of k blob) Eb) as (b2 & E2 & Hw2 & Hc2); [|unfold text_of in E2; rewrite E2; by rewrite sshbuf_ptr_wf, Hc2].
  pose proof (base64_size blob Hz). unfold text_of. rewrite !zlen_app. change (zlen [32]) with 1. unfold SSHBUF_SIZE_MAX. lia.
Qed.

Lemma blob_read type nid blob k0 :
  bytes_ok blob -> 0 < zlen blob <= 0x1000000 -> parse_key_from_blob blob = Ok k0 -> k_type k0 = type -> (sshkey_type_plain type = KEY_ECDSA -> nid = k_nid k0) -> blob_key type nid (base64 blob) = Ok k0.
Proof.
  intros Hb Hz Hp Ht Hn. unfold blob_key, sshbuf_b64tod. destruct sshbuf_new_ok as [b Eb]. rewrite Eb, !malloc_reliable. cbn [negb]. pose proof (base64_size blob Hz) as Hl. rewrite (proj2 (Z.eqb_neq _ _)) by lia.
  destruct (b64_pton_complete (base64 blob) (zrepeat (zlen (base64 blob))) blob Hb (base64_dense _ Hb)) as (t & -> & ->); [rewrite zlen_zrepeat; lia|].
  destruct (put_new b blob Eb) as (b' & -> & Hw & Hc); [unfold SSHBUF_SIZE_MAX; lia|]. rewrite sshbuf_ptr_wf, Hc by done. cbn [default from_option id]. rewrite Hp, Ht, Z.eqb_refl. cbn [negb]. destruct (Z.eqb_spec (sshkey_type_plain type) KEY_ECDSA) as [E|]; [|done].
  by rewrite (Hn E), Z.eqb_refl.
Qed.

(** The text of a key is read as the key. *)
Lemma text_read k k' blob : key_text k k' blob -> reads_as (text_of k blob) k' /\ line_text (text_of k blob) /\ match text_of k blob with c :: _ => c <> 35 | [] => True end.
Proof.
  intros [_ _ Hb Hz (Hu & Ht & Hn) Hh (type & nid & k0 & Hty & Hun & Hp & Hk0 & Hec & Hf & Hs)]. destruct (base64_text blob Hb) as [Hub Htb]. split_and!.
  - exists (sshkey_ssh_name k), [32], (base64 blob), [], type, nid, k0. split_and!; try (done || lia).
    + by rewrite app_nil_r.
    + by repeat constructor.
    + intros E. pose proof (base64_size blob Hz) as Hl. rewrite E in Hl. change (zlen (@nil Z)) with 0 in Hl. lia.
    + by apply blob_read.
  - apply Forall_app; split; [done|]. by constructor.
  - unfold text_of. destruct (sshkey_ssh_name k); done.
Qed.

(** * A new line *)

Hypothesis digest_works : forall h salt, is_Some (host_tag salt h).
Hypothesis random_bytes : forall n, bytes_ok (arc4random_buf n 20) /\ zlen (arc4random_buf n 20) = 20.

(** The hosts that a line for these names is for. *)
Definition named (names : list cstring) (store_hash : bool) (h : cstring) : Prop :=
  if store_hash then h = lowercase (join_comma names) else lowercase h ∈ map lowercase names.

Lemma hashed_text salt tag : bytes_ok salt -> bytes_ok tag -> unblank (hashed_form salt tag) /\ line_text (hashed_form salt tag).
Proof.
  intros Hs Ht. destruct (base64_text salt Hs) as [Us Ls], (base64_text tag Ht) as [Ut Lt]. split; repeat (apply Forall_app; split); try done; try (apply Forall_cons; split; done); compute_dec.
Qed.

Lemma line_of hosts h k k' blob :
  key_text k k' blob -> unblank hosts -> line_text hosts -> match hosts with c :: _ => c <> 35 /\ c <> ch_at | [] => False end ->
  (line_text (hosts ++ [32] ++ text_of k blob) /\ spaced (hosts ++ [32] ++ text_of k blob)) /\ (listed h hosts -> line_entry h (hosts ++ [32] ++ text_of k blob) MRK_NONE k').
Proof.
  intros Hk Hu Ht Hh. destruct (text_read _ _ _ Hk) as (Hr & Hl & Hd). split; [split; [apply Forall_app; split; [done|by constructor]|]|intros Hin].
  { destruct hosts as [|c hosts]; [done|]. apply spaced_no_at; [by apply (unblank_head (c :: hosts))|apply Hh]. }
  exists [], (hosts ++ [32] ++ text_of k blob), hosts, [32], (text_of k blob). assert (blanks [32]) by by repeat constructor.
  destruct hosts as [|c hosts]; [done|]. destruct Hh as [Hc Ha].
  split_and!; try done; first [by apply Forall_nil|by apply marked_none].
Qed.

Lemma listed_plain names h : Forall plain_name names -> lowercase h ∈ map lowercase names -> listed h (join_comma names).
Proof.
  intros Hp Hin. left. split; [|by apply match_plain]. assert (names <> []) as Hn by (intros ->; by apply elem_of_nil in Hin). destruct (join_plain names Hn Hp) as (_ & _ & Hh). destruct (join_comma names); [done|]. unfold plain_head in Hh. rewrite !not_elem_of_cons in Hh. tauto.
Qed.

Lemma entry_written host names ip k k' blob store_hash w :
  key_text k k' blob -> host = join_comma names -> names <> [] -> Forall plain_name names -> match ip with Some ip => plain_name ip | None => True end ->
  exists line w', write_host_entry host ip k store_hash w = (Ret (true, line ++ [10]), w') /\ files w' = files w /\ faults w' = faults w /\ (line_text line /\ spaced line) /\
    forall h, named (names ++ (if store_hash then [] else match ip with Some ip => [ip] | None => [] end)) store_hash h -> line_entry h line MRK_NONE k'.
Proof.
  intros Hk -> Hn Hp Hip. unfold write_host_entry. rewrite (kt_plain _ _ _ Hk), (key_written _ _ _ Hk). destruct store_hash.
  - destruct (random_bytes (drawn w)) as [Hb Hz]. destruct (digest_works (lowercase (join_comma names)) (arc4random_buf (drawn w) 20)) as [tag Ht]. rewrite (bind_run _ _ _ _ _ (host_hash_new _ w _ tag eq_refl Hb Hz Ht)).
    destruct (hashed_text _ tag Hb (proj2 (host_tag_ok _ _ _ Ht))) as [Hu Hl].
    eexists (hashed_form _ tag ++ [32] ++ text_of k blob), _. split; [cbn; do 3 f_equal; by rewrite <- !app_assoc|]. split; [done|]. split; [done|]. split.
    + by apply (line_of _ [] k k').
    + rewrite app_nil_r. intros h ->. apply line_of; try done. right. by eexists _, tag.
  - set (all := names ++ _). assert (all <> [] /\ Forall plain_name all) as [Hna Hpa] by (split; [by destruct names|]; apply Forall_app; split; [done|]; destruct ip; [by apply Forall_singleton|by apply Forall_nil]).
    assert (match ip with Some ip => lowercase (join_comma names) ++ [ch_comma] ++ ip | None => lowercase (join_comma names) end = join_comma (map lowercase names ++ match ip with Some ip => [ip] | None => [] end)) as ->.
    { rewrite lowercase_join. destruct ip as [ip|]; [|by rewrite app_nil_r]. by rewrite join_comma_snoc by by destruct names. }
    set (low := map lowercase names ++ _). assert (low <> [] /\ Forall plain_name low /\ map lowercase low = map lowercase all) as (Hnl & Hpl & Ea).
    { split_and!; [by destruct names| |].
      - apply Forall_app in Hpa as [H1a H2a]. apply Forall_app; split; [|done]. apply Forall_fmap. eapply Forall_impl; [exact H1a|]. apply lowercase_plain.
      - unfold low, all. rewrite !map_app. f_equal. rewrite map_map. apply map_ext, lowercase_twice. }
    destruct (join_plain low Hnl Hpl) as (Hu & Hl & Hh). assert (match join_comma low with c :: _ => c <> 35 /\ c <> ch_at | [] => False end) as Hh' by (destruct (join_comma low); [done|]; unfold plain_head in Hh; rewrite !not_elem_of_cons in Hh; tauto).
    eexists (join_comma low ++ [32] ++ text_of k blob), _. split; [cbn; do 3 f_equal; by rewrite <- !app_assoc|]. split; [done|]. split; [done|]. split.
    + by apply (line_of _ [] k k').
    + intros h Hin. apply line_of; try done. apply listed_plain; [done|]. rewrite Ea. exact Hin.
Qed.

(** * Adding a host *)

Lemma no_fault w : faults w = [] -> next_fault w = (Ret 0, w).
Proof. unfold next_fault. by intros ->. Qed.
Lemma sys_call_ok check f w : faults w = [] -> check (files w) = 0 -> sys_call check f w = (Ret 0, mk_world (f (files w)) (faults w) (drawn w)).
Proof. intros Hq Hc. unfold sys_call. rewrite (bind_run _ _ _ _ _ (no_fault w Hq)). cbn. unfold mbind, io_bind, reads. by rewrite Hc. Qed.
Lemma fclose_ok p text w : faults w = [] -> fclose_text p text w = (Ret tt, mk_world (<[p := content p (files w) ++ text]> (files w)) (faults w) (drawn w)).
Proof. intros Hq. unfold fclose_text. by rewrite (bind_run _ _ _ _ _ (no_fault w Hq)). Qed.

Lemma add_host_run file host names key key' blob store_hash w :
  key_text key key' blob -> host = join_comma names -> names <> [] -> Forall plain_name names -> faults w = [] ->
  exists line w', add_host_to_hostfile file host (Some key) store_hash w = (Ret true, w') /\ files w' = <[file := content file (files w) ++ line ++ [10]]> (files w) /\ faults w' = [] /\ (line_text line /\ spaced line) /\
    forall h, named names store_hash h -> line_entry h line MRK_NONE key'.
Proof.
  intros Hk Hh Hn Hp Hq. unfold add_host_to_hostfile, fopen_append. rewrite (bind_run _ _ _ _ _ (sys_call_ok _ _ w Hq eq_refl)). cbn [negb Z.eqb].
  destruct (entry_written host names None key key' blob store_hash (mk_world (<[file := content file (files w)]> (files w)) (faults w) (drawn w)) Hk Hh Hn Hp I) as (line & w1 & E & Hf & Hq1 & Hl & Hline).
  rewrite (bind_run _ _ _ _ _ E). cbn [fst snd]. cbn [faults] in Hq1. rewrite (bind_run _ _ _ _ _ (fclose_ok file _ w1 (eq_trans Hq1 Hq))). exists line. eexists. split; [done|]. cbn [files faults] in *. rewrite Hf, insert_insert_eq. unfold content at 1. rewrite lookup_insert_eq. split; [done|]. split; [congruence|]. split; [done|].
  intros h Hin. apply Hline. by destruct store_hash; rewrite app_nil_r.
Qed.

(** A line is an entry for a host in one way. *)
Lemma line_entry_unique h t mk mk' k k' (w : world) : line_text t -> subject_free t -> spaced t -> line_entry h t mk k -> line_entry h t mk' k' -> mk = mk' /\ k = k'.
Proof.
  intros Ht Hs Hsp H1e H2e. pose proof (load_turn_complete h [] (digest_works h) t mk k 0 [] w Ht Hs Hsp H1e) as E. rewrite (load_turn_complete h [] (digest_works h) t mk' k' 0 [] w Ht Hs Hsp H2e) in E. by injection E as -> ->.
Qed.

Lemma file_of_app ts ts' : file_of (ts ++ ts') = file_of ts ++ file_of ts'.
Proof. unfold file_of. by rewrite map_app, concat_app. Qed.

(** The lines of a file to which one was added. *)
Lemma line_in_added fs file ts line h mk k :
  fs !! file = Some (file_of ts) \/ (fs !! file = None /\ ts = []) -> Forall line_text (ts ++ [line]) ->
  line_in (<[file := file_of (ts ++ [line])]> fs) [file] h mk k -> line_entry h line mk k \/ line_in fs [file] h mk k.
Proof.
  intros Hf Ht (path & ts' & t & Hp%list_elem_of_singleton & Hf' & Hr & Hin & Hl). subst path. rewrite lookup_insert_eq in Hf'. injection Hf' as Hf'. apply file_of_inj in Hf'; [|done|apply Hr]. subst ts'. apply elem_of_app in Hin as [Hin|Hin%list_elem_of_singleton]; [right|left; by subst].
  destruct Hf as [Hf|[_ ->]]; [|by apply elem_of_nil in Hin]. exists file, ts, t. split_and!; try done; [by apply list_elem_of_singleton|]. destruct Hr as [Hr1 Hr2 Hr3]. apply Forall_app in Hr1 as [? _], Hr2 as [? _], Hr3 as [? _]. by split.
Qed.

(** C10: A host that was added to a known hosts file is known.  If no call fails,
    memory can be allocated, the file does not exist yet or is plain (text in which
    also the last line ends with a newline, without distinguished names in the place
    of keys, and without markers followed by a tab in a line that also has a space),
    the names have no special characters, and the key is neither a certificate nor of
    X.509 and is read back from what the library writes for it, then adding
    succeeds and the file has one more line and is otherwise as before; and if nothing
    in that line reads as a distinguished name, then the next time the file is
    read, the key is known for each of the names (or, where names are hashed, for the
    name that was given), unless a line that was there already revokes it. *)
Theorem added_host_known file host names key key' blob store_hash w :
  key_text key key' blob -> is_cert key = false -> hostkey_match key key' = true -> host = join_comma names -> names <> [] -> Forall plain_name names -> faults w = [] -> plain_file (files w) file ->
  exists line w', add_host_to_hostfile file host (Some key) store_hash w = (Ret true, w') /\ files w' = <[file := content file (files w) ++ line ++ [10]]> (files w) /\
    (subject_free line -> plain_file (files w') file /\ forall h, named names store_hash h ->
      exists entries, load_files h [file] init_hostkeys w' = (Ret entries, w') /\
        match fst (check_key_in_hostkeys entries key) with HOST_OK => True | HOST_REVOKED => revoking_line (files w) [file] h key | _ => False end).
Proof.
  intros Hk Hc Hm Hh Hn Hp Hq Hf. destruct (add_host_run file host names key key' blob store_hash w Hk Hh Hn Hp Hq) as (line & w' & E & Hf' & Hq' & [Hl Hsp] & Hline). exists line, w'. split_and!; [done..|]. intros Hs.
  assert (exists ts, (files w !! file = Some (file_of ts) \/ (files w !! file = None /\ ts = [])) /\ plain_lines ts /\ content file (files w) = file_of ts) as (ts & Hfile & Hr & Ect).
  { destruct Hf as [E0|(ts & E0 & Hr)]; [exists []|exists ts]; (split_and!; [tauto| |unfold content; by rewrite E0]); [by split; constructor|done]. }
  assert (files w' = <[file := file_of (ts ++ [line])]> (files w)) as Ef by (rewrite Hf', Ect, file_of_app; unfold file_of at 3; cbn; by rewrite app_nil_r).
  assert (plain_lines (ts ++ [line])) as Hr' by (destruct Hr; split; apply Forall_app; (split; [done|by apply Forall_singleton])).
  assert (plain_file (files w') file) as Htf by (right; exists (ts ++ [line]); rewrite Ef, lookup_insert_eq; done). split; [done|]. intros h Hnamed.
  destruct (load_files_run h [file] init_hostkeys w' (digest_works h) Hq') as (es & El & He); [intros p Hin; apply list_elem_of_singleton in Hin as ->; exact Htf|]. exists es. split; [exact El|].
  assert (exists e, e ∈ es /\ vouches key e) as (e & Hin & Hv).
  { destruct (line_entry_in (files w') [file] h MRK_NONE key') as (e & Hin & Hmk & Hek); [exists file, (ts ++ [line]), line; split_and!; [by apply list_elem_of_singleton|by rewrite Ef, lookup_insert_eq|done|set_solver|by apply Hline]|].
    exists e. split; [by apply He|]. unfold vouches, counts. by rewrite Hc, Hmk, Hek. }
  pose proof (check_key_meaning es key) as Hst. destruct (check_key_in_hostkeys es key) as [st found]. destruct st; cbn [fst status_meaning] in *; [done| | | |done].
  - destruct Hst as (Hst & _). by destruct (Hst e Hin) as [_ ?].
  - destruct Hst as (Hst & _). by destruct (Hst e Hin) as [_ ?].
  - destruct Hst as (_ & e' & Hin' & Hrev). apply He, entry_line in Hin'. unfold revoked_entry in Hrev. apply andb_true_iff in Hrev as [Hmk Hrev]. apply bool_decide_eq_true_1 in Hmk. rewrite Hmk, Ef in Hin'.
    apply line_in_added in Hin' as [Hnew|Hold]; [|by exists (e_key e')|done|apply Hr']. by destruct (line_entry_unique h line _ _ _ _ w Hl Hs Hsp Hnew (Hline h Hnamed)).
Qed.

(** * Replacing the keys of a host *)

Section replace.
Variables (filename host : cstring) (ip : option cstring) (keys : list hkey).



Abbreviation turn := (foreach_line (host_delete keys) filename (Some host) ip HKF_WANT_PARSE_KEY).








(** ** The new lines *)

Variable store_hash : bool.
Hypothesis host_plain : plain_name host.
Hypothesis ip_plain : match ip with Some ip => plain_name ip | None => True end.


End replace.

(** ** The new file takes the place of the old one *)






Section replaced.
Variables (filename host : cstring) (ip : option cstring) (keys : list hkey) (store_hash : bool).

End replaced.
End edit.

(** * Failing calls *)

Section failing.
Context `{Allocator} `{EvpDigest} `{KnownKeys} `{HostEnv}.

#[local] Hint Resolve host_hash_tame fault_tame : tame.
Lemma host_delete_tame keys l ctx : tame same_files (host_delete keys l ctx).
Proof. unfold host_delete. tame. Qed.
Lemma write_entry_tame host ip key store_hash : tame same_files (write_host_entry host ip key store_hash).
Proof. unfold write_host_entry. tame. Qed.
#[local] Hint Resolve write_entry_tame : tame.
Lemma add_keys_tame host ip store_hash keys skip ctx : tame same_files (add_keys host ip store_hash keys skip ctx).
Proof. revert skip ctx. induction keys as [|key keys IH]; intros skip ctx; cbn [add_keys]; tame. Qed.

(** Whatever the outcome, the files satisfy [X]; a result satisfies [Q]. *)
Definition file_pred : Type := gmap cstring (list Z) -> Prop.
Definition leaves {A} (m : io world A) (w : world) (X : file_pred) (Q : A -> world -> Prop) : Prop :=
  match m w with (Ret a, w') => X (files w') /\ Q a w' | (_, w') => X (files w') end.

Lemma leaves_ret {A} (a : A) (w : world) (X : file_pred) (Q : A -> world -> Prop) : X (files w) -> Q a w -> leaves (mret a) w X Q.
Proof. done. Qed.
Lemma leaves_bind {A B} (m : io world A) (f : A -> io world B) (w : world) (X : file_pred) Q : leaves m w X (fun a w' => leaves (f a) w' X Q) -> leaves (m ≫= f) w X Q.
Proof. unfold leaves, mbind, io_bind. destruct (m w) as [[a|c| |] w1]; tauto. Qed.
Lemma leaves_mono {A} (m : io world A) (w : world) (X : file_pred) (Q Q' : A -> world -> Prop) : leaves m w X Q -> (forall a w', X (files w') -> Q a w' -> Q' a w') -> leaves m w X Q'.
Proof. unfold leaves. destruct (m w) as [[a|c| |] w1]; [|done..]. intros [? ?] HQ. auto. Qed.
Lemma leaves_tame {A} (m : io world A) (w : world) (X : file_pred) : tame same_files m -> X (files w) -> leaves m w X (fun _ w' => files w' = files w).
Proof. intros Hm HX. specialize (Hm w). unfold leaves. destruct (m w) as [[a|c| |] w1]; [|by destruct Hm as [-> _]|by destruct Hm as [-> _]|done]. destruct Hm as [E _]. by rewrite E. Qed.
Lemma leaves_call check f (w : world) (X : file_pred) (Q : Z -> world -> Prop) :
  (check (files w) = 0 -> X (f (files w)) /\ forall w', files w' = f (files w) -> Q 0 w') -> (X (files w) /\ forall e w', e <> 0 -> files w' = files w -> Q e w') -> leaves (sys_call check f) w X Q.
Proof.
  intros H0c [HX Hf]. unfold leaves, sys_call, mbind, io_bind. assert (exists e w1, next_fault w = (Ret e, w1) /\ files w1 = files w) as (e & w1 & -> & Ew) by (unfold next_fault; destruct (faults w); eauto).
  destruct (Z.eqb_spec e 0) as [->|Hne]; cbn [negb]; [|rewrite <- Ew in HX; split; [exact HX|by apply Hf]]. unfold reads. rewrite Ew. destruct (Z.eqb_spec (check (files w)) 0) as [Hc|Hc]; cbn [negb]; [|rewrite <- Ew in HX; split; [exact HX|by apply Hf]].
  destruct (H0c Hc) as [HX0 HQ]. rewrite <- Ew in HX0, HQ. split; [exact HX0|]. by apply HQ.
Qed.

Section kept.
Variables (filename back temp : cstring) (d : list Z) (fs0 : gmap cstring (list Z)) (touched : list cstring).
Hypothesis distinct : filename <> back /\ temp <> back /\ temp <> filename.
Hypothesis listed_paths : filename ∈ touched /\ back ∈ touched /\ temp ∈ touched.

(** No other files change. *)
Definition others (fs : gmap cstring (list Z)) : Prop := forall p, p ∉ touched -> fs !! p = fs0 !! p.
Definition in_place (fs : gmap cstring (list Z)) : Prop := fs !! filename = Some d /\ others fs.
Definition backed_up (fs : gmap cstring (list Z)) : Prop := fs !! back = Some d /\ others fs.
Definition not_lost (fs : gmap cstring (list Z)) : Prop := in_place fs \/ backed_up fs.

Lemma others_insert fs p x : p ∈ touched -> others fs -> others (<[p := x]> fs).
Proof. intros Hp Ho q Hq. rewrite lookup_insert_ne by (intros ->; done). by apply Ho. Qed.
Lemma others_delete fs p : p ∈ touched -> others fs -> others (delete p fs).
Proof. intros Hp Ho q Hq. rewrite lookup_delete_ne by (intros ->; done). by apply Ho. Qed.

Lemma in_place_delete fs p : p = back \/ p = temp -> in_place fs -> in_place (delete p fs).
Proof. destruct distinct as (? & ? & ?), listed_paths as (? & ? & ?). intros Hp [Hf Ho]. split; [rewrite lookup_delete_ne; [done|by destruct Hp as [->| ->]]|]. apply others_delete; [by destruct Hp as [->| ->]|done]. Qed.
Lemma in_place_insert fs p x : p = back \/ p = temp -> in_place fs -> in_place (<[p := x]> fs).
Proof. destruct distinct as (? & ? & ?), listed_paths as (? & ? & ?). intros Hp [Hf Ho]. split; [rewrite lookup_insert_ne; [done|by destruct Hp as [->| ->]]|]. apply others_insert; [by destruct Hp as [->| ->]|done]. Qed.

Lemma xrename_leaves w : in_place (files w) -> leaves (xrename filename back) w not_lost (fun e w' => if e =? 0 then backed_up (files w') else in_place (files w')).
Proof.
  destruct distinct as (Hfb & Htb & Htf), listed_paths as (Hf & Hb & Ht). intros Hi. unfold xrename. apply leaves_bind. apply leaves_call.
  - intros _. assert (in_place (<[back := content filename (files w)]> (files w))) as Hi1 by (apply in_place_insert; [by left|done]). split; [by left|]. intros w1 E1. change (negb (0 =? 0)) with false. cbv iota.
    assert (backed_up (delete filename (files w1))) as Hb1. { rewrite E1. split; [|apply others_delete, Hi1; done]. rewrite lookup_delete_ne, lookup_insert_eq by done. unfold content. by rewrite (proj1 Hi). }
    rewrite <- E1 in Hi1. apply leaves_bind, leaves_call; [intros _; split; [by right|]; intros w2 E2; apply leaves_ret; cbn; rewrite E2; [by right|done]|]. split; [by left|]. intros e w2 He E2. rewrite (proj2 (Z.eqb_neq _ _) He). cbn [negb]. rewrite <- E2 in Hi1.
    assert (in_place (delete back (files w2))) by (apply in_place_delete; [by left|done]).
    apply leaves_bind, leaves_call; [intros _; split; [by left|]; intros w3 E3; apply leaves_ret; rewrite ?(proj2 (Z.eqb_neq _ _) He), ?E3; [by left|done]|split; [by left|]; intros e3 w3 _ E3; apply leaves_ret; rewrite ?(proj2 (Z.eqb_neq _ _) He), ?E3; [by left|done]].
  - split; [by left|]. intros e w1 He E1. rewrite (proj2 (Z.eqb_neq _ _) He). cbn [negb]. rewrite <- E1 in Hi. destruct (_ || _); [|apply leaves_ret; rewrite ?(proj2 (Z.eqb_neq _ _) He); [by left|done]].
    apply leaves_bind, leaves_call; [intros _; split; [by left|]; intros w2 E2; rewrite <- E2 in Hi; apply leaves_ret; [by left|done]|]. split; [by left|]. intros st w2 Hst E2. rewrite (proj2 (Z.eqb_neq _ _) Hst). cbn [negb]. rewrite <- E2 in Hi.
    unfold sys_rename. apply leaves_call; [intros _|split; [by left|]; intros e3 w3 He3 E3; rewrite (proj2 (Z.eqb_neq _ _) He3), E3; done].
    assert (backed_up (<[back := content filename (files w2)]> (delete filename (files w2)))) as Hb2 by (split; [rewrite lookup_insert_eq; unfold content; by rewrite (proj1 Hi)|apply others_insert, others_delete, Hi; done]). split; [by right|]. intros w3 E3. cbn. by rewrite E3.
Qed.

Lemma install_leaves w : in_place (files w) -> leaves (install filename back temp) w not_lost (fun _ _ => True).
Proof.
  destruct distinct as (Hfb & Htb & Htf), listed_paths as (Hf & Hb & Ht). intros Hi. unfold install. apply leaves_bind.
  assert (forall e w', in_place (files w') -> leaves (if negb (e =? 0) && negb (e =? ENOENT) then mret (Err SSH_ERR_SYSTEM_ERROR) else e ← xrename filename back; if negb (e =? 0) then mret (Err SSH_ERR_SYSTEM_ERROR) else e ← sys_rename temp filename; mret (if negb (e =? 0) then Err SSH_ERR_SYSTEM_ERROR else Ok tt)) w' not_lost (fun _ _ => True)) as Hrest.
  { intros e w1 Hi1. destruct (_ && _); [apply leaves_ret; [by left|done]|]. apply leaves_bind. eapply leaves_mono; [by apply xrename_leaves|]. intros e2 w2 Hl Hc. cbn beta in Hc. destruct (e2 =? 0); cbn [negb]; [|apply leaves_ret; [by left|done]].
    apply leaves_bind, leaves_call; [intros _; split|split; [done|]; intros e3 w3 _ E3; apply leaves_ret; rewrite ?E3; done]; [|intros w3 E3; apply leaves_ret; rewrite ?E3; [|done]]; (right; destruct Hc as [Hc Ho]; split; [rewrite lookup_insert_ne, lookup_delete_ne by done; done|apply others_insert, others_delete; done]). }
  apply leaves_call; [intros _; assert (in_place (delete back (files w))) by (apply in_place_delete; [by left|done]); split; [by left|]; intros w1 E1|split; [by left|]; intros e w1 _ E1]; apply Hrest; by rewrite E1.
Qed.

Lemma fclose_leaves text w : in_place (files w) -> leaves (fclose_text temp text) w not_lost (fun _ w' => in_place (files w')).
Proof.
  intros Hi. unfold fclose_text. apply leaves_bind. eapply leaves_mono; [apply (leaves_tame _ _ _ fault_tame); by left|]. intros e w1 _ E1. rewrite <- E1 in Hi. unfold leaves. cbn.
  match goal with |- context [<[temp := ?x]> _] => assert (in_place (<[temp := x]> (files w1))) by (apply in_place_insert; [by right|done]) end. split; [by left|done].
Qed.

Lemma unlink_leaves p w : p ∈ touched -> p <> filename -> p <> back -> not_lost (files w) -> leaves (sys_unlink p) w not_lost (fun _ _ => True).
Proof.
  intros Hp Hpf Hpb Hl. apply leaves_call; [intros _; split; [|done]|by split]. destruct Hl as [[Hi Ho]|[Hi Ho]]; [left|right]; (split; [by rewrite lookup_delete_ne|by apply others_delete]).
Qed.
Lemma unlink_err p r w : p ∈ touched -> p <> filename -> p <> back -> not_lost (files w) -> leaves (_ ← sys_unlink p; mret (Err r : result unit)) w not_lost (fun _ _ => True).
Proof. intros. apply leaves_bind. eapply leaves_mono; [by apply unlink_leaves|]. intros e w1 Hl _. by apply leaves_ret. Qed.

Lemma replace_leaves host ip keys store_hash w : back = backup_name filename -> in_place (files w) -> leaves (replace_body filename temp host ip keys store_hash) w not_lost (fun _ _ => True).
Proof.
  intros Eb Hi. unfold replace_body. apply leaves_bind. eapply leaves_mono; [apply (leaves_tame _ _ _ fault_tame); by left|]. intros e w1 _ E1. rewrite <- E1 in Hi. destruct (negb (e =? 0)); [apply leaves_ret; [by left|done]|].
  apply leaves_bind. eapply leaves_mono; [apply (leaves_tame _ _ _ (hostkeys_foreach_tame _ _ _ _ _ (host_delete_tame keys) _)); by left|]. intros [[[]|r] ctx] w2 _ E2; rewrite <- E2 in Hi; [|apply leaves_ret; [by left|done]].
  apply leaves_bind. eapply leaves_mono; [apply (leaves_tame _ _ _ (add_keys_tame _ _ _ _ _ _)); by left|]. intros [[[]|r] ctx'] w3 _ E3; rewrite <- E3 in Hi; [|apply leaves_ret; [by left|done]].
  apply leaves_bind. eapply leaves_mono; [by apply fclose_leaves|]. intros u w4 _ Hi4. destruct (d_modified ctx'); [rewrite <- Eb; by apply install_leaves|]. apply leaves_bind. eapply leaves_mono; [apply unlink_leaves; [apply listed_paths|apply distinct|apply distinct|by left]|]. intros e5 w5 Hl _. by apply leaves_ret.
Qed.
End kept.

(** C9: The contents of a known hosts file are not lost, whatever calls of the system
    fail and in whatever way the replacement of keys ends: they are in the file or in
    its backup, and besides these only the temporary file changes. *)
Theorem known_hosts_not_lost filename host ip keys store_hash w d :
  files w !! filename = Some d -> length (temp_name (temp_template filename) (files w)) = length (temp_template filename) ->
  let w' := snd (hostfile_replace_entries filename host ip keys store_hash w) in
  (files w' !! filename = Some d \/ files w' !! backup_name filename = Some d) /\
  forall p, p ∉ [filename; backup_name filename; temp_name (temp_template filename) (files w); temp_template filename] -> files w' !! p = files w !! p.
Proof.
  intros Hf Hlen. cbn zeta. set (temp := temp_name _ _) in *. set (back := backup_name filename). set (touched := [filename; back; temp; temp_template filename]).
  assert (forall name, length name = length (temp_template filename) -> filename <> back /\ name <> back /\ name <> filename) as Hd.
  { intros name El. unfold back, backup_name, temp_template in *. rewrite length_app in El. cbn in El. split_and!; intros E; apply (f_equal length) in E; rewrite ?length_app in E; cbn in E; lia. }
  destruct (Hd temp Hlen) as (_ & Htb & Htf). destruct (Hd (temp_template filename) eq_refl) as (Hfb & Hxb & Hxf).
  assert (filename ∈ touched /\ back ∈ touched /\ temp ∈ touched) as Hin by set_solver. assert (temp_template filename ∈ touched) as Hx by set_solver.
  assert (in_place filename d (files w) touched (files w)) as Hi by by split.
  assert (leaves (hostfile_replace_entries filename host ip keys store_hash) w (not_lost filename back d (files w) touched) (fun _ _ => True)) as Hl.
  { unfold hostfile_replace_entries. destruct (negb _); [apply leaves_ret; [by left|done]|]. destruct (negb _); [apply leaves_ret; [by left|done]|]. destruct (negb _); [apply unlink_err; try done; by left|].
    apply leaves_bind. unfold mkstemp. apply leaves_bind. eapply leaves_mono; [apply (leaves_tame _ _ _ fault_tame); by left|]. intros e w1 _ E1. destruct (negb (e =? 0)).
    - apply leaves_ret; rewrite ?E1; [by left|]. apply unlink_err; try done. left. by rewrite E1.
    - unfold leaves at 1, reads, mbind, io_bind. cbn. rewrite E1. fold temp. assert (in_place filename d (files w) touched (<[temp := []]> (files w))) as Hi2 by (apply (in_place_insert filename back temp); [done|done|by right|done]). split; [by left|].
      apply leaves_bind. eapply leaves_mono; [by apply replace_leaves|]. intros r w2 Hl2 _. destruct r as [[]|r]; [by apply leaves_ret|]. apply unlink_err; try done. apply Hin. }
  unfold leaves in Hl. assert (not_lost filename back d (files w) touched (files (snd (hostfile_replace_entries filename host ip keys store_hash w)))) as [[Hi' Ho]|[Hi' Ho]] by (by destruct (hostfile_replace_entries filename host ip keys store_hash w) as [[] ?]; [destruct Hl|..]);
    (split; [tauto|exact Ho]).
Qed.
End failing.

(** * An example *)

Module ToyEdit.
Import ToyHosts.

Lemma toy_random n : bytes_ok (@arc4random_buf env n 20) /\ zlen (@arc4random_buf env n 20) = 20.
Proof. split; [|done]. apply Forall_fmap, Forall_true. intros i. apply Z.mod_pos_bound. lia. Qed.
Lemma toy_text k : is_byte k -> @key_text alloc_all keys k k [k].
Proof.
  intros Hk. split; try done; [apply (@sshbuf_put_u8_appends alloc_all)|by apply Forall_singleton|split_and!; [compute_dec|compute_dec|done|done]|]. exists KEY_RSA, (-1), k. split_and!; try done. by left.
Qed.

Definition org : cstring := str "Example.org".

(** A hashed name with a fresh salt matches, a malformed one does not. *)
Lemma hashed_name_exact_witness : (exists h w', @host_hash alloc_all toy_digest env org None start = (Ret (Some h), w') /\ @match_maybe_hashed alloc_all toy_digest env org h w' = (Ret (Some true, true), w')) /\
  fst (@match_maybe_hashed alloc_all toy_digest env org (str "|1|") start) = Ret (None, true).
Proof.
  split; [|vm_compute; reflexivity]. destruct (@hashed_name_exact alloc_all toy_digest env alloc_all_reliable toy_digest_laws org (str "|1|") start (digest_total _) ltac:(by eexists)) as (_ & Hn).
  destruct (Hn ltac:(apply toy_random) ltac:(apply toy_random)) as (h & w' & E & _ & Em). exists h, w'. exact (conj E Em).
Defined.

(** The host is new in the file; its key is known afterwards. *)
Lemma added_host_known_witness : exists line w', @add_host_to_hostfile alloc_all toy_digest keys env known (str "New.org,10.0.0.2") (Some 9) false start = (Ret true, w') /\ line = str "new.org,10.0.0.2 ssh-rsa CQ==" /\
  exists entries, @load_files alloc_all toy_digest keys env (str "new.org") [known] (@init_hostkeys keys) w' = (Ret entries, w').
Proof.
  destruct (@added_host_known alloc_all toy_digest keys env alloc_all_reliable toy_digest_laws digest_total toy_random known (str "New.org,10.0.0.2") [str "New.org"; str "10.0.0.2"] 9 9 [9] false start) as (line & w' & E & Ef & Hs).
  - apply toy_text. split; lia.
  - reflexivity.
  - reflexivity.
  - reflexivity.
  - discriminate.
  - repeat (apply Forall_cons; split); [split; [compute_dec|compute_dec|cbn; unfold SUB_MAX; lia]..|apply Forall_nil, I].
  - reflexivity.
  - apply start_text. apply list_elem_of_singleton. reflexivity.
  - exists line, w'. split; [exact E|]. assert (files w' !! known = Some (file_of lines ++ str "new.org,10.0.0.2 ssh-rsa CQ==" ++ [10])) as Ec by (etransitivity; [symmetry; exact (f_equal (fun x => files (snd x) !! known) E)|vm_compute; reflexivity]).
    assert (content known (files start) = file_of lines) as Es by (vm_compute; reflexivity). rewrite Ef, lookup_insert_eq, Es in Ec. apply (inj Some) in Ec. apply app_inv_head in Ec. apply app_inj_tail in Ec as [El _]. split; [exact El|].
    destruct (Hs ltac:(intros a name gap tail _; reflexivity)) as [_ Hk]. destruct (Hk (str "new.org")) as (entries & Hl & _); [unfold named; compute_dec|]. exists entries. exact Hl.
Defined.


(** The last call fails: the old contents are in the backup, and the file is gone. *)
Definition failing : world := mk_world (files start) [0; 0; 0; 0; 0; 0; 0; 28] 0.
Lemma known_hosts_not_lost_witness : let w' := snd (@hostfile_replace_entries alloc_all toy_digest keys env known org None [9] false failing) in
  files w' !! known = None /\ files w' !! backup_name known = Some (file_of lines) /\ (files w' !! known = Some (file_of lines) \/ files w' !! backup_name known = Some (file_of lines)).
Proof.
  cbv zeta. split; [vm_compute; reflexivity|]. split; [vm_compute; reflexivity|].
  exact (proj1 (@known_hosts_not_lost alloc_all toy_digest keys env known org None [9] false failing (file_of lines) ltac:(vm_compute; reflexivity) ltac:(vm_compute; reflexivity))).
Defined.
End ToyEdit.
