(* ===== verification/Kex.v ===== *)
(** Key exchange: the KEXINIT proposals, the choice of algorithms and the
    derivation of the keys (kex.c).

    The handshake messages and their ordering are in KexFlow; here is what each
    side computes from the two proposals and from the shared secret. *)

From Stdlib Require Import String.
From S2P Require Import Prelude Sshbuf SshbufGetPut Match AlgNames Digest.
Local Open Scope Z_scope.

(** * State (kex.h) *)

Definition PROPOSAL_KEX_ALGS : nat := 0.
Definition PROPOSAL_SERVER_HOST_KEY_ALGS : nat := 1.
Definition PROPOSAL_ENC_ALGS_CTOS : nat := 2.
Definition PROPOSAL_ENC_ALGS_STOC : nat := 3.
Definition PROPOSAL_MAC_ALGS_CTOS : nat := 4.
Definition PROPOSAL_MAC_ALGS_STOC : nat := 5.
Definition PROPOSAL_COMP_ALGS_CTOS : nat := 6.
Definition PROPOSAL_COMP_ALGS_STOC : nat := 7.
Definition PROPOSAL_MAX : nat := 10.

Definition KEX_COOKIE_LEN : Z := 16.

Inductive kex_mode : Set := MODE_IN | MODE_OUT.

Definition KEX_INIT_SENT : Z := 0x0001.
Definition KEX_INITIAL : Z := 0x0002.

Definition COMP_NONE : Z := 0.
Definition COMP_ZLIB : Z := 1.
Definition COMP_DELAYED : Z := 2.

Record sshenc := mk_enc {
  enc_name : option cstring; enc_cipher : option sshcipher; enc_enabled : bool;
  enc_key_len : Z; enc_iv_len : Z; enc_block_size : Z; enc_key : option (list Z); enc_iv : option (list Z)
}.

Record sshcomp := mk_comp { comp_type : Z; comp_enabled : bool; comp_name : option cstring }.

Record newkeys := mk_newkeys { nk_enc : sshenc; nk_mac : sshmac; nk_comp : sshcomp }.

(** After calloc. *)
Definition newkeys_zero : newkeys :=
  mk_newkeys (mk_enc None None false 0 0 0 None None) mac_zero (mk_comp 0 false None).

Record kex := mk_kex {
  session_id : option (list Z);
  newkeys_in : option newkeys; newkeys_out : option newkeys;
  we_need : Z; dh_need : Z;
  server : bool;
  kex_name : option cstring; hostkey_alg : option cstring; kex_type : kex_exchange;
  ext_info_c : bool;
  my : sshbuf; peer : sshbuf;
  kex_done : bool; flags : Z;
  hash_alg : Z; ec_nid : Z;
  failed_choice : option cstring
}.

Definition set_alg (n : option cstring) (t : kex_exchange) (h nid : Z) (k : kex) : kex :=
  mk_kex (session_id k) (newkeys_in k) (newkeys_out k) (we_need k) (dh_need k) (server k) n (hostkey_alg k) t
    (ext_info_c k) (my k) (peer k) (kex_done k) (flags k) h nid (failed_choice k).
Definition set_hostkey_alg (n : option cstring) (k : kex) : kex :=
  mk_kex (session_id k) (newkeys_in k) (newkeys_out k) (we_need k) (dh_need k) (server k) (kex_name k) n
    (kex_type k) (ext_info_c k) (my k) (peer k) (kex_done k) (flags k) (hash_alg k) (ec_nid k) (failed_choice k).
Definition set_newkeys (mode : kex_mode) (nk : option newkeys) (k : kex) : kex :=
  mk_kex (session_id k) (match mode with MODE_IN => nk | MODE_OUT => newkeys_in k end)
    (match mode with MODE_IN => newkeys_out k | MODE_OUT => nk end) (we_need k) (dh_need k) (server k)
    (kex_name k) (hostkey_alg k) (kex_type k) (ext_info_c k) (my k) (peer k) (kex_done k) (flags k)
    (hash_alg k) (ec_nid k) (failed_choice k).
Definition set_needs (need dh : Z) (k : kex) : kex :=
  mk_kex (session_id k) (newkeys_in k) (newkeys_out k) need dh (server k) (kex_name k) (hostkey_alg k)
    (kex_type k) (ext_info_c k) (my k) (peer k) (kex_done k) (flags k) (hash_alg k) (ec_nid k) (failed_choice k).
Definition set_ext_info (b : bool) (k : kex) : kex :=
  mk_kex (session_id k) (newkeys_in k) (newkeys_out k) (we_need k) (dh_need k) (server k) (kex_name k)
    (hostkey_alg k) (kex_type k) b (my k) (peer k) (kex_done k) (flags k) (hash_alg k) (ec_nid k) (failed_choice k).
Definition set_bufs (m p : sshbuf) (k : kex) : kex :=
  mk_kex (session_id k) (newkeys_in k) (newkeys_out k) (we_need k) (dh_need k) (server k) (kex_name k)
    (hostkey_alg k) (kex_type k) (ext_info_c k) m p (kex_done k) (flags k) (hash_alg k) (ec_nid k) (failed_choice k).
Definition set_flow (d : bool) (f : Z) (k : kex) : kex :=
  mk_kex (session_id k) (newkeys_in k) (newkeys_out k) (we_need k) (dh_need k) (server k) (kex_name k)
    (hostkey_alg k) (kex_type k) (ext_info_c k) (my k) (peer k) d f (hash_alg k) (ec_nid k) (failed_choice k).
Definition set_failed (f : option cstring) (k : kex) : kex :=
  mk_kex (session_id k) (newkeys_in k) (newkeys_out k) (we_need k) (dh_need k) (server k) (kex_name k)
    (hostkey_alg k) (kex_type k) (ext_info_c k) (my k) (peer k) (kex_done k) (flags k) (hash_alg k) (ec_nid k) f.
Definition set_session_id (s : list Z) (k : kex) : kex :=
  mk_kex (Some s) (newkeys_in k) (newkeys_out k) (we_need k) (dh_need k) (server k) (kex_name k)
    (hostkey_alg k) (kex_type k) (ext_info_c k) (my k) (peer k) (kex_done k) (flags k) (hash_alg k) (ec_nid k)
    (failed_choice k).

Definition newkeys_of (mode : kex_mode) (k : kex) : option newkeys :=
  match mode with MODE_IN => newkeys_in k | MODE_OUT => newkeys_out k end.

(** Which names sshkey.c knows as host key algorithms
    ([sshkey_type_from_name] is not [KEY_UNSPEC]). *)
Class HostKeyNames := hostkey_known : cstring -> bool.

Section kex.
Context `{Allocator} `{EvpDigest} `{HostKeyNames}.

(** * Proposals on the wire *)

Fixpoint put_cookie (n : nat) : SE sshbuf unit :=
  match n with O => mret tt | S n => _ ← sshbuf_put_u8 0; put_cookie n end.

Fixpoint put_proposal (ps : list cstring) : SE sshbuf unit :=
  match ps with [] => mret tt | p :: ps => _ ← sshbuf_put_cstring (Some p); put_proposal ps end.

Definition kex_prop2buf (proposal : list cstring) : SE sshbuf unit :=
  _ ← se_modify sshbuf_reset;
  _ ← put_cookie (Z.to_nat KEX_COOKIE_LEN);
  _ ← put_proposal proposal;
  _ ← sshbuf_put_u8 0;
  sshbuf_put_u32 0.

Fixpoint get_proposal (n : nat) : SE sshbuf (list cstring) :=
  match n with
  | O => mret []
  | S n => p ← sshbuf_get_cstring; ps ← get_proposal n; mret (cstr p :: ps)
  end.

(** The parser of the copy: [first_kex_follows] and the proposals. *)
Definition parse_kexinit : SE sshbuf (Z * list cstring) :=
  _ ← sshbuf_consume KEX_COOKIE_LEN;
  proposal ← get_proposal PROPOSAL_MAX;
  v ← sshbuf_get_u8;
  _ ← sshbuf_get_u32;
  mret (v, proposal).

Definition kex_buf2prop : SE sshbuf (Z * list cstring) := fun raw =>
  if negb (malloc_ok (Z.of_nat PROPOSAL_MAX * 8)) then (Err SSH_ERR_ALLOC_FAIL, raw)
  else
    match sshbuf_fromb raw with
    | (None, raw) => (Err SSH_ERR_ALLOC_FAIL, raw)
    | (Some b, raw) => (fst (parse_kexinit b), sshbuf_unref raw)
    end.

(** * Choice of the algorithms *)

Definition choose_enc (client server : cstring) : result sshenc :=
  match match_list client server with
  | None => Err SSH_ERR_NO_CIPHER_ALG_MATCH
  | Some name =>
      match cipher_by_name name with
      | None => Err SSH_ERR_INTERNAL_ERROR
      | Some c => Ok (mk_enc (Some name) (Some c) false (cipher_keylen c) (cipher_ivlen c) (cipher_blocksize c) None None)
      end
  end.

Definition choose_mac (client server : cstring) : SE sshmac unit := fun mac =>
  match match_list client server with
  | None => (Err SSH_ERR_NO_MAC_ALG_MATCH, mac)
  | Some name =>
      match mac_setup name mac with
      | (Err _, mac) => (Err SSH_ERR_INTERNAL_ERROR, mac)
      | (Ok _, mac) =>
          (Ok tt, mk_mac (Some name) false (mac_len mac) None (mac_key_len mac) (mac_type mac) (mac_etm mac)
             (hmac_ctx mac) (umac_ctx mac))
      end
  end.

Definition choose_comp (client server : cstring) : result sshcomp :=
  match match_list client server with
  | None => Err SSH_ERR_NO_COMPRESS_ALG_MATCH
  | Some name =>
      if bool_decide (name = str "zlib@openssh.com") then Ok (mk_comp COMP_DELAYED false (Some name))
      else if bool_decide (name = str "zlib") then Ok (mk_comp COMP_ZLIB false (Some name))
      else if bool_decide (name = str "none") then Ok (mk_comp COMP_NONE false (Some name))
      else Err SSH_ERR_INTERNAL_ERROR
  end.

Definition choose_kex (client server : cstring) : SE kex unit := fun k =>
  match match_list client server with
  | None => (Err SSH_ERR_NO_KEX_ALG_MATCH, set_alg None (kex_type k) (hash_alg k) (ec_nid k) k)
  | Some name =>
      match kex_alg_by_name name with
      | None => (Err SSH_ERR_INTERNAL_ERROR, set_alg (Some name) (kex_type k) (hash_alg k) (ec_nid k) k)
      | Some a => (Ok tt, set_alg (Some name) (ka_type a) (ka_hash a) (ka_nid a) k)
      end
  end.

Definition choose_hostkeyalg (client server : cstring) : SE kex unit := fun k =>
  match match_list client server with
  | None => (Err SSH_ERR_NO_HOSTKEY_ALG_MATCH, set_hostkey_alg None k)
  | Some name =>
      if hostkey_known name then (Ok tt, set_hostkey_alg (Some name) k)
      else (Err SSH_ERR_INTERNAL_ERROR, set_hostkey_alg (Some name) k)
  end.

(** The text before the first comma: strchr and the nul written over it. *)
Definition first_name (s : cstring) : cstring := fst (strsep s).

(** [proposals_match]; entries may be null, and a null entry is dereferenced by
    strchr: the result is then [None]. *)
Definition proposals_match (my peer : list (option cstring)) : option bool :=
  match my !! PROPOSAL_KEX_ALGS, peer !! PROPOSAL_KEX_ALGS with
  | Some (Some m), Some (Some p) =>
      if negb (bool_decide (first_name m = first_name p)) then Some false
      else
        match my !! PROPOSAL_SERVER_HOST_KEY_ALGS, peer !! PROPOSAL_SERVER_HOST_KEY_ALGS with
        | Some (Some m), Some (Some p) => Some (bool_decide (first_name m = first_name p))
        | _, _ => None
        end
  | _, _ => None
  end.

(** Inside [kex_choose_conf]: the connection's state and the array [peer], of
    which the entry that was refused is moved to [failed_choice]. *)
Record conf_st := mk_conf { cs_kex : kex; cs_peer : list (option cstring) }.

Definition on_kex {A} (m : SE kex A) : SE conf_st A := fun st =>
  let '(r, k) := m (cs_kex st) in (r, mk_conf k (cs_peer st)).

(** A choice from the entries [i]; on failure, [failed_choice] is set. *)
Definition or_failed (i : nat) (m : SE kex unit) : SE conf_st unit := fun st =>
  match m (cs_kex st) with
  | (Ok _, k) => (Ok tt, mk_conf k (cs_peer st))
  | (Err e, k) => (Err e, mk_conf (set_failed (default None (cs_peer st !! i)) k) (<[i := None]> (cs_peer st)))
  end.

Definition prop_at (ps : list cstring) (i : nat) : cstring := default [] (ps !! i).

(** Choices that fill in the keys of a direction. *)
Definition set_enc (mode : kex_mode) (r : result sshenc) : SE kex unit := fun k =>
  match r, newkeys_of mode k with
  | Ok e, Some nk => (Ok tt, set_newkeys mode (Some (mk_newkeys e (nk_mac nk) (nk_comp nk))) k)
  | Err e, _ => (Err e, k)
  | Ok _, None => (Ok tt, k)
  end.

Definition set_mac (mode : kex_mode) (m : SE sshmac unit) : SE kex unit := fun k =>
  match newkeys_of mode k with
  | Some nk => let '(r, mac) := m (nk_mac nk) in (r, set_newkeys mode (Some (mk_newkeys (nk_enc nk) mac (nk_comp nk))) k)
  | None => (Ok tt, k)
  end.

Definition set_comp (mode : kex_mode) (r : result sshcomp) : SE kex unit := fun k =>
  match r, newkeys_of mode k with
  | Ok c, Some nk => (Ok tt, set_newkeys mode (Some (mk_newkeys (nk_enc nk) (nk_mac nk) c)) k)
  | Err e, _ => (Err e, k)
  | Ok _, None => (Ok tt, k)
  end.

Definition SIZEOF_NEWKEYS : Z := 120.

Definition is_ctos (server : bool) (mode : kex_mode) : bool :=
  match mode with MODE_IN => server | MODE_OUT => negb server end.

(** The choices of one direction. *)
Definition choose_dir (cprop sprop : list cstring) (mode : kex_mode) (ctos : bool) : SE conf_st unit :=
  let nenc := if ctos then PROPOSAL_ENC_ALGS_CTOS else PROPOSAL_ENC_ALGS_STOC in
  let nmac := if ctos then PROPOSAL_MAC_ALGS_CTOS else PROPOSAL_MAC_ALGS_STOC in
  let ncomp := if ctos then PROPOSAL_COMP_ALGS_CTOS else PROPOSAL_COMP_ALGS_STOC in
  let enc := choose_enc (prop_at cprop nenc) (prop_at sprop nenc) in
  _ ← or_failed nenc (set_enc mode enc);
  let authlen := match enc with Ok e => match enc_cipher e with Some c => cipher_authlen c | None => 0 end | Err _ => 0 end in
  _ ← (if authlen =? 0 then
         or_failed nmac (set_mac mode (choose_mac (prop_at cprop nmac) (prop_at sprop nmac)))
       else mret tt);
  or_failed ncomp (set_comp mode (choose_comp (prop_at cprop ncomp) (prop_at sprop ncomp))).

(** One round of the loop over the modes. *)
Definition choose_mode (cprop sprop : list cstring) (mode : kex_mode) : SE conf_st unit := fun st =>
  if negb (malloc_ok SIZEOF_NEWKEYS) then (Err SSH_ERR_ALLOC_FAIL, st)
  else
    choose_dir cprop sprop mode (is_ctos (server (cs_kex st)) mode)
      (mk_conf (set_newkeys mode (Some newkeys_zero) (cs_kex st)) (cs_peer st)).

(** The lengths needed by the keys of one direction. *)
Definition mode_need (nk : option newkeys) (need : Z) : Z :=
  match nk with
  | None => need
  | Some nk =>
      MAXIMUM (MAXIMUM (MAXIMUM (MAXIMUM need (enc_key_len (nk_enc nk))) (enc_block_size (nk_enc nk)))
        (enc_iv_len (nk_enc nk))) (mac_key_len (nk_mac nk))
  end.

Definition mode_dh_need (nk : option newkeys) (need : Z) : Z :=
  match nk with
  | None => need
  | Some nk =>
      MAXIMUM (MAXIMUM (MAXIMUM (MAXIMUM need
        (match enc_cipher (nk_enc nk) with Some c => cipher_seclen c | None => 0 end))
        (enc_block_size (nk_enc nk))) (enc_iv_len (nk_enc nk))) (mac_key_len (nk_mac nk))
  end.

Definition compute_needs : SE kex unit :=
  se_modify (fun k =>
    set_needs (mode_need (newkeys_out k) (mode_need (newkeys_in k) 0))
      (mode_dh_need (newkeys_out k) (mode_dh_need (newkeys_in k) 0)) k).

(** The body of [kex_choose_conf] between the parsing and the label out. *)
Definition negotiate (myp peerp : list cstring) : SE conf_st unit :=
  st ← se_get;
  let cprop := if server (cs_kex st) then peerp else myp in
  let sprop := if server (cs_kex st) then myp else peerp in
  _ ← (if server (cs_kex st) && negb (Z.land (flags (cs_kex st)) KEX_INITIAL =? 0) then
         on_kex (se_modify (set_ext_info
           (bool_decide (is_Some (match_list (str "ext-info-c") (prop_at peerp PROPOSAL_KEX_ALGS))))))
       else mret tt);
  _ ← or_failed PROPOSAL_KEX_ALGS
        (choose_kex (prop_at cprop PROPOSAL_KEX_ALGS) (prop_at sprop PROPOSAL_KEX_ALGS));
  _ ← or_failed PROPOSAL_SERVER_HOST_KEY_ALGS
        (choose_hostkeyalg (prop_at cprop PROPOSAL_SERVER_HOST_KEY_ALGS) (prop_at sprop PROPOSAL_SERVER_HOST_KEY_ALGS));
  _ ← choose_mode cprop sprop MODE_IN;
  _ ← choose_mode cprop sprop MODE_OUT;
  on_kex compute_needs.

(** [kex_choose_conf] on the state and [dispatch_skip_packets]; [None] when a
    null pointer is dereferenced. *)
Definition kex_choose_conf (k : kex) (skip : Z) : option (result unit * kex * Z) :=
  match kex_buf2prop (my k) with
  | (Err e, m) => Some (Err e, set_bufs m (peer k) k, skip)
  | (Ok (_, myp), m) =>
      match kex_buf2prop (peer k) with
      | (Err e, p) => Some (Err e, set_bufs m p k, skip)
      | (Ok (first_kex_follows, peerp), p) =>
          let '(r, st) := negotiate myp peerp (mk_conf (set_bufs m p k) (map Some peerp)) in
          if first_kex_follows =? 0 then Some (r, cs_kex st, skip)
          else
            match proposals_match (map Some myp) (cs_peer st) with
            | None => None
            | Some true => Some (r, cs_kex st, skip)
            | Some false => Some (r, cs_kex st, 1)
            end
      end
  end.

(** * Key derivation *)

(** ssh_digest_start, some updates and ssh_digest_final. *)
Definition digest_parts (alg : Z) (parts : list (list Z)) (dlen : Z) : result (list Z) :=
  match ssh_digest_start alg with
  | None => Err SSH_ERR_LIBCRYPTO_ERROR
  | Some c =>
      match ssh_digest_final (fold_left ssh_digest_update parts c) dlen with
      | Ok d => Ok d
      | Err _ => Err SSH_ERR_LIBCRYPTO_ERROR
      end
  end.

(** The loop that expands the key; [digest] is the memory, of which [have] bytes
    are filled. *)
Fixpoint expand_key (fuel : nat) (alg mdsz need : Z) (secret hash : list Z) (have : Z) (digest : list Z) :
    result (list Z) :=
  match fuel with
  | O => Ok digest
  | S fuel =>
      if need >? have then
        match digest_parts alg [secret; hash; ztake have digest] mdsz with
        | Err e => Err e
        | Ok d => expand_key fuel alg mdsz need secret hash (u32 (have + mdsz)) (mem_write digest have d)
        end
      else Ok digest
  end.

(** Every round adds at least a byte, so [need] rounds are enough. *)
Definition derive_key (k : kex) (id need : Z) (hash secret : list Z) : result (list Z) :=
  let mdsz := ssh_digest_bytes (hash_alg k) in
  if mdsz =? 0 then Err SSH_ERR_INVALID_ARGUMENT
  else if negb (malloc_ok (ROUNDUP need mdsz)) then Err SSH_ERR_ALLOC_FAIL
  else
    match digest_parts (hash_alg k) [secret; hash; [id]; default [] (session_id k)] mdsz with
    | Err e => Err e
    | Ok d =>
        expand_key (Z.to_nat need) (hash_alg k) mdsz need secret hash mdsz
          (mem_write (zrepeat (ROUNDUP need mdsz)) 0 d)
    end.

Definition NKEYS : nat := 6.

(** The keys 'A' to 'F'. *)
Fixpoint derive_all (n : nat) (id : Z) (k : kex) (hash secret : list Z) : result (list (list Z)) :=
  match n with
  | O => Ok []
  | S n =>
      match derive_key k id (we_need k) hash secret with
      | Err e => Err e
      | Ok d => match derive_all n (id + 1) k hash secret with Err e => Err e | Ok ds => Ok (d :: ds) end
      end
  end.

Definition install_keys (iv key mac : list Z) (nk : newkeys) : newkeys :=
  let e := nk_enc nk in let m := nk_mac nk in
  mk_newkeys
    (mk_enc (enc_name e) (enc_cipher e) (enc_enabled e) (enc_key_len e) (enc_iv_len e) (enc_block_size e)
       (Some key) (Some iv))
    (mk_mac (mac_name m) (mac_enabled m) (mac_len m) (Some mac) (mac_key_len m) (mac_type m) (mac_etm m)
       (hmac_ctx m) (umac_ctx m))
    (nk_comp nk).

Definition install_mode (keys : list (list Z)) (mode : kex_mode) (k : kex) : kex :=
  let ctos := is_ctos (server k) mode in
  let key i j := default [] (keys !! (if ctos then i else j)) in
  set_newkeys mode (install_keys (key 0%nat 1%nat) (key 2%nat 3%nat) (key 4%nat 5%nat) <$> newkeys_of mode k) k.

(** [hash] is the array of [hashlen] bytes. *)
Definition kex_derive_keys (hash : list Z) (shared_secret : sshbuf) : SE kex unit := fun k =>
  let secret := default [] (sshbuf_ptr shared_secret) in
  match (match session_id k with
         | Some _ => Some k
         | None => if malloc_ok (zlen hash) then Some (set_session_id hash k) else None
         end) with
  | None => (Err SSH_ERR_ALLOC_FAIL, k)
  | Some k =>
      match derive_all NKEYS 65 k hash secret with
      | Err e => (Err e, k)
      | Ok keys => (Ok tt, install_mode keys MODE_OUT (install_mode keys MODE_IN k))
      end
  end.

(** * What is negotiated *)

(** The result of a negotiation as a function of the two proposals alone. *)
Record agreement := mk_agreement {
  ag_name : cstring; ag_alg : kexalg; ag_hostkey : cstring; ag_ctos : newkeys; ag_stoc : newkeys
}.

Definition enc_authlen (e : sshenc) : Z := match enc_cipher e with Some c => cipher_authlen c | None => 0 end.

(** The keys of one direction. *)
Definition dir_keys (cprop sprop : list cstring) (ctos : bool) : option newkeys :=
  let pick c s := (prop_at cprop (if ctos then c else s), prop_at sprop (if ctos then c else s)) in
  let '(ce, se) := pick PROPOSAL_ENC_ALGS_CTOS PROPOSAL_ENC_ALGS_STOC in
  let '(cm, sm) := pick PROPOSAL_MAC_ALGS_CTOS PROPOSAL_MAC_ALGS_STOC in
  let '(cc, sc) := pick PROPOSAL_COMP_ALGS_CTOS PROPOSAL_COMP_ALGS_STOC in
  match choose_enc ce se with
  | Err _ => None
  | Ok e =>
      match (if enc_authlen e =? 0 then choose_mac cm sm mac_zero else (Ok tt, mac_zero)) with
      | (Err _, _) => None
      | (Ok _, m) => match choose_comp cc sc with Err _ => None | Ok c => Some (mk_newkeys e m c) end
      end
  end.

Definition agreed (cprop sprop : list cstring) : option agreement :=
  name ← match_list (prop_at cprop PROPOSAL_KEX_ALGS) (prop_at sprop PROPOSAL_KEX_ALGS);
  alg ← kex_alg_by_name name;
  hk ← match_list (prop_at cprop PROPOSAL_SERVER_HOST_KEY_ALGS) (prop_at sprop PROPOSAL_SERVER_HOST_KEY_ALGS);
  if hostkey_known hk then
    c ← dir_keys cprop sprop true;
    s ← dir_keys cprop sprop false;
    Some (mk_agreement name alg hk c s)
  else None.

(** The state of an end after a successful negotiation. *)
Definition agreed_state (g : agreement) (k : kex) : kex :=
  let i := if server k then ag_ctos g else ag_stoc g in
  let o := if server k then ag_stoc g else ag_ctos g in
  set_needs (mode_need (Some o) (mode_need (Some i) 0)) (mode_dh_need (Some o) (mode_dh_need (Some i) 0))
    (set_newkeys MODE_OUT (Some o) (set_newkeys MODE_IN (Some i) (set_hostkey_alg (Some (ag_hostkey g))
      (set_alg (Some (ag_name g)) (ka_type (ag_alg g)) (ka_hash (ag_alg g)) (ka_nid (ag_alg g)) k)))).

Context `{!ReliableAllocator _}.

(** A choice followed by [f]. *)
Lemma or_failed_bind i m (f : unit -> SE conf_st unit) k p :
  (x ← or_failed i m; f x) (mk_conf k p) =
  match m k with
  | (Ok _, k) => f tt (mk_conf k p)
  | (Err e, k) => (Err e, mk_conf (set_failed (default None (p !! i)) k) (<[i := None]> p))
  end.
Proof. unfold mbind, se_bind, or_failed. cbn [cs_kex cs_peer]. by destruct (m k) as [[[]|e] k']. Qed.

Lemma newkeys_of_set mode nk k : newkeys_of mode (set_newkeys mode nk k) = nk.
Proof. by destruct mode. Qed.

Lemma set_newkeys_twice mode nk nk' k : set_newkeys mode nk (set_newkeys mode nk' k) = set_newkeys mode nk k.
Proof. by destruct mode. Qed.

Lemma choose_mode_spec cprop sprop mode k p :
  match dir_keys cprop sprop (is_ctos (server k) mode) with
  | Some nk => choose_mode cprop sprop mode (mk_conf k p) = (Ok tt, mk_conf (set_newkeys mode (Some nk) k) p)
  | None => exists e st, choose_mode cprop sprop mode (mk_conf k p) = (Err e, st)
  end.
Proof.
  unfold choose_mode, dir_keys. rewrite malloc_reliable. cbn [negb].
  cbn [cs_kex cs_peer]. set (ctos := is_ctos (server k) mode). unfold choose_dir. set (enc := choose_enc _ _).
  rewrite or_failed_bind. unfold set_enc. rewrite newkeys_of_set.
  destruct enc as [e|e]; [|by do 2 eexists]. rewrite set_newkeys_twice. fold (enc_authlen e).
  assert (Hc : forall m, match choose_comp (prop_at cprop (if ctos then PROPOSAL_COMP_ALGS_CTOS else PROPOSAL_COMP_ALGS_STOC))
        (prop_at sprop (if ctos then PROPOSAL_COMP_ALGS_CTOS else PROPOSAL_COMP_ALGS_STOC)) with
      | Ok c => forall i, or_failed i (set_comp mode (Ok c)) (mk_conf (set_newkeys mode (Some (mk_newkeys e m (mk_comp 0 false None))) k) p)
          = (Ok tt, mk_conf (set_newkeys mode (Some (mk_newkeys e m c)) k) p)
      | Err x => forall i, exists y st, or_failed i (set_comp mode (Err x))
          (mk_conf (set_newkeys mode (Some (mk_newkeys e m (mk_comp 0 false None))) k) p) = (Err y, st)
      end).
  { intros m. destruct (choose_comp _ _); intros i; unfold or_failed, set_comp; cbn [cs_kex cs_peer];
      [|by do 2 eexists]. rewrite newkeys_of_set. by rewrite set_newkeys_twice. }
  cbn [nk_mac nk_comp newkeys_zero]. destruct (enc_authlen e =? 0).
  - rewrite or_failed_bind. unfold set_mac. rewrite newkeys_of_set. cbn [nk_mac nk_enc nk_comp].
    destruct (choose_mac _ _ mac_zero) as [[[]|e2] m]; [|by do 2 eexists]. rewrite set_newkeys_twice.
    specialize (Hc m). destruct (choose_comp _ _); apply Hc.
  - specialize (Hc mac_zero). destruct (choose_comp _ _); apply Hc.
Qed.

(** The ext-info flag is the only other change. *)
Definition with_ext_info (peerp : list cstring) (k : kex) : kex :=
  if server k && negb (Z.land (flags k) KEX_INITIAL =? 0)
  then set_ext_info (bool_decide (is_Some (match_list (str "ext-info-c") (prop_at peerp PROPOSAL_KEX_ALGS)))) k
  else k.

Lemma with_ext_info_server peerp k : server (with_ext_info peerp k) = server k.
Proof. unfold with_ext_info. by destruct (server k && _)%bool. Qed.

(** Both directions; [f] is what follows. *)
Lemma choose_modes_spec cprop sprop k p (f : SE conf_st unit) :
  match dir_keys cprop sprop (server k), dir_keys cprop sprop (negb (server k)) with
  | Some i, Some o =>
      (_ ← choose_mode cprop sprop MODE_IN; _ ← choose_mode cprop sprop MODE_OUT; f) (mk_conf k p) =
      f (mk_conf (set_newkeys MODE_OUT (Some o) (set_newkeys MODE_IN (Some i) k)) p)
  | _, _ => exists e st, (_ ← choose_mode cprop sprop MODE_IN; _ ← choose_mode cprop sprop MODE_OUT; f) (mk_conf k p) = (Err e, st)
  end.
Proof.
  unfold mbind, se_bind.
  pose proof (choose_mode_spec cprop sprop MODE_IN k p) as Hin. cbn [is_ctos] in Hin.
  destruct (dir_keys cprop sprop (server k)) as [i|]; [|destruct Hin as (e & st & ->); by do 2 eexists].
  rewrite Hin.
  pose proof (choose_mode_spec cprop sprop MODE_OUT (set_newkeys MODE_IN (Some i) k) p) as Hout.
  cbn [is_ctos server set_newkeys] in Hout.
  destruct (dir_keys cprop sprop (negb (server k))) as [o|]; [by rewrite Hout|].
  destruct Hout as (e & st & ->); by do 2 eexists.
Qed.

Lemma negotiate_spec myp peerp k p :
  match agreed (if server k then peerp else myp) (if server k then myp else peerp) with
  | Some g => negotiate myp peerp (mk_conf k p) = (Ok tt, mk_conf (agreed_state g (with_ext_info peerp k)) p)
  | None => exists e st, negotiate myp peerp (mk_conf k p) = (Err e, st)
  end.
Proof.
  pose proof (with_ext_info_server peerp k) as Hsrv.
  set (cprop := if server k then peerp else myp). set (sprop := if server k then myp else peerp).
  assert (negotiate myp peerp (mk_conf k p) =
    (_ ← or_failed PROPOSAL_KEX_ALGS (choose_kex (prop_at cprop PROPOSAL_KEX_ALGS) (prop_at sprop PROPOSAL_KEX_ALGS));
     _ ← or_failed PROPOSAL_SERVER_HOST_KEY_ALGS (choose_hostkeyalg (prop_at cprop PROPOSAL_SERVER_HOST_KEY_ALGS)
           (prop_at sprop PROPOSAL_SERVER_HOST_KEY_ALGS));
     _ ← choose_mode cprop sprop MODE_IN; _ ← choose_mode cprop sprop MODE_OUT; on_kex compute_needs)
    (mk_conf (with_ext_info peerp k) p)) as ->.
  { unfold negotiate, with_ext_info, mbind, se_bind, se_get. cbn [cs_kex]. fold cprop sprop.
    by destruct (server k && _)%bool. }
  unfold agreed. rewrite or_failed_bind. unfold choose_kex.
  destruct (match_list (prop_at cprop PROPOSAL_KEX_ALGS) _) as [name|]; cbn [mbind option_bind]; [|by do 2 eexists].
  destruct (kex_alg_by_name name) as [alg|]; cbn [mbind option_bind]; [|by do 2 eexists].
  rewrite or_failed_bind. unfold choose_hostkeyalg.
  destruct (match_list (prop_at cprop PROPOSAL_SERVER_HOST_KEY_ALGS) _) as [hk|]; cbn [mbind option_bind]; [|by do 2 eexists].
  destruct (hostkey_known hk); [|by do 2 eexists].
  set (k2 := set_hostkey_alg _ _). assert (H2 : server k2 = server k) by (rewrite <- Hsrv; done).
  pose proof (choose_modes_spec cprop sprop k2 p (on_kex compute_needs)) as Hm. rewrite H2 in Hm.
  unfold agreed_state. rewrite Hsrv.
  destruct (server k); cbn [negb] in Hm; destruct (dir_keys cprop sprop true), (dir_keys cprop sprop false);
    exact Hm.
Qed.

(** ** Both ends come to the same result *)

Lemma buf2prop_contents b :
  bufr b -> exists c, sshbuf_from (contents b) = Some c /\ kex_buf2prop b = (fst (parse_kexinit c), b).
Proof.
  intros Hb. destruct (fromb_from b Hb) as (c & b1 & Ec & E & _ & _ & Hu). exists c. split; [done|].
  unfold kex_buf2prop. rewrite malloc_reliable, E. cbn [negb]. by rewrite Hu.
Qed.

(** What the parser reads off given bytes. *)
Definition proposal_of (l : list Z) : result (Z * list cstring) :=
  match sshbuf_from l with None => Err SSH_ERR_ALLOC_FAIL | Some c => fst (parse_kexinit c) end.

Lemma buf2prop_spec b : bufr b -> kex_buf2prop b = (proposal_of (contents b), b).
Proof. intros Hb. unfold proposal_of. by destruct (buf2prop_contents b Hb) as (c & -> & ->). Qed.

Lemma get_proposal_len n b ps b' : get_proposal n b = (Ok ps, b') -> length ps = n.
Proof.
  revert b ps b'. induction n as [|n IH]; intros b ps b' E; cbn in E; [by injection E as <-|].
  apply se_bind_inv in E as [(p & b1 & E1 & E)|(? & _ & [=])].
  apply se_bind_inv in E as [(qs & b2 & E2 & E)|(? & _ & [=])].
  injection E as <- _. cbn. f_equal. by eapply IH.
Qed.

Lemma proposal_of_len l v ps : proposal_of l = Ok (v, ps) -> length ps = PROPOSAL_MAX.
Proof.
  unfold proposal_of. destruct (sshbuf_from l) as [c|]; [|done].
  destruct (parse_kexinit c) as [r b] eqn:E. cbn [fst]. intros ->. unfold parse_kexinit in E.
  apply se_bind_inv in E as [([] & b1 & E1 & E)|(? & _ & [=])].
  apply se_bind_inv in E as [(qs & b2 & E2 & E)|(? & _ & [=])].
  apply se_bind_inv in E as [(w & b3 & E3 & E)|(? & _ & [=])].
  apply se_bind_inv in E as [(x & b4 & E4 & E)|(? & _ & [=])].
  injection E as <- <- _. by eapply get_proposal_len.
Qed.

(** When the parsed proposals agree, the configuration succeeds; otherwise it
    does not. *)
Lemma choose_conf_spec k skip v w myp peerp :
  bufr (my k) -> bufr (peer k) ->
  proposal_of (contents (my k)) = Ok (v, myp) -> proposal_of (contents (peer k)) = Ok (w, peerp) ->
  match agreed (if server k then peerp else myp) (if server k then myp else peerp) with
  | Some g => exists skip', kex_choose_conf k skip = Some (Ok tt, agreed_state g (with_ext_info peerp k), skip')
  | None => forall k' skip', kex_choose_conf k skip <> Some (Ok tt, k', skip')
  end.
Proof.
  intros Hm Hp Em Ep. unfold kex_choose_conf. rewrite !buf2prop_spec by done. rewrite Em, Ep.
  assert (set_bufs (my k) (peer k) k = k) as -> by by destruct k.
  pose proof (negotiate_spec myp peerp k (map Some peerp)) as Hn.
  apply proposal_of_len in Em, Ep.
  destruct (agreed _ _) as [g|].
  - rewrite Hn. cbn [cs_kex cs_peer]. destruct (w =? 0); [by eexists|].
    destruct myp as [|a [|a' myp]]; [done..|]. destruct peerp as [|b [|b' peerp]]; [done..|].
    cbn [map]. unfold proposals_match. cbn [lookup list_lookup PROPOSAL_KEX_ALGS PROPOSAL_SERVER_HOST_KEY_ALGS].
    destruct (negb _); [by eexists|]. destruct (bool_decide _); by eexists.
  - destruct Hn as (e & st & ->). intros k' skip'. destruct (w =? 0); [done|].
    by destruct (proposals_match _ _) as [[]|].
Qed.

(** ** RFC 4253, section 7.2 *)

(** [n] more blocks after the first ones: each is the hash of the secret, the
    exchange hash and all blocks so far. *)
Fixpoint kdf_blocks (n : nat) (alg : Z) (secret hash acc : list Z) : option (list Z) :=
  match n with
  | O => Some acc
  | S n => d ← evp_md alg (secret ++ hash ++ acc); kdf_blocks n alg secret hash (acc ++ d)
  end.

(** The number of blocks that give [need] bytes, at least one. *)
Definition kdf_count (alg need : Z) : Z := (need + ssh_digest_bytes alg - 1) / ssh_digest_bytes alg.

Definition kdf (alg need : Z) (secret hash sid : list Z) (id : Z) : option (list Z) :=
  k1 ← evp_md alg (secret ++ hash ++ id :: sid);
  kdf_blocks (Z.to_nat (kdf_count alg need - 1)) alg secret hash k1.

Context `{!EvpDigestLaws _}.

Lemma digest_parts_ok alg parts dlen :
  0 <= alg < SSH_DIGEST_MAX -> ssh_digest_bytes alg <= dlen < 2 ^ 32 ->
  digest_parts alg parts dlen = match evp_md alg (concat parts) with Some d => Ok d | None => Err SSH_ERR_LIBCRYPTO_ERROR end.
Proof.
  intros Ha Hd. unfold digest_parts, ssh_digest_start. destruct (digest_by_alg_ok alg Ha) as (? & -> & _).
  rewrite malloc_reliable.
  assert (forall ps m, fold_left ssh_digest_update ps (mk_dctx alg m) = mk_dctx alg (m ++ concat ps)) as Hf.
  { induction ps as [|q ps IH]; intros m; cbn [fold_left concat]; [by rewrite app_nil_r|].
    unfold ssh_digest_update at 2. cbn [dx_alg dx_data]. rewrite IH. by rewrite app_assoc. }
  rewrite Hf, digest_final_ok by done. cbn [app]. by destruct (evp_md _ _).
Qed.

(** The loop fills the memory block by block. *)
Lemma expand_key_spec fuel alg need secret hash n acc :
  let mdsz := ssh_digest_bytes alg in
  0 <= alg < SSH_DIGEST_MAX -> 0 < need < 2 ^ 31 -> (Z.of_nat n < Z.of_nat fuel) ->
  zlen acc + Z.of_nat n * mdsz = kdf_count alg need * mdsz ->
  0 < zlen acc -> (n <> O -> zlen acc < need) ->
  expand_key fuel alg mdsz need secret hash (zlen acc) (acc ++ zrepeat (Z.of_nat n * mdsz)) =
  match kdf_blocks n alg secret hash acc with Some d => Ok d | None => Err SSH_ERR_LIBCRYPTO_ERROR end.
Proof.
  intros mdsz Ha Hneed. revert n acc. induction fuel as [|fuel IH]; intros n acc Hf Hlen Hacc Hn; [lia|].
  destruct (digest_by_alg_ok alg Ha) as (dg & _ & El & Hd).
  assert (Hm : 0 < mdsz <= 64) by (unfold mdsz; lia).
  pose proof (Z.div_mod (need + mdsz - 1) mdsz ltac:(lia)) as Hdm.
  pose proof (Z.mod_pos_bound (need + mdsz - 1) mdsz ltac:(lia)) as Hmod.
  fold mdsz in El. unfold kdf_count in Hlen. fold mdsz in Hlen. cbn [expand_key].
  destruct n as [|n].
  - cbn [kdf_blocks]. rewrite Z.mul_0_l in *. replace (zrepeat 0) with (@nil Z) by done. rewrite app_nil_r.
    destruct (Z.gtb_spec need (zlen acc)); [nia|done].
  - cbn [kdf_blocks]. destruct (Z.gtb_spec need (zlen acc)); [|specialize (Hn ltac:(done)); lia].
    rewrite ztake_app_exact by done. rewrite digest_parts_ok by (done || unfold mdsz in *; lia).
    cbn [concat]. rewrite app_nil_r. destruct (evp_md alg (secret ++ hash ++ acc)) as [d|] eqn:Ed; [|done].
    pose proof (evp_md_len _ _ _ Ed) as Hdl. fold mdsz in Hdl. cbn [mbind option_bind].
    assert (u32 (zlen acc + mdsz) = zlen (acc ++ d)) as ->.
    { rewrite zlen_app, Hdl. apply u32_small. lia. }
    assert (mem_write (acc ++ zrepeat (Z.of_nat (S n) * mdsz)) (zlen acc) d =
      (acc ++ d) ++ zrepeat (Z.of_nat n * mdsz)) as ->.
    { rewrite mem_write_after, mem_write_front, <- app_assoc. do 2 f_equal.
      rewrite zdrop_zrepeat by nia. f_equal. lia. }
    apply IH; rewrite ?zlen_app; [lia|unfold kdf_count; fold mdsz; lia|lia|]. intros Hn0. nia.
Qed.

Lemma roundup_count alg need :
  0 <= alg < SSH_DIGEST_MAX -> 0 < need < 2 ^ 31 ->
  ROUNDUP need (ssh_digest_bytes alg) = kdf_count alg need * ssh_digest_bytes alg /\
  1 <= kdf_count alg need <= need /\ need <= kdf_count alg need * ssh_digest_bytes alg.
Proof.
  intros Ha Hn. destruct (digest_by_alg_ok alg Ha) as (dg & _ & El & Hd). unfold ROUNDUP, kdf_count.
  set (m := ssh_digest_bytes alg) in *.
  replace (need + m - 1) with (need + (m - 1)) by lia.
  pose proof (Z.div_mod (need + (m - 1)) m ltac:(lia)). pose proof (Z.mod_pos_bound (need + (m - 1)) m ltac:(lia)).
  rewrite (u64_small (need + (m - 1))) by lia. rewrite u64_small by nia. split; [done|]. nia.
Qed.

Lemma kdf_blocks_len n alg secret hash acc d :
  kdf_blocks n alg secret hash acc = Some d -> zlen d = zlen acc + Z.of_nat n * ssh_digest_bytes alg.
Proof.
  revert acc. induction n as [|n IH]; intros acc E; cbn [kdf_blocks] in E; [injection E as <-; lia|].
  destruct (evp_md alg (secret ++ hash ++ acc)) as [x|] eqn:Ex; [|done]. cbn [mbind option_bind] in E.
  apply evp_md_len in Ex. apply IH in E. rewrite E, zlen_app. lia.
Qed.

Lemma derive_key_spec k id need hash secret :
  0 <= hash_alg k < SSH_DIGEST_MAX -> 0 < need < 2 ^ 31 ->
  derive_key k id need hash secret =
  match kdf (hash_alg k) need secret hash (default [] (session_id k)) id with
  | Some d => Ok d
  | None => Err SSH_ERR_LIBCRYPTO_ERROR
  end.
Proof.
  intros Ha Hn. destruct (digest_by_alg_ok _ Ha) as (dg & _ & El & Hd). unfold derive_key, kdf.
  destruct (roundup_count _ need Ha Hn) as (Hr & Hc & Hc').
  set (alg := hash_alg k) in *. set (sid := default [] (session_id k)).
  rewrite (proj2 (Z.eqb_neq (ssh_digest_bytes alg) 0)) by lia. rewrite malloc_reliable. cbn [negb].
  rewrite digest_parts_ok by (done || lia). cbn [concat app]. rewrite app_nil_r.
  destruct (evp_md alg (secret ++ hash ++ id :: sid)) as [k1|] eqn:E1; [|done]. cbn [mbind option_bind].
  pose proof (evp_md_len _ _ _ E1) as Hk1. rewrite Hr, mem_write_front, zdrop_zrepeat by nia.
  set (n := Z.to_nat (kdf_count alg need - 1)).
  replace (kdf_count alg need * ssh_digest_bytes alg - zlen k1) with (Z.of_nat n * ssh_digest_bytes alg) by (unfold n; nia).
  rewrite <- Hk1 at 2. apply expand_key_spec; [done|done|unfold n; lia|unfold n; nia|lia|].
  intros Hn0. unfold n in Hn0. rewrite Hk1. unfold kdf_count in *.
  pose proof (Z.div_mod (need + ssh_digest_bytes alg - 1) (ssh_digest_bytes alg) ltac:(lia)).
  pose proof (Z.mod_pos_bound (need + ssh_digest_bytes alg - 1) (ssh_digest_bytes alg) ltac:(lia)). nia.
Qed.

(** Key derivation.  [derive_key] computes the key stream of RFC 4253: the
    first block hashes the secret, the exchange hash, the letter and the session
    id, each further block the secret, the exchange hash and all blocks before
    it, exactly as many blocks as are needed, and the result has at least the
    requested number of bytes. *)
Theorem derive_key_rfc4253 k id need hash secret :
  0 <= hash_alg k < SSH_DIGEST_MAX -> 0 < need < 2 ^ 31 ->
  match derive_key k id need hash secret with
  | Ok d =>
      kdf (hash_alg k) need secret hash (default [] (session_id k)) id = Some d /\
      zlen d = kdf_count (hash_alg k) need * ssh_digest_bytes (hash_alg k) /\
      need <= zlen d < need + ssh_digest_bytes (hash_alg k)
  | Err e => e = SSH_ERR_LIBCRYPTO_ERROR /\
      kdf (hash_alg k) need secret hash (default [] (session_id k)) id = None
  end.
Proof.
  intros Ha Hn. rewrite derive_key_spec by done. destruct (kdf _ _ _ _ _ _) as [d|] eqn:E; [|done].
  split; [done|]. destruct (digest_by_alg_ok _ Ha) as (dg & _ & El & Hd).
  destruct (roundup_count _ need Ha Hn) as (_ & Hc & Hc').
  unfold kdf in E. destruct (evp_md _ _) as [k1|] eqn:E1; [|done]. cbn [mbind option_bind] in E.
  apply evp_md_len in E1. apply kdf_blocks_len in E. unfold kdf_count in *.
  pose proof (Z.div_mod (need + ssh_digest_bytes (hash_alg k) - 1) (ssh_digest_bytes (hash_alg k)) ltac:(lia)).
  pose proof (Z.mod_pos_bound (need + ssh_digest_bytes (hash_alg k) - 1) (ssh_digest_bytes (hash_alg k)) ltac:(lia)).
  nia.
Qed.

(** What a derivation needs to know of the state. *)
Lemma derive_all_ext n id k1 k2 hash secret :
  hash_alg k1 = hash_alg k2 -> session_id k1 = session_id k2 -> we_need k1 = we_need k2 ->
  derive_all n id k1 hash secret = derive_all n id k2 hash secret.
Proof.
  intros Hh Hs Hw. revert id. induction n as [|n IH]; intros id; cbn [derive_all]; [done|].
  unfold derive_key. by rewrite Hh, Hs, Hw, IH.
Qed.

(** The two ends of a connection. *)
Record kex_pair (kc ks : kex) : Prop := {
  kp_client : server kc = false;
  kp_server : server ks = true;
  kp_bufs : bufr (my kc) /\ bufr (peer kc) /\ bufr (my ks) /\ bufr (peer ks);
  kp_sent : contents (peer ks) = contents (my kc) /\ contents (peer kc) = contents (my ks);
  kp_session : session_id kc = session_id ks
}.

(** What the ends have in common after the choice of algorithms. *)
Record kex_agree (kc ks : kex) : Prop := {
  ka_names : kex_name kc = kex_name ks /\ hostkey_alg kc = hostkey_alg ks /\ kex_type kc = kex_type ks /\
    hash_alg kc = hash_alg ks /\ ec_nid kc = ec_nid ks;
  ka_needs : we_need kc = we_need ks /\ dh_need kc = dh_need ks;
  ka_ctos : is_Some (newkeys_out kc) /\ newkeys_out kc = newkeys_in ks;
  ka_stoc : is_Some (newkeys_in kc) /\ newkeys_in kc = newkeys_out ks;
  ka_sid : session_id kc = session_id ks;
  ka_roles : server kc = false /\ server ks = true
}.

Lemma max4_comm n a1 a2 a3 a4 b1 b2 b3 b4 :
  MAXIMUM (MAXIMUM (MAXIMUM (MAXIMUM (MAXIMUM (MAXIMUM (MAXIMUM (MAXIMUM n a1) a2) a3) a4) b1) b2) b3) b4 =
  MAXIMUM (MAXIMUM (MAXIMUM (MAXIMUM (MAXIMUM (MAXIMUM (MAXIMUM (MAXIMUM n b1) b2) b3) b4) a1) a2) a3) a4.
Proof.
  rewrite !MAXIMUM_max, <- !Z.max_assoc. f_equal.
  rewrite (Z.max_assoc a3), (Z.max_assoc a2), (Z.max_assoc a1), (Z.max_assoc b3), (Z.max_assoc b2), (Z.max_assoc b1).
  rewrite Z.max_comm. by rewrite <- ?Z.max_assoc.
Qed.

Lemma mode_need_comm a b : mode_need (Some a) (mode_need (Some b) 0) = mode_need (Some b) (mode_need (Some a) 0).
Proof. apply max4_comm. Qed.

Lemma mode_dh_need_comm a b :
  mode_dh_need (Some a) (mode_dh_need (Some b) 0) = mode_dh_need (Some b) (mode_dh_need (Some a) 0).
Proof. apply max4_comm. Qed.

Lemma agreed_state_fields g k p :
  let k' := agreed_state g (with_ext_info p k) in
  kex_name k' = Some (ag_name g) /\ hostkey_alg k' = Some (ag_hostkey g) /\ kex_type k' = ka_type (ag_alg g) /\
  hash_alg k' = ka_hash (ag_alg g) /\ ec_nid k' = ka_nid (ag_alg g) /\ session_id k' = session_id k /\
  server k' = server k /\
  newkeys_in k' = Some (if server k then ag_ctos g else ag_stoc g) /\
  newkeys_out k' = Some (if server k then ag_stoc g else ag_ctos g).
Proof. unfold agreed_state, with_ext_info. by destruct (server k && _)%bool. Qed.

Lemma agreed_pair g kc ks pc ps :
  server kc = false -> server ks = true -> session_id kc = session_id ks ->
  kex_agree (agreed_state g (with_ext_info pc kc)) (agreed_state g (with_ext_info ps ks)).
Proof.
  intros Hc Hs Hsid.
  destruct (agreed_state_fields g kc pc) as (C1 & C2 & C3 & C4 & C5 & C6 & C7 & C8 & C9).
  destruct (agreed_state_fields g ks ps) as (S1 & S2 & S3 & S4 & S5 & S6 & S7 & S8 & S9).
  rewrite Hc in *. rewrite Hs in *. split; try by (split; congruence).
  - do 4 (split; [congruence|]). congruence.
  - unfold agreed_state. rewrite !with_ext_info_server, Hc, Hs. cbn [we_need dh_need set_needs].
    split; [apply mode_need_comm|apply mode_dh_need_comm].
  - rewrite C9, S8. split; [by eexists|done].
  - rewrite C8, S9. split; [by eexists|done].
  - congruence.
Qed.

(** ** The derived keys fit the algorithms *)

Definition lens_ok (nk : newkeys) : Prop :=
  0 < enc_block_size (nk_enc nk) <= 64 /\ 0 <= enc_key_len (nk_enc nk) <= 64 /\
  0 <= enc_iv_len (nk_enc nk) <= 64 /\ 0 <= mac_key_len (nk_mac nk) <= 64.

Lemma ciphers_lens c : c ∈ ciphers ->
  0 < cipher_blocksize c <= 64 /\ 0 <= cipher_keylen c <= 64 /\ 0 <= cipher_ivlen c <= 64.
Proof.
  assert (Forall (fun c => 0 < cipher_blocksize c <= 64 /\ 0 <= cipher_keylen c <= 64 /\ 0 <= cipher_ivlen c <= 64) ciphers)
    as Hf by compute_dec. rewrite Forall_forall in Hf. apply Hf.
Qed.

Lemma macs_key_len a : a ∈ macs -> 0 <= alg_key_len a <= 64.
Proof. assert (Forall (fun a => 0 <= alg_key_len a <= 64) macs) as Hf by compute_dec. rewrite Forall_forall in Hf. apply Hf. Qed.

Lemma choose_mac_key_len c s m : choose_mac c s mac_zero = (Ok tt, m) -> 0 <= mac_key_len m <= 64.
Proof.
  unfold choose_mac. destruct (match_list c s) as [n|]; [|done]. unfold mac_setup.
  destruct (mac_by_name n) as [a|] eqn:Ea; [|done]. apply mac_by_name_elem in Ea.
  pose proof (macs_key_len a Ea) as Hk. unfold alg_key_len in Hk. unfold mac_setup_by_alg.
  destruct (ma_type a =? SSH_DIGEST); [destruct (ssh_hmac_start _); [|done]|]; intros [= <-]; exact Hk.
Qed.

Lemma dir_keys_lens c s ctos nk : dir_keys c s ctos = Some nk -> lens_ok nk.
Proof.
  unfold dir_keys. set (ce := prop_at c _). set (se := prop_at s _).
  destruct (choose_enc ce se) as [e|] eqn:Ee; [|done].
  assert (Hl : 0 < enc_block_size e <= 64 /\ 0 <= enc_key_len e <= 64 /\ 0 <= enc_iv_len e <= 64).
  { unfold choose_enc in Ee. destruct (match_list ce se) as [n|]; [|done].
    destruct (cipher_by_name n) as [x|] eqn:Ex; [|done]. injection Ee as <-. apply find_some in Ex as [Ex _].
    cbn [enc_block_size enc_key_len enc_iv_len]. apply ciphers_lens. by apply list_elem_of_In. }
  destruct (if enc_authlen e =? 0 then _ else _) as [[[]|] m] eqn:Em; [|done].
  assert (0 <= mac_key_len m <= 64) as Hm.
  { destruct (enc_authlen e =? 0); [by eapply choose_mac_key_len|]. injection Em as <-. cbn. lia. }
  destruct (choose_comp _ _); [|done]. intros [= <-]. unfold lens_ok. cbn [nk_enc nk_mac]. tauto.
Qed.

(** The keys of a direction, once derived, are long enough for [cipher_init] and
    [mac_init] to read them. *)
Definition keys_fit (nk : newkeys) : Prop :=
  exists key iv mkey, enc_key (nk_enc nk) = Some key /\ enc_iv (nk_enc nk) = Some iv /\ mac_key (nk_mac nk) = Some mkey /\
    enc_key_len (nk_enc nk) <= zlen key /\ enc_iv_len (nk_enc nk) <= zlen iv /\ mac_key_len (nk_mac nk) <= zlen mkey.

Definition needs_ok (k : kex) : Prop :=
  0 <= hash_alg k < SSH_DIGEST_MAX /\ 0 < we_need k < 2 ^ 31 /\
  forall mode nk, newkeys_of mode k = Some nk ->
    enc_key_len (nk_enc nk) <= we_need k /\ enc_iv_len (nk_enc nk) <= we_need k /\ mac_key_len (nk_mac nk) <= we_need k.

Lemma mode_need_max nk n :
  mode_need (Some nk) n = Z.max n (Z.max (enc_key_len (nk_enc nk)) (Z.max (enc_block_size (nk_enc nk))
    (Z.max (enc_iv_len (nk_enc nk)) (mac_key_len (nk_mac nk))))).
Proof. cbn [mode_need]. rewrite !MAXIMUM_max. by rewrite <- !Z.max_assoc. Qed.

Lemma agreed_inv cprop sprop g :
  agreed cprop sprop = Some g ->
  match_list (prop_at cprop PROPOSAL_KEX_ALGS) (prop_at sprop PROPOSAL_KEX_ALGS) = Some (ag_name g) /\
  kex_alg_by_name (ag_name g) = Some (ag_alg g) /\
  dir_keys cprop sprop true = Some (ag_ctos g) /\ dir_keys cprop sprop false = Some (ag_stoc g).
Proof.
  unfold agreed. intros Hg.
  destruct (match_list (prop_at cprop PROPOSAL_KEX_ALGS) _) as [name|]; [|done]. cbn [mbind option_bind] in Hg.
  destruct (kex_alg_by_name name) as [a|] eqn:Ea; [|done]. cbn [mbind option_bind] in Hg.
  destruct (match_list (prop_at cprop PROPOSAL_SERVER_HOST_KEY_ALGS) _) as [hk|]; [|done]. cbn [mbind option_bind] in Hg.
  destruct (hostkey_known hk); [|done].
  destruct (dir_keys cprop sprop true) as [c|]; [|done]. cbn [mbind option_bind] in Hg.
  destruct (dir_keys cprop sprop false) as [s|]; [|done]. by injection Hg as <-.
Qed.

Lemma agreed_needs cprop sprop g k p :
  agreed cprop sprop = Some g -> needs_ok (agreed_state g (with_ext_info p k)).
Proof.
  intros (_ & Ea & Ec & Es)%agreed_inv. destruct g as [name a hk c s]; cbn [ag_name ag_alg ag_ctos ag_stoc] in *.
  apply dir_keys_lens in Ec as (C1 & C2 & C3 & C4), Es as (S1 & S2 & S3 & S4).
  assert (0 <= ka_hash a < SSH_DIGEST_MAX) as Ha.
  { apply find_some in Ea as [Ea _]. assert (Forall (fun a => 0 <= ka_hash a < SSH_DIGEST_MAX) kexalgs) as Hf by compute_dec.
    rewrite Forall_forall in Hf. apply Hf. by apply list_elem_of_In. }
  unfold agreed_state. rewrite with_ext_info_server. unfold needs_ok.
  cbn [hash_alg we_need set_needs set_newkeys set_hostkey_alg set_alg ag_alg ag_ctos ag_stoc ag_name ag_hostkey].
  rewrite !mode_need_max. split; [done|]. split; [destruct (server k); lia|].
  intros [] nk; cbn [newkeys_of newkeys_in newkeys_out set_needs set_newkeys]; intros [= <-]; destruct (server k); lia.
Qed.

Lemma derive_all_lookup n id k hash secret ds :
  needs_ok k -> derive_all n id k hash secret = Ok ds -> length ds = n /\ Forall (fun d => we_need k <= zlen d) ds.
Proof.
  intros (Ha & Hn & _). revert id ds. induction n as [|n IH]; intros id ds E; cbn [derive_all] in E.
  { injection E as <-. split; [done|constructor]. }
  destruct (derive_key k id (we_need k) hash secret) as [d|] eqn:Ed; [|done].
  destruct (derive_all n (id + 1) k hash secret) as [ds'|] eqn:Eds; [|done]. injection E as <-.
  destruct (IH _ _ Eds) as [Hl Hf]. split; [cbn; by f_equal|]. constructor; [|done].
  rewrite derive_key_spec in Ed by done. destruct (kdf _ _ _ _ _ _) as [x|] eqn:Ex; [|done]. injection Ed as <-.
  destruct (roundup_count _ _ Ha Hn) as (_ & Hc & Hc'). unfold kdf in Ex.
  destruct (evp_md _ _) as [k1|] eqn:E1; [|done]. cbn [mbind option_bind] in Ex.
  apply evp_md_len in E1. apply kdf_blocks_len in Ex. nia.
Qed.

Lemma install_mode_fit keys mode k nk :
  length keys = NKEYS -> Forall (fun d => we_need k <= zlen d) keys -> needs_ok k ->
  newkeys_of mode (install_mode keys mode k) = Some nk -> keys_fit nk.
Proof.
  intros Hl Hf (_ & _ & Hneed) E. unfold install_mode in E. rewrite newkeys_of_set in E.
  apply fmap_Some in E as (nk0 & E0 & ->). destruct (Hneed _ _ E0) as (N1 & N2 & N3).
  do 7 (destruct keys as [|? keys]; [try done|]); [|done].
  rewrite !Forall_cons in Hf. destruct Hf as (F1 & F2 & F3 & F4 & F5 & F6 & _).
  unfold keys_fit. do 3 eexists. do 3 (split; [done|]).
  cbn [install_keys nk_enc nk_mac enc_key_len enc_iv_len mac_key_len].
  destruct (is_ctos (server k) mode); cbn; lia.
Qed.

Lemma install_mode_other keys k :
  newkeys_in (install_mode keys MODE_OUT k) = newkeys_in k /\ server (install_mode keys MODE_OUT k) = server k /\
  newkeys_out (install_mode keys MODE_IN k) = newkeys_out k /\ server (install_mode keys MODE_IN k) = server k.
Proof. done. Qed.

(** The derivation at both ends. *)
Lemma derive_pair kc ks hash bc bs :
  kex_agree kc ks -> needs_ok kc -> sshbuf_ptr bc = sshbuf_ptr bs ->
  match kex_derive_keys hash bc kc, kex_derive_keys hash bs ks with
  | (Ok _, kc'), (Ok _, ks') =>
      kex_agree kc' ks' /\ (forall mode nk, newkeys_of mode kc' = Some nk -> keys_fit nk)
  | (Err e, _), (Err e', _) => e = e'
  | _, _ => False
  end.
Proof.
  intros [(N1 & N2 & N3 & N4 & N5) [W1 W2] [[o Ho] Eo] [[i Hi] Ei] Hsid [Rc Rs]] Hneed Hb.
  unfold kex_derive_keys. rewrite Hb, malloc_reliable. set (secret := default [] (sshbuf_ptr bs)).
  assert (exists c s, match session_id kc with Some _ => Some kc | None => Some (set_session_id hash kc) end = Some c /\
    match session_id ks with Some _ => Some ks | None => Some (set_session_id hash ks) end = Some s /\
    session_id c = session_id s /\ (c = kc \/ c = set_session_id hash kc) /\ (s = ks \/ s = set_session_id hash ks))
    as (c & s & -> & -> & Hs & Hc & Hss).
  { rewrite <- Hsid. destruct (session_id kc) as [x|] eqn:Ex; do 2 eexists; (do 2 (split; [done|]));
      (split; [congruence || done|]); tauto. }
  assert (Hn : needs_ok c) by (destruct Hc as [->| ->]; exact Hneed).
  assert (hash_alg c = hash_alg s /\ we_need c = we_need s /\ kex_name c = kex_name s /\ hostkey_alg c = hostkey_alg s /\
    kex_type c = kex_type s /\ ec_nid c = ec_nid s /\ dh_need c = dh_need s /\ server c = false /\ server s = true /\
    newkeys_out c = Some o /\ newkeys_in s = Some o /\ newkeys_in c = Some i /\ newkeys_out s = Some i)
    as (F1 & F2 & F3 & F4 & F5 & F6 & F7 & F8 & F9 & F10 & F11 & F12 & F13).
  { destruct Hc as [->| ->], Hss as [->| ->]; cbn; repeat split; congruence. }
  clear Hc Hss. rewrite (derive_all_ext _ _ c s) by done.
  destruct (derive_all NKEYS 65 s hash secret) as [keys|e] eqn:Ek; [|done].
  rewrite <- (derive_all_ext _ _ c s) in Ek by done. destruct (derive_all_lookup _ _ _ _ _ _ Hn Ek) as [Hl Hf]. split.
  - unfold install_mode. split.
    + cbn. repeat split; congruence.
    + cbn. split; congruence.
    + cbn. rewrite F8, F9, F10, F11. cbn. split; [by eexists|done].
    + cbn. rewrite F8, F9, F12, F13. cbn. split; [by eexists|done].
    + exact Hs.
    + cbn. split; congruence.
  - intros mode nk E. destruct mode.
    + eapply (install_mode_fit keys MODE_IN c); [done|done|done|]. exact E.
    + eapply (install_mode_fit keys MODE_OUT (install_mode keys MODE_IN c)); [done|done| |exact E].
      destruct Hn as (Hn1 & Hn2 & Hn3). split; [exact Hn1|]. split; [exact Hn2|]. intros m nk0 Em. destruct m.
      * cbn in Em. rewrite F12 in Em. injection Em as <-. exact (Hn3 MODE_IN i F12).
      * exact (Hn3 MODE_OUT nk0 Em).
Qed.

(** C23: both ends agree.  When each end holds the other's KEXINIT, the choice of
    algorithms succeeds at the client exactly when it succeeds at the server;
    then both have the same key exchange method, digest, host key algorithm and
    key lengths, the method is the first of the client's names that the server
    offers, and what the client uses to send is what the server uses to receive
    and vice versa.  Deriving keys from the same exchange hash and secret
    succeeds at both or fails at both with the same error; after success the
    keys of each direction coincide and are as long as the algorithms need. *)
Theorem kex_agreement kc ks skipc skips :
  kex_pair kc ks ->
  match kex_choose_conf kc skipc, kex_choose_conf ks skips with
  | Some (Ok _, kc', _), Some (Ok _, ks', _) =>
      kex_agree kc' ks' /\
      (exists v w cprop sprop,
         proposal_of (contents (my kc)) = Ok (v, cprop) /\ proposal_of (contents (my ks)) = Ok (w, sprop) /\
         kex_name kc' = match_list (prop_at cprop PROPOSAL_KEX_ALGS) (prop_at sprop PROPOSAL_KEX_ALGS)) /\
      (forall hash bc bs, sshbuf_ptr bc = sshbuf_ptr bs ->
         match kex_derive_keys hash bc kc', kex_derive_keys hash bs ks' with
         | (Ok _, kc''), (Ok _, ks'') =>
             kex_agree kc'' ks'' /\ (forall mode nk, newkeys_of mode kc'' = Some nk -> keys_fit nk)
         | (Err e, _), (Err e', _) => e = e'
         | _, _ => False
         end)
  | Some (Ok _, _, _), _ | _, Some (Ok _, _, _) => False
  | _, _ => True
  end.
Proof.
  intros [Hc Hs (B1 & B2 & B3 & B4) [E1 E2] Hsid].
  destruct (proposal_of (contents (my kc))) as [[v cprop]|e] eqn:Ec.
  2: { unfold kex_choose_conf. rewrite !buf2prop_spec by done. rewrite E1, Ec.
       by destruct (proposal_of (contents (my ks))) as [[]|]. }
  destruct (proposal_of (contents (my ks))) as [[w sprop]|e] eqn:Es.
  2: { unfold kex_choose_conf. rewrite !buf2prop_spec by done. by rewrite E2, Ec, Es. }
  pose proof (choose_conf_spec kc skipc v w cprop sprop B1 B2 Ec ltac:(by rewrite E2)) as Rc.
  pose proof (choose_conf_spec ks skips w v sprop cprop B3 B4 Es ltac:(by rewrite E1)) as Rs.
  rewrite Hc in Rc. rewrite Hs in Rs. destruct (agreed cprop sprop) as [g|] eqn:Eg.
  - destruct Rc as [sc ->], Rs as [ss ->].
    assert (Hag : kex_agree (agreed_state g (with_ext_info sprop kc)) (agreed_state g (with_ext_info cprop ks)))
      by by apply agreed_pair.
    split; [done|]. split.
    + exists v, w, cprop, sprop. split; [done|]. split; [done|].
      destruct (agreed_state_fields g kc sprop) as (-> & _). by apply agreed_inv in Eg as (-> & _).
    + intros hash bc bs Hb. apply derive_pair; [done|by eapply agreed_needs|done].
  - destruct (kex_choose_conf kc skipc) as [[[[[]|] ?] ?]|]; [by edestruct Rc|..];
      (destruct (kex_choose_conf ks skips) as [[[[[]|] ?] ?]|]; [by edestruct Rs|done..]).
Qed.

(** ** The wire form of the proposals *)

Definition kexinit_wire (cookie : list Z) (props : list cstring) (follows : Z) : list Z :=
  cookie ++ flat_map enc_string props ++ [follows] ++ POKE_U32 0.

Lemma put_cookie_puts n : Puts (put_cookie n) (replicate n 0) tt.
Proof.
  induction n as [|n IH]; [apply puts_ret|]. cbn [put_cookie replicate].
  change (0 :: replicate n 0) with ([0] ++ replicate n 0).
  eapply puts_bind; [apply appends_puts, sshbuf_put_u8_appends|apply IH].
Qed.

Definition prop_ok (p : cstring) : Prop := string_ok p /\ no_nul p.

Lemma put_proposal_puts ps : Forall prop_ok ps -> Puts (put_proposal ps) (flat_map enc_string ps) tt.
Proof.
  induction 1 as [|p ps [Hp Hn] _ IH]; [apply puts_ret|]. cbn [put_proposal flat_map].
  eapply puts_bind; [|apply IH]. unfold sshbuf_put_cstring. rewrite cstr_no_nul by done. by apply appends_puts, sshbuf_put_string_appends.
Qed.

Lemma get_proposal_gets ps : Forall prop_ok ps -> Gets (get_proposal (length ps)) (flat_map enc_string ps) ps.
Proof.
  induction 1 as [|p ps [Hp Hn] _ IH]; [apply gets_ret|]. cbn [length get_proposal flat_map].
  eapply gets_bind; [by apply get_cstring_gets|]. rewrite (cstr_no_nul p) by done. by apply (gets_map _ (cons p)).
Qed.

Lemma parse_kexinit_gets cookie props follows :
  zlen cookie = KEX_COOKIE_LEN -> length props = PROPOSAL_MAX -> Forall prop_ok props ->
  Gets parse_kexinit (kexinit_wire cookie props follows) (follows, props).
Proof.
  intros Hk Hl Hp. unfold parse_kexinit, kexinit_wire. rewrite <- Hk, <- Hl.
  eapply gets_bind; [apply consume_gets|]. eapply gets_bind; [by apply get_proposal_gets|].
  eapply gets_bind; [apply get_u8_gets|]. rewrite <- (app_nil_r (POKE_U32 0)).
  eapply gets_bind; [apply get_u32_gets|apply gets_ret].
Qed.

Lemma proposal_of_wire cookie props follows :
  zlen cookie = KEX_COOKIE_LEN -> length props = PROPOSAL_MAX -> Forall prop_ok props ->
  zlen (kexinit_wire cookie props follows) <= SSHBUF_SIZE_MAX ->
  proposal_of (kexinit_wire cookie props follows) = Ok (follows, props).
Proof.
  intros Hk Hl Hp Hsz. unfold proposal_of. destruct (sshbuf_from_ok _ Hsz) as [c Ec]. rewrite Ec.
  destruct (sshbuf_from_spec _ _ Ec) as (Hw & Hc & _).
  destruct (parse_kexinit_gets cookie props follows Hk Hl Hp c [] Hw) as (b' & -> & _); [|done].
  by rewrite Hc, app_nil_r.
Qed.

(** KEXINIT round trip.  [kex_prop2buf] writes ten name lists into a buffer
    with room for them, whatever the buffer held before; with any cookie put
    over the first 16 bytes, [kex_buf2prop] at the peer reads the same lists back
    and leaves the buffer as it was. *)
Theorem kexinit_roundtrip props b :
  length props = PROPOSAL_MAX -> Forall prop_ok props ->
  buf_wf b -> locked b = false -> SSHBUF_SIZE_INIT <= max_size b ->
  zlen (kexinit_wire (zrepeat KEX_COOKIE_LEN) props 0) <= max_size b ->
  exists b', kex_prop2buf props b = (Ok tt, b') /\ buf_ext b b' /\
    contents b' = kexinit_wire (zrepeat KEX_COOKIE_LEN) props 0 /\
    forall cookie raw, zlen cookie = KEX_COOKIE_LEN -> bufr raw ->
      contents raw = cookie ++ zdrop KEX_COOKIE_LEN (contents b') ->
      kex_buf2prop raw = (Ok (0, props), raw).
Proof.
  intros Hl Hp Hb Hlk Hmin Hsz. destruct (sshbuf_reset_spec b Hb Hlk Hmin) as [Hx Hc0].
  assert (Puts (_ ← put_cookie (Z.to_nat KEX_COOKIE_LEN); _ ← put_proposal props; _ ← sshbuf_put_u8 0; sshbuf_put_u32 0)
    (kexinit_wire (zrepeat KEX_COOKIE_LEN) props 0) tt) as Hputs.
  { unfold kexinit_wire. eapply puts_bind; [apply put_cookie_puts|]. eapply puts_bind; [by apply put_proposal_puts|].
    eapply puts_bind; [apply appends_puts, sshbuf_put_u8_appends|].
    apply appends_puts, sshbuf_put_u32_appends. }
  destruct (Hputs (sshbuf_reset b)) as (b' & E & Hx' & Hc).
  { apply Hx. } { by rewrite (buf_ext_locked _ _ Hx). } { rewrite Hc0, zlen_nil, (ext_max _ _ Hx). lia. }
  rewrite Hc0 in Hc. cbn [app] in Hc. exists b'. split; [exact E|]. split; [by eapply buf_ext_trans|]. split; [done|].
  intros cookie raw Hk Hraw Er. rewrite buf2prop_spec by done. f_equal. rewrite Er, Hc.
  unfold kexinit_wire at 1. rewrite zdrop_app_exact by (by rewrite zlen_zrepeat by done).
  fold (kexinit_wire cookie props 0). apply proposal_of_wire; [done|done|done|].
  pose proof (ext_wf _ _ Hx) as Hw. destruct Hw. unfold kexinit_wire in *. rewrite zlen_app in *.
  rewrite zlen_zrepeat in Hsz by done. rewrite Hk, <- (ext_max _ _ Hx) in *. lia.
Qed.

(** A refused negotiation with [first_kex_follows].  When the peer's KEXINIT
    sets [first_kex_follows] and shares no key exchange method with ours,
    [kex_choose_conf] moves the peer's list to [failed_choice], leaves a null
    pointer in the array, and passes the array to [proposals_match], which
    dereferences it. *)
Theorem kex_conf_null_deref k skip v w myp peerp :
  bufr (my k) -> bufr (peer k) ->
  proposal_of (contents (my k)) = Ok (v, myp) -> proposal_of (contents (peer k)) = Ok (w, peerp) -> w <> 0 ->
  match_list (prop_at (if server k then peerp else myp) PROPOSAL_KEX_ALGS)
    (prop_at (if server k then myp else peerp) PROPOSAL_KEX_ALGS) = None ->
  kex_choose_conf k skip = None.
Proof.
  intros Hm Hp Em Ep Hw Hno. unfold kex_choose_conf. rewrite !buf2prop_spec by done. rewrite Em, Ep.
  assert (set_bufs (my k) (peer k) k = k) as -> by by destruct k.
  apply proposal_of_len in Ep. rewrite (proj2 (Z.eqb_neq _ _)) by done.
  destruct (negotiate myp peerp (mk_conf k (map Some peerp))) as [r st] eqn:En.
  assert (cs_peer st !! PROPOSAL_KEX_ALGS = Some None) as Hnull.
  { unfold negotiate, mbind, se_bind, se_get in En. cbn [cs_kex] in En.
    assert (Hfail : forall k1, or_failed PROPOSAL_KEX_ALGS
      (choose_kex (prop_at (if server k then peerp else myp) PROPOSAL_KEX_ALGS)
         (prop_at (if server k then myp else peerp) PROPOSAL_KEX_ALGS)) (mk_conf k1 (map Some peerp)) =
      (Err SSH_ERR_NO_KEX_ALG_MATCH, mk_conf (set_failed (default None (map Some peerp !! PROPOSAL_KEX_ALGS))
         (set_alg None (kex_type k1) (hash_alg k1) (ec_nid k1) k1)) (<[PROPOSAL_KEX_ALGS := None]> (map Some peerp)))).
    { intros k1. unfold or_failed, choose_kex. cbn [cs_kex cs_peer]. by rewrite Hno. }
    destruct (server k && _)%bool; unfold on_kex, se_modify, mret, se_ret in En; cbn [cs_kex cs_peer] in En;
      rewrite Hfail in En; injection En as _ <-; cbn [cs_peer];
      apply list_lookup_insert_eq; rewrite length_map, Ep; unfold PROPOSAL_KEX_ALGS, PROPOSAL_MAX; lia. }
  unfold proposals_match. rewrite Hnull. destruct (map Some myp !! PROPOSAL_KEX_ALGS) as [[]|]; done.
Qed.
End kex.

(** * Examples *)

Definition demo_props (kexnames : string) : list cstring :=
  map str [kexnames; "ssh-ed25519"; "aes128-ctr"; "aes128-ctr"; "umac-64@openssh.com"; "hmac-sha2-256"; "none"; "none";
    ""; ""]%string.

Definition shown (l : list Z) : sshbuf := mk_sshbuf l 0 (zlen l) (zlen l) (zlen l) true 1.

Lemma shown_ok l : zlen l <= SSHBUF_SIZE_MAX -> bufr (shown l) /\ contents (shown l) = l.
Proof.
  intros Hl. assert (@sshbuf_from alloc_all l = Some (shown l)) as E.
  { unfold sshbuf_from. rewrite Z.gtb_ltb, (proj2 (Z.ltb_ge _ _)) by done. done. }
  destruct (sshbuf_from_spec _ _ E) as (Hw & Hc & _). split; [|done]. by split.
Qed.

Definition demo_wire (kexnames : string) (follows : Z) : list Z :=
  kexinit_wire (zrepeat KEX_COOKIE_LEN) (demo_props kexnames) follows.

Definition demo_end (srv : bool) (mine theirs : list Z) : kex :=
  mk_kex None None None 0 0 srv None None KEX_DH_GRP1_SHA1 false (shown mine) (shown theirs) false KEX_INITIAL 0 0 None.

Definition demo_c : list Z := demo_wire "curve25519-sha256,diffie-hellman-group14-sha256" 0.
Definition demo_s : list Z := demo_wire "diffie-hellman-group14-sha256,curve25519-sha256" 0.
Definition demo_x : list Z := demo_wire "diffie-hellman-group1-sha1" 1.

Lemma demo_small : zlen demo_c <= SSHBUF_SIZE_MAX /\ zlen demo_s <= SSHBUF_SIZE_MAX /\ zlen demo_x <= SSHBUF_SIZE_MAX.
Proof. repeat split; by vm_compute. Qed.

Definition ed25519_only : HostKeyNames := fun n => bool_decide (n = str "ssh-ed25519").

Lemma demo_pair : kex_pair (demo_end false demo_c demo_s) (demo_end true demo_s demo_c).
Proof.
  destruct demo_small as (Hc & Hs & _). apply shown_ok in Hc as [Bc Cc], Hs as [Bs Cs]. by split.
Qed.

Lemma kex_agreement_witness :
  exists kc' sc ks' ss,
    @kex_choose_conf alloc_all toy_digest ed25519_only (demo_end false demo_c demo_s) 0 = Some (Ok tt, kc', sc) /\
    @kex_choose_conf alloc_all toy_digest ed25519_only (demo_end true demo_s demo_c) 0 = Some (Ok tt, ks', ss) /\
    kex_name kc' = Some (str "curve25519-sha256") /\ kex_agree kc' ks'.
Proof.
  pose proof (@kex_agreement alloc_all toy_digest ed25519_only alloc_all_reliable toy_digest_laws
    (demo_end false demo_c demo_s) (demo_end true demo_s demo_c) 0 0 demo_pair) as R.
  destruct (kex_choose_conf (demo_end false demo_c demo_s) 0) as [[[[[]|ec] kc'] sc]|] eqn:Ec;
    [|vm_compute in Ec; discriminate Ec..].
  destruct (kex_choose_conf (demo_end true demo_s demo_c) 0) as [[[[[]|es] ks'] ss]|] eqn:Es;
    [|vm_compute in Es; discriminate Es..].
  exists kc', sc, ks', ss. do 2 (split; [reflexivity|]). split; [|exact (proj1 R)].
  vm_compute in Ec. injection Ec as <- _. reflexivity.
Defined.

Lemma derive_key_rfc4253_witness :
  let k := set_alg None KEX_ECDH_SHA2 SSH_DIGEST_SHA384 0 (demo_end false demo_c demo_s) in
  match @derive_key alloc_all toy_digest k 65 50 [1; 2] [3] with
  | Ok d => zlen d = 96
  | Err _ => False
  end.
Proof.
  intros k.
  pose proof (@derive_key_rfc4253 alloc_all toy_digest alloc_all_reliable toy_digest_laws k 65 50 [1; 2] [3]
    ltac:(vm_compute; split; congruence) ltac:(lia)) as R.
  destruct (derive_key k 65 50 [1; 2] [3]) as [d|e].
  - destruct R as (_ & -> & _). reflexivity.
  - destruct R as (_ & R). discriminate R.
Defined.

Lemma demo_props_ok n :
  bool_decide (Forall (fun x => x <> 0) (str n)) = true -> zlen (str n) <= 1000 -> Forall prop_ok (demo_props n).
Proof.
  intros Hn%bool_decide_eq_true Hl. constructor.
  - split; [unfold string_ok, SSHBUF_SIZE_MAX; lia|exact Hn].
  - apply (Forall_impl (fun p => bool_decide (zlen p <= 1000 /\ Forall (fun x => x <> 0) p) = true)).
    + repeat constructor.
    + intros p [Hp Hz]%bool_decide_eq_true. split; [unfold string_ok, SSHBUF_SIZE_MAX; lia|exact Hz].
Qed.

Lemma kexinit_roundtrip_witness :
  exists b', @kex_prop2buf alloc_all (demo_props "curve25519-sha256") demo_buf = (Ok tt, b') /\
    contents b' = demo_wire "curve25519-sha256" 0.
Proof.
  destruct (@kexinit_roundtrip alloc_all alloc_all_reliable (demo_props "curve25519-sha256") demo_buf eq_refl
    (demo_props_ok "curve25519-sha256" eq_refl ltac:(vm_compute; congruence)) demo_buf_wf eq_refl ltac:(vm_compute; congruence)
    ltac:(vm_compute; congruence)) as (b' & E & _ & Hc & _).
  exists b'. split; [exact E|exact Hc].
Defined.

Lemma kex_conf_null_deref_witness :
  @kex_choose_conf alloc_all toy_digest ed25519_only (demo_end true demo_s demo_x) 0 = None.
Proof.
  apply (@kex_conf_null_deref alloc_all toy_digest ed25519_only alloc_all_reliable (demo_end true demo_s demo_x) 0 0 1
    (demo_props "diffie-hellman-group14-sha256,curve25519-sha256") (demo_props "diffie-hellman-group1-sha1")
    (proj1 (shown_ok _ (proj1 (proj2 demo_small)))) (proj1 (shown_ok _ (proj2 (proj2 demo_small))))).
  - vm_compute. reflexivity.
  - vm_compute. reflexivity.
  - discriminate.
  - vm_compute. reflexivity.
Defined.
