(* ===== verification/ChaCha.v ===== *)
(** The built-in ChaCha20 (chacha.c): key and nonce set-up, the block function
    and encryption, and that encryption is the exclusive or with the key stream
    of the 64-bit block counter. *)

From Stdlib Require Import String Btauto.
From S2P Require Import Prelude Match SshbufGetPut.
Local Open Scope Z_scope.

(** * Macros *)

Definition ROTL32 (v n : Z) : Z := Z.lor (u32 (Z.shiftl v n)) (Z.shiftr v (32 - n)).
Definition PLUS (v w : Z) : Z := u32 (v + w).
Definition PLUSONE (v : Z) : Z := PLUS v 1.
Definition XOR (v w : Z) : Z := Z.lxor v w.

(** The four bytes at offset [o] of [p] as a little-endian word, and back. *)
Definition U8TO32_LITTLE (p : list Z) (o : Z) : Z :=
  Z.lor (Z.lor (Z.lor (znth p o) (Z.shiftl (znth p (o + 1)) 8)) (Z.shiftl (znth p (o + 2)) 16))
    (Z.shiftl (znth p (o + 3)) 24).
Definition U32TO8_LITTLE (v : Z) : list Z := [u8 v; u8 (Z.shiftr v 8); u8 (Z.shiftr v 16); u8 (Z.shiftr v 24)].

(** The locals x0 .. x15 are a list; [a = PLUS(a,b)] and
    [d = ROTATE(XOR(d,a),n)] on it. *)
Definition plus_at (a b : Z) (x : list Z) : list Z := zset x a (PLUS (znth x a) (znth x b)).
Definition rotate_at (d a n : Z) (x : list Z) : list Z := zset x d (ROTL32 (XOR (znth x d) (znth x a)) n).

Definition QUARTERROUND (a b c d : Z) (x : list Z) : list Z :=
  let x := rotate_at d a 16 (plus_at a b x) in
  let x := rotate_at b c 12 (plus_at c d x) in
  let x := rotate_at d a 8 (plus_at a b x) in
  rotate_at b c 7 (plus_at c d x).

Definition sigma : list Z := str "expand 32-byte k".
Definition tau : list Z := str "expand 16-byte k".

(** * Set-up: [struct chacha_ctx] is its sixteen words *)

Definition chacha_keysetup (x k : list Z) (kbits : Z) : list Z :=
  let '(k2, constants) := if kbits =? 256 then (16, sigma) else (0, tau) in
  [U8TO32_LITTLE constants 0; U8TO32_LITTLE constants 4; U8TO32_LITTLE constants 8; U8TO32_LITTLE constants 12;
   U8TO32_LITTLE k 0; U8TO32_LITTLE k 4; U8TO32_LITTLE k 8; U8TO32_LITTLE k 12;
   U8TO32_LITTLE k k2; U8TO32_LITTLE k (k2 + 4); U8TO32_LITTLE k (k2 + 8); U8TO32_LITTLE k (k2 + 12);
   znth x 12; znth x 13; znth x 14; znth x 15].

Definition chacha_ivsetup (x iv : list Z) (counter : option (list Z)) : list Z :=
  let ctr o := match counter with None => 0 | Some c => U8TO32_LITTLE c o end in
  zset (zset (zset (zset x 12 (ctr 0)) 13 (ctr 4)) 14 (U8TO32_LITTLE iv 0)) 15 (U8TO32_LITTLE iv 4).

(** * Encryption *)

Definition double_round (x : list Z) : list Z :=
  let x := QUARTERROUND 0 4 8 12 x in
  let x := QUARTERROUND 1 5 9 13 x in
  let x := QUARTERROUND 2 6 10 14 x in
  let x := QUARTERROUND 3 7 11 15 x in
  let x := QUARTERROUND 0 5 10 15 x in
  let x := QUARTERROUND 1 6 11 12 x in
  let x := QUARTERROUND 2 7 8 13 x in
  QUARTERROUND 3 4 9 14 x.

(** The loop [for (i = 20; i > 0; i -= 2)]. *)
Definition rounds (n : nat) (x : list Z) : list Z := Nat.iter n double_round x.

(** The words of a block: twenty rounds and the addition of the input. *)
Definition chacha_words (j : list Z) : list Z := zip_with PLUS (rounds 10 j) j.

(** Sixteen words of [m] and their exclusive or with [x], as bytes. *)
Fixpoint xor_words (x : list Z) (m : list Z) (o : Z) : list Z :=
  match x with
  | [] => []
  | w :: x => U32TO8_LITTLE (XOR w (U8TO32_LITTLE m o)) ++ xor_words x m (o + 4)
  end.

(** The block counter j12, j13. *)
Definition next_block (j : list Z) : list Z :=
  let j := zset j 12 (PLUSONE (znth j 12)) in
  if znth j 12 =? 0 then zset j 13 (PLUSONE (znth j 13)) else j.

(** The loop over the blocks.  A last block of less than 64 bytes is copied to
    [tmp], whose other bytes are left as they were on the stack ([junk]). *)
Fixpoint encrypt_loop (fuel : nat) (junk j m : list Z) : list Z * list Z :=
  match fuel with
  | O => ([], j)
  | S fuel =>
      let bytes := zlen m in
      let src := if bytes <? 64 then mem_write junk 0 m else m in
      let c := xor_words (chacha_words j) src 0 in
      let j := next_block j in
      if bytes <=? 64 then (ztake bytes c, j)
      else let '(rest, j) := encrypt_loop fuel junk j (zdrop 64 m) in (c ++ rest, j)
  end.

(** The output and the context; only the counter words are stored back. *)
Definition chacha_encrypt_bytes (junk x m : list Z) : list Z * list Z :=
  if zlen m =? 0 then ([], x)
  else
    let '(c, j) := encrypt_loop (Z.to_nat (zlen m)) junk x m in
    (c, zset (zset x 12 (znth j 12)) 13 (znth j 13)).

(** * The key stream *)

Definition block_bytes (j : list Z) : list Z := flat_map U32TO8_LITTLE (chacha_words j).

Fixpoint keystream (n : nat) (j : list Z) : list Z :=
  match n with O => [] | S n => block_bytes j ++ keystream n (next_block j) end.

Definition xor_bytes (a b : list Z) : list Z := zip_with Z.lxor a b.

(** The published key stream for a zero key and nonce. *)
Example chacha_zero_block :
  ztake 16 (fst (chacha_encrypt_bytes (zrepeat 64)
    (chacha_ivsetup (chacha_keysetup (zrepeat 16) (zrepeat 32) 256) (zrepeat 8) None) (zrepeat 64))) =
  [0x76; 0xb8; 0xe0; 0xad; 0xa0; 0xf1; 0x3d; 0x90; 0x40; 0x5d; 0x6a; 0xe5; 0x53; 0x86; 0xbd; 0x28].
Proof. vm_compute. reflexivity. Qed.

(** ** Bytes of words *)

Lemma u8_lxor a b : u8 (Z.lxor a b) = Z.lxor (u8 a) (u8 b).
Proof.
  unfold u8. apply Z.bits_inj'. intros n Hn. rewrite Z.lxor_spec.
  destruct (Z.lt_ge_cases n 8).
  - rewrite !Z.mod_pow2_bits_low by lia. apply Z.lxor_spec.
  - rewrite !Z.mod_pow2_bits_high by lia. done.
Qed.

Lemma word_bytes a b c d :
  is_byte a -> is_byte b -> is_byte c -> is_byte d -> U32TO8_LITTLE (U8TO32_LITTLE [a; b; c; d] 0) = [a; b; c; d].
Proof.
  intros Ha Hb Hc Hd.
  assert (U8TO32_LITTLE [a; b; c; d] 0 = little_endian_to_Z 8 [a; b; c; d]) as ->.
  { unfold U8TO32_LITTLE. peek_le. }
  assert (forall v, U32TO8_LITTLE v = Z_to_little_endian 4 8 v) as ->.
  { intros v. unfold Z_to_little_endian. cbn -[Z.shiftr Z.land]. rewrite !Z.shiftr_shiftr by lia.
    change 255 with (Z.ones 8). by rewrite !Z.land_ones by lia. }
  rewrite (Z_to_little_endian_to_Z 4 8); [done|done|lia|]. by rewrite !Forall_cons.
Qed.

Lemma xor_word w a b c d :
  is_byte a -> is_byte b -> is_byte c -> is_byte d ->
  U32TO8_LITTLE (XOR w (U8TO32_LITTLE [a; b; c; d] 0)) = xor_bytes (U32TO8_LITTLE w) [a; b; c; d].
Proof.
  intros Ha Hb Hc Hd. pose proof (word_bytes a b c d Ha Hb Hc Hd) as Hw. unfold U32TO8_LITTLE in *.
  injection Hw as E0 E1 E2 E3. unfold XOR. rewrite !Z.shiftr_lxor, !u8_lxor. by rewrite E0, E1, E2, E3.
Qed.

Lemma u8to32_at m o :
  0 <= o -> o + 4 <= zlen m ->
  exists a b c d, slice o 4 m = [a; b; c; d] /\ U8TO32_LITTLE m o = U8TO32_LITTLE [a; b; c; d] 0 /\
    (bytes_ok m -> is_byte a /\ is_byte b /\ is_byte c /\ is_byte d).
Proof.
  intros Ho Hl. pose proof (zlen_slice o 4 m Ho ltac:(lia) Hl) as Hs.
  assert (forall i, 0 <= i < 4 -> znth m (o + i) = znth (slice o 4 m) i) as Hn.
  { intros i Hi. by rewrite znth_slice by lia. }
  destruct (slice o 4 m) as [|a [|b [|c [|d [|]]]]] eqn:E; try (repeat (rewrite zlen_cons in Hs); rewrite ?zlen_nil in Hs; zlen_facts; lia).
  exists a, b, c, d. split; [done|]. split.
  - unfold U8TO32_LITTLE. rewrite <- (Z.add_0_r o) at 1. rewrite !Hn by lia. done.
  - intros Hb. assert (bytes_ok [a; b; c; d]) as Hf.
    { rewrite <- E. by apply Forall_slice. }
    unfold bytes_ok in Hf. rewrite !Forall_cons in Hf. tauto.
Qed.

Lemma xor_bytes_app a b c d : length a = length b -> xor_bytes (a ++ c) (b ++ d) = xor_bytes a b ++ xor_bytes c d.
Proof. intros Hl. unfold xor_bytes. by apply zip_with_app. Qed.

Lemma xor_words_spec x m o :
  bytes_ok m -> 0 <= o -> o + 4 * zlen x <= zlen m ->
  xor_words x m o = xor_bytes (flat_map U32TO8_LITTLE x) (slice o (4 * zlen x) m).
Proof.
  intros Hb. revert o. induction x as [|w x IH]; intros o Ho Hl; [done|].
  rewrite zlen_cons in *. cbn [xor_words flat_map]. pose proof (zlen_nonneg x).
  destruct (u8to32_at m o Ho ltac:(lia)) as (a & b & c & d & Es & -> & Hby). destruct (Hby Hb) as (Ha & Hb' & Hc & Hd).
  rewrite xor_word by done. rewrite IH by lia.
  replace (4 * (1 + zlen x)) with (4 + 4 * zlen x) by lia.
  rewrite (slice_split o 4 (4 * zlen x) m) by lia. rewrite Es. by rewrite xor_bytes_app.
Qed.

(** ** Lengths *)

Lemma quarterround_len a b c d x : zlen (QUARTERROUND a b c d x) = zlen x.
Proof.
  assert (forall a b x, zlen (plus_at a b x) = zlen x) as Hp by (intros; apply zlen_zset).
  assert (forall d a n x, zlen (rotate_at d a n x) = zlen x) as Hr by (intros; apply zlen_zset).
  unfold QUARTERROUND. by rewrite !Hr, !Hp, !Hr, !Hp, !Hr, !Hp, !Hr, !Hp.
Qed.

Section DoubleRound.
Local Opaque QUARTERROUND zlen.

Lemma double_round_len x : zlen (double_round x) = zlen x.
Proof. cbv beta zeta delta [double_round]. by do 8 (etransitivity; [apply quarterround_len|]). Qed.
End DoubleRound.

Lemma iter_preserves {A B} (f : A -> A) (g : A -> B) n x : (forall y, g (f y) = g y) -> g (Nat.iter n f x) = g x.
Proof. intros Hf. induction n as [|n IH]; [done|]. by rewrite Nat.iter_succ, Hf. Qed.

Lemma rounds_len n x : zlen (rounds n x) = zlen x.
Proof. exact (iter_preserves double_round zlen n x double_round_len). Qed.

Lemma zlen_zip_with {A B C} (f : A -> B -> C) a b : zlen a = zlen b -> zlen (zip_with f a b) = zlen b.
Proof. intros Hl. unfold zlen in *. rewrite length_zip_with. lia. Qed.

Lemma chacha_words_len j : zlen (chacha_words j) = zlen j.
Proof. exact (zlen_zip_with PLUS (rounds 10 j) j (rounds_len 10 j)). Qed.

Local Opaque chacha_words.

Lemma flat_bytes_len x : zlen (flat_map U32TO8_LITTLE x) = 4 * zlen x.
Proof. induction x as [|w x IH]; [done|]. cbn [flat_map]. rewrite zlen_app, IH, zlen_cons. unfold U32TO8_LITTLE. cbn [zlen length]. unfold zlen. cbn [length]. lia. Qed.

Lemma block_bytes_len j : zlen j = 16 -> zlen (block_bytes j) = 64.
Proof. intros Hj. unfold block_bytes. rewrite flat_bytes_len, chacha_words_len. lia. Qed.

Lemma next_block_len j : zlen (next_block j) = zlen j.
Proof. unfold next_block. destruct (_ =? 0); by rewrite !zlen_zset. Qed.

Fixpoint blocks_on (n : nat) (j : list Z) : list Z :=
  match n with O => j | S n => blocks_on n (next_block j) end.

(** The number of blocks of a message. *)
Definition nblocks (len : Z) : nat := Z.to_nat ((len + 63) / 64).

Lemma nblocks_step len : 64 < len -> nblocks len = S (nblocks (len - 64)).
Proof.
  intros Hl. unfold nblocks. replace (len + 63) with ((len - 64 + 63) + 1 * 64) by lia.
  rewrite Z.div_add by lia. pose proof (Z.div_pos (len - 64 + 63) 64 ltac:(lia) ltac:(lia)). lia.
Qed.

Lemma nblocks_one len : 0 < len <= 64 -> nblocks len = 1%nat.
Proof. intros Hl. unfold nblocks. replace ((len + 63) / 64) with 1; [done|]. apply Z.div_unique with (len - 1); lia. Qed.

Lemma xor_bytes_comm a b : xor_bytes a b = xor_bytes b a.
Proof.
  unfold xor_bytes. revert b. induction a as [|x a IH]; intros [|y b]; [done..|]. cbn. by rewrite Z.lxor_comm, IH.
Qed.

Lemma ztake_xor_bytes n a b : 0 <= n -> ztake n (xor_bytes a b) = xor_bytes (ztake n a) (ztake n b).
Proof. intros. unfold xor_bytes. Local Transparent ztake. unfold ztake. by rewrite zip_with_take. Qed.
Local Opaque ztake.

Lemma xor_bytes_ztake a b : zlen a <= zlen b -> xor_bytes a (ztake (zlen a) b) = xor_bytes a b.
Proof.
  intros Hl. rewrite <- (ztake_zdrop (zlen a) b) at 2.
  rewrite <- (app_nil_r a) at 3. rewrite xor_bytes_app; [by rewrite app_nil_r|].
  pose proof (zlen_ztake (zlen a) b) as Hz. zlen_facts. unfold zlen in *. lia.
Qed.

Lemma encrypt_loop_spec fuel junk j m :
  zlen j = 16 -> zlen junk = 64 -> bytes_ok junk -> bytes_ok m -> 0 < zlen m <= Z.of_nat fuel ->
  encrypt_loop fuel junk j m = (xor_bytes m (keystream (nblocks (zlen m)) j), blocks_on (nblocks (zlen m)) j).
Proof.
  intros Hj Hjl Hjb. revert j m Hj. induction fuel as [|fuel IH]; intros j m Hj Hm Hl; [lia|].
  cbn [encrypt_loop]. pose proof (block_bytes_len j Hj) as Hbl.
  assert (forall src, bytes_ok src -> 64 <= zlen src ->
    xor_words (chacha_words j) src 0 = xor_bytes (ztake 64 src) (block_bytes j)) as Hx.
  { intros src Hs Hsl. rewrite xor_words_spec by (done || rewrite chacha_words_len; lia).
    rewrite chacha_words_len, Hj. rewrite xor_bytes_comm, slice_ztake, zdrop_0 by lia. reflexivity. }
  destruct (Z.leb_spec (zlen m) 64) as [Hle|Hgt].
  - rewrite nblocks_one by lia. cbn [keystream blocks_on]. rewrite app_nil_r. f_equal.
    assert (exists src, (if zlen m <? 64 then mem_write junk 0 m else m) = src /\ bytes_ok src /\ 64 <= zlen src /\
      ztake (zlen m) src = m) as (src & -> & Hs & Hsl & Ht).
    { destruct (Z.ltb_spec (zlen m) 64).
      - eexists. split; [done|]. rewrite mem_write_front. split; [apply Forall_app; split; [done|by apply Forall_zdrop]|].
        split; [rewrite zlen_app, zlen_zdrop; lia|]. by apply ztake_app_exact.
      - eexists. split; [done|]. split; [done|]. split; [lia|]. by apply ztake_ge. }
    rewrite Hx by done. rewrite ztake_xor_bytes, ztake_ztake, Ht by lia. apply xor_bytes_ztake. lia.
  - rewrite (proj2 (Z.ltb_ge _ _)) by lia. rewrite nblocks_step by lia. cbn [keystream blocks_on].
    rewrite IH; [|by rewrite next_block_len|by apply Forall_zdrop|rewrite zlen_zdrop; lia].
    rewrite zlen_zdrop by lia. f_equal. rewrite Hx by (done || lia).
    rewrite <- xor_bytes_app; [by rewrite ztake_zdrop|].
    pose proof (zlen_ztake 64 m). unfold zlen in *. lia.
Qed.

Lemma keystream_len n j : zlen j = 16 -> zlen (keystream n j) = 64 * Z.of_nat n.
Proof.
  revert j. induction n as [|n IH]; intros j Hj; [done|]. cbn [keystream].
  rewrite zlen_app, block_bytes_len, IH by (done || by rewrite next_block_len). lia.
Qed.

Lemma nblocks_enough len : 0 <= len -> len <= 64 * Z.of_nat (nblocks len).
Proof.
  intros Hl. unfold nblocks. pose proof (Z.div_mod (len + 63) 64 ltac:(lia)).
  pose proof (Z.mod_pos_bound (len + 63) 64 ltac:(lia)). pose proof (Z.div_pos (len + 63) 64 ltac:(lia) ltac:(lia)). lia.
Qed.

Lemma encrypt_stream junk x m :
  zlen x = 16 -> zlen junk = 64 -> bytes_ok junk -> bytes_ok m ->
  fst (chacha_encrypt_bytes junk x m) = xor_bytes m (keystream (nblocks (zlen m)) x).
Proof.
  intros Hx Hl Hj Hm. unfold chacha_encrypt_bytes. destruct (Z.eqb_spec (zlen m) 0) as [E|E].
  - by rewrite (zlen_0_nil m).
  - zlen_facts. rewrite encrypt_loop_spec by (done || lia). done.
Qed.

Lemma xor_bytes_twice a k : zlen a <= zlen k -> xor_bytes (xor_bytes a k) k = a.
Proof.
  unfold xor_bytes. revert k. induction a as [|x a IH]; intros [|y k] Hl; [done|done| |].
  { rewrite zlen_cons, zlen_nil in Hl. zlen_facts. lia. }
  rewrite !zlen_cons in Hl. cbn. rewrite IH by lia. f_equal. by rewrite Z.lxor_assoc, Z.lxor_nilpotent, Z.lxor_0_r.
Qed.

(** ** The block counter as one 64-bit number *)

Definition counter (x : list Z) : Z := znth x 12 + 2^32 * znth x 13.
Definition at_counter (x : list Z) (c : Z) : list Z := zset (zset x 12 (u32 c)) 13 (u32 (c / 2^32)).
Definition words_ok (x : list Z) : Prop := zlen x = 16 /\ Forall (fun w => 0 <= w < 2^32) x.

(** The key stream from block [c]: the block function at c, c + 1, ... modulo 2^64. *)
Definition stream (x : list Z) (c : Z) (n : nat) : list Z :=
  flat_map (fun i => block_bytes (at_counter x (c + i))) (seqZ 0 (Z.of_nat n)).

Lemma at_counter_len x c : zlen (at_counter x c) = zlen x.
Proof. unfold at_counter. by rewrite !zlen_zset. Qed.

Lemma zset_zset l i a b : zset (zset l i a) i b = zset l i b.
Proof. unfold zset. by rewrite list_insert_insert_eq. Qed.

Lemma zset_comm l i j a b : 0 <= i -> 0 <= j -> i <> j -> zset (zset l i a) j b = zset (zset l j b) i a.
Proof. intros. unfold zset. rewrite list_insert_insert_ne; [done|lia]. Qed.

Lemma zset_id l i : zset l i (znth l i) = l.
Proof.
  unfold zset, znth. destruct (l !! Z.to_nat i) eqn:E; [by apply list_insert_id|].
  by rewrite list_insert_ge by (by apply lookup_ge_None).
Qed.

Lemma at_counter_at x a b : at_counter (at_counter x a) b = at_counter x b.
Proof.
  unfold at_counter. rewrite (zset_comm _ 13 12) by lia. by rewrite !zset_zset.
Qed.

Lemma at_counter_nth12 x c : zlen x = 16 -> znth (at_counter x c) 12 = u32 c.
Proof. intros Hx. unfold at_counter. rewrite znth_zset_ne, znth_zset_eq by (done || lia). done. Qed.

Lemma at_counter_nth13 x c : zlen x = 16 -> znth (at_counter x c) 13 = u32 (c / 2^32).
Proof. intros Hx. unfold at_counter. by rewrite znth_zset_eq by (rewrite zlen_zset; lia). Qed.

Lemma at_counter_self x : words_ok x -> at_counter x (counter x) = x.
Proof.
  intros [Hl Hw]. unfold at_counter, counter.
  assert (forall i, 0 <= i < 16 -> 0 <= znth x i < 2^32) as Hn.
  { intros i Hi. unfold znth. destruct (x !! Z.to_nat i) eqn:E; [by eapply Forall_lookup_1 in Hw|].
    apply lookup_ge_None in E. unfold zlen in Hl. lia. }
  pose proof (Hn 12 ltac:(lia)). pose proof (Hn 13 ltac:(lia)).
  replace (u32 (znth x 12 + 2^32 * znth x 13)) with (znth x 12)
    by (unfold u32; rewrite Z.mul_comm, Z.mod_add, Z.mod_small by lia; done).
  replace (u32 ((znth x 12 + 2^32 * znth x 13) / 2^32)) with (znth x 13)
    by (unfold u32; rewrite Z.mul_comm, Z.div_add, (Z.div_small (znth x 12)), Z.mod_small by lia; lia).
  by rewrite !zset_id.
Qed.

Lemma carry_word c : u32 (u32 c + 1) = u32 (c + 1).
Proof. unfold u32. by rewrite Z.add_mod_idemp_l by lia. Qed.

Lemma carry_high c : u32 ((c + 1) / 2^32) = if u32 (c + 1) =? 0 then u32 (u32 (c / 2^32) + 1) else u32 (c / 2^32).
Proof.
  rewrite carry_word. unfold u32. pose proof (Z.div_mod c (2^32) ltac:(lia)). pose proof (Z.mod_pos_bound c (2^32) ltac:(lia)).
  destruct (Z.eqb_spec ((c + 1) mod 2^32) 0) as [E|E].
  - pose proof (Z.div_mod (c + 1) (2^32) ltac:(lia)). f_equal. nia.
  - f_equal. symmetry. apply Z.div_unique with (c mod 2^32 + 1); [|lia].
    assert (c mod 2^32 + 1 <> 2^32); [|lia]. intros E'. apply E.
    replace (c + 1) with ((c / 2^32 + 1) * 2^32) by lia. apply Z.mod_mul. lia.
Qed.

Lemma next_block_at x c : zlen x = 16 -> next_block (at_counter x c) = at_counter x (c + 1).
Proof.
  intros Hx. unfold next_block, PLUSONE, PLUS.
  rewrite at_counter_nth12, carry_word, znth_zset_eq, znth_zset_ne, at_counter_nth13
    by (done || lia || (rewrite at_counter_len; lia)).
  unfold at_counter. rewrite carry_high, (zset_comm _ 13 12) by lia.
  destruct (_ =? 0); by rewrite !zset_zset.
Qed.

Lemma blocks_on_at n x c : zlen x = 16 -> blocks_on n (at_counter x c) = at_counter x (c + Z.of_nat n).
Proof.
  intros Hx. revert c. induction n as [|n IH]; intros c; cbn [blocks_on]; [f_equal; lia|].
  rewrite next_block_at, IH by done. f_equal. lia.
Qed.

Lemma keystream_at n x c : zlen x = 16 -> keystream n (at_counter x c) = stream x c n.
Proof.
  intros Hx. revert c. induction n as [|n IH]; intros c; [done|]. cbn [keystream].
  rewrite next_block_at, IH by done. unfold stream. rewrite (seqZ_cons 0 (Z.of_nat (S n))) by lia. cbn [flat_map].
  f_equal; [do 2 f_equal; lia|]. replace (Z.pred (Z.of_nat (S n))) with (Z.of_nat n) by lia.
  replace (Z.succ 0) with (1 + 0) by lia. rewrite <- fmap_add_seqZ, !flat_map_concat_map.
  change (map ?f) with (fmap (M := list) f). rewrite <- list_fmap_compose. f_equal.
  apply list_fmap_ext. intros i y _. cbn. do 2 f_equal. lia.
Qed.

Lemma encrypt_context junk x m :
  words_ok x -> zlen junk = 64 -> bytes_ok junk -> bytes_ok m ->
  snd (chacha_encrypt_bytes junk x m) = at_counter x (counter x + Z.of_nat (nblocks (zlen m))).
Proof.
  intros Hx Hj Hjb Hm. pose proof (proj1 Hx) as Hl. unfold chacha_encrypt_bytes. destruct (Z.eqb_spec (zlen m) 0) as [E|E].
  - rewrite E. change (Z.of_nat (nblocks 0)) with 0. cbn [snd]. by rewrite Z.add_0_r, at_counter_self.
  - zlen_facts. rewrite encrypt_loop_spec by (done || lia). cbn [snd].
    pose proof (blocks_on_at (nblocks (zlen m)) x (counter x) Hl) as Hb. rewrite at_counter_self in Hb by done.
    rewrite Hb. by rewrite at_counter_nth12, at_counter_nth13.
Qed.

Lemma u32_bytes w : bytes_ok (U32TO8_LITTLE w).
Proof. unfold bytes_ok, U32TO8_LITTLE. repeat (apply Forall_cons; split; [apply Z.mod_pos_bound; lia|]). constructor. Qed.

Lemma flat_map_bytes (f : Z -> list Z) l : (forall w, bytes_ok (f w)) -> bytes_ok (flat_map f l).
Proof.
  intros Hf. induction l as [|w l IH]; [by constructor|]. cbn [flat_map].
  apply Forall_app_2; [apply Hf|apply IH].
Qed.

Lemma keystream_bytes n x : bytes_ok (keystream n x).
Proof.
  revert x. induction n as [|n IH]; intros x; [by constructor|]. cbn [keystream].
  apply Forall_app_2; [apply flat_map_bytes, u32_bytes|apply IH].
Qed.

Lemma lxor_byte a b : is_byte a -> is_byte b -> is_byte (Z.lxor a b).
Proof.
  intros Ha Hb. unfold is_byte in *. assert (u8 a = a /\ u8 b = b) as [<- <-] by (unfold u8; by rewrite !Z.mod_small).
  rewrite <- u8_lxor. apply Z.mod_pos_bound. lia.
Qed.

Lemma bytes_ok_xor a b : bytes_ok a -> bytes_ok b -> bytes_ok (xor_bytes a b).
Proof.
  intros Ha. revert b. induction Ha as [|x a Hx Ha IH]; intros b Hb; [by constructor|].
  destruct Hb as [|y b Hy Hb]; [by constructor|]. constructor; [by apply lxor_byte|by apply IH].
Qed.

Lemma xor_bytes_len a b : zlen a <= zlen b -> zlen (xor_bytes a b) = zlen a.
Proof. intros Hl. unfold zlen in *. unfold xor_bytes. rewrite length_zip_with. lia. Qed.

(** C31: encrypting a message of any length is the exclusive or with the key
    stream of the 64-bit block counter held in words 12 and 13 (the block
    function at counter, counter + 1, ..., modulo 2^64), whatever the bytes of
    the stack buffer that pads the last block; the context is left at the
    counter that follows; and encrypting the result from the same context gives
    the message back. *)
Theorem chacha_stream_cipher junk junk' x m :
  words_ok x -> zlen junk = 64 -> bytes_ok junk -> zlen junk' = 64 -> bytes_ok junk' -> bytes_ok m ->
  let '(c, x') := chacha_encrypt_bytes junk x m in
  c = xor_bytes m (stream x (counter x) (nblocks (zlen m))) /\
  x' = at_counter x (counter x + Z.of_nat (nblocks (zlen m))) /\
  fst (chacha_encrypt_bytes junk' x c) = m.
Proof.
  intros Hx Hj Hjb Hj' Hjb' Hm. pose proof (proj1 Hx) as Hl.
  pose proof (encrypt_stream junk x m Hl Hj Hjb Hm) as Hc. pose proof (encrypt_context junk x m Hx Hj Hjb Hm) as Hx'.
  destruct (chacha_encrypt_bytes junk x m) as [c x']. cbn [fst snd] in *.
  assert (keystream (nblocks (zlen m)) x = stream x (counter x) (nblocks (zlen m))) as Hk
    by (rewrite <- keystream_at, at_counter_self by done; reflexivity).
  split; [by rewrite Hc, Hk|]. split; [done|].
  assert (zlen m <= zlen (keystream (nblocks (zlen m)) x)) as Hen
    by (rewrite keystream_len by done; apply nblocks_enough; zlen_facts; lia).
  rewrite encrypt_stream by (done || rewrite Hc; by apply bytes_ok_xor; [|apply keystream_bytes]).
  rewrite Hc at 1. rewrite Hc, xor_bytes_len by done. by apply xor_bytes_twice.
Qed.

Definition demo_ctx : list Z :=
  chacha_ivsetup (chacha_keysetup (zrepeat 16) (str "0123456789abcdef0123456789abcdef") 256) (POKE_U64 7) None.

Lemma chacha_stream_cipher_witness :
  let '(c, x') := chacha_encrypt_bytes (zrepeat 64) demo_ctx (str "attack at dawn") in
  c = xor_bytes (str "attack at dawn") (stream demo_ctx (counter demo_ctx) (nblocks 14)) /\
  x' = at_counter demo_ctx (counter demo_ctx + Z.of_nat (nblocks 14)) /\
  fst (chacha_encrypt_bytes (zrepeat 64) demo_ctx c) = str "attack at dawn".
Proof.
  apply (chacha_stream_cipher (zrepeat 64) (zrepeat 64) demo_ctx (str "attack at dawn")).
  - split; compute_dec.
  - reflexivity.
  - compute_dec.
  - reflexivity.
  - compute_dec.
  - compute_dec.
Defined.
