(* ===== verification/Poly1305.v ===== *)
(** The built-in Poly1305 authenticator (poly1305.c): the limb arithmetic at
    32 and 64 bits, and that it computes the polynomial modulo 2^130 - 5. *)

From Stdlib Require Import String.
From S2P Require Import Prelude Match SshbufGetPut.
Local Open Scope Z_scope.

(** * Macros *)

Definition mul32x32_64 (a b : Z) : Z := u64 (a * b).
Definition U8TO32_LE (p : list Z) (o : Z) : Z :=
  Z.lor (Z.lor (Z.lor (znth p o) (u32 (Z.shiftl (znth p (o + 1)) 8))) (u32 (Z.shiftl (znth p (o + 2)) 16)))
    (u32 (Z.shiftl (znth p (o + 3)) 24)).
Definition U32TO8_LE (v : Z) : list Z := [u8 v; u8 (Z.shiftr v 8); u8 (Z.shiftr v 16); u8 (Z.shiftr v 24)].

(** The locals h0 .. h4 and r0 .. r4. *)
Record limbs := Limbs { l0 : Z; l1 : Z; l2 : Z; l3 : Z; l4 : Z }.

(** * The steps of [poly1305_auth] *)

(** Clamp key, precompute multipliers. *)
Definition poly_clamp (key : list Z) : limbs :=
  let t0 := U8TO32_LE key 0 in
  let t1 := U8TO32_LE key 4 in
  let t2 := U8TO32_LE key 8 in
  let t3 := U8TO32_LE key 12 in
  let r0 := Z.land t0 0x3ffffff in
  let t0 := Z.lor (Z.shiftr t0 26) (u32 (Z.shiftl t1 6)) in
  let r1 := Z.land t0 0x3ffff03 in
  let t1 := Z.lor (Z.shiftr t1 20) (u32 (Z.shiftl t2 12)) in
  let r2 := Z.land t1 0x3ffc0ff in
  let t2 := Z.lor (Z.shiftr t2 14) (u32 (Z.shiftl t3 18)) in
  let r3 := Z.land t2 0x3f03fff in
  let t3 := Z.shiftr t3 8 in
  let r4 := Z.land t3 0x00fffff in
  Limbs r0 r1 r2 r3 r4.

(** The sixteen bytes at the front of [m] added to the limbs; [top] is
    [1 << 24] for a full block and 0 for the padded one. *)
Definition poly_add (m : list Z) (top : Z) (h : limbs) : limbs :=
  let t0 := U8TO32_LE m 0 in
  let t1 := U8TO32_LE m 4 in
  let t2 := U8TO32_LE m 8 in
  let t3 := U8TO32_LE m 12 in
  Limbs (u32 (l0 h + Z.land t0 0x3ffffff))
    (u32 (l1 h + Z.land (Z.shiftr (Z.lor (u64 (Z.shiftl t1 32)) t0) 26) 0x3ffffff))
    (u32 (l2 h + Z.land (Z.shiftr (Z.lor (u64 (Z.shiftl t2 32)) t1) 20) 0x3ffffff))
    (u32 (l3 h + Z.land (Z.shiftr (Z.lor (u64 (Z.shiftl t3 32)) t2) 14) 0x3ffffff))
    (u32 (l4 h + Z.lor (Z.shiftr t3 8) top)).

(** [poly1305_donna_mul]: the carries through t[0] .. t[4], and the products. *)
Definition poly_reduce (t0 t1 t2 t3 t4 : Z) : limbs :=
  let h0 := Z.land (u32 t0) 0x3ffffff in
  let c := Z.shiftr t0 26 in
  let t1 := u64 (t1 + c) in
  let h1 := Z.land (u32 t1) 0x3ffffff in
  let b := u32 (Z.shiftr t1 26) in
  let t2 := u64 (t2 + b) in
  let h2 := Z.land (u32 t2) 0x3ffffff in
  let b := u32 (Z.shiftr t2 26) in
  let t3 := u64 (t3 + b) in
  let h3 := Z.land (u32 t3) 0x3ffffff in
  let b := u32 (Z.shiftr t3 26) in
  let t4 := u64 (t4 + b) in
  let h4 := Z.land (u32 t4) 0x3ffffff in
  let b := u32 (Z.shiftr t4 26) in
  Limbs (u32 (h0 + u32 (b * 5))) h1 h2 h3 h4.

Definition poly_mul (r h : limbs) : limbs :=
  let s1 := u32 (l1 r * 5) in
  let s2 := u32 (l2 r * 5) in
  let s3 := u32 (l3 r * 5) in
  let s4 := u32 (l4 r * 5) in
  let t0 := u64 (mul32x32_64 (l0 h) (l0 r) + mul32x32_64 (l1 h) s4 + mul32x32_64 (l2 h) s3
                 + mul32x32_64 (l3 h) s2 + mul32x32_64 (l4 h) s1) in
  let t1 := u64 (mul32x32_64 (l0 h) (l1 r) + mul32x32_64 (l1 h) (l0 r) + mul32x32_64 (l2 h) s4
                 + mul32x32_64 (l3 h) s3 + mul32x32_64 (l4 h) s2) in
  let t2 := u64 (mul32x32_64 (l0 h) (l2 r) + mul32x32_64 (l1 h) (l1 r) + mul32x32_64 (l2 h) (l0 r)
                 + mul32x32_64 (l3 h) s4 + mul32x32_64 (l4 h) s3) in
  let t3 := u64 (mul32x32_64 (l0 h) (l3 r) + mul32x32_64 (l1 h) (l2 r) + mul32x32_64 (l2 h) (l1 r)
                 + mul32x32_64 (l3 h) (l0 r) + mul32x32_64 (l4 h) s4) in
  let t4 := u64 (mul32x32_64 (l0 h) (l4 r) + mul32x32_64 (l1 h) (l3 r) + mul32x32_64 (l2 h) (l2 r)
                 + mul32x32_64 (l3 h) (l1 r) + mul32x32_64 (l4 h) (l0 r)) in
  poly_reduce t0 t1 t2 t3 t4.

(** The blocks: [poly1305_donna_16bytes] while sixteen bytes are left, then
    [poly1305_donna_atmost15bytes], which pads the rest with 1, 0, 0, ... *)
Fixpoint poly_blocks (fuel : nat) (r h : limbs) (m : list Z) : limbs :=
  match fuel with
  | O => h
  | S fuel =>
      if zlen m <? 16 then
        if zlen m =? 0 then h
        else poly_mul r (poly_add (m ++ [1] ++ zrepeat (15 - zlen m)) 0 h)
      else poly_blocks fuel r (poly_mul r (poly_add m (Z.shiftl 1 24) h)) (zdrop 16 m)
  end.

(** [poly1305_donna_finish]: the carries. *)
Definition poly_carry (h : limbs) : limbs :=
  let b := Z.shiftr (l0 h) 26 in
  let h0 := Z.land (l0 h) 0x3ffffff in
  let h1 := u32 (l1 h + b) in
  let b := Z.shiftr h1 26 in
  let h1 := Z.land h1 0x3ffffff in
  let h2 := u32 (l2 h + b) in
  let b := Z.shiftr h2 26 in
  let h2 := Z.land h2 0x3ffffff in
  let h3 := u32 (l3 h + b) in
  let b := Z.shiftr h3 26 in
  let h3 := Z.land h3 0x3ffffff in
  let h4 := u32 (l4 h + b) in
  let b := Z.shiftr h4 26 in
  let h4 := Z.land h4 0x3ffffff in
  let h0 := u32 (h0 + u32 (b * 5)) in
  let b := Z.shiftr h0 26 in
  let h0 := Z.land h0 0x3ffffff in
  let h1 := u32 (h1 + b) in
  Limbs h0 h1 h2 h3 h4.

(** h + 5 - 2^130, and the mask that is all ones when it is not negative. *)
Definition poly_minus_p (h : limbs) : limbs :=
  let g0 := u32 (l0 h + 5) in
  let b := Z.shiftr g0 26 in
  let g0 := Z.land g0 0x3ffffff in
  let g1 := u32 (l1 h + b) in
  let b := Z.shiftr g1 26 in
  let g1 := Z.land g1 0x3ffffff in
  let g2 := u32 (l2 h + b) in
  let b := Z.shiftr g2 26 in
  let g2 := Z.land g2 0x3ffffff in
  let g3 := u32 (l3 h + b) in
  let b := Z.shiftr g3 26 in
  let g3 := Z.land g3 0x3ffffff in
  let g4 := u32 (l4 h + b - Z.shiftl 1 26) in
  Limbs g0 g1 g2 g3 g4.

Definition poly_select (h g : limbs) : limbs :=
  let b := u32 (Z.shiftr (l4 g) 31 - 1) in
  let nb := u32 (Z.lnot b) in
  let sel x y := Z.lor (Z.land x nb) (Z.land y b) in
  Limbs (sel (l0 h) (l0 g)) (sel (l1 h) (l1 g)) (sel (l2 h) (l2 g)) (sel (l3 h) (l3 g)) (sel (l4 h) (l4 g)).

(** The addition of the second half of the key and the sixteen bytes stored. *)
Definition poly_out (h : limbs) (key : list Z) : list Z :=
  let f0 := u64 (Z.lor (l0 h) (u32 (Z.shiftl (l1 h) 26)) + U8TO32_LE key 16) in
  let f1 := u64 (Z.lor (Z.shiftr (l1 h) 6) (u32 (Z.shiftl (l2 h) 20)) + U8TO32_LE key 20) in
  let f2 := u64 (Z.lor (Z.shiftr (l2 h) 12) (u32 (Z.shiftl (l3 h) 14)) + U8TO32_LE key 24) in
  let f3 := u64 (Z.lor (Z.shiftr (l3 h) 18) (u32 (Z.shiftl (l4 h) 8)) + U8TO32_LE key 28) in
  let f1 := u64 (f1 + Z.shiftr f0 32) in
  let f2 := u64 (f2 + Z.shiftr f1 32) in
  let f3 := u64 (f3 + Z.shiftr f2 32) in
  U32TO8_LE f0 ++ U32TO8_LE f1 ++ U32TO8_LE f2 ++ U32TO8_LE f3.

Definition poly1305_auth (m key : list Z) : list Z :=
  let r := poly_clamp key in
  let h := poly_blocks (S (length m)) r (Limbs 0 0 0 0 0) m in
  let h := poly_carry h in
  poly_out (poly_select h (poly_minus_p h)) key.

(** RFC 8439, section 2.5.2. *)
Example poly1305_rfc8439 :
  poly1305_auth (str "Cryptographic Forum Research Group")
    [0x85; 0xd6; 0xbe; 0x78; 0x57; 0x55; 0x6d; 0x33; 0x7f; 0x44; 0x52; 0xfe; 0x42; 0xd5; 0x06; 0xa8;
     0x01; 0x03; 0x80; 0x8a; 0xfb; 0x0d; 0xb2; 0xfd; 0x4a; 0xbf; 0xf6; 0xaf; 0x41; 0x49; 0xf5; 0x1b] =
  [0xa8; 0x06; 0x1d; 0xc1; 0x30; 0x51; 0x36; 0xc6; 0xc2; 0x2b; 0x8b; 0xaf; 0x0c; 0x01; 0x27; 0xa9].
Proof. vm_compute. reflexivity. Qed.

(** * The authenticator as arithmetic *)

Fixpoint le_num (bs : list Z) : Z := match bs with [] => 0 | b :: bs => b + 256 * le_num bs end.
Fixpoint le_bytes (n : nat) (v : Z) : list Z :=
  match n with O => [] | S n => v mod 256 :: le_bytes n (v / 256) end.

Definition P1305 : Z := 2^130 - 5.
Definition clamped (key : list Z) : Z := Z.land (le_num (ztake 16 key)) 0x0ffffffc0ffffffc0ffffffc0fffffff.

(** Each chunk of up to sixteen bytes, with a 1 after it, is added and the sum
    multiplied by r. *)
Fixpoint poly_eval (fuel : nat) (r a : Z) (m : list Z) : Z :=
  match fuel with
  | O => a
  | S fuel =>
      if zlen m =? 0 then a
      else poly_eval fuel r ((a + le_num (ztake 16 m ++ [1])) * r mod P1305) (zdrop 16 m)
  end.

Definition poly1305_spec (m key : list Z) : list Z :=
  le_bytes 16 (poly_eval (length m) (clamped key) 0 m + le_num (slice 16 16 key)).

(** ** Masks and shifts as division *)

Lemma lor_shiftl_add a b k : 0 <= k -> 0 <= a < 2^k -> Z.lor a (Z.shiftl b k) = a + b * 2^k.
Proof.
  intros Hk Ha. rewrite <- Z.shiftl_mul_pow2 by lia. symmetry. apply Z.add_nocarry_lor.
  apply Z.bits_inj'. intros n Hn. rewrite Z.land_spec, Z.bits_0, Z.shiftl_spec by lia.
  destruct (Z.lt_ge_cases n k).
  - rewrite (Z.testbit_neg_r b) by lia. apply andb_false_r.
  - rewrite <- (Z.mod_small a (2^k)), Z.mod_pow2_bits_high by lia. done.
Qed.

Lemma u32_shiftl b k : 0 <= k <= 32 -> u32 (Z.shiftl b k) = Z.shiftl (b mod 2^(32 - k)) k.
Proof.
  intros Hk. unfold u32. rewrite !Z.shiftl_mul_pow2 by lia.
  replace (2^32) with (2^(32 - k) * 2^k) by (rewrite <- Z.pow_add_r by lia; f_equal; lia).
  rewrite Z.mul_mod_distr_r by lia. done.
Qed.

Lemma u64_shiftl32 b : 0 <= b < 2^32 -> u64 (Z.shiftl b 32) = Z.shiftl b 32.
Proof. intros Hb. unfold u64. rewrite Z.shiftl_mul_pow2 by lia. apply Z.mod_small. lia. Qed.

(** The word [a >> k | b << (32 - k)] of two words, at 32 bits. *)
Lemma funnel a b k :
  0 < k < 32 -> 0 <= a < 2^32 ->
  Z.lor (Z.shiftr a k) (u32 (Z.shiftl b (32 - k))) = a / 2^k + (b mod 2^k) * 2^(32 - k).
Proof.
  intros Hk Ha. rewrite u32_shiftl by lia. rewrite lor_shiftl_add.
  - rewrite Z.shiftr_div_pow2 by lia. do 4 f_equal. lia.
  - lia.
  - rewrite Z.shiftr_div_pow2 by lia. split; [apply Z.div_pos; lia|].
    apply Z.div_lt_upper_bound; [lia|]. rewrite <- Z.pow_add_r by lia. replace (k + (32 - k)) with 32 by lia. lia.
Qed.

Lemma land26 a : Z.land a 0x3ffffff = a mod 2^26.
Proof. change 0x3ffffff with (Z.ones 26). apply Z.land_ones. lia. Qed.

Lemma shr26 a : Z.shiftr a 26 = a / 2^26.
Proof. by rewrite Z.shiftr_div_pow2 by lia. Qed.

Lemma land26_u32 a : Z.land (u32 a) 0x3ffffff = a mod 2^26.
Proof.
  rewrite land26. unfold u32. replace (2^32) with (2^26 * 2^6) by lia.
  rewrite Z.rem_mul_r, Z.mul_comm, Z.mod_add, Z.mod_mod by lia. done.
Qed.

Lemma nth_byte p i : bytes_ok p -> 0 <= znth p i < 256.
Proof.
  intros Hp. unfold znth. destruct (p !! Z.to_nat i) eqn:E; cbn; [|lia].
  exact (proj1 (Forall_lookup _ _) Hp _ _ E).
Qed.

Lemma u8to32_sum p o : bytes_ok p ->
  U8TO32_LE p o = znth p o + 2^8 * znth p (o + 1) + 2^16 * znth p (o + 2) + 2^24 * znth p (o + 3).
Proof.
  intros Hp. pose proof (nth_byte p o Hp). pose proof (nth_byte p (o + 1) Hp).
  pose proof (nth_byte p (o + 2) Hp). pose proof (nth_byte p (o + 3) Hp).
  unfold U8TO32_LE. rewrite !u32_shiftl by lia. rewrite !Z.mod_small by lia.
  rewrite (lor_shiftl_add (znth p o)) by lia. do 2 (rewrite (lor_shiftl_add (_ + _)) by lia). lia.
Qed.

Lemma u8to32_range p o : bytes_ok p -> 0 <= U8TO32_LE p o < 2^32.
Proof.
  intros Hp. pose proof (nth_byte p o Hp). pose proof (nth_byte p (o + 1) Hp).
  pose proof (nth_byte p (o + 2) Hp). pose proof (nth_byte p (o + 3) Hp). rewrite u8to32_sum by done. lia.
Qed.

(** Sixteen bytes as four words. *)
Lemma le_num_app a b : le_num (a ++ b) = le_num a + 256^(zlen a) * le_num b.
Proof.
  induction a as [|x a IH]; [cbn; change (zlen (@nil Z)) with 0; lia|].
  cbn [app le_num]. rewrite IH, zlen_cons, Z.pow_add_r by (zlen_facts; lia). lia.
Qed.

Lemma le_num_four p o : 0 <= o -> o + 4 <= zlen p -> bytes_ok p -> le_num (slice o 4 p) = U8TO32_LE p o.
Proof.
  intros Ho Hl Hp. rewrite u8to32_sum by done. pose proof (zlen_slice o 4 p Ho ltac:(lia) Hl) as Hs.
  assert (forall i, 0 <= i < 4 -> znth p (o + i) = znth (slice o 4 p) i) as Hn by (intros; by rewrite znth_slice by lia).
  rewrite <- (Z.add_0_r o) at 2. rewrite !Hn by lia.
  destruct (slice o 4 p) as [|a [|b [|c [|d [|]]]]];
    try (repeat (rewrite zlen_cons in Hs); rewrite ?zlen_nil in Hs; zlen_facts; lia).
  cbn. change (znth [a; b; c; d] 0) with a. change (znth [a; b; c; d] 1) with b.
  change (znth [a; b; c; d] 2) with c. change (znth [a; b; c; d] 3) with d. lia.
Qed.

Lemma le_num_words p o : 0 <= o -> o + 16 <= zlen p -> bytes_ok p ->
  le_num (slice o 16 p) =
  U8TO32_LE p o + 2^32 * U8TO32_LE p (o + 4) + 2^64 * U8TO32_LE p (o + 8) + 2^96 * U8TO32_LE p (o + 12).
Proof.
  intros Ho Hl Hp. replace 16 with (4 + (4 + (4 + 4))) by lia. rewrite !slice_split by lia.
  rewrite !le_num_app, !zlen_slice by lia. replace (o + 4 + 4) with (o + 8) by lia.
  replace (o + 8 + 4) with (o + 12) by lia. rewrite !le_num_four by (done || lia). lia.
Qed.

(** ** Limbs *)

Definition val (h : limbs) : Z := l0 h + 2^26 * l1 h + 2^52 * l2 h + 2^78 * l3 h + 2^104 * l4 h.

(** The 26-bit digits of four words. *)
Lemma words_div t0 t1 t2 t3 :
  0 <= t0 < 2^32 -> 0 <= t1 < 2^32 -> 0 <= t2 < 2^32 -> 0 <= t3 < 2^32 ->
  let R := t0 + 2^32 * t1 + 2^64 * t2 + 2^96 * t3 in
  R / 2^26 = t0 / 2^26 + 2^6 * (t1 + 2^32 * t2 + 2^64 * t3) /\
  R / 2^52 = t1 / 2^20 + 2^12 * (t2 + 2^32 * t3) /\
  R / 2^78 = t2 / 2^14 + 2^18 * t3 /\
  R / 2^104 = t3 / 2^8.
Proof.
  intros H0 H1 H2 H3 R.
  pose proof (Z.div_mod t0 (2^26) ltac:(lia)). pose proof (Z.mod_pos_bound t0 (2^26) ltac:(lia)).
  pose proof (Z.div_mod t1 (2^20) ltac:(lia)). pose proof (Z.mod_pos_bound t1 (2^20) ltac:(lia)).
  pose proof (Z.div_mod t2 (2^14) ltac:(lia)). pose proof (Z.mod_pos_bound t2 (2^14) ltac:(lia)).
  pose proof (Z.div_mod t3 (2^8) ltac:(lia)). pose proof (Z.mod_pos_bound t3 (2^8) ltac:(lia)).
  unfold R. split_and!; symmetry.
  - apply Z.div_unique with (t0 mod 2^26); lia.
  - apply Z.div_unique with (t0 + 2^32 * (t1 mod 2^20)); lia.
  - apply Z.div_unique with (t0 + 2^32 * t1 + 2^64 * (t2 mod 2^14)); lia.
  - apply Z.div_unique with (t0 + 2^32 * t1 + 2^64 * t2 + 2^96 * (t3 mod 2^8)); lia.
Qed.

Lemma mod_eq a b k n : 0 < n -> a = b + k * n -> a mod n = b mod n.
Proof. intros Hn ->. apply Z.mod_add. lia. Qed.

Lemma land_mod a b m k : 0 <= k -> 0 <= m < 2^k -> a mod 2^k = b mod 2^k -> Z.land a m = Z.land b m.
Proof.
  intros Hk Hm E. assert (forall x, Z.land x m = Z.land (x mod 2^k) m) as Hx; [|by rewrite Hx, E, <- Hx].
  intros x. rewrite <- (Z.land_ones x), <- Z.land_assoc by lia. f_equal.
  rewrite Z.land_comm, Z.land_ones by lia. by rewrite Z.mod_small.
Qed.

Lemma land_small a m k : 0 <= k -> 0 <= m < 2^k -> 0 <= Z.land a m <= m.
Proof.
  intros Hk Hm. assert (Z.land a m = m - Z.ldiff m a) as E.
  { pose proof (Z.add_nocarry_lor (Z.land a m) (Z.ldiff m a)) as Hs. rewrite Z.add_comm in Hs.
    apply Z.add_move_l. symmetry. rewrite Hs.
    - apply Z.bits_inj'. intros n Hn. rewrite Z.lor_spec, Z.land_spec, Z.ldiff_spec. destruct (Z.testbit a n), (Z.testbit m n); done.
    - apply Z.bits_inj'. intros n Hn. rewrite !Z.land_spec, Z.ldiff_spec, Z.bits_0. destruct (Z.testbit a n), (Z.testbit m n); done. }
  pose proof (proj2 (Z.land_nonneg a m) (or_intror (proj1 Hm))).
  assert (0 <= Z.ldiff m a) by (apply Z.ldiff_nonneg; lia). lia.
Qed.

Lemma land_split R m hi k :
  0 <= k -> 0 <= m < 2^k -> Z.land R (m + 2^k * hi) = Z.land R m + 2^k * Z.land (R / 2^k) hi.
Proof.
  intros Hk Hm. pose proof (land_small R m k Hk Hm).
  rewrite !(Z.mul_comm (2^k)), <- !lor_shiftl_add by lia. rewrite Z.land_lor_distr_r. f_equal.
  rewrite <- Z.shiftr_div_pow2 by lia. apply Z.bits_inj'. intros n Hn.
  rewrite Z.land_spec, !Z.shiftl_spec by lia. destruct (Z.lt_ge_cases n k).
  - rewrite !(Z.testbit_neg_r _ (n - k)) by lia. apply andb_false_r.
  - rewrite Z.land_spec, Z.shiftr_spec by lia. do 3 f_equal. lia.
Qed.

(** The bounds the clamped key has. *)
Definition clamp_ok (r : limbs) : Prop :=
  0 <= l0 r <= 0x3ffffff /\ 0 <= l1 r <= 0x3ffff03 /\ 0 <= l2 r <= 0x3ffc0ff /\
  0 <= l3 r <= 0x3f03fff /\ 0 <= l4 r <= 0x00fffff.

Lemma poly_clamp_ok key : clamp_ok (poly_clamp key).
Proof. unfold clamp_ok, poly_clamp. cbn [l0 l1 l2 l3 l4]. split_and!; by apply (land_small _ _ 26). Qed.

Lemma poly_clamp_val key : 16 <= zlen key -> bytes_ok key -> val (poly_clamp key) = clamped key.
Proof.
  intros Hl Hk. unfold clamped.
  assert (ztake 16 key = slice 0 16 key) as -> by (rewrite slice_ztake, zdrop_0 by lia; done).
  rewrite le_num_words by (done || lia). unfold poly_clamp, val. cbn [l0 l1 l2 l3 l4].
  change (0 + 4) with 4. change (0 + 8) with 8. change (0 + 12) with 12.
  pose proof (u8to32_range key 0 Hk) as H0. pose proof (u8to32_range key 4 Hk) as H1.
  pose proof (u8to32_range key 8 Hk) as H2. pose proof (u8to32_range key 12 Hk) as H3.
  set (t0 := U8TO32_LE key 0) in *. set (t1 := U8TO32_LE key 4) in *.
  set (t2 := U8TO32_LE key 8) in *. set (t3 := U8TO32_LE key 12) in *. clearbody t0 t1 t2 t3.
  rewrite (funnel t0 t1 26 ltac:(lia) H0 : Z.lor (Z.shiftr t0 26) (u32 (Z.shiftl t1 6)) = _).
  rewrite (funnel t1 t2 20 ltac:(lia) H1 : Z.lor (Z.shiftr t1 20) (u32 (Z.shiftl t2 12)) = _).
  rewrite (funnel t2 t3 14 ltac:(lia) H2 : Z.lor (Z.shiftr t2 14) (u32 (Z.shiftl t3 18)) = _).
  destruct (words_div t0 t1 t2 t3 H0 H1 H2 H3) as (D1 & D2 & D3 & D4).
  set (R := t0 + 2^32 * t1 + 2^64 * t2 + 2^96 * t3) in *.
  change 0x0ffffffc0ffffffc0ffffffc0fffffff with
    (0x3ffffff + 2^26 * (0x3ffff03 + 2^26 * (0x3ffc0ff + 2^26 * (0x3f03fff + 2^26 * 0x00fffff)))).
  rewrite !land_split by lia. rewrite !Z.div_div by lia.
  change (2^26 * 2^26) with (2^52). change (2^52 * 2^26) with (2^78). change (2^78 * 2^26) with (2^104).
  rewrite D1, D2, D3, D4, (Z.shiftr_div_pow2 t3) by lia.
  rewrite (land_mod R t0 0x3ffffff 26) by (lia || (apply (mod_eq _ _ (2^6 * t1 + 2^38 * t2 + 2^70 * t3)); unfold R; lia)).
  rewrite (land_mod (t0 / 2^26 + t1 mod 2^26 * 2^(32 - 26)) (t0 / 2^26 + 2^6 * (t1 + 2^32 * t2 + 2^64 * t3)) 0x3ffff03 26)
    by (lia || (apply (mod_eq _ _ (- (2^6 * (t1 / 2^26) + 2^12 * t2 + 2^44 * t3))); [lia|];
                pose proof (Z.div_mod t1 (2^26) ltac:(lia)); lia)).
  rewrite (land_mod (t1 / 2^20 + t2 mod 2^20 * 2^(32 - 20)) (t1 / 2^20 + 2^12 * (t2 + 2^32 * t3)) 0x3ffc0ff 26)
    by (lia || (apply (mod_eq _ _ (- (2^6 * (t2 / 2^20) + 2^18 * t3))); [lia|];
                pose proof (Z.div_mod t2 (2^20) ltac:(lia)); lia)).
  rewrite (land_mod (t2 / 2^14 + t3 mod 2^14 * 2^(32 - 14)) (t2 / 2^14 + 2^18 * t3) 0x3f03fff 26)
    by (lia || (apply (mod_eq _ _ (- (2^6 * (t3 / 2^14)))); [lia|];
                pose proof (Z.div_mod t3 (2^14) ltac:(lia)); lia)).
  lia.
Qed.

(** The bounds between two blocks, and after the addition of a block. *)
Definition acc_ok (h : limbs) : Prop :=
  0 <= l0 h <= 21 * 2^27 /\ 0 <= l1 h < 2^26 /\ 0 <= l2 h < 2^26 /\ 0 <= l3 h < 2^26 /\ 0 <= l4 h < 2^26.
Definition sum_ok (h : limbs) : Prop :=
  0 <= l0 h <= 21 * 2^27 + 2^26 /\ 0 <= l1 h < 2^27 /\ 0 <= l2 h < 2^27 /\ 0 <= l3 h < 2^27 /\
  0 <= l4 h < 2^26 + 2^25.

Lemma digits_sum R :
  R mod 2^26 + 2^26 * (R / 2^26 mod 2^26) + 2^52 * (R / 2^52 mod 2^26) + 2^78 * (R / 2^78 mod 2^26)
  + 2^104 * (R / 2^104) = R.
Proof.
  pose proof (Z.div_mod R (2^26) ltac:(lia)). pose proof (Z.div_mod (R / 2^26) (2^26) ltac:(lia)) as H1.
  pose proof (Z.div_mod (R / 2^52) (2^26) ltac:(lia)) as H2. pose proof (Z.div_mod (R / 2^78) (2^26) ltac:(lia)) as H3.
  rewrite Z.div_div in H1, H2, H3 by lia.
  change (2^26 * 2^26) with (2^52) in H1. change (2^52 * 2^26) with (2^78) in H2. change (2^78 * 2^26) with (2^104) in H3. lia.
Qed.

Lemma two_words a b k : 0 <= k <= 32 -> 0 <= a < 2^32 -> 0 <= b < 2^32 ->
  Z.shiftr (Z.lor (u64 (Z.shiftl b 32)) a) k = (a + 2^32 * b) / 2^k.
Proof.
  intros Hk Ha Hb. rewrite u64_shiftl32, Z.lor_comm, lor_shiftl_add, Z.shiftr_div_pow2 by lia. f_equal. lia.
Qed.

(** The terms of the code are the 26-bit digits of the block. *)
Lemma block_digits t0 t1 t2 t3 :
  0 <= t0 < 2^32 -> 0 <= t1 < 2^32 -> 0 <= t2 < 2^32 -> 0 <= t3 < 2^32 ->
  let R := t0 + 2^32 * t1 + 2^64 * t2 + 2^96 * t3 in
  t0 mod 2^26 = R mod 2^26 /\
  (t0 + 2^32 * t1) / 2^26 mod 2^26 = R / 2^26 mod 2^26 /\
  (t1 + 2^32 * t2) / 2^20 mod 2^26 = R / 2^52 mod 2^26 /\
  (t2 + 2^32 * t3) / 2^14 mod 2^26 = R / 2^78 mod 2^26 /\
  t3 / 2^8 = R / 2^104.
Proof.
  intros H0 H1 H2 H3 R. destruct (words_div t0 t1 t2 t3 H0 H1 H2 H3) as (D1 & D2 & D3 & D4). fold R in D1, D2, D3, D4.
  rewrite D1, D2, D3, D4. split_and!; [..|done]; symmetry.
  - apply (mod_eq _ _ (2^6 * t1 + 2^38 * t2 + 2^70 * t3)); unfold R; lia.
  - replace (t0 + 2^32 * t1) with (t0 + 2^6 * t1 * 2^26) by lia. rewrite Z.div_add by lia.
    apply (mod_eq _ _ (2^12 * t2 + 2^44 * t3)); lia.
  - replace (t1 + 2^32 * t2) with (t1 + 2^12 * t2 * 2^20) by lia. rewrite Z.div_add by lia.
    apply (mod_eq _ _ (2^18 * t3)); lia.
  - replace (t2 + 2^32 * t3) with (t2 + 2^18 * t3 * 2^14) by lia. by rewrite Z.div_add by lia.
Qed.

Lemma poly_add_spec m e h :
  16 <= zlen m -> bytes_ok m -> 0 <= e <= 1 -> acc_ok h ->
  sum_ok (poly_add m (Z.shiftl e 24) h) /\
  val (poly_add m (Z.shiftl e 24) h) = val h + le_num (ztake 16 m) + 2^128 * e.
Proof.
  intros Hl Hm He (B0 & B1 & B2 & B3 & B4).
  assert (ztake 16 m = slice 0 16 m) as -> by (rewrite slice_ztake, zdrop_0 by lia; done).
  rewrite le_num_words by (done || lia). unfold poly_add, val, sum_ok. cbn [l0 l1 l2 l3 l4].
  change (0 + 4) with 4. change (0 + 8) with 8. change (0 + 12) with 12.
  pose proof (u8to32_range m 0 Hm) as H0. pose proof (u8to32_range m 4 Hm) as H1.
  pose proof (u8to32_range m 8 Hm) as H2. pose proof (u8to32_range m 12 Hm) as H3.
  set (t0 := U8TO32_LE m 0) in *. set (t1 := U8TO32_LE m 4) in *.
  set (t2 := U8TO32_LE m 8) in *. set (t3 := U8TO32_LE m 12) in *. clearbody t0 t1 t2 t3.
  rewrite !two_words, !land26, (Z.shiftr_div_pow2 t3) by lia.
  destruct (block_digits t0 t1 t2 t3 H0 H1 H2 H3) as (D0 & D1 & D2 & D3 & D4).
  set (R := t0 + 2^32 * t1 + 2^64 * t2 + 2^96 * t3) in *. pose proof (digits_sum R) as HR.
  assert (0 <= t3 / 2^8 < 2^24) by (split; [apply Z.div_pos; lia|apply Z.div_lt_upper_bound; lia]).
  rewrite lor_shiftl_add by lia. rewrite D0, D1, D2, D3. rewrite D4 in *.
  pose proof (Z.mod_pos_bound R (2^26) ltac:(lia)). pose proof (Z.mod_pos_bound (R / 2^26) (2^26) ltac:(lia)).
  pose proof (Z.mod_pos_bound (R / 2^52) (2^26) ltac:(lia)). pose proof (Z.mod_pos_bound (R / 2^78) (2^26) ltac:(lia)).
  rewrite !u32_small by lia. split; [split_and!; lia|]. lia.
Qed.

(** ** Multiplication *)

Lemma poly_reduce_spec t0 t1 t2 t3 t4 :
  0 <= t0 < 36 * 2^53 -> 0 <= t1 < 2^58 - 2^50 -> 0 <= t2 < 31 * 2^53 -> 0 <= t3 < 31 * 2^53 ->
  0 <= t4 <= (21 * 2^27 + 2^26) * 2^20 + 3 * 2^53 + (2^26 + 2^25) * 2^26 ->
  acc_ok (poly_reduce t0 t1 t2 t3 t4) /\
  exists k, val (poly_reduce t0 t1 t2 t3 t4) = t0 + 2^26 * t1 + 2^52 * t2 + 2^78 * t3 + 2^104 * t4 - P1305 * k.
Proof.
  intros B0 B1 B2 B3 B4. unfold poly_reduce. rewrite !land26_u32, !shr26.
  pose proof (Z.div_mod t0 (2^26) ltac:(lia)). pose proof (Z.mod_pos_bound t0 (2^26) ltac:(lia)).
  set (c := t0 / 2^26) in *. rewrite (u64_small (t1 + c)) by lia.
  pose proof (Z.div_mod (t1 + c) (2^26) ltac:(lia)). pose proof (Z.mod_pos_bound (t1 + c) (2^26) ltac:(lia)).
  set (b1 := (t1 + c) / 2^26) in *. rewrite (u32_small b1) by lia. rewrite (u64_small (t2 + b1)) by lia.
  pose proof (Z.div_mod (t2 + b1) (2^26) ltac:(lia)). pose proof (Z.mod_pos_bound (t2 + b1) (2^26) ltac:(lia)).
  set (b2 := (t2 + b1) / 2^26) in *. rewrite (u32_small b2) by lia. rewrite (u64_small (t3 + b2)) by lia.
  pose proof (Z.div_mod (t3 + b2) (2^26) ltac:(lia)). pose proof (Z.mod_pos_bound (t3 + b2) (2^26) ltac:(lia)).
  set (b3 := (t3 + b2) / 2^26) in *. rewrite (u32_small b3) by lia. rewrite (u64_small (t4 + b3)) by lia.
  pose proof (Z.div_mod (t4 + b3) (2^26) ltac:(lia)). pose proof (Z.mod_pos_bound (t4 + b3) (2^26) ltac:(lia)).
  set (b4 := (t4 + b3) / 2^26) in *. rewrite (u32_small b4) by lia. rewrite !u32_small by (rewrite ?u32_small; lia).
  split; [unfold acc_ok; cbn [l0 l1 l2 l3 l4]; split_and!; lia|].
  exists b4. unfold val, P1305. cbn [l0 l1 l2 l3 l4]. lia.
Qed.

Lemma prod_bound a b A B : 0 <= a <= A -> 0 <= b <= B -> 0 <= a * b <= A * B.
Proof. intros. split; [nia|]. apply Z.mul_le_mono_nonneg; lia. Qed.

(** One of the five sums of products, none of which overflows. *)
Lemma product_row a0 a1 a2 a3 a4 b0 b1 b2 b3 b4 A0 A1 A2 A3 A4 B0 B1 B2 B3 B4 :
  0 <= a0 <= A0 -> 0 <= a1 <= A1 -> 0 <= a2 <= A2 -> 0 <= a3 <= A3 -> 0 <= a4 <= A4 ->
  0 <= b0 <= B0 -> 0 <= b1 <= B1 -> 0 <= b2 <= B2 -> 0 <= b3 <= B3 -> 0 <= b4 <= B4 ->
  A0 * B0 + A1 * B1 + A2 * B2 + A3 * B3 + A4 * B4 < 2^64 ->
  u64 (mul32x32_64 a0 b0 + mul32x32_64 a1 b1 + mul32x32_64 a2 b2 + mul32x32_64 a3 b3 + mul32x32_64 a4 b4) =
    a0 * b0 + a1 * b1 + a2 * b2 + a3 * b3 + a4 * b4 /\
  0 <= a0 * b0 + a1 * b1 + a2 * b2 + a3 * b3 + a4 * b4 <= A0 * B0 + A1 * B1 + A2 * B2 + A3 * B3 + A4 * B4.
Proof.
  intros H0 H1 H2 H3 H4 K0 K1 K2 K3 K4 Hs.
  pose proof (prod_bound _ _ _ _ H0 K0). pose proof (prod_bound _ _ _ _ H1 K1).
  pose proof (prod_bound _ _ _ _ H2 K2). pose proof (prod_bound _ _ _ _ H3 K3).
  pose proof (prod_bound _ _ _ _ H4 K4). unfold mul32x32_64.
  rewrite (u64_small (a0 * b0)), (u64_small (a1 * b1)), (u64_small (a2 * b2)), (u64_small (a3 * b3)),
    (u64_small (a4 * b4)), u64_small by lia. lia.
Qed.

Lemma poly_mul_spec r h :
  clamp_ok r -> sum_ok h ->
  acc_ok (poly_mul r h) /\ exists k, val (poly_mul r h) = val h * val r - P1305 * k.
Proof.
  destruct r as [r0 r1 r2 r3 r4], h as [h0 h1 h2 h3 h4]. unfold clamp_ok, sum_ok, poly_mul. cbn [l0 l1 l2 l3 l4].
  intros (R0 & R1 & R2 & R3 & R4) (H0 & H1 & H2 & H3 & H4).
  rewrite (u32_small (r1 * 5)), (u32_small (r2 * 5)), (u32_small (r3 * 5)), (u32_small (r4 * 5)) by lia.
  destruct (product_row h0 h1 h2 h3 h4 r0 (r4 * 5) (r3 * 5) (r2 * 5) (r1 * 5)
    (21 * 2^27 + 2^26) (2^27) (2^27) (2^27) (2^26 + 2^25) 0x3ffffff (0x00fffff * 5) (0x3f03fff * 5) (0x3ffc0ff * 5) (0x3ffff03 * 5)) as [-> T0]; [lia..|].
  destruct (product_row h0 h1 h2 h3 h4 r1 r0 (r4 * 5) (r3 * 5) (r2 * 5)
    (21 * 2^27 + 2^26) (2^27) (2^27) (2^27) (2^26 + 2^25) 0x3ffff03 0x3ffffff (0x00fffff * 5) (0x3f03fff * 5) (0x3ffc0ff * 5)) as [-> T1]; [lia..|].
  destruct (product_row h0 h1 h2 h3 h4 r2 r1 r0 (r4 * 5) (r3 * 5)
    (21 * 2^27 + 2^26) (2^27) (2^27) (2^27) (2^26 + 2^25) 0x3ffc0ff 0x3ffff03 0x3ffffff (0x00fffff * 5) (0x3f03fff * 5)) as [-> T2]; [lia..|].
  destruct (product_row h0 h1 h2 h3 h4 r3 r2 r1 r0 (r4 * 5)
    (21 * 2^27 + 2^26) (2^27) (2^27) (2^27) (2^26 + 2^25) 0x3f03fff 0x3ffc0ff 0x3ffff03 0x3ffffff (0x00fffff * 5)) as [-> T3]; [lia..|].
  destruct (product_row h0 h1 h2 h3 h4 r4 r3 r2 r1 r0
    (21 * 2^27 + 2^26) (2^27) (2^27) (2^27) (2^26 + 2^25) 0x00fffff 0x3f03fff 0x3ffc0ff 0x3ffff03 0x3ffffff) as [-> T4]; [lia..|].
  match goal with |- acc_ok (poly_reduce ?t0 ?t1 ?t2 ?t3 ?t4) /\ _ =>
    destruct (poly_reduce_spec t0 t1 t2 t3 t4) as [Ha [k Hk]];
      [clear - T0; lia|clear - T1; lia|clear - T2; lia|clear - T3; lia|clear - T4; lia|]
  end.
  split; [exact Ha|].
  exists (k + (h1 * r4 + h2 * r3 + h3 * r2 + h4 * r1) + 2^26 * (h2 * r4 + h3 * r3 + h4 * r2)
          + 2^52 * (h3 * r4 + h4 * r3) + 2^78 * (h4 * r4)).
  rewrite Hk. unfold val, P1305. cbn [l0 l1 l2 l3 l4]. ring.
Qed.

(** ** The blocks *)

Lemma mul_step r h a b :
  clamp_ok r -> sum_ok h -> val h = a + b ->
  acc_ok (poly_mul r h) /\ val (poly_mul r h) mod P1305 = (a mod P1305 + b) * val r mod P1305.
Proof.
  intros Hr Hh Hv. destruct (poly_mul_spec r h Hr Hh) as [Ha [k ->]]. split; [done|]. rewrite Hv.
  rewrite (Z.mul_mod (a mod P1305 + b)), Z.add_mod_idemp_l, <- Z.mul_mod by done.
  apply (mod_eq _ _ (- k)); [done|]. lia.
Qed.

Lemma le_num_zeros n : le_num (zrepeat n) = 0.
Proof. unfold zrepeat. induction (Z.to_nat n) as [|k IH]; [done|]. cbn. by rewrite IH. Qed.

Lemma zrepeat_bytes n : bytes_ok (zrepeat n).
Proof. apply Forall_replicate. unfold is_byte. lia. Qed.

Lemma poly_blocks_spec r fuel fuel' h m :
  clamp_ok r -> acc_ok h -> bytes_ok m -> zlen m < Z.of_nat fuel -> zlen m <= Z.of_nat fuel' ->
  acc_ok (poly_blocks fuel r h m) /\
  val (poly_blocks fuel r h m) mod P1305 = poly_eval fuel' (val r) (val h mod P1305) m.
Proof.
  intros Hr. revert fuel' h m. induction fuel as [|fuel IH]; intros fuel' h m Hh Hm Hl Hl'; [zlen_facts; lia|].
  cbn [poly_blocks]. pose proof (zlen_nonneg m). destruct fuel' as [|fuel'].
  { rewrite (zlen_0_nil m) by lia. done. }
  cbn [poly_eval]. destruct (Z.ltb_spec (zlen m) 16) as [Hs|Hs].
  - destruct (Z.eqb_spec (zlen m) 0) as [E|E]; [done|].
    set (p := m ++ [1] ++ zrepeat (15 - zlen m)).
    assert (zlen p = 16) as Hp by (unfold p; rewrite !zlen_app, zlen_zrepeat by lia; change (zlen [1]) with 1; lia).
    destruct (poly_add_spec p 0 h ltac:(lia)) as [Hsum Hval]; [|lia|done|].
    { apply Forall_app_2; [done|]. apply Forall_app_2; [by apply Forall_singleton|apply zrepeat_bytes]. }
    destruct (mul_step r _ (val h) (le_num p) Hr Hsum) as [Ha Hv].
    { rewrite Hval, ztake_ge by lia. lia. }
    split; [done|]. change (Z.shiftl 0 24) with 0 in Hv. rewrite Hv, ztake_ge by lia.
    rewrite zdrop_ge by lia. assert (le_num p = le_num (m ++ [1])) as ->.
    { unfold p. rewrite app_assoc, (le_num_app (m ++ [1])), le_num_zeros. lia. }
    by destruct fuel'.
  - rewrite (proj2 (Z.eqb_neq _ _)) by lia.
    destruct (poly_add_spec m 1 h ltac:(lia) Hm ltac:(lia) Hh) as [Hsum Hval].
    destruct (mul_step r _ (val h) (le_num (ztake 16 m ++ [1])) Hr Hsum) as [Ha Hv].
    { rewrite Hval, le_num_app, zlen_ztake by lia. cbn [le_num]. lia. }
    rewrite <- Hv. apply IH; [done|by apply Forall_zdrop|rewrite zlen_zdrop; lia..].
Qed.

(** ** The final reduction *)

Definition limbs_ok (h : limbs) : Prop :=
  0 <= l0 h < 2^26 /\ 0 <= l1 h < 2^26 /\ 0 <= l2 h < 2^26 /\ 0 <= l3 h < 2^26 /\ 0 <= l4 h < 2^26.

Lemma div26 a : a = 2^26 * (a / 2^26) + a mod 2^26 /\ 0 <= a mod 2^26 < 2^26.
Proof. split; [apply Z.div_mod; lia|apply Z.mod_pos_bound; lia]. Qed.

Lemma poly_carry_spec h :
  acc_ok h -> limbs_ok (poly_carry h) /\ exists k, val (poly_carry h) = val h - P1305 * k.
Proof.
  destruct h as [h0 h1 h2 h3 h4]. unfold acc_ok, poly_carry. cbn [l0 l1 l2 l3 l4]. intros (B0 & B1 & B2 & B3 & B4).
  rewrite !shr26, !land26.
  destruct (div26 h0) as [E0 ?]. set (b0 := h0 / 2^26) in *. rewrite (u32_small (h1 + b0)) by lia.
  destruct (div26 (h1 + b0)) as [E1 ?]. set (b1 := (h1 + b0) / 2^26) in *. rewrite (u32_small (h2 + b1)) by lia.
  destruct (div26 (h2 + b1)) as [E2 ?]. set (b2 := (h2 + b1) / 2^26) in *. rewrite (u32_small (h3 + b2)) by lia.
  destruct (div26 (h3 + b2)) as [E3 ?]. set (b3 := (h3 + b2) / 2^26) in *. rewrite (u32_small (h4 + b3)) by lia.
  destruct (div26 (h4 + b3)) as [E4 ?]. set (b4 := (h4 + b3) / 2^26) in *. rewrite (u32_small (b4 * 5)) by lia.
  rewrite (u32_small (h0 mod 2^26 + b4 * 5)) by lia. destruct (div26 (h0 mod 2^26 + b4 * 5)) as [E5 ?].
  set (b5 := (h0 mod 2^26 + b4 * 5) / 2^26) in *. rewrite u32_small by lia.
  split; [unfold limbs_ok; cbn [l0 l1 l2 l3 l4]; split_and!; lia|].
  exists b4. unfold val, P1305. cbn [l0 l1 l2 l3 l4]. lia.
Qed.

Lemma val_range h : limbs_ok h -> 0 <= val h < 2^130.
Proof. unfold limbs_ok, val. lia. Qed.

Lemma sel_mask x y b :
  0 <= x < 2^32 -> 0 <= y < 2^32 -> b = 0 \/ b = 2^32 - 1 ->
  Z.lor (Z.land x (u32 (Z.lnot b))) (Z.land y b) = if b =? 0 then x else y.
Proof.
  intros Hx Hy [-> | ->].
  - change (u32 (Z.lnot 0)) with (Z.ones 32). rewrite Z.land_0_r, Z.lor_0_r, Z.land_ones, Z.mod_small by lia. done.
  - change (u32 (Z.lnot (2^32 - 1))) with 0. change (2^32 - 1) with (Z.ones 32).
    rewrite Z.land_0_r, Z.lor_0_l, Z.land_ones, Z.mod_small by lia. done.
Qed.

(** The limbs of h + 5 - 2^130: the last is negative at 32 bits iff the number is. *)
Lemma poly_minus_p_spec h :
  limbs_ok h -> let g := poly_minus_p h in
  0 <= l0 g < 2^26 /\ 0 <= l1 g < 2^26 /\ 0 <= l2 g < 2^26 /\ 0 <= l3 g < 2^26 /\
  (P1305 <= val h -> 0 <= l4 g < 2^26 /\ val g = val h - P1305) /\ (val h < P1305 -> 2^31 <= l4 g < 2^32).
Proof.
  destruct h as [h0 h1 h2 h3 h4]. unfold limbs_ok, poly_minus_p, val, P1305. cbn [l0 l1 l2 l3 l4].
  intros (B0 & B1 & B2 & B3 & B4). rewrite !shr26, !land26. change (Z.shiftl 1 26) with (2^26).
  rewrite (u32_small (h0 + 5)) by lia.
  destruct (div26 (h0 + 5)) as [E0 ?]. set (b0 := (h0 + 5) / 2^26) in *. rewrite (u32_small (h1 + b0)) by lia.
  destruct (div26 (h1 + b0)) as [E1 ?]. set (b1 := (h1 + b0) / 2^26) in *. rewrite (u32_small (h2 + b1)) by lia.
  destruct (div26 (h2 + b1)) as [E2 ?]. set (b2 := (h2 + b1) / 2^26) in *. rewrite (u32_small (h3 + b2)) by lia.
  destruct (div26 (h3 + b2)) as [E3 ?]. set (b3 := (h3 + b2) / 2^26) in *.
  split_and!; try lia; intros Hv.
  - rewrite u32_small by lia. lia.
  - assert (u32 (h4 + b3 - 2^26) = h4 + b3 - 2^26 + 2^32) as ->; [|lia].
    unfold u32. symmetry. apply Z.mod_unique with (-1); lia.
Qed.

Lemma poly_select_spec h :
  limbs_ok h -> let s := poly_select h (poly_minus_p h) in limbs_ok s /\ val s = val h mod P1305.
Proof.
  intros Hh s. pose proof (val_range h Hh) as Hv. destruct (poly_minus_p_spec h Hh) as (G0 & G1 & G2 & G3 & Hp & Hn).
  unfold s, poly_select. pose proof Hh as (B0 & B1 & B2 & B3 & B4). set (g := poly_minus_p h) in *.
  assert (0 <= l4 g < 2^32) as G4 by lia.
  assert (u32 (Z.shiftr (l4 g) 31 - 1) = if val h <? P1305 then 0 else 2^32 - 1) as Hb.
  { rewrite Z.shiftr_div_pow2 by lia. destruct (Z.ltb_spec (val h) P1305) as [Hlt|Hge].
    - replace (l4 g / 2^31) with 1; [done|]. apply Z.div_unique with (l4 g - 2^31); lia.
    - rewrite Z.div_small by lia. done. }
  rewrite !sel_mask by (try lia; rewrite Hb; destruct (_ <? _); lia). rewrite Hb. clear Hb.
  destruct (Z.ltb_spec (val h) P1305) as [Hlt|Hge].
  - change (0 =? 0) with true. destruct h as [h0 h1 h2 h3 h4]. cbn [l0 l1 l2 l3 l4] in *.
    split; [done|]. symmetry. apply Z.mod_small. lia.
  - change (2^32 - 1 =? 0) with false. destruct (Hp Hge) as [G4' Hg]. destruct g as [g0 g1 g2 g3 g4]. cbn [l0 l1 l2 l3 l4] in *.
    split; [by unfold limbs_ok|]. rewrite Hg. apply Z.mod_unique with 1; [left; unfold P1305 in *; lia|lia].
Qed.

(** ** The tag *)

Lemma le_bytes_word n v : le_bytes (4 + n) v = U32TO8_LE v ++ le_bytes n (v / 2^32).
Proof.
  cbn [le_bytes Nat.add]. unfold U32TO8_LE, u8. rewrite !Z.shiftr_div_pow2 by lia. rewrite !Z.div_div by lia. done.
Qed.

Lemma u32to8_low a y : U32TO8_LE (a + y * 2^32) = U32TO8_LE a.
Proof.
  unfold U32TO8_LE, u8. rewrite !Z.shiftr_div_pow2 by lia. f_equal; [|f_equal; [|f_equal; [|f_equal]]].
  - apply (mod_eq _ _ (y * 2^24)); lia.
  - replace (a + y * 2^32) with (a + y * 2^24 * 2^8) by lia. rewrite Z.div_add by lia. apply (mod_eq _ _ (y * 2^16)); lia.
  - replace (a + y * 2^32) with (a + y * 2^16 * 2^16) by lia. rewrite Z.div_add by lia. apply (mod_eq _ _ (y * 2^8)); lia.
  - replace (a + y * 2^32) with (a + y * 2^8 * 2^24) by lia. rewrite Z.div_add by lia. apply (mod_eq _ _ y); lia.
Qed.

Lemma le_bytes_carry n f y : le_bytes (4 + n) (f + y * 2^32) = U32TO8_LE f ++ le_bytes n (y + f / 2^32).
Proof. rewrite le_bytes_word, u32to8_low, Z.div_add by lia. do 2 f_equal. lia. Qed.

(** The carries between the four words of the tag. *)
Lemma out_words f0 f1 f2 f3 q :
  let g1 := f1 + f0 / 2^32 in let g2 := f2 + g1 / 2^32 in let g3 := f3 + g2 / 2^32 in
  le_bytes 16 (f0 + 2^32 * f1 + 2^64 * f2 + 2^96 * f3 + 2^128 * q) =
  U32TO8_LE f0 ++ U32TO8_LE g1 ++ U32TO8_LE g2 ++ U32TO8_LE g3.
Proof.
  intros g1 g2 g3.
  replace (f0 + 2^32 * f1 + 2^64 * f2 + 2^96 * f3 + 2^128 * q)
    with (f0 + (f1 + (f2 + (f3 + q * 2^32) * 2^32) * 2^32) * 2^32) by lia.
  rewrite (le_bytes_carry 12). f_equal.
  replace (_ + f0 / 2^32) with (g1 + (f2 + (f3 + q * 2^32) * 2^32) * 2^32) by (unfold g1; lia).
  rewrite (le_bytes_carry 8). f_equal.
  replace (_ + g1 / 2^32) with (g2 + (f3 + q * 2^32) * 2^32) by (unfold g2; lia).
  rewrite (le_bytes_carry 4). f_equal.
  replace (_ + g2 / 2^32) with (g3 + q * 2^32) by (unfold g3; lia).
  rewrite (le_bytes_carry 0). apply app_nil_r.
Qed.

Lemma div_split a k : 0 < k -> a = 2^k * (a / 2^k) + a mod 2^k /\ 0 <= a mod 2^k < 2^k.
Proof. intros Hk. split; [apply Z.div_mod; lia|apply Z.mod_pos_bound; lia]. Qed.

Lemma poly_out_spec h key :
  limbs_ok h -> 32 <= zlen key -> bytes_ok key ->
  poly_out h key = le_bytes 16 (val h + le_num (slice 16 16 key)).
Proof.
  intros Hh Hl Hk. rewrite le_num_words by (done || lia).
  change (16 + 4) with 20. change (16 + 8) with 24. change (16 + 12) with 28.
  pose proof (u8to32_range key 16 Hk) as K0. pose proof (u8to32_range key 20 Hk) as K1.
  pose proof (u8to32_range key 24 Hk) as K2. pose proof (u8to32_range key 28 Hk) as K3. unfold poly_out.
  destruct h as [h0 h1 h2 h3 h4]. unfold limbs_ok in Hh. cbn [l0 l1 l2 l3 l4] in *.
  set (k0 := U8TO32_LE key 16) in *. set (k1 := U8TO32_LE key 20) in *. set (k2 := U8TO32_LE key 24) in *.
  set (k3 := U8TO32_LE key 28) in *. clearbody k0 k1 k2 k3.
  rewrite !u32_shiftl, !lor_shiftl_add, !Z.shiftr_div_pow2 by
    (try rewrite Z.shiftr_div_pow2 by lia; try split; try apply Z.div_pos; try apply Z.div_lt_upper_bound; lia).
  change (32 - 26) with 6. change (32 - 20) with 12. change (32 - 14) with 18. change (32 - 8) with 24.
  destruct (div_split h1 6 ltac:(lia)), (div_split h2 12 ltac:(lia)), (div_split h3 18 ltac:(lia)), (div_split h4 24 ltac:(lia)).
  set (w0 := h0 + h1 mod 2^6 * 2^26). set (w1 := h1 / 2^6 + h2 mod 2^12 * 2^20).
  set (w2 := h2 / 2^12 + h3 mod 2^18 * 2^14). set (w3 := h3 / 2^18 + h4 mod 2^24 * 2^8).
  assert (0 <= w0 < 2^32 /\ 0 <= w1 < 2^32 /\ 0 <= w2 < 2^32 /\ 0 <= w3 < 2^32) as (W0 & W1 & W2 & W3)
    by (unfold w0, w1, w2, w3; lia).
  replace (val _ + _) with ((w0 + k0) + 2^32 * (w1 + k1) + 2^64 * (w2 + k2) + 2^96 * (w3 + k3) + 2^128 * (h4 / 2^24))
    by (unfold val, w0, w1, w2, w3; cbn [l0 l1 l2 l3 l4]; lia).
  clearbody w0 w1 w2 w3. rewrite out_words.
  rewrite (u64_small (w0 + k0)), (u64_small (w1 + k1)), (u64_small (w2 + k2)), (u64_small (w3 + k3)) by lia.
  destruct (div_split (w0 + k0) 32 ltac:(lia)). rewrite (u64_small (w1 + k1 + _)) by lia.
  destruct (div_split (w1 + k1 + (w0 + k0) / 2^32) 32 ltac:(lia)). rewrite (u64_small (w2 + k2 + _)) by lia.
  destruct (div_split (w2 + k2 + (w1 + k1 + (w0 + k0) / 2^32) / 2^32) 32 ltac:(lia)).
  rewrite (u64_small (w3 + k3 + _)) by lia. done.
Qed.

Lemma poly1305_auth_spec m key :
  zlen key = 32 -> bytes_ok key -> bytes_ok m -> poly1305_auth m key = poly1305_spec m key.
Proof.
  intros Hl Hk Hm. unfold poly1305_auth, poly1305_spec.
  destruct (poly_blocks_spec (poly_clamp key) (S (length m)) (length m) (Limbs 0 0 0 0 0) m) as [Ha Hv];
    [apply poly_clamp_ok|by unfold acc_ok|done|unfold zlen; lia..|].
  destruct (poly_carry_spec _ Ha) as [Hc [k Hk']]. destruct (poly_select_spec _ Hc) as [Hs Hsv].
  rewrite poly_out_spec by (done || lia). rewrite Hsv, Hk', <- poly_clamp_val by (done || lia).
  do 2 f_equal. rewrite (mod_eq _ (val (poly_blocks (S (length m)) (poly_clamp key) (Limbs 0 0 0 0 0) m)) (- k)) by (done || lia).
  exact Hv.
Qed.

Lemma le_bytes_len n v : length (le_bytes n v) = n.
Proof. revert v. induction n as [|n IH]; intros v; [done|]. cbn. by rewrite IH. Qed.

Lemma le_bytes_ok n v : bytes_ok (le_bytes n v).
Proof.
  revert v. induction n as [|n IH]; intros v; [by constructor|].
  constructor; [apply (Z.mod_pos_bound v 256); lia|apply IH].
Qed.

(** C30: for every key of 32 bytes and message, the 32- and 64-bit limb
    arithmetic of [poly1305_auth] loses nothing: the tag is the little-endian
    form of ((c1 r^n + ... + cn r) mod 2^130 - 5) + s modulo 2^128, where the ci
    are the 16-byte chunks with a 1 appended, r is the first half of the key
    clamped and s the second half. *)
Theorem poly1305_auth_correct m key :
  zlen key = 32 -> bytes_ok key -> bytes_ok m -> poly1305_auth m key = poly1305_spec m key.
Proof. apply poly1305_auth_spec. Qed.

Lemma poly1305_auth_correct_witness :
  poly1305_auth (str "Cryptographic Forum Research Group") (str "0123456789abcdef0123456789abcdef") =
  poly1305_spec (str "Cryptographic Forum Research Group") (str "0123456789abcdef0123456789abcdef").
Proof.
  apply (poly1305_auth_correct (str "Cryptographic Forum Research Group") (str "0123456789abcdef0123456789abcdef"));
    [reflexivity|compute_dec..].
Defined.
