(* ===== verification/ChachaPoly.v ===== *)
(** The built-in chacha20-poly1305@openssh.com packet cipher
    (cipher-chachapoly.c), on top of ChaCha and Poly1305. *)

From Stdlib Require Import String.
From S2P Require Import Prelude Match Sshbuf SshbufGetPut AlgNames Digest ChaCha Poly1305.
Local Open Scope Z_scope.

Record chachapoly_ctx := mk_cp { main_ctx : list Z; header_ctx : list Z }.

Definition POLY1305_TAGLEN : Z := 16.
Definition POLY1305_KEYLEN : Z := 32.
Definition SIZEOF_CHACHAPOLY_CTX : Z := 128.

Section new.
Context `{Allocator}.

Definition chachapoly_new (key : list Z) (keylen : Z) : option chachapoly_ctx :=
  if negb (keylen =? 32 + 32) then None
  else if negb (malloc_ok SIZEOF_CHACHAPOLY_CTX) then None
  else Some (mk_cp (chacha_keysetup (zrepeat 16) key 256) (chacha_keysetup (zrepeat 16) (zdrop 32 key) 256)).
End new.

(** The block counter one, little-endian. *)
Definition one : list Z := [1; 0; 0; 0; 0; 0; 0; 0].

(** The bytes on the stack when ChaCha pads a last block, at the three calls of
    [chachapoly_crypt]. *)
Record stack := mk_stack { junk_key : list Z; junk_aad : list Z; junk_data : list Z }.

(** The error code (0 for success), the context and the destination. *)
Definition chachapoly_crypt (st : stack) (ctx : chachapoly_ctx) (seqnr : Z) (dest src : list Z) (len aadlen : Z)
    (do_encrypt : bool) : result unit * chachapoly_ctx * list Z :=
  let seqbuf := POKE_U64 seqnr in
  let '(poly_key, main) :=
    chacha_encrypt_bytes (junk_key st) (chacha_ivsetup (main_ctx ctx) seqbuf None) (zrepeat POLY1305_KEYLEN) in
  let ctx := mk_cp main (header_ctx ctx) in
  let tag_bad :=
    if do_encrypt then false
    else negb (timingsafe_bcmp (poly1305_auth (slice 0 (aadlen + len) src) poly_key)
                 (slice (aadlen + len) POLY1305_TAGLEN src) =? 0) in
  if tag_bad then (Err SSH_ERR_MAC_INVALID, ctx, dest)
  else
    let '(dest, ctx) :=
      if aadlen =? 0 then (dest, ctx)
      else
        let '(c, header) := chacha_encrypt_bytes (junk_aad st) (chacha_ivsetup (header_ctx ctx) seqbuf None)
                              (slice 0 aadlen src) in
        (mem_write dest 0 c, mk_cp (main_ctx ctx) header) in
    let '(c, main) := chacha_encrypt_bytes (junk_data st) (chacha_ivsetup (main_ctx ctx) seqbuf (Some one))
                        (slice aadlen len src) in
    let dest := mem_write dest aadlen c in
    let ctx := mk_cp main (header_ctx ctx) in
    let dest :=
      if do_encrypt then mem_write dest (aadlen + len) (poly1305_auth (slice 0 (aadlen + len) dest) poly_key)
      else dest in
    (Ok tt, ctx, dest).

Definition chachapoly_get_length (junk : list Z) (ctx : chachapoly_ctx) (seqnr : Z) (cp : list Z) (len : Z)
    : result Z * chachapoly_ctx :=
  if len <? 4 then (Err SSH_ERR_MESSAGE_INCOMPLETE, ctx)
  else
    let '(buf, header) := chacha_encrypt_bytes junk (chacha_ivsetup (header_ctx ctx) (POKE_U64 seqnr) None)
                            (slice 0 4 cp) in
    (Ok (PEEK_U32 buf), mk_cp (main_ctx ctx) header).

(** * The packet cipher as a function of the key and the sequence number *)

(** Two contexts with the same key words; the other four are set before use. *)
Definition keyed (x y : list Z) : Prop := zlen x = 16 /\ zlen y = 16 /\ ztake 12 x = ztake 12 y.

Definition main_key (key : list Z) : list Z := chacha_keysetup (zrepeat 16) key 256.
Definition header_key (key : list Z) : list Z := chacha_keysetup (zrepeat 16) (zdrop 32 key) 256.
Definition cp_keyed (key : list Z) (ctx : chachapoly_ctx) : Prop :=
  keyed (main_ctx ctx) (main_key key) /\ keyed (header_ctx ctx) (header_key key).

(** [m] under key words [k], packet [seqnr] and initial block counter [ctr]. *)
Definition cp_xor (k : list Z) (seqnr : Z) (ctr : option (list Z)) (m : list Z) : list Z :=
  xor_bytes m (keystream (nblocks (zlen m)) (chacha_ivsetup k (POKE_U64 seqnr) ctr)).

Definition cp_polykey (key : list Z) (seqnr : Z) : list Z := cp_xor (main_key key) seqnr None (zrepeat 32).
Definition cp_crypt (key : list Z) (seqnr aadlen : Z) (m : list Z) : list Z :=
  cp_xor (header_key key) seqnr None (ztake aadlen m) ++ cp_xor (main_key key) seqnr (Some one) (zdrop aadlen m).
Definition cp_tag (key : list Z) (seqnr : Z) (c : list Z) : list Z := poly1305_spec c (cp_polykey key seqnr).

Definition stack_ok (st : stack) : Prop :=
  (zlen (junk_key st) = 64 /\ bytes_ok (junk_key st)) /\ (zlen (junk_aad st) = 64 /\ bytes_ok (junk_aad st)) /\
  (zlen (junk_data st) = 64 /\ bytes_ok (junk_data st)).

(** ** ChaCha on contexts of a key *)

Lemma take12_zset x i v : 12 <= i -> zlen x = 16 -> ztake 12 (zset x i v) = ztake 12 x.
Proof.
  intros Hi Hx. apply znth_ext; [rewrite !zlen_ztake; rewrite ?zlen_zset; lia|].
  intros j Hj. rewrite zlen_ztake in Hj by (rewrite zlen_zset; lia).
  rewrite !znth_ztake, znth_zset_ne by lia. done.
Qed.

Lemma ivsetup_len x iv ctr : zlen (chacha_ivsetup x iv ctr) = zlen x.
Proof. unfold chacha_ivsetup. by rewrite !zlen_zset. Qed.

Lemma ivsetup_nth x iv ctr i :
  zlen x = 16 -> 12 <= i < 16 -> znth (chacha_ivsetup x iv ctr) i = znth (chacha_ivsetup (zrepeat 16) iv ctr) i.
Proof.
  intros Hx Hi. unfold chacha_ivsetup.
  assert (zlen (zrepeat 16) = 16) as Hz by done. assert (i = 12 \/ i = 13 \/ i = 14 \/ i = 15) as Hc by lia.
  assert (forall y a b c d, zlen y = 16 -> znth (zset (zset (zset (zset y 12 a) 13 b) 14 c) 15 d) i = znth [a; b; c; d] (i - 12)) as Hy.
  { intros y a b c d Hy. destruct Hc as [-> | [-> | [-> | ->]]];
      rewrite ?(znth_zset_ne _ 15), ?(znth_zset_ne _ 14), ?(znth_zset_ne _ 13) by lia;
      by rewrite znth_zset_eq by (rewrite ?zlen_zset; lia). }
  by rewrite !Hy.
Qed.

Lemma ivsetup_keyed x y iv ctr : keyed x y -> chacha_ivsetup x iv ctr = chacha_ivsetup y iv ctr.
Proof.
  intros (Hx & Hy & E). apply znth_ext; rewrite !ivsetup_len; [lia|]. intros i Hi. unfold chacha_ivsetup.
  destruct (decide (i < 12)) as [Hl|Hg].
  - rewrite !znth_zset_ne by lia. rewrite <- (znth_ztake x 12), <- (znth_ztake y 12) by lia. by rewrite E.
  - change (znth (chacha_ivsetup x iv ctr) i = znth (chacha_ivsetup y iv ctr) i).
    rewrite (ivsetup_nth x), (ivsetup_nth y) by lia. done.
Qed.

Lemma keyed_ivsetup x y iv ctr : keyed x y -> keyed (chacha_ivsetup x iv ctr) y.
Proof.
  intros (Hx & Hy & E). split; [by rewrite ivsetup_len|]. split; [done|]. unfold chacha_ivsetup.
  by rewrite !take12_zset by (rewrite ?zlen_zset; lia).
Qed.

Lemma keyed_encrypt junk x y m : keyed x y -> keyed (snd (chacha_encrypt_bytes junk x m)) y.
Proof.
  intros (Hx & Hy & E). unfold chacha_encrypt_bytes. destruct (_ =? 0); [done|]. destruct (encrypt_loop _ _ _ _) as [c j].
  cbn [snd]. split; [by rewrite !zlen_zset|]. split; [done|]. by rewrite !take12_zset by (rewrite ?zlen_zset; lia).
Qed.

Lemma keystream_enough (m : list Z) x : zlen x = 16 -> zlen m <= zlen (keystream (nblocks (zlen m)) x).
Proof. intros Hx. rewrite keystream_len by done. apply nblocks_enough. zlen_facts. lia. Qed.

Lemma cp_xor_len k seqnr ctr m : zlen k = 16 -> zlen (cp_xor k seqnr ctr m) = zlen m.
Proof. intros Hk. apply xor_bytes_len, keystream_enough. by rewrite ivsetup_len. Qed.

Lemma cp_xor_bytes k seqnr ctr m : bytes_ok m -> bytes_ok (cp_xor k seqnr ctr m).
Proof. intros Hm. apply bytes_ok_xor; [done|apply keystream_bytes]. Qed.

Lemma cp_xor_twice k seqnr ctr m : zlen k = 16 -> cp_xor k seqnr ctr (cp_xor k seqnr ctr m) = m.
Proof.
  intros Hk. unfold cp_xor at 1. rewrite cp_xor_len by done. apply xor_bytes_twice, keystream_enough.
  by rewrite ivsetup_len.
Qed.

(** One call of ChaCha with the context of a key. *)
Lemma encrypt_keyed junk x k seqnr ctr m :
  keyed x k -> zlen junk = 64 -> bytes_ok junk -> bytes_ok m ->
  exists x', chacha_encrypt_bytes junk (chacha_ivsetup x (POKE_U64 seqnr) ctr) m = (cp_xor k seqnr ctr m, x') /\ keyed x' k.
Proof.
  intros Hx Hj Hjb Hm. pose proof (keyed_ivsetup x k (POKE_U64 seqnr) ctr Hx) as Hi.
  pose proof (keyed_encrypt junk _ k m Hi) as Hs. pose proof (encrypt_stream junk _ m (proj1 Hi) Hj Hjb Hm) as Hf.
  destruct (chacha_encrypt_bytes _ _ _) as [c x']. cbn [fst snd] in *. exists x'. split; [|done].
  rewrite Hf. unfold cp_xor. by rewrite (ivsetup_keyed x k).
Qed.

Lemma cp_keyed_trans key key0 x y : cp_keyed key x -> cp_keyed key0 x -> cp_keyed key0 y -> cp_keyed key y.
Proof.
  intros [(A1 & A2 & A3) (B1 & B2 & B3)] [(C1 & C2 & C3) (D1 & D2 & D3)] [(E1 & E2 & E3) (F1 & F2 & F3)].
  split; (split; [done|split; [done|congruence]]).
Qed.

Lemma keyed_len x k : keyed x k -> zlen k = 16.
Proof. by intros (_ & ? & _). Qed.

Lemma main_key_len key : zlen (main_key key) = 16.
Proof. done. Qed.

Lemma header_key_len key : zlen (header_key key) = 16.
Proof. done. Qed.
#[local] Hint Resolve main_key_len header_key_len : core.

Lemma chachapoly_new_keyed `{Allocator} key n ctx : chachapoly_new key n = Some ctx -> cp_keyed key ctx.
Proof.
  unfold chachapoly_new. destruct (_ =? _); [|done]. cbn. destruct (malloc_ok _); [|done].
  intros [= <-]. split; by split; [|split].
Qed.

Local Opaque main_key header_key.

Lemma cp_crypt_len key seqnr aadlen m : zlen (cp_crypt key seqnr aadlen m) = zlen m.
Proof.
  unfold cp_crypt. rewrite zlen_app, !cp_xor_len by done. rewrite <- zlen_app. by rewrite ztake_zdrop.
Qed.

Lemma cp_crypt_bytes key seqnr aadlen m : bytes_ok m -> bytes_ok (cp_crypt key seqnr aadlen m).
Proof. intros Hm. apply Forall_app_2; apply cp_xor_bytes; [by apply Forall_ztake|by apply Forall_zdrop]. Qed.

Lemma cp_crypt_twice key seqnr aadlen m :
  0 <= aadlen <= zlen m -> cp_crypt key seqnr aadlen (cp_crypt key seqnr aadlen m) = m.
Proof.
  intros Ha. set (c := cp_xor (header_key key) seqnr None (ztake aadlen m)).
  assert (zlen c = aadlen) as Hc by (unfold c; rewrite cp_xor_len, zlen_ztake by (done || lia); done).
  unfold cp_crypt at 2. fold c. unfold cp_crypt. rewrite ztake_app_exact, zdrop_app_exact by done.
  unfold c. rewrite !cp_xor_twice by done. apply ztake_zdrop.
Qed.

Local Opaque cp_xor chacha_encrypt_bytes chacha_ivsetup.

Lemma cp_polykey_ok key seqnr : zlen (cp_polykey key seqnr) = 32 /\ bytes_ok (cp_polykey key seqnr).
Proof. split; [unfold cp_polykey; by rewrite cp_xor_len|apply cp_xor_bytes, zrepeat_bytes]. Qed.

Lemma polykey_step st key ctx seqnr :
  stack_ok st -> cp_keyed key ctx ->
  exists m1, chacha_encrypt_bytes (junk_key st) (chacha_ivsetup (main_ctx ctx) (POKE_U64 seqnr) None) (zrepeat POLY1305_KEYLEN) =
    (cp_polykey key seqnr, m1) /\ keyed m1 (main_key key).
Proof.
  intros Hst [Hm _].
  exact (encrypt_keyed (junk_key st) (main_ctx ctx) (main_key key) seqnr None (zrepeat 32) Hm
    (proj1 (proj1 Hst)) (proj2 (proj1 Hst)) (zrepeat_bytes 32)).
Qed.

Lemma auth_tag key seqnr m : bytes_ok m -> poly1305_auth m (cp_polykey key seqnr) = cp_tag key seqnr m.
Proof. intros Hm. destruct (cp_polykey_ok key seqnr). by apply poly1305_auth_spec. Qed.

Lemma cp_tag_ok key seqnr m : zlen (cp_tag key seqnr m) = 16 /\ bytes_ok (cp_tag key seqnr m).
Proof. split; [unfold zlen, cp_tag, poly1305_spec; by rewrite le_bytes_len|apply le_bytes_ok]. Qed.

Lemma slice_0 n (l : list Z) : 0 <= n -> slice 0 n l = ztake n l.
Proof. intros Hn. by rewrite slice_ztake, zdrop_0 by lia. Qed.

(** The second half of [chachapoly_crypt], after the check of the tag. *)
Lemma crypt_body st key main header seqnr dest src len aadlen :
  stack_ok st -> keyed main (main_key key) -> keyed header (header_key key) -> bytes_ok src -> 0 <= aadlen -> 0 <= len ->
  aadlen + len <= zlen src -> aadlen + len <= zlen dest ->
  exists main' header', keyed main' (main_key key) /\ keyed header' (header_key key) /\
  (let '(dest, ctx) :=
     if aadlen =? 0 then (dest, mk_cp main header)
     else
       let '(c, h) := chacha_encrypt_bytes (junk_aad st) (chacha_ivsetup header (POKE_U64 seqnr) None) (slice 0 aadlen src) in
       (mem_write dest 0 c, mk_cp main h) in
   let '(c, m) := chacha_encrypt_bytes (junk_data st) (chacha_ivsetup (main_ctx ctx) (POKE_U64 seqnr) (Some one))
                    (slice aadlen len src) in
   (mem_write dest aadlen c, mk_cp m (header_ctx ctx))) =
  (cp_crypt key seqnr aadlen (ztake (aadlen + len) src) ++ zdrop (aadlen + len) dest, mk_cp main' header').
Proof.
  intros (_ & (Ha & Hab) & Hd & Hdb) Hm Hh Hs H0 Hl Hsrc Hdst. unfold cp_crypt.
  rewrite (ztake_ztake (aadlen + len) aadlen) by lia. rewrite <- slice_ztake by lia.
  destruct (encrypt_keyed (junk_data st) main _ seqnr (Some one) (slice aadlen len src) Hm Hd Hdb) as (m' & Em & Hm');
    [by apply Forall_slice|].
  set (c2 := cp_xor (main_key key) seqnr (Some one) (slice aadlen len src)) in *.
  assert (zlen c2 = len) as Hc2 by (unfold c2; rewrite cp_xor_len, zlen_slice by (done || lia); done).
  destruct (Z.eqb_spec aadlen 0) as [->|Hne].
  - exists m', header. split; [done|]. split; [done|]. cbn [main_ctx header_ctx]. rewrite Em, mem_write_front, Hc2.
    by rewrite ztake_0.
  - rewrite slice_0 by lia.
    destruct (encrypt_keyed (junk_aad st) header _ seqnr None (ztake aadlen src) Hh Ha Hab) as (h' & Eh & Hh');
      [by apply Forall_ztake|].
    exists m', h'. split; [done|]. split; [done|]. rewrite Eh. cbn [main_ctx header_ctx]. rewrite Em. f_equal.
    set (c1 := cp_xor (header_key key) seqnr None (ztake aadlen src)).
    assert (zlen c1 = aadlen) as Hc1 by (unfold c1; rewrite cp_xor_len, zlen_ztake by (done || lia); done).
    rewrite mem_write_front, Hc1. rewrite <- Hc1 at 2. rewrite mem_write_after, mem_write_front, Hc2.
    rewrite zdrop_zdrop by lia. by rewrite app_assoc.
Qed.

Lemma encrypt_spec st key ctx seqnr dest src len aadlen :
  stack_ok st -> cp_keyed key ctx -> bytes_ok src -> 0 <= aadlen -> 0 <= len ->
  aadlen + len <= zlen src -> aadlen + len + 16 <= zlen dest ->
  exists ctx', cp_keyed key ctx' /\
  let c := cp_crypt key seqnr aadlen (ztake (aadlen + len) src) in
  chachapoly_crypt st ctx seqnr dest src len aadlen true =
    (Ok tt, ctx', c ++ cp_tag key seqnr c ++ zdrop (aadlen + len + 16) dest).
Proof.
  intros Hst [Hm Hh] Hs H0 Hl Hsrc Hdst. unfold chachapoly_crypt.
  destruct (polykey_step st key ctx seqnr Hst (conj Hm Hh)) as (m1 & -> & Hm1). cbn [header_ctx main_ctx].
  destruct (crypt_body st key m1 (header_ctx ctx) seqnr dest src len aadlen Hst Hm1 Hh Hs H0 Hl Hsrc ltac:(lia))
    as (m' & h' & Hm' & Hh' & E).
  exists (mk_cp m' h'). split; [done|]. cbv zeta.
  set (c := cp_crypt key seqnr aadlen (ztake (aadlen + len) src)) in *.
  assert (zlen c = aadlen + len) as Hc by (unfold c; rewrite cp_crypt_len, zlen_ztake; lia).
  destruct (if aadlen =? 0 then _ else _) as [d1 ctx1]. destruct (chacha_encrypt_bytes (junk_data st) _ _) as [c1 m2].
  injection E as Ed Em Eh. rewrite Ed, Em, Eh. f_equal.
  rewrite slice_0, ztake_app_exact by (done || lia).
  rewrite auth_tag by (apply cp_crypt_bytes; by apply Forall_ztake). rewrite <- Hc.
  rewrite mem_write_after, mem_write_front. destruct (cp_tag_ok key seqnr c) as [Ht _]. rewrite Ht, Hc.
  by rewrite zdrop_zdrop by lia.
Qed.

Lemma decrypt_spec st key ctx seqnr dest src len aadlen :
  stack_ok st -> cp_keyed key ctx -> bytes_ok src -> 0 <= aadlen -> 0 <= len ->
  aadlen + len + 16 <= zlen src -> aadlen + len <= zlen dest ->
  exists ctx', cp_keyed key ctx' /\
  let m := ztake (aadlen + len) src in
  chachapoly_crypt st ctx seqnr dest src len aadlen false =
    if bool_decide (slice (aadlen + len) 16 src = cp_tag key seqnr m)
    then (Ok tt, ctx', cp_crypt key seqnr aadlen m ++ zdrop (aadlen + len) dest)
    else (Err SSH_ERR_MAC_INVALID, ctx', dest).
Proof.
  intros Hst [Hm Hh] Hs H0 Hl Hsrc Hdst. unfold chachapoly_crypt.
  destruct (polykey_step st key ctx seqnr Hst (conj Hm Hh)) as (m1 & -> & Hm1). change POLY1305_TAGLEN with 16. cbn [header_ctx main_ctx].
  rewrite slice_0, auth_tag by (lia || by apply Forall_ztake). set (m := ztake (aadlen + len) src).
  destruct (cp_tag_ok key seqnr m) as [Ht Htb].
  pose proof (timingsafe_bcmp_eq (cp_tag key seqnr m) (slice (aadlen + len) 16 src)) as Hcmp.
  rewrite zlen_slice in Hcmp by lia. specialize (Hcmp Ht Htb ltac:(by apply Forall_slice)). cbv zeta.
  destruct (Z.eqb_spec (timingsafe_bcmp (cp_tag key seqnr m) (slice (aadlen + len) 16 src)) 0) as [E0|E0]; cbn [negb].
  - rewrite bool_decide_eq_true_2 by (symmetry; by apply Hcmp).
    destruct (crypt_body st key m1 (header_ctx ctx) seqnr dest src len aadlen Hst Hm1 Hh Hs H0 Hl ltac:(lia) Hdst)
      as (m' & h' & Hm' & Hh' & E).
    exists (mk_cp m' h'). split; [done|].
    destruct (if aadlen =? 0 then _ else _) as [d1 ctx1]. destruct (chacha_encrypt_bytes (junk_data st) _ _) as [c1 m2].
    injection E as Ed Em Eh. by rewrite Ed, Em, Eh.
  - rewrite bool_decide_eq_false_2 by (intros Ex; apply E0, Hcmp; done). by exists (mk_cp m1 (header_ctx ctx)).
Qed.

Lemma get_length_spec junk key ctx seqnr cp len :
  zlen junk = 64 -> bytes_ok junk -> cp_keyed key ctx -> bytes_ok cp -> 4 <= len ->
  exists ctx', cp_keyed key ctx' /\
    chachapoly_get_length junk ctx seqnr cp len = (Ok (PEEK_U32 (cp_xor (header_key key) seqnr None (ztake 4 cp))), ctx').
Proof.
  intros Hj Hjb [Hm Hh] Hc Hl. unfold chachapoly_get_length. rewrite (proj2 (Z.ltb_ge len 4)) by lia.
  rewrite slice_0 by lia.
  destruct (encrypt_keyed junk (header_ctx ctx) _ seqnr None (ztake 4 cp) Hh Hj Hjb) as (h' & -> & Hh'); [by apply Forall_ztake|].
  by exists (mk_cp (main_ctx ctx) h').
Qed.

Lemma peek32_take m : 4 <= zlen m -> PEEK_U32 (ztake 4 m) = PEEK_U32 m.
Proof.
  intros Hm. rewrite <- (ztake_zdrop 4 m) at 2. rewrite <- (app_nil_r (ztake 4 m)) at 1.
  by rewrite !PEEK_U32_le by (rewrite zlen_ztake; lia).
Qed.

(** C29: a packet of a 4-byte length and [len] bytes that one side encrypts
    under a key and sequence number is 16 bytes longer; the other side, whatever
    it has processed with its context before, reads the packet length from the
    first four bytes, and its decryption succeeds and gives the packet back.
    Any bytes whose last sixteen are not the Poly1305 tag of the rest under the
    packet's key are refused with [SSH_ERR_MAC_INVALID] and nothing is
    written. *)
Theorem chachapoly_packet st st' junk key sctx rctx seqnr dest src len :
  stack_ok st -> stack_ok st' -> zlen junk = 64 -> bytes_ok junk -> cp_keyed key sctx -> cp_keyed key rctx ->
  bytes_ok src -> 0 <= len -> 4 + len <= zlen src -> 4 + len + 16 <= zlen dest ->
  exists sctx' wire, cp_keyed key sctx' /\ zlen wire = 4 + len + 16 /\
    chachapoly_crypt st sctx seqnr dest src len 4 true = (Ok tt, sctx', wire ++ zdrop (4 + len + 16) dest) /\
    fst (chachapoly_get_length junk rctx seqnr wire (zlen wire)) = Ok (PEEK_U32 src) /\
    (forall dest', 4 + len <= zlen dest' -> exists rctx', cp_keyed key rctx' /\
       chachapoly_crypt st' rctx seqnr dest' wire len 4 false = (Ok tt, rctx', ztake (4 + len) src ++ zdrop (4 + len) dest')) /\
    (forall dest' wire', 4 + len <= zlen dest' -> bytes_ok wire' -> zlen wire' = 4 + len + 16 ->
       slice (4 + len) 16 wire' <> cp_tag key seqnr (ztake (4 + len) wire') ->
       exists rctx', cp_keyed key rctx' /\
         chachapoly_crypt st' rctx seqnr dest' wire' len 4 false = (Err SSH_ERR_MAC_INVALID, rctx', dest')).
Proof.
  intros Hst Hst' Hj Hjb Hs Hr Hsrc Hl Hls Hld.
  destruct (encrypt_spec st key sctx seqnr dest src len 4 Hst Hs Hsrc ltac:(lia) Hl Hls Hld) as (sctx' & Hs' & E).
  set (m := ztake (4 + len) src) in *. assert (zlen m = 4 + len) as Hm by (apply zlen_ztake; zlen_facts; lia).
  assert (bytes_ok m) as Hmb by by apply Forall_ztake. pose proof (cp_crypt_bytes key seqnr 4 m Hmb) as Hcb.
  pose proof (cp_crypt_len key seqnr 4 m) as Hc. pose proof (cp_crypt_twice key seqnr 4 m ltac:(lia)) as Htw.
  set (c := cp_crypt key seqnr 4 m) in *. destruct (cp_tag_ok key seqnr c) as [Ht Htb].
  exists sctx', (c ++ cp_tag key seqnr c). split; [done|]. split; [rewrite zlen_app; lia|].
  split; [by rewrite E, <- app_assoc|].
  assert (bytes_ok (c ++ cp_tag key seqnr c)) as Hwb by by apply Forall_app_2.
  split; [|split].
  - destruct (get_length_spec junk key rctx seqnr (c ++ cp_tag key seqnr c) (zlen (c ++ cp_tag key seqnr c)) Hj Hjb Hr Hwb)
      as (r' & _ & ->); [rewrite zlen_app; lia|]. cbn [fst]. f_equal. rewrite ztake_app_le by lia.
    assert (ztake 4 c = cp_xor (header_key key) seqnr None (ztake 4 m)) as ->
      by (apply ztake_app_exact; rewrite cp_xor_len, zlen_ztake by (done || lia); done).
    rewrite cp_xor_twice by done. unfold m. rewrite ztake_ztake by lia. apply peek32_take. lia.
  - intros dest' Hd'.
    destruct (decrypt_spec st' key rctx seqnr dest' (c ++ cp_tag key seqnr c) len 4 Hst' Hr Hwb ltac:(lia) Hl) as (r' & Hr' & Ed);
      [rewrite zlen_app; lia|done|].
    exists r'. split; [done|]. rewrite Ed. cbv zeta. rewrite ztake_app_exact by lia.
    rewrite slice_ztake, ztake_ge, zdrop_app_exact by (rewrite ?zlen_app; lia).
    rewrite bool_decide_eq_true_2 by done. by rewrite Htw.
  - intros dest' wire' Hd' Hwb' Hwl Hbad.
    destruct (decrypt_spec st' key rctx seqnr dest' wire' len 4 Hst' Hr Hwb' ltac:(lia) Hl ltac:(lia) Hd') as (r' & Hr' & Ed).
    exists r'. split; [done|]. rewrite Ed. by rewrite bool_decide_eq_false_2.
Qed.

Definition demo_key : list Z := str "0123456789abcdef0123456789abcdef0123456789ABCDEF0123456789ABCDEF".
Definition demo_cp : chachapoly_ctx := mk_cp (main_key demo_key) (header_key demo_key).
Definition demo_stack : stack := mk_stack (zrepeat 64) (zrepeat 64) (zrepeat 64).
Definition demo_packet : list Z := [0; 0; 0; 8] ++ str "ABCDEFGH".

Lemma chachapoly_packet_witness :
  exists sctx' wire, cp_keyed demo_key sctx' /\ zlen wire = 4 + 8 + 16 /\
    chachapoly_crypt demo_stack demo_cp 3 (zrepeat 40) demo_packet 8 4 true = (Ok tt, sctx', wire ++ zdrop 28 (zrepeat 40)) /\
    fst (chachapoly_get_length (zrepeat 64) demo_cp 3 wire (zlen wire)) = Ok 8.
Proof.
  destruct (chachapoly_packet demo_stack demo_stack (zrepeat 64) demo_key demo_cp demo_cp 3 (zrepeat 40) demo_packet 8)
    as (s' & w & Hs & Hl & E & G & _).
  1, 2: split; [|split]; (split; [reflexivity|compute_dec]).
  1: reflexivity.
  1: compute_dec.
  1, 2: split; (split; [reflexivity|split; reflexivity]).
  1: compute_dec.
  1: lia.
  1, 2: vm_compute; discriminate.
  exists s', w. split; [exact Hs|]. split; [exact Hl|]. split; [exact E|]. exact G.
Defined.
