(* ===== verification/Cipher.v ===== *)
(** Packet ciphers (cipher.c): set-up, encryption and decryption of a packet
    and the packet length, over OpenSSL's EVP interface (a parameter), the
    built-in chacha20-poly1305 and the cipher "none". *)

From Stdlib Require Import String.
From S2P Require Import Prelude Match Sshbuf SshbufGetPut AlgNames Digest ChaCha Poly1305 ChachaPoly.
Local Open Scope Z_scope.

(** * OpenSSL *)

(** The calls of cipher.c on an EVP cipher context; [None] is a failed call. *)
Class EvpCipher := {
  evp : Type;
  evp_init : sshcipher -> option (list Z) -> bool -> option evp;    (* EVP_CipherInit: type, iv, direction *)
  evp_set_iv_fixed : option (list Z) -> evp -> option evp;          (* EVP_CTRL_GCM_SET_IV_FIXED *)
  evp_key_length : evp -> Z;                                       (* EVP_CIPHER_CTX_key_length *)
  evp_set_key_length : Z -> evp -> option evp;                      (* EVP_CIPHER_CTX_set_key_length *)
  evp_set_key : option (list Z) -> evp -> option evp;               (* EVP_CipherInit: key *)
  evp_iv_gen : evp -> option evp;                                  (* EVP_CTRL_GCM_IV_GEN *)
  evp_set_tag : list Z -> evp -> option evp;                        (* EVP_CTRL_GCM_SET_TAG *)
  evp_aad : list Z -> evp -> option evp;                            (* EVP_Cipher without output *)
  evp_cipher : list Z -> evp -> option (list Z * evp);               (* EVP_Cipher *)
  evp_final : evp -> option evp;                                   (* EVP_Cipher without input *)
  evp_get_tag : Z -> evp -> option (list Z)                         (* EVP_CTRL_GCM_GET_TAG *)
}.

(** Memory that has not been written: its bytes. *)
Class Uninit := { uninit : Z -> list Z }.
Class UninitLaws (U : Uninit) : Prop := {
  uninit_len : forall n, 0 <= n -> zlen (uninit n) = n;
  uninit_bytes : forall n, bytes_ok (uninit n)
}.

Definition or_crypto_error {A} (o : option A) : result A :=
  match o with Some a => Ok a | None => Err SSH_ERR_LIBCRYPTO_ERROR end.

(** The calls that set up a new EVP context. *)
Definition evp_setup `{EvpCipher} (cipher : sshcipher) (key : option (list Z)) (keylen : Z) (iv : option (list Z))
    (do_encrypt : bool) : result evp :=
  e ← or_crypto_error (evp_init cipher iv do_encrypt);
  e ← (if negb (cipher_authlen cipher =? 0) then or_crypto_error (evp_set_iv_fixed iv e) else Ok e);
  let klen := evp_key_length e in
  e ← (if (klen >? 0) && negb (keylen =? u32 klen) then or_crypto_error (evp_set_key_length keylen e) else Ok e);
  or_crypto_error (evp_set_key key e).

(** What OpenSSL documents of CBC, CTR and GCM contexts.  [evp_pair c e d]: the
    decryption context [d] is in step with the encryption context [e]. *)
Class EvpCipherLaws (E : EvpCipher) := {
  evp_pair : sshcipher -> evp -> evp -> Prop;
  (** Contexts set up with the same key and IV are in step. *)
  evp_open : forall c key iv,
    c ∈ ciphers -> c_flag CFLAG_CHACHAPOLY c = false -> c_flag CFLAG_NONE c = false ->
    c_key_len c <= zlen key -> cipher_ivlen c <= zlen iv ->
    exists e d, evp_setup c (Some key) (c_key_len c) (Some iv) true = Ok e /\
      evp_setup c (Some key) (c_key_len c) (Some iv) false = Ok d /\ evp_pair c e d;
  (** Whole blocks are encrypted to as many bytes, which the other side decrypts. *)
  evp_blocks : forall c e d m,
    evp_pair c e d -> c_auth_len c = 0 -> zlen m mod c_block_size c = 0 -> bytes_ok m ->
    exists x e' d', evp_cipher m e = Some (x, e') /\ zlen x = zlen m /\ bytes_ok x /\
      evp_cipher x d = Some (m, d') /\ evp_pair c e' d';
  (** Encrypting in two calls is encrypting in one. *)
  evp_blocks_app : forall c e d m1 m2 x1 x2 e1 e2,
    evp_pair c e d -> c_auth_len c = 0 -> zlen m1 mod c_block_size c = 0 -> zlen m2 mod c_block_size c = 0 ->
    evp_cipher m1 e = Some (x1, e1) -> evp_cipher m2 e1 = Some (x2, e2) -> evp_cipher (m1 ++ m2) e = Some (x1 ++ x2, e2);
  (** A GCM packet: next IV, additional data, data, tag. *)
  evp_gcm : forall c e d a m,
    evp_pair c e d -> c_auth_len c <> 0 -> zlen m mod c_block_size c = 0 -> bytes_ok m ->
    exists e1 e2 x e3 e4 t d1 d2 d3 d4 d5,
      evp_iv_gen e = Some e1 /\ evp_aad a e1 = Some e2 /\ evp_cipher m e2 = Some (x, e3) /\ evp_final e3 = Some e4 /\
      evp_get_tag (c_auth_len c) e4 = Some t /\ zlen x = zlen m /\ bytes_ok x /\ zlen t = c_auth_len c /\ bytes_ok t /\
      evp_iv_gen d = Some d1 /\ evp_set_tag t d1 = Some d2 /\ evp_aad a d2 = Some d3 /\ evp_cipher x d3 = Some (m, d4) /\
      evp_final d4 = Some d5 /\ evp_pair c e4 d5
}.

Section cipher.
Context `{Allocator} `{EvpCipher} `{Uninit}.

Record sshcipher_ctx := mk_ctx {
  cc_plaintext : bool; cc_encrypt : bool; cc_evp : option evp; cc_cp : option chachapoly_ctx; cc_cipher : sshcipher
}.

Definition SIZEOF_SSHCIPHER_CTX : Z := 48.
Definition SIZEOF_EVP_CIPHER_CTX : Z := 168.

Definition set_evp (e : evp) (cc : sshcipher_ctx) : sshcipher_ctx :=
  mk_ctx (cc_plaintext cc) (cc_encrypt cc) (Some e) (cc_cp cc) (cc_cipher cc).
Definition set_cp (c : chachapoly_ctx) (cc : sshcipher_ctx) : sshcipher_ctx :=
  mk_ctx (cc_plaintext cc) (cc_encrypt cc) (cc_evp cc) (Some c) (cc_cipher cc).

Definition cipher_init (cipher : sshcipher) (key : option (list Z)) (keylen : Z) (iv : option (list Z)) (ivlen : Z)
    (do_encrypt : bool) : result sshcipher_ctx :=
  if negb (malloc_ok SIZEOF_SSHCIPHER_CTX) then Err SSH_ERR_ALLOC_FAIL
  else
    let cc := mk_ctx (c_flag CFLAG_NONE cipher) do_encrypt None None cipher in
    if (keylen <? c_key_len cipher) || (match iv with Some _ => ivlen <? cipher_ivlen cipher | None => false end)
    then Err SSH_ERR_INVALID_ARGUMENT
    else if c_flag CFLAG_CHACHAPOLY cipher then
      match chachapoly_new (default [] key) keylen with
      | Some cp => Ok (set_cp cp cc)
      | None => Err SSH_ERR_ALLOC_FAIL
      end
    else if c_flag CFLAG_NONE cipher then Ok cc
    else if negb (malloc_ok SIZEOF_EVP_CIPHER_CTX) then Err SSH_ERR_ALLOC_FAIL
    else e ← evp_setup cipher key keylen iv do_encrypt; Ok (set_evp e cc).

Definition cipher_ctx_is_plaintext (cc : sshcipher_ctx) : bool := cc_plaintext cc.

(** The three calls of ChaCha in [chachapoly_crypt] work on unwritten memory. *)
Definition fresh_stack : stack := mk_stack (uninit 64) (uninit 64) (uninit 64).

(** The part of [cipher_crypt] for EVP ciphers: the new context, and the
    destination when it was written. *)
Definition evp_crypt (cc : sshcipher_ctx) (e : evp) (dest src : list Z) (len aadlen authlen : Z)
    : result unit * evp * list Z :=
  let prepared : result evp :=
    if authlen =? 0 then Ok e
    else if negb (authlen =? cipher_authlen (cc_cipher cc)) then Err SSH_ERR_INVALID_ARGUMENT
    else
      e ← or_crypto_error (evp_iv_gen e);
      if cc_encrypt cc then Ok e else or_crypto_error (evp_set_tag (slice (aadlen + len) authlen src) e) in
  match prepared with
  | Err r => (Err r, e, dest)
  | Ok e =>
      match (if negb (aadlen =? 0) && negb (authlen =? 0) then or_crypto_error (evp_aad (slice 0 aadlen src) e) else Ok e) with
      | Err r => (Err r, e, dest)
      | Ok e =>
          let dest := if aadlen =? 0 then dest else mem_write dest 0 (slice 0 aadlen src) in
          if negb (len mod c_block_size (cc_cipher cc) =? 0) then (Err SSH_ERR_INVALID_ARGUMENT, e, dest)
          else
            match evp_cipher (slice aadlen len src) e with
            | None => (Err SSH_ERR_LIBCRYPTO_ERROR, e, dest)
            | Some (x, e) =>
                let dest := mem_write dest aadlen x in
                if authlen =? 0 then (Ok tt, e, dest)
                else
                  match evp_final e with
                  | None => (Err (if cc_encrypt cc then SSH_ERR_LIBCRYPTO_ERROR else SSH_ERR_MAC_INVALID), e, dest)
                  | Some e =>
                      if cc_encrypt cc then
                        match evp_get_tag authlen e with
                        | None => (Err SSH_ERR_LIBCRYPTO_ERROR, e, dest)
                        | Some t => (Ok tt, e, mem_write dest (aadlen + len) t)
                        end
                      else (Ok tt, e, dest)
                  end
            end
      end
  end.

(** A context that [cipher_init] made has the [evp] or [cp_ctx] its cipher needs. *)
Definition cipher_crypt (cc : sshcipher_ctx) (seqnr : Z) (dest src : list Z) (len aadlen authlen : Z)
    : result unit * sshcipher_ctx * list Z :=
  if c_flag CFLAG_CHACHAPOLY (cc_cipher cc) then
    match cc_cp cc with
    | None => (Err SSH_ERR_INTERNAL_ERROR, cc, dest)
    | Some cp =>
        let '(r, cp, dest) := chachapoly_crypt fresh_stack cp seqnr dest src len aadlen (cc_encrypt cc) in
        (r, set_cp cp cc, dest)
    end
  else if c_flag CFLAG_NONE (cc_cipher cc) then (Ok tt, cc, mem_write dest 0 (slice 0 (aadlen + len) src))
  else
    match cc_evp cc with
    | None => (Err SSH_ERR_INTERNAL_ERROR, cc, dest)
    | Some e =>
        let '(r, e, dest) := evp_crypt cc e dest src len aadlen authlen in (r, set_evp e cc, dest)
    end.

Definition cipher_get_length (cc : sshcipher_ctx) (seqnr : Z) (cp : list Z) (len : Z) : result Z * sshcipher_ctx :=
  if c_flag CFLAG_CHACHAPOLY (cc_cipher cc) then
    match cc_cp cc with
    | None => (Err SSH_ERR_INTERNAL_ERROR, cc)
    | Some ctx =>
        let '(r, ctx) := chachapoly_get_length (uninit 64) ctx seqnr cp len in (r, set_cp ctx cc)
    end
  else if len <? 4 then (Err SSH_ERR_MESSAGE_INCOMPLETE, cc)
  else (Ok (PEEK_U32 cp), cc).

(** * Two contexts in step *)

Context `{!ReliableAllocator _} `{!EvpCipherLaws _} `{!UninitLaws _}.

(** The decryption context [b] is in step with the encryption context [a]. *)
Definition in_step (a b : sshcipher_ctx) : Prop :=
  let c := cc_cipher a in
  c ∈ ciphers /\ cc_cipher b = c /\ cc_encrypt a = true /\ cc_encrypt b = false /\
  if c_flag CFLAG_CHACHAPOLY c then
    exists key x y, cc_cp a = Some x /\ cc_cp b = Some y /\ cp_keyed key x /\ cp_keyed key y
  else if c_flag CFLAG_NONE c then True
  else exists e d, cc_evp a = Some e /\ cc_evp b = Some d /\ evp_pair c e d.

(** The lengths that the ciphers of the table have. *)
Lemma ciphers_shape c : c ∈ ciphers ->
  (c_block_size c = 8 \/ c_block_size c = 16) /\ (c_auth_len c = 0 \/ c_auth_len c = 16) /\ 0 <= c_key_len c <= 64 /\
  (c_flag CFLAG_CHACHAPOLY c = true -> c_auth_len c = 16 /\ c_key_len c = 64 /\ c_block_size c = 8) /\
  (c_flag CFLAG_NONE c = true -> c_auth_len c = 0 /\ c_block_size c = 8).
Proof.
  assert (Forall (fun c =>
    (c_block_size c = 8 \/ c_block_size c = 16) /\ (c_auth_len c = 0 \/ c_auth_len c = 16) /\ 0 <= c_key_len c <= 64 /\
    (c_flag CFLAG_CHACHAPOLY c = true -> c_auth_len c = 16 /\ c_key_len c = 64 /\ c_block_size c = 8) /\
    (c_flag CFLAG_NONE c = true -> c_auth_len c = 0 /\ c_block_size c = 8)) ciphers) as Hf by compute_dec.
  rewrite Forall_forall in Hf. apply Hf.
Qed.

(** The two ends of a direction, set up with the same key and IV, are in step. *)
Lemma cipher_init_in_step c key iv :
  c ∈ ciphers -> c_key_len c <= zlen key -> cipher_ivlen c <= zlen iv ->
  exists a b, cipher_init c (Some key) (c_key_len c) (Some iv) (cipher_ivlen c) true = Ok a /\
    cipher_init c (Some key) (c_key_len c) (Some iv) (cipher_ivlen c) false = Ok b /\ in_step a b /\
    cc_cipher a = c.
Proof.
  intros Hc Hk Hi. destruct (ciphers_shape c Hc) as (_ & _ & _ & Hcp & _). unfold cipher_init, in_step.
  rewrite !malloc_reliable. cbn [negb]. rewrite (proj2 (Z.ltb_ge (c_key_len c) (c_key_len c))), (proj2 (Z.ltb_ge (cipher_ivlen c) (cipher_ivlen c))) by lia.
  cbn [orb]. destruct (c_flag CFLAG_CHACHAPOLY c) eqn:E1; [|destruct (c_flag CFLAG_NONE c) eqn:E2].
  - destruct (Hcp eq_refl) as (_ & Hl & _). rewrite Hl in *. change (default [] (Some key)) with key.
    destruct (chachapoly_new key 64) as [cp|] eqn:E.
    + pose proof (chachapoly_new_keyed key 64 cp E) as Hcpk.
      eexists _, _. split; [done|]. split; [done|]. cbn [cc_cipher set_cp cc_encrypt cc_cp]. split; [|done].
      split; [done|]. split; [done|]. split; [done|]. split; [done|]. rewrite E1. by exists key, cp, cp.
    + unfold chachapoly_new in E. change (64 =? 32 + 32) with true in E. cbn in E. by rewrite malloc_reliable in E.
  - eexists _, _. split; [done|]. split; [done|]. cbn [cc_cipher cc_encrypt]. split; [|done].
    do 4 (split; [done|]). by rewrite E1, E2.
  - destruct (evp_open c key iv Hc E1 E2 Hk Hi) as (e & d & -> & -> & Hp). eexists _, _. split; [done|]. split; [done|].
    cbn [cc_cipher set_evp cc_encrypt cc_evp]. split; [|done].
    split; [done|]. split; [done|]. split; [done|]. split; [done|]. rewrite E1, E2. by exists e, d.
Qed.

(** What the other side can do with [wire], the encryption of [src]: read the
    length from the first four bytes, decrypt it at once, or (without
    additional data) its first block and then the rest. *)
Definition opens (a a' : sshcipher_ctx) (wire src : list Z) (seqnr len aadlen authlen : Z) (b : sshcipher_ctx) : Prop :=
  (aadlen = 4 -> forall inp, bytes_ok inp -> 4 <= zlen inp -> ztake 4 inp = ztake 4 wire ->
     exists b1, cipher_get_length b seqnr inp (zlen inp) = (Ok (PEEK_U32 src), b1) /\ in_step a b1) /\
  (forall inp dest, bytes_ok inp -> zlen wire <= zlen inp -> ztake (zlen wire) inp = wire -> zlen dest = aadlen + len ->
     exists b', cipher_crypt b seqnr dest inp len aadlen authlen = (Ok tt, b', src) /\ in_step a' b') /\
  (authlen = 0 -> aadlen = 0 -> forall n, 0 <= n <= len -> n mod c_block_size (cc_cipher a) = 0 ->
     exists b1,
     (forall seqnr1 inp dest, zlen dest = n -> bytes_ok inp -> n <= zlen inp -> ztake n inp = ztake n wire ->
       cipher_crypt b seqnr1 dest inp n 0 0 = (Ok tt, b1, ztake n src)) /\
     exists b', in_step a' b' /\
     (forall seqnr1 inp dest, zlen dest = len - n -> bytes_ok inp -> len - n <= zlen inp -> ztake (len - n) inp = zdrop n wire ->
       cipher_crypt b1 seqnr1 dest inp (len - n) 0 0 = (Ok tt, b', zdrop n src))).

Definition seals (a : sshcipher_ctx) (seqnr : Z) (dest src : list Z) (len aadlen authlen : Z) : Prop :=
  exists a' wire, cipher_crypt a seqnr dest src len aadlen authlen = (Ok tt, a', wire) /\ cc_cipher a' = cc_cipher a /\
    cc_plaintext a' = cc_plaintext a /\
    zlen wire = aadlen + len + authlen /\ bytes_ok wire /\
    forall b, in_step a b -> opens a a' wire src seqnr len aadlen authlen b.

Lemma fresh_stack_ok : stack_ok fresh_stack.
Proof. unfold stack_ok, fresh_stack. cbn [junk_key junk_aad junk_data]. by rewrite uninit_len by lia; split_and!; try apply uninit_bytes. Qed.

Lemma seals_chachapoly a b seqnr dest src len :
  in_step a b -> c_flag CFLAG_CHACHAPOLY (cc_cipher a) = true -> bytes_ok src -> 0 <= len -> zlen src = 4 + len ->
  zlen dest = 4 + len + 16 -> seals a seqnr dest src len 4 16.
Proof.
  intros (Hc & Ecb & Ea & Eb & Hk) Ef Hsrc Hl Hls Hld. rewrite Ef in Hk. destruct Hk as (key & x & y & Ex & Ey & Kx & Ky).
  destruct (encrypt_spec fresh_stack key x seqnr dest src len 4 fresh_stack_ok Kx Hsrc ltac:(lia) Hl ltac:(lia) ltac:(lia)) as (x' & Kx' & E).
  rewrite ztake_ge in E by lia. cbv zeta in E. pose proof (cp_crypt_len key seqnr 4 src) as Hcl.
  pose proof (cp_crypt_bytes key seqnr 4 src Hsrc) as Hcb. pose proof (cp_crypt_twice key seqnr 4 src ltac:(lia)) as Htw.
  set (c := cp_crypt key seqnr 4 src) in *. destruct (cp_tag_ok key seqnr c) as [Ht Htb].
  rewrite zdrop_ge, app_nil_r in E by lia.
  exists (set_cp x' a), (c ++ cp_tag key seqnr c). unfold cipher_crypt at 1. rewrite Ef, Ex, Ea, E.
  split; [done|]. split; [done|]. split; [done|]. assert (zlen (c ++ cp_tag key seqnr c) = 4 + len + 16) as Hw by (rewrite zlen_app; lia).
  split; [done|]. split; [by apply Forall_app_2|].
  intros b0 (_ & Ecb0 & _ & Eb0 & Hk0). rewrite Ef in Hk0. destruct Hk0 as (key0 & x0 & y0 & Ex0 & Ey0 & Kx0 & Ky0).
  assert (x0 = x) as -> by congruence.
  pose proof (cp_keyed_trans key key0 x y0 Kx Kx0 Ky0) as Ky1. split; [|split]; [| |lia].
  - intros _ inp Hib Hil Hit.
    destruct (get_length_spec (uninit 64) key y0 seqnr inp (zlen inp)) as (y1 & Hy1 & El);
      [by rewrite uninit_len|apply uninit_bytes|done..|].
    exists (set_cp y1 b0). unfold cipher_get_length. rewrite Ecb0, Ef, Ey0, El. split.
    + do 2 f_equal. rewrite Hit, ztake_app_le by lia.
      assert (ztake 4 c = cp_xor (header_key key) seqnr None (ztake 4 src)) as ->
        by (apply ztake_app_exact; rewrite cp_xor_len, zlen_ztake by (done || lia); done).
      rewrite cp_xor_twice by done. apply peek32_take. lia.
    + split; [done|]. split; [done|]. split; [done|]. split; [done|]. rewrite Ef. by exists key, x, y1.
  - intros inp d Hib Hil Hit Hd.
    destruct (decrypt_spec fresh_stack key y0 seqnr d inp len 4 fresh_stack_ok Ky1 Hib ltac:(lia) Hl ltac:(lia) ltac:(lia))
      as (y1 & Hy1 & Ed). cbv zeta in Ed.
    assert (ztake (4 + len) inp = c) as Ec.
    { rewrite <- (ztake_ztake (zlen (c ++ cp_tag key seqnr c))), Hit by lia. apply ztake_app_exact. lia. }
    assert (slice (4 + len) 16 inp = cp_tag key seqnr c) as Et.
    { rewrite slice_ztake by lia. rewrite <- Hw, Hit. apply zdrop_app_exact. lia. }
    rewrite Ec, Et, bool_decide_eq_true_2, Htw, zdrop_ge, app_nil_r in Ed by (done || lia).
    exists (set_cp y1 b0). unfold cipher_crypt. rewrite Ecb0, Ef, Ey0, Eb0, Ed. split; [done|].
    split; [done|]. split; [done|]. split; [done|]. split; [done|]. cbn [cc_cipher set_cp]. rewrite Ef. by exists key, x', y1.
Qed.

Lemma mem_write_whole dest v : zlen v = zlen dest -> mem_write dest 0 v = v.
Proof. intros Hv. rewrite mem_write_front, zdrop_ge, app_nil_r by lia. done. Qed.

(** Writing the additional data and the text fills the destination. *)
Lemma write_both dest aad x n :
  zlen aad = n -> zlen dest = n + zlen x ->
  mem_write (if n =? 0 then dest else mem_write dest 0 aad) n x = aad ++ x.
Proof.
  intros Ha Hd. destruct (Z.eqb_spec n 0) as [->|Hn].
  - rewrite (zlen_0_nil aad) by done. by apply mem_write_whole.
  - rewrite (mem_write_front dest), <- Ha, mem_write_after, mem_write_whole; [done|]. rewrite zlen_zdrop; zlen_facts; lia.
Qed.

Lemma write_three dest a x t :
  zlen dest = zlen a + zlen x + zlen t ->
  mem_write (mem_write (mem_write dest 0 a) (zlen a) x) (zlen a + zlen x) t = a ++ x ++ t.
Proof.
  intros Hd. rewrite (mem_write_front dest), mem_write_after, mem_write_front, app_assoc.
  rewrite <- zlen_app, mem_write_after, mem_write_whole, <- app_assoc; [done|].
  rewrite zdrop_zdrop, zlen_zdrop; zlen_facts; lia.
Qed.

Lemma seals_none a seqnr dest src len aadlen :
  c_flag CFLAG_CHACHAPOLY (cc_cipher a) = false -> c_flag CFLAG_NONE (cc_cipher a) = true ->
  bytes_ok src -> 0 <= len -> 0 <= aadlen -> zlen src = aadlen + len -> zlen dest = aadlen + len ->
  seals a seqnr dest src len aadlen 0.
Proof.
  intros Ef En Hsrc Hl Ha Hls Hld.
  assert (forall b s d m, cc_cipher b = cc_cipher a -> forall n k, 0 <= n -> 0 <= k -> zlen d = n + k -> n + k <= zlen m ->
    cipher_crypt b s d m k n 0 = (Ok tt, b, ztake (n + k) m)) as Hcopy.
  { intros b s d m Eb n k Hn Hk Hd Hm. unfold cipher_crypt. rewrite Eb, Ef, En.
    by rewrite slice_0, mem_write_whole by (try rewrite zlen_ztake; lia). }
  exists a, src. rewrite (Hcopy a), ztake_ge by (done || lia). do 4 (split; [done || lia|]). split; [done|].
  intros b Hb. pose proof Hb as (_ & Eb & _). split; [|split].
  - intros E4 inp Hib Hil Hit. exists b. unfold cipher_get_length. rewrite Eb, Ef, (proj2 (Z.ltb_ge _ _)) by lia.
    split; [|done]. do 2 f_equal. rewrite <- (peek32_take inp), <- (peek32_take src), Hit; [done|lia..].
  - intros inp d Hib Hil Hit Hd. exists b. rewrite (Hcopy b) by (done || lia). split; [|done].
    rewrite <- Hls. by rewrite Hit.
  - intros _ -> n Hn Hmod. exists b. split; [|exists b; split; [done|]].
    + intros s inp d Hd Hib Hil Hit. rewrite (Hcopy b) by (done || lia). by rewrite Z.add_0_l, Hit.
    + intros s inp d Hd Hib Hil Hit. rewrite (Hcopy b) by (done || lia). by rewrite Z.add_0_l, Hit.
Qed.

Lemma evp_crypt_plain cc e dest src len aadlen x e' :
  0 <= aadlen -> 0 <= len -> len mod c_block_size (cc_cipher cc) = 0 -> aadlen <= zlen src -> zlen dest = aadlen + zlen x ->
  evp_cipher (slice aadlen len src) e = Some (x, e') ->
  evp_crypt cc e dest src len aadlen 0 = (Ok tt, e', ztake aadlen src ++ x).
Proof.
  intros Ha Hl Hm Has Hd E. unfold evp_crypt. change (0 =? 0) with true. cbn [negb]. rewrite andb_false_r, Hm, E.
  change (0 =? 0) with true. cbn [negb]. rewrite slice_0, write_both by (rewrite ?zlen_ztake; lia). done.
Qed.

Lemma seals_blocks a b seqnr dest src len aadlen :
  in_step a b -> c_flag CFLAG_CHACHAPOLY (cc_cipher a) = false -> c_flag CFLAG_NONE (cc_cipher a) = false ->
  c_auth_len (cc_cipher a) = 0 -> len mod c_block_size (cc_cipher a) = 0 ->
  bytes_ok src -> 0 <= len -> 0 <= aadlen -> zlen src = aadlen + len -> zlen dest = aadlen + len ->
  seals a seqnr dest src len aadlen 0.
Proof.
  intros (Hc & Ecb & Ea & Eb & Hk) Ef En Hau Hmod Hsrc Hl Ha Hls Hld. rewrite Ef, En in Hk. destruct Hk as (e & d & Ee & Ed & Hp).
  destruct (ciphers_shape _ Hc) as (Hbs & _).
  assert (zlen (zdrop aadlen src) = len) as Hzd by (rewrite zlen_zdrop; lia).
  destruct (evp_blocks (cc_cipher a) e d (zdrop aadlen src) Hp Hau) as (x & e' & d' & Ex & Hx & Hxb & _);
    [by rewrite Hzd|by apply Forall_zdrop|].
  assert (slice aadlen len src = zdrop aadlen src) as Hsl by (rewrite slice_ztake, ztake_ge by lia; done).
  exists (set_evp e' a), (ztake aadlen src ++ x). unfold cipher_crypt at 1. rewrite Ef, En, Ee.
  rewrite (evp_crypt_plain a e dest src len aadlen x e') by (done || lia || by rewrite Hsl).
  split; [done|]. split; [done|]. split; [done|]. split; [rewrite zlen_app, zlen_ztake; lia|].
  split; [apply Forall_app_2; [by apply Forall_ztake|done]|].
  intros b0 Hb0. pose proof Hb0 as (_ & Eb1 & _ & Eb2 & Hk0). rewrite Ef, En in Hk0. destruct Hk0 as (e0 & d0 & Ee0 & Ed0 & Hp0).
  assert (e0 = e) as -> by congruence. split; [|split].
  - intros -> inp Hib Hil Hit. exists b0. unfold cipher_get_length. rewrite Eb1, Ef, (proj2 (Z.ltb_ge _ _)) by lia.
    split; [|done]. do 2 f_equal. rewrite <- (peek32_take inp), <- (peek32_take src), Hit by lia.
    by rewrite ztake_app_exact by (rewrite zlen_ztake; lia).
  - intros inp d1 Hib Hil Hit Hd1. rewrite zlen_app, zlen_ztake in Hil, Hit by lia.
    destruct (evp_blocks (cc_cipher a) e d0 (zdrop aadlen src) Hp0 Hau) as (x1 & e1 & d2 & Ex1 & _ & _ & Ed2 & Hp2);
      [by rewrite Hzd|by apply Forall_zdrop|]. rewrite Ex in Ex1. injection Ex1 as <- <-.
    exists (set_evp d2 b0). unfold cipher_crypt. rewrite Eb1, Ef, En, Ed0.
    rewrite (evp_crypt_plain b0 d0 d1 inp len aadlen (zdrop aadlen src) d2); [|done|done|by rewrite Eb1|lia|lia|].
    + split.
      * do 2 f_equal. assert (ztake aadlen inp = ztake aadlen src) as ->; [|apply ztake_zdrop].
        rewrite <- (ztake_ztake (aadlen + zlen x) aadlen inp), Hit by lia. apply ztake_app_exact. rewrite zlen_ztake; lia.
      * do 4 (split; [done|]). cbn [cc_cipher set_evp]. rewrite Ef, En. by exists e', d2.
    + rewrite <- Ed2. f_equal. rewrite slice_ztake by lia. replace (aadlen + len) with (aadlen + zlen x) by lia.
      rewrite Hit. apply zdrop_app_exact. rewrite zlen_ztake; lia.
  - intros _ -> n Hn Hnm. rewrite zdrop_0 in *. rewrite ztake_0 in *. cbn [app] in *.
    assert (zlen (ztake n src) = n /\ zlen (zdrop n src) = len - n) as [Hz1 Hz2] by (rewrite zlen_ztake, zlen_zdrop; lia).
    destruct (evp_blocks (cc_cipher a) e d0 (ztake n src) Hp0 Hau) as (x1 & e1 & d1 & Ex1 & Hx1 & _ & Ed1 & Hp1);
      [by rewrite Hz1|by apply Forall_ztake|].
    assert ((len - n) mod c_block_size (cc_cipher a) = 0) as Hm2 by (rewrite Zminus_mod, Hmod, Hnm; by destruct Hbs as [-> | ->]).
    destruct (evp_blocks (cc_cipher a) e1 d1 (zdrop n src) Hp1 Hau) as (x2 & e2 & d2 & Ex2 & Hx2 & _ & Ed2 & Hp2);
      [by rewrite Hz2|by apply Forall_zdrop|].
    pose proof (evp_blocks_app (cc_cipher a) e d0 _ _ x1 x2 e1 e2 Hp0 Hau ltac:(by rewrite Hz1) ltac:(by rewrite Hz2) Ex1 Ex2) as Exx.
    rewrite ztake_zdrop, Ex in Exx. injection Exx as -> ->.
    exists (set_evp d1 b0). split; [|exists (set_evp d2 b0); split].
    + intros s inp dd Hdd Hib Hil Hit. unfold cipher_crypt. rewrite Eb1, Ef, En, Ed0.
      rewrite (evp_crypt_plain b0 d0 dd inp n 0 (ztake n src) d1); [by rewrite ztake_0|lia|lia|by rewrite Eb1|lia|lia|].
      rewrite slice_0, Hit, ztake_app_exact by lia. done.
    + do 4 (split; [done|]). cbn [cc_cipher set_evp]. rewrite Ef, En. by exists e2, d2.
    + intros s inp dd Hdd Hib Hil Hit. unfold cipher_crypt. cbn [cc_cipher set_evp cc_evp]. rewrite Eb1, Ef, En.
      rewrite (evp_crypt_plain (set_evp d1 b0) d1 dd inp (len - n) 0 (zdrop n src) d2);
        [by rewrite ztake_0|lia|lia|by cbn; rewrite Eb1|lia|lia|].
      rewrite slice_0, Hit, zdrop_app_exact by lia. done.
Qed.

(** The whole sequence of calls for a GCM packet, when all succeed. *)
Lemma evp_crypt_gcm cc e dest src len e1 e2 e3 x e4 e5 t :
  c_auth_len (cc_cipher cc) = 16 -> len mod c_block_size (cc_cipher cc) = 0 ->
  evp_iv_gen e = Some e1 ->
  (if cc_encrypt cc then e2 = e1 else evp_set_tag (slice (4 + len) 16 src) e1 = Some e2) ->
  evp_aad (slice 0 4 src) e2 = Some e3 -> evp_cipher (slice 4 len src) e3 = Some (x, e4) -> evp_final e4 = Some e5 ->
  (if cc_encrypt cc then evp_get_tag 16 e5 = Some t else True) ->
  evp_crypt cc e dest src len 4 16 =
    (Ok tt, e5, let d := mem_write (mem_write dest 0 (slice 0 4 src)) 4 x in
                if cc_encrypt cc then mem_write d (4 + len) t else d).
Proof.
  intros Hau Hmod E1 E2 E3 E4 E5 E6. unfold evp_crypt. change (16 =? 0) with false. change (4 =? 0) with false.
  unfold cipher_authlen. rewrite Hau, Z.eqb_refl, E1. cbn [negb andb or_crypto_error mbind result_bind].
  destruct (cc_encrypt cc).
  - subst e2. cbn [or_crypto_error]. rewrite E3. cbn [or_crypto_error]. rewrite Hmod, E4. change (0 =? 0) with true. cbn [negb].
    by rewrite E5, E6.
  - rewrite E2. cbn [or_crypto_error]. rewrite E3. cbn [or_crypto_error]. rewrite Hmod, E4. change (0 =? 0) with true. cbn [negb].
    by rewrite E5.
Qed.

Lemma seals_gcm a b seqnr dest src len :
  in_step a b -> c_flag CFLAG_CHACHAPOLY (cc_cipher a) = false -> c_flag CFLAG_NONE (cc_cipher a) = false ->
  c_auth_len (cc_cipher a) = 16 -> len mod c_block_size (cc_cipher a) = 0 ->
  bytes_ok src -> 0 <= len -> zlen src = 4 + len -> zlen dest = 4 + len + 16 -> seals a seqnr dest src len 4 16.
Proof.
  intros (Hc & Ecb & Ea & Eb & Hk) Ef En Hau Hmod Hsrc Hl Hls Hld. rewrite Ef, En in Hk. destruct Hk as (e & d & Ee & Ed & Hp).
  assert (zlen (zdrop 4 src) = len) as Hzd by (rewrite zlen_zdrop; lia).
  assert (zlen (ztake 4 src) = 4) as Hzt by (rewrite zlen_ztake; lia).
  assert (slice 4 len src = zdrop 4 src) as Hsl by (rewrite slice_ztake, ztake_ge by lia; done).
  destruct (evp_gcm (cc_cipher a) e d (ztake 4 src) (zdrop 4 src) Hp) as
    (e1 & e2 & x & e3 & e4 & t & _ & _ & _ & _ & _ & E1 & E2 & E3 & E4 & E5 & Hx & Hxb & Ht & Htb & _);
    [lia|by rewrite Hzd|by apply Forall_zdrop|]. rewrite Hau in *.
  exists (set_evp e4 a), (ztake 4 src ++ x ++ t). unfold cipher_crypt at 1. rewrite Ef, En, Ee. 
  rewrite (evp_crypt_gcm a e dest src len e1 e1 e2 x e3 e4 t)
    by (done || (rewrite ?slice_0, ?Hsl by lia; done) || by rewrite Ea). rewrite Ea, slice_0 by lia. cbv zeta.
  split.
  { f_equal. rewrite <- (write_three dest (ztake 4 src) x t) by lia. by rewrite Hzt, Hx, Hzd. }
  split; [done|]. split; [done|]. assert (zlen (ztake 4 src ++ x ++ t) = 4 + len + 16) as Hw by (rewrite !zlen_app; lia).
  split; [done|]. split; [apply Forall_app_2; [by apply Forall_ztake|by apply Forall_app_2]|].
  intros b0 Hb0. pose proof Hb0 as (_ & Eb1 & _ & Eb2 & Hk0). rewrite Ef, En in Hk0. destruct Hk0 as (e0 & d0 & Ee0 & Ed0 & Hp0).
  assert (e0 = e) as -> by congruence. split; [|split; [|lia]].
  - intros _ inp Hib Hil Hit. exists b0. unfold cipher_get_length. rewrite Eb1, Ef, (proj2 (Z.ltb_ge _ _)) by lia.
    split; [|done]. do 2 f_equal. rewrite <- (peek32_take inp), <- (peek32_take src), Hit by lia.
    by rewrite ztake_app_exact.
  - intros inp dd Hib Hil Hit Hdd. rewrite Hw in Hil, Hit.
    destruct (evp_gcm (cc_cipher a) e d0 (ztake 4 src) (zdrop 4 src) Hp0) as
      (f1 & f2 & y & f3 & f4 & u & d1 & d2 & d3 & d4 & d5 & F1 & F2 & F3 & F4 & F5 & _ & _ & _ & _ & D1 & D2 & D3 & D4 & D5 & Hp5);
      [lia|by rewrite Hzd|by apply Forall_zdrop|].
    rewrite Hau in F5. assert (f1 = e1) as -> by congruence. assert (f2 = e2) as -> by congruence.
    rewrite E3 in F3. injection F3 as <- <-. assert (f4 = e4) as -> by congruence. assert (u = t) as -> by congruence.
    assert (slice (4 + len) 16 inp = t) as Et.
    { rewrite slice_ztake, Hit, app_assoc by lia. apply zdrop_app_exact. rewrite zlen_app. lia. }
    assert (slice 0 4 inp = ztake 4 src) as Ea4.
    { rewrite slice_0 by lia. rewrite <- (ztake_ztake (4 + len + 16)), Hit by lia. by apply ztake_app_exact. }
    assert (slice 4 len inp = x) as Ex.
    { rewrite slice_ztake by lia. rewrite <- (ztake_ztake (4 + len + 16)), Hit, app_assoc, ztake_app_exact by (rewrite ?zlen_app; lia).
      by apply zdrop_app_exact. }
    exists (set_evp d5 b0). unfold cipher_crypt. rewrite Eb1, Ef, En, Ed0. 
    rewrite (evp_crypt_gcm b0 d0 dd inp len d1 d2 d3 (zdrop 4 src) d4 d5 t)
      by (rewrite ?Eb1, ?Eb2, ?Et, ?Ea4, ?Ex; done). rewrite Eb2, Ea4. cbv zeta. split.
    + f_equal. rewrite <- (ztake_zdrop 4 src) at 3. rewrite <- (write_both dd (ztake 4 src) (zdrop 4 src) 4) by lia. done.
    + do 4 (split; [done|]). cbn [cc_cipher set_evp]. rewrite Ef, En. by exists e4, d5.
Qed.

(** Every cipher of the table. *)
Lemma in_step_seals a b seqnr dest src len aadlen :
  in_step a b -> let authlen := c_auth_len (cc_cipher a) in
  len mod c_block_size (cc_cipher a) = 0 -> bytes_ok src -> 0 <= len -> (aadlen = 4 \/ aadlen = 0 /\ authlen = 0) ->
  zlen src = aadlen + len -> zlen dest = aadlen + len + authlen -> seals a seqnr dest src len aadlen authlen.
Proof.
  intros Hst au Hmod Hsrc Hl Haad Hls Hld. pose proof Hst as (Hc & _). destruct (ciphers_shape _ Hc) as (_ & Hau & _ & Hcp & Hno).
  destruct (c_flag CFLAG_CHACHAPOLY (cc_cipher a)) eqn:Ef; [|destruct (c_flag CFLAG_NONE (cc_cipher a)) eqn:En].
  - destruct (Hcp eq_refl) as (E & _). subst au. rewrite E in *. assert (aadlen = 4) as -> by lia. by eapply seals_chachapoly.
  - destruct (Hno eq_refl) as (E & _). subst au. rewrite E in *. apply seals_none; (done || lia).
  - subst au. destruct Hau as [E|E]; rewrite E in *; [eapply seals_blocks; (done || lia)|].
    assert (aadlen = 4) as -> by lia. by eapply seals_gcm.
Qed.
End cipher.
