(* ===== verification/Packet.v ===== *)
(** The binary packet protocol (packet.c): sending with compression, padding,
    MAC and encryption, the queue during key exchange, reading under any
    fragmentation, discarding after errors, rekeying limits and the installation
    of new keys, with the parts of kex.c it calls.

    The buffers of the session are byte lists with the size limit of sshbuf
    ([SshbufGetPut.sshbuf_refines_queue]); the two directions keep their cipher
    context, keys, counters and compression stream in a [dir] each; allocation failures inside
    the buffers and the input hook of the library interface are left out.  zlib, the
    random numbers, the time and the outcomes of write(2) are parameters. *)

From Stdlib Require Import String.
From stdpp Require Import pretty.
From S2P Require Import Prelude Match Sshbuf SshbufGetPut AlgNames Digest ChaCha Poly1305 ChachaPoly Cipher Kex.
Local Open Scope Z_scope.

(** * Constants *)

Definition PACKET_MAX_SIZE : Z := 256 * 1024.
Definition MAX_PACKETS : Z := 2^31.

Definition SSH_MSG_NONE : Z := 0.
Definition SSH2_MSG_MIN : Z := 1.
Definition SSH2_MSG_TRANSPORT_MIN : Z := 1.
Definition SSH2_MSG_TRANSPORT_MAX : Z := 49.
Definition SSH2_MSG_CONNECTION_MIN : Z := 80.
Definition SSH2_MSG_CONNECTION_MAX : Z := 127.
Definition SSH2_MSG_LOCAL_MIN : Z := 192.
Definition SSH2_MSG_DISCONNECT : Z := 1.
Definition SSH2_MSG_IGNORE : Z := 2.
Definition SSH2_MSG_UNIMPLEMENTED : Z := 3.
Definition SSH2_MSG_DEBUG : Z := 4.
Definition SSH2_MSG_SERVICE_REQUEST : Z := 5.
Definition SSH2_MSG_SERVICE_ACCEPT : Z := 6.
Definition SSH2_MSG_EXT_INFO : Z := 7.
Definition SSH2_MSG_KEXINIT : Z := 20.
Definition SSH2_MSG_NEWKEYS : Z := 21.
Definition SSH2_MSG_USERAUTH_SUCCESS : Z := 52.
Definition SSH2_DISCONNECT_PROTOCOL_ERROR : Z := 2.

(** * Parameters *)

(** zlib: a call of deflate or inflate with [Z_PARTIAL_FLUSH], some input and
    [avail_out] bytes of room gives a status, the output, the input that is left
    and the stream. *)
Inductive zstatus := Z_OK | Z_BUF_ERROR | Z_DATA_ERROR | Z_MEM_ERROR | Z_STREAM_ERROR | Z_OTHER.
Record zcall (S : Type) := mk_zcall { z_status : zstatus; z_out : list Z; z_rest : list Z; z_stream : S }.
Arguments mk_zcall {_} _ _ _ _.
Arguments z_status {_} _.
Arguments z_out {_} _.
Arguments z_rest {_} _.
Arguments z_stream {_} _.

Class Zlib := {
  zdeflate : Type;
  zinflate : Type;
  deflateInit : Z -> zstatus * option zdeflate;
  inflateInit : zstatus * option zinflate;
  deflate : zdeflate -> list Z -> Z -> zcall zdeflate;
  inflate : zinflate -> list Z -> Z -> zcall zinflate
}.

(** arc4random_buf: the bytes of the n-th draw. *)
Class Random := arc4random_buf : Z -> Z -> list Z.
Class RandomLaws (R : Random) : Prop := {
  random_len : forall i n, 0 <= n -> zlen (arc4random_buf i n) = n;
  random_bytes : forall i n, bytes_ok (arc4random_buf i n)
}.

(** The peer cannot rekey ([SSH_BUG_NOREKEY]). *)
Class Fellows := bug_norekey : bool.

(** The outcome of a write on the connection: EINTR or EAGAIN, another error, or
    the number of bytes taken. *)
Inductive write_result := WAgain | WFailed | WTaken (n : Z).

(** * State *)

Record packet_state := mk_ps { seqnr : Z; packets : Z; blocks : Z; bytes : Z }.

(** One direction: cipher context, keys, counters, rekeying limit and
    compression stream ([None]: not started). *)
Record dir `{EvpCipher} (S : Type) := mk_dir {
  d_ctx : option sshcipher_ctx; d_keys : option newkeys; d_ps : packet_state; d_max_blocks : Z; d_z : option S;
  d_z_failures : Z
}.
Arguments mk_dir {_ _} _ _ _ _ _ _.
Arguments d_ctx {_ _} _.
Arguments d_keys {_ _} _.
Arguments d_ps {_ _} _.
Arguments d_max_blocks {_ _} _.
Arguments d_z {_ _} _.
Arguments d_z_failures {_ _} _.

Section packet.
Context `{Allocator} `{EvpCipher} `{Uninit} `{EvpDigest} `{Umac} `{Zlib} `{Random} `{Fellows}.

Definition dir_ctx {S} (c : option sshcipher_ctx) (d : dir S) : dir S :=
  mk_dir c (d_keys d) (d_ps d) (d_max_blocks d) (d_z d) (d_z_failures d).
Definition dir_keys {S} (k : option newkeys) (d : dir S) : dir S :=
  mk_dir (d_ctx d) k (d_ps d) (d_max_blocks d) (d_z d) (d_z_failures d).
Definition dir_ps {S} (p : packet_state) (d : dir S) : dir S :=
  mk_dir (d_ctx d) (d_keys d) p (d_max_blocks d) (d_z d) (d_z_failures d).
Definition dir_max {S} (m : Z) (d : dir S) : dir S :=
  mk_dir (d_ctx d) (d_keys d) (d_ps d) m (d_z d) (d_z_failures d).
Definition dir_z {S} (z : option S) (d : dir S) : dir S :=
  mk_dir (d_ctx d) (d_keys d) (d_ps d) (d_max_blocks d) z (d_z_failures d).
Definition dir_fail {S} (d : dir S) : dir S :=
  mk_dir (d_ctx d) (d_keys d) (d_ps d) (d_max_blocks d) (d_z d) (d_z_failures d + 1).

(** [struct session_state] with the key exchange; [now] is the time, [draws]
    counts the random numbers, [script] holds the outcomes of the writes to come
    and [wire] what the connection has taken; [compression_buffer] tells whether
    that buffer was allocated. *)
Record ssh := mk_ssh {
  out_dir : dir zdeflate;
  in_dir : dir zinflate;
  input : list Z;
  output : list Z;
  outgoing_packet : list Z;
  incoming_packet : list Z;
  max_packet_size : Z;
  set_maxsize_called : bool;
  server_side : bool;
  after_authentication : bool;
  keep_alive_timeouts : Z;
  rekey_limit : Z;
  rekey_interval : Z;
  rekey_time : Z;
  extra_pad : Z;
  packet_discard : Z;
  packet_discard_mac_already : Z;
  packet_discard_mac : bool;
  packlen : Z;
  rekeying : bool;
  mux : bool;
  outgoing : list (Z * list Z);
  kx : kex;
  now : Z;
  draws : Z;
  script : list write_result;
  wire : list Z;
  compression_buffer : bool
}.

Definition set_out_dir (v : dir zdeflate) (s : ssh) : ssh :=
  mk_ssh v (in_dir s) (input s) (output s) (outgoing_packet s) (incoming_packet s) (max_packet_size s)
    (set_maxsize_called s) (server_side s) (after_authentication s) (keep_alive_timeouts s) (rekey_limit s)
    (rekey_interval s) (rekey_time s) (extra_pad s) (packet_discard s) (packet_discard_mac_already s)
    (packet_discard_mac s) (packlen s) (rekeying s) (mux s) (outgoing s) (kx s) (now s) (draws s) (script s)
    (wire s) (compression_buffer s).
Definition set_in_dir (v : dir zinflate) (s : ssh) : ssh :=
  mk_ssh (out_dir s) v (input s) (output s) (outgoing_packet s) (incoming_packet s) (max_packet_size s)
    (set_maxsize_called s) (server_side s) (after_authentication s) (keep_alive_timeouts s) (rekey_limit s)
    (rekey_interval s) (rekey_time s) (extra_pad s) (packet_discard s) (packet_discard_mac_already s)
    (packet_discard_mac s) (packlen s) (rekeying s) (mux s) (outgoing s) (kx s) (now s) (draws s) (script s)
    (wire s) (compression_buffer s).
Definition set_input (v : list Z) (s : ssh) : ssh :=
  mk_ssh (out_dir s) (in_dir s) v (output s) (outgoing_packet s) (incoming_packet s) (max_packet_size s)
    (set_maxsize_called s) (server_side s) (after_authentication s) (keep_alive_timeouts s) (rekey_limit s)
    (rekey_interval s) (rekey_time s) (extra_pad s) (packet_discard s) (packet_discard_mac_already s)
    (packet_discard_mac s) (packlen s) (rekeying s) (mux s) (outgoing s) (kx s) (now s) (draws s) (script s)
    (wire s) (compression_buffer s).
Definition set_output (v : list Z) (s : ssh) : ssh :=
  mk_ssh (out_dir s) (in_dir s) (input s) v (outgoing_packet s) (incoming_packet s) (max_packet_size s)
    (set_maxsize_called s) (server_side s) (after_authentication s) (keep_alive_timeouts s) (rekey_limit s)
    (rekey_interval s) (rekey_time s) (extra_pad s) (packet_discard s) (packet_discard_mac_already s)
    (packet_discard_mac s) (packlen s) (rekeying s) (mux s) (outgoing s) (kx s) (now s) (draws s) (script s)
    (wire s) (compression_buffer s).
Definition set_outgoing_packet (v : list Z) (s : ssh) : ssh :=
  mk_ssh (out_dir s) (in_dir s) (input s) (output s) v (incoming_packet s) (max_packet_size s)
    (set_maxsize_called s) (server_side s) (after_authentication s) (keep_alive_timeouts s) (rekey_limit s)
    (rekey_interval s) (rekey_time s) (extra_pad s) (packet_discard s) (packet_discard_mac_already s)
    (packet_discard_mac s) (packlen s) (rekeying s) (mux s) (outgoing s) (kx s) (now s) (draws s) (script s)
    (wire s) (compression_buffer s).
Definition set_incoming_packet (v : list Z) (s : ssh) : ssh :=
  mk_ssh (out_dir s) (in_dir s) (input s) (output s) (outgoing_packet s) v (max_packet_size s)
    (set_maxsize_called s) (server_side s) (after_authentication s) (keep_alive_timeouts s) (rekey_limit s)
    (rekey_interval s) (rekey_time s) (extra_pad s) (packet_discard s) (packet_discard_mac_already s)
    (packet_discard_mac s) (packlen s) (rekeying s) (mux s) (outgoing s) (kx s) (now s) (draws s) (script s)
    (wire s) (compression_buffer s).
Definition set_max_packet_size (v : Z) (s : ssh) : ssh :=
  mk_ssh (out_dir s) (in_dir s) (input s) (output s) (outgoing_packet s) (incoming_packet s) v
    (set_maxsize_called s) (server_side s) (after_authentication s) (keep_alive_timeouts s) (rekey_limit s)
    (rekey_interval s) (rekey_time s) (extra_pad s) (packet_discard s) (packet_discard_mac_already s)
    (packet_discard_mac s) (packlen s) (rekeying s) (mux s) (outgoing s) (kx s) (now s) (draws s) (script s)
    (wire s) (compression_buffer s).
Definition set_set_maxsize_called (v : bool) (s : ssh) : ssh :=
  mk_ssh (out_dir s) (in_dir s) (input s) (output s) (outgoing_packet s) (incoming_packet s)
    (max_packet_size s) v (server_side s) (after_authentication s) (keep_alive_timeouts s) (rekey_limit s)
    (rekey_interval s) (rekey_time s) (extra_pad s) (packet_discard s) (packet_discard_mac_already s)
    (packet_discard_mac s) (packlen s) (rekeying s) (mux s) (outgoing s) (kx s) (now s) (draws s) (script s)
    (wire s) (compression_buffer s).
Definition set_server_side (v : bool) (s : ssh) : ssh :=
  mk_ssh (out_dir s) (in_dir s) (input s) (output s) (outgoing_packet s) (incoming_packet s)
    (max_packet_size s) (set_maxsize_called s) v (after_authentication s) (keep_alive_timeouts s)
    (rekey_limit s) (rekey_interval s) (rekey_time s) (extra_pad s) (packet_discard s)
    (packet_discard_mac_already s) (packet_discard_mac s) (packlen s) (rekeying s) (mux s) (outgoing s) (kx s)
    (now s) (draws s) (script s) (wire s) (compression_buffer s).
Definition set_after_authentication (v : bool) (s : ssh) : ssh :=
  mk_ssh (out_dir s) (in_dir s) (input s) (output s) (outgoing_packet s) (incoming_packet s)
    (max_packet_size s) (set_maxsize_called s) (server_side s) v (keep_alive_timeouts s) (rekey_limit s)
    (rekey_interval s) (rekey_time s) (extra_pad s) (packet_discard s) (packet_discard_mac_already s)
    (packet_discard_mac s) (packlen s) (rekeying s) (mux s) (outgoing s) (kx s) (now s) (draws s) (script s)
    (wire s) (compression_buffer s).
Definition set_keep_alive_timeouts (v : Z) (s : ssh) : ssh :=
  mk_ssh (out_dir s) (in_dir s) (input s) (output s) (outgoing_packet s) (incoming_packet s)
    (max_packet_size s) (set_maxsize_called s) (server_side s) (after_authentication s) v (rekey_limit s)
    (rekey_interval s) (rekey_time s) (extra_pad s) (packet_discard s) (packet_discard_mac_already s)
    (packet_discard_mac s) (packlen s) (rekeying s) (mux s) (outgoing s) (kx s) (now s) (draws s) (script s)
    (wire s) (compression_buffer s).
Definition set_rekey_limit (v : Z) (s : ssh) : ssh :=
  mk_ssh (out_dir s) (in_dir s) (input s) (output s) (outgoing_packet s) (incoming_packet s)
    (max_packet_size s) (set_maxsize_called s) (server_side s) (after_authentication s)
    (keep_alive_timeouts s) v (rekey_interval s) (rekey_time s) (extra_pad s) (packet_discard s)
    (packet_discard_mac_already s) (packet_discard_mac s) (packlen s) (rekeying s) (mux s) (outgoing s) (kx s)
    (now s) (draws s) (script s) (wire s) (compression_buffer s).
Definition set_rekey_interval (v : Z) (s : ssh) : ssh :=
  mk_ssh (out_dir s) (in_dir s) (input s) (output s) (outgoing_packet s) (incoming_packet s)
    (max_packet_size s) (set_maxsize_called s) (server_side s) (after_authentication s) (keep_alive_timeouts s)
    (rekey_limit s) v (rekey_time s) (extra_pad s) (packet_discard s) (packet_discard_mac_already s)
    (packet_discard_mac s) (packlen s) (rekeying s) (mux s) (outgoing s) (kx s) (now s) (draws s) (script s)
    (wire s) (compression_buffer s).
Definition set_rekey_time (v : Z) (s : ssh) : ssh :=
  mk_ssh (out_dir s) (in_dir s) (input s) (output s) (outgoing_packet s) (incoming_packet s)
    (max_packet_size s) (set_maxsize_called s) (server_side s) (after_authentication s) (keep_alive_timeouts s)
    (rekey_limit s) (rekey_interval s) v (extra_pad s) (packet_discard s) (packet_discard_mac_already s)
    (packet_discard_mac s) (packlen s) (rekeying s) (mux s) (outgoing s) (kx s) (now s) (draws s) (script s)
    (wire s) (compression_buffer s).
Definition set_extra_pad (v : Z) (s : ssh) : ssh :=
  mk_ssh (out_dir s) (in_dir s) (input s) (output s) (outgoing_packet s) (incoming_packet s)
    (max_packet_size s) (set_maxsize_called s) (server_side s) (after_authentication s) (keep_alive_timeouts s)
    (rekey_limit s) (rekey_interval s) (rekey_time s) v (packet_discard s) (packet_discard_mac_already s)
    (packet_discard_mac s) (packlen s) (rekeying s) (mux s) (outgoing s) (kx s) (now s) (draws s) (script s)
    (wire s) (compression_buffer s).
Definition set_packet_discard (v : Z) (s : ssh) : ssh :=
  mk_ssh (out_dir s) (in_dir s) (input s) (output s) (outgoing_packet s) (incoming_packet s)
    (max_packet_size s) (set_maxsize_called s) (server_side s) (after_authentication s) (keep_alive_timeouts s)
    (rekey_limit s) (rekey_interval s) (rekey_time s) (extra_pad s) v (packet_discard_mac_already s)
    (packet_discard_mac s) (packlen s) (rekeying s) (mux s) (outgoing s) (kx s) (now s) (draws s) (script s)
    (wire s) (compression_buffer s).
Definition set_packet_discard_mac_already (v : Z) (s : ssh) : ssh :=
  mk_ssh (out_dir s) (in_dir s) (input s) (output s) (outgoing_packet s) (incoming_packet s)
    (max_packet_size s) (set_maxsize_called s) (server_side s) (after_authentication s) (keep_alive_timeouts s)
    (rekey_limit s) (rekey_interval s) (rekey_time s) (extra_pad s) (packet_discard s) v (packet_discard_mac s)
    (packlen s) (rekeying s) (mux s) (outgoing s) (kx s) (now s) (draws s) (script s) (wire s) (compression_buffer s).
Definition set_packet_discard_mac (v : bool) (s : ssh) : ssh :=
  mk_ssh (out_dir s) (in_dir s) (input s) (output s) (outgoing_packet s) (incoming_packet s)
    (max_packet_size s) (set_maxsize_called s) (server_side s) (after_authentication s) (keep_alive_timeouts s)
    (rekey_limit s) (rekey_interval s) (rekey_time s) (extra_pad s) (packet_discard s)
    (packet_discard_mac_already s) v (packlen s) (rekeying s) (mux s) (outgoing s) (kx s) (now s) (draws s)
    (script s) (wire s) (compression_buffer s).
Definition set_packlen (v : Z) (s : ssh) : ssh :=
  mk_ssh (out_dir s) (in_dir s) (input s) (output s) (outgoing_packet s) (incoming_packet s)
    (max_packet_size s) (set_maxsize_called s) (server_side s) (after_authentication s) (keep_alive_timeouts s)
    (rekey_limit s) (rekey_interval s) (rekey_time s) (extra_pad s) (packet_discard s)
    (packet_discard_mac_already s) (packet_discard_mac s) v (rekeying s) (mux s) (outgoing s) (kx s) (now s)
    (draws s) (script s) (wire s) (compression_buffer s).
Definition set_rekeying (v : bool) (s : ssh) : ssh :=
  mk_ssh (out_dir s) (in_dir s) (input s) (output s) (outgoing_packet s) (incoming_packet s)
    (max_packet_size s) (set_maxsize_called s) (server_side s) (after_authentication s) (keep_alive_timeouts s)
    (rekey_limit s) (rekey_interval s) (rekey_time s) (extra_pad s) (packet_discard s)
    (packet_discard_mac_already s) (packet_discard_mac s) (packlen s) v (mux s) (outgoing s) (kx s) (now s)
    (draws s) (script s) (wire s) (compression_buffer s).
Definition set_mux (v : bool) (s : ssh) : ssh :=
  mk_ssh (out_dir s) (in_dir s) (input s) (output s) (outgoing_packet s) (incoming_packet s)
    (max_packet_size s) (set_maxsize_called s) (server_side s) (after_authentication s) (keep_alive_timeouts s)
    (rekey_limit s) (rekey_interval s) (rekey_time s) (extra_pad s) (packet_discard s)
    (packet_discard_mac_already s) (packet_discard_mac s) (packlen s) (rekeying s) v (outgoing s) (kx s)
    (now s) (draws s) (script s) (wire s) (compression_buffer s).
Definition set_outgoing (v : list (Z * list Z)) (s : ssh) : ssh :=
  mk_ssh (out_dir s) (in_dir s) (input s) (output s) (outgoing_packet s) (incoming_packet s)
    (max_packet_size s) (set_maxsize_called s) (server_side s) (after_authentication s) (keep_alive_timeouts s)
    (rekey_limit s) (rekey_interval s) (rekey_time s) (extra_pad s) (packet_discard s)
    (packet_discard_mac_already s) (packet_discard_mac s) (packlen s) (rekeying s) (mux s) v (kx s) (now s)
    (draws s) (script s) (wire s) (compression_buffer s).
Definition set_kx (v : kex) (s : ssh) : ssh :=
  mk_ssh (out_dir s) (in_dir s) (input s) (output s) (outgoing_packet s) (incoming_packet s)
    (max_packet_size s) (set_maxsize_called s) (server_side s) (after_authentication s) (keep_alive_timeouts s)
    (rekey_limit s) (rekey_interval s) (rekey_time s) (extra_pad s) (packet_discard s)
    (packet_discard_mac_already s) (packet_discard_mac s) (packlen s) (rekeying s) (mux s) (outgoing s) v
    (now s) (draws s) (script s) (wire s) (compression_buffer s).
Definition set_now (v : Z) (s : ssh) : ssh :=
  mk_ssh (out_dir s) (in_dir s) (input s) (output s) (outgoing_packet s) (incoming_packet s)
    (max_packet_size s) (set_maxsize_called s) (server_side s) (after_authentication s) (keep_alive_timeouts s)
    (rekey_limit s) (rekey_interval s) (rekey_time s) (extra_pad s) (packet_discard s)
    (packet_discard_mac_already s) (packet_discard_mac s) (packlen s) (rekeying s) (mux s) (outgoing s)
    (kx s) v (draws s) (script s) (wire s) (compression_buffer s).
Definition set_draws (v : Z) (s : ssh) : ssh :=
  mk_ssh (out_dir s) (in_dir s) (input s) (output s) (outgoing_packet s) (incoming_packet s)
    (max_packet_size s) (set_maxsize_called s) (server_side s) (after_authentication s) (keep_alive_timeouts s)
    (rekey_limit s) (rekey_interval s) (rekey_time s) (extra_pad s) (packet_discard s)
    (packet_discard_mac_already s) (packet_discard_mac s) (packlen s) (rekeying s) (mux s) (outgoing s) (kx s)
    (now s) v (script s) (wire s) (compression_buffer s).
Definition set_script (v : list write_result) (s : ssh) : ssh :=
  mk_ssh (out_dir s) (in_dir s) (input s) (output s) (outgoing_packet s) (incoming_packet s)
    (max_packet_size s) (set_maxsize_called s) (server_side s) (after_authentication s) (keep_alive_timeouts s)
    (rekey_limit s) (rekey_interval s) (rekey_time s) (extra_pad s) (packet_discard s)
    (packet_discard_mac_already s) (packet_discard_mac s) (packlen s) (rekeying s) (mux s) (outgoing s) (kx s)
    (now s) (draws s) v (wire s) (compression_buffer s).
Definition set_wire (v : list Z) (s : ssh) : ssh :=
  mk_ssh (out_dir s) (in_dir s) (input s) (output s) (outgoing_packet s) (incoming_packet s)
    (max_packet_size s) (set_maxsize_called s) (server_side s) (after_authentication s) (keep_alive_timeouts s)
    (rekey_limit s) (rekey_interval s) (rekey_time s) (extra_pad s) (packet_discard s)
    (packet_discard_mac_already s) (packet_discard_mac s) (packlen s) (rekeying s) (mux s) (outgoing s) (kx s)
    (now s) (draws s) (script s) v (compression_buffer s).
Definition set_compression_buffer (v : bool) (s : ssh) : ssh :=
  mk_ssh (out_dir s) (in_dir s) (input s) (output s) (outgoing_packet s) (incoming_packet s)
    (max_packet_size s) (set_maxsize_called s) (server_side s) (after_authentication s) (keep_alive_timeouts s)
    (rekey_limit s) (rekey_interval s) (rekey_time s) (extra_pad s) (packet_discard s)
    (packet_discard_mac_already s) (packet_discard_mac s) (packlen s) (rekeying s) (mux s) (outgoing s) (kx s)
    (now s) (draws s) (script s) (wire s) v.

Definition modify (f : ssh -> ssh) : SE ssh unit := se_modify f.
Definition fail {A} (e : ssherr) : SE ssh A := fun s => (Err e, s).
Definition lift {A} (r : result A) : SE ssh A := fun s => (r, s).
(** The error of a call that does not end the caller. *)
Definition attempt (m : SE ssh unit) : SE ssh (result unit) := fun s => let '(r, s) := m s in (Ok r, s).

(** * Buffers *)

Definition bput (b v : list Z) : result (list Z) :=
  if (SSHBUF_SIZE_MAX <? zlen v) || (SSHBUF_SIZE_MAX - zlen v <? zlen b) then Err SSH_ERR_NO_BUFFER_SPACE else Ok (b ++ v).
Definition bconsume (n : Z) (b : list Z) : result (list Z) :=
  if n >? zlen b then Err SSH_ERR_MESSAGE_INCOMPLETE else Ok (zdrop n b).
Definition bconsume_end (n : Z) (b : list Z) : result (list Z) :=
  if n >? zlen b then Err SSH_ERR_MESSAGE_INCOMPLETE else Ok (ztake (zlen b - n) b).

(** ** Parts of a packet (sshpkt_put and sshpkt_get) *)

Definition sshpkt_put (v : list Z) : SE ssh unit :=
  s ← se_get; b ← lift (bput (outgoing_packet s) v); modify (set_outgoing_packet b).
Definition sshpkt_put_u8 (x : Z) : SE ssh unit := sshpkt_put [u8 x].
Definition sshpkt_put_u32 (x : Z) : SE ssh unit := sshpkt_put (POKE_U32 x).
Definition sshpkt_put_cstring (v : list Z) : SE ssh unit :=
  if zlen v >? SSHBUF_SIZE_MAX - 4 then fail SSH_ERR_NO_BUFFER_SPACE else sshpkt_put (POKE_U32 (zlen v) ++ v).

Definition sshpkt_get (n : Z) : SE ssh (list Z) :=
  s ← se_get; b ← lift (bconsume n (incoming_packet s)); _ ← modify (set_incoming_packet b);
  mret (ztake n (incoming_packet s)).
Definition sshpkt_get_u8 : SE ssh Z := p ← sshpkt_get 1; mret (znth p 0).
Definition sshpkt_get_u32 : SE ssh Z := p ← sshpkt_get 4; mret (PEEK_U32 p).
Definition sshpkt_get_string : SE ssh (list Z) :=
  s ← se_get;
  let b := incoming_packet s in
  if zlen b <? 4 then fail SSH_ERR_MESSAGE_INCOMPLETE
  else
    let len := PEEK_U32 b in
    if len >? SSHBUF_SIZE_MAX - 4 then fail SSH_ERR_STRING_TOO_LARGE
    else if zlen b - 4 <? len then fail SSH_ERR_MESSAGE_INCOMPLETE
    else _ ← sshpkt_get 4; sshpkt_get len.
Definition sshpkt_get_end : SE ssh unit :=
  s ← se_get; if zlen (incoming_packet s) >? 0 then fail SSH_ERR_UNEXPECTED_TRAILING_DATA else mret tt.
Definition ssh_packet_remaining (s : ssh) : Z := zlen (incoming_packet s).

Definition sshpkt_start (type : Z) : SE ssh unit :=
  b ← lift (bput [] [0; 0; 0; 0; 0; u8 type]); modify (set_outgoing_packet b).
Definition sshpkt_add_padding (pad : Z) : SE ssh unit := modify (set_extra_pad (u8 pad)).

(** * Compression *)

Definition start_compression_out (level : Z) : SE ssh unit :=
  if (level <? 1) || (level >? 9) then fail SSH_ERR_INVALID_ARGUMENT
  else
    match deflateInit level with
    | (Z_OK, z) => modify (fun s => set_out_dir (dir_z z (out_dir s)) s)
    | (Z_MEM_ERROR, _) => fail SSH_ERR_ALLOC_FAIL
    | _ => fail SSH_ERR_INTERNAL_ERROR
    end.

Definition start_compression_in : SE ssh unit :=
  match inflateInit with
  | (Z_OK, z) => modify (fun s => set_in_dir (dir_z z (in_dir s)) s)
  | (Z_MEM_ERROR, _) => fail SSH_ERR_ALLOC_FAIL
  | _ => fail SSH_ERR_INTERNAL_ERROR
  end.

(** A turn of the loop of [compress_buffer]: the stream, the input that is left and
    the output so far, or the result, the stream, and whether a failure is counted. *)
Definition compress_turn (st : zdeflate * list Z * list Z) : (zdeflate * list Z * list Z) + (result (list Z) * zdeflate * bool) :=
  let '(z, inp, out) := st in
  let r := deflate z inp 4096 in
  match z_status r with
  | Z_MEM_ERROR => inr (Err SSH_ERR_ALLOC_FAIL, z_stream r, false)
  | Z_OK =>
      match bput out (z_out r) with
      | Err e => inr (Err e, z_stream r, false)
      | Ok out => if zlen (z_out r) =? 4096 then inl (z_stream r, z_rest r, out) else inr (Ok out, z_stream r, false)
      end
  | _ => inr (Err SSH_ERR_INVALID_FORMAT, z_stream r, true)
  end.

(** Each turn adds 4096 bytes to a buffer that takes 2^27: 2^16 turns are enough. *)
Definition compress_loop (z : zdeflate) (inp : list Z) : result (list Z) * zdeflate * bool :=
  match turns 16 compress_turn (z, inp, []) with
  | inr r => r
  | inl (z, _, _) => (Err SSH_ERR_INTERNAL_ERROR, z, false)
  end.

Definition compress_buffer (inp : list Z) : SE ssh (list Z) := fun s =>
  match d_z (out_dir s) with
  | None => (Err SSH_ERR_INTERNAL_ERROR, s)
  | Some z =>
      if zlen inp =? 0 then (Ok [], s)
      else
        let '(r, z, f) := compress_loop z inp in
        let d := dir_z (Some z) (out_dir s) in
        (r, set_out_dir (if f then dir_fail d else d) s)
  end.

(** A turn of the loop of [uncompress_buffer]. *)
Definition uncompress_turn (st : zinflate * list Z * list Z) : (zinflate * list Z * list Z) + (result (list Z) * zinflate * bool) :=
  let '(z, inp, out) := st in
  let r := inflate z inp 4096 in
  match z_status r with
  | Z_OK =>
      match bput out (z_out r) with
      | Err e => inr (Err e, z_stream r, false)
      | Ok out => inl (z_stream r, z_rest r, out)
      end
  | Z_BUF_ERROR => inr (Ok out, z_stream r, false)
  | Z_DATA_ERROR => inr (Err SSH_ERR_INVALID_FORMAT, z_stream r, false)
  | Z_MEM_ERROR => inr (Err SSH_ERR_ALLOC_FAIL, z_stream r, false)
  | _ => inr (Err SSH_ERR_INTERNAL_ERROR, z_stream r, true)
  end.

(** Each turn takes input or adds output, of at most 2^27 bytes each. *)
Definition uncompress_loop (z : zinflate) (inp : list Z) : result (list Z) * zinflate * bool :=
  match turns 29 uncompress_turn (z, inp, []) with
  | inr r => r
  | inl (z, _, _) => (Err SSH_ERR_INTERNAL_ERROR, z, false)
  end.

Definition uncompress_buffer (inp : list Z) : SE ssh (list Z) := fun s =>
  match d_z (in_dir s) with
  | None => (Err SSH_ERR_INTERNAL_ERROR, s)
  | Some z =>
      let '(r, z, f) := uncompress_loop z inp in
      let d := dir_z (Some z) (in_dir s) in
      (r, set_in_dir (if f then dir_fail d else d) s)
  end.

(** * Keys *)

Definition comp_on (c : sshcomp) : sshcomp := mk_comp (comp_type c) true (comp_name c).
Definition keys_mac (m : sshmac) (nk : newkeys) : newkeys := mk_newkeys (nk_enc nk) m (nk_comp nk).
Definition keys_comp (c : sshcomp) (nk : newkeys) : newkeys := mk_newkeys (nk_enc nk) (nk_mac nk) c.
Definition mac_on (m : sshmac) : sshmac :=
  mk_mac (mac_name m) true (mac_len m) (mac_key m) (mac_key_len m) (mac_type m) (mac_etm m) (hmac_ctx m) (umac_ctx m).

(** Allocation of the scratch buffer; its contents are not kept between packets. *)
Definition ssh_packet_init_compression : SE ssh unit :=
  s ← se_get;
  if compression_buffer s then mret tt
  else match sshbuf_new with Some _ => modify (set_compression_buffer true) | None => fail SSH_ERR_ALLOC_FAIL end.

(** The fields of the direction [mode]. *)
Definition mode_keys (mode : kex_mode) (s : ssh) : option newkeys :=
  match mode with MODE_IN => d_keys (in_dir s) | MODE_OUT => d_keys (out_dir s) end.
Definition set_mode_keys (mode : kex_mode) (k : option newkeys) : ssh -> ssh := fun s =>
  match mode with MODE_IN => set_in_dir (dir_keys k (in_dir s)) s | MODE_OUT => set_out_dir (dir_keys k (out_dir s)) s end.
Definition set_mode_ctx (mode : kex_mode) (c : option sshcipher_ctx) : ssh -> ssh := fun s =>
  match mode with MODE_IN => set_in_dir (dir_ctx c (in_dir s)) s | MODE_OUT => set_out_dir (dir_ctx c (out_dir s)) s end.
Definition reset_counters (p : packet_state) : packet_state := mk_ps (seqnr p) 0 0 (bytes p).
Definition reset_mode_counters (mode : kex_mode) : ssh -> ssh := fun s =>
  match mode with
  | MODE_IN => set_in_dir (dir_ps (reset_counters (d_ps (in_dir s))) (in_dir s)) s
  | MODE_OUT => set_out_dir (dir_ps (reset_counters (d_ps (out_dir s))) (out_dir s)) s
  end.
Definition set_mode_max (mode : kex_mode) (m : Z) : ssh -> ssh := fun s =>
  match mode with MODE_IN => set_in_dir (dir_max m (in_dir s)) s | MODE_OUT => set_out_dir (dir_max m (out_dir s)) s end.

Definition start_compression (mode : kex_mode) : SE ssh unit :=
  match mode with MODE_OUT => start_compression_out 6 | MODE_IN => start_compression_in end.

Definition rekey_blocks (limit block_size : Z) : Z :=
  let m := if block_size >=? 16 then u64 (Z.shiftl 1 (block_size * 2)) else Z.shiftl 1 30 / block_size in
  if limit =? 0 then m else MINIMUM m (limit / block_size).

(** The MAC is initialised unless the cipher authenticates. *)
Definition newkeys_mac_init (nk : newkeys) : result unit * newkeys :=
  if enc_authlen (nk_enc nk) =? 0 then let '(r, m) := mac_init (nk_mac nk) in (r, keys_mac m nk) else (Ok tt, nk).

Definition newkeys_cipher_init (mode : kex_mode) (e : sshenc) : result sshcipher_ctx :=
  match enc_cipher e with
  | None => Err SSH_ERR_INTERNAL_ERROR
  | Some c =>
      cipher_init c (enc_key e) (enc_key_len e) (enc_iv e) (enc_iv_len e)
        (match mode with MODE_OUT => true | MODE_IN => false end)
  end.

Definition comp_due (after_auth : bool) (c : sshcomp) : bool :=
  ((comp_type c =? COMP_ZLIB) || ((comp_type c =? COMP_DELAYED) && after_auth)) && negb (comp_enabled c).

Definition ssh_set_newkeys (mode : kex_mode) : SE ssh unit :=
  _ ← modify (fun s => reset_mode_counters mode (set_mode_keys mode None s));
  s ← se_get;
  match newkeys_of mode (kx s) with
  | None => fail SSH_ERR_INTERNAL_ERROR
  | Some nk =>
      _ ← modify (set_kx (set_newkeys mode None (kx s)));
      let '(r, nk) := newkeys_mac_init nk in
      _ ← modify (set_mode_keys mode (Some nk));
      _ ← lift r;
      let nk := keys_mac (mac_on (nk_mac nk)) nk in
      _ ← modify (set_mode_keys mode (Some nk));
      _ ← modify (set_mode_ctx mode None);
      cc ← lift (newkeys_cipher_init mode (nk_enc nk));
      _ ← modify (set_mode_ctx mode (Some cc));
      _ ← (if comp_due (after_authentication s) (nk_comp nk) then
             _ ← ssh_packet_init_compression;
             _ ← start_compression mode;
             modify (set_mode_keys mode (Some (keys_comp (comp_on (nk_comp nk)) nk)))
           else mret tt);
      modify (set_mode_max mode (rekey_blocks (rekey_limit s) (enc_block_size (nk_enc nk))))
  end.

(** One round of the loop of [ssh_packet_enable_delayed_compress]. *)
Definition enable_delayed_mode (mode : kex_mode) : SE ssh unit :=
  s ← se_get;
  match mode_keys mode s with
  | None => mret tt
  | Some nk =>
      if negb (comp_enabled (nk_comp nk)) && (comp_type (nk_comp nk) =? COMP_DELAYED) then
        _ ← ssh_packet_init_compression;
        _ ← start_compression mode;
        modify (set_mode_keys mode (Some (keys_comp (comp_on (nk_comp nk)) nk)))
      else mret tt
  end.

Definition ssh_packet_enable_delayed_compress : SE ssh unit :=
  _ ← modify (set_after_authentication true);
  _ ← enable_delayed_mode MODE_IN;
  enable_delayed_mode MODE_OUT.

(** * Sending *)

(** What both directions compute from their keys first: the tag length of the
    cipher, the MAC unless the cipher authenticates, the compression, the block
    size, and the length of the part that is not encrypted. *)
Record params := mk_params {
  authlen : Z; p_enc : option sshenc; p_mac : option sshmac; p_comp : option sshcomp; block_size : Z; aadlen : Z
}.

Definition mac_live (m : option sshmac) : bool := match m with Some m => mac_enabled m | None => false end.
Definition mac_is_etm (m : option sshmac) : bool := match m with Some m => mac_enabled m && mac_etm m | None => false end.

Definition dir_params {S} (d : dir S) : params :=
  match d_keys d with
  | None => mk_params 0 None None None 8 0
  | Some nk =>
      let authlen := enc_authlen (nk_enc nk) in
      let mac := if authlen =? 0 then Some (nk_mac nk) else None in
      mk_params authlen (Some (nk_enc nk)) mac (Some (nk_comp nk)) (enc_block_size (nk_enc nk))
        (if mac_is_etm mac || negb (authlen =? 0) then 4 else 0)
  end.

Definition comp_live (c : option sshcomp) : bool := match c with Some c => comp_enabled c | None => false end.

(** A computation of the MAC of a direction, which changes its context. *)
Definition with_mac {A} (mode : kex_mode) (f : SE sshmac A) : SE ssh A := fun s =>
  match mode_keys mode s with
  | None => (Err SSH_ERR_INTERNAL_ERROR, s)
  | Some nk => let '(r, m) := f (nk_mac nk) in (r, set_mode_keys mode (Some (keys_mac m nk)) s)
  end.

(** [cipher_crypt] with the context of a direction, into unwritten memory. *)
Definition with_ctx (mode : kex_mode) (seq : Z) (src : list Z) (len aad auth dlen : Z) : SE ssh (list Z) := fun s =>
  match (match mode with MODE_IN => d_ctx (in_dir s) | MODE_OUT => d_ctx (out_dir s) end) with
  | None => (Err SSH_ERR_INTERNAL_ERROR, s)
  | Some cc =>
      let '(r, cc, dest) := cipher_crypt cc seq (uninit dlen) src len aad auth in
      (match r with Ok _ => Ok dest | Err e => Err e end, set_mode_ctx mode (Some cc) s)
  end.

(** The random numbers are drawn one after the other. *)
Definition random_bytes_of (n : Z) : SE ssh (list Z) := fun s =>
  (Ok (arc4random_buf (draws s) n), set_draws (draws s + 1) s).

(** The payload is compressed and the header put back. *)
Definition compress_outgoing : SE ssh unit :=
  s ← se_get;
  b ← lift (bconsume 5 (outgoing_packet s));
  c ← compress_buffer b;
  _ ← modify (set_outgoing_packet []);
  b ← lift (bput [0; 0; 0; 0; 0] c);
  modify (set_outgoing_packet b).

(** The length of the padding, of which at least 4 bytes; u_char arithmetic. *)
Definition base_padlen (bs len : Z) : Z :=
  let padlen := u8 (bs - len mod bs) in
  if padlen <? 4 then u8 (padlen + bs) else padlen.

Definition pad_length (bs len : Z) : SE ssh Z :=
  let padlen := base_padlen bs len in
  s ← se_get;
  if extra_pad s =? 0 then mret padlen
  else
    let tmp := extra_pad s in
    let extra := u8 (ROUNDUP (extra_pad s) bs) in
    _ ← modify (set_extra_pad extra);
    if extra <? tmp then fail SSH_ERR_INVALID_ARGUMENT
    else
      let tmp := u8 (u32 (len + padlen) mod extra) in
      if tmp >? extra then fail SSH_ERR_INVALID_ARGUMENT
      else
        let pad := u8 (extra - tmp) in
        let tmp := padlen in
        let padlen := u8 (padlen + pad) in
        if padlen <? tmp then fail SSH_ERR_INVALID_ARGUMENT
        else _ ← modify (set_extra_pad 0); mret padlen.

Definition ctx_plaintext (c : option sshcipher_ctx) : bool :=
  match c with Some c => cipher_ctx_is_plaintext c | None => false end.

(** The packet with its padding, length and padding length. *)
Definition pad_outgoing (p : params) : SE ssh (list Z) :=
  s ← se_get;
  let len := u32 (zlen (outgoing_packet s) - aadlen p) in
  padlen ← pad_length (block_size p) len;
  s ← se_get;
  padding ← (match p_enc p with
             | Some _ => if ctx_plaintext (d_ctx (out_dir s)) then mret (zrepeat padlen) else random_bytes_of padlen
             | None => mret (zrepeat padlen)
             end);
  b ← lift (bput (outgoing_packet s) padding);
  let len := u32 (zlen b) in
  let b := mem_write b 0 (POKE_U32 (u32 (len - 4)) ++ [padlen]) in
  _ ← modify (set_outgoing_packet b);
  mret b.

Definition count_packet (bs len : Z) (ps : packet_state) : packet_state :=
  mk_ps (u32 (seqnr ps + 1)) (u32 (packets ps + 1)) (u64 (blocks ps + len / bs)) (u64 (bytes ps + len)).

(** MAC over the plain packet, encryption into the output, MAC over the
    encrypted packet. *)
Definition seal_outgoing (p : params) (pkt : list Z) : SE ssh unit :=
  s ← se_get;
  let seq := seqnr (d_ps (out_dir s)) in
  let len := u32 (zlen pkt) in
  mac ← (if mac_live (p_mac p) && negb (mac_is_etm (p_mac p)) then with_mac MODE_OUT (mac_compute seq pkt SSH_DIGEST_MAX_LENGTH)
         else mret []);
  _ ← lift (bput (output s) (uninit (zlen pkt + authlen p)));
  _ ← modify (set_output (output s ++ uninit (zlen pkt + authlen p)));
  c ← with_ctx MODE_OUT seq pkt (u32 (len - aadlen p)) (aadlen p) (authlen p) (zlen pkt + authlen p);
  _ ← modify (set_output (output s ++ c));
  if mac_live (p_mac p) then
    mac ← (if mac_is_etm (p_mac p) then with_mac MODE_OUT (mac_compute seq (ztake len c) SSH_DIGEST_MAX_LENGTH) else mret mac);
    s ← se_get;
    b ← lift (bput (output s) mac);
    modify (set_output b)
  else mret tt.

Definition ssh_packet_send2_wrapped : SE ssh unit :=
  s ← se_get;
  let p := dir_params (out_dir s) in
  let type := znth (outgoing_packet s) 5 in
  _ ← (if comp_live (p_comp p) then compress_outgoing else mret tt);
  pkt ← pad_outgoing p;
  _ ← seal_outgoing p pkt;
  s ← se_get;
  let ps := d_ps (out_dir s) in
  let counted := count_packet (block_size p) (u32 (zlen pkt)) ps in
  if (packets counted =? 0) && negb bug_norekey then
    _ ← modify (set_out_dir (dir_ps (mk_ps (seqnr counted) (packets counted) (blocks ps) (bytes ps)) (out_dir s)));
    fail SSH_ERR_NEED_REKEY
  else
    _ ← modify (set_out_dir (dir_ps counted (out_dir s)));
    _ ← modify (set_outgoing_packet []);
    if type =? SSH2_MSG_NEWKEYS then ssh_set_newkeys MODE_OUT
    else if (type =? SSH2_MSG_USERAUTH_SUCCESS) && server_side s then ssh_packet_enable_delayed_compress
    else mret tt.

(** ** Rekeying *)

Definition ssh_packet_is_rekeying (s : ssh) : bool := rekeying s || negb (kex_done (kx s)).

(** [ROUNDUP] at the width of u_int. *)
Definition ROUNDUP32 (x y : Z) : Z := u32 (u32 (x + (y - 1)) / y * y).

Definition ssh_packet_need_rekeying (outbound_packet_len : Z) (s : ssh) : bool :=
  let ps := d_ps (out_dir s) in
  let pr := d_ps (in_dir s) in
  if negb (after_authentication s) then false
  else if ssh_packet_is_rekeying s then false
  else if bug_norekey then false
  else if (packets ps =? 0) && (packets pr =? 0) then false
  else if negb (rekey_interval s =? 0) && (rekey_time s + rekey_interval s <=? now s) then true
  else if (packets ps >? MAX_PACKETS) || (packets pr >? MAX_PACKETS) then true
  else
    let out_blocks := ROUNDUP32 outbound_packet_len (block_size (dir_params (out_dir s))) in
    (negb (d_max_blocks (out_dir s) =? 0) && (u64 (blocks ps + out_blocks) >? d_max_blocks (out_dir s))) ||
    (negb (d_max_blocks (in_dir s) =? 0) && (blocks pr >? d_max_blocks (in_dir s))).

Definition ssh_packet_type_is_kex (type : Z) : bool :=
  (type >=? SSH2_MSG_TRANSPORT_MIN) && (type <=? SSH2_MSG_TRANSPORT_MAX) &&
  negb (type =? SSH2_MSG_SERVICE_REQUEST) && negb (type =? SSH2_MSG_SERVICE_ACCEPT) && negb (type =? SSH2_MSG_EXT_INFO).

Definition SIZEOF_PACKET : Z := 32.

(** The queue is sent after NEWKEYS until a packet asks for a new key exchange;
    [fuel] is the length of the queue. *)
Fixpoint send_queue (rekex : SE ssh unit) (fuel : nat) : SE ssh unit :=
  match fuel with
  | O => mret tt
  | S fuel =>
      s ← se_get;
      match outgoing s with
      | [] => mret tt
      | (_, payload) :: rest =>
          if ssh_packet_need_rekeying (u32 (zlen payload)) s then rekex
          else
            _ ← modify (fun s => set_outgoing rest (set_outgoing_packet payload s));
            _ ← ssh_packet_send2_wrapped;
            send_queue rekex fuel
      end
  end.

(** [ssh_packet_send2]; [rekex] is [kex_start_rekex], which calls it again. *)
Definition send2_body (rekex : SE ssh unit) : SE ssh unit :=
  s ← se_get;
  if zlen (outgoing_packet s) <? 6 then fail SSH_ERR_INTERNAL_ERROR
  else
    let type := znth (outgoing_packet s) 5 in
    let need_rekey := negb (ssh_packet_type_is_kex type) && ssh_packet_need_rekeying (u32 (zlen (outgoing_packet s))) s in
    if (need_rekey || rekeying s) && negb (ssh_packet_type_is_kex type) then
      if negb (malloc_ok SIZEOF_PACKET) then fail SSH_ERR_ALLOC_FAIL
      else
        _ ← modify (set_outgoing (outgoing s ++ [(type, outgoing_packet s)]));
        match sshbuf_new with
        | None => fail SSH_ERR_ALLOC_FAIL
        | Some _ => _ ← modify (set_outgoing_packet []); if need_rekey then rekex else mret tt
        end
    else
      _ ← (if type =? SSH2_MSG_KEXINIT then modify (set_rekeying true) else mret tt);
      _ ← ssh_packet_send2_wrapped;
      if type =? SSH2_MSG_NEWKEYS then
        _ ← modify (fun s => set_rekey_time (now s) (set_rekeying false s));
        s ← se_get;
        send_queue rekex (length (outgoing s))
      else mret tt.

(** ** Multiplexing *)

Definition ssh_packet_send_mux : SE ssh unit :=
  s ← se_get;
  let b := outgoing_packet s in
  if zlen b <? 6 then fail SSH_ERR_INTERNAL_ERROR
  else
    let type := znth b 5 in
    _ ← (if (type >=? SSH2_MSG_CONNECTION_MIN) && (type <=? SSH2_MSG_CONNECTION_MAX) then
           let b := mem_write b 0 (POKE_U32 (u32 (zlen b - 4))) in
           _ ← modify (set_outgoing_packet b);
           o ← lift (bput (output s) b);
           modify (set_output o)
         else mret tt);
    modify (set_outgoing_packet []).

Definition send_body (rekex : SE ssh unit) : SE ssh unit :=
  s ← se_get; if mux s then ssh_packet_send_mux else send2_body rekex.

(** KEXINIT is a message of the key exchange, so the call of [ssh_packet_send2]
    in [kex_send_kexinit] does not reach [rekex]. *)
Definition kex_send_kexinit : SE ssh unit :=
  s ← se_get;
  let k := kx s in
  if negb (Z.land (flags k) KEX_INIT_SENT =? 0) then mret tt
  else
    _ ← modify (set_kx (set_flow false (flags k) k));
    if sshbuf_len (my k) <? KEX_COOKIE_LEN then fail SSH_ERR_INVALID_FORMAT
    else
      match sshbuf_mutable_ptr (my k) with
      | None => fail SSH_ERR_INTERNAL_ERROR
      | Some p =>
          cookie ← random_bytes_of KEX_COOKIE_LEN;
          let b := snd (buf_write p cookie (my k)) in
          _ ← modify (fun s => set_kx (set_bufs b (peer (kx s)) (kx s)) s);
          _ ← sshpkt_start SSH2_MSG_KEXINIT;
          _ ← sshpkt_put (contents b);
          _ ← send_body (fail SSH_ERR_INTERNAL_ERROR);
          modify (fun s => set_kx (set_flow (kex_done (kx s)) (Z.lor (flags (kx s)) KEX_INIT_SENT) (kx s)) s)
      end.

Definition kex_start_rekex : SE ssh unit :=
  s ← se_get;
  if negb (kex_done (kx s)) then fail SSH_ERR_INTERNAL_ERROR
  else
    _ ← modify (set_kx (set_flow false (flags (kx s)) (kx s)));
    kex_send_kexinit.

Definition ssh_packet_send2 : SE ssh unit := send2_body kex_start_rekex.
Definition sshpkt_send : SE ssh unit := send_body kex_start_rekex.

Definition sshpkt_disconnect (msg : list Z) : SE ssh unit :=
  _ ← sshpkt_start SSH2_MSG_DISCONNECT;
  _ ← sshpkt_put_u32 SSH2_DISCONNECT_PROTOCOL_ERROR;
  _ ← sshpkt_put_cstring (ztake 1023 msg);
  _ ← sshpkt_put_cstring [];
  sshpkt_send.

(** ** Writing to the connection *)

Definition ssh_packet_have_data_to_write (s : ssh) : bool := negb (zlen (output s) =? 0).

Definition ssh_packet_write_poll (w : write_result) : SE ssh unit :=
  s ← se_get;
  if zlen (output s) >? 0 then
    match w with
    | WAgain => mret tt
    | WFailed => fail SSH_ERR_SYSTEM_ERROR
    | WTaken n =>
        if n =? 0 then fail SSH_ERR_CONN_CLOSED
        else
          b ← lift (bconsume n (output s));
          modify (fun s => set_wire (wire s ++ ztake n (output s)) (set_output b s))
    end
  else mret tt.

(** The outcomes of the writes come from [script]; when it ends, the connection
    takes nothing more before the time-out. *)
Fixpoint write_wait_loop (ws : list write_result) : SE ssh unit :=
  s ← se_get;
  if negb (ssh_packet_have_data_to_write s) then mret tt
  else
    match ws with
    | [] => fail SSH_ERR_CONN_TIMEOUT
    | w :: ws => _ ← modify (set_script ws); _ ← ssh_packet_write_poll w; write_wait_loop ws
    end.

Definition ssh_packet_write_wait : SE ssh unit := s ← se_get; write_wait_loop (script s).

(** * Reading *)

(** [while (len < dlen) put 1024 times 'a']. *)
Definition fill_discard (dlen : Z) (b : list Z) : list Z :=
  if zlen b <? dlen then b ++ replicate (Z.to_nat ((dlen - zlen b + 1023) / 1024 * 1024)) 97 else b.

Definition ignore_result {A} (m : SE ssh A) : SE ssh unit := fun s => let '(_, s) := m s in (Ok tt, s).

(** After an error of a CBC cipher the MAC is computed over as many bytes as a
    packet of the largest size would have had. *)
Definition ssh_packet_stop_discard : SE ssh unit :=
  s ← se_get;
  _ ← (if packet_discard_mac s then
         let dlen := if PACKET_MAX_SIZE >? packet_discard_mac_already s then PACKET_MAX_SIZE - packet_discard_mac_already s
                     else PACKET_MAX_SIZE in
         let b := fill_discard dlen (incoming_packet s) in
         _ ← modify (set_incoming_packet b);
         ignore_result (with_mac MODE_IN (mac_compute (seqnr (d_ps (in_dir s))) (ztake dlen b) 0))
       else mret tt);
  fail SSH_ERR_MAC_INVALID.

Definition ssh_packet_start_discard (enc : option sshenc) (mac : option sshmac) (mac_already discard : Z) : SE ssh unit :=
  let cbc := match enc with Some e => match enc_cipher e with Some c => cipher_is_cbc c | None => false end | None => false end in
  if negb cbc || (match mac with Some m => mac_etm m | None => false end) then
    _ ← sshpkt_disconnect (str "Packet corrupt");
    fail SSH_ERR_MAC_INVALID
  else
    _ ← (if mac_live mac then
           modify (fun s => set_packet_discard_mac true (set_packet_discard_mac_already mac_already s))
         else mret tt);
    s ← se_get;
    if zlen (input s) >=? discard then ssh_packet_stop_discard
    else modify (set_packet_discard (u32 (discard - zlen (input s)))).

Definition ssh_packet_read_poll2_mux : SE ssh Z :=
  s ← se_get;
  ok ← (if packlen s =? 0 then
          if zlen (input s) <? 4 + 1 then mret false
          else
            let n := PEEK_U32 (input s) in
            _ ← modify (set_packlen n);
            if (n <? 4 + 1) || (n >? PACKET_MAX_SIZE) then fail SSH_ERR_MESSAGE_INCOMPLETE else mret true
        else mret true);
  if negb ok then mret SSH_MSG_NONE
  else
    s ← se_get;
    let need := packlen s + 4 in
    if zlen (input s) <? need then mret SSH_MSG_NONE
    else
      b ← lift (bput [] (slice 4 (packlen s) (input s)));
      _ ← modify (set_incoming_packet b);
      i ← lift (bconsume need (input s));
      _ ← modify (set_input i);
      _ ← sshpkt_get_u8;
      type ← sshpkt_get_u8;
      _ ← modify (set_packlen 0);
      mret type.

(** The length of the next packet: whether it is known (or the rest of the
    function is left with no packet). *)
Definition bad_packlen (n : Z) : bool := (n <? 1 + 4) || (n >? PACKET_MAX_SIZE).

Definition read_packlen (p : params) : SE ssh bool :=
  s ← se_get;
  if negb (packlen s =? 0) then mret true
  else if negb (aadlen p =? 0) then
    match d_ctx (in_dir s) with
    | None => mret false
    | Some cc =>
        let '(r, cc) := cipher_get_length cc (seqnr (d_ps (in_dir s))) (input s) (u32 (zlen (input s))) in
        _ ← modify (set_mode_ctx MODE_IN (Some cc));
        match r with
        | Err _ => mret false
        | Ok n =>
            _ ← modify (set_packlen n);
            if bad_packlen n then _ ← sshpkt_disconnect (str "Packet corrupt"); fail SSH_ERR_CONN_CORRUPT
            else _ ← modify (set_incoming_packet []); mret true
        end
    end
  else if zlen (input s) <? block_size p then mret false
  else
    _ ← modify (set_incoming_packet (uninit (block_size p)));
    c ← with_ctx MODE_IN (seqnr (d_ps (out_dir s))) (input s) (block_size p) 0 0 (block_size p);
    let n := PEEK_U32 c in
    _ ← modify (fun s => set_packlen n (set_incoming_packet c s));
    if bad_packlen n then _ ← ssh_packet_start_discard (p_enc p) (p_mac p) 0 PACKET_MAX_SIZE; mret false
    else
      i ← lift (bconsume (block_size p) (input s));
      _ ← modify (set_input i);
      mret true.

(** A wrong MAC is not an error yet. *)
Definition mac_verdict (m : SE ssh unit) : SE ssh bool := fun s =>
  match m s with
  | (Ok _, s) => (Ok true, s)
  | (Err e, s) => if bool_decide (e = SSH_ERR_MAC_INVALID) then (Ok false, s) else (Err e, s)
  end.

(** Decryption of the [need] bytes that are left and the check of the MAC;
    [false] when the rest of the input is being discarded. *)
Definition open_incoming (p : params) (need maclen : Z) : SE ssh bool :=
  s ← se_get;
  let seq := seqnr (d_ps (in_dir s)) in
  let aad := aadlen p in
  _ ← (if mac_is_etm (p_mac p) then
         with_mac MODE_IN (mac_check seq (ztake (aad + need) (input s)) (slice (aad + need + authlen p) maclen (input s)) maclen)
       else mret tt);
  _ ← lift (bput (incoming_packet s) (uninit (aad + need)));
  _ ← modify (set_incoming_packet (incoming_packet s ++ uninit (aad + need)));
  c ← with_ctx MODE_IN seq (input s) need aad (authlen p) (aad + need);
  _ ← modify (set_incoming_packet (incoming_packet s ++ c));
  i ← lift (bconsume (aad + need + authlen p) (input s));
  _ ← modify (set_input i);
  if mac_live (p_mac p) then
    s ← se_get;
    good ← (if mac_is_etm (p_mac p) then mret true
            else mac_verdict (with_mac MODE_IN (mac_check seq (incoming_packet s) (ztake maclen (input s)) maclen)));
    if good : bool then
      i ← lift (bconsume (match p_mac p with Some m => mac_len m | None => 0 end) (input s));
      _ ← modify (set_input i);
      mret true
    else if u32 (need + block_size p) >? PACKET_MAX_SIZE then fail SSH_ERR_INTERNAL_ERROR
    else
      _ ← ssh_packet_start_discard (p_enc p) (p_mac p) (zlen (incoming_packet s)) (u32 (PACKET_MAX_SIZE - need - block_size p));
      mret false
  else mret true.

Definition num (n : Z) : list Z := str (pretty n).

(** Padding removed, payload decompressed, type read. *)
Definition read_payload (p : params) : SE ssh Z :=
  s ← se_get;
  let padlen := znth (incoming_packet s) 4 in
  if padlen <? 4 then
    _ ← sshpkt_disconnect (str "Corrupted padlen " ++ num padlen ++ str " on input.");
    _ ← ssh_packet_write_wait;
    fail SSH_ERR_CONN_CORRUPT
  else
    b ← lift (bconsume (4 + 1) (incoming_packet s));
    _ ← modify (set_incoming_packet b);
    b ← lift (bconsume_end padlen b);
    _ ← modify (set_incoming_packet b);
    _ ← (if comp_live (p_comp p) then
           c ← uncompress_buffer b;
           modify (set_incoming_packet c)
         else mret tt);
    type ← sshpkt_get_u8;
    if (type <? SSH2_MSG_MIN) || (type >=? SSH2_MSG_LOCAL_MIN) then
      _ ← sshpkt_disconnect (str "Invalid ssh2 packet type: " ++ num type);
      _ ← ssh_packet_write_wait;
      fail SSH_ERR_PROTOCOL_ERROR
    else mret type.

(** A whole packet, if the input has one: its type, and the error of starting
    the delayed compression. *)
Definition read_packet (p : params) : SE ssh (Z * result unit) :=
  s ← se_get;
  let need := if negb (aadlen p =? 0) then packlen s else u32 (4 + packlen s - block_size p) in
  let maclen := match p_mac p with Some m => if mac_enabled m then mac_len m else 0 | None => 0 end in
  if negb (need mod block_size p =? 0) then
    _ ← ssh_packet_start_discard (p_enc p) (p_mac p) 0 (u32 (PACKET_MAX_SIZE - block_size p)); mret (SSH_MSG_NONE, Ok tt)
  else if zlen (input s) <? u32 (aadlen p + need + authlen p + maclen) then mret (SSH_MSG_NONE, Ok tt)
  else
    ok ← open_incoming p need maclen;
    if negb ok then mret (SSH_MSG_NONE, Ok tt)
    else
      s ← se_get;
      let ps := d_ps (in_dir s) in
      let counted := count_packet (block_size p) (u32 (packlen s + 4)) ps in
      if (packets counted =? 0) && negb bug_norekey then
        _ ← modify (set_in_dir (dir_ps (mk_ps (seqnr counted) (packets counted) (blocks ps) (bytes ps)) (in_dir s)));
        fail SSH_ERR_NEED_REKEY
      else
        _ ← modify (set_in_dir (dir_ps counted (in_dir s)));
        type ← read_payload p;
        r ← attempt (if (type =? SSH2_MSG_USERAUTH_SUCCESS) && negb (server_side s) then ssh_packet_enable_delayed_compress
                     else mret tt);
        _ ← modify (set_packlen 0);
        mret (type, r).

(** The type of the packet that was read, [SSH_MSG_NONE] for none. *)
Definition ssh_packet_read_poll2 : SE ssh Z :=
  s ← se_get;
  if mux s then ssh_packet_read_poll2_mux
  else if negb (packet_discard s =? 0) then mret SSH_MSG_NONE
  else
    let p := dir_params (in_dir s) in
    known ← read_packlen p;
    if negb known then mret SSH_MSG_NONE
    else
      '(type, r) ← read_packet p;
      if type =? SSH_MSG_NONE then mret SSH_MSG_NONE
      else
        s ← se_get;
        _ ← (if ssh_packet_need_rekeying 0 s then kex_start_rekex else lift r);
        mret type.

(** The messages that the transport handles itself are skipped; [fuel] bounds the
    number of packets in the input. *)
Fixpoint read_poll_loop (fuel : nat) : SE ssh Z :=
  match fuel with
  | O => mret SSH_MSG_NONE
  | S fuel =>
      type ← ssh_packet_read_poll2;
      _ ← (if negb (type =? SSH_MSG_NONE) then modify (set_keep_alive_timeouts 0) else mret tt);
      if type =? SSH2_MSG_IGNORE then read_poll_loop fuel
      else if type =? SSH2_MSG_DEBUG then
        _ ← sshpkt_get_u8; _ ← sshpkt_get_string; _ ← sshpkt_get_string; read_poll_loop fuel
      else if type =? SSH2_MSG_DISCONNECT then
        _ ← sshpkt_get_u32; _ ← sshpkt_get_string; fail SSH_ERR_DISCONNECTED
      else if type =? SSH2_MSG_UNIMPLEMENTED then _ ← sshpkt_get_u32; read_poll_loop fuel
      else mret type
  end.

Definition ssh_packet_read_poll_seqnr : SE ssh Z := s ← se_get; read_poll_loop (S (length (input s))).

Definition ssh_packet_process_incoming (buf : list Z) : SE ssh unit :=
  s ← se_get;
  if negb (packet_discard s =? 0) then
    _ ← modify (set_keep_alive_timeouts 0);
    _ ← (if u32 (zlen buf) >=? packet_discard s then ssh_packet_stop_discard else mret tt);
    modify (set_packet_discard (u32 (packet_discard s - zlen buf)))
  else
    b ← lift (bput (input s) buf);
    modify (set_input b).

(** ** Start and settings *)

Definition ssh_packet_set_server : ssh -> ssh := fun s =>
  let k := kx s in
  set_server_side true (set_kx (mk_kex (session_id k) (newkeys_in k) (newkeys_out k) (we_need k) (dh_need k) true (kex_name k)
    (hostkey_alg k) (kex_type k) (ext_info_c k) (my k) (peer k) (kex_done k) (flags k) (hash_alg k) (ec_nid k) (failed_choice k)) s).
Definition ssh_packet_set_authenticated : ssh -> ssh := set_after_authentication true.
Definition ssh_packet_set_mux : ssh -> ssh := fun s => set_rekeying false (set_mux true s).
Definition ssh_packet_set_rekey_limits (limit seconds : Z) : ssh -> ssh := fun s =>
  set_rekey_interval seconds (set_rekey_limit limit s).
Definition ssh_packet_get_rekey_timeout (s : ssh) : Z :=
  let seconds := rekey_time s + rekey_interval s - now s in if seconds <=? 0 then 1 else seconds.
Definition ssh_packet_inc_alive_timeouts : ssh -> Z * ssh := fun s =>
  (keep_alive_timeouts s + 1, set_keep_alive_timeouts (keep_alive_timeouts s + 1) s).
Definition ssh_packet_set_alive_timeouts (ka : Z) : ssh -> ssh := set_keep_alive_timeouts ka.
Definition ssh_packet_set_maxsize (n : Z) : ssh -> Z * ssh := fun s =>
  if set_maxsize_called s then (-1, s)
  else if (n <? 4 * 1024) || (n >? 1024 * 1024) then (-1, s)
  else (n, set_max_packet_size n (set_set_maxsize_called true s)).
Definition ssh_packet_get_maxsize (s : ssh) : Z := max_packet_size s.
Definition ssh_packet_set_postauth : SE ssh unit :=
  _ ← modify (fun s => set_rekeying false (set_after_authentication true s));
  ssh_packet_enable_delayed_compress.

(** [ssh_alloc_session_state] and [ssh_packet_set_connection]. *)
Definition dir_new {S} (cc : sshcipher_ctx) : dir S := mk_dir (Some cc) None (mk_ps 0 0 0 0) 0 None 0.

Definition session_new (k : kex) (t : Z) (ws : list write_result) (a b : sshcipher_ctx) : ssh :=
  mk_ssh (dir_new a) (dir_new b) [] [] [] [] 32768 false false false 0 0 0 0 0 0 0 false 0 true false [] k t 0 ws [] false.

Definition ssh_packet_set_connection (k : kex) (t : Z) (ws : list write_result) : option ssh :=
  match cipher_none with
  | None => None
  | Some none =>
      match cipher_init none (Some []) 0 None 0 true, cipher_init none (Some []) 0 None 0 false with
      | Ok a, Ok b => Some (session_new k t ws a b)
      | _, _ => None
      end
  end.

End packet.
