(* ===== verification/PacketKeep.v ===== *)
(** Reasoning about runs of packet.c: steps that cannot fail, successful runs, and
    which parts of a session an operation leaves alone. *)

From Stdlib Require Import String.
From S2P Require Import Prelude Match Sshbuf SshbufGetPut AlgNames Digest ChaCha Poly1305 ChachaPoly Cipher Kex Packet.
Local Open Scope Z_scope.

(** ** Successful runs *)

Lemma run_get {S A} (f : S -> SE S A) s : (se_get ≫= f) s = f s s.
Proof. done. Qed.
Lemma run_ret {S A B} (a : A) (f : A -> SE S B) s : ((mret a : SE S A) ≫= f) s = f a s.
Proof. done. Qed.

Lemma pair_eq {A B} (x : A * B) a : fst x = a -> x = (a, snd x).
Proof. by destruct x; cbn; intros ->. Qed.

Section runs.
Context `{EvpCipher} `{Zlib}.
Lemma run_modify {A} (g : ssh -> ssh) (f : unit -> SE ssh A) s : (modify g ≫= f) s = f tt (g s).
Proof. done. Qed.
Lemma run_lift {A B} (a : A) (f : A -> SE ssh B) s : (lift (Ok a) ≫= f) s = f a s.
Proof. done. Qed.
End runs.

(** The next steps that cannot fail. *)
Ltac run := repeat (first [rewrite run_get | rewrite run_modify | rewrite run_ret | rewrite run_lift]; cbv beta).
Ltac run_in E :=
  repeat (first [rewrite run_get in E | rewrite run_modify in E | rewrite run_ret in E | rewrite run_lift in E]; cbv beta in E).

Lemma bind_ok {S A B} (m : SE S A) (f : A -> SE S B) s b s' :
  (m ≫= f) s = (Ok b, s') -> exists a s1, m s = (Ok a, s1) /\ f a s1 = (Ok b, s').
Proof. unfold mbind, se_bind. destruct (m s) as [[a|e] s1]; [|done]. eauto. Qed.

Lemma run_inj {S A} (a b : A) (s t : S) : (Ok a, s) = (Ok b, t) -> a = b /\ s = t.
Proof. by intros [= -> ->]. Qed.

(** ** Buffers *)

Lemma bput_ok b v b' : bput b v = Ok b' -> b' = b ++ v /\ zlen b + zlen v <= SSHBUF_SIZE_MAX.
Proof. unfold bput. destruct (Z.ltb_spec SSHBUF_SIZE_MAX (zlen v)), (Z.ltb_spec (SSHBUF_SIZE_MAX - zlen v) (zlen b)); cbn; intros [= <-]; split; (done || lia). Qed.

Lemma bput_fits b v : zlen b + zlen v <= SSHBUF_SIZE_MAX -> bput b v = Ok (b ++ v).
Proof. intros Hl. unfold bput. pose proof (zlen_nonneg b). rewrite !(proj2 (Z.ltb_ge _ _)) by lia. done. Qed.

Lemma bconsume_fits n b : n <= zlen b -> bconsume n b = Ok (zdrop n b).
Proof. intros Hl. unfold bconsume. by destruct (Z.gtb_spec n (zlen b)); [lia|]. Qed.

(** ** What an operation leaves alone *)

Section keeps.
Context `{Allocator} `{EvpCipher} `{Uninit} `{EvpDigest} `{Umac} `{Zlib} `{Random} `{Fellows}.

(** [f] is the same after [m], whatever its result. *)
Definition keeps {T A} (f : ssh -> T) (m : SE ssh A) : Prop := forall s, f (snd (m s)) = f s.

Context {T : Type} (f : ssh -> T).

Lemma keeps_bind {A B} (m : SE ssh A) (g : A -> SE ssh B) : keeps f m -> (forall a, keeps f (g a)) -> keeps f (m ≫= g).
Proof.
  intros Hm Hf s. specialize (Hm s). unfold mbind, se_bind. destruct (m s) as [[a|e] s1]; [|done]. cbn [snd] in Hm. by rewrite Hf.
Qed.
Lemma keeps_bind_at {A B} (m : SE ssh A) (g : A -> SE ssh B) s :
  f (snd (m s)) = f s -> (forall a s1, m s = (Ok a, s1) -> f (snd (g a s1)) = f s1) -> f (snd ((m ≫= g) s)) = f s.
Proof. intros Hm Hf. unfold mbind, se_bind. destruct (m s) as [[a|e] s1]; [|done]. cbn [snd] in Hm. by rewrite Hf. Qed.
Lemma keeps_get {A} (g : ssh -> SE ssh A) : (forall s, keeps f (g s)) -> keeps f (se_get ≫= g).
Proof. intros Hf s. apply Hf. Qed.
Lemma keeps_ret {A} (a : A) : keeps f (mret a).
Proof. done. Qed.
Lemma keeps_fail {A} e : keeps f (fail e : SE ssh A).
Proof. done. Qed.
Lemma keeps_lift {A} (r : result A) : keeps f (lift r).
Proof. done. Qed.
Lemma keeps_modify g : (forall s, f (g s) = f s) -> keeps f (modify g).
Proof. intros Hg s. apply Hg. Qed.
Lemma keeps_random n : (forall d s, f (set_draws d s) = f s) -> keeps f (random_bytes_of n).
Proof. intros Hf s. apply Hf. Qed.

(** The sending direction. *)
Context (Hout : forall d s, f (set_out_dir d s) = f s).
Lemma keeps_with_mac {A} (g : SE sshmac A) : keeps f (with_mac MODE_OUT g).
Proof. intros s. unfold with_mac. destruct (mode_keys MODE_OUT s) as [nk|]; [|done]. destruct (g (nk_mac nk)). apply Hout. Qed.
Lemma keeps_with_ctx seq src len aad auth dlen : keeps f (with_ctx MODE_OUT seq src len aad auth dlen).
Proof.
  intros s. unfold with_ctx. destruct (d_ctx (out_dir s)); [|done]. destruct (cipher_crypt _ _ _ _ _ _ _) as [[[] ?] ?]; apply Hout.
Qed.
Lemma keeps_compress b : keeps f (compress_buffer b).
Proof.
  intros s. unfold compress_buffer. destruct (d_z (out_dir s)); [|done]. destruct (_ =? _); [done|].
  destruct (compress_loop _ _) as [[? ?] ?]. apply Hout.
Qed.
End keeps.

(** Step by step through an operation. *)
Ltac keep_step :=
  lazymatch goal with
  | |- keeps _ (se_get ≫= _) => apply keeps_get; intros ?
  | |- keeps _ (_ ≫= _) => apply keeps_bind; [|intros ?]
  | |- keeps _ (modify _) => apply keeps_modify; intros ?; reflexivity
  | |- keeps _ (mret _) => apply keeps_ret
  | |- keeps _ (fail _) => apply keeps_fail
  | |- keeps _ (lift _) => apply keeps_lift
  | |- keeps _ (with_mac MODE_OUT _) => apply keeps_with_mac; intros ? ?; reflexivity
  | |- keeps _ (with_ctx MODE_OUT _ _ _ _ _ _) => apply keeps_with_ctx; intros ? ?; reflexivity
  | |- keeps _ (random_bytes_of _) => apply keeps_random; intros ? ?; reflexivity
  | |- keeps _ (compress_buffer _) => apply keeps_compress; intros ? ?; reflexivity
  | |- keeps _ (pad_outgoing _) => unfold pad_outgoing
  | |- keeps _ (pad_length _ _) => unfold pad_length
  | |- keeps _ (seal_outgoing _ _) => unfold seal_outgoing
  | |- keeps _ compress_outgoing => unfold compress_outgoing
  | |- keeps _ (let x := _ in _) => cbv zeta
  | |- keeps _ (match ?x with _ => _ end) => destruct x
  end.
Ltac keep := repeat keep_step.

(** For a goal about one state. *)
Ltac by_keeps :=
  match goal with |- ?f (snd (?m ?s)) = ?f ?s => let Hm := fresh in enough (keeps f m) as Hm by (apply Hm); keep end.
