(* ===== verification/PacketNet.v ===== *)
(** Packets over a byte stream: the padding of RFC 4253, and that what one side
    sends with packet.c the other side reads, in order and unchanged, under any
    fragmentation and across changes of keys. *)

From Stdlib Require Import String.
From S2P Require Import Prelude Match Sshbuf SshbufGetPut AlgNames Digest ChaCha Poly1305 ChachaPoly Cipher Kex Packet PacketKeep.
Local Open Scope Z_scope.

(** UMAC tags are 8 or 16 bytes. *)
Class UmacLaws (U : Umac) : Prop := {
  umac_len : forall k d n, zlen (umac k d n) = 8;
  umac128_len : forall k d n, zlen (umac128 k d n) = 16;
  umac_bytes : forall k d n, bytes_ok (umac k d n);
  umac128_bytes : forall k d n, bytes_ok (umac128 k d n)
}.

(** zlib, by what zlib.h says of single calls.  [z_link zd zi c m]: the compressor
    [zd] has given the bytes [c] that the decompressor [zi] has not taken, and has
    taken the data [m] that [zi] has not given; [z_flushed zd]: [zd] holds no output
    back.  Streams that have just been set up belong together.  A call of deflate
    with [Z_PARTIAL_FLUSH] that returns [Z_OK] takes some of the input and gives at
    most [avail_out] bytes; when room is left, all the input is taken and
    everything is flushed.  A call of inflate on the output of that compressor
    (with memory for its window) makes progress and returns [Z_OK], or, with no
    input left and nothing more to give, returns [Z_BUF_ERROR]: after a flush
    nothing is missing then. *)
Class ZlibLaws (Zl : Zlib) := {
  z_link : zdeflate -> zinflate -> list Z -> list Z -> Prop;
  z_flushed : zdeflate -> Prop;
  z_open : exists zd zi, deflateInit 6 = (Z_OK, Some zd) /\ inflateInit = (Z_OK, Some zi) /\ z_link zd zi [] [];
  z_deflate : forall zd zi c m inp n,
    z_link zd zi c m -> bytes_ok inp -> 0 < n ->
    let r := deflate zd inp n in z_status r = Z_OK ->
    exists used, inp = used ++ z_rest r /\ zlen (z_out r) <= n /\ bytes_ok (z_out r) /\
      z_link (z_stream r) zi (c ++ z_out r) (m ++ used) /\
      (zlen (z_out r) < n -> z_rest r = [] /\ z_flushed (z_stream r));
  z_inflate : forall zd zi c m n,
    z_link zd zi c m -> 0 < n ->
    let r := inflate zi c n in
    match z_status r with
    | Z_OK =>
        exists used later, c = used ++ z_rest r /\ m = z_out r ++ later /\ zlen (z_out r) <= n /\
          (used <> [] \/ z_out r <> []) /\ z_link zd (z_stream r) (z_rest r) later
    | Z_BUF_ERROR => c = [] /\ (z_flushed zd -> m = []) /\ z_link zd (z_stream r) c m
    | _ => False
    end
}.

Section zlib.
Context `{!Zlib} `{!ZlibLaws _}.

(** The streams are in step between packets. *)
Definition z_pair (zd : zdeflate) (zi : zinflate) : Prop := z_link zd zi [] [].

Lemma zlen_nonempty (l : list Z) : l <> [] -> 0 < zlen l.
Proof. intros Hl. pose proof (zlen_nonneg l). enough (zlen l <> 0) by lia. intros E. by apply zlen_0_nil in E. Qed.

(** [compress_buffer] hands over all the data and flushes. *)
Lemma compress_loop_link zd zi m c zd' f :
  z_pair zd zi -> bytes_ok m -> compress_loop zd m = (Ok c, zd', f) ->
  bytes_ok c /\ zlen c <= SSHBUF_SIZE_MAX /\ z_link zd' zi c m /\ z_flushed zd'.
Proof.
  intros Hz Hb E. unfold compress_loop in E.
  pose proof (turns_inv 16 compress_turn
    (fun '(z, inp, out) => bytes_ok inp /\ bytes_ok out /\ zlen out <= SSHBUF_SIZE_MAX /\ exists u, m = u ++ inp /\ z_link z zi out u)
    (fun '(r, z, _) => match r with
       | Ok out => bytes_ok out /\ zlen out <= SSHBUF_SIZE_MAX /\ z_link z zi out m /\ z_flushed z | Err _ => True end)
    (fun '(_, _, out) => - zlen out) (zd, m, [])) as Ht.
  destruct (turns 16 compress_turn (zd, m, [])) as [[[z i] o]|[[r z] g]]; [discriminate E|]. injection E as -> -> ->.
  apply Ht; [|split; [done|]; split; [by apply Forall_nil|]; split; [by vm_compute|]; by exists []].
  intros [[z inp] out] (Hi & Ho & Hsz & u & -> & Hl). unfold compress_turn.
  pose proof (z_deflate z zi out u inp 4096 Hl Hi ltac:(lia)) as Hd. cbv zeta in Hd.
  destruct (z_status (deflate z inp 4096)); try done.
  destruct (Hd eq_refl) as (used & Einp & Hn & Hbo & Hl' & Hfl). destruct (bput _ _) as [out'|] eqn:Eb; [|done].
  apply bput_ok in Eb as [-> Hsz']. destruct (Z.eqb_spec (zlen (z_out (deflate z inp 4096))) 4096) as [E4|E4].
  - split; [|rewrite zlen_app; lia]. rewrite Einp in Hi. apply Forall_app in Hi as [_ Hi]. split; [done|]. split; [by apply Forall_app_2|].
    split; [by rewrite zlen_app|]. exists (u ++ used). rewrite <- app_assoc. by rewrite <- Einp.
  - destruct (Hfl ltac:(lia)) as [Er Hf]. rewrite Er, app_nil_r in Einp. subst inp.
    split; [by apply Forall_app_2|]. by rewrite zlen_app.
Qed.

(** [uncompress_buffer] gives back all of it, chunk by chunk, and leaves nothing. *)
Lemma uncompress_loop_link zd zi c m :
  z_link zd zi c m -> z_flushed zd -> zlen c <= SSHBUF_SIZE_MAX -> zlen m <= SSHBUF_SIZE_MAX ->
  exists zi', uncompress_loop zi c = (Ok m, zi', false) /\ z_pair zd zi'.
Proof.
  intros Hl Hf Hc Hm. unfold uncompress_loop.
  destruct (turns_end 29 uncompress_turn (fun '(z, inp, out) => exists later, m = out ++ later /\ z_link zd z inp later)
    (fun '(r, z, g) => r = Ok m /\ g = false /\ z_pair zd z) (fun '(_, inp, out) => zlen inp + (zlen m - zlen out)) (zi, c, []))
    as ([[r z] g] & -> & -> & -> & Hp); [|by exists m|change (zlen []) with 0; unfold SSHBUF_SIZE_MAX in *; change (2 ^ Z.of_nat 29) with (2^29); lia|by exists z].
  intros [[z inp] out] (later & Em & Hlk). pose proof (f_equal zlen Em) as Elen. rewrite zlen_app in Elen.
  pose proof (zlen_nonneg inp). pose proof (zlen_nonneg later). split; [lia|]. unfold uncompress_turn.
  pose proof (z_inflate zd z inp later 4096 Hlk ltac:(lia)) as Hi. cbv zeta in Hi.
  destruct (z_status (inflate z inp 4096)); try done.
  - destruct Hi as (used & later' & Einp & El & Hn & Hpr & Hlk'). pose proof (f_equal zlen Einp) as E1. pose proof (f_equal zlen El) as E2.
    rewrite zlen_app in E1, E2. pose proof (zlen_nonneg later'). pose proof (zlen_nonneg used). pose proof (zlen_nonneg (z_out (inflate z inp 4096))).
    rewrite bput_fits by lia. split; [exists later'; by rewrite <- app_assoc, <- El|]. rewrite zlen_app.
    enough (0 < zlen used + zlen (z_out (inflate z inp 4096))) by lia.
    destruct Hpr as [Hu|Ho]; [pose proof (zlen_nonempty used Hu)|pose proof (zlen_nonempty _ Ho)]; lia.
  - destruct Hi as (-> & Hmt & Hlk'). rewrite (Hmt Hf), app_nil_r in Em. rewrite (Hmt Hf) in Hlk'. by subst out.
Qed.

(** What is compressed for a packet is uncompressed by the other end. *)
Lemma z_through zd zi m c zd' f :
  z_pair zd zi -> bytes_ok m -> 0 < zlen m <= SSHBUF_SIZE_MAX -> compress_loop zd m = (Ok c, zd', f) ->
  bytes_ok c /\ exists zi', uncompress_loop zi c = (Ok m, zi', false) /\ z_pair zd' zi'.
Proof.
  intros Hz Hb Hm E. destruct (compress_loop_link zd zi m c zd' f Hz Hb E) as (Hc & Hl & Hlk & Hf). split; [done|].
  apply (uncompress_loop_link zd' zi c m); [done|done|lia|lia].
Qed.

(** The turns given to [compress_buffer] are enough: the buffer is full before. *)
Lemma compress_loop_ends zd m : exists r, turns 16 compress_turn (zd, m, []) = inr r.
Proof.
  pose proof (turns_inv 16 compress_turn (fun '(_, _, out) => zlen out <= SSHBUF_SIZE_MAX) (fun _ => True)
    (fun '(_, _, out) => - (zlen out / 4096)) (zd, m, [])) as Ht.
  destruct (turns 16 compress_turn (zd, m, [])) as [[[z i] o]|r]; [|by exists r]. exfalso.
  assert (zlen o <= SSHBUF_SIZE_MAX /\ - (zlen o / 4096) + 2 ^ Z.of_nat 16 <= - (zlen (@nil Z) / 4096)) as [Ho Hv].
  { apply Ht; [|by change (zlen []) with 0]. intros [[z0 inp] out] Ho. unfold compress_turn. destruct (z_status _); try done.
    destruct (bput _ _) as [out'|] eqn:Eb; [|done]. apply bput_ok in Eb as [-> Hs]. destruct (Z.eqb_spec (zlen (z_out (deflate z0 inp 4096))) 4096) as [E4|]; [|done].
    rewrite zlen_app, E4. split; [lia|]. replace (zlen out + 4096) with (zlen out + 1 * 4096) by lia. rewrite Z.div_add by lia. lia. }
  change (zlen [] / 4096) with 0 in Hv. change (2 ^ Z.of_nat 16) with 65536 in Hv. unfold SSHBUF_SIZE_MAX in Ho.
  assert (zlen o / 4096 <= 32768) by (apply Z.div_le_upper_bound; lia). lia.
Qed.
End zlib.

Section net.
Context `{Allocator} `{EvpCipher} `{Uninit} `{EvpDigest} `{Umac} `{Zlib} `{Random} `{Fellows}.

(** ** Padding *)

Lemma base_padlen_ok bs len :
  bs = 8 \/ bs = 16 -> 0 <= len ->
  4 <= base_padlen bs len <= 19 /\ (len + base_padlen bs len) mod bs = 0.
Proof.
  intros Hbs Hl. unfold base_padlen, u8. assert (0 < bs <= 16) as Hb by lia.
  pose proof (Z.mod_pos_bound len bs ltac:(lia)) as Hm. pose proof (Z.div_mod len bs ltac:(lia)) as Hd.
  rewrite (Z.mod_small (bs - len mod bs)) by lia.
  destruct (Z.ltb_spec (bs - len mod bs) 4) as [Hs|Hs].
  - rewrite Z.mod_small by lia. split; [lia|]. replace (len + _) with ((len / bs + 2) * bs) by lia. apply Z.mod_mul. lia.
  - split; [lia|]. replace (len + _) with ((len / bs + 1) * bs) by lia. apply Z.mod_mul. lia.
Qed.

Lemma ROUNDUP_small x y : 0 <= x -> 0 < y -> x + y < 2^32 -> ROUNDUP x y = (x + (y - 1)) / y * y /\ x <= ROUNDUP x y < x + y.
Proof.
  intros Hx Hy Hs. unfold ROUNDUP. pose proof (Z.div_mod (x + (y - 1)) y ltac:(lia)). pose proof (Z.mod_pos_bound (x + (y - 1)) y ltac:(lia)).
  rewrite (u64_small (x + (y - 1))) by lia. rewrite u64_small by lia. lia.
Qed.

Lemma mod_mult_sub a b e bs : 0 < bs -> 0 < e -> a mod bs = 0 -> e mod bs = 0 -> b = a mod e -> (e - b) mod bs = 0.
Proof.
  intros Hb He Ha Hm ->. apply Z.mod_divide in Ha as [k ->]; [|lia]. apply Z.mod_divide in Hm as [j ->]; [|lia].
  rewrite Z.mul_mod_distr_r by nia. rewrite <- Z.mul_sub_distr_r. apply Z.mod_mul. lia.
Qed.

(** The padding that a packet gets, whatever extra padding was asked for. *)
Lemma pad_length_ok bs len s padlen s' :
  bs = 8 \/ bs = 16 -> 0 <= len <= SSHBUF_SIZE_MAX -> 0 <= extra_pad s < 256 ->
  pad_length bs len s = (Ok padlen, s') ->
  4 <= padlen <= 255 /\ (len + padlen) mod bs = 0 /\ (s' = s \/ s' = set_extra_pad 0 s).
Proof.
  intros Hbs Hl He E. destruct (base_padlen_ok bs len Hbs ltac:(lia)) as [Hp Hm]. unfold SSHBUF_SIZE_MAX in Hl.
  unfold pad_length in E. set (p := base_padlen bs len) in *. run_in E.
  destruct (Z.eqb_spec (extra_pad s) 0) as [E0|E0]; [run_in E; injection E as <- <-; split; [lia|]; split; [done|by left]|].
  destruct (ROUNDUP_small (extra_pad s) bs) as [HR HRb]; [lia..|]. set (R := ROUNDUP (extra_pad s) bs) in *.
  assert (R mod bs = 0) as HRm by (rewrite HR; apply Z.mod_mul; lia).
  run_in E. destruct (Z.ltb_spec (u8 R) (extra_pad s)) as [Hlt|Hge]; run_in E; [done|].
  assert (R < 256) as HR2.
  { destruct (Z.lt_ge_cases R 256); [done|]. exfalso. assert (u8 R = R - 256) by (unfold u8; symmetry; apply Z.mod_unique with 1; lia). lia. }
  assert (u8 R = R) as EuR by (unfold u8; apply Z.mod_small; lia). rewrite EuR in *.
  rewrite (u32_small (len + p)) in E by lia. pose proof (Z.mod_pos_bound (len + p) R ltac:(lia)) as Hmb.
  assert (u8 ((len + p) mod R) = (len + p) mod R) as Eu8 by (unfold u8; apply Z.mod_small; lia). rewrite Eu8 in E.
  destruct (Z.gtb_spec ((len + p) mod R) R); [lia|]. run_in E.
  set (pad := R - (len + p) mod R) in *. assert (u8 pad = pad) as Epad by (unfold u8, pad; apply Z.mod_small; lia). rewrite Epad in E.
  pose proof (mod_mult_sub (len + p) _ R bs ltac:(lia) ltac:(lia) Hm HRm eq_refl) as Hpm. fold pad in Hpm.
  destruct (Z.ltb_spec (u8 (p + pad)) p) as [Hov|Hov]; run_in E; [done|]. injection E as <- <-.
  assert (p + pad < 256) as Hsum.
  { destruct (Z.lt_ge_cases (p + pad) 256); [done|]. exfalso.
    assert (u8 (p + pad) = p + pad - 256) by (unfold u8; symmetry; apply Z.mod_unique with 1; lia). lia. }
  assert (u8 (p + pad) = p + pad) as -> by (unfold u8; apply Z.mod_small; lia). split; [lia|].
  split; [|by right]. rewrite Z.add_assoc, Z.add_mod, Hm, Hpm by lia. apply Z.mod_0_l. lia.
Qed.

(** ** The two ends of a direction *)

Context `{!ReliableAllocator _} `{!EvpCipherLaws _} `{!UninitLaws _} `{!EvpDigestLaws _} `{!UmacLaws _} `{!ZlibLaws _}
  `{!RandomLaws _}.

(** The keys of the two ends: the same cipher and compression, and MACs that are
    ready with the same key when the cipher does not authenticate. *)
Definition keys_linked (c : sshcipher) (ko ki : option newkeys) : Prop :=
  match ko, ki with
  | None, None => c_flag CFLAG_NONE c = true
  | Some k, Some k' =>
      enc_cipher (nk_enc k) = Some c /\ enc_cipher (nk_enc k') = Some c /\
      enc_block_size (nk_enc k) = c_block_size c /\ enc_block_size (nk_enc k') = c_block_size c /\
      nk_comp k = nk_comp k' /\
      (c_auth_len c = 0 -> exists alg key, mac_ready alg key (nk_mac k) /\ mac_ready alg key (nk_mac k') /\
         mac_enabled (nk_mac k) = true /\ mac_enabled (nk_mac k') = true)
  | _, _ => False
  end.

Definition compressing (k : option newkeys) : bool := match k with Some k => comp_enabled (nk_comp k) | None => false end.

(** The receiving direction [i] is in step with the sending direction [o]. *)
Record linked (o : dir zdeflate) (i : dir zinflate) : Prop := {
  lk_ctx : exists a b, d_ctx o = Some a /\ d_ctx i = Some b /\ in_step a b /\
    keys_linked (cc_cipher a) (d_keys o) (d_keys i);
  lk_seqnr : seqnr (d_ps o) = seqnr (d_ps i);
  lk_packets : packets (d_ps o) = packets (d_ps i);
  lk_z : compressing (d_keys o) = true -> exists zd zi, d_z o = Some zd /\ d_z i = Some zi /\ z_pair zd zi
}.

(** What both ends compute from their keys. *)
Lemma linked_params o i :
  linked o i -> exists a b, d_ctx o = Some a /\ d_ctx i = Some b /\ in_step a b /\
    keys_linked (cc_cipher a) (d_keys o) (d_keys i) /\
    let p := dir_params o in let q := dir_params i in let c := cc_cipher a in
    authlen p = c_auth_len c /\ authlen q = c_auth_len c /\ block_size p = c_block_size c /\ block_size q = c_block_size c /\
    aadlen p = aadlen q /\ (aadlen p = 4 \/ aadlen p = 0 /\ c_auth_len c = 0) /\
    mac_live (p_mac p) = mac_live (p_mac q) /\ mac_is_etm (p_mac p) = mac_is_etm (p_mac q) /\
    comp_live (p_comp p) = compressing (d_keys o) /\ comp_live (p_comp q) = compressing (d_keys o).
Proof.
  intros [(a & b & Ea & Eb & Hst & Hk) _ _ _]. exists a, b. do 4 (split; [done|]).
  pose proof Hst as (Hc & _). destruct (ciphers_shape _ Hc) as (Hbs & Hau & _ & _ & Hno).
  unfold dir_params. unfold keys_linked in Hk. destruct (d_keys o) as [k|], (d_keys i) as [k'|]; try done.
  - destruct Hk as (E1 & E2 & E3 & E4 & E5 & Hm). cbn [authlen block_size aadlen p_mac p_comp comp_live compressing].
    unfold enc_authlen. rewrite E1, E2, E3, E4, E5. unfold cipher_authlen.
    destruct (Z.eqb_spec (c_auth_len (cc_cipher a)) 0) as [E0|E0]; cbn [mac_live mac_is_etm negb orb].
    + destruct (Hm E0) as (alg & key & [_ _ _ Het _ _] & [_ _ _ Het' _ _] & Hen & Hen'). rewrite Hen, Hen', Het, Het'. cbn [andb].
      destruct (ma_etm alg); cbn [orb]; split_and!; try done; by (left + right).
    + split_and!; try done. by left.
  - destruct (Hno Hk) as [E0 E8]. cbn [authlen block_size aadlen p_mac p_comp comp_live compressing mac_live mac_is_etm].
    rewrite E0, E8. split_and!; try done. by right.
Qed.

(** ** Sending *)

(** The parts of a session that sending a packet leaves alone. *)
Definition core (s : ssh) :=
  (in_dir s, input s, incoming_packet s, kx s, server_side s, after_authentication s, rekey_limit s, packlen s,
   packet_discard s, mux s, wire s).

(** The payload [pl] and what is put into the packet for it. *)
Definition compressed (o o1 : dir zdeflate) (pl body : list Z) : Prop :=
  if compressing (d_keys o) then
    exists zd zd' f, d_z o = Some zd /\ d_z o1 = Some zd' /\ compress_loop zd pl = (Ok body, zd', f)
  else body = pl /\ d_z o1 = d_z o.

Lemma compress_outgoing_ok s s' hdr pl :
  outgoing_packet s = hdr ++ pl -> zlen hdr = 5 -> pl <> [] -> compress_outgoing s = (Ok tt, s') ->
  exists zd zd' f body, d_z (out_dir s) = Some zd /\ compress_loop zd pl = (Ok body, zd', f) /\
    outgoing_packet s' = [0; 0; 0; 0; 0] ++ body /\ zlen (outgoing_packet s') <= SSHBUF_SIZE_MAX /\
    out_dir s' = (if f then dir_fail (dir_z (Some zd') (out_dir s)) else dir_z (Some zd') (out_dir s)) /\
    output s' = output s /\ extra_pad s' = extra_pad s /\ core s' = core s.
Proof.
  intros Eo Hh Hpl E. unfold compress_outgoing in E. run_in E. rewrite Eo in E.
  rewrite bconsume_fits, zdrop_app_exact in E by (rewrite ?zlen_app; zlen_facts; lia). run_in E.
  apply bind_ok in E as (c & s1 & E1 & E). unfold compress_buffer in E1.
  destruct (d_z (out_dir s)) as [zd|]; [|done]. destruct (Z.eqb_spec (zlen pl) 0) as [E0|E0]; [by apply zlen_0_nil in E0|].
  destruct (compress_loop zd pl) as [[r zd'] f] eqn:El. injection E1 as -> <-.
  run_in E. apply bind_ok in E as (b & s2 & E2 & E). injection E2 as E2 <-. injection E as <-.
  apply bput_ok in E2 as [-> Hsz]. exists zd, zd', f, c. split; [done|]. split; [done|]. split; [done|].
  split; [cbn [outgoing_packet set_outgoing_packet]; rewrite zlen_app; lia|]. destruct f; done.
Qed.

(** The packet: length, padding length, body and padding, of whole blocks. *)
Definition framed (p : params) (body pkt : list Z) : Prop :=
  exists pad, pkt = POKE_U32 (zlen pkt - 4) ++ [zlen pad] ++ body ++ pad /\ 4 <= zlen pad <= 255 /\
    bytes_ok pad /\ (zlen pkt - aadlen p) mod block_size p = 0.

Lemma POKE_U32_len v : zlen (POKE_U32 v) = 4.
Proof. done. Qed.

Lemma pad_outgoing_ok p s pkt s' hdr body :
  outgoing_packet s = hdr ++ body -> zlen hdr = 5 -> zlen (hdr ++ body) <= SSHBUF_SIZE_MAX ->
  block_size p = 8 \/ block_size p = 16 -> aadlen p = 4 \/ aadlen p = 0 -> 0 <= extra_pad s < 256 ->
  pad_outgoing p s = (Ok pkt, s') ->
  framed p body pkt /\ zlen pkt <= SSHBUF_SIZE_MAX /\ outgoing_packet s' = pkt /\ out_dir s' = out_dir s /\ output s' = output s /\
  extra_pad s' < 256 /\ 0 <= extra_pad s' /\ core s' = core s.
Proof.
  intros Eo Hh Hsz Hbs Haad Hep E. unfold pad_outgoing in E. run_in E. rewrite Eo in E. rewrite zlen_app in *. pose proof (zlen_nonneg body).
  rewrite u32_small in E by (unfold SSHBUF_SIZE_MAX in *; lia).
  apply bind_ok in E as (padlen & s1 & E1 & E).
  apply pad_length_ok in E1 as (Hp & Hmod & Hs1); [|done|lia|done].
  assert (out_dir s1 = out_dir s /\ output s1 = output s /\ core s1 = core s /\ 0 <= extra_pad s1 < 256 /\
    outgoing_packet s1 = outgoing_packet s) as (Hd & Hou & Hco & Hex & Hog) by (destruct Hs1 as [-> | ->]; split_and!; (done || lia)).
  run_in E. apply bind_ok in E as (pad & s2 & E2 & E).
  assert (zlen pad = padlen /\ bytes_ok pad /\ out_dir s2 = out_dir s /\ output s2 = output s /\ core s2 = core s /\
    0 <= extra_pad s2 < 256) as (Hpl & Hpb & Hd2 & Hou2 & Hco2 & Hex2).
  { assert (zlen (zrepeat padlen) = padlen) by (apply zlen_zrepeat; lia).
    pose proof (zrepeat_bytes padlen). pose proof (random_len (draws s1) padlen ltac:(lia)). pose proof (random_bytes (draws s1) padlen).
    destruct (p_enc p); [destruct (ctx_plaintext (d_ctx (out_dir s1)))|]; injection E2 as <- <-;
      cbn [out_dir output core extra_pad set_draws]; split_and!; (done || lia). }
  run_in E. apply bind_ok in E as (b & s3 & E3 & E). injection E3 as E3 <-. rewrite Hog, Eo in E3.
  apply bput_ok in E3 as [-> Hsz2]. run_in E. apply run_inj in E as [<- <-]. rewrite !zlen_app in Hsz2.
  assert (zlen ((hdr ++ body) ++ pad) = 5 + zlen body + zlen pad) as Hlb by (rewrite !zlen_app; lia).
  rewrite Hlb. rewrite (u32_small (5 + zlen body + zlen pad)), (u32_small (5 + zlen body + zlen pad - 4)) by (unfold SSHBUF_SIZE_MAX in *; lia).
  set (h := POKE_U32 (5 + zlen body + zlen pad - 4) ++ [padlen]). assert (zlen h = 5) as Hlh by done.
  rewrite mem_write_front, <- (app_assoc hdr), zdrop_app_exact by lia.
  cbn [outgoing_packet out_dir output extra_pad set_outgoing_packet].
  set (pkt := h ++ body ++ pad).
  assert (zlen pkt = 5 + zlen body + zlen pad) as Hlp
    by (unfold pkt; rewrite !zlen_app; lia).
  split; [|split_and!; (done || lia)]. exists pad. rewrite Hlp, Hpl. unfold pkt, h. rewrite <- app_assoc, Hpl.
  split; [done|]. split; [lia|]. split; [done|]. rewrite <- Hmod. f_equal. lia.
Qed.

Lemma base_padlen_least bs len : bs = 8 \/ bs = 16 -> 0 <= len -> base_padlen bs len < bs + 4.
Proof.
  intros Hbs Hl. unfold base_padlen, u8. pose proof (Z.mod_pos_bound len bs ltac:(lia)).
  rewrite (Z.mod_small (bs - len mod bs)) by lia. destruct (Z.ltb_spec (bs - len mod bs) 4); [rewrite Z.mod_small by lia|]; lia.
Qed.

(** Extra padding of up to 224 bytes can always be given. *)
Lemma pad_length_err bs len s e s' :
  bs = 8 \/ bs = 16 -> 0 <= len <= SSHBUF_SIZE_MAX -> 0 <= extra_pad s < 256 ->
  pad_length bs len s = (Err e, s') -> e = SSH_ERR_INVALID_ARGUMENT /\ 224 < extra_pad s.
Proof.
  intros Hbs Hl He E. destruct (base_padlen_ok bs len Hbs ltac:(lia)) as [Hp _]. unfold SSHBUF_SIZE_MAX in Hl.
  unfold pad_length in E. set (p := base_padlen bs len) in *. run_in E.
  destruct (Z.eqb_spec (extra_pad s) 0) as [E0|E0]; [done|]. destruct (ROUNDUP_small (extra_pad s) bs) as [HR HRb]; [lia..|].
  set (R := ROUNDUP (extra_pad s) bs) in *. run_in E.
  assert (extra_pad s <= 224 -> R <= 224 /\ u8 R = R) as Hsm.
  { intros Hle. assert (R <= 224); [|split; [done|unfold u8; apply Z.mod_small; lia]].
    rewrite HR. assert ((extra_pad s + (bs - 1)) / bs < 224 / bs + 1); [apply Z.div_lt_upper_bound|];
      (destruct Hbs as [-> | ->]; [change (224 / 8) with 28 in *|change (224 / 16) with 14 in *]; lia). }
  destruct (Z.ltb_spec (u8 R) (extra_pad s)) as [Hlt|Hge]; run_in E.
  { injection E as <- _. split; [done|]. destruct (Z.le_gt_cases (extra_pad s) 224) as [Hle|]; [|lia]. destruct (Hsm Hle). lia. }
  destruct (Z.le_gt_cases (extra_pad s) 224) as [Hle|Hgt].
  - exfalso. destruct (Hsm Hle) as [HR2 EuR]. rewrite EuR in *. rewrite (u32_small (len + p)) in E by lia.
    pose proof (Z.mod_pos_bound (len + p) R ltac:(lia)) as Hmb.
    assert (u8 ((len + p) mod R) = (len + p) mod R) as Eu8 by (unfold u8; apply Z.mod_small; lia). rewrite Eu8 in E.
    destruct (Z.gtb_spec ((len + p) mod R) R); [lia|]. run_in E.
    assert (u8 (R - (len + p) mod R) = R - (len + p) mod R) as Epad by (unfold u8; apply Z.mod_small; lia). rewrite Epad in E.
    destruct (Z.ltb_spec (u8 (p + (R - (len + p) mod R))) p) as [Hov|Hov]; run_in E; [|done].
    unfold u8 in Hov. rewrite Z.mod_small in Hov by lia. lia.
  - split; [|lia]. destruct (_ >? u8 R); run_in E; [by injection E|]. destruct (_ <? p); run_in E; [by injection E|done].
Qed.

Lemma pad_length_zero bs len s : extra_pad s = 0 -> pad_length bs len s = (Ok (base_padlen bs len), s).
Proof. intros E. unfold pad_length. run. by rewrite E. Qed.

(** The padded packet is as long as its parts, if that fits. *)
Lemma pad_outgoing_run p s r s' :
  (forall padlen t, pad_length (block_size p) (u32 (zlen (outgoing_packet s) - aadlen p)) s = (Ok padlen, t) ->
     4 <= padlen <= 255 /\ outgoing_packet t = outgoing_packet s) ->
  pad_outgoing p s = (r, s') ->
  exists r1 s1, pad_length (block_size p) (u32 (zlen (outgoing_packet s) - aadlen p)) s = (r1, s1) /\
    match r1, r with
    | Ok padlen, Ok pkt => zlen pkt = zlen (outgoing_packet s) + padlen \/ zlen (outgoing_packet s) < 5
    | Ok padlen, Err e => e = SSH_ERR_NO_BUFFER_SPACE /\ SSHBUF_SIZE_MAX < zlen (outgoing_packet s) + padlen
    | Err e, r => r = Err e
    end.
Proof.
  intros Hpl E. unfold pad_outgoing in E. run_in E. destruct (pad_length _ _ _) as [[padlen|e] s1] eqn:E1.
  2: { rewrite (se_bind_err _ _ _ _ _ E1) in E. eexists _, _. split; [done|]. by injection E as <- _. }
  destruct (Hpl _ _ eq_refl) as [Hp Ho]. rewrite (se_bind_ok _ _ _ _ _ E1) in E. run_in E. eexists _, _. split; [done|]. cbv iota.
  assert (exists pad s2, (match p_enc p with
             | Some _ => if ctx_plaintext (d_ctx (out_dir s1)) then mret (zrepeat padlen) else random_bytes_of padlen
             | None => mret (zrepeat padlen)
             end) s1 = (Ok pad, s2) /\ zlen pad = padlen) as (pad & s2 & E2 & Hlen).
  { destruct (p_enc p); [destruct (ctx_plaintext _)|]; eexists _, _; (split; [reflexivity|]);
      [apply zlen_zrepeat; lia|apply random_len; lia|apply zlen_zrepeat; lia]. }
  rewrite (se_bind_ok _ _ _ _ _ E2), Ho in E. unfold bput in E.
  destruct (Z.ltb_spec SSHBUF_SIZE_MAX (zlen pad)), (Z.ltb_spec (SSHBUF_SIZE_MAX - zlen pad) (zlen (outgoing_packet s))); cbn [orb] in E;
    [injection E as <- _; zlen_facts; split; [done|lia]..|]. run_in E. apply (f_equal fst) in E. cbn [fst mret se_ret] in E. subst r.
  destruct (Z.lt_ge_cases (zlen (outgoing_packet s)) 5); [by right|left]. rewrite zlen_mem_write, zlen_app; [lia|lia|].
  rewrite !zlen_app, POKE_U32_len. change (zlen [padlen]) with 1. lia.
Qed.

(** A packet before encryption. *)
Definition frame (body pad : list Z) : list Z := POKE_U32 (1 + zlen body + zlen pad) ++ [zlen pad] ++ body ++ pad.

(** C39: padding.  What [ssh_packet_send2_wrapped] makes of a payload before
    encryption is the length of the rest, the length of the padding, the payload
    and the padding; the padding has 4 to 255 bytes, fewer than one block more
    than 4 unless more was asked for, and the part to be encrypted is a multiple
    of the block size.  It fails only when more than 224 bytes of extra padding
    were asked for or the packet would exceed the largest buffer. *)
Theorem packet_padding p s hdr body :
  outgoing_packet s = hdr ++ body -> zlen hdr = 5 -> zlen (hdr ++ body) <= SSHBUF_SIZE_MAX ->
  block_size p = 8 \/ block_size p = 16 -> aadlen p = 4 \/ aadlen p = 0 -> 0 <= extra_pad s < 256 ->
  match pad_outgoing p s with
  | (Ok pkt, _) =>
      exists pad, pkt = frame body pad /\ 4 <= zlen pad <= 255 /\ bytes_ok pad /\
        (zlen pkt - aadlen p) mod block_size p = 0 /\ (extra_pad s = 0 -> zlen pad < block_size p + 4)
  | (Err e, _) =>
      e = SSH_ERR_INVALID_ARGUMENT /\ 224 < extra_pad s \/
      e = SSH_ERR_NO_BUFFER_SPACE /\ SSHBUF_SIZE_MAX < zlen (hdr ++ body) + 255
  end.
Proof.
  intros Eo Hh Hsz Hbs Haad Hep. pose proof (zlen_nonneg body). rewrite zlen_app in Hsz.
  assert (u32 (zlen (outgoing_packet s) - aadlen p) = zlen (hdr ++ body) - aadlen p) as Eu
    by (rewrite Eo; apply u32_small; rewrite zlen_app; unfold SSHBUF_SIZE_MAX in *; lia).
  destruct (pad_outgoing p s) as [r s'] eqn:E. destruct (pad_outgoing_run p s r s') as (r1 & s1 & E1 & Hr); [|done|].
  { rewrite Eu. intros padlen t Et. apply pad_length_ok in Et as (Hp & _ & Ht); [|done|rewrite zlen_app; lia|done].
    split; [done|]. by destruct Ht as [-> | ->]. }
  rewrite Eu in E1. assert (0 <= zlen (hdr ++ body) - aadlen p <= SSHBUF_SIZE_MAX) as Hrange by (rewrite zlen_app; lia).
  destruct r1 as [padlen|e1].
  - pose proof (pad_length_ok _ _ _ _ _ Hbs Hrange Hep E1) as (Hp & _). destruct r as [pkt|e].
    + destruct (pad_outgoing_ok p s pkt s' hdr body Eo Hh ltac:(by rewrite zlen_app) Hbs Haad Hep E) as ((pad & Ef & Hpad & Hb & Hm) & _).
      assert (zlen pkt = 5 + zlen body + zlen pad) as Hl
        by (rewrite Ef at 1; rewrite !zlen_app, POKE_U32_len; change (zlen [zlen pad]) with 1; lia).
      exists pad. split; [rewrite Ef at 1; unfold frame; do 2 f_equal; lia|]. do 3 (split; [done|]).
      intros E0. rewrite pad_length_zero in E1 by done. injection E1 as <- _.
      pose proof (base_padlen_least (block_size p) (zlen (hdr ++ body) - aadlen p) Hbs ltac:(rewrite zlen_app; lia)).
      rewrite Eo, !zlen_app in *. lia.
    + right. rewrite Eo in Hr. split; [tauto|lia].
  - subst r. left. by eapply pad_length_err.
Qed.

(** A packet [pkt] on the wire is [c ++ tag]; [o1] is the direction after it. *)
Definition tagged (o o1 : dir zdeflate) (pkt c tag : list Z) : Prop :=
  let p := dir_params o in
  if mac_live (p_mac p) then
    exists k m1, d_keys o = Some k /\ d_keys o1 = Some (keys_mac m1 k) /\ mac_enabled m1 = mac_enabled (nk_mac k) /\
      forall alg key, mac_ready alg key (nk_mac k) ->
        mac_ready alg key m1 /\ mac_tag alg key (seqnr (d_ps o)) (if mac_is_etm (p_mac p) then c else pkt) = Some tag
  else tag = [] /\ d_keys o1 = d_keys o.

Record sealed (o o1 : dir zdeflate) (pkt c tag : list Z) : Prop := {
  sl_ctx : let p := dir_params o in
    exists a a', d_ctx o = Some a /\ d_ctx o1 = Some a' /\ cc_cipher a' = cc_cipher a /\
      forall b, in_step a b -> opens a a' c pkt (seqnr (d_ps o)) (zlen pkt - aadlen p) (aadlen p) (authlen p) b;
  sl_len : zlen c = zlen pkt + authlen (dir_params o);
  sl_bytes : bytes_ok c;
  sl_tag : tagged o o1 pkt c tag
}.

Lemma mac_compute_enabled seq data dlen m : mac_enabled (snd (mac_compute seq data dlen m)) = mac_enabled m.
Proof.
  unfold mac_compute. destruct (_ >? _); [done|]. destruct (_ =? _).
  - destruct (hmac_ctx m) as [x|]; [|done]. by destruct (hmac_message _ _ _) as [[]].
  - destruct (umac_ctx m); [|done]. destruct (_ =? _); [done|]. by destruct (_ =? _).
Qed.

(** The MAC of a direction with ready keys. *)
Lemma with_mac_out s k seq data tag s' :
  d_keys (out_dir s) = Some k -> (exists alg key, mac_ready alg key (nk_mac k)) ->
  with_mac MODE_OUT (mac_compute seq data SSH_DIGEST_MAX_LENGTH) s = (Ok tag, s') ->
  exists m1, s' = set_out_dir (dir_keys (Some (keys_mac m1 k)) (out_dir s)) s /\ mac_enabled m1 = mac_enabled (nk_mac k) /\
    forall alg key, mac_ready alg key (nk_mac k) -> mac_ready alg key m1 /\ mac_tag alg key seq data = Some tag.
Proof.
  intros Hk (alg0 & key0 & Hr0) E. unfold with_mac, mode_keys in E. rewrite Hk in E.
  pose proof (mac_compute_enabled seq data SSH_DIGEST_MAX_LENGTH (nk_mac k)) as Hen.
  destruct (mac_compute seq data SSH_DIGEST_MAX_LENGTH (nk_mac k)) as [r m1] eqn:Em. injection E as -> <-. cbn [snd] in Hen.
  exists m1. split; [done|]. split; [done|]. intros alg key Hr.
  destruct (macs_ok alg (mr_alg _ _ _ Hr)) as (_ & Hl & _). pose proof (mr_len _ _ _ Hr) as Hml.
  destruct (mac_compute_ready alg key (nk_mac k) seq data SSH_DIGEST_MAX_LENGTH Hr) as (m2 & Hr2 & _ & E2);
    [unfold SSH_DIGEST_MAX_LENGTH; lia|]. rewrite Em in E2.
  destruct (mac_tag alg key seq data) as [t|]; [|done]. by injection E2 as -> ->.
Qed.

Lemma in_step_out s a pkt aad auth seq dlen a' c :
  d_ctx (out_dir s) = Some a -> cipher_crypt a seq (uninit dlen) pkt (zlen pkt - aad) aad auth = (Ok tt, a', c) ->
  with_ctx MODE_OUT seq pkt (zlen pkt - aad) aad auth dlen s = (Ok c, set_out_dir (dir_ctx (Some a') (out_dir s)) s).
Proof. intros Ha E. unfold with_ctx. by rewrite Ha, E. Qed.

Lemma framed_len p body pkt : framed p body pkt -> zlen pkt = 5 + zlen body + (zlen pkt - 5 - zlen body) /\ 9 + zlen body <= zlen pkt <= 260 + zlen body.
Proof.
  intros (pad & E & Hp & _). assert (zlen pkt = 5 + zlen body + zlen pad); [|lia].
  rewrite E at 1. rewrite !zlen_app, POKE_U32_len. change (zlen [zlen pad]) with 1. lia.
Qed.

(** A live MAC is that of the keys, of a cipher without tag. *)
Lemma live_keys o i :
  linked o i -> mac_live (p_mac (dir_params o)) = true ->
  exists k, d_keys o = Some k /\ p_mac (dir_params o) = Some (nk_mac k) /\ authlen (dir_params o) = 0 /\
    (exists alg key, mac_ready alg key (nk_mac k)).
Proof.
  intros [(a & b & _ & _ & _ & Hk) _ _ _] Hm. unfold dir_params in *. unfold keys_linked in Hk.
  destruct (d_keys o) as [k|]; [|done]. destruct (d_keys i) as [k'|]; [|done]. destruct Hk as (E1 & _ & _ & _ & _ & Hr).
  exists k. cbn [p_mac authlen] in *. unfold enc_authlen in *. rewrite E1 in *. unfold cipher_authlen in *.
  destruct (Z.eqb_spec (c_auth_len (cc_cipher a)) 0) as [E0|]; [|done]. destruct (Hr E0) as (alg & key & Hr' & _). eauto 10.
Qed.

Lemma seal_outgoing_ok s i body pkt s' :
  linked (out_dir s) i -> framed (dir_params (out_dir s)) body pkt -> bytes_ok pkt -> zlen pkt <= SSHBUF_SIZE_MAX ->
  seal_outgoing (dir_params (out_dir s)) pkt s = (Ok tt, s') ->
  exists c tag, sealed (out_dir s) (out_dir s') pkt c tag /\ output s' = output s ++ c ++ tag /\
    d_ps (out_dir s') = d_ps (out_dir s) /\ d_z (out_dir s') = d_z (out_dir s) /\
    extra_pad s' = extra_pad s /\ core s' = core s.
Proof.
  intros Hlk Hfr Hpb Hsz E. destruct (linked_params _ _ Hlk) as (a & b & Ha & Hb & Hst & Hkl & Epar). cbv zeta in Epar.
  set (p := dir_params (out_dir s)) in *. destruct Epar as (Hau & _ & Hbs & _ & _ & Haad & _).
  destruct (framed_len _ _ _ Hfr) as [_ Hpl]. pose proof (zlen_nonneg body). destruct Hfr as (pad & Hfr & Hpad & _ & Hmod).
  pose proof Hst as (Hc & _). destruct (ciphers_shape _ Hc) as (_ & Hau2 & _).
  destruct (in_step_seals a b (seqnr (d_ps (out_dir s))) (uninit (zlen pkt + authlen p)) pkt (zlen pkt - aadlen p) (aadlen p) Hst)
    as (a' & c & Ec & Eca & _ & Hcl & Hcb & Hop); [by rewrite <- Hbs|done|lia|done|lia|rewrite uninit_len; lia|].
  rewrite <- Hau in *. unfold seal_outgoing in E. run_in E.
  rewrite (u32_small (zlen pkt)), (u32_small (zlen pkt - aadlen p)) in E by (unfold SSHBUF_SIZE_MAX in *; lia).
  apply bind_ok in E as (mac & s1 & E1 & E). apply bind_ok in E as (u & s2 & E2 & E).
  injection E2 as _ <-. run_in E.
  assert (forall t, d_ctx (out_dir t) = Some a ->
    with_ctx MODE_OUT (seqnr (d_ps (out_dir s))) pkt (zlen pkt - aadlen p) (aadlen p) (authlen p) (zlen pkt + authlen p) t =
    (Ok c, set_out_dir (dir_ctx (Some a') (out_dir t)) t)) as Hwc by (intros t Ht; by eapply in_step_out).
  destruct (mac_live (p_mac p)) eqn:Hlive; cbn [andb] in E1.
  - destruct (live_keys _ _ Hlk Hlive) as (k & Hk & Hpm & Hau0 & Hready). fold p in Hpm, Hau0. destruct (mac_is_etm (p_mac p)) eqn:Hetm; cbn [negb] in E1.
    + apply run_inj in E1 as [<- <-]. rewrite (se_bind_ok _ _ _ _ _ (Hwc (set_output _ s) Ha)) in E. run_in E.
      apply bind_ok in E as (tag & s3 & E3 & E). rewrite ztake_ge in E3 by lia.
      apply (with_mac_out _ k) in E3 as (m1 & -> & Hen & Hmr); [|done..]. run_in E. apply bind_ok in E as (o2 & s4 & E4 & E).
      injection E4 as E4 <-. apply bput_ok in E4 as [-> _]. apply run_inj in E as [_ <-].
      exists c, tag. split; [|split_and!; try done; by rewrite app_assoc]. constructor; [by exists a, a'|fold p; lia|done|].
      unfold tagged. fold p. rewrite Hlive, Hetm. by exists k, m1.
    + apply (with_mac_out _ k) in E1 as (m1 & -> & Hen & Hmr); [|done..].
      rewrite (se_bind_ok _ _ _ _ _ 
        (Hwc (set_output (output s ++ uninit (zlen pkt + authlen p)) (set_out_dir (dir_keys (Some (keys_mac m1 k)) (out_dir s)) s)) Ha)) in E. run_in E. apply bind_ok in E as (o2 & s4 & E4 & E).
      injection E4 as E4 <-. apply bput_ok in E4 as [-> _]. apply run_inj in E as [_ <-].
      exists c, mac. split; [|split_and!; try done; by rewrite app_assoc]. constructor; [by exists a, a'|fold p; lia|done|].
      unfold tagged. fold p. rewrite Hlive, Hetm. by exists k, m1.
  - apply run_inj in E1 as [<- <-]. rewrite (se_bind_ok _ _ _ _ _ (Hwc (set_output _ s) Ha)) in E. run_in E. apply run_inj in E as [_ <-].
    exists c, []. split; [|split_and!; try done; by rewrite app_nil_r]. constructor; [by exists a, a'|fold p; lia|done|].
    unfold tagged. fold p. by rewrite Hlive.
Qed.
(** The payload [pl] sent from direction [o]: compressed to [body], framed to
    [pkt], encrypted to [c] and tagged with [tag]; the direction is then [o1]. *)
Record encoded (o o1 : dir zdeflate) (pl body pkt c tag : list Z) : Prop := {
  en_pl : bytes_ok pl /\ 0 < zlen pl <= SSHBUF_SIZE_MAX;
  en_comp : compressed o o1 pl body;
  en_frame : framed (dir_params o) body pkt;
  en_bytes : bytes_ok pkt;
  en_seal : sealed o o1 pkt c tag;
  en_ps : d_ps o1 = count_packet (block_size (dir_params o)) (zlen pkt) (d_ps o);
  en_count : (packets (d_ps o1) =? 0) && negb bug_norekey = false
}.

(** What is done after a packet of a type has been sent. *)
Definition after_send (type : Z) (srv : bool) : SE ssh unit :=
  if type =? SSH2_MSG_NEWKEYS then ssh_set_newkeys MODE_OUT
  else if (type =? SSH2_MSG_USERAUTH_SUCCESS) && srv then ssh_packet_enable_delayed_compress
  else mret tt.

Lemma framed_bytes p body pkt : framed p body pkt -> bytes_ok body -> bytes_ok pkt.
Proof.
  intros (pad & -> & Hp & Hb & _) Hbo. apply Forall_app_2; [apply POKE_U32_bytes|].
  apply Forall_app_2; [by apply Forall_singleton; unfold is_byte; lia|by apply Forall_app_2].
Qed.

(** The first stage of sending: the body and the direction it leaves. *)
Lemma compress_stage s i hdr pl s1 :
  linked (out_dir s) i -> outgoing_packet s = hdr ++ pl -> zlen hdr = 5 -> bytes_ok pl -> 0 < zlen pl ->
  zlen (hdr ++ pl) <= SSHBUF_SIZE_MAX ->
  (if comp_live (p_comp (dir_params (out_dir s))) then compress_outgoing else mret tt) s = (Ok tt, s1) ->
  exists hdr1 body, outgoing_packet s1 = hdr1 ++ body /\ zlen hdr1 = 5 /\ zlen (hdr1 ++ body) <= SSHBUF_SIZE_MAX /\
    bytes_ok body /\ compressed (out_dir s) (out_dir s1) pl body /\
    d_ctx (out_dir s1) = d_ctx (out_dir s) /\ d_keys (out_dir s1) = d_keys (out_dir s) /\
    d_ps (out_dir s1) = d_ps (out_dir s) /\ output s1 = output s /\ extra_pad s1 = extra_pad s /\ core s1 = core s /\
    exists i1, linked (out_dir s1) i1.
Proof.
  intros Hlk Eo Hh Hb Hpl Hsz E. destruct (linked_params _ _ Hlk) as (a & b & Ha & Hib & Hst & Hkl & Epar). cbv zeta in Epar.
  destruct Epar as (_ & _ & _ & _ & _ & _ & _ & _ & Hcl & _). rewrite Hcl in E. unfold compressed.
  destruct (compressing (d_keys (out_dir s))) eqn:Hco.
  - apply (compress_outgoing_ok s s1 hdr pl) in E as (zd & zd' & f & body & Ez & El & Eo1 & Hsz1 & Ed & Eou & Eex & Ecore);
      [|done|done|by intros ->]. rewrite zlen_app in Hsz. pose proof (zlen_nonneg hdr).
    destruct (lk_z _ _ Hlk Hco) as (zd0 & zi & Ez0 & Ezi & Hp). assert (zd0 = zd) as -> by congruence.
    destruct (z_through zd zi pl body zd' f Hp Hb ltac:(lia) El) as (Hbb & zi' & _ & Hp').
    exists [0; 0; 0; 0; 0], body. rewrite Eo1 in Hsz1. rewrite Ed. split_and!; try (done || by destruct f).
    + exists zd, zd', f. by destruct f.
    + exists (dir_z (Some zi') i). constructor; [..|intros _; exists zd', zi'; by destruct f].
      * exists a, b. by destruct f.
      * destruct f; apply (lk_seqnr _ _ Hlk).
      * destruct f; apply (lk_packets _ _ Hlk).
  - apply run_inj in E as [_ <-]. exists hdr, pl. split_and!; try done. by exists i.
Qed.

Lemma send_ok s i hdr pl s' :
  linked (out_dir s) i -> outgoing_packet s = hdr ++ pl -> zlen hdr = 5 -> bytes_ok pl -> 0 < zlen pl ->
  zlen (hdr ++ pl) <= SSHBUF_SIZE_MAX -> 0 <= extra_pad s < 256 ->
  ssh_packet_send2_wrapped s = (Ok tt, s') ->
  exists body pkt c tag s1, encoded (out_dir s) (out_dir s1) pl body pkt c tag /\
    output s1 = output s ++ c ++ tag /\ core s1 = core s /\ 0 <= extra_pad s1 < 256 /\
    after_send (znth pl 0) (server_side s) s1 = (Ok tt, s').
Proof.
  intros Hlk Eo Hh Hb Hpl Hsz Hep E. unfold ssh_packet_send2_wrapped in E. run_in E.
  assert (znth (outgoing_packet s) 5 = znth pl 0) as Ety by (rewrite Eo, znth_app_r by lia; f_equal; lia). rewrite Ety in E.
  apply bind_ok in E as ([] & s1 & E1 & E).
  destruct (compress_stage s i hdr pl s1 Hlk Eo Hh Hb Hpl Hsz E1) as
    (hdr1 & body & Eo1 & Hh1 & Hsz1 & Hbb & Hcomp & Ectx & Ekeys & Eps & Eou & Eex & Ecore & i1 & Hlk1).
  assert (dir_params (out_dir s) = dir_params (out_dir s1)) as Epar by (unfold dir_params; by rewrite Ekeys).
  rewrite Epar in E. destruct (linked_params _ _ Hlk1) as (a & b & _ & _ & Hst & _ & Hpar). cbv zeta in Hpar.
  destruct Hpar as (_ & _ & Hbs & _ & _ & Haad & _). pose proof Hst as (Hc & _). destruct (ciphers_shape _ Hc) as (Hbs2 & _).
  apply bind_ok in E as (pkt & s2 & E2 & E).
  apply (pad_outgoing_ok _ s1 pkt s2 hdr1 body) in E2 as (Hfr & Hszp & Eo2 & Ed2 & Eou2 & Hex2 & Hex2' & Ecore2);
    [|done|done|done|by rewrite Hbs|lia|by rewrite Eex].
  apply bind_ok in E as ([] & s3 & E3 & E). rewrite <- Ed2 in E3.
  pose proof (framed_bytes _ _ _ Hfr Hbb) as Hpb. rewrite <- Ed2 in Hfr, Hlk1.
  destruct (seal_outgoing_ok s2 i1 body pkt s3 Hlk1 Hfr Hpb Hszp E3) as (c & tag & Hse & Eou3 & Eps3 & Ez3 & Eex3 & Ecore3).
  run_in E. rewrite u32_small in E by (zlen_facts; unfold SSHBUF_SIZE_MAX in *; lia).
  set (cnt := count_packet _ _ _) in E. destruct ((packets cnt =? 0) && negb bug_norekey) eqn:Ecnt; [done|]. run_in E.
  assert (core s3 = core s) as Ecs by congruence. assert (server_side s3 = server_side s) as Esrv by by injection Ecs.
  rewrite Esrv in E. exists body, pkt, c, tag. eexists. split; [|split; [|split; [|split; [|exact E]]]].
  - destruct Hse as [(a1 & a2 & A1 & A2 & A3 & A4) Hl Hby Htag]. rewrite Ed2 in *.
    constructor; cbn [out_dir set_outgoing_packet set_out_dir d_ps dir_ps].
    + rewrite zlen_app in Hsz. zlen_facts. split; [done|lia].
    + unfold compressed in *. cbn [d_z dir_ps]. by rewrite Ez3.
    + by rewrite Epar.
    + done.
    + constructor; [exists a1, a2; rewrite Epar, <- Ectx, <- Eps; done|by rewrite Epar|done|].
      unfold tagged in *. rewrite Epar, <- Eps, <- Ekeys. done.
    + unfold cnt. by rewrite Epar, Eps3, Eps.
    + done.
  - cbn [output set_outgoing_packet set_out_dir]. by rewrite Eou3, Eou2, Eou.
  - exact Ecs.
  - cbn [extra_pad set_outgoing_packet set_out_dir]. lia.
Qed.
(** ** Reading *)

(** The parts of a session that reading leaves alone. *)
Definition rcore (s : ssh) :=
  (out_dir s, output s, kx s, server_side s, after_authentication s, rekey_limit s, packet_discard s, mux s).

Lemma prefix_take (n : Z) (a b c d : list Z) : a ++ b = c ++ d -> n <= zlen a -> n <= zlen c -> ztake n a = ztake n c.
Proof. intros E Ha Hc. rewrite <- (ztake_app_le n a b), E by done. by apply ztake_app_le. Qed.

Lemma linked_ctx o i a b1 : linked o i -> d_ctx o = Some a -> in_step a b1 -> linked o (dir_ctx (Some b1) i).
Proof.
  intros [(a0 & b & Ha & Hb & Hst & Hk) Hs Hp Hz] Ea Hst1. assert (a0 = a) as -> by congruence.
  constructor; try done. by exists a, b1.
Qed.

(** How far the receiver [B] has come with a packet, and the bytes of it that are
    still to be consumed. *)
Inductive stage (o o1 : dir zdeflate) (pkt c tag : list Z) (B : ssh) : list Z -> Prop :=
| stage_new : packlen B = 0 -> linked o (in_dir B) -> stage o o1 pkt c tag B (c ++ tag)
| stage_aad :
    aadlen (dir_params o) = 4 -> packlen B = zlen pkt - 4 -> incoming_packet B = [] -> linked o (in_dir B) ->
    stage o o1 pkt c tag B (c ++ tag)
| stage_block i b1 b' a' :
    aadlen (dir_params o) = 0 -> packlen B = zlen pkt - 4 ->
    let bs := block_size (dir_params o) in
    bs <= zlen pkt -> incoming_packet B = ztake bs pkt -> linked o i -> in_dir B = dir_ctx (Some b1) i ->
    d_ctx o1 = Some a' -> in_step a' b' ->
    (forall seq inp dest, zlen dest = zlen pkt - bs -> bytes_ok inp -> zlen pkt - bs <= zlen inp ->
       ztake (zlen pkt - bs) inp = zdrop bs c ->
       cipher_crypt b1 seq dest inp (zlen pkt - bs) 0 0 = (Ok tt, b', zdrop bs pkt)) ->
    stage o o1 pkt c tag B (zdrop bs c ++ tag).

Lemma get_length_short cc seq inp n : n < 4 -> exists e, cipher_get_length cc seq inp n = (Err e, cc).
Proof.
  intros Hn. unfold cipher_get_length. destruct (c_flag _ _).
  - destruct cc as [pl en ev [cp|] ci]; cbn [cc_cp]; [|by eexists]. unfold chachapoly_get_length.
    rewrite (proj2 (Z.ltb_lt _ _)) by done. by eexists.
  - rewrite (proj2 (Z.ltb_lt _ _)) by done. by eexists.
Qed.

Lemma framed_peek p body pkt : framed p body pkt -> zlen pkt <= PACKET_MAX_SIZE + 4 -> PEEK_U32 pkt = zlen pkt - 4.
Proof.
  intros Hf Hs. destruct (framed_len _ _ _ Hf) as [_ Hl]. zlen_facts. destruct Hf as (pad & E & _). rewrite E at 1.
  rewrite PEEK_POKE_U32. apply u32_small. unfold PACKET_MAX_SIZE in Hs. pose proof (zlen_nonneg body). lia.
Qed.

Lemma peek32_take' n m : 4 <= n -> 4 <= zlen m -> PEEK_U32 (ztake n m) = PEEK_U32 m.
Proof.
  intros Hn Hm. rewrite <- (peek32_take m) by done. destruct (Z.le_gt_cases n (zlen m)).
  - rewrite <- (peek32_take (ztake n m)) by (rewrite zlen_ztake; lia). by rewrite ztake_ztake.
  - rewrite ztake_ge by lia. by rewrite peek32_take.
Qed.

Lemma framed_block p body pkt :
  framed p body pkt -> block_size p = 8 \/ block_size p = 16 -> aadlen p = 0 -> block_size p <= zlen pkt.
Proof.
  intros Hf Hbs Ha. destruct (framed_len _ _ _ Hf) as [_ Hl]. pose proof (zlen_nonneg body). destruct Hf as (pad & _ & _ & _ & Hm).
  rewrite Ha, Z.sub_0_r in Hm. apply Z.mod_divide in Hm as [k Hk]; [|lia]. destruct Hbs as [E|E]; rewrite E in *; lia.
Qed.

Lemma good_packlen p body pkt : framed p body pkt -> zlen pkt <= PACKET_MAX_SIZE + 4 -> bad_packlen (zlen pkt - 4) = false.
Proof.
  intros Hf Hs. destruct (framed_len _ _ _ Hf) as [_ Hl]. pose proof (zlen_nonneg body). unfold bad_packlen.
  destruct (Z.ltb_spec (zlen pkt - 4) (1 + 4)), (Z.gtb_spec (zlen pkt - 4) PACKET_MAX_SIZE); (done || lia).
Qed.

Lemma read_packlen_ok o o1 pl body pkt c tag B fut later :
  encoded o o1 pl body pkt c tag -> zlen pkt <= PACKET_MAX_SIZE + 4 ->
  packlen B = 0 -> linked o (in_dir B) ->
  bytes_ok (input B) -> zlen (input B) <= SSHBUF_SIZE_MAX -> input B ++ fut = (c ++ tag) ++ later ->
  exists known B', read_packlen (dir_params (in_dir B)) B = (Ok known, B') /\ rcore B' = rcore B /\ d_keys (in_dir B') = d_keys (in_dir B) /\
    exists rest, stage o o1 pkt c tag B' rest /\ input B' ++ fut = rest ++ later /\ zlen (input B') <= zlen (input B) /\
      bytes_ok (input B') /\
      (if known then packlen B' <> 0 else packlen B' = 0 /\ zlen (input B') < zlen rest).
Proof.
  intros En Hsz Hpk Hlk Hib Hil Hpre. pose proof En as [_ _ Hfr Hpb Hse _ _].
  destruct (linked_params _ _ Hlk) as (a & b & Ha & Hb & Hst & Hkl & Epar). cbv zeta in Epar.
  destruct Epar as (Hau & Hau' & Hbs & Hbs' & Haa & Haad & _). destruct Hse as [(a0 & a' & A0 & A1 & A2 & Hop) Hcl Hcb _].
  assert (a0 = a) as -> by congruence. specialize (Hop b Hst). destruct Hop as (Hgl & _ & Hblk).
  pose proof (framed_peek _ _ _ Hfr Hsz) as Hpeek. pose proof (good_packlen _ _ _ Hfr Hsz) as Hgood.
  destruct (framed_len _ _ _ Hfr) as [_ Hlen]. pose proof (zlen_nonneg body). pose proof (zlen_nonneg tag).
  pose proof Hst as (Hc & _). destruct (ciphers_shape _ Hc) as (Hb8 & Ha16 & _).
  unfold read_packlen. run. rewrite Hpk. change (0 =? 0) with true. cbn [negb]. rewrite <- Haa, Hbs', Hb.
  destruct Haad as [E4|[E4 Ez]]; rewrite E4 in *.
  - change (4 =? 0) with false. cbn [negb]. rewrite u32_small by (zlen_facts; unfold SSHBUF_SIZE_MAX in *; lia).
    destruct (Z.lt_ge_cases (zlen (input B)) 4) as [Hs|Hs].
    + destruct (get_length_short b (seqnr (d_ps (in_dir B))) (input B) _ Hs) as (e & ->). run.
      eexists false, _. split; [done|]. split; [done|]. split; [done|]. exists (c ++ tag).
      split; [apply stage_new; [done|by eapply linked_ctx]|]. split; [done|]. split; [done|]. split; [done|].
      split; [done|]. rewrite zlen_app. cbn [input set_mode_ctx set_in_dir]. lia.
    + destruct (Hgl eq_refl (input B) Hib Hs) as (b1 & Eb1 & Hst1).
      { rewrite (prefix_take 4 _ _ _ _ Hpre) by (rewrite ?zlen_app; lia). apply ztake_app_le. lia. }
      rewrite <- (lk_seqnr _ _ Hlk), Eb1. run. rewrite Hpeek, Hgood. run.
      eexists true, _. split; [done|]. split; [done|]. split; [done|]. exists (c ++ tag).
      split; [apply stage_aad; [done|done|done|by eapply linked_ctx]|]. split; [done|]. split; [done|]. split; [done|].
      cbn [packlen set_incoming_packet set_packlen]. lia.
  - change (0 =? 0) with true. cbn [negb]. pose proof (framed_block _ _ _ Hfr ltac:(by rewrite Hbs) E4) as Hblkl. rewrite Hbs in Hblkl.
    destruct (Z.ltb_spec (zlen (input B)) (c_block_size (cc_cipher a))) as [Hs|Hs].
    + eexists false, B. split; [done|]. split; [done|]. split; [done|]. exists (c ++ tag). split; [by apply stage_new|].
      do 3 (split; [done|]). split; [done|]. rewrite zlen_app. lia.
    + rewrite <- Hbs in *. set (bs := block_size (dir_params o)) in *. rewrite Z.sub_0_r in *.
      destruct (Hblk ltac:(lia) eq_refl bs ltac:(lia) ltac:(apply Z.mod_same; lia)) as (b1 & Hc1 & b' & Hst' & Hc2).
      assert (cipher_crypt b (seqnr (d_ps (out_dir B))) (uninit bs) (input B) bs 0 0 = (Ok tt, b1, ztake bs pkt)) as Ec.
      { apply Hc1; [apply uninit_len; lia|done|done|]. rewrite (prefix_take bs _ _ _ _ Hpre) by (rewrite ?zlen_app; lia).
        apply ztake_app_le. lia. }
      assert (forall t, d_ctx (in_dir t) = Some b -> with_ctx MODE_IN (seqnr (d_ps (out_dir B))) (input B) bs 0 0 bs t =
        (Ok (ztake bs pkt), set_in_dir (dir_ctx (Some b1) (in_dir t)) t)) as Hw by (intros t Ht; unfold with_ctx; by rewrite Ht, Ec).
      run. rewrite (se_bind_ok _ _ _ _ _ (Hw (set_incoming_packet (uninit bs) B) Hb)). run.
      rewrite peek32_take' by lia. rewrite Hpeek, Hgood, bconsume_fits by done. run.
      eexists true, _. split; [done|]. split; [done|]. split; [done|]. exists (zdrop bs c ++ tag).
      split; [by apply (stage_block o o1 pkt c tag _ (in_dir B) b1 b' a')|].
      cbn [input packlen set_input]. split; [|split; [|split]].
      * apply (app_inv_head (ztake bs (input B))). rewrite app_assoc, ztake_zdrop, Hpre.
        rewrite (prefix_take bs _ _ _ _ Hpre) by (rewrite ?zlen_app; lia). rewrite ztake_app_le by lia.
        rewrite !app_assoc, ztake_zdrop. done.
      * rewrite zlen_zdrop; lia.
      * by apply Forall_zdrop.
      * cbn [packlen set_packlen]. lia.
Qed.
(** The bytes that a packet still needs, as [read_packet] computes them. *)
Definition need_of (p : params) (n : Z) : Z := if negb (aadlen p =? 0) then n else u32 (4 + n - block_size p).

(** From either stage with a known length, decryption gives the rest of the
    packet and leaves the contexts in step. *)
Lemma stage_open o o1 pl body pkt c tag B rest fut later :
  encoded o o1 pl body pkt c tag -> zlen pkt <= PACKET_MAX_SIZE + 4 -> stage o o1 pkt c tag B rest -> packlen B <> 0 ->
  let p := dir_params (in_dir B) in let need := need_of p (packlen B) in
  exists i pre, linked o i /\ d_keys (in_dir B) = d_keys i /\ d_ps (in_dir B) = d_ps i /\ d_z (in_dir B) = d_z i /\
    packlen B = zlen pkt - 4 /\ 0 <= need <= zlen pkt /\ need mod block_size p = 0 /\
    rest = pre ++ tag /\ zlen pre = aadlen p + need + authlen p /\ (aadlen p <> 0 -> pre = c) /\
    (bytes_ok (input B) -> zlen rest <= zlen (input B) -> input B ++ fut = rest ++ later ->
     exists b0 a' b' part, d_ctx (in_dir B) = Some b0 /\ d_ctx o1 = Some a' /\ in_step a' b' /\
       incoming_packet B ++ part = pkt /\
       cipher_crypt b0 (seqnr (d_ps (in_dir B))) (uninit (aadlen p + need)) (input B) need (aadlen p) (authlen p) = (Ok tt, b', part)).
Proof.
  intros [_ _ Hfr Hpb Hse _ _] Hsz Hstage Hpk p need. destruct Hse as [(a0 & a1 & A0 & A1 & A2 & Hop) Hcl Hcb _].
  destruct (framed_len _ _ _ Hfr) as [_ Hlen]. pose proof (zlen_nonneg body). pose proof (zlen_nonneg tag).
  destruct Hfr as (pad & _ & _ & _ & Hmod).
  destruct Hstage as [Hp0 Hlk|E4 Epk Einc Hlk|i b1 b' a' E0 Epk bs Hbl Einc Hlk Ei Ea' Hst' Hdec]; [done|..];
    destruct (linked_params _ _ Hlk) as (a & b & Ha & Hb & Hst & _ & Epar); cbv zeta in Epar;
    destruct Epar as (Hau & Hau' & Hbs & Hbs' & Haa & Haad & _); assert (a0 = a) as -> by congruence;
    pose proof Hst as (Hc & _); destruct (ciphers_shape _ Hc) as (Hb8 & Ha16 & _).
  - exists (in_dir B), c. fold p in Hau', Hbs', Haa. unfold need, need_of. rewrite <- Haa, E4, Epk. change (4 =? 0) with false. cbn [negb].
    do 5 (split; [done|]). split; [lia|]. split; [rewrite Hbs', <- Hbs, <- Hmod, E4; done|]. split; [done|].
    split; [rewrite Hau', <- Hau; lia|]. split; [done|]. intros Hib Hil Hpre. rewrite zlen_app in Hil.
    destruct (Hop b Hst) as (_ & Hw & _). rewrite E4 in Hw.
    destruct (Hw (input B) (uninit (4 + (zlen pkt - 4))) Hib) as (b' & Ec & Hst'); [lia| |rewrite uninit_len; lia|].
    { rewrite (prefix_take (zlen c) _ _ _ _ Hpre) by (rewrite ?zlen_app; lia). by apply ztake_app_exact. }
    exists b, a1, b', pkt. rewrite Einc. do 4 (split; [done|]). rewrite Hau', <- Hau, <- (lk_seqnr _ _ Hlk). exact Ec.
  - assert (p = dir_params i) as Ep by (unfold p; rewrite Ei; done). rewrite <- Ep in *.
    exists i, (zdrop bs c). unfold need, need_of. rewrite <- Haa, E0, Epk, Ei. change (0 =? 0) with true. cbn [negb].
    rewrite Hbs', <- Hbs. fold bs. rewrite u32_small by (unfold bs, PACKET_MAX_SIZE in *; lia). replace (4 + (zlen pkt - 4) - bs) with (zlen pkt - bs) by lia.
    do 5 (split; [done|]). split; [unfold bs in *; lia|].
    split. { rewrite E0, Z.sub_0_r in Hmod. rewrite Zminus_mod. fold bs in Hmod. rewrite Hmod, Z.mod_same by (unfold bs; lia). done. }
    split; [done|]. split; [rewrite zlen_zdrop by (unfold bs in *; lia); rewrite Hau', <- Hau in *; lia|]. split; [done|].
    intros Hib Hil Hpre. rewrite zlen_app, zlen_zdrop in Hil by (unfold bs in *; lia).
    exists b1, a', b', (zdrop bs pkt). split; [done|]. split; [done|]. split; [done|]. split; [rewrite Einc; apply ztake_zdrop|].
    assert (authlen p = 0) as Ez by (rewrite Hau'; lia).
    rewrite Ez. apply Hdec; [rewrite uninit_len; unfold bs in *; lia|done|lia|].
    rewrite (prefix_take (zlen pkt - bs) _ _ _ _ Hpre) by (rewrite ?zlen_app, ?zlen_zdrop; unfold bs in *; lia).
    apply ztake_app_exact. rewrite zlen_zdrop; unfold bs in *; lia.
Qed.
Lemma mac_tag_bytes alg key seq data tag : mac_tag alg key seq data = Some tag -> bytes_ok tag.
Proof.
  unfold mac_tag. intros E. apply fmap_Some in E as (x & E & ->). apply Forall_ztake.
  destruct (ma_type alg =? SSH_DIGEST).
  - unfold hmac_spec in E. destruct (key_block _ _); [|done]. cbn [mbind option_bind] in E.
    destruct (evp_md _ (_ ++ _)) as [i|]; [|done]. cbn [mbind option_bind] in E. by eapply evp_md_bytes.
  - destruct (_ =? _); injection E as <-; [apply umac_bytes|apply umac128_bytes].
Qed.

(** The check of the right tag. *)
Lemma mac_check_ok alg key m seq data tag :
  mac_ready alg key m -> mac_tag alg key seq data = Some tag ->
  zlen tag = mac_len m /\ exists m1, mac_check seq data tag (mac_len m) m = (Ok tt, m1) /\ mac_ready alg key m1 /\
    mac_enabled m1 = mac_enabled m.
Proof.
  intros Hr Ht. destruct (macs_ok alg (mr_alg _ _ _ Hr)) as (_ & Hl & _). pose proof (mr_len _ _ _ Hr) as Hml.
  pose proof (mac_tag_len _ _ _ _ _ (mr_alg _ _ _ Hr) umac_len umac128_len Ht) as Htl. split; [lia|].
  destruct (mac_compute_ready alg key m seq data SSH_DIGEST_MAX_LENGTH Hr) as (m1 & Hr1 & Hl1 & E);
    [unfold SSH_DIGEST_MAX_LENGTH; lia|]. pose proof (mac_compute_enabled seq data SSH_DIGEST_MAX_LENGTH m) as Hen.
  rewrite E in Hen. rewrite Ht in E. unfold mac_check. destruct (Z.gtb_spec (mac_len m) (mac_len m)); [lia|].
  rewrite E. rewrite Hl1, !ztake_ge by lia.
  rewrite (proj2 (timingsafe_bcmp_eq tag tag eq_refl (mac_tag_bytes _ _ _ _ _ Ht) (mac_tag_bytes _ _ _ _ _ Ht)) eq_refl).
  exists m1. done.
Qed.

Definition ctx_linked (o : dir zdeflate) (i : dir zinflate) : Prop :=
  exists a b, d_ctx o = Some a /\ d_ctx i = Some b /\ in_step a b /\ keys_linked (cc_cipher a) (d_keys o) (d_keys i).

Definition maclen_of (p : params) : Z := match p_mac p with Some m => if mac_enabled m then mac_len m else 0 | None => 0 end.

(** The receiver's live MAC checks the sender's tag. *)
Lemma tag_checks o o1 i pkt c tag :
  linked o i -> tagged o o1 pkt c tag -> mac_live (p_mac (dir_params i)) = true ->
  exists k m1, d_keys i = Some k /\ p_mac (dir_params i) = Some (nk_mac k) /\ maclen_of (dir_params i) = zlen tag /\
    mac_len (nk_mac k) = zlen tag /\ authlen (dir_params i) = 0 /\
    mac_check (seqnr (d_ps i)) (if mac_is_etm (p_mac (dir_params i)) then c else pkt) tag (zlen tag) (nk_mac k) = (Ok tt, m1) /\
    forall a, d_ctx o = Some a -> keys_linked (cc_cipher a) (d_keys o1) (Some (keys_mac m1 k)).
Proof.
  intros Hlk Htag Hlive. destruct (linked_params _ _ Hlk) as (a & b & Ha & Hb & Hst & Hkl & Epar). cbv zeta in Epar.
  destruct Epar as (Hau & Hau' & _ & _ & _ & _ & Hml & Hme & _). unfold tagged in Htag. rewrite Hml, Hlive in Htag.
  destruct Htag as (ko & m & Eko & Eko1 & Hen & Hr). rewrite Eko in Hkl. unfold keys_linked in Hkl.
  destruct (d_keys i) as [k|] eqn:Ek; [|done]. destruct Hkl as (C1 & C2 & C3 & C4 & C5 & Hmac).
  unfold dir_params in Hlive, Hau'. rewrite Ek in Hlive, Hau'. cbn [p_mac authlen] in Hlive, Hau'.
  destruct (enc_authlen (nk_enc k) =? 0) eqn:Eau; [|done]. apply Z.eqb_eq in Eau. cbn [mac_live] in Hlive.
  destruct Hmac as (alg & key & R1 & R2 & N1 & N2); [lia|]. destruct (Hr alg key R1) as (Rm & Ht).
  rewrite Hme, (lk_seqnr _ _ Hlk) in Ht. destruct (mac_check_ok alg key (nk_mac k) _ _ _ R2 Ht) as (Hlen & m1 & Ec & R3 & N3).
  assert (p_mac (dir_params i) = Some (nk_mac k)) as Epm by (unfold dir_params; rewrite Ek; cbn [p_mac]; by rewrite Eau).
  exists k, m1. split; [done|]. split; [done|]. split; [unfold maclen_of; rewrite Epm, N2; done|]. split; [done|].
  split; [unfold dir_params; rewrite Ek; done|]. split; [by rewrite Hlen|].
  intros a1 Ea1. assert (a1 = a) as -> by congruence. rewrite Eko1. unfold keys_linked, keys_mac. cbn [nk_enc nk_mac nk_comp].
  do 5 (split; [done|]). intros _. exists alg, key. rewrite Hen, N3. done.
Qed.

Lemma dead_keys o i : linked o i -> mac_live (p_mac (dir_params i)) = false -> maclen_of (dir_params i) = 0.
Proof. intros _ Hd. unfold maclen_of. destruct (p_mac (dir_params i)) as [m|]; [|done]. cbn in Hd. by rewrite Hd. Qed.

Lemma etm_aad {S} (d : dir S) : mac_is_etm (p_mac (dir_params d)) = true -> aadlen (dir_params d) = 4.
Proof. unfold dir_params. destruct (d_keys d); [|done]. cbn [p_mac aadlen]. by intros ->. Qed.

Lemma with_mac_in s k seq data tag m1 n :
  d_keys (in_dir s) = Some k -> mac_check seq data tag n (nk_mac k) = (Ok tt, m1) ->
  with_mac MODE_IN (mac_check seq data tag n) s = (Ok tt, set_in_dir (dir_keys (Some (keys_mac m1 k)) (in_dir s)) s).
Proof. intros Hk E. unfold with_mac, mode_keys. by rewrite Hk, E. Qed.

(** Decryption into the packet buffer and out of the input. *)
Lemma decrypt_incoming s b0 b' part seq inp need aad auth tl {A} (f : list Z -> SE ssh A) :
  d_ctx (in_dir s) = Some b0 -> cipher_crypt b0 seq (uninit (aad + need)) inp need aad auth = (Ok tt, b', part) ->
  (with_ctx MODE_IN seq inp need aad auth (aad + need) ≫= f) (set_incoming_packet tl s) =
  f part (set_incoming_packet tl (set_in_dir (dir_ctx (Some b') (in_dir s)) s)).
Proof. intros Hb E. unfold mbind, se_bind, with_ctx. cbn [in_dir set_incoming_packet]. by rewrite Hb, E. Qed.

Lemma verdict_ok m s s1 {A} (f : bool -> SE ssh A) : m s = (Ok tt, s1) -> (mac_verdict m ≫= f) s = f true s1.
Proof. intros E. unfold mbind, se_bind, mac_verdict. by rewrite E. Qed.

Lemma open_incoming_ok o o1 pl body pkt c tag B rest fut later :
  encoded o o1 pl body pkt c tag -> zlen pkt <= PACKET_MAX_SIZE + 4 -> stage o o1 pkt c tag B rest -> packlen B <> 0 ->
  bytes_ok (input B) -> zlen rest <= zlen (input B) -> input B ++ fut = rest ++ later ->
  let p := dir_params (in_dir B) in
  exists B', open_incoming p (need_of p (packlen B)) (maclen_of p) B = (Ok true, B') /\ rcore B' = rcore B /\
    packlen B' = packlen B /\ incoming_packet B' = pkt /\ input B' = zdrop (zlen rest) (input B) /\
    ctx_linked o1 (in_dir B') /\ d_ps (in_dir B') = d_ps (in_dir B) /\ d_z (in_dir B') = d_z (in_dir B) /\
    nk_comp <$> d_keys (in_dir B') = nk_comp <$> d_keys (in_dir B).
Proof.
  intros En Hsz Hstage Hpk Hib Hil Hpre p. set (need := need_of p (packlen B)). pose proof En as [_ _ Hfr Hpb [(a & a1 & A0 & A1 & A2 & _) Hcl _ Htag] _ _].
  destruct (stage_open o o1 pl body pkt c tag B rest fut later En Hsz Hstage Hpk) as
    (i & pre & Hlk & Ek & Eps & Ez & Epl & Hneed & Hmod & Erest & Hprel & Hprec & Hdec). fold p in Hneed, Hmod, Hprel, Hprec, Hdec. fold need in Hneed, Hmod, Hprel, Hprec, Hdec.
  destruct (Hdec Hib Hil Hpre) as (b0 & a' & b' & part & Eb0 & Ea' & Hst & Einc & Ec). assert (a1 = a') as -> by congruence.
  assert (dir_params i = p) as Ep by (unfold p, dir_params; by rewrite Ek).
  pose proof (framed_len _ _ _ Hfr) as [_ Hlen]. pose proof (zlen_nonneg body). pose proof (zlen_nonneg (incoming_packet B)). pose proof (zlen_nonneg tag).
  destruct (linked_params _ _ Hlk) as (x & ? & _ & _ & (Hin & _) & _ & Epar). cbv zeta in Epar.
  destruct Epar as (_ & Hau & _ & _ & Haa & Haad & _). rewrite Haa in Haad. rewrite Ep in Hau, Haad.
  destruct (ciphers_shape _ Hin) as (_ & Hau16 & _).
  set (tl := zdrop (zlen rest) (input B)). assert (input B = pre ++ tag ++ tl) as Ei.
  { rewrite app_assoc, <- Erest. rewrite <- (ztake_zdrop (zlen rest) (input B)). f_equal.
    rewrite (prefix_take (zlen rest) _ _ _ _ Hpre) by lia. by apply ztake_ge. }
  assert (zlen (incoming_packet B) + zlen part = zlen pkt) as Hsum by (rewrite <- Einc, zlen_app; done).
  pose proof (zlen_nonneg part).
  assert (zlen (incoming_packet B ++ uninit (aadlen p + need)) <= SSHBUF_SIZE_MAX) as Hfit
    by (rewrite zlen_app, uninit_len by lia; unfold SSHBUF_SIZE_MAX, PACKET_MAX_SIZE in *; lia).
  assert (zlen (incoming_packet B) + zlen (uninit (aadlen p + need)) <= SSHBUF_SIZE_MAX) as Hfit2 by (by rewrite zlen_app in Hfit).
  assert (zlen (input B) = zlen pre + zlen tag + zlen tl) as Hil2 by (rewrite Ei, !zlen_app; lia). pose proof (zlen_nonneg tl).
  assert (zdrop (aadlen p + need + authlen p) (input B) = tag ++ tl) as Edrop by (rewrite Ei; apply zdrop_app_exact; lia).
  destruct (mac_live (p_mac p)) eqn:Hlive.
  - rewrite <- Ep in Hlive. destruct (tag_checks o o1 i pkt c tag Hlk Htag Hlive) as (k & m1 & Eki & Epm & Eml & Emk & Eau & Echk & Hkl).
    rewrite Ep in Epm, Eml, Eau, Echk, Hlive. specialize (Hkl a A0). rewrite <- Eps in Echk. rewrite <- A2 in Hkl.
    assert (d_keys (in_dir B) = Some k) as EkB by congruence. rewrite Eml.
    unfold open_incoming. run. rewrite Hlive. destruct (mac_is_etm (p_mac p)) eqn:Hetm.
    + pose proof (etm_aad (in_dir B) Hetm) as Haad4. fold p in Haad4. assert (pre = c) as -> by (apply Hprec; lia).
      assert (ztake (aadlen p + need) (input B) = c) as Et1 by (rewrite Ei; apply ztake_app_exact; lia).
      assert (slice (aadlen p + need + authlen p) (zlen tag) (input B) = tag) as Et2.
      { rewrite slice_ztake, Ei, app_assoc, ztake_app_exact by (rewrite ?zlen_app; lia). apply zdrop_app_exact. lia. }
      rewrite Et1, Et2. rewrite (se_bind_ok _ _ _ _ _ (with_mac_in B k _ c tag m1 (zlen tag) EkB Echk)).
      rewrite bput_fits by done. run. rewrite (decrypt_incoming _ b0 b' part) by done. run.
      rewrite bconsume_fits by lia. run. rewrite Edrop, Epm, Emk. cbn [input set_input]. rewrite bconsume_fits by (rewrite zlen_app; lia). run.
      rewrite zdrop_app_exact by done. eexists. split; [done|].
      cbn [in_dir input incoming_packet packlen set_input set_incoming_packet set_in_dir d_ps d_z d_keys dir_ctx dir_keys].
      do 3 (split; [done|]). split; [by unfold tl; f_equal|]. split; [by exists a', b'|]. rewrite EkB. done.
    + rewrite bput_fits by done. run. rewrite (decrypt_incoming _ b0 b' part) by done. run.
      rewrite bconsume_fits by lia. run. rewrite Edrop. cbn [input incoming_packet set_input set_incoming_packet].
      rewrite Einc, ztake_app_exact by done. erewrite verdict_ok by (apply (with_mac_in _ k); [exact EkB|exact Echk]). run.
      rewrite Epm, Emk. rewrite bconsume_fits by (rewrite zlen_app; lia). run. rewrite zdrop_app_exact by done.
      eexists. split; [done|].
      cbn [in_dir input incoming_packet packlen set_input set_incoming_packet set_in_dir d_ps d_z d_keys dir_ctx dir_keys].
      do 3 (split; [done|]). split; [by unfold tl; f_equal|]. split; [by exists a', b'|]. rewrite EkB. done.
  - rewrite <- Ep in Hlive. pose proof (dead_keys _ _ Hlk Hlive) as Eml.
    destruct (linked_params _ _ Hlk) as (x' & ? & Ex' & _ & _ & Hkl & Epar). cbv zeta in Epar.
    destruct Epar as (_ & _ & _ & _ & _ & _ & Hml & _). unfold tagged in Htag. rewrite Hml, Hlive in Htag.
    destruct Htag as [-> Eko]. rewrite Ep in Hlive, Eml. assert (mac_is_etm (p_mac p) = false) as Hetm.
    { destruct (p_mac p) as [m|]; [|done]. cbn in *. by rewrite Hlive. }
    unfold open_incoming. run. rewrite Hlive, Hetm. run. rewrite bput_fits by done. run.
    rewrite (decrypt_incoming _ b0 b' part) by done. run. rewrite bconsume_fits by lia. run. rewrite Edrop.
    eexists. split; [done|]. cbn [in_dir input incoming_packet packlen set_input set_incoming_packet set_in_dir d_ps d_z d_keys dir_ctx app].
    do 3 (split; [done|]). split; [done|]. split; [|done]. exists a', b'. do 3 (split; [done|]).
    assert (x' = a) as -> by congruence. rewrite A2, Eko. rewrite <- Ek in Hkl. exact Hkl.
Qed.
(** ** Delayed compression *)

Definition delay {S} (z : S) (d : dir S) : dir S :=
  match d_keys d with
  | Some nk =>
      if negb (comp_enabled (nk_comp nk)) && (comp_type (nk_comp nk) =? COMP_DELAYED)
      then dir_keys (Some (keys_comp (comp_on (nk_comp nk)) nk)) (dir_z (Some z) d) else d
  | None => d
  end.
Definition delay_out (o : dir zdeflate) : dir zdeflate := match deflateInit 6 with (Z_OK, Some zd) => delay zd o | _ => o end.
Definition delay_in (i : dir zinflate) : dir zinflate := match inflateInit with (Z_OK, Some zi) => delay zi i | _ => i end.

Lemma linked_delay o i : linked o i -> linked (delay_out o) (delay_in i).
Proof.
  intros [(a & b & Ha & Hb & Hst & Hk) Hs Hp Hz]. destruct z_open as (zd & zi & Ed & Ei & Hzp). unfold delay_out, delay_in. rewrite Ed, Ei.
  unfold keys_linked in Hk. unfold delay. destruct (d_keys o) as [k|] eqn:Eo, (d_keys i) as [k'|] eqn:Ek; try done.
  - destruct Hk as (C1 & C2 & C3 & C4 & C5 & C6). rewrite <- C5. destruct (negb _ && _).
    + constructor; cbn [d_ctx d_keys d_ps d_z dir_keys dir_z]; [|done|done|intros _; by exists zd, zi]. exists a, b. rewrite C5. done.
    + constructor; rewrite ?Eo, ?Ek; try done. exists a, b. done.
  - constructor; rewrite ?Eo, ?Ek; try done. exists a, b. done.
Qed.

Lemma sshbuf_new_some : exists b, sshbuf_new = Some b.
Proof. unfold sshbuf_new. rewrite !malloc_reliable. by eexists. Qed.

(** Afterwards the scratch buffer of the compression is there. *)
Lemma init_compression_ok s : ssh_packet_init_compression s = (Ok tt, set_compression_buffer true s).
Proof.
  unfold ssh_packet_init_compression. rewrite run_get. destruct (compression_buffer s) eqn:Eb; [destruct s; cbn in Eb; by subst|].
  destruct sshbuf_new_some as [b ->]. done.
Qed.

Lemma buffer_same s : s = set_compression_buffer (compression_buffer s) s.
Proof. by destruct s. Qed.

Lemma enable_delayed_ok s :
  exists s', ssh_packet_enable_delayed_compress s = (Ok tt, s') /\ out_dir s' = delay_out (out_dir s) /\
    in_dir s' = delay_in (in_dir s) /\ input s' = input s /\ output s' = output s /\ incoming_packet s' = incoming_packet s /\
    packlen s' = packlen s /\ kx s' = kx s /\ server_side s' = server_side s /\ packet_discard s' = packet_discard s /\
    mux s' = mux s /\ extra_pad s' = extra_pad s /\ rekey_limit s' = rekey_limit s /\ after_authentication s' = true /\ wire s' = wire s.
Proof.
  destruct z_open as (zd & zi & Ed & Ei & _).
  unfold ssh_packet_enable_delayed_compress, delay_out, delay_in. rewrite Ed, Ei. run.
  set (s0 := set_after_authentication true s).
  assert (exists b, enable_delayed_mode MODE_IN s0 = (Ok tt, set_compression_buffer b (set_in_dir (delay zi (in_dir s)) s0))) as [b1 E1].
  { unfold enable_delayed_mode, delay. run. unfold mode_keys. change (in_dir s0) with (in_dir s).
    destruct (d_keys (in_dir s)) as [nk|]; [|exists (compression_buffer s); by destruct s].
    destruct (negb _ && _); [|exists (compression_buffer s); by destruct s].
    rewrite (se_bind_ok _ _ _ _ _ (init_compression_ok s0)). unfold start_compression, start_compression_in. rewrite Ei. by exists true. }
  rewrite (se_bind_ok _ _ _ _ _ E1). set (s1 := set_compression_buffer b1 _).
  assert (exists b, enable_delayed_mode MODE_OUT s1 = (Ok tt, set_compression_buffer b (set_out_dir (delay zd (out_dir s)) s1))) as [b2 E2].
  { unfold enable_delayed_mode, delay. run. unfold mode_keys. change (out_dir s1) with (out_dir s).
    destruct (d_keys (out_dir s)) as [nk|]; [|exists b1; by destruct s].
    destruct (negb _ && _); [|exists b1; by destruct s].
    rewrite (se_bind_ok _ _ _ _ _ (init_compression_ok s1)). unfold start_compression, start_compression_out.
    change ((6 <? 1) || (6 >? 9)) with false. rewrite Ed. by exists true. }
  rewrite E2. eexists. split; [done|]. done.
Qed.

(** ** The payload *)

Lemma sshpkt_get_ok n s b :
  incoming_packet s = b -> n <= zlen b -> sshpkt_get n s = (Ok (ztake n b), set_incoming_packet (zdrop n b) s).
Proof. intros E Hn. unfold sshpkt_get. run. rewrite E, bconsume_fits by done. run. reflexivity. Qed.

Lemma sshpkt_get_u8_ok s b :
  incoming_packet s = b -> 0 < zlen b -> sshpkt_get_u8 s = (Ok (znth b 0), set_incoming_packet (zdrop 1 b) s).
Proof.
  intros E Hn. unfold sshpkt_get_u8. rewrite (se_bind_ok _ _ _ _ _ (sshpkt_get_ok 1 s b E ltac:(lia))).
  rewrite znth_ztake by lia. reflexivity.
Qed.

Lemma read_payload_ok p p0 B pl body pkt zz :
  framed p0 body pkt -> incoming_packet B = pkt -> bytes_ok pl -> 0 < zlen pl -> 1 <= znth pl 0 < 192 ->
  (if comp_live (p_comp p)
   then exists zi zi', d_z (in_dir B) = Some zi /\ uncompress_loop zi body = (Ok pl, zi', false) /\ zz = Some zi'
   else body = pl /\ zz = d_z (in_dir B)) ->
  exists B', read_payload p B = (Ok (znth pl 0), B') /\ incoming_packet B' = zdrop 1 pl /\
    in_dir B' = dir_z zz (in_dir B) /\ input B' = input B /\ packlen B' = packlen B /\ rcore B' = rcore B.
Proof.
  intros Hfr Einc Hb Hpl Hty Hz. destruct Hfr as (pad & Ef & Hp & _).
  assert (znth pkt 4 = zlen pad) as E4. { rewrite Ef, znth_app_r, POKE_U32_len by (rewrite POKE_U32_len; lia). done. }
  unfold read_payload. run. rewrite Einc, E4, (proj2 (Z.ltb_ge (zlen pad) 4)) by lia.
  pose proof (zlen_nonneg body). assert (zlen pkt = 5 + (zlen body + zlen pad)) as Hl.
  { rewrite Ef at 1. rewrite !zlen_app, POKE_U32_len. change (zlen [zlen pad]) with 1. lia. }
  rewrite bconsume_fits by lia. run. assert (zdrop (4 + 1) pkt = body ++ pad) as Ed.
  { rewrite Ef, app_assoc. apply zdrop_app_exact. done. }
  rewrite Ed. unfold bconsume_end. destruct (Z.gtb_spec (zlen pad) (zlen (body ++ pad))) as [Hg|_]; [rewrite zlen_app in Hg; lia|]. run.
  rewrite ztake_app_exact by (rewrite zlen_app; lia).
  assert (forall s, incoming_packet s = pl ->
    (type ← sshpkt_get_u8;
     if (type <? SSH2_MSG_MIN) || (type >=? SSH2_MSG_LOCAL_MIN) then
       _ ← sshpkt_disconnect (str "Invalid ssh2 packet type: " ++ num type); _ ← ssh_packet_write_wait; fail SSH_ERR_PROTOCOL_ERROR
     else mret type) s = (Ok (znth pl 0), set_incoming_packet (zdrop 1 pl) s)) as Hget.
  { intros s Es. rewrite (se_bind_ok _ _ _ _ _ (sshpkt_get_u8_ok s pl Es Hpl)).
    rewrite (proj2 (Z.ltb_ge (znth pl 0) SSH2_MSG_MIN)) by (unfold SSH2_MSG_MIN; lia).
    destruct (Z.geb_spec (znth pl 0) SSH2_MSG_LOCAL_MIN); [unfold SSH2_MSG_LOCAL_MIN in *; lia|]. reflexivity. }
  destruct (comp_live (p_comp p)).
  - destruct Hz as (zi & zi' & Ezi & Eu & ->).
    assert (forall s, d_z (in_dir s) = Some zi ->
      uncompress_buffer body s = (Ok pl, set_in_dir (dir_z (Some zi') (in_dir s)) s)) as Hun
      by (intros s Es; unfold uncompress_buffer; by rewrite Es, Eu).
    erewrite se_bind_ok; [|erewrite se_bind_ok by (by apply Hun); reflexivity]. rewrite Hget by done. eexists. split; [done|]. done.
  - destruct Hz as [-> ->]. run. rewrite Hget by done. eexists. split; [done|]. split; [done|].
    split; [by destruct B as [? []]|done].
Qed.
Lemma tagged_compressing o o1 pkt c tag : tagged o o1 pkt c tag -> compressing (d_keys o1) = compressing (d_keys o).
Proof. unfold tagged. destruct (mac_live _); [intros (k & m1 & -> & -> & _); done|by intros [_ ->]]. Qed.

Lemma maclen_tag o o1 i pkt c tag : linked o i -> tagged o o1 pkt c tag -> maclen_of (dir_params i) = zlen tag.
Proof.
  intros Hlk Ht. destruct (mac_live (p_mac (dir_params i))) eqn:Hl.
  - by destruct (tag_checks o o1 i pkt c tag Hlk Ht Hl) as (? & ? & _ & _ & ? & _).
  - rewrite (dead_keys o) by done. destruct (linked_params _ _ Hlk) as (? & ? & _ & _ & _ & _ & Epar). cbv zeta in Epar.
    destruct Epar as (_ & _ & _ & _ & _ & _ & Hml & _). unfold tagged in Ht. rewrite Hml, Hl in Ht. by destruct Ht as [-> _].
Qed.

Lemma tag_short o o1 i pkt c tag : linked o i -> tagged o o1 pkt c tag -> 0 <= zlen tag <= 64.
Proof.
  intros Hlk Ht. split; [apply zlen_nonneg|]. unfold tagged in Ht. destruct (mac_live (p_mac (dir_params o))) eqn:Hl;
    [|by destruct Ht as [-> _]]. destruct Ht as (k & m1 & Ek & _ & _ & Hr).
  destruct (live_keys _ _ Hlk Hl) as (k' & Ek' & _ & _ & alg & key & Hrd). assert (k' = k) as -> by congruence.
  destruct (Hr alg key Hrd) as (_ & Htag). rewrite (mac_tag_len _ _ _ _ _ (mr_alg _ _ _ Hrd) umac_len umac128_len Htag).
  destruct (macs_ok alg (mr_alg _ _ _ Hrd)) as (_ & Hm & _). lia.
Qed.

(** The parts of a session that survive the reading of any packet. *)
Definition rest_core (s : ssh) := (output s, kx s, server_side s, packet_discard s, mux s).

(** The stream of the receiver's compression. *)
Lemma uncompress_link o o1 i pl body :
  linked o i -> compressed o o1 pl body -> bytes_ok pl -> 0 < zlen pl <= SSHBUF_SIZE_MAX ->
  exists zz, (if compressing (d_keys o)
    then exists zi zi', d_z i = Some zi /\ uncompress_loop zi body = (Ok pl, zi', false) /\ zz = Some zi'
    else body = pl /\ zz = d_z i) /\
    (compressing (d_keys o) = true -> exists zd zi, d_z o1 = Some zd /\ zz = Some zi /\ z_pair zd zi).
Proof.
  intros Hlk Hco Hb Hl. unfold compressed in Hco. destruct (compressing (d_keys o)) eqn:Ec.
  - destruct Hco as (zd & zd' & f & E1 & E2 & E3). destruct (lk_z _ _ Hlk Ec) as (zd0 & zi & E4 & E5 & Hp).
    assert (zd0 = zd) as -> by congruence. destruct (z_through zd zi pl body zd' f Hp Hb Hl E3) as (_ & zi' & E6 & Hp').
    exists (Some zi'). split; [by exists zi, zi'|]. intros _. by exists zd', zi'.
  - destruct Hco as [-> _]. by exists (d_z i).
Qed.

Lemma attempt_ok {A} m (f : result unit -> SE ssh A) s s' : m s = (Ok tt, s') -> (attempt m ≫= f) s = f (Ok tt) s'.
Proof. intros E. unfold mbind, se_bind, attempt. by rewrite E. Qed.

Lemma read_packet_ok o o1 pl body pkt c tag B rest fut later :
  encoded o o1 pl body pkt c tag -> zlen pkt <= PACKET_MAX_SIZE + 4 -> stage o o1 pkt c tag B rest -> packlen B <> 0 ->
  bytes_ok (input B) -> input B ++ fut = rest ++ later -> 1 <= znth pl 0 < 192 ->
  let p := dir_params (in_dir B) in
  if zlen (input B) <? zlen rest then read_packet p B = (Ok (SSH_MSG_NONE, Ok tt), B)
  else exists B' i1, read_packet p B = (Ok (znth pl 0, Ok tt), B') /\ incoming_packet B' = zdrop 1 pl /\ packlen B' = 0 /\
    input B' = zdrop (zlen rest) (input B) /\ rest_core B' = rest_core B /\ linked o1 i1 /\
    in_dir B' = (if (znth pl 0 =? SSH2_MSG_USERAUTH_SUCCESS) && negb (server_side B) then delay_in i1 else i1) /\
    after_authentication B' =
      (if (znth pl 0 =? SSH2_MSG_USERAUTH_SUCCESS) && negb (server_side B) then true else after_authentication B).
Proof.
  intros En Hsz Hstage Hpk Hib Hpre Hty p.
  destruct (stage_open o o1 pl body pkt c tag B rest fut later En Hsz Hstage Hpk) as
    (i & pre & Hlk & Ek & Eps & Ez & Epl & Hneed & Hmod & Erest & Hprel & _). fold p in Hneed, Hmod, Hprel.
  pose proof En as [[Hplb Hpl] Hcomp Hfr _ [_ _ _ Htag] Hps Hcnt].
  assert (dir_params i = p) as Ep by (unfold p, dir_params; by rewrite Ek).
  pose proof (maclen_tag _ _ _ _ _ _ Hlk Htag) as Hml. rewrite Ep in Hml.
  destruct (linked_params _ _ Hlk) as (a & ? & _ & _ & (Hin & _) & _ & Epar). cbv zeta in Epar. rewrite Ep in Epar.
  destruct Epar as (_ & Hau & Hbs & Hbs' & Haa & Haad & _ & _ & Hcl & Hcl'). rewrite Haa in Haad.
  destruct (ciphers_shape _ Hin) as (Hb8 & Ha16 & _). pose proof (framed_len _ _ _ Hfr) as [_ Hlen]. pose proof (zlen_nonneg body).
  assert (zlen rest = aadlen p + need_of p (packlen B) + authlen p + maclen_of p) as Hrl by (rewrite Erest, zlen_app; lia).
  pose proof (tag_short _ _ _ _ _ _ Hlk Htag) as Hm64. rewrite <- Hml in Hm64.
  unfold read_packet. run. fold (need_of p (packlen B)). fold (maclen_of p). rewrite Hmod. change (0 =? 0) with true. cbn [negb].
  rewrite u32_small by (unfold PACKET_MAX_SIZE in *; lia). rewrite <- Hrl.
  destruct (Z.ltb_spec (zlen (input B)) (zlen rest)) as [Hs|Hs]; [done|].
  destruct (open_incoming_ok o o1 pl body pkt c tag B rest fut later En Hsz Hstage Hpk Hib Hs Hpre) as
    (B1 & E1 & Hcore & Epk1 & Einc1 & Ein1 & Hctx & Eps1 & Ez1 & Ecomp1). fold p in E1.
  rewrite (se_bind_ok _ _ _ _ _ E1). cbn [negb]. run. set (cnt := count_packet _ _ _).
  assert (seqnr cnt = seqnr (d_ps o1) /\ packets cnt = packets (d_ps o1)) as [Hsq Hpks].
  { rewrite Hps. unfold cnt. cbn [seqnr packets count_packet]. rewrite Eps1, Eps, (lk_seqnr _ _ Hlk), (lk_packets _ _ Hlk). done. }
  rewrite Hpks, Hcnt. run. set (B2 := set_in_dir (dir_ps cnt (in_dir B1)) B1).
  destruct (uncompress_link o o1 i pl body Hlk Hcomp Hplb Hpl) as (zz & Hzz & Hlz).
  destruct (read_payload_ok p (dir_params o) B2 pl body pkt zz Hfr Einc1 Hplb ltac:(lia) Hty) as
    (B3 & E3 & Einc3 & Ein3 & Ei3 & Epk3 & Hc3).
  { rewrite Hcl'. change (d_z (in_dir B2)) with (d_z (in_dir B1)). rewrite Ez1, Ez. exact Hzz. }
  rewrite (se_bind_ok _ _ _ _ _ E3). set (i1 := in_dir B3).
  assert (linked o1 i1) as Hlk1.
  { unfold i1. rewrite Ein3. destruct Hctx as (a1 & b1 & X1 & X2 & X3 & X4). constructor; [by exists a1, b1|done|done|].
    rewrite (tagged_compressing _ _ _ _ _ Htag). exact Hlz. }
  assert (rest_core B3 = rest_core B) as Hrc by (injection Hcore; injection Hc3; unfold rest_core; intros; congruence).
  assert (server_side B1 = server_side B) as Esrv by (by injection Hcore). rewrite Esrv.
  assert (after_authentication B3 = after_authentication B) as Eaa by (injection Hcore; injection Hc3; intros; congruence).
  destruct ((znth pl 0 =? SSH2_MSG_USERAUTH_SUCCESS) && negb (server_side B)).
  - destruct (enable_delayed_ok B3) as (B4 & E4 & _ & Ein4 & Ei4 & Eo4 & Einc4 & _ & Ekx & Esv & Epd & Emx & _ & _ & Eaa4 & _).
    rewrite (attempt_ok _ _ _ _ E4). run. eexists _, i1. split; [reflexivity|].
    cbn [incoming_packet packlen input in_dir set_packlen]. rewrite Einc4, Ei4, Ein4, Einc3, Ei3. do 2 (split; [done|]). split; [exact Ein1|].
    split; [|done]. rewrite <- Hrc. unfold rest_core. cbn [output kx server_side packet_discard mux set_packlen]. congruence.
  - rewrite (attempt_ok _ _ B3 B3 eq_refl). run. eexists _, i1. split; [reflexivity|]. cbn [incoming_packet packlen input in_dir set_packlen]. rewrite Einc3, Ei3.
    do 2 (split; [done|]). split; [exact Ein1|]. split; [|done]. exact Hrc.
Qed.
End net.

(** * Concrete parameters *)

(** A cipher that flips bits and has a constant tag; memory and random numbers of
    zeros; a compression that copies, into the room there is. *)
Definition flip (m : list Z) : list Z := map (Z.lxor 90) m.

#[local] Instance toy_evp : EvpCipher := {|
  evp := unit;
  evp_init := fun _ _ _ => Some tt;
  evp_set_iv_fixed := fun _ _ => Some tt;
  evp_key_length := fun _ => 0;
  evp_set_key_length := fun _ _ => Some tt;
  evp_set_key := fun _ _ => Some tt;
  evp_iv_gen := fun _ => Some tt;
  evp_set_tag := fun _ _ => Some tt;
  evp_aad := fun _ _ => Some tt;
  evp_cipher := fun m _ => Some (flip m, tt);
  evp_final := fun _ => Some tt;
  evp_get_tag := fun n _ => Some (zrepeat n)
|}.
#[local] Instance toy_uninit : Uninit := {| uninit := zrepeat |}.
#[local] Instance toy_random : Random := fun _ n => zrepeat n.
#[local] Instance toy_fellows : Fellows := false.
(** The stream of the compressor is the output that had no room yet. *)
#[local] Instance toy_zlib : Zlib := {|
  zdeflate := list Z;
  zinflate := unit;
  deflateInit := fun _ => (Z_OK, Some []);
  inflateInit := (Z_OK, Some tt);
  deflate := fun z m n => mk_zcall Z_OK (ztake n (z ++ m)) [] (zdrop n (z ++ m));
  inflate := fun _ c n => match c with [] => mk_zcall Z_BUF_ERROR [] [] tt | _ => mk_zcall Z_OK (ztake n c) (zdrop n c) tt end
|}.

Lemma flip_flip m : flip (flip m) = m.
Proof. unfold flip. rewrite map_map. rewrite <- (map_id m) at 2. apply map_ext. intros x. by rewrite <- Z.lxor_assoc, Z.lxor_nilpotent. Qed.
Lemma flip_len m : zlen (flip m) = zlen m.
Proof. unfold zlen, flip. by rewrite length_map. Qed.

Lemma flip_bytes m : bytes_ok m -> bytes_ok (flip m).
Proof. intros Hb. apply Forall_map. eapply Forall_impl; [exact Hb|]. intros x Hx. by apply lxor_byte. Qed.

#[local] Instance toy_evp_laws : EvpCipherLaws toy_evp.
Proof.
  refine {| evp_pair := fun c _ _ => 0 <= c_auth_len c |}.
  - intros c key iv Hc _ _ _ _. destruct (ciphers_shape c Hc) as (_ & Hau & _). exists tt, tt. unfold evp_setup. cbn.
    destruct (cipher_authlen c =? 0); split_and!; (done || lia).
  - intros c [] [] m Hp _ _ Hb. exists (flip m), tt, tt. cbn. rewrite flip_flip, flip_len. split_and!; try done. by apply flip_bytes.
  - intros c [] [] m1 m2 x1 x2 [] [] _ _ _ _ [= <-] [= <-]. cbn. unfold flip. by rewrite map_app.
  - intros c [] [] a m Hp _ _ Hb. exists tt, tt, (flip m), tt, tt, (zrepeat (c_auth_len c)), tt, tt, tt, tt, tt. cbn.
    rewrite flip_flip, flip_len, zlen_zrepeat by done. split_and!; try done; [by apply flip_bytes|apply zrepeat_bytes].
Qed.
#[local] Instance toy_uninit_laws : UninitLaws toy_uninit.
Proof. split; [apply zlen_zrepeat|apply zrepeat_bytes]. Qed.
#[local] Instance toy_random_laws : RandomLaws toy_random.
Proof. split; [intros; by apply zlen_zrepeat|intros; apply zrepeat_bytes]. Qed.
#[local] Instance toy_umac_laws : UmacLaws toy_umac.
Proof. split; intros; try done; apply Forall_replicate; apply toy_sum_byte. Qed.

#[local] Instance toy_zlib_laws : ZlibLaws toy_zlib.
Proof.
  refine {| z_link := fun (zd : @zdeflate toy_zlib) _ c m => bytes_ok zd /\ m = c ++ zd; z_flushed := fun zd : @zdeflate toy_zlib => zd = [] |}.
  - exists [], tt. split_and!; try done. by apply Forall_nil.
  - intros zd [] c m inp n [Hb ->] Hi Hn r _. exists inp. unfold r. cbn [deflate toy_zlib z_out z_rest z_stream].
    assert (bytes_ok (zd ++ inp)) as Hbz by (by apply Forall_app_2). rewrite app_nil_r. split; [done|].
    assert (zlen (ztake n (zd ++ inp)) <= n /\ (zlen (ztake n (zd ++ inp)) < n -> zdrop n (zd ++ inp) = [])) as [Hl Hd].
    { destruct (Z.le_gt_cases (zlen (zd ++ inp)) n); [rewrite zdrop_ge, ztake_ge by lia; done|rewrite zlen_ztake by lia; lia]. }
    split; [done|]. split; [by apply Forall_ztake|]. split; [|intros Hlt; by rewrite Hd].
    split; [by apply Forall_zdrop|]. by rewrite <- !app_assoc, ztake_zdrop.
  - intros zd [] c m n [Hb ->] Hn r. unfold r. cbn [inflate toy_zlib]. destruct c as [|x c]; cbn [z_status z_out z_rest z_stream].
    + split_and!; try done.
    + exists (ztake n (x :: c)), (zdrop n (x :: c) ++ zd). rewrite app_assoc, !ztake_zdrop. split_and!; try done.
      * destruct (Z.le_gt_cases (zlen (x :: c)) n); [by rewrite ztake_ge|rewrite zlen_ztake by lia; lia].
      * left. intros E. apply (f_equal zlen) in E. change (zlen []) with 0 in E. pose proof (zlen_nonneg c).
        destruct (Z.le_gt_cases (zlen (x :: c)) n); [rewrite ztake_ge in E by lia; discriminate (zlen_0_nil _ E)|rewrite zlen_ztake in E by lia; lia].
Qed.

Definition plain_ctx (enc : bool) : sshcipher_ctx := mk_ctx true enc None None (default (mk_cipher [] 8 0 0 0 CFLAG_NONE) cipher_none).
Definition plain_session : ssh := session_new (demo_end false demo_c demo_s) 0 [] (plain_ctx true) (plain_ctx false).

Lemma packet_padding_witness :
  match pad_outgoing (mk_params 0 None None None 8 0) (set_outgoing_packet [0; 0; 0; 0; 0; 2; 7] plain_session) with
  | (Ok pkt, _) => exists pad, pkt = frame [2; 7] pad /\ 4 <= zlen pad <= 255
  | (Err _, _) => False
  end.
Proof.
  pose proof (packet_padding (mk_params 0 None None None 8 0) (set_outgoing_packet [0; 0; 0; 0; 0; 2; 7] plain_session) [0; 0; 0; 0; 0] [2; 7]
    eq_refl eq_refl ltac:(vm_compute; congruence) ltac:(by left) ltac:(by right) ltac:(split; vm_compute; congruence)) as Hpad.
  destruct (pad_outgoing _ _) as [[pkt|e] s']; [destruct Hpad as (pad & E & Hl & _); by exists pad|].
  destruct Hpad as [[_ Hpad]|[_ Hpad]]; vm_compute in Hpad; discriminate Hpad.
Defined.

(** The keys of every key exchange, negotiated and derived. *)
Definition zip_props : list cstring :=
  map str ["curve25519-sha256"; "ssh-ed25519"; "aes128-ctr"; "aes128-ctr"; "umac-64@openssh.com"; "hmac-sha2-256"; "zlib"; "zlib";
    ""; ""]%string.
Definition demo_keys : newkeys :=
  match @Kex.dir_keys alloc_all toy_digest zip_props zip_props true with
  | Some nk => install_keys (zrepeat 64) (zrepeat 64) (zrepeat 64) nk
  | None => newkeys_zero
  end.
