(* ===== verification/PacketStream.v ===== *)
(** The packet protocol between two ends: new keys come into use at both ends of
    a direction at the same place of the stream, and whatever one side sends the
    other side reads, under any fragmentation. *)

From Stdlib Require Import String.
From S2P Require Import Prelude Match Sshbuf SshbufGetPut AlgNames Digest ChaCha Poly1305 ChachaPoly Cipher Kex Packet PacketKeep PacketNet.
Local Open Scope Z_scope.

Section stream.
Context `{Allocator} `{EvpCipher} `{Uninit} `{EvpDigest} `{Umac} `{Zlib} `{Random} `{Fellows}.
Context `{!ReliableAllocator _} `{!EvpCipherLaws _} `{!UninitLaws _} `{!EvpDigestLaws _} `{!UmacLaws _} `{!ZlibLaws _}
  `{!RandomLaws _}.

(** ** New keys *)

(** Keys as [kex_choose_conf] and [kex_derive_keys] leave them for a direction
    ([Kex.kex_agreement]). *)
Definition negotiated (nk : newkeys) : Prop :=
  exists cprop sprop ctos nk0 iv key mkey,
    Kex.dir_keys cprop sprop ctos = Some nk0 /\ nk = install_keys iv key mkey nk0 /\ keys_fit nk.

Lemma mac_key_fits a : a ∈ macs -> alg_key_len a <= evp_block_size (ma_alg a).
Proof.
  intros Ha. destruct (macs_ok a Ha) as (Hr & _). destruct (evp_block (ma_alg a) Hr) as [Hb _].
  assert (Forall (fun a => alg_key_len a <= ssh_digest_bytes (ma_alg a)) macs) as Hf by compute_dec.
  rewrite Forall_forall in Hf. specialize (Hf a Ha). lia.
Qed.

Lemma negotiated_keys nk : negotiated nk ->
  exists c key iv, enc_cipher (nk_enc nk) = Some c /\ c ∈ ciphers /\ enc_key (nk_enc nk) = Some key /\ enc_iv (nk_enc nk) = Some iv /\
    enc_key_len (nk_enc nk) = c_key_len c /\ enc_iv_len (nk_enc nk) = cipher_ivlen c /\ enc_block_size (nk_enc nk) = c_block_size c /\
    c_key_len c <= zlen key /\ cipher_ivlen c <= zlen iv /\ comp_enabled (nk_comp nk) = false /\
    (c_auth_len c = 0 -> exists alg mkey m, mac_init (nk_mac nk) = (Ok tt, m) /\ mac_ready alg mkey m).
Proof.
  intros (cp & sp & ctos & nk0 & iv & key & mkey & E & -> & key' & iv' & mkey' & Hk & Hi & Hm & Hlk & Hli & _).
  cbn [nk_enc nk_mac nk_comp install_keys enc_key enc_iv enc_key_len enc_iv_len enc_cipher enc_block_size mac_key] in *.
  injection Hk as <-. injection Hi as <-. unfold Kex.dir_keys in E.
  set (ce := prop_at cp (if ctos then PROPOSAL_ENC_ALGS_CTOS else _)) in E. set (se := prop_at sp (if ctos then PROPOSAL_ENC_ALGS_CTOS else _)) in E.
  destruct (choose_enc ce se) as [e|] eqn:Ee; [|done]. unfold choose_enc in Ee. destruct (match_list ce se) as [n|]; [|done].
  destruct (cipher_by_name n) as [c|] eqn:Ec; [|done]. injection Ee as <-.
  assert (c ∈ ciphers) as Hc by (apply find_some in Ec as [Ec _]; by apply list_elem_of_In).
  cbn [enc_authlen enc_cipher] in E. unfold cipher_authlen in E.
  destruct (if c_auth_len c =? 0 then _ else _) as [[[]|] m] eqn:Em; [|done].
  destruct (choose_comp _ _) as [cc|] eqn:Ecc; [|done]. injection E as <-.
  cbn [nk_enc nk_mac nk_comp enc_key enc_iv enc_key_len enc_iv_len enc_cipher enc_block_size] in *.
  exists c, key, iv. do 9 (split; [done|]). split.
  - unfold choose_comp in Ecc. destruct (match_list _ _); [|done]. repeat case_bool_decide; by inversion Ecc.
  - intros E0. rewrite E0 in Em. change (0 =? 0) with true in Em. cbn [fst snd] in Em. unfold choose_mac in Em.
    destruct (match_list _ _) as [mn|]; [|done]. destruct (mac_setup mn mac_zero) as [[[]|] m1] eqn:Es; [|done]. injection Em as <-.
    destruct (mac_by_name mn) as [alg|] eqn:Ea; [|by unfold mac_setup in Es; rewrite Ea in Es].
    destruct (mac_ready_setup mn alg mkey mac_zero m1 Ea Es (mac_key_fits alg (mac_by_name_elem _ _ Ea))) as (m2 & E2 & Hr).
    exists alg, mkey, m2. split; [|done]. rewrite <- E2. cbn [mac_name mac_len mac_key_len mac_type mac_etm hmac_ctx umac_ctx mac_enabled].
    do 2 f_equal. unfold mac_setup in Es. rewrite Ea in Es. unfold mac_setup_by_alg in Es.
    destruct (ma_type alg =? SSH_DIGEST); [destruct (ssh_hmac_start _); [|done]|]; by injection Es as <-.
Qed.

(** A direction after [ssh_set_newkeys]: [z] is the compression stream to start
    and [m] the number of blocks before rekeying. *)
Definition rekeyed {S} (mode : kex_mode) (z : option S) (m : Z) (nk : newkeys) (aa : bool) (d : dir S) : dir S :=
  let k := snd (newkeys_mac_init nk) in
  let k := keys_mac (mac_on (nk_mac k)) k in
  let due := comp_due aa (nk_comp nk) in
  mk_dir (match newkeys_cipher_init mode (nk_enc nk) with Ok cc => Some cc | Err _ => None end)
    (Some (if due then keys_comp (comp_on (nk_comp nk)) k else k)) (reset_counters (d_ps d)) m
    (if due then z else d_z d) (d_z_failures d).

Definition rekey_out (limit : Z) (nk : newkeys) : bool -> dir zdeflate -> dir zdeflate :=
  rekeyed MODE_OUT (snd (deflateInit 6)) (rekey_blocks limit (enc_block_size (nk_enc nk))) nk.
Definition rekey_in (limit : Z) (nk : newkeys) : bool -> dir zinflate -> dir zinflate :=
  rekeyed MODE_IN (snd inflateInit) (rekey_blocks limit (enc_block_size (nk_enc nk))) nk.

(** The contexts that both ends set up. *)
Lemma negotiated_init nk : negotiated nk ->
  exists a b m, newkeys_cipher_init MODE_OUT (nk_enc nk) = Ok a /\ newkeys_cipher_init MODE_IN (nk_enc nk) = Ok b /\ in_step a b /\
    enc_cipher (nk_enc nk) = Some (cc_cipher a) /\ enc_block_size (nk_enc nk) = c_block_size (cc_cipher a) /\
    newkeys_mac_init nk = (Ok tt, keys_mac m nk) /\
    (c_auth_len (cc_cipher a) = 0 -> exists alg mkey, mac_ready alg mkey m).
Proof.
  intros Hn. destruct (negotiated_keys nk Hn) as (c & key & iv & Ec & Hc & Ek & Ei & Elk & Eli & Ebs & Hk & Hi & _ & Hm).
  destruct (cipher_init_in_step c key iv Hc Hk Hi) as (a & b & Ea & Eb & Hst & Eca).
  unfold newkeys_cipher_init, newkeys_mac_init, enc_authlen, cipher_authlen. rewrite Ec, Ek, Ei, Elk, Eli, Ea, Eb.
  destruct (Z.eqb_spec (c_auth_len c) 0) as [E0|E0].
  - destruct (Hm E0) as (alg & mkey & m & Em & Hr). rewrite Em. exists a, b, m. rewrite Eca. eauto 10.
  - exists a, b, (nk_mac nk). rewrite Eca. do 5 (split; [done|]). split; [by destruct nk|lia].
Qed.

Lemma set_newkeys_out nk s : negotiated nk -> newkeys_out (kx s) = Some nk ->
  exists b, ssh_set_newkeys MODE_OUT s =
  (Ok tt, set_compression_buffer b (set_out_dir (rekey_out (rekey_limit s) nk (after_authentication s) (out_dir s)) (set_kx (set_newkeys MODE_OUT None (kx s)) s))).
Proof.
  intros Hn Ek. destruct (negotiated_init nk Hn) as (a & b & m & Ea & _ & _ & _ & _ & Em & _).
  destruct z_open as (zd & zi & Ed & _ & _).
  unfold ssh_set_newkeys, rekey_out, rekeyed. rewrite Ea, Em, Ed. run. cbn [kx reset_mode_counters set_mode_keys set_out_dir newkeys_of].
  rewrite Ek. run. rewrite Em. cbv beta iota zeta. run. cbn [nk_enc keys_mac]. rewrite Ea. run. cbn [snd nk_comp nk_enc keys_mac after_authentication rekey_limit set_out_dir].
  destruct (comp_due (after_authentication s) (nk_comp nk)); [|exists (compression_buffer s); by destruct s as [[] ?]].
  unfold mbind, se_bind. rewrite init_compression_ok. unfold start_compression, start_compression_out.
  change ((6 <? 1) || (6 >? 9)) with false. cbv iota. rewrite Ed. exists true. by destruct s as [[] ?].
Qed.

Lemma set_newkeys_in nk s : negotiated nk -> newkeys_in (kx s) = Some nk ->
  exists b, ssh_set_newkeys MODE_IN s =
  (Ok tt, set_compression_buffer b (set_in_dir (rekey_in (rekey_limit s) nk (after_authentication s) (in_dir s)) (set_kx (set_newkeys MODE_IN None (kx s)) s))).
Proof.
  intros Hn Ek. destruct (negotiated_init nk Hn) as (a & b & m & _ & Eb & _ & _ & _ & Em & _).
  destruct z_open as (zd & zi & _ & Ei & _).
  unfold ssh_set_newkeys, rekey_in, rekeyed. rewrite Eb, Em, Ei. run. cbn [kx reset_mode_counters set_mode_keys set_in_dir newkeys_of].
  rewrite Ek. run. rewrite Em. cbv beta iota zeta. run. cbn [nk_enc keys_mac]. rewrite Eb. run. cbn [snd nk_comp nk_enc keys_mac after_authentication rekey_limit set_in_dir].
  destruct (comp_due (after_authentication s) (nk_comp nk)); [|exists (compression_buffer s); by destruct s as [? [] ?]].
  unfold mbind, se_bind. rewrite init_compression_ok. unfold start_compression, start_compression_in. rewrite Ei.
  exists true. by destruct s as [? [] ?].
Qed.

(** The same keys at both ends link the directions again. *)
Lemma linked_rekey nk l l' aa o i :
  negotiated nk -> seqnr (d_ps o) = seqnr (d_ps i) -> linked (rekey_out l nk aa o) (rekey_in l' nk aa i).
Proof.
  intros Hn Hs. destruct (negotiated_init nk Hn) as (a & b & m & Ea & Eb & Hst & Ec & Ebs & Em & Hr).
  destruct (negotiated_keys nk Hn) as (? & ? & ? & _ & _ & _ & _ & _ & _ & _ & _ & _ & Hoff & _).
  destruct z_open as (zd & zi & Ed & Ei & Hzp). unfold rekey_out, rekey_in, rekeyed. rewrite Ea, Eb, Em, Ed, Ei.
  cbn [snd nk_comp keys_mac].
  constructor; cbn [d_ctx d_keys d_ps d_z reset_counters seqnr packets].
  - exists a, b. do 3 (split; [done|]). unfold keys_linked.
    destruct (comp_due aa (nk_comp nk)); cbn [nk_enc nk_mac nk_comp keys_mac keys_comp];
      (do 5 (split; [done|]); intros E0; destruct (Hr E0) as (alg & mkey & Hrd); exists alg, mkey;
       assert (mac_ready alg mkey (mac_on m)) by (by destruct Hrd); done).
  - done.
  - done.
  - destruct (comp_due aa (nk_comp nk)); cbn [compressing nk_comp keys_mac]; [|by rewrite Hoff]. intros _. by exists zd, zi.
Qed.

(** ** What starting a key exchange leaves alone *)

Definition in_view (s : ssh) :=
  (in_dir s, input s, incoming_packet s, packlen s, server_side s, after_authentication s, packet_discard s, mux s).

Lemma wrapped_kexinit_keeps s :
  znth (outgoing_packet s) 5 = SSH2_MSG_KEXINIT -> in_view (snd (ssh_packet_send2_wrapped s)) = in_view s.
Proof.
  intros Ety. unfold ssh_packet_send2_wrapped. rewrite run_get, Ety. change (SSH2_MSG_KEXINIT =? SSH2_MSG_NEWKEYS) with false.
  change (SSH2_MSG_KEXINIT =? SSH2_MSG_USERAUTH_SUCCESS) with false. cbn [andb]. by_keeps.
Qed.

(** KEXINIT is sent at once, and changes only the sending direction. *)
Lemma send_kexinit_keeps rekex s :
  znth (outgoing_packet s) 5 = SSH2_MSG_KEXINIT -> in_view (snd (send_body rekex s)) = in_view s.
Proof.
  intros Ety. unfold send_body. rewrite run_get. destruct (mux s); [unfold ssh_packet_send_mux; by_keeps|].
  unfold send2_body. rewrite run_get. destruct (_ <? 6); [done|]. rewrite Ety.
  change (ssh_packet_type_is_kex SSH2_MSG_KEXINIT) with true. cbn [negb]. rewrite andb_false_r.
  change (SSH2_MSG_KEXINIT =? SSH2_MSG_KEXINIT) with true. cbv iota. rewrite run_modify.
  change (SSH2_MSG_KEXINIT =? SSH2_MSG_NEWKEYS) with false.
  pose proof (wrapped_kexinit_keeps (set_rekeying true s) Ety) as Hk.
  unfold mbind, se_bind. by destruct (ssh_packet_send2_wrapped (set_rekeying true s)) as [[[]|] s1].
Qed.

Lemma start_rekex_keeps : keeps in_view kex_start_rekex.
Proof.
  unfold kex_start_rekex. apply keeps_get. intros s. destruct (negb _); [keep|]. apply keeps_bind; [keep|intros _].
  unfold kex_send_kexinit. apply keeps_get. intros s1. destruct (negb _); [keep|]. apply keeps_bind; [keep|intros _].
  destruct (_ <? _); [keep|]. destruct (sshbuf_mutable_ptr _) as [p|]; [|keep]. apply keeps_bind; [keep|intros cookie]. cbv zeta.
  apply keeps_bind; [keep|intros _]. set (b := snd (buf_write _ _ _)). clearbody b. intros s2.
  apply keeps_bind_at; [done|]. intros _ s3 [_ <-]%run_inj. apply keeps_bind_at.
  { unfold sshpkt_put. by_keeps. }
  intros u s4 E4. apply keeps_bind_at; [|done]. apply send_kexinit_keeps. unfold sshpkt_put in E4. rewrite run_get in E4.
  destruct (bput _ _) as [o|] eqn:Eb in E4; [|done]. apply run_inj in E4 as [_ <-]. by apply bput_ok in Eb as [-> _].
Qed.

(** ** Reading one packet *)

(** The end of [ssh_packet_read_poll2] when a packet has been read. *)
Definition read_done (type : Z) : SE ssh Z :=
  s ← se_get; _ ← (if ssh_packet_need_rekeying 0 s then kex_start_rekex else mret tt); mret type.

Lemma read_done_keeps type : keeps in_view (read_done type).
Proof. unfold read_done. apply keeps_get. intros s. apply keeps_bind; [destruct (ssh_packet_need_rekeying 0 s)|intros _]; [apply start_rekex_keeps|keep..]. Qed.

(** The receiver has read the payload [pl]; [fut] is what it has not yet received. *)
Definition delivered (o1 : dir zdeflate) (pl fut later : list Z) (B B1 : ssh) : Prop :=
  incoming_packet B1 = zdrop 1 pl /\ packlen B1 = 0 /\ input B1 ++ fut = later /\ bytes_ok (input B1) /\
  zlen (input B1) <= zlen (input B) /\ rest_core B1 = rest_core B /\
  let success := (znth pl 0 =? SSH2_MSG_USERAUTH_SUCCESS) && negb (server_side B) in
  after_authentication B1 = (if success then true else after_authentication B) /\
  exists i1, linked o1 i1 /\ in_dir B1 = (if success then delay_in i1 else i1).

(** The receiver waits for more of the packet. *)
Definition waiting (o o1 : dir zdeflate) (pkt c tag fut later : list Z) (B B' : ssh) : Prop :=
  exists rest, stage o o1 pkt c tag B' rest /\ input B' ++ fut = rest ++ later /\ zlen (input B') < zlen rest /\
    bytes_ok (input B') /\ zlen (input B') <= zlen (input B) /\ rcore B' = rcore B.

Lemma stage_known o o1 pl body pkt c tag B rest :
  encoded o o1 pl body pkt c tag -> stage o o1 pkt c tag B rest ->
  packlen B = 0 /\ linked o (in_dir B) /\ rest = c ++ tag \/ packlen B <> 0.
Proof.
  intros [_ _ Hfr _ _ _ _] Hs. destruct (framed_len _ _ _ Hfr) as [_ Hl]. pose proof (zlen_nonneg body).
  destruct Hs as [Hp Hlk|? Ep _ _|? ? ? ? ? Ep]; [by left|right; lia..].
Qed.

Lemma read_packlen_stage o o1 pl body pkt c tag B rest fut later :
  encoded o o1 pl body pkt c tag -> zlen pkt <= PACKET_MAX_SIZE + 4 -> stage o o1 pkt c tag B rest ->
  bytes_ok (input B) -> zlen (input B) <= SSHBUF_SIZE_MAX -> input B ++ fut = rest ++ later ->
  exists known B' rest', read_packlen (dir_params (in_dir B)) B = (Ok known, B') /\ rcore B' = rcore B /\
    stage o o1 pkt c tag B' rest' /\ input B' ++ fut = rest' ++ later /\ zlen (input B') <= zlen (input B) /\
    bytes_ok (input B') /\ dir_params (in_dir B') = dir_params (in_dir B) /\
    (if known then packlen B' <> 0 else zlen (input B') < zlen rest').
Proof.
  intros En Hsz Hs Hib Hil Hpre. destruct (stage_known _ _ _ _ _ _ _ _ _ En Hs) as [(Hp & Hlk & ->)|Hp].
  - destruct (read_packlen_ok o o1 pl body pkt c tag B fut later En Hsz Hp Hlk Hib Hil Hpre) as
      (known & B' & E & Hc & Hky & rest & Hst & Hpre' & Hle & Hb & Hk). exists known, B', rest.
    split; [done|]. split; [done|]. split; [done|]. split; [done|]. split; [done|]. split; [done|].
    split; [|destruct known; tauto]. unfold dir_params. by rewrite Hky.
  - exists true, B, rest. unfold read_packlen. run. rewrite (proj2 (Z.eqb_neq _ _) Hp). done.
Qed.

Lemma poll_ok o o1 pl body pkt c tag B rest fut later :
  encoded o o1 pl body pkt c tag -> zlen pkt <= PACKET_MAX_SIZE + 4 -> 1 <= znth pl 0 < 192 ->
  stage o o1 pkt c tag B rest -> mux B = false -> packet_discard B = 0 ->
  bytes_ok (input B) -> zlen (input B) <= SSHBUF_SIZE_MAX -> input B ++ fut = rest ++ later ->
  (exists B', ssh_packet_read_poll2 B = (Ok SSH_MSG_NONE, B') /\ waiting o o1 pkt c tag fut later B B') \/
  (exists B1, ssh_packet_read_poll2 B = read_done (znth pl 0) B1 /\ delivered o1 pl fut later B B1).
Proof.
  intros En Hsz Hty Hs Hmux Hdis Hib Hil Hpre.
  destruct (read_packlen_stage _ _ _ _ _ _ _ _ _ _ _ En Hsz Hs Hib Hil Hpre) as
    (known & B1 & rest1 & E1 & Hc1 & Hs1 & Hpre1 & Hle1 & Hb1 & Epar & Hk).
  unfold ssh_packet_read_poll2. run. rewrite Hmux, Hdis. change (0 =? 0) with true. cbn [negb].
  rewrite (se_bind_ok _ _ _ _ _ E1). destruct known; cbn [negb].
  2: { left. exists B1. split; [done|]. by exists rest1. }
  pose proof (read_packet_ok _ _ _ _ _ _ _ _ _ _ _ En Hsz Hs1 Hk Hb1 Hpre1 Hty) as Hr. cbv zeta in Hr. rewrite Epar in Hr.
  destruct (Z.ltb_spec (zlen (input B1)) (zlen rest1)) as [Hsh|Hsh].
  - left. exists B1. rewrite (se_bind_ok _ _ _ _ _ Hr). split; [done|]. by exists rest1.
  - right. destruct Hr as (B2 & i1 & E2 & Einc & Epk & Ein & Hrc & Hlk & Edir & Eaa). exists B2. rewrite (se_bind_ok _ _ _ _ _ E2).
    rewrite (proj2 (Z.eqb_neq (znth pl 0) SSH_MSG_NONE)) by (unfold SSH_MSG_NONE; lia). split; [done|].
    assert (server_side B1 = server_side B /\ after_authentication B1 = after_authentication B) as [Es Ea] by (by injection Hc1).
    rewrite Es, ?Ea in *. split; [done|]. split; [done|]. split.
    { apply (app_inv_head rest1). rewrite <- Hpre1, Ein, app_assoc. f_equal.
      rewrite <- (ztake_zdrop (zlen rest1) (input B1)) at 2. f_equal. rewrite (prefix_take (zlen rest1) _ _ _ _ Hpre1) by lia. by rewrite ztake_ge. }
    split; [rewrite Ein; by apply Forall_zdrop|]. split; [rewrite Ein, zlen_zdrop; zlen_facts; lia|].
    split; [rewrite Hrc; injection Hc1; unfold rest_core; intros; congruence|]. cbv zeta. split; [done|]. by exists i1.
Qed.

(** What can be sent can be received: a receiver in step stays in step. *)
Lemma encoded_linkable o o1 pl body pkt c tag i (s : ssh) :
  encoded o o1 pl body pkt c tag -> zlen pkt <= PACKET_MAX_SIZE + 4 -> 1 <= znth pl 0 < 192 -> bytes_ok tag ->
  zlen (c ++ tag) <= SSHBUF_SIZE_MAX -> linked o i -> exists i1, linked o1 i1.
Proof.
  intros En Hsz Hty Htb Hl Hlk. pose proof (sl_bytes _ _ _ _ _ (en_seal _ _ _ _ _ _ _ En)) as Hcb.
  set (B := set_packet_discard 0 (set_mux false (set_packlen 0 (set_input (c ++ tag) (set_in_dir i s))))).
  assert (bytes_ok (input B)) as Hb by (by apply Forall_app_2).
  destruct (poll_ok o o1 pl body pkt c tag B (c ++ tag) [] [] En Hsz Hty) as [(B' & _ & rest & Hs & Hpre & Hlt & _)|(B1 & _ & Hd)];
    [by apply stage_new|done..| |].
  - rewrite !app_nil_r in Hpre. rewrite Hpre in Hlt. lia.
  - destruct Hd as (_ & _ & _ & _ & _ & _ & _ & i1 & Hlk1 & _). by exists i1.
Qed.

(** * A direction of a connection *)

(** The keys that the n-th key exchange gives to both ends of the direction. *)
Context (epoch : nat -> newkeys) (epoch_ok : forall n, negotiated (epoch n)).

(** The sending and the receiving end, how much the receiver has taken from the
    connection, the payloads sent and read so far, how many keys each end has put
    into use, and whether the receiver has read NEWKEYS without acting on it yet. *)
Record net := mk_net {
  nA : ssh; nB : ssh; received : Z; sent : list (list Z); got : list (list Z); usedA : nat; usedB : nat; pending : bool
}.

(** Both ends as [ssh_packet_set_connection] makes them, one of them the server. *)
Definition net_init (n : net) : Prop :=
  exists k k' t t' ws ws' a b (srv : bool),
    ssh_packet_set_connection k t ws = Some a /\ ssh_packet_set_connection k' t' ws' = Some b /\
    n = mk_net (if srv then ssh_packet_set_server a else a) (if srv then b else ssh_packet_set_server b) 0 [] [] 0 0 false.

(** A packet of the sender: the header is [hdr], [pad] was asked for with
    [sshpkt_add_padding], and it is not longer than the receiver admits. *)
Definition composed (hdr pl : list Z) (pad : Z) (A : ssh) : ssh := set_extra_pad (u8 pad) (set_outgoing_packet (hdr ++ pl) A).

Inductive net_step : net -> net -> Prop :=
| net_send A B r s g ua ub pe hdr pl pad A' :
    zlen hdr = 5 -> bytes_ok pl -> 0 < zlen pl -> 1 <= znth pl 0 < 192 -> zlen (hdr ++ pl) <= SSHBUF_SIZE_MAX ->
    (znth pl 0 = SSH2_MSG_NEWKEYS -> newkeys_out (kx A) = Some (epoch ua)) ->
    ssh_packet_send2_wrapped (composed hdr pl pad A) = (Ok tt, A') ->
    zlen (output A') - zlen (output A) <= PACKET_MAX_SIZE + 4 ->
    net_step (mk_net A B r s g ua ub pe)
      (mk_net A' B r (s ++ [pl]) g (if znth pl 0 =? SSH2_MSG_NEWKEYS then S ua else ua) ub pe)
| net_write A B r s g ua ub pe n A' :
    0 < n -> ssh_packet_write_poll (WTaken n) A = (Ok tt, A') ->
    net_step (mk_net A B r s g ua ub pe) (mk_net A' B r s g ua ub pe)
| net_receive A B r s g ua ub pe n B' :
    0 <= n <= zlen (wire A) - r -> ssh_packet_process_incoming (slice r n (wire A)) B = (Ok tt, B') ->
    net_step (mk_net A B r s g ua ub pe) (mk_net A B' (r + n) s g ua ub pe)
| net_read A B r s g ua ub type B' :
    ssh_packet_read_poll2 B = (Ok type, B') ->
    net_step (mk_net A B r s g ua ub false)
      (mk_net A B' r s (if type =? SSH_MSG_NONE then g else g ++ [type :: incoming_packet B']) ua ub (type =? SSH2_MSG_NEWKEYS))
| net_newkeys A B r s g ua ub B' :
    newkeys_in (kx B) = Some (epoch ub) -> ssh_set_newkeys MODE_IN B = (Ok tt, B') ->
    net_step (mk_net A B r s g ua ub true) (mk_net A B' r s g ua (S ub) false)
| net_kex A B r s g ua ub pe k k' :
    net_step (mk_net A B r s g ua ub pe) (mk_net (set_kx k A) (set_kx k' B) r s g ua ub pe)
| net_login A B r s ua ub A' B' :
    server_side B = true ->
    ssh_packet_enable_delayed_compress A = (Ok tt, A') -> ssh_packet_enable_delayed_compress B = (Ok tt, B') ->
    net_step (mk_net A B r s s ua ub false) (mk_net A' B' r s s ua ub false).

Inductive net_reach : net -> Prop :=
| reach_init n : net_init n -> net_reach n
| reach_step n n' : net_reach n -> net_step n n' -> net_reach n'.

(** ** Packets in flight *)

(** The sender's direction, whether the user is logged in, and the keys in use. *)
Definition pos : Type := dir zdeflate * bool * nat.

Definition advance (srv : bool) (limit type : Z) (p : pos) : pos :=
  let '(o, aa, e) := p in
  if type =? SSH2_MSG_NEWKEYS then (rekey_out limit (epoch e) aa o, aa, S e)
  else if (type =? SSH2_MSG_USERAUTH_SUCCESS) && srv then (delay_out o, true, e)
  else p.

(** The packets [fs], payload and wire form, lead from one position to another. *)
Inductive chain (srv : bool) : pos -> list (list Z * list Z) -> pos -> Prop :=
| chain_nil p : chain srv p [] p
| chain_cons o aa e o1 pl body pkt c tag limit fs q :
    encoded o o1 pl body pkt c tag -> zlen pkt <= PACKET_MAX_SIZE + 4 -> 1 <= znth pl 0 < 192 ->
    chain srv (advance srv limit (znth pl 0) (o1, aa, e)) fs q ->
    chain srv (o, aa, e) ((pl, c ++ tag) :: fs) q.

Lemma chain_snoc srv p fs o aa e o1 pl body pkt c tag limit :
  chain srv p fs (o, aa, e) ->
  encoded o o1 pl body pkt c tag -> zlen pkt <= PACKET_MAX_SIZE + 4 -> 1 <= znth pl 0 < 192 ->
  chain srv p (fs ++ [(pl, c ++ tag)]) (advance srv limit (znth pl 0) (o1, aa, e)).
Proof.
  intros Hc. remember (o, aa, e) as q eqn:Eq. induction Hc as [p|]; intros; cbn [app]; [subst p|];
    (econstructor; [done..|]); [constructor|eauto].
Qed.

(** The packets that the receiver has not read completely, the bytes of them
    that it has not consumed, and the position of the sender. *)
Inductive flying (srv : bool) (B : ssh) (ub : nat) (q : pos) : bool -> list (list Z * list Z) -> list Z -> Prop :=
| fly_idle fs o :
    linked o (in_dir B) -> packlen B = 0 -> chain srv (o, after_authentication B, ub) fs q ->
    flying srv B ub q false fs (concat (map snd fs))
| fly_within o o1 pl body pkt c tag limit rest fs :
    encoded o o1 pl body pkt c tag -> zlen pkt <= PACKET_MAX_SIZE + 4 -> 1 <= znth pl 0 < 192 ->
    stage o o1 pkt c tag B rest -> chain srv (advance srv limit (znth pl 0) (o1, after_authentication B, ub)) fs q ->
    flying srv B ub q false ((pl, c ++ tag) :: fs) (rest ++ concat (map snd fs))
| fly_rekey fs o limit :
    seqnr (d_ps o) = seqnr (d_ps (in_dir B)) -> packlen B = 0 ->
    chain srv (rekey_out limit (epoch ub) (after_authentication B) o, after_authentication B, S ub) fs q ->
    flying srv B ub q true fs (concat (map snd fs)).

Definition unread (n : net) : list Z := input (nB n) ++ zdrop (received n) (wire (nA n)) ++ output (nA n).

Record net_inv (n : net) : Prop := {
  ni_roles : server_side (nA n) = negb (server_side (nB n));
  ni_plain : mux (nB n) = false /\ packet_discard (nB n) = 0;
  ni_buf : bytes_ok (unread n) /\ zlen (input (nB n)) <= SSHBUF_SIZE_MAX;
  ni_wire : 0 <= received n <= zlen (wire (nA n));
  ni_send : exists i, linked (out_dir (nA n)) i;
  ni_flight : exists fs, sent n = got n ++ map fst fs /\
    flying (server_side (nA n)) (nB n) (usedB n) (out_dir (nA n), after_authentication (nA n), usedA n) (pending n) fs (unread n)
}.

(** ** The invariant holds at the start *)

Lemma none_in_step c (a b : sshcipher_ctx) :
  cipher_none = Some c -> cc_cipher a = c -> cc_cipher b = c -> cc_encrypt a = true -> cc_encrypt b = false ->
  in_step a b /\ c_flag CFLAG_NONE (cc_cipher a) = true.
Proof.
  intros Ec Ha Hb Ea Eb.
  assert (c ∈ ciphers /\ c_flag CFLAG_NONE c = true /\ c_flag CFLAG_CHACHAPOLY c = false) as (Hc & Hn & Hcp).
  { vm_compute in Ec. injection Ec as <-. split; [apply list_elem_of_In; vm_compute; tauto|done]. }
  unfold in_step. by rewrite Ha, Hb, Hcp, Hn.
Qed.

Lemma set_connection_ok k t ws s :
  ssh_packet_set_connection k t ws = Some s ->
  exists c a b, cipher_none = Some c /\ cc_cipher a = c /\ cc_cipher b = c /\ cc_encrypt a = true /\ cc_encrypt b = false /\
    s = session_new k t ws a b.
Proof.
  unfold ssh_packet_set_connection. destruct cipher_none as [c|] eqn:Ec; [|done].
  assert (c_flag CFLAG_NONE c = true /\ c_flag CFLAG_CHACHAPOLY c = false /\ c_key_len c = 0) as (Hn & Hcp & Hk)
    by (vm_compute in Ec; by injection Ec as <-).
  unfold cipher_init. rewrite !malloc_reliable, Hcp, Hn, Hk. cbn [negb]. change ((0 <? 0) || false) with false. cbv iota.
  intros [= <-]. exists c. eexists _, _. split; [done|]. split; [|split; [|split; [|split; [|reflexivity]]]]; done.
Qed.

Lemma net_init_inv n : net_init n -> net_inv n.
Proof.
  intros (k & k' & t & t' & ws & ws' & a & b & srv & Ea & Eb & ->).
  apply set_connection_ok in Ea as (c & a1 & a2 & Ec & C1 & C2 & C3 & C4 & ->).
  apply set_connection_ok in Eb as (c' & b1 & b2 & Ec' & D1 & D2 & D3 & D4 & ->). assert (c' = c) as -> by congruence.
  destruct (none_in_step c a1 b2) as [Hst Hno]; [done..|].
  assert (linked (dir_new (S:=zdeflate) a1) (dir_new (S:=zinflate) b2)) as Hlk.
  { constructor; [|done..]. exists a1, b2. done. }
  destruct srv; constructor; try done.
  2, 5: by exists (dir_new b2).
  1, 3: split; [apply Forall_nil_2|vm_compute; done].
  all: exists []; split; [done|]; eapply (fly_idle _ _ _ _ []); [exact Hlk|done|constructor].
Qed.

(** ** Sending keeps it *)

Lemma flying_snoc srv B ub o aa e pe fs stream o1 pl body pkt c tag limit :
  flying srv B ub (o, aa, e) pe fs stream ->
  encoded o o1 pl body pkt c tag -> zlen pkt <= PACKET_MAX_SIZE + 4 -> 1 <= znth pl 0 < 192 ->
  flying srv B ub (advance srv limit (znth pl 0) (o1, aa, e)) pe (fs ++ [(pl, c ++ tag)]) (stream ++ c ++ tag).
Proof.
  intros Hf En Hsz Hty.
  assert (forall l : list (list Z * list Z), concat (map snd l) ++ c ++ tag = concat (map snd (l ++ [(pl, c ++ tag)]))) as Hcat.
  { intros l. rewrite map_app, concat_app. cbn [map concat snd]. by rewrite app_nil_r. }
  destruct Hf as [fs o' Hlk Hp Hch|o' o1' pl' body' pkt' c' tag' limit' rest fs En' Hsz' Hty' Hs Hch|fs o' limit' Hs Hp Hch].
  - rewrite Hcat. eapply fly_idle; [done|done|]. by eapply chain_snoc.
  - rewrite <- (app_assoc rest), Hcat. cbn [app]. eapply fly_within; [done..|]. by eapply chain_snoc.
  - rewrite Hcat. eapply fly_rekey; [done|done|]. by eapply chain_snoc.
Qed.

Lemma tagged_bytes o o1 i pkt c tag : linked o i -> tagged o o1 pkt c tag -> bytes_ok tag.
Proof.
  intros Hlk Ht. unfold tagged in Ht. destruct (mac_live (p_mac (dir_params o))) eqn:Hl; [|destruct Ht as [-> _]; constructor].
  destruct Ht as (k & m1 & Ek & _ & _ & Hr). destruct (live_keys _ _ Hlk Hl) as (k' & Ek' & _ & _ & alg & key & Hrd).
  assert (k' = k) as -> by congruence. destruct (Hr alg key Hrd) as (_ & Htag). by eapply mac_tag_bytes.
Qed.

(** What follows the sending of a packet is [advance]. *)
Lemma after_send_ok type s1 e A' :
  (type = SSH2_MSG_NEWKEYS -> newkeys_out (kx s1) = Some (epoch e)) ->
  after_send type (server_side s1) s1 = (Ok tt, A') ->
  (out_dir A', after_authentication A', if type =? SSH2_MSG_NEWKEYS then S e else e) =
    advance (server_side s1) (rekey_limit s1) type (out_dir s1, after_authentication s1, e) /\
  output A' = output s1 /\ wire A' = wire s1 /\ server_side A' = server_side s1 /\
  (forall i1, linked (out_dir s1) i1 -> exists i, linked (out_dir A') i).
Proof.
  intros Hk E. unfold after_send in E. unfold advance. destruct (Z.eqb_spec type SSH2_MSG_NEWKEYS) as [Et|Et].
  - destruct (set_newkeys_out (epoch e) s1) as [b Eb]; [auto..|]. rewrite Eb in E. apply run_inj in E as [_ <-]. split; [done|]. do 3 (split; [done|]). intros i1 Hlk.
    exists (rekey_in 0 (epoch e) (after_authentication s1) i1). by apply linked_rekey, lk_seqnr.
  - destruct (_ && _).
    + destruct (enable_delayed_ok s1) as (s2 & E2 & Eo & _ & _ & Eou & _ & _ & _ & Esv & _ & _ & _ & _ & Eaa & Ew).
      rewrite E2 in E. apply run_inj in E as [_ <-]. rewrite Eo, Eaa. do 4 (split; [done|]). intros i1 Hlk. eexists. by apply linked_delay.
    + apply run_inj in E as [_ <-]. do 4 (split; [done|]). intros i1 Hlk. by exists i1.
Qed.

Lemma net_send_inv A B r s g ua ub pe hdr pl pad A' :
  zlen hdr = 5 -> bytes_ok pl -> 0 < zlen pl -> 1 <= znth pl 0 < 192 -> zlen (hdr ++ pl) <= SSHBUF_SIZE_MAX ->
  (znth pl 0 = SSH2_MSG_NEWKEYS -> newkeys_out (kx A) = Some (epoch ua)) ->
  ssh_packet_send2_wrapped (composed hdr pl pad A) = (Ok tt, A') ->
  zlen (output A') - zlen (output A) <= PACKET_MAX_SIZE + 4 -> net_inv (mk_net A B r s g ua ub pe) ->
  net_inv (mk_net A' B r (s ++ [pl]) g (if znth pl 0 =? SSH2_MSG_NEWKEYS then S ua else ua) ub pe).
Proof.
  intros Hh Hb Hpl Hty Hl Hk E Hgrow [Hro Hpn [Hbu Hbi] Hwi [i Hlk] (fs & Esent & Hfly)]. cbn [nA nB received sent got usedA usedB pending] in *.
  assert (0 <= u8 pad < 256) as Hpad by (apply Z.mod_pos_bound; lia).
  destruct (send_ok (composed hdr pl pad A) i hdr pl A' Hlk eq_refl Hh Hb Hpl Hl Hpad E) as
    (body & pkt & c & tag & s1 & En & Eout & Ecore & _ & Eaft).
  change (output (composed hdr pl pad A)) with (output A) in Eout. change (out_dir (composed hdr pl pad A)) with (out_dir A) in En.
  change (core (composed hdr pl pad A)) with (core A) in Ecore. change (server_side (composed hdr pl pad A)) with (server_side A) in Eaft.
  injection Ecore as _ _ _ Ekx Esv Eaa _ _ _ _ Ewi. rewrite <- Esv in Eaft, Hro, Hfly.
  destruct (after_send_ok (znth pl 0) s1 ua A') as (Epos & Eo' & Ew' & Es' & Hl'); [by rewrite Ekx|done|].
  destruct (linked_params _ _ Hlk) as (a & ? & _ & _ & (Hin & _) & _ & Epar). cbv zeta in Epar. destruct Epar as (Hau & _).
  destruct (ciphers_shape _ Hin) as (_ & Hau16 & _).
  pose proof (en_seal _ _ _ _ _ _ _ En) as [_ Hcl Hcb Htag]. pose proof (tagged_bytes _ _ _ _ _ _ Hlk Htag) as Htb.
  rewrite Eo', Eout, !zlen_app in Hgrow. pose proof (zlen_nonneg tag).
  assert (zlen pkt <= PACKET_MAX_SIZE + 4) as Hsz by lia.
  assert (zlen (c ++ tag) <= SSHBUF_SIZE_MAX) as Hct by (rewrite zlen_app; unfold SSHBUF_SIZE_MAX, PACKET_MAX_SIZE in *; lia).
  destruct (encoded_linkable _ _ _ _ _ _ _ i A En Hsz Hty Htb Hct Hlk) as [i1 Hlk1].
  assert (unread (mk_net A' B r (s ++ [pl]) g (if znth pl 0 =? SSH2_MSG_NEWKEYS then S ua else ua) ub pe) =
    unread (mk_net A B r s g ua ub pe) ++ c ++ tag) as Eun.
  { unfold unread. cbn [nA nB received]. by rewrite Ew', Ewi, Eo', Eout, !app_assoc. }
  constructor; cbn [nA nB received sent got usedA usedB pending].
  - by rewrite Es'.
  - done.
  - rewrite Eun. split; [|done]. apply Forall_app_2; [done|by apply Forall_app_2].
  - by rewrite Ew', Ewi.
  - by apply (Hl' i1).
  - exists (fs ++ [(pl, c ++ tag)]). split; [by rewrite Esent, map_app, app_assoc|].
    rewrite Eun, Epos, Es', Eaa. by eapply flying_snoc.
Qed.

(** ** So do the transport of bytes and the key exchange *)

Lemma flying_same srv B B' ub q pe fs stream :
  in_dir B' = in_dir B -> packlen B' = packlen B -> incoming_packet B' = incoming_packet B ->
  after_authentication B' = after_authentication B -> flying srv B ub q pe fs stream -> flying srv B' ub q pe fs stream.
Proof.
  intros Ed Ep Ei Ea Hf. destruct Hf as [fs o Hlk Hp Hch|o o1 pl body pkt c tag limit rest fs En Hsz Hty Hs Hch|fs o limit Hs Hp Hch].
  - rewrite <- Ea in Hch. eapply fly_idle; [by rewrite Ed|by rewrite Ep|done].
  - rewrite <- Ea in Hch. eapply fly_within; [done..| |done].
    destruct Hs as [Hp Hlk|A4 Epk Einc Hlk|i b1 b' a' A0 Epk bs Hbl Einc Hlk Edir Ea' Hst Hdec].
    + apply stage_new; [by rewrite Ep|by rewrite Ed].
    + apply stage_aad; [done|by rewrite Ep|by rewrite Ei|by rewrite Ed].
    + eapply stage_block; [done|by rewrite Ep|done|by rewrite Ei|done|by rewrite Ed|done..].
  - rewrite <- Ea in Hch. eapply fly_rekey; [by rewrite Ed|by rewrite Ep|done].
Qed.

Lemma net_write_inv A B r s g ua ub pe n A' :
  0 < n -> ssh_packet_write_poll (WTaken n) A = (Ok tt, A') ->
  net_inv (mk_net A B r s g ua ub pe) -> net_inv (mk_net A' B r s g ua ub pe).
Proof.
  intros Hn E [Hro Hpn [Hbu Hbi] Hwi [i Hlk] (fs & Esent & Hfly)]. cbn [nA nB received sent got usedA usedB pending] in *.
  unfold ssh_packet_write_poll in E. run_in E. destruct (zlen (output A) >? 0); [|by apply run_inj in E as [_ <-]; constructor; try done; eauto].
  destruct (Z.eqb_spec n 0); [lia|]. unfold bconsume in E. destruct (Z.gtb_spec n (zlen (output A))) as [|Hle]; [done|]. run_in E.
  apply run_inj in E as [_ <-].
  assert (unread (mk_net (set_wire (wire A ++ ztake n (output A)) (set_output (zdrop n (output A)) A)) B r s g ua ub pe) =
    unread (mk_net A B r s g ua ub pe)) as Eun.
  { unfold unread. cbn [nA nB received wire output set_wire set_output]. f_equal. rewrite zdrop_app_le by lia. by rewrite <- app_assoc, ztake_zdrop. }
  constructor; cbn [nA nB received sent got usedA usedB pending]; [done|done|by rewrite Eun| |by exists i|].
  - cbn [wire set_wire]. rewrite zlen_app. zlen_facts. lia.
  - exists fs. split; [done|]. by rewrite Eun.
Qed.

Lemma net_receive_inv A B r s g ua ub pe n B' :
  0 <= n <= zlen (wire A) - r -> ssh_packet_process_incoming (slice r n (wire A)) B = (Ok tt, B') ->
  net_inv (mk_net A B r s g ua ub pe) -> net_inv (mk_net A B' (r + n) s g ua ub pe).
Proof.
  intros Hn E [Hro [Hmx Hdi] [Hbu Hbi] Hwi [i Hlk] (fs & Esent & Hfly)]. cbn [nA nB received sent got usedA usedB pending] in *.
  unfold ssh_packet_process_incoming in E. run_in E. rewrite Hdi in E. change (0 =? 0) with true in E. cbn [negb] in E.
  destruct (bput (input B) (slice r n (wire A))) as [b|] eqn:Eb; [|done]. run_in E. apply run_inj in E as [_ <-].
  apply bput_ok in Eb as [-> Hsz].
  assert (unread (mk_net A (set_input (input B ++ slice r n (wire A)) B) (r + n) s g ua ub pe) = unread (mk_net A B r s g ua ub pe)) as Eun.
  { unfold unread. cbn [nA nB received input set_input]. rewrite <- app_assoc. f_equal. rewrite app_assoc. f_equal.
    rewrite slice_ztake, <- zdrop_app_le by (rewrite ?zlen_ztake; lia). by rewrite ztake_zdrop. }
  constructor; cbn [nA nB received sent got usedA usedB pending]; [done|done| |lia|by exists i|].
  - rewrite Eun. split; [done|]. cbn [input set_input]. rewrite zlen_app. lia.
  - exists fs. split; [done|]. rewrite Eun. eapply (flying_same _ B); done.
Qed.

Lemma net_kex_inv A B r s g ua ub pe k k' :
  net_inv (mk_net A B r s g ua ub pe) -> net_inv (mk_net (set_kx k A) (set_kx k' B) r s g ua ub pe).
Proof.
  intros [Hro Hpn Hbu Hwi Hlk (fs & Esent & Hfly)]. constructor; [done..|]. exists fs. split; [done|]. eapply (flying_same _ B); done.
Qed.

(** ** So does reading *)

(** Nothing to read at the end of the stream. *)
Lemma poll_idle o B :
  linked o (in_dir B) -> packlen B = 0 -> input B = [] -> mux B = false -> packet_discard B = 0 ->
  ssh_packet_read_poll2 B = (Ok SSH_MSG_NONE, B).
Proof.
  intros Hlk Hp Hi Hm Hd. destruct (linked_params _ _ Hlk) as (a & b & _ & Hb & (Hc & _) & _ & Epar). cbv zeta in Epar.
  destruct Epar as (_ & _ & _ & Hbs & _). destruct (ciphers_shape _ Hc) as (Hb8 & _).
  unfold ssh_packet_read_poll2. run. rewrite Hm, Hd. change (0 =? 0) with true. cbn [negb].
  assert (read_packlen (dir_params (in_dir B)) B = (Ok false, B)) as E; [|by rewrite (se_bind_ok _ _ _ _ _ E)].
  unfold read_packlen. run. rewrite Hp, Hi, Hb, Hbs. change (0 =? 0) with true. change (zlen []) with 0. cbn [negb].
  destruct (negb _).
  - destruct (get_length_short b (seqnr (d_ps (in_dir B))) [] (u32 0) ltac:(done)) as (e & ->). run.
    unfold set_mode_ctx, dir_ctx. by destruct B as [? [] ?]; cbn in *; rewrite <- Hb.
  - by rewrite (proj2 (Z.ltb_lt 0 (c_block_size (cc_cipher a)))) by lia.
Qed.

(** The first packet in flight, wherever the receiver is in it. *)
Lemma flying_head srv B ub q fs stream :
  flying srv B ub q false fs stream ->
  fs = [] /\ stream = [] /\ (exists o, linked o (in_dir B) /\ packlen B = 0 /\ q = (o, after_authentication B, ub)) \/
  exists o o1 pl body pkt c tag limit rest fs', fs = (pl, c ++ tag) :: fs' /\ stream = rest ++ concat (map snd fs') /\
    encoded o o1 pl body pkt c tag /\ zlen pkt <= PACKET_MAX_SIZE + 4 /\ 1 <= znth pl 0 < 192 /\
    stage o o1 pkt c tag B rest /\ chain srv (advance srv limit (znth pl 0) (o1, after_authentication B, ub)) fs' q.
Proof.
  intros Hf. remember false as pe eqn:Epe. destruct Hf as [fs o Hlk Hp Hch|o o1 pl body pkt c tag limit rest fs En Hsz Hty Hs Hch|]; [| |done].
  - inversion Hch as [|? ? ? o1 pl body pkt c tag limit fs' q' En Hsz Hty Hch' Eo Ef]; subst; [by left; eauto 10|].
    right. exists o, o1, pl, body, pkt, c, tag, limit, (c ++ tag), fs'. do 5 (split; [done|]). split; [by apply stage_new|done].
  - right. exists o, o1, pl, body, pkt, c, tag, limit, rest, fs. done.
Qed.

(** After the packet has been read, the receiver is at the next position. *)
Lemma delivered_flying srv B B1 ub q o1 pl fut later limit fs :
  srv = negb (server_side B) -> delivered o1 pl fut later B B1 ->
  chain srv (advance srv limit (znth pl 0) (o1, after_authentication B, ub)) fs q ->
  flying srv B1 ub q (znth pl 0 =? SSH2_MSG_NEWKEYS) fs (concat (map snd fs)).
Proof.
  intros -> (_ & Hp & _ & _ & _ & _ & Haa & i1 & Hlk & Hin) Hch. unfold advance in Hch.
  destruct (Z.eqb_spec (znth pl 0) SSH2_MSG_NEWKEYS) as [Et|Et].
  - rewrite Et in Hin, Haa. change (SSH2_MSG_NEWKEYS =? SSH2_MSG_USERAUTH_SUCCESS) with false in *. cbn [andb] in *.
    rewrite <- Haa in Hch. eapply fly_rekey; [by rewrite Hin; apply lk_seqnr|done|exact Hch].
  - destruct (_ && _); rewrite <- Haa in Hch || rewrite Haa in *.
    + eapply fly_idle; [rewrite Hin; by apply linked_delay|done|]. exact Hch.
    + eapply fly_idle; [by rewrite Hin|done|]. exact Hch.
Qed.

Lemma read_done_ok type B1 t B' : read_done type B1 = (Ok t, B') -> t = type /\ in_view B' = in_view B1.
Proof.
  intros E. pose proof (read_done_keeps type B1) as Hk. rewrite E in Hk. split; [|done].
  unfold read_done in E. run_in E. apply bind_ok in E as (u & s1 & _ & E). by apply run_inj in E as [<- _].
Qed.

(** What a call of [ssh_packet_read_poll2] does in a state of the network. *)
Inductive poll_outcome (n : net) : Prop :=
| poll_none B' rest fs :
    ssh_packet_read_poll2 (nB n) = (Ok SSH_MSG_NONE, B') -> sent n = got n ++ map fst fs ->
    (sent n <> got n -> exists y ys, zdrop (received n) (wire (nA n)) ++ output (nA n) = y :: ys) ->
    rcore B' = rcore (nB n) -> bytes_ok (input B') -> zlen (input B') <= zlen (input (nB n)) ->
    input B' ++ zdrop (received n) (wire (nA n)) ++ output (nA n) = rest ->
    flying (server_side (nA n)) B' (usedB n) (out_dir (nA n), after_authentication (nA n), usedA n) false fs rest ->
    poll_outcome n
| poll_packet B1 o1 pl fs rest limit :
    ssh_packet_read_poll2 (nB n) = read_done (znth pl 0) B1 -> sent n = got n ++ pl :: map fst fs ->
    delivered o1 pl (zdrop (received n) (wire (nA n)) ++ output (nA n)) rest (nB n) B1 -> rest = concat (map snd fs) ->
    chain (server_side (nA n)) (advance (server_side (nA n)) limit (znth pl 0) (o1, after_authentication (nB n), usedB n)) fs
      (out_dir (nA n), after_authentication (nA n), usedA n) ->
    0 < zlen pl -> 1 <= znth pl 0 < 192 -> poll_outcome n.

Lemma poll_cases n : net_inv n -> pending n = false -> poll_outcome n.
Proof.
  intros [Hro [Hmx Hdi] [Hbu Hbi] Hwi [i Hlk] (fs & Esent & Hfly)] Hpe. rewrite Hpe in Hfly. pose proof Hfly as Hfly0.
  unfold unread in *. apply Forall_app in Hbu as [Hbu _].
  apply flying_head in Hfly as [(-> & Est & o & Hlk' & Hp & Eq)|
    (o & o1 & pl & body & pkt & c & tag & limit & rest & fs' & -> & Est & En & Hsz & Hty & Hs & Hch)].
  - apply app_eq_nil in Est as [Ei Ef]. cbn [map] in Esent. rewrite app_nil_r in Esent.
    eapply (poll_none n (nB n) _ []); [by eapply poll_idle|by rewrite app_nil_r|done|done|done|done|done|exact Hfly0].
  - destruct (poll_ok _ _ _ _ _ _ _ _ _ _ _ En Hsz Hty Hs Hmx Hdi Hbu Hbi Est) as
      [(B' & E & rest' & Hs' & Hpre & Hlt & Hb' & Hle & Hc)|(B1 & E & Hd)].
    + eapply poll_none; [exact E|exact Esent| |done|done|done|exact Hpre|].
      * intros _. destruct (zdrop _ _ ++ _) as [|y ys]; [|by eauto]. rewrite app_nil_r in Hpre. rewrite Hpre, zlen_app in Hlt. zlen_facts. lia.
      * assert (after_authentication B' = after_authentication (nB n)) as Ea by (by injection Hc). rewrite <- Ea in Hch.
        by eapply fly_within.
    + eapply poll_packet; [exact E|exact Esent|exact Hd|done|exact Hch|apply (en_pl _ _ _ _ _ _ _ En)|done].
Qed.

Lemma payload_cons (pl : list Z) : 0 < zlen pl -> znth pl 0 :: zdrop 1 pl = pl.
Proof. destruct pl as [|x pl]; [done|]. intros _. change (x :: pl) with ([x] ++ pl). by rewrite zdrop_app_exact. Qed.

Lemma net_read_inv A B r s g ua ub type B' :
  ssh_packet_read_poll2 B = (Ok type, B') -> net_inv (mk_net A B r s g ua ub false) ->
  net_inv (mk_net A B' r s (if type =? SSH_MSG_NONE then g else g ++ [type :: incoming_packet B']) ua ub (type =? SSH2_MSG_NEWKEYS)).
Proof.
  intros E Hinv. pose proof Hinv as [Hro [Hmx Hdi] [Hbu Hbi] Hwi Hlk _]. apply Forall_app in Hbu as [_ Hbf].
  destruct (poll_cases _ Hinv eq_refl) as [B0 rest fs E0 Esent _ Hrc Hb Hle Eun Hfly|B1 o1 pl fs rest limit E0 Esent Hd Er Hch Hl Hty];
    cbn [nA nB received sent got usedA usedB pending] in *; rewrite E in E0.
  - apply run_inj in E0 as [-> <-]. injection Hrc as _ _ _ Esv _ _ Epd Emx.
    constructor; cbn [nA nB received sent got usedA usedB pending]; [by rewrite Esv|by rewrite Emx, Epd| |done|done|].
    + split; [by apply Forall_app_2|lia].
    + exists fs. split; [done|]. change (SSH_MSG_NONE =? SSH2_MSG_NEWKEYS) with false. unfold unread. cbn [nA nB received]. by rewrite Eun.
  - symmetry in E0. apply read_done_ok in E0 as [-> Hv]. injection Hv as Edir Ein Einc Epl Esv Eaa Epd Emx.
    pose proof (delivered_flying _ B B1 ub _ o1 pl _ rest limit fs Hro Hd Hch) as Hfly.
    destruct Hd as (Hinc & _ & Hin & Hbi1 & Hle & Hrc & _). injection Hrc as _ _ Esv1 Epd1 Emx1.
    constructor; cbn [nA nB received sent got usedA usedB pending]; [by rewrite Esv, Esv1|by rewrite Emx, Epd, Emx1, Epd1| |done|done|].
    + rewrite Ein. split; [|lia]. unfold unread. cbn [nA nB received]. rewrite Ein. by apply Forall_app_2.
    + exists fs. unfold unread. cbn [nA nB received]. rewrite Ein, Hin, Er. split; [|by eapply (flying_same _ B1)].
      rewrite (proj2 (Z.eqb_neq (znth pl 0) SSH_MSG_NONE)) by (unfold SSH_MSG_NONE; lia).
      by rewrite Einc, Hinc, payload_cons, <- app_assoc.
Qed.

Lemma net_newkeys_inv A B r s g ua ub B' :
  newkeys_in (kx B) = Some (epoch ub) -> ssh_set_newkeys MODE_IN B = (Ok tt, B') ->
  net_inv (mk_net A B r s g ua ub true) -> net_inv (mk_net A B' r s g ua (S ub) false).
Proof.
  intros Hk E [Hro Hpn Hbu Hwi Hlk (fs & Esent & Hfly)]. cbn [nA nB received sent got usedA usedB pending] in *.
  destruct (set_newkeys_in (epoch ub) B) as [b Eb]; [auto..|]. rewrite Eb in E. apply run_inj in E as [_ <-].
  constructor; cbn [nA nB received sent got usedA usedB pending]; [done..|]. exists fs. split; [done|].
  remember true as pe eqn:Epe. unfold unread in *. cbn [nA nB received input set_in_dir set_kx set_compression_buffer] in *.
  destruct Hfly as [| |fs o limit Hs Hp Hch]; [done..|]. eapply fly_idle; [|done|exact Hch].
  by apply linked_rekey.
Qed.

Lemma net_login_inv A B r s ua ub A' B' :
  server_side B = true ->
  ssh_packet_enable_delayed_compress A = (Ok tt, A') -> ssh_packet_enable_delayed_compress B = (Ok tt, B') ->
  net_inv (mk_net A B r s s ua ub false) -> net_inv (mk_net A' B' r s s ua ub false).
Proof.
  intros Hsrv EA EB [Hro Hpn Hbu Hwi [i Hlk] (fs & Esent & Hfly)]. cbn [nA nB received sent got usedA usedB pending] in *.
  destruct (enable_delayed_ok A) as (A1 & E1 & O1 & _ & _ & Ou1 & _ & _ & _ & S1 & _ & _ & _ & _ & Aa1 & W1).
  destruct (enable_delayed_ok B) as (B1 & E2 & _ & I2 & In2 & _ & Ic2 & P2 & _ & S2 & D2 & M2 & _ & _ & Aa2 & _).
  rewrite E1 in EA. rewrite E2 in EB. apply run_inj in EA as [_ <-]. apply run_inj in EB as [_ <-].
  assert (fs = []) as ->. { destruct fs; [done|]. apply (f_equal length) in Esent. rewrite length_app in Esent. cbn in Esent. lia. }
  unfold unread in *. cbn [nA nB received] in *.
  apply flying_head in Hfly as [(_ & Est & o & Hlko & Hp & Eq)|(? & ? & ? & ? & ? & ? & ? & ? & ? & ? & ? & _)]; [|done].
  injection Eq as <- Eaa Eub.
  constructor; unfold unread; cbn [nA nB received sent got usedA usedB pending]; rewrite ?In2, ?Ou1, ?W1; try done.
  - by rewrite S1, S2.
  - by rewrite M2, D2.
  - exists (delay_in i). rewrite O1. by apply linked_delay.
  - exists []. split; [by rewrite app_nil_r|]. rewrite Est, O1, Aa1. eapply (fly_idle _ _ _ _ []);
      [rewrite I2; by apply linked_delay|by rewrite P2|]. rewrite Aa2, Eub. constructor.
Qed.

Lemma net_reach_inv n : net_reach n -> net_inv n.
Proof.
  induction 1 as [n Hn|n n' _ IH Hs]; [by apply net_init_inv|].
  destruct Hs; [by eapply net_send_inv|by eapply net_write_inv|by eapply net_receive_inv|by eapply net_read_inv
    |by eapply net_newkeys_inv|by apply net_kex_inv|by eapply net_login_inv].
Qed.

(** * The claims *)

(** C1: the packet stream.  One end of a connection sends any packets with
    [ssh_packet_send2_wrapped] (with whatever padding asked for, compression, MAC
    and cipher are in use, NEWKEYS putting the keys of the next key exchange into
    use), the connection takes and delivers the bytes in pieces of any size, and
    the other end calls [ssh_packet_read_poll2] at any time and acts on NEWKEYS.
    In every state that can be reached, the payloads read are the first of the
    payloads sent, and the next call reads exactly the next payload, or nothing
    yet; it fails only after it has read the next payload, when the limits of the
    keys ask for a new key exchange and the KEXINIT for it cannot be sent.  (The
    single calls of the ciphers, digests and zlib behave as documented, memory can
    be allocated, and both ends have the keys of the same negotiations.) *)
Theorem packet_stream_fifo n : net_reach n ->
  (exists later, sent n = got n ++ later) /\
  (pending n = false -> exists r B', ssh_packet_read_poll2 (nB n) = (r, B') /\
     match r with
     | Ok type =>
         type = SSH_MSG_NONE \/
         exists pl later, sent n = got n ++ pl :: later /\ type = znth pl 0 /\ incoming_packet B' = zdrop 1 pl /\ 1 <= type < 192
     | Err e =>
         exists pl later B1, sent n = got n ++ pl :: later /\ ssh_packet_read_poll2 (nB n) = read_done (znth pl 0) B1 /\
           incoming_packet B1 = zdrop 1 pl /\ ssh_packet_need_rekeying 0 B1 = true /\ kex_start_rekex B1 = (Err e, B')
     end).
Proof.
  intros Hn. pose proof (net_reach_inv n Hn) as Hinv. split; [by destruct (ni_flight _ Hinv) as (fs & -> & _); eexists|].
  intros Hp. destruct (poll_cases n Hinv Hp) as [B' rest fs E|B1 o1 pl fs rest limit E Es Hd _ _ Hl Hty].
  - exists (Ok SSH_MSG_NONE), B'. split; [done|]. by left.
  - destruct (read_done (znth pl 0) B1) as [r B'] eqn:Er. exists r, B'. split; [done|]. destruct r as [t|e].
    + right. exists pl, (map fst fs). destruct (read_done_ok _ _ _ _ Er) as [-> Hv]. injection Hv as _ _ Hinc _ _ _ _ _.
      destruct Hd as (Hinc1 & _). by rewrite Hinc.
    + destruct Hd as (Hinc1 & _). exists pl, (map fst fs), B1. pose proof Er as Er'. unfold read_done in Er'. run_in Er'.
      destruct (ssh_packet_need_rekeying 0 B1) eqn:En; [|done]. unfold mbind, se_bind in Er'.
      destruct (kex_start_rekex B1) as [[u|e'] s1] eqn:Ek; [done|]. injection Er' as -> ->. by rewrite E, Er.
Qed.

(** C27: nothing is lost.  When everything that was sent has reached the other end,
    the next call of [ssh_packet_read_poll2] reads the next payload; when NEWKEYS
    was the last, the new keys of that key exchange can be put into use (under
    the conditions of the claim above). *)
Theorem packet_stream_live n : net_reach n ->
  output (nA n) = [] -> received n = zlen (wire (nA n)) ->
  (pending n = false -> sent n <> got n ->
     exists pl later B1, sent n = got n ++ pl :: later /\
       ssh_packet_read_poll2 (nB n) = read_done (znth pl 0) B1 /\ incoming_packet B1 = zdrop 1 pl) /\
  (pending n = true -> newkeys_in (kx (nB n)) = Some (epoch (usedB n)) ->
     exists B', ssh_set_newkeys MODE_IN (nB n) = (Ok tt, B') /\ input B' = input (nB n)).
Proof.
  intros Hn Eo Er. pose proof (net_reach_inv n Hn) as Hinv. split.
  - intros Hp Hne. destruct (poll_cases n Hinv Hp) as [B' rest fs E _ Hmore|B1 o1 pl fs rest limit E Es Hd _ _ _ _].
    + destruct (Hmore Hne) as (y & ys & Ey). rewrite Eo, Er, zdrop_ge in Ey by lia. done.
    + exists pl, (map fst fs), B1. by destruct Hd as (Hinc & _).
  - intros _ Hk. destruct (set_newkeys_in (epoch (usedB n)) (nB n)) as [b ->]; [done..|]. by eexists.
Qed.
End stream.

(** * A run *)

#[local] Existing Instances alloc_all alloc_all_reliable toy_evp toy_evp_laws toy_uninit toy_uninit_laws toy_digest toy_digest_laws
  toy_umac toy_umac_laws toy_zlib toy_zlib_laws toy_random toy_random_laws toy_fellows.

Lemma demo_negotiated : negotiated demo_keys.
Proof.
  unfold demo_keys. destruct (Kex.dir_keys _ _ _) as [nk|] eqn:E; [|by vm_compute in E].
  exists zip_props, zip_props, true, nk, (zrepeat 64), (zrepeat 64), (zrepeat 64).
  split; [done|]. split; [done|]. exists (zrepeat 64), (zrepeat 64), (zrepeat 64).
  pose proof (dir_keys_lens _ _ _ _ E) as (_ & H1 & H2 & H3). do 3 (split; [done|]). rewrite zlen_zrepeat by lia. cbn. lia.
Qed.

Definition demo_end_A : ssh := ssh_packet_set_server (session_new (demo_end true demo_s demo_c) 0 [] (plain_ctx true) (plain_ctx false)).
Definition demo_end_B : ssh := session_new (demo_end false demo_c demo_s) 0 [] (plain_ctx true) (plain_ctx false).

(** Both ends after the key exchange; then A sends NEWKEYS and, with the new
    keys, which compress, a payload of more than one chunk of zlib's output, and
    everything is delivered before B reads. *)
Definition run_pl : list Z := SSH2_MSG_IGNORE :: replicate 5000 7.
Definition run_kA : kex := set_newkeys MODE_OUT (Some demo_keys) (demo_end true demo_s demo_c).
Definition run_kB : kex := set_newkeys MODE_IN (Some demo_keys) (demo_end false demo_c demo_s).
Definition run_A0 : ssh := set_kx run_kA demo_end_A.
Definition run_B0 : ssh := set_kx run_kB demo_end_B.
Definition run_A1 : ssh := snd (ssh_packet_send2_wrapped (composed (zrepeat 5) [SSH2_MSG_NEWKEYS] 0 run_A0)).
Definition run_A2 : ssh := snd (ssh_packet_send2_wrapped (composed (zrepeat 5) run_pl 0 run_A1)).
Definition run_n : Z := zlen (output run_A2).
Definition run_A3 : ssh := snd (ssh_packet_write_poll (WTaken run_n) run_A2).
Definition run_B1 : ssh := snd (ssh_packet_process_incoming (slice 0 run_n (wire run_A3)) run_B0).
Definition run_B2 : ssh := snd (ssh_packet_read_poll2 run_B1).
Definition run_B3 : ssh := snd (ssh_set_newkeys MODE_IN run_B2).
Definition run_end : net := mk_net run_A3 run_B3 (0 + run_n) [[SSH2_MSG_NEWKEYS]; run_pl] [[SSH2_MSG_NEWKEYS]] 1 1 false.

Definition demo_epoch (n : nat) : newkeys := demo_keys.

Ltac ran d := unfold d; apply pair_eq; vm_compute; reflexivity.

Lemma reach_to n n1 n2 : net_reach demo_epoch n -> net_step demo_epoch n n1 -> n1 = n2 -> net_reach demo_epoch n2.
Proof. intros Hn Hs <-. by eapply reach_step. Qed.

Lemma run_pl_ok : bytes_ok run_pl /\ 0 < zlen run_pl /\ 1 <= znth run_pl 0 < 192.
Proof.
  split; [|split; [reflexivity|done]]. constructor; [done|]. apply Forall_replicate. done.
Qed.

(** NEWKEYS and [run_pl] have been sent. *)
Lemma run_sent : net_reach demo_epoch (mk_net run_A2 run_B0 0 [[SSH2_MSG_NEWKEYS]; run_pl] [] 1 0 false).
Proof.
  assert (net_reach demo_epoch (mk_net run_A0 run_B0 0 [] [] 0 0 false)) as R0.
  { eapply reach_to; [|apply (net_kex _ demo_end_A demo_end_B 0 [] [] 0%nat 0%nat false run_kA run_kB)|reflexivity].
    apply reach_init. eexists _, _, _, _, _, _, _, _, true. split; [|split; [|reflexivity]]; reflexivity. }
  assert (net_reach demo_epoch (mk_net run_A1 run_B0 0 [[SSH2_MSG_NEWKEYS]] [] 1 0 false)) as R1.
  { eapply reach_to; [exact R0|apply (net_send _ run_A0 run_B0 0 [] [] 0%nat 0%nat false (zrepeat 5) [SSH2_MSG_NEWKEYS] 0 run_A1)|];
      [done|by apply Forall_singleton|done|done|vm_compute; congruence|done|ran run_A1|vm_compute; congruence|f_equal]. }
  eapply reach_to; [exact R1|apply (net_send _ run_A1 run_B0 0 [[SSH2_MSG_NEWKEYS]] [] 1%nat 0%nat false (zrepeat 5) run_pl 0 run_A2)|];
    [done|apply run_pl_ok..|vm_compute; congruence|discriminate|ran run_A2|vm_compute; congruence|f_equal].
Qed.

Lemma run_reach : net_reach demo_epoch run_end.
Proof.
  assert (net_reach demo_epoch (mk_net run_A3 run_B1 (0 + run_n) [[SSH2_MSG_NEWKEYS]; run_pl] [] 1 0 false)) as R1.
  { eapply reach_to; [eapply reach_to; [exact run_sent|apply (net_write _ run_A2 run_B0 0 _ [] 1%nat 0%nat false run_n run_A3)|reflexivity]
      |apply (net_receive _ run_A3 run_B0 0 _ [] 1%nat 0%nat false run_n run_B1)|reflexivity];
      [vm_compute; reflexivity|ran run_A3|vm_compute; split; congruence|ran run_B1]. }
  assert (net_reach demo_epoch (mk_net run_A3 run_B2 (0 + run_n) [[SSH2_MSG_NEWKEYS]; run_pl] [[SSH2_MSG_NEWKEYS]] 1 0 true)) as R2.
  { eapply reach_to; [exact R1|apply (net_read _ run_A3 run_B1 (0 + run_n) _ [] 1%nat 0%nat SSH2_MSG_NEWKEYS run_B2)|];
      [ran run_B2|]. assert (incoming_packet run_B2 = []) as -> by (vm_compute; reflexivity). reflexivity. }
  eapply reach_to; [exact R2|apply (net_newkeys _ run_A3 run_B2 (0 + run_n) _ _ 1%nat 0%nat run_B3)|reflexivity];
    [vm_compute; reflexivity|ran run_B3].
Qed.

Lemma packet_stream_fifo_witness :
  compressing (d_keys (out_dir (nA run_end))) = true /\
  exists pl B', ssh_packet_read_poll2 (nB run_end) = (Ok (znth pl 0), B') /\ sent run_end = got run_end ++ [pl].
Proof.
  split; [vm_compute; reflexivity|].
  destruct (packet_stream_fifo demo_epoch (fun _ => demo_negotiated) run_end run_reach) as [_ Hp].
  destruct (Hp eq_refl) as (r & B' & E & Hr). destruct r as [t|e].
  - destruct Hr as [-> |(pl & later & Es & -> & _)]; [apply (f_equal fst) in E; vm_compute in E; discriminate E|].
    injection Es as <- <-. exists run_pl, B'. split; [exact E|reflexivity].
  - apply (f_equal fst) in E. vm_compute in E. discriminate E.
Defined.

Lemma packet_stream_live_witness :
  exists pl later B1, sent run_end = got run_end ++ pl :: later /\
    ssh_packet_read_poll2 (nB run_end) = read_done (znth pl 0) B1 /\ incoming_packet B1 = zdrop 1 pl.
Proof.
  destruct (packet_stream_live demo_epoch (fun _ => demo_negotiated) run_end run_reach) as [Hl _];
    [vm_compute; reflexivity|vm_compute; reflexivity|]. apply Hl; [reflexivity|discriminate].
Defined.
