(* ===== verification/PacketQueue.v ===== *)
(** The order in which packets leave: while a key exchange runs nothing but its
    messages is sent, and the packets that wait are sent afterwards in the order
    in which they were given (RFC 4253, section 7.1). *)

From Stdlib Require Import String.
From S2P Require Import Prelude Match Sshbuf SshbufGetPut AlgNames Digest ChaCha Poly1305 ChachaPoly Cipher Kex Packet PacketKeep PacketNet.
Local Open Scope Z_scope.

Section queue.
Context `{Allocator} `{EvpCipher} `{Uninit} `{EvpDigest} `{Umac} `{Zlib} `{Random} `{Fellows}.

(** The message type of a packet with its header, and whether it belongs to the
    key exchange. *)
Definition packet_type (p : list Z) : Z := znth p 5.
Definition plain_packet (p : list Z) : bool := negb (ssh_packet_type_is_kex (packet_type p)).

(** Nothing is sent: the direction is the same, and the connection may take bytes
    from the output. *)
Definition quiet (s s' : ssh) : Prop := out_dir s' = out_dir s /\ exists n, 0 <= n /\ output s' = zdrop n (output s).

(** From [s] to [s'] the packets [pls] are put into the output, in this order. *)
Inductive emits : ssh -> list (list Z) -> ssh -> Prop :=
| emits_none s s' : quiet s s' -> emits s [] s'
| emits_packet s t t' pls s' :
    quiet s t -> ssh_packet_send2_wrapped t = (Ok tt, t') -> emits t' pls s' -> emits s (outgoing_packet t :: pls) s'.

(** The rule for a stream of packets: [b] tells whether a key exchange runs. *)
Definition kex_after (b : bool) (p : list Z) : bool :=
  if packet_type p =? SSH2_MSG_KEXINIT then true else if packet_type p =? SSH2_MSG_NEWKEYS then false else b.
Fixpoint kex_rule (b : bool) (pls : list (list Z)) : option bool :=
  match pls with
  | [] => Some b
  | p :: pls => if b && plain_packet p then None else kex_rule (kex_after b p) pls
  end.

(** The state between two calls: packets wait only during a key exchange, and an
    end that has finished a key exchange has not begun another. *)
Record queue_ok (s : ssh) : Prop := {
  qo_mux : mux s = false;
  qo_wait : outgoing s <> [] -> rekeying s = true;
  qo_flags : kex_done (kx s) = true -> Z.land (flags (kx s)) KEX_INIT_SENT = 0;
  qo_plain : Forall (fun p => plain_packet p = true) (map snd (outgoing s))
}.

Definition qview (s : ssh) := (mux s, rekeying s, outgoing s, kex_done (kx s), flags (kx s)).

Lemma queue_ok_same s s' : qview s' = qview s -> queue_ok s -> queue_ok s'.
Proof. intros [= E1 E2 E3 E4 E5] [Q1 Q2 Q3 Q4]. constructor; rewrite ?E1, ?E2, ?E3, ?E4, ?E5; done. Qed.

(** ** Sending a packet does not touch the queue *)

Lemma delayed_qview : keeps qview ssh_packet_enable_delayed_compress.
Proof.
  unfold ssh_packet_enable_delayed_compress, enable_delayed_mode, ssh_packet_init_compression, start_compression,
    start_compression_in, start_compression_out. keep.
Qed.

Lemma newkeys_qview s : qview (snd (ssh_set_newkeys MODE_OUT s)) = qview s.
Proof.
  unfold ssh_set_newkeys. rewrite run_modify, run_get. cbn [newkeys_of kx reset_mode_counters set_mode_keys set_out_dir].
  destruct (newkeys_out (kx s)) as [nk|]; [|done]. rewrite run_modify. destruct (newkeys_mac_init nk) as [r nk'].
  set (t := set_kx _ _). transitivity (qview t); [|done]. clearbody t.
  unfold ssh_packet_init_compression, start_compression, start_compression_out. by_keeps.
Qed.

Lemma wrapped_qview s : qview (snd (ssh_packet_send2_wrapped s)) = qview s.
Proof.
  unfold ssh_packet_send2_wrapped. enough (keeps qview ssh_packet_send2_wrapped) as Hk by apply Hk.
  unfold ssh_packet_send2_wrapped. keep; [intros ?; apply newkeys_qview|apply delayed_qview].
Qed.

(** ** Starting a key exchange *)

Lemma quiet_same s s' : out_dir s' = out_dir s -> output s' = output s -> quiet s s'.
Proof. intros E1 E2. split; [done|]. exists 0. by rewrite zdrop_0. Qed.

Lemma quiet_trans s t u : quiet s t -> quiet t u -> quiet s u.
Proof.
  intros [E1 (n & Hn & E2)] [F1 (m & Hm & F2)]. split; [congruence|]. exists (n + m). split; [lia|]. by rewrite F2, E2, zdrop_zdrop by lia.
Qed.

Lemma emits_app s s1 s2 a b : emits s a s1 -> emits s1 b s2 -> emits s (a ++ b) s2.
Proof.
  intros Ha. revert b. induction Ha as [s s' Hq|s t t' pls s' Hq E Ha IH]; intros b Hb.
  - destruct Hb as [s1 s2 Hq'|s1 t t' pls s2 Hq' E Hb]; [apply emits_none|eapply emits_packet; [|done..]]; by eapply quiet_trans.
  - cbn [app]. eapply emits_packet; [done..|]. by apply IH.
Qed.

Lemma send_kexinit_ok rekex s s' :
  mux s = false -> packet_type (outgoing_packet s) = SSH2_MSG_KEXINIT -> send_body rekex s = (Ok tt, s') ->
  ssh_packet_send2_wrapped (set_rekeying true s) = (Ok tt, s').
Proof.
  intros Hm Hty E. unfold send_body in E. run_in E. rewrite Hm in E. unfold send2_body in E. run_in E. fold (packet_type (outgoing_packet s)) in E.
  destruct (_ <? 6); [done|]. rewrite Hty in E. change (ssh_packet_type_is_kex SSH2_MSG_KEXINIT) with true in E. cbn [negb] in E.
  rewrite andb_false_r in E. change (SSH2_MSG_KEXINIT =? SSH2_MSG_KEXINIT) with true in E. cbv iota in E. run_in E.
  change (SSH2_MSG_KEXINIT =? SSH2_MSG_NEWKEYS) with false in E. apply bind_ok in E as ([] & s1 & E1 & E). by apply run_inj in E as [_ <-].
Qed.

(** [kex_start_rekex] sends KEXINIT. *)
Lemma rekex_ok s s' :
  mux s = false -> (kex_done (kx s) = true -> Z.land (flags (kx s)) KEX_INIT_SENT = 0) -> kex_start_rekex s = (Ok tt, s') ->
  exists p, packet_type p = SSH2_MSG_KEXINIT /\ emits s [p] s' /\ rekeying s' = true /\ outgoing s' = outgoing s /\
    mux s' = mux s /\ kex_done (kx s') = false.
Proof.
  intros Hm Hfl E. unfold kex_start_rekex in E. run_in E. destruct (kex_done (kx s)) eqn:Ed; [|done]. cbn [negb] in E. run_in E.
  unfold kex_send_kexinit in E. run_in E. cbn [kx set_kx flags set_flow] in E. rewrite (Hfl eq_refl) in E.
  change (negb (0 =? 0)) with false in E. cbv iota in E. run_in E. cbn [my set_flow] in E. destruct (_ <? _); [done|].
  destruct (sshbuf_mutable_ptr _) as [ptr|]; [|done]. apply bind_ok in E as (cookie & s1 & E1 & E). apply run_inj in E1 as [<- <-].
  cbv zeta in E. run_in E. set (b := snd (buf_write _ _ _)) in E. apply bind_ok in E as ([] & s2 & E2 & E). apply run_inj in E2 as [_ <-].
  apply bind_ok in E as ([] & s3 & E3 & E). unfold sshpkt_put in E3. run_in E3. destruct (bput _ _) as [o|] eqn:Eb in E3; [|done].
  run_in E3. apply run_inj in E3 as [_ <-]. apply bput_ok in Eb as [-> _]. apply bind_ok in E as ([] & s4 & E4 & E).
  apply send_kexinit_ok in E4; [|done|done].
  match type of E4 with ssh_packet_send2_wrapped ?x = _ => set (t := x) in E4 end.
  assert (packet_type (outgoing_packet t) = SSH2_MSG_KEXINIT) as Ht by reflexivity.
  assert (qview t = (mux s, true, outgoing s, false, flags (kx s)) /\ out_dir t = out_dir s /\ output t = output s) as (Hqt & Hod & Hou) by done.
  clearbody t. pose proof (wrapped_qview t) as Hv. rewrite E4, Hqt in Hv. injection Hv as V1 V2 V3 V4 V5.
  apply run_inj in E as [_ <-]. exists (outgoing_packet t). split; [done|]. split; [|done].
  apply (emits_packet s t s4 []); [by apply quiet_same|done|]. by apply emits_none, quiet_same.
Qed.

(** ** The queue *)

Lemma plain_not p : plain_packet p = true -> packet_type p <> SSH2_MSG_KEXINIT /\ packet_type p <> SSH2_MSG_NEWKEYS.
Proof. unfold plain_packet. intros Hp. split; intros E; by rewrite E in Hp. Qed.

Lemma plain_after b p : plain_packet p = true -> kex_after b p = b.
Proof. intros [N1 N2]%plain_not. unfold kex_after. by rewrite !(proj2 (Z.eqb_neq _ _)). Qed.

Lemma type_plain p ty : packet_type p = ty -> ssh_packet_type_is_kex ty = true -> plain_packet p = false.
Proof. unfold plain_packet. by intros -> ->. Qed.

(** What the calls of this file achieve, from [s] with [ps] to be sent. *)
Record ordered (s : ssh) (b : bool) (ps : list (list Z)) (s' : ssh) : Prop := {
  od_emits : exists pls, emits s pls s' /\ kex_rule b pls = Some (rekeying s') /\
    List.filter plain_packet pls ++ map snd (outgoing s') = ps;
  od_queue : queue_ok s'
}.

(** Emptying the queue. *)
Lemma send_queue_ok fuel s s' :
  mux s = false -> rekeying s = false -> (kex_done (kx s) = true -> Z.land (flags (kx s)) KEX_INIT_SENT = 0) ->
  Forall (fun p => plain_packet p = true) (map snd (outgoing s)) -> (length (outgoing s) <= fuel)%nat ->
  send_queue kex_start_rekex fuel s = (Ok tt, s') -> ordered s false (map snd (outgoing s)) s'.
Proof.
  revert s. induction fuel as [|fuel IH]; intros s Hm Hr Hfl Hpl Hlen E; cbn [send_queue] in E.
  { apply run_inj in E as [_ <-]. destruct (outgoing s) eqn:Eo; cbn in Hlen; [|lia].
    split; [|constructor; rewrite ?Eo; done]. exists []. rewrite Eo, Hr. split; [by apply emits_none, quiet_same|done]. }
  run_in E. destruct (outgoing s) as [|[ty p] rest] eqn:Eo.
  { apply run_inj in E as [_ <-]. split; [|constructor; rewrite ?Eo; done]. exists []. rewrite Eo, Hr. split; [by apply emits_none, quiet_same|done]. }
  destruct (ssh_packet_need_rekeying _ s).
  - destruct (rekex_ok s s' Hm Hfl E) as (k & Hk & Hem & Hr' & Ho' & Hm' & Hd').
    split; [|constructor; rewrite ?Ho', ?Hr', ?Hd', ?Hm', ?Eo; done].
    exists [k]. split; [done|]. rewrite Hr', Ho', Eo. cbn [kex_rule List.filter andb map snd].
    rewrite (type_plain k SSH2_MSG_KEXINIT) by done. unfold kex_after. by rewrite Hk.
  - run_in E. set (t := set_outgoing rest (set_outgoing_packet p s)) in E. apply bind_ok in E as ([] & s1 & E1 & E).
    pose proof (wrapped_qview t) as Hv. rewrite E1 in Hv. injection Hv as V1 V2 V3 V4 V5.
    cbn [map snd] in Hpl. apply Forall_cons in Hpl as [Hp Hpl].
    change (outgoing t) with rest in V3. cbn [length] in Hlen.
    destruct (IH s1) as [(pls & Hem & Hrule & Hfil) Hq]; [by rewrite V1|by rewrite V2|by rewrite V4, V5|by rewrite V3|rewrite V3; lia|done|].
    split; [|done]. exists (p :: pls). split; [|split].
    + change p with (outgoing_packet t). eapply emits_packet; [by apply (quiet_same s t)|done|done].
    + cbn [kex_rule andb]. by rewrite plain_after.
    + cbn [List.filter map snd]. rewrite Hp, <- V3, <- Hfil. done.
Qed.

(** A packet that must wait. *)
Lemma send2_waits s s' (need : bool) :
  queue_ok s -> plain_packet (outgoing_packet s) = true -> need || rekeying s = true ->
  (if need then kex_start_rekex else mret tt)
    (set_outgoing_packet [] (set_outgoing (outgoing s ++ [(packet_type (outgoing_packet s), outgoing_packet s)]) s)) = (Ok tt, s') ->
  ordered s (rekeying s) (map snd (outgoing s) ++ [outgoing_packet s]) s'.
Proof.
  intros [Q1 Q2 Q3 Q4] Hpl Hn E. set (p := outgoing_packet s) in *. set (t := set_outgoing_packet [] _) in E.
  assert (map snd (outgoing t) = map snd (outgoing s) ++ [p]) as Ho by (cbn; by rewrite map_app).
  assert (Forall (fun p => plain_packet p = true) (map snd (outgoing t))) as Hall by (rewrite Ho; apply Forall_app_2; [done|by apply Forall_singleton]).
  destruct need.
  - destruct (rekex_ok t s') as (k & Hk & Hem & Hr' & Ho' & Hm' & Hd'); [done..|].
    split; [|constructor; rewrite ?Ho', ?Hr', ?Hd', ?Hm'; done]. exists [k]. split.
    + change [k] with ([] ++ [k]). eapply emits_app; [by apply emits_none, (quiet_same s t)|done].
    + rewrite Hr', Ho', Ho. cbn [kex_rule List.filter app]. rewrite (type_plain k SSH2_MSG_KEXINIT) by done. rewrite andb_false_r.
      unfold kex_after. by rewrite Hk.
  - apply run_inj in E as [_ <-]. cbn [orb] in Hn. split; [|constructor; done]. exists []. rewrite Ho. split; [by apply emits_none, quiet_same|].
    split; [|done]. done.
Qed.

(** A packet that is sent at once. *)
Lemma send2_now s s' :
  queue_ok s -> (plain_packet (outgoing_packet s) = true -> rekeying s = false) ->
  (_ ← (if packet_type (outgoing_packet s) =? SSH2_MSG_KEXINIT then modify (set_rekeying true) else mret tt);
   _ ← ssh_packet_send2_wrapped;
   if packet_type (outgoing_packet s) =? SSH2_MSG_NEWKEYS then
     _ ← modify (fun s => set_rekey_time (now s) (set_rekeying false s));
     s ← se_get;
     send_queue kex_start_rekex (length (outgoing s))
   else mret tt) s = (Ok tt, s') ->
  ordered s (rekeying s) (map snd (outgoing s) ++ List.filter plain_packet [outgoing_packet s]) s'.
Proof.
  intros [Q1 Q2 Q3 Q4] Hnow E. set (p := outgoing_packet s) in *.
  set (b := if packet_type p =? SSH2_MSG_KEXINIT then true else rekeying s).
  apply bind_ok in E as ([] & t & Et & E).
  assert (outgoing_packet t = p /\ quiet s t /\ qview t = (mux s, b, outgoing s, kex_done (kx s), flags (kx s))) as (Hpt & Hqt & Hvt).
  { unfold b. destruct (packet_type p =? SSH2_MSG_KEXINIT); apply run_inj in Et as [_ <-]; (split; [done|]; split; [by apply quiet_same|done]). }
  clear Et. apply bind_ok in E as ([] & s1 & E1 & E). pose proof (wrapped_qview t) as Hv. rewrite E1, Hvt in Hv. injection Hv as V1 V2 V3 V4 V5.
  assert (rekeying s && plain_packet p = false) as Hallow by (destruct (plain_packet p); [rewrite Hnow by done|]; by rewrite ?andb_false_r).
  assert (outgoing s = [] \/ plain_packet p = false) as Hempty.
  { destruct (plain_packet p); [left|by right]. destruct (outgoing s) eqn:Eo; [done|]. rewrite Q2 in Hnow by done. by specialize (Hnow eq_refl). }
  assert (forall x, emits s1 x s' -> emits s (p :: x) s') as Hem by (intros x Hx; rewrite <- Hpt; by eapply emits_packet).
  destruct (Z.eqb_spec (packet_type p) SSH2_MSG_NEWKEYS) as [Ety|Ety].
  - run_in E. set (u := set_rekey_time _ _) in E. pose proof (type_plain p SSH2_MSG_NEWKEYS Ety eq_refl) as Hpl.
    destruct (send_queue_ok (length (outgoing u)) u s') as [(pls & He & Hrule & Hfil) Hq];
      [by rewrite <- Q1, <- V1|done|cbn; by rewrite V4, V5|cbn; by rewrite V3|done|done|].
    split; [|done]. exists (p :: pls). split; [|split].
    + apply Hem. change pls with ([] ++ pls). eapply emits_app; [by apply emits_none, (quiet_same s1 u)|done].
    + cbn [kex_rule]. rewrite Hallow. unfold kex_after. by rewrite Ety.
    + cbn [List.filter]. rewrite Hpl, app_nil_r, Hfil. cbn. by rewrite V3.
  - apply run_inj in E as [_ <-]. split.
    + exists [p]. split; [by apply Hem, emits_none, quiet_same|]. split.
      * cbn [kex_rule]. rewrite Hallow, V2. unfold kex_after, b. by rewrite (proj2 (Z.eqb_neq _ _) Ety).
      * rewrite V3. cbn [List.filter]. destruct Hempty as [-> | ->]; [by rewrite app_nil_r|]. by rewrite app_nil_r.
    + constructor; rewrite ?V1, ?V2, ?V3, ?V4, ?V5; try done. intros Hne. unfold b. rewrite (Q2 Hne). by destruct (_ =? _).
Qed.

Lemma send2_ok s s' :
  queue_ok s -> ssh_packet_send2 s = (Ok tt, s') ->
  ordered s (rekeying s) (map snd (outgoing s) ++ List.filter plain_packet [outgoing_packet s]) s'.
Proof.
  intros Hq E. unfold ssh_packet_send2, send2_body in E. run_in E. destruct (_ <? 6); [done|]. fold (packet_type (outgoing_packet s)) in E.
  fold (plain_packet (outgoing_packet s)) in E. destruct (plain_packet (outgoing_packet s)) eqn:Hpl; cbn [andb] in E.
  - rewrite andb_true_r in E. destruct (ssh_packet_need_rekeying _ s || rekeying s) eqn:Hn.
    + destruct (negb (malloc_ok SIZEOF_PACKET)); [done|]. run_in E. destruct sshbuf_new; [|done]. run_in E.
      cbn [List.filter]. rewrite Hpl. apply (send2_waits s s' _ Hq Hpl Hn). exact E.
    + apply send2_now; [done|intros _; apply orb_false_iff in Hn; tauto|exact E].
  - rewrite andb_false_r in E. apply send2_now; [done|by rewrite Hpl|exact E].
Qed.

(** ** Sequences of calls *)

(** The packets [ps] are given to [ssh_packet_send2] one after the other; between
    the calls packets are composed, bytes are written and received, and the key
    exchange proceeds. *)
Inductive sends (s : ssh) : list (list Z) -> ssh -> Prop :=
| sends_none : sends s [] s
| sends_call ps t t' : sends s ps t -> ssh_packet_send2 t = (Ok tt, t') -> sends s (ps ++ [outgoing_packet t]) t'
| sends_other ps t t' :
    sends s ps t -> quiet t t' -> mux t' = mux t -> rekeying t' = rekeying t -> outgoing t' = outgoing t ->
    (kex_done (kx t') = true -> Z.land (flags (kx t')) KEX_INIT_SENT = 0) -> sends s ps t'.

Lemma kex_rule_app b a c : kex_rule b (a ++ c) = match kex_rule b a with Some b' => kex_rule b' c | None => None end.
Proof. revert b. induction a as [|p a IH]; intros b; cbn [kex_rule app]; [done|]. by destruct (b && plain_packet p). Qed.

Lemma sends_ordered s ps s' : queue_ok s -> sends s ps s' ->
  ordered s (rekeying s) (map snd (outgoing s) ++ List.filter plain_packet ps) s'.
Proof.
  intros Hq. induction 1 as [|ps t t' _ [(pls & He & Hr & Hf) Hqt] E|ps t t' _ [(pls & He & Hr & Hf) Hqt] Hqu Hm Hre Ho Hfl].
  - split; [|done]. exists []. rewrite app_nil_r. split; [by apply emits_none, quiet_same|done].
  - destruct (send2_ok t t' Hqt E) as [(pls' & He' & Hr' & Hf') Hq']. split; [|done]. exists (pls ++ pls').
    split; [by eapply emits_app|]. split; [by rewrite kex_rule_app, Hr|].
    rewrite !List.filter_app, <- app_assoc, Hf', (app_assoc (List.filter plain_packet pls)), Hf, <- app_assoc. done.
  - split; [|destruct Hqt; constructor; rewrite ?Hm, ?Hre, ?Ho; done]. exists pls. rewrite Hre, Ho.
    split; [|done]. rewrite <- (app_nil_r pls). eapply emits_app; [done|by apply emits_none].
Qed.
(** C28: packets around a key exchange.  Whatever packets are given to
    [ssh_packet_send2] in whatever states of the key exchange, as long as the
    calls succeed: between a KEXINIT and the next NEWKEYS that an end sends, it
    sends nothing but transport messages other than service requests, service
    accepts and extension information; and the other packets leave in the order
    in which they were given, none lost or repeated, those not yet sent waiting
    in the queue.  Packets wait only while a key exchange runs. *)
Theorem kex_queue_order s ps s' : queue_ok s -> sends s ps s' ->
  (exists pls, emits s pls s' /\ kex_rule (rekeying s) pls = Some (rekeying s') /\
     List.filter plain_packet pls ++ map snd (outgoing s') = map snd (outgoing s) ++ List.filter plain_packet ps) /\
  (outgoing s' <> [] -> rekeying s' = true).
Proof.
  intros Hq Hs. destruct (sends_ordered s ps s' Hq Hs) as [Hrun [_ Hw _ _]]. done.
Qed.
End queue.

#[local] Existing Instances alloc_all toy_evp toy_uninit toy_digest toy_umac toy_zlib toy_random toy_fellows.

(** A channel packet given before the first key exchange is over leaves after
    NEWKEYS. *)
Definition queue_p : list Z := [0; 0; 0; 0; 0; 94; 1].
Definition queue_s1 : ssh := snd (ssh_packet_send2 (set_outgoing_packet queue_p plain_session)).
Definition queue_t : ssh :=
  set_outgoing_packet [0; 0; 0; 0; 0; SSH2_MSG_NEWKEYS] (set_kx (set_newkeys MODE_OUT (Some demo_keys) (kx queue_s1)) queue_s1).
Definition queue_s2 : ssh := snd (ssh_packet_send2 queue_t).

Lemma kex_queue_order_witness :
  exists pls, emits plain_session pls queue_s2 /\ kex_rule true pls = Some false /\ List.filter plain_packet pls = [queue_p].
Proof.
  assert (sends plain_session [queue_p; [0; 0; 0; 0; 0; SSH2_MSG_NEWKEYS]] queue_s2) as Hs.
  { apply (sends_call _ [queue_p] queue_t queue_s2); [|unfold queue_s2; apply pair_eq; vm_compute; reflexivity].
    apply (sends_other _ _ queue_s1); [|by apply quiet_same|reflexivity|reflexivity|reflexivity|vm_compute; discriminate].
    apply (sends_call _ [] (set_outgoing_packet queue_p plain_session) queue_s1); [|unfold queue_s1; apply pair_eq; vm_compute; reflexivity].
    apply (sends_other _ _ plain_session); [apply sends_none|by apply quiet_same|reflexivity|reflexivity|reflexivity|vm_compute; discriminate]. }
  assert (queue_ok plain_session) as Hq by (constructor; [reflexivity|intros X; by destruct X|vm_compute; discriminate|constructor]).
  destruct (kex_queue_order plain_session _ queue_s2 Hq Hs) as [(pls & He & Hr & Hf) _].
  exists pls. split; [exact He|]. assert (rekeying queue_s2 = false) as Er by (vm_compute; reflexivity). rewrite Er in Hr.
    assert (outgoing queue_s2 = []) as Eo by (vm_compute; reflexivity). rewrite Eo, app_nil_r in Hf. split; [exact Hr|exact Hf].
Defined.
