(* ===== verification/Dh.v ===== *)
(** Diffie-Hellman groups for the group exchange: dh.c, [kex_dh_compute_key] of
    kexdh.c and the bignums of sshbuf-getput-crypto.c.

    A BIGNUM is a number and a DH object its parameters and key; the
    computations in the group are libcrypto's and are parameters, as is the
    choice of a group from the file of moduli. *)

From S2P Require Import Prelude Sshbuf SshbufGetPut Bitmap Digest Cipher Kex Packet.
Local Open Scope Z_scope.

Definition DH_GRP_MIN : Z := 2048.
Definition DH_GRP_MAX : Z := 8192.

(** A u_int that is passed as an int. *)
Definition as_int (x : Z) : Z := if u32 x >? INT_MAX then u32 x - 2 ^ 32 else u32 x.

Record DH := mk_dh { dh_p : Z; dh_g : Z; dh_length : Z; pub_key : option Z; priv_key : option Z }.
Definition dh_set_length (v : Z) (d : DH) : DH := mk_dh (dh_p d) (dh_g d) v (pub_key d) (priv_key d).
Definition dh_set_key (pub priv : Z) (d : DH) : DH := mk_dh (dh_p d) (dh_g d) (dh_length d) (Some pub) (Some priv).

(** ** Parameters *)

Class OpensslDh := {
  BN_new_ok : bool;                               (* a bignum can be allocated *)
  DH_new_ok : bool;
  DH_set0_pqg_ok : Z -> Z -> bool;                (* modulus, generator *)
  DH_set_length_ok : DH -> Z -> bool;
  DH_size : DH -> Z;
  DH_generate_key : Z -> DH -> option (Z * Z);    (* random numbers; public and private part *)
  DH_compute_key : DH -> Z -> option (list Z);
  choose_dh : Z -> Z -> Z -> Z -> option DH       (* random numbers; min, wantbits, max *)
}.

(** ** Bignums *)

Definition BN_bin2bn (d : list Z) : Z := of_bytes d.
Definition BN_bn2bin (v : Z) : list Z := to_bytes v.
Definition BN_num_bits (v : Z) : Z := nbits v.

(** What is put in the string of a bignum. *)
Definition bn_wire (v : Z) : list Z := let d := BN_bn2bin v in if msb_set d then 0 :: d else d.

Section dh.
Context `{Allocator} `{EvpCipher} `{Uninit} `{EvpDigest} `{Umac} `{Zlib} `{OpensslDh}.

Definition sshbuf_put_bignum2 (v : Z) : SE sshbuf unit :=
  if zlen (BN_bn2bin v) >? SSHBUF_MAX_BIGNUM then se_err SSH_ERR_INVALID_ARGUMENT else sshbuf_put_string (bn_wire v).

Definition sshpkt_put_bignum2 (v : Z) : SE ssh unit :=
  if zlen (BN_bn2bin v) >? SSHBUF_MAX_BIGNUM then fail SSH_ERR_INVALID_ARGUMENT else sshpkt_put_cstring (bn_wire v).

(** [sshbuf_get_bignum2] on the packet that is read. *)
Definition sshpkt_get_bignum2 : SE ssh Z :=
  s ← se_get;
  let b := incoming_packet s in
  if zlen b <? 4 then fail SSH_ERR_MESSAGE_INCOMPLETE
  else
    let len := PEEK_U32 b in
    if len >? SSHBUF_SIZE_MAX - 4 then fail SSH_ERR_STRING_TOO_LARGE
    else if zlen b - 4 <? len then fail SSH_ERR_MESSAGE_INCOMPLETE
    else
      let d := slice 4 len b in
      if negb (len =? 0) && negb (Z.land (znth d 0) 0x80 =? 0) then fail SSH_ERR_BIGNUM_IS_NEGATIVE
      else if (len >? SSHBUF_MAX_BIGNUM + 1) || ((len =? SSHBUF_MAX_BIGNUM + 1) && negb (znth d 0 =? 0)) then
        fail SSH_ERR_BIGNUM_TOO_LARGE
      else
        _ ← sshpkt_get (len + 4);
        if BN_new_ok then mret (BN_bin2bn (skip_zeros d)) else fail SSH_ERR_ALLOC_FAIL.

(** ** dh.c *)

Definition dh_estimate (bits : Z) : Z :=
  if bits <=? 112 then 2048 else if bits <=? 128 then 3072 else if bits <=? 192 then 7680 else 8192.

Definition dh_new_group (gen modulus : Z) : option DH :=
  if DH_new_ok && DH_set0_pqg_ok modulus gen then Some (mk_dh modulus gen 0 None None) else None.

Fixpoint bits_set (n : nat) (i v : Z) : Z :=
  match n with O => 0 | S n => (if Z.testbit v i then 1 else 0) + bits_set n (i + 1) v end.

Definition dh_pub_is_valid (d : DH) (pub : Z) : bool :=
  if pub <? 0 then false
  else if pub <=? 1 then false
  else if negb BN_new_ok then false
  else if negb (pub <? dh_p d - 1) then false
  else negb (bits_set (Z.to_nat (BN_num_bits pub + 1)) 0 pub <? 4).

Definition dh_gen_key (n need : Z) (d : DH) : result DH :=
  let pbits := BN_num_bits (dh_p d) in
  if (need <? 0) || (pbits <=? 0) || (need >? INT_MAX ÷ 2) || (2 * need >? pbits) then Err SSH_ERR_INVALID_ARGUMENT
  else
    let need := if need <? 256 then 256 else need in
    let len := MINIMUM (need * 2) (pbits - 1) in
    if negb (DH_set_length_ok d len) then Err SSH_ERR_LIBCRYPTO_ERROR
    else
      let d := dh_set_length len d in
      match DH_generate_key n d with
      | None => Err SSH_ERR_LIBCRYPTO_ERROR
      | Some (pub, priv) => if dh_pub_is_valid d pub then Ok (dh_set_key pub priv d) else Err SSH_ERR_INVALID_FORMAT
      end.

(** ** kexdh.c *)

Definition kex_dh_compute_key (d : DH) (dh_pub : Z) : SE sshbuf unit :=
  if negb (dh_pub_is_valid d dh_pub) then se_err SSH_ERR_MESSAGE_INCOMPLETE
  else if negb (malloc_ok (DH_size d)) || negb BN_new_ok then se_err SSH_ERR_ALLOC_FAIL
  else
    match DH_compute_key d dh_pub with
    | None => se_err SSH_ERR_LIBCRYPTO_ERROR
    | Some kbuf => sshbuf_put_bignum2 (BN_bin2bn kbuf)
    end.

(** ** What is known of a group and a key *)

(** A public value that is accepted lies in the group and is no small power of 2. *)
Lemma dh_pub_valid_range d pub : dh_pub_is_valid d pub = true -> 1 < pub < dh_p d - 1.
Proof.
  unfold dh_pub_is_valid. destruct (Z.ltb_spec pub 0); [done|]. destruct (Z.leb_spec pub 1); [done|]. destruct BN_new_ok; [|done].
  cbn [negb]. destruct (Z.ltb_spec pub (dh_p d - 1)); [|done]. lia.
Qed.

Lemma dh_gen_key_ok n need d d' : dh_gen_key n need d = Ok d' ->
  dh_p d' = dh_p d /\ dh_g d' = dh_g d /\ exists pub priv, pub_key d' = Some pub /\ priv_key d' = Some priv /\ 1 < pub < dh_p d - 1.
Proof.
  unfold dh_gen_key. destruct (_ || _ || _ || _); [done|]. destruct (negb _); [done|].
  destruct (DH_generate_key _ _) as [[pub priv]|]; [|done]. destruct (dh_pub_is_valid _ _) eqn:E; [|done]. intros [= <-].
  apply dh_pub_valid_range in E. eauto 8.
Qed.

(** A bignum that was put into a buffer. *)
Definition enc_mpint (v : Z) : list Z := enc_string (bn_wire v).
End dh.
