(* ===== verification/KexFlow.v ===== *)
(** Message dispatch (dispatch.c), the messages around a key exchange (kex.c) and
    the key exchange methods: those in one round (kexgen.c) and the group exchange
    (kexgex.c, kexgexc.c, kexgexs.c).

    A connection is a session with its dispatch table and the parts of the key
    exchange that only these files use.  The key agreement of kexgen.c
    (Diffie-Hellman in a fixed group, elliptic curves), the host keys and the
    handlers of other files are parameters. *)

From Stdlib Require Import String.
From S2P Require Import Prelude Match Sshbuf SshbufGetPut AlgNames Digest ChaCha Poly1305 ChachaPoly Cipher Kex Packet Dh.
Local Open Scope Z_scope.

Definition DISPATCH_MAX : Z := 255.
Definition SSH2_MSG_KEX_ECDH_INIT : Z := 30.
Definition SSH2_MSG_KEX_ECDH_REPLY : Z := 31.
Definition SSH2_MSG_KEX_DH_GEX_GROUP : Z := 31.
Definition SSH2_MSG_KEX_DH_GEX_INIT : Z := 32.
Definition SSH2_MSG_KEX_DH_GEX_REPLY : Z := 33.
Definition SSH2_MSG_KEX_DH_GEX_REQUEST : Z := 34.
Definition srv_extinfo_pkalgs : cstring := str "publickey-algorithms@roumenpetrov.info".

(** The handlers that are put into the table; [HOther] are those of other files. *)
Inductive handler :=
| HDispatchError | HDispatchIgnore | HKexError | HKexinit | HNewkeys | HExtInfo | HGenReply | HGenInit
| HGexGroup | HGexReply | HGexRequest | HGexInit | HOther (n : Z).
#[global] Instance handler_eq_dec : EqDecision handler.
Proof. solve_decision. Defined.

(** The functions registered in [kex->kex]. *)
Inductive kex_method := GenClient | GenServer | GexClient | GexServer.

(** * Parameters *)

(** The key agreement methods that kexgen.c calls: a key pair of the client, the
    server's answer to its public part, and the client's use of the answer.  The
    first argument counts the random numbers drawn. *)
Class KexKem := {
  kem_key : Type;
  kem_keypair : Z -> kex -> result (kem_key * list Z);                 (* kex_*_keypair *)
  kem_enc : Z -> kex -> list Z -> result (list Z * list Z);            (* kex_*_enc: public part, shared secret *)
  kem_dec : kem_key -> kex -> list Z -> result (list Z)                (* kex_*_dec: shared secret *)
}.

(** Host keys: the functions of sshkey.c and ssh-x509.c and the callbacks in
    [struct kex]. *)
Class HostKeys := {
  hostkey : Type;
  Xkey_from_blob : option cstring -> list Z -> result hostkey;
  Xkey_putb : option cstring -> hostkey -> result (list Z);
  Xkey_verify : option cstring -> hostkey -> list Z -> list Z -> result unit;   (* signature, data *)
  xsign : option cstring -> option hostkey -> hostkey -> list Z -> result (list Z);
  sshkey_match_pkalg : hostkey -> option cstring -> bool;
  verify_host_key : option (hostkey -> bool);
  find_host_public_key : option (option cstring -> option hostkey);
  find_host_private_key : option (option cstring -> option hostkey)
}.

(** [kex->kex], [server_pkalgs], and of the peer [SSHX_OPENSSH_BROKEN_ALGO_INFO],
    [SSH_BUG_DHGEX_LARGE] and [SSH_OLD_DHGEX]. *)
Class KexConfig := {
  kex_methods : kex_exchange -> option kex_method;
  server_pkalgs : option cstring;
  broken_algo_info : bool;
  bug_dhgex_large : bool;
  old_dhgex : bool
}.

(** [kex->min], [kex->nbits], [kex->max] and [kex->dh]. *)
Record gex_state := mk_gex { gex_min : Z; gex_nbits : Z; gex_max : Z; gex_dh : option DH }.
Definition gex_set_dh (v : option DH) (g : gex_state) : gex_state := mk_gex (gex_min g) (gex_nbits g) (gex_max g) v.
Definition gex_set_sizes (min nbits max : Z) (g : gex_state) : gex_state := mk_gex min nbits max (gex_dh g).

Section flow.
Context `{Allocator} `{EvpCipher} `{Uninit} `{EvpDigest} `{Umac} `{Zlib} `{Random} `{Fellows} `{HostKeyNames} `{KexKem} `{OpensslDh} `{HostKeys} `{KexConfig}.

(** * Connections *)

Record conn := mk_conn {
  cn : ssh; table : list (option handler); skip_packets : Z; pkalgs : option cstring;
  client_version : list Z; server_version : list Z; client_pub : option (list Z); client_key : option kem_key;
  gex : gex_state; crashed : bool
}.

Definition set_cn (v : ssh) (c : conn) : conn :=
  mk_conn v (table c) (skip_packets c) (pkalgs c) (client_version c) (server_version c) (client_pub c) (client_key c) (gex c) (crashed c).
Definition set_table (v : list (option handler)) (c : conn) : conn :=
  mk_conn (cn c) v (skip_packets c) (pkalgs c) (client_version c) (server_version c) (client_pub c) (client_key c) (gex c) (crashed c).
Definition set_skip (v : Z) (c : conn) : conn :=
  mk_conn (cn c) (table c) v (pkalgs c) (client_version c) (server_version c) (client_pub c) (client_key c) (gex c) (crashed c).
Definition set_pkalgs (v : option cstring) (c : conn) : conn :=
  mk_conn (cn c) (table c) (skip_packets c) v (client_version c) (server_version c) (client_pub c) (client_key c) (gex c) (crashed c).
Definition set_client (p : option (list Z)) (k : option kem_key) (c : conn) : conn :=
  mk_conn (cn c) (table c) (skip_packets c) (pkalgs c) (client_version c) (server_version c) p k (gex c) (crashed c).
Definition set_gex (v : gex_state) (c : conn) : conn :=
  mk_conn (cn c) (table c) (skip_packets c) (pkalgs c) (client_version c) (server_version c) (client_pub c) (client_key c) v (crashed c).
Definition set_crashed (c : conn) : conn :=
  mk_conn (cn c) (table c) (skip_packets c) (pkalgs c) (client_version c) (server_version c) (client_pub c) (client_key c) (gex c) true.

Definition on_ssh {A} (m : SE ssh A) : SE conn A := fun c => let '(r, s) := m (cn c) in (r, set_cn s c).
Definition on_kx {A} (m : SE kex A) : SE conn A := fun c =>
  let '(r, k) := m (kx (cn c)) in (r, set_cn (set_kx k (cn c)) c).
Definition change (f : conn -> conn) : SE conn unit := se_modify f.
Definition stop {A} (e : ssherr) : SE conn A := fun c => (Err e, c).
Definition give {A} (r : result A) : SE conn A := fun c => (r, c).
(** The process dies on a null pointer. *)
Definition crash {A} : SE conn A := fun c => (Err SSH_ERR_INTERNAL_ERROR, set_crashed c).

(** * The table (dispatch.c) *)

Definition ssh_dispatch_init (dflt : option handler) : conn -> conn := set_table (replicate (Z.to_nat DISPATCH_MAX) dflt).

Fixpoint range_loop (n : nat) (i : Z) (fn : option handler) (t : list (option handler)) : list (option handler) :=
  match n with
  | O => t
  | S n => if i >=? DISPATCH_MAX then t else range_loop n (i + 1) fn (<[Z.to_nat i := fn]> t)
  end.
Definition ssh_dispatch_range (from to : Z) (fn : option handler) : conn -> conn := fun c =>
  set_table (range_loop (Z.to_nat (to - from + 1)) from fn (table c)) c.

Definition ssh_dispatch_set (type : Z) (fn : option handler) : conn -> conn := fun c =>
  set_table (<[Z.to_nat type := fn]> (table c)) c.

Definition unimplemented (seq : Z) : SE ssh unit :=
  _ ← sshpkt_start SSH2_MSG_UNIMPLEMENTED; _ ← sshpkt_put_u32 seq; sshpkt_send.

(** A failure ends the process there. *)
Definition dispatch_protocol_error (seq : Z) : SE conn unit := _ ← on_ssh (unimplemented seq); on_ssh ssh_packet_write_wait.
Definition dispatch_protocol_ignore : SE conn unit := mret tt.

(** * Messages of the key exchange (kex.c) *)

Definition kex_protocol_error (seq : Z) : SE conn unit := on_ssh (unimplemented seq).

Definition kex_reset_dispatch : conn -> conn := ssh_dispatch_range SSH2_MSG_TRANSPORT_MIN SSH2_MSG_TRANSPORT_MAX (Some HKexError).

Definition kex_send_ext_info : SE conn unit :=
  match server_pkalgs with
  | None => mret tt
  | Some algs =>
      on_ssh (_ ← sshpkt_start SSH2_MSG_EXT_INFO;
              _ ← sshpkt_put_u32 2;
              _ ← sshpkt_put_cstring srv_extinfo_pkalgs;
              _ ← sshpkt_put_cstring algs;
              _ ← sshpkt_put_cstring (str "server-sig-algs");
              _ ← sshpkt_put_cstring algs;
              sshpkt_send)
  end.

Definition kex_send_newkeys : SE conn unit :=
  _ ← change kex_reset_dispatch;
  _ ← on_ssh (_ ← sshpkt_start SSH2_MSG_NEWKEYS; sshpkt_send);
  _ ← change (ssh_dispatch_set SSH2_MSG_NEWKEYS (Some HNewkeys));
  c ← se_get;
  if ext_info_c (kx (cn c)) && negb (Z.land (flags (kx (cn c))) KEX_INITIAL =? 0) then kex_send_ext_info else mret tt.

(** The known names of a list, separated by commas. *)
Definition known_names (names : cstring) : option cstring :=
  match flat_map (fun alg => if hostkey_known alg then alg ++ [44] else []) (tokens names) with
  | [] => None
  | l => Some (ztake (zlen l - 1) l)
  end.

Definition preset_pkalgs (algs : option cstring) : conn -> conn := set_pkalgs (algs ≫= known_names).

Definition sshpkt_get_cstring : SE ssh (list Z) :=
  s ← se_get;
  let b := incoming_packet s in
  if zlen b <? 4 then fail SSH_ERR_MESSAGE_INCOMPLETE
  else
    let len := PEEK_U32 b in
    if len >? SSHBUF_SIZE_MAX - 4 then fail SSH_ERR_STRING_TOO_LARGE
    else if zlen b - 4 <? len then fail SSH_ERR_MESSAGE_INCOMPLETE
    else
      let p := slice 4 len b in
      if (zlen p >? 0) && match memchr 0 p with Some z => z <? zlen p - 1 | None => false end then fail SSH_ERR_INVALID_FORMAT
      else _ ← sshpkt_get 4; sshpkt_get len.

(** The extensions: the values of the two that are known.  Every round takes eight
    bytes or more from the packet, so [fuel] is its length. *)
Fixpoint ext_info_loop (fuel : nat) (ninfo : Z) (algs sigalgs : option cstring) : SE ssh (option cstring * option cstring) :=
  match fuel with
  | O => mret (algs, sigalgs)
  | S fuel =>
      if ninfo =? 0 then mret (algs, sigalgs)
      else
        name ← sshpkt_get_cstring;
        val ← sshpkt_get_string;
        if bool_decide (cstr name = srv_extinfo_pkalgs) then
          if bool_decide (is_Some (memchr 0 val)) then fail SSH_ERR_INVALID_FORMAT
          else ext_info_loop fuel (ninfo - 1) (Some val) sigalgs
        else if bool_decide (cstr name = str "server-sig-algs") then
          if bool_decide (is_Some (memchr 0 val)) then fail SSH_ERR_INVALID_FORMAT
          else ext_info_loop fuel (ninfo - 1) algs (Some val)
        else ext_info_loop fuel (ninfo - 1) algs sigalgs
  end.

Definition openssh_algs : cstring :=
  str "ssh-ed25519,ssh-rsa,rsa-sha2-256,rsa-sha2-512,ssh-dss,ecdsa-sha2-nistp256,ecdsa-sha2-nistp384,ecdsa-sha2-nistp521".

Definition kex_input_ext_info : SE conn unit :=
  _ ← change (ssh_dispatch_set SSH2_MSG_EXT_INFO (Some HKexError));
  ninfo ← on_ssh sshpkt_get_u32;
  c ← se_get;
  '(algs, sigalgs) ← on_ssh (ext_info_loop (S (length (incoming_packet (cn c)))) ninfo None None);
  _ ← change (match algs with
              | Some _ => preset_pkalgs algs
              | None => preset_pkalgs (if broken_algo_info then Some openssh_algs else sigalgs)
              end);
  on_ssh sshpkt_get_end.

(** The end of a key exchange in [struct kex]. *)
Definition kex_finish (k : kex) : kex :=
  let k := set_flow true (Z.land (flags k) (Z.lnot KEX_INITIAL)) k in
  let k := set_bufs (my k) (sshbuf_reset (peer k)) k in
  let k := set_flow (kex_done k) (Z.land (flags k) (Z.lnot KEX_INIT_SENT)) k in
  set_alg None (kex_type k) (hash_alg k) (ec_nid k) (set_hostkey_alg None k).

Definition kex_input_newkeys : SE conn unit :=
  _ ← change (ssh_dispatch_set SSH2_MSG_NEWKEYS (Some HKexError));
  _ ← change (ssh_dispatch_set SSH2_MSG_KEXINIT (Some HKexinit));
  _ ← on_ssh sshpkt_get_end;
  _ ← on_ssh (ssh_set_newkeys MODE_IN);
  on_kx (se_modify kex_finish).

(** * Key exchange methods in one round (kexgen.c) *)

Definition gen_type (k : kex) : bool :=
  match kex_type k with KEX_DH_GEX_SHA1 | KEX_DH_GEX_SHA256 => false | _ => true end.

Definition sshpkt_put_string (v : list Z) : SE ssh unit := sshpkt_put_cstring v.

(** A call of a key agreement function, which draws random numbers. *)
Definition drawing {A} (f : Z -> kex -> result A) : SE conn A := fun c =>
  if gen_type (kx (cn c)) then (f (draws (cn c)) (kx (cn c)), set_cn (set_draws (draws (cn c) + 1) (cn c)) c)
  else (Err SSH_ERR_INVALID_ARGUMENT, c).

(** The data of the exchange hash. *)
Definition put_transcript (cv sv ci si blob cpub spub secret : list Z) : SE sshbuf unit :=
  _ ← sshbuf_put_string cv;
  _ ← sshbuf_put_string sv;
  _ ← sshbuf_put_u32 (zlen ci + 1);
  _ ← sshbuf_put_u8 SSH2_MSG_KEXINIT;
  _ ← sshbuf_put ci;
  _ ← sshbuf_put_u32 (zlen si + 1);
  _ ← sshbuf_put_u8 SSH2_MSG_KEXINIT;
  _ ← sshbuf_put si;
  _ ← sshbuf_put_string blob;
  _ ← sshbuf_put_string cpub;
  _ ← sshbuf_put_string spub;
  sshbuf_put secret.

Definition kex_gen_hash (alg : Z) (cv sv ci si blob cpub spub secret : list Z) (hashlen : Z) : result (list Z) :=
  if hashlen <? ssh_digest_bytes alg then Err SSH_ERR_INVALID_ARGUMENT
  else
    match sshbuf_new with
    | None => Err SSH_ERR_ALLOC_FAIL
    | Some b =>
        match put_transcript cv sv ci si blob cpub spub secret b with
        | (Err e, _) => Err e
        | (Ok _, b) =>
            match ssh_digest_buffer alg b hashlen with Ok h => Ok h | Err _ => Err SSH_ERR_LIBCRYPTO_ERROR end
        end
    end.

Definition kex_gen_client : SE conn unit :=
  '(key, pub) ← drawing kem_keypair;
  _ ← change (set_client (Some pub) (Some key));
  _ ← on_ssh (_ ← sshpkt_start SSH2_MSG_KEX_ECDH_INIT; _ ← sshpkt_put_string pub; sshpkt_send);
  change (ssh_dispatch_set SSH2_MSG_KEX_ECDH_REPLY (Some HGenReply)).

Definition kex_verify_host_key (k : hostkey) : SE conn unit :=
  match verify_host_key with
  | None => stop SSH_ERR_INVALID_ARGUMENT
  | Some verify =>
      c ← se_get;
      if negb (sshkey_match_pkalg k (hostkey_alg (kx (cn c)))) then stop SSH_ERR_KEY_TYPE_MISMATCH
      else if negb (verify k) then stop SSH_ERR_SIGNATURE_INVALID
      else mret tt
  end.

Definition kex_load_host_keys : SE conn (hostkey * option hostkey) :=
  match find_host_public_key, find_host_private_key with
  | Some pub, Some priv =>
      c ← se_get;
      let alg := hostkey_alg (kx (cn c)) in
      match pub alg with
      | Some k => mret (k, priv alg)
      | None => stop SSH_ERR_NO_HOSTKEY_LOADED
      end
  | _, _ => stop SSH_ERR_INVALID_ARGUMENT
  end.

(** [kex_derive_keys] with the shared secret in a buffer; the keys are stored
    through the pointers [kex->newkeys]. *)
Definition derive (hash secret : list Z) : SE conn unit := fun c =>
  match sshbuf_from secret with
  | None => (Err SSH_ERR_ALLOC_FAIL, c)
  | Some b =>
      match kex_derive_keys hash b (kx (cn c)), newkeys_in (kx (cn c)), newkeys_out (kx (cn c)) with
      | (Ok _, k), Some _, Some _ => (Ok tt, set_cn (set_kx k (cn c)) c)
      | (Err e, k), _, _ => (Err e, set_cn (set_kx k (cn c)) c)
      | _, _, _ => crash c
      end
  end.

Definition reply_body : SE conn unit :=
  blob ← on_ssh sshpkt_get_string;
  c ← se_get;
  let alg := hostkey_alg (kx (cn c)) in
  key ← give (Xkey_from_blob alg blob);
  _ ← kex_verify_host_key key;
  spub ← on_ssh sshpkt_get_string;
  sig ← on_ssh sshpkt_get_string;
  _ ← on_ssh sshpkt_get_end;
  c ← se_get;
  let k := kx (cn c) in
  secret ← (if gen_type k then
              match client_key c with None => crash | Some ck => give (kem_dec ck k spub) end
            else stop SSH_ERR_INVALID_ARGUMENT);
  hash ← give (kex_gen_hash (hash_alg k) (client_version c) (server_version c) (contents (my k)) (contents (peer k)) blob
                 (default [] (client_pub c)) spub secret SSH_DIGEST_MAX_LENGTH);
  _ ← give (Xkey_verify alg key sig hash);
  _ ← derive hash secret;
  kex_send_newkeys.

(** The client key and its public part are discarded in any case. *)
Definition input_kex_gen_reply : SE conn unit := fun c =>
  let '(r, c) := reply_body c in (r, set_client None None c).

Definition kex_gen_server : SE conn unit := change (ssh_dispatch_set SSH2_MSG_KEX_ECDH_INIT (Some HGenInit)).

(** The parts of the reply: host key, public part of the server, signature. *)
Definition send_reply (blob spub sig : list Z) : SE ssh unit :=
  _ ← sshpkt_start SSH2_MSG_KEX_ECDH_REPLY;
  _ ← sshpkt_put_string blob;
  _ ← sshpkt_put_string spub;
  _ ← sshpkt_put_string sig;
  sshpkt_send.

Definition input_kex_gen_init : SE conn unit :=
  '(public, private) ← kex_load_host_keys;
  cpub ← on_ssh sshpkt_get_string;
  _ ← on_ssh sshpkt_get_end;
  '(spub, secret) ← drawing (fun n k => kem_enc n k cpub);
  c ← se_get;
  let k := kx (cn c) in
  blob ← give (Xkey_putb (hostkey_alg k) public);
  hash ← give (kex_gen_hash (hash_alg k) (client_version c) (server_version c) (contents (peer k)) (contents (my k)) blob
                 cpub spub secret SSH_DIGEST_MAX_LENGTH);
  sig ← give (xsign (hostkey_alg k) private public hash);
  _ ← on_ssh (send_reply blob spub sig);
  _ ← derive hash secret;
  kex_send_newkeys.

(** * Group exchange (kexgex.c, kexgexc.c, kexgexs.c) *)

(** A call that draws random numbers. *)
Definition draw {A} (f : Z -> A) : SE conn A := fun c =>
  (Ok (f (draws (cn c))), set_cn (set_draws (draws (cn c) + 1) (cn c)) c).
Definition set_kex_dh (v : option DH) : conn -> conn := fun c => set_gex (gex_set_dh v (gex c)) c.
Definition set_kex_sizes (min nbits max : Z) : conn -> conn := fun c => set_gex (gex_set_sizes min nbits max (gex c)) c.

(** -1 as a u_int: [min] and [max] are then left out. *)
Definition NO_SIZE : Z := 2 ^ 32 - 1.
Definition put_size (v : Z) : SE sshbuf unit := if v =? NO_SIZE then mret tt else sshbuf_put_u32 v.

Definition put_gex_transcript (cv sv ci si blob : list Z) (min wantbits max prime gen cpub spub : Z) (secret : list Z) : SE sshbuf unit :=
  _ ← sshbuf_put_string cv;
  _ ← sshbuf_put_string sv;
  _ ← sshbuf_put_u32 (zlen ci + 1);
  _ ← sshbuf_put_u8 SSH2_MSG_KEXINIT;
  _ ← sshbuf_put ci;
  _ ← sshbuf_put_u32 (zlen si + 1);
  _ ← sshbuf_put_u8 SSH2_MSG_KEXINIT;
  _ ← sshbuf_put si;
  _ ← sshbuf_put_string blob;
  _ ← put_size min;
  _ ← sshbuf_put_u32 wantbits;
  _ ← put_size max;
  _ ← sshbuf_put_bignum2 prime;
  _ ← sshbuf_put_bignum2 gen;
  _ ← sshbuf_put_bignum2 cpub;
  _ ← sshbuf_put_bignum2 spub;
  sshbuf_put secret.

Definition kexgex_hash (alg : Z) (cv sv ci si blob : list Z) (min wantbits max prime gen cpub spub : Z) (secret : list Z) (hashlen : Z)
    : result (list Z) :=
  if hashlen <? ssh_digest_bytes SSH_DIGEST_SHA1 then Err SSH_ERR_INVALID_ARGUMENT
  else
    match sshbuf_new with
    | None => Err SSH_ERR_ALLOC_FAIL
    | Some b =>
        match put_gex_transcript cv sv ci si blob min wantbits max prime gen cpub spub secret b with
        | (Err e, _) => Err e
        | (Ok _, b) =>
            match ssh_digest_buffer alg b hashlen with Ok h => Ok h | Err _ => Err SSH_ERR_LIBCRYPTO_ERROR end
        end
    end.

Definition kexgex_client : SE conn unit :=
  c ← se_get;
  let nbits := dh_estimate (as_int (dh_need (kx (cn c)) * 8)) in
  let nbits := if bug_dhgex_large then MINIMUM nbits 4096 else nbits in
  _ ← change (set_kex_sizes DH_GRP_MIN nbits DH_GRP_MAX);
  _ ← on_ssh (_ ← sshpkt_start SSH2_MSG_KEX_DH_GEX_REQUEST;
              _ ← sshpkt_put_u32 DH_GRP_MIN;
              _ ← sshpkt_put_u32 nbits;
              _ ← sshpkt_put_u32 DH_GRP_MAX;
              sshpkt_send);
  change (ssh_dispatch_set SSH2_MSG_KEX_DH_GEX_GROUP (Some HGexGroup)).

(** [dh_gen_key] on [kex->dh], with the strength that the ciphers need. *)
Definition gen_exchange_value (d : DH) : SE conn Z :=
  c ← se_get;
  r ← draw (fun n => dh_gen_key n (as_int (we_need (kx (cn c)) * 8)) d);
  d ← give r;
  _ ← change (set_kex_dh (Some d));
  match pub_key d with None => crash | Some pub => mret pub end.

Definition input_kex_dh_gex_group : SE conn unit :=
  p ← on_ssh sshpkt_get_bignum2;
  g ← on_ssh sshpkt_get_bignum2;
  _ ← on_ssh sshpkt_get_end;
  c ← se_get;
  if (BN_num_bits p <? gex_min (gex c)) || (BN_num_bits p >? gex_max (gex c)) then stop SSH_ERR_DH_GEX_OUT_OF_RANGE
  else
    _ ← change (set_kex_dh (dh_new_group g p));
    match dh_new_group g p with
    | None => stop SSH_ERR_ALLOC_FAIL
    | Some d =>
        pub ← gen_exchange_value d;
        _ ← on_ssh (_ ← sshpkt_start SSH2_MSG_KEX_DH_GEX_INIT; _ ← sshpkt_put_bignum2 pub; sshpkt_send);
        _ ← change (ssh_dispatch_set SSH2_MSG_KEX_DH_GEX_GROUP None);
        change (ssh_dispatch_set SSH2_MSG_KEX_DH_GEX_REPLY (Some HGexReply))
    end.

(** The shared secret, in a new buffer. *)
Definition gex_secret (d : DH) (pub : Z) : result (list Z) :=
  match sshbuf_new with
  | None => Err SSH_ERR_ALLOC_FAIL
  | Some b => match kex_dh_compute_key d pub b with (Ok _, b) => Ok (contents b) | (Err e, _) => Err e end
  end.

(** [kex->dh] and its public part, which the code does not test for NULL. *)
Definition kex_dh : SE conn (DH * Z) :=
  c ← se_get;
  match gex_dh (gex c) with
  | Some d => match pub_key d with Some pub => mret (d, pub) | None => crash end
  | None => crash
  end.

Definition gex_reply_body : SE conn unit :=
  blob ← on_ssh sshpkt_get_string;
  c ← se_get;
  let alg := hostkey_alg (kx (cn c)) in
  key ← give (Xkey_from_blob alg blob);
  _ ← kex_verify_host_key key;
  spub ← on_ssh sshpkt_get_bignum2;
  sig ← on_ssh sshpkt_get_string;
  _ ← on_ssh sshpkt_get_end;
  '(d, cpub) ← kex_dh;
  secret ← give (gex_secret d spub);
  _ ← (if old_dhgex then change (fun c => set_kex_sizes NO_SIZE (gex_nbits (gex c)) NO_SIZE c) else mret tt);
  c ← se_get;
  let k := kx (cn c) in
  hash ← give (kexgex_hash (hash_alg k) (client_version c) (server_version c) (contents (my k)) (contents (peer k)) blob
                 (gex_min (gex c)) (gex_nbits (gex c)) (gex_max (gex c)) (dh_p d) (dh_g d) cpub spub secret SSH_DIGEST_MAX_LENGTH);
  _ ← give (Xkey_verify alg key sig hash);
  _ ← derive hash secret;
  kex_send_newkeys.

(** The group is discarded in any case. *)
Definition freeing_dh (m : SE conn unit) : SE conn unit := fun c => let '(r, c) := m c in (r, set_kex_dh None c).

Definition input_kex_dh_gex_reply : SE conn unit := freeing_dh gex_reply_body.

Definition kexgex_server : SE conn unit := change (ssh_dispatch_set SSH2_MSG_KEX_DH_GEX_REQUEST (Some HGexRequest)).

(** The request stays registered: a client may ask again. *)
Definition input_kex_dh_gex_request : SE conn unit :=
  min ← on_ssh sshpkt_get_u32;
  nbits ← on_ssh sshpkt_get_u32;
  max ← on_ssh sshpkt_get_u32;
  _ ← on_ssh sshpkt_get_end;
  _ ← change (set_kex_sizes min nbits max);
  if (max <? min) || (nbits <? min) || (max <? nbits) || (max <? DH_GRP_MIN) then stop SSH_ERR_DH_GEX_OUT_OF_RANGE
  else
    o ← draw (fun n => choose_dh n (as_int (MAXIMUM DH_GRP_MIN min)) (MINIMUM DH_GRP_MAX (MAXIMUM DH_GRP_MIN nbits))
                         (MINIMUM DH_GRP_MAX max));
    _ ← change (set_kex_dh o);
    match o with
    | None => _ ← on_ssh (ignore_result (sshpkt_disconnect (str "no matching DH grp found"))); stop SSH_ERR_ALLOC_FAIL
    | Some d =>
        _ ← on_ssh (_ ← sshpkt_start SSH2_MSG_KEX_DH_GEX_GROUP;
                    _ ← sshpkt_put_bignum2 (dh_p d);
                    _ ← sshpkt_put_bignum2 (dh_g d);
                    sshpkt_send);
        _ ← gen_exchange_value d;
        change (ssh_dispatch_set SSH2_MSG_KEX_DH_GEX_INIT (Some HGexInit))
    end.

(** The parts of the reply: host key, public part of the server, signature. *)
Definition send_gex_reply (blob : list Z) (spub : Z) (sig : list Z) : SE ssh unit :=
  _ ← sshpkt_start SSH2_MSG_KEX_DH_GEX_REPLY;
  _ ← sshpkt_put_string blob;
  _ ← sshpkt_put_bignum2 spub;
  _ ← sshpkt_put_string sig;
  sshpkt_send.

Definition gex_init_body : SE conn unit :=
  '(public, private) ← kex_load_host_keys;
  cpub ← on_ssh sshpkt_get_bignum2;
  _ ← on_ssh sshpkt_get_end;
  '(d, spub) ← kex_dh;
  secret ← give (gex_secret d cpub);
  c ← se_get;
  let k := kx (cn c) in
  blob ← give (Xkey_putb (hostkey_alg k) public);
  hash ← give (kexgex_hash (hash_alg k) (client_version c) (server_version c) (contents (peer k)) (contents (my k)) blob
                 (gex_min (gex c)) (gex_nbits (gex c)) (gex_max (gex c)) (dh_p d) (dh_g d) cpub spub secret SSH_DIGEST_MAX_LENGTH);
  sig ← give (xsign (hostkey_alg k) private public hash);
  _ ← on_ssh (send_gex_reply blob spub sig);
  _ ← derive hash secret;
  kex_send_newkeys.

Definition input_kex_dh_gex_init : SE conn unit := freeing_dh gex_init_body.

(** ** KEXINIT *)

Fixpoint skip_cookie (n : nat) : SE ssh unit := match n with O => mret tt | S n => _ ← sshpkt_get_u8; skip_cookie n end.
Fixpoint skip_proposals (n : nat) : SE ssh unit := match n with O => mret tt | S n => _ ← sshpkt_get_string; skip_proposals n end.

(** Handlers of other files. *)
Context (other : Z -> Z -> Z -> SE conn unit).

Definition run_method (m : kex_method) : SE conn unit :=
  match m with
  | GenClient => kex_gen_client | GenServer => kex_gen_server | GexClient => kexgex_client | GexServer => kexgex_server
  end.

Definition choose_conf : SE conn unit := fun c =>
  match kex_choose_conf (kx (cn c)) (skip_packets c) with
  | None => crash c
  | Some (r, k, skip) => (r, set_skip skip (set_cn (set_kx k (cn c)) c))
  end.

Definition put_peer (v : list Z) : SE kex unit := fun k =>
  let '(r, b) := sshbuf_put v (peer k) in (r, set_bufs (my k) b k).

Definition kex_input_kexinit : SE conn unit :=
  _ ← change (ssh_dispatch_set SSH2_MSG_KEXINIT None);
  c ← se_get;
  _ ← on_kx (put_peer (incoming_packet (cn c)));
  _ ← on_ssh (_ ← skip_cookie (Z.to_nat KEX_COOKIE_LEN); _ ← skip_proposals PROPOSAL_MAX; _ ← sshpkt_get_u8; _ ← sshpkt_get_u32;
              sshpkt_get_end);
  c ← se_get;
  _ ← (if Z.land (flags (kx (cn c))) KEX_INIT_SENT =? 0 then on_ssh kex_send_kexinit else mret tt);
  _ ← choose_conf;
  c ← se_get;
  match kex_methods (kex_type (kx (cn c))) with
  | Some m => run_method m
  | None => stop SSH_ERR_INTERNAL_ERROR
  end.

Definition kex_ready (proposal : list cstring) : SE conn unit :=
  _ ← on_kx (fun k => let '(r, b) := kex_prop2buf proposal (my k) in (r, set_bufs b (peer k) k));
  _ ← on_kx (se_modify (fun k => set_flow (kex_done k) KEX_INITIAL k));
  _ ← change kex_reset_dispatch;
  change (ssh_dispatch_set SSH2_MSG_KEXINIT (Some HKexinit)).

Definition kex_setup (proposal : list cstring) : SE conn unit := _ ← kex_ready proposal; on_ssh kex_send_kexinit.

(** * The dispatcher *)

Definition run_handler (h : handler) (type seq : Z) : SE conn unit :=
  match h with
  | HDispatchError => dispatch_protocol_error seq
  | HDispatchIgnore => dispatch_protocol_ignore
  | HKexError => kex_protocol_error seq
  | HKexinit => kex_input_kexinit
  | HNewkeys => kex_input_newkeys
  | HExtInfo => kex_input_ext_info
  | HGenReply => input_kex_gen_reply
  | HGenInit => input_kex_gen_init
  | HGexGroup => input_kex_dh_gex_group
  | HGexReply => input_kex_dh_gex_reply
  | HGexRequest => input_kex_dh_gex_request
  | HGexInit => input_kex_dh_gex_init
  | HOther n => other n type seq
  end.

(** What is done with a packet; [true] when it was skipped. *)
Definition dispatch_one (type seq : Z) : SE conn bool :=
  c ← se_get;
  match (if (type >? 0) && (type <? DISPATCH_MAX) then nth (Z.to_nat type) (table c) None else None) with
  | Some h =>
      if negb (skip_packets c =? 0) then _ ← change (set_skip (skip_packets c - 1)); mret true
      else _ ← run_handler h type seq; mret false
  | None => _ ← on_ssh (sshpkt_disconnect (str "protocol error: rcvd type " ++ num type)); stop SSH_ERR_DISCONNECTED
  end.

(** The dispatcher without blocking, until nothing is left to read or [done] is
    set; [fuel] bounds the number of packets. *)
Fixpoint ssh_dispatch_run (fuel : nat) (done : conn -> bool) : SE conn unit :=
  match fuel with
  | O => mret tt
  | S fuel =>
      type ← on_ssh ssh_packet_read_poll_seqnr;
      if type =? SSH_MSG_NONE then mret tt
      else
        c ← se_get;
        skipped ← dispatch_one type (u32 (seqnr (d_ps (in_dir (cn c))) - 1));
        c ← se_get;
        if negb skipped && done c then mret tt else ssh_dispatch_run fuel done
  end.
End flow.
