(* ===== verification/KexHash.v ===== *)
(** The exchange hash: what is hashed is the transcript of RFC 4253 (section 8)
    and, for the group exchange, that of RFC 4419 (section 3). *)

From S2P Require Import Prelude Sshbuf SshbufGetPut AlgNames Digest ChaCha Poly1305 ChachaPoly Cipher Kex Packet PacketKeep Dh KexFlow.
Local Open Scope Z_scope.

Section hash.
Context `{Allocator} `{EvpDigest} `{OpensslDh}.

(** RFC 4253, section 8 (and RFC 5656, section 4): the strings V_C, V_S, I_C, I_S,
    K_S, Q_C and Q_S, where I_C and I_S are the payloads of the KEXINIT messages,
    and the encoded secret K. *)
Definition rfc4253_transcript (v_c v_s i_c i_s k_s q_c q_s k : list Z) : list Z :=
  enc_string v_c ++ enc_string v_s ++ enc_string i_c ++ enc_string i_s ++ enc_string k_s ++ enc_string q_c ++ enc_string q_s ++ k.

(** When [m] succeeds it has appended [v]. *)
Definition adds (m : SE sshbuf unit) (v : list Z) : Prop :=
  forall b b', buf_wf b -> m b = (Ok tt, b') -> buf_wf b' /\ contents b' = contents b ++ v.

Lemma adds_appends m v : appends m v -> adds m v.
Proof. intros Hm b b' Hb E. specialize (Hm b Hb). rewrite E in Hm. destruct Hm as [[Hw _] (_ & _ & Hc)]. done. Qed.

Lemma adds_bind m v (f : unit -> SE sshbuf unit) w : adds m v -> adds (f tt) w -> adds (m ≫= f) (v ++ w).
Proof.
  intros Hm Hf b b' Hb E. apply bind_ok in E as ([] & b1 & E1 & E). destruct (Hm _ _ Hb E1) as [Hb1 Hc1].
  destruct (Hf _ _ Hb1 E) as [Hb' Hc']. split; [done|]. by rewrite Hc', Hc1, app_assoc.
Qed.

Lemma adds_string v : adds (sshbuf_put_string v) (enc_string v).
Proof.
  destruct (Z.leb_spec (zlen v) (SSHBUF_SIZE_MAX - 4)); [by apply adds_appends, sshbuf_put_string_appends|].
  intros b b' Hb E. unfold sshbuf_put_string in E. by rewrite Z.gtb_ltb, (proj2 (Z.ltb_lt _ _)) in E by lia.
Qed.

Lemma adds_payload l (f : unit -> SE sshbuf unit) w :
  adds (f tt) w ->
  adds (_ ← sshbuf_put_u32 (zlen l + 1); _ ← sshbuf_put_u8 SSH2_MSG_KEXINIT; sshbuf_put l ≫= f) (enc_string (SSH2_MSG_KEXINIT :: l) ++ w).
Proof.
  intros Hf. unfold enc_string. rewrite zlen_cons, Z.add_comm, <- app_assoc. apply adds_bind; [apply adds_appends, sshbuf_put_u32_appends|].
  apply (adds_bind _ [SSH2_MSG_KEXINIT] _ (l ++ w)); [apply adds_appends, sshbuf_put_u8_appends|].
  apply adds_bind; [apply adds_appends, sshbuf_put_appends|done].
Qed.

Lemma adds_transcript cv sv ci si blob cpub spub secret :
  adds (put_transcript cv sv ci si blob cpub spub secret)
    (rfc4253_transcript cv sv (SSH2_MSG_KEXINIT :: ci) (SSH2_MSG_KEXINIT :: si) blob cpub spub secret).
Proof.
  do 2 (apply adds_bind; [apply adds_string|]). do 2 apply adds_payload. do 3 (apply adds_bind; [apply adds_string|]).
  apply adds_appends, sshbuf_put_appends.
Qed.

(** The digest of what was put into a new buffer. *)
Lemma digest_of_buffer (m : SE sshbuf unit) v alg len hash b :
  adds m v -> sshbuf_new = Some b ->
  (match m b with
   | (Err e, _) => Err e
   | (Ok _, b) => match ssh_digest_buffer alg b len with Ok h => Ok h | Err _ => Err SSH_ERR_LIBCRYPTO_ERROR end
   end) = Ok hash ->
  evp_md alg v = Some hash.
Proof.
  intros Hm Eb. apply sshbuf_new_spec in Eb as (Hw & Hc & _). destruct (m b) as [[[]|e] b'] eqn:E; [|done].
  destruct (Hm _ _ Hw E) as [Hw' Hc']. unfold ssh_digest_buffer, ssh_digest_memory.
  rewrite (sshbuf_ptr_wf _ Hw'). cbn [default]. rewrite Hc', Hc. cbn [app].
  destruct (ssh_digest_by_alg alg); [|done]. destruct (_ >? _); [done|]. destruct (_ <? _); [done|].
  destruct (evp_md _ _) as [d|]; [|done]. by intros [= <-].
Qed.

Lemma gen_hash_rfc alg cv sv ci si blob cpub spub secret len hash :
  kex_gen_hash alg cv sv ci si blob cpub spub secret len = Ok hash ->
  evp_md alg (rfc4253_transcript cv sv (SSH2_MSG_KEXINIT :: ci) (SSH2_MSG_KEXINIT :: si) blob cpub spub secret) = Some hash.
Proof.
  unfold kex_gen_hash. destruct (_ <? _); [done|]. destruct sshbuf_new as [b|] eqn:Eb; [|done].
  by apply digest_of_buffer; [apply adds_transcript|].
Qed.

(** RFC 4419, section 3: the same with the sizes that were asked for, the group
    and the public parts as numbers; old peers leave out two of the sizes. *)
Definition sizes (min n max : Z) : list Z :=
  (if min =? NO_SIZE then [] else POKE_U32 min) ++ POKE_U32 n ++ (if max =? NO_SIZE then [] else POKE_U32 max).
Definition rfc4419_transcript (v_c v_s i_c i_s k_s : list Z) (min n max p g e f : Z) (k : list Z) : list Z :=
  enc_string v_c ++ enc_string v_s ++ enc_string i_c ++ enc_string i_s ++ enc_string k_s ++ sizes min n max ++
  enc_mpint p ++ enc_mpint g ++ enc_mpint e ++ enc_mpint f ++ k.

Lemma adds_bignum v : adds (sshbuf_put_bignum2 v) (enc_mpint v).
Proof. unfold sshbuf_put_bignum2. destruct (_ >? _); [by intros b b' _|]. apply adds_string. Qed.
Lemma adds_size v : adds (put_size v) (if v =? NO_SIZE then [] else POKE_U32 v).
Proof.
  unfold put_size. destruct (_ =? _); [|apply adds_appends, sshbuf_put_u32_appends]. intros b b' Hb [= <-]. by rewrite app_nil_r.
Qed.

Lemma adds_gex_transcript cv sv ci si blob min n max p g e f secret :
  adds (put_gex_transcript cv sv ci si blob min n max p g e f secret)
    (rfc4419_transcript cv sv (SSH2_MSG_KEXINIT :: ci) (SSH2_MSG_KEXINIT :: si) blob min n max p g e f secret).
Proof.
  unfold rfc4419_transcript, sizes. rewrite <- !app_assoc.
  do 2 (apply adds_bind; [apply adds_string|]). do 2 apply adds_payload. apply adds_bind; [apply adds_string|].
  apply adds_bind; [apply adds_size|]. apply adds_bind; [apply adds_appends, sshbuf_put_u32_appends|].
  apply adds_bind; [apply adds_size|]. do 4 (apply adds_bind; [apply adds_bignum|]). apply adds_appends, sshbuf_put_appends.
Qed.

Lemma gex_hash_rfc alg cv sv ci si blob min n max p g e f secret len hash :
  kexgex_hash alg cv sv ci si blob min n max p g e f secret len = Ok hash ->
  evp_md alg (rfc4419_transcript cv sv (SSH2_MSG_KEXINIT :: ci) (SSH2_MSG_KEXINIT :: si) blob min n max p g e f secret) = Some hash.
Proof.
  unfold kexgex_hash. destruct (_ <? _); [done|]. destruct sshbuf_new as [b|] eqn:Eb; [|done].
  by apply digest_of_buffer; [apply adds_gex_transcript|].
Qed.
End hash.
