(* ===== verification/KexSafe.v ===== *)
(** The state machine of the key exchange messages: which message is expected,
    and that its handler finds what it needs. *)

From Stdlib Require Import String.
From S2P Require Import Prelude Match Sshbuf SshbufGetPut AlgNames Digest ChaCha Poly1305 ChachaPoly Cipher Kex Packet PacketKeep Dh KexFlow KexHash.
Local Open Scope Z_scope.

Section safe.
Context `{Allocator} `{EvpCipher} `{Uninit} `{EvpDigest} `{Umac} `{Zlib} `{Random} `{Fellows} `{HostKeyNames} `{KexKem} `{OpensslDh} `{HostKeys} `{KexConfig}.

(** ** What sending does to the keys of the key exchange *)

Definition view {T} (g : kex -> T) (s : ssh) : T := g (kx s).
Definition keys_view : ssh -> option newkeys * option newkeys := view (fun k => (newkeys_in k, newkeys_out k)).
Definition in_key (s : ssh) := newkeys_in (kx s).

Section view.
Context {T : Type} (g : kex -> T).

Lemma delayed_keys : keeps (view g) ssh_packet_enable_delayed_compress.
Proof.
  unfold ssh_packet_enable_delayed_compress, enable_delayed_mode, ssh_packet_init_compression, start_compression,
    start_compression_in, start_compression_out. keep.
Qed.

(** A packet that is not NEWKEYS does not change the keys. *)
Lemma wrapped_keys s : znth (outgoing_packet s) 5 <> SSH2_MSG_NEWKEYS -> view g (snd (ssh_packet_send2_wrapped s)) = view g s.
Proof.
  intros Hty. unfold ssh_packet_send2_wrapped. rewrite run_get. rewrite (proj2 (Z.eqb_neq _ _) Hty).
  match goal with |- ?f (snd (?m ?x)) = _ => enough (keeps f m) as Hk by apply Hk end. keep. apply delayed_keys.
Qed.

(** A message of the key exchange other than NEWKEYS is sent at once. *)
Lemma send_kex_keys rekex s :
  ssh_packet_type_is_kex (znth (outgoing_packet s) 5) = true -> znth (outgoing_packet s) 5 <> SSH2_MSG_NEWKEYS ->
  view g (snd (send_body rekex s)) = view g s.
Proof.
  intros Hk Hn. unfold send_body. rewrite run_get. destruct (mux s); [unfold ssh_packet_send_mux; by_keeps|].
  unfold send2_body. rewrite run_get. destruct (_ <? 6); [done|]. rewrite Hk. cbn [negb]. rewrite andb_false_r.
  rewrite (proj2 (Z.eqb_neq _ _) Hn). apply keeps_bind_at; [destruct (_ =? SSH2_MSG_KEXINIT); done|]. intros u s1 E1.
  assert (outgoing_packet s1 = outgoing_packet s) as Eo by (destruct (_ =? SSH2_MSG_KEXINIT); by apply run_inj in E1 as [_ <-]).
  apply keeps_bind_at; [apply wrapped_keys; by rewrite Eo|done].
Qed.

(** Composing a packet of type [t] and sending it. *)
Definition with_type (t : Z) (m : SE ssh unit) : Prop :=
  forall s, znth (outgoing_packet s) 5 = t -> 6 <= zlen (outgoing_packet s) -> view g (snd (m s)) = view g s.

Lemma start_type t (f : unit -> SE ssh unit) :
  0 <= t < 256 -> with_type t (f tt) -> keeps (view g) (sshpkt_start t ≫= f).
Proof.
  intros Ht Hf s. assert (sshpkt_start t s = (Ok tt, set_outgoing_packet [0; 0; 0; 0; 0; u8 t] s)) as E by done.
  rewrite (se_bind_ok _ _ _ _ _ E). rewrite Hf; [done| |done]. cbn. unfold u8. by rewrite Z.mod_small by lia.
Qed.

Lemma put_type t v (f : unit -> SE ssh unit) : with_type t (f tt) -> with_type t (sshpkt_put v ≫= f).
Proof.
  intros Hf s Hty Hl. apply keeps_bind_at; [unfold sshpkt_put; by_keeps|]. intros [] s1 E. unfold sshpkt_put in E. run_in E.
  destruct (bput _ _) as [o|] eqn:Eb in E; [|done]. run_in E. apply run_inj in E as [_ <-]. apply bput_ok in Eb as [-> _].
  apply Hf; cbn [outgoing_packet set_outgoing_packet].
  - rewrite <- Hty. unfold znth. rewrite lookup_app_l; [done|]. unfold zlen in Hl. lia.
  - rewrite zlen_app. zlen_facts. lia.
Qed.

Lemma put_cstring_type t v (f : unit -> SE ssh unit) : with_type t (f tt) -> with_type t (sshpkt_put_cstring v ≫= f).
Proof. intros Hf. unfold sshpkt_put_cstring. destruct (_ >? _); [by intros s _ _|]. by apply put_type. Qed.

Lemma send_type t rekex (f : unit -> SE ssh unit) :
  ssh_packet_type_is_kex t = true -> t <> SSH2_MSG_NEWKEYS -> keeps (view g) (f tt) -> with_type t (send_body rekex ≫= f).
Proof.
  intros Hk Hn Hf s Hty _. apply keeps_bind_at; [apply send_kex_keys; by rewrite Hty|]. intros [] s1 _. apply Hf.
Qed.

Lemma send_type_end t rekex : ssh_packet_type_is_kex t = true -> t <> SSH2_MSG_NEWKEYS -> with_type t (send_body rekex).
Proof. intros Hk Hn s Hty _. apply send_kex_keys; by rewrite Hty. Qed.

End view.

Lemma keeps_in_key {A} (m : SE ssh A) : keeps keys_view m -> keeps in_key m.
Proof. intros Hm s. specialize (Hm s). unfold keys_view, view in Hm. by injection Hm. Qed.

Lemma newkeys_in_key s : in_key (snd (ssh_set_newkeys MODE_OUT s)) = in_key s.
Proof.
  unfold ssh_set_newkeys. rewrite run_modify, run_get. cbn [newkeys_of kx reset_mode_counters set_mode_keys set_out_dir].
  destruct (newkeys_out (kx s)) as [nk|]; [|done]. rewrite run_modify. destruct (newkeys_mac_init nk) as [r nk'].
  set (t := set_kx _ _). transitivity (in_key t); [|done]. clearbody t.
  unfold ssh_packet_init_compression, start_compression, start_compression_out. by_keeps.
Qed.

Lemma wrapped_in_key s : in_key (snd (ssh_packet_send2_wrapped s)) = in_key s.
Proof.
  enough (keeps in_key ssh_packet_send2_wrapped) as Hk by apply Hk. unfold ssh_packet_send2_wrapped. keep;
    [intros ?; apply newkeys_in_key|apply keeps_in_key, delayed_keys].
Qed.

Lemma unimplemented_keys seq : keeps keys_view (unimplemented seq).
Proof. apply start_type; [done|]. apply put_type, send_type_end; done. Qed.

Lemma write_wait_keys : keeps keys_view ssh_packet_write_wait.
Proof.
  unfold ssh_packet_write_wait. apply keeps_get. intros s. generalize (script s). intros ws. induction ws as [|w ws IH]; cbn [write_wait_loop].
  - keep.
  - apply keeps_get. intros t. destruct (negb _); [keep|]. apply keeps_bind; [keep|intros _]. apply keeps_bind; [unfold ssh_packet_write_poll; keep|].
    intros _. exact IH.
Qed.

Lemma disconnect_keys msg : keeps keys_view (sshpkt_disconnect msg).
Proof. apply start_type; [done|]. apply put_type, put_cstring_type, put_cstring_type, send_type_end; done. Qed.

Lemma kexinit_keys s : keys_view (snd (kex_send_kexinit s)) = keys_view s.
Proof.
  unfold kex_send_kexinit. rewrite run_get. destruct (negb _); [done|]. rewrite run_modify. set (s1 := set_kx _ s).
  transitivity (keys_view s1); [|done]. clearbody s1. destruct (_ <? _); [done|]. destruct (sshbuf_mutable_ptr _) as [p|]; [|done].
  match goal with |- ?f (snd (?m ?x)) = _ => enough (keeps f m) as Hk by apply Hk end.
  apply keeps_bind; [keep|intros cookie]. apply keeps_bind; [keep|intros _]. apply start_type; [done|]. apply put_type.
  apply send_type; [done..|]. keep.
Qed.

Lemma rekex_keys s : keys_view (snd (kex_start_rekex s)) = keys_view s.
Proof.
  unfold kex_start_rekex. rewrite run_get. destruct (negb _); [done|]. rewrite run_modify. by rewrite kexinit_keys.
Qed.

(** Whatever is sent, the keys for reading stay. *)
Lemma send_queue_in_key fuel : keeps in_key (send_queue kex_start_rekex fuel).
Proof.
  induction fuel as [|fuel IH]; cbn [send_queue]; [keep|]. apply keeps_get. intros s. destruct (outgoing s) as [|[ty p] rest]; [keep|].
  destruct (ssh_packet_need_rekeying _ _); [apply keeps_in_key; intros ?; apply rekex_keys|].
  apply keeps_bind; [keep|intros _]. apply keeps_bind; [intros ?; apply wrapped_in_key|intros _; exact IH].
Qed.

Lemma send_in_key : keeps in_key sshpkt_send.
Proof.
  unfold sshpkt_send, send_body. apply keeps_get. intros s. destruct (mux s); [unfold ssh_packet_send_mux; keep|].
  unfold send2_body. keep; try (intros ?; apply wrapped_in_key); try apply send_queue_in_key; apply keeps_in_key; intros ?; apply rekex_keys.
Qed.

(** Packets that are composed with any type and sent. *)
Lemma keeps_put v : keeps keys_view (sshpkt_put v).
Proof. unfold sshpkt_put. keep. Qed.
Lemma keeps_put_cstring v : keeps keys_view (sshpkt_put_cstring v).
Proof. unfold sshpkt_put_cstring. destruct (_ >? _); [keep|apply keeps_put]. Qed.
Section gets.
Context {T : Type} (f : ssh -> T) (Hf : forall v s, f (set_incoming_packet v s) = f s).
Lemma keeps_pkt_get n : keeps f (sshpkt_get n).
Proof. unfold sshpkt_get. keep. apply keeps_modify. intros ?. apply Hf. Qed.
Lemma keeps_pkt_get_string : keeps f sshpkt_get_string.
Proof. unfold sshpkt_get_string. keep; apply keeps_pkt_get. Qed.
Lemma keeps_pkt_get_cstring : keeps f sshpkt_get_cstring.
Proof. unfold sshpkt_get_cstring. keep; apply keeps_pkt_get. Qed.
Lemma keeps_pkt_get_u8 : keeps f sshpkt_get_u8.
Proof. unfold sshpkt_get_u8. keep; apply keeps_pkt_get. Qed.
Lemma keeps_pkt_get_u32 : keeps f sshpkt_get_u32.
Proof. unfold sshpkt_get_u32. keep; apply keeps_pkt_get. Qed.
Lemma keeps_pkt_end : keeps f sshpkt_get_end.
Proof. unfold sshpkt_get_end. keep. Qed.
End gets.

Lemma keeps_ext_info fuel n a b : keeps keys_view (ext_info_loop fuel n a b).
Proof.
  revert n a b. induction fuel as [|fuel IH]; intros n a b; cbn [ext_info_loop]; keep;
    first [by apply keeps_pkt_get_cstring | by apply keeps_pkt_get_string | apply IH].
Qed.

(** ** What reading does to them *)

Lemma read_mac_keys {A} (f : SE sshmac A) : keeps keys_view (with_mac MODE_IN f).
Proof. intros s. unfold with_mac. destruct (mode_keys MODE_IN s) as [nk|]; [|done]. by destruct (f (nk_mac nk)). Qed.
Lemma read_ctx_keys seq src len aad auth dlen : keeps keys_view (with_ctx MODE_IN seq src len aad auth dlen).
Proof. intros s. unfold with_ctx. destruct (d_ctx (in_dir s)); [|done]. by destruct (cipher_crypt _ _ _ _ _ _ _) as [[[] ?] ?]. Qed.
Lemma uncompress_keys b : keeps keys_view (uncompress_buffer b).
Proof.
  intros s. unfold uncompress_buffer. destruct (d_z (in_dir s)); [|done]. by destruct (uncompress_loop _ _) as [[? ?] ?].
Qed.
Lemma verdict_keys m : keeps keys_view m -> keeps keys_view (mac_verdict m).
Proof. intros Hm s. specialize (Hm s). unfold mac_verdict. destruct (m s) as [[[]|e] s']; [done|]. by destruct (bool_decide _). Qed.
Lemma attempt_keys m : keeps keys_view m -> keeps keys_view (attempt m).
Proof. intros Hm s. specialize (Hm s). unfold attempt. by destruct (m s). Qed.
Lemma ignore_keys {A} (m : SE ssh A) : keeps keys_view m -> keeps keys_view (ignore_result m).
Proof. intros Hm s. specialize (Hm s). unfold ignore_result. by destruct (m s). Qed.

Lemma stop_discard_keys : keeps keys_view ssh_packet_stop_discard.
Proof. unfold ssh_packet_stop_discard. keep. apply ignore_keys, read_mac_keys. Qed.
Lemma start_discard_keys enc mac a d : keeps keys_view (ssh_packet_start_discard enc mac a d).
Proof. unfold ssh_packet_start_discard. keep; first [apply disconnect_keys | apply stop_discard_keys]. Qed.

Ltac read_keys := keep; first
  [ apply disconnect_keys | apply start_discard_keys | apply stop_discard_keys | apply write_wait_keys | apply read_mac_keys
  | apply read_ctx_keys | apply uncompress_keys | by apply keeps_pkt_get_u8 | by apply keeps_pkt_get_u32 | by apply keeps_pkt_get_string
  | apply verdict_keys, read_mac_keys | apply delayed_keys | idtac ].

Lemma read_packlen_keys p : keeps keys_view (read_packlen p).
Proof. unfold read_packlen. read_keys. Qed.
Lemma read_packet_keys p : keeps keys_view (read_packet p).
Proof. unfold read_packet, open_incoming, read_payload. read_keys. apply attempt_keys. read_keys. Qed.

Lemma read_poll2_keys : keeps keys_view ssh_packet_read_poll2.
Proof.
  unfold ssh_packet_read_poll2, ssh_packet_read_poll2_mux. read_keys; first [apply read_packlen_keys | apply read_packet_keys | intros ?; apply rekex_keys].
Qed.

Lemma read_seqnr_keys : keeps keys_view ssh_packet_read_poll_seqnr.
Proof.
  unfold ssh_packet_read_poll_seqnr. apply keeps_get. intros s. generalize (S (length (input s))). intros fuel.
  induction fuel as [|fuel IH]; cbn [read_poll_loop]; [keep|]. apply keeps_bind; [apply read_poll2_keys|intros type].
  read_keys; apply IH.
Qed.

Lemma process_incoming_keys buf : keeps keys_view (ssh_packet_process_incoming buf).
Proof. unfold ssh_packet_process_incoming. read_keys. Qed.
Lemma write_poll_keys w : keeps keys_view (ssh_packet_write_poll w).
Proof. unfold ssh_packet_write_poll. keep. Qed.

(** A packet of another protocol layer. *)
Lemma send_app_keys t payload : 0 <= t < 256 -> t <> SSH2_MSG_NEWKEYS -> keeps keys_view (_ ← sshpkt_start t; _ ← sshpkt_put payload; sshpkt_send).
Proof.
  intros Ht Hn. apply start_type; [done|]. apply put_type. intros s Hty _. unfold sshpkt_send, send_body. rewrite run_get.
  destruct (mux s); [unfold ssh_packet_send_mux; by_keeps|]. unfold send2_body. rewrite run_get. destruct (_ <? 6); [done|].
  rewrite Hty, (proj2 (Z.eqb_neq _ _) Hn). destruct (_ && _).
  - match goal with |- ?f (snd (?m ?x)) = _ => enough (keeps f m) as Hk by apply Hk end. keep. intros ?. apply rekex_keys.
  - apply keeps_bind_at; [destruct (_ =? SSH2_MSG_KEXINIT); done|]. intros u s1 E1.
    assert (outgoing_packet s1 = outgoing_packet s) as Eo by (destruct (_ =? SSH2_MSG_KEXINIT); by apply run_inj in E1 as [_ <-]).
    apply keeps_bind_at; [apply wrapped_keys; by rewrite Eo, Hty|done].
Qed.

(** ** What a message holds *)

(** The messages that end a key exchange, as they are to be read: the reply
    (host key, public part of the server, signature) and the client's part. *)
Definition gen_reply_message : SE ssh (list Z * list Z * list Z) :=
  blob ← sshpkt_get_string; spub ← sshpkt_get_string; sig ← sshpkt_get_string; _ ← sshpkt_get_end; mret (blob, spub, sig).
Definition gex_reply_message : SE ssh (list Z * Z * list Z) :=
  blob ← sshpkt_get_string; spub ← sshpkt_get_bignum2; sig ← sshpkt_get_string; _ ← sshpkt_get_end; mret (blob, spub, sig).
Definition gen_init_message : SE ssh (list Z) := cpub ← sshpkt_get_string; _ ← sshpkt_get_end; mret cpub.
Definition gex_init_message : SE ssh Z := cpub ← sshpkt_get_bignum2; _ ← sshpkt_get_end; mret cpub.

(** * How a key exchange ends *)

(** The payload of a KEXINIT message. *)
Definition kexinit (b : sshbuf) : list Z := SSH2_MSG_KEXINIT :: contents b.

(** The host key is read with the negotiated algorithm and the application
    accepts it. *)
Definition accepted_host_key (k : kex) (blob : list Z) (key : hostkey) : Prop :=
  Xkey_from_blob (hostkey_alg k) blob = Ok key /\ sshkey_match_pkalg key (hostkey_alg k) = true /\
  exists verify, verify_host_key = Some verify /\ verify key = true.

(** [k] is the key exchange with keys derived from a hash and a secret. *)
Definition derived (hash secret : list Z) (d : conn) (k : kex) : Prop := exists b,
  sshbuf_from secret = Some b /\ kex_derive_keys hash b (kx (cn d)) = (Ok tt, k).

(** A client in state [d] has read a reply: it accepts the host key, which has
    signed the hash of what was exchanged, and derives keys from that hash. *)
Definition gen_replied (d : conn) (k : kex) : Prop := exists blob spub sig key ck secret hash,
  fst (gen_reply_message (cn d)) = Ok (blob, spub, sig) /\ accepted_host_key (kx (cn d)) blob key /\
  client_key d = Some ck /\ kem_dec ck (kx (cn d)) spub = Ok secret /\
  evp_md (hash_alg (kx (cn d))) (rfc4253_transcript (client_version d) (server_version d) (kexinit (my (kx (cn d)))) (kexinit (peer (kx (cn d))))
    blob (default [] (client_pub d)) spub secret) = Some hash /\
  Xkey_verify (hostkey_alg (kx (cn d))) key sig hash = Ok tt /\
  derived hash secret d k.

Definition gex_replied (d : conn) (k : kex) : Prop := exists blob spub sig key g cpub secret hash,
  fst (gex_reply_message (cn d)) = Ok (blob, spub, sig) /\ accepted_host_key (kx (cn d)) blob key /\
  gex_dh (gex d) = Some g /\ pub_key g = Some cpub /\ gex_secret g spub = Ok secret /\
  evp_md (hash_alg (kx (cn d))) (rfc4419_transcript (client_version d) (server_version d) (kexinit (my (kx (cn d)))) (kexinit (peer (kx (cn d))))
    blob (if old_dhgex then NO_SIZE else gex_min (gex d)) (gex_nbits (gex d)) (if old_dhgex then NO_SIZE else gex_max (gex d))
    (dh_p g) (dh_g g) cpub spub secret) = Some hash /\
  Xkey_verify (hostkey_alg (kx (cn d))) key sig hash = Ok tt /\
  derived hash secret d k.

(** The host keys of a server for the negotiated algorithm. *)
Definition loaded_host_keys (k : kex) (public : hostkey) (private : option hostkey) : Prop := exists fpub fpriv,
  find_host_public_key = Some fpub /\ find_host_private_key = Some fpriv /\ fpub (hostkey_alg k) = Some public /\ private = fpriv (hostkey_alg k).

(** A server in state [d] has read the client's part, signed the hash of what was
    exchanged with its host key, sent its reply and derived keys from that hash. *)
Definition gen_answered (d : conn) (k : kex) : Prop := exists cpub s public private blob spub secret hash sig sent,
  gen_init_message (cn d) = (Ok cpub, s) /\ loaded_host_keys (kx (cn d)) public private /\
  kem_enc (draws (cn d)) (kx (cn d)) cpub = Ok (spub, secret) /\ Xkey_putb (hostkey_alg (kx (cn d))) public = Ok blob /\
  evp_md (hash_alg (kx (cn d))) (rfc4253_transcript (client_version d) (server_version d) (kexinit (peer (kx (cn d)))) (kexinit (my (kx (cn d))))
    blob cpub spub secret) = Some hash /\
  xsign (hostkey_alg (kx (cn d))) private public hash = Ok sig /\
  send_reply blob spub sig (set_draws (draws (cn d) + 1) s) = (Ok tt, sent) /\
  derived hash secret d k.

Definition gex_answered (d : conn) (k : kex) : Prop := exists cpub s public private blob g spub secret hash sig sent,
  gex_init_message (cn d) = (Ok cpub, s) /\ loaded_host_keys (kx (cn d)) public private /\
  gex_dh (gex d) = Some g /\ pub_key g = Some spub /\ gex_secret g cpub = Ok secret /\ Xkey_putb (hostkey_alg (kx (cn d))) public = Ok blob /\
  evp_md (hash_alg (kx (cn d))) (rfc4419_transcript (client_version d) (server_version d) (kexinit (peer (kx (cn d)))) (kexinit (my (kx (cn d))))
    blob (gex_min (gex d)) (gex_nbits (gex d)) (gex_max (gex d)) (dh_p g) (dh_g g) cpub spub secret) = Some hash /\
  xsign (hostkey_alg (kx (cn d))) private public hash = Ok sig /\
  send_gex_reply blob spub sig s = (Ok tt, sent) /\
  derived hash secret d k.

(** The message that was handled in state [d]. *)
Inductive keyed_by : Z -> conn -> kex -> Prop :=
| by_gen_reply d k : gen_replied d k -> keyed_by SSH2_MSG_KEX_ECDH_REPLY d k
| by_gex_reply d k : gex_replied d k -> keyed_by SSH2_MSG_KEX_DH_GEX_REPLY d k
| by_gen_init d k : gen_answered d k -> keyed_by SSH2_MSG_KEX_ECDH_INIT d k
| by_gex_init d k : gex_answered d k -> keyed_by SSH2_MSG_KEX_DH_GEX_INIT d k.

(** * The phases of a key exchange *)

(** The handlers of the key exchange and their messages. *)
Definition kex_handler (h : handler) : option nat :=
  match h with
  | HKexinit => Some 20%nat | HNewkeys => Some 21%nat | HGenInit => Some 30%nat | HGenReply | HGexGroup => Some 31%nat
  | HGexInit => Some 32%nat | HGexReply => Some 33%nat | HGexRequest => Some 34%nat | _ => None
  end.

(** Nothing is expected; KEXINIT; the client's part (server); the server's reply
    (client); in a group exchange the request and the client's part (server), the
    group and the reply (client); NEWKEYS, after the message of number [type] was
    handled in state [d] and gave the keys in [k]. *)
Inductive phase :=
| Idle | WaitKexinit | WaitInit | WaitReply | WaitRequest | WaitGexInit | WaitGroup | WaitGexReply | Keyed (type : Z) (d : conn) (k : kex).

Definition expects (p : phase) (h : handler) : bool :=
  match p, h with
  | WaitKexinit, HKexinit | WaitInit, HGenInit | WaitReply, HGenReply | WaitRequest, HGexRequest | WaitGexInit, HGexRequest
  | WaitGexInit, HGexInit | WaitGroup, HGexGroup | WaitGexReply, HGexReply | Keyed _ _ _, HNewkeys => true
  | _, _ => false
  end.

(** The table accepts no other message of the key exchange than those of the
    phase, and handles them at their own number only. *)
Definition table_at (p : phase) (t : list (option handler)) : Prop :=
  length t = Z.to_nat DISPATCH_MAX /\
  forall i h, t !! i = Some (Some h) -> is_Some (kex_handler h) -> expects p h = true /\ kex_handler h = Some i.

Definition fresh_keys (c : conn) : Prop := is_Some (newkeys_in (kx (cn c))) /\ is_Some (newkeys_out (kx (cn c))).
Definition has_dh (c : conn) : Prop := exists d pub, gex_dh (gex c) = Some d /\ pub_key d = Some pub.

Definition phase_ok (p : phase) (c : conn) : Prop :=
  match p with
  | Idle | WaitKexinit => True
  | WaitInit | WaitRequest | WaitGroup => fresh_keys c
  | WaitReply => fresh_keys c /\ is_Some (client_key c)
  | WaitGexInit | WaitGexReply => fresh_keys c /\ has_dh c
  | Keyed type d k => keyed_by type d k /\ is_Some (newkeys_in k) /\ newkeys_in (kx (cn c)) = newkeys_in k
  end.

Definition in_phase (p : phase) (c : conn) : Prop := table_at p (table c) /\ phase_ok p c.

(** ** The table *)

Lemma range_loop_length n i fn t : length (range_loop n i fn t) = length t.
Proof.
  revert i t. induction n as [|n IH]; intros i t; cbn [range_loop]; [done|]. destruct (_ >=? _); [done|].
  by rewrite IH, length_insert.
Qed.

Lemma range_loop_lookup n i fn t j :
  0 <= i -> i + Z.of_nat n <= DISPATCH_MAX ->
  range_loop n i fn t !! j = if bool_decide (i <= Z.of_nat j < i + Z.of_nat n) then (fun _ => fn) <$> t !! j else t !! j.
Proof.
  revert i t. induction n as [|n IH]; intros i t Hi Hn; cbn [range_loop]; [by rewrite bool_decide_false by lia|].
  destruct (Z.geb_spec i DISPATCH_MAX); [lia|]. rewrite IH by lia. destruct (decide (Z.of_nat j = i)) as [<-|Hj].
  - rewrite Nat2Z.id, bool_decide_false, bool_decide_true by lia. destruct (decide (j < length t)%nat).
    + rewrite list_lookup_insert_eq by done. by destruct (lookup_lt_is_Some_2 t j) as [x ->].
    + rewrite list_insert_ge by lia. by rewrite lookup_ge_None_2 by lia.
  - rewrite list_lookup_insert_ne by lia. destruct (decide (i <= Z.of_nat j < i + Z.of_nat (S n))).
    + by rewrite !bool_decide_true by lia.
    + by rewrite !bool_decide_false by lia.
Qed.

Lemma reset_idle p t : table_at p t -> table_at Idle (range_loop (Z.to_nat (SSH2_MSG_TRANSPORT_MAX - SSH2_MSG_TRANSPORT_MIN + 1)) SSH2_MSG_TRANSPORT_MIN (Some HKexError) t).
Proof.
  intros [Hl Ht]. split; [by rewrite range_loop_length|]. intros i h Hi Hk. rewrite range_loop_lookup in Hi by done.
  case_bool_decide as Hr.
  - destruct (t !! i); [|done]. cbn in Hi. injection Hi as <-. by destruct Hk.
  - destruct (Ht i h Hi Hk) as [_ Hh]. unfold SSH2_MSG_TRANSPORT_MIN, SSH2_MSG_TRANSPORT_MAX in Hr.
    destruct h; cbn in Hh; simplify_eq; lia.
Qed.

(** A new entry of the table. *)
Lemma insert_at p q t i o :
  table_at p t -> (i < Z.to_nat DISPATCH_MAX)%nat ->
  (forall h, o = Some h -> is_Some (kex_handler h) -> expects q h = true /\ kex_handler h = Some i) ->
  (forall h, expects p h = true -> kex_handler h = Some i \/ expects q h = true) ->
  table_at q (<[i := o]> t).
Proof.
  intros [Hl Ht] Hi Ho Hp. split; [by rewrite length_insert|]. intros j h Hj Hk. destruct (decide (i = j)) as [<-|Hne].
  - rewrite list_lookup_insert_eq in Hj by lia. injection Hj as ->. by apply Ho.
  - rewrite list_lookup_insert_ne in Hj by done. destruct (Ht j h Hj Hk) as [He Hh]. destruct (Hp h He) as [Hp'|Hp']; [|done].
    congruence.
Qed.

Lemma init_idle o : (forall h, o = Some h -> kex_handler h = None) -> table_at Idle (replicate (Z.to_nat DISPATCH_MAX) o).
Proof.
  intros Ho. split; [by rewrite length_replicate|]. intros i h Hi [n Hn]. apply lookup_replicate in Hi as [<- _].
  by rewrite (Ho h eq_refl) in Hn.
Qed.
End safe.
