(* ===== verification/KexUse.v ===== *)
(** The keys that NEWKEYS puts into use, for reading and for sending. *)

From S2P Require Import Prelude Match Sshbuf SshbufGetPut AlgNames Digest ChaCha Poly1305 ChachaPoly Cipher Kex Packet PacketKeep Dh KexFlow KexHash KexSafe.
Local Open Scope Z_scope.

Section use.
Context `{Allocator} `{EvpCipher} `{Uninit} `{EvpDigest} `{Umac} `{Zlib} `{Random} `{Fellows} `{HostKeyNames} `{KexKem} `{OpensslDh} `{HostKeys} `{KexConfig}.

(** The cipher with its key and initial vector, the MAC with its key, and the
    compression: what stays of a set of keys while it is in use. *)
Definition material (nk : newkeys) : sshenc * (option cstring * option (list Z) * Z) * Z :=
  (nk_enc nk, (mac_name (nk_mac nk), mac_key (nk_mac nk), mac_key_len (nk_mac nk)), comp_type (nk_comp nk)).

(** The session uses the keys of [k] in a direction. *)
Definition in_use (mode : kex_mode) (s : ssh) (k : kex) : Prop :=
  is_Some (newkeys_of mode k) /\ material <$> mode_keys mode s = material <$> newkeys_of mode k.

(** ** Taking keys into use *)

Lemma mac_init_same nk : material (snd (newkeys_mac_init nk)) = material nk.
Proof.
  unfold newkeys_mac_init. destruct (_ =? 0); [|done]. unfold mac_init. destruct (mac_key (nk_mac nk)) eqn:E; [|done].
  destruct (_ =? _); [destruct (hmac_ctx _); [|done]; destruct (ssh_hmac_init _ _)|repeat destruct (_ =? _)]; unfold material; cbn; by rewrite ?E.
Qed.

Lemma init_kx mode : keeps (fun s => (kx s, mode_keys mode s)) (_ ← ssh_packet_init_compression; start_compression mode).
Proof. unfold ssh_packet_init_compression, start_compression, start_compression_in, start_compression_out. destruct mode; keep. Qed.

Lemma set_newkeys_use mode s s' : ssh_set_newkeys mode s = (Ok tt, s') -> in_use mode s' (kx s) /\ newkeys_of mode (kx s') = None.
Proof.
  unfold ssh_set_newkeys. intros E. run_in E.
  assert (kx (reset_mode_counters mode (set_mode_keys mode None s)) = kx s) as Hk by (by destruct mode). rewrite Hk in E.
  unfold in_use. destruct (newkeys_of mode (kx s)) as [nk|] eqn:En; [|done]. pose proof (mac_init_same nk) as Hm.
  destruct (newkeys_mac_init nk) as [r nk']. cbn [snd] in Hm. run_in E. destruct r as [[]|e]; [|done]. run_in E.
  destruct (newkeys_cipher_init _ _) as [cc|e]; [|done]. run_in E. set (nk2 := keys_mac _ nk') in E.
  assert (material nk2 = material nk) as Hm2 by (by rewrite <- Hm). match type of E with _ ?t = _ => set (t0 := t) in E end.
  assert (kx t0 = set_newkeys mode None (kx s) /\ mode_keys mode t0 = Some nk2) as [Hk0 Hm0] by (by destruct mode). clearbody t0 nk2.
  assert (exists t, (material <$> mode_keys mode t = Some (material nk) /\ newkeys_of mode (kx t) = None) /\ modify (set_mode_max mode
    (rekey_blocks (rekey_limit (reset_mode_counters mode (set_mode_keys mode None s))) (enc_block_size (nk_enc nk2)))) t = (Ok tt, s'))
    as (t & [Ht1 Ht2] & Et).
  { destruct (comp_due _ _).
    - apply bind_ok in E as ([] & t & E1 & E). exists t. split; [|done]. apply bind_ok in E1 as ([] & t1 & E1 & E2).
      apply bind_ok in E2 as ([] & t2 & E2 & E3). pose proof (init_kx mode t0) as Hi. rewrite (se_bind_ok _ _ _ _ _ E1), E2 in Hi.
      cbn [snd] in Hi. injection Hi as Hi1 Hi2. apply run_inj in E3 as [_ <-].
      assert (kx (set_mode_keys mode (Some (keys_comp (comp_on (nk_comp nk2)) nk2)) t2) = kx t2) as -> by (by destruct mode).
      rewrite Hi1, Hk0. split; [|by destruct mode]. rewrite <- Hm2. by destruct mode.
    - run_in E. exists t0. split; [|done]. rewrite Hm0, Hk0. cbn. rewrite Hm2. by destruct mode. }
  apply run_inj in Et as [_ <-]. cbn. split.
  - split; [done|]. rewrite <- Ht1. by destruct mode.
  - rewrite <- Ht2. by destruct mode.
Qed.

(** NEWKEYS of the peer. *)
Lemma newkeys_message c c' : kex_input_newkeys c = (Ok tt, c') -> in_use MODE_IN (cn c') (kx (cn c)).
Proof.
  unfold kex_input_newkeys. intros E. apply bind_ok in E as ([] & c1 & [_ <-]%run_inj & E). apply bind_ok in E as ([] & c2 & [_ <-]%run_inj & E).
  apply bind_ok in E as ([] & c3 & E3 & E). unfold on_ssh, sshpkt_get_end in E3. cbn [cn ssh_dispatch_set set_table] in E3. rewrite run_get in E3.
  destruct (_ >? 0); [done|]. apply run_inj in E3 as [_ <-]. apply bind_ok in E as ([] & c4 & E4 & E). unfold on_ssh in E4.
  cbn [cn set_cn] in E4. destruct (ssh_set_newkeys MODE_IN (cn c)) as [r s4] eqn:E5. destruct r as [[]|e]; [|done]. apply run_inj in E4 as [_ <-].
  apply run_inj in E as [_ <-]. exact (proj1 (set_newkeys_use MODE_IN _ _ E5)).
Qed.

(** ** Sending once the keys are in use *)

(** The keys for sending, and those that wait. *)
Definition out_view (s : ssh) := (material <$> d_keys (out_dir s), newkeys_out (kx s)).

Lemma mac_compute_same seq data len m :
  let m' := snd (mac_compute seq data len m) in (mac_name m', mac_key m', mac_key_len m') = (mac_name m, mac_key m, mac_key_len m).
Proof.
  unfold mac_compute. cbv zeta. destruct (_ >? SSH_DIGEST_MAX_LENGTH); [done|]. destruct (mac_type m =? SSH_DIGEST).
  - destruct (hmac_ctx m); [|done]. by destruct (hmac_message _ _ _) as [[] ?].
  - destruct (umac_ctx m); [|done]. repeat destruct (_ =? _); done.
Qed.

Lemma out_mac seq data len : keeps out_view (with_mac MODE_OUT (mac_compute seq data len)).
Proof.
  intros s. unfold with_mac. cbn [mode_keys]. destruct (d_keys (out_dir s)) as [nk|] eqn:E; [|done].
  pose proof (mac_compute_same seq data len (nk_mac nk)) as Hm. destruct (mac_compute _ _ _ _) as [r m]. cbn [snd] in *.
  unfold out_view. cbn. rewrite E. cbn. unfold material. cbn in *. by rewrite Hm.
Qed.
Lemma out_ctx seq src len aad auth dlen : keeps out_view (with_ctx MODE_OUT seq src len aad auth dlen).
Proof. intros s. unfold with_ctx. destruct (d_ctx (out_dir s)); [|done]. by destruct (cipher_crypt _ _ _ _ _ _ _) as [[[] ?] ?]. Qed.
Lemma out_compress b : keeps out_view (compress_buffer b).
Proof.
  intros s. unfold compress_buffer. destruct (d_z (out_dir s)); [|done]. destruct (_ =? _); [done|]. by destruct (compress_loop _ _) as [[? ?] []].
Qed.

Ltac keep_out := repeat first [apply out_mac | apply out_ctx | apply out_compress | keep_step].

Lemma out_delayed_mode mode : keeps out_view (enable_delayed_mode mode).
Proof.
  intros s. unfold enable_delayed_mode. rewrite run_get. destruct (mode_keys mode s) as [nk|] eqn:En; [|done]. destruct (_ && _); [|done].
  assert (keeps (fun s => (kx s, mode_keys mode s, d_keys (out_dir s))) (_ ← ssh_packet_init_compression; start_compression mode)) as Hi.
  { unfold ssh_packet_init_compression, start_compression, start_compression_in, start_compression_out. destruct mode; keep. }
  specialize (Hi s). unfold mbind, se_bind in *. destruct (ssh_packet_init_compression s) as [[[]|e] s1]; cbn [snd] in Hi |- *;
    [|injection Hi as Hk _ Hd; unfold out_view; by rewrite Hk, Hd].
  destruct (start_compression mode s1) as [[[]|e] s2]; cbn [snd] in Hi |- *; [|injection Hi as Hk _ Hd; unfold out_view; by rewrite Hk, Hd].
  injection Hi as Hk Hm Hd. unfold out_view. destruct mode; cbn in *; [by rewrite Hd, Hk|]. by rewrite Hk, En.
Qed.

Lemma out_delayed : keeps out_view ssh_packet_enable_delayed_compress.
Proof. unfold ssh_packet_enable_delayed_compress. repeat first [apply out_delayed_mode | keep_step]. Qed.

(** With no keys waiting, a second NEWKEYS would fail. *)
Lemma wrapped_out s s' : newkeys_out (kx s) = None -> ssh_packet_send2_wrapped s = (Ok tt, s') -> out_view s' = out_view s.
Proof.
  intros Hn E. unfold ssh_packet_send2_wrapped in E. rewrite run_get in E. cbv zeta in E.
  apply bind_ok in E as ([] & s1 & E1 & E). assert (out_view s1 = out_view s) as V1.
  { match type of E1 with ?m s = _ => assert (keeps out_view m) as Hk by (destruct (comp_live _); keep_out) end.
    specialize (Hk s). by rewrite E1 in Hk. }
  apply bind_ok in E as (pkt & s2 & E2 & E). assert (out_view s2 = out_view s1) as V2.
  { match type of E2 with ?m s1 = _ => assert (keeps out_view m) as Hk by keep_out end. specialize (Hk s1). by rewrite E2 in Hk. }
  apply bind_ok in E as ([] & s3 & E3 & E). assert (out_view s3 = out_view s2) as V3.
  { match type of E3 with ?m s2 = _ => assert (keeps out_view m) as Hk by keep_out end. specialize (Hk s2). by rewrite E3 in Hk. }
  rewrite run_get in E. destruct (_ && _); [by run_in E|]. run_in E. match type of E with _ ?t = _ => set (t0 := t) in E end.
  assert (out_view t0 = out_view s) as V by (by rewrite <- V1, <- V2, <- V3). clearbody t0. destruct (_ =? SSH2_MSG_NEWKEYS).
  - apply (set_newkeys_use MODE_OUT) in E as [[[nk Hk] _] _]. cbn in Hk. injection V as _ V. congruence.
  - destruct (_ && _); [|apply run_inj in E as [_ <-]; done]. pose proof (out_delayed t0) as Hd. rewrite E in Hd. exact (eq_trans Hd V).
Qed.

(** With no keys waiting, a successful [m] leaves the keys for sending. *)
Definition uses {A} (m : SE ssh A) : Prop := forall s a s', newkeys_out (kx s) = None -> m s = (Ok a, s') -> out_view s' = out_view s.

Lemma uses_at {A} s (Hn : newkeys_out (kx s) = None) (m : SE ssh A) : uses m -> forall a s', m s = (Ok a, s') -> out_view s' = out_view s.
Proof. intros Hm a s' E. by apply (Hm s a s'). Qed.
Lemma uses_keeps {A} (m : SE ssh A) : keeps out_view m -> uses m.
Proof. intros Hm s a s' _ E. specialize (Hm s). by rewrite E in Hm. Qed.
Lemma uses_bind {A B} (m : SE ssh A) (f : A -> SE ssh B) : uses m -> (forall a, uses (f a)) -> uses (m ≫= f).
Proof.
  intros Hm Hf s b s' Hn E. apply bind_ok in E as (a & s1 & E1 & E2). pose proof (Hm _ _ _ Hn E1) as V1. rewrite <- V1.
  apply (Hf a _ _ _) in E2; [done|]. injection V1 as _ V1. congruence.
Qed.
Lemma uses_get {A} (f : ssh -> SE ssh A) : (forall s, uses (f s)) -> uses (se_get ≫= f).
Proof. intros Hf s a s' Hn E. rewrite run_get in E. by apply (Hf s _ a). Qed.
Lemma uses_wrapped : uses ssh_packet_send2_wrapped.
Proof. intros s [] s' Hn E. by apply wrapped_out. Qed.

(** Step by step. *)
Ltac use_step :=
  lazymatch goal with
  | |- uses ssh_packet_send2_wrapped => apply uses_wrapped
  | |- uses (se_get ≫= _) => apply uses_get; intros ?
  | |- uses (_ ≫= _) => apply uses_bind; [|intros ?]
  | |- uses (let x := _ in _) => cbv zeta
  | |- uses (match ?x with _ => _ end) => destruct x
  | |- uses (modify _) => apply uses_keeps; keep_out
  | |- uses (mret _) => apply uses_keeps; keep_out
  | |- uses (fail _) => apply uses_keeps; keep_out
  | |- uses (lift _) => apply uses_keeps; keep_out
  | |- uses (random_bytes_of _) => apply uses_keeps; keep_out
  | |- uses (sshpkt_put _) => unfold sshpkt_put
  | |- uses (sshpkt_put_u32 _) => unfold sshpkt_put_u32
  | |- uses (sshpkt_put_cstring _) => unfold sshpkt_put_cstring
  | |- uses (sshpkt_start _) => apply uses_keeps; intros ?; reflexivity
  end.
Ltac use := repeat use_step.

Lemma uses_mux : uses ssh_packet_send_mux.
Proof. unfold ssh_packet_send_mux. use. Qed.
Lemma uses_queue rekex fuel : uses rekex -> uses (send_queue rekex fuel).
Proof. intros Hr. induction fuel as [|fuel IH]; cbn [send_queue]; use; done. Qed.
Lemma uses_body rekex : uses rekex -> uses (send_body rekex).
Proof. intros Hr. unfold send_body. apply uses_get. intros s. destruct (mux s); [apply uses_mux|]. unfold send2_body. use; try done. by apply uses_queue. Qed.

Lemma uses_kexinit : uses kex_send_kexinit.
Proof.
  intros s a s' Hn E. unfold kex_send_kexinit in E. rewrite run_get in E. cbv zeta in E. destruct (negb _); [by apply run_inj in E as [_ <-]|].
  rewrite run_modify in E. set (s1 := set_kx _ s) in E. change (out_view s) with (out_view s1). change (newkeys_out (kx s1) = None) in Hn. clearbody s1.
  destruct (_ <? _); [done|]. destruct (sshbuf_mutable_ptr _) as [q|]; [|done]. revert a s' E. apply (uses_at s1 Hn). use.
  apply uses_body. use.
Qed.
Lemma uses_rekex : uses kex_start_rekex.
Proof.
  intros s a s' Hn E. unfold kex_start_rekex in E. rewrite run_get in E. destruct (negb _); [done|]. rewrite run_modify in E.
  set (s1 := set_kx _ s) in E. change (out_view s) with (out_view s1). by apply (uses_kexinit s1 a).
Qed.
Lemma uses_send : uses sshpkt_send.
Proof. apply uses_body, uses_rekex. Qed.

Lemma keeps_mux_wrapped : keeps mux ssh_packet_send2_wrapped.
Proof.
  unfold ssh_packet_send2_wrapped, ssh_set_newkeys, ssh_packet_enable_delayed_compress, enable_delayed_mode, ssh_packet_init_compression, start_compression,
    start_compression_in, start_compression_out. keep.
Qed.
Lemma keeps_mux_queue rekex fuel : keeps mux rekex -> keeps mux (send_queue rekex fuel).
Proof.
  intros Hr. induction fuel as [|fuel IH]; cbn [send_queue]; [keep|]. apply keeps_get. intros s. destruct (outgoing s) as [|[ty q] rest]; [keep|].
  destruct (ssh_packet_need_rekeying _ _); [done|]. apply keeps_bind; [keep|intros _]. apply keeps_bind; [apply keeps_mux_wrapped|intros _; exact IH].
Qed.
Lemma keeps_mux_body rekex : keeps mux rekex -> keeps mux (send_body rekex).
Proof.
  intros Hr. unfold send_body, ssh_packet_send_mux, send2_body. keep; try done; [apply keeps_mux_wrapped..|]. by apply keeps_mux_queue.
Qed.
Lemma keeps_mux_send : keeps mux sshpkt_send.
Proof.
  apply keeps_mux_body. unfold kex_start_rekex, kex_send_kexinit, sshpkt_start, sshpkt_put. keep. apply keeps_mux_body. keep.
Qed.

(** ** NEWKEYS to the peer *)

Lemma wrapped_newkeys s s' :
  znth (outgoing_packet s) 5 = SSH2_MSG_NEWKEYS -> ssh_packet_send2_wrapped s = (Ok tt, s') -> in_use MODE_OUT s' (kx s) /\ newkeys_out (kx s') = None.
Proof.
  intros Ht E. unfold ssh_packet_send2_wrapped in E. rewrite run_get in E. cbv zeta in E. rewrite Ht in E.
  apply bind_ok in E as ([] & s1 & E1 & E). assert (kx s1 = kx s) as V1.
  { match type of E1 with ?m s = _ => assert (keeps kx m) as Hk by (destruct (comp_live _); keep) end. specialize (Hk s). by rewrite E1 in Hk. }
  apply bind_ok in E as (pkt & s2 & E2 & E). assert (kx s2 = kx s1) as V2.
  { match type of E2 with ?m s1 = _ => assert (keeps kx m) as Hk by keep end. specialize (Hk s1). by rewrite E2 in Hk. }
  apply bind_ok in E as ([] & s3 & E3 & E). assert (kx s3 = kx s2) as V3.
  { match type of E3 with ?m s2 = _ => assert (keeps kx m) as Hk by keep end. specialize (Hk s2). by rewrite E3 in Hk. }
  rewrite run_get in E. destruct (_ && _); [by run_in E|]. run_in E. apply (set_newkeys_use MODE_OUT) in E. cbn [kx set_out_dir set_outgoing_packet] in E.
  by rewrite V3, V2, V1 in E.
Qed.

Lemma send_newkeys_use s s' :
  mux s = false -> (_ ← sshpkt_start SSH2_MSG_NEWKEYS; sshpkt_send) s = (Ok tt, s') -> in_use MODE_OUT s' (kx s) /\ newkeys_out (kx s') = None.
Proof.
  intros Hm E. apply bind_ok in E as ([] & s0 & E0 & E). assert (s0 = set_outgoing_packet [0; 0; 0; 0; 0; SSH2_MSG_NEWKEYS] s) as ->.
  { by apply run_inj in E0 as [_ <-]. }
  unfold sshpkt_send, send_body in E. rewrite run_get in E. change (mux (set_outgoing_packet _ s)) with (mux s) in E. rewrite Hm in E.
  unfold send2_body in E. rewrite run_get in E. cbn [outgoing_packet set_outgoing_packet] in E. change (_ <? 6) with false in E. cbv iota zeta in E.
  change (znth [0; 0; 0; 0; 0; SSH2_MSG_NEWKEYS] 5) with SSH2_MSG_NEWKEYS in E. change (ssh_packet_type_is_kex SSH2_MSG_NEWKEYS) with true in E.
  cbn [negb] in E. rewrite andb_false_r in E. change (SSH2_MSG_NEWKEYS =? SSH2_MSG_KEXINIT) with false in E. cbv iota in E. rewrite run_ret in E.
  apply bind_ok in E as ([] & s1 & E1 & E). apply wrapped_newkeys in E1 as [[Hs1 Hs2] Hn]; [|done]. cbn [kx set_outgoing_packet] in Hs1, Hs2.
  rewrite Z.eqb_refl, run_modify, run_get in E. set (s2 := set_rekey_time _ _) in E. apply (uses_queue _ _ uses_rekex) in E; [|done].
  injection E as V1 V2. split; [|by rewrite V2]. split; [done|]. rewrite <- Hs2. exact V1.
Qed.

(** The keys that wait for sending are in use once NEWKEYS is sent. *)
Lemma kex_send_newkeys_use c c' : mux (cn c) = false -> kex_send_newkeys c = (Ok tt, c') -> in_use MODE_OUT (cn c') (kx (cn c)).
Proof.
  unfold kex_send_newkeys. intros Hm E. apply bind_ok in E as ([] & c1 & [_ <-]%run_inj & E). apply bind_ok in E as ([] & c2 & E2 & E).
  unfold on_ssh in E2. change (cn (kex_reset_dispatch c)) with (cn c) in E2.
  destruct ((_ ← sshpkt_start SSH2_MSG_NEWKEYS; sshpkt_send) (cn c)) as [r s2] eqn:Es. destruct r as [[]|e]; [|done]. apply run_inj in E2 as [_ <-].
  apply send_newkeys_use in Es as [Hs Hn]; [|done]. apply bind_ok in E as ([] & c3 & [_ <-]%run_inj & E). rewrite run_get in E.
  enough (out_view (cn c') = out_view s2) as [= V _].
  { destruct Hs as [Hs1 Hs2]. split; [done|]. rewrite <- Hs2. exact V. }
  destruct (_ && _); [|by apply run_inj in E as [_ <-]]. unfold kex_send_ext_info in E. destruct server_pkalgs as [algs|]; [|by apply run_inj in E as [_ <-]].
  unfold on_ssh in E. match type of E with context [?m (cn ?x)] => destruct (m (cn x)) as [r s3] eqn:E3 end. injection E as -> <-.
  revert E3. apply (uses_at s2 Hn). use. apply uses_send.
Qed.
End use.
