(* ===== verification/KexEnd.v ===== *)
(** The messages that end a key exchange: what a handler that succeeds has read,
    checked and derived. *)

From S2P Require Import Prelude Match Sshbuf SshbufGetPut AlgNames Digest ChaCha Poly1305 ChachaPoly Cipher Kex Packet PacketKeep Dh KexFlow KexHash KexSafe KexUse.
Local Open Scope Z_scope.

(** The next step of a handler that succeeded. *)
Tactic Notation "got" hyp(E) simple_intropattern(p) := apply bind_ok in E as p.

Section ends.
Context `{Allocator} `{EvpCipher} `{Uninit} `{EvpDigest} `{Umac} `{Zlib} `{Random} `{Fellows} `{HostKeyNames} `{KexKem} `{OpensslDh} `{HostKeys} `{KexConfig}.

(** ** Reading *)

Lemma on_ssh_ok {A} (m : SE ssh A) c a s : m (cn c) = (Ok a, s) -> on_ssh m c = (Ok a, set_cn s c).
Proof. unfold on_ssh. by intros ->. Qed.
Lemma on_ssh_inv {A} (m : SE ssh A) c a c' : on_ssh m c = (Ok a, c') -> exists s, m (cn c) = (Ok a, s) /\ c' = set_cn s c.
Proof. unfold on_ssh. destruct (m (cn c)) as [r s]. intros [= -> <-]. eauto. Qed.
Lemma give_inv {A} (r : result A) c a c' : give r c = (Ok a, c') -> r = Ok a /\ c' = c.
Proof. by intros [= -> ->]. Qed.

(** Only the packet that is read changes. *)
Definition reads {A} (m : SE ssh A) : Prop := forall s a s', m s = (Ok a, s') -> exists rest, s' = set_incoming_packet rest s.

Lemma reads_get n : reads (sshpkt_get n).
Proof. intros s a s' E. unfold sshpkt_get in E. run_in E. destruct (bconsume _ _); [|done]. run_in E. apply run_inj in E as [_ <-]. eauto. Qed.
Lemma packet_reads_bind {A B} (m : SE ssh A) (f : A -> SE ssh B) : reads m -> (forall a, reads (f a)) -> reads (m ≫= f).
Proof.
  intros Hm Hf s b s' E. apply bind_ok in E as (a & s1 & E1 & E). apply Hm in E1 as [r1 ->]. apply Hf in E as [r2 ->]. by exists r2.
Qed.
Lemma packet_reads_ret {A} (a : A) : reads (mret a).
Proof. intros s ? ? [_ <-]%run_inj. exists (incoming_packet s). by destruct s. Qed.
Lemma reads_string : reads sshpkt_get_string.
Proof.
  intros s a s' E. unfold sshpkt_get_string in E. rewrite run_get in E. destruct (_ <? 4); [done|]. destruct (_ >? _); [done|]. destruct (_ <? _); [done|].
  exact (packet_reads_bind _ _ (reads_get _) (fun _ => reads_get _) s a s' E).
Qed.
Lemma reads_bignum : reads sshpkt_get_bignum2.
Proof.
  intros s a s' E. unfold sshpkt_get_bignum2 in E. rewrite run_get in E. destruct (_ <? 4); [done|]. destruct (_ >? _); [done|]. destruct (_ <? _); [done|].
  cbv zeta in E. destruct (_ && _); [done|]. destruct (_ || _); [done|].
  refine (packet_reads_bind _ _ (reads_get _) _ s a s' E). intros _. destruct BN_new_ok; [apply packet_reads_ret|done].
Qed.
Lemma get_end_inv s a s' : sshpkt_get_end s = (Ok a, s') -> s' = s.
Proof. unfold sshpkt_get_end. rewrite run_get. destruct (_ >? 0); [done|]. by intros [_ <-]%run_inj. Qed.

(** ** Keys *)

Lemma derive_ok hash secret c c' :
  derive hash secret c = (Ok tt, c') -> exists b k, sshbuf_from secret = Some b /\ kex_derive_keys hash b (kx (cn c)) = (Ok tt, k) /\
    is_Some (newkeys_in (kx (cn c))) /\ c' = set_cn (set_kx k (cn c)) c.
Proof.
  unfold derive. destruct (sshbuf_from secret) as [b|]; [|done]. destruct (kex_derive_keys _ _ _) as [[[]|e] k] eqn:E; [|done].
  destruct (newkeys_in (kx (cn c))), (newkeys_out (kx (cn c))); try done. intros [= <-]. eauto 8.
Qed.

Lemma derive_keys_in hash b k k' : kex_derive_keys hash b k = (Ok tt, k') -> is_Some (newkeys_in k) -> is_Some (newkeys_in k').
Proof.
  unfold kex_derive_keys. destruct (session_id k); [|destruct (malloc_ok _); [|done]]; cbv iota beta;
    (destruct (derive_all _ _ _ _ _); [|done]); intros [= <-] Hk; by apply fmap_is_Some.
Qed.

(** Sending NEWKEYS leaves the keys for reading. *)
Lemma send_newkeys_in c c' : kex_send_newkeys c = (Ok tt, c') -> in_key (cn c') = in_key (cn c).
Proof.
  assert (forall (m : SE ssh unit) c0 c1, keeps in_key m -> on_ssh m c0 = (Ok tt, c1) -> in_key (cn c1) = in_key (cn c0)) as Hon.
  { intros m c0 c1 Hm E. apply on_ssh_inv in E as (s & E & ->). specialize (Hm (cn c0)). by rewrite E in Hm. }
  unfold kex_send_newkeys. intros E. apply bind_ok in E as ([] & c1 & [_ <-]%run_inj & E). apply bind_ok in E as ([] & c2 & E2 & E).
  apply Hon in E2; [|apply keeps_bind; [done|]; intros _; apply send_in_key]. change (in_key (cn c)) with (in_key (cn (kex_reset_dispatch c))).
  rewrite <- E2. apply bind_ok in E as ([] & c3 & [_ <-]%run_inj & E). rewrite run_get in E. destruct (_ && _); [|by apply run_inj in E as [_ <-]].
  unfold kex_send_ext_info in E. destruct server_pkalgs as [algs|]; [|by apply run_inj in E as [_ <-]]. apply Hon in E; [exact E|].
  apply keeps_bind; [done|intros _]. apply keeps_bind; [apply keeps_in_key, keeps_put|intros _].
  do 4 (apply keeps_bind; [apply keeps_in_key, keeps_put_cstring|intros _]). apply send_in_key.
Qed.

(** What a handler leaves once it has derived keys from the state [d]. *)
Definition keyed (d d' : conn) (k : kex) : Prop :=
  is_Some (newkeys_in k) /\ newkeys_in (kx (cn d')) = newkeys_in k /\ (mux (cn d) = false -> in_use MODE_OUT (cn d') k).

Lemma derive_and_send hash secret d c c' :
  kx (cn c) = kx (cn d) -> mux (cn c) = mux (cn d) -> (_ ← derive hash secret; kex_send_newkeys) c = (Ok tt, c') ->
  exists k, derived hash secret d k /\ keyed d c' k.
Proof.
  intros Hk Hm E. apply bind_ok in E as ([] & c1 & E1 & E). apply derive_ok in E1 as (b & k & Eb & Ek & Hi & ->). rewrite Hk in Ek, Hi.
  exists k. split; [by exists b|]. split; [by eapply derive_keys_in|]. split.
  - exact (send_newkeys_in _ _ E).
  - intros Hmux. rewrite <- Hm in Hmux. by apply kex_send_newkeys_use in E.
Qed.

(** ** The checks *)

Lemma verify_inv key c c' : kex_verify_host_key key c = (Ok tt, c') ->
  c' = c /\ sshkey_match_pkalg key (hostkey_alg (kx (cn c))) = true /\ exists verify, verify_host_key = Some verify /\ verify key = true.
Proof.
  unfold kex_verify_host_key. destruct verify_host_key as [v|]; [|done]. rewrite run_get. destruct (sshkey_match_pkalg _ _); [|done]. cbn [negb].
  destruct (v key) eqn:Ev; [|done]. intros [_ <-]%run_inj. eauto.
Qed.
Lemma load_inv c public private c' :
  kex_load_host_keys c = (Ok (public, private), c') -> c' = c /\ loaded_host_keys (kx (cn c)) public private.
Proof.
  unfold kex_load_host_keys. destruct find_host_public_key as [fpub|] eqn:E1; [|done]. destruct find_host_private_key as [fpriv|] eqn:E2; [|done].
  rewrite run_get. destruct (fpub _) as [k|] eqn:E3; [|done]. intros [[= <- <-] <-]%run_inj. split; [done|]. exists fpub, fpriv. done.
Qed.
Lemma kex_dh_inv c g pub c' : kex_dh c = (Ok (g, pub), c') -> c' = c /\ gex_dh (gex c) = Some g /\ pub_key g = Some pub.
Proof.
  unfold kex_dh. rewrite run_get. destruct (gex_dh (gex c)) as [d|]; [|done]. destruct (pub_key d) as [q|] eqn:E; [|done]. by intros [[= <- <-] <-]%run_inj.
Qed.

(** ** The client *)

Lemma reply_keyed d d' : input_kex_gen_reply d = (Ok tt, d') -> exists k, gen_replied d k /\ keyed d d' k.
Proof.
  intros E. unfold input_kex_gen_reply in E. destruct (reply_body d) as [r c'] eqn:Er. injection E as -> <-. rename Er into E. unfold reply_body in E.
  got E (blob & c1 & E1 & E). apply on_ssh_inv in E1 as (s1 & E1 & ->). rewrite run_get in E. cbv zeta in E. pose proof (reads_string _ _ _ E1) as [r1 ->].
  got E (key & c2 & [Ek ->]%give_inv & E). got E ([] & c2 & (-> & Em & Ev)%verify_inv & E).
  got E (spub & c3 & (s3 & E3 & ->)%on_ssh_inv & E). cbn [cn set_cn] in E3. pose proof (reads_string _ _ _ E3) as [r3 ->].
  got E (sig & c4 & (s4 & E4 & ->)%on_ssh_inv & E). cbn [cn set_cn] in E4. pose proof (reads_string _ _ _ E4) as [r4 ->].
  got E ([] & c5 & (s5 & E5 & ->)%on_ssh_inv & E). cbn [cn set_cn] in E5. pose proof (get_end_inv _ _ _ E5) as ->.
  rewrite run_get in E. cbv zeta in E. got E (secret & c6 & E6 & E). destruct (gen_type _); [|done]. cbn [client_key set_cn] in E6.
  destruct (client_key d) as [ck|] eqn:Ec; [|done]. apply give_inv in E6 as [E6 ->]. got E (hash & c7 & [E7 ->]%give_inv & E).
  apply gen_hash_rfc in E7. got E ([] & c8 & [E8 ->]%give_inv & E). apply (derive_and_send hash secret d) in E as (k & Hd & Hk); [|done..].
  exists k. split; [|exact Hk]. exists blob, spub, sig, key, ck, secret, hash. split; [|done]. unfold gen_reply_message.
  by rewrite (se_bind_ok _ _ _ _ _ E1), (se_bind_ok _ _ _ _ _ E3), (se_bind_ok _ _ _ _ _ E4), (se_bind_ok _ _ _ _ _ E5).
Qed.

Lemma gex_reply_keyed d d' : input_kex_dh_gex_reply d = (Ok tt, d') -> exists k, gex_replied d k /\ keyed d d' k.
Proof.
  intros E. unfold input_kex_dh_gex_reply, freeing_dh in E. destruct (gex_reply_body d) as [r c'] eqn:Er. injection E as -> <-. rename Er into E.
  unfold gex_reply_body in E.
  got E (blob & c1 & E1 & E). apply on_ssh_inv in E1 as (s1 & E1 & ->). rewrite run_get in E. cbv zeta in E. pose proof (reads_string _ _ _ E1) as [r1 ->].
  got E (key & c2 & [Ek ->]%give_inv & E). got E ([] & c2 & (-> & Em & Ev)%verify_inv & E).
  got E (spub & c3 & (s3 & E3 & ->)%on_ssh_inv & E). cbn [cn set_cn] in E3. pose proof (reads_bignum _ _ _ E3) as [r3 ->].
  got E (sig & c4 & (s4 & E4 & ->)%on_ssh_inv & E). cbn [cn set_cn] in E4. pose proof (reads_string _ _ _ E4) as [r4 ->].
  got E ([] & c5 & (s5 & E5 & ->)%on_ssh_inv & E). cbn [cn set_cn] in E5. pose proof (get_end_inv _ _ _ E5) as ->.
  got E ([g cpub] & c6 & (-> & Eg & Ep)%kex_dh_inv & E). got E (secret & c7 & [E7 ->]%give_inv & E).
  got E ([] & c8 & E8 & E). set (c7 := set_cn _ _) in E8. assert (c8 = if old_dhgex then set_kex_sizes NO_SIZE (gex_nbits (gex d)) NO_SIZE c7 else c7) as ->.
  { destruct old_dhgex; by apply run_inj in E8 as [_ <-]. }
  rewrite run_get in E. cbv zeta in E. got E (hash & c9 & [E9 ->]%give_inv & E). apply gex_hash_rfc in E9. got E ([] & c9 & [E10 ->]%give_inv & E).
  apply (derive_and_send hash secret d) in E as (k & Hd & Hk); [|by destruct old_dhgex..].
  exists k. split; [|exact Hk]. exists blob, spub, sig, key, g, cpub, secret, hash. split.
  - unfold gex_reply_message. by rewrite (se_bind_ok _ _ _ _ _ E1), (se_bind_ok _ _ _ _ _ E3), (se_bind_ok _ _ _ _ _ E4), (se_bind_ok _ _ _ _ _ E5).
  - split; [done|]. do 3 (split; [done|]). split; [|done]. by destruct old_dhgex.
Qed.

(** ** The server *)

(** The reply of the server is a message of the key exchange. *)
Lemma send_reply_kx blob spub sig : keeps kx (send_reply blob spub sig).
Proof. apply (start_type (fun k => k)); [done|]. do 3 apply put_cstring_type. by apply send_type_end. Qed.
Lemma put_bignum_type {T} (g : kex -> T) t v (f : unit -> SE ssh unit) : with_type g t (f tt) -> with_type g t (sshpkt_put_bignum2 v ≫= f).
Proof. intros Hf. unfold sshpkt_put_bignum2. destruct (_ >? _); [by intros s _ _|]. by apply put_cstring_type. Qed.
Lemma send_gex_reply_kx blob spub sig : keeps kx (send_gex_reply blob spub sig).
Proof. apply (start_type (fun k => k)); [done|]. apply put_cstring_type, put_bignum_type, put_cstring_type. by apply send_type_end. Qed.

Lemma keeps_mux_put v : keeps mux (sshpkt_put v).
Proof. unfold sshpkt_put. keep. Qed.
Lemma keeps_mux_string v : keeps mux (sshpkt_put_cstring v).
Proof. unfold sshpkt_put_cstring. destruct (_ >? _); [keep|apply keeps_mux_put]. Qed.
Lemma send_reply_mux blob spub sig : keeps mux (send_reply blob spub sig).
Proof. apply keeps_bind; [done|intros _]. do 3 (apply keeps_bind; [apply keeps_mux_string|intros _]). apply keeps_mux_send. Qed.
Lemma send_gex_reply_mux blob spub sig : keeps mux (send_gex_reply blob spub sig).
Proof.
  apply keeps_bind; [done|intros _]. apply keeps_bind; [apply keeps_mux_string|intros _]. apply keeps_bind.
  { unfold sshpkt_put_bignum2. destruct (_ >? _); [keep|apply keeps_mux_string]. }
  intros _. apply keeps_bind; [apply keeps_mux_string|intros _]. apply keeps_mux_send.
Qed.

Lemma init_keyed d d' : input_kex_gen_init d = (Ok tt, d') -> exists k, gen_answered d k /\ keyed d d' k.
Proof.
  intros E. unfold input_kex_gen_init in E. got E ([public private] & c1 & [-> Hl]%load_inv & E).
  got E (cpub & c1 & (s1 & E1 & ->)%on_ssh_inv & E). pose proof (reads_string _ _ _ E1) as [r1 ->].
  got E ([] & c2 & (s2 & E2 & ->)%on_ssh_inv & E). cbn [cn set_cn] in E2. pose proof (get_end_inv _ _ _ E2) as ->.
  got E ([spub secret] & c3 & E3 & E). unfold drawing in E3. destruct (gen_type _); [|done]. apply pair_equal_spec in E3 as [E3 <-].
  rewrite run_get in E. cbv zeta in E. got E (blob & c4 & [E4 ->]%give_inv & E). got E (hash & c5 & [E5 ->]%give_inv & E). apply gen_hash_rfc in E5.
  got E (sig & c6 & [E6 ->]%give_inv & E). got E ([] & c7 & (sent & E7 & ->)%on_ssh_inv & E). cbn [cn set_cn draws set_incoming_packet] in E7.
  set (s2 := set_draws _ _) in E7. pose proof (send_reply_kx blob spub sig s2) as Hk. rewrite E7 in Hk. cbn [snd] in Hk.
  pose proof (send_reply_mux blob spub sig s2) as Hm. rewrite E7 in Hm. cbn [snd] in Hm.
  apply (derive_and_send hash secret d) in E as (k & Hd & Hkey); [|done..]. exists k. split; [|done].
  exists cpub, (set_incoming_packet r1 (cn d)), public, private, blob, spub, secret, hash, sig, sent. split.
  - unfold gen_init_message. by rewrite (se_bind_ok _ _ _ _ _ E1), (se_bind_ok _ _ _ _ _ E2).
  - done.
Qed.

Lemma gex_init_keyed d d' : input_kex_dh_gex_init d = (Ok tt, d') -> exists k, gex_answered d k /\ keyed d d' k.
Proof.
  intros E. unfold input_kex_dh_gex_init, freeing_dh in E. destruct (gex_init_body d) as [r c'] eqn:Er. injection E as -> <-. rename Er into E.
  unfold gex_init_body in E. got E ([public private] & c1 & [-> Hl]%load_inv & E).
  got E (cpub & c1 & (s1 & E1 & ->)%on_ssh_inv & E). pose proof (reads_bignum _ _ _ E1) as [r1 ->].
  got E ([] & c2 & (s2 & E2 & ->)%on_ssh_inv & E). cbn [cn set_cn] in E2. pose proof (get_end_inv _ _ _ E2) as ->.
  got E ([g spub] & c3 & (-> & Eg & Ep)%kex_dh_inv & E). got E (secret & c3 & [E3 ->]%give_inv & E).
  rewrite run_get in E. cbv zeta in E. got E (blob & c4 & [E4 ->]%give_inv & E). got E (hash & c5 & [E5 ->]%give_inv & E). apply gex_hash_rfc in E5.
  got E (sig & c6 & [E6 ->]%give_inv & E). got E ([] & c7 & (sent & E7 & ->)%on_ssh_inv & E). cbn [cn set_cn] in E7.
  pose proof (send_gex_reply_kx blob spub sig (set_incoming_packet r1 (cn d))) as Hk. rewrite E7 in Hk. cbn [snd] in Hk.
  pose proof (send_gex_reply_mux blob spub sig (set_incoming_packet r1 (cn d))) as Hm. rewrite E7 in Hm. cbn [snd] in Hm.
  apply (derive_and_send hash secret d) in E as (k & Hd & Hkey); [|done..]. exists k. split; [|done].
  exists cpub, (set_incoming_packet r1 (cn d)), public, private, blob, g, spub, secret, hash, sig, sent. split.
  - unfold gex_init_message. by rewrite (se_bind_ok _ _ _ _ _ E1), (se_bind_ok _ _ _ _ _ E2).
  - done.
Qed.
End ends.
