(* ===== verification/KexPhase.v ===== *)
(** The key exchange as a state machine: every message that is handled moves the
    connection from phase to phase, a handler always finds what it needs, and the
    keys that NEWKEYS puts into use come from a verified exchange. *)

From Stdlib Require Import String.
From S2P Require Import Prelude Match Sshbuf SshbufGetPut AlgNames Digest ChaCha Poly1305 ChachaPoly Cipher Kex Packet PacketKeep PacketNet Dh KexFlow KexHash KexSafe KexUse KexEnd.
Local Open Scope Z_scope.

Section phases.
Context `{Allocator} `{EvpCipher} `{Uninit} `{EvpDigest} `{Umac} `{Zlib} `{Random} `{Fellows} `{HostKeyNames} `{KexKem} `{OpensslDh} `{HostKeys} `{KexConfig}.

(** ** Pre- and postconditions *)

(** From [P], the operation does not crash, and when it succeeds [Q] holds. *)
Definition runs {A} (P : conn -> Prop) (m : SE conn A) (Q : A -> conn -> Prop) : Prop :=
  forall c, crashed c = false -> P c -> crashed (snd (m c)) = false /\ forall a, fst (m c) = Ok a -> Q a (snd (m c)).

Lemma runs_bind {A B} P (m : SE conn A) R (f : A -> SE conn B) Q :
  runs P m R -> (forall a, runs (R a) (f a) Q) -> runs P (m ≫= f) Q.
Proof.
  intros Hm Hf c Hc HP. destruct (Hm c Hc HP) as [R1 R2]. unfold mbind, se_bind. destruct (m c) as [[a|e] c1]; cbn [fst snd] in *;
    [|done]. by apply Hf; [|apply R2].
Qed.
Lemma runs_weaken {A} (P P' : conn -> Prop) (m : SE conn A) (Q Q' : A -> conn -> Prop) :
  (forall c, P c -> P' c) -> (forall a c, Q' a c -> Q a c) -> runs P' m Q' -> runs P m Q.
Proof. intros HP HQ Hm c Hc Hp. destruct (Hm c Hc (HP c Hp)) as [R1 R2]. split; [done|]. intros a Ha. by apply HQ, R2. Qed.
Lemma runs_pre {A} (P P' : conn -> Prop) (m : SE conn A) Q : (forall c, P c -> P' c) -> runs P' m Q -> runs P m Q.
Proof. intros HP. by apply runs_weaken. Qed.
Lemma runs_ret {A} (a : A) (Q : A -> conn -> Prop) : runs (Q a) (mret a) Q.
Proof. intros c Hc HQ. split; [done|]. by intros b [= <-]. Qed.
Lemma runs_get {A} P (f : conn -> SE conn A) Q : (forall c0, P c0 -> runs (eq c0) (f c0) Q) -> runs P (se_get ≫= f) Q.
Proof. intros Hf c Hc HP. by apply Hf. Qed.
Lemma runs_stop {A} P e (Q : A -> conn -> Prop) : runs P (stop e) Q.
Proof. by intros c Hc HP. Qed.
Lemma runs_give {A} P (r : result A) : runs P (give r) (fun a c => P c /\ r = Ok a).
Proof. intros c Hc HP. by split. Qed.
Lemma runs_change P (f : conn -> conn) (Q : conn -> Prop) :
  (forall c, crashed (f c) = crashed c) -> (forall c, P c -> Q (f c)) -> runs P (change f) (fun _ => Q).
Proof. intros Hf HQ c Hc HP. split; [by cbn; rewrite Hf|]. intros ? _. by apply HQ. Qed.

(** A predicate that sees no more of the session than [g]. *)
Definition stable {T} (g : ssh -> T) (P : conn -> Prop) : Prop := forall c s, g s = g (cn c) -> P c -> P (set_cn s c).

Lemma runs_ssh {T A} (g : ssh -> T) (m : SE ssh A) P : keeps g m -> stable g P -> runs P (on_ssh m) (fun _ => P).
Proof.
  intros Hm HP c Hc Hp. specialize (Hm (cn c)). unfold on_ssh. destruct (m (cn c)) as [r s]. split; [done|]. intros ? _. by apply HP.
Qed.
(** Operations that may change all of the session. *)
Lemma runs_any {A} (m : SE ssh A) P : stable (fun _ => tt) P -> runs P (on_ssh m) (fun _ => P).
Proof. by apply runs_ssh. Qed.
Lemma runs_kx {A} (m : SE kex A) P : stable (fun _ => tt) P -> runs P (on_kx m) (fun _ => P).
Proof. intros HP c Hc Hp. unfold on_kx. destruct (m _) as [r k]. split; [done|]. intros ? _. by apply HP. Qed.

Lemma phase_stable p : stable keys_view (in_phase p).
Proof.
  intros c s Hs [Ht Hp]. split; [done|]. injection Hs as Hi Ho. destruct p; cbn in *; unfold fresh_keys in *; cbn [cn set_cn]; by rewrite ?Hi, ?Ho.
Qed.

Definition table_in (p : phase) (c : conn) : Prop := table_at p (table c).
Lemma table_in_stable p : stable (fun _ => tt) (table_in p).
Proof. by intros c s _ Hp. Qed.

(** ** Sending NEWKEYS *)

Lemma to_idle p : forall c, table_in p c -> table_in Idle (kex_reset_dispatch c).
Proof. intros c. unfold table_in, kex_reset_dispatch, ssh_dispatch_range. cbn [table set_table]. apply reset_idle. Qed.

Lemma set_entry p q i o c :
  table_in p c -> 0 <= i < DISPATCH_MAX ->
  (forall h, o = Some h -> is_Some (kex_handler h) -> expects q h = true /\ kex_handler h = Some (Z.to_nat i)) ->
  (forall h, expects p h = true -> kex_handler h = Some (Z.to_nat i) \/ expects q h = true) ->
  table_in q (ssh_dispatch_set i o c).
Proof. intros Ht Hi. unfold table_in, ssh_dispatch_set. cbn [table set_table]. apply insert_at; [done|lia]. Qed.

Lemma runs_ext_info_sent P : stable (fun _ => tt) P -> runs P kex_send_ext_info (fun _ => P).
Proof.
  intros HP. unfold kex_send_ext_info. destruct server_pkalgs as [algs|]; [|apply (runs_ret tt (fun _ => P))]. by apply runs_any.
Qed.

Lemma runs_send_newkeys p type d k : runs (table_in p) kex_send_newkeys (fun _ => table_in (Keyed type d k)).
Proof.
  unfold kex_send_newkeys. eapply runs_bind; [apply (runs_change _ _ (table_in Idle)); [done|apply to_idle]|].
  intros []. eapply runs_bind; [apply runs_any, table_in_stable|]. intros []. eapply runs_bind.
  { apply (runs_change _ _ (table_in (Keyed type d k))); [done|]. intros c Ht. apply (set_entry Idle); [done|done|by intros ? [= <-]|by intros []]. }
  intros []. apply runs_get. intros c0 Hc0. apply (runs_pre _ (table_in (Keyed type d k))); [by intros ? <-|].
  destruct (_ && _); [|apply (runs_ret tt (fun _ => _))]. apply runs_ext_info_sent, table_in_stable.
Qed.

(** ** The steps before it *)

(** The connection is as [c0] apart from what was read. *)
Definition reading (c0 c : conn) : Prop := exists s, c = set_cn s c0 /\ kx s = kx (cn c0).

Lemma reading_refl c : reading c c.
Proof. exists (cn c). by destruct c. Qed.
Lemma reading_stable c0 : stable kx (reading c0).
Proof. intros c s Hs (s1 & -> & Hk). exists s. split; [done|]. by rewrite Hs. Qed.
Lemma runs_reading {A} c0 (m : SE ssh A) : keeps kx m -> runs (reading c0) (on_ssh m) (fun _ => reading c0).
Proof. intros Hm. apply (runs_ssh kx); [done|]. apply reading_stable. Qed.
(** What a step sees of the connection is that of [c0]. *)
Lemma runs_see {A} c0 (f : conn -> SE conn A) Q :
  (forall s, kx s = kx (cn c0) -> runs (reading c0) (f (set_cn s c0)) Q) -> runs (reading c0) (se_get ≫= f) Q.
Proof.
  intros Hf. apply runs_get. intros c (s & -> & Hs). apply (runs_pre _ (reading c0)); [|by apply Hf]. intros ? <-. by exists s.
Qed.

Lemma runs_give_reading {A B} c0 (r : result A) (f : A -> SE conn B) Q :
  (forall a, r = Ok a -> runs (reading c0) (f a) Q) -> runs (reading c0) (give r ≫= f) Q.
Proof.
  intros Hf. eapply runs_bind; [apply runs_give|]. intros a c Hc [HP Ha]. by apply (Hf a Ha).
Qed.

(** Key derivation finds the new keys. *)
Lemma runs_derive c0 hash secret : fresh_keys c0 -> runs (reading c0) (derive hash secret) (fun _ c => table c = table c0).
Proof.
  intros [[nk Hn] [nk' Ho]] c Hc (s & -> & Hs). unfold derive. cbn [cn set_cn]. rewrite Hs, Hn, Ho.
  destruct (sshbuf_from secret) as [b|]; [|done]. by destruct (kex_derive_keys hash b (kx (cn c0))) as [[[]|e] k'].
Qed.

(** The end of the four handlers that derive keys. *)
Lemma runs_keyed p c0 type d k hash secret :
  fresh_keys c0 -> table_in p c0 -> runs (reading c0) (_ ← derive hash secret; kex_send_newkeys) (fun _ => table_in (Keyed type d k)).
Proof.
  intros Hf Ht. eapply runs_bind; [by apply runs_derive|]. intros []. apply (runs_pre _ (table_in p)); [|apply runs_send_newkeys].
  intros c Et. unfold table_in. by rewrite Et.
Qed.

Lemma runs_verify_host_key {A} c0 key (f : SE conn A) Q :
  runs (reading c0) f Q -> runs (reading c0) (_ ← kex_verify_host_key key; f) Q.
Proof.
  intros Hf. apply (runs_bind _ _ (fun _ => reading c0)); [|by intros []]. unfold kex_verify_host_key.
  destruct verify_host_key as [v|]; [|apply runs_stop]. apply runs_see. intros s Hs.
  destruct (negb _); [apply runs_stop|]. destruct (negb _); [apply runs_stop|]. apply (runs_ret tt (fun _ => reading c0)).
Qed.

(** ** The handlers *)

Lemma runs_get_string {A} c0 (f : list Z -> SE conn A) Q :
  (forall v, runs (reading c0) (f v) Q) -> runs (reading c0) (on_ssh sshpkt_get_string ≫= f) Q.
Proof. intros Hf. eapply runs_bind; [apply runs_reading; by apply keeps_pkt_get_string|]. exact Hf. Qed.
Lemma keeps_pkt_get_bignum : keeps kx sshpkt_get_bignum2.
Proof. unfold sshpkt_get_bignum2. keep. by apply keeps_pkt_get. Qed.
Lemma runs_get_bignum {A} c0 (f : Z -> SE conn A) Q :
  (forall v, runs (reading c0) (f v) Q) -> runs (reading c0) (on_ssh sshpkt_get_bignum2 ≫= f) Q.
Proof. intros Hf. eapply runs_bind; [apply runs_reading, keeps_pkt_get_bignum|]. exact Hf. Qed.
Lemma runs_get_u32 {A} c0 (f : Z -> SE conn A) Q :
  (forall v, runs (reading c0) (f v) Q) -> runs (reading c0) (on_ssh sshpkt_get_u32 ≫= f) Q.
Proof. intros Hf. eapply runs_bind; [apply runs_reading; by apply keeps_pkt_get_u32|]. exact Hf. Qed.
Lemma runs_get_end {A} c0 (f : SE conn A) Q : runs (reading c0) f Q -> runs (reading c0) (_ ← on_ssh sshpkt_get_end; f) Q.
Proof. intros Hf. eapply runs_bind; [apply runs_reading; by apply keeps_pkt_end|]. by intros []. Qed.

Lemma runs_load_host_keys {A} c0 (f : hostkey * option hostkey -> SE conn A) Q :
  (forall ks, runs (reading c0) (f ks) Q) -> runs (reading c0) (kex_load_host_keys ≫= f) Q.
Proof.
  intros Hf. apply (runs_bind _ _ (fun _ => reading c0)); [|done]. unfold kex_load_host_keys.
  destruct find_host_public_key as [pub|], find_host_private_key as [priv|]; try apply runs_stop. apply runs_see. intros s Hs.
  destruct (pub _); [apply (runs_ret _ (fun _ => reading c0))|apply runs_stop].
Qed.

Lemma runs_drawing {A B} c0 (g : Z -> kex -> result A) (f : A -> SE conn B) Q :
  (forall a, runs (reading c0) (f a) Q) -> runs (reading c0) (drawing g ≫= f) Q.
Proof.
  intros Hf. apply (runs_bind _ _ (fun a c => reading c0 c)); [|done]. intros c Hc (s & -> & Hs). unfold drawing. cbn [cn set_cn].
  destruct (gen_type _); [|done]. split; [done|]. intros a Ha. by exists (set_draws (draws s + 1) s).
Qed.
Lemma runs_draw {A B} c0 (g : Z -> A) (f : A -> SE conn B) Q :
  (forall n, runs (reading c0) (f (g n)) Q) -> runs (reading c0) (draw g ≫= f) Q.
Proof.
  intros Hf. apply (runs_bind _ _ (fun a c => reading c0 c /\ exists n, a = g n)).
  - intros c Hc (s & -> & Hs). split; [done|]. intros a [= <-]. split; [|by exists (draws s)]. by exists (set_draws (draws s + 1) s).
  - intros a c Hc [HP [n ->]]. by apply (Hf n).
Qed.

(** A change of the parts that only the group exchange uses. *)
Lemma runs_gex {A} c0 (h : gex_state -> gex_state) (f : SE conn A) Q :
  runs (reading (set_gex (h (gex c0)) c0)) f Q -> runs (reading c0) (_ ← change (fun c => set_gex (h (gex c)) c); f) Q.
Proof.
  intros Hf. apply (runs_bind _ _ (fun _ => reading (set_gex (h (gex c0)) c0))); [|intros []; exact Hf].
  apply runs_change; [done|]. intros c (s & -> & Hs). by exists s.
Qed.

Lemma runs_reply_body c0 k : in_phase WaitReply c0 -> runs (reading c0) reply_body (fun _ => table_in (Keyed 0 c0 k)).
Proof.
  intros [Ht [Hf [ck Hck]]]. unfold reply_body. apply runs_get_string. intros blob. apply runs_see. intros s1 E1.
  apply runs_give_reading. intros key _. apply runs_verify_host_key. apply runs_get_string. intros spub. apply runs_get_string. intros sig.
  apply runs_get_end. apply runs_see. intros s2 E2. cbn [client_key set_cn]. rewrite Hck.
  destruct (gen_type _); [|by apply (runs_bind _ _ (fun _ _ => False)); [apply runs_stop|]].
  apply runs_give_reading. intros secret _. apply runs_give_reading. intros hash _. apply runs_give_reading. intros [] _.
  by apply (runs_keyed WaitReply).
Qed.

Lemma runs_init_body c0 k : in_phase WaitInit c0 -> runs (reading c0) input_kex_gen_init (fun _ => table_in (Keyed 0 c0 k)).
Proof.
  intros [Ht Hf]. unfold input_kex_gen_init. apply runs_load_host_keys. intros [public private]. apply runs_get_string. intros cpub.
  apply runs_get_end. apply runs_drawing. intros [spub secret]. apply runs_see. intros s1 E1.
  apply runs_give_reading. intros blob _. apply runs_give_reading. intros hash _. apply runs_give_reading. intros sig _.
  eapply runs_bind; [apply runs_reading, send_reply_kx|]. intros []. by apply (runs_keyed WaitInit).
Qed.

Lemma runs_kex_dh {A} c0 (f : DH * Z -> SE conn A) Q :
  has_dh c0 -> (forall x, runs (reading c0) (f x) Q) -> runs (reading c0) (kex_dh ≫= f) Q.
Proof.
  intros (d & pub & Hd & Hp) Hf. apply (runs_bind _ _ (fun _ => reading c0)); [|done]. apply runs_see. intros s _. cbn [gex set_cn].
  rewrite Hd, Hp. apply (runs_ret _ (fun _ => reading c0)).
Qed.

Lemma runs_gex_reply_body c0 k : in_phase WaitGexReply c0 -> runs (reading c0) gex_reply_body (fun _ => table_in (Keyed 0 c0 k)).
Proof.
  intros [Ht [Hf Hd]]. unfold gex_reply_body. apply runs_get_string. intros blob. apply runs_see. intros s1 E1.
  apply runs_give_reading. intros key _. apply runs_verify_host_key. apply runs_get_bignum. intros spub. apply runs_get_string. intros sig.
  apply runs_get_end. apply runs_kex_dh; [done|]. intros [g cpub]. apply runs_give_reading. intros secret _.
  assert (forall c1, table_in WaitGexReply c1 -> fresh_keys c1 -> runs (reading c1) (c ← se_get; let k := kx (cn c) in
    hash ← give (kexgex_hash (hash_alg k) (client_version c) (server_version c) (contents (my k)) (contents (peer k)) blob
                 (gex_min (gex c)) (gex_nbits (gex c)) (gex_max (gex c)) (dh_p g) (dh_g g) cpub spub secret SSH_DIGEST_MAX_LENGTH);
    _ ← give (Xkey_verify (hostkey_alg (kx (cn (set_cn s1 c0)))) key sig hash);
    _ ← derive hash secret; kex_send_newkeys) (fun _ => table_in (Keyed 0 c0 k))) as Hrest.
  { intros c1 Ht1 Hf1. apply runs_see. intros s2 E2. apply runs_give_reading. intros hash _. apply runs_give_reading. intros [] _.
    by apply (runs_keyed WaitGexReply). }
  destruct old_dhgex.
  - apply (runs_gex _ (fun x => gex_set_sizes NO_SIZE (gex_nbits x) NO_SIZE x)). by apply Hrest.
  - eapply runs_bind; [apply (runs_ret tt (fun _ => reading c0))|]. intros []. by apply Hrest.
Qed.

Lemma runs_gex_init_body c0 k : in_phase WaitGexInit c0 -> runs (reading c0) gex_init_body (fun _ => table_in (Keyed 0 c0 k)).
Proof.
  intros [Ht [Hf Hd]]. unfold gex_init_body. apply runs_load_host_keys. intros [public private]. apply runs_get_bignum. intros cpub.
  apply runs_get_end. apply runs_kex_dh; [done|]. intros [g spub]. apply runs_give_reading. intros secret _. apply runs_see. intros s1 E1.
  apply runs_give_reading. intros blob _. apply runs_give_reading. intros hash _. apply runs_give_reading. intros sig _.
  eapply runs_bind; [apply runs_reading, send_gex_reply_kx|]. intros []. by apply (runs_keyed WaitGexInit).
Qed.

(** ** The group *)

(** What the handlers of the group leave: a group with a key. *)
Definition grouped (p : phase) (c : conn) : Prop := table_in p c /\ fresh_keys c /\ has_dh c.

Lemma runs_exchange_value {A} p c0 d (f : Z -> SE conn A) Q :
  table_in p c0 -> fresh_keys c0 -> (forall pub, runs (grouped p) (f pub) Q) -> runs (reading c0) (gen_exchange_value d ≫= f) Q.
Proof.
  intros Ht Hf Hg. apply (runs_bind _ _ (fun _ => grouped p)); [|done]. unfold gen_exchange_value. apply runs_see. intros s _.
  apply runs_draw. intros n. apply runs_give_reading. intros d' Ed. apply dh_gen_key_ok in Ed as (_ & _ & pub & priv & Hp & _).
  eapply (runs_bind _ _ (fun _ => grouped p)).
  { apply runs_change; [done|]. intros c (s1 & -> & Hs). split; [done|]. split; [|by exists d', pub].
    unfold fresh_keys. cbn [cn set_cn set_kex_dh set_gex]. by rewrite Hs. }
  intros []. rewrite Hp. apply (runs_ret pub (fun _ => grouped p)).
Qed.

Lemma grouped_stable p : stable keys_view (grouped p).
Proof.
  intros c s Hs (Ht & Hf & Hd). split; [done|]. split; [|done]. injection Hs as Hi Ho. unfold fresh_keys in *. cbn [cn set_cn]. by rewrite Hi, Ho.
Qed.

(** A message of the key exchange, sent from a state that [P] describes. *)
Lemma runs_kex_message {A} P t (m : SE ssh unit) (f : SE conn A) Q :
  0 <= t < 256 -> with_type (fun k => (newkeys_in k, newkeys_out k)) t m -> stable keys_view P ->
  runs P f Q -> runs P (_ ← on_ssh (_ ← sshpkt_start t; m); f) Q.
Proof. intros Ht Hm HP Hf. eapply runs_bind; [apply (runs_ssh keys_view); [by apply start_type|done]|]. by intros []. Qed.

Lemma runs_group : runs (in_phase WaitGroup) input_kex_dh_gex_group (fun _ => in_phase WaitGexReply).
Proof.
  intros c Hc Hp. revert c Hc Hp. enough (forall c0, in_phase WaitGroup c0 -> runs (reading c0) input_kex_dh_gex_group (fun _ => in_phase WaitGexReply))
    as Hr by (intros c Hc Hp; by apply (Hr c Hp c Hc), reading_refl).
  intros c0 [Ht Hf]. unfold input_kex_dh_gex_group. apply runs_get_bignum. intros p. apply runs_get_bignum. intros g. apply runs_get_end.
  apply runs_see. intros s1 _. destruct (_ || _); [apply runs_stop|]. apply (runs_gex _ (gex_set_dh _)).
  destruct (dh_new_group g p) as [d|]; [|apply runs_stop]. apply (runs_exchange_value WaitGroup); [done|done|]. intros pub.
  apply runs_kex_message; [done|by apply put_bignum_type, send_type_end|apply grouped_stable|]. eapply runs_bind.
  { apply (runs_change _ _ (grouped Idle)); [done|]. intros c (Ht' & Hf' & Hd). split; [|done].
    apply (set_entry WaitGroup); [done|done|done|]. intros []; try done. by left. }
  intros []. apply runs_change; [done|]. intros c (Ht' & Hf' & Hd). split; [|done]. apply (set_entry Idle); [done|done|by intros ? [= <-]|by intros []].
Qed.

Lemma runs_request p : p = WaitRequest \/ p = WaitGexInit -> runs (in_phase p) input_kex_dh_gex_request (fun _ => in_phase WaitGexInit).
Proof.
  intros Hp. enough (forall c0, table_in p c0 -> fresh_keys c0 -> runs (reading c0) input_kex_dh_gex_request (fun _ => in_phase WaitGexInit)) as Hr.
  { intros c Hc [Ht Hph]. assert (fresh_keys c) as Hf by (by destruct Hp as [-> | ->]; [|apply Hph]). by apply (Hr c Ht Hf c Hc), reading_refl. }
  intros c0 Ht Hf. unfold input_kex_dh_gex_request. apply runs_get_u32. intros min. apply runs_get_u32. intros nbits. apply runs_get_u32. intros max.
  apply runs_get_end. apply (runs_gex _ (gex_set_sizes min nbits max)). destruct (_ || _ || _ || _); [apply runs_stop|]. apply runs_draw. intros n.
  generalize (choose_dh n (as_int (MAXIMUM DH_GRP_MIN min)) (MINIMUM DH_GRP_MAX (MAXIMUM DH_GRP_MIN nbits)) (MINIMUM DH_GRP_MAX max)). intros o.
  apply (runs_gex _ (gex_set_dh o)). destruct o as [d|].
  - eapply runs_bind.
    { apply runs_reading. apply (start_type (fun k => k)); [done|]. do 2 apply put_bignum_type. by apply send_type_end. }
    intros []. apply (runs_exchange_value p); [done|done|]. intros pub. apply runs_change; [done|]. intros c (Ht' & Hf' & Hd). split; [|done].
    apply (set_entry p); [done|done|by intros ? [= <-]|]. destruct Hp as [-> | ->]; intros []; try done; by right.
  - eapply (runs_bind _ _ (fun _ => table_in p)); [|intros; apply runs_stop]. apply (runs_pre _ (table_in p)); [by intros c (s & -> & _)|].
    apply runs_any, table_in_stable.
Qed.

(** ** The messages that give keys *)

Lemma keyed_phase type d d' k c :
  table_in (Keyed 0 d k) c -> keyed_by type d k -> keyed d d' k -> newkeys_in (kx (cn c)) = newkeys_in (kx (cn d')) -> in_phase (Keyed type d k) c.
Proof. intros Ht Hb (K1 & K2 & _) Hc. split; [exact Ht|]. split; [done|]. split; [done|]. by rewrite Hc. Qed.

(** From the parts: the table, what was derived, and no crash. *)
Lemma runs_end (m : SE conn unit) type p d :
  (forall k, runs (reading d) m (fun _ => table_in (Keyed 0 d k))) ->
  (forall d', m d = (Ok tt, d') -> exists k, keyed_by type d k /\ keyed d d' k) ->
  crashed d = false -> in_phase p d ->
  crashed (snd (m d)) = false /\ (fst (m d) = Ok tt -> exists k, in_phase (Keyed type d k) (snd (m d)) /\ keyed d (snd (m d)) k).
Proof.
  intros Hr Hm Hc Hp. destruct (Hr (kx (cn d)) d Hc (reading_refl d)) as [R1 R2]. split; [done|]. intros E.
  destruct (Hm (snd (m d))) as (k & K1 & K2); [by apply pair_eq|]. exists k. split; [|done]. eapply keyed_phase; [|done|done|done]. exact (R2 tt E).
Qed.

Lemma runs_then {A} P (m : SE conn A) (g : conn -> conn) p :
  (forall c, crashed (g c) = crashed c) -> (forall c, table (g c) = table c) ->
  runs P m (fun _ => table_in p) -> runs P (fun c => let '(r, c) := m c in (r, g c)) (fun _ => table_in p).
Proof.
  intros Hg Ht Hm c Hc HP. destruct (Hm c Hc HP) as [R1 R2]. destruct (m c) as [r c']. cbn [fst snd] in *. rewrite Hg. split; [done|].
  intros a Ha. unfold table_in. rewrite Ht. by apply (R2 a).
Qed.

Lemma end_gen_reply d : crashed d = false -> in_phase WaitReply d -> let '(r, d') := input_kex_gen_reply d in
  crashed d' = false /\ (r = Ok tt -> exists k, in_phase (Keyed SSH2_MSG_KEX_ECDH_REPLY d k) d' /\ keyed d d' k).
Proof.
  intros Hc Hp. rewrite (surjective_pairing (input_kex_gen_reply d)). apply (runs_end _ _ WaitReply); try done.
  - intros k. apply runs_then; [done|done|by apply runs_reply_body].
  - intros d' E. apply reply_keyed in E as (k & Hk & Hd). exists k. split; [by constructor|done].
Qed.
Lemma end_gex_reply d : crashed d = false -> in_phase WaitGexReply d -> let '(r, d') := input_kex_dh_gex_reply d in
  crashed d' = false /\ (r = Ok tt -> exists k, in_phase (Keyed SSH2_MSG_KEX_DH_GEX_REPLY d k) d' /\ keyed d d' k).
Proof.
  intros Hc Hp. rewrite (surjective_pairing (input_kex_dh_gex_reply d)). apply (runs_end _ _ WaitGexReply); try done.
  - intros k. apply runs_then; [done|done|by apply runs_gex_reply_body].
  - intros d' E. apply gex_reply_keyed in E as (k & Hk & Hd). exists k. split; [by constructor|done].
Qed.
Lemma end_gen_init d : crashed d = false -> in_phase WaitInit d -> let '(r, d') := input_kex_gen_init d in
  crashed d' = false /\ (r = Ok tt -> exists k, in_phase (Keyed SSH2_MSG_KEX_ECDH_INIT d k) d' /\ keyed d d' k).
Proof.
  intros Hc Hp. rewrite (surjective_pairing (input_kex_gen_init d)). apply (runs_end _ _ WaitInit); try done.
  - intros k. by apply runs_init_body.
  - intros d' E. apply init_keyed in E as (k & Hk & Hd). exists k. split; [by constructor|done].
Qed.
Lemma end_gex_init d : crashed d = false -> in_phase WaitGexInit d -> let '(r, d') := input_kex_dh_gex_init d in
  crashed d' = false /\ (r = Ok tt -> exists k, in_phase (Keyed SSH2_MSG_KEX_DH_GEX_INIT d k) d' /\ keyed d d' k).
Proof.
  intros Hc Hp. rewrite (surjective_pairing (input_kex_dh_gex_init d)). apply (runs_end _ _ WaitGexInit); try done.
  - intros k. apply runs_then; [done|done|by apply runs_gex_init_body].
  - intros d' E. apply gex_init_keyed in E as (k & Hk & Hd). exists k. split; [by constructor|done].
Qed.

Lemma runs_newkeys type d k : runs (in_phase (Keyed type d k)) kex_input_newkeys (fun _ => in_phase WaitKexinit).
Proof.
  unfold kex_input_newkeys. eapply runs_bind.
  { apply (runs_change _ _ (table_in Idle)); [done|]. intros c [Ht _]. apply (set_entry (Keyed type d k)); [done|done|by intros ? [= <-] []|].
    intros []; try done. by left. }
  intros []. eapply runs_bind.
  { apply (runs_change _ _ (table_in WaitKexinit)); [done|]. intros c Ht. apply (set_entry Idle); [done|done|by intros ? [= <-]|by intros []]. }
  intros []. eapply runs_bind; [apply runs_any, table_in_stable|]. intros []. eapply runs_bind; [apply runs_any, table_in_stable|]. intros [].
  eapply runs_weaken; [done| |apply runs_kx, table_in_stable]. by intros a c.
Qed.

Lemma set_plain p i h c :
  in_phase p c -> 0 <= i < DISPATCH_MAX -> kex_handler h = None -> in_phase p (ssh_dispatch_set i (Some h) c).
Proof.
  intros [Ht Hp] Hi Hh. split; [|by destruct p]. apply (set_entry p); [done|done| |by right]. intros ? [= <-] [n Hn]. by rewrite Hh in Hn.
Qed.

Lemma runs_ext_info_msg p : runs (in_phase p) kex_input_ext_info (fun _ => in_phase p).
Proof.
  unfold kex_input_ext_info. eapply runs_bind.
  { apply (runs_change _ _ (in_phase p)); [done|]. intros c Hc. by apply set_plain. }
  intros []. eapply runs_bind; [apply (runs_ssh keys_view); [by apply keeps_pkt_get_u32|apply phase_stable]|]. intros n.
  apply runs_get. intros c0 Hc0. apply (runs_pre _ (in_phase p)); [by intros ? <-|].
  eapply runs_bind; [apply (runs_ssh keys_view); [apply keeps_ext_info|apply phase_stable]|]. intros [algs sigalgs]. eapply runs_bind.
  { apply (runs_change _ _ (in_phase p)); [by destruct algs|]. intros c [Ht Hc]. destruct algs; split; (done || by destruct p). }
  intros []. apply (runs_ssh keys_view); [by apply keeps_pkt_end|apply phase_stable].
Qed.

Lemma runs_unimplemented p seq : runs (in_phase p) (on_ssh (unimplemented seq)) (fun _ => in_phase p).
Proof. apply (runs_ssh keys_view); [apply unimplemented_keys|apply phase_stable]. Qed.

(** ** KEXINIT *)

(** As [runs] when the operation may crash: what holds when it succeeds. *)
Definition gives {A} (P : conn -> Prop) (m : SE conn A) (Q : A -> conn -> Prop) : Prop :=
  forall c, crashed c = false -> P c -> forall a, fst (m c) = Ok a -> crashed (snd (m c)) = false /\ Q a (snd (m c)).

Lemma runs_gives {A} P (m : SE conn A) Q : runs P m Q -> gives P m Q.
Proof. intros Hm c Hc HP a Ha. destruct (Hm c Hc HP) as [R1 R2]. split; [done|by apply R2]. Qed.
Lemma gives_bind {A B} P (m : SE conn A) R (f : A -> SE conn B) Q :
  gives P m R -> (forall a, gives (R a) (f a) Q) -> gives P (m ≫= f) Q.
Proof.
  intros Hm Hf c Hc HP b. specialize (Hm c Hc HP). unfold mbind, se_bind. destruct (m c) as [[a|e] c1]; cbn [fst snd] in *; [|done].
  destruct (Hm a eq_refl) as [R1 R2]. intros Hb. by apply (Hf a c1 R1 R2).
Qed.

(** Both directions have keys after a successful choice. *)
Lemma or_failed_ok i m st st' : or_failed i m st = (Ok tt, st') -> m (cs_kex st) = (Ok tt, cs_kex st').
Proof. unfold or_failed. destruct (m (cs_kex st)) as [[[]|e] k]; [|done]. by intros [= <-]. Qed.

Lemma choose_dir_keys cprop sprop mode ctos st st' m :
  choose_dir cprop sprop mode ctos st = (Ok tt, st') -> is_Some (newkeys_of m (cs_kex st)) -> is_Some (newkeys_of m (cs_kex st')).
Proof.
  assert (forall k nk, is_Some (newkeys_of m k) -> is_Some (newkeys_of m (set_newkeys mode (Some nk) k))) as Hset
    by (intros k nk Hk; by destruct m, mode).
  unfold choose_dir. intros E Hm. apply bind_ok in E as ([] & st1 & E1 & E). apply or_failed_ok in E1.
  assert (is_Some (newkeys_of m (cs_kex st1))) as K1.
  { unfold set_enc in E1. destruct (choose_enc _ _), (newkeys_of mode (cs_kex st)); try done; injection E1 as <-; auto. }
  clear E1. apply bind_ok in E as ([] & st2 & E2 & E). apply or_failed_ok in E. assert (is_Some (newkeys_of m (cs_kex st2))) as K2.
  { destruct (_ =? 0); [|by injection E2 as <-]. apply or_failed_ok in E2. unfold set_mac in E2.
    destruct (newkeys_of mode (cs_kex st1)); [|by injection E2 as <-]. destruct (choose_mac _ _ _) as [r mac].
    injection E2 as -> <-. auto. }
  unfold set_comp in E. destruct (choose_comp _ _), (newkeys_of mode (cs_kex st2)); try done; injection E as <-; auto.
Qed.

Lemma choose_mode_keys cprop sprop mode st st' :
  choose_mode cprop sprop mode st = (Ok tt, st') ->
  is_Some (newkeys_of mode (cs_kex st')) /\ forall m, is_Some (newkeys_of m (cs_kex st)) -> is_Some (newkeys_of m (cs_kex st')).
Proof.
  unfold choose_mode. destruct (negb _); [done|]. intros E. split.
  - eapply choose_dir_keys; [exact E|]. cbn [cs_kex]. by rewrite newkeys_of_set.
  - intros m Hm. eapply choose_dir_keys; [exact E|]. cbn [cs_kex]. by destruct m, mode.
Qed.

Lemma negotiate_keys myp peerp st st' :
  negotiate myp peerp st = (Ok tt, st') -> is_Some (newkeys_in (cs_kex st')) /\ is_Some (newkeys_out (cs_kex st')).
Proof.
  unfold negotiate. rewrite run_get. intros E. apply bind_ok in E as ([] & s1 & _ & E). apply bind_ok in E as ([] & s2 & _ & E).
  apply bind_ok in E as ([] & s3 & _ & E). apply bind_ok in E as ([] & s4 & E4 & E). apply bind_ok in E as ([] & s5 & E5 & E).
  apply choose_mode_keys in E4 as [K4 _], E5 as [K5 K5']. specialize (K5' _ K4). by injection E as <-.
Qed.

Lemma choose_conf_keys k skip k' skip' :
  kex_choose_conf k skip = Some (Ok tt, k', skip') -> is_Some (newkeys_in k') /\ is_Some (newkeys_out k').
Proof.
  unfold kex_choose_conf. destruct (kex_buf2prop (my k)) as [[[v myp]|e] m]; [|done].
  destruct (kex_buf2prop (peer k)) as [[[w peerp]|e] p]; [|done].
  destruct (negotiate _ _ _) as [r st] eqn:E. intros Hc. assert (r = Ok tt /\ k' = cs_kex st) as [-> ->].
  { destruct (w =? 0); [by injection Hc as -> <- _|]. destruct (proposals_match _ _) as [[]|]; [by injection Hc as -> <- _..|done]. }
  by eapply negotiate_keys.
Qed.

Lemma gives_choose_conf : gives (table_in Idle) choose_conf (fun _ c => table_in Idle c /\ fresh_keys c).
Proof.
  intros c Hc Ht a. unfold choose_conf. destruct (kex_choose_conf _ _) as [[[r k] skip]|] eqn:E; [|done]. cbn [fst snd]. intros ->.
  split; [done|]. split; [done|]. destruct a. exact (choose_conf_keys _ _ _ _ E).
Qed.

(** The methods of kexgen.c. *)
Lemma runs_gen_client : runs (fun c => table_in Idle c /\ fresh_keys c) kex_gen_client (fun _ => in_phase WaitReply).
Proof.
  intros c Hc [Ht Hf]. revert c Hc Ht Hf. enough (forall c0, table_in Idle c0 -> fresh_keys c0 ->
    runs (reading c0) kex_gen_client (fun _ => in_phase WaitReply)) as Hr.
  { intros c Hc Ht Hf. by apply (Hr c Ht Hf c Hc), reading_refl. }
  intros c0 Ht Hf. apply runs_drawing. intros [key pub]. eapply runs_bind.
  { apply (runs_change _ _ (fun c => table_in Idle c /\ fresh_keys c /\ is_Some (client_key c))); [done|]. intros c (s & -> & Hs).
    split; [done|]. split; [|done]. unfold fresh_keys. cbn [cn set_client set_cn]. by rewrite Hs. }
  intros []. eapply runs_bind.
  { apply (runs_ssh keys_view).
    - apply start_type; [done|]. apply put_cstring_type. by apply send_type_end.
    - intros c s Hs (Ht' & Hf' & Hk). split; [done|]. split; [|done]. injection Hs as Hi Ho. unfold fresh_keys in *. cbn [cn set_cn].
      by rewrite Hi, Ho. }
  intros []. apply runs_change; [done|]. intros c (Ht' & Hf' & Hk). split; [|done]. apply (set_entry Idle); [done|done|by intros ? [= <-]|by intros []].
Qed.

Lemma runs_gen_server : runs (fun c => table_in Idle c /\ fresh_keys c) kex_gen_server (fun _ => in_phase WaitInit).
Proof.
  apply runs_change; [done|]. intros c (Ht & Hf). split; [|done]. apply (set_entry Idle); [done|done|by intros ? [= <-]|by intros []].
Qed.

Lemma gives_get {A} P (f : conn -> SE conn A) Q : (forall c0, P c0 -> gives P (f c0) Q) -> gives P (se_get ≫= f) Q.
Proof. intros Hf c Hc HP a. rewrite run_get. by apply (Hf c HP c). Qed.

(** The methods of the group exchange. *)
Lemma runs_gex_client : runs (fun c => table_in Idle c /\ fresh_keys c) kexgex_client (fun _ => in_phase WaitGroup).
Proof.
  unfold kexgex_client. apply runs_get. intros c0 Hc0. apply (runs_pre _ (fun c => table_in Idle c /\ fresh_keys c)); [by intros ? <-|].
  eapply runs_bind; [by apply (runs_change _ _ (fun c => table_in Idle c /\ fresh_keys c))|]. intros [].
  apply runs_kex_message; [done|by do 3 apply put_type; apply send_type_end| |].
  - intros c s Hs (Ht & Hf). split; [done|]. injection Hs as Hi Ho. unfold fresh_keys in *. cbn [cn set_cn]. by rewrite Hi, Ho.
  - apply runs_change; [done|]. intros c (Ht & Hf). split; [|done]. apply (set_entry Idle); [done|done|by intros ? [= <-]|by intros []].
Qed.

Lemma runs_gex_server : runs (fun c => table_in Idle c /\ fresh_keys c) kexgex_server (fun _ => in_phase WaitRequest).
Proof.
  apply runs_change; [done|]. intros c (Ht & Hf). split; [|done]. apply (set_entry Idle); [done|done|by intros ? [= <-]|by intros []].
Qed.

(** The phase after a method was started. *)
Definition after_method (m : kex_method) : phase :=
  match m with GenClient => WaitReply | GenServer => WaitInit | GexClient => WaitGroup | GexServer => WaitRequest end.

Lemma runs_methods m : runs (fun c => table_in Idle c /\ fresh_keys c) (run_method m) (fun _ => in_phase (after_method m)).
Proof. destruct m; [apply runs_gen_client|apply runs_gen_server|apply runs_gex_client|apply runs_gex_server]. Qed.

Lemma gives_kexinit :
  gives (in_phase WaitKexinit) kex_input_kexinit (fun _ c => exists t m, kex_methods t = Some m /\ in_phase (after_method m) c).
Proof.
  unfold kex_input_kexinit. eapply gives_bind.
  { apply runs_gives, (runs_change _ _ (table_in Idle)); [done|]. intros c [Ht _]. apply (set_entry WaitKexinit); [done|done|done|].
    intros []; try done. by left. }
  intros []. apply gives_get. intros c0 _. eapply gives_bind; [apply runs_gives, runs_kx, table_in_stable|]. intros [].
  eapply gives_bind; [apply runs_gives, runs_any, table_in_stable|]. intros []. apply gives_get. intros c1 _.
  eapply (gives_bind _ _ (fun _ => table_in Idle)).
  { apply runs_gives. destruct (_ =? 0); [apply runs_any, table_in_stable|apply (runs_ret tt (fun _ => _))]. }
  intros []. eapply gives_bind; [apply gives_choose_conf|]. intros []. apply gives_get. intros c2 _.
  destruct (kex_methods _) as [m|] eqn:Em; [|apply runs_gives, runs_stop]. apply runs_gives.
  eapply runs_weaken; [..|apply runs_methods]; eauto.
Qed.

Section other.
Context (other : Z -> Z -> Z -> SE conn unit).

(** ** The rest of the process *)

(** What other parts of the program do between the messages of the key exchange:
    they read, write and send packets, start to rekey, change settings of the
    session, and register handlers of their own (the client and the server loop also that for
    KEXINIT, after they cleared the table). *)
Inductive app_step : conn -> conn -> Prop :=
| app_read c r s : ssh_packet_read_poll_seqnr (cn c) = (r, s) -> app_step c (set_cn s c)
| app_incoming c buf r s : ssh_packet_process_incoming buf (cn c) = (r, s) -> app_step c (set_cn s c)
| app_write c w r s : ssh_packet_write_poll w (cn c) = (r, s) -> app_step c (set_cn s c)
| app_send c t payload r s :
    0 <= t < 256 -> t <> SSH2_MSG_NEWKEYS ->
    (_ ← sshpkt_start t; _ ← sshpkt_put payload; sshpkt_send) (cn c) = (r, s) -> app_step c (set_cn s c)
| app_rekex c r s : kex_start_rekex (cn c) = (r, s) -> app_step c (set_cn s c)
| app_settings c s : kx s = kx (cn c) -> app_step c (set_cn s c)
| app_handler c t h : 0 <= t < DISPATCH_MAX -> kex_handler h = None -> app_step c (ssh_dispatch_set t (Some h) c)
| app_no_handler c t : 0 <= t < DISPATCH_MAX -> app_step c (ssh_dispatch_set t None c)
| app_init c h : kex_handler h = None -> app_step c (ssh_dispatch_init (Some h) c)
| app_loop c h : kex_handler h = None -> app_step c (ssh_dispatch_set SSH2_MSG_KEXINIT (Some HKexinit) (ssh_dispatch_init (Some h) c)).

(** A phase of the exchange goes on, or nothing of it is left. *)
Definition no_exchange (q : phase) : Prop := q = Idle \/ q = WaitKexinit.

Lemma app_session_phase {A} (m : SE ssh A) p c r s : keeps keys_view m -> m (cn c) = (r, s) -> in_phase p c -> in_phase p (set_cn s c).
Proof. intros Hm E. apply phase_stable. specialize (Hm (cn c)). by rewrite E in Hm. Qed.

Lemma app_step_phase p c c' :
  app_step c c' -> crashed c = false -> in_phase p c -> crashed c' = false /\ exists q, (q = p \/ no_exchange q) /\ in_phase q c'.
Proof.
  intros Hs Hc Hp. destruct Hs; split; try done.
  - exists p. split; [by left|]. by eapply app_session_phase; [apply read_seqnr_keys|..].
  - exists p. split; [by left|]. by eapply app_session_phase; [apply process_incoming_keys|..].
  - exists p. split; [by left|]. by eapply app_session_phase; [apply write_poll_keys|..].
  - exists p. split; [by left|]. eapply app_session_phase; [|done|done]. by apply send_app_keys.
  - exists p. split; [by left|]. eapply app_session_phase; [intros ?; apply rekex_keys|done|done].
  - exists p. split; [by left|]. apply phase_stable; [|done]. unfold keys_view, view. congruence.
  - exists p. split; [by left|]. by apply set_plain.
  - exists p. split; [by left|]. destruct Hp as [Ht Hp]. split; [|by destruct p]. by apply (set_entry p); [|lia|..|by right].
  - exists Idle. split; [by right; left|]. split; [|done]. apply init_idle. by intros ? [= <-].
  - exists WaitKexinit. split; [by right; right|]. split; [|done]. apply (set_entry Idle); [|done|by intros ? [= <-]|done].
    apply init_idle. by intros ? [= <-].
Qed.

Lemma app_steps_phase p c c' :
  rtc app_step c c' -> crashed c = false -> in_phase p c -> crashed c' = false /\ exists q, (q = p \/ no_exchange q) /\ in_phase q c'.
Proof.
  intros Hs. revert p. induction Hs as [c|c c1 c2 Hs _ IH]; intros p Hc Hp; [eauto|].
  destruct (app_step_phase p c c1 Hs Hc Hp) as (Hc1 & q & Hq & Hp1). destruct (IH q Hc1 Hp1) as (Hc2 & q2 & Hq2 & Hp2).
  split; [done|]. exists q2. split; [|done]. unfold no_exchange in *. naive_solver.
Qed.

(** The handlers of other files do nothing else. *)
Definition others_ok : Prop := forall n t seq c r c', other n t seq c = (r, c') -> rtc app_step c c'.
Context (Hothers : others_ok).

(** ** The dispatcher *)

(** What a message of the key exchange does: it takes the connection from [c] to
    [c'] and from phase to phase. *)
Inductive phase_step (c c' : conn) : phase -> Z -> phase -> Prop :=
| step_kexinit t m : kex_methods t = Some m -> phase_step c c' WaitKexinit SSH2_MSG_KEXINIT (after_method m)
| step_init k : keyed c c' k -> phase_step c c' WaitInit SSH2_MSG_KEX_ECDH_INIT (Keyed SSH2_MSG_KEX_ECDH_INIT c k)
| step_reply k : keyed c c' k -> phase_step c c' WaitReply SSH2_MSG_KEX_ECDH_REPLY (Keyed SSH2_MSG_KEX_ECDH_REPLY c k)
| step_request : phase_step c c' WaitRequest SSH2_MSG_KEX_DH_GEX_REQUEST WaitGexInit
| step_again : phase_step c c' WaitGexInit SSH2_MSG_KEX_DH_GEX_REQUEST WaitGexInit
| step_gex_init k : keyed c c' k -> phase_step c c' WaitGexInit SSH2_MSG_KEX_DH_GEX_INIT (Keyed SSH2_MSG_KEX_DH_GEX_INIT c k)
| step_group : phase_step c c' WaitGroup SSH2_MSG_KEX_DH_GEX_GROUP WaitGexReply
| step_gex_reply k : keyed c c' k -> phase_step c c' WaitGexReply SSH2_MSG_KEX_DH_GEX_REPLY (Keyed SSH2_MSG_KEX_DH_GEX_REPLY c k)
| step_newkeys type d k : phase_step c c' (Keyed type d k) SSH2_MSG_NEWKEYS WaitKexinit.

(** A handler that is no part of the exchange. *)
Definition plain_ok (m : SE conn unit) : Prop := forall p c, crashed c = false -> in_phase p c ->
  crashed (snd (m c)) = false /\ (fst (m c) = Ok tt -> exists q, (q = p \/ no_exchange q) /\ in_phase q (snd (m c))).

Lemma runs_plain m : (forall p, runs (in_phase p) m (fun _ => in_phase p)) -> plain_ok m.
Proof. intros Hm p c Hc Hp. destruct (Hm p c Hc Hp) as [R1 R2]. split; [done|]. intros E. exists p. split; [by left|exact (R2 tt E)]. Qed.

Lemma plain_handlers h type seq : kex_handler h = None -> plain_ok (run_handler other h type seq).
Proof.
  destruct h; try done; intros _; cbn [run_handler]; [apply runs_plain; intros p..|].
  - eapply runs_bind; [apply runs_unimplemented|]. intros []. apply (runs_ssh keys_view); [apply write_wait_keys|apply phase_stable].
  - apply (runs_ret tt (fun _ => _)).
  - apply runs_unimplemented.
  - apply runs_ext_info_msg.
  - intros p c Hc Hp. destruct (other n type seq c) as [r c'] eqn:E. cbn [fst snd].
    destruct (app_steps_phase p c c' (Hothers _ _ _ _ _ _ E) Hc Hp) as [R1 R2]. by split.
Qed.

(** A handler of the exchange in its phase. *)
Definition step_ok (p : phase) (h : handler) (type : Z) (c : conn) (out : result unit * conn) : Prop :=
  let '(r, c') := out in
  (crashed c' = true -> h = HKexinit) /\ (r = Ok tt -> crashed c' = false /\ exists q, phase_step c c' p type q /\ in_phase q c').

Lemma step_runs p q h type c m :
  runs (in_phase p) m (fun _ => in_phase q) -> (forall c', phase_step c c' p type q) -> crashed c = false -> in_phase p c -> step_ok p h type c (m c).
Proof.
  intros Hm Hq Hc Hp. destruct (Hm c Hc Hp) as [R1 R2]. unfold step_ok. destruct (m c) as [r c']. cbn [fst snd] in *. split; [congruence|].
  intros ->. split; [done|]. exists q. split; [done|]. exact (R2 tt eq_refl).
Qed.
Lemma step_keyed p h type c out :
  (let '(r, c') := out in crashed c' = false /\ (r = Ok tt -> exists k, in_phase (Keyed type c k) c' /\ keyed c c' k)) ->
  (forall c' k, keyed c c' k -> phase_step c c' p type (Keyed type c k)) -> step_ok p h type c out.
Proof.
  unfold step_ok. destruct out as [r c']. intros [R1 R2] Hq. split; [congruence|]. intros E. destruct (R2 E) as (k & Hk & Hd). eauto 6.
Qed.

Lemma kex_handlers p h type seq c :
  expects p h = true -> kex_handler h = Some (Z.to_nat type) -> 0 <= type -> crashed c = false -> in_phase p c ->
  step_ok p h type c (run_handler other h type seq c).
Proof.
  intros He Hh Ht Hc Hp. assert (type = match kex_handler h with Some n => Z.of_nat n | None => 0 end) as -> by (rewrite Hh; lia).
  destruct p, h; try discriminate He; cbn [run_handler kex_handler].
  - pose proof (gives_kexinit c Hc Hp) as Hg. unfold step_ok. destruct (kex_input_kexinit c) as [r c']. cbn [fst snd] in Hg.
    split; [done|]. intros ->. destruct (Hg tt eq_refl) as (Hc' & t & m & Hm & Hq). split; [done|]. exists (after_method m). split; [|done].
    by apply (step_kexinit _ _ t).
  - apply step_keyed; [by apply end_gen_init|]. intros. by constructor.
  - apply step_keyed; [by apply end_gen_reply|]. intros. by constructor.
  - apply (step_runs _ WaitGexInit); [apply runs_request; by left|constructor|done..].
  - apply (step_runs _ WaitGexInit); [apply runs_request; by right|constructor|done..].
  - apply step_keyed; [by apply end_gex_init|]. intros. by constructor.
  - apply (step_runs _ WaitGexReply); [apply runs_group|constructor|done..].
  - apply step_keyed; [by apply end_gex_reply|]. intros. by constructor.
  - apply (step_runs _ WaitKexinit); [apply runs_newkeys|constructor|done..].
Qed.

(** What is registered for a message. *)
Definition entry (type : Z) (c : conn) : option handler :=
  if (type >? 0) && (type <? DISPATCH_MAX) then nth (Z.to_nat type) (table c) None else None.

Lemma entry_lookup type c h : entry type c = Some h -> 0 < type /\ table c !! Z.to_nat type = Some (Some h).
Proof.
  unfold entry. destruct (Z.gtb_spec type 0); [|done]. destruct (_ <? _); [|done]. cbn [andb]. rewrite nth_lookup.
  destruct (table c !! Z.to_nat type) as [o|]; [|done]. cbn. by intros <-.
Qed.

Lemma dispatch_phase p type seq c :
  crashed c = false -> in_phase p c ->
  let '(r, c') := dispatch_one other type seq c in
  (crashed c' = true -> type = SSH2_MSG_KEXINIT /\ p = WaitKexinit) /\
  (forall skipped, r = Ok skipped -> crashed c' = false /\ exists q, in_phase q c' /\
     (if skipped then q = p else if bool_decide (is_Some (entry type c ≫= kex_handler)) then phase_step c c' p type q else q = p \/ no_exchange q)).
Proof.
  intros Hc Hp. unfold dispatch_one. rewrite run_get. fold (entry type c). destruct (entry type c) as [h|] eqn:Ee.
  2: { unfold mbind, se_bind, on_ssh, stop. destruct (sshpkt_disconnect _ (cn c)) as [[[]|e] s]; (split; [cbn; congruence|done]). }
  cbn [mbind option_bind]. destruct (negb _).
  { split; [cbn; congruence|]. intros ? [= <-]. split; [done|]. exists p. split; [|done]. destruct Hp as [Hl Hp]. split; [done|by destruct p]. }
  destruct (entry_lookup _ _ _ Ee) as [Hty Hl]. destruct (kex_handler h) as [n|] eqn:Eh.
  - destruct (proj2 (proj1 Hp) _ _ Hl) as [He Hn]; [by rewrite Eh|].
    pose proof (kex_handlers p h type seq c He Hn ltac:(lia) Hc Hp) as Hk. unfold step_ok in Hk.
    unfold mbind, se_bind. destruct (run_handler _ _ _ _ _) as [[[]|e] c'].
    + cbn. destruct Hk as [K1 K2]. destruct (K2 eq_refl) as [K3 K4]. split; [congruence|]. intros ? [= <-]. split; [done|].
      destruct K4 as (q & Hq & Hp'). exists q. done.
    + destruct Hk as [K1 _]. split; [|done]. intros K. specialize (K1 K). subst h. destruct p; try done. split; [|done].
      injection Hn as Hn. unfold SSH2_MSG_KEXINIT. lia.
  - pose proof (plain_handlers h type seq Eh p c Hc Hp) as [K1 K2]. unfold mbind, se_bind.
    destruct (run_handler _ _ _ _ _) as [[[]|e] c']; cbn [fst snd] in *; [|by split; [congruence|]].
    split; [cbn; congruence|]. intros ? [= <-]. split; [done|]. destruct (K2 eq_refl) as (q & Hq & Hp'). exists q. done.
Qed.

(** ** Histories of a connection *)

(** After an error the process ends, so only successful steps go on. *)
Inductive conn_step : conn -> conn -> Prop :=
| conn_app c c' : app_step c c' -> conn_step c c'
| conn_dispatch c type seq b c' : dispatch_one other type seq c = (Ok b, c') -> conn_step c c'.

(** A new connection whose first key exchange is being set up. *)
Definition started (c : conn) : Prop := exists proposal c0,
  table c0 = replicate (Z.to_nat DISPATCH_MAX) None /\ crashed c0 = false /\ kex_ready proposal c0 = (Ok tt, c).

Lemma runs_ready proposal : runs (table_in Idle) (kex_ready proposal) (fun _ => in_phase WaitKexinit).
Proof.
  unfold kex_ready. eapply runs_bind; [apply runs_kx, table_in_stable|]. intros []. eapply runs_bind; [apply runs_kx, table_in_stable|].
  intros []. eapply runs_bind; [apply runs_change; [done|apply to_idle]|]. intros []. apply runs_change; [done|]. intros c Ht. split; [|done].
  apply (set_entry Idle); [done|done|by intros ? [= <-]|by intros []].
Qed.

Lemma started_phase c : started c -> crashed c = false /\ in_phase WaitKexinit c.
Proof.
  intros (proposal & c0 & Ht & Hc & E). assert (table_in Idle c0) as Hst by (unfold table_in; rewrite Ht; by apply init_idle).
  destruct (runs_ready proposal c0 Hc Hst) as [R1 R2]. rewrite E in R1, R2. split; [done|exact (R2 tt eq_refl)].
Qed.

(** A property of the phase and the connection that every step keeps. *)
Lemma history_phase (I : phase -> conn -> Prop) c0 :
  I WaitKexinit c0 ->
  (forall p c c', I p c -> rtc conn_step c0 c -> conn_step c c' -> I p c') -> (forall q c, no_exchange q -> I q c) ->
  (forall p type q seq c c', I p c -> rtc conn_step c0 c -> dispatch_one other type seq c = (Ok false, c') -> phase_step c c' p type q -> I q c') ->
  forall c, started c0 -> rtc conn_step c0 c -> crashed c = false /\ exists p, I p c /\ in_phase p c.
Proof.
  intros HI1 HI2 HI3 HI4 c Hst Hs. apply started_phase in Hst as [Hc Hp]. revert c Hs.
  apply (rtc_ind_r (fun c => crashed c = false /\ exists p, I p c /\ in_phase p c)); [eauto|]. intros c c1 Hs Hstep (Hc1 & p & Hi & Hp1). assert (forall q, q = p \/ no_exchange q -> I q c1) as Hne by (intros q [->|Hq]; eauto).
  pose proof Hstep as Hstep'. destruct Hstep as [c c1 Ha|c type seq b c1 Hd].
  - destruct (app_step_phase p c c1 Ha Hc1 Hp1) as (Hc2 & q & Hq & Hp2). eauto.
  - pose proof (dispatch_phase p type seq c Hc1 Hp1) as Hd'. rewrite Hd in Hd'. destruct Hd' as [_ Hd']. destruct (Hd' b eq_refl) as (Hc2 & q & Hp2 & Hq).
    split; [done|]. exists q. split; [|done]. destruct b; [subst; eauto|]. destruct (bool_decide _); eauto.
Qed.

(** C26: the key exchange follows its state machine.  For every history of a
    connection from its set-up (messages that are dispatched one after the other,
    and in between other parts of the process reading, writing and sending
    packets, starting to rekey and registering handlers of their own; handlers of
    other files do nothing but that), and whatever methods of kexgen.c and of the
    group exchange are registered: there is a phase such that the dispatch table
    accepts only the key exchange messages of that phase, each at its own number;
    handling one moves to the next phase, and nothing else moves the exchange
    forward; every handler finds the keys, the secret and the group that it uses.
    The process can only die on a null pointer while it handles the KEXINIT of
    the peer. *)
Theorem kex_state_machine c0 c : started c0 -> rtc conn_step c0 c ->
  exists p, table_at p (table c) /\ phase_ok p c /\
    forall type seq, let '(r, c') := dispatch_one other type seq c in
      (crashed c' = true -> type = SSH2_MSG_KEXINIT /\ p = WaitKexinit) /\
      (forall skipped, r = Ok skipped -> crashed c' = false /\ exists q, in_phase q c' /\
         (if skipped then q = p
          else if bool_decide (is_Some (entry type c ≫= kex_handler)) then phase_step c c' p type q
          else q = p \/ no_exchange q)).
Proof.
  intros Hst Hs. destruct (history_phase (fun _ _ => True) c0 I ltac:(done) ltac:(done) ltac:(done) c Hst Hs) as (Hc & p & _ & Hp).
  exists p. split; [apply Hp|]. split; [apply Hp|]. intros type seq. by apply dispatch_phase.
Qed.

(** ** The keys that are put into use *)

(** The message that gave the keys was handled in this history. *)
Definition reached (c0 : conn) (p : phase) (c : conn) : Prop :=
  match p with
  | Keyed type d k => rtc conn_step c0 d /\ exists seq d', dispatch_one other type seq d = (Ok false, d') /\ keyed d d' k /\ rtc conn_step d' c
  | _ => True
  end.

(** The side of the exchange that registers only such methods. *)
Definition is_client : Prop := forall t m, kex_methods t = Some m -> m = GenClient \/ m = GexClient.
Definition is_server : Prop := forall t m, kex_methods t = Some m -> m = GenServer \/ m = GexServer.
Definition of_client (p : phase) : Prop :=
  match p with
  | WaitInit | WaitRequest | WaitGexInit => False
  | Keyed type _ _ => type = SSH2_MSG_KEX_ECDH_REPLY \/ type = SSH2_MSG_KEX_DH_GEX_REPLY
  | _ => True
  end.
Definition of_server (p : phase) : Prop :=
  match p with
  | WaitReply | WaitGroup | WaitGexReply => False
  | Keyed type _ _ => type = SSH2_MSG_KEX_ECDH_INIT \/ type = SSH2_MSG_KEX_DH_GEX_INIT
  | _ => True
  end.

Lemma side_history (side : phase -> Prop) c0 c :
  side Idle -> side WaitKexinit -> (forall p type q c1 c2, side p -> phase_step c1 c2 p type q -> side q) ->
  started c0 -> rtc conn_step c0 c -> exists p, (reached c0 p c /\ side p) /\ in_phase p c.
Proof.
  intros S1 S2 S3 Hst Hs.
  destruct (history_phase (fun p c => reached c0 p c /\ side p) c0) with (c := c) as (_ & p & Hp & Hp'); try done; [..|by exists p].
  - intros p c1 c2 [Hr1 Hs1] _ Hc. split; [|done]. destruct p; try done. destruct Hr1 as (R1 & seq & d' & R2 & R3 & R4). split; [done|].
    exists seq, d'. split; [done|]. split; [done|]. by eapply rtc_r.
  - by intros q c1 [-> | ->].
  - intros p type q seq c1 c2 [_ Hs1] Hr1 Hd Hps. split; [|by eapply S3]. destruct Hps; try done; [by destruct m|..];
      (split; [done|]; exists seq, c2; split; [done|]; split; [done|apply rtc_refl]).
Qed.

Definition own_side (p : phase) : Prop := (is_client -> of_client p) /\ (is_server -> of_server p).

Lemma own_side_step p type q c1 c2 : own_side p -> phase_step c1 c2 p type q -> own_side q.
Proof.
  intros [S1 S2] Hs. destruct Hs; split; intros Hm; cbn in *; try (by auto); try (by apply S1); try (by apply S2);
    by destruct (Hm _ _ ltac:(eassumption)) as [-> | ->].
Qed.

(** C25: keys come from an authenticated exchange.  When NEWKEYS is handled in a
    history of a connection (of any registered methods; handlers of other files
    only do what [app_step] describes), an earlier step of that history handled
    the message that ended the exchange: a reply (of kexgen.c or of the group
    exchange) on a client, the client's part on a server.  The keys that NEWKEYS
    puts into use for reading (cipher, key and initial vector, MAC and its key)
    are those derived, from the state of the key exchange at that step, from the
    exchange hash and the shared secret; and so are those that were put into use
    for sending at that step (on a connection that is not multiplexed).  The hash is the digest of the transcript of RFC
    4253 or RFC 4419 over both version strings, both KEXINIT messages, the host
    key, the public parts in the message and of this side, and the shared secret.
    On a client the application accepted the host key in the message, and the
    signature in the message verifies that hash with it; on a server the hash was
    signed with its host key and the reply was sent. *)
Theorem kex_keys_authenticated c0 c seq c' : started c0 -> rtc conn_step c0 c ->
  entry SSH2_MSG_NEWKEYS c = Some HNewkeys -> dispatch_one other SSH2_MSG_NEWKEYS seq c = (Ok false, c') ->
  exists type d seq1 d' k,
    rtc conn_step c0 d /\ dispatch_one other type seq1 d = (Ok false, d') /\ rtc conn_step d' c /\
    keyed_by type d k /\ in_use MODE_IN (cn c') k /\ (mux (cn d) = false -> in_use MODE_OUT (cn d') k) /\
    (is_client -> type = SSH2_MSG_KEX_ECDH_REPLY \/ type = SSH2_MSG_KEX_DH_GEX_REPLY) /\
    (is_server -> type = SSH2_MSG_KEX_ECDH_INIT \/ type = SSH2_MSG_KEX_DH_GEX_INIT).
Proof.
  intros Hst Hs He Hd. destruct (side_history own_side c0 c ltac:(done) ltac:(done) own_side_step Hst Hs) as (p & [Hr Ho] & Hp).
  destruct (entry_lookup _ _ _ He) as [_ Hl]. destruct (proj2 (proj1 Hp) _ _ Hl) as [Hx _]; [done|].
  destruct p as [| | | | | | | |type d k]; try discriminate Hx. destruct Hr as (R1 & seq1 & d' & R2 & (_ & _ & R3) & R4).
  destruct Hp as [_ (Hk & Hi & Hn)]. destruct Ho as [Ho1 Ho2]. exists type, d, seq1, d', k. split; [done|]. split; [done|]. split; [done|].
  split; [done|]. split; [|done]. unfold dispatch_one in Hd. rewrite run_get in Hd. fold (entry SSH2_MSG_NEWKEYS c) in Hd. rewrite He in Hd.
  destruct (negb _); [done|]. apply bind_ok in Hd as ([] & c1 & Hd & [_ <-]%run_inj). apply newkeys_message in Hd as [_ Hd].
  split; [done|]. rewrite Hd. cbn. by rewrite Hn.
Qed.
End other.
End phases.

(** * A client's first key exchange, with a group exchange *)

#[local] Existing Instances alloc_all toy_evp toy_uninit toy_digest toy_umac toy_zlib toy_random toy_fellows.
#[local] Existing Instance ed25519_only.

(** A key agreement with a fixed secret; the signature of a hash is the hash. *)
#[local] Instance toy_kem : KexKem := {|
  kem_key := Z;
  kem_keypair := fun n _ => Ok (n, [9; 9]);
  kem_enc := fun _ _ _ => Ok ([7; 7], [0; 0; 0; 1; 5]);
  kem_dec := fun _ _ _ => Ok [0; 0; 0; 1; 5]
|}.
(** A group exchange in one group, with a fixed public part and secret. *)
#[local] Instance toy_dh : OpensslDh := {|
  BN_new_ok := true; DH_new_ok := true; DH_set0_pqg_ok := fun _ _ => true; DH_set_length_ok := fun _ _ => true; DH_size := fun _ => 256;
  DH_generate_key := fun _ _ => Some (15, 3); DH_compute_key := fun _ _ => Some [5];
  choose_dh := fun _ _ _ _ => Some (mk_dh (2 ^ 2047 + 1) 2 0 None None)
|}.
#[local] Instance toy_hostkeys : HostKeys := {|
  hostkey := list Z;
  Xkey_from_blob := fun _ b => Ok b;
  Xkey_putb := fun _ k => Ok k;
  Xkey_verify := fun _ _ sig h => if bool_decide (sig = h) then Ok tt else Err SSH_ERR_SIGNATURE_INVALID;
  xsign := fun _ _ _ h => Ok h;
  sshkey_match_pkalg := fun _ _ => true;
  verify_host_key := Some (fun _ => true);
  find_host_public_key := Some (fun _ => Some [1; 2; 3]);
  find_host_private_key := Some (fun _ => Some [4; 5; 6])
|}.
Definition toy_config (m : kex_method) : KexConfig := {|
  kex_methods := fun _ => Some m; server_pkalgs := None; broken_algo_info := false; bug_dhgex_large := false; old_dhgex := false
|}.
#[local] Instance toy_client : KexConfig := toy_config GexClient.

Definition demo_kex (srv : bool) : kex :=
  mk_kex None None None 0 0 srv None None KEX_DH_GRP1_SHA1 false demo_buf demo_buf false 0 0 0 None.
Definition demo_conn (srv : bool) : conn :=
  mk_conn (session_new (demo_kex srv) 0 [] (plain_ctx true) (plain_ctx false)) (replicate (Z.to_nat DISPATCH_MAX) None) 0 None
    [67] [83] None None (mk_gex 0 0 0 None) false.

Definition no_other (n t seq : Z) : SE conn unit := mret tt.
Definition arrives (payload : list Z) (c : conn) : conn := set_cn (set_incoming_packet payload (cn c)) c.
Definition demo_dispatch (type : Z) (payload : list Z) (c : conn) : result bool * conn := dispatch_one no_other type 0 (arrives payload c).

Definition client_1 : conn := snd (kex_ready (demo_props "curve25519-sha256") (demo_conn false)).
Definition client_2 : conn := snd (demo_dispatch SSH2_MSG_KEXINIT demo_s client_1).
Definition client_3 : conn := snd (demo_dispatch SSH2_MSG_KEX_DH_GEX_GROUP (enc_mpint (2 ^ 2047 + 1) ++ enc_mpint 2) client_2).
Definition demo_hash : list Z :=
  match kexgex_hash (hash_alg (kx (cn client_3))) [67] [83] (contents (my (kx (cn client_3)))) demo_s [1; 2; 3]
    2048 (gex_nbits (gex client_3)) 8192 (2 ^ 2047 + 1) 2 15 23 (enc_mpint 5) SSH_DIGEST_MAX_LENGTH with Ok h => h | Err _ => [] end.
Definition demo_reply : list Z := enc_string [1; 2; 3] ++ enc_mpint 23 ++ enc_string demo_hash.
Definition client_4 : conn := snd (demo_dispatch SSH2_MSG_KEX_DH_GEX_REPLY demo_reply client_3).

Lemma demo_steps : fst (kex_ready (demo_props "curve25519-sha256") (demo_conn false)) = Ok tt /\
  fst (demo_dispatch SSH2_MSG_KEXINIT demo_s client_1) = Ok false /\
  fst (demo_dispatch SSH2_MSG_KEX_DH_GEX_GROUP (enc_mpint (2 ^ 2047 + 1) ++ enc_mpint 2) client_2) = Ok false /\
  fst (demo_dispatch SSH2_MSG_KEX_DH_GEX_REPLY demo_reply client_3) = Ok false /\ fst (demo_dispatch SSH2_MSG_NEWKEYS [] client_4) = Ok false.
Proof. vm_compute. repeat split. Qed.

Lemma demo_started : started client_1.
Proof.
  exists (demo_props "curve25519-sha256"), (demo_conn false). split; [done|]. split; [done|]. unfold client_1. apply pair_eq. apply demo_steps.
Qed.

Lemma demo_arrives payload c : conn_step no_other c (arrives payload c).
Proof. apply conn_app, app_settings. done. Qed.

Lemma demo_dispatched type payload c :
  fst (demo_dispatch type payload c) = Ok false ->
  dispatch_one no_other type 0 (arrives payload c) = (Ok false, snd (demo_dispatch type payload c)).
Proof. exact (pair_eq _ _). Qed.

Lemma demo_step type payload c : fst (demo_dispatch type payload c) = Ok false -> rtc (conn_step no_other) c (snd (demo_dispatch type payload c)).
Proof.
  intros E. eapply rtc_l; [apply (demo_arrives payload)|]. apply rtc_once. eapply conn_dispatch, demo_dispatched, E.
Qed.

Lemma demo_reached : rtc (conn_step no_other) client_1 client_4.
Proof.
  destruct demo_steps as (_ & E2 & E3 & E4 & _). transitivity client_2; [exact (demo_step _ _ _ E2)|]. transitivity client_3.
  - exact (demo_step _ _ _ E3).
  - exact (demo_step _ _ _ E4).
Qed.

Lemma demo_others : others_ok no_other.
Proof. intros n t seq c r c' [= _ <-]. apply rtc_refl. Qed.

Lemma demo_client_only : is_client.
Proof. intros t m [= <-]. by right. Qed.

Lemma kex_state_machine_witness :
  exists p, table_at p (table client_4) /\ phase_ok p client_4 /\ expects p HNewkeys = true.
Proof.
  destruct (kex_state_machine no_other demo_others client_1 client_4 demo_started demo_reached) as (p & Ht & Hp & _).
  exists p. split; [exact Ht|]. split; [exact Hp|].
  destruct (proj2 Ht 21%nat HNewkeys ltac:(vm_compute; reflexivity) ltac:(by eexists)) as [Hx _]. exact Hx.
Defined.

Lemma kex_keys_authenticated_witness : exists d d' k,
  (gen_replied d k \/ gex_replied d k) /\ in_use MODE_IN (cn (snd (demo_dispatch SSH2_MSG_NEWKEYS [] client_4))) k /\ (mux (cn d) = false -> in_use MODE_OUT (cn d') k).
Proof.
  assert (rtc (conn_step no_other) client_1 (arrives [] client_4)) as Hr.
  { transitivity client_4; [apply demo_reached|]. apply rtc_once, demo_arrives. }
  destruct demo_steps as (_ & _ & _ & _ & E4).
  destruct (kex_keys_authenticated no_other demo_others client_1 (arrives [] client_4) 0 _ demo_started Hr
    ltac:(vm_compute; reflexivity) (demo_dispatched _ _ _ E4)) as (type & d & seq1 & d' & k & _ & R2 & _ & Hk & Hi & Ho & Hc & _).
  exists d, d', k. split; [|split; [exact Hi|exact Ho]]. destruct Hk as [d k Hk|d k Hk|d k Hk|d k Hk]; [by left|by right|by destruct (Hc demo_client_only)..].
Defined.
