(* ===== verification/KexGen.v ===== *)
(** A one-round key exchange (kexgen.c) between a client and a server: the
    exchange hash is that of RFC 4253 section 8, and both ends come to the same
    keys. *)

From Stdlib Require Import String.
From S2P Require Import Prelude Match Sshbuf SshbufGetPut AlgNames Digest ChaCha Poly1305 ChachaPoly Cipher Kex Packet PacketKeep PacketNet Dh KexFlow KexHash KexSafe KexUse KexEnd KexPhase.
Local Open Scope Z_scope.

(** * Documented behaviour of the parameters *)

(** What the functions of the key agreement read of the key exchange. *)
Definition same_method (k k' : kex) : Prop :=
  kex_type k = kex_type k' /\ hash_alg k = hash_alg k' /\ ec_nid k = ec_nid k' /\ dh_need k = dh_need k' /\ we_need k = we_need k'.

Class KemLaws `(KexKem) : Prop := {
  (** The owner of a key pair computes the secret of the answer to its public part. *)
  kem_correct n m k0 kc ks key pub spub secret :
    same_method k0 kc -> same_method kc ks ->
    kem_keypair n k0 = Ok (key, pub) -> kem_enc m ks pub = Ok (spub, secret) -> kem_dec key kc spub = Ok secret
}.

Class HostKeysLaws `(HostKeys) : Prop := {
  (** A signature made with the host key is verified with its public part. *)
  sign_correct alg fpub fpriv public blob hash sig :
    find_host_public_key = Some fpub -> find_host_private_key = Some fpriv -> fpub alg = Some public ->
    Xkey_putb alg public = Ok blob -> xsign alg (fpriv alg) public hash = Ok sig ->
    exists key, Xkey_from_blob alg blob = Ok key /\ Xkey_verify alg key sig hash = Ok tt /\ sshkey_match_pkalg key alg = true
}.

Section gen.
Context `{Allocator} `{!ReliableAllocator _} `{EvpCipher} `{Uninit} `{EvpDigest} `{!EvpDigestLaws _} `{Umac} `{Zlib} `{Random} `{Fellows}
  `{HostKeyNames} `{KexKem} `{OpensslDh} `{HostKeys} `{KexConfig} `{!KemLaws _} `{!HostKeysLaws _}.

(** * Reading the messages *)

Lemma get_front s v rest : incoming_packet s = v ++ rest -> sshpkt_get (zlen v) s = (Ok v, set_incoming_packet rest s).
Proof.
  intros Hi. unfold sshpkt_get. run. rewrite Hi. pose proof (zlen_nonneg rest). rewrite bconsume_fits by (rewrite zlen_app; lia). run.
  by rewrite zdrop_app_exact, ztake_app_exact.
Qed.

Lemma get_string_enc s v rest :
  incoming_packet s = enc_string v ++ rest -> zlen v <= SSHBUF_SIZE_MAX - 4 ->
  sshpkt_get_string s = (Ok v, set_incoming_packet rest s).
Proof.
  intros Hi Hv. unfold sshpkt_get_string. rewrite run_get. rewrite Hi. unfold enc_string. rewrite <- app_assoc, PEEK_POKE_U32.
  assert (zlen (POKE_U32 (zlen v)) = 4) as Hl4 by done. rewrite !zlen_app, Hl4.
  assert (u32 (zlen v) = zlen v) as -> by (unfold u32, SSHBUF_SIZE_MAX in *; apply Z.mod_small; zlen_facts; lia).
  pose proof (zlen_nonneg v). pose proof (zlen_nonneg rest). rewrite (proj2 (Z.ltb_ge _ _)) by lia. rewrite Z.gtb_ltb, (proj2 (Z.ltb_ge _ _)) by lia.
  rewrite (proj2 (Z.ltb_ge _ _)) by lia.
  rewrite (se_bind_ok _ _ _ _ _ (get_front s (POKE_U32 (zlen v)) (v ++ rest) ltac:(by rewrite Hi; unfold enc_string; rewrite app_assoc))).
  exact (get_front (set_incoming_packet (v ++ rest) s) v rest eq_refl).
Qed.

Lemma get_end_ok s : incoming_packet s = [] -> sshpkt_get_end s = (Ok tt, s).
Proof. intros Hi. unfold sshpkt_get_end. rewrite run_get, Hi. done. Qed.

(** The parts of a reply that was sent are short enough to be read. *)
Lemma put_string_small v s s' : sshpkt_put_string v s = (Ok tt, s') -> zlen v <= SSHBUF_SIZE_MAX - 4.
Proof. unfold sshpkt_put_string, sshpkt_put_cstring. destruct (Z.gtb_spec (zlen v) (SSHBUF_SIZE_MAX - 4)); [done|lia]. Qed.

Lemma reply_small blob spub sig s s' :
  send_reply blob spub sig s = (Ok tt, s') ->
  zlen blob <= SSHBUF_SIZE_MAX - 4 /\ zlen spub <= SSHBUF_SIZE_MAX - 4 /\ zlen sig <= SSHBUF_SIZE_MAX - 4.
Proof.
  unfold send_reply. intros E. apply bind_ok in E as ([] & s1 & _ & E). apply bind_ok in E as ([] & s2 & E2 & E).
  apply bind_ok in E as ([] & s3 & E3 & E). apply bind_ok in E as ([] & s4 & E4 & _). apply put_string_small in E2, E3, E4. done.
Qed.

(** * The keys *)

(** RFC 4253, section 7.2: the session identifier is the hash of the first
    exchange; initial vector, cipher key and MAC key of a direction come from the
    secret, the hash, a letter ('A', 'C' and 'E' from client to server, 'B', 'D' and
    'F' the other way) and the session identifier. *)
Definition rfc4253_keys (k : kex) (secret hash : list Z) (k' : kex) : Prop :=
  let sid := default hash (session_id k) in
  let derived_key letter mode := kdf (hash_alg k) (we_need k) secret hash sid (if is_ctos (server k) mode then letter else letter + 1) in
  session_id k' = Some sid /\
  forall mode nk, newkeys_of mode k' = Some nk ->
    derived_key 65 mode = enc_iv (nk_enc nk) /\ derived_key 67 mode = enc_key (nk_enc nk) /\ derived_key 69 mode = mac_key (nk_mac nk).

Lemma derive_all_kdf n id k hash secret ds :
  needs_ok k -> derive_all n id k hash secret = Ok ds ->
  forall i, (i < n)%nat -> kdf (hash_alg k) (we_need k) secret hash (default [] (session_id k)) (id + Z.of_nat i) = Some (default [] (ds !! i)).
Proof.
  intros (Ha & Hn & _). revert id ds. induction n as [|n IH]; intros id ds E i Hi; [lia|]. cbn [derive_all] in E.
  rewrite derive_key_spec in E by done. destruct (kdf _ _ _ _ _ id) as [d|] eqn:Ed; [|done].
  destruct (derive_all n (id + 1) k hash secret) as [ds'|] eqn:Eds; [|done]. injection E as <-. destruct i as [|i].
  - by rewrite Z.add_0_r.
  - change (default [] ((d :: ds') !! S i)) with (default [] (ds' !! i)). rewrite <- (IH _ _ Eds i) by lia. f_equal. lia.
Qed.

Lemma derive_keys_rfc hash secret b k k' :
  needs_ok k -> sshbuf_from secret = Some b -> kex_derive_keys hash b k = (Ok tt, k') -> rfc4253_keys k secret hash k'.
Proof.
  intros Hn Eb. apply sshbuf_from_spec in Eb as (Hw & Hc & _). unfold kex_derive_keys. rewrite (sshbuf_ptr_wf _ Hw), Hc. cbn [default].
  destruct (match session_id k with Some _ => Some k | None => _ end) as [k1|] eqn:E1; [|done].
  assert (session_id k1 = Some (default hash (session_id k)) /\ needs_ok k1 /\ hash_alg k1 = hash_alg k /\ we_need k1 = we_need k /\ server k1 = server k)
    as (S1 & S2 & S3 & S4 & S5).
  { destruct (session_id k) eqn:Es; [injection E1 as <-; by rewrite Es|]. destruct (malloc_ok _); [|done]. by injection E1 as <-. }
  change (id secret) with secret. destruct (derive_all NKEYS 65 k1 hash secret) as [ds|] eqn:Ed; [|done]. intros [= <-]. pose proof (derive_all_kdf _ _ _ _ _ _ S2 Ed) as Hk.
  rewrite S1, S3, S4 in Hk. change (default [] (Some ?x)) with x in Hk. split; [done|]. intros mode nk En.
  assert (exists nk0, nk = let key i j := default [] (ds !! (if is_ctos (server k) mode then i else j)) in
    install_keys (key 0%nat 1%nat) (key 2%nat 3%nat) (key 4%nat 5%nat) nk0) as [nk0 ->].
  { rewrite <- S5. unfold install_mode in En. destruct mode; cbn in En.
    - destruct (newkeys_in k1) as [nk0|]; [|done]. injection En as <-. by exists nk0.
    - destruct (newkeys_out k1) as [nk0|]; [|done]. injection En as <-. by exists nk0. }
  destruct (is_ctos _ _); cbn; (split; [|split]); first [exact (Hk 0%nat ltac:(unfold NKEYS; lia)) | exact (Hk 1%nat ltac:(unfold NKEYS; lia))
    | exact (Hk 2%nat ltac:(unfold NKEYS; lia)) | exact (Hk 3%nat ltac:(unfold NKEYS; lia)) | exact (Hk 4%nat ltac:(unfold NKEYS; lia))
    | exact (Hk 5%nat ltac:(unfold NKEYS; lia))].
Qed.

(** * The two ends *)

(** A client that has sent its part and a server that has chosen the same
    algorithms. *)
Record ends (c s : conn) : Prop := {
  en_agree : kex_agree (kx (cn c)) (kx (cn s));
  en_needs : needs_ok (kx (cn c));
  en_versions : client_version c = client_version s /\ server_version c = server_version s;
  en_kexinits : contents (my (kx (cn c))) = contents (peer (kx (cn s))) /\ contents (peer (kx (cn c))) = contents (my (kx (cn s)))
}.

Lemma derive_same c s hash b ks :
  ends c s -> kex_derive_keys hash b (kx (cn s)) = (Ok tt, ks) ->
  exists kc, kex_derive_keys hash b (kx (cn c)) = (Ok tt, kc) /\ kex_agree kc ks /\ (forall mode nk, newkeys_of mode kc = Some nk -> keys_fit nk).
Proof.
  intros [Ha Hn _ _] Ek. pose proof (derive_pair _ _ hash b b Ha Hn eq_refl) as Hd. rewrite Ek in Hd.
  destruct (kex_derive_keys hash b (kx (cn c))) as [[[]|e] k'] eqn:Ec; [|done]. by exists k'.
Qed.

Lemma derive_run c hash secret b k :
  is_Some (newkeys_in (kx (cn c))) -> is_Some (newkeys_out (kx (cn c))) -> sshbuf_from secret = Some b ->
  kex_derive_keys hash b (kx (cn c)) = (Ok tt, k) -> derive hash secret c = (Ok tt, set_cn (set_kx k (cn c)) c).
Proof. intros [i Hi] [o Ho] Eb Ek. unfold derive. by rewrite Eb, Ek, Hi, Ho. Qed.

(** The client's part. *)
Lemma client_side_ok c blob spub sig key verify ck secret hash :
  incoming_packet (cn c) = enc_string blob ++ enc_string spub ++ enc_string sig ->
  zlen blob <= SSHBUF_SIZE_MAX - 4 -> zlen spub <= SSHBUF_SIZE_MAX - 4 -> zlen sig <= SSHBUF_SIZE_MAX - 4 ->
  Xkey_from_blob (hostkey_alg (kx (cn c))) blob = Ok key -> verify_host_key = Some verify -> verify key = true ->
  sshkey_match_pkalg key (hostkey_alg (kx (cn c))) = true -> gen_type (kx (cn c)) = true -> client_key c = Some ck ->
  kem_dec ck (kx (cn c)) spub = Ok secret ->
  kex_gen_hash (hash_alg (kx (cn c))) (client_version c) (server_version c) (contents (my (kx (cn c)))) (contents (peer (kx (cn c))))
    blob (default [] (client_pub c)) spub secret SSH_DIGEST_MAX_LENGTH = Ok hash ->
  Xkey_verify (hostkey_alg (kx (cn c))) key sig hash = Ok tt ->
  reply_body c = (_ ← derive hash secret; kex_send_newkeys) (set_cn (set_incoming_packet [] (cn c)) c).
Proof.
  intros Hi Hb Hs Hg Ekey Ev Evk Em Egt Eck Ed Eh Esig. unfold reply_body.
  rewrite (se_bind_ok _ _ _ _ _ (on_ssh_ok _ _ _ _ (get_string_enc (cn c) _ _ Hi Hb))). rewrite run_get. cbv zeta.
  set (c1 := set_cn _ c). change (kx (cn c1)) with (kx (cn c)). rewrite Ekey. rewrite (se_bind_ok (give (Ok key)) _ c1 key c1 eq_refl).
  assert (kex_verify_host_key key c1 = (Ok tt, c1)) as Evh.
  { unfold kex_verify_host_key. rewrite Ev, run_get. change (kx (cn c1)) with (kx (cn c)). by rewrite Em, Evk. }
  rewrite (se_bind_ok _ _ _ _ _ Evh).
  rewrite (se_bind_ok _ _ _ _ _ (on_ssh_ok _ c1 _ _ (get_string_enc (cn c1) spub (enc_string sig) eq_refl Hs))). set (c2 := set_cn _ c1).
  rewrite (se_bind_ok _ _ _ _ _ (on_ssh_ok _ c2 _ _ (get_string_enc (cn c2) sig [] ltac:(by rewrite app_nil_r) Hg))). set (c3 := set_cn _ c2).
  rewrite (se_bind_ok _ _ _ _ _ (on_ssh_ok _ c3 _ _ (get_end_ok (cn c3) eq_refl))). set (c4 := set_cn _ c3). rewrite run_get. cbv zeta.
  change (kx (cn c4)) with (kx (cn c)). change (client_key c4) with (client_key c). change (client_pub c4) with (client_pub c).
  change (client_version c4) with (client_version c). change (server_version c4) with (server_version c). rewrite Egt, Eck, Ed.
  rewrite (se_bind_ok (give (Ok secret)) _ c4 secret c4 eq_refl), Eh. rewrite (se_bind_ok (give (Ok hash)) _ c4 hash c4 eq_refl), Esig.
  by rewrite (se_bind_ok (give (Ok tt)) _ c4 tt c4 eq_refl).
Qed.

(** The server's part, with what the client needs to know of it. *)
Lemma init_run s s' cpub :
  incoming_packet (cn s) = enc_string cpub -> zlen cpub <= SSHBUF_SIZE_MAX - 4 -> input_kex_gen_init s = (Ok tt, s') ->
  exists public private blob spub secret hash sig sent b ks,
    loaded_host_keys (kx (cn s)) public private /\ Xkey_putb (hostkey_alg (kx (cn s))) public = Ok blob /\
    kem_enc (draws (cn s)) (kx (cn s)) cpub = Ok (spub, secret) /\
    kex_gen_hash (hash_alg (kx (cn s))) (client_version s) (server_version s) (contents (peer (kx (cn s)))) (contents (my (kx (cn s))))
      blob cpub spub secret SSH_DIGEST_MAX_LENGTH = Ok hash /\
    xsign (hostkey_alg (kx (cn s))) private public hash = Ok sig /\
    send_reply blob spub sig (set_draws (draws (cn s) + 1) (set_incoming_packet [] (cn s))) = (Ok tt, sent) /\
    sshbuf_from secret = Some b /\ kex_derive_keys hash b (kx (cn s)) = (Ok tt, ks) /\
    kex_send_newkeys (set_cn (set_kx ks sent) s) = (Ok tt, s') /\ gen_type (kx (cn s)) = true.
Proof.
  intros Hi Hl E. unfold input_kex_gen_init in E. got E ([public private] & c1 & [-> Hk]%load_inv & E).
  rewrite (se_bind_ok _ _ _ _ _ (on_ssh_ok _ _ _ _ (get_string_enc (cn s) cpub [] ltac:(by rewrite app_nil_r) Hl))) in E.
  set (s0 := set_incoming_packet [] (cn s)) in E. rewrite (se_bind_ok _ _ _ _ _ (on_ssh_ok _ (set_cn s0 s) _ _ (get_end_ok s0 eq_refl))) in E.
  got E ([spub secret] & c1 & E1 & E). unfold drawing in E1. change (kx (cn (set_cn s0 (set_cn s0 s)))) with (kx (cn s)) in E1.
  destruct (gen_type (kx (cn s))) eqn:Eg; [|done]. apply pair_equal_spec in E1 as [E1 <-]. rewrite run_get in E. cbv zeta in E.
  got E (blob & c4 & [E4 ->]%give_inv & E). got E (hash & c5 & [E5 ->]%give_inv & E). got E (sig & c6 & [E6 ->]%give_inv & E).
  got E ([] & c7 & (sent & E7 & ->)%on_ssh_inv & E). got E ([] & c8 & (b & ks & Eb & Ek & _ & ->)%derive_ok & E).
  change (draws (cn (set_cn s0 (set_cn s0 s)))) with (draws (cn s)) in *.
  pose proof (send_reply_kx blob spub sig (set_draws (draws (cn s) + 1) s0)) as Hkx. change (cn (set_cn _ _)) with (set_draws (draws (cn s) + 1) s0) in E7.
  rewrite E7 in Hkx. cbn [cn set_cn snd] in Ek, Hkx. rewrite Hkx in Ek.
  exists public, private, blob, spub, secret, hash, sig, sent, b, ks. done.
Qed.

Lemma needs_agree kc ks : kex_agree kc ks -> needs_ok kc -> needs_ok ks.
Proof.
  intros [(_ & _ & _ & Hh & _) [Hw _] [_ Hc] [_ Hs] _ _] (N1 & N2 & N3). split; [by rewrite <- Hh|]. split; [by rewrite <- Hw|].
  intros mode nk En. rewrite <- Hw. destruct mode; cbn in En; [apply (N3 MODE_OUT)|apply (N3 MODE_IN)]; cbn; congruence.
Qed.

(** C24: a whole one-round key exchange.  When the server has answered the
    client's part, it has computed the shared secret from that part, hashed the
    transcript of RFC 4253 section 8 with its host key and that secret, signed
    this hash with its host key, sent host key, public part and signature, and put
    the keys that section 7.2 derives from the secret and the hash into its key
    exchange before it sent NEWKEYS.  A client that has the same versions, KEXINIT
    messages and algorithms, reads the reply and accepts the host key: verifies
    the signature of the same hash, comes to the same secret, and its key exchange
    holds the same session identifier and, for each direction, the same keys, as
    long as the algorithms need, when it goes on to send NEWKEYS. *)
Theorem kex_gen_handshake c s s' n k0 key pub :
  ends c s -> client_key c = Some key -> client_pub c = Some pub -> kem_keypair n k0 = Ok (key, pub) ->
  same_method k0 (kx (cn c)) -> zlen pub <= SSHBUF_SIZE_MAX - 4 ->
  incoming_packet (cn s) = enc_string pub -> input_kex_gen_init s = (Ok tt, s') ->
  exists public private blob spub secret hash sig sent ks,
    loaded_host_keys (kx (cn s)) public private /\ Xkey_putb (hostkey_alg (kx (cn s))) public = Ok blob /\
    kem_enc (draws (cn s)) (kx (cn s)) pub = Ok (spub, secret) /\
    evp_md (hash_alg (kx (cn s))) (rfc4253_transcript (client_version s) (server_version s) (kexinit (my (kx (cn c)))) (kexinit (my (kx (cn s))))
      blob pub spub secret) = Some hash /\
    xsign (hostkey_alg (kx (cn s))) private public hash = Ok sig /\
    send_reply blob spub sig (set_draws (draws (cn s) + 1) (set_incoming_packet [] (cn s))) = (Ok tt, sent) /\
    rfc4253_keys (kx (cn s)) secret hash ks /\ kex_send_newkeys (set_cn (set_kx ks sent) s) = (Ok tt, s') /\
    forall verify, verify_host_key = Some verify ->
      (forall k, Xkey_from_blob (hostkey_alg (kx (cn c))) blob = Ok k -> verify k = true) ->
      incoming_packet (cn c) = enc_string blob ++ enc_string spub ++ enc_string sig ->
      exists hkey kc,
        Xkey_from_blob (hostkey_alg (kx (cn c))) blob = Ok hkey /\ Xkey_verify (hostkey_alg (kx (cn c))) hkey sig hash = Ok tt /\
        kem_dec key (kx (cn c)) spub = Ok secret /\ rfc4253_keys (kx (cn c)) secret hash kc /\
        reply_body c = kex_send_newkeys (set_cn (set_kx kc (set_incoming_packet [] (cn c))) c) /\
        kex_agree kc ks /\ (forall mode nk, newkeys_of mode kc = Some nk -> keys_fit nk).
Proof.
  intros He Hck Hcp Hkp Hsm Hlp Hin Hrun. pose proof He as [[(_ & Hha & Hkt & Hh & Hnid) [Hw Hd] [Hno _] [Hni _] _ _] Hneeds [Hv1 Hv2] [Hk1 Hk2]].
  destruct (init_run s s' pub Hin Hlp Hrun) as
    (public & private & blob & spub & secret & hash & sig & sent & b & ks & F1 & F2 & F3 & F4 & F5 & F6 & F7 & F8 & F9 & F10).
  assert (needs_ok (kx (cn s))) as Hneeds' by exact (needs_agree _ _ (en_agree _ _ He) Hneeds).
  exists public, private, blob, spub, secret, hash, sig, sent, ks. split; [done|]. split; [done|]. split; [done|].
  split; [unfold kexinit; rewrite Hk1; by apply gen_hash_rfc in F4|]. split; [done|]. split; [done|]. split; [by eapply derive_keys_rfc|]. split; [done|].
  intros verify Hver Hacc Hic. destruct (reply_small _ _ _ _ _ F6) as (L1 & L2 & L3). destruct F1 as (fpub & fpriv & P1 & P2 & P3 & ->).
  destruct (sign_correct _ fpub fpriv public blob hash sig P1 P2 P3 F2 F5) as (hk & G1 & G2 & G3). rewrite <- Hha in G1, G2, G3.
  assert (same_method (kx (cn c)) (kx (cn s))) as Hsm2 by (unfold same_method; done).
  pose proof (kem_correct _ _ _ _ _ _ _ _ _ Hsm Hsm2 Hkp F3) as G4. assert (gen_type (kx (cn c)) = true) as G5 by (unfold gen_type in *; by rewrite Hkt).
  destruct (derive_same c s hash b ks He F8) as (kc & D1 & D2 & D3). exists hk, kc. split; [done|]. split; [done|]. split; [done|].
  split; [by eapply derive_keys_rfc|]. split; [|done].
  rewrite (client_side_ok c blob spub sig hk verify key secret hash); try done; [|by apply Hacc|by rewrite Hh, Hv1, Hv2, Hk1, Hk2, Hcp].
  by rewrite (se_bind_ok _ _ _ _ _ (derive_run (set_cn (set_incoming_packet [] (cn c)) c) hash secret b kc Hni Hno F7 D1)).
Qed.
End gen.

(** * An example *)

#[local] Existing Instances alloc_all toy_evp toy_uninit toy_digest toy_umac toy_zlib toy_random toy_fellows ed25519_only toy_kem toy_hostkeys
  toy_client alloc_all_reliable toy_digest_laws.

#[local] Instance toy_kem_laws : KemLaws toy_kem.
Proof. split. intros n m k0 kc ks key pub spub secret _ _ _ [= _ <-]. done. Qed.
#[local] Instance toy_hostkeys_laws : HostKeysLaws toy_hostkeys.
Proof. split. intros alg fpub fpriv public blob hash sig _ _ _ [= <-] [= <-]. exists public. cbn. by rewrite bool_decide_true. Qed.

Definition demo_names : list cstring := demo_props "curve25519-sha256,diffie-hellman-group14-sha256".
Definition demo_names_s : list cstring := demo_props "diffie-hellman-group14-sha256,curve25519-sha256".

Definition demo_agreed (k : kex) (p : list cstring) : kex :=
  match agreed demo_names demo_names_s with Some g => agreed_state g (with_ext_info p k) | None => k end.
Definition gen_kc : kex := demo_agreed (demo_end false demo_c demo_s) demo_names_s.
(** The reply that the server sends: its host key, its part, and the hash as its own signature. *)
Definition gen_hash : list Z :=
  match kex_gen_hash (hash_alg gen_kc) [67] [83] (contents (my gen_kc)) (contents (peer gen_kc)) [1; 2; 3] [9; 9] [7; 7] [0; 0; 0; 1; 5]
    SSH_DIGEST_MAX_LENGTH with Ok h => h | Err _ => [] end.
Definition gen_c : conn :=
  mk_conn (set_incoming_packet (enc_string [1; 2; 3] ++ enc_string [7; 7] ++ enc_string gen_hash) (set_kx gen_kc plain_session))
    (replicate (Z.to_nat DISPATCH_MAX) None) 0 None [67] [83] (Some [9; 9]) (Some 0) (mk_gex 0 0 0 None) false.
Definition gen_s : conn :=
  mk_conn (set_incoming_packet (enc_string [9; 9]) (set_kx (demo_agreed (demo_end true demo_s demo_c) demo_names) plain_session))
    (replicate (Z.to_nat DISPATCH_MAX) None) 0 None [67] [83] None None (mk_gex 0 0 0 None) false.

Lemma demo_ends : ends gen_c gen_s.
Proof.
  unfold gen_c, gen_s, gen_kc, demo_agreed. destruct (agreed demo_names demo_names_s) as [g|] eqn:Eg; [|by vm_compute in Eg].
  split; cbn [cn client_version server_version kx set_kx set_incoming_packet].
  - by apply agreed_pair.
  - exact (agreed_needs _ _ _ _ _ Eg).
  - done.
  - done.
Qed.

Lemma demo_answer : fst (input_kex_gen_init gen_s) = Ok tt.
Proof. vm_compute. reflexivity. Qed.

Lemma gen_hash_ok : evp_md (hash_alg (kx (cn gen_s))) (rfc4253_transcript (client_version gen_s) (server_version gen_s)
  (kexinit (my (kx (cn gen_c)))) (kexinit (my (kx (cn gen_s)))) [1; 2; 3] [9; 9] [7; 7] [0; 0; 0; 1; 5]) = Some gen_hash.
Proof. vm_compute. reflexivity. Qed.

Lemma kex_gen_handshake_witness : exists secret hash sig hkey kc ks,
  Xkey_verify (hostkey_alg (kx (cn gen_c))) hkey sig hash = Ok tt /\ rfc4253_keys (kx (cn gen_c)) secret hash kc /\
  rfc4253_keys (kx (cn gen_s)) secret hash ks /\ kex_agree kc ks.
Proof.
  destruct (kex_gen_handshake gen_c gen_s (snd (input_kex_gen_init gen_s)) 0 (kx (cn gen_c)) 0 [9; 9] demo_ends eq_refl eq_refl eq_refl
    ltac:(repeat split) ltac:(vm_compute; congruence) eq_refl (pair_eq _ _ demo_answer)) as
    (public & private & blob & spub & secret & hash & sig & sent & ks & F1 & F2 & F3 & F4 & F5 & _ & F7 & _ & Hclient).
  destruct F1 as (fpub & fpriv & [= <-] & _ & [= <-] & _). injection F2 as <-. injection F3 as <- <-. injection F5 as <-.
  assert (hash = gen_hash) as -> by (apply (inj Some); exact (eq_trans (eq_sym F4) gen_hash_ok)).
  destruct (Hclient _ eq_refl (fun _ _ => eq_refl) eq_refl) as (hkey & kc & _ & G2 & _ & G4 & _ & G6 & _).
  exists [0; 0; 0; 1; 5], gen_hash, gen_hash, hkey, kc, ks. split; [exact G2|]. split; [exact G4|]. split; [exact F7|exact G6].
Defined.
