(* ===== verification/Channels.v ===== *)
(** Channels: the close state machine of nchan.c and the data path of
    channels.c for one open channel.

    A function that works on a channel returns the channel and the packets it
    enqueued for the peer, or nothing when it ends the process ([fatal],
    [ssh_packet_disconnect]).  The three buffers are the bounded byte queues that
    sshbuf implements (memory is not exhausted).  Whether the packet layer accepts
    a packet is a parameter, as is the peer's compatibility information
    ([datafellows]). *)

From S2P Require Import Prelude Sshbuf.

(** * Data *)

Inductive istate_t := CHAN_INPUT_OPEN | CHAN_INPUT_WAIT_DRAIN | CHAN_INPUT_WAIT_OCLOSE | CHAN_INPUT_CLOSED.
Inductive ostate_t := CHAN_OUTPUT_OPEN | CHAN_OUTPUT_WAIT_DRAIN | CHAN_OUTPUT_WAIT_IEOF | CHAN_OUTPUT_CLOSED.
#[global] Instance istate_eq_dec : EqDecision istate_t.
Proof. solve_decision. Defined.
#[global] Instance ostate_eq_dec : EqDecision ostate_t.
Proof. solve_decision. Defined.

Definition CHAN_CLOSE_SENT : Z := 0x01.
Definition CHAN_CLOSE_RCVD : Z := 0x02.
Definition CHAN_EOF_SENT : Z := 0x04.
Definition CHAN_EOF_RCVD : Z := 0x08.
Definition CHAN_LOCAL : Z := 0x10.

Definition CHAN_EXTENDED_IGNORE : Z := 0.
Definition CHAN_EXTENDED_READ : Z := 1.
Definition CHAN_EXTENDED_WRITE : Z := 2.

Definition SSH_CHANNEL_OPENING : Z := 3.
Definition SSH_CHANNEL_OPEN : Z := 4.
Definition SSH_CHANNEL_X11_OPEN : Z := 7.
Definition SSH_CHANNEL_LARVAL : Z := 10.
Definition SSH_CHANNEL_ZOMBIE : Z := 14.
Definition SSH_CHANNEL_RDYNAMIC_OPEN : Z := 21.
Definition SSH_CHANNEL_RDYNAMIC_FINISH : Z := 22.
Definition SSH2_EXTENDED_DATA_STDERR : Z := 1.

(** The fields of [Channel] that these functions use; [session] stands for
    [strcmp(c->ctype, "session") == 0], [input_filter] and [output_filter] for
    the presence of a callback. *)
Record Channel := mk_channel {
  type : Z;
  have_remote_id : bool;
  istate : istate_t;
  ostate : ostate_t;
  cflags : Z;
  rfd : Z; wfd : Z; efd : Z; sock : Z;
  force_drain : bool;
  input : list Z; output : list Z; extended : list Z;
  remote_window : Z;
  remote_maxpacket : Z;
  local_window : Z;
  local_window_max : Z;
  local_consumed : Z;
  local_maxpacket : Z;
  extended_usage : Z;
  session : bool;
  datagram : bool;
  isatty : bool;
  input_filter : bool;
  output_filter : bool;
}.

(** Packets for the peer's end of the channel. *)
Inductive chan_msg :=
  | MEof
  | MClose
  | MEow
  | MData (data : list Z)
  | MExtData (tcode : Z) (data : list Z)
  | MAdjust (n : Z).

Class Compat := { SSH_NEW_OPENSSH : bool; SSH_BUG_EXTEOF : bool }.
Class PacketLayer := { pkt_ok : chan_msg -> bool; ignore_ok : Z -> bool }.

(** * Channel functions *)

Definition CH : Type := Channel -> option (Channel * list chan_msg).

Definition done_ : CH := fun c => Some (c, []).
Definition fatal : CH := fun _ => None.
Definition upd (f : Channel -> Channel) : CH := fun c => Some (f c, []).
Definition andthen (f g : CH) : CH := fun c =>
  match f c with
  | None => None
  | Some (c1, m1) => match g c1 with None => None | Some (c2, m2) => Some (c2, m1 ++ m2) end
  end.
Declare Scope chan_scope.
Notation "f ';;;' g" := (andthen f g) (at level 59, right associativity) : chan_scope.
Local Open Scope chan_scope.

Definition set_type v c := mk_channel v (have_remote_id c) (istate c) (ostate c) (cflags c) (rfd c) (wfd c) (efd c) (sock c) (force_drain c) (input c) (output c) (extended c) (remote_window c) (remote_maxpacket c) (local_window c) (local_window_max c) (local_consumed c) (local_maxpacket c) (extended_usage c) (session c) (datagram c) (isatty c) (input_filter c) (output_filter c).
Definition set_istate v c := mk_channel (type c) (have_remote_id c) v (ostate c) (cflags c) (rfd c) (wfd c) (efd c) (sock c) (force_drain c) (input c) (output c) (extended c) (remote_window c) (remote_maxpacket c) (local_window c) (local_window_max c) (local_consumed c) (local_maxpacket c) (extended_usage c) (session c) (datagram c) (isatty c) (input_filter c) (output_filter c).
Definition set_ostate v c := mk_channel (type c) (have_remote_id c) (istate c) v (cflags c) (rfd c) (wfd c) (efd c) (sock c) (force_drain c) (input c) (output c) (extended c) (remote_window c) (remote_maxpacket c) (local_window c) (local_window_max c) (local_consumed c) (local_maxpacket c) (extended_usage c) (session c) (datagram c) (isatty c) (input_filter c) (output_filter c).
Definition set_flags v c := mk_channel (type c) (have_remote_id c) (istate c) (ostate c) v (rfd c) (wfd c) (efd c) (sock c) (force_drain c) (input c) (output c) (extended c) (remote_window c) (remote_maxpacket c) (local_window c) (local_window_max c) (local_consumed c) (local_maxpacket c) (extended_usage c) (session c) (datagram c) (isatty c) (input_filter c) (output_filter c).
Definition set_fds r w e c := mk_channel (type c) (have_remote_id c) (istate c) (ostate c) (cflags c) r w e (sock c) (force_drain c) (input c) (output c) (extended c) (remote_window c) (remote_maxpacket c) (local_window c) (local_window_max c) (local_consumed c) (local_maxpacket c) (extended_usage c) (session c) (datagram c) (isatty c) (input_filter c) (output_filter c).
Definition set_bufs i o e c := mk_channel (type c) (have_remote_id c) (istate c) (ostate c) (cflags c) (rfd c) (wfd c) (efd c) (sock c) (force_drain c) i o e (remote_window c) (remote_maxpacket c) (local_window c) (local_window_max c) (local_consumed c) (local_maxpacket c) (extended_usage c) (session c) (datagram c) (isatty c) (input_filter c) (output_filter c).
Definition set_remote_window v c := mk_channel (type c) (have_remote_id c) (istate c) (ostate c) (cflags c) (rfd c) (wfd c) (efd c) (sock c) (force_drain c) (input c) (output c) (extended c) v (remote_maxpacket c) (local_window c) (local_window_max c) (local_consumed c) (local_maxpacket c) (extended_usage c) (session c) (datagram c) (isatty c) (input_filter c) (output_filter c).
Definition set_local w n c := mk_channel (type c) (have_remote_id c) (istate c) (ostate c) (cflags c) (rfd c) (wfd c) (efd c) (sock c) (force_drain c) (input c) (output c) (extended c) (remote_window c) (remote_maxpacket c) w (local_window_max c) n (local_maxpacket c) (extended_usage c) (session c) (datagram c) (isatty c) (input_filter c) (output_filter c).

Definition set_input v c := set_bufs v (output c) (extended c) c.
Definition set_output v c := set_bufs (input c) v (extended c) c.
Definition set_extended v c := set_bufs (input c) (output c) v c.

(** [c->flags & f] *)
Definition has (f : Z) (c : Channel) : bool := negb (Z.land (cflags c) f =? 0).
Definition add_flag (f : Z) (c : Channel) : Channel := set_flags (Z.lor (cflags c) f) c.

Definition CHANNEL_EFD_INPUT_ACTIVE (c : Channel) : bool :=
  (extended_usage c =? CHAN_EXTENDED_READ) && (negb (efd c =? -1) || (zlen (extended c) >? 0)).
Definition CHANNEL_EFD_OUTPUT_ACTIVE (c : Channel) : bool :=
  (extended_usage c =? CHAN_EXTENDED_WRITE) && negb (efd c =? -1) &&
  (negb (has (Z.lor CHAN_EOF_RCVD CHAN_CLOSE_RCVD) c) || (zlen (extended c) >? 0)).

Section channel.
Context `{Compat} `{PacketLayer}.

(** sshpkt_start, the put calls and sshpkt_send; a failure is fatal. *)
Definition send (m : chan_msg) : CH := fun c => if pkt_ok m then Some (c, [m]) else None.
(** sshpkt_msg_ignore of [n] bytes: a packet that belongs to no channel. *)
Definition send_ignore (n : Z) : CH := fun c => if ignore_ok n then Some (c, []) else None.
Definition need_remote_id : CH := fun c => if have_remote_id c then Some (c, []) else None.

(** ** nchan.c *)

Definition chan_set_istate (next : istate_t) : CH := upd (set_istate next).
Definition chan_set_ostate (next : ostate_t) : CH := upd (set_ostate next).

(** channel_close_fd: the descriptor becomes -1; a failing close is logged. *)
Definition chan_shutdown_write : CH := fun c =>
  let c := set_output [] c in
  if type c =? SSH_CHANNEL_LARVAL then done_ c
  else if negb (sock c =? -1) then done_ c
  else done_ (set_fds (rfd c) (-1) (efd c) c).

Definition chan_shutdown_read : CH := fun c =>
  if type c =? SSH_CHANNEL_LARVAL then done_ c
  else if negb (sock c =? -1) then done_ c
  else done_ (set_fds (-1) (wfd c) (efd c) c).

Definition chan_shutdown_extended_read : CH := fun c =>
  if (type c =? SSH_CHANNEL_LARVAL) || (efd c =? -1) then done_ c
  else if negb (extended_usage c =? CHAN_EXTENDED_READ) && negb (extended_usage c =? CHAN_EXTENDED_IGNORE)
  then done_ c
  else done_ (set_fds (rfd c) (wfd c) (-1) c).

Definition chan_send_eof2 : CH := fun c =>
  match istate c with
  | CHAN_INPUT_WAIT_DRAIN => (need_remote_id ;;; send MEof ;;; upd (add_flag CHAN_EOF_SENT)) c
  | _ => done_ c
  end.

Definition chan_send_close2 : CH := fun c =>
  if negb (bool_decide (ostate c = CHAN_OUTPUT_CLOSED)) || negb (bool_decide (istate c = CHAN_INPUT_CLOSED))
  then done_ c
  else if has CHAN_CLOSE_SENT c then done_ c
  else (need_remote_id ;;; send MClose ;;; upd (add_flag CHAN_CLOSE_SENT)) c.

Definition chan_send_eow2 : CH := fun c =>
  if bool_decide (ostate c = CHAN_OUTPUT_CLOSED) then done_ c
  else if negb SSH_NEW_OPENSSH then done_ c
  else (need_remote_id ;;; send MEow) c.

Definition chan_read_failed : CH := fun c =>
  match istate c with
  | CHAN_INPUT_OPEN => (chan_shutdown_read ;;; chan_set_istate CHAN_INPUT_WAIT_DRAIN) c
  | _ => done_ c
  end.

Definition chan_ibuf_empty : CH := fun c =>
  if negb (zlen (input c) =? 0) then done_ c
  else
    match istate c with
    | CHAN_INPUT_WAIT_DRAIN =>
        ((fun c => if negb (has (Z.lor CHAN_CLOSE_SENT CHAN_LOCAL) c) then chan_send_eof2 c else done_ c)
         ;;; chan_set_istate CHAN_INPUT_CLOSED) c
    | _ => done_ c
    end.

Definition chan_obuf_empty : CH := fun c =>
  if negb (zlen (output c) =? 0) then done_ c
  else
    match ostate c with
    | CHAN_OUTPUT_WAIT_DRAIN => (chan_shutdown_write ;;; chan_set_ostate CHAN_OUTPUT_CLOSED) c
    | _ => done_ c
    end.

Definition chan_rcvd_eow : CH := fun c =>
  match istate c with
  | CHAN_INPUT_OPEN => (chan_shutdown_read ;;; chan_set_istate CHAN_INPUT_CLOSED) c
  | _ => done_ c
  end.

Definition chan_rcvd_ieof : CH := fun c =>
  let c := add_flag CHAN_EOF_RCVD c in
  let c := if bool_decide (ostate c = CHAN_OUTPUT_OPEN) then set_ostate CHAN_OUTPUT_WAIT_DRAIN c else c in
  if bool_decide (ostate c = CHAN_OUTPUT_WAIT_DRAIN) && (zlen (output c) =? 0) &&
     negb (CHANNEL_EFD_OUTPUT_ACTIVE c)
  then chan_obuf_empty c else done_ c.

Definition chan_rcvd_oclose : CH := fun c =>
  let c := if negb (has CHAN_LOCAL c) then add_flag CHAN_CLOSE_RCVD c else c in
  if type c =? SSH_CHANNEL_LARVAL then
    (chan_set_ostate CHAN_OUTPUT_CLOSED ;;; chan_set_istate CHAN_INPUT_CLOSED) c
  else
    let c := match ostate c with
             | CHAN_OUTPUT_OPEN => set_ostate CHAN_OUTPUT_WAIT_DRAIN c
             | _ => c
             end in
    match istate c with
    | CHAN_INPUT_OPEN =>
        (chan_shutdown_read ;;; chan_shutdown_extended_read ;;; chan_set_istate CHAN_INPUT_CLOSED) c
    | CHAN_INPUT_WAIT_DRAIN =>
        ((fun c => if negb (has CHAN_LOCAL c) then chan_send_eof2 c else done_ c)
         ;;; chan_shutdown_extended_read ;;; chan_set_istate CHAN_INPUT_CLOSED) c
    | _ => done_ c
    end.

Definition chan_write_failed : CH := fun c =>
  match ostate c with
  | CHAN_OUTPUT_OPEN | CHAN_OUTPUT_WAIT_DRAIN =>
      (chan_shutdown_write ;;; (fun c => if session c then chan_send_eow2 c else done_ c)
       ;;; chan_set_ostate CHAN_OUTPUT_CLOSED) c
  | _ => done_ c
  end.

Definition chan_mark_dead : CH := upd (set_type SSH_CHANNEL_ZOMBIE).

(** The return value and, when [do_send] is set, a close for the peer. *)
Definition chan_is_dead (do_send : bool) (c : Channel) : option (bool * Channel * list chan_msg) :=
  if type c =? SSH_CHANNEL_ZOMBIE then Some (true, c, [])
  else if negb (bool_decide (istate c = CHAN_INPUT_CLOSED)) || negb (bool_decide (ostate c = CHAN_OUTPUT_CLOSED))
  then Some (false, c, [])
  else if SSH_BUG_EXTEOF && (extended_usage c =? CHAN_EXTENDED_WRITE) && negb (efd c =? -1) &&
          (zlen (extended c) >? 0)
  then Some (false, c, [])
  else if has CHAN_LOCAL c then Some (true, c, [])
  else
    let fin (c : Channel) (ms : list chan_msg) :=
      Some (has CHAN_CLOSE_SENT c && has CHAN_CLOSE_RCVD c, c, ms) in
    if negb (has CHAN_CLOSE_SENT c) then
      if do_send then
        match chan_send_close2 c with None => None | Some (c, ms) => fin c ms end
      else if has CHAN_CLOSE_RCVD c then Some (true, c, [])
      else fin c []
    else fin c [].

(** ** channels.c: sending *)

(** sshbuf_get_string_direct on the input queue of a datagram channel. *)
Definition get_datagram (b : list Z) : option (list Z * list Z) :=
  let len := Z.lor (Z.lor (Z.lor (Z.shiftl (znth b 0) 24) (Z.shiftl (znth b 1) 16))
                     (Z.shiftl (znth b 2) 8)) (znth b 3) in
  if (zlen b <? 4) || (zlen b - 4 <? len) then None
  else Some (ztake len (zdrop 4 b), zdrop (4 + len) b).

(** sshbuf_put and, for datagrams, sshbuf_put_string at the end of a queue. *)
Definition chan_put (b d : list Z) : option (list Z) :=
  if zlen b + zlen d >? SSHBUF_SIZE_MAX then None else Some (b ++ d).
Definition datagram_header (d : list Z) : list Z :=
  [Z.land (Z.shiftr (zlen d) 24) 255; Z.land (Z.shiftr (zlen d) 16) 255;
   Z.land (Z.shiftr (zlen d) 8) 255; Z.land (zlen d) 255].
Definition chan_put_any (c : Channel) (b d : list Z) : option (list Z) :=
  if datagram c then chan_put b (datagram_header d ++ d) else chan_put b d.

Definition channel_output_poll_input_open : CH := fun c =>
  let len := zlen (input c) in
  if len =? 0 then
    match istate c with
    | CHAN_INPUT_WAIT_DRAIN => if CHANNEL_EFD_INPUT_ACTIVE c then done_ c else chan_ibuf_empty c
    | _ => done_ c
    end
  else if negb (have_remote_id c) then fatal c
  else if datagram c then
    match get_datagram (input c) with
    | None => fatal c
    | Some (pkt, rest) =>
        let c := set_input rest c in
        let plen := zlen pkt in
        if (plen >? remote_window c) || (plen >? remote_maxpacket c) then done_ c
        else (send (MData pkt) ;;; upd (fun c => set_remote_window (u32 (remote_window c - plen)) c)) c
    end
  else
    let len := if len >? remote_window c then remote_window c else len in
    let len := if len >? remote_maxpacket c then remote_maxpacket c else len in
    if len =? 0 then done_ c
    else
      (send (MData (ztake len (input c))) ;;;
       upd (fun c => set_remote_window (u32 (remote_window c - len)) (set_input (zdrop len (input c)) c))) c.

Definition channel_output_poll_extended_read : CH := fun c =>
  let len := zlen (extended c) in
  if len =? 0 then done_ c
  else
    let len := if len >? remote_window c then remote_window c else len in
    let len := if len >? remote_maxpacket c then remote_maxpacket c else len in
    if len =? 0 then done_ c
    else
      (need_remote_id ;;; send (MExtData SSH2_EXTENDED_DATA_STDERR (ztake len (extended c))) ;;;
       upd (fun c => set_remote_window (u32 (remote_window c - len)) (set_extended (zdrop len (extended c)) c))) c.

(** The body of [channel_output_poll] for one channel. *)
Definition channel_output_poll : CH := fun c =>
  if negb (type c =? SSH_CHANNEL_OPEN) then done_ c
  else if has (Z.lor CHAN_CLOSE_SENT CHAN_CLOSE_RCVD) c then done_ c
  else
    ((fun c => match istate c with
               | CHAN_INPUT_OPEN | CHAN_INPUT_WAIT_DRAIN => channel_output_poll_input_open c
               | _ => done_ c
               end) ;;;
     (fun c => if negb (has CHAN_EOF_SENT c) && (extended_usage c =? CHAN_EXTENDED_READ)
               then channel_output_poll_extended_read c else done_ c)) c.

Definition channel_check_window : CH := fun c =>
  if (type c =? SSH_CHANNEL_OPEN) && negb (has (Z.lor CHAN_CLOSE_SENT CHAN_CLOSE_RCVD) c) &&
     ((u32 (local_window_max c - local_window c) >? u32 (local_maxpacket c * 3)) ||
      (local_window c <? local_window_max c / 2)) &&
     (local_consumed c >? 0)
  then
    (need_remote_id ;;; send (MAdjust (local_consumed c)) ;;;
     upd (fun c => set_local (u32 (local_window c + local_consumed c)) 0 c)) c
  else done_ c.

(** ** channels.c: receiving *)

(** [get_data]: the string was parsed from the packet (else fatal); channels of
    mux proxies are not modelled. *)
Definition channel_input_data (data : list Z) : CH := fun c =>
  if negb (type c =? SSH_CHANNEL_OPEN) && negb (type c =? SSH_CHANNEL_RDYNAMIC_OPEN) &&
     negb (type c =? SSH_CHANNEL_RDYNAMIC_FINISH) && negb (type c =? SSH_CHANNEL_X11_OPEN)
  then done_ c
  else
    let win_len := if datagram c then zlen data + 4 else zlen data in
    if negb (bool_decide (ostate c = CHAN_OUTPUT_OPEN)) then
      done_ (set_local (u32 (local_window c - win_len)) (u32 (local_consumed c + win_len)) c)
    else if win_len >? local_maxpacket c then done_ c
    else if win_len >? local_window c then done_ c
    else
      let c := set_local (u32 (local_window c - win_len)) (local_consumed c) c in
      match chan_put_any c (output c) data with
      | None => fatal c
      | Some b => done_ (set_output b c)
      end.

Definition channel_input_extended_data (tcode : Z) (data : list Z) : CH := fun c =>
  if negb (type c =? SSH_CHANNEL_OPEN) then done_ c
  else if has CHAN_EOF_RCVD c && negb SSH_BUG_EXTEOF then fatal c
  else if (efd c =? -1) || negb (extended_usage c =? CHAN_EXTENDED_WRITE) ||
          negb (tcode =? SSH2_EXTENDED_DATA_STDERR) then done_ c
  else if zlen data >? local_window c then done_ c
  else
    let c := match chan_put (extended c) data with None => c | Some b => set_extended b c end in
    done_ (set_local (u32 (local_window c - zlen data)) (local_consumed c) c).

Definition channel_input_ieof : CH :=
  chan_rcvd_ieof ;;;
  (fun c =>
     if force_drain c && bool_decide (istate c = CHAN_INPUT_OPEN) then
       let c := set_istate CHAN_INPUT_WAIT_DRAIN c in
       if zlen (input c) =? 0 then chan_ibuf_empty c else done_ c
     else done_ c).

Definition channel_input_oclose : CH := chan_rcvd_oclose.

Definition channel_input_window_adjust (adjust : Z) : CH := fun c =>
  let new_rwin := u32 (remote_window c + adjust) in
  if new_rwin <? remote_window c then fatal c
  else done_ (set_remote_window new_rwin c).

(** ** channels.c: local descriptors *)

(** Result of read(2) or write(2). *)
Inductive io_result := IOAgain | IOFail | IOData (data : list Z).

Definition chan_fail (on_open : CH) : CH := fun c =>
  if negb (type c =? SSH_CHANNEL_OPEN) then chan_mark_dead c else on_open c.

(** What an input filter did: its result ([false] for -1) and the buffers as it
    left them. *)
Record filter_result := mk_filter { f_ok : bool; f_input : list Z; f_output : list Z; f_extended : list Z }.

(** [channel_handle_rfd] when the descriptor is ready. *)
Definition channel_handle_rfd (r : io_result) (flt : filter_result) : CH := fun c =>
  if rfd c =? -1 then done_ c
  else
    match r with
    | IOAgain => done_ c
    | IOFail => chan_fail chan_read_failed c
    | IOData buf =>
        if input_filter c then
          let c := set_bufs (f_input flt) (f_output flt) (f_extended flt) c in
          if f_ok flt then done_ c else chan_read_failed c
        else
          match chan_put_any c (input c) buf with
          | None => fatal c
          | Some b => done_ (set_input b c)
          end
    end.

(** The bytes to write and the channel without them, a filter that stops, or a
    malformed datagram.  [flt] is the result of the output filter and the output
    buffer as it left it. *)
Inductive to_write := WData (buf : list Z) (c : Channel) | WStop (c : Channel) | WFatal.
Definition handle_wfd_data (flt : option (list Z) * list Z) (c : Channel) : to_write :=
  if output_filter c then
    let c := set_output flt.2 c in
    match flt.1 with None => WStop c | Some buf => WData buf c end
  else if datagram c then
    match get_datagram (output c) with
    | None => WFatal
    | Some (d, rest) => WData d (set_output rest c)
    end
  else WData (output c) c.

(** [channel_handle_wfd] when the descriptor is ready: [r] is the result of the
    write (nothing for EAGAIN), [hidden] whether the terminal does not echo. *)
Definition channel_handle_wfd (r : option Z) (flt : option (list Z) * list Z) (hidden : bool) : CH := fun c =>
  if (wfd c =? -1) || (zlen (output c) =? 0) then done_ c
  else
    let olen := zlen (output c) in
    match handle_wfd_data flt c with
    | WFatal => fatal c
    | WStop c => chan_fail chan_write_failed c
    | WData buf c =>
        match r with
        | None => done_ c
        | Some n =>
            if n <=? 0 then chan_fail chan_write_failed c
            else
              let out := upd (fun c =>
                set_local (local_window c) (u32 (local_consumed c + (olen - zlen (output c)))) c) in
              if datagram c then out c
              else
                ((fun c => if isatty c && (zlen buf >=? 1) && negb (znth buf 0 =? 13) && hidden
                           then send_ignore (4 + n) c else done_ c) ;;;
                 (fun c => if n >? zlen (output c) then fatal c else done_ (set_output (zdrop n (output c)) c)) ;;;
                 out) c
        end
    end.

(** [channel_handle_efd]: the extended descriptor. *)
Definition channel_handle_efd_write (r : option Z) : CH := fun c =>
  if (efd c =? -1) || negb (extended_usage c =? CHAN_EXTENDED_WRITE) || (zlen (extended c) =? 0) then done_ c
  else
    match r with
    | None => done_ c
    | Some n =>
        if n <=? 0 then done_ (set_fds (rfd c) (wfd c) (-1) c)
        else done_ (set_local (local_window c) (u32 (local_consumed c + n)) (set_extended (zdrop n (extended c)) c))
    end.

Definition channel_handle_efd_read (r : io_result) : CH := fun c =>
  if (efd c =? -1) ||
     (negb (extended_usage c =? CHAN_EXTENDED_READ) && negb (extended_usage c =? CHAN_EXTENDED_IGNORE)) then done_ c
  else
    match r with
    | IOAgain => done_ c
    | IOFail => done_ (set_fds (rfd c) (wfd c) (-1) c)
    | IOData buf =>
        if extended_usage c =? CHAN_EXTENDED_IGNORE then done_ c
        else match chan_put (extended c) buf with None => fatal c | Some b => done_ (set_extended b c) end
    end.

(** [channel_pre_open]: the channel, the packets and the descriptors to wait for. *)
Record fdsets := mk_fdsets { read_rfd : bool; write_wfd : bool; write_efd : bool; read_efd : bool }.
Definition CHAN_RBUF : Z := 16 * 1024.

Definition channel_pre_open_drain : CH := fun c =>
  if bool_decide (ostate c = CHAN_OUTPUT_OPEN) || bool_decide (ostate c = CHAN_OUTPUT_WAIT_DRAIN) then
    if zlen (output c) >? 0 then done_ c
    else if bool_decide (ostate c = CHAN_OUTPUT_WAIT_DRAIN) then
      if CHANNEL_EFD_OUTPUT_ACTIVE c then done_ c else chan_obuf_empty c
    else done_ c
  else done_ c.

Definition channel_pre_open (c : Channel) : option (fdsets * Channel * list chan_msg) :=
  let rd := bool_decide (istate c = CHAN_INPUT_OPEN) && (remote_window c >? 0) &&
            (zlen (input c) <? remote_window c) && (zlen (input c) + CHAN_RBUF <=? SSHBUF_SIZE_MAX) in
  let wr := (bool_decide (ostate c = CHAN_OUTPUT_OPEN) || bool_decide (ostate c = CHAN_OUTPUT_WAIT_DRAIN)) &&
            (zlen (output c) >? 0) in
  match channel_pre_open_drain c with
  | None => None
  | Some (c, ms) =>
      let ext := negb (efd c =? -1) &&
        negb (bool_decide (istate c = CHAN_INPUT_CLOSED) && bool_decide (ostate c = CHAN_OUTPUT_CLOSED)) in
      let we := (extended_usage c =? CHAN_EXTENDED_WRITE) && (zlen (extended c) >? 0) in
      let re := negb (has CHAN_EOF_SENT c) &&
        ((extended_usage c =? CHAN_EXTENDED_READ) || (extended_usage c =? CHAN_EXTENDED_IGNORE)) &&
        (zlen (extended c) <? remote_window c) in
      Some (mk_fdsets rd wr (ext && we) (ext && negb we && re), c, ms)
  end.

(** simulate read-error *)
Definition rdynamic_close : CH :=
  upd (set_type SSH_CHANNEL_OPEN) ;;; chan_read_failed ;;; upd (set_input []) ;;;
  chan_ibuf_empty ;;; upd (set_output []) ;;; chan_write_failed.

End channel.

(** * Events *)

(** What can happen to a channel; the local calls of channels.c, session.c,
    mux.c and clientloop.c in any order, and packets from the peer. *)
Inductive event :=
  | ERead (r : io_result) (flt : filter_result)
  | EWrite (r : option Z) (flt : option (list Z) * list Z) (hidden : bool)
  | EEfdRead (r : io_result) | EEfdWrite (r : option Z)
  | EPreOpen | ECheckWindow | EOutputPoll
  | EGarbageCollect (do_send : bool)
  | EReadFailed | EWriteFailed | EMarkDead | ERdynamicClose
  | ERecv (m : chan_msg).

Definition step `{Compat} `{PacketLayer} (e : event) : CH :=
  match e with
  | ERead r flt => channel_handle_rfd r flt
  | EWrite r flt hidden => channel_handle_wfd r flt hidden
  | EEfdRead r => channel_handle_efd_read r
  | EEfdWrite r => channel_handle_efd_write r
  | EPreOpen => fun c => match channel_pre_open c with None => None | Some (_, c, ms) => Some (c, ms) end
  | ECheckWindow => channel_check_window
  | EOutputPoll => channel_output_poll
  | EGarbageCollect do_send => fun c =>
      match chan_is_dead do_send c with None => None | Some (_, c, ms) => Some (c, ms) end
  | EReadFailed => chan_read_failed
  | EWriteFailed => chan_write_failed
  | EMarkDead => chan_mark_dead
  | ERdynamicClose => rdynamic_close
  | ERecv MEof => channel_input_ieof
  | ERecv MClose => channel_input_oclose
  | ERecv MEow => chan_rcvd_eow
  | ERecv (MData d) => channel_input_data d
  | ERecv (MExtData t d) => channel_input_extended_data t d
  | ERecv (MAdjust n) => channel_input_window_adjust n
  end.

(** * Relations between a channel before and after *)

(** [sat R f]: [R] relates the channel before and after [f] and the packets
    sent, whenever [f] returns. *)
Definition sat (R : Channel -> list chan_msg -> Channel -> Prop) (f : CH) : Prop :=
  forall c c' ms, f c = Some (c', ms) -> R c ms c'.

Class Composable (R : Channel -> list chan_msg -> Channel -> Prop) : Prop := {
  rel_nil : forall c, R c [] c;
  rel_app : forall c1 m1 c2 m2 c3, R c1 m1 c2 -> R c2 m2 c3 -> R c1 (m1 ++ m2) c3;
}.

Section rules.
Context (R : Channel -> list chan_msg -> Channel -> Prop) `{!Composable R}.

Lemma sat_done : sat R done_.
Proof. intros c c' ms [= <- <-]. apply rel_nil. Qed.

Lemma sat_andthen f g : sat R f -> sat R g -> sat R (andthen f g).
Proof.
  intros Hf Hg c c' ms. unfold andthen. destruct (f c) as [[c1 m1]|] eqn:Ef; [|done].
  destruct (g c1) as [[c2 m2]|] eqn:Eg; [|done]. intros [= <- <-].
  eapply rel_app; [by apply Hf|by apply Hg].
Qed.

End rules.

Lemma andthen_inv f g c c' ms :
  andthen f g c = Some (c', ms) ->
  exists c1 m1 m2, f c = Some (c1, m1) /\ g c1 = Some (c', m2) /\ ms = m1 ++ m2.
Proof.
  unfold andthen. destruct (f c) as [[c1 m1]|]; [|done].
  destruct (g c1) as [[c2 m2]|] eqn:Eg; [|done]. intros [= <- <-]. by exists c1, m1, m2.
Qed.

(** Flags. *)
Lemma has_testbit i c : 0 <= i -> has (2 ^ i) c = Z.testbit (cflags c) i.
Proof.
  intros Hi. unfold has. destruct (Z.testbit (cflags c) i) eqn:T.
  - destruct (Z.eqb_spec (Z.land (cflags c) (2 ^ i)) 0) as [E|]; [|done].
    assert (Hb : Z.testbit (Z.land (cflags c) (2 ^ i)) i = false) by by rewrite E, Z.bits_0.
    rewrite Z.land_spec, Z.pow2_bits_true, T in Hb by done. done.
  - assert (Z.land (cflags c) (2 ^ i) = 0) as ->; [|done]. apply Z.bits_inj'. intros k Hk.
    rewrite Z.land_spec, Z.pow2_bits_eqb, Z.bits_0 by done.
    destruct (Z.eqb_spec i k) as [<-|]; [by rewrite T|apply andb_false_r].
Qed.

Lemma has_add i j c : 0 <= i -> 0 <= j -> has (2 ^ i) (add_flag (2 ^ j) c) = has (2 ^ i) c || (i =? j).
Proof.
  intros Hi Hj. rewrite !has_testbit by done. cbn. rewrite Z.lor_spec, Z.pow2_bits_eqb by done.
  by rewrite (Z.eqb_sym j).
Qed.

Lemma has_lor f g c : has (Z.lor f g) c = has f c || has g c.
Proof.
  unfold has. rewrite Z.land_lor_distr_r.
  destruct (Z.eqb_spec (Z.lor (Z.land (cflags c) f) (Z.land (cflags c) g)) 0) as [E|E].
  - apply Z.lor_eq_0_iff in E as [-> ->]. done.
  - destruct (Z.eqb_spec (Z.land (cflags c) f) 0) as [E1|]; [|done].
    destruct (Z.eqb_spec (Z.land (cflags c) g) 0) as [E2|]; [|done]. by rewrite E1, E2 in E.
Qed.

Definition eof_sent (c : Channel) : bool := has CHAN_EOF_SENT c.
Definition close_sent (c : Channel) : bool := has CHAN_CLOSE_SENT c.

Lemma add_eof c : eof_sent (add_flag CHAN_EOF_SENT c) = true /\
  close_sent (add_flag CHAN_EOF_SENT c) = close_sent c.
Proof.
  unfold eof_sent, close_sent. change CHAN_EOF_SENT with (2 ^ 2). change CHAN_CLOSE_SENT with (2 ^ 0).
  rewrite !has_add by lia. split; [apply orb_true_r|apply orb_false_r].
Qed.

Lemma add_close c : close_sent (add_flag CHAN_CLOSE_SENT c) = true /\
  eof_sent (add_flag CHAN_CLOSE_SENT c) = eof_sent c.
Proof.
  unfold eof_sent, close_sent. change CHAN_EOF_SENT with (2 ^ 2). change CHAN_CLOSE_SENT with (2 ^ 0).
  rewrite !has_add by lia. split; [apply orb_true_r|apply orb_false_r].
Qed.

Lemma add_rcvd f c : f = CHAN_CLOSE_RCVD \/ f = CHAN_EOF_RCVD ->
  close_sent (add_flag f c) = close_sent c /\ eof_sent (add_flag f c) = eof_sent c.
Proof.
  unfold eof_sent, close_sent. change CHAN_EOF_SENT with (2 ^ 2). change CHAN_CLOSE_SENT with (2 ^ 0).
  intros [-> | ->]; [change CHAN_CLOSE_RCVD with (2 ^ 1)|change CHAN_EOF_RCVD with (2 ^ 3)];
    rewrite !has_add by lia; split; apply orb_false_r.
Qed.

(** * The packets of one end *)

(** A monitor of the packets sent: what may still follow. *)
Record mon := mk_mon { m_eof : bool; m_close : bool; m_window : Z }.

Definition mon_send (max : Z) (m : mon) (p : chan_msg) : option mon :=
  if m_close m then None
  else
    match p with
    | MEof => if m_eof m then None else Some (mk_mon true false (m_window m))
    | MClose => Some (mk_mon (m_eof m) true (m_window m))
    | MEow | MAdjust _ => Some m
    | MData d | MExtData _ d =>
        if m_eof m || (zlen d >? max) || (zlen d >? m_window m) then None
        else Some (mk_mon (m_eof m) false (m_window m - zlen d))
    end.

Fixpoint mon_run (max : Z) (m : mon) (ps : list chan_msg) : option mon :=
  match ps with
  | [] => Some m
  | p :: ps => match mon_send max m p with None => None | Some m => mon_run max m ps end
  end.

Lemma mon_run_app max m ps qs :
  mon_run max m (ps ++ qs) = match mon_run max m ps with None => None | Some m => mon_run max m qs end.
Proof. revert m. induction ps as [|p ps IH]; intros m; [done|]. cbn. by destruct (mon_send max m p). Qed.

(** The channel agrees with the monitor, but for the end of input. *)
Definition weak_inv (m : mon) (c : Channel) : Prop :=
  m_eof m = eof_sent c /\ m_close m = close_sent c /\ m_window m = remote_window c /\
  0 <= remote_window c < 2 ^ 32 /\
  (close_sent c = true -> istate c = CHAN_INPUT_CLOSED /\ ostate c = CHAN_OUTPUT_CLOSED).

Definition chan_inv (m : mon) (c : Channel) : Prop :=
  weak_inv m c /\ (eof_sent c = true -> istate c = CHAN_INPUT_CLOSED).

(** [traced]: from an agreeing monitor the packets are accepted and the monitor
    agrees again. *)
Definition traced (c : Channel) (ms : list chan_msg) (c' : Channel) : Prop :=
  remote_maxpacket c' = remote_maxpacket c /\
  forall m, chan_inv m c -> exists m', mon_run (remote_maxpacket c) m ms = Some m' /\ chan_inv m' c'.

#[global] Instance traced_composable : Composable traced.
Proof.
  constructor.
  - intros c. split; [done|]. intros m Hm. by exists m.
  - intros c1 m1 c2 m2 c3 [E1 H1] [E2 H2]. split; [congruence|]. intros m Hm.
    destruct (H1 m Hm) as (m' & R1 & I1). destruct (H2 m' I1) as (m'' & R2 & I2).
    exists m''. rewrite mon_run_app, R1, <- E1. done.
Qed.

(** Same with the weaker agreement. *)
Definition wtraced (c : Channel) (ms : list chan_msg) (c' : Channel) : Prop :=
  remote_maxpacket c' = remote_maxpacket c /\
  forall m, weak_inv m c -> exists m', mon_run (remote_maxpacket c) m ms = Some m' /\ weak_inv m' c'.

(** A silent change of fields that the invariant does not mention. *)
Definition silent_ok (c c' : Channel) : Prop :=
  eof_sent c' = eof_sent c /\ close_sent c' = close_sent c /\
  remote_window c' = remote_window c /\ remote_maxpacket c' = remote_maxpacket c /\
  (istate c' = istate c \/ istate c' = CHAN_INPUT_CLOSED \/
   (istate c = CHAN_INPUT_OPEN /\ istate c' = CHAN_INPUT_WAIT_DRAIN)) /\
  (ostate c' = ostate c \/ ostate c' = CHAN_OUTPUT_CLOSED \/
   (ostate c = CHAN_OUTPUT_OPEN /\ ostate c' = CHAN_OUTPUT_WAIT_DRAIN)).

Lemma traced_silent c c' : silent_ok c c' -> traced c [] c'.
Proof.
  intros (E1 & E2 & E3 & E4 & Hi & Ho). split; [done|].
  intros m ((I1 & I2 & I3 & I4 & I5) & I6). exists m. split; [done|].
  unfold chan_inv, weak_inv. rewrite E1, E2, E3. refine (conj (conj I1 (conj I2 (conj I3 (conj I4 _)))) _).
  - intros Hc. specialize (I5 Hc) as [? ?]. split.
    + destruct Hi as [?|[?|[? ?]]]; congruence.
    + destruct Ho as [?|[?|[? ?]]]; congruence.
  - intros He. specialize (I6 He). destruct Hi as [?|[?|[? ?]]]; congruence.
Qed.

Ltac silent := apply traced_silent; unfold silent_ok; split_and!; by auto 7.

(** ** The functions of nchan.c *)

Section traces.
Context `{Compat} `{PacketLayer}.

(** A guarded packet and a change. *)
Lemma send_upd_eq p f c c' ms :
  (need_remote_id ;;; send p ;;; upd f) c = Some (c', ms) -> c' = f c /\ ms = [p].
Proof.
  unfold andthen, need_remote_id, send, upd. destruct (have_remote_id c); [|done].
  destruct (pkt_ok p); [|done]. by intros [= <- <-].
Qed.

Lemma send_eq p c c' ms : (need_remote_id ;;; send p) c = Some (c', ms) -> c' = c /\ ms = [p].
Proof.
  unfold andthen, need_remote_id, send. destruct (have_remote_id c); [|done].
  destruct (pkt_ok p); [|done]. by intros [= <- <-].
Qed.

Lemma shutdown_write_eq c c' ms :
  chan_shutdown_write c = Some (c', ms) ->
  ms = [] /\ (c' = set_output [] c \/ c' = set_fds (rfd c) (-1) (efd c) (set_output [] c)).
Proof. unfold chan_shutdown_write, done_. repeat case_match; naive_solver. Qed.

Lemma shutdown_read_eq c c' ms :
  chan_shutdown_read c = Some (c', ms) ->
  ms = [] /\ (c' = c \/ c' = set_fds (-1) (wfd c) (efd c) c).
Proof. unfold chan_shutdown_read, done_. repeat case_match; naive_solver. Qed.

Lemma shutdown_extended_read_eq c c' ms :
  chan_shutdown_extended_read c = Some (c', ms) ->
  ms = [] /\ (c' = c \/ c' = set_fds (rfd c) (wfd c) (-1) c).
Proof. unfold chan_shutdown_extended_read, done_. repeat case_match; naive_solver. Qed.

Lemma traced_shutdown_write : sat traced chan_shutdown_write.
Proof. intros c c' ms E. destruct (shutdown_write_eq _ _ _ E) as [-> [->| ->]]; silent. Qed.

Lemma traced_shutdown_read : sat traced chan_shutdown_read.
Proof. intros c c' ms E. destruct (shutdown_read_eq _ _ _ E) as [-> [->| ->]]; silent. Qed.

Lemma traced_shutdown_extended_read : sat traced chan_shutdown_extended_read.
Proof. intros c c' ms E. destruct (shutdown_extended_read_eq _ _ _ E) as [-> [->| ->]]; silent. Qed.

Lemma traced_set_closed : sat traced (chan_set_istate CHAN_INPUT_CLOSED).
Proof. intros c c' ms [= <- <-]. silent. Qed.

Lemma traced_set_oclosed : sat traced (chan_set_ostate CHAN_OUTPUT_CLOSED).
Proof. intros c c' ms [= <- <-]. silent. Qed.

(** Sending EOF and closing the input. *)
Lemma traced_eof_close (g : Channel -> bool) k :
  sat (fun c ms c' => ms = [] /\ eof_sent c' = eof_sent c /\ close_sent c' = close_sent c /\
         remote_window c' = remote_window c /\ remote_maxpacket c' = remote_maxpacket c /\
         istate c' = istate c /\ ostate c' = ostate c) k ->
  sat traced ((fun c => if g c then chan_send_eof2 c else done_ c) ;;; k ;;; chan_set_istate CHAN_INPUT_CLOSED).
Proof.
  intros Hk c c' ms E. apply andthen_inv in E as (c1 & m1 & m2 & E1 & E2 & ->).
  apply andthen_inv in E2 as (c2 & m3 & m4 & E2 & E3 & ->). injection E3 as <- <-.
  destruct (Hk _ _ _ E2) as (-> & K1 & K2 & K3 & K4 & K5 & K6). rewrite app_nil_r.
  assert (Hc : traced c m1 (set_istate CHAN_INPUT_CLOSED c1)).
  { assert (Hs : c1 = c /\ m1 = [] \/ istate c = CHAN_INPUT_WAIT_DRAIN /\ m1 = [MEof] /\
              c1 = add_flag CHAN_EOF_SENT c).
    { unfold chan_send_eof2, done_, andthen, need_remote_id, send, upd in E1.
      repeat case_match; naive_solver. }
    destruct Hs as [[-> ->]|(Hi & -> & ->)].
    - silent.
    - split; [done|]. intros m ((I1 & I2 & I3 & I4 & I5) & I6).
      assert (eof_sent c = false) as He by (destruct (eof_sent c); [|done]; specialize (I6 eq_refl); congruence).
      assert (close_sent c = false) as Hcl
        by (destruct (close_sent c); [|done]; specialize (I5 eq_refl) as [? _]; congruence).
      exists (mk_mon true false (m_window m)). unfold mon_run, mon_send.
      rewrite I1, I2, He, Hcl. split; [done|].
      destruct (add_eof c) as [A1 A2]. set (c1 := add_flag CHAN_EOF_SENT c) in *.
      change (chan_inv (mk_mon true false (m_window m)) (set_istate CHAN_INPUT_CLOSED c1)) with
        ((true = eof_sent c1 /\ false = close_sent c1 /\ m_window m = remote_window c /\
          0 <= remote_window c < 2 ^ 32 /\ (close_sent c1 = true ->
            CHAN_INPUT_CLOSED = CHAN_INPUT_CLOSED /\ ostate c = CHAN_OUTPUT_CLOSED)) /\
         (eof_sent c1 = true -> CHAN_INPUT_CLOSED = CHAN_INPUT_CLOSED)).
      rewrite A1, A2, Hcl. split_and!; try done; lia. }
  destruct Hc as [T1 T2]. split; [cbn in *; congruence|]. intros m Hm.
  destruct (T2 m Hm) as (m' & R & (I1 & I2 & I3 & I4 & I5) & I6). exists m'. split; [done|].
  change (eof_sent c2 = eof_sent (set_istate CHAN_INPUT_CLOSED c1)) in K1.
  change (close_sent c2 = close_sent (set_istate CHAN_INPUT_CLOSED c1)) in K2.
  cbn in K3, I3, I4, I5. unfold chan_inv, weak_inv.
  change (eof_sent (set_istate CHAN_INPUT_CLOSED c2)) with (eof_sent c2).
  change (close_sent (set_istate CHAN_INPUT_CLOSED c2)) with (close_sent c2). cbn [remote_window istate ostate set_istate].
  rewrite K1, K2, K3. split_and!; try done || lia. intros Hcs. destruct (I5 Hcs). split; [done|congruence].
Qed.

Lemma traced_done : sat traced done_.
Proof. apply sat_done, _. Qed.

Lemma traced_ibuf_empty : sat traced chan_ibuf_empty.
Proof.
  intros c c' ms. unfold chan_ibuf_empty. destruct (negb _); [by apply traced_done|].
  destruct (istate c); try (by apply traced_done). intros E.
  apply (traced_eof_close (fun c => negb (has (Z.lor CHAN_CLOSE_SENT CHAN_LOCAL) c)) done_).
  - intros c0 c0' ms0 [= <- <-]. by split_and!.
  - by unfold andthen, done_ in *; cbn in *.
Qed.

Lemma traced_obuf_empty : sat traced chan_obuf_empty.
Proof.
  intros c c' ms. unfold chan_obuf_empty. destruct (negb _); [by apply traced_done|].
  destruct (ostate c); try (by apply traced_done).
  apply sat_andthen; [apply _|apply traced_shutdown_write|apply traced_set_oclosed].
Qed.

Lemma traced_read_failed : sat traced chan_read_failed.
Proof.
  intros c c' ms. unfold chan_read_failed. destruct (istate c) eqn:Ei; try (by apply traced_done).
  intros E. apply andthen_inv in E as (c1 & m1 & m2 & E1 & [= <- <-] & ->).
  destruct (shutdown_read_eq _ _ _ E1) as [-> [->| ->]]; silent.
Qed.

Lemma traced_rcvd_eow : sat traced chan_rcvd_eow.
Proof.
  intros c c' ms. unfold chan_rcvd_eow. destruct (istate c) eqn:Ei; try (by apply traced_done).
  apply sat_andthen; [apply _|apply traced_shutdown_read|apply traced_set_closed].
Qed.

(** A packet that is neither data nor the end of either. *)
Lemma traced_neutral c p :
  (p = MEow \/ exists n, p = MAdjust n) -> close_sent c = false -> traced c [p] c.
Proof.
  intros Hp Hc. split; [done|]. intros m Hm. pose proof Hm as ((_ & I2 & _) & _). exists m.
  split; [|done]. unfold mon_run, mon_send. rewrite I2, Hc. by destruct Hp as [->|[n ->]].
Qed.

(** While the output is not closed no close was sent; without the monitor at
    hand both are needed as hypotheses, so they are discharged under it. *)
Lemma traced_by_inv c ms c' :
  (forall m, chan_inv m c -> traced c ms c') -> remote_maxpacket c' = remote_maxpacket c -> traced c ms c'.
Proof. intros Ht E. split; [done|]. intros m Hm. by apply (Ht m Hm). Qed.

Lemma inv_open m c :
  chan_inv m c -> (istate c <> CHAN_INPUT_CLOSED \/ ostate c <> CHAN_OUTPUT_CLOSED) -> close_sent c = false.
Proof. intros ((_ & _ & _ & _ & I5) & _) Ho. destruct (close_sent c); [|done]. destruct (I5 eq_refl). tauto. Qed.

Lemma traced_send_eow : sat traced chan_send_eow2.
Proof.
  intros c c' ms. unfold chan_send_eow2. case_bool_decide as Ho; [by apply traced_done|].
  destruct (negb SSH_NEW_OPENSSH); [by apply traced_done|]. intros [-> ->]%send_eq.
  apply traced_by_inv; [|done]. intros m Hm. apply traced_neutral; [by left|].
  eapply inv_open; [exact Hm|by right].
Qed.

Lemma traced_write_failed : sat traced chan_write_failed.
Proof.
  intros c c' ms. unfold chan_write_failed. destruct (ostate c); try (by apply traced_done);
    (apply sat_andthen; [apply _|apply traced_shutdown_write|];
     apply sat_andthen; [apply _| |apply traced_set_oclosed];
     intros c1 c1' ms1; destruct (session c1); [apply traced_send_eow|by apply traced_done]).
Qed.

Lemma traced_rcvd_ieof : sat traced chan_rcvd_ieof.
Proof.
  intros c c' ms. unfold chan_rcvd_ieof. set (c1 := add_flag CHAN_EOF_RCVD c).
  set (c2 := if bool_decide _ then _ else c1). intros E.
  destruct (add_rcvd CHAN_EOF_RCVD c ltac:(auto)) as [A1 A2]. fold c1 in A1, A2.
  assert (T : traced c [] c2).
  { unfold c2. clear E c2. case_bool_decide as Ho; apply traced_silent; unfold silent_ok; split_and!;
      first [reflexivity|exact A1|exact A2|left; reflexivity|right; right; split; [exact Ho|reflexivity]]. }
  apply (rel_app _ [] c2); [exact T|]. destruct (_ && _); [by apply traced_obuf_empty|by apply traced_done].
Qed.

Lemma traced_rcvd_oclose : sat traced chan_rcvd_oclose.
Proof.
  intros c c' ms. unfold chan_rcvd_oclose. set (c1 := if negb _ then _ else c).
  assert (T1 : traced c [] c1).
  { destruct (add_rcvd CHAN_CLOSE_RCVD c ltac:(auto)) as [A1 A2]. unfold c1.
    destruct (negb _); apply traced_silent; unfold silent_ok; split_and!;
      first [reflexivity|exact A1|exact A2|left; reflexivity]. }
  intros E. apply (rel_app _ [] c1); [exact T1|]. clear T1. destruct (_ =? _).
  { revert E. apply sat_andthen; [apply _|apply traced_set_oclosed|apply traced_set_closed]. }
  set (c2 := match ostate c1 with CHAN_OUTPUT_OPEN => _ | _ => c1 end) in E.
  assert (T2 : traced c1 [] c2) by (unfold c2; destruct (ostate c1) eqn:?; silent).
  apply (rel_app _ [] c2); [exact T2|]. clear T2. revert E.
  destruct (istate c2); try (by apply traced_done).
  - apply sat_andthen; [apply _|apply traced_shutdown_read|].
    apply sat_andthen; [apply _|apply traced_shutdown_extended_read|apply traced_set_closed].
  - apply traced_eof_close. intros c0 c0' ms0 E. by destruct (shutdown_extended_read_eq _ _ _ E) as [-> [->| ->]].
Qed.

Lemma traced_send_close : sat traced chan_send_close2.
Proof.
  intros c c' ms. unfold chan_send_close2. case_bool_decide as Ho; cbn [negb orb]; [|by apply traced_done].
  case_bool_decide as Hi; cbn [negb]; [|by apply traced_done].
  destruct (has CHAN_CLOSE_SENT c) eqn:Hc; [by apply traced_done|]. intros [-> ->]%send_upd_eq.
  split; [done|]. intros m ((I1 & I2 & I3 & I4 & I5) & I6).
  exists (mk_mon (m_eof m) true (m_window m)). unfold mon_run, mon_send. fold (close_sent c) in Hc.
  rewrite I2, Hc. split; [done|]. destruct (add_close c) as [A1 A2]. unfold chan_inv, weak_inv.
  rewrite A1, A2. split_and!; try done; cbn; lia.
Qed.

Lemma traced_is_dead do_send c b c' ms :
  chan_is_dead do_send c = Some (b, c', ms) -> traced c ms c'.
Proof.
  unfold chan_is_dead. intros E. destruct (_ =? _); [simplify_eq; apply rel_nil|].
  destruct (_ || _); [simplify_eq; apply rel_nil|]. destruct (_ && _); [simplify_eq; apply rel_nil|].
  destruct (has CHAN_LOCAL c); [simplify_eq; apply rel_nil|].
  destruct (negb _); [|simplify_eq; apply rel_nil]. destruct do_send.
  - destruct (chan_send_close2 c) as [[c1 m1]|] eqn:E1; [|done]. simplify_eq. by apply traced_send_close.
  - destruct (has CHAN_CLOSE_RCVD c); simplify_eq; apply rel_nil.
Qed.

(** ** The data path *)

(** A data packet within the window and the packet size. *)
Lemma traced_data c c' p d :
  (p = MData d \/ exists t, p = MExtData t d) ->
  eof_sent c = false -> close_sent c = false ->
  zlen d <= remote_window c -> zlen d <= remote_maxpacket c ->
  remote_window c' = u32 (remote_window c - zlen d) -> remote_maxpacket c' = remote_maxpacket c ->
  eof_sent c' = eof_sent c -> close_sent c' = close_sent c -> istate c' = istate c -> ostate c' = ostate c ->
  traced c [p] c'.
Proof.
  intros Hp He Hc Hw Hm Er Em Ee Ec Ei Eo. split; [done|]. intros m ((I1 & I2 & I3 & I4 & I5) & I6).
  pose proof (zlen_nonneg d). rewrite u32_small in Er by lia.
  exists (mk_mon (m_eof m) false (m_window m - zlen d)). split.
  - assert (E : mon_send (remote_maxpacket c) m p = Some (mk_mon (m_eof m) false (m_window m - zlen d))).
    { unfold mon_send. rewrite I1, I2, He, Hc. cbn [orb].
      assert ((zlen d >? remote_maxpacket c) || (zlen d >? m_window m) = false) as Hb.
      { rewrite I3. destruct (Z.gtb_spec (zlen d) (remote_maxpacket c)); [lia|].
        destruct (Z.gtb_spec (zlen d) (remote_window c)); [lia|done]. }
      destruct Hp as [->|[t ->]]; by rewrite Hb. }
    cbn. by rewrite E.
  - unfold chan_inv, weak_inv. rewrite Er, Ee, Ec, Ei, Eo. cbn [m_eof m_close m_window].
    rewrite I1, I3, Hc. split_and!; try done; lia.
Qed.

Lemma clamp_spec len w p :
  0 <= len -> 0 <= w -> 0 <= p ->
  let l := if len >? w then w else len in
  let l := if l >? p then p else l in 0 <= l <= len /\ l <= w /\ l <= p.
Proof.
  intros Hl Hw Hp. cbn zeta. destruct (Z.gtb_spec len w).
  - destruct (Z.gtb_spec w p); lia.
  - destruct (Z.gtb_spec len p); lia.
Qed.

Definition chan_ok (c : Channel) : Prop := 0 <= remote_maxpacket c.

Lemma poll_input_traced c c' ms :
  chan_ok c -> istate c = CHAN_INPUT_OPEN \/ istate c = CHAN_INPUT_WAIT_DRAIN ->
  channel_output_poll_input_open c = Some (c', ms) -> traced c ms c' /\ close_sent c' = close_sent c.
Proof.
  intros Hok Hi. unfold channel_output_poll_input_open.
  assert (Hdata : forall d c', zlen d <= remote_window c -> zlen d <= remote_maxpacket c ->
    remote_window c' = u32 (remote_window c - zlen d) -> remote_maxpacket c' = remote_maxpacket c ->
    cflags c' = cflags c -> istate c' = istate c -> ostate c' = ostate c ->
    traced c [MData d] c' /\ close_sent c' = close_sent c).
  { intros d c1 Hw Hm Er Em Ef Ei Eo. assert (Ee : eof_sent c1 = eof_sent c) by (unfold eof_sent, has; by rewrite Ef).
    assert (Ec : close_sent c1 = close_sent c) by (unfold close_sent, has; by rewrite Ef).
    split; [|done]. apply traced_by_inv; [|done]. intros m ((I1 & I2 & I3 & I4 & I5) & I6).
    apply (traced_data c c1 (MData d) d); try done; [by left| |].
    - destruct (eof_sent c); [|done]. specialize (I6 eq_refl). destruct Hi; congruence.
    - destruct (close_sent c); [|done]. destruct (I5 eq_refl). destruct Hi; congruence. }
  destruct (zlen (input c) =? 0) eqn:El.
  - destruct (istate c) eqn:Ei; try (intros [= <- <-]; by split; [apply rel_nil|]).
    destruct (CHANNEL_EFD_INPUT_ACTIVE c); [intros [= <- <-]; by split; [apply rel_nil|]|].
    intros E. split; [by apply traced_ibuf_empty|]. revert E. unfold chan_ibuf_empty. rewrite El, Ei. cbn [negb].
    intros E. apply andthen_inv in E as (c1 & m1 & m2 & E1 & [= <- <-] & _).
    change (close_sent c1 = close_sent c). destruct (negb (has _ c)); [|by injection E1 as <- _].
    unfold chan_send_eof2 in E1. rewrite Ei in E1. apply send_upd_eq in E1 as [-> _]. apply add_eof.
  - destruct (negb (have_remote_id c)); [done|]. destruct (datagram c).
    + destruct (get_datagram (input c)) as [[pkt rest]|] eqn:Eg; [|done]. cbn [remote_window remote_maxpacket set_input set_bufs].
      destruct (Z.gtb_spec (zlen pkt) (remote_window c)); cbn [orb]; [intros [= <- <-]; split; [silent|done]|].
      destruct (Z.gtb_spec (zlen pkt) (remote_maxpacket c)); [intros [= <- <-]; split; [silent|done]|].
      unfold andthen, send, upd. destruct (pkt_ok _); [|done]. intros [= <- <-]. by apply Hdata.
    + pose proof (clamp_spec (zlen (input c)) (Z.max 0 (remote_window c)) (remote_maxpacket c)
        (zlen_nonneg _) ltac:(lia) Hok) as Hcl. cbn zeta.
      set (len := if _ >? remote_maxpacket c then _ else _).
      destruct (Z.eqb_spec len 0); [intros [= <- <-]; by split; [apply rel_nil|]|].
      unfold andthen, send, upd. destruct (pkt_ok _); [|done]. intros [= <- <-].
      assert (Hneg : remote_window c < 0 \/ 0 <= remote_window c) by lia. destruct Hneg as [Hneg|Hpos].
      * split; [|done]. apply traced_by_inv; [|done]. intros m ((_ & _ & _ & I4 & _) & _). lia.
      * rewrite Z.max_r in Hcl by done. cbn zeta in Hcl. fold len in Hcl.
        assert (Hd : zlen (ztake len (input c)) = len) by (apply zlen_ztake; lia).
        apply Hdata; rewrite ?Hd; try done; lia.
Qed.

Lemma poll_extended_traced c c' ms :
  chan_ok c -> eof_sent c = false -> close_sent c = false ->
  channel_output_poll_extended_read c = Some (c', ms) -> traced c ms c'.
Proof.
  intros Hok He Hc. unfold channel_output_poll_extended_read.
  destruct (zlen (extended c) =? 0); [by apply traced_done|]. cbn zeta.
  set (len := if _ >? remote_maxpacket c then _ else _).
  destruct (Z.eqb_spec len 0); [by apply traced_done|]. intros [-> ->]%send_upd_eq.
  apply traced_by_inv; [|done]. intros m ((_ & _ & _ & I4 & _) & _).
  pose proof (clamp_spec (zlen (extended c)) (remote_window c) (remote_maxpacket c)
    (zlen_nonneg _) ltac:(lia) Hok) as Hcl. cbn zeta in Hcl. fold len in Hcl.
  assert (Hd : zlen (ztake len (extended c)) = len) by (apply zlen_ztake; lia).
  apply (traced_data c _ _ (ztake len (extended c))); rewrite ?Hd; try done; [right; by eexists|lia|lia].
Qed.

Lemma traced_output_poll c c' ms : chan_ok c -> channel_output_poll c = Some (c', ms) -> traced c ms c'.
Proof.
  intros Hok. unfold channel_output_poll. destruct (negb (type c =? _)); [by apply traced_done|].
  rewrite has_lor. fold (close_sent c). destruct (close_sent c) eqn:Hc; cbn [orb]; [by apply traced_done|].
  destruct (has CHAN_CLOSE_RCVD c); [by apply traced_done|]. intros E.
  apply andthen_inv in E as (c1 & m1 & m2 & E1 & E2 & ->).
  assert (T1 : traced c m1 c1 /\ close_sent c1 = close_sent c).
  { destruct (istate c) eqn:Ei; try (injection E1 as <- <-; by split; [apply rel_nil|]);
      apply poll_input_traced; auto. }
  destruct T1 as [T1 Hc1]. eapply rel_app; [exact T1|]. fold (eof_sent c1) in E2.
  destruct (eof_sent c1) eqn:He; [by apply traced_done|]. cbn [negb andb] in E2.
  destruct (_ =? _); [|by apply traced_done].
  apply poll_extended_traced; [|done|congruence|done]. unfold chan_ok. destruct T1 as [-> _]. done.
Qed.

Lemma traced_check_window : sat traced channel_check_window.
Proof.
  intros c c' ms. unfold channel_check_window. destruct (_ && _) eqn:E; [|by apply traced_done].
  intros [-> ->]%send_upd_eq. rewrite !andb_true_iff, has_lor in E. destruct E as (((_ & E) & _) & _).
  fold (close_sent c) in E. destruct (close_sent c) eqn:Hc; [done|].
  apply (rel_app c [MAdjust (local_consumed c)] c []); [apply traced_neutral; [right; by eexists|done]|silent].
Qed.

Lemma traced_input_data d : sat traced (channel_input_data d).
Proof.
  intros c c' ms. unfold channel_input_data, done_. intros E.
  repeat case_match; simplify_eq; silent.
Qed.

Lemma traced_input_extended t d : sat traced (channel_input_extended_data t d).
Proof.
  intros c c' ms. unfold channel_input_extended_data, done_, fatal. intros E.
  repeat case_match; simplify_eq; silent.
Qed.

Lemma traced_input_ieof : sat traced channel_input_ieof.
Proof.
  apply sat_andthen; [apply _|apply traced_rcvd_ieof|]. intros c c' ms.
  destruct (force_drain c); cbn [andb]; [|by apply traced_done].
  case_bool_decide as Hi; [|by apply traced_done]. intros E.
  apply (rel_app c [] (set_istate CHAN_INPUT_WAIT_DRAIN c)); [silent|].
  destruct (_ =? _); [by apply traced_ibuf_empty|by apply traced_done].
Qed.

Lemma traced_fail f : sat traced f -> sat traced (chan_fail f).
Proof.
  intros Hf c c' ms. unfold chan_fail. destruct (negb _); [|apply Hf]. intros [= <- <-]. silent.
Qed.

Lemma traced_upd f : (forall c, silent_ok c (f c)) -> sat traced (upd f).
Proof. intros Hf c c' ms [= <- <-]. by apply traced_silent. Qed.

Lemma silent_bufs i o e c : silent_ok c (set_bufs i o e c).
Proof. unfold silent_ok. split_and!; auto. Qed.

Lemma traced_after c c1 c' ms : silent_ok c c1 -> traced c1 ms c' -> traced c ms c'.
Proof. intros Hs Ht. apply (rel_app c [] c1 ms); [by apply traced_silent|done]. Qed.

Lemma traced_handle_rfd r flt : sat traced (channel_handle_rfd r flt).
Proof.
  intros c c' ms. unfold channel_handle_rfd. intros E. destruct (rfd c =? -1); [by apply traced_done|].
  destruct r as [| |buf]; [by apply traced_done|by eapply traced_fail, E; apply traced_read_failed|].
  destruct (input_filter c).
  - eapply traced_after; [apply silent_bufs|]. cbn zeta in E.
    destruct (f_ok flt); [by eapply traced_done|by eapply traced_read_failed].
  - destruct (chan_put_any _ _ _); [|done]. injection E as <- <-. apply traced_silent, silent_bufs.
Qed.

Lemma wfd_data_silent flt c buf c1 : handle_wfd_data flt c = WData buf c1 \/ handle_wfd_data flt c = WStop c1 -> silent_ok c c1.
Proof.
  unfold handle_wfd_data. intros E. repeat case_match; destruct E; simplify_eq; by (apply silent_bufs || (unfold silent_ok; split_and!; auto)).
Qed.

Lemma traced_ignore n : sat traced (send_ignore n).
Proof. intros c c' ms. unfold send_ignore. destruct (ignore_ok n); [|done]. by apply traced_done. Qed.

Lemma traced_handle_wfd r flt h : sat traced (channel_handle_wfd r flt h).
Proof.
  intros c c' ms. unfold channel_handle_wfd. destruct (_ || _); [by apply traced_done|]. cbn zeta.
  destruct (handle_wfd_data flt c) as [buf c1|c1|] eqn:E; [| |done].
  - intros E1. eapply traced_after; [by apply (wfd_data_silent flt c buf); left|]. revert E1.
    destruct r as [n|]; [|by apply traced_done].
    destruct (n <=? 0); [apply traced_fail, traced_write_failed|].
    assert (Hout : sat traced (upd (fun c2 => set_local (local_window c2)
      (u32 (local_consumed c2 + (zlen (output c) - zlen (output c2)))) c2)))
      by (apply traced_upd; intros c2; unfold silent_ok; split_and!; by auto).
    destruct (datagram c1); [apply Hout|].
    apply sat_andthen; [apply _| |apply sat_andthen; [apply _| |apply Hout]]; intros c2 c2' ms2.
    + destruct (_ && h); [apply traced_ignore|by apply traced_done].
    + destruct (n >? _); [done|]. intros [= <- <-]. apply traced_silent, silent_bufs.
  - intros E1. eapply traced_after; [by apply (wfd_data_silent flt c []); right|].
    by eapply traced_fail, E1; apply traced_write_failed.
Qed.

Lemma traced_pre_open_drain : sat traced channel_pre_open_drain.
Proof.
  intros c c' ms. unfold channel_pre_open_drain. destruct (_ || _); [|by apply traced_done].
  destruct (_ >? _); [by apply traced_done|]. case_bool_decide; [|by apply traced_done].
  destruct (CHANNEL_EFD_OUTPUT_ACTIVE c); [by apply traced_done|apply traced_obuf_empty].
Qed.

Lemma step_traced e c c' ms :
  chan_ok c -> (forall n, e <> ERecv (MAdjust n)) -> step e c = Some (c', ms) -> traced c ms c'.
Proof.
  intros Hok Ha. destruct e as [r flt|r flt h|r|r| | | |b| | | | |[| | |d|t d|n]]; cbn [step].
  - by apply traced_handle_rfd.
  - by apply traced_handle_wfd.
  - unfold channel_handle_efd_read, done_. intros E. repeat case_match; simplify_eq; silent.
  - unfold channel_handle_efd_write, done_. intros E. repeat case_match; simplify_eq; silent.
  - unfold channel_pre_open. cbn zeta. destruct (channel_pre_open_drain c) as [[c1 m1]|] eqn:E; [|done].
    intros [= <- <-]. by apply traced_pre_open_drain.
  - apply traced_check_window.
  - by apply traced_output_poll.
  - destruct (chan_is_dead b c) as [[[b' c1] m1]|] eqn:E; [|done]. intros [= <- <-]. by eapply traced_is_dead.
  - apply traced_read_failed.
  - apply traced_write_failed.
  - apply traced_upd. intros c0. unfold silent_ok. split_and!; auto.
  - unfold rdynamic_close. repeat (apply sat_andthen; [apply _| |]);
      first [apply traced_read_failed|apply traced_ibuf_empty|apply traced_write_failed|
             apply traced_upd; intros c0; unfold silent_ok; split_and!; by auto].
  - apply traced_input_ieof.
  - apply traced_rcvd_oclose.
  - apply traced_rcvd_eow.
  - apply traced_input_data.
  - apply traced_input_extended.
  - by destruct (Ha n).
Qed.

(** ** Whole histories *)

(** Packets sent, and window adjustments received, in order. *)
Inductive obs := Sent (p : chan_msg) | Got (n : Z).

Fixpoint run_events (es : list event) (c : Channel) : option (Channel * list obs) :=
  match es with
  | [] => Some (c, [])
  | e :: es =>
      match step e c with
      | None => None
      | Some (c, ms) =>
          match run_events es c with
          | None => None
          | Some (c, os) =>
              Some (c, match e with ERecv (MAdjust n) => [Got n] | _ => [] end ++ (Sent <$> ms) ++ os)
          end
      end
  end.

(** The monitor over a history: a received adjustment opens the window. *)
Fixpoint history_ok (max : Z) (m : mon) (os : list obs) : option mon :=
  match os with
  | [] => Some m
  | Sent p :: os => match mon_send max m p with None => None | Some m => history_ok max m os end
  | Got n :: os => history_ok max (mk_mon (m_eof m) (m_close m) (m_window m + n)) os
  end.

Lemma history_ok_sent max m ms os :
  history_ok max m ((Sent <$> ms) ++ os) =
    match mon_run max m ms with None => None | Some m => history_ok max m os end.
Proof. revert m. induction ms as [|p ms IH]; intros m; [done|]. cbn. by destruct (mon_send max m p). Qed.

Lemma run_events_inv es c c' os m :
  chan_ok c -> chan_inv m c ->
  Forall (fun e => forall n, e = ERecv (MAdjust n) -> 0 <= n < 2 ^ 32) es ->
  run_events es c = Some (c', os) ->
  exists m', history_ok (remote_maxpacket c) m os = Some m' /\ chan_inv m' c'.
Proof.
  intros Hok Hi Hes. revert c m os Hok Hi. induction Hes as [|e es He Hes IH]; intros c m os Hok Hi; cbn.
  { intros [= <- <-]. by exists m. }
  destruct (step e c) as [[c1 ms]|] eqn:Es; [|done].
  destruct (run_events es c1) as [[c2 os1]|] eqn:Er; [|done]. intros [= <- <-].
  assert (Hd : (exists n, e = ERecv (MAdjust n)) \/ ~ exists n, e = ERecv (MAdjust n)).
  { destruct e as [| | | | | | | | | | | |[]]; try (right; by intros [n ?]). left. by eexists. }
  destruct Hd as [[n ->]|Hn].
  - cbn [step] in Es. unfold channel_input_window_adjust, fatal, done_ in Es. cbn zeta in Es.
    specialize (He n eq_refl). destruct Hi as ((I1 & I2 & I3 & I4 & I5) & I6).
    destruct (Z.ltb_spec (u32 (remote_window c + n)) (remote_window c)) as [|Hge]; [done|].
    injection Es as <- <-. cbn [app fmap list_fmap history_ok].
    assert (Hw : u32 (remote_window c + n) = remote_window c + n).
    { destruct (decide (remote_window c + n < 2 ^ 32)); [apply u32_small; lia|].
      exfalso. unfold u32 in Hge. replace (remote_window c + n) with (remote_window c + n - 2 ^ 32 + 1 * 2 ^ 32) in Hge by lia.
      rewrite Z_mod_plus_full, Z.mod_small in Hge by lia. lia. }
    apply (IH (set_remote_window (u32 (remote_window c + n)) c)); [done| |done].
    unfold chan_inv, weak_inv. rewrite Hw. cbn [m_eof m_close m_window remote_window istate ostate set_remote_window].
    pose proof (u32_range (remote_window c + n)).
    split_and!; try done; try lia.
  - assert (T : traced c ms c1) by (apply (step_traced e); [done|intros n ->; apply Hn; by exists n|done]).
    destruct T as [Em T]. destruct (T m Hi) as (m1 & R1 & I1).
    destruct (IH c1 m1 os1) as (m2 & R2 & I2); [unfold chan_ok; by rewrite Em|done|done|].
    exists m2. split; [|done].
    assert (match e with ERecv (MAdjust n) => [Got n] | _ => [] end = []) as ->.
    { destruct e as [| | | | | | | | | | | |[]]; try done. exfalso. apply Hn. by eexists. }
    cbn [app]. by rewrite history_ok_sent, R1, <- Em.
Qed.

(** C35: what one end of a channel sends.  Whatever local events and packets
    from the peer occur, in whatever order, as long as the process is not ended
    by [fatal], the packets a channel sends obey the protocol: nothing follows a
    CLOSE, no data, extended data or second EOF follows an EOF, every data packet
    fits the peer's maximum packet size, and the data sent never exceeds the
    initial window and the adjustments received so far. *)
Theorem channel_history_wf es c c' os :
  eof_sent c = false -> close_sent c = false ->
  0 <= remote_window c < 2 ^ 32 -> 0 <= remote_maxpacket c ->
  Forall (fun e => forall n, e = ERecv (MAdjust n) -> 0 <= n < 2 ^ 32) es ->
  run_events es c = Some (c', os) ->
  exists m, history_ok (remote_maxpacket c) (mk_mon false false (remote_window c)) os = Some m /\
    m_eof m = eof_sent c' /\ m_close m = close_sent c' /\ m_window m = remote_window c'.
Proof.
  intros He Hc Hw Hm Hes Hr.
  destruct (run_events_inv es c c' os (mk_mon false false (remote_window c))) as (m & Hh & (I1 & I2 & I3 & _) & _).
  - done.
  - unfold chan_inv, weak_inv. rewrite He, Hc. split_and!; done || lia.
  - done.
  - done.
  - by exists m.
Qed.

End traces.

(** * A concrete channel *)

Definition demo_compat : Compat := {| SSH_NEW_OPENSSH := true; SSH_BUG_EXTEOF := false |}.
Definition demo_packets : PacketLayer := {| pkt_ok := fun _ => true; ignore_ok := fun _ => true |}.
Definition no_filter : filter_result := mk_filter true [] [] [].

(** An open session channel with a window of [w] bytes both ways. *)
Definition demo_chan (w : Z) : Channel :=
  mk_channel SSH_CHANNEL_OPEN true CHAN_INPUT_OPEN CHAN_OUTPUT_OPEN 0 5 6 (-1) (-1) false
    [] [] [] w 100 w w 0 100 CHAN_EXTENDED_IGNORE true false false false false.

Lemma channel_history_wf_witness :
  let es := [ERead (IOData [1; 2; 3; 4; 5]) no_filter; EOutputPoll; ERecv (MAdjust 2); ERead IOFail no_filter;
             EOutputPoll; EOutputPoll; ERecv MClose; EPreOpen; EGarbageCollect true] in
  exists c' os m, @run_events demo_compat demo_packets es (demo_chan 3) = Some (c', os) /\
    os = [Sent (MData [1; 2; 3]); Got 2; Sent (MData [4; 5]); Sent MEof; Sent MClose] /\
    history_ok 100 (mk_mon false false 3) os = Some m /\ m_window m = remote_window c'.
Proof.
  intros es. destruct (run_events es (demo_chan 3)) as [[c' os]|] eqn:E; [|discriminate E].
  destruct (@channel_history_wf demo_compat demo_packets es (demo_chan 3) c' os) as (m & Hh & _ & _ & Hw);
    try reflexivity; try exact E.
  - cbn. lia.
  - cbn. lia.
  - repeat (constructor; [intros n Hn; first [discriminate Hn|injection Hn as <-; lia]|]). constructor.
  - exists c', os, m. split; [reflexivity|]. vm_compute in E. injection E as <- <-.
    split; [reflexivity|]. split; [exact Hh|exact Hw].
Defined.
