(* ===== verification/ChannelNet.v ===== *)
(** The two ends of a channel.

    Two channels with a FIFO of packets in each direction, taking local events
    and deliveries in any interleaving.  Ghost logs record the bytes read from
    the local descriptor of one end and the bytes written to the descriptor of
    the other. *)

From S2P Require Import Prelude Sshbuf Channels.

(** * Quantities *)

Definition packet_len (p : chan_msg) : Z :=
  match p with MData d | MExtData _ d => zlen d | _ => 0 end.
Definition packet_adj (p : chan_msg) : Z := match p with MAdjust n => n | _ => 0 end.
Definition packet_bytes (p : chan_msg) : list Z := match p with MData d => d | _ => [] end.

Fixpoint datalen (ms : list chan_msg) : Z :=
  match ms with [] => 0 | p :: ms => packet_len p + datalen ms end.
Fixpoint adjlen (ms : list chan_msg) : Z :=
  match ms with [] => 0 | p :: ms => packet_adj p + adjlen ms end.
Fixpoint bytes (ms : list chan_msg) : list Z :=
  match ms with [] => [] | p :: ms => packet_bytes p ++ bytes ms end.

Lemma datalen_app m n : datalen (m ++ n) = datalen m + datalen n.
Proof. induction m as [|p m IH]; cbn; [done|]. rewrite IH. lia. Qed.
Lemma adjlen_app m n : adjlen (m ++ n) = adjlen m + adjlen n.
Proof. induction m as [|p m IH]; cbn; [done|]. rewrite IH. lia. Qed.
Lemma bytes_app m n : bytes (m ++ n) = bytes m ++ bytes n.
Proof. induction m as [|p m IH]; cbn; [done|]. by rewrite IH, app_assoc. Qed.

Lemma packet_len_nonneg p : 0 <= packet_len p.
Proof. destruct p; cbn; try done; apply zlen_nonneg. Qed.
Lemma datalen_nonneg m : 0 <= datalen m.
Proof. induction m as [|p m IH]; cbn; [done|]. pose proof (packet_len_nonneg p). lia. Qed.

(** Bytes that wait for the extended descriptor. *)
Definition ext_held (c : Channel) : Z :=
  if extended_usage c =? CHAN_EXTENDED_WRITE then zlen (extended c) else 0.

Lemma ext_held_nonneg c : 0 <= ext_held c.
Proof. unfold ext_held. destruct (_ =? _); [apply zlen_nonneg|done]. Qed.

(** Datagrams and filters. *)
Definition flavour (c : Channel) : bool * bool * bool := (datagram c, input_filter c, output_filter c).

(** Window accounting of one end: what is granted, to be granted again, or
    buffered is at most the maximum window. *)
Definition window_ok (c : Channel) : Prop :=
  0 <= remote_window c < 2 ^ 32 /\ 0 <= remote_maxpacket c /\
  0 <= local_window c /\ 0 <= local_consumed c /\
  local_window c + local_consumed c + zlen (output c) + ext_held c <= local_window_max c /\
  local_window_max c <= 0x8000000 /\ flavour c = (false, false, false).

Lemma flavour_plain c :
  flavour c = (false, false, false) -> datagram c = false /\ input_filter c = false /\ output_filter c = false.
Proof. by intros [= -> -> ->]. Qed.

Definition same_static (c c' : Channel) : Prop :=
  remote_maxpacket c' = remote_maxpacket c /\ local_maxpacket c' = local_maxpacket c /\
  local_window_max c' = local_window_max c /\ extended_usage c' = extended_usage c /\
  flavour c' = flavour c.

(** Input still goes to the peer. *)
Definition live (c : Channel) : Prop :=
  istate c = CHAN_INPUT_OPEN \/ istate c = CHAN_INPUT_WAIT_DRAIN.

(** Data from the peer is put into the output buffer. *)
Definition accepting (c : Channel) : Prop :=
  (type c = SSH_CHANNEL_OPEN \/ type c = SSH_CHANNEL_RDYNAMIC_OPEN \/
   type c = SSH_CHANNEL_RDYNAMIC_FINISH \/ type c = SSH_CHANNEL_X11_OPEN) /\
  ostate c = CHAN_OUTPUT_OPEN.

#[global] Instance accepting_dec c : Decision (accepting c).
Proof. unfold accepting. apply _. Defined.

Definition packet_fits (max : Z) (p : chan_msg) : Prop := packet_len p <= max /\ 0 <= packet_adj p.

(** A step that neither reads from nor writes to the local descriptors nor
    receives data: windows move by the packets sent, the data sent comes from
    the front of the input, the output is kept or discarded. *)
Definition acct (c : Channel) (ms : list chan_msg) (c' : Channel) : Prop :=
  window_ok c' /\ remote_window c' = remote_window c - datalen ms /\
  local_window c' = local_window c + adjlen ms /\ Forall (packet_fits (remote_maxpacket c)) ms.

Definition stream (c : Channel) (ms : list chan_msg) (c' : Channel) : Prop :=
  (live c' -> live c /\ input c = bytes ms ++ input c') /\
  exists rest, bytes ms = [] \/ (live c /\ input c = bytes ms ++ rest).

Definition sink (c : Channel) (ms : list chan_msg) (c' : Channel) : Prop :=
  (output c' = output c \/ output c' = []) /\ (accepting c' -> accepting c /\ output c' = output c).

Definition quiet (c : Channel) (ms : list chan_msg) (c' : Channel) : Prop :=
  window_ok c -> same_static c c' /\ acct c ms c' /\ stream c ms c' /\ sink c ms c'.

#[global] Instance quiet_composable : Composable quiet.
Proof.
  constructor.
  - intros c Hw. split; [by repeat split|]. split; [|split].
    + unfold acct. cbn. split_and!; [done|lia|lia|constructor].
    + split; [done|]. exists []. by left.
    + split; [by left|done].
  - intros c1 m1 c2 m2 c3 Q1 Q2 Hw. destruct (Q1 Hw) as (S1 & (W1 & R1 & V1 & F1) & (L1 & B1) & (O1 & P1)).
    destruct (Q2 W1) as (S2 & (W2 & R2 & V2 & F2) & (L2 & B2) & (O2 & P2)).
    split; [|split; [|split; split]].
    + unfold same_static in *. destruct S1 as (? & ? & ? & ? & ?), S2 as (? & ? & ? & ? & ?).
      split_and!; congruence.
    + unfold acct. rewrite datalen_app, adjlen_app. split_and!; [done|lia|lia|].
      apply Forall_app. split; [done|]. destruct S1 as [<- _]. done.
    + intros Hl. destruct (L2 Hl) as [Hl2 E2]. destruct (L1 Hl2) as [Hl1 E1]. split; [done|].
      by rewrite bytes_app, E1, E2, app_assoc.
    + rewrite bytes_app. destruct B2 as [rest2 [->|[Hl2 E2]]].
      * rewrite app_nil_r. exact B1.
      * destruct (L1 Hl2) as [Hl1 E1]. exists rest2. right. split; [done|].
        by rewrite E1, E2, app_assoc.
    + destruct O2 as [->| ->]; [done|by right].
    + intros Hac. destruct (P2 Hac) as [Hac2 E2]. destruct (P1 Hac2) as [? E1]. split; [done|congruence].
Qed.

(** A change without packets. *)
Definition calm (c c' : Channel) : Prop :=
  same_static c c' /\ remote_window c' = remote_window c /\ local_window c' = local_window c /\
  local_consumed c' = local_consumed c /\ ext_held c' <= ext_held c /\
  (live c' -> live c /\ input c = input c') /\ sink c [] c'.

Lemma quiet_calm c c' : calm c c' -> quiet c [] c'.
Proof.
  intros (S & R & V & C & X & L & O) Hw. pose proof S as (S1 & _ & S3 & _ & S5).
  split; [done|]. split; [|split; [|done]].
  - unfold acct. cbn. split_and!; [|lia|lia|constructor].
    destruct Hw as (W1 & W2 & W3 & W4 & W5 & W6 & W7). unfold window_ok. rewrite S1, S3, S5, R, V, C.
    split_and!; try done; try lia. destruct O as [[->| ->] _]; [lia|].
    rewrite zlen_nil. pose proof (zlen_nonneg (output c)). lia.
  - split; [done|]. exists []. by left.
Qed.

Ltac calm := apply quiet_calm; unfold calm, same_static, sink, live, accepting, ext_held; cbn;
  split_and!; try done; try lia; try (left; done); try (by intros [?|?]); try (by intros [_ ?]);
  try tauto; try (intros; split; tauto || done).

(** A packet without data or adjustment. *)
Lemma quiet_packet c p :
  packet_len p = 0 -> packet_adj p = 0 -> packet_bytes p = [] -> quiet c [p] c.
Proof.
  intros Hl Ha Hb Hw. split; [by repeat split|]. split; [|split].
  - unfold acct. cbn. rewrite Hl, Ha. split_and!; [done|lia|lia|].
    repeat constructor; [|lia]. rewrite Hl. apply Hw.
  - split; cbn; rewrite Hb; [done|]. exists []. by left.
  - split; [by left|done].
Qed.

Section steps.
Context `{Compat} `{PacketLayer}.

Lemma quiet_done : sat quiet done_.
Proof. apply sat_done, _. Qed.

Lemma quiet_send p :
  packet_len p = 0 -> packet_adj p = 0 -> packet_bytes p = [] -> sat quiet (send p).
Proof.
  intros Hl Ha Hb c c' ms. unfold send. destruct (pkt_ok p); [|done]. intros [= <- <-]. by apply quiet_packet.
Qed.

Lemma quiet_need : sat quiet need_remote_id.
Proof. intros c c' ms. unfold need_remote_id. destruct (have_remote_id c); [|done]. intros [= <- <-]. apply rel_nil. Qed.

Lemma quiet_upd f : (forall c, calm c (f c)) -> sat quiet (upd f).
Proof. intros Hf c c' ms [= <- <-]. by apply quiet_calm. Qed.

Lemma quiet_if (b : Channel -> bool) f g :
  sat quiet f -> sat quiet g -> sat quiet (fun c => if b c then f c else g c).
Proof. intros Hf Hg c c' ms. destruct (b c); [apply Hf|apply Hg]. Qed.

Lemma quiet_flag f : sat quiet (upd (add_flag f)).
Proof. intros c c' ms [= <- <-]. calm. Qed.

Lemma quiet_set_closed : sat quiet (chan_set_istate CHAN_INPUT_CLOSED).
Proof. intros c c' ms [= <- <-]. calm. Qed.

Lemma quiet_set_oclosed : sat quiet (chan_set_ostate CHAN_OUTPUT_CLOSED).
Proof. intros c c' ms [= <- <-]. calm. Qed.

Lemma quiet_shutdown_read : sat quiet chan_shutdown_read.
Proof. intros c c' ms E. destruct (shutdown_read_eq _ _ _ E) as [-> [->| ->]]; [apply rel_nil|calm]. Qed.

Lemma quiet_shutdown_extended_read : sat quiet chan_shutdown_extended_read.
Proof. intros c c' ms E. destruct (shutdown_extended_read_eq _ _ _ E) as [-> [->| ->]]; [apply rel_nil|calm]. Qed.

(** Discarding the output of an end that then stops accepting. *)
Lemma quiet_shutdown_write k :
  (forall c c' ms, k c = Some (c', ms) -> ostate c' <> CHAN_OUTPUT_OPEN) -> sat quiet k ->
  sat quiet (andthen chan_shutdown_write k).
Proof.
  intros Hk Hq c c' ms E. apply andthen_inv in E as (c1 & m1 & m2 & E1 & E2 & ->).
  pose proof (Hk _ _ _ E2) as Hne. pose proof (Hq _ _ _ E2) as Q2. cbn [app].
  destruct (shutdown_write_eq _ _ _ E1) as [-> Hc1]. cbn [app]. intros Hw.
  assert (W1 : window_ok c1 /\ same_static c c1 /\ remote_window c1 = remote_window c /\
    local_window c1 = local_window c /\ (live c1 <-> live c) /\ input c1 = input c /\ output c1 = []).
  { pose proof (zlen_nonneg (output c)). unfold window_ok, same_static, live, ext_held in *.
    destruct Hc1 as [->| ->]; cbn [set_output set_fds set_bufs remote_window remote_maxpacket local_window
      local_consumed output extended extended_usage local_window_max local_maxpacket datagram istate input];
      change (zlen (@nil Z)) with 0; split_and!; tauto || lia || done. }
  destruct W1 as (W1 & (S1 & S2 & S3 & S4 & S5) & R1 & V1 & L1 & I1 & O1).
  destruct (Q2 W1) as ((T1 & T2 & T3 & T4 & T5) & (W2 & R2 & V2 & F2) & (L2 & B2) & (O2 & P2)).
  split; [|split; [|split; split]].
  - unfold same_static. split_and!; congruence.
  - unfold acct. rewrite <- S1. split_and!; [done|lia|lia|done].
  - intros Hl. destruct (L2 Hl). rewrite <- I1. tauto.
  - destruct B2 as [rest [?|[? ?]]]; exists rest; [by left|]. right. rewrite <- I1. tauto.
  - right. destruct O2; congruence.
  - intros [_ ?]. done.
Qed.

Lemma quiet_send_eof : sat quiet chan_send_eof2.
Proof.
  intros c c' ms. unfold chan_send_eof2. destruct (istate c); try apply quiet_done.
  apply sat_andthen; [apply _|apply quiet_need|].
  apply sat_andthen; [apply _|by apply quiet_send|apply quiet_flag].
Qed.

Lemma quiet_ibuf_empty : sat quiet chan_ibuf_empty.
Proof.
  intros c c' ms. unfold chan_ibuf_empty. destruct (negb _); [apply quiet_done|].
  destruct (istate c); try apply quiet_done.
  apply sat_andthen; [apply _| |apply quiet_set_closed]. apply quiet_if; [apply quiet_send_eof|apply quiet_done].
Qed.

Lemma quiet_obuf_empty : sat quiet chan_obuf_empty.
Proof.
  intros c c' ms. unfold chan_obuf_empty. destruct (negb _); [apply quiet_done|].
  destruct (ostate c); try apply quiet_done.
  apply quiet_shutdown_write; [|apply quiet_set_oclosed]. by intros c0 c0' ms0 [= <- _].
Qed.

Lemma quiet_read_failed : sat quiet chan_read_failed.
Proof.
  intros c c' ms. unfold chan_read_failed. destruct (istate c) eqn:Ei; try apply quiet_done.
  intros E. apply andthen_inv in E as (c1 & m1 & m2 & E1 & [= <- <-] & ->).
  destruct (shutdown_read_eq _ _ _ E1) as [-> [->| ->]]; calm; intros; (split; [by left|done]).
Qed.

Lemma quiet_rcvd_eow : sat quiet chan_rcvd_eow.
Proof.
  intros c c' ms. unfold chan_rcvd_eow. destruct (istate c); try apply quiet_done.
  apply sat_andthen; [apply _|apply quiet_shutdown_read|apply quiet_set_closed].
Qed.

Lemma quiet_send_eow : sat quiet chan_send_eow2.
Proof.
  intros c c' ms. unfold chan_send_eow2. case_bool_decide; [apply quiet_done|].
  destruct (negb _); [apply quiet_done|].
  apply sat_andthen; [apply _|apply quiet_need|by apply quiet_send].
Qed.

Lemma quiet_write_failed : sat quiet chan_write_failed.
Proof.
  intros c c' ms. unfold chan_write_failed.
  destruct (ostate c); try apply quiet_done; (apply quiet_shutdown_write;
    [intros c0 c0' ms0 E; by apply andthen_inv in E as (c1 & m1 & m2 & _ & [= <- _] & _)|];
    apply sat_andthen; [apply _| |apply quiet_set_oclosed];
    apply quiet_if; [apply quiet_send_eow|apply quiet_done]).
Qed.

Lemma quiet_after c c1 c' ms : calm c c1 -> quiet c1 ms c' -> quiet c ms c'.
Proof. intros Hc Hq. apply (rel_app c [] c1 ms); [by apply quiet_calm|done]. Qed.

Lemma calm_drain c : ostate c = CHAN_OUTPUT_OPEN -> calm c (set_ostate CHAN_OUTPUT_WAIT_DRAIN c).
Proof. intros Ho. unfold calm, same_static, sink, accepting, ext_held. cbn. split_and!; try done; by auto || by intros [_ ?]. Qed.

Lemma calm_flag f c : calm c (add_flag f c).
Proof. unfold calm, same_static, sink, ext_held. cbn. split_and!; try done. by left. Qed.

Lemma calm_refl c : calm c c.
Proof. unfold calm, same_static, sink. split_and!; try done. by left. Qed.

Lemma calm_type v c :
  ~ (v = SSH_CHANNEL_OPEN \/ v = SSH_CHANNEL_RDYNAMIC_OPEN \/ v = SSH_CHANNEL_RDYNAMIC_FINISH \/
     v = SSH_CHANNEL_X11_OPEN) -> calm c (set_type v c).
Proof.
  intros Hv. unfold calm, same_static, sink, accepting, ext_held. cbn. split_and!; try done; [by left|tauto].
Qed.

Lemma quiet_rcvd_ieof : sat quiet chan_rcvd_ieof.
Proof.
  intros c c' ms. unfold chan_rcvd_ieof. cbn zeta. intros E.
  eapply quiet_after; [apply (calm_flag CHAN_EOF_RCVD)|].
  set (c1 := add_flag CHAN_EOF_RCVD c) in *.
  set (c2 := if bool_decide (ostate c1 = CHAN_OUTPUT_OPEN) then _ else c1) in E.
  apply (quiet_after c1 c2).
  { unfold c2. destruct (decide (ostate c1 = CHAN_OUTPUT_OPEN)) as [Ho|Ho].
    - rewrite bool_decide_eq_true_2 by done. by apply calm_drain.
    - rewrite bool_decide_eq_false_2 by done. apply calm_refl. }
  destruct (_ && _); [by apply quiet_obuf_empty|by apply quiet_done].
Qed.

Lemma quiet_rcvd_oclose : sat quiet chan_rcvd_oclose.
Proof.
  intros c c' ms. unfold chan_rcvd_oclose. set (c1 := if negb _ then _ else c). intros E.
  apply (quiet_after c c1); [unfold c1; destruct (negb _); [apply calm_flag|apply calm_refl]|].
  destruct (_ =? _).
  { revert E. apply sat_andthen; [apply _|apply quiet_set_oclosed|apply quiet_set_closed]. }
  set (c2 := match ostate c1 with CHAN_OUTPUT_OPEN => _ | _ => c1 end) in E.
  apply (quiet_after c1 c2).
  { unfold c2. destruct (ostate c1) eqn:Eo; [by apply calm_drain|apply calm_refl..]. }
  revert E. destruct (istate c2); try apply quiet_done.
  - apply sat_andthen; [apply _|apply quiet_shutdown_read|].
    apply sat_andthen; [apply _|apply quiet_shutdown_extended_read|apply quiet_set_closed].
  - apply sat_andthen; [apply _|apply quiet_if; [apply quiet_send_eof|apply quiet_done]|].
    apply sat_andthen; [apply _|apply quiet_shutdown_extended_read|apply quiet_set_closed].
Qed.

Lemma quiet_send_close : sat quiet chan_send_close2.
Proof.
  intros c c' ms. unfold chan_send_close2. destruct (_ || _); [apply quiet_done|].
  destruct (has _ c); [apply quiet_done|].
  apply sat_andthen; [apply _|apply quiet_need|].
  apply sat_andthen; [apply _|by apply quiet_send|apply quiet_flag].
Qed.

Lemma quiet_is_dead do_send c b c' ms :
  chan_is_dead do_send c = Some (b, c', ms) -> quiet c ms c'.
Proof.
  unfold chan_is_dead. intros E. destruct (_ =? _); [simplify_eq; apply rel_nil|].
  destruct (_ || _); [simplify_eq; apply rel_nil|]. destruct (_ && _); [simplify_eq; apply rel_nil|].
  destruct (has CHAN_LOCAL c); [simplify_eq; apply rel_nil|].
  destruct (negb _); [|simplify_eq; apply rel_nil]. destruct do_send.
  - destruct (chan_send_close2 c) as [[c1 m1]|] eqn:E1; [|done]. simplify_eq. by apply quiet_send_close.
  - destruct (has CHAN_CLOSE_RCVD c); simplify_eq; apply rel_nil.
Qed.

(** ** Sending data *)

Lemma quiet_send_data c len :
  live c -> 0 <= len <= zlen (input c) -> len <= remote_window c -> len <= remote_maxpacket c ->
  quiet c [MData (ztake len (input c))]
    (set_remote_window (u32 (remote_window c - len)) (set_input (zdrop len (input c)) c)).
Proof.
  intros Hl Hlen Hw Hm (W1 & W2 & W3 & W4 & W5 & W6 & W7).
  assert (Hd : zlen (ztake len (input c)) = len) by (by apply zlen_ztake).
  assert (Hr : u32 (remote_window c - len) = remote_window c - len) by (apply u32_small; lia).
  split; [done|]. split; [|split].
  - unfold acct. cbn. rewrite Hd, Hr. split_and!; [|lia|lia|].
    + unfold window_ok, ext_held in *. cbn. rewrite ?Hr. split_and!; done || lia.
    + repeat constructor; cbn; lia.
  - split.
    + intros _. split; [done|]. cbn. by rewrite app_nil_r, ztake_zdrop.
    + exists (zdrop len (input c)). right. split; [done|]. cbn. by rewrite app_nil_r, ztake_zdrop.
  - split; [by left|done].
Qed.

Lemma quiet_poll_input c c' ms :
  live c -> channel_output_poll_input_open c = Some (c', ms) -> quiet c ms c'.
Proof.
  intros Hl. unfold channel_output_poll_input_open. destruct (zlen (input c) =? 0).
  { destruct (istate c); try apply quiet_done.
    destruct (CHANNEL_EFD_INPUT_ACTIVE c); [apply quiet_done|apply quiet_ibuf_empty]. }
  destruct (negb (have_remote_id c)); [done|]. intros E Hwin. pose proof Hwin as (W1 & W2 & _ & _ & _ & _ & W7).
  destruct (flavour_plain c W7) as (P1 & _). rewrite P1 in E. cbn zeta in E.
  pose proof (clamp_spec (zlen (input c)) (remote_window c) (remote_maxpacket c) (zlen_nonneg _)
    ltac:(lia) W2) as Hcl. cbn zeta in Hcl. set (len := if _ >? remote_maxpacket c then _ else _) in *.
  destruct (Z.eqb_spec len 0); [by apply (quiet_done c c' ms E)|].
  unfold andthen, send, upd in E. destruct (pkt_ok _); [|done]. injection E as <- <-.
  by apply quiet_send_data; try lia.
Qed.

Lemma quiet_poll_extended c c' ms :
  extended_usage c = CHAN_EXTENDED_READ ->
  channel_output_poll_extended_read c = Some (c', ms) -> quiet c ms c'.
Proof.
  intros Hu. unfold channel_output_poll_extended_read. destruct (zlen (extended c) =? 0); [apply quiet_done|].
  intros E Hwin. pose proof Hwin as (W1 & W2 & W3 & W4 & W5 & W6 & W7). cbn zeta in E.
  pose proof (clamp_spec (zlen (extended c)) (remote_window c) (remote_maxpacket c) (zlen_nonneg _)
    ltac:(lia) W2) as Hcl. cbn zeta in Hcl. set (len := if _ >? remote_maxpacket c then _ else _) in *.
  destruct (Z.eqb_spec len 0); [by apply (quiet_done c c' ms E)|].
  apply send_upd_eq in E as [-> ->].
  assert (Hd : zlen (ztake len (extended c)) = len) by (apply zlen_ztake; lia).
  assert (Hr : u32 (remote_window c - len) = remote_window c - len) by (apply u32_small; lia).
  split; [done|]. split; [|split].
  - unfold acct. cbn. rewrite Hd, Hr. split_and!; [|lia|lia|].
    + unfold window_ok, ext_held in *. cbn. rewrite ?Hr, Hu in *. cbn in *. split_and!; done || lia.
    + repeat constructor; cbn; lia.
  - split; [done|]. exists []. by left.
  - split; [by left|done].
Qed.

Lemma quiet_output_poll : sat quiet channel_output_poll.
Proof.
  intros c c' ms. unfold channel_output_poll. destruct (negb _); [apply quiet_done|].
  destruct (has _ c); [apply quiet_done|]. apply sat_andthen; [apply _| |].
  - intros c1 c1' ms1. destruct (istate c1) eqn:Ei; try apply quiet_done; apply quiet_poll_input; [by left|by right].
  - intros c1 c1' ms1. destruct (negb (has CHAN_EOF_SENT c1)); cbn [andb]; [|apply quiet_done].
    destruct (Z.eqb_spec (extended_usage c1) CHAN_EXTENDED_READ); [by apply quiet_poll_extended|apply quiet_done].
Qed.

Lemma quiet_check_window : sat quiet channel_check_window.
Proof.
  intros c c' ms. unfold channel_check_window. destruct (_ && _); [|apply quiet_done].
  intros [-> ->]%send_upd_eq (W1 & W2 & W3 & W4 & W5 & W6 & W7).
  pose proof (zlen_nonneg (output c)). assert (Hx : 0 <= ext_held c)
    by (unfold ext_held; destruct (_ =? _); [apply zlen_nonneg|done]).
  assert (Hr : u32 (local_window c + local_consumed c) = local_window c + local_consumed c) by (apply u32_small; lia).
  split; [done|]. split; [|split].
  - unfold acct. cbn. rewrite Hr. split_and!; [|lia|lia|].
    + unfold window_ok, ext_held in *. cbn. rewrite ?Hr. split_and!; done || lia.
    + repeat constructor; cbn; lia.
  - split; [done|]. exists []. by left.
  - split; [by left|done].
Qed.

(** ** Forced closing *)

Definition no_data (c : Channel) (ms : list chan_msg) (c' : Channel) : Prop :=
  datalen ms = 0 /\ adjlen ms = 0 /\ bytes ms = [] /\ Forall (fun p => packet_len p = 0 /\ packet_adj p = 0) ms.

Lemma no_data_nil c c' : no_data c [] c'.
Proof. by repeat split. Qed.

#[local] Instance no_data_composable : Composable no_data.
Proof.
  constructor; [by repeat split|]. intros c1 m1 c2 m2 c3 (A1 & A2 & A3 & A4) (B1 & B2 & B3 & B4).
  unfold no_data. rewrite datalen_app, adjlen_app, bytes_app, A3, B3. split_and!; [lia|lia|done|].
  by apply Forall_app.
Qed.

Lemma no_data_send p : packet_len p = 0 -> packet_adj p = 0 -> packet_bytes p = [] -> sat no_data (send p).
Proof.
  intros Hl Ha Hb c c' ms. unfold send. destruct (pkt_ok p); [|done]. intros [= <- <-].
  unfold no_data. cbn. rewrite Hl, Ha, Hb. split_and!; [lia|lia|done|]. by repeat constructor.
Qed.

Lemma no_data_silent f : (forall c c' ms, f c = Some (c', ms) -> ms = []) -> sat no_data f.
Proof. intros Hf c c' ms E. rewrite (Hf _ _ _ E). by repeat split. Qed.

Lemma no_data_send_upd p f : packet_len p = 0 -> packet_adj p = 0 -> packet_bytes p = [] ->
  sat no_data (andthen need_remote_id (andthen (send p) (upd f))).
Proof.
  intros Hl Ha Hb. apply sat_andthen; [apply _| |apply sat_andthen; [apply _|by apply no_data_send|]].
  - apply no_data_silent. intros c c' ms. unfold need_remote_id. destruct (have_remote_id c); [by intros [= _ <-]|done].
  - apply no_data_silent. by intros c c' ms [= _ <-].
Qed.

(** What [chan_ibuf_empty] and [chan_write_failed] do to the two states. *)
Lemma ibuf_empty_states c c' ms :
  chan_ibuf_empty c = Some (c', ms) ->
  no_data c ms c' /\ ostate c' = ostate c /\
  (input c = [] -> istate c <> CHAN_INPUT_OPEN -> ~ live c').
Proof.
  unfold chan_ibuf_empty. destruct (Z.eqb_spec (zlen (input c)) 0) as [E0|Hn0]; cbn [negb].
  2: { intros [= <- <-]. split; [apply no_data_nil|]. split; [done|]. intros E. by rewrite E, zlen_nil in Hn0. }
  assert (Hdone : istate c <> CHAN_INPUT_WAIT_DRAIN -> done_ c = Some (c', ms) ->
    no_data c ms c' /\ ostate c' = ostate c /\ (input c = [] -> istate c <> CHAN_INPUT_OPEN -> ~ live c')).
  { intros Hi [= <- <-]. split; [apply no_data_nil|]. split; [done|]. unfold live. tauto. }
  destruct (istate c) eqn:Ei; try (by apply Hdone). clear Hdone. intros E.
  apply andthen_inv in E as (c1 & m1 & m2 & E1 & [= <- <-] & ->). rewrite app_nil_r.
  assert (Hm : no_data c m1 c1 /\ ostate c1 = ostate c).
  { destruct (negb (has _ c)); [|injection E1 as <- <-; split; [apply no_data_nil|done]].
    unfold chan_send_eof2 in E1. rewrite Ei in E1.
    split; [by eapply no_data_send_upd, E1|]. by apply send_upd_eq in E1 as [-> _]. }
  destruct Hm as [Hm Ho]. split; [done|]. split; [done|]. intros _ _. unfold live. cbn. by intros [?|?].
Qed.

Lemma write_failed_states c c' ms :
  chan_write_failed c = Some (c', ms) ->
  no_data c ms c' /\ istate c' = istate c /\ ostate c' <> CHAN_OUTPUT_OPEN.
Proof.
  unfold chan_write_failed. intros E.
  assert (Hgo : (andthen chan_shutdown_write (andthen (fun c => if session c then chan_send_eow2 c else done_ c)
    (chan_set_ostate CHAN_OUTPUT_CLOSED))) c = Some (c', ms) ->
    no_data c ms c' /\ istate c' = istate c /\ ostate c' <> CHAN_OUTPUT_OPEN).
  { clear E. intros E. apply andthen_inv in E as (c1 & m1 & m2 & E1 & E2 & ->).
    apply andthen_inv in E2 as (c2 & m3 & m4 & E2 & [= <- <-] & ->). rewrite app_nil_r.
    destruct (shutdown_write_eq _ _ _ E1) as [-> Hc1]. cbn [app].
    assert (Hm : c2 = c1 /\ no_data c m3 c2).
    { destruct (session c1); [|injection E2 as <- <-; split; [done|apply no_data_nil]].
      unfold chan_send_eow2 in E2. destruct (bool_decide _); [injection E2 as <- <-; split; [done|apply no_data_nil]|].
      destruct (negb _); [injection E2 as <- <-; split; [done|apply no_data_nil]|].
      apply send_eq in E2 as [-> ->]. split; [done|]. by repeat constructor. }
    destruct Hm as [-> Hm]. split; [done|]. cbn. split; [|done]. by destruct Hc1 as [->| ->]. }
  destruct (ostate c) eqn:Eo; try (by apply Hgo); injection E as <- <-;
    (split; [apply no_data_nil|]; split; [done|congruence]).
Qed.

(** Discarding a buffer, seen without its content. *)
Definition coarse (c : Channel) (ms : list chan_msg) (c' : Channel) : Prop :=
  window_ok c -> same_static c c' /\ acct c ms c' /\ (output c' = output c \/ output c' = []).

#[local] Instance coarse_composable : Composable coarse.
Proof.
  constructor.
  - intros c Hw. destruct (rel_nil (R := quiet) c Hw) as (? & ? & _). split_and!; auto.
  - intros c1 m1 c2 m2 c3 Q1 Q2 Hw. destruct (Q1 Hw) as (S1 & (W1 & R1 & V1 & F1) & O1).
    destruct (Q2 W1) as (S2 & (W2 & R2 & V2 & F2) & O2).
    split; [|split].
    + unfold same_static in *. destruct S1 as (? & ? & ? & ? & ?), S2 as (? & ? & ? & ? & ?). split_and!; congruence.
    + unfold acct. rewrite datalen_app, adjlen_app. split_and!; [done|lia|lia|].
      apply Forall_app. split; [done|]. destruct S1 as [<- _]. done.
    + destruct O2 as [->| ->]; [done|by right].
Qed.

Lemma quiet_coarse f : sat quiet f -> sat coarse f.
Proof. intros Hf c c' ms E Hw. destruct (Hf _ _ _ E Hw) as (? & ? & _ & ? & _). done. Qed.

Lemma coarse_input : sat coarse (upd (set_input [])).
Proof.
  intros c c' ms [= <- <-] Hw. split; [done|]. split; [|by left].
  unfold acct. cbn. split_and!; [done|lia|lia|constructor].
Qed.

Lemma coarse_output : sat coarse (upd (set_output [])).
Proof.
  intros c c' ms [= <- <-] Hw. split; [done|]. split; [|by right].
  unfold acct. cbn. split_and!; [|lia|lia|constructor].
  pose proof (zlen_nonneg (output c)). unfold window_ok, ext_held in *. cbn [set_output set_bufs remote_window remote_maxpacket local_window
      local_consumed output extended extended_usage local_window_max datagram].
  change (zlen (@nil Z)) with 0. split_and!; tauto || lia || done.
Qed.

Lemma coarse_open : sat coarse (upd (set_type SSH_CHANNEL_OPEN)).
Proof.
  intros c c' ms [= <- <-] Hw. split; [done|]. split; [|by left].
  unfold acct. cbn. split_and!; [done|lia|lia|constructor].
Qed.

Lemma quiet_rdynamic_close : sat quiet rdynamic_close.
Proof.
  intros c c' ms E Hw.
  assert (Hc : coarse c ms c').
  { revert E. unfold rdynamic_close. repeat (apply sat_andthen; [apply _| |]);
      first [apply coarse_open|apply coarse_input|apply coarse_output|
             apply quiet_coarse; first [apply quiet_read_failed|apply quiet_ibuf_empty|apply quiet_write_failed]]. }
  destruct (Hc Hw) as (S1 & A1 & O1). split; [done|]. split; [done|].
  unfold rdynamic_close in E. apply andthen_inv in E as (c1 & m1 & n1 & [= <- <-] & E & ->).
  apply andthen_inv in E as (c2 & m2 & n2 & E2 & E & ->). apply andthen_inv in E as (c3 & m3 & n3 & [= <- <-] & E & ->).
  apply andthen_inv in E as (c4 & m4 & n4 & E4 & E & ->). apply andthen_inv in E as (c5 & m5 & n5 & [= <- <-] & E6 & ->).
  destruct (write_failed_states _ _ _ E6) as ((_ & _ & B6 & _) & I6 & O6).
  destruct (ibuf_empty_states _ _ _ E4) as ((_ & _ & B4 & _) & _ & L4).
  assert (R2 : m2 = [] /\ istate c2 <> CHAN_INPUT_OPEN).
  { unfold chan_read_failed in E2. cbn [istate set_type] in E2. destruct (istate c) eqn:Ei;
      [|injection E2 as <- <-; cbn; split; [done|congruence]..].
    apply andthen_inv in E2 as (c6 & m6 & n6 & E6' & [= <- <-] & ->).
    destruct (shutdown_read_eq _ _ _ E6') as [-> _]. done. }
  destruct R2 as [-> R2]. cbn [app].
  assert (Hnl : ~ live c').
  { unfold live. rewrite I6. cbn. apply (L4 eq_refl R2). }
  split; [split|split].
  - tauto.
  - exists []. left. by rewrite bytes_app, B4, B6.
  - done.
  - intros [_ ?]. done.
Qed.

(** ** Local events *)

Definition local_event (e : event) (c : Channel) : Prop :=
  match e with
  | ERecv _ => False
  | EWrite (Some n) _ _ => n <= zlen (output c)
  | EEfdWrite (Some n) => n <= zlen (extended c)
  | _ => True
  end.

(** Bytes read from, and written to, the local descriptors. *)
Definition reads (e : event) (c : Channel) : list Z :=
  match e with ERead (IOData buf) _ => if rfd c =? -1 then [] else buf | _ => [] end.
Definition writes (e : event) (c : Channel) : list Z :=
  match e with
  | EWrite (Some n) _ _ => if (wfd c =? -1) || (zlen (output c) =? 0) || (n <=? 0) then [] else ztake n (output c)
  | _ => []
  end.

Definition moved (rd wr : list Z) (c : Channel) (ms : list chan_msg) (c' : Channel) : Prop :=
  same_static c c' /\ acct c ms c' /\
  ((live c' -> live c /\ input c ++ rd = bytes ms ++ input c') /\
   exists rest, bytes ms = [] \/ (live c /\ input c ++ rd = bytes ms ++ rest)) /\
  (exists rest, output c = wr ++ output c' ++ rest) /\
  (accepting c' -> accepting c /\ output c = wr ++ output c').

Lemma quiet_moved c ms c' : window_ok c -> quiet c ms c' -> moved [] [] c ms c'.
Proof.
  intros Hw Hq. destruct (Hq Hw) as (S & A & (L & B) & (O & P)). split; [done|]. split; [done|].
  split; [split|split].
  - intros Hl. rewrite app_nil_r. by apply L.
  - destruct B as [rest B]. exists rest. by rewrite app_nil_r.
  - destruct O as [->| ->]; [exists []; by rewrite app_nil_r|by exists (output c)].
  - intros Ha. destruct (P Ha) as [? ->]. done.
Qed.

Lemma quiet_fail f : sat quiet f -> sat quiet (chan_fail f).
Proof.
  intros Hf c c' ms. unfold chan_fail. destruct (negb _); [|apply Hf]. intros [= <- <-].
  apply quiet_calm, calm_type. intros [?|[?|[?|?]]]; done.
Qed.

Lemma acct_same c c' :
  window_ok c -> same_static c c' -> remote_window c' = remote_window c -> local_window c' = local_window c ->
  0 <= local_consumed c' ->
  local_consumed c' + zlen (output c') + ext_held c' <= local_consumed c + zlen (output c) + ext_held c ->
  acct c [] c'.
Proof.
  intros (W1 & W2 & W3 & W4 & W5 & W6 & W7) (S1 & S2 & S3 & S4 & S5) R V C L. unfold acct. cbn.
  split_and!; [|lia|lia|constructor]. unfold window_ok. rewrite R, V, S1, S3, S5. split_and!; done || lia.
Qed.

Lemma moved_write c n :
  window_ok c -> 0 < n <= zlen (output c) ->
  moved [] (ztake n (output c)) c []
    (set_local (local_window c) (u32 (local_consumed c + (zlen (output c) - zlen (zdrop n (output c)))))
       (set_output (zdrop n (output c)) c)).
Proof.
  intros Hw Hn. pose proof Hw as (W1 & W2 & W3 & W4 & W5 & W6 & W7).
  pose proof (ext_held_nonneg c) as Hx.
  assert (Hz : zlen (zdrop n (output c)) = zlen (output c) - n) by (apply zlen_zdrop; lia).
  rewrite Hz. replace (zlen (output c) - (zlen (output c) - n)) with n by lia.
  rewrite u32_small by lia. split; [done|]. split; [|split; [split|split]].
  - apply acct_same; try done; cbn; [lia|]. unfold ext_held in *. cbn. rewrite Hz. lia.
  - intros Hl. by rewrite app_nil_r.
  - exists []. by left.
  - exists []. cbn. by rewrite app_nil_r, ztake_zdrop.
  - intros Ha. cbn. by rewrite ztake_zdrop.
Qed.

Lemma quiet_pre_open_drain : sat quiet channel_pre_open_drain.
Proof.
  intros c c' ms. unfold channel_pre_open_drain. destruct (_ || _); [|apply quiet_done].
  destruct (_ >? _); [apply quiet_done|]. case_bool_decide; [|apply quiet_done].
  destruct (CHANNEL_EFD_OUTPUT_ACTIVE c); [apply quiet_done|apply quiet_obuf_empty].
Qed.

Lemma local_moved e c c' ms :
  window_ok c -> local_event e c -> step e c = Some (c', ms) -> moved (reads e c) (writes e c) c ms c'.
Proof.
  intros Hw He. pose proof Hw as (W1 & W2 & W3 & W4 & W5 & W6 & W7). destruct (flavour_plain c W7) as (P1 & P2 & P3).
  assert (Hq : forall f, sat quiet f -> f c = Some (c', ms) -> moved [] [] c ms c')
    by (intros f Hf E; apply quiet_moved; [done|by apply Hf]).
  destruct e as [r flt|r flt h|r|r| | | |b| | | | |m]; cbn [step reads writes local_event] in *.
  - unfold channel_handle_rfd. destruct (rfd c =? -1).
    { destruct r; apply Hq, quiet_done. }
    destruct r as [| |buf]; [apply Hq, quiet_done|apply Hq, quiet_fail, quiet_read_failed|].
    rewrite P2. unfold chan_put_any, chan_put. rewrite P1. destruct (_ >? _); [done|]. intros [= <- <-]. split; [done|]. split; [|split; [split|split]].
    + by apply acct_same.
    + by intros Hl.
    + exists []. by left.
    + exists []. cbn. by rewrite app_nil_r.
    + done.
  - unfold channel_handle_wfd, handle_wfd_data. rewrite P1, P3. cbn zeta. intros E. destruct r as [n|].
    2: { revert E. destruct (_ || _); apply Hq, quiet_done. }
    destruct ((wfd c =? -1) || (zlen (output c) =? 0)); cbn [orb]; [by apply (Hq _ quiet_done)|].
    destruct (Z.leb_spec n 0); [by apply (Hq _ (quiet_fail _ quiet_write_failed))|].
    rewrite P1 in E. apply andthen_inv in E as (c1 & m1 & m2 & E1 & E2 & ->).
    assert (c1 = c /\ m1 = []) as [-> ->].
    { revert E1. unfold send_ignore. destruct (_ && h); [|by intros [= <- <-]].
      destruct (ignore_ok _); [|done]. by intros [= <- <-]. }
    apply andthen_inv in E2 as (c2 & m3 & m4 & E2 & [= <- <-] & ->).
    destruct (Z.gtb_spec n (zlen (output c))); [lia|]. injection E2 as <- <-. apply (moved_write c n); [done|lia].
  - unfold channel_handle_efd_read. intros E. apply quiet_moved; [done|]. revert E.
    destruct (_ || _) eqn:Eo; [apply quiet_done|]. destruct r as [| |buf]; [apply quiet_done| |].
    + intros [= <- <-]. calm.
    + destruct (Z.eqb_spec (extended_usage c) CHAN_EXTENDED_IGNORE); [apply quiet_done|].
      unfold chan_put. destruct (_ >? _); [done|]. intros [= <- <-]. apply orb_false_iff in Eo as [_ Eo].
      destruct (Z.eqb_spec (extended_usage c) CHAN_EXTENDED_READ) as [Eu|]; [|discriminate Eo].
      apply quiet_calm. unfold calm, same_static, sink, ext_held. cbn. rewrite Eu. cbn. split_and!; try done. by left.
  - unfold channel_handle_efd_write. intros E.
    destruct (_ || _) eqn:Eo; [by apply (Hq _ quiet_done)|].
    destruct r as [n|]; [|by apply (Hq _ quiet_done)].
    destruct (Z.leb_spec n 0).
    + injection E as <- <-. apply quiet_moved; [done|]. calm.
    + injection E as <- <-. apply orb_false_iff in Eo as [Eo _]. apply orb_false_iff in Eo as [_ Eu].
      apply negb_false_iff in Eu. pose proof (zlen_nonneg (output c)).
      assert (Hz : zlen (zdrop n (extended c)) = zlen (extended c) - n) by (apply zlen_zdrop; lia).
      unfold ext_held in W5. rewrite Eu in W5. pose proof (zlen_nonneg (extended c)).
      split; [done|]. split; [|split; [split|split]].
      * apply acct_same; try done; cbn; rewrite u32_small by lia; [lia|].
        unfold ext_held. cbn. rewrite Eu, Hz. lia.
      * intros Hl. by rewrite app_nil_r.
      * exists []. by left.
      * exists []. cbn. by rewrite app_nil_r.
      * done.
  - unfold channel_pre_open. cbn zeta. destruct (channel_pre_open_drain c) as [[c1 m1]|] eqn:E; [|done].
    intros [= <- <-]. apply quiet_moved; [done|]. by apply quiet_pre_open_drain.
  - apply Hq, quiet_check_window.
  - apply Hq, quiet_output_poll.
  - destruct (chan_is_dead b c) as [[[b' c1] m1]|] eqn:E; [|done]. intros [= <- <-].
    apply quiet_moved; [done|]. by eapply quiet_is_dead.
  - apply Hq, quiet_read_failed.
  - apply Hq, quiet_write_failed.
  - intros [= <- <-]. apply quiet_moved; [done|]. apply quiet_calm, calm_type. intros [?|[?|[?|?]]]; done.
  - apply Hq, quiet_rdynamic_close.
  - done.
Qed.

(** ** Receiving *)

Lemma quiet_input_ieof : sat quiet channel_input_ieof.
Proof.
  apply sat_andthen; [apply _|apply quiet_rcvd_ieof|]. intros c c' ms.
  destruct (force_drain c); cbn [andb]; [|apply quiet_done].
  case_bool_decide as Hi; [|apply quiet_done]. intros E.
  apply (quiet_after c (set_istate CHAN_INPUT_WAIT_DRAIN c)).
  { unfold calm, same_static, sink, ext_held, live. cbn. split_and!; try done; [|by left]. auto. }
  destruct (_ =? _); [by apply quiet_ibuf_empty|by apply quiet_done].
Qed.

Lemma recv_quiet p c c' ms :
  packet_len p = 0 -> (forall n, p <> MAdjust n) -> (forall d, p <> MData d) -> (forall t d, p <> MExtData t d) ->
  step (ERecv p) c = Some (c', ms) -> quiet c ms c'.
Proof.
  intros Hl Ha Hd He. destruct p as [| | |d|t d|n]; cbn [step].
  - apply quiet_input_ieof.
  - apply quiet_rcvd_oclose.
  - apply quiet_rcvd_eow.
  - by destruct (Hd d).
  - by destruct (He t d).
  - by destruct (Ha n).
Qed.

(** Data within the window and the packet size is accepted or, when the output
    is closing, accounted for. *)
Lemma recv_data d c :
  window_ok c -> zlen d <= local_window c -> zlen d <= local_maxpacket c ->
  exists c', step (ERecv (MData d)) c = Some (c', []) /\ same_static c c' /\ window_ok c' /\
    remote_window c' = remote_window c /\ local_window c - zlen d <= local_window c' /\
    istate c' = istate c /\ input c' = input c /\ (accepting c' <-> accepting c) /\
    ((accepting c /\ output c' = output c ++ d) \/ (~ accepting c /\ output c' = output c)).
Proof.
  intros (W1 & W2 & W3 & W4 & W5 & W6 & W7) Hl Hm. pose proof (zlen_nonneg d) as Hd.
  pose proof (zlen_nonneg (output c)).
  pose proof (ext_held_nonneg c) as Hx.
  destruct (flavour_plain c W7) as (P1 & _). cbn [step]. unfold channel_input_data. rewrite P1. cbn zeta.
  destruct (negb (type c =? SSH_CHANNEL_OPEN) && _ && _ && _) eqn:Et.
  { assert (Hna : ~ accepting c).
    { intros [Ht _]. rewrite !andb_true_iff, !negb_true_iff, !Z.eqb_neq in Et. tauto. }
    exists c. split; [done|]. split_and!; try done; try lia. by right. }
  assert (Hty : type c = SSH_CHANNEL_OPEN \/ type c = SSH_CHANNEL_RDYNAMIC_OPEN \/
    type c = SSH_CHANNEL_RDYNAMIC_FINISH \/ type c = SSH_CHANNEL_X11_OPEN).
  { rewrite !andb_false_iff, !negb_false_iff, !Z.eqb_eq in Et. tauto. }
  case_bool_decide as Ho; cbn [negb].
  - destruct (Z.gtb_spec (zlen d) (local_maxpacket c)); [lia|].
    destruct (Z.gtb_spec (zlen d) (local_window c)); [lia|]. unfold chan_put_any, chan_put. cbn [datagram set_local output]. rewrite P1.
    destruct (Z.gtb_spec (zlen (output c) + zlen d) SSHBUF_SIZE_MAX); [unfold SSHBUF_SIZE_MAX in *; lia|].
    eexists. split; [done|]. rewrite u32_small by lia. cbn. split_and!; try done; try lia.
    + unfold window_ok, ext_held in *. cbn. rewrite zlen_app. split_and!; done || lia.
    + left. done.
  - eexists. split; [done|]. rewrite !u32_small by lia. cbn. split_and!; try done; try lia.
    + unfold window_ok, ext_held in *. cbn. split_and!; done || lia.
    + right. split; [|done]. intros [_ ?]. done.
Qed.

Lemma recv_ext_data t d c c' ms :
  window_ok c -> zlen d <= local_window c ->
  step (ERecv (MExtData t d)) c = Some (c', ms) ->
  ms = [] /\ same_static c c' /\ window_ok c' /\
  remote_window c' = remote_window c /\ local_window c - zlen d <= local_window c' /\
  istate c' = istate c /\ input c' = input c /\ (accepting c' <-> accepting c) /\ output c' = output c.
Proof.
  intros Hw Hl E. pose proof Hw as (W1 & W2 & W3 & W4 & W5 & W6 & W7). pose proof (zlen_nonneg d).
  pose proof (zlen_nonneg (output c)). pose proof (zlen_nonneg (extended c)). pose proof (ext_held_nonneg c).
  cbn [step] in E. unfold channel_input_extended_data in E.
  assert (Hd : done_ c = Some (c', ms) -> ms = [] /\ same_static c c' /\ window_ok c' /\
    remote_window c' = remote_window c /\ local_window c - zlen d <= local_window c' /\
    istate c' = istate c /\ input c' = input c /\ (accepting c' <-> accepting c) /\ output c' = output c).
  { intros [= <- <-]. split_and!; try done; lia. }
  destruct (negb (type c =? _)); [by apply Hd|]. destruct (_ && _); [done|].
  destruct (_ || _) eqn:Eo; [by apply Hd|]. destruct (Z.gtb_spec (zlen d) (local_window c)); [lia|].
  apply orb_false_iff in Eo as [Eo _]. apply orb_false_iff in Eo as [_ Eu].
  apply negb_false_iff in Eu. unfold chan_put in E.
  destruct (Z.gtb_spec (zlen (extended c) + zlen d) SSHBUF_SIZE_MAX).
  { unfold SSHBUF_SIZE_MAX, ext_held in *. rewrite Eu in W5. lia. }
  injection E as <- <-. rewrite u32_small by lia. cbn. split_and!; try done; try lia.
  unfold window_ok, ext_held in *. cbn. rewrite Eu in *. rewrite zlen_app. split_and!; done || lia.
Qed.

Lemma recv_adjust n c :
  window_ok c -> 0 <= n -> remote_window c + n < 2 ^ 32 ->
  step (ERecv (MAdjust n)) c = Some (set_remote_window (remote_window c + n) c, []).
Proof.
  intros (W1 & _) Hn Hlt. cbn [step]. unfold channel_input_window_adjust. rewrite u32_small by lia.
  cbn zeta. by destruct (Z.ltb_spec (remote_window c + n) (remote_window c)); [lia|].
Qed.

End steps.

(** * Two ends and the packets between them *)

(** One end: its channel, the packets it sent that the peer has not received,
    and the logs of bytes read from its descriptor, written to its descriptor,
    and received in data packets. *)
Record side := mk_side {
  chan : Channel;
  sentq : list chan_msg;
  rlog : list Z;
  wlog : list Z;
  dlog : list Z;
}.

Section network.
Context `{Compat} `{PacketLayer}.

(** The first end acts on its own, or receives the oldest packet of the second;
    or the second does. *)
Inductive net_step : side * side -> side * side -> Prop :=
  | NLocal e c q rl wl dl c' ms R :
      local_event e c -> step e c = Some (c', ms) ->
      net_step (mk_side c q rl wl dl, R) (mk_side c' (q ++ ms) (rl ++ reads e c) (wl ++ writes e c) dl, R)
  | NRecv c q rl wl dl c' ms p cS qS rlS wlS dlS :
      step (ERecv p) c = Some (c', ms) ->
      net_step (mk_side c q rl wl dl, mk_side cS (p :: qS) rlS wlS dlS)
               (mk_side c' (q ++ ms) rl wl (dl ++ packet_bytes p), mk_side cS qS rlS wlS dlS)
  | NSwap S R S' R' : net_step (S, R) (S', R') -> net_step (R, S) (R', S').

(** ** The invariant of one direction, from [S] to [R] *)

(** What the sender may still send, what is under way and the adjustments under
    way are within what the receiver has granted. *)
Definition credit_ok (S R : side) : Prop :=
  remote_window (chan S) + datalen (sentq S) + adjlen (sentq R) <= local_window (chan R) /\
  remote_maxpacket (chan S) <= local_maxpacket (chan R).

Definition sender_ok (S R : side) : Prop :=
  exists rest, dlog R ++ bytes (sentq S) ++ rest = rlog S /\ (live (chan S) -> rest = input (chan S)).

Definition receiver_ok (R : side) : Prop :=
  exists rest, dlog R = wlog R ++ output (chan R) ++ rest /\ (accepting (chan R) -> rest = []).

Definition end_ok (S : side) : Prop :=
  window_ok (chan S) /\ Forall (packet_fits (remote_maxpacket (chan S))) (sentq S).

Definition dir_ok (S R : side) : Prop :=
  end_ok S /\ credit_ok S R /\ sender_ok S R /\ receiver_ok R.

Definition net_ok (n : side * side) : Prop := dir_ok n.1 n.2 /\ dir_ok n.2 n.1.

Lemma adjlen_nonneg max q : Forall (packet_fits max) q -> 0 <= adjlen q.
Proof. induction 1 as [|p q [_ Hp] Hq IH]; cbn; lia. Qed.

(** A step of one end that sends [ms], as seen by both directions. *)
Lemma end_ok_moved c q ms c' rl wl dl rl' wl' dl' :
  same_static c c' -> acct c ms c' -> end_ok (mk_side c q rl wl dl) ->
  end_ok (mk_side c' (q ++ ms) rl' wl' dl').
Proof.
  intros (S1 & _) (A1 & A2 & A3 & A4) [E1 E2]. split; [done|]. cbn in *. rewrite S1. by apply Forall_app.
Qed.

Lemma credit_ok_sent c q ms c' rl wl dl rl' wl' dl' R :
  same_static c c' -> acct c ms c' -> credit_ok (mk_side c q rl wl dl) R ->
  credit_ok (mk_side c' (q ++ ms) rl' wl' dl') R.
Proof.
  intros (S1 & _) (A1 & A2 & A3 & A4). unfold credit_ok. cbn. rewrite datalen_app, S1. lia.
Qed.

Lemma credit_ok_granted c q ms c' rl wl dl rl' wl' dl' S :
  same_static c c' -> acct c ms c' -> credit_ok S (mk_side c q rl wl dl) ->
  credit_ok S (mk_side c' (q ++ ms) rl' wl' dl').
Proof.
  intros (_ & S2 & _) (A1 & A2 & A3 & A4). unfold credit_ok. cbn. rewrite adjlen_app, S2. lia.
Qed.

Lemma sender_ok_moved c q ms c' rl wl dl rd wl' dl' R :
  (live c' -> live c /\ input c ++ rd = bytes ms ++ input c') ->
  (exists rest, bytes ms = [] \/ (live c /\ input c ++ rd = bytes ms ++ rest)) ->
  sender_ok (mk_side c q rl wl dl) R -> sender_ok (mk_side c' (q ++ ms) (rl ++ rd) wl' dl') R.
Proof.
  intros HL (r0 & HB) (rest & E & Hl). unfold sender_ok. cbn in *. rewrite bytes_app. destruct HB as [HB|[Hc HB]].
  - rewrite HB, app_nil_r in *. exists (rest ++ rd). split; [by rewrite <- E, <- !app_assoc|].
    intros Hl'. destruct (HL Hl') as [Hlc Ei]. by rewrite (Hl Hlc).
  - exists r0. rewrite (Hl Hc) in E. rewrite <- E, <- !app_assoc, HB. split; [done|].
    intros Hl'. destruct (HL Hl') as [_ Ei]. rewrite HB in Ei. by apply app_inv_head in Ei.
Qed.

Lemma receiver_ok_moved c q ms c' rl wl dl wr rl' :
  (exists rest, output c = wr ++ output c' ++ rest) ->
  (accepting c' -> accepting c /\ output c = wr ++ output c') ->
  receiver_ok (mk_side c q rl wl dl) -> receiver_ok (mk_side c' (q ++ ms) rl' (wl ++ wr) dl).
Proof.
  intros (r0 & HO) HP (rest & E & Ha). unfold receiver_ok. cbn in *. exists (r0 ++ rest).
  split; [by rewrite E, HO, <- !app_assoc|]. intros Hac. destruct (HP Hac) as [Hac' EO].
  rewrite (Ha Hac'), app_nil_r. rewrite HO, app_assoc in EO.
  apply (app_inv_head (wr ++ output c')). by rewrite EO, app_nil_r.
Qed.

Lemma local_preserves e c q rl wl dl c' ms R :
  local_event e c -> step e c = Some (c', ms) ->
  net_ok (mk_side c q rl wl dl, R) ->
  net_ok (mk_side c' (q ++ ms) (rl ++ reads e c) (wl ++ writes e c) dl, R).
Proof.
  intros He E [(D1 & D2 & D3 & D4) (F1 & F2 & F3 & F4)].
  destruct (local_moved e c c' ms (proj1 D1) He E) as (M1 & M2 & (M3 & M4) & M5 & M6).
  split; cbn [fst snd]; (split; [|split; [|split]]).
  - by eapply end_ok_moved.
  - by eapply credit_ok_sent.
  - by eapply sender_ok_moved.
  - done.
  - done.
  - by eapply credit_ok_granted.
  - done.
  - by eapply receiver_ok_moved.
Qed.

(** What receiving a packet does. *)
Definition received (p : chan_msg) (c : Channel) (ms : list chan_msg) (c' : Channel) : Prop :=
  same_static c c' /\ window_ok c' /\ Forall (packet_fits (remote_maxpacket c)) ms /\
  remote_window c' + datalen ms <= remote_window c + packet_adj p /\
  local_window c + adjlen ms - packet_len p <= local_window c' /\
  ((live c' -> live c /\ input c = bytes ms ++ input c') /\
   exists rest, bytes ms = [] \/ (live c /\ input c = bytes ms ++ rest)) /\
  ((accepting c /\ output c' = output c ++ packet_bytes p) \/
   (~ accepting c' /\ exists rest, output c = output c' ++ rest)).

Lemma quiet_received p c ms c' :
  window_ok c -> packet_len p = 0 -> packet_adj p = 0 -> packet_bytes p = [] ->
  quiet c ms c' -> received p c ms c'.
Proof.
  intros Hw Hl Ha Hb Hq. destruct (Hq Hw) as (S & (A1 & A2 & A3 & A4) & L & (O & P)). unfold received.
  rewrite Hl, Ha, Hb. split_and!; try done; try lia; try apply L.
  destruct (decide (accepting c')) as [Hac|Hna].
  - left. destruct (P Hac) as [? ->]. by rewrite app_nil_r.
  - right. split; [done|]. destruct O as [->| ->]; [exists []; by rewrite app_nil_r|by exists (output c)].
Qed.

Lemma recv_received p c c' ms :
  window_ok c -> packet_len p <= local_window c -> packet_len p <= local_maxpacket c ->
  0 <= packet_adj p -> remote_window c + packet_adj p < 2 ^ 32 ->
  step (ERecv p) c = Some (c', ms) -> received p c ms c'.
Proof.
  intros Hw Hl Hm Ha Hr E. destruct p as [| | |d|t d|n]; cbn [packet_len packet_adj] in *;
    try (by apply quiet_received; [..|eapply recv_quiet; [| | | |exact E]]).
  - destruct (recv_data d c Hw Hl Hm) as (c1 & E1 & S & W & R & V & I & B & P & O).
    rewrite E1 in E. injection E as <- <-. unfold received, live. cbn. rewrite I, B.
    split_and!; try done; try lia; [exists []; by left|]. destruct O as [[? ?]|[? EO]]; [by left|].
    right. split; [tauto|]. exists []. by rewrite EO, app_nil_r.
  - destruct (recv_ext_data t d c c' ms Hw Hl E) as (-> & S & W & R & V & I & B & P & O).
    unfold received, live. cbn. rewrite I, B, O, app_nil_r.
    split_and!; try done; try lia; [exists []; by left|]. destruct (decide (accepting c)); [by left|].
    right. split; [tauto|]. exists []. by rewrite app_nil_r.
  - rewrite recv_adjust in E by done. injection E as <- <-.
    destruct Hw as (W1 & W2 & W3 & W4 & W5 & W6 & W7).
    unfold received. cbn. rewrite app_nil_r. split_and!; try done; try lia.
    + unfold window_ok. cbn. split_and!; done || lia.
    + exists []. by left.
    + destruct (decide (accepting c)); [by left|]. right. split; [done|]. exists []. by rewrite app_nil_r.
Qed.

(** A packet under way is within the receiver's window and packet size, and an
    adjustment does not overflow. *)
Lemma head_bounds R c p q rl wl dl :
  net_ok (R, mk_side c (p :: q) rl wl dl) ->
  packet_len p <= local_window (chan R) /\ packet_len p <= local_maxpacket (chan R) /\
  0 <= packet_adj p /\ remote_window (chan R) + packet_adj p < 2 ^ 32.
Proof.
  intros [((W & FR) & (C1 & C2) & _) ((W' & F) & (C1' & C2') & _)]. cbn [fst snd chan sentq] in *.
  apply Forall_cons in F as [[P1 P2] F]. cbn [datalen adjlen] in *.
  pose proof (datalen_nonneg q). pose proof (adjlen_nonneg _ _ F). pose proof (adjlen_nonneg _ _ FR).
  pose proof (datalen_nonneg (sentq R)). destruct W as (W1 & _). destruct W' as (V1 & V2 & V3 & V4 & V5 & V6 & V7).
  pose proof (zlen_nonneg (output c)). pose proof (ext_held_nonneg c). lia.
Qed.

Lemma recv_preserves c q rl wl dl c' ms p cS qS rlS wlS dlS :
  step (ERecv p) c = Some (c', ms) ->
  net_ok (mk_side c q rl wl dl, mk_side cS (p :: qS) rlS wlS dlS) ->
  net_ok (mk_side c' (q ++ ms) rl wl (dl ++ packet_bytes p), mk_side cS qS rlS wlS dlS).
Proof.
  intros E Hn. pose proof (head_bounds _ _ _ _ _ _ _ Hn) as (B1 & B2 & B3 & B4).
  destruct Hn as [(D1 & D2 & D3 & D4) (F1 & F2 & F3 & F4)]. cbn [fst snd chan] in *.
  destruct (recv_received p c c' ms (proj1 D1) B1 B2 B3 B4 E) as ((S1 & S2 & S3 & S4 & S5) & W & F & R & V & (L1 & L2) & O).
  destruct D1 as [_ D1], F1 as [W' F1]. unfold credit_ok in *. cbn [chan sentq datalen adjlen] in *.
  apply Forall_cons in F1 as [_ F1].
  split; cbn [fst snd]; (split; [|split; [|split]]).
  - split; [done|]. cbn. rewrite S1. by apply Forall_app.
  - unfold credit_ok. cbn. rewrite datalen_app, S1. lia.
  - rewrite <- (app_nil_r rl). eapply sender_ok_moved; [..|exact D3]; by rewrite app_nil_r.
  - done.
  - by split.
  - unfold credit_ok. cbn. rewrite adjlen_app, S2. lia.
  - destruct F3 as (rest & Er & Hr). exists rest. split; [|done]. cbn in *. by rewrite <- Er, <- !app_assoc.
  - destruct F4 as (rest & Ed & Ha). unfold receiver_ok. cbn in *. rewrite Ed. destruct O as [[Hac ->]|[Hna [r EO]]].
    + exists []. by rewrite (Ha Hac), !app_nil_r, <- app_assoc.
    + exists (r ++ rest ++ packet_bytes p). rewrite EO, <- !app_assoc. split; [done|tauto].
Qed.

Lemma net_step_ok n n' : net_step n n' -> net_ok n -> net_ok n'.
Proof.
  induction 1 as [e c q rl wl dl c' ms R He E|c q rl wl dl c' ms p cS qS rlS wlS dlS E|S R S' R' Hs IH].
  - by apply local_preserves.
  - by apply recv_preserves.
  - intros [? ?]. destruct IH; by split.
Qed.

Lemma net_reachable_ok n n' : rtc net_step n n' -> net_ok n -> net_ok n'.
Proof. induction 1; [done|]. intros. eauto using net_step_ok. Qed.

(** The size of the windows stays. *)
Definition maxima (n : side * side) : Z * Z := (local_window_max (chan n.1), local_window_max (chan n.2)).

Lemma net_step_static n n' : net_step n n' -> net_ok n -> maxima n' = maxima n.
Proof.
  induction 1 as [e c q rl wl dl c' ms R He E|c q rl wl dl c' ms p cS qS rlS wlS dlS E|S R S' R' Hs IH]; intros Hn.
  - destruct Hn as [((W & _) & _) _]. destruct (local_moved e c c' ms W He E) as ((_ & _ & M & _) & _).
    unfold maxima. cbn. by rewrite M.
  - pose proof (head_bounds _ _ _ _ _ _ _ Hn) as (B1 & B2 & B3 & B4). destruct Hn as [((W & _) & _) _].
    destruct (recv_received p c c' ms W B1 B2 B3 B4 E) as ((_ & _ & M & _) & _). unfold maxima. cbn. by rewrite M.
  - destruct Hn. specialize (IH ltac:(by split)). unfold maxima in *. cbn in *. by injection IH as -> ->.
Qed.

Lemma net_reachable_static n n' : rtc net_step n n' -> net_ok n -> maxima n' = maxima n.
Proof.
  induction 1 as [|n1 n2 n3 Hs _ IH]; intros Hn; [done|].
  rewrite IH by eauto using net_step_ok. by apply net_step_static.
Qed.

(** ** Two fresh ends *)

(** A stream channel just opened: nothing buffered, the windows agreed. *)
Definition fresh (c : Channel) : Prop :=
  input c = [] /\ output c = [] /\ extended c = [] /\ local_consumed c = 0 /\
  datagram c = false /\ input_filter c = false /\ output_filter c = false /\
  local_window c = local_window_max c /\ 0 <= local_window_max c <= SSHBUF_SIZE_MAX.

Definition agreed (c c' : Channel) : Prop :=
  0 <= remote_window c <= local_window c' /\ 0 <= remote_maxpacket c <= local_maxpacket c'.

Definition start (c : Channel) : side := mk_side c [] [] [] [].

Lemma start_dir_ok c c' : fresh c -> fresh c' -> agreed c c' -> dir_ok (start c) (start c').
Proof.
  intros (F1 & F2 & F3 & F4 & F5 & F6 & F7 & F8 & F9) (G1 & G2 & G3 & G4 & G5 & G6 & G7 & G8 & G9) (A1 & A2).
  unfold SSHBUF_SIZE_MAX in *.
  split; [|split; [|split]].
  - split; [|constructor]. unfold window_ok, ext_held, flavour. cbn. rewrite F2, F3, F4, F5, F6, F7. change (zlen (@nil Z)) with 0.
    destruct (_ =? _); split_and!; done || lia.
  - unfold credit_ok. cbn. lia.
  - exists []. cbn. by rewrite F1.
  - exists []. cbn. by rewrite G2.
Qed.

(** C4: the data channel.  Two ends of a channel start empty with agreed windows
    and then take local events and deliver packets in any interleaving, closing,
    failing reads and writes included.  At any time what one end has written to
    its descriptor is a prefix of what the other has read from its own; while the
    reader has not been shut down and the writer accepts data, the bytes read are
    the bytes written, buffered, under way and still to be sent, in this order and
    without loss; what waits at the receiver is within its window; and the next
    packet under way, if data, is appended whole to the output buffer, and if a
    window adjustment, is taken without overflow. *)
Theorem channel_stream a b S R :
  fresh a -> fresh b -> agreed a b -> agreed b a ->
  rtc net_step (start a, start b) (S, R) ->
  wlog R `prefix_of` rlog S /\
  (live (chan S) -> accepting (chan R) ->
   rlog S = wlog R ++ output (chan R) ++ bytes (sentq S) ++ input (chan S)) /\
  zlen (output (chan R)) <= local_window_max b /\
  (forall d q, sentq S = MData d :: q -> accepting (chan R) ->
   exists c', step (ERecv (MData d)) (chan R) = Some (c', []) /\ output c' = output (chan R) ++ d) /\
  (forall n q, sentq S = MAdjust n :: q ->
   step (ERecv (MAdjust n)) (chan R) = Some (set_remote_window (remote_window (chan R) + n) (chan R), [])).
Proof.
  intros Fa Fb Aab Aba Hr.
  assert (Hs : net_ok (start a, start b)) by (split; by apply start_dir_ok).
  pose proof (net_reachable_ok _ _ Hr Hs) as Hn.
  pose proof Hn as [(D1 & D2 & D3 & D4) (F1 & F2 & F3 & F4)]. cbn [fst snd] in *.
  pose proof (net_reachable_static _ _ Hr Hs) as Hmax. injection Hmax as _ Hmax.
  destruct D3 as (rest & ES & HS), D4 as (rest' & ER & HR), F1 as [(W1 & W2 & W3 & W4 & W5 & W6 & W7) _].
  split; [|split; [|split; [|split]]].
  - exists (output (chan R) ++ rest' ++ bytes (sentq S) ++ rest). by rewrite <- ES, ER, <- !app_assoc.
  - intros Hl Ha. rewrite <- ES, ER, (HS Hl), (HR Ha). by rewrite app_nil_r, <- app_assoc.
  - pose proof (ext_held_nonneg (chan R)). cbn in Hmax. lia.
  - intros d q Eq Ha. destruct S as [c q0 rl wl dl]. cbn in Eq. subst q0.
    pose proof (head_bounds R c _ q rl wl dl (conj (proj2 Hn) (proj1 Hn))) as (B1 & B2 & _).
    destruct (recv_data d (chan R)) as (c' & E & _ & _ & _ & _ & _ & _ & _ & [[_ EO]|[Hna _]]); try done.
    by exists c'.
  - intros n q Eq. destruct S as [c q0 rl wl dl]. cbn in Eq. subst q0.
    pose proof (head_bounds R c _ q rl wl dl (conj (proj2 Hn) (proj1 Hn))) as (_ & _ & B3 & B4).
    by apply recv_adjust.
Qed.

(** ** Running a schedule *)

#[global] Instance local_event_dec e c : Decision (local_event e c).
Proof. destruct e as [| [] | | [] | | | | | | | | |]; cbn; apply _. Defined.

(** An event at the first end; nothing stands for the delivery of a packet. *)
Definition act (m : option event) (n : side * side) : option (side * side) :=
  let '(mk_side c q rl wl dl, R) := n in
  match m, R with
  | Some e, _ =>
      if decide (local_event e c) then
        match step e c with
        | None => None
        | Some (c', ms) => Some (mk_side c' (q ++ ms) (rl ++ reads e c) (wl ++ writes e c) dl, R)
        end
      else None
  | None, mk_side cS (p :: qS) rlS wlS dlS =>
      match step (ERecv p) c with
      | None => None
      | Some (c', ms) => Some (mk_side c' (q ++ ms) rl wl (dl ++ packet_bytes p), mk_side cS qS rlS wlS dlS)
      end
  | None, _ => None
  end.

Definition swap (n : side * side) : side * side := (n.2, n.1).

Fixpoint schedule (ms : list (bool * option event)) (n : side * side) : option (side * side) :=
  match ms with
  | [] => Some n
  | (first, m) :: ms =>
      match (if first : bool then act m n else swap <$> act m (swap n)) with
      | None => None
      | Some n => schedule ms n
      end
  end.

Lemma act_step m n n' : act m n = Some n' -> net_step n n'.
Proof.
  destruct n as [[c q rl wl dl] R]. unfold act. destruct m as [e|].
  - destruct (decide (local_event e c)); [|done]. destruct (step e c) as [[c' ms]|] eqn:E; [|done].
    intros [= <-]. by constructor.
  - destruct R as [cS [|p qS] rlS wlS dlS]; [done|]. destruct (step (ERecv p) c) as [[c' ms]|] eqn:E; [|done].
    intros [= <-]. by constructor.
Qed.

Lemma schedule_steps ms n n' : schedule ms n = Some n' -> rtc net_step n n'.
Proof.
  revert n. induction ms as [|[b m] ms IH]; intros n; cbn [schedule]; [intros [= ->]; by apply rtc_refl|].
  destruct b.
  - destruct (act m n) as [n1|] eqn:E; [|done]. intros Hs. eapply rtc_l; [by eapply act_step|by apply IH].
  - destruct (act m (swap n)) as [[A B]|] eqn:E; [|done]. cbn [fmap option_fmap option_map]. intros Hs. eapply rtc_l; [|by apply IH].
    destruct n as [C D]. apply NSwap. by apply (act_step m (D, C)).
Qed.

End network.

Definition demo_schedule : list (bool * option event) :=
  [(true, Some (ERead (IOData [1; 2; 3; 4; 5]) no_filter)); (true, Some EOutputPoll); (false, None);
   (false, Some (EWrite (Some 3) (None, []) false)); (false, Some ECheckWindow); (true, None); (true, Some EOutputPoll)].

Lemma channel_stream_witness :
  exists S R, @schedule demo_compat demo_packets demo_schedule (start (demo_chan 4), start (demo_chan 4)) = Some (S, R) /\
    wlog R = [1; 2; 3] /\ sentq S = [MData [5]] /\ wlog R `prefix_of` rlog S /\
    rlog S = wlog R ++ output (chan R) ++ bytes (sentq S) ++ input (chan S) /\
    exists c', @step demo_compat demo_packets (ERecv (MData [5])) (chan R) = Some (c', []) /\ output c' = output (chan R) ++ [5].
Proof.
  destruct (@schedule demo_compat demo_packets demo_schedule (start (demo_chan 4), start (demo_chan 4)))
    as [[S R]|] eqn:E; [|vm_compute in E; discriminate E].
  assert (F : fresh (demo_chan 4)) by (unfold fresh, demo_chan; cbn [input output extended local_consumed datagram input_filter output_filter local_window local_window_max]; split_and!; first [reflexivity|unfold SSHBUF_SIZE_MAX; lia]).
  assert (A : agreed (demo_chan 4) (demo_chan 4)) by (unfold agreed; cbn; lia).
  destruct (@channel_stream demo_compat demo_packets (demo_chan 4) (demo_chan 4) S R F F A A
              (schedule_steps _ _ _ E)) as (P1 & P2 & _ & P3 & _).
  exists S, R. vm_compute in E. injection E as <- <-.
  split; [reflexivity|]. split; [reflexivity|]. split; [reflexivity|]. split; [exact P1|].
  assert (HA : accepting (demo_chan 4)) by (split; [left; reflexivity|reflexivity]).
  split; [apply P2; [left; reflexivity|exact HA]|]. by apply (P3 [5] []).
Defined.
